(* ===== verification/_CoqProject ===== *)
-Q . S2P
Prelude.v
ASCII.v
HashTable.v
DFA.v
DFABytecode.v
DFABytecodeCompiler.v
CompilerLayout.v
DFABytecodeInterpreter.v
BytecodeCorrect.v
Bytecode.v
HashFunctions.v
StringHasher.v
BitVector.v
NFA.v
NFAToDFA.v
NFAToDFACorrect.v
SubsetConstruction.v
DFAViews.v
Partition.v
DFAMinimizer.v
Refinement.v
MinimizerPartition.v
SimplifyTransitions.v
Minimize.v
ConvertLayout.v
Graph.v
Term.v
TermGraph.v
CombinedURLFilters.v
PrefixTree.v
CreateNFAs.v
URLFilterParser.v
PatternSemantics.v
RegexParser.v
WTFString.v
StringBuilder.v
StringBuilderCorrect.v
Rules.v
SerializeActions.v
SerializeCorrect.v
ResourceTypes.v
RuleParser.v
RuleParserCorrect.v
CompileRuleList.v
FiltersCorrect.v
AutomataCorrect.v
CompileCorrect.v
URLCharacters.v
StringOps.v
URL.v
URLParse.v
URLSafety.v
URLLayout.v
URLAssemble.v
URLRoundTrip.v
URLCorrect.v
URLEncode.v
URLInit.v
URLInitCorrect.v
URLReferences.v
TextCodecUTF8.v
UTF8Spec.v
UTF8Decode.v
UTF8RoundTrip.v
WTFUnicode.v
WTFUnicodeCorrect.v
DecodeEscapeSequences.v
SchemeRegistry.v
SecurityOrigin.v
OriginCreation.v
SecurityPolicy.v
OriginRules.v
OriginCorrect.v
URLUserInfo.v
OriginAccess.v
Whitelists.v
OriginDivergences.v
ContentExtensionsBackend.v
BackendCorrect.v
BackendDecisions.v
