(* ===== verification/Prelude.v ===== *)
(** * A verification development for WebKit's content-extension engine and its foundations

    The program is a snapshot of WebKit: WTF, a JavaScript interpreter, WebCore
    and the two API layers.  This development models the part of it that is an
    algorithm from text to decisions: the engine that compiles content-blocking
    rules to bytecode, runs it on the URLs of loads and changes the requests
    ([WebCore/contentextensions]), the parser of URLs ([WebCore/platform/URL]),
    the origins and the policy that decide which document may use which URL
    ([WebCore/page/SecurityOrigin], [SecurityPolicy]), the UTF-8 codec, and what
    they stand on ([WTF/wtf]).

    ** The engine, and the files that model it

    [compileRuleList] takes the text of a rule list.  The rule parser makes it
    rules ([RuleParser.v], from [ContentExtensionParser.cpp]); the actions are
    serialized ([SerializeActions.v], from [ContentExtensionCompiler.cpp], and
    [Rules.v], from [ContentExtensionRule.h] and [ContentExtensionActions.h]);
    each filter is parsed to a list of terms ([URLFilterParser.v] and [Term.v],
    from [URLFilterParser.cpp] and [Term.h]) that is added to a prefix tree
    ([CombinedURLFilters.v]); the tree is cut into automata ([NFA.v],
    [Graph.v]), which become deterministic ([DFA.v], [NFAToDFA.v]), minimal
    ([Partition.v] and [DFAMinimizer.v]) and bytecode ([DFABytecodeCompiler.v],
    [DFABytecode.v]).  [DFABytecodeInterpreter.v] runs the bytecode on a URL.
    [CompileRuleList.v] composes them as [compileRuleList] does.
    [ContentExtensionsBackend.v] is the other side: the backend keeps the compiled
    rule lists, asks the interpreter for the actions of a load and applies them to
    the request, to the style sheets of the document or to those that its loader
    keeps until it commits ([ContentExtensionsBackend.cpp],
    [ContentExtension.cpp], [CompiledContentExtension.cpp],
    [ContentExtensionStyleSheet.cpp], and what [UserContentController.cpp],
    [DocumentLoader.cpp] and [DocumentStyleSheetCollection.cpp] do for them).
    [BackendCorrect.v] and [BackendDecisions.v] are its theorems.
    The other files named after a method with [Correct], and [Bytecode.v], [BytecodeCorrect.v],
    [CompilerLayout.v], [SubsetConstruction.v], [DFAViews.v],
    [Refinement.v], [MinimizerPartition.v], [SimplifyTransitions.v], [Minimize.v],
    [ConvertLayout.v], [TermGraph.v], [PrefixTree.v], [CreateNFAs.v],
    [PatternSemantics.v] and [RegexParser.v] hold the theorems about the file they come after.

    ** The foundations

    [ASCII.v] is [ASCIICType.h]; [HashFunctions.v] is [HashFunctions.h] and the
    bit counts of [StdLibExtras.h]; [BitVector.v] is [BitVector.h] and [.cpp];
    [WTFString.v] and [StringOps.v] are what the modelled code uses of [String]
    and [StringImpl]; [StringBuilder.v] is [StringBuilder.h] and [.cpp];
    [HashTable.v] states what clients of [HashMap] and [HashSet] see;
    [StringHasher.v] is the hash of text of [StringHasher.h], with its theorem.
    [ResourceTypes.v] is [ResourceLoadInfo.h].

    ** URLs

    [URLCharacters.v], [URL.v] and [URLParse.v] are the parser and the accessors of
    [URL.h] and [URL.cpp], [URLEncode.v] the host names and the queries of
    references, [URLInit.v] the resolution of a reference against a base and the
    setters.  [URLLayout.v] is the specification: a URL is the text of its parts,
    and its ends are sums of their lengths.  [URLSafety.v], [URLAssemble.v] and
    [URLRoundTrip.v] prove that the parser meets it, and [URLCorrect.v] states it;
    [URLInitCorrect.v] and [URLReferences.v] do so for references and setters.
    [URLUserInfo.v] is what stands on both the parser and the text conversions:
    percent-encoding, the user, the password and the path, referrers, and the
    questions about one URL or two, with their theorems.

    ** Text

    [TextCodecUTF8.v] is [TextCodecUTF8.cpp] with the tests of [ASCIIFastPath.h]:
    the decoder gets pieces of bytes at addresses, which decide where it looks at
    whole words, and keeps the bytes of a character that is not complete.
    [UTF8Spec.v] is the specification: a relation between bytes and characters.
    [UTF8Decode.v] and [UTF8RoundTrip.v] prove that the one implements the other.
    [WTFUnicode.v] is the other codec, of [WTF/wtf/unicode/UTF8.cpp] and of
    [String::utf8] and [String::fromUTF8], with the comparison and the hash by
    which an [AtomicString] is looked up; [WTFUnicodeCorrect.v] has its theorems,
    against the same specification.  [DecodeEscapeSequences.v] is the
    percent-decoding of [DecodeEscapeSequences.h].

    ** Origins and policy

    [SchemeRegistry.v] is [SchemeRegistry.cpp]: sets of schemes that ignore case.
    [SecurityOrigin.v], [OriginCreation.v] and [SecurityPolicy.v] are
    [SecurityOrigin.cpp], [OriginAccessEntry.cpp], [SecurityPolicy.cpp] and the
    part of [ResourceLoadInfo.cpp] that asks for the party of a load.  An origin is
    an object with an identity, since the code compares addresses: the state
    ([World]) has a heap of origins, the registry of schemes, the white lists and
    the origins of the blob URLs, and [OriginRef] is an address with the object
    behind it, or an object that was just made.  [run] is the step relation of the
    operations on a world; [OriginAccess.v] has its invariants by rule induction.
    [OriginRules.v] has the lemmas on schemes and on what the origins of canonical
    URLs are made of; [OriginCorrect.v], [OriginAccess.v], [Whitelists.v] and
    [OriginDivergences.v] have the theorems.

    ** Conventions

    An unsigned integer is an [N], and the operations that can wrap are written
    with [wrap32] and its siblings.  The positions of [URL::parse] and the size of
    its output buffer are of type [int]: they are an [N] too, and [None] above
    [int_max].  A [Vector] is a list; [None] is an access out
    of range, a [RELEASE_ASSERT] or a [CRASH] that is reached, or behaviour that
    C++ leaves undefined, such as an [int] that overflows, so that a theorem with a result that is [Some] says that
    there is none of that.  Assertions that only debug builds check are not
    modelled.  Code that mutates an object is a function from the object to the
    object; a shared vector, such as those of a [DFA], is part of the state that
    is passed on.  Errors are values of a sum or an option.  Each definition that
    models code names the file and the lines, relative to [Source].

    Loops whose recursion is not structural take fuel.  Where the fuel is a bound
    of the source (the bytes that are left, the nodes of the automaton, the
    characters of a text), it is computed in the definition; the theorems that
    say the code returns show that it is enough.  [convert], [createNFAs] and
    [compileRuleList] take their fuel as an argument: [convert_returns] and
    [createNFAs_correct] show that some fuel is enough, and the result does not
    depend on it.

    Interfaces stand for the code that is not in the repository:
    [HashOrder] for the order in which hash collections are iterated over,
    [Yarr] for the parser of regular expressions that calls the delegate of
    [URLFilterParser], [JSC] for the JSON parser and the objects of
    JavaScriptCore, [ICU] for Unicode and [Encodings] for the text encodings other
    than UTF-8.

    ** The theorems

    - From end to end: [compileRuleList_correct], and the theorems on each stage:
      parsing rules ([parseRuleList_ok], [parseRuleList_roundtrip]), serializing
      actions ([serializeActions_roundtrip]), parsing filters
      ([parser_addPattern_correct], [simplifySunkTerms_matches]), the prefix tree
      ([addPattern_spec], [createNFAs_correct]), the automata of terms
      ([generateGraph_correct]), determinization ([convert_correct],
      [convert_returns]), minimization ([minimize_correct]) and bytecode
      ([interpret_compiled], [compile_all_returns],
      [actionsFromDFARoot_compiled]).  Their languages are the interface between
      the stages: what a stage gives back matches the words that it was given.
    - Data: equality and hashing of terms and bit vectors, the operations of bit
      vectors as operations on sets, strings and builders as lists of characters.
      From text to requests: [rules_decide_requests] composes the compiler, the
      interpreter and the backend, against a specification that knows only the
      rules, the languages of their filters and the flags of the load.
    - URLs: [parse_refines_parts], [parse_accessors], [parse_canonical],
      [init_well_formed], [init_absolute], [setters_canonical],
      [credentials_roundtrip], [stripped_spec], [url_comparisons],
      [lastPathComponent_spec].  A canonical URL may name a user and a password.
    - UTF-8: [decode_refines] for bytes that come at once, [encode_decode_roundtrip]
      for the pieces of what the encoder wrote; [utf8_modes], [fromUTF8_spec] and
      [utf8_translator_spec] for strings; [percent_roundtrip] for the text of
      URLs; [hasher_refines] for the hash of text that is given in parts.
    - Origins: [unique_origins_isolated] and [whitelist_provenance] are safety
      properties of every reachable state; [third_party_spec],
      [origin_string_roundtrip] and [whitelist_add_remove] describe the answers
      for canonical URLs and for entries of the white lists.
    - Limits: what the code does not do right is excluded by hypotheses, and the
      divergences below show why.  [within_limits] of [compileRuleList_correct] and
      [rules_decide_requests] excludes automata with a node of 126 transitions
      without a fallback ([no_gap], also in [minimize_correct]) and some nodes with
      transitions on the end of the input ([nul_distinct], [nul_ok]);
      [no_ignored_everything] a rule that the loop over the actions takes for
      unreachable.  [parse_limit], 715827882, is the length of the longest texts
      for which no [int] of the parser overflows, three times as much and one being
      the largest [int]; [parse_canonical] shows that longer ones do overflow, and
      [reference_limit], the same number, bounds what the setters parse.
      [canonical] keeps to texts that the parser does not change; [has_origin] to
      schemes whose origins are not unique; [text_steps] to the operations of
      [StringBuilder] that keep its buffer.  [builder_limit] and [encoder_limit] are
      sizes under which no buffer grows beyond what can be allocated.
    - Divergences: theorems on concrete inputs where the code does not do what it
      means to ([minimize_divergences], [builder_divergences],
      [merge_out_of_bounds], [parse_not_idempotent], [init_reads_beyond],
      [decode_pieces_lose_characters], [origin_identity_divergences],
      [origin_policy_divergences], [backend_divergences], [unicode_divergences],
      [url_part_divergences]).

    ** Not modelled

    Debug dumps, logging, timing and memory statistics of the modelled files; the
    open-addressing tables behind the hash collections; the numbers of type
    [double] in strings; the MIME types of URLs, other than of data URLs; the
    conversion of international host names and the text encodings other than
    UTF-8, which are interfaces; the parser of style sheets, to which the backend
    gives texts; the blobs behind the blob URLs; the locks around the registries.
    Of the other parts of WebKit: documents, styles, rendering, editing, networking,
    storage, platform glue and the API layers, which are graphs of
    reference-counted objects with scripts, painting and processes behind every
    operation; the JavaScript interpreter and its regular expressions; the memory
    allocator. *)

From stdpp Require Export base numbers list option gmap.


#[global] Set Default Goal Selector "!".

(** ** Scope and notation *)

Declare Scope webkit_scope.
Delimit Scope webkit_scope with webkit.
#[global] Open Scope N_scope.

(** Lookup of a [WTF::Vector] (or of a C array) at an unsigned index.  The
    [None] answer is the crash of [Vector::at] on an index that is out of
    range, and the undefined read of a C array. *)
Notation "l !!N i" := (l !! N.to_nat i) (at level 20, i at next level) : webkit_scope.
Notation "<[ i :=N x ]> l" := (<[ N.to_nat i := x ]> l)
  (at level 5, right associativity, format "<[ i :=N x ]>  l") : webkit_scope.
#[global] Open Scope webkit_scope.

(** ** Machine integers

    Unsigned integers are [N]; the conversions and the arithmetic that can wrap
    are written out with these truncations. *)

Definition wrap8 (x : N) : N := x mod 2 ^ 8.
Definition wrap16 (x : N) : N := x mod 2 ^ 16.
Definition wrap32 (x : N) : N := x mod 2 ^ 32.
Definition wrap64 (x : N) : N := x mod 2 ^ 64.

(** [std::numeric_limits<T>::max()]. *)
Definition max8 : N := 255.
Definition max16 : N := 65535.
Definition max32 : N := 4294967295.
Definition max64 : N := 18446744073709551615.

(** The value of a [char], which is signed on the platforms the code is built
    for, from its byte. *)
Definition char_value (byte : N) : Z :=
  if byte <? 128 then Z.of_N byte else (Z.of_N byte - 256)%Z.

(** ** Little-endian memory

    [*reinterpret_cast<IntType*>(p)] reads and writes [sizeof(IntType)] bytes,
    least significant byte first. *)

Fixpoint le_bytes (size : nat) (v : N) : list N :=
  match size with
  | O => []
  | S size' => v mod 256 :: le_bytes size' (v / 256)
  end.

Fixpoint le_value (bytes : list N) : N :=
  match bytes with
  | [] => 0
  | b :: bytes' => b + 256 * le_value bytes'
  end.

(** The [size] bytes at [index], [None] when they are not all in the buffer. *)
Definition read_bytes (size : nat) (buffer : list N) (index : N) : option (list N) :=
  let bytes := take size (drop (N.to_nat index) buffer) in
  if (length bytes =? size)%nat then Some bytes else None.

Definition write_bytes (bytes : list N) (buffer : list N) (index : N) : option (list N) :=
  let i := N.to_nat index in
  if (i + length bytes <=? length buffer)%nat
  then Some (take i buffer ++ bytes ++ drop (i + length bytes) buffer)
  else None.

(** ** Loops *)

(** The values of [i] in [for (i = first; i < last; ++i)]. *)
Definition for_range (first last : N) : list N :=
  (fun i => first + N.of_nat i) <$> seq 0 (N.to_nat (last - first)).

(** A loop whose body can crash. *)
Fixpoint foldM {A B} (body : B -> A -> option B) (state : B) (l : list A) : option B :=
  match l with
  | [] => Some state
  | a :: l' => state' ← body state a; foldM body state' l'
  end.

(** [vector[index] = value], which crashes on an index that is out of range. *)
Definition vec_set {A} (l : list A) (index : N) (value : A) : option (list A) :=
  if (N.to_nat index <? length l)%nat then Some (<[index :=N value]> l) else None.

(** [assert] of the code that stays in release builds ([RELEASE_ASSERT]). *)
Definition release_assert (condition : bool) : option unit :=
  if condition then Some () else None.

(** ** Automation *)

(** Turns boolean comparisons into propositions. *)
Ltac breflect :=
  repeat match goal with
  | H : _ && _ = true |- _ => apply andb_true_iff in H; destruct H
  | H : _ || _ = false |- _ => apply orb_false_iff in H; destruct H
  | H : negb _ = true |- _ => apply negb_true_iff in H
  | H : negb _ = false |- _ => apply negb_false_iff in H
  | H : (_ =? _)%N = true |- _ => apply N.eqb_eq in H
  | H : (_ =? _)%N = false |- _ => apply N.eqb_neq in H
  | H : (_ <? _)%N = true |- _ => apply N.ltb_lt in H
  | H : (_ <? _)%N = false |- _ => apply N.ltb_ge in H
  | H : (_ <=? _)%N = true |- _ => apply N.leb_le in H
  | H : (_ <=? _)%N = false |- _ => apply N.leb_gt in H
  | H : (_ =? _)%nat = true |- _ => apply Nat.eqb_eq in H
  | H : (_ =? _)%nat = false |- _ => apply Nat.eqb_neq in H
  | H : (_ <=? _)%nat = true |- _ => apply Nat.leb_le in H
  | H : (_ <=? _)%nat = false |- _ => apply Nat.leb_gt in H
  | H : (_ <? _)%nat = true |- _ => apply Nat.ltb_lt in H
  | H : (_ <? _)%nat = false |- _ => apply Nat.ltb_ge in H
  end.

(** Opens every [option] bind and every test of a hypothesis that says that a
    computation returned a value. *)
Ltac open_option H :=
  repeat (
    progress simplify_option_eq
    || match type of H with
       | context [match ?x with _ => _ end] => let E := fresh "E" in destruct x eqn:E
       end); simplify_eq/=.

(** Runs the [option] binds whose first step is a value, and nothing else. *)
Ltac run_option := cbn [mbind option_bind fmap option_fmap option_map mret option_ret release_assert].

Create HintDb webkit.

(** ** Lemmas on machine integers *)

Lemma wrap8_id x : x < 256 -> wrap8 x = x.
Proof. intros. unfold wrap8. apply N.mod_small. lia. Qed.

Lemma wrap16_id x : x < 65536 -> wrap16 x = x.
Proof. intros. unfold wrap16. apply N.mod_small. lia. Qed.

Lemma wrap32_id x : x < 4294967296 -> wrap32 x = x.
Proof. intros. unfold wrap32. apply N.mod_small. lia. Qed.

Lemma wrap64_id x : x < 18446744073709551616 -> wrap64 x = x.
Proof. intros. unfold wrap64. apply N.mod_small. lia. Qed.

Lemma wrap8_lt x : wrap8 x < 256.
Proof. unfold wrap8. apply N.mod_lt. done. Qed.

Lemma wrap16_lt x : wrap16 x < 65536.
Proof. unfold wrap16. apply N.mod_lt. done. Qed.

Lemma wrap32_lt x : wrap32 x < 4294967296.
Proof. unfold wrap32. apply N.mod_lt. done. Qed.

Lemma wrap32_idemp x : wrap32 (wrap32 x) = wrap32 x.
Proof. apply wrap32_id, wrap32_lt. Qed.

#[export] Hint Resolve wrap8_lt wrap16_lt wrap32_lt : webkit.
#[export] Hint Rewrite wrap32_idemp : webkit.

(** ** Lemmas on little-endian memory *)

Lemma length_le_bytes size v : length (le_bytes size v) = size.
Proof. revert v. induction size; simpl; auto. Qed.

Lemma le_bytes_byte size v : Forall (fun b => b < 256) (le_bytes size v).
Proof.
  revert v. induction size as [|size IH]; intros v; simpl; constructor; auto.
  apply N.mod_lt. done.
Qed.

Lemma le_value_le_bytes size v :
  le_value (le_bytes size v) = v mod 2 ^ (8 * N.of_nat size).
Proof.
  revert v. induction size as [|size IH]; intros v; simpl le_bytes; simpl le_value.
  - replace (8 * N.of_nat 0) with 0 by lia. by rewrite N.pow_0_r, N.mod_1_r.
  - rewrite IH. replace (8 * N.of_nat (S size)) with (8 + 8 * N.of_nat size) by lia.
    rewrite N.pow_add_r. change (2 ^ 8) with 256.
    rewrite N.Div0.mod_mul_r. done.
Qed.

Lemma le_bytes_le_value bytes :
  Forall (fun b => b < 256) bytes -> le_bytes (length bytes) (le_value bytes) = bytes.
Proof.
  induction 1 as [|b bytes Hb _ IH]; simpl; [done|].
  f_equal.
  - rewrite N.mul_comm, N.Div0.mod_add. by apply N.mod_small.
  - rewrite N.mul_comm, N.div_add by done. rewrite N.div_small by done. apply IH.
Qed.

Lemma le_value32 v : v < 4294967296 -> le_value (le_bytes 4 v) = v.
Proof. intros. rewrite le_value_le_bytes. apply N.mod_small. simpl. lia. Qed.

Lemma le_value16 v : v < 65536 -> le_value (le_bytes 2 v) = v.
Proof. intros. rewrite le_value_le_bytes. apply N.mod_small. simpl. lia. Qed.

Lemma read_bytes_app pre bytes post index :
  index = N.of_nat (length pre) ->
  read_bytes (length bytes) (pre ++ bytes ++ post) index = Some bytes.
Proof.
  intros ->. unfold read_bytes. rewrite Nat2N.id, drop_app_length, take_app_length.
  by rewrite Nat.eqb_refl.
Qed.

Lemma write_bytes_app pre old new post index :
  index = N.of_nat (length pre) -> length new = length old ->
  write_bytes new (pre ++ old ++ post) index = Some (pre ++ new ++ post).
Proof.
  intros -> Hlen. unfold write_bytes. rewrite Nat2N.id.
  rewrite !length_app, <- Hlen.
  replace (_ <=? _)%nat with true by (symmetry; apply Nat.leb_le; lia).
  rewrite take_app_length. do 3 f_equal.
  rewrite app_assoc. rewrite <- (drop_app_length (pre ++ old) post) at 2.
  by rewrite length_app, <- Hlen.
Qed.

(** ** Lemmas on vectors *)

Lemma vec_set_Some {A} (l : list A) i x l' :
  vec_set l i x = Some l' <-> (N.to_nat i < length l)%nat /\ l' = <[i :=N x]> l.
Proof.
  unfold vec_set. destruct (_ <? _)%nat eqn:E; breflect; split.
  - by intros [= <-].
  - by intros [_ ->].
  - done.
  - intros []. lia.
Qed.

Lemma vec_set_length {A} (l : list A) i x l' :
  vec_set l i x = Some l' -> length l' = length l.
Proof. intros [_ ->]%vec_set_Some. apply length_insert. Qed.

Lemma vec_set_lookup {A} (l : list A) i x l' j :
  vec_set l i x = Some l' -> l' !!N j = if decide (i = j) then Some x else l !!N j.
Proof.
  intros [? ->]%vec_set_Some. case_decide as Hij.
  - subst. by apply list_lookup_insert_eq.
  - apply list_lookup_insert_ne. lia.
Qed.

Lemma lookupN_lt {A} (l : list A) i x : l !!N i = Some x -> i < N.of_nat (length l).
Proof. intros ?%lookup_lt_Some. lia. Qed.

Lemma lookupN_is_Some {A} (l : list A) i : i < N.of_nat (length l) -> exists x, l !!N i = Some x.
Proof. intros. apply lookup_lt_is_Some. lia. Qed.

(** ** Lemmas on loops *)

Lemma elem_of_for_range i first last : i ∈ for_range first last <-> first <= i < last.
Proof.
  unfold for_range. rewrite list_elem_of_fmap. split.
  - intros (k & -> & Hk%elem_of_seq). lia.
  - intros. exists (N.to_nat (i - first)). rewrite elem_of_seq. lia.
Qed.

Lemma length_for_range first last : length (for_range first last) = N.to_nat (last - first).
Proof. unfold for_range. by rewrite length_fmap, length_seq. Qed.

Lemma lookup_for_range first last k i :
  for_range first last !! k = Some i <-> i = first + N.of_nat k /\ i < last.
Proof.
  unfold for_range. rewrite list_lookup_fmap. split.
  - intros. destruct (seq _ _ !! k) eqn:E; simplify_eq/=.
    apply lookup_seq in E as [-> ?]. lia.
  - intros [-> ?]. by rewrite lookup_seq_lt by lia.
Qed.

Lemma NoDup_for_range first last : NoDup (for_range first last).
Proof.
  apply NoDup_alt. intros i j x Hi Hj.
  apply lookup_for_range in Hi as [? _], Hj as [? _]. lia.
Qed.

Lemma for_range_nil first last : last <= first -> for_range first last = [].
Proof.
  intros. unfold for_range. by replace (N.to_nat (last - first)) with 0%nat by lia.
Qed.

Lemma for_range_cons first last :
  first < last -> for_range first last = first :: for_range (first + 1) last.
Proof.
  intros. apply list_eq. intros [|k]; simpl.
  - apply lookup_for_range. lia.
  - apply option_eq. intros x. rewrite !lookup_for_range. lia.
Qed.

Lemma for_range_snoc first last :
  first <= last -> for_range first (last + 1) = for_range first last ++ [last].
Proof.
  intros. unfold for_range.
  replace (N.to_nat (last + 1 - first)) with (S (N.to_nat (last - first))) by lia.
  rewrite seq_S, fmap_app. simpl. do 2 f_equal. lia.
Qed.

Lemma foldM_app {A B} (body : B -> A -> option B) s l1 l2 :
  foldM body s (l1 ++ l2) = (s' ← foldM body s l1; foldM body s' l2).
Proof.
  revert s. induction l1 as [|a l1 IH]; intros s; simpl; [done|].
  destruct (body s a); simpl; auto.
Qed.

(** The invariant rule of loops. *)
Lemma foldM_inv {A B} (body : B -> A -> option B) (I : B -> Prop) l :
  (forall s a s', a ∈ l -> I s -> body s a = Some s' -> I s') ->
  forall s s', I s -> foldM body s l = Some s' -> I s'.
Proof.
  intros Hstep. induction l as [|a l IH]; intros s s' HI; simpl.
  - by intros [= <-].
  - destruct (body s a) as [s1|] eqn:E; [|done]. simpl. apply IH.
    + intros ??? Hin. apply Hstep. by right.
    + eapply Hstep; [by left|done|done].
Qed.

(** The rule that shows that a loop does not crash, with an invariant. *)
Lemma foldM_total {A B} (body : B -> A -> option B) (I : B -> Prop) l :
  (forall s a, a ∈ l -> I s -> exists s', body s a = Some s' /\ I s') ->
  forall s, I s -> exists s', foldM body s l = Some s' /\ I s'.
Proof.
  intros Hstep. induction l as [|a l IH]; intros s HI; simpl; [eauto|].
  destruct (Hstep s a) as (s1 & -> & HI1); [by left|done|].
  simpl. apply IH; [|done]. intros ?? Hin. apply Hstep. by right.
Qed.

Lemma foldM_Some {A B} (body : B -> A -> B) s l :
  foldM (fun s a => Some (body s a)) s l = Some (foldl body s l).
Proof. revert s. induction l; intros s; simpl; auto. Qed.

(** ** Lemmas on windows of vectors *)

Lemma mapM_window {A} (pre mid post : list A) :
  mapM (fun i => (pre ++ mid ++ post) !!N i)
    (for_range (N.of_nat (length pre)) (N.of_nat (length pre) + N.of_nat (length mid))) = Some mid.
Proof.
  revert pre. induction mid as [|x mid IH]; intros pre; simpl length.
  - rewrite for_range_nil by lia. done.
  - rewrite for_range_cons by lia. cbn [mapM].
    assert ((pre ++ (x :: mid) ++ post) !!N N.of_nat (length pre) = Some x) as ->.
    { rewrite Nat2N.id, lookup_app_r by lia. by rewrite Nat.sub_diag. }
    run_option. specialize (IH (pre ++ [x])). rewrite <- app_assoc in IH. simpl in IH.
    replace (N.of_nat (length (pre ++ [x]))) with (N.of_nat (length pre) + 1) in IH
      by (rewrite length_app; simpl; lia).
    replace (N.of_nat (length pre) + 1 + N.of_nat (length mid))
      with (N.of_nat (length pre) + N.of_nat (S (length mid))) in IH by lia.
    cbn [app]. by rewrite IH.
Qed.

Lemma mapM_lookup_app {A} (l post : list A) idxs r :
  mapM (fun i => l !!N i) idxs = Some r -> mapM (fun i => (l ++ post) !!N i) idxs = Some r.
Proof.
  revert r. induction idxs as [|i idxs IH]; intros r; cbn [mapM]; [done|].
  destruct (l !!N i) as [x|] eqn:E; [|done]. rewrite (lookup_app_l_Some _ _ _ _ E). run_option.
  destruct (mapM _ idxs) as [r'|] eqn:E'; [|done]. by rewrite (IH r' eq_refl).
Qed.

(** A loop that maps a vector in place. *)
Lemma foldM_map_in_place {A} (body : list A -> N -> option (list A)) (f : A -> A) (l : list A) :
  (forall done x todo, l = done ++ x :: todo ->
    body ((f <$> done) ++ x :: todo) (N.of_nat (length done)) = Some ((f <$> done) ++ f x :: todo)) ->
  foldM body l (for_range 0 (N.of_nat (length l))) = Some (f <$> l).
Proof.
  intros Hbody. assert (forall done todo, l = done ++ todo ->
    foldM body l (for_range 0 (N.of_nat (length done))) = Some ((f <$> done) ++ todo)) as Hall.
  { intros done. induction done as [|x done IH] using rev_ind; intros todo Hl; [rewrite for_range_nil by (simpl; lia); by subst|].
    rewrite length_app, Nat2N.inj_add. change (N.of_nat (length [x])) with 1.
    rewrite for_range_snoc by lia. rewrite foldM_app.
    rewrite (IH (x :: todo)) by (rewrite Hl, <- app_assoc; done). run_option. cbn [foldM].
    rewrite (Hbody done x todo) by (rewrite Hl, <- app_assoc; done). run_option.
    by rewrite fmap_app, <- app_assoc. }
  rewrite (Hall l []) by (by rewrite app_nil_r). by rewrite app_nil_r.
Qed.
