(* ===== verification/ASCII.v ===== *)
(** * [WTF/wtf/ASCIICType.h]: classification and case of ASCII characters

    Characters are the values of the unsigned character types ([LChar],
    [UChar]); the [char] overload of [toASCIILower] goes through a table, and
    [toASCIILower_char_spec] shows that the table agrees with the formula of the
    generic template. *)

From S2P Require Import Prelude.

(** WTF/wtf/ASCIICType.h:47-64 [asciiCaseFoldTable] *)
Definition asciiCaseFoldTable : list N := [
    0; 1; 2; 3; 4; 5; 6; 7; 8; 9; 10; 11; 12; 13; 14; 15;
    16; 17; 18; 19; 20; 21; 22; 23; 24; 25; 26; 27; 28; 29; 30; 31;
    32; 33; 34; 35; 36; 37; 38; 39; 40; 41; 42; 43; 44; 45; 46; 47;
    48; 49; 50; 51; 52; 53; 54; 55; 56; 57; 58; 59; 60; 61; 62; 63;
    64; 97; 98; 99; 100; 101; 102; 103; 104; 105; 106; 107; 108; 109; 110; 111;
    112; 113; 114; 115; 116; 117; 118; 119; 120; 121; 122; 91; 92; 93; 94; 95;
    96; 97; 98; 99; 100; 101; 102; 103; 104; 105; 106; 107; 108; 109; 110; 111;
    112; 113; 114; 115; 116; 117; 118; 119; 120; 121; 122; 123; 124; 125; 126; 127;
    128; 129; 130; 131; 132; 133; 134; 135; 136; 137; 138; 139; 140; 141; 142; 143;
    144; 145; 146; 147; 148; 149; 150; 151; 152; 153; 154; 155; 156; 157; 158; 159;
    160; 161; 162; 163; 164; 165; 166; 167; 168; 169; 170; 171; 172; 173; 174; 175;
    176; 177; 178; 179; 180; 181; 182; 183; 184; 185; 186; 187; 188; 189; 190; 191;
    192; 193; 194; 195; 196; 197; 198; 199; 200; 201; 202; 203; 204; 205; 206; 207;
    208; 209; 210; 211; 212; 213; 214; 215; 216; 217; 218; 219; 220; 221; 222; 223;
    224; 225; 226; 227; 228; 229; 230; 231; 232; 233; 234; 235; 236; 237; 238; 239;
    240; 241; 242; 243; 244; 245; 246; 247; 248; 249; 250; 251; 252; 253; 254; 255].

(** WTF/wtf/ASCIICType.h:66-69 [isASCII] *)
Definition isASCII (c : N) : bool := N.ldiff c 127 =? 0.

(** WTF/wtf/ASCIICType.h:71-74 [isASCIIAlpha] *)
Definition isASCIIAlpha (c : N) : bool := (97 <=? N.lor c 32) && (N.lor c 32 <=? 122).

(** WTF/wtf/ASCIICType.h:76-79 [isASCIIDigit] *)
Definition isASCIIDigit (c : N) : bool := (48 <=? c) && (c <=? 57).

(** WTF/wtf/ASCIICType.h:81-84 [isASCIIAlphanumeric] *)
Definition isASCIIAlphanumeric (c : N) : bool := isASCIIDigit c || isASCIIAlpha c.

(** WTF/wtf/ASCIICType.h:86-89 [isASCIIHexDigit] *)
Definition isASCIIHexDigit (c : N) : bool :=
  isASCIIDigit c || ((97 <=? N.lor c 32) && (N.lor c 32 <=? 102)).

(** WTF/wtf/ASCIICType.h:91-94 [isASCIILower] *)
Definition isASCIILower (c : N) : bool := (97 <=? c) && (c <=? 122).

(** WTF/wtf/ASCIICType.h:129-132 [isASCIIUpper] *)
Definition isASCIIUpper (c : N) : bool := (65 <=? c) && (c <=? 90).

(** WTF/wtf/ASCIICType.h:134-137 [toASCIILower], the generic template *)
Definition toASCIILower (c : N) : N :=
  N.lor c (N.shiftl (N.b2n ((65 <=? c) && (c <=? 90))) 5).

(** WTF/wtf/ASCIICType.h:139-149 [toASCIILower], the [char] and [LChar] overloads *)
Definition toASCIILower_char (c : N) : N := asciiCaseFoldTable !!! N.to_nat c.

(** WTF/wtf/ASCIICType.h:161-164 [toASCIIUpper] *)
Definition toASCIIUpper (c : N) : N :=
  N.ldiff c (N.shiftl (N.b2n ((97 <=? c) && (c <=? 122))) 5).

(** WTF/wtf/ASCIICType.h:166-170 [toASCIIHexValue] *)
Definition toASCIIHexValue (c : N) : N :=
  if c <? 65 then c - 48 else N.land (c - 65 + 10) 15.

(** WTF/wtf/ASCIICType.h:178-182 [lowerNibbleToASCIIHexDigit] *)
Definition lowerNibbleToASCIIHexDigit (c : N) : N :=
  let nibble := N.land c 15 in
  if nibble <? 10 then 48 + nibble else 65 + nibble - 10.

(** WTF/wtf/ASCIICType.h:184-188 [upperNibbleToASCIIHexDigit] *)
Definition upperNibbleToASCIIHexDigit (c : N) : N :=
  let nibble := N.land (N.shiftr c 4) 15 in
  if nibble <? 10 then 48 + nibble else 65 + nibble - 10.

(** ** Finite checks *)

(** A property of every character below [bound], by evaluation. *)
Lemma for_all_chars (bound : N) (P : N -> bool) :
  forallb P (for_range 0 bound) = true -> forall c, c < bound -> P c = true.
Proof.
  intros H c Hc. rewrite forallb_forall in H. apply H.
  apply list_elem_of_In, elem_of_for_range. lia.
Qed.

Lemma isASCII_lt c : isASCII c = true <-> c < 128.
Proof.
  unfold isASCII. rewrite N.eqb_eq. change 127 with (N.ones 7).
  rewrite N.ldiff_ones_r, N.shiftl_eq_0_iff, N.shiftr_div_pow2.
  change (2 ^ 7) with 128. split; intros H.
  - destruct (N.lt_ge_cases c 128) as [?|Hge]; [done|].
    assert (1 <= c / 128) by (apply N.div_le_lower_bound; lia). lia.
  - by apply N.div_small.
Qed.

(** The table of the [char] overload computes what the template computes. *)
Lemma toASCIILower_char_spec c : c < 256 -> toASCIILower_char c = toASCIILower c.
Proof.
  intros H. apply N.eqb_eq. revert c H.
  apply (for_all_chars 256 (fun c => toASCIILower_char c =? toASCIILower c)).
  by vm_compute.
Qed.

Lemma toASCIILower_upper c : 65 <= c <= 90 -> toASCIILower c = c + 32.
Proof.
  intros H.
  assert ((negb ((65 <=? c) && (c <=? 90)) || (toASCIILower c =? c + 32)) = true) as Hb.
  - assert (c < 91) as Hc by lia. revert c Hc H.
    intros c Hc _. revert c Hc.
    apply (for_all_chars 91 (fun c => negb ((65 <=? c) && (c <=? 90)) || (toASCIILower c =? c + 32))).
    by vm_compute.
  - replace (65 <=? c) with true in Hb by (symmetry; apply N.leb_le; lia).
    replace (c <=? 90) with true in Hb by (symmetry; apply N.leb_le; lia).
    by apply N.eqb_eq.
Qed.

Lemma toASCIILower_other c : ~ (65 <= c <= 90) -> toASCIILower c = c.
Proof.
  intros H. unfold toASCIILower.
  replace ((65 <=? c) && (c <=? 90)) with false; [by rewrite N.lor_0_r|].
  symmetry. apply andb_false_iff. rewrite !N.leb_gt. lia.
Qed.

Lemma toASCIIUpper_lower c : 97 <= c <= 122 -> toASCIIUpper c = c - 32.
Proof.
  intros H.
  assert ((negb ((97 <=? c) && (c <=? 122)) || (toASCIIUpper c =? c - 32)) = true) as Hb.
  - assert (c < 123) as Hc by lia. clear H. revert c Hc.
    apply (for_all_chars 123 (fun c => negb ((97 <=? c) && (c <=? 122)) || (toASCIIUpper c =? c - 32))).
    by vm_compute.
  - replace (97 <=? c) with true in Hb by (symmetry; apply N.leb_le; lia).
    replace (c <=? 122) with true in Hb by (symmetry; apply N.leb_le; lia).
    by apply N.eqb_eq.
Qed.

Lemma toASCIIUpper_other c : ~ (97 <= c <= 122) -> toASCIIUpper c = c.
Proof.
  intros H. unfold toASCIIUpper.
  replace ((97 <=? c) && (c <=? 122)) with false; [by rewrite N.ldiff_0_r|].
  symmetry. apply andb_false_iff. rewrite !N.leb_gt. lia.
Qed.

Lemma toASCIILower_ascii c : c < 128 -> toASCIILower c < 128.
Proof.
  intros. destruct (decide (65 <= c <= 90)) as [Hu|Hu].
  - rewrite toASCIILower_upper; lia.
  - rewrite toASCIILower_other; lia.
Qed.

Lemma isASCIIAlpha_spec c : isASCIIAlpha c = true -> c < 128 -> 65 <= c <= 90 \/ 97 <= c <= 122.
Proof.
  intros H Hc.
  assert ((negb (isASCIIAlpha c) || ((65 <=? c) && (c <=? 90) || (97 <=? c) && (c <=? 122))) = true) as Hb.
  - revert c Hc H. intros c Hc _. revert c Hc.
    apply (for_all_chars 128 (fun c => negb (isASCIIAlpha c) || ((65 <=? c) && (c <=? 90) || (97 <=? c) && (c <=? 122)))).
    by vm_compute.
  - rewrite H in Hb. simpl in Hb. apply orb_true_iff in Hb as [Hb|Hb]; breflect; lia.
Qed.

(** A byte is recovered from its two hexadecimal digits. *)
Lemma hex_digits_roundtrip c : c < 256 ->
  N.lor (N.shiftl (toASCIIHexValue (upperNibbleToASCIIHexDigit c)) 4)
        (toASCIIHexValue (lowerNibbleToASCIIHexDigit c)) = c.
Proof.
  intros Hc. apply N.eqb_eq. revert c Hc.
  apply (for_all_chars 256 (fun c =>
    N.lor (N.shiftl (toASCIIHexValue (upperNibbleToASCIIHexDigit c)) 4)
          (toASCIIHexValue (lowerNibbleToASCIIHexDigit c)) =? c)).
  by vm_compute.
Qed.

Lemma hex_digits_roundtrip_witness : 171 < 256 /\
  N.lor (N.shiftl (toASCIIHexValue (upperNibbleToASCIIHexDigit 171)) 4)
        (toASCIIHexValue (lowerNibbleToASCIIHexDigit 171)) = 171.
Proof. split; [done|]. apply (hex_digits_roundtrip 171). done. Defined.

#[export] Hint Resolve toASCIILower_ascii : webkit.
