(* ===== verification/HashTable.v ===== *)
(** * The hash collections of WTF, as their clients see them

    [HashSet] and [HashMap] are collections without duplicates that can be
    iterated in an order that depends on the hash function and on the history of
    the table, and that no client may rely on.  A set is the list of its
    elements in the order of their insertion, and the order of an iteration is
    what the [HashOrder] interface says: some permutation of that list, the same
    one each time the same table is iterated.  The client theorems are proved for
    every [HashOrder]; [insertion_order] is the instance that evaluates. *)

From S2P Require Import Prelude.

(** ** The interface *)

Class HashOrder := {
  hash_order : forall {A : Type}, list A -> list A;
  hash_order_perm : forall (A : Type) (l : list A), hash_order l ≡ₚ l
}.

Section HashSet.
Context {A : Type} `{EqDecision A}.

(** [contains] *)
Definition hset_contains (x : A) (s : list A) : bool := bool_decide (x ∈ s).

(** [add]; [isNewEntry] is [negb (hset_contains x s)]. *)
Definition hset_add (x : A) (s : list A) : list A :=
  if decide (x ∈ s) then s else s ++ [x].

(** [add(begin, end)] *)
Definition hset_add_range (xs : list A) (s : list A) : list A :=
  foldl (fun s x => hset_add x s) s xs.

Definition hset_remove (x : A) (s : list A) : list A := filter (fun y => y <> x) s.

Lemma elem_of_hset_add x y s : y ∈ hset_add x s <-> y = x \/ y ∈ s.
Proof. unfold hset_add. case_decide; set_solver. Qed.

Lemma NoDup_hset_add x s : NoDup s -> NoDup (hset_add x s).
Proof.
  intros. unfold hset_add. case_decide; [done|]. apply NoDup_app. split; [done|].
  split; [set_solver|apply NoDup_singleton].
Qed.

Lemma hset_add_old x s : x ∈ s -> hset_add x s = s.
Proof. intros. unfold hset_add. by case_decide. Qed.

Lemma elem_of_hset_add_range y xs s : y ∈ hset_add_range xs s <-> y ∈ xs \/ y ∈ s.
Proof.
  revert s. induction xs as [|x xs IH]; intros s; simpl; [set_solver|].
  rewrite IH, elem_of_hset_add, elem_of_cons. tauto.
Qed.

Lemma NoDup_hset_add_range xs s : NoDup s -> NoDup (hset_add_range xs s).
Proof. revert s. induction xs; intros s ?; simpl; auto using NoDup_hset_add. Qed.

Lemma elem_of_hset_remove x y s : y ∈ hset_remove x s <-> y <> x /\ y ∈ s.
Proof. unfold hset_remove. by rewrite list_elem_of_filter. Qed.

Lemma hset_contains_spec x s : hset_contains x s = true <-> x ∈ s.
Proof. apply bool_decide_eq_true. Qed.
End HashSet.

Section HashMap.
Context {K V : Type} `{EqDecision K}.

Fixpoint hmap_find (k : K) (m : list (K * V)) : option V :=
  match m with
  | [] => None
  | (k', v) :: m' => if decide (k = k') then Some v else hmap_find k m'
  end.

(** [set]: replaces the value of a key that is there. *)
Fixpoint hmap_set (k : K) (v : V) (m : list (K * V)) : list (K * V) :=
  match m with
  | [] => [(k, v)]
  | (k', v') :: m' => if decide (k = k') then (k', v) :: m' else (k', v') :: hmap_set k v m'
  end.

(** [add]: keeps the value of a key that is there; the second component is
    [isNewEntry]. *)
Definition hmap_add (k : K) (v : V) (m : list (K * V)) : list (K * V) * bool :=
  match hmap_find k m with
  | Some _ => (m, false)
  | None => (hmap_set k v m, true)
  end.

Definition hmap_remove (k : K) (m : list (K * V)) : list (K * V) :=
  filter (fun e => e.1 <> k) m.

Lemma hmap_find_set k k' v m :
  hmap_find k' (hmap_set k v m) = if decide (k' = k) then Some v else hmap_find k' m.
Proof.
  induction m as [|[k1 v1] m IH]; simpl.
  - by repeat case_decide.
  - destruct (decide (k = k1)); simpl; [|rewrite IH]; repeat case_decide; congruence.
Qed.

Lemma hmap_find_remove k k' m :
  hmap_find k' (hmap_remove k m) = if decide (k' = k) then None else hmap_find k' m.
Proof.
  unfold hmap_remove. induction m as [|[k1 v1] m IH]; simpl.
  - by case_decide.
  - rewrite filter_cons. simpl. destruct (decide (k1 <> k)); simpl; rewrite IH;
      repeat case_decide; try congruence; naive_solver.
Qed.

Lemma hmap_find_elem k v m : hmap_find k m = Some v -> (k, v) ∈ m.
Proof.
  induction m as [|[k1 v1] m IH]; simpl; [done|]. case_decide.
  - intros [= ->]. subst. by left.
  - right. auto.
Qed.

Lemma hmap_elem_find k v m : NoDup m.*1 -> (k, v) ∈ m -> hmap_find k m = Some v.
Proof.
  induction m as [|[k1 v1] m IH]; simpl; intros Hnd Hin; [by inv Hin|].
  apply NoDup_cons in Hnd as [Hnot Hnd]. apply elem_of_cons in Hin as [[= -> ->]|Hin].
  - by rewrite decide_True by done.
  - rewrite decide_False; [auto|]. intros ->. apply Hnot.
    apply list_elem_of_fmap. by exists (k1, v).
Qed.

Lemma hmap_find_None k m : hmap_find k m = None <-> k ∉ m.*1.
Proof.
  induction m as [|[k1 v1] m IH]; simpl.
  - split; [intros _ Hin; by inv Hin|done].
  - rewrite not_elem_of_cons. case_decide; [naive_solver|]. rewrite IH. naive_solver.
Qed.

Lemma hmap_set_keys k v m :
  (k ∈ m.*1 /\ (hmap_set k v m).*1 = m.*1) \/ (k ∉ m.*1 /\ (hmap_set k v m).*1 = m.*1 ++ [k]).
Proof.
  induction m as [|[k1 v1] m IH]; simpl.
  - right. split; [apply not_elem_of_nil|done].
  - case_decide as Hk; simpl.
    + left. subst. split; [by left|done].
    + destruct IH as [[? IH]|[? IH]]; [left|right]; (split; [|exact (f_equal (cons k1) IH)]).
      * by right.
      * by apply not_elem_of_cons.
Qed.

Lemma NoDup_hmap_set k v m : NoDup m.*1 -> NoDup (hmap_set k v m).*1.
Proof.
  intros Hnd. destruct (hmap_set_keys k v m) as [[? ->]|[? ->]]; [done|]. apply NoDup_app.
  split; [done|]. split; [set_solver|apply NoDup_singleton].
Qed.
End HashMap.

Section HashOrder.
Context `{HashOrder}.

Lemma elem_of_hash_order {A} (x : A) l : x ∈ hash_order l <-> x ∈ l.
Proof. by rewrite hash_order_perm. Qed.

Lemma NoDup_hash_order {A} (l : list A) : NoDup (hash_order l) <-> NoDup l.
Proof. by rewrite hash_order_perm. Qed.

Lemma length_hash_order {A} (l : list A) : length (hash_order l) = length l.
Proof. by rewrite hash_order_perm. Qed.

Lemma hash_order_nil {A} : hash_order (@nil A) = [].
Proof. apply Permutation_nil. by rewrite hash_order_perm. Qed.
End HashOrder.

(** The order in which the elements were inserted. *)
Definition insertion_order : HashOrder := {|
  hash_order := fun A l => l;
  hash_order_perm := fun A l => Permutation_refl l
|}.
