(* ===== verification/DFA.v ===== *)
(** * [WebCore/contentextensions/DFANode.h], [DFA.h] and [DFA.cpp]

    A [DFA] keeps the transitions and the actions of all its nodes in two shared
    vectors; a [DFANode] is a window on each of them.  The [None] answer of an
    operation is a crash: an index out of a vector's range or a failed
    [RELEASE_ASSERT].  Debug assertions are not part of the operations; the ones
    that matter appear in [dfa_ok], the well-formedness the rest relies on. *)

From S2P Require Import Prelude.

(** ** Data *)

(** WebCore/contentextensions/DFANode.h:43-101 [DFANode] *)
Record DFANode := mkDFANode {
  m_actionsStart : N;       (* uint32_t *)
  m_transitionsStart : N;   (* uint32_t *)
  m_actionsLength : N;      (* uint16_t *)
  m_transitionsLength : N;  (* uint8_t *)
  m_flags : N               (* uint8_t *)
}.

Definition emptyNode : DFANode := mkDFANode 0 0 0 0 0.

Definition HasFallbackTransition : N := 1.
Definition IsKilled : N := 2.

(** WebCore/contentextensions/DFA.h:39-54 [DFA] *)
Record DFA := mkDFA {
  actions : list N;            (* uint64_t *)
  transitions : list (N * N);  (* uint8_t, uint32_t *)
  nodes : list DFANode;
  root : N
}.

Definition emptyDFA : DFA := mkDFA [] [] [] 0.

#[global] Instance DFANode_inhabited : Inhabited DFANode := populate emptyNode.

Definition with_transitions (dfa : DFA) (t : list (N * N)) : DFA :=
  mkDFA (actions dfa) t (nodes dfa) (root dfa).
Definition with_actions (dfa : DFA) (a : list N) : DFA :=
  mkDFA a (transitions dfa) (nodes dfa) (root dfa).
Definition with_nodes (dfa : DFA) (n : list DFANode) : DFA :=
  mkDFA (actions dfa) (transitions dfa) n (root dfa).
Definition with_root (dfa : DFA) (r : N) : DFA :=
  mkDFA (actions dfa) (transitions dfa) (nodes dfa) r.

(** ** Operations of a node *)

(** WebCore/contentextensions/DFANode.h:54-54 [DFANode::isKilled] *)
Definition isKilled (node : DFANode) : bool := negb (N.land (m_flags node) IsKilled =? 0).

(** WebCore/contentextensions/DFANode.h:55-55 [DFANode::hasFallbackTransition] *)
Definition hasFallbackTransition (node : DFANode) : bool :=
  negb (N.land (m_flags node) HasFallbackTransition =? 0).

(** WebCore/contentextensions/DFANode.h:56-56 [DFANode::hasActions] *)
Definition hasActions (node : DFANode) : bool := negb (m_actionsLength node =? 0).

(** WebCore/contentextensions/DFANode.h:62-68 [DFANode::setActions] *)
Definition setActions (node : DFANode) (start length : N) : DFANode :=
  mkDFANode start (m_transitionsStart node) length (m_transitionsLength node) (m_flags node).

(** WebCore/contentextensions/DFANode.h:69-75 [DFANode::setTransitions]; the
    length arrives as an [uint16_t] and is kept as an [uint8_t] *)
Definition setTransitions (node : DFANode) (start length : N) : DFANode :=
  mkDFANode (m_actionsStart node) start (m_actionsLength node) (wrap8 length) (m_flags node).

(** WebCore/contentextensions/DFANode.h:76-80 [DFANode::resetTransitions] *)
Definition resetTransitions (node : DFANode) (start length : N) : DFANode :=
  mkDFANode (m_actionsStart node) start (m_actionsLength node) (wrap8 length) (m_flags node).

(** WebCore/contentextensions/DFANode.h:81-87 [DFANode::setHasFallbackTransitionWithoutChangingDFA] *)
Definition setHasFallbackTransitionWithoutChangingDFA (node : DFANode)
    (shouldHaveFallbackTransition : bool) : DFANode :=
  mkDFANode (m_actionsStart node) (m_transitionsStart node) (m_actionsLength node)
    (m_transitionsLength node)
    (if shouldHaveFallbackTransition then N.lor (m_flags node) HasFallbackTransition
     else N.ldiff (m_flags node) HasFallbackTransition).

(** The index after the last transition, an [uint32_t]. *)
Definition transitionsEnd (node : DFANode) : N :=
  wrap32 (m_transitionsStart node + m_transitionsLength node).

(** WebCore/contentextensions/DFA.cpp:47-55 [DFANode::actions] *)
Definition node_actions (node : DFANode) (dfa : DFA) : option (list N) :=
  mapM (fun i => actions dfa !!N i)
    (for_range (m_actionsStart node) (wrap32 (m_actionsStart node + m_actionsLength node))).

(** WebCore/contentextensions/DFA.cpp:57-65 [DFANode::transitions] *)
Definition node_transitions (node : DFANode) (dfa : DFA) : option (list (N * N)) :=
  mapM (fun i => transitions dfa !!N i) (for_range (m_transitionsStart node) (transitionsEnd node)).

(** WebCore/contentextensions/DFA.cpp:67-74 [DFANode::fallbackTransitionDestination] *)
Definition fallbackTransitionDestination (node : DFANode) (dfa : DFA) : option N :=
  _ ← release_assert (hasFallbackTransition node);
  snd <$> transitions dfa !!N transitionsEnd node.

(** WebCore/contentextensions/DFA.cpp:76-81 [DFANode::changeFallbackTransition] *)
Definition changeFallbackTransition (node : DFANode) (dfa : DFA) (newDestination : N) : option DFA :=
  _ ← release_assert (hasFallbackTransition node);
  t ← vec_set (transitions dfa) (transitionsEnd node) (max8, newDestination);
  Some (with_transitions dfa t).

(** WebCore/contentextensions/DFA.cpp:83-89 [DFANode::addFallbackTransition] *)
Definition addFallbackTransition (node : DFANode) (dfa : DFA) (destination : N) : option (DFANode * DFA) :=
  _ ← release_assert (N.of_nat (length (transitions dfa)) =? transitionsEnd node);
  Some (mkDFANode (m_actionsStart node) (m_transitionsStart node) (m_actionsLength node)
          (m_transitionsLength node) (N.lor (m_flags node) HasFallbackTransition),
        with_transitions dfa (transitions dfa ++ [(max8, destination)])).

(** WebCore/contentextensions/DFA.cpp:91-100 [DFANode::containsTransition] *)
Definition containsTransition (node : DFANode) (transition : N) (dfa : DFA) : option bool :=
  foldM (fun (found : bool) i =>
           if found then Some true
           else t ← transitions dfa !!N i; Some (t.1 =? transition))
    false (for_range (m_transitionsStart node) (transitionsEnd node)).

(** WebCore/contentextensions/DFA.cpp:102-117 [DFANode::kill] *)
Definition kill (node : DFANode) (dfa : DFA) : option (DFANode * DFA) :=
  t ← foldM (fun t i => vec_set t i (max8, max32)) (transitions dfa)
        (for_range (m_transitionsStart node) (transitionsEnd node));
  a ← foldM (fun a i => vec_set a i max64) (actions dfa)
        (for_range (m_actionsStart node) (wrap32 (m_actionsStart node + m_actionsLength node)));
  Some (mkDFANode 0 0 0 0 IsKilled, mkDFA a t (nodes dfa) (root dfa)).

(** WebCore/contentextensions/DFA.cpp:38-44 [DFA::memoryUsed]; the object sizes
    are those of a 64-bit build *)
Definition memoryUsed (dfa : DFA) : N :=
  let sizeof_DFA := 56 in
  sizeof_DFA + N.of_nat (length (actions dfa)) * 8
  + N.of_nat (length (transitions dfa)) * 8
  + N.of_nat (length (nodes dfa)) * 16.

(** ** The automaton a DFA denotes *)

(** The target of the individual transition on [c]. *)
Fixpoint find_transition (c : N) (ts : list (N * N)) : option N :=
  match ts with
  | [] => None
  | (c', target) :: ts' => if c' =? c then Some target else find_transition c ts'
  end.

(** One step.  The end of the input is the character 0, which a fallback
    transition does not match. *)
Definition step_node (node : DFANode) (dfa : DFA) (c : N) : option N :=
  match find_transition c (default [] (node_transitions node dfa)) with
  | Some target => Some target
  | None => if hasFallbackTransition node && negb (c =? 0)
            then fallbackTransitionDestination node dfa else None
  end.

Definition dfa_step (dfa : DFA) (index c : N) : option N :=
  node ← nodes dfa !!N index; step_node node dfa c.

Definition actions_at (dfa : DFA) (index : N) : list N :=
  default [] (node ← nodes dfa !!N index; node_actions node dfa).

(** The nodes that are visited on [input], the first one excluded. *)
Fixpoint dfa_run (dfa : DFA) (index : N) (input : list N) : list N :=
  match input with
  | [] => []
  | c :: input' =>
    match dfa_step dfa index c with
    | Some target => target :: dfa_run dfa target input'
    | None => []
    end
  end.

(** ** Well-formedness *)

Definition live (dfa : DFA) (index : N) : Prop :=
  exists node, nodes dfa !!N index = Some node /\ isKilled node = false.

Record node_ok (dfa : DFA) (node : DFANode) : Prop := {
  ok_actions : exists a, node_actions node dfa = Some a /\ Forall (fun x => x < 2 ^ 48) a;
  ok_transitions : exists ts, node_transitions node dfa = Some ts /\
    NoDup ts.*1 /\ Forall (fun t => t.1 < 128 /\ live dfa t.2) ts;
  ok_fallback : hasFallbackTransition node = true ->
    exists target, fallbackTransitionDestination node dfa = Some target /\ live dfa target
}.

(** What the bytecode compiler relies on: every node that is not killed is
    within the shared vectors, its transitions are on distinct ASCII characters
    and lead to nodes that are not killed, and so does its fallback. *)
Record dfa_ok (dfa : DFA) : Prop := {
  ok_root : live dfa (root dfa);
  ok_size : N.of_nat (length (nodes dfa)) < max32;
  ok_nodes : forall index node,
    nodes dfa !!N index = Some node -> isKilled node = false -> node_ok dfa node
}.

(** ** Lemmas *)

Lemma find_transition_Some c ts target :
  find_transition c ts = Some target -> (c, target) ∈ ts.
Proof.
  induction ts as [|[c' t] ts IH]; simpl; [done|].
  destruct (c' =? c) eqn:E; breflect.
  - intros [= ->]. subst. by left.
  - right. auto.
Qed.

Lemma find_transition_elem c ts target :
  NoDup ts.*1 -> (c, target) ∈ ts -> find_transition c ts = Some target.
Proof.
  induction ts as [|[c' t] ts IH]; simpl; intros Hnd Hin; [by inv Hin|].
  apply NoDup_cons in Hnd as [Hnot Hnd]. apply elem_of_cons in Hin as [[= -> ->]|Hin].
  - by rewrite N.eqb_refl.
  - destruct (c' =? c) eqn:E; breflect; [|auto]. subst. exfalso. apply Hnot.
    apply list_elem_of_fmap. by exists (c, target).
Qed.

Lemma find_transition_None c ts : find_transition c ts = None <-> c ∉ ts.*1.
Proof.
  induction ts as [|[c' t] ts IH]; simpl.
  - split; [intros _ Hin; inv Hin|done].
  - rewrite not_elem_of_cons. destruct (c' =? c) eqn:E; breflect.
    + subst. split; [done|]. by intros [].
    + rewrite IH. naive_solver.
Qed.

Lemma live_lt dfa index : live dfa index -> index < N.of_nat (length (nodes dfa)).
Proof. intros (node & H & _). by apply lookupN_lt in H. Qed.

(** Every step of a well-formed automaton from a live node leads to a live node. *)
Lemma dfa_step_live dfa index c target :
  dfa_ok dfa -> live dfa index -> dfa_step dfa index c = Some target -> live dfa target.
Proof.
  intros Hok (node & Hnode & Hk). unfold dfa_step. rewrite Hnode. simpl.
  destruct (ok_nodes dfa Hok index node Hnode Hk) as [_ (ts & Hts & Hnd & Hall) Hfb].
  unfold step_node. rewrite Hts. simpl.
  destruct (find_transition c ts) as [t|] eqn:E.
  - intros [= <-]. apply find_transition_Some in E.
    rewrite Forall_forall in Hall. by apply Hall in E as [_ ?].
  - destruct (hasFallbackTransition node) eqn:F; [|done]. simpl.
    destruct (c =? 0); [done|]. simpl. destruct Hfb as (t & -> & Ht); [done|].
    by intros [= <-].
Qed.

Lemma dfa_run_live dfa index input :
  dfa_ok dfa -> live dfa index -> Forall (live dfa) (dfa_run dfa index input).
Proof.
  intros Hok. revert index. induction input as [|c input IH]; intros index Hl; simpl; [done|].
  destruct (dfa_step dfa index c) as [target|] eqn:E; [|done].
  pose proof (dfa_step_live dfa index c target Hok Hl E). constructor; auto.
Qed.
