(* ===== verification/DFABytecode.v ===== *)
(** * [WebCore/contentextensions/DFABytecode.h]: the instruction set

    [instr] is the assembly view of the byte stream: an instruction with its
    arguments, whose destinations are still abstract.  [encode] lays it out, and
    the lemmas at the end read it back from a buffer that contains it. *)

From S2P Require Import Prelude.

(** WebCore/contentextensions/DFABytecode.h:37-67 [DFABytecodeInstruction] *)
Inductive DFABytecodeInstruction :=
| CheckValueCaseInsensitive
| CheckValueCaseSensitive
| CheckValueRangeCaseInsensitive
| CheckValueRangeCaseSensitive
| AppendAction
| TestFlagsAndAppendAction
| Terminate
| Jump.

#[global] Instance DFABytecodeInstruction_eq_dec : EqDecision DFABytecodeInstruction.
Proof. solve_decision. Defined.

(** The [uint8_t] underlying an enumerator. *)
Definition opcode (instruction : DFABytecodeInstruction) : N :=
  match instruction with
  | CheckValueCaseInsensitive => 0
  | CheckValueCaseSensitive => 1
  | CheckValueRangeCaseInsensitive => 2
  | CheckValueRangeCaseSensitive => 3
  | AppendAction => 4
  | TestFlagsAndAppendAction => 5
  | Terminate => 6
  | Jump => 7
  end.

(** [static_cast<DFABytecodeInstruction>(byte)]; [None] is a value that no
    enumerator has. *)
Definition decode_opcode (byte : N) : option DFABytecodeInstruction :=
  match byte with
  | 0 => Some CheckValueCaseInsensitive
  | 1 => Some CheckValueCaseSensitive
  | 2 => Some CheckValueRangeCaseInsensitive
  | 3 => Some CheckValueRangeCaseSensitive
  | 4 => Some AppendAction
  | 5 => Some TestFlagsAndAppendAction
  | 6 => Some Terminate
  | 7 => Some Jump
  | _ => None
  end.

Definition sizeof_DFABytecode : N := 1.
Definition sizeof_DFABytecodeInstruction : N := 1.
Definition sizeof_uint8 : N := 1.
Definition sizeof_uint16 : N := 2.
Definition sizeof_unsigned : N := 4.

(** WebCore/contentextensions/DFABytecode.h:69-87 [instructionSizeWithArguments] *)
Definition instructionSizeWithArguments (instruction : DFABytecodeInstruction) : N :=
  match instruction with
  | CheckValueCaseSensitive | CheckValueCaseInsensitive =>
      sizeof_DFABytecodeInstruction + sizeof_uint8 + sizeof_unsigned
  | CheckValueRangeCaseSensitive | CheckValueRangeCaseInsensitive =>
      sizeof_DFABytecodeInstruction + sizeof_uint8 + sizeof_uint8 + sizeof_unsigned
  | AppendAction => sizeof_DFABytecodeInstruction + sizeof_unsigned
  | TestFlagsAndAppendAction => sizeof_DFABytecodeInstruction + sizeof_uint16 + sizeof_unsigned
  | Terminate => sizeof_DFABytecodeInstruction
  | Jump => sizeof_DFABytecodeInstruction + sizeof_unsigned
  end.

(** ** The assembly view *)

Inductive instr :=
| ICheckValue (caseSensitive : bool) (value destination : N)
| ICheckValueRange (caseSensitive : bool) (low high destination : N)
| IAppendAction (action : N)
| ITestFlagsAndAppendAction (flags action : N)
| ITerminate
| IJump (destination : N).

Definition instruction_of (i : instr) : DFABytecodeInstruction :=
  match i with
  | ICheckValue true _ _ => CheckValueCaseSensitive
  | ICheckValue false _ _ => CheckValueCaseInsensitive
  | ICheckValueRange true _ _ _ => CheckValueRangeCaseSensitive
  | ICheckValueRange false _ _ _ => CheckValueRangeCaseInsensitive
  | IAppendAction _ => AppendAction
  | ITestFlagsAndAppendAction _ _ => TestFlagsAndAppendAction
  | ITerminate => Terminate
  | IJump _ => Jump
  end.

(** The bytes between the opcode and the destination. *)
Definition operands (i : instr) : list N :=
  match i with
  | ICheckValue _ value _ => [value]
  | ICheckValueRange _ low high _ => [low; high]
  | IAppendAction action => le_bytes 4 action
  | ITestFlagsAndAppendAction flags action => le_bytes 2 flags ++ le_bytes 4 action
  | ITerminate | IJump _ => []
  end.

(** The node an instruction jumps to. *)
Definition destination_of (i : instr) : option N :=
  match i with
  | ICheckValue _ _ d | ICheckValueRange _ _ _ d | IJump d => Some d
  | _ => None
  end.

Definition encode (resolve : N -> N) (i : instr) : list N :=
  opcode (instruction_of i) :: operands i
  ++ match destination_of i with Some d => le_bytes 4 (resolve d) | None => [] end.

Definition encode_all (resolve : N -> N) (code : list instr) : list N :=
  code ≫= encode resolve.

Definition code_size (code : list instr) : N :=
  foldr (fun i n => instructionSizeWithArguments (instruction_of i) + n) 0 code.

(** ** Lemmas *)

Lemma decode_opcode_opcode i : decode_opcode (opcode i) = Some i.
Proof. by destruct i. Qed.

Lemma length_encode resolve i :
  N.of_nat (length (encode resolve i)) = instructionSizeWithArguments (instruction_of i).
Proof. by destruct i as [[]|[]| | | |]. Qed.

Lemma encode_all_cons resolve i code :
  encode_all resolve (i :: code) = encode resolve i ++ encode_all resolve code.
Proof. done. Qed.

Lemma encode_all_app resolve c1 c2 :
  encode_all resolve (c1 ++ c2) = encode_all resolve c1 ++ encode_all resolve c2.
Proof. apply bind_app. Qed.

Lemma length_encode_all resolve code :
  N.of_nat (length (encode_all resolve code)) = code_size code.
Proof.
  induction code as [|i code IH]; [done|].
  rewrite encode_all_cons, length_app, Nat2N.inj_add, length_encode, IH. done.
Qed.

Lemma code_size_app c1 c2 : code_size (c1 ++ c2) = code_size c1 + code_size c2.
Proof. induction c1; simpl; lia. Qed.

Lemma instruction_size_pos i : 1 <= instructionSizeWithArguments i.
Proof. destruct i; vm_compute; done. Qed.

(** The code of a buffer: [bytes] is at [index]. *)
Definition at_index (buffer : list N) (index : N) (bytes : list N) : Prop :=
  exists pre post, buffer = pre ++ bytes ++ post /\ index = N.of_nat (length pre).

Lemma at_index_app buffer index b1 b2 :
  at_index buffer index (b1 ++ b2) <->
  at_index buffer index b1 /\ at_index buffer (index + N.of_nat (length b1)) b2.
Proof.
  split.
  - intros (pre & post & -> & ->). split.
    + exists pre, (b2 ++ post). by rewrite <- app_assoc.
    + exists (pre ++ b1), post. rewrite length_app. split; [by rewrite <- !app_assoc|lia].
  - intros [(pre & post & -> & ->) (pre' & post' & Heq & Hlen)].
    exists pre, post'. split; [|done].
    rewrite (app_assoc pre b1 post) in Heq.
    apply app_inj_1 in Heq as [<- ->]; [by rewrite <- !app_assoc|].
    rewrite length_app. lia.
Qed.

Lemma at_index_read buffer index bytes size :
  at_index buffer index bytes -> size = length bytes ->
  read_bytes size buffer index = Some bytes.
Proof. intros (pre & post & -> & ->) ->. by apply read_bytes_app. Qed.

Lemma at_index_lookup buffer index b bytes :
  at_index buffer index (b :: bytes) -> buffer !!N index = Some b.
Proof.
  intros (pre & post & -> & ->). rewrite Nat2N.id. by apply list_lookup_middle.
Qed.

Lemma at_index_lt buffer index b bytes :
  at_index buffer index (b :: bytes) -> index < N.of_nat (length buffer).
Proof. intros ?%at_index_lookup%lookupN_lt. done. Qed.
