(* ===== verification/DFABytecodeCompiler.v ===== *)
(** * [WebCore/contentextensions/DFABytecodeCompiler.cpp] and [.h]

    The compiler appends the code of one DFA to the shared bytecode buffer:
    a 32-bit size header, the code of the root, the code of every other node,
    and then the links, which replace the zero written for each destination by
    the offset of its node.  Offsets are absolute in the buffer. *)

From S2P Require Import Prelude ASCII DFA DFABytecode.

(** ** State *)

(** WebCore/contentextensions/DFABytecodeCompiler.h:41-84 [DFABytecodeCompiler] *)
Record Compiler := mkCompiler {
  m_bytecode : list N;
  m_nodeStartOffsets : list N;
  m_linkRecords : list (N * N)
}.

(** WebCore/contentextensions/DFABytecodeCompiler.h:52-64 [DFABytecodeCompiler::Range] *)
Record Range := mkRange {
  range_min : N;
  range_max : N;
  range_destination : N;
  range_caseSensitive : bool
}.

(** ** Emission *)

(** WebCore/contentextensions/DFABytecodeCompiler.cpp:39-44 [append] *)
Definition append (size : nat) (bytecode : list N) (value : N) : list N :=
  bytecode ++ le_bytes size value.

(** WebCore/contentextensions/DFABytecodeCompiler.cpp:46-49 [set32Bits] *)
Definition set32Bits (bytecode : list N) (index value : N) : option (list N) :=
  write_bytes (le_bytes 4 value) bytecode index.

Definition bytecode_append (size : nat) (value : N) (s : Compiler) : Compiler :=
  mkCompiler (append size (m_bytecode s) value) (m_nodeStartOffsets s) (m_linkRecords s).

(** [m_bytecode.size()], as it is kept in an [unsigned]. *)
Definition bytecode_size (s : Compiler) : N := wrap32 (N.of_nat (length (m_bytecode s))).

Definition append_link (destinationNodeIndex : N) (s : Compiler) : Compiler :=
  mkCompiler (m_bytecode s) (m_nodeStartOffsets s)
    (m_linkRecords s ++ [(bytecode_size s, destinationNodeIndex)]).

Definition append_instruction (i : DFABytecodeInstruction) : Compiler -> Compiler :=
  bytecode_append 1 (opcode i).

(** WebCore/contentextensions/DFABytecodeCompiler.cpp:51-55 [DFABytecodeCompiler::emitAppendAction] *)
Definition emitAppendAction (action : N) (s : Compiler) : Compiler :=
  bytecode_append 4 action (append_instruction AppendAction s).

(** WebCore/contentextensions/DFABytecodeCompiler.cpp:57-63 [DFABytecodeCompiler::emitTestFlagsAndAppendAction] *)
Definition emitTestFlagsAndAppendAction (flags action : N) (s : Compiler) : Compiler :=
  bytecode_append 4 action
    (bytecode_append 2 flags (append_instruction TestFlagsAndAppendAction s)).

(** WebCore/contentextensions/DFABytecodeCompiler.cpp:65-70 [DFABytecodeCompiler::emitJump] *)
Definition emitJump (destinationNodeIndex : N) (s : Compiler) : Compiler :=
  bytecode_append 4 0 (append_link destinationNodeIndex (append_instruction Jump s)).

(** WebCore/contentextensions/DFABytecodeCompiler.cpp:72-78 [DFABytecodeCompiler::emitCheckValue] *)
Definition emitCheckValue (value destinationNodeIndex : N) (caseSensitive : bool)
    (s : Compiler) : Compiler :=
  let s := append_instruction
    (if caseSensitive then CheckValueCaseSensitive else CheckValueCaseInsensitive) s in
  let s := bytecode_append 1 value s in
  bytecode_append 4 0 (append_link destinationNodeIndex s).

(** WebCore/contentextensions/DFABytecodeCompiler.cpp:80-89 [DFABytecodeCompiler::emitCheckValueRange] *)
Definition emitCheckValueRange (lowValue highValue destinationNodeIndex : N)
    (caseSensitive : bool) (s : Compiler) : Compiler :=
  let s := append_instruction
    (if caseSensitive then CheckValueRangeCaseSensitive else CheckValueRangeCaseInsensitive) s in
  let s := bytecode_append 1 lowValue s in
  let s := bytecode_append 1 highValue s in
  bytecode_append 4 0 (append_link destinationNodeIndex s).

(** WebCore/contentextensions/DFABytecodeCompiler.cpp:91-94 [DFABytecodeCompiler::emitTerminate] *)
Definition emitTerminate (s : Compiler) : Compiler := append_instruction Terminate s.

(** WebCore/contentextensions/DFABytecodeCompiler.cpp:195-204 [DFABytecodeCompiler::compileCheckForRange] *)
Definition compileCheckForRange (range : Range) (s : Compiler) : Compiler :=
  if range_min range =? range_max range
  then emitCheckValue (range_min range) (range_destination range) (range_caseSensitive range) s
  else emitCheckValueRange (range_min range) (range_max range) (range_destination range)
         (range_caseSensitive range) s.

(** ** The transitions of a node *)

Definition noDestination : N := max32.

(** [uint32_t destinations[128]] after the [memset]. *)
Definition no_destinations : list N := replicate 128 noDestination.

Definition dest (destinations : list N) (c : N) : N := destinations !!! N.to_nat c.

(** WebCore/contentextensions/DFABytecodeCompiler.cpp:126-134 [DFABytecodeCompiler::compileNodeTransitions],
    the table of destinations *)
Definition fill_destinations (ts : list (N * N)) : option (list N) :=
  foldM (fun destinations t =>
           _ ← release_assert (t.1 <? 128);
           Some (<[t.1 :=N t.2]> destinations)) no_destinations ts.

Record RangeState := mkRangeState {
  rs_destinations : list N;
  rs_ranges : list Range;
  rs_rangeMin : N;
  rs_hasRangeMin : bool
}.

(** WebCore/contentextensions/DFABytecodeCompiler.cpp:146-155 [DFABytecodeCompiler::compileNodeTransitions],
    whether the range needs a case-sensitive check *)
Definition range_needs_case (destinations : list N) (rangeMin rangeMax : N) : bool :=
  if (65 <=? rangeMin) && (rangeMax <=? 90)
  then existsb (fun rangeIndex =>
         negb (dest destinations rangeMin =? dest destinations (toASCIILower_char rangeIndex)))
         (for_range rangeMin (rangeMax + 1))
  else true.

(** WebCore/contentextensions/DFABytecodeCompiler.cpp:157-166 [DFABytecodeCompiler::compileNodeTransitions],
    the end of a range *)
Definition close_range (destinations : list N) (ranges : list Range) (rangeMin rangeMax : N)
    : list N * list Range :=
  if range_needs_case destinations rangeMin rangeMax
  then (destinations,
        ranges ++ [mkRange rangeMin rangeMax (dest destinations rangeMin) true])
  else
    let cleared := foldl (fun d rangeIndex => <[toASCIILower_char rangeIndex :=N noDestination]> d)
      destinations (for_range rangeMin (rangeMax + 1)) in
    (cleared,
     ranges ++ [mkRange (toASCIILower_char rangeMin) (toASCIILower_char rangeMax)
                  (dest cleared rangeMin) false]).

(** WebCore/contentextensions/DFABytecodeCompiler.cpp:139-179 [DFABytecodeCompiler::compileNodeTransitions],
    one turn of the loop over the characters *)
Definition range_step (s : RangeState) (i : N) : RangeState :=
  let destinations := rs_destinations s in
  if rs_hasRangeMin s then
    if negb (dest destinations i =? dest destinations (rs_rangeMin s)) then
      let '(destinations, ranges) :=
        close_range destinations (rs_ranges s) (rs_rangeMin s) (i - 1) in
      if dest destinations i =? noDestination
      then mkRangeState destinations ranges (rs_rangeMin s) false
      else mkRangeState destinations ranges i true
    else s
  else
    if negb (dest destinations i =? noDestination)
    then mkRangeState destinations (rs_ranges s) i true
    else s.

(** WebCore/contentextensions/DFABytecodeCompiler.cpp:136-185 [DFABytecodeCompiler::compileNodeTransitions],
    the ranges of the table *)
Definition compute_ranges (destinations : list N) : list Range :=
  let s := foldl range_step (mkRangeState destinations [] 0 false) (for_range 0 128) in
  if rs_hasRangeMin s
  then rs_ranges s ++ [mkRange (rs_rangeMin s) 127 (dest (rs_destinations s) (rs_rangeMin s)) true]
  else rs_ranges s.

(** WebCore/contentextensions/DFABytecodeCompiler.cpp:124-193 [DFABytecodeCompiler::compileNodeTransitions] *)
Definition compileNodeTransitions (dfa : DFA) (node : DFANode) (s : Compiler) : option Compiler :=
  ts ← node_transitions node dfa;
  destinations ← fill_destinations ts;
  let s := foldl (fun s range => compileCheckForRange range s) s (compute_ranges destinations) in
  if hasFallbackTransition node
  then target ← fallbackTransitionDestination node dfa; Some (emitJump target s)
  else Some (emitTerminate s).

(** WebCore/contentextensions/DFABytecodeCompiler.cpp:108-114 [DFABytecodeCompiler::compileNode],
    the code of one action *)
Definition compile_action (s : Compiler) (action : N) : Compiler :=
  if negb (N.land action 281470681743360 (* 0xFFFF00000000 *) =? 0)
  then emitTestFlagsAndAppendAction (wrap16 (N.shiftr action 32)) (wrap32 action) s
  else emitAppendAction (wrap32 action) s.

Definition set_node_offset (s : Compiler) (index value : N) : option Compiler :=
  offsets ← vec_set (m_nodeStartOffsets s) index value;
  Some (mkCompiler (m_bytecode s) offsets (m_linkRecords s)).

(** WebCore/contentextensions/DFABytecodeCompiler.cpp:96-122 [DFABytecodeCompiler::compileNode] *)
Definition compileNode (dfa : DFA) (index : N) (is_root : bool) (s : Compiler) : option Compiler :=
  node ← nodes dfa !!N index;
  if isKilled node then set_node_offset s index max32
  else
    s ← (if is_root then Some s else set_node_offset s index (bytecode_size s));
    acts ← node_actions node dfa;
    let s := foldl compile_action s acts in
    s ← (if is_root then set_node_offset s index (bytecode_size s) else Some s);
    compileNodeTransitions dfa node s.

(** WebCore/contentextensions/DFABytecodeCompiler.cpp:220-229 [DFABytecodeCompiler::compile], the linking of one record *)
Definition link_one (offsets : list N) (bytecode : list N) (record : N * N) : option (list N) :=
  target ← offsets !!N record.2;
  _ ← release_assert (negb (target =? max32));
  set32Bits bytecode record.1 target.

(** WebCore/contentextensions/DFABytecodeCompiler.cpp:206-232 [DFABytecodeCompiler::compile].
    The vector of offsets is not initialised by [resize]; every entry is written
    before it is read, and the model starts with zeros. *)
Definition compile (dfa : DFA) (bytecode : list N) : option (list N) :=
  let s := mkCompiler bytecode (replicate (length (nodes dfa)) 0) [] in
  let startLocation := bytecode_size s in
  let s := bytecode_append 4 0 s in
  s ← compileNode dfa (root dfa) true s;
  s ← foldM (fun s i => if i =? root dfa then Some s else compileNode dfa i false s)
        s (for_range 0 (N.of_nat (length (nodes dfa))));
  linked ← foldM (link_one (m_nodeStartOffsets s)) (m_bytecode s) (m_linkRecords s);
  set32Bits linked startLocation
    (wrap32 (N.of_nat (length linked) - startLocation)).

#[global] Arguments compute_ranges : simpl never.
#[global] Arguments for_range : simpl never.
#[global] Arguments no_destinations : simpl never.
#[global] Strategy 1000 [compute_ranges fill_destinations for_range no_destinations].
