(* ===== verification/CompilerLayout.v ===== *)
(** * The layout of the bytecode of a DFA

    [compileNodeTransitions] turns the table of a node's destinations into a list
    of range checks, some of them case insensitive, which the interpreter tries
    in order: [compute_ranges_correct] shows that the first check that matches a
    character gives the destination the table has for it.  [program] is the code
    of a DFA as a list of instructions whose destinations are nodes:
    [compile_layout] shows that [compile] succeeds on every well-formed DFA that
    fits in 32 bits, and that it appends a size header and [program] with every
    destination replaced by the offset of its node. *)

From S2P Require Import Prelude ASCII DFA DFABytecode DFABytecodeCompiler.

(** ** What a list of range checks means *)

Definition range_matches (r : Range) (c : N) : bool :=
  let c := if range_caseSensitive r then c else toASCIILower c in
  (range_min r <=? c) && (c <=? range_max r).

Fixpoint first_match (rs : list Range) (c : N) : option N :=
  match rs with
  | [] => None
  | r :: rs' => if range_matches r c then Some (range_destination r) else first_match rs' c
  end.

(** The entry of the table for [c]. *)
Definition table_entry (destinations : list N) (c : N) : option N :=
  if dest destinations c =? noDestination then None else Some (dest destinations c).

Definition range_ok (r : Range) : Prop :=
  range_min r <= range_max r < 128 /\ range_destination r <> noDestination.

(** A check that is well formed and whose destination is one of the table's. *)
Definition range_from (table : list N) (r : Range) : Prop :=
  range_ok r /\ exists c, c < 128 /\ dest table c = range_destination r.

(** ** Lemmas *)

Lemma first_match_snoc rs r c :
  first_match (rs ++ [r]) c =
  match first_match rs c with
  | Some d => Some d
  | None => if range_matches r c then Some (range_destination r) else None
  end.
Proof. induction rs as [|r' rs IH]; simpl; [done|]. by destruct (range_matches r' c). Qed.

Lemma first_match_Some rs c d :
  first_match rs c = Some d -> exists r, r ∈ rs /\ range_matches r c = true /\ range_destination r = d.
Proof.
  induction rs as [|r rs IH]; simpl; [done|]. destruct (range_matches r c) eqn:E.
  - intros [= <-]. exists r. split_and!; [by left|done|done].
  - intros (r' & ? & ? & ?)%IH. exists r'. split_and!; [by right|done|done].
Qed.

Lemma dest_insert d c x c' :
  c < N.of_nat (length d) -> dest (<[c :=N x]> d) c' = if decide (c = c') then x else dest d c'.
Proof.
  intros. unfold dest. case_decide as E.
  - subst. apply list_lookup_total_insert_eq. lia.
  - apply list_lookup_total_insert_ne. lia.
Qed.

Lemma dest_clear_out d l c :
  (forall i, i ∈ l -> toASCIILower_char i < N.of_nat (length d)) ->
  c ∉ toASCIILower_char <$> l ->
  dest (foldl (fun d i => <[toASCIILower_char i :=N noDestination]> d) d l) c = dest d c.
Proof.
  revert d. induction l as [|i l IH]; intros d Hl Hc; [done|].
  rewrite fmap_cons in Hc. apply not_elem_of_cons in Hc as [Hne Hc]. simpl. rewrite IH.
  - rewrite dest_insert by (apply Hl; by left). by case_decide.
  - intros j Hj. rewrite length_insert. apply Hl. by right.
  - done.
Qed.

Lemma dest_clear_in d l c :
  (forall i, i ∈ l -> toASCIILower_char i < N.of_nat (length d)) ->
  c ∈ toASCIILower_char <$> l ->
  dest (foldl (fun d i => <[toASCIILower_char i :=N noDestination]> d) d l) c = noDestination.
Proof.
  revert d. induction l as [|i l IH]; intros d Hl Hc; [by apply not_elem_of_nil in Hc|]. simpl.
  assert (forall j, j ∈ l -> toASCIILower_char j <
    N.of_nat (length (<[toASCIILower_char i :=N noDestination]> d))) as Hl'.
  { intros j Hj. rewrite length_insert. apply Hl. by right. }
  destruct (decide (c ∈ toASCIILower_char <$> l)) as [Hin|Hin]; [by apply IH|].
  rewrite dest_clear_out by done. rewrite dest_insert by (apply Hl; by left).
  rewrite fmap_cons in Hc. apply elem_of_cons in Hc as [->|?]; [|done]. by case_decide.
Qed.

Lemma length_clear l d :
  length (foldl (fun d i => <[toASCIILower_char i :=N noDestination]> d) d l) = length d.
Proof. revert d. induction l as [|i l IH]; intros d; simpl; [done|]. by rewrite IH, length_insert. Qed.

(** The lower case of an upper-case range is the range 32 further. *)
Lemma elem_of_lower_range c a b :
  65 <= a -> b <= 90 ->
  c ∈ toASCIILower_char <$> for_range a (b + 1) <-> a + 32 <= c <= b + 32.
Proof.
  intros. rewrite list_elem_of_fmap. setoid_rewrite elem_of_for_range. split.
  - intros (i & -> & ?). rewrite toASCIILower_char_spec, toASCIILower_upper; lia.
  - intros. exists (c - 32). rewrite toASCIILower_char_spec, toASCIILower_upper; lia.
Qed.

(** What an insensitive check tells: the range has the same destination in lower case. *)
Lemma range_needs_case_false d rmin rmax :
  range_needs_case d rmin rmax = false ->
  65 <= rmin /\ rmax <= 90 /\
  forall i, rmin <= i <= rmax -> dest d (i + 32) = dest d rmin.
Proof.
  unfold range_needs_case. destruct (_ && _) eqn:E; [|done]. intros Hex. breflect.
  split_and!; [done|done|]. intros i Hi.
  assert (negb (dest d rmin =? dest d (toASCIILower_char i)) = false) as Hb.
  - destruct (negb _) eqn:En; [|done]. rewrite <- Hex. symmetry. apply existsb_exists.
    exists i. split; [|done]. apply list_elem_of_In, elem_of_for_range. lia.
  - breflect. rewrite toASCIILower_char_spec, toASCIILower_upper in Hb by lia. done.
Qed.

(** The characters an insensitive check of an upper-case range accepts. *)
Lemma insensitive_matches rmin rmax d c :
  65 <= rmin <= rmax -> rmax <= 90 ->
  range_matches (mkRange (toASCIILower_char rmin) (toASCIILower_char rmax) d false) c = true
  <-> rmin <= c <= rmax \/ rmin + 32 <= c <= rmax + 32.
Proof.
  intros H1 H2. unfold range_matches. simpl.
  rewrite !toASCIILower_char_spec, (toASCIILower_upper rmin), (toASCIILower_upper rmax) by lia.
  rewrite andb_true_iff, !N.leb_le. destruct (decide (65 <= c <= 90)) as [H5|H5].
  - rewrite toASCIILower_upper by lia. lia.
  - rewrite toASCIILower_other by lia. lia.
Qed.

Lemma sensitive_matches rmin rmax d c :
  range_matches (mkRange rmin rmax d true) c = true <-> rmin <= c <= rmax.
Proof. unfold range_matches. simpl. by rewrite andb_true_iff, !N.leb_le. Qed.

(** ** The invariant of the loop over the characters *)

Section Invariant.
(** The table before the loop. *)
Context (table : list N).

(** The first character whose check has not been appended yet. *)
Definition pending (i : N) (s : RangeState) : N := if rs_hasRangeMin s then rs_rangeMin s else i.

(** A character whose check is still to come has its destination in the table,
    or it is the lower case of a range that was checked without case. *)
Definition pending_char (s : RangeState) (c : N) : Prop :=
  (dest (rs_destinations s) c = dest table c /\ first_match (rs_ranges s) c = None) \/
  (dest (rs_destinations s) c = noDestination /\ first_match (rs_ranges s) c = table_entry table c).

Record range_inv (i : N) (s : RangeState) : Prop := {
  inv_length : length (rs_destinations s) = 128%nat;
  inv_open : rs_hasRangeMin s = true -> rs_rangeMin s < i /\
    forall c, rs_rangeMin s <= c < i -> dest (rs_destinations s) c = dest (rs_destinations s) (rs_rangeMin s) /\
      dest (rs_destinations s) c <> noDestination;
  inv_done : forall c, c < pending i s -> c < 128 -> first_match (rs_ranges s) c = table_entry table c;
  inv_pending : forall c, pending i s <= c -> c < 128 -> pending_char s c;
  inv_ok : Forall (range_from table) (rs_ranges s)
}.

(** A pending character with a destination keeps the one of the initial table. *)
Lemma pending_char_dest s c :
  pending_char s c -> dest (rs_destinations s) c <> noDestination ->
  dest (rs_destinations s) c = dest table c /\ first_match (rs_ranges s) c = None.
Proof. intros [?|[? _]] ?; [done|congruence]. Qed.

Lemma table_entry_dest c : dest table c <> noDestination -> table_entry table c = Some (dest table c).
Proof. intros. unfold table_entry. destruct (_ =? _) eqn:E; breflect; congruence. Qed.

(** The end of a range: the range that ends before [i] gets its check. *)
Lemma close_range_inv i s d rs :
  i <= 128 -> rs_hasRangeMin s = true -> range_inv i s ->
  close_range (rs_destinations s) (rs_ranges s) (rs_rangeMin s) (i - 1) = (d, rs) ->
  range_inv i (mkRangeState d rs (rs_rangeMin s) false).
Proof.
  intros Hi Hhas [Hlen Hopen Hdone Hpend Hok] Hclose. destruct (Hopen Hhas) as [Hlt Hsame].
  set (rmin := rs_rangeMin s) in *. unfold pending in *. rewrite Hhas in *. fold rmin in Hdone, Hpend.
  destruct (Hsame rmin) as [_ Hsome]; [lia|].
  assert (forall c, rmin <= c < i -> c < 128 -> dest (rs_destinations s) rmin = dest table c /\
    first_match (rs_ranges s) c = None /\ table_entry table c = Some (dest (rs_destinations s) rmin)) as Hin.
  { intros c Hc Hc'. destruct (Hsame c Hc) as [He Hn].
    destruct (pending_char_dest s c (Hpend c (proj1 Hc) Hc') Hn) as [E1 E2].
    rewrite table_entry_dest by congruence. split_and!; congruence. }
  unfold close_range in Hclose. destruct (range_needs_case _ _ _) eqn:Ecase; simplify_eq.
  - split; simpl; [done|done| | |].
    + unfold pending. simpl. intros c Hc Hc'. rewrite first_match_snoc.
      destruct (N.lt_ge_cases c rmin) as [Hlow|Hge].
      * rewrite Hdone by done. destruct (table_entry table c); [done|].
        destruct (range_matches _ c) eqn:E; [|done]. apply sensitive_matches in E. lia.
      * destruct (Hin c) as (_ & -> & ->); [lia|lia|].
        rewrite (proj2 (sensitive_matches _ _ _ c)) by lia. done.
    + unfold pending. simpl. intros c Hc Hc'. unfold pending_char. simpl. rewrite first_match_snoc.
      assert (range_matches (mkRange rmin (i - 1) (dest (rs_destinations s) rmin) true) c = false) as ->.
      { destruct (range_matches _ c) eqn:E; [|done]. apply sensitive_matches in E. lia. }
      destruct (Hpend c) as [[? ->]|[? ->]]; [lia|done|by left|right]. by destruct (table_entry table c).
    + apply Forall_app. split; [done|]. constructor; [|done]. unfold range_from, range_ok. simpl.
      split; [split; [lia|done]|]. exists rmin. split; [lia|]. symmetry. apply (Hin rmin); lia.
  - apply range_needs_case_false in Ecase as (H65 & H90 & Hlower).
    assert (forall j, j ∈ for_range rmin (i - 1 + 1) ->
      toASCIILower_char j < N.of_nat (length (rs_destinations s))) as Hrange.
    { intros j Hj%elem_of_for_range. rewrite toASCIILower_char_spec, toASCIILower_upper by lia. lia. }
    assert (forall c, ~ (rmin + 32 <= c <= i - 1 + 32) ->
      dest (foldl (fun d j => <[toASCIILower_char j :=N noDestination]> d) (rs_destinations s)
        (for_range rmin (i - 1 + 1))) c = dest (rs_destinations s) c) as Hkeep.
    { intros c Hc. apply dest_clear_out; [done|]. by rewrite elem_of_lower_range by lia. }
    rewrite (Hkeep rmin) by lia.
    assert (forall c, range_matches (mkRange (toASCIILower_char rmin) (toASCIILower_char (i - 1))
      (dest (rs_destinations s) rmin) false) c = true <-> rmin <= c <= i - 1 \/ rmin + 32 <= c <= i - 1 + 32)
      as Hm by (intros c; apply insensitive_matches; lia).
    split; simpl; [by rewrite length_clear|done| | |].
    + unfold pending. simpl. intros c Hc Hc'. rewrite first_match_snoc.
      destruct (N.lt_ge_cases c rmin) as [Hlow|Hge].
      * rewrite Hdone by done. destruct (table_entry table c); [done|].
        destruct (range_matches _ c) eqn:E; [|done]. apply Hm in E. lia.
      * destruct (Hin c) as (_ & -> & ->); [lia|lia|].
        rewrite (proj2 (Hm c)) by lia. done.
    + unfold pending. simpl. intros c Hc Hc'. unfold pending_char. simpl. rewrite first_match_snoc.
      destruct (decide (rmin + 32 <= c <= i - 1 + 32)) as [Hl|Hl].
      * right. split; [by apply dest_clear_in; [done|]; rewrite elem_of_lower_range by lia|].
        rewrite (proj2 (Hm c)) by lia.
        assert (dest (rs_destinations s) c = dest (rs_destinations s) rmin) as Hd.
        { rewrite <- (Hlower (c - 32)) by lia. f_equal. lia. }
        destruct (pending_char_dest s c) as [E1 E2]; [apply Hpend; lia|congruence|].
        rewrite E2, table_entry_dest by congruence. simpl. congruence.
      * rewrite Hkeep by done. destruct (range_matches _ c) eqn:E; [apply Hm in E; lia|].
        destruct (Hpend c) as [[? ->]|[? ->]]; [lia|done|by left|right]. by destruct (table_entry table c).
    + apply Forall_app. split; [done|]. constructor; [|done]. unfold range_from, range_ok. simpl.
      rewrite !toASCIILower_char_spec, !toASCIILower_upper by lia.
      split; [split; [lia|done]|]. exists rmin. split; [lia|]. symmetry. apply (Hin rmin); lia.
Qed.

Lemma range_step_inv i s : i < 128 -> range_inv i s -> range_inv (i + 1) (range_step s i).
Proof.
  intros Hi Hinv. unfold range_step. destruct (rs_hasRangeMin s) eqn:Hhas.
  - destruct (dest (rs_destinations s) i =? _) eqn:Edest; simpl; breflect.
    + destruct Hinv as [Hlen Hopen Hdone Hpend Hok]. destruct (Hopen Hhas) as [Hlt Hsame].
      unfold pending in *. rewrite Hhas in *. split; unfold pending; rewrite ?Hhas; try done.
      intros _. split; [lia|]. intros c Hc.
      destruct (decide (c = i)) as [->|Hne]; [|apply Hsame; lia].
      split; [done|]. rewrite Edest. apply Hsame. lia.
    + destruct (close_range _ _ _ _) as [d rs] eqn:Eclose.
      assert (range_inv i (mkRangeState d rs (rs_rangeMin s) false)) as [Hlen _ Hdone Hpend Hok]
        by (eapply close_range_inv; [lia|done|done|done]).
      unfold pending in *. simpl in *.
      destruct (dest d i =? noDestination) eqn:Ei; breflect.
      * split; unfold pending; simpl; try done.
        -- intros c Hc Hc'. destruct (decide (c = i)) as [->|Hne]; [|apply Hdone; lia].
           destruct (Hpend i) as [[E E2]|[_ E2]]; [lia|done| |done]. simpl in *.
           rewrite E2. unfold table_entry. by rewrite <- E, Ei.
        -- intros c Hc Hc'. apply Hpend; lia.
      * split; unfold pending; simpl; try done. intros _. split; [lia|].
        intros c Hc. assert (c = i) as -> by lia. done.
  - destruct Hinv as [Hlen Hopen Hdone Hpend Hok]. unfold pending in *. rewrite Hhas in *.
    destruct (dest (rs_destinations s) i =? noDestination) eqn:Ei; simpl; breflect.
    + split; unfold pending; rewrite ?Hhas; try done.
      * intros c Hc Hc'. destruct (decide (c = i)) as [->|Hne]; [|apply Hdone; lia].
        destruct (Hpend i) as [[E ->]|[_ ->]]; [lia|done| |done].
        unfold table_entry. by rewrite <- E, Ei.
      * intros c Hc Hc'. apply Hpend; lia.
    + split; unfold pending; simpl; try done. intros _. split; [lia|].
      intros c Hc. assert (c = i) as -> by lia. done.
Qed.

Lemma range_loop_inv n s :
  n <= 128 -> range_inv 0 s -> range_inv n (foldl range_step s (for_range 0 n)).
Proof.
  intros Hn Hinv. induction n as [|n IH] using N.peano_ind; [done|].
  replace (N.succ n) with (n + 1) by lia. rewrite for_range_snoc, foldl_app by lia. simpl.
  apply range_step_inv; [lia|]. apply IH. lia.
Qed.
End Invariant.

(** The checks of a node and the table they come from. *)
Lemma compute_ranges_spec table :
  length table = 128%nat ->
  Forall (range_from table) (compute_ranges table) /\
  forall c, c < 128 -> first_match (compute_ranges table) c = table_entry table c.
Proof.
  intros Hlen. unfold compute_ranges.
  assert (range_inv table 128 (foldl range_step (mkRangeState table [] 0 false) (for_range 0 128)))
    as Hinv.
  { apply range_loop_inv; [done|]. split; unfold pending; simpl; try done; [lia|]. by left. }
  revert Hinv. generalize (foldl range_step (mkRangeState table [] 0 false) (for_range 0 128)).
  intros s Hinv. destruct (rs_hasRangeMin s) eqn:Hhas.
  - destruct Hinv as [Hlen' Hopen Hdone Hpend Hok].
    destruct (Hopen Hhas) as [Hlt Hsame]. unfold pending in *. rewrite Hhas in *.
    destruct (Hsame (rs_rangeMin s)) as [_ Hsome]; [lia|]. split.
    + apply Forall_app. split; [done|]. constructor; [|done]. unfold range_from, range_ok. simpl.
      split; [split; [lia|done]|]. exists (rs_rangeMin s). split; [lia|]. symmetry.
      apply (pending_char_dest table); [apply Hpend; lia|done].
    + intros c Hc. rewrite first_match_snoc. destruct (N.lt_ge_cases c (rs_rangeMin s)) as [Hlow|Hge].
      * rewrite Hdone by done. destruct (table_entry table c); [done|].
        destruct (range_matches _ c) eqn:E; [|done]. apply sensitive_matches in E. lia.
      * destruct (Hsame c) as [He Hn]; [lia|].
        destruct (pending_char_dest table s c (Hpend c Hge Hc) Hn) as [E1 ->].
        rewrite (proj2 (sensitive_matches _ _ _ c)) by lia.
        rewrite table_entry_dest by congruence. simpl. congruence.
  - destruct Hinv as [_ _ Hdone _ Hok]. split; [done|]. intros c Hc. apply Hdone; [|done].
    unfold pending. rewrite Hhas. lia.
Qed.

(** ** The code of a node *)

Definition range_instr (r : Range) : instr :=
  if range_min r =? range_max r
  then ICheckValue (range_caseSensitive r) (range_min r) (range_destination r)
  else ICheckValueRange (range_caseSensitive r) (range_min r) (range_max r) (range_destination r).

Definition action_flags (action : N) : N := wrap16 (N.shiftr action 32).

Definition action_instr (action : N) : instr :=
  if negb (N.land action 281470681743360 =? 0)
  then ITestFlagsAndAppendAction (action_flags action) (wrap32 action)
  else IAppendAction (wrap32 action).

Definition last_instr (dfa : DFA) (node : DFANode) : instr :=
  match fallbackTransitionDestination node dfa with
  | Some target => IJump target
  | None => ITerminate
  end.

Definition node_table (dfa : DFA) (node : DFANode) : list N :=
  default no_destinations (fill_destinations (default [] (node_transitions node dfa))).

Definition transitions_code (dfa : DFA) (node : DFANode) : list instr :=
  (range_instr <$> compute_ranges (node_table dfa node)) ++ [last_instr dfa node].

Definition actions_code (dfa : DFA) (node : DFANode) : list instr :=
  action_instr <$> default [] (node_actions node dfa).

(** The code of the node at [index]; a killed node has none. *)
Definition node_code (dfa : DFA) (index : N) : list instr :=
  match nodes dfa !!N index with
  | Some node => if isKilled node then [] else actions_code dfa node ++ transitions_code dfa node
  | None => []
  end.

(** The order in which the nodes are compiled. *)
Definition node_order (dfa : DFA) : list N :=
  root dfa :: filter (fun i => i <> root dfa) (for_range 0 (N.of_nat (length (nodes dfa)))).

Definition program (dfa : DFA) : list instr := node_order dfa ≫= node_code dfa.

(** The size of what [compile] appends. *)
Definition compiled_size (dfa : DFA) : N := 4 + code_size (program dfa).

(** ** Emission as assembly *)

(** The link records of [code] at [base]. *)
Fixpoint links (base : N) (code : list instr) : list (N * N) :=
  match code with
  | [] => []
  | i :: code' =>
    let next := base + instructionSizeWithArguments (instruction_of i) in
    match destination_of i with
    | Some d => [(wrap32 (next - 4), d)]
    | None => []
    end ++ links next code'
  end.

Definition unlinked (d : N) : N := 0.

Definition emit_code (code : list instr) (s : Compiler) : Compiler :=
  mkCompiler (m_bytecode s ++ encode_all unlinked code) (m_nodeStartOffsets s)
    (m_linkRecords s ++ links (N.of_nat (length (m_bytecode s))) code).

Lemma links_app base c1 c2 : links base (c1 ++ c2) = links base c1 ++ links (base + code_size c1) c2.
Proof.
  revert base. induction c1 as [|i c1 IH]; intros base; simpl; [by rewrite N.add_0_r|].
  rewrite IH, <- app_assoc. do 3 f_equal. lia.
Qed.

Lemma emit_code_nil s : emit_code [] s = s.
Proof. destruct s. unfold emit_code. simpl. by rewrite !app_nil_r. Qed.

Lemma emit_code_app c1 c2 s : emit_code (c1 ++ c2) s = emit_code c2 (emit_code c1 s).
Proof.
  unfold emit_code. simpl. f_equal.
  - by rewrite encode_all_app, app_assoc.
  - rewrite links_app, <- app_assoc, length_app. do 3 f_equal.
    rewrite Nat2N.inj_add. f_equal. symmetry. apply length_encode_all.
Qed.

(** The four bytes of a zero at the end of an instruction, and their position. *)
Lemma emit_destination (s : Compiler) (pre : list N) i d :
  destination_of i = Some d ->
  encode unlinked i = pre ++ le_bytes 4 0 ->
  N.of_nat (length pre) + 4 = instructionSizeWithArguments (instruction_of i) ->
  bytecode_append 4 0 (append_link d
    (mkCompiler (m_bytecode s ++ pre) (m_nodeStartOffsets s) (m_linkRecords s))) = emit_code [i] s.
Proof.
  intros Hd Henc Hlen. unfold emit_code, bytecode_append, append_link, append, bytecode_size.
  cbn [m_bytecode m_nodeStartOffsets m_linkRecords links encode_all mbind list_bind].
  rewrite Hd, Henc, app_nil_r, <- app_assoc. do 2 f_equal. simpl. do 2 f_equal.
  rewrite length_app. f_equal. lia.
Qed.

Lemma emitAppendAction_code a s : emitAppendAction a s = emit_code [IAppendAction a] s.
Proof.
  unfold emitAppendAction, emit_code, append_instruction, bytecode_append, append. simpl.
  by rewrite <- !app_assoc, app_nil_r.
Qed.

Lemma emitTestFlags_code f a s :
  emitTestFlagsAndAppendAction f a s = emit_code [ITestFlagsAndAppendAction f a] s.
Proof.
  unfold emitTestFlagsAndAppendAction, emit_code, append_instruction, bytecode_append, append.
  simpl. by rewrite <- !app_assoc, app_nil_r.
Qed.

Lemma emitTerminate_code s : emitTerminate s = emit_code [ITerminate] s.
Proof.
  unfold emitTerminate, emit_code, append_instruction, bytecode_append, append. simpl.
  by rewrite app_nil_r.
Qed.

Lemma emitJump_code d s : emitJump d s = emit_code [IJump d] s.
Proof. by apply (emit_destination s (le_bytes 1 (opcode Jump))). Qed.

Lemma range_instr_code r s :
  range_ok r -> compileCheckForRange r s = emit_code [range_instr r] s.
Proof.
  intros [Hr _]. destruct r as [lo hi d cs]. simpl in *.
  unfold compileCheckForRange, range_instr. simpl.
  destruct (lo =? hi) eqn:E.
  - rewrite <- (emit_destination s (le_bytes 1 (opcode
      (if cs then CheckValueCaseSensitive else CheckValueCaseInsensitive)) ++ [lo]) _ d) by (by destruct cs).
    unfold emitCheckValue, append_instruction, bytecode_append, append. simpl.
    rewrite (N.mod_small lo) by lia. by rewrite <- ?app_assoc.
  - rewrite <- (emit_destination s (le_bytes 1 (opcode
      (if cs then CheckValueRangeCaseSensitive else CheckValueRangeCaseInsensitive)) ++ [lo; hi]) _ d)
      by (by destruct cs).
    unfold emitCheckValueRange, append_instruction, bytecode_append, append. simpl.
    rewrite (N.mod_small lo), (N.mod_small hi) by lia. by rewrite <- ?app_assoc.
Qed.

Lemma compile_action_code a s : compile_action s a = emit_code [action_instr a] s.
Proof.
  unfold compile_action, action_instr. destruct (negb _).
  - apply emitTestFlags_code.
  - apply emitAppendAction_code.
Qed.

(** A loop that emits one instruction per element. *)
Lemma foldl_emit {A} (f : Compiler -> A -> Compiler) (g : A -> instr) l :
  (forall s a, a ∈ l -> f s a = emit_code [g a] s) ->
  forall s, foldl f s l = emit_code (g <$> l) s.
Proof.
  intros Hf. induction l as [|a l IH]; intros s; simpl; [by rewrite emit_code_nil|].
  rewrite Hf by (by left). rewrite IH by (intros; apply Hf; by right).
  by rewrite <- (emit_code_app [g a]).
Qed.

(** ** The table of a node *)

Lemma fill_destinations_spec ts :
  NoDup ts.*1 -> Forall (fun t => t.1 < 128 /\ t.2 < noDestination) ts ->
  exists table, fill_destinations ts = Some table /\ length table = 128%nat /\
    forall c, c < 128 -> table_entry table c = find_transition c ts.
Proof.
  unfold fill_destinations. intros Hnd Hall.
  assert (forall table0, length table0 = 128%nat -> (forall c, c ∈ ts.*1 -> table_entry table0 c = None) ->
    exists table, foldM (fun destinations t =>
           _ ← release_assert (t.1 <? 128);
           Some (<[t.1 :=N t.2]> destinations)) table0 ts = Some table /\ length table = 128%nat /\
    forall c, c < 128 -> table_entry table c =
      match find_transition c ts with Some t => Some t | None => table_entry table0 c end) as Hgen.
  - induction ts as [|[k t] ts IH]; intros table0 Hlen Hnone; simpl; [eauto|].
    apply NoDup_cons in Hnd as [Hk Hnd]. apply Forall_cons in Hall as [[Hk128 Ht] Hall]. simpl in *.
    assert (k <? 128 = true) as -> by (by apply N.ltb_lt). simpl.
    assert (forall c, table_entry (<[k :=N t]> table0) c =
      if decide (k = c) then Some t else table_entry table0 c) as Hins.
    { intros c. unfold table_entry. rewrite dest_insert by lia. case_decide; [|done].
      destruct (t =? noDestination) eqn:E; breflect; [lia|done]. }
    destruct (IH Hnd Hall (<[k :=N t]> table0)) as (table & -> & Hl & Hspec).
    + by rewrite length_insert.
    + intros c Hc. rewrite Hins, decide_False by (by intros ->). apply Hnone. by right.
    + exists table. split_and!; [done|done|]. intros c Hc. rewrite Hspec by done.
      destruct (k =? c) eqn:E; breflect.
      * subst. rewrite (proj2 (find_transition_None c ts)) by done. rewrite Hins. by case_decide.
      * destruct (find_transition c ts); [done|]. rewrite Hins. by case_decide.
  - assert (forall c, c < 128 -> table_entry no_destinations c = None) as Hempty.
    { intros c Hc. unfold table_entry, dest, no_destinations.
      by rewrite lookup_total_replicate_2 by lia. }
    destruct (Hgen no_destinations) as (table & ? & ? & Hs); [done| |].
    { intros c (t & -> & Ht)%list_elem_of_fmap. rewrite Forall_forall in Hall. by apply Hempty, Hall. }
    exists table. split_and!; [done|done|]. intros c Hc. rewrite Hs, Hempty by done.
    by destruct (find_transition c ts).
Qed.

(** ** The code of one node *)

Definition set_offset (s : Compiler) (index value : N) : Compiler :=
  mkCompiler (m_bytecode s) (<[index :=N value]> (m_nodeStartOffsets s)) (m_linkRecords s).

Lemma set_node_offset_spec s index value :
  index < N.of_nat (length (m_nodeStartOffsets s)) ->
  set_node_offset s index value = Some (set_offset s index value).
Proof.
  intros. unfold set_node_offset, vec_set.
  by replace (_ <? _)%nat with true by (symmetry; apply Nat.ltb_lt; lia).
Qed.

Lemma emit_code_set_offset code s index value :
  emit_code code (set_offset s index value) = set_offset (emit_code code s) index value.
Proof. done. Qed.

Section Layout.
Context (dfa : DFA) (Hok : dfa_ok dfa).

Notation n := (N.of_nat (length (nodes dfa))).

Lemma live_noDestination index : live dfa index -> index < noDestination.
Proof. intros ?%live_lt. pose proof (ok_size dfa Hok). unfold noDestination. lia. Qed.

(** The table of a node that is not killed is its transition function. *)
Lemma node_table_spec node :
  node_ok dfa node ->
  exists ts, node_transitions node dfa = Some ts /\
    fill_destinations ts = Some (node_table dfa node) /\ length (node_table dfa node) = 128%nat /\
    forall c, c < 128 -> table_entry (node_table dfa node) c = find_transition c ts.
Proof.
  intros [_ (ts & Hts & Hnd & Hall) _]. exists ts. split; [done|].
  unfold node_table. rewrite Hts. simpl.
  destruct (fill_destinations_spec ts Hnd) as (table & Hfill & Hlen & Hspec).
  - eapply Forall_impl; [exact Hall|]. intros t [? ?]. split; [done|]. by apply live_noDestination.
  - rewrite Hfill. simpl. done.
Qed.

Lemma compileNodeTransitions_code node s :
  node_ok dfa node ->
  compileNodeTransitions dfa node s = Some (emit_code (transitions_code dfa node) s).
Proof.
  intros Hnode. destruct (node_table_spec node Hnode) as (ts & Hts & Hfill & Hlen & _).
  unfold compileNodeTransitions, transitions_code, last_instr. rewrite Hts. run_option.
  rewrite Hfill. run_option.
  destruct (compute_ranges_spec (node_table dfa node) Hlen) as [Hranges _].
  rewrite (foldl_emit _ range_instr), emit_code_app.
  - destruct (hasFallbackTransition node) eqn:F.
    + destruct (ok_fallback dfa node Hnode F) as (target & -> & _). run_option.
      by rewrite emitJump_code.
    + assert (fallbackTransitionDestination node dfa = None) as ->
        by (unfold fallbackTransitionDestination; by rewrite F).
      by rewrite emitTerminate_code.
  - intros s' r Hr. apply range_instr_code. by eapply Forall_forall in Hranges as [? _].
Qed.

(** Where a jump to a node lands in the code of the node. *)
Definition entry_code (index : N) : list instr :=
  match nodes dfa !!N index with
  | Some node => if index =? root dfa then transitions_code dfa node else node_code dfa index
  | None => []
  end.

Definition skipped_code (index : N) : list instr :=
  match nodes dfa !!N index with
  | Some node => if index =? root dfa then actions_code dfa node else []
  | None => []
  end.

Lemma node_code_split index : live dfa index -> node_code dfa index = skipped_code index ++ entry_code index.
Proof.
  intros (node & Hn & Hk). unfold skipped_code, entry_code, node_code. rewrite Hn, Hk.
  destruct (index =? root dfa); rewrite ?app_nil_l; reflexivity.
Qed.

Definition node_offset (s : Compiler) (index : N) : N :=
  match nodes dfa !!N index with
  | Some node => if isKilled node then max32
      else wrap32 (N.of_nat (length (m_bytecode s)) + code_size (skipped_code index))
  | None => 0
  end.

Lemma compileNode_code index s :
  index < n -> length (m_nodeStartOffsets s) = length (nodes dfa) ->
  compileNode dfa index (index =? root dfa) s =
  Some (emit_code (node_code dfa index) (set_offset s index (node_offset s index))).
Proof.
  intros Hlt Hlen. destruct (lookupN_is_Some (nodes dfa) index Hlt) as (node & Hn).
  unfold compileNode, node_offset, skipped_code, node_code. rewrite Hn. run_option.
  destruct (isKilled node) eqn:Hk.
  - rewrite set_node_offset_spec by lia. by rewrite emit_code_nil.
  - pose proof (ok_nodes dfa Hok index node Hn Hk) as Hnode.
    destruct (ok_actions dfa node Hnode) as (acts & Hacts & _).
    unfold actions_code. rewrite Hacts. cbn [default]. run_option.
    destruct (index =? root dfa); run_option.
    + rewrite (foldl_emit _ action_instr) by (intros; apply compile_action_code).
      rewrite set_node_offset_spec by (simpl; lia). run_option.
      rewrite compileNodeTransitions_code by done. f_equal.
      rewrite emit_code_app, !emit_code_set_offset. do 2 f_equal.
      unfold bytecode_size. simpl. rewrite length_app, Nat2N.inj_add. do 2 f_equal.
      apply length_encode_all.
    + rewrite set_node_offset_spec by lia. run_option.
      rewrite (foldl_emit _ action_instr) by (intros; apply compile_action_code).
      rewrite compileNodeTransitions_code by done.
      by rewrite emit_code_app, N.add_0_r.
Qed.

(** What has been laid out after [order], from a buffer of [base] bytes. *)
Record layout (pre : list N) (order : list N) (s : Compiler) : Prop := {
  layout_bytes : m_bytecode s = pre ++ encode_all unlinked (order ≫= node_code dfa);
  layout_links : m_linkRecords s = links (N.of_nat (length pre)) (order ≫= node_code dfa);
  layout_length : length (m_nodeStartOffsets s) = length (nodes dfa);
  layout_offsets : forall index, index ∈ order -> live dfa index -> exists c1 c2,
    order ≫= node_code dfa = c1 ++ entry_code index ++ c2 /\
    m_nodeStartOffsets s !!N index = Some (wrap32 (N.of_nat (length pre) + code_size c1))
}.

Lemma compileNode_layout pre order index s :
  index < n -> index ∉ order -> layout pre order s ->
  exists s', compileNode dfa index (index =? root dfa) s = Some s' /\ layout pre (order ++ [index]) s'.
Proof.
  intros Hlt Hnotin [Hbytes Hlinks Hlen Hoffs]. eexists. split; [by apply compileNode_code|].
  assert (forall i : N, [i] ≫= node_code dfa = node_code dfa i) as Hone by (intros; apply app_nil_r).
  assert (N.of_nat (length (m_bytecode s)) =
    N.of_nat (length pre) + code_size (order ≫= node_code dfa)) as Hsize.
  { rewrite Hbytes, length_app, Nat2N.inj_add, length_encode_all. done. }
  split; simpl.
  - rewrite Hbytes, bind_app, Hone, encode_all_app. by rewrite app_assoc.
  - by rewrite Hlinks, bind_app, Hone, links_app, Hsize.
  - by rewrite length_insert.
  - intros i Hi Hlive. rewrite bind_app, Hone. apply elem_of_app in Hi as [Hi|Hi].
    + destruct (Hoffs i Hi Hlive) as (c1 & c2 & -> & Ho). exists c1, (c2 ++ node_code dfa index).
      rewrite list_lookup_insert_ne by (intros Heq; apply Hnotin; by assert (index = i) as -> by lia).
      split; [by rewrite <- !app_assoc|done].
    + apply list_elem_of_singleton in Hi as ->. pose proof Hlive as (node & Hn & Hk).
      exists ((order ≫= node_code dfa) ++ skipped_code index), [].
      rewrite node_code_split, app_nil_r, <- app_assoc by done. split; [done|].
      rewrite list_lookup_insert_eq by lia. unfold node_offset. rewrite Hn, Hk.
      rewrite Hsize, code_size_app. do 2 f_equal. lia.
Qed.

Lemma root_lt : root dfa < n.
Proof. apply live_lt, ok_root, Hok. Qed.

(** The loop over the nodes other than the root. *)
Lemma compile_nodes_layout pre s l order :
  NoDup l -> (forall i, i ∈ l -> i < n /\ (i <> root dfa -> i ∉ order)) -> layout pre order s ->
  exists s', foldM (fun s i => if i =? root dfa then Some s else compileNode dfa i false s) s l = Some s'
    /\ layout pre (order ++ filter (fun i => i <> root dfa) l) s'.
Proof.
  revert s order. induction l as [|i l IH]; intros s order Hnd Hl Hlay; simpl.
  - exists s. by rewrite app_nil_r.
  - apply NoDup_cons in Hnd as [Hi Hnd]. rewrite filter_cons.
    destruct (i =? root dfa) eqn:E; breflect.
    + rewrite decide_False by (by intros []). simpl. apply IH; [done| |done].
      intros j Hj. apply Hl. by right.
    + rewrite decide_True by done. destruct (Hl i) as [Hlt Hfresh]; [by left|].
      destruct (compileNode_layout pre order i s) as (s1 & Hs1 & Hlay1); [done|by apply Hfresh|done|].
      apply N.eqb_neq in E. rewrite E in Hs1. rewrite Hs1. simpl.
      destruct (IH s1 (order ++ [i])) as (s2 & Hs2 & Hlay2); [done| |done|].
      * intros j Hj. destruct (Hl j) as [? Hf]; [by right|]. split; [done|]. intros Hr.
        apply not_elem_of_app. split; [by apply Hf|].
        intros ->%list_elem_of_singleton. done.
      * exists s2. split; [done|]. by rewrite <- app_assoc in Hlay2.
Qed.

(** ** Linking *)

Definition resolve (offsets : list N) (d : N) : N := default 0 (offsets !!N d).

Lemma link_code offsets pre code post :
  N.of_nat (length (pre ++ encode_all unlinked code)) < 2 ^ 32 ->
  (forall i d, i ∈ code -> destination_of i = Some d ->
     exists t, offsets !!N d = Some t /\ t <> max32) ->
  foldM (link_one offsets) (pre ++ encode_all unlinked code ++ post) (links (N.of_nat (length pre)) code)
  = Some (pre ++ encode_all (resolve offsets) code ++ post).
Proof.
  revert pre. induction code as [|i code IH]; intros pre Hlen Hd; simpl links; [done|].
  rewrite encode_all_cons in Hlen |- *.
  assert (forall f, N.of_nat (length (encode f i)) = instructionSizeWithArguments (instruction_of i)) as Hi
    by (intros; apply length_encode).
  rewrite !length_app in Hlen.
  assert (forall bytes, length bytes = length (encode unlinked i) ->
    foldM (link_one offsets) (pre ++ bytes ++ encode_all unlinked code ++ post)
      (links (N.of_nat (length pre) + instructionSizeWithArguments (instruction_of i)) code)
    = Some (pre ++ bytes ++ encode_all (resolve offsets) code ++ post)) as Hrest.
  { intros bytes Hb. specialize (IH (pre ++ bytes)). rewrite <- !app_assoc in IH.
    rewrite <- (Hi unlinked), <- Hb, <- Nat2N.inj_add, <- length_app. apply IH.
    - rewrite !length_app, Hb. lia.
    - intros. eapply Hd; [by right|done]. }
  rewrite encode_all_cons, <- !app_assoc.
  destruct (destination_of i) as [d|] eqn:Edest.
  - destruct (Hd i d) as (t & Ht & Hne); [by left|done|].
    rewrite foldM_app. cbn [foldM].
    set (op := opcode (instruction_of i) :: operands i).
    assert (forall f, encode f i = op ++ le_bytes 4 (f d)) as Henc.
    { intros f. unfold encode. by rewrite Edest. }
    assert (N.of_nat (length op) + 4 = instructionSizeWithArguments (instruction_of i)) as Hop.
    { rewrite <- (Hi unlinked), Henc, length_app, length_le_bytes. lia. }
    assert (link_one offsets (pre ++ encode unlinked i ++ encode_all unlinked code ++ post)
      (wrap32 (N.of_nat (length pre) + instructionSizeWithArguments (instruction_of i) - 4), d)
      = Some (pre ++ encode (resolve offsets) i ++ encode_all unlinked code ++ post)) as ->.
    { unfold link_one. cbn [fst snd]. rewrite Ht. run_option.
      apply N.eqb_neq in Hne. rewrite Hne. cbn [negb]. run_option.
      unfold set32Bits. rewrite !Henc, <- !app_assoc, (app_assoc pre op).
      rewrite (write_bytes_app _ _ (le_bytes 4 t)); [|..|done].
      - unfold resolve. rewrite Ht. cbn [default]. by rewrite <- app_assoc.
      - rewrite wrap32_id.
        + rewrite length_app. lia.
        + change 4294967296 with (2 ^ 32). pose proof (Hi unlinked). lia. }
    run_option. apply Hrest. apply Nat2N.inj. by rewrite !Hi.
  - rewrite app_nil_l, Hrest by done. do 3 f_equal. unfold encode. by rewrite Edest.
Qed.

(** ** The whole program *)

Lemma transitions_code_live node i d :
  node_ok dfa node -> i ∈ transitions_code dfa node -> destination_of i = Some d -> live dfa d.
Proof.
  intros Hnode Hi Hd. unfold transitions_code in Hi. apply elem_of_app in Hi as [Hi|Hi].
  - apply list_elem_of_fmap in Hi as (r & -> & Hr).
    destruct (node_table_spec node Hnode) as (ts & Hts & _ & Hlen & Hspec).
    destruct (compute_ranges_spec _ Hlen) as [Hranges _].
    rewrite Forall_forall in Hranges. destruct (Hranges r Hr) as [[_ Hno] (c & Hc & Hdest)].
    assert (d = range_destination r) as ->
      by (revert Hd; unfold range_instr; destruct (_ =? _); by intros [= <-]).
    specialize (Hspec c Hc). rewrite table_entry_dest, Hdest in Hspec by congruence.
    symmetry in Hspec. apply find_transition_Some in Hspec.
    destruct (ok_transitions dfa node Hnode) as (ts' & Hts' & _ & Hall). simplify_eq.
    rewrite Forall_forall in Hall. by apply Hall in Hspec as [_ ?].
  - apply list_elem_of_singleton in Hi as ->. unfold last_instr in Hd.
    destruct (fallbackTransitionDestination node dfa) as [t|] eqn:E; simplify_eq/=.
    destruct (hasFallbackTransition node) eqn:F.
    + destruct (ok_fallback dfa node Hnode F) as (? & ? & ?). by simplify_eq.
    + unfold fallbackTransitionDestination in E. by rewrite F in E.
Qed.

Lemma node_code_live index i d :
  i ∈ node_code dfa index -> destination_of i = Some d -> live dfa d.
Proof.
  unfold node_code. destruct (nodes dfa !!N index) as [node|] eqn:Hn.
  - destruct (isKilled node) eqn:Hk; intros Hi Hd; [by apply not_elem_of_nil in Hi|].
    apply elem_of_app in Hi as [Hi|Hi].
    + unfold actions_code in Hi. apply list_elem_of_fmap in Hi as (a & -> & _).
      revert Hd. unfold action_instr. by destruct (negb _).
    + by eapply transitions_code_live; [eapply ok_nodes|..].
  - intros Hi. by apply not_elem_of_nil in Hi.
Qed.

Lemma elem_of_node_order index : live dfa index -> index ∈ node_order dfa.
Proof.
  intros Hl%live_lt. unfold node_order. destruct (decide (index = root dfa)) as [->|Hne].
  - by left.
  - right. apply list_elem_of_filter. split; [done|]. apply elem_of_for_range. lia.
Qed.

(** [compile] returns: a header with the size, and the program with the
    destinations replaced by the offsets at which the code of the nodes is. *)
Lemma compile_layout pre :
  N.of_nat (length pre) + compiled_size dfa < max32 ->
  exists offsets,
    compile dfa pre = Some (pre ++ le_bytes 4 (compiled_size dfa)
                                ++ encode_all (resolve offsets) (program dfa)) /\
    forall index, live dfa index -> exists c1 c2,
      program dfa = c1 ++ entry_code index ++ c2 /\
      resolve offsets index = N.of_nat (length pre) + 4 + code_size c1.
Proof.
  intros Hsize. unfold compiled_size, max32 in Hsize.
  set (s0 := bytecode_append 4 0 (mkCompiler pre (replicate (length (nodes dfa)) 0) [])).
  set (pre4 := pre ++ le_bytes 4 0).
  assert (layout pre4 [] s0) as H0.
  { split; simpl; [by rewrite app_nil_r|done|by rewrite length_replicate|].
    intros i Hi. by apply not_elem_of_nil in Hi. }
  destruct (compileNode_layout pre4 [] (root dfa) s0) as (s1 & Hs1 & H1);
    [apply root_lt|apply not_elem_of_nil|done|].
  rewrite N.eqb_refl in Hs1.
  destruct (compile_nodes_layout pre4 s1 (for_range 0 n) [root dfa]) as (s2 & Hs2 & H2);
    [apply NoDup_for_range| |done|].
  { intros i Hi%elem_of_for_range. split; [lia|]. intros ?. by rewrite list_elem_of_singleton. }
  change ([root dfa] ++ _) with (node_order dfa) in H2. destruct H2 as [Hb Hl Hlen Ho].
  fold (program dfa) in Hb, Hl, Ho.
  assert (N.of_nat (length pre4) = N.of_nat (length pre) + 4) as Hpre4.
  { unfold pre4. rewrite length_app, length_le_bytes. lia. }
  assert (forall index, live dfa index -> exists c1 c2,
      program dfa = c1 ++ entry_code index ++ c2 /\
      m_nodeStartOffsets s2 !!N index = Some (N.of_nat (length pre) + 4 + code_size c1) /\
      N.of_nat (length pre) + 4 + code_size c1 < max32) as Hoffs.
  { intros index Hlive. destruct (Ho index) as (c1 & c2 & Hc & Hi); [by apply elem_of_node_order|done|].
    assert (code_size c1 <= code_size (program dfa)) by (rewrite Hc, code_size_app; lia).
    exists c1, c2. unfold max32. rewrite <- Hpre4 in *. split_and!; [done| |lia].
    rewrite Hi, wrap32_id by lia. done. }
  exists (m_nodeStartOffsets s2). split.
  - unfold compile. fold s0. rewrite Hs1. run_option. rewrite Hs2. run_option.
    rewrite Hb, Hl. pose proof (link_code (m_nodeStartOffsets s2) pre4 (program dfa) []) as Hlink.
    rewrite !app_nil_r in Hlink. rewrite Hlink.
    + run_option. unfold set32Bits.
      assert (wrap32 (N.of_nat (length (pre4 ++ encode_all (resolve (m_nodeStartOffsets s2)) (program dfa)))
        - bytecode_size (mkCompiler pre (replicate (length (nodes dfa)) 0) [])) = compiled_size dfa) as ->.
      { unfold bytecode_size, compiled_size. cbn [m_bytecode].
        rewrite (wrap32_id (N.of_nat (length pre))) by lia.
        rewrite length_app, Nat2N.inj_add, length_encode_all, Hpre4. rewrite wrap32_id; lia. }
      unfold pre4. rewrite <- app_assoc.
      apply write_bytes_app; [|by rewrite !length_le_bytes].
      unfold bytecode_size. cbn [m_bytecode]. apply wrap32_id. lia.
    + rewrite length_app, Nat2N.inj_add, length_encode_all, Hpre4. lia.
    + intros i d Hi Hd. unfold program in Hi. apply list_elem_of_bind in Hi as (index & Hi & _).
      destruct (Hoffs d) as (c1 & _ & _ & Ht & ?); [by eapply node_code_live|].
      exists (N.of_nat (length pre) + 4 + code_size c1). split; [done|lia].
  - intros index Hlive. destruct (Hoffs index Hlive) as (c1 & c2 & Hc & Hi & _).
    exists c1, c2. split; [done|]. unfold resolve. by rewrite Hi.
Qed.
End Layout.
