(* ===== verification/DFABytecodeInterpreter.v ===== *)
(** * [WebCore/contentextensions/DFABytecodeInterpreter.cpp] and [.h]

    The interpreter runs the code of every DFA of the buffer over the same URL
    and collects the actions it goes through.  [None] is an access outside of a
    buffer, an invalid instruction ([RELEASE_ASSERT_NOT_REACHED]), or fuel that
    has run out; [interpret_compiled] in [Bytecode.v] shows that none of the
    three happens on compiled bytecode when there is enough fuel. *)

From S2P Require Import Prelude HashTable ASCII DFABytecode.

(** ** State *)

(** WebCore/contentextensions/DFABytecodeInterpreter.h:42-71 [DFABytecodeInterpreter] *)
Record Interpreter := mkInterpreter {
  i_bytecode : list N;
  i_bytecodeLength : N
}.

(** The local variables of [interpret] in the code of one DFA. *)
Record Run := mkRun {
  programCounter : N;
  urlIndex : N;
  urlIndexIsAfterEndOfString : bool;
  run_actions : list N
}.

Inductive outcome :=
| Next (run : Run)
| NextDFA (actions : list N).

(** ** Operations *)

(** WebCore/contentextensions/DFABytecodeInterpreter.cpp:38-51 [getBits] *)
Definition getBits (size : nat) (bytecode : list N) (index : N) : option N :=
  le_value <$> read_bytes size bytecode (wrap32 index).

(** WebCore/contentextensions/DFABytecodeInterpreter.cpp:53-58 [DFABytecodeInterpreter::interpretAppendAction] *)
Definition interpretAppendAction (bytecode : list N) (pc : N) (acts : list N) : option (N * list N) :=
  action ← getBits 4 bytecode (pc + sizeof_DFABytecode);
  Some (wrap32 (pc + instructionSizeWithArguments AppendAction), hset_add action acts).

(** WebCore/contentextensions/DFABytecodeInterpreter.cpp:60-66 [DFABytecodeInterpreter::interpretTestFlagsAndAppendAction] *)
Definition interpretTestFlagsAndAppendAction (bytecode : list N) (pc flags : N) (acts : list N)
    : option (N * list N) :=
  tested ← getBits 2 bytecode (pc + sizeof_DFABytecode);
  acts ← (if negb (N.land flags tested =? 0)
          then action ← getBits 4 bytecode (pc + sizeof_DFABytecode + sizeof_uint16);
               Some (hset_add action acts)
          else Some acts);
  Some (wrap32 (pc + instructionSizeWithArguments TestFlagsAndAppendAction), acts).

(** WebCore/contentextensions/DFABytecodeInterpreter.cpp:76-84 [DFABytecodeInterpreter::actionsFromDFARoot], the loop *)
Fixpoint root_actions_loop (fuel : nat) (bytecode : list N) (dfaBytecodeLength pc : N) (acts : list N)
    : option (list N) :=
  match fuel with
  | O => None
  | S fuel' =>
    if pc <? dfaBytecodeLength then
      instruction ← bytecode !!N pc;
      if instruction =? opcode AppendAction then
        r ← interpretAppendAction bytecode pc acts;
        root_actions_loop fuel' bytecode dfaBytecodeLength r.1 r.2
      else if instruction =? opcode TestFlagsAndAppendAction then
        root_actions_loop fuel' bytecode dfaBytecodeLength
          (wrap32 (pc + instructionSizeWithArguments TestFlagsAndAppendAction)) acts
      else Some acts
    else Some acts
  end.

(** WebCore/contentextensions/DFABytecodeInterpreter.cpp:68-86 [DFABytecodeInterpreter::actionsFromDFARoot] *)
Definition actionsFromDFARoot (fuel : nat) (interpreter : Interpreter) : option (list N) :=
  dfaBytecodeLength ← getBits 4 (i_bytecode interpreter) 0;
  root_actions_loop fuel (i_bytecode interpreter) dfaBytecodeLength sizeof_unsigned [].

(** WebCore/contentextensions/DFABytecodeInterpreter.cpp:104-113 [DFABytecodeInterpreter::interpret],
    the loop that skips the actions of the first DFA's root *)
Fixpoint skip_root_loop (fuel : nat) (bytecode : list N) (dfaBytecodeLength flags pc : N) (acts : list N)
    : option (N * list N) :=
  match fuel with
  | O => None
  | S fuel' =>
    if pc <? dfaBytecodeLength then
      instruction ← bytecode !!N pc;
      if instruction =? opcode AppendAction then
        skip_root_loop fuel' bytecode dfaBytecodeLength flags
          (wrap32 (pc + instructionSizeWithArguments AppendAction)) acts
      else if instruction =? opcode TestFlagsAndAppendAction then
        r ← interpretTestFlagsAndAppendAction bytecode pc flags acts;
        skip_root_loop fuel' bytecode dfaBytecodeLength flags r.1 r.2
      else Some (pc, acts)
    else Some (pc, acts)
  end.

(** [url[index]]: the data of a [CString] ends with a null character. *)
Definition url_char (url : list N) (index : N) : option N := (url ++ [0]) !!N index.

(** The edge of the DFA that a matching check follows. *)
Definition follow (target character : N) (r : Run) : Run :=
  mkRun target (wrap32 (urlIndex r + 1))
    (if character =? 0 then true else urlIndexIsAfterEndOfString r) (run_actions r).

Definition skip (instruction : DFABytecodeInstruction) (r : Run) : Run :=
  mkRun (wrap32 (programCounter r + instructionSizeWithArguments instruction)) (urlIndex r)
    (urlIndexIsAfterEndOfString r) (run_actions r).

(** WebCore/contentextensions/DFABytecodeInterpreter.cpp:133-163 [DFABytecodeInterpreter::interpret],
    [CheckValueCaseSensitive] and [CheckValueCaseInsensitive] *)
Definition step_check_value (bytecode url : list N) (caseSensitive : bool) (r : Run) : option outcome :=
  if urlIndexIsAfterEndOfString r then Some (NextDFA (run_actions r))
  else
    c ← url_char url (urlIndex r);
    let character := if caseSensitive then c else toASCIILower_char c in
    value ← getBits 1 bytecode (programCounter r + sizeof_DFABytecode);
    if (char_value character =? Z.of_N value)%Z then
      target ← getBits 4 bytecode (programCounter r + sizeof_DFABytecode + sizeof_uint8);
      Some (Next (follow target character r))
    else Some (Next (skip (if caseSensitive then CheckValueCaseSensitive
                           else CheckValueCaseInsensitive) r)).

(** WebCore/contentextensions/DFABytecodeInterpreter.cpp:165-195 [DFABytecodeInterpreter::interpret],
    [CheckValueRangeCaseSensitive] and [CheckValueRangeCaseInsensitive] *)
Definition step_check_range (bytecode url : list N) (caseSensitive : bool) (r : Run) : option outcome :=
  if urlIndexIsAfterEndOfString r then Some (NextDFA (run_actions r))
  else
    c ← url_char url (urlIndex r);
    let character := if caseSensitive then c else toASCIILower_char c in
    low ← getBits 1 bytecode (programCounter r + sizeof_DFABytecode);
    inside ← (if (Z.of_N low <=? char_value character)%Z
              then high ← getBits 1 bytecode (programCounter r + sizeof_DFABytecode + sizeof_uint8);
                   Some (char_value character <=? Z.of_N high)%Z
              else Some false);
    if (inside : bool) then
      target ← getBits 4 bytecode (programCounter r + sizeof_DFABytecode + sizeof_uint8 + sizeof_uint8);
      Some (Next (follow target character r))
    else Some (Next (skip (if caseSensitive then CheckValueRangeCaseSensitive
                           else CheckValueRangeCaseInsensitive) r)).

(** WebCore/contentextensions/DFABytecodeInterpreter.cpp:197-203 [DFABytecodeInterpreter::interpret], [Jump] *)
Definition step_jump (bytecode url : list N) (r : Run) : option outcome :=
  c ← url_char url (urlIndex r);
  if (c =? 0) || urlIndexIsAfterEndOfString r then Some (NextDFA (run_actions r))
  else
    target ← getBits 4 bytecode (programCounter r + sizeof_DFABytecode);
    Some (Next (mkRun target (wrap32 (urlIndex r + 1)) (urlIndexIsAfterEndOfString r) (run_actions r))).

Definition with_pc_actions (r : Run) (s : N * list N) : Run :=
  mkRun s.1 (urlIndex r) (urlIndexIsAfterEndOfString r) s.2.

(** WebCore/contentextensions/DFABytecodeInterpreter.cpp:128-215 [DFABytecodeInterpreter::interpret],
    one turn of the loop over the instructions *)
Definition step (bytecode url : list N) (flags : N) (r : Run) : option outcome :=
  byte ← bytecode !!N programCounter r;
  instruction ← decode_opcode byte;
  match instruction with
  | Terminate => Some (NextDFA (run_actions r))
  | CheckValueCaseSensitive => step_check_value bytecode url true r
  | CheckValueCaseInsensitive => step_check_value bytecode url false r
  | CheckValueRangeCaseSensitive => step_check_range bytecode url true r
  | CheckValueRangeCaseInsensitive => step_check_range bytecode url false r
  | Jump => step_jump bytecode url r
  | AppendAction =>
      s ← interpretAppendAction bytecode (programCounter r) (run_actions r);
      Some (Next (with_pc_actions r s))
  | TestFlagsAndAppendAction =>
      s ← interpretTestFlagsAndAppendAction bytecode (programCounter r) flags (run_actions r);
      Some (Next (with_pc_actions r s))
  end.

(** WebCore/contentextensions/DFABytecodeInterpreter.cpp:122-219 [DFABytecodeInterpreter::interpret],
    the loop over the instructions of one DFA *)
Fixpoint run_dfa (fuel : nat) (bytecode url : list N) (flags : N) (r : Run) : option (list N) :=
  match fuel with
  | O => None
  | S fuel' =>
    o ← step bytecode url flags r;
    match o with
    | Next r' => run_dfa fuel' bytecode url flags r'
    | NextDFA acts => Some acts
    end
  end.

(** WebCore/contentextensions/DFABytecodeInterpreter.cpp:96-223 [DFABytecodeInterpreter::interpret],
    the loop over the DFAs *)
Fixpoint interpret_from (fuel : nat) (interpreter : Interpreter) (url : list N) (flags pc : N)
    (acts : list N) : option (list N) :=
  match fuel with
  | O => None
  | S fuel' =>
    let bytecode := i_bytecode interpreter in
    if pc <? i_bytecodeLength interpreter then
      let dfaStart := pc in
      dfaBytecodeLength ← getBits 4 bytecode pc;
      let pc := wrap32 (pc + sizeof_unsigned) in
      s ← (if dfaStart =? 0
           then skip_root_loop fuel' bytecode dfaBytecodeLength flags pc acts
           else Some (pc, acts));
      if (dfaStart =? 0) && (i_bytecodeLength interpreter <=? s.1) then Some s.2
      else
        acts ← run_dfa fuel' bytecode url flags (mkRun s.1 0 false s.2);
        interpret_from fuel' interpreter url flags (wrap32 (dfaStart + dfaBytecodeLength)) acts
    else Some acts
  end.

(** WebCore/contentextensions/DFABytecodeInterpreter.cpp:88-225 [DFABytecodeInterpreter::interpret] *)
Definition interpret (fuel : nat) (interpreter : Interpreter) (url : list N) (flags : N)
    : option (list N) :=
  interpret_from fuel interpreter url flags 0 [].
