(* ===== verification/BytecodeCorrect.v ===== *)
(** * The interpreter runs compiled bytecode as the automaton it comes from

    The first part is a symbolic execution of the instructions from their
    assembly view; the second shows, by induction on the rest of the URL, that
    running the code of a node follows the transitions of the automaton; the
    last puts the DFAs of a buffer together. *)

From S2P Require Import Prelude HashTable ASCII DFA DFABytecode DFABytecodeCompiler CompilerLayout DFABytecodeInterpreter.

(** ** The specification *)

(** Whether the flags of a load let an action trigger: an action without flags
    always does. *)
Definition flags_match (flags action : N) : bool :=
  (N.land action 281470681743360 =? 0) || negb (N.land flags (action_flags action) =? 0).

(** The locations of the actions that trigger. *)
Definition triggered (flags : N) (acts : list N) : list N :=
  wrap32 <$> filter (fun a => flags_match flags a = true) acts.

(** What running one DFA adds: the actions of the nodes it visits.  The actions
    of the root are not added when the root is visited again. *)
Definition dfa_triggered (dfa : DFA) (flags : N) (url : list N) : list N :=
  dfa_run dfa (root dfa) (url ++ [0]) ≫= fun t =>
    if t =? root dfa then [] else triggered flags (actions_at dfa t).

(** The actions of the root that the run of a DFA adds: all the ones that
    trigger, except that the unconditional ones of the first DFA are left to
    [actionsFromDFARoot]. *)
Definition root_triggered (first : bool) (dfa : DFA) (flags : N) : list N :=
  triggered flags
    (if first then filter (fun a => negb (N.land a 281470681743360 =? 0) = true) (actions_at dfa (root dfa))
     else actions_at dfa (root dfa)).

(** A node that is reached by the end of the URL has no fallback transition: the
    interpreter would look at the character after the terminator. *)
Definition nul_ok (dfa : DFA) : Prop :=
  forall index target node, live dfa index -> dfa_step dfa index 0 = Some target ->
    nodes dfa !!N target = Some node -> hasFallbackTransition node = false.

(** ** Reading the bytecode *)

Section Execution.
Context (B : list N) (HB : N.of_nat (length B) < 2 ^ 32).
Context (flags : N) (R : N -> N).

Lemma at_index_wrap pc b bytes : at_index B pc (b :: bytes) -> wrap32 pc = pc.
Proof. intros ?%at_index_lt. apply wrap32_id. lia. Qed.

Lemma getBits_at size pc bytes :
  at_index B pc bytes -> size = length bytes -> (0 < size)%nat -> getBits size B pc = Some (le_value bytes).
Proof.
  intros Hat -> Hpos. unfold getBits. destruct bytes as [|b bytes]; [simpl in Hpos; lia|].
  rewrite (at_index_wrap pc b bytes) by done. by rewrite (at_index_read B pc (b :: bytes)).
Qed.

Lemma getBits_byte pc b bytes : at_index B pc (b :: bytes) -> getBits 1 B pc = Some b.
Proof.
  intros Hat. change (b :: bytes) with ([b] ++ bytes) in Hat. apply at_index_app in Hat as [Hat _].
  rewrite (getBits_at 1 pc [b]) by (done || simpl; lia). simpl. f_equal. lia.
Qed.

(** The instruction at [pc]. *)
Definition instr_at (pc : N) (i : instr) : Prop := at_index B pc (encode R i).

Lemma instr_at_opcode pc i :
  instr_at pc i -> B !!N pc = Some (opcode (instruction_of i)).
Proof. unfold instr_at, encode. apply at_index_lookup. Qed.

Lemma instr_at_size pc i :
  instr_at pc i -> pc + instructionSizeWithArguments (instruction_of i) <= N.of_nat (length B).
Proof.
  intros (pre & post & -> & ->). rewrite !length_app, !Nat2N.inj_add.
  rewrite length_encode. lia.
Qed.

(** The instructions of [code] at [pc]. *)
Definition code_at (pc : N) (code : list instr) : Prop := at_index B pc (encode_all R code).

Lemma code_at_cons pc i code :
  code_at pc (i :: code) <->
  instr_at pc i /\ code_at (pc + instructionSizeWithArguments (instruction_of i)) code.
Proof.
  unfold code_at, instr_at. rewrite encode_all_cons, at_index_app.
  by rewrite length_encode.
Qed.

Lemma code_at_app pc c1 c2 : code_at pc (c1 ++ c2) <-> code_at pc c1 /\ code_at (pc + code_size c1) c2.
Proof. unfold code_at. rewrite encode_all_app, at_index_app. by rewrite length_encode_all. Qed.

(** The operands and the destination of the instruction at [pc]. *)
Lemma instr_at_operands pc i :
  instr_at pc i -> at_index B (pc + 1) (operands i) /\
  (forall d, destination_of i = Some d ->
     at_index B (pc + instructionSizeWithArguments (instruction_of i) - 4) (le_bytes 4 (R d))).
Proof.
  unfold instr_at, encode. intros Hat.
  change (opcode (instruction_of i) :: operands i ++ ?x)
    with ([opcode (instruction_of i)] ++ operands i ++ x) in Hat.
  apply at_index_app in Hat as [_ Hat]. apply at_index_app in Hat as [Hop Hat].
  split; [done|]. intros d Hd. rewrite Hd in Hat.
  replace (pc + instructionSizeWithArguments (instruction_of i) - 4)
    with (pc + N.of_nat (length [opcode (instruction_of i)]) + N.of_nat (length (operands i))); [done|].
  pose proof (length_encode R i) as Hl. unfold encode in Hl. rewrite Hd in Hl.
  cbn [length] in *. rewrite length_app, length_le_bytes in Hl. lia.
Qed.

Lemma getBits_destination pc i d :
  instr_at pc i -> destination_of i = Some d -> R d < 2 ^ 32 ->
  getBits 4 B (pc + instructionSizeWithArguments (instruction_of i) - 4) = Some (R d).
Proof.
  intros Hi Hd Hlt. destruct (instr_at_operands pc i Hi) as [_ Hat].
  rewrite (getBits_at 4 _ (le_bytes 4 (R d))); [|by apply Hat|by rewrite length_le_bytes|lia].
  by rewrite le_value32.
Qed.

Lemma instr_next pc i : instr_at pc i ->
  wrap32 (pc + instructionSizeWithArguments (instruction_of i))
  = pc + instructionSizeWithArguments (instruction_of i).
Proof. intros Hi. apply wrap32_id. pose proof (instr_at_size pc i Hi). lia. Qed.

Lemma interpretAppendAction_at pc a acts :
  instr_at pc (IAppendAction (wrap32 a)) ->
  interpretAppendAction B pc acts = Some (pc + 5, hset_add (wrap32 a) acts).
Proof.
  intros Hi. unfold interpretAppendAction, sizeof_DFABytecode.
  destruct (instr_at_operands _ _ Hi) as [Hop _].
  rewrite (getBits_at 4 _ (le_bytes 4 (wrap32 a))); [|done|by rewrite length_le_bytes|lia].
  run_option. rewrite le_value32 by apply wrap32_lt.
  do 2 f_equal. by apply (instr_next pc (IAppendAction (wrap32 a))).
Qed.

Lemma interpretTestFlags_at pc f a acts :
  instr_at pc (ITestFlagsAndAppendAction f (wrap32 a)) -> f < 2 ^ 16 ->
  interpretTestFlagsAndAppendAction B pc flags acts =
  Some (pc + 7, if negb (N.land flags f =? 0) then hset_add (wrap32 a) acts else acts).
Proof.
  intros Hi Hf. unfold interpretTestFlagsAndAppendAction, sizeof_DFABytecode, sizeof_uint16.
  destruct (instr_at_operands _ _ Hi) as [Hop _]. apply at_index_app in Hop as [Hf16 Ha].
  rewrite (getBits_at 2 _ (le_bytes 2 f)); [|done|by rewrite length_le_bytes|lia].
  run_option. rewrite le_value16 by done.
  assert (wrap32 (pc + instructionSizeWithArguments TestFlagsAndAppendAction) = pc + 7) as ->
    by (by apply (instr_next pc (ITestFlagsAndAppendAction f (wrap32 a)))).
  destruct (negb _); run_option; [|done].
  rewrite length_le_bytes in Ha.
  rewrite (getBits_at 4 _ (le_bytes 4 (wrap32 a))); [|done|by rewrite length_le_bytes|lia].
  run_option. by rewrite le_value32 by apply wrap32_lt.
Qed.

Lemma action_flags_lt a : action_flags a < 2 ^ 16.
Proof. apply wrap16_lt. Qed.

Context (url : list N) (Hascii : Forall (fun c => c <> 0 /\ c < 128) url)
  (Hurl : N.of_nat (length url) + 2 < 2 ^ 32).

(** ** Steps *)

(** [r] comes to [r'] whatever the fuel that is left. *)
Definition reaches (r r' : Run) : Prop :=
  exists k, forall fuel, run_dfa (k + fuel) B url flags r = run_dfa fuel B url flags r'.

Definition ends_with (r : Run) (acts : list N) : Prop :=
  exists k, forall fuel, run_dfa (k + fuel) B url flags r = Some acts.

Lemma reaches_refl r : reaches r r.
Proof. by exists 0%nat. Qed.

Lemma reaches_trans r1 r2 r3 : reaches r1 r2 -> reaches r2 r3 -> reaches r1 r3.
Proof.
  intros [k1 H1] [k2 H2]. exists (k1 + k2)%nat. intros fuel.
  by rewrite <- Nat.add_assoc, H1, H2.
Qed.

Lemma reaches_ends r1 r2 acts : reaches r1 r2 -> ends_with r2 acts -> ends_with r1 acts.
Proof.
  intros [k1 H1] [k2 H2]. exists (k1 + k2)%nat. intros fuel.
  by rewrite <- Nat.add_assoc, H1, H2.
Qed.

Lemma step_reaches r r' : step B url flags r = Some (Next r') -> reaches r r'.
Proof. intros Hs. exists 1%nat. intros fuel. simpl. by rewrite Hs. Qed.

Lemma step_ends r acts : step B url flags r = Some (NextDFA acts) -> ends_with r acts.
Proof. intros Hs. exists 1%nat. intros fuel. simpl. by rewrite Hs. Qed.

Lemma step_fetch pc i idx e acts :
  instr_at pc i ->
  step B url flags (mkRun pc idx e acts) =
  match instruction_of i with
  | Terminate => Some (NextDFA acts)
  | CheckValueCaseSensitive => step_check_value B url true (mkRun pc idx e acts)
  | CheckValueCaseInsensitive => step_check_value B url false (mkRun pc idx e acts)
  | CheckValueRangeCaseSensitive => step_check_range B url true (mkRun pc idx e acts)
  | CheckValueRangeCaseInsensitive => step_check_range B url false (mkRun pc idx e acts)
  | Jump => step_jump B url (mkRun pc idx e acts)
  | AppendAction =>
      s ← interpretAppendAction B pc acts; Some (Next (with_pc_actions (mkRun pc idx e acts) s))
  | TestFlagsAndAppendAction =>
      s ← interpretTestFlagsAndAppendAction B pc flags acts;
      Some (Next (with_pc_actions (mkRun pc idx e acts) s))
  end.
Proof.
  intros Hi. unfold step. cbn [programCounter run_actions].
  rewrite (instr_at_opcode pc i Hi). run_option. rewrite decode_opcode_opcode. run_option. done.
Qed.

(** *** Actions *)

(** The set after the code of one action. *)
Definition add_triggered (acts : list N) (a : N) : list N :=
  if flags_match flags a then hset_add (wrap32 a) acts else acts.

Lemma run_action pc a idx e acts :
  instr_at pc (action_instr a) ->
  reaches (mkRun pc idx e acts)
    (mkRun (pc + instructionSizeWithArguments (instruction_of (action_instr a))) idx e (add_triggered acts a)).
Proof.
  intros Hi. apply step_reaches. rewrite (step_fetch _ _ _ _ _ Hi).
  unfold action_instr, add_triggered, flags_match in *. destruct (N.land a _ =? 0); simpl negb in *.
  - cbn [instruction_of]. rewrite (interpretAppendAction_at pc a) by done. run_option. done.
  - cbn [instruction_of]. rewrite (interpretTestFlags_at pc (action_flags a) a) by (done || apply action_flags_lt). run_option.
    done.
Qed.

Lemma run_actions_code pc l idx e acts :
  code_at pc (action_instr <$> l) ->
  reaches (mkRun pc idx e acts) (mkRun (pc + code_size (action_instr <$> l)) idx e (foldl add_triggered acts l)).
Proof.
  revert pc acts. induction l as [|a l IH]; intros pc acts Hc.
  - simpl. rewrite N.add_0_r. apply reaches_refl.
  - rewrite fmap_cons in Hc |- *. apply code_at_cons in Hc as [Hi Hc]. simpl foldl.
    eapply reaches_trans; [by apply run_action|].
    cbn [code_size foldr]. rewrite N.add_assoc. by apply IH.
Qed.

Lemma elem_of_add_triggered x acts l :
  x ∈ foldl add_triggered acts l <-> x ∈ acts \/ x ∈ triggered flags l.
Proof.
  revert acts. induction l as [|a l IH]; intros acts; simpl.
  - unfold triggered. simpl. rewrite elem_of_nil. tauto.
  - rewrite IH. unfold triggered, add_triggered. rewrite filter_cons.
    destruct (flags_match flags a); simpl.
    + rewrite elem_of_hset_add, elem_of_cons. tauto.
    + done.
Qed.

(** *** Checks *)

(** The character under the URL index. *)
Lemma url_char_ascii idx c : url_char url idx = Some c -> c < 128 /\ idx <= N.of_nat (length url).
Proof.
  unfold url_char. intros Hc. split.
  - assert (Forall (fun c => c < 128) (url ++ [0])) as Hall.
    { apply Forall_app. split; [|by repeat constructor].
      eapply Forall_impl; [exact Hascii|]. by intros ? []. }
    by eapply Forall_lookup_1 in Hall.
  - apply lookupN_lt in Hc. rewrite length_app in Hc. simpl in Hc. lia.
Qed.

Lemma char_value_ascii c : c < 128 -> char_value c = Z.of_N c.
Proof. intros Hc. unfold char_value. apply N.ltb_lt in Hc. by rewrite Hc. Qed.

(** What a check compares. *)
Definition checked (caseSensitive : bool) (c : N) : N :=
  if caseSensitive then c else toASCIILower c.

Lemma checked_char (cs : bool) c : c < 128 ->
  (if cs then c else toASCIILower_char c) = checked cs c /\ checked cs c < 128 /\
  ((checked cs c =? 0) = (c =? 0)).
Proof.
  intros Hc. destruct cs; simpl; [done|]. rewrite toASCIILower_char_spec by lia.
  split_and!; [done|by apply toASCIILower_ascii|].
  destruct (decide (65 <= c <= 90)).
  - rewrite toASCIILower_upper by done. destruct (c + 32 =? 0) eqn:E1, (c =? 0) eqn:E2; breflect; lia.
  - by rewrite toASCIILower_other.
Qed.

Lemma range_matches_value cs v d c :
  range_matches (mkRange v v d cs) c = (checked cs c =? v).
Proof.
  unfold range_matches, checked. simpl.
  destruct cs; (destruct (_ =? v) eqn:E; breflect; [subst; by rewrite !N.leb_refl|]);
    destruct (v <=? _) eqn:E1; breflect; simpl; [|done| |done]; apply N.leb_gt; lia.
Qed.

(** The state after a check that matches. *)
Definition followed (idx c d : N) (acts : list N) : Run := mkRun (R d) (idx + 1) (c =? 0) acts.

Lemma follow_eq pc idx c cs d acts :
  url_char url idx = Some c ->
  follow (R d) (checked cs c) (mkRun pc idx false acts) = followed idx c d acts.
Proof.
  intros Hc. destruct (url_char_ascii idx c Hc) as [Hlt Hidx].
  destruct (checked_char cs c Hlt) as (_ & _ & Hz). unfold follow, followed. cbn [urlIndex
    urlIndexIsAfterEndOfString run_actions]. rewrite Hz, wrap32_id by lia. by destruct (c =? 0).
Qed.

Lemma run_check pc r idx c acts :
  range_ok r -> R (range_destination r) < 2 ^ 32 ->
  instr_at pc (range_instr r) -> url_char url idx = Some c ->
  step B url flags (mkRun pc idx false acts) = Some (Next (
    if range_matches r c then followed idx c (range_destination r) acts
    else mkRun (pc + instructionSizeWithArguments (instruction_of (range_instr r))) idx false acts)).
Proof.
  intros [Hr _] HR Hi Hc. destruct r as [lo hi d cs]. simpl in *.
  destruct (url_char_ascii idx c Hc) as [Hlt _].
  destruct (checked_char cs c Hlt) as (Hch & Hch128 & _).
  pose proof (getBits_destination pc _ d Hi) as Hdest.
  destruct (instr_at_operands _ _ Hi) as [Hop _].
  rewrite (step_fetch _ _ _ _ _ Hi). revert Hi Hdest Hop. unfold range_instr. simpl.
  destruct (lo =? hi) eqn:E; breflect.
  - subst hi. intros Hi Hdest Hop. pose proof (instr_next pc _ Hi) as Hnext.
    assert (step_check_value B url cs (mkRun pc idx false acts) = Some (Next (
      if range_matches (mkRange lo lo d cs) c then followed idx c d acts
      else mkRun (pc + 6) idx false acts))) as Hgoal; [|by destruct cs].
    unfold step_check_value. cbn [urlIndexIsAfterEndOfString urlIndex programCounter].
    rewrite Hc. run_option. rewrite Hch, char_value_ascii by done.
    unfold sizeof_DFABytecode, sizeof_uint8. rewrite (getBits_byte _ lo []) by done. run_option.
    rewrite range_matches_value.
    replace (Z.of_N (checked cs c) =? Z.of_N lo)%Z with (checked cs c =? lo)
      by (apply eq_true_iff_eq; rewrite N.eqb_eq, Z.eqb_eq; lia).
    destruct (checked cs c =? lo).
    + replace (pc + 1 + 1) with (pc + 6 - 4) by lia.
      replace (getBits 4 B (pc + 6 - 4)) with (Some (R d)) by (symmetry; destruct cs; by apply Hdest).
      run_option. by rewrite follow_eq.
    + unfold skip. cbn [programCounter urlIndex urlIndexIsAfterEndOfString run_actions].
      do 3 f_equal. by destruct cs.
  - intros Hi Hdest Hop. pose proof (instr_next pc _ Hi) as Hnext.
    assert (step_check_range B url cs (mkRun pc idx false acts) = Some (Next (
      if range_matches (mkRange lo hi d cs) c then followed idx c d acts
      else mkRun (pc + 7) idx false acts))) as Hgoal; [|by destruct cs].
    unfold step_check_range. cbn [urlIndexIsAfterEndOfString urlIndex programCounter].
    rewrite Hc. run_option. rewrite Hch, char_value_ascii by done.
    unfold sizeof_DFABytecode, sizeof_uint8. rewrite (getBits_byte (pc + 1) lo [hi]) by done. run_option.
    assert (getBits 1 B (pc + 1 + 1) = Some hi) as Hhi.
    { apply (getBits_byte _ hi []). change (at_index B (pc + 1) ([lo] ++ [hi])) in Hop.
      by apply at_index_app in Hop as [_ ?]. }
    assert (range_matches (mkRange lo hi d cs) c = (lo <=? checked cs c) && (checked cs c <=? hi)) as ->
      by (unfold range_matches; simpl; by destruct cs).
    replace (Z.of_N lo <=? Z.of_N (checked cs c))%Z with (lo <=? checked cs c)
      by (apply eq_true_iff_eq; rewrite N.leb_le, Z.leb_le; lia).
    assert (skip (if cs then CheckValueRangeCaseSensitive else CheckValueRangeCaseInsensitive)
      (mkRun pc idx false acts) = mkRun (pc + 7) idx false acts) as Hskip.
    { unfold skip. cbn [programCounter urlIndex urlIndexIsAfterEndOfString run_actions].
      f_equal. by destruct cs. }
    destruct (lo <=? checked cs c); run_option; simpl andb; [|by rewrite Hskip].
    rewrite Hhi. run_option.
    replace (Z.of_N (checked cs c) <=? Z.of_N hi)%Z with (checked cs c <=? hi)
      by (apply eq_true_iff_eq; rewrite N.leb_le, Z.leb_le; lia).
    destruct (checked cs c <=? hi); [|by rewrite Hskip].
    replace (pc + 1 + 1 + 1) with (pc + 7 - 4) by lia.
    replace (getBits 4 B (pc + 7 - 4)) with (Some (R d)) by (symmetry; destruct cs; by apply Hdest).
    run_option. by rewrite follow_eq.
Qed.

(** A list of checks does what its first match says. *)
Lemma run_checks pc rs idx c acts :
  Forall range_ok rs -> (forall r, r ∈ rs -> R (range_destination r) < 2 ^ 32) ->
  code_at pc (range_instr <$> rs) -> url_char url idx = Some c ->
  reaches (mkRun pc idx false acts)
    match first_match rs c with
    | Some d => followed idx c d acts
    | None => mkRun (pc + code_size (range_instr <$> rs)) idx false acts
    end.
Proof.
  intros Hok HR Hcode Hc. revert pc Hcode. induction rs as [|r rs IH]; intros pc Hcode; simpl.
  - rewrite N.add_0_r. apply reaches_refl.
  - rewrite fmap_cons in Hcode. apply code_at_cons in Hcode as [Hi Hcode].
    apply Forall_cons in Hok as [Hr Hok].
    pose proof (run_check pc r idx c acts Hr (HR r ltac:(by left)) Hi Hc) as Hstep.
    destruct (range_matches r c); [by apply step_reaches|].
    eapply reaches_trans; [by apply step_reaches|].
    rewrite N.add_assoc. apply IH; [done| |done]. intros r' Hr'. apply HR. by right.
Qed.

(** After the end of the URL, the first check stops the run. *)
Lemma check_after_end pc r idx acts :
  instr_at pc (range_instr r) -> ends_with (mkRun pc idx true acts) acts.
Proof.
  intros Hi. apply step_ends. rewrite (step_fetch _ _ _ _ _ Hi).
  unfold range_instr. destruct (_ =? _); by destruct (range_caseSensitive r).
Qed.

Lemma terminate_ends pc idx e acts :
  instr_at pc ITerminate -> ends_with (mkRun pc idx e acts) acts.
Proof. intros Hi. apply step_ends. by rewrite (step_fetch _ _ _ _ _ Hi). Qed.

Lemma run_jump pc d idx c acts :
  instr_at pc (IJump d) -> R d < 2 ^ 32 -> url_char url idx = Some c ->
  step B url flags (mkRun pc idx false acts) =
  Some (if c =? 0 then NextDFA acts else Next (mkRun (R d) (idx + 1) false acts)).
Proof.
  intros Hi HR Hc. rewrite (step_fetch _ _ _ _ _ Hi). cbn [instruction_of].
  unfold step_jump. cbn [urlIndex urlIndexIsAfterEndOfString run_actions programCounter].
  rewrite Hc. run_option. destruct (url_char_ascii idx c Hc) as [_ Hidx].
  destruct (c =? 0); [done|]. cbn [orb].
  pose proof (getBits_destination pc (IJump d) d Hi eq_refl HR) as Hg.
  change (instructionSizeWithArguments _) with 5 in Hg.
  unfold sizeof_DFABytecode. replace (pc + 1) with (pc + 5 - 4) by lia. rewrite Hg. run_option.
  rewrite wrap32_id by lia. done.
Qed.

(** ** Nodes *)

Section Nodes.
Context (dfa : DFA) (Hok : dfa_ok dfa) (Hnul : nul_ok dfa).
Context (HR : forall index, live dfa index ->
  R index < 2 ^ 32 /\ code_at (R index) (entry_code dfa index)).

(** Running the transitions of a node is a step of the automaton. *)
Lemma run_transitions pc node idx c acts :
  node_ok dfa node -> code_at pc (transitions_code dfa node) -> url_char url idx = Some c ->
  match step_node node dfa c with
  | Some t => reaches (mkRun pc idx false acts) (followed idx c t acts)
  | None => ends_with (mkRun pc idx false acts) acts
  end.
Proof.
  intros Hnode Hcode Hc. destruct (url_char_ascii idx c Hc) as [Hc128 _].
  destruct (node_table_spec dfa Hok node Hnode) as (ts & Hts & _ & Hlen & Hspec).
  destruct (compute_ranges_spec _ Hlen) as [Hranges Hmatch].
  pose proof (ok_fallback dfa node Hnode) as Hfb.
  unfold transitions_code in Hcode. apply code_at_app in Hcode as [Hchecks Hlast].
  apply code_at_cons in Hlast as [Hlast _].
  assert (reaches (mkRun pc idx false acts)
    match first_match (compute_ranges (node_table dfa node)) c with
    | Some d => followed idx c d acts
    | None => mkRun (pc + code_size (range_instr <$> compute_ranges (node_table dfa node))) idx false acts
    end) as Hrun.
  { apply run_checks; [|intros r Hr|done|done].
    - eapply Forall_impl; [exact Hranges|]. by intros r [? _].
    - apply HR. eapply (transitions_code_live dfa Hok node (range_instr r)); [done| |].
      + unfold transitions_code. apply elem_of_app. left. by apply list_elem_of_fmap_2.
      + unfold range_instr. by destruct (_ =? _). }
  rewrite Hmatch, Hspec in Hrun by done. unfold step_node. rewrite Hts. cbn [from_option id].
  destruct (find_transition c ts) as [t|]; [done|].
  unfold last_instr in Hlast. destruct (hasFallbackTransition node) eqn:F; simpl andb.
  - destruct Hfb as (t & Ht & Htl); [done|]. rewrite Ht in Hlast |- *.
    pose proof (run_jump _ t idx c acts Hlast (proj1 (HR t Htl)) Hc) as Hj.
    unfold followed. destruct (c =? 0); simpl.
    + eapply reaches_ends; [exact Hrun|by apply step_ends].
    + eapply reaches_trans; [exact Hrun|by apply step_reaches].
  - assert (fallbackTransitionDestination node dfa = None) as E
      by (unfold fallbackTransitionDestination; by rewrite F).
    rewrite E in Hlast. eapply reaches_ends; [exact Hrun|by apply terminate_ends].
Qed.

Lemma transitions_after_end pc node idx acts :
  hasFallbackTransition node = false -> code_at pc (transitions_code dfa node) ->
  ends_with (mkRun pc idx true acts) acts.
Proof.
  intros F Hcode. unfold transitions_code, last_instr, fallbackTransitionDestination in Hcode.
  rewrite F in Hcode. destruct (compute_ranges _) as [|r rs].
  - apply code_at_cons in Hcode as [Hi _]. by apply terminate_ends.
  - apply code_at_cons in Hcode as [Hi _]. by eapply check_after_end.
Qed.

(** The actions that the code at the offset of a node adds. *)
Definition visited_actions (t : N) : list N := if t =? root dfa then [] else actions_at dfa t.

Lemma enter_node t node idx e acts :
  nodes dfa !!N t = Some node -> isKilled node = false ->
  exists pc, reaches (mkRun (R t) idx e acts) (mkRun pc idx e (foldl add_triggered acts (visited_actions t)))
    /\ code_at pc (transitions_code dfa node).
Proof.
  intros Hn Hk. destruct (HR t) as [_ Hcode]; [by exists node|].
  unfold entry_code, node_code, visited_actions, actions_at in *. rewrite Hn, Hk in *. run_option.
  destruct (t =? root dfa); simpl foldl.
  - exists (R t). split; [apply reaches_refl|done].
  - apply code_at_app in Hcode as [Ha Ht]. unfold actions_code in *.
    eexists. split; [by apply run_actions_code|done].
Qed.

Definition visited_triggered (t : N) : list N :=
  if t =? root dfa then [] else triggered flags (actions_at dfa t).

Lemma elem_of_visited x acts t :
  x ∈ foldl add_triggered acts (visited_actions t) <-> x ∈ acts \/ x ∈ visited_triggered t.
Proof.
  rewrite elem_of_add_triggered. unfold visited_actions, visited_triggered.
  by destruct (t =? root dfa).
Qed.

Lemma run_rest rest idx index node pc acts :
  drop (N.to_nat idx) url = rest -> idx <= N.of_nat (length url) ->
  nodes dfa !!N index = Some node -> isKilled node = false ->
  code_at pc (transitions_code dfa node) ->
  exists acts', ends_with (mkRun pc idx false acts) acts' /\
    forall x, x ∈ acts' <-> x ∈ acts \/ x ∈ (dfa_run dfa index (rest ++ [0]) ≫= visited_triggered).
Proof.
  revert idx index node pc acts. induction rest as [|c rest IH];
    intros idx index node pc acts Hdrop Hidx Hn Hk Hcode.
  - assert (N.to_nat idx = length url) as Hend.
    { apply (f_equal length) in Hdrop. rewrite length_drop in Hdrop. simpl in Hdrop. lia. }
    assert (url_char url idx = Some 0) as Hc.
    { unfold url_char. rewrite Hend. by rewrite lookup_app_r, Nat.sub_diag. }
    pose proof (run_transitions pc node idx 0 acts (ok_nodes dfa Hok _ _ Hn Hk) Hcode Hc) as Hrun.
    assert (dfa_step dfa index 0 = step_node node dfa 0) as Hstep by (unfold dfa_step; by rewrite Hn).
    simpl dfa_run. rewrite Hstep. destruct (step_node node dfa 0) as [t|] eqn:Et.
    + destruct (dfa_step_live dfa index 0 t Hok ltac:(by exists node)) as (tnode & Htn & Htk); [done|].
      destruct (enter_node t tnode (idx + 1) true acts Htn Htk) as (pc' & Henter & Hcode').
      exists (foldl add_triggered acts (visited_actions t)). split.
      * eapply reaches_ends; [exact Hrun|]. eapply reaches_ends; [exact Henter|].
        eapply transitions_after_end; [|done]. eapply (Hnul index t); [by exists node| |done].
        by rewrite Hstep.
      * intros x. rewrite elem_of_visited. simpl. by rewrite app_nil_r.
    + exists acts. split; [done|]. intros x. simpl. rewrite elem_of_nil. tauto.
  - assert (url !! N.to_nat idx = Some c) as Hurlc.
    { replace (N.to_nat idx) with (N.to_nat idx + 0)%nat by lia. by rewrite <- lookup_drop, Hdrop. }
    assert (url_char url idx = Some c) as Hc.
    { unfold url_char. rewrite lookup_app_l; [done|]. by apply lookup_lt_Some in Hurlc. }
    pose proof (run_transitions pc node idx c acts (ok_nodes dfa Hok _ _ Hn Hk) Hcode Hc) as Hrun.
    assert (dfa_step dfa index c = step_node node dfa c) as Hstep by (unfold dfa_step; by rewrite Hn).
    cbn [dfa_run app]. rewrite Hstep. destruct (step_node node dfa c) as [t|] eqn:Et.
    + destruct (dfa_step_live dfa index c t Hok ltac:(by exists node)) as (tnode & Htn & Htk); [done|].
      destruct (Forall_lookup_1 _ _ _ _ Hascii Hurlc) as [Hne _].
      unfold followed in Hrun. apply N.eqb_neq in Hne. rewrite Hne in Hrun.
      destruct (enter_node t tnode (idx + 1) false acts Htn Htk) as (pc' & Henter & Hcode').
      destruct (IH (idx + 1) t tnode pc' (foldl add_triggered acts (visited_actions t)))
        as (acts' & Hends & Hin); [|apply lookup_lt_Some in Hurlc; lia|done..|].
      * replace (N.to_nat (idx + 1)) with (N.to_nat idx + 1)%nat by lia.
        by rewrite <- drop_drop, Hdrop.
      * exists acts'. split.
        -- eapply reaches_ends; [exact Hrun|]. by eapply reaches_ends.
        -- intros x. rewrite Hin, elem_of_visited. cbn [mbind list_bind].
           rewrite elem_of_app. tauto.
    + exists acts. split; [done|]. intros x. simpl. rewrite elem_of_nil. tauto.
Qed.
End Nodes.
End Execution.
