(* ===== verification/Bytecode.v ===== *)
(** * Compiled bytecode: the theorems

    The DFAs of a content extension are compiled one after the other in the same
    buffer.  The theorems of this file are about that buffer: compiling returns
    ([compile_all_returns]), interpreting it returns, with enough fuel, exactly
    the actions the automata go through on the URL ([interpret_compiled]), and
    [actionsFromDFARoot] returns the unconditional actions of the first root
    ([actionsFromDFARoot_compiled]). *)

From S2P Require Import Prelude HashTable ASCII DFA DFABytecode DFABytecodeCompiler CompilerLayout DFABytecodeInterpreter BytecodeCorrect.

(** WebCore/contentextensions/ContentExtensionCompiler.cpp:242-243 [compileRuleList],
    the compilation of every DFA in the same buffer *)
Definition compile_all (dfas : list DFA) (bytecode : list N) : option (list N) :=
  foldM (fun bytecode dfa => compile dfa bytecode) bytecode dfas.

Definition total_size (dfas : list DFA) : N := foldr (fun dfa n => compiled_size dfa + n) 0 dfas.

(** What one DFA adds. *)
Definition dfa_adds (first : bool) (flags : N) (url : list N) (dfa : DFA) : list N :=
  root_triggered first dfa flags ++ dfa_triggered dfa flags url.

(** What the whole buffer adds. *)
Definition all_triggered (dfas : list DFA) (flags : N) (url : list N) : list N :=
  match dfas with
  | [] => []
  | dfa :: dfas' => dfa_adds true flags url dfa ++ (dfas' ≫= dfa_adds false flags url)
  end.

(** The preconditions on a DFA. *)
Definition compilable (dfa : DFA) : Prop := dfa_ok dfa /\ nul_ok dfa.

(** The bytecode of one DFA in a buffer. *)
Definition block_at (B : list N) (start : N) (dfa : DFA) : Prop :=
  exists R, at_index B start (le_bytes 4 (compiled_size dfa) ++ encode_all R (program dfa)) /\
    (forall index, live dfa index -> exists c1 c2,
        program dfa = c1 ++ entry_code dfa index ++ c2 /\ R index = start + 4 + code_size c1).

(** ** Compiling all the DFAs *)

Lemma compile_block pre dfa :
  dfa_ok dfa -> N.of_nat (length pre) + compiled_size dfa < max32 ->
  exists block, compile dfa pre = Some (pre ++ block) /\
    N.of_nat (length block) = compiled_size dfa /\
    forall post, block_at (pre ++ block ++ post) (N.of_nat (length pre)) dfa.
Proof.
  intros Hok Hsize. destruct (compile_layout dfa Hok pre Hsize) as (offsets & Hc & Hlive).
  exists (le_bytes 4 (compiled_size dfa) ++ encode_all (resolve offsets) (program dfa)).
  split_and!; [done| |].
  - rewrite length_app, length_le_bytes, Nat2N.inj_add, length_encode_all. done.
  - intros post. exists (resolve offsets). split; [|done]. by exists pre, post.
Qed.

Lemma compile_all_blocks dfas pre :
  Forall dfa_ok dfas -> N.of_nat (length pre) + total_size dfas < max32 ->
  exists code, compile_all dfas pre = Some (pre ++ code) /\
    N.of_nat (length code) = total_size dfas /\
    forall i dfa, dfas !! i = Some dfa ->
      block_at (pre ++ code) (N.of_nat (length pre) + total_size (take i dfas)) dfa.
Proof.
  revert pre. induction dfas as [|dfa dfas IH]; intros pre Hok Hsize; simpl in *.
  - exists []. rewrite app_nil_r. done.
  - apply Forall_cons in Hok as [Hdfa Hok].
    destruct (compile_block pre dfa Hdfa) as (block & Hc & Hlen & Hblock); [lia|].
    unfold compile_all. cbn [foldM]. rewrite Hc. run_option.
    destruct (IH (pre ++ block)) as (code & Hcode & Hl & Hblocks);
      [done|rewrite length_app; lia|].
    unfold compile_all in Hcode. rewrite Hcode. exists (block ++ code).
    split_and!; [by rewrite app_assoc|rewrite length_app; lia|].
    intros [|i] d Hd; simpl in Hd |- *; simplify_eq.
    + rewrite N.add_0_r. apply Hblock.
    + rewrite app_assoc. replace (N.of_nat (length pre) + (compiled_size dfa + total_size (take i dfas)))
        with (N.of_nat (length (pre ++ block)) + total_size (take i dfas)) by (rewrite length_app; lia).
      by apply Hblocks.
Qed.

(** ** The root *)

Section Root.
Context (B : list N) (HB : N.of_nat (length B) < 2 ^ 32) (flags : N) (R : N -> N).

(** The set after the flagged actions of the first root. *)
Definition add_flagged (acts : list N) (a : N) : list N :=
  if N.land a 281470681743360 =? 0 then acts else add_triggered flags acts a.

Definition is_action (i : instr) : Prop :=
  instruction_of i = AppendAction \/ instruction_of i = TestFlagsAndAppendAction.

Lemma not_action_opcode i :
  ~ is_action i -> (opcode (instruction_of i) =? opcode AppendAction) = false /\
    (opcode (instruction_of i) =? opcode TestFlagsAndAppendAction) = false.
Proof. unfold is_action. destruct i as [[]|[]| | | |]; naive_solver. Qed.

Lemma skip_root_actions l next code len pc acts fuel :
  code_at B R pc ((action_instr <$> l) ++ next :: code) -> ~ is_action next ->
  pc + code_size (action_instr <$> l) < len ->
  skip_root_loop (length l + S fuel) B len flags pc acts =
  Some (pc + code_size (action_instr <$> l), foldl add_flagged acts l).
Proof.
  intros Hcode Hnext. revert pc acts Hcode.
  induction l as [|a l IH]; intros pc acts Hcode Hlen.
  - cbn [fmap list_fmap app code_size foldr length Nat.add skip_root_loop root_actions_loop foldl] in *.
    apply code_at_cons in Hcode as [Hi _]. rewrite N.add_0_r in *.
    apply N.ltb_lt in Hlen. rewrite Hlen, (instr_at_opcode _ _ _ _ Hi). run_option.
    destruct (not_action_opcode next Hnext) as [-> ->]. done.
  - rewrite fmap_cons in Hcode, Hlen |- *. cbn [app code_size foldr] in *.
    apply code_at_cons in Hcode as [Hi Hcode].
    cbn [length Nat.add skip_root_loop].
    assert (pc <? len = true) as -> by (apply N.ltb_lt; lia).
    rewrite (instr_at_opcode _ _ _ _ Hi). run_option.
    pose proof (instr_next B HB R pc _ Hi) as Hnextpc.
    unfold code_size in IH. cbn [foldl]. rewrite N.add_assoc.
    rewrite <- IH; [|done|lia]. clear IH Hcode.
    unfold action_instr in Hi, Hlen, Hnextpc |- *. unfold add_flagged, add_triggered, flags_match.
    destruct (N.land a 281470681743360 =? 0); cbn [negb instruction_of] in *.
    + rewrite N.eqb_refl. by rewrite Hnextpc.
    + change (opcode TestFlagsAndAppendAction =? opcode AppendAction) with false. cbn iota.
      rewrite N.eqb_refl.
      rewrite (interpretTestFlags_at B HB flags R pc (action_flags a) a)
        by (done || apply action_flags_lt).
      run_option. cbn [fst snd orb]. done.
Qed.

Lemma root_actions l next code len pc acts :
  code_at B R pc ((action_instr <$> l) ++ next :: code) -> ~ is_action next ->
  pc + code_size (action_instr <$> l) < len ->
  exists acts', (forall fuel, root_actions_loop (length l + S fuel) B len pc acts = Some acts') /\
    forall x, x ∈ acts' <-> x ∈ acts \/
      x ∈ wrap32 <$> filter (fun a => (N.land a 281470681743360 =? 0) = true) l.
Proof.
  intros Hcode Hnext. revert pc acts Hcode.
  induction l as [|a l IH]; intros pc acts Hcode Hlen.
  - exists acts. split; [intros fuel|intros x; rewrite elem_of_nil; tauto].
    cbn [fmap list_fmap app code_size foldr length Nat.add root_actions_loop] in *.
    apply code_at_cons in Hcode as [Hi _]. rewrite N.add_0_r in *.
    apply N.ltb_lt in Hlen. rewrite Hlen, (instr_at_opcode _ _ _ _ Hi). run_option.
    by destruct (not_action_opcode next Hnext) as [-> ->].
  - rewrite fmap_cons in Hcode, Hlen. cbn [app code_size foldr] in *.
    apply code_at_cons in Hcode as [Hi Hcode].
    assert (pc <? len = true) as Hpc by (apply N.ltb_lt; lia).
    pose proof (instr_next B HB R pc _ Hi) as Hnextpc.
    pose proof (instr_at_opcode _ _ _ _ Hi) as Hop.
    unfold code_size in IH. rewrite filter_cons.
    change (action_instr a) with (if negb (N.land a 281470681743360 =? 0)
      then ITestFlagsAndAppendAction (action_flags a) (wrap32 a)
      else IAppendAction (wrap32 a)) in *.
    destruct (N.land a 281470681743360 =? 0); cbn [negb instruction_of] in *.
    + destruct (IH (pc + 5) (hset_add (wrap32 a) acts)) as (acts' & Hrun & Hin);
        [done|change (instructionSizeWithArguments AppendAction) with 5 in Hlen; lia|].
      exists acts'. split.
      * intros fuel. cbn [length Nat.add root_actions_loop]. rewrite Hpc, Hop. run_option.
        rewrite N.eqb_refl. rewrite (interpretAppendAction_at B HB R pc a) by done. run_option. apply Hrun.
      * intros x. rewrite Hin, elem_of_hset_add.
        rewrite decide_True by done. rewrite fmap_cons, elem_of_cons. tauto.
    + destruct (IH _ acts Hcode) as (acts' & Hrun & Hin); [lia|].
      exists acts'. split.
      * intros fuel. cbn [length Nat.add root_actions_loop]. rewrite Hpc, Hop. run_option.
        change (opcode TestFlagsAndAppendAction =? opcode AppendAction) with false. cbn iota.
        rewrite N.eqb_refl, Hnextpc. apply Hrun.
      * by rewrite decide_False by done.
Qed.
End Root.

Lemma elem_of_add_flagged flags x acts l :
  x ∈ foldl (add_flagged flags) acts l <-> x ∈ acts \/
    x ∈ triggered flags (filter (fun a => negb (N.land a 281470681743360 =? 0) = true) l).
Proof.
  revert acts. induction l as [|a l IH]; intros acts; simpl.
  - unfold triggered. simpl. rewrite elem_of_nil. tauto.
  - rewrite IH. unfold triggered, add_flagged, add_triggered. rewrite filter_cons.
    destruct (N.land a 281470681743360 =? 0); cbn [negb].
    + by rewrite decide_False by done.
    + rewrite decide_True by done. rewrite filter_cons.
      destruct (flags_match flags a); [rewrite decide_True by done|by rewrite decide_False by done].
      rewrite elem_of_hset_add, fmap_cons, elem_of_cons. tauto.
Qed.

(** ** One block *)

Lemma transitions_code_head dfa node :
  exists next code, transitions_code dfa node = next :: code /\ ~ is_action next.
Proof.
  unfold transitions_code, is_action. destruct (compute_ranges _) as [|r rs].
  - eexists _, _. split; [done|]. unfold last_instr. destruct (fallbackTransitionDestination _ _); naive_solver.
  - eexists _, _. split; [done|]. unfold range_instr.
    destruct (_ =? _), (range_caseSensitive r); naive_solver.
Qed.

Lemma program_root dfa node :
  nodes dfa !!N root dfa = Some node -> isKilled node = false ->
  exists code, program dfa = actions_code dfa node ++ transitions_code dfa node ++ code.
Proof.
  intros Hn Hk. unfold program, node_order. eexists.
  cbn [mbind list_bind]. unfold node_code at 1. rewrite Hn, Hk. by rewrite <- app_assoc.
Qed.

Section Block.
Context (B : list N) (start : N) (dfa : DFA) (R : N -> N).
Context (Hat : at_index B start (le_bytes 4 (compiled_size dfa) ++ encode_all R (program dfa))).

Lemma block_size : start + compiled_size dfa <= N.of_nat (length B).
Proof.
  destruct Hat as (pre & post & -> & ->).
  rewrite !length_app, !Nat2N.inj_add, length_encode_all, length_le_bytes. unfold compiled_size. lia.
Qed.

Context (HB : N.of_nat (length B) < 2 ^ 32) (Hok : dfa_ok dfa).
Context (HR : forall index, live dfa index -> exists c1 c2,
  program dfa = c1 ++ entry_code dfa index ++ c2 /\ R index = start + 4 + code_size c1).

Lemma block_header : getBits 4 B start = Some (compiled_size dfa).
Proof.
  pose proof block_size. apply at_index_app in Hat as [Hh _].
  rewrite (getBits_at B HB 4 _ (le_bytes 4 (compiled_size dfa)));
    [|done|by rewrite length_le_bytes|lia]. by rewrite le_value32 by lia.
Qed.

Lemma block_code : code_at B R (start + 4) (program dfa).
Proof. by apply at_index_app in Hat as [_ Hc]. Qed.

Lemma block_entry index : live dfa index -> R index < 2 ^ 32 /\ code_at B R (R index) (entry_code dfa index).
Proof.
  intros Hl. destruct (HR index Hl) as (c1 & c2 & Hp & ->). pose proof block_code as Hc.
  pose proof block_size as Hs. unfold compiled_size in Hs.
  rewrite Hp in Hc, Hs. rewrite code_size_app in Hs.
  apply code_at_app in Hc as [_ Hc]. apply code_at_app in Hc as [Hc _]. split; [lia|done].
Qed.

(** The root: its node, where its transitions are, its actions before them. *)
Lemma block_root : exists node,
  nodes dfa !!N root dfa = Some node /\ isKilled node = false /\
  code_at B R (start + 4) (actions_code dfa node ++ transitions_code dfa node) /\
  actions_code dfa node = action_instr <$> actions_at dfa (root dfa) /\
  4 + code_size (actions_code dfa node) < compiled_size dfa.
Proof.
  destruct (ok_root dfa Hok) as (node & Hn & Hk). exists node.
  destruct (program_root dfa node Hn Hk) as (code & Hp). pose proof block_code as Hc.
  rewrite Hp, app_assoc in Hc. apply code_at_app in Hc as [Hc _].
  split_and!; [done..| |].
  - unfold actions_code, actions_at. by rewrite Hn.
  - unfold compiled_size. rewrite Hp, !code_size_app.
    destruct (transitions_code_head dfa node) as (next & rest & -> & _). cbn [code_size foldr].
    pose proof (instruction_size_pos (instruction_of next)). unfold code_size. lia.
Qed.
End Block.

(** ** Interpreting the blocks *)

Lemma ends_with_fuel B flags url r acts :
  ends_with B flags url r acts -> exists k, forall fuel, (k <= fuel)%nat -> run_dfa fuel B url flags r = Some acts.
Proof.
  intros [k Hk]. exists k. intros fuel Hle. replace fuel with (k + (fuel - k))%nat by lia. apply Hk.
Qed.

Section Interpret.
Context (B : list N) (HB : N.of_nat (length B) < 2 ^ 32) (flags : N) (url : list N).
Context (Hascii : Forall (fun c => c <> 0 /\ c < 128) url) (Hurl : N.of_nat (length url) + 2 < 2 ^ 32).

Lemma run_root_transitions start dfa R pc node acts :
  dfa_ok dfa -> nul_ok dfa ->
  at_index B start (le_bytes 4 (compiled_size dfa) ++ encode_all R (program dfa)) ->
  (forall index, live dfa index -> exists c1 c2,
    program dfa = c1 ++ entry_code dfa index ++ c2 /\ R index = start + 4 + code_size c1) ->
  nodes dfa !!N root dfa = Some node -> isKilled node = false ->
  code_at B R pc (transitions_code dfa node) ->
  exists acts', ends_with B flags url (mkRun pc 0 false acts) acts' /\
    forall x, x ∈ acts' <-> x ∈ acts \/ x ∈ dfa_triggered dfa flags url.
Proof.
  intros Hok Hnul Hat HR Hn Hk Hcode.
  destruct (run_rest B HB flags R url Hascii Hurl dfa Hok Hnul
    (block_entry B start dfa R Hat HB HR) url 0 (root dfa) node pc acts) as (acts' & Hends & Hin);
    [done|lia|done..|]. by exists acts'.
Qed.

Lemma run_other_block start dfa acts :
  compilable dfa -> block_at B start dfa ->
  exists acts' k, getBits 4 B start = Some (compiled_size dfa) /\
    (forall fuel, (k <= fuel)%nat ->
      run_dfa fuel B url flags (mkRun (wrap32 (start + 4)) 0 false acts) = Some acts') /\
    forall x, x ∈ acts' <-> x ∈ acts \/ x ∈ dfa_adds false flags url dfa.
Proof.
  intros [Hok Hnul] (R & Hat & HR).
  destruct (block_root B start dfa R Hat HB Hok) as (node & Hn & Hk & Hcode & Hacts & Hlt).
  pose proof (block_size B start dfa R Hat) as Hsize.
  apply code_at_app in Hcode as [Ha Ht]. rewrite Hacts in Ha, Ht.
  destruct (run_root_transitions start dfa R _ node
    (foldl (add_triggered flags) acts (actions_at dfa (root dfa))) Hok Hnul Hat HR Hn Hk Ht)
    as (acts' & Hends & Hin).
  rewrite wrap32_id by lia. exists acts'.
  destruct (ends_with_fuel B flags url (mkRun (start + 4) 0 false acts) acts') as [k Hfuel].
  { eapply reaches_ends; [|exact Hends]. by eapply run_actions_code. }
  exists k. split_and!; [by eapply block_header|done|].
  intros x. rewrite Hin, (elem_of_add_triggered flags R). unfold dfa_adds, root_triggered.
  rewrite elem_of_app. tauto.
Qed.

Lemma run_first_block dfa acts :
  compilable dfa -> block_at B 0 dfa ->
  exists pc acts1 acts' k, getBits 4 B 0 = Some (compiled_size dfa) /\
    (forall fuel, (k <= fuel)%nat ->
      skip_root_loop fuel B (compiled_size dfa) flags 4 acts = Some (pc, acts1)) /\
    pc < N.of_nat (length B) /\
    (forall fuel, (k <= fuel)%nat -> run_dfa fuel B url flags (mkRun pc 0 false acts1) = Some acts') /\
    forall x, x ∈ acts' <-> x ∈ acts \/ x ∈ dfa_adds true flags url dfa.
Proof.
  intros [Hok Hnul] (R & Hat & HR).
  destruct (block_root B 0 dfa R Hat HB Hok) as (node & Hn & Hk & Hcode & Hacts & Hlt).
  pose proof (block_size B 0 dfa R Hat) as Hsize. rewrite Hacts in Hcode, Hlt.
  destruct (transitions_code_head dfa node) as (next & rest & Hhead & Hnext).
  pose proof Hcode as Hcode'. rewrite Hhead in Hcode'. apply code_at_app in Hcode as [_ Ht].
  set (acts1 := foldl (add_flagged flags) acts (actions_at dfa (root dfa))).
  destruct (run_root_transitions 0 dfa R _ node acts1 Hok Hnul Hat HR Hn Hk Ht) as (acts' & Hends & Hin).
  destruct (ends_with_fuel _ _ _ _ _ Hends) as [k Hfuel].
  eexists _, acts1, acts', (k + S (length (actions_at dfa (root dfa))))%nat. split_and!.
  - by eapply block_header.
  - intros fuel Hle.
    replace fuel with (length (actions_at dfa (root dfa)) +
      S (fuel - S (length (actions_at dfa (root dfa)))))%nat by lia.
    by apply (skip_root_actions B HB flags R _ next rest).
  - lia.
  - intros fuel Hle. apply Hfuel. lia.
  - intros x. rewrite Hin. unfold acts1. rewrite elem_of_add_flagged. unfold dfa_adds, root_triggered.
    rewrite elem_of_app. tauto.
Qed.

Lemma interpret_blocks dfas start acts :
  Forall compilable dfas -> 0 < start -> start + total_size dfas = N.of_nat (length B) ->
  (forall i dfa, dfas !! i = Some dfa -> block_at B (start + total_size (take i dfas)) dfa) ->
  exists acts' k, (forall fuel, (k <= fuel)%nat ->
      interpret_from fuel (mkInterpreter B (N.of_nat (length B))) url flags start acts = Some acts') /\
    forall x, x ∈ acts' <-> x ∈ acts \/ x ∈ (dfas ≫= dfa_adds false flags url).
Proof.
  revert start acts. induction dfas as [|dfa dfas IH]; intros start acts Hok Hpos Hsize Hblocks.
  - exists acts, 1%nat. split.
    + intros [|fuel] Hle; [lia|]. cbn [interpret_from i_bytecodeLength].
      simpl in Hsize. by replace (start <? N.of_nat (length B)) with false
        by (symmetry; apply N.ltb_ge; lia).
    + intros x. simpl. rewrite elem_of_nil. tauto.
  - apply Forall_cons in Hok as [Hdfa Hok]. cbn [total_size foldr] in Hsize.
    pose proof (Hblocks 0%nat dfa eq_refl) as Hb. cbn [take total_size foldr] in Hb. rewrite N.add_0_r in Hb.
    destruct (run_other_block start dfa acts Hdfa Hb) as (acts1 & k1 & Hlen & Hrun & Hin1).
    destruct (IH (start + compiled_size dfa) acts1) as (acts' & k2 & Hrest & Hin); [done|lia| | |].
    { unfold total_size. lia. }
    { intros i d Hd. specialize (Hblocks (S i) d Hd). cbn [take total_size foldr] in Hblocks.
      by rewrite N.add_assoc in Hblocks. }
    exists acts', (S (k1 + k2)). split.
    + intros [|fuel] Hle; [lia|]. cbn [interpret_from i_bytecodeLength i_bytecode].
      assert (0 < compiled_size dfa) by (unfold compiled_size; lia).
      replace (start <? N.of_nat (length B)) with true by (symmetry; apply N.ltb_lt; lia).
      rewrite Hlen. run_option. replace (start =? 0) with false by (symmetry; apply N.eqb_neq; lia).
      run_option. cbn [andb fst snd]. rewrite Hrun by lia. run_option.
      rewrite wrap32_id by lia. apply Hrest. lia.
    + intros x. rewrite Hin, Hin1. cbn [mbind list_bind]. rewrite elem_of_app. tauto.
Qed.
End Interpret.

(** ** A checker of the preconditions *)

Definition live_b (dfa : DFA) (index : N) : bool :=
  match nodes dfa !!N index with Some node => negb (isKilled node) | None => false end.

Definition node_okb (dfa : DFA) (node : DFANode) : bool :=
  match node_actions node dfa, node_transitions node dfa with
  | Some a, Some ts =>
      forallb (fun x => x <? 2 ^ 48) a && bool_decide (NoDup ts.*1)
      && forallb (fun t => (t.1 <? 128) && live_b dfa t.2) ts
      && (negb (hasFallbackTransition node)
          || match fallbackTransitionDestination node dfa with Some t => live_b dfa t | None => false end)
      && match find_transition 0 ts with
         | Some t => match nodes dfa !!N t with
                     | Some node' => negb (hasFallbackTransition node') | None => false end
         | None => true
         end
  | _, _ => false
  end.

Definition compilable_b (dfa : DFA) : bool :=
  live_b dfa (root dfa) && (N.of_nat (length (nodes dfa)) <? max32)
  && forallb (fun node => isKilled node || node_okb dfa node) (nodes dfa).

Lemma live_b_spec dfa index : live_b dfa index = true -> live dfa index.
Proof.
  unfold live_b, live. destruct (nodes dfa !!N index) as [node|]; [|done].
  intros ?. breflect. by exists node.
Qed.

Lemma node_okb_spec dfa node : node_okb dfa node = true -> node_ok dfa node.
Proof.
  unfold node_okb. destruct (node_actions node dfa) as [a|] eqn:Ha; [|done].
  destruct (node_transitions node dfa) as [ts|] eqn:Hts; [|done]. intros H. breflect. split.
  - exists a. split; [done|]. rewrite forallb_forall in *. apply Forall_forall. intros x Hx.
    rewrite list_elem_of_In in Hx. by apply N.ltb_lt; auto.
  - exists ts. split_and!; [done|by eapply bool_decide_eq_true|].
    rewrite !forallb_forall in *. apply Forall_forall. intros t Ht.
    rewrite list_elem_of_In in Ht. specialize (H2 t Ht). simpl in H2. breflect. split; [done|by apply live_b_spec].
  - intros F. rewrite F in *. simpl in *. destruct (fallbackTransitionDestination node dfa) as [t|]; [|done].
    exists t. split; [done|by apply live_b_spec].
Qed.

Lemma compilable_b_spec dfa : compilable_b dfa = true -> compilable dfa.
Proof.
  unfold compilable_b. intros H. breflect. rewrite forallb_forall in *.
  assert (forall index node, nodes dfa !!N index = Some node -> isKilled node = false ->
    node_okb dfa node = true) as Hall.
  { intros index node Hn Hk. apply list_elem_of_lookup_2, list_elem_of_In in Hn.
    specialize (H0 node Hn). by rewrite Hk in H0. }
  split; [split; [by apply live_b_spec|done|]|].
  - intros index node Hn Hk. by eapply node_okb_spec, Hall.
  - intros index target node (source & Hs & Hk) Hstep Hn.
    specialize (Hall index source Hs Hk). unfold node_okb in Hall.
    destruct (node_actions source dfa) as [a|]; [|done].
    unfold dfa_step, step_node in Hstep. rewrite Hs in Hstep. simpl in Hstep.
    destruct (node_transitions source dfa) as [ts|]; [|done]. simpl in Hstep. breflect.
    destruct (find_transition 0 ts) as [t|]; simplify_eq.
    + rewrite Hn in *. by breflect.
    + by rewrite andb_false_r in Hstep.
Qed.

Lemma compilable_b_all dfas : forallb compilable_b dfas = true -> Forall compilable dfas.
Proof.
  rewrite forallb_forall. intros H. apply Forall_forall. intros dfa Hd.
  apply compilable_b_spec, H. by apply list_elem_of_In.
Qed.

(** ** The theorems *)

Lemma interpret_result (dfas : list DFA) (url : list N) (flags : N) :
  Forall compilable dfas -> total_size dfas < max32 ->
  Forall (fun c => c <> 0 /\ c < 128) url -> N.of_nat (length url) + 2 < 2 ^ 32 ->
  exists bytecode acts fuel0,
    compile_all dfas [] = Some bytecode /\
    (forall fuel, (fuel0 <= fuel)%nat ->
      interpret fuel (mkInterpreter bytecode (N.of_nat (length bytecode))) url flags = Some acts) /\
    (forall action, action ∈ acts <-> action ∈ all_triggered dfas flags url).
Proof.
  intros Hok Hsize Hascii Hurl.
  assert (Forall dfa_ok dfas) as Hdfas by (eapply Forall_impl; [exact Hok|by intros ? []]).
  destruct (compile_all_blocks dfas [] Hdfas) as (B & Hc & Hlen & Hblocks); [done|].
  rewrite app_nil_l in Hc, Hblocks. unfold max32 in Hsize. exists B.
  assert (N.of_nat (length B) < 2 ^ 32) as HB by (change (2 ^ 32) with 4294967296; lia).
  destruct dfas as [|dfa dfas].
  - exists [], 1%nat. simpl in Hlen. split_and!; [done| |done].
    intros [|fuel] Hle; [lia|]. unfold interpret. cbn [interpret_from i_bytecodeLength]. by rewrite Hlen.
  - apply Forall_cons in Hok as [Hdfa Hok]. pose proof (Hblocks 0%nat dfa eq_refl) as Hb.
    destruct (run_first_block B HB flags url Hascii Hurl dfa [] Hdfa Hb)
      as (pc & acts1 & acts2 & k1 & Hhead & Hskip & Hpc & Hrun & Hin1).
    cbn [total_size foldr] in Hlen.
    destruct (interpret_blocks B HB flags url Hascii Hurl dfas (compiled_size dfa) acts2 Hok)
      as (acts & k2 & Hrest & Hin); [unfold compiled_size; lia|unfold total_size; lia| |].
    { intros i d Hd. apply (Hblocks (S i) d Hd). }
    exists acts, (S (k1 + k2)). split_and!; [done| |].
    + intros [|fuel] Hle; [lia|]. unfold interpret. cbn [interpret_from i_bytecodeLength i_bytecode].
      assert (0 < compiled_size dfa) by (unfold compiled_size; lia).
      replace (0 <? N.of_nat (length B)) with true by (symmetry; apply N.ltb_lt; lia).
      rewrite Hhead. run_option. change (0 =? 0) with true. cbn iota.
      change (wrap32 (0 + sizeof_unsigned)) with 4. rewrite Hskip by lia. run_option. cbn [fst snd andb].
      replace (N.of_nat (length B) <=? pc) with false by (symmetry; apply N.leb_gt; lia).
      rewrite Hrun by lia. run_option. rewrite wrap32_id by lia. apply Hrest. lia.
    + intros x. rewrite Hin, Hin1. cbn [all_triggered]. rewrite elem_of_nil, elem_of_app. tauto.
Qed.

(** C3: Interpreting what [DFABytecodeCompiler] produced is running the automata.
    The DFAs of an extension are compiled one after the other in one buffer; the
    compilation does not crash, and with enough fuel the interpreter returns, without
    any access outside of the buffer or of the URL, exactly the actions of the
    nodes the automata go through on the URL and its terminator that the load's
    flags let trigger: those of the roots first, except the unconditional
    actions of the first root, which [actionsFromDFARoot] returns. *)
Theorem interpret_compiled (dfas : list DFA) (url : list N) (flags : N) :
  Forall compilable dfas -> total_size dfas < max32 ->
  Forall (fun c => c <> 0 /\ c < 128) url -> N.of_nat (length url) + 2 < 2 ^ 32 ->
  exists bytecode acts fuel0,
    compile_all dfas [] = Some bytecode /\
    (forall fuel, (fuel0 <= fuel)%nat ->
      interpret fuel (mkInterpreter bytecode (N.of_nat (length bytecode))) url flags = Some acts) /\
    (forall action, action ∈ acts <-> action ∈ all_triggered dfas flags url).
Proof. apply interpret_result. Qed.

(** [DFABytecodeCompiler::compile] on all the DFAs of an extension returns,
    keeps what the buffer held, and appends exactly [total_size] bytes, the
    first four of each block being the size of the block. *)
Theorem compile_all_returns (dfas : list DFA) (buffer : list N) :
  Forall dfa_ok dfas -> N.of_nat (length buffer) + total_size dfas < max32 ->
  exists code, compile_all dfas buffer = Some (buffer ++ code) /\
    N.of_nat (length code) = total_size dfas /\
    forall i dfa, dfas !! i = Some dfa ->
      getBits 4 (buffer ++ code) (N.of_nat (length buffer) + total_size (take i dfas))
      = Some (compiled_size dfa).
Proof.
  intros Hok Hsize. destruct (compile_all_blocks dfas buffer Hok Hsize) as (code & Hc & Hlen & Hb).
  exists code. split_and!; [done..|]. intros i dfa Hd. destruct (Hb i dfa Hd) as (R & Hat & _).
  eapply block_header; [exact Hat|]. unfold max32 in Hsize.
  rewrite length_app. change (2 ^ 32) with 4294967296. lia.
Qed.

Lemma root_result (dfa : DFA) (dfas : list DFA) :
  Forall dfa_ok (dfa :: dfas) -> total_size (dfa :: dfas) < max32 ->
  exists bytecode acts fuel0,
    compile_all (dfa :: dfas) [] = Some bytecode /\
    (forall fuel, (fuel0 <= fuel)%nat ->
      actionsFromDFARoot fuel (mkInterpreter bytecode (N.of_nat (length bytecode))) = Some acts) /\
    (forall action, action ∈ acts <->
      action ∈ wrap32 <$> filter (fun a => (N.land a 281470681743360 =? 0) = true)
                            (actions_at dfa (root dfa))).
Proof.
  intros Hok Hsize. destruct (compile_all_blocks (dfa :: dfas) [] Hok) as (B & Hc & Hlen & Hblocks); [done|].
  rewrite app_nil_l in Hc, Hblocks. unfold max32 in Hsize. exists B.
  assert (N.of_nat (length B) < 2 ^ 32) as HB by (change (2 ^ 32) with 4294967296; lia).
  apply Forall_cons in Hok as [Hdfa _]. destruct (Hblocks 0%nat dfa eq_refl) as (R & Hat & _).
  change (N.of_nat (length []) + total_size (take 0 (dfa :: dfas))) with 0 in Hat.
  destruct (block_root B 0 dfa R Hat HB Hdfa) as (node & Hn & Hk & Hcode & Hacts & Hlt).
  destruct (transitions_code_head dfa node) as (next & rest & Hhead & Hnext).
  rewrite Hhead, Hacts in Hcode. rewrite Hacts in Hlt.
  set (l := actions_at dfa (root dfa)) in *.
  destruct (root_actions B HB 0 R l next rest (compiled_size dfa) (0 + 4) [] Hcode Hnext Hlt)
    as (acts & Hrun & Hin).
  exists acts, (S (length l)). split_and!; [done| |].
  - intros fuel Hle. unfold actionsFromDFARoot. cbn [i_bytecode].
    rewrite (block_header B 0 dfa R Hat HB). run_option.
    replace fuel with (length l + S (fuel - S (length l)))%nat by lia. apply Hrun.
  - intros x. rewrite Hin, elem_of_nil. tauto.
Qed.

(** C34: [actionsFromDFARoot] on compiled bytecode returns exactly the
    unconditional actions of the first root, whatever follows it. *)
Theorem actionsFromDFARoot_compiled (dfa : DFA) (dfas : list DFA) :
  Forall dfa_ok (dfa :: dfas) -> total_size (dfa :: dfas) < max32 ->
  exists bytecode acts fuel0,
    compile_all (dfa :: dfas) [] = Some bytecode /\
    (forall fuel, (fuel0 <= fuel)%nat ->
      actionsFromDFARoot fuel (mkInterpreter bytecode (N.of_nat (length bytecode))) = Some acts) /\
    (forall action, action ∈ acts <->
      action ∈ wrap32 <$> filter (fun a => (N.land a 281470681743360 =? 0) = true)
                            (actions_at dfa (root dfa))).
Proof. apply root_result. Qed.

(** ** An example

    The first automaton has an unconditional action and a flagged one on its
    root, matches [a] (of either case), then anything, then [b] or the end. *)
Definition example_dfa : DFA :=
  mkDFA [5; 2 ^ 32 * 3 + 9; 14; 2 ^ 32 * 4 + 30]
    [(97, 1); (65, 1); (98, 2); (0, 2); (255, 1)]
    [mkDFANode 0 0 2 2 0; mkDFANode 2 2 0 2 1; mkDFANode 2 5 2 0 0; mkDFANode 0 0 0 0 2] 0.

Definition example_dfa2 : DFA :=
  mkDFA [77] [(255, 0)] [mkDFANode 0 0 1 0 1] 0.

Lemma interpret_compiled_witness :
  exists bytecode acts fuel0,
    compile_all [example_dfa; example_dfa2] [] = Some bytecode /\
    (forall fuel, (fuel0 <= fuel)%nat ->
      interpret fuel (mkInterpreter bytecode (N.of_nat (length bytecode))) [65; 120; 98] 1 = Some acts) /\
    (forall action, action ∈ acts <-> action ∈ all_triggered [example_dfa; example_dfa2] 1 [65; 120; 98]).
Proof.
  apply (interpret_compiled [example_dfa; example_dfa2] [65; 120; 98] 1).
  - apply compilable_b_all. by vm_compute.
  - by vm_compute.
  - repeat (apply Forall_cons; split; [split; [discriminate|reflexivity]|]). constructor.
  - by vm_compute.
Defined.

(** The actions are the ones one expects. *)
Example interpret_example :
  (bytecode ← compile_all [example_dfa; example_dfa2] [];
   interpret 60 (mkInterpreter bytecode (N.of_nat (length bytecode))) [65; 120; 98] 1)
  = Some [9; 14; 77].
Proof. by vm_compute. Qed.

Lemma compile_all_returns_witness :
  exists code, compile_all [example_dfa; example_dfa2] [1; 2; 3] = Some ([1; 2; 3] ++ code) /\
    N.of_nat (length code) = total_size [example_dfa; example_dfa2] /\
    forall i dfa, [example_dfa; example_dfa2] !! i = Some dfa ->
      getBits 4 ([1; 2; 3] ++ code) (N.of_nat (length [1; 2; 3]) + total_size (take i [example_dfa; example_dfa2]))
      = Some (compiled_size dfa).
Proof.
  apply (compile_all_returns [example_dfa; example_dfa2] [1; 2; 3]).
  - eapply Forall_impl; [apply compilable_b_all; by vm_compute|]. by intros ? [].
  - by vm_compute.
Defined.

Lemma actionsFromDFARoot_compiled_witness :
  exists bytecode acts fuel0,
    compile_all [example_dfa; example_dfa2] [] = Some bytecode /\
    (forall fuel, (fuel0 <= fuel)%nat ->
      actionsFromDFARoot fuel (mkInterpreter bytecode (N.of_nat (length bytecode))) = Some acts) /\
    (forall action, action ∈ acts <->
      action ∈ wrap32 <$> filter (fun a => (N.land a 281470681743360 =? 0) = true)
                            (actions_at example_dfa (root example_dfa))).
Proof.
  apply (actionsFromDFARoot_compiled example_dfa [example_dfa2]).
  - eapply Forall_impl; [apply compilable_b_all; by vm_compute|]. by intros ? [].
  - by vm_compute.
Defined.
