(* ===== verification/HashFunctions.v ===== *)
(** * [WTF/wtf/HashFunctions.h] and the bit counts of [StdLibExtras.h]

    The mixing functions work modulo [2 ^ 32] (or [2 ^ 64]); they are shown to
    lose no key.  [bitCount] is shown to count the bits that are set. *)

From Stdlib Require Import ZArith Znumtheory.
From S2P Require Import Prelude.

(** ** Machine words *)

(** [~x] on 32 and on 64 bits. *)
Definition not32 (x : N) : N := max32 - wrap32 x.
Definition not64 (x : N) : N := max64 - wrap64 x.

Definition shl32 (x k : N) : N := wrap32 (N.shiftl x k).
Definition shl64 (x k : N) : N := wrap64 (N.shiftl x k).

(** ** Definitions *)

(** WTF/wtf/HashFunctions.h:65-74 [intHash] *)
Definition intHash32 (key : N) : N :=
  let key := wrap32 (key + not32 (shl32 key 15)) in
  let key := N.lxor key (N.shiftr key 10) in
  let key := wrap32 (key + shl32 key 3) in
  let key := N.lxor key (N.shiftr key 6) in
  let key := wrap32 (key + not32 (shl32 key 11)) in
  N.lxor key (N.shiftr key 16).

(** WTF/wtf/HashFunctions.h:39-49 [intHash], of an [uint8_t] *)
Definition intHash8 (key8 : N) : N := intHash32 (wrap8 key8).

(** WTF/wtf/HashFunctions.h:52-62 [intHash], of an [uint16_t] *)
Definition intHash16 (key16 : N) : N := intHash32 (wrap16 key16).

(** The mixing of [intHash] on 64 bits, before its result is cut to an [unsigned]. *)
Definition mix64 (key : N) : N :=
  let key := wrap64 (key + not64 (shl64 key 32)) in
  let key := N.lxor key (N.shiftr key 22) in
  let key := wrap64 (key + not64 (shl64 key 13)) in
  let key := N.lxor key (N.shiftr key 8) in
  let key := wrap64 (key + shl64 key 3) in
  let key := N.lxor key (N.shiftr key 15) in
  let key := wrap64 (key + not64 (shl64 key 27)) in
  N.lxor key (N.shiftr key 31).

(** WTF/wtf/HashFunctions.h:77-88 [intHash], of an [uint64_t] *)
Definition intHash64 (key : N) : N := wrap32 (mix64 key).

(** WTF/wtf/HashFunctions.h:91-100 [pairIntHash]; the shift is by the difference of
    the sizes in bytes *)
Definition pairIntHash (key1 key2 : N) : N :=
  let shortRandom1 := 277951225 in
  let shortRandom2 := 95187966 in
  let longRandom := 19248658165952622 in
  let product := wrap64 (longRandom * wrap32 (shortRandom1 * key1 + shortRandom2 * key2)) in
  wrap32 (N.shiftr product (8 - 4)).

(** WTF/wtf/StdLibExtras.h:168-173 [bitCount] *)
Definition bitCount32 (bits : N) : N :=
  let bits := wrap32 (bits + 4294967296 - N.land (N.shiftr bits 1) 0x55555555) in
  let bits := wrap32 (N.land bits 0x33333333 + N.land (N.shiftr bits 2) 0x33333333) in
  N.shiftr (wrap32 (N.land (wrap32 (bits + N.shiftr bits 4)) 0xF0F0F0F * 0x1010101)) 24.

(** WTF/wtf/StdLibExtras.h:175-178 [bitCount], of an [uint64_t] *)
Definition bitCount64 (bits : N) : N :=
  bitCount32 (wrap32 bits) + bitCount32 (wrap32 (N.shiftr bits 32)).

(** The number of the bits [0 .. n - 1] of [x] that are set. *)
Fixpoint popcount (n : nat) (x : N) : N :=
  match n with
  | O => 0
  | S n' => N.b2n (N.odd x) + popcount n' (N.div2 x)
  end.

(** ** Digits

    The words are cut into digits of [k] bits, on which masks act separately. *)

Lemma testbit_digits k a b i : b < 2 ^ k ->
  N.testbit (b + 2 ^ k * a) i = if i <? k then N.testbit b i else N.testbit a (i - k).
Proof.
  intros Hb. assert (2 ^ k <> 0) by (by apply N.pow_nonzero). destruct (i <? k) eqn:E; breflect.
  - rewrite <- (N.mod_pow2_bits_low _ k) by done. rewrite N.mul_comm, N.Div0.mod_add, N.mod_small by done. done.
  - replace i with (i - k + k) at 1 by lia. rewrite <- N.div_pow2_bits.
    rewrite N.mul_comm, N.div_add, N.div_small by done. done.
Qed.

Lemma land_digits k a b c d : b < 2 ^ k -> d < 2 ^ k ->
  N.land (b + 2 ^ k * a) (d + 2 ^ k * c) = N.land b d + 2 ^ k * N.land a c.
Proof.
  intros Hb Hd. assert (N.land b d < 2 ^ k) as Hbd.
  { destruct (decide (N.land b d = 0)) as [->|Hne]; [by apply N.neq_0_lt_0, N.pow_nonzero|].
    apply N.log2_lt_pow2; [lia|]. eapply N.le_lt_trans; [apply N.log2_land|].
    destruct (decide (b = 0)) as [->|]; [by rewrite N.land_0_l in Hne|].
    apply N.min_lt_iff. left. apply N.log2_lt_pow2; [lia|done]. }
  apply N.bits_inj. intros i. rewrite N.land_spec, !testbit_digits by done.
  destruct (i <? k); by rewrite N.land_spec.
Qed.

(** A mask on a shifted digit. *)
Lemma land_shift_digits k j a b m c : b < 2 ^ k -> j <= k -> m < 2 ^ (k - j) ->
  N.land (N.shiftr (b + 2 ^ k * a) j) (m + 2 ^ k * c)
  = N.land (N.shiftr b j) m + 2 ^ k * N.land (N.shiftr a j) c.
Proof.
  intros Hb Hj Hm.
  assert (2 ^ k = 2 ^ j * 2 ^ (k - j)) as Hk by (rewrite <- N.pow_add_r; f_equal; lia).
  assert (2 ^ j <> 0) by (by apply N.pow_nonzero).
  assert (N.shiftr b j < 2 ^ (k - j)) as Hbj.
  { rewrite N.shiftr_div_pow2. apply N.Div0.div_lt_upper_bound. lia. }
  assert (m < 2 ^ k) as Hmk by (rewrite Hk; nia).
  pose proof (N.mod_lt a (2 ^ j) ltac:(done)) as Ha.
  assert (N.shiftr (b + 2 ^ k * a) j = (N.shiftr b j + 2 ^ (k - j) * (a mod 2 ^ j)) + 2 ^ k * N.shiftr a j) as ->.
  { rewrite !N.shiftr_div_pow2. rewrite Hk at 1.
    replace (b + 2 ^ j * 2 ^ (k - j) * a) with (b + (2 ^ (k - j) * a) * 2 ^ j) by lia.
    rewrite N.div_add by done. rewrite Hk. pose proof (N.div_mod' a (2 ^ j)). nia. }
  rewrite land_digits; [|rewrite Hk; nia|done]. f_equal.
  pose proof (land_digits (k - j) (a mod 2 ^ j) (N.shiftr b j) 0 m Hbj Hm) as Hl.
  rewrite N.mul_0_r, N.add_0_r, N.land_0_r, N.mul_0_r, N.add_0_r in Hl. exact Hl.
Qed.

(** A word from its four bytes. *)
Definition word32 (b0 b1 b2 b3 : N) : N := b0 + 256 * (b1 + 256 * (b2 + 256 * b3)).

Lemma word32_bytes x : x < 2 ^ 32 -> exists b0 b1 b2 b3,
  x = word32 b0 b1 b2 b3 /\ b0 < 256 /\ b1 < 256 /\ b2 < 256 /\ b3 < 256.
Proof.
  intros Hx. change (2 ^ 32) with 4294967296 in Hx.
  exists (x mod 256), (x / 256 mod 256), (x / 65536 mod 256), (x / 16777216).
  unfold word32. pose proof (N.div_mod' x 256). pose proof (N.div_mod' (x / 256) 256).
  pose proof (N.div_mod' (x / 65536) 256). rewrite !N.Div0.div_div in *.
  change (256 * 256) with 65536 in *. change (65536 * 256) with 16777216 in *.
  pose proof (N.mod_lt x 256). pose proof (N.mod_lt (x / 256) 256). pose proof (N.mod_lt (x / 65536) 256).
  split_and!; [lia|lia|lia|lia|]. apply N.Div0.div_lt_upper_bound. lia.
Qed.

(** A mask on the bytes of a word. *)
Lemma land_shift_word32 j m b0 b1 b2 b3 :
  j <= 8 -> m < 2 ^ (8 - j) -> b0 < 256 -> b1 < 256 -> b2 < 256 -> b3 < 256 ->
  N.land (N.shiftr (word32 b0 b1 b2 b3) j) (word32 m m m m) =
  word32 (N.land (N.shiftr b0 j) m) (N.land (N.shiftr b1 j) m) (N.land (N.shiftr b2 j) m)
    (N.land (N.shiftr b3 j) m).
Proof.
  intros Hj Hm H0 H1 H2 H3. unfold word32. change 256 with (2 ^ 8).
  by rewrite !(land_shift_digits 8 j) by done.
Qed.

Lemma land_word32 m b0 b1 b2 b3 :
  m < 256 -> b0 < 256 -> b1 < 256 -> b2 < 256 -> b3 < 256 ->
  N.land (word32 b0 b1 b2 b3) (word32 m m m m) =
  word32 (N.land b0 m) (N.land b1 m) (N.land b2 m) (N.land b3 m).
Proof.
  intros Hm H0 H1 H2 H3. pose proof (land_shift_word32 0 m b0 b1 b2 b3) as Hl.
  rewrite !N.shiftr_0_r in Hl. by apply Hl.
Qed.

(** What the steps of [bitCount] do to a byte. *)
Definition byte_pairs (b : N) : N := b - N.land (N.shiftr b 1) 0x55.
Definition byte_nibbles (b : N) : N := N.land b 0x33 + N.land (N.shiftr b 2) 0x33.
Definition byte_count (b : N) : N := N.land (b + N.shiftr b 4) 0xF.

Definition byte_steps_ok (b : N) : bool :=
  (N.land (N.shiftr b 1) 0x55 <=? b) && (byte_pairs b <? 256) && (byte_nibbles (byte_pairs b) <=? 68)
  && (byte_nibbles (byte_pairs b) mod 16 <=? 4)
  && (byte_count (byte_nibbles (byte_pairs b)) =? popcount 8 b)
  && (byte_count (byte_nibbles (byte_pairs b)) <=? 8).

Lemma byte_steps b : b < 256 -> byte_steps_ok b = true.
Proof.
  intros Hb. assert (forallb byte_steps_ok (for_range 0 256) = true) as Hall by (by vm_compute).
  rewrite forallb_forall in Hall. apply Hall, list_elem_of_In, elem_of_for_range. lia.
Qed.

Lemma bitCount32_word32 b0 b1 b2 b3 : b0 < 256 -> b1 < 256 -> b2 < 256 -> b3 < 256 ->
  bitCount32 (word32 b0 b1 b2 b3) = popcount 8 b0 + popcount 8 b1 + popcount 8 b2 + popcount 8 b3.
Proof.
  intros H0 H1 H2 H3. unfold bitCount32.
  pose proof (byte_steps b0 H0) as S0. pose proof (byte_steps b1 H1) as S1.
  pose proof (byte_steps b2 H2) as S2. pose proof (byte_steps b3 H3) as S3.
  unfold byte_steps_ok in *. breflect.
  repeat match goal with H : byte_count _ = popcount 8 _ |- _ => rewrite <- H; clear H end.
  change 0x55555555 with (word32 0x55 0x55 0x55 0x55). change 0x33333333 with (word32 0x33 0x33 0x33 0x33).
  rewrite land_shift_word32 by done.
  replace (wrap32 (word32 b0 b1 b2 b3 + 4294967296 - _)) with
    (word32 (byte_pairs b0) (byte_pairs b1) (byte_pairs b2) (byte_pairs b3)).
  2: { symmetry. unfold byte_pairs in *. set (m0 := N.land (N.shiftr b0 1) 85) in *.
       set (m1 := N.land (N.shiftr b1 1) 85) in *. set (m2 := N.land (N.shiftr b2 1) 85) in *.
       set (m3 := N.land (N.shiftr b3 1) 85) in *. unfold word32 in *.
       replace (_ - _) with (b0 - m0 + 256 * (b1 - m1 + 256 * (b2 - m2 + 256 * (b3 - m3))) + 1 * 4294967296) by lia.
       unfold wrap32. change (2 ^ 32) with 4294967296. rewrite N.Div0.mod_add. apply N.mod_small. lia. }
  set (p0 := byte_pairs b0) in *. set (p1 := byte_pairs b1) in *.
  set (p2 := byte_pairs b2) in *. set (p3 := byte_pairs b3) in *.
  rewrite !land_shift_word32, !land_word32 by done.
  replace (word32 _ _ _ _ + word32 _ _ _ _) with
    (word32 (byte_nibbles p0) (byte_nibbles p1) (byte_nibbles p2) (byte_nibbles p3))
    by (unfold word32, byte_nibbles; lia).
  set (q0 := byte_nibbles p0) in *. set (q1 := byte_nibbles p1) in *.
  set (q2 := byte_nibbles p2) in *. set (q3 := byte_nibbles p3) in *.
  clearbody q0 q1 q2 q3. clear H0 H1 H2 H3.
  rewrite (wrap32_id (word32 q0 q1 q2 q3)) by (unfold word32; lia).
  assert (wrap32 (word32 q0 q1 q2 q3 + N.shiftr (word32 q0 q1 q2 q3) 4) =
    word32 (q0 + N.shiftr q0 4 + 16 * (q1 mod 16)) (q1 + N.shiftr q1 4 + 16 * (q2 mod 16))
      (q2 + N.shiftr q2 4 + 16 * (q3 mod 16)) (q3 + N.shiftr q3 4)) as ->.
  { rewrite !N.shiftr_div_pow2. change (2 ^ 4) with 16.
    pose proof (N.div_mod' q0 16). pose proof (N.div_mod' q1 16). pose proof (N.div_mod' q2 16).
    pose proof (N.div_mod' q3 16). pose proof (N.mod_lt q0 16). pose proof (N.mod_lt q1 16).
    pose proof (N.mod_lt q2 16). pose proof (N.mod_lt q3 16).
    assert (word32 q0 q1 q2 q3 / 16 = q0 / 16 + 16 * (q1 + 256 * (q2 + 256 * q3))) as ->.
    { unfold word32. replace (q0 + _) with (q0 + 16 * (q1 + 256 * (q2 + 256 * q3)) * 16) by lia.
      by rewrite N.div_add. }
    set (d0 := q0 / 16) in *. set (d1 := q1 / 16) in *. set (d2 := q2 / 16) in *. set (d3 := q3 / 16) in *.
    set (m0 := q0 mod 16) in *. set (m1 := q1 mod 16) in *. set (m2 := q2 mod 16) in *.
    set (m3 := q3 mod 16) in *. clearbody d0 d1 d2 d3 m0 m1 m2 m3.
    rewrite wrap32_id; unfold word32; lia. }
  assert (forall q r, q <= 68 -> N.land (q + N.shiftr q 4 + 16 * (r mod 16)) 0xF = byte_count q) as Hmask.
  { intros q r _. unfold byte_count. change 0xF with (N.ones 4). rewrite !N.land_ones.
    rewrite (N.mul_comm 16). change (2 ^ 4) with 16. by rewrite N.Div0.mod_add. }
  change 0xF0F0F0F with (word32 0xF 0xF 0xF 0xF).
  assert (forall r, r mod 16 < 16) as Hr by (intros; by apply N.mod_lt).
  pose proof (Hr q1). pose proof (Hr q2). pose proof (Hr q3).
  assert (forall q, q <= 68 -> N.shiftr q 4 <= 4) as Hsh.
  { intros q Hq. rewrite N.shiftr_div_pow2. change (2 ^ 4) with 16.
    apply N.lt_succ_r, N.Div0.div_lt_upper_bound. lia. }
  pose proof (Hsh q0). pose proof (Hsh q1). pose proof (Hsh q2). pose proof (Hsh q3).
  rewrite land_word32 by (done || lia). rewrite !Hmask by done. fold (byte_count q3).
  set (c0 := byte_count q0) in *. set (c1 := byte_count q1) in *.
  set (c2 := byte_count q2) in *. set (c3 := byte_count q3) in *.
  replace (word32 c0 c1 c2 c3 * 0x1010101) with
    ((c0 + 256 * (c0 + c1) + 65536 * (c0 + c1 + c2) + 16777216 * (c0 + c1 + c2 + c3))
     + (c1 + c2 + c3 + 256 * (c2 + c3) + 65536 * c3) * 2 ^ 32)
    by (unfold word32; change (2 ^ 32) with 4294967296; lia).
  unfold wrap32. rewrite N.Div0.mod_add, N.mod_small by (change (2 ^ 32) with 4294967296; lia).
  rewrite N.shiftr_div_pow2. change (2 ^ 24) with 16777216.
  replace (c0 + _ + _ + _) with ((c0 + 256 * (c0 + c1) + 65536 * (c0 + c1 + c2)) + (c0 + c1 + c2 + c3) * 16777216) by lia.
  rewrite N.div_add, N.div_small by lia. lia.
Qed.

(** ** [bitCount] counts bits *)

Lemma popcount_app n m x : popcount (n + m) x = popcount n x + popcount m (N.shiftr x (N.of_nat n)).
Proof.
  revert x. induction n as [|n IH]; intros x; [by rewrite N.shiftr_0_r|].
  cbn [Nat.add popcount]. rewrite IH, N.div2_spec, N.shiftr_shiftr.
  replace (1 + N.of_nat n) with (N.of_nat (S n)) by lia. lia.
Qed.

Lemma popcount_ext n x y :
  (forall i, i < N.of_nat n -> N.testbit x i = N.testbit y i) -> popcount n x = popcount n y.
Proof.
  revert x y. induction n as [|n IH]; intros x y Hxy; [done|]. cbn [popcount].
  f_equal.
  - f_equal. rewrite <- !N.bit0_odd. apply Hxy. lia.
  - apply IH. intros i Hi. rewrite !N.div2_spec, !N.shiftr_spec by lia. apply Hxy. lia.
Qed.

Lemma bitCount32_popcount x : x < 2 ^ 32 -> bitCount32 x = popcount 32 x.
Proof.
  intros Hx. destruct (word32_bytes x Hx) as (b0 & b1 & b2 & b3 & -> & H0 & H1 & H2 & H3).
  rewrite bitCount32_word32 by done.
  change 32%nat with (8 + (8 + (8 + 8)))%nat. rewrite !popcount_app, !N.shiftr_shiftr.
  change (N.of_nat 8) with 8. change (8 + 8) with 16. change (8 + 16) with 24. change (16 + 8) with 24.
  unfold word32. change 256 with (2 ^ 8) in *.
  assert (forall a b n, b < 2 ^ 8 -> N.shiftr (b + 2 ^ 8 * a) (8 + n) = N.shiftr a n) as Hs.
  { intros a b n Hb. rewrite <- N.shiftr_shiftr. f_equal. rewrite N.shiftr_div_pow2, N.mul_comm.
    by rewrite N.div_add, N.div_small. }
  assert (forall a b, b < 2 ^ 8 -> popcount 8 (b + 2 ^ 8 * a) = popcount 8 b) as Hp.
  { intros a b Hb. apply popcount_ext. intros i Hi. rewrite testbit_digits by done.
    replace (i <? 8) with true; [done|]. symmetry. apply N.ltb_lt. lia. }
  pose proof (Hs (b1 + 2 ^ 8 * (b2 + 2 ^ 8 * b3)) b0 0 H0) as E1. change (8 + 0) with 8 in E1.
  pose proof (Hs (b1 + 2 ^ 8 * (b2 + 2 ^ 8 * b3)) b0 8 H0) as E2. change (8 + 8) with 16 in E2.
  pose proof (Hs (b1 + 2 ^ 8 * (b2 + 2 ^ 8 * b3)) b0 16 H0) as E3. change (8 + 16) with 24 in E3.
  rewrite E1, E2, E3, N.shiftr_0_r.
  pose proof (Hs (b2 + 2 ^ 8 * b3) b1 0 H1) as E4. change (8 + 0) with 8 in E4.
  pose proof (Hs (b2 + 2 ^ 8 * b3) b1 8 H1) as E5. change (8 + 8) with 16 in E5.
  rewrite E4, E5, N.shiftr_0_r.
  pose proof (Hs b3 b2 0 H2) as E6. change (8 + 0) with 8 in E6. rewrite E6, N.shiftr_0_r.
  rewrite !Hp by done. lia.
Qed.

Lemma bitCount64_popcount x : x < 2 ^ 64 -> bitCount64 x = popcount 64 x.
Proof.
  intros Hx. unfold bitCount64. rewrite !bitCount32_popcount by (apply wrap32_lt).
  change 64%nat with (32 + 32)%nat. rewrite popcount_app. change (N.of_nat 32) with 32.
  assert (forall y, popcount 32 (wrap32 y) = popcount 32 y) as Hw; [|by rewrite !Hw].
  intros y. apply popcount_ext. intros i Hi. unfold wrap32. by apply N.mod_pow2_bits_low.
Qed.

(** The branch-free [bitCount] of [StdLibExtras.h], on 32 and on 64 bits, is the number of
    the bits that are set. *)
Theorem bitCount_spec (x : N) :
  (x < 2 ^ 32 -> bitCount32 x = popcount 32 x) /\ (x < 2 ^ 64 -> bitCount64 x = popcount 64 x).
Proof. split; [apply bitCount32_popcount|apply bitCount64_popcount]. Qed.

Lemma bitCount_spec_witness :
  bitCount32 0xF0F1 = popcount 32 0xF0F1 /\ bitCount64 0x8000000100000003 = popcount 64 0x8000000100000003.
Proof.
  split; [apply (proj1 (bitCount_spec 0xF0F1)); reflexivity|].
  apply (proj2 (bitCount_spec 0x8000000100000003)). reflexivity.
Defined.

(** ** The mixing functions are injective *)

Definition injective_below (w : N) (f : N -> N) : Prop :=
  (forall x, x < 2 ^ w -> f x < 2 ^ w) /\
  forall x y, x < 2 ^ w -> y < 2 ^ w -> f x = f y -> x = y.

Lemma injective_compose w f g :
  injective_below w f -> injective_below w g -> injective_below w (fun x => g (f x)).
Proof. intros [Hf1 Hf2] [Hg1 Hg2]. split; eauto. Qed.

(** Multiplication by an odd number. *)
Lemma odd_mul_injective w (c d : Z) x y :
  x < 2 ^ w -> y < 2 ^ w -> Z.gcd c (2 ^ Z.of_N w) = 1%Z ->
  ((Z.of_N x * c + d) mod 2 ^ Z.of_N w = (Z.of_N y * c + d) mod 2 ^ Z.of_N w)%Z -> x = y.
Proof.
  intros Hx Hy Hgcd Heq.
  assert (0 < 2 ^ Z.of_N w)%Z as Hpos by (apply Z.pow_pos_nonneg; lia).
  assert (Z.of_N (2 ^ w) = 2 ^ Z.of_N w)%Z as Hpow by (by rewrite N2Z.inj_pow).
  assert (2 ^ Z.of_N w | c * (Z.of_N x - Z.of_N y))%Z as Hdiv.
  { replace (c * (Z.of_N x - Z.of_N y))%Z with ((Z.of_N x * c + d) - (Z.of_N y * c + d))%Z by lia.
    apply Z.mod_divide; [lia|]. rewrite Zminus_mod, Heq, Z.sub_diag. apply Z.mod_0_l. lia. }
  apply Z.gauss in Hdiv as [k Hk]; [|by rewrite Z.gcd_comm].
  assert (k = 0)%Z as -> by nia. lia.
Qed.

Lemma odd_gcd w (c : Z) : (exists j, c = 1 + 2 * j)%Z -> Z.gcd c (2 ^ Z.of_N w) = 1%Z.
Proof.
  intros [j ->]. apply (Z.coprime_pow_r (1 + 2 * j) 2); [lia|]. apply Z.coprime_Bezout.
  exists 1%Z, (- j)%Z. lia.
Qed.

Lemma sub_shl_injective w k (f : N -> N) :
  1 <= k -> (forall x, f x = (x + (2 ^ w - 1 - (N.shiftl x k) mod 2 ^ w)) mod 2 ^ w) -> injective_below w f.
Proof.
  intros Hk Hf. assert (2 ^ w <> 0) as Hw by (by apply N.pow_nonzero). split.
  - intros x _. rewrite Hf. by apply N.mod_lt.
  - intros x y Hx Hy. rewrite !Hf. intros Heq.
    apply (odd_mul_injective w (1 - 2 ^ Z.of_N k) (-1) x y Hx Hy).
    + apply odd_gcd. exists (- 2 ^ (Z.of_N k - 1))%Z.
      replace (2 ^ Z.of_N k)%Z with (2 * 2 ^ (Z.of_N k - 1))%Z; [lia|].
      rewrite <- Z.pow_succ_r by lia. f_equal. lia.
    + apply (f_equal Z.of_N) in Heq. rewrite !N2Z.inj_mod, N2Z.inj_pow in Heq.
      assert (forall z, z < 2 ^ w -> (Z.of_N (z + (2 ^ w - 1 - N.shiftl z k mod 2 ^ w)) mod 2 ^ Z.of_N w
        = (Z.of_N z * (1 - 2 ^ Z.of_N k) + -1) mod 2 ^ Z.of_N w)%Z) as Hz.
      { intros z Hz. pose proof (N.mod_lt (N.shiftl z k) (2 ^ w) Hw) as Hlt.
        pose proof (N.div_mod' (N.shiftl z k) (2 ^ w)) as Hdm.
        rewrite N.shiftl_mul_pow2 in *. set (r := (z * 2 ^ k) mod 2 ^ w) in *.
        set (q := z * 2 ^ k / 2 ^ w) in *.
        assert (Z.of_N (z + (2 ^ w - 1 - r)) = Z.of_N z * (1 - 2 ^ Z.of_N k) + -1 + (1 + Z.of_N q) * 2 ^ Z.of_N w)%Z as ->.
        { apply (f_equal Z.of_N) in Hdm. rewrite N2Z.inj_add, !N2Z.inj_mul, !N2Z.inj_pow in Hdm.
          rewrite N2Z.inj_add, !N2Z.inj_sub, N2Z.inj_pow by lia. lia. }
        apply Z.mod_add. assert (0 < 2 ^ Z.of_N w)%Z by (apply Z.pow_pos_nonneg; lia). lia. }
      by rewrite <- !Hz.
Qed.

Lemma add_shl_injective w k (f : N -> N) :
  1 <= k -> (forall x, f x = (x + (N.shiftl x k) mod 2 ^ w) mod 2 ^ w) -> injective_below w f.
Proof.
  intros Hk Hf. assert (2 ^ w <> 0) as Hw by (by apply N.pow_nonzero). split.
  - intros x _. rewrite Hf. by apply N.mod_lt.
  - intros x y Hx Hy. rewrite !Hf. intros Heq.
    apply (odd_mul_injective w (1 + 2 ^ Z.of_N k) 0 x y Hx Hy).
    + apply odd_gcd. exists (2 ^ (Z.of_N k - 1))%Z.
      replace (2 ^ Z.of_N k)%Z with (2 * 2 ^ (Z.of_N k - 1))%Z; [lia|].
      rewrite <- Z.pow_succ_r by lia. f_equal. lia.
    + assert (forall z, (Z.of_N z * (1 + 2 ^ Z.of_N k) + 0) mod 2 ^ Z.of_N w
        = Z.of_N ((z + (N.shiftl z k) mod 2 ^ w) mod 2 ^ w))%Z as Hz.
      { intros z. rewrite N.Div0.add_mod_idemp_r, N2Z.inj_mod, N2Z.inj_pow, N.shiftl_mul_pow2.
        f_equal. rewrite N2Z.inj_add, N2Z.inj_mul, N2Z.inj_pow. lia. }
      by rewrite !Hz, Heq.
Qed.

Lemma xor_shr_injective w k (f : N -> N) :
  1 <= k -> (forall x, f x = N.lxor x (N.shiftr x k)) -> injective_below w f.
Proof.
  intros Hk Hf. assert (forall x i, x < 2 ^ w -> w <= i -> N.testbit x i = false) as Hhigh.
  { intros x i Hx Hi. destruct (decide (x = 0)) as [->|]; [apply N.bits_0|].
    apply N.bits_above_log2. eapply N.lt_le_trans; [|exact Hi]. apply N.log2_lt_pow2; [lia|done]. }
  split.
  - intros x Hx. rewrite Hf. destruct (decide (N.lxor x (N.shiftr x k) = 0)) as [->|Hne];
      [by apply N.neq_0_lt_0, N.pow_nonzero|]. apply N.log2_lt_pow2; [lia|].
    apply N.nle_gt. intros Hle. pose proof (N.bit_log2 _ Hne) as Hb.
    rewrite N.lxor_spec, N.shiftr_spec', !Hhigh in Hb by (done || lia). done.
  - intros x y Hx Hy Heq. rewrite !Hf in Heq.
    assert (forall d i, w <= i + d -> N.testbit x i = N.testbit y i) as Hbits.
    { intros d. induction d as [|d IH] using N.peano_ind; intros i Hi; [rewrite !Hhigh by (done || lia); done|].
      apply (f_equal (fun z => N.testbit z i)) in Heq. rewrite !N.lxor_spec, !N.shiftr_spec' in Heq.
      rewrite (IH (i + k)) in Heq by lia. by apply xorb_move_l_r_2 in Heq; destruct (N.testbit x i), (N.testbit y i), (N.testbit y (i + k)). }
    apply N.bits_inj. intros i. apply (Hbits w). lia.
Qed.

Lemma not_shl32 x k : wrap32 (x + not32 (shl32 x k)) = (x + (2 ^ 32 - 1 - (N.shiftl x k) mod 2 ^ 32)) mod 2 ^ 32.
Proof. unfold not32, shl32. rewrite wrap32_idemp. done. Qed.

Lemma not_shl64 x k : wrap64 (x + not64 (shl64 x k)) = (x + (2 ^ 64 - 1 - (N.shiftl x k) mod 2 ^ 64)) mod 2 ^ 64.
Proof. unfold not64, shl64, wrap64. rewrite N.Div0.mod_mod. done. Qed.

Lemma injective_steps w (steps : list (N -> N)) :
  Forall (injective_below w) steps -> injective_below w (fun x => foldl (fun x f => f x) x steps).
Proof.
  induction 1 as [|f steps Hf _ IH]; [by split|]. exact (injective_compose w f _ Hf IH).
Qed.

Lemma mix32_injective : injective_below 32 intHash32.
Proof.
  apply (injective_steps 32
    [(fun x => wrap32 (x + not32 (shl32 x 15))); (fun x => N.lxor x (N.shiftr x 10));
     (fun x => wrap32 (x + shl32 x 3)); (fun x => N.lxor x (N.shiftr x 6));
     (fun x => wrap32 (x + not32 (shl32 x 11))); (fun x => N.lxor x (N.shiftr x 16))]).
  repeat apply Forall_cons_2; [..|apply Forall_nil_2].
  - apply (sub_shl_injective 32 15); [lia|]. intros x. apply not_shl32.
  - by apply (xor_shr_injective 32 10).
  - by apply (add_shl_injective 32 3).
  - by apply (xor_shr_injective 32 6).
  - apply (sub_shl_injective 32 11); [lia|]. intros x. apply not_shl32.
  - by apply (xor_shr_injective 32 16).
Qed.

Lemma mix64_injective : injective_below 64 mix64.
Proof.
  apply (injective_steps 64
    [(fun x => wrap64 (x + not64 (shl64 x 32))); (fun x => N.lxor x (N.shiftr x 22));
     (fun x => wrap64 (x + not64 (shl64 x 13))); (fun x => N.lxor x (N.shiftr x 8));
     (fun x => wrap64 (x + shl64 x 3)); (fun x => N.lxor x (N.shiftr x 15));
     (fun x => wrap64 (x + not64 (shl64 x 27))); (fun x => N.lxor x (N.shiftr x 31))]).
  repeat apply Forall_cons_2; [..|apply Forall_nil_2].
  - apply (sub_shl_injective 64 32); [lia|]. intros x. apply not_shl64.
  - by apply (xor_shr_injective 64 22).
  - apply (sub_shl_injective 64 13); [lia|]. intros x. apply not_shl64.
  - by apply (xor_shr_injective 64 8).
  - by apply (add_shl_injective 64 3).
  - by apply (xor_shr_injective 64 15).
  - apply (sub_shl_injective 64 27); [lia|]. intros x. apply not_shl64.
  - by apply (xor_shr_injective 64 31).
Qed.

(** The mixing functions of [intHash] lose no key: on 32 bits (hence on 8 and on 16)
    and, before the result is cut to an [unsigned], on 64 bits, two keys with the
    same hash are equal, and the result is within the width. *)
Theorem intHash_injective :
  injective_below 32 intHash32 /\ injective_below 64 mix64 /\
  (forall x y, x < 2 ^ 8 -> y < 2 ^ 8 -> intHash8 x = intHash8 y -> x = y) /\
  (forall x y, x < 2 ^ 16 -> y < 2 ^ 16 -> intHash16 x = intHash16 y -> x = y).
Proof.
  split; [apply mix32_injective|]. split; [apply mix64_injective|].
  split; intros x y Hx Hy; unfold intHash8, intHash16; rewrite ?wrap8_id, ?wrap16_id by done;
    apply mix32_injective; etrans; try done.
Qed.

(** [pairIntHash] keeps the low bits of the product: the sizes of its shift are in
    bytes, where the high half would take a shift by 32 bits. *)
Lemma pairIntHash_low_bits key1 key2 :
  pairIntHash key1 key2 =
  wrap32 (wrap64 (19248658165952622 * wrap32 (277951225 * key1 + 95187966 * key2)) / 16).
Proof. unfold pairIntHash. rewrite N.shiftr_div_pow2. done. Qed.

Example pairIntHash_not_high_half :
  pairIntHash 1 0 <> N.shiftr (wrap64 (19248658165952622 * wrap32 277951225)) 32.
Proof. by vm_compute. Qed.
