(* ===== verification/StringHasher.v ===== *)
(** * [WTF/wtf/StringHasher.h]: the hash of a text

    A hasher takes the characters of a text one at a time, in pairs or in runs, and
    mixes them two at a time, so that it may keep one for later.  The theorem at
    the end says that how a text was fed to it does not matter. *)

From S2P Require Import Prelude HashFunctions.

(** WTF/wtf/StringHasher.h:39-39 [stringHashingStartValue] *)
Definition stringHashingStartValue : N := 0x9E3779B9.

(** WTF/wtf/StringHasher.h:43-43 [StringHasher::flagCount] *)
Definition flagCount : N := 8.

(** WTF/wtf/StringHasher.h:288-290 [StringHasher] *)
Record StringHasher := mkHasher {
  m_hash : N;
  m_hasPendingCharacter : bool;
  m_pendingCharacter : N
}.

(** WTF/wtf/StringHasher.h:45-50 [StringHasher::StringHasher] *)
Definition StringHasher_new : StringHasher := mkHasher stringHashingStartValue false 0.

(** WTF/wtf/StringHasher.h:55-61 [StringHasher::addCharactersAssumingAligned], of two characters *)
Definition addTwoAssumingAligned (a b : N) (h : StringHasher) : StringHasher :=
  let m_hash := wrap32 (m_hash h + a) in
  let m_hash := N.lxor (shl32 m_hash 16) (N.lxor (shl32 b 11) m_hash) in
  let m_hash := wrap32 (m_hash + N.shiftr m_hash 11) in
  mkHasher m_hash (m_hasPendingCharacter h) (m_pendingCharacter h).

(** [m_hasPendingCharacter = value]. *)
Definition set_pending (value : bool) (h : StringHasher) : StringHasher := mkHasher (m_hash h) value (m_pendingCharacter h).

(** WTF/wtf/StringHasher.h:63-73 [StringHasher::addCharacter] *)
Definition addCharacter (character : N) (h : StringHasher) : StringHasher :=
  if m_hasPendingCharacter h then addTwoAssumingAligned (m_pendingCharacter h) character (set_pending false h)
  else mkHasher (m_hash h) true character.

(** WTF/wtf/StringHasher.h:75-90 [StringHasher::addCharacters], of two characters; without assertions the
    flag stays set *)
Definition addTwoCharacters (a b : N) (h : StringHasher) : StringHasher :=
  if m_hasPendingCharacter h then
    let h := addTwoAssumingAligned (m_pendingCharacter h) a h in
    mkHasher (m_hash h) (m_hasPendingCharacter h) b
  else addTwoAssumingAligned a b h.

Section Characters.
Context {T : Type} (Converter : T -> N).

(** WTF/wtf/StringHasher.h:92-106 [StringHasher::addCharactersAssumingAligned] *)
Fixpoint addCharactersAssumingAligned (data : list T) (h : StringHasher) : StringHasher :=
  match data with
  | a :: b :: data => addCharactersAssumingAligned data (addTwoAssumingAligned (Converter a) (Converter b) h)
  | [a] => addCharacter (Converter a) h
  | [] => h
  end.

(** WTF/wtf/StringHasher.h:132-140 [StringHasher::addCharacters] *)
Definition addCharacters (data : list T) (h : StringHasher) : StringHasher :=
  match data with
  | a :: rest =>
      if m_hasPendingCharacter h
      then addCharactersAssumingAligned rest (addTwoAssumingAligned (m_pendingCharacter h) (Converter a) (set_pending false h))
      else addCharactersAssumingAligned data h
  | [] => h
  end.

Context (is_null : T -> bool).

(** WTF/wtf/StringHasher.h:113-125 [StringHasher::addCharactersAssumingAligned], up to a null character;
    [None] reads beyond the memory that is given *)
Fixpoint addNullTerminatedAssumingAligned (data : list T) (h : StringHasher) : option StringHasher :=
  match data with
  | [] => None
  | a :: data =>
      if is_null a then Some h
      else
        match data with
        | [] => None
        | b :: data =>
            if is_null b then Some (addCharacter (Converter a) h)
            else addNullTerminatedAssumingAligned data (addTwoAssumingAligned (Converter a) (Converter b) h)
        end
  end.

(** WTF/wtf/StringHasher.h:147-154 [StringHasher::addCharacters], up to a null character *)
Definition addNullTerminated (data : list T) (h : StringHasher) : option StringHasher :=
  if m_hasPendingCharacter h then
    match data with
    | [] => None
    | a :: rest =>
        if is_null a then addNullTerminatedAssumingAligned data h
        else addNullTerminatedAssumingAligned rest (addTwoAssumingAligned (m_pendingCharacter h) (Converter a) (set_pending false h))
    end
  else addNullTerminatedAssumingAligned data h.
End Characters.

(** WTF/wtf/StringHasher.h:267-286 [StringHasher::avalancheBits] *)
Definition avalancheBits (h : StringHasher) : N :=
  let result := m_hash h in
  let result :=
    if m_hasPendingCharacter h then
      let result := wrap32 (result + m_pendingCharacter h) in
      let result := N.lxor result (shl32 result 11) in
      wrap32 (result + N.shiftr result 17)
    else result in
  let result := N.lxor result (shl32 result 3) in
  let result := wrap32 (result + N.shiftr result 5) in
  let result := N.lxor result (shl32 result 2) in
  let result := wrap32 (result + N.shiftr result 15) in
  N.lxor result (shl32 result 10).

(** WTF/wtf/StringHasher.h:161-177 [StringHasher::hashWithTop8BitsMasked] *)
Definition hashWithTop8BitsMasked (h : StringHasher) : N :=
  let result := N.land (avalancheBits h) (2 ^ (4 * 8 - flagCount) - 1) in
  if result =? 0 then N.shiftr 0x80000000 flagCount else result.

(** WTF/wtf/StringHasher.h:179-191 [StringHasher::hash] *)
Definition hasher_hash (h : StringHasher) : N :=
  let result := avalancheBits h in
  if result =? 0 then 0x80000000 else result.

(** WTF/wtf/StringHasher.h:193-198 [StringHasher::computeHashAndMaskTop8Bits] *)
Definition computeHashAndMaskTop8Bits {T} (Converter : T -> N) (data : list T) : N :=
  hashWithTop8BitsMasked (addCharactersAssumingAligned Converter data StringHasher_new).

(** WTF/wtf/StringHasher.h:200-205 [StringHasher::computeHashAndMaskTop8Bits], up to a null character *)
Definition computeHashAndMaskTop8Bits_null {T} (Converter : T -> N) (is_null : T -> bool) (data : list T) : option N :=
  hashWithTop8BitsMasked <$> addNullTerminatedAssumingAligned Converter is_null data StringHasher_new.

(** WTF/wtf/StringHasher.h:217-222 [StringHasher::computeHash] *)
Definition computeHash {T} (Converter : T -> N) (data : list T) : N :=
  hasher_hash (addCharactersAssumingAligned Converter data StringHasher_new).

(** WTF/wtf/StringHasher.h:224-229 [StringHasher::computeHash], up to a null character *)
Definition computeHash_null {T} (Converter : T -> N) (is_null : T -> bool) (data : list T) : option N :=
  hasher_hash <$> addNullTerminatedAssumingAligned Converter is_null data StringHasher_new.

(** WTF/wtf/StringHasher.h:257-265 [StringHasher::defaultConverter]: the characters of 8 bits are extended *)
Definition defaultConverter (character : N) : N := character.

(** The characters of 16 bits in memory. *)
Fixpoint memory_characters (bytes : list N) : list N :=
  match bytes with
  | low :: high :: bytes => le_value [low; high] :: memory_characters bytes
  | _ => []
  end.

(** WTF/wtf/StringHasher.h:241-248 [StringHasher::hashMemory] *)
Definition hashMemory (data : list N) : N := computeHashAndMaskTop8Bits defaultConverter (memory_characters data).

(** ** The text that a hasher was given *)

(** What the pairs of a text add to a hash. *)
Fixpoint mix_pairs (cs : list N) (h : N) : N :=
  match cs with
  | a :: b :: cs => mix_pairs cs (m_hash (addTwoAssumingAligned a b (mkHasher h false 0)))
  | _ => h
  end.

(** The hasher was given [cs]: what is left of a character that was mixed does not matter. *)
Record hashed (cs : list N) (h : StringHasher) : Prop := {
  hd_hash : m_hash h = mix_pairs cs stringHashingStartValue;
  hd_pending : m_hasPendingCharacter h = Nat.odd (length cs);
  hd_character : Nat.odd (length cs) = true -> last cs = Some (m_pendingCharacter h)
}.

Lemma two_ind {A} (P : list A -> Prop) : P [] -> (forall a, P [a]) -> (forall a b l, P l -> P (a :: b :: l)) -> forall l, P l.
Proof. intros Hn H1 H2. assert (forall l, P l /\ forall a, P (a :: l)) as H by (induction l as [|b l [IH1 IH2]]; auto). intros l. apply H. Qed.

Lemma mix_pairs_app cs cs' h : Nat.odd (length cs) = false -> mix_pairs (cs ++ cs') h = mix_pairs cs' (mix_pairs cs h).
Proof. revert h. induction cs as [|a|a b cs IH] using two_ind; intros h; cbn; [done|done|apply IH]. Qed.

Lemma mix_pairs_odd cs c h : Nat.odd (length cs) = false -> mix_pairs (cs ++ [c]) h = mix_pairs cs h.
Proof. intros Hcs. by rewrite mix_pairs_app. Qed.

Lemma mix_hash a b h : m_hash (addTwoAssumingAligned a b h) = m_hash (addTwoAssumingAligned a b (mkHasher (m_hash h) false 0)).
Proof. done. Qed.

Lemma odd_snoc {A} (l : list A) x : Nat.odd (length (l ++ [x])) = negb (Nat.odd (length l)).
Proof. by rewrite length_app, Nat.add_comm, Nat.odd_succ, <- Nat.negb_odd. Qed.

Lemma hashed_new : hashed [] StringHasher_new.
Proof. by constructor. Qed.

Lemma hashed_pair cs c a h : Nat.odd (length cs) = false -> m_hash h = mix_pairs cs stringHashingStartValue -> m_hasPendingCharacter h = false ->
  hashed (cs ++ [c; a]) (addTwoAssumingAligned c a h).
Proof.
  intros Hcs Hh Hp. assert (Nat.odd (length (cs ++ [c; a])) = false) as Ho by (rewrite length_app, Nat.odd_add, Hcs; done).
  constructor; [|by rewrite Ho|by rewrite Ho]. rewrite mix_hash, mix_pairs_app, Hh by done. done.
Qed.

Lemma hashed_one cs c h : hashed cs h -> hashed (cs ++ [c]) (addCharacter c h).
Proof.
  intros [Hh Hp Hc]. unfold addCharacter. rewrite Hp. destruct (Nat.odd (length cs)) eqn:Ho.
  - specialize (Hc eq_refl). apply last_Some in Hc as [cs' ->]. rewrite odd_snoc in Ho. apply negb_true_iff in Ho.
    rewrite <- app_assoc. apply hashed_pair; [done| |done]. cbn. by rewrite Hh, mix_pairs_odd.
  - constructor; cbn; [by rewrite Hh, mix_pairs_odd|by rewrite odd_snoc, Ho|by rewrite last_snoc].
Qed.

Lemma hashed_two cs a b h : hashed cs h -> hashed (cs ++ [a; b]) (addTwoCharacters a b h).
Proof.
  intros [Hh Hp Hc]. unfold addTwoCharacters. rewrite Hp. destruct (Nat.odd (length cs)) eqn:Ho; [|by apply hashed_pair].
  specialize (Hc eq_refl). apply last_Some in Hc as [cs' ->]. pose proof Ho as Ho'. rewrite odd_snoc in Ho'. apply negb_true_iff in Ho'.
  replace ((cs' ++ [m_pendingCharacter h]) ++ [a; b]) with ((cs' ++ [m_pendingCharacter h; a]) ++ [b]) by (by rewrite <- !app_assoc).
  assert (Nat.odd (length (cs' ++ [m_pendingCharacter h; a])) = false) as He by (rewrite length_app, Nat.odd_add, Ho'; done).
  constructor; cbn [m_hash m_hasPendingCharacter m_pendingCharacter].
  - rewrite mix_pairs_odd by done. rewrite mix_hash, mix_pairs_app, Hh, mix_pairs_odd by done. done.
  - rewrite odd_snoc, He. cbn. rewrite Hp. done.
  - by rewrite last_snoc.
Qed.

Lemma hashed_aligned {T} (Converter : T -> N) data cs h : m_hasPendingCharacter h = false -> hashed cs h ->
  hashed (cs ++ (Converter <$> data)) (addCharactersAssumingAligned Converter data h).
Proof.
  revert cs h. induction data as [|a|a b data IH] using two_ind; intros cs h Hp Hh; cbn [addCharactersAssumingAligned fmap list_fmap].
  - by rewrite app_nil_r.
  - by apply hashed_one.
  - replace (cs ++ Converter a :: Converter b :: (Converter <$> data)) with ((cs ++ [Converter a; Converter b]) ++ (Converter <$> data)) by (by rewrite <- app_assoc).
    apply IH; [done|]. pose proof (hd_pending _ _ Hh) as Ho. rewrite Hp in Ho. apply hashed_pair; [done|apply Hh|done].
Qed.

Lemma hashed_many {T} (Converter : T -> N) data cs h : hashed cs h -> hashed (cs ++ (Converter <$> data)) (addCharacters Converter data h).
Proof.
  intros Hh. unfold addCharacters. destruct data as [|a data]; [by rewrite app_nil_r|].
  destruct (m_hasPendingCharacter h) eqn:Hp; [|by apply hashed_aligned].
  replace (cs ++ (Converter <$> a :: data)) with ((cs ++ [Converter a]) ++ (Converter <$> data)) by (by rewrite <- app_assoc).
  apply hashed_aligned; [done|]. pose proof (hashed_one cs (Converter a) h Hh) as H. unfold addCharacter in H. by rewrite Hp in H.
Qed.

Lemma hashed_null {T} (Converter : T -> N) is_null data rest z cs h : m_hasPendingCharacter h = false -> hashed cs h ->
  Forall (fun c => is_null c = false) data -> is_null z = true ->
  exists h', addNullTerminatedAssumingAligned Converter is_null (data ++ z :: rest) h = Some h' /\ hashed (cs ++ (Converter <$> data)) h'.
Proof.
  intros Hp Hh Hd Hz. exists (addCharactersAssumingAligned Converter data h). split; [|by apply hashed_aligned].
  clear Hp Hh. revert h Hd. induction data as [|a|a b data IH] using two_ind; intros h Hd; cbn.
  - by rewrite Hz.
  - apply Forall_cons in Hd as [-> _]. by rewrite Hz.
  - apply Forall_cons in Hd as [-> [-> Hd]%Forall_cons]. by apply IH.
Qed.

Lemma hashed_many_null {T} (Converter : T -> N) is_null data rest z cs h : hashed cs h ->
  Forall (fun c => is_null c = false) data -> is_null z = true ->
  exists h', addNullTerminated Converter is_null (data ++ z :: rest) h = Some h' /\ hashed (cs ++ (Converter <$> data)) h'.
Proof.
  intros Hh Hd Hz. unfold addNullTerminated. destruct (m_hasPendingCharacter h) eqn:Hp; [|by apply hashed_null].
  destruct data as [|a data]; cbn [app].
  - rewrite Hz. cbn. rewrite Hz, app_nil_r. by exists h.
  - apply Forall_cons in Hd as [Ha Hd]. rewrite Ha. pose proof (hashed_one cs (Converter a) h Hh) as H. unfold addCharacter in H. rewrite Hp in H.
    destruct (hashed_null Converter is_null data rest z _ _ (eq_refl : m_hasPendingCharacter (addTwoAssumingAligned _ _ (set_pending false h)) = false) H Hd Hz) as (h' & E & Hh').
    exists h'. split; [done|]. by rewrite <- app_assoc in Hh'.
Qed.

(** Two hashers with the same text answer the same. *)
Lemma hashed_avalanche cs h h' : hashed cs h -> hashed cs h' -> avalancheBits h = avalancheBits h'.
Proof.
  intros [Hh Hp Hc] [Hh' Hp' Hc']. unfold avalancheBits. rewrite Hh, Hh', Hp, Hp'. destruct (Nat.odd (length cs)); [|done].
  specialize (Hc eq_refl). rewrite (Hc' eq_refl) in Hc. by injection Hc as ->.
Qed.

Lemma hashed_compute cs : hashed cs (addCharactersAssumingAligned defaultConverter cs StringHasher_new).
Proof. pose proof (hashed_aligned defaultConverter cs [] StringHasher_new eq_refl hashed_new) as H. cbn [app] in H. by rewrite list_fmap_id in H. Qed.

(** ** Feeding a hasher *)

(** The operations that add characters, and the characters. *)
Inductive hasher_op :=
  | AddCharacter (c : N)
  | AddTwoCharacters (a b : N)
  | AddCharacters (cs : list N)
  | AddNullTerminated (cs : list N).

Definition op_characters (op : hasher_op) : list N :=
  match op with AddCharacter c => [c] | AddTwoCharacters a b => [a; b] | AddCharacters cs => cs | AddNullTerminated cs => cs end.

(** A text that ends with a null character has no other. *)
Definition op_ok (op : hasher_op) : Prop :=
  match op with AddNullTerminated cs => Forall (fun c => c <> 0) cs | _ => True end.

Definition run_hasher_op (op : hasher_op) (h : StringHasher) : option StringHasher :=
  match op with
  | AddCharacter c => Some (addCharacter c h)
  | AddTwoCharacters a b => Some (addTwoCharacters a b h)
  | AddCharacters cs => Some (addCharacters defaultConverter cs h)
  | AddNullTerminated cs => addNullTerminated defaultConverter (N.eqb 0) (cs ++ [0]) h
  end.

Fixpoint run_hasher (ops : list hasher_op) (h : StringHasher) : option StringHasher :=
  match ops with [] => Some h | op :: ops => h ← run_hasher_op op h; run_hasher ops h end.

Lemma hashed_op op cs h : op_ok op -> hashed cs h -> exists h', run_hasher_op op h = Some h' /\ hashed (cs ++ op_characters op) h'.
Proof.
  intros Hop Hh. destruct op as [c|a b|cs'|cs']; cbn [run_hasher_op op_characters op_ok] in *.
  - eexists. split; [done|by apply hashed_one].
  - eexists. split; [done|by apply hashed_two].
  - eexists. split; [done|]. pose proof (hashed_many defaultConverter cs' cs h Hh) as H. by rewrite list_fmap_id in H.
  - destruct (hashed_many_null defaultConverter (N.eqb 0) cs' [] 0 cs h Hh) as (h' & E & H).
    { eapply Forall_impl; [exact Hop|]. intros c Hc. apply N.eqb_neq. congruence. }
    { done. }
    exists h'. split; [done|]. by rewrite list_fmap_id in H.
Qed.

Lemma hashed_ops ops cs h : Forall op_ok ops -> hashed cs h -> exists h', run_hasher ops h = Some h' /\ hashed (cs ++ (ops ≫= op_characters)) h'.
Proof.
  intros Hops. revert cs h. induction Hops as [|op ops Hop Hops IH]; intros cs h Hh.
  - exists h. split; [done|]. by rewrite app_nil_r.
  - destruct (hashed_op op cs h Hop Hh) as (h1 & E1 & H1). destruct (IH _ _ H1) as (h2 & E2 & H2). exists h2.
    rewrite bind_cons, app_assoc. split; [|done]. cbn [run_hasher]. by rewrite E1.
Qed.

Lemma masked_bounds h : 0 < hashWithTop8BitsMasked h < 2 ^ 24.
Proof.
  unfold hashWithTop8BitsMasked. change (2 ^ (4 * 8 - flagCount) - 1) with (N.ones 24). rewrite N.land_ones.
  pose proof (N.mod_upper_bound (avalancheBits h) (2 ^ 24) ltac:(done)). destruct (_ =? 0) eqn:E; breflect; [done|]. split; [by apply N.neq_0_lt_0|done].
Qed.

(** C38: the hash of a text does not depend on how the text was given to the hasher: one
    character at a time, in pairs, in runs of any length, or up to a null
    character; it is the hash that is computed of the whole text, it is never 0, and
    its top 8 bits are free for the flags of the string. *)
Theorem hasher_refines (ops : list hasher_op) :
  Forall op_ok ops -> exists h, run_hasher ops StringHasher_new = Some h /\
    hashWithTop8BitsMasked h = computeHashAndMaskTop8Bits defaultConverter (ops ≫= op_characters) /\
    hasher_hash h = computeHash defaultConverter (ops ≫= op_characters) /\
    0 < hashWithTop8BitsMasked h < 2 ^ 24 /\ hasher_hash h <> 0.
Proof.
  intros Hops. destruct (hashed_ops ops [] _ Hops hashed_new) as (h & E & Hh). exists h. cbn [app] in Hh.
  pose proof (hashed_avalanche _ _ _ Hh (hashed_compute _)) as Ha.
  assert (hasher_hash h <> 0) as Hn by (unfold hasher_hash; destruct (_ =? 0) eqn:E'; breflect; done).
  split_and!; [done| | |apply masked_bounds|apply masked_bounds|done].
  - unfold computeHashAndMaskTop8Bits, hashWithTop8BitsMasked. by rewrite Ha.
  - unfold computeHash, hasher_hash. by rewrite Ha.
Qed.

Lemma hasher_refines_witness :
  exists h, run_hasher [AddCharacter 97; AddNullTerminated [98; 99; 100]; AddTwoCharacters 101 102] StringHasher_new = Some h /\
    hashWithTop8BitsMasked h = computeHashAndMaskTop8Bits defaultConverter [97; 98; 99; 100; 101; 102].
Proof.
  destruct (hasher_refines [AddCharacter 97; AddNullTerminated [98; 99; 100]; AddTwoCharacters 101 102]) as (h & E & H & _); [repeat constructor; discriminate|].
  exists h. split; [exact E|exact H].
Defined.
