(* ===== verification/BitVector.v ===== *)
(** * [WTF/wtf/BitVector.h] and [BitVector.cpp]

    A bit vector is one word, whose highest bit tells that it is not a pointer, or
    a vector of words.  Words have 64 bits.  [None] is an access outside of the
    words.  The two marks of hash tables that are not bit vectors (the empty and
    the deleted value) are not modelled. *)

From S2P Require Import Prelude HashFunctions.

(** ** Data *)

(** WTF/wtf/BitVector.h:416-434 [BitVector::OutOfLineBits]; the number of bits is
    64 times the number of words ([create] rounds it up) *)
Inductive BitVector :=
| Inline (m_bitsOrPointer : N)
| OutOfLine (words : list N).

(** WTF/wtf/BitVector.h:325-328 [BitVector::bitsInPointer] *)
Definition bitsInPointer : N := 64.

(** WTF/wtf/BitVector.h:330-333 [BitVector::maxInlineBits] *)
Definition maxInlineBits : N := bitsInPointer - 1.

(** WTF/wtf/BitVector.h:340-344 [BitVector::makeInlineBits] *)
Definition makeInlineBits (bits : N) : N := N.lor bits (N.shiftl 1 maxInlineBits).

(** WTF/wtf/BitVector.h:346-349 [BitVector::cleanseInlineBits] *)
Definition cleanseInlineBits (bits : N) : N := N.ldiff bits (N.shiftl 1 maxInlineBits).

(** WTF/wtf/BitVector.h:436-436 [BitVector::isInline] *)
Definition isInline (v : BitVector) : bool := match v with Inline _ => true | OutOfLine _ => false end.

(** WTF/wtf/BitVector.h:455-467 [BitVector::bits] *)
Definition bits (v : BitVector) : list N := match v with Inline m => [m] | OutOfLine words => words end.

(** Replaces the words. *)
Definition with_bits (v : BitVector) (words : list N) : option BitVector :=
  match v with
  | Inline _ => match words with [m] => Some (Inline m) | _ => None end
  | OutOfLine _ => Some (OutOfLine words)
  end.

(** WTF/wtf/BitVector.h:419-419 [BitVector::OutOfLineBits::numWords] *)
Definition numWords (words : list N) : N := N.of_nat (length words).

(** WTF/wtf/BitVector.h:96-101 [BitVector::size] *)
Definition size (v : BitVector) : N :=
  match v with Inline _ => maxInlineBits | OutOfLine words => bitsInPointer * numWords words end.

(** WTF/wtf/BitVector.h:62-65 [BitVector::BitVector] *)
Definition emptyBitVector : BitVector := Inline (makeInlineBits 0).

(** ** Sizes *)

(** WTF/wtf/BitVector.cpp:75-81 [BitVector::OutOfLineBits::create], the number of words *)
Definition create_numWords (numBits : N) : N :=
  N.ldiff (numBits + bitsInPointer - 1) (bitsInPointer - 1) / bitsInPointer.

(** WTF/wtf/BitVector.cpp:88-107 [BitVector::resizeOutOfLine] *)
Definition resizeOutOfLine (v : BitVector) (numBits : N) : BitVector :=
  let newNumWords := create_numWords numBits in
  match v with
  | Inline m => OutOfLine (N.ldiff m (N.shiftl 1 maxInlineBits) :: replicate (N.to_nat (newNumWords - 1)) 0)
  | OutOfLine words =>
      if size v <? numBits
      then OutOfLine (words ++ replicate (N.to_nat (newNumWords - numWords words)) 0)
      else OutOfLine (take (N.to_nat newNumWords) words)
  end.

(** WTF/wtf/BitVector.h:103-108 [BitVector::ensureSize] *)
Definition ensureSize (v : BitVector) (numBits : N) : BitVector :=
  if numBits <=? size v then v else resizeOutOfLine v numBits.

(** WTF/wtf/BitVector.h:67-71 [BitVector::BitVector] *)
Definition newBitVector (numBits : N) : BitVector := ensureSize emptyBitVector numBits.

(** WTF/wtf/BitVector.cpp:52-65 [BitVector::resize] *)
Definition resize (v : BitVector) (numBits : N) : option BitVector :=
  if numBits <=? maxInlineBits then
    match v with
    | Inline _ => Some v
    | OutOfLine words => w ← words !!N 0; Some (Inline (makeInlineBits w))
    end
  else Some (resizeOutOfLine v numBits).

(** WTF/wtf/BitVector.cpp:67-73 [BitVector::clearAll] *)
Definition clearAll (v : BitVector) : BitVector :=
  match v with
  | Inline _ => Inline (makeInlineBits 0)
  | OutOfLine words => OutOfLine (replicate (length words) 0)
  end.

(** WTF/wtf/BitVector.cpp:37-50 [BitVector::setSlow] *)
Definition setSlow (v other : BitVector) : BitVector :=
  match other with
  | Inline m => Inline m
  | OutOfLine words => OutOfLine (take (N.to_nat (size other / bitsInPointer)) words)
  end.

(** WTF/wtf/BitVector.h:87-94 [BitVector::operator=] *)
Definition assign (v other : BitVector) : BitVector :=
  match v, other with
  | Inline _, Inline m => Inline m
  | _, _ => setSlow v other
  end.

(** ** Bits *)

Definition bit_mask (bit : N) : N := N.shiftl 1 (N.land bit (bitsInPointer - 1)).

(** WTF/wtf/BitVector.h:115-119 [BitVector::quickGet] *)
Definition quickGet (v : BitVector) (bit : N) : option bool :=
  word ← bits v !!N (bit / bitsInPointer);
  Some (negb (N.land word (bit_mask bit) =? 0)).

(** WTF/wtf/BitVector.h:121-129 [BitVector::quickSet] *)
Definition quickSet (v : BitVector) (bit : N) : option (bool * BitVector) :=
  word ← bits v !!N (bit / bitsInPointer);
  let mask := bit_mask bit in
  let result := negb (N.land word mask =? 0) in
  words ← vec_set (bits v) (bit / bitsInPointer) (N.lor word mask);
  v ← with_bits v words;
  Some (result, v).

(** WTF/wtf/BitVector.h:131-139 [BitVector::quickClear] *)
Definition quickClear (v : BitVector) (bit : N) : option (bool * BitVector) :=
  word ← bits v !!N (bit / bitsInPointer);
  let mask := bit_mask bit in
  let result := negb (N.land word mask =? 0) in
  words ← vec_set (bits v) (bit / bitsInPointer) (N.ldiff word mask);
  v ← with_bits v words;
  Some (result, v).

(** WTF/wtf/BitVector.h:141-146 [BitVector::quickSet], with a value *)
Definition quickSet_value (v : BitVector) (bit : N) (value : bool) : option (bool * BitVector) :=
  if value then quickSet v bit else quickClear v bit.

(** WTF/wtf/BitVector.h:148-153 [BitVector::get] *)
Definition get (v : BitVector) (bit : N) : option bool :=
  if size v <=? bit then Some false else quickGet v bit.

(** WTF/wtf/BitVector.h:155-159 [BitVector::set] *)
Definition set_bit (v : BitVector) (bit : N) : option (bool * BitVector) :=
  quickSet (ensureSize v (wrap64 (bit + 1))) bit.

(** WTF/wtf/BitVector.h:161-165 [BitVector::ensureSizeAndSet] *)
Definition ensureSizeAndSet (v : BitVector) (bit size : N) : option (bool * BitVector) :=
  quickSet (ensureSize v size) bit.

(** WTF/wtf/BitVector.h:167-172 [BitVector::clear] *)
Definition clear_bit (v : BitVector) (bit : N) : option (bool * BitVector) :=
  if size v <=? bit then Some (false, v) else quickClear v bit.

(** WTF/wtf/BitVector.h:174-179 [BitVector::set], with a value *)
Definition set_value (v : BitVector) (bit : N) (value : bool) : option (bool * BitVector) :=
  if value then set_bit v bit else clear_bit v bit.

(** ** Set operations *)

(** [for (unsigned i = n; i--;) a[i] = f(a[i], b[i])] *)
Definition words_loop (f : N -> N -> N) (n : N) (a b : list N) : option (list N) :=
  foldM (fun a i => x ← a !!N i; y ← b !!N i; vec_set a i (f x y)) a (rev (for_range 0 n)).

(** [*bits() = f( *bits())] *)
Definition first_word (f : N -> N) (words : list N) : option (list N) :=
  w ← words !!N 0; vec_set words 0 (f w).

(** WTF/wtf/BitVector.cpp:109-125 [BitVector::mergeSlow] *)
Definition mergeSlow (v other : BitVector) : option BitVector :=
  match other with
  | Inline o =>
      words ← first_word (fun w => N.lor w (cleanseInlineBits o)) (bits v);
      with_bits v words
  | OutOfLine b =>
      let v := ensureSize v (size other) in
      words ← words_loop N.lor (numWords (bits v)) (bits v) b;
      with_bits v words
  end.

(** WTF/wtf/BitVector.h:181-189 [BitVector::merge] *)
Definition merge_bits (v other : BitVector) : option BitVector :=
  match v, other with
  | Inline m, Inline o => Some (Inline (N.lor m o))
  | _, _ => mergeSlow v other
  end.

(** WTF/wtf/BitVector.cpp:127-150 [BitVector::filterSlow] *)
Definition filterSlow (v other : BitVector) : option BitVector :=
  match other, v with
  | Inline o, _ =>
      words ← first_word (fun w => N.land w (cleanseInlineBits o)) (bits v);
      with_bits v words
  | OutOfLine b, Inline m =>
      w ← b !!N 0;
      Some (Inline (N.lor (N.land m w) (N.shiftl 1 maxInlineBits)))
  | OutOfLine b, OutOfLine a =>
      words ← words_loop N.land (N.min (numWords a) (numWords b)) a b;
      words ← foldM (fun words i => vec_set words i 0) words (for_range (numWords b) (numWords a));
      Some (OutOfLine words)
  end.

(** WTF/wtf/BitVector.h:191-199 [BitVector::filter] *)
Definition filter_bits (v other : BitVector) : option BitVector :=
  match v, other with
  | Inline m, Inline o => Some (Inline (N.land m o))
  | _, _ => filterSlow v other
  end.

(** WTF/wtf/BitVector.cpp:152-172 [BitVector::excludeSlow] *)
Definition excludeSlow (v other : BitVector) : option BitVector :=
  match other, v with
  | Inline o, _ =>
      words ← first_word (fun w => N.ldiff w (cleanseInlineBits o)) (bits v);
      with_bits v words
  | OutOfLine b, Inline m =>
      w ← b !!N 0;
      Some (Inline (N.lor (N.ldiff m w) (N.shiftl 1 maxInlineBits)))
  | OutOfLine b, OutOfLine a =>
      words ← words_loop N.ldiff (N.min (numWords a) (numWords b)) a b;
      Some (OutOfLine words)
  end.

(** WTF/wtf/BitVector.h:201-210 [BitVector::exclude] *)
Definition exclude_bits (v other : BitVector) : option BitVector :=
  match v, other with
  | Inline m, Inline o => Some (Inline (N.lor (N.ldiff m o) (N.shiftl 1 maxInlineBits)))
  | _, _ => excludeSlow v other
  end.

(** ** Questions *)

(** WTF/wtf/BitVector.cpp:174-182 [BitVector::bitCountSlow] *)
Definition bitCountSlow (words : list N) : N := foldl (fun result w => result + bitCount64 w) 0 (rev words).

(** WTF/wtf/BitVector.h:212-217 [BitVector::bitCount] *)
Definition bitCount (v : BitVector) : N :=
  match v with
  | Inline m => bitCount64 (cleanseInlineBits m)
  | OutOfLine words => bitCountSlow words
  end.

(** WTF/wtf/BitVector.h:401-414 [BitVector::findBitInWord], the loop; [left] is
    [endIndex - index] *)
Fixpoint findBitInWord_loop (left : nat) (word index : N) (value : bool) : option N :=
  match left with
  | O => None
  | S left' => if N.land word 1 =? N.b2n value then Some index
               else findBitInWord_loop left' (N.shiftr word 1) (index + 1) value
  end.

(** WTF/wtf/BitVector.h:401-414 [BitVector::findBitInWord]; [None] when it returns false *)
Definition findBitInWord (word index endIndex : N) (value : bool) : option N :=
  findBitInWord_loop (N.to_nat (endIndex - index)) (N.shiftr word index) index value.

(** WTF/wtf/BitVector.h:376-388 [BitVector::findBitFast], the loop over the words
    from [wordIndex] on *)
Fixpoint findBitFast_loop (words : list N) (wordIndex startIndexInWord : N) (value : bool) : option N :=
  match words with
  | [] => None
  | word :: words' =>
      let skipValue := if value then 0 else max64 in
      match (if word =? skipValue then None else findBitInWord word startIndexInWord bitsInPointer value) with
      | Some index => Some (wordIndex * bitsInPointer + index)
      | None => findBitFast_loop words' (wordIndex + 1) 0 value
      end
  end.

(** WTF/wtf/BitVector.h:358-389 [BitVector::findBitFast] *)
Definition findBitFast (v : BitVector) (startIndex : N) (value : bool) : N :=
  match v with
  | Inline m => default maxInlineBits (findBitInWord m startIndex maxInlineBits value)
  | OutOfLine words =>
      let wordIndex := startIndex / bitsInPointer in
      let startIndexInWord := startIndex - wordIndex * bitsInPointer in
      default (size v) (findBitFast_loop (drop (N.to_nat wordIndex) words) wordIndex startIndexInWord value)
  end.

(** WTF/wtf/BitVector.h:391-399 [BitVector::findBitSimple], the loop; [left] is
    [size() - index] *)
Fixpoint findBitSimple_loop (left : nat) (v : BitVector) (index : N) (value : bool) : option N :=
  match left with
  | O => Some (size v)
  | S left' => b ← get v index;
               if eqb b value then Some index else findBitSimple_loop left' v (index + 1) value
  end.

(** WTF/wtf/BitVector.h:391-399 [BitVector::findBitSimple] *)
Definition findBitSimple (v : BitVector) (index : N) (value : bool) : option N :=
  findBitSimple_loop (N.to_nat (size v - index)) v index value.

(** WTF/wtf/BitVector.h:272-322 [BitVector::SetBitsIterable], the values of the
    iterator from [index] on *)
Fixpoint setBits_loop (fuel : nat) (v : BitVector) (index : N) : list N :=
  match fuel with
  | O => []
  | S fuel' => if index =? size v then [] else index :: setBits_loop fuel' v (findBitFast v (index + 1) true)
  end.

(** WTF/wtf/BitVector.h:315-322 [BitVector::setBits] *)
Definition setBits (v : BitVector) : list N :=
  setBits_loop (N.to_nat (size v)) v (findBitFast v 0 true).

(** WTF/wtf/BitVector.cpp:228-236 [BitVector::equalsSlowCaseSimple] *)
Definition equalsSlowCaseSimple (v other : BitVector) : option bool :=
  foldM (fun (equal : bool) i =>
           if equal then a ← get v i; b ← get other i; Some (eqb a b) else Some false)
    true (rev (for_range 0 (N.max (size v) (size other)))).

(** WTF/wtf/BitVector.cpp:191-226 [BitVector::equalsSlowCaseFast] *)
Definition equalsSlowCaseFast (v other : BitVector) : option bool :=
  match v, other with
  | OutOfLine a, OutOfLine b =>
      let minNumWords := N.min (numWords a) (numWords b) in
      let longer := if numWords a <? numWords b then b else a in
      if forallb (fun w => w =? 0) (drop (N.to_nat minNumWords) longer)
      then Some (forallb (fun p => p.1 =? p.2) (zip (take (N.to_nat minNumWords) a) b))
      else Some false
  | _, _ => equalsSlowCaseSimple v other
  end.

(** WTF/wtf/BitVector.h:252-257 [BitVector::operator==] *)
Definition equals (v other : BitVector) : option bool :=
  match v, other with
  | Inline m, Inline o => Some (m =? o)
  | _, _ => equalsSlowCaseFast v other
  end.

(** WTF/wtf/BitVector.cpp:238-246 [BitVector::hashSlowCase] *)
Definition hashSlowCase (words : list N) : N := foldl N.lxor 0 (rev words).

(** WTF/wtf/BitVector.h:259-270 [BitVector::hash] *)
Definition hash (v : BitVector) : N :=
  intHash64 (match v with Inline m => cleanseInlineBits m | OutOfLine words => hashSlowCase words end).

(** ** The set a bit vector denotes *)

Definition mem (v : BitVector) (i : N) : bool :=
  match v with
  | Inline m => (i <? 63) && N.testbit m i
  | OutOfLine words => match words !!N (i / 64) with Some w => N.testbit w (i mod 64) | None => false end
  end.

Definition wf (v : BitVector) : Prop :=
  match v with
  | Inline m => 2 ^ 63 <= m < 2 ^ 64
  | OutOfLine words => words <> [] /\ Forall (fun w => w < 2 ^ 64) words
  end.

(** The bits that are set, in increasing order. *)
Definition members (v : BitVector) : list N := filter (fun i => mem v i = true) (for_range 0 (size v)).

(** ** Lemmas on words *)

Lemma lt_pow2_testbit x n : x < 2 ^ n <-> forall i, n <= i -> N.testbit x i = false.
Proof.
  split.
  - intros Hx i Hi. destruct (decide (x = 0)) as [->|]; [apply N.bits_0|].
    apply N.bits_above_log2. eapply N.lt_le_trans; [|exact Hi]. apply N.log2_lt_pow2; [lia|done].
  - intros Hb. destruct (decide (x = 0)) as [->|Hne]; [by apply N.neq_0_lt_0, N.pow_nonzero|].
    apply N.log2_lt_pow2; [lia|]. apply N.nle_gt. intros Hle. apply Hb in Hle.
    by rewrite N.bit_log2 in Hle.
Qed.

Lemma bit_mask_spec i : bit_mask i = 2 ^ (i mod 64).
Proof.
  unfold bit_mask. change (bitsInPointer - 1) with (N.ones 6). rewrite N.land_ones, N.shiftl_mul_pow2, N.mul_1_l. done.
Qed.

Lemma land_pow2_zero w k : (N.land w (2 ^ k) =? 0) = negb (N.testbit w k).
Proof.
  destruct (N.testbit w k) eqn:E; simpl.
  - apply N.eqb_neq. intros Hz. apply (f_equal (fun z => N.testbit z k)) in Hz.
    by rewrite N.land_spec, N.pow2_bits_true, E, N.bits_0 in Hz.
  - apply N.eqb_eq, N.bits_inj. intros j. rewrite N.land_spec, N.pow2_bits_eqb, N.bits_0.
    destruct (k =? j) eqn:Ekj; [|by rewrite andb_false_r]. breflect. subst. by rewrite E.
Qed.

Lemma lor_pow2_bit w k j : N.testbit (N.lor w (2 ^ k)) j = N.testbit w j || (k =? j).
Proof. by rewrite N.lor_spec, N.pow2_bits_eqb. Qed.

Lemma ldiff_pow2_bit w k j : N.testbit (N.ldiff w (2 ^ k)) j = N.testbit w j && negb (k =? j).
Proof. by rewrite N.ldiff_spec, N.pow2_bits_eqb. Qed.

Lemma flag_eq : N.shiftl 1 maxInlineBits = 2 ^ 63.
Proof. reflexivity. Qed.

Lemma inline_flag m : 2 ^ 63 <= m < 2 ^ 64 <-> N.testbit m 63 = true /\ m < 2 ^ 64.
Proof.
  split.
  - intros [Hge Hlt]. split; [|done]. destruct (N.testbit m 63) eqn:E; [done|]. exfalso.
    assert (m < 2 ^ 63); [|lia]. apply lt_pow2_testbit. intros i Hi.
    destruct (decide (i = 63)) as [->|]; [done|]. apply (proj1 (lt_pow2_testbit m 64) Hlt). lia.
  - intros [Hb Hlt]. split; [|done]. apply N.nlt_ge. intros Hl.
    by rewrite (proj1 (lt_pow2_testbit m 63) Hl 63) in Hb by done.
Qed.

Lemma word_bits f w x :
  (forall b c, f b c = true -> b = true) -> (forall i, N.testbit x i = f (N.testbit w i) i) ->
  w < 2 ^ 64 -> x < 2 ^ 64.
Proof.
  intros Hf Hx Hw. apply lt_pow2_testbit. intros i Hi. rewrite Hx.
  destruct (f (N.testbit w i) i) eqn:E; [|done]. apply Hf in E.
  by rewrite (proj1 (lt_pow2_testbit w 64) Hw i Hi) in E.
Qed.

Lemma lor_lt a b : a < 2 ^ 64 -> b < 2 ^ 64 -> N.lor a b < 2 ^ 64.
Proof.
  rewrite !lt_pow2_testbit. intros Ha Hb i Hi. by rewrite N.lor_spec, Ha, Hb.
Qed.

Lemma land_lt a b : a < 2 ^ 64 -> N.land a b < 2 ^ 64.
Proof. rewrite !lt_pow2_testbit. intros Ha i Hi. by rewrite N.land_spec, Ha. Qed.

Lemma ldiff_lt a b : a < 2 ^ 64 -> N.ldiff a b < 2 ^ 64.
Proof. rewrite !lt_pow2_testbit. intros Ha i Hi. by rewrite N.ldiff_spec, Ha. Qed.

#[local] Hint Resolve lor_lt land_lt ldiff_lt : webkit.

Lemma cleanse_bit m i : N.testbit (cleanseInlineBits m) i = N.testbit m i && negb (i =? 63).
Proof. unfold cleanseInlineBits. rewrite flag_eq, ldiff_pow2_bit. by rewrite N.eqb_sym. Qed.

Lemma makeInline_bit m i : N.testbit (makeInlineBits m) i = N.testbit m i || (i =? 63).
Proof. unfold makeInlineBits. rewrite flag_eq, lor_pow2_bit. by rewrite N.eqb_sym. Qed.

Lemma makeInline_wf m : m < 2 ^ 64 -> wf (Inline (makeInlineBits m)).
Proof.
  intros Hm. apply inline_flag. rewrite makeInline_bit, orb_true_r. split; [done|]. by apply lor_lt.
Qed.

Lemma mem_ge_size v i : size v <= i -> mem v i = false.
Proof.
  destruct v as [m|words]; cbn [mem size].
  - intros Hi. replace (i <? 63) with false; [done|]. symmetry. by apply N.ltb_ge.
  - unfold bitsInPointer, numWords. intros Hi. rewrite lookup_ge_None_2; [done|].
    assert (N.of_nat (length words) <= i / 64); [|lia]. apply N.div_le_lower_bound; [done|lia].
Qed.

Lemma size_pos v : wf v -> 63 <= size v.
Proof.
  destruct v as [m|words]; [done|]. intros [Hne _]. unfold size, bitsInPointer, numWords.
  destruct words; [done|]. simpl length. lia.
Qed.

(** The word that holds a bit. *)
Lemma word_lookup v i : i < size v -> exists w, bits v !!N (i / 64) = Some w /\ mem v i = N.testbit w (i mod 64).
Proof.
  destruct v as [m|words]; cbn [bits size mem].
  - unfold maxInlineBits, bitsInPointer. intros Hi. exists m.
    rewrite N.div_small, N.mod_small by lia. split; [done|].
    replace (i <? 63) with true; [done|]. symmetry. apply N.ltb_lt. lia.
  - unfold bitsInPointer, numWords. intros Hi. destruct (lookupN_is_Some words (i / 64)) as [w Hw].
    { apply N.Div0.div_lt_upper_bound. lia. }
    exists w. by rewrite Hw.
Qed.

Lemma quickGet_spec v i : i < size v -> quickGet v i = Some (mem v i).
Proof.
  intros Hi. destruct (word_lookup v i Hi) as (w & Hw & ->). unfold quickGet, bitsInPointer. rewrite Hw.
  run_option. by rewrite bit_mask_spec, land_pow2_zero, negb_involutive.
Qed.

Lemma get_spec v i : get v i = Some (mem v i).
Proof.
  unfold get. destruct (size v <=? i) eqn:E; breflect; [by rewrite mem_ge_size|by apply quickGet_spec].
Qed.

(** ** Sizes *)

Lemma create_numWords_spec n : create_numWords n = (n + 63) / 64.
Proof.
  unfold create_numWords, bitsInPointer. replace (n + 64 - 1) with (n + 63) by lia.
  change (64 - 1) with (N.ones 6). rewrite N.ldiff_ones_r, N.shiftl_mul_pow2, N.shiftr_div_pow2.
  change (2 ^ 6) with 64. by rewrite N.div_mul.
Qed.

Lemma create_numWords_enough n : n <= 64 * create_numWords n.
Proof.
  rewrite create_numWords_spec. pose proof (N.div_mod' (n + 63) 64). pose proof (N.mod_lt (n + 63) 64 ltac:(done)). lia.
Qed.

Lemma mem_words_app words n i :
  mem (OutOfLine (words ++ replicate n 0)) i = mem (OutOfLine words) i.
Proof.
  cbn [mem]. destruct (decide (N.to_nat (i / 64) < length words)%nat) as [Hlt|Hge].
  - by rewrite lookup_app_l by done.
  - rewrite lookup_app_r by lia. rewrite (lookup_ge_None_2 words) by lia.
    destruct (replicate n 0 !! _) as [w|] eqn:E; [|done]. apply lookup_replicate in E as [-> _].
    apply N.bits_0.
Qed.

Lemma inline_word m i : wf (Inline m) ->
  mem (OutOfLine [N.ldiff m (2 ^ 63)]) i = mem (Inline m) i.
Proof.
  intros Hwf%inline_flag. cbn [mem]. destruct (decide (i < 64)) as [Hlt|Hge].
  - rewrite N.div_small, N.mod_small by done. change (N.to_nat 0) with 0%nat. cbn.
    rewrite ldiff_pow2_bit. destruct (i <? 63) eqn:E; breflect.
    + replace (63 =? i) with false by (symmetry; apply N.eqb_neq; lia). by rewrite andb_true_r.
    + replace (63 =? i) with true by (symmetry; apply N.eqb_eq; lia). by rewrite andb_false_r.
  - replace (i <? 63) with false by (symmetry; apply N.ltb_ge; lia).
    rewrite lookup_ge_None_2; [done|]. simpl. assert (1 <= i / 64); [|lia].
    apply N.div_le_lower_bound; [done|lia].
Qed.

Lemma resizeOutOfLine_grow v n : wf v -> size v < n ->
  wf (resizeOutOfLine v n) /\ n <= size (resizeOutOfLine v n) /\ isInline (resizeOutOfLine v n) = false /\
  forall i, mem (resizeOutOfLine v n) i = mem v i.
Proof.
  intros Hwf Hn. pose proof (size_pos v Hwf) as Hpos. pose proof (create_numWords_enough n) as Hen.
  destruct v as [m|words]; unfold resizeOutOfLine.
  - rewrite flag_eq. change (N.ldiff m (2 ^ 63) :: ?l) with ([N.ldiff m (2 ^ 63)] ++ l). split_and!; [|..|done|].
    + split; [done|]. apply Forall_app. split; [|by apply Forall_replicate].
      apply Forall_singleton, ldiff_lt, Hwf.
    + cbn [size]. unfold bitsInPointer, numWords. rewrite length_app, length_replicate. simpl length. lia.
    + intros i. rewrite mem_words_app. by apply inline_word.
  - replace (size (OutOfLine words) <? n) with true by (symmetry; by apply N.ltb_lt).
    cbn [size] in Hn. unfold bitsInPointer, numWords in *. destruct Hwf as [Hne Hall]. split_and!; [|..|done|].
    + split; [by destruct words|]. apply Forall_app. split; [done|by apply Forall_replicate].
    + cbn [size]. unfold bitsInPointer, numWords. rewrite length_app, length_replicate. lia.
    + apply mem_words_app.
Qed.

Lemma ensureSize_spec v n : wf v ->
  wf (ensureSize v n) /\ n <= size (ensureSize v n) /\ size v <= size (ensureSize v n) /\
  (isInline v = false -> isInline (ensureSize v n) = false) /\
  (63 < n -> isInline (ensureSize v n) = false) /\
  forall i, mem (ensureSize v n) i = mem v i.
Proof.
  intros Hwf. unfold ensureSize. destruct (n <=? size v) eqn:E; breflect.
  - split_and!; [done..| |done]. destruct v; [|done]. cbn [size] in E. unfold maxInlineBits, bitsInPointer in E. lia.
  - destruct (resizeOutOfLine_grow v n Hwf E) as (? & ? & ? & ?). split_and!; try done. lia.
Qed.

Lemma empty_wf : wf emptyBitVector.
Proof. by apply makeInline_wf. Qed.

Lemma empty_mem i : mem emptyBitVector i = false.
Proof.
  unfold emptyBitVector. cbn [mem]. rewrite makeInline_bit, N.bits_0. destruct (i <? 63) eqn:E; [|done].
  breflect. simpl. apply N.eqb_neq. lia.
Qed.

Lemma newBitVector_spec n : wf (newBitVector n) /\ n <= size (newBitVector n) /\ forall i, mem (newBitVector n) i = false.
Proof.
  destruct (ensureSize_spec emptyBitVector n empty_wf) as (? & ? & _ & _ & _ & Hm).
  split_and!; [done..|]. intros i. unfold newBitVector. by rewrite Hm, empty_mem.
Qed.

(** ** Changing a word *)

Lemma update_word v i x w :
  wf v -> i < size v -> bits v !!N (i / 64) = Some w -> x < 2 ^ 64 ->
  (isInline v = true -> N.testbit x 63 = true) ->
  exists v', (words ← vec_set (bits v) (i / 64) x; with_bits v words) = Some v' /\ wf v' /\
    size v' = size v /\ isInline v' = isInline v /\
    forall j, mem v' j = if (j / 64 =? i / 64) && (j <? size v) then N.testbit x (j mod 64) else mem v j.
Proof.
  intros Hwf Hi Hw Hx Hflag. destruct v as [m|words]; cbn [bits size isInline] in *.
  - assert (i / 64 = 0) as Hz by (unfold maxInlineBits, bitsInPointer in Hi; apply N.div_small; lia).
    rewrite Hz in *. exists (Inline x).
    split; [reflexivity|]. split; [apply inline_flag; auto|]. split; [done|]. split; [done|].
    cbn [mem size]. change maxInlineBits with 63.
    { intros j. destruct (j <? 63) eqn:E; breflect; [|by rewrite andb_false_r].
      rewrite N.div_small, N.mod_small by lia. done. }
  - destruct Hwf as [Hne Hall].
    assert (exists words', vec_set words (i / 64) x = Some words') as [words' Hset].
    { apply lookupN_lt in Hw. unfold vec_set. destruct (_ <? _)%nat eqn:E; [by eexists|]. breflect. lia. }
    rewrite Hset. run_option. exists (OutOfLine words'). cbn [with_bits wf size isInline mem].
    pose proof (vec_set_length _ _ _ _ Hset) as Hlen. unfold numWords. rewrite Hlen.
    split_and!; [done| | |done|done|].
    + intros ->. by destruct words.
    + apply vec_set_Some in Hset as [_ ->]. by apply Forall_insert.
    + intros j. rewrite (vec_set_lookup _ _ _ _ (j / 64) Hset).
      destruct (decide (i / 64 = j / 64)) as [He|Hne'].
      * rewrite He, N.eqb_refl. cbn [andb]. destruct (j <? _) eqn:Ej; [done|]. breflect. exfalso.
        apply lookupN_lt in Hw. rewrite He in Hw. unfold bitsInPointer in *.
        assert (N.of_nat (length words) <= j / 64); [|lia]. apply N.div_le_lower_bound; [done|lia].
      * replace (j / 64 =? i / 64) with false; [done|]. symmetry. apply N.eqb_neq. congruence.
Qed.

Lemma same_bit i j : (j / 64 =? i / 64) && (j mod 64 =? i mod 64) = (i =? j).
Proof.
  destruct (i =? j) eqn:E; breflect; [subst; by rewrite !N.eqb_refl|].
  destruct (j / 64 =? i / 64) eqn:E1; [|done]. destruct (j mod 64 =? i mod 64) eqn:E2; [|done].
  breflect. pose proof (N.div_mod' i 64). pose proof (N.div_mod' j 64). congruence.
Qed.

Lemma quickSet_spec v i : wf v -> i < size v ->
  exists v', quickSet v i = Some (mem v i, v') /\ wf v' /\ size v' = size v /\
    forall j, mem v' j = mem v j || (i =? j).
Proof.
  intros Hwf Hi. destruct (word_lookup v i Hi) as (w & Hw & Hm). unfold quickSet, bitsInPointer. rewrite Hw.
  run_option. rewrite !bit_mask_spec, land_pow2_zero, negb_involutive, <- Hm.
  assert (w < 2 ^ 64) as Hwlt.
  { destruct v as [m|words]; [|destruct Hwf as [_ Hall]; by eapply Forall_lookup_1 in Hall].
    cbn [bits] in Hw. apply list_lookup_singleton_Some in Hw as [_ <-]. apply Hwf. }
  destruct (update_word v i (N.lor w (2 ^ (i mod 64))) w Hwf Hi Hw) as (v' & Hv' & Hwf' & Hs & _ & Hmem).
  { apply lor_lt; [done|]. apply N.pow_lt_mono_r; [done|]. by apply N.mod_lt. }
  { intros Hin. destruct v as [m|]; [|done]. cbn [bits] in Hw. apply list_lookup_singleton_Some in Hw as [_ <-].
    rewrite lor_pow2_bit. apply inline_flag in Hwf as [-> _]. done. }
  destruct (vec_set (bits v) (i / 64) _) as [words|]; [|done]. revert Hv'. run_option. intros ->. run_option.
  exists v'. split_and!; [done..|]. intros j. rewrite Hmem, lor_pow2_bit.
  destruct (j <? size v) eqn:Ej; breflect.
  - rewrite andb_true_r. destruct (word_lookup v j Ej) as (wj & Hwj & ->).
    rewrite <- (same_bit i j). destruct (j / 64 =? i / 64) eqn:E; [|by rewrite orb_false_r]. breflect.
    rewrite E, Hw in Hwj. simplify_eq. cbn [andb]. by rewrite (N.eqb_sym (i mod 64)).
  - rewrite andb_false_r. replace (i =? j) with false; [by rewrite orb_false_r|].
    symmetry. apply N.eqb_neq. lia.
Qed.

Lemma quickClear_spec v i : wf v -> i < size v ->
  exists v', quickClear v i = Some (mem v i, v') /\ wf v' /\ size v' = size v /\
    forall j, mem v' j = mem v j && negb (i =? j).
Proof.
  intros Hwf Hi. destruct (word_lookup v i Hi) as (w & Hw & Hm). unfold quickClear, bitsInPointer. rewrite Hw.
  run_option. rewrite !bit_mask_spec, land_pow2_zero, negb_involutive, <- Hm.
  assert (w < 2 ^ 64) as Hwlt.
  { destruct v as [m|words]; [|destruct Hwf as [_ Hall]; by eapply Forall_lookup_1 in Hall].
    cbn [bits] in Hw. apply list_lookup_singleton_Some in Hw as [_ <-]. apply Hwf. }
  destruct (update_word v i (N.ldiff w (2 ^ (i mod 64))) w Hwf Hi Hw) as (v' & Hv' & Hwf' & Hs & _ & Hmem).
  { by apply ldiff_lt. }
  { intros Hin. destruct v as [m|]; [|done]. cbn [bits] in Hw. apply list_lookup_singleton_Some in Hw as [_ <-].
    rewrite ldiff_pow2_bit. apply inline_flag in Hwf as [-> _]. cbn [size] in Hi. unfold maxInlineBits, bitsInPointer in Hi.
    rewrite N.mod_small by lia. simpl. apply negb_true_iff, N.eqb_neq. lia. }
  destruct (vec_set (bits v) (i / 64) _) as [words|]; [|done]. revert Hv'. run_option. intros ->. run_option.
  exists v'. split_and!; [done..|]. intros j. rewrite Hmem, ldiff_pow2_bit.
  destruct (j <? size v) eqn:Ej; breflect.
  - rewrite andb_true_r. destruct (word_lookup v j Ej) as (wj & Hwj & ->).
    rewrite <- (same_bit i j). destruct (j / 64 =? i / 64) eqn:E; [|by rewrite andb_true_r]. breflect.
    rewrite E, Hw in Hwj. simplify_eq. cbn [andb]. by rewrite (N.eqb_sym (i mod 64)).
  - rewrite andb_false_r. replace (i =? j) with false; [by rewrite andb_true_r|].
    symmetry. apply N.eqb_neq. lia.
Qed.

(** ** Loops over words *)

Lemma words_loop_spec f n a b :
  n <= numWords a -> n <= numWords b ->
  exists r, words_loop f n a b = Some r /\ length r = length a /\
    forall i, r !!N i = if i <? n then (x ← a !!N i; y ← b !!N i; Some (f x y)) else a !!N i.
Proof.
  unfold words_loop, numWords. revert a. induction n as [|n IH] using N.peano_ind; intros a Ha Hb.
  - rewrite for_range_nil by lia. exists a. split_and!; [done..|]. intros i.
    replace (i <? 0) with false; [done|]. symmetry. apply N.ltb_ge. lia.
  - rewrite <- N.add_1_r, for_range_snoc, rev_app_distr by lia. cbn [rev app foldM].
    destruct (lookupN_is_Some a n) as [x Hx]; [lia|]. destruct (lookupN_is_Some b n) as [y Hy]; [lia|].
    rewrite Hx, Hy. run_option.
    assert (exists a', vec_set a n (f x y) = Some a') as [a' Ha'].
    { unfold vec_set. destruct (_ <? _)%nat eqn:E; [by eexists|]. breflect. lia. }
    rewrite Ha'. run_option. pose proof (vec_set_length _ _ _ _ Ha') as Hlen.
    destruct (IH a') as (r & -> & Hlr & Hr); [rewrite Hlen; lia|lia|]. exists r. split_and!; [done|by rewrite Hlr|].
    intros i. rewrite Hr, !(vec_set_lookup _ _ _ _ i Ha'). destruct (decide (n = i)) as [->|Hne].
    + replace (i <? i) with false by (symmetry; apply N.ltb_irrefl).
      replace (i <? i + 1) with true by (symmetry; apply N.ltb_lt; lia). by rewrite Hx, Hy.
    + destruct (i <? n) eqn:E; breflect.
      * by replace (i <? n + 1) with true by (symmetry; apply N.ltb_lt; lia).
      * by replace (i <? n + 1) with false by (symmetry; apply N.ltb_ge; lia).
Qed.

Lemma mem_words words i : mem (OutOfLine words) i =
  match words !!N (i / 64) with Some w => N.testbit w (i mod 64) | None => false end.
Proof. done. Qed.

Lemma words_lt f (a b r : list N) n :
  (forall x y, x < 2 ^ 64 -> y < 2 ^ 64 -> f x y < 2 ^ 64) ->
  Forall (fun w => w < 2 ^ 64) a -> Forall (fun w => w < 2 ^ 64) b ->
  (forall i, r !!N i = if i <? n then (x ← a !!N i; y ← b !!N i; Some (f x y)) else a !!N i) ->
  Forall (fun w => w < 2 ^ 64) r.
Proof.
  intros Hf Ha Hb Hr. apply Forall_lookup. intros i w Hw. specialize (Hr (N.of_nat i)).
  rewrite Nat2N.id, Hw in Hr. destruct (N.of_nat i <? n).
  - destruct (a !! i) as [x|] eqn:Ex; [|done]. destruct (b !! i) as [y|] eqn:Ey; [|done]. simplify_eq/=.
    apply Hf; [exact (Forall_lookup_1 _ _ _ _ Ha Ex)|exact (Forall_lookup_1 _ _ _ _ Hb Ey)].
  - symmetry in Hr. exact (Forall_lookup_1 _ _ _ _ Ha Hr).
Qed.

(** The first word of a vector and a function that keeps the inline flag. *)
Lemma first_word_spec v f :
  wf v -> (forall w, w < 2 ^ 64 -> f w < 2 ^ 64) -> isInline v = false ->
  exists v', (words ← first_word f (bits v); with_bits v words) = Some v' /\ wf v' /\ size v' = size v /\
    forall j, mem v' j = if j <? 64 then match bits v !!N 0 with
                                         | Some w => N.testbit (f w) j | None => false end
                         else mem v j.
Proof.
  intros Hwf Hf Hin. destruct v as [m|words]; [done|]. destruct Hwf as [Hne Hall].
  destruct words as [|w words]; [done|]. apply Forall_cons in Hall as [Hw Hall].
  exists (OutOfLine (f w :: words)). cbn [bits]. split; [reflexivity|].
  split; [split; [done|]; apply Forall_cons; auto|]. split; [done|].
  intros j. cbn [mem]. destruct (j <? 64) eqn:E; breflect.
  - rewrite N.div_small, N.mod_small by done. done.
  - assert (1 <= j / 64) by (apply N.div_le_lower_bound; [done|lia]).
    destruct (N.to_nat (j / 64)) as [|k] eqn:Ek; [lia|]. done.
Qed.

Lemma first_word_mem words w j : words !!N 0 = Some w -> j < 64 -> mem (OutOfLine words) j = N.testbit w j.
Proof. intros Hw Hj. rewrite mem_words, N.div_small, N.mod_small by done. by rewrite Hw. Qed.

Lemma cleanse_mem m j : j < 64 -> N.testbit (cleanseInlineBits m) j = mem (Inline m) j.
Proof.
  intros Hj. rewrite cleanse_bit. cbn [mem]. destruct (j <? 63) eqn:E; breflect.
  - replace (j =? 63) with false by (symmetry; apply N.eqb_neq; lia). by rewrite andb_true_r.
  - replace (j =? 63) with true by (symmetry; apply N.eqb_eq; lia). by rewrite andb_false_r.
Qed.

Lemma cleanse_lt m : m < 2 ^ 64 -> cleanseInlineBits m < 2 ^ 64.
Proof. apply ldiff_lt. Qed.

(** A one-word operation that leaves the flag in place. *)
Lemma inline_op x (g : N -> bool) :
  x < 2 ^ 64 -> N.testbit x 63 = true -> (forall j, j < 63 -> N.testbit x j = g j) ->
  wf (Inline x) /\ forall j, mem (Inline x) j = (j <? 63) && g j.
Proof.
  intros Hx Hflag Hg. split; [by apply inline_flag|]. intros j. cbn [mem].
  destruct (j <? 63) eqn:E; breflect; [|done]. simpl. by apply Hg.
Qed.

(** ** The theorems *)

(** [merge] is the union: on any two bit vectors of which the receiver does not have more
    words than the argument, or the argument is inline, it returns, and a bit is set
    afterwards exactly when it was set in one of the two. *)
Theorem merge_spec (v other : BitVector) :
  wf v -> wf other -> (isInline other = true \/ size v <= size other) ->
  exists v', merge_bits v other = Some v' /\ wf v' /\ forall i, mem v' i = mem v i || mem other i.
Proof.
  intros Hv Ho Hsize. destruct other as [o|b].
  - destruct v as [m|a].
    + exists (Inline (N.lor m o)). split; [done|]. apply inline_flag in Hv as [Hm Hmlt]. apply inline_flag in Ho as [Hof Holt].
      split; [apply inline_flag; split; [by rewrite N.lor_spec, Hm|by apply lor_lt]|].
      intros i. cbn [mem]. rewrite N.lor_spec. by destruct (i <? 63).
    + destruct (first_word_spec (OutOfLine a) (fun w => N.lor w (cleanseInlineBits o)) Hv) as (v' & Hv' & Hwf & _ & Hm).
      { intros w Hw. apply lor_lt; [done|]. apply cleanse_lt, Ho. }
      { done. }
      exists v'. split; [exact Hv'|]. split; [done|]. intros i. rewrite Hm. destruct Hv as [Hne Hall].
      destruct a as [|w a]; [done|]. destruct (i <? 64) eqn:E; breflect.
      * cbn [bits]. rewrite (first_word_mem (w :: a) w) by done. change ((w :: a) !!N 0) with (Some w). cbn iota beta.
        by rewrite N.lor_spec, cleanse_mem.
      * rewrite (mem_ge_size (Inline o)) by (cbn [size]; change maxInlineBits with 63; lia). by rewrite orb_false_r.
  - assert (merge_bits v (OutOfLine b) = mergeSlow v (OutOfLine b)) as -> by (by destruct v).
    destruct Hsize as [|Hsize]; [done|]. unfold mergeSlow.
    destruct (ensureSize_spec v (size (OutOfLine b)) Hv) as (Hwf & Hge & _ & Hin & Hin2 & Hmem).
    assert (size (ensureSize v (size (OutOfLine b))) = size (OutOfLine b) /\
      isInline (ensureSize v (size (OutOfLine b))) = false) as [Hs Hinl].
    { pose proof (size_pos _ Ho) as Hpos. assert (63 < size (OutOfLine b)) as H63.
      { cbn [size] in *. unfold bitsInPointer, numWords in *. lia. }
      split; [|by apply Hin2]. unfold ensureSize in *. destruct (_ <=? size v) eqn:E; breflect; [lia|].
      revert Hge. destruct v as [m|a]; unfold resizeOutOfLine.
      - cbn [size]. unfold bitsInPointer, numWords. simpl length. rewrite length_replicate, create_numWords_spec.
        intros _. replace (64 * N.of_nat (length b) + 63) with (63 + N.of_nat (length b) * 64) by lia.
        rewrite N.div_add, N.div_small by done. cbn [size] in H63. unfold bitsInPointer, numWords in H63. lia.
      - replace (size (OutOfLine a) <? _) with true by (symmetry; by apply N.ltb_lt).
        cbn [size] in *. unfold bitsInPointer, numWords in *. rewrite length_app, length_replicate, create_numWords_spec.
        replace (64 * N.of_nat (length b) + 63) with (63 + N.of_nat (length b) * 64) by lia.
        rewrite N.div_add, N.div_small by done. lia. }
    destruct (ensureSize v (size (OutOfLine b))) as [|a]; [done|]. cbn [bits with_bits].
    assert (length a = length b) as Hlen by (cbn [size] in Hs; unfold bitsInPointer, numWords in Hs; lia).
    destruct (words_loop_spec N.lor (numWords a) a b) as (r & -> & Hlr & Hr); [done|unfold numWords; lia|].
    run_option. exists (OutOfLine r). destruct Hwf as [Hne Ha], Ho as [Hneb Hb]. split; [done|].
    split; [split; [by intros ->; destruct a|by apply (words_lt N.lor a b r (numWords a)); [apply lor_lt|..]]|].
    intros i. rewrite <- Hmem, !mem_words, Hr. destruct (i / 64 <? numWords a) eqn:E; unfold numWords in *; breflect.
    + destruct (lookupN_is_Some a (i / 64) E) as [x ->]. destruct (lookupN_is_Some b (i / 64)) as [y ->]; [lia|].
      run_option. by rewrite N.lor_spec.
    + rewrite !lookup_ge_None_2 by lia. done.
Qed.

(** [merge] of a bit vector with more words than its argument, when neither is inline,
    reads outside of the words of the argument. *)
Theorem merge_out_of_bounds (a b : list N) :
  wf (OutOfLine a) -> wf (OutOfLine b) -> numWords b < numWords a ->
  merge_bits (OutOfLine a) (OutOfLine b) = None.
Proof.
  intros _ _ Hlt. unfold merge_bits, mergeSlow, ensureSize. cbn [size].
  unfold bitsInPointer, numWords in *.
  replace (64 * N.of_nat (length b) <=? 64 * N.of_nat (length a)) with true by (symmetry; apply N.leb_le; lia).
  cbn [bits]. unfold words_loop.
  assert (exists n, N.of_nat (length a) = n + 1 /\ N.of_nat (length b) <= n) as (n & -> & Hn).
  { exists (N.of_nat (length a) - 1). lia. }
  rewrite for_range_snoc, rev_app_distr by lia. cbn [rev app foldM].
  destruct (a !!N n) as [x|]; [|done]. run_option. by rewrite (lookup_ge_None_2 b) by lia.
Qed.

Lemma clear_words_spec (words l : list N) :
  (forall i, i ∈ l -> i < numWords words) ->
  exists r, foldM (fun words i => vec_set words i 0) words l = Some r /\ length r = length words /\
    forall i, (i ∈ l -> r !!N i = Some 0) /\ (i ∉ l -> r !!N i = words !!N i).
Proof.
  unfold numWords. revert words. induction l as [|k l IH]; intros words Hl; cbn [foldM].
  - exists words. split_and!; [done..|]. intros i. split; [intros Hi; by apply elem_of_nil in Hi|done].
  - assert (exists w, vec_set words k 0 = Some w) as [w Hw].
    { unfold vec_set. specialize (Hl k ltac:(by left)). destruct (_ <? _)%nat eqn:E; [by eexists|]. breflect. lia. }
    rewrite Hw. run_option. pose proof (vec_set_length _ _ _ _ Hw) as Hlen.
    destruct (IH w) as (r & -> & Hr & Hspec); [intros i Hi; rewrite Hlen; apply Hl; by right|].
    exists r. split_and!; [done|congruence|]. intros i. destruct (Hspec i) as [Hin Hout].
    pose proof (vec_set_lookup _ _ _ _ i Hw) as Hlook. split.
    + intros Hi. destruct (decide (i ∈ l)); [auto|]. rewrite Hout by done. rewrite Hlook.
      apply elem_of_cons in Hi as [->|]; [by case_decide|done].
    + intros [Hik Hi]%not_elem_of_cons. rewrite Hout by done. rewrite Hlook. by case_decide.
Qed.

(** [filter] is the intersection, except when an inline argument is applied to a
    receiver of several words. *)
Theorem filter_spec (v other : BitVector) :
  wf v -> wf other -> (isInline other = true -> size v <= 64) ->
  exists v', filter_bits v other = Some v' /\ wf v' /\ size v' = size v /\
    forall i, mem v' i = mem v i && mem other i.
Proof.
  intros Hv Ho Hsize. destruct other as [o|b], v as [m|a].
  - apply inline_flag in Hv as [Hm Hmlt]. apply inline_flag in Ho as [Hof Holt].
    exists (Inline (N.land m o)). split; [done|].
    split; [apply inline_flag; split; [by rewrite N.land_spec, Hm|by apply land_lt]|]. split; [done|].
    intros i. cbn [mem]. rewrite N.land_spec. destruct (i <? 63); [done|]. by rewrite andb_false_r.
  - destruct (first_word_spec (OutOfLine a) (fun w => N.land w (cleanseInlineBits o)) Hv) as (v' & Hv' & Hwf & Hs & Hm).
    { intros w Hw. by apply land_lt. }
    { done. }
    exists v'. split; [exact Hv'|]. split; [done|]. split; [done|]. intros i. rewrite Hm. destruct Hv as [Hne Hall].
    destruct a as [|w a]; [done|]. destruct (i <? 64) eqn:E; breflect.
    + cbn [bits]. rewrite (first_word_mem (w :: a) w) by done. change ((w :: a) !!N 0) with (Some w). cbn iota beta.
      by rewrite N.land_spec, cleanse_mem.
    + rewrite (mem_ge_size (OutOfLine (w :: a))); [done|]. specialize (Hsize eq_refl). lia.
  - apply inline_flag in Hv as [Hm Hmlt]. destruct Ho as [Hne Hall]. destruct b as [|w b]; [done|].
    apply Forall_cons in Hall as [Hw Hall].
    destruct (inline_op (N.lor (N.land m w) (N.shiftl 1 maxInlineBits)) (fun j => N.testbit m j && N.testbit w j))
      as [Hwf Hmem].
    { rewrite flag_eq. apply lor_lt; [by apply land_lt|done]. }
    { by rewrite flag_eq, lor_pow2_bit, orb_true_r. }
    { intros j Hj. rewrite flag_eq, lor_pow2_bit, N.land_spec.
      replace (63 =? j) with false by (symmetry; apply N.eqb_neq; lia). by rewrite orb_false_r. }
    eexists. split; [reflexivity|]. split; [done|]. split; [done|]. intros i. rewrite Hmem. cbn [mem].
    destruct (i <? 63) eqn:E; breflect; [|done]. rewrite N.div_small, N.mod_small by lia. done.
  - destruct Hv as [Hnea Ha], Ho as [Hneb Hb]. cbn [filter_bits filterSlow].
    destruct (words_loop_spec N.land (N.min (numWords a) (numWords b)) a b) as (r & -> & Hlr & Hr); [lia|lia|].
    run_option.
    destruct (clear_words_spec r (for_range (numWords b) (numWords a))) as (r' & -> & Hlr' & Hz').
    { intros i Hi%elem_of_for_range. unfold numWords in *. lia. }
    assert (forall i, r' !!N i = if (numWords b <=? i) && (i <? numWords a) then Some 0 else r !!N i) as Hr'.
    { intros i. destruct (Hz' i) as [Hin Hout]. destruct (_ && _) eqn:E.
      - breflect. by apply Hin, elem_of_for_range.
      - apply Hout. rewrite elem_of_for_range. intros []. apply andb_false_iff in E as [?|?]; breflect; lia. }
    clear Hz'. rewrite Hlr in Hlr'.
    run_option. exists (OutOfLine r'). split; [done|].
    assert (Forall (fun w => w < 2 ^ 64) r') as Hall.
    { apply Forall_lookup. intros i w Hw. specialize (Hr' (N.of_nat i)). rewrite Nat2N.id, Hw in Hr'.
      destruct (_ && _); [by simplify_eq|].
      pose proof (words_lt N.land a b r _ (fun x y Hx _ => land_lt x y Hx) Ha Hb Hr) as Hrlt.
      symmetry in Hr'. exact (Forall_lookup_1 _ _ _ _ Hrlt Hr'). }
    split; [split; [by intros ->; destruct a|done]|].
    split; [cbn [size]; unfold numWords; by rewrite Hlr'|].
    intros i. rewrite !mem_words, Hr', Hr. unfold numWords in *.
    destruct (decide (i / 64 < N.of_nat (length a))) as [Hia|Hia].
    + destruct (lookupN_is_Some a (i / 64) Hia) as [x Hx]. rewrite Hx.
      destruct (decide (i / 64 < N.of_nat (length b))) as [Hib|Hib].
      * destruct (lookupN_is_Some b (i / 64) Hib) as [y Hy]. rewrite Hy.
        replace (N.of_nat (length b) <=? i / 64) with false by (symmetry; apply N.leb_gt; lia). cbn [andb].
        replace (i / 64 <? _) with true by (symmetry; apply N.ltb_lt; lia). run_option. by rewrite N.land_spec.
      * replace (N.of_nat (length b) <=? i / 64) with true by (symmetry; apply N.leb_le; lia).
        replace (i / 64 <? N.of_nat (length a)) with true by (symmetry; apply N.ltb_lt; lia). cbn [andb].
        rewrite (lookup_ge_None_2 b) by lia. by rewrite andb_false_r, N.bits_0.
    + replace (i / 64 <? N.of_nat (length a)) with false by (symmetry; apply N.ltb_ge; lia). rewrite andb_false_r.
      replace (i / 64 <? N.min _ _) with false by (symmetry; apply N.ltb_ge; lia).
      by rewrite (lookup_ge_None_2 a) by lia.
Qed.

(** [exclude] is the difference, on any two bit vectors. *)
Theorem exclude_spec (v other : BitVector) :
  wf v -> wf other ->
  exists v', exclude_bits v other = Some v' /\ wf v' /\ size v' = size v /\
    forall i, mem v' i = mem v i && negb (mem other i).
Proof.
  intros Hv Ho. destruct other as [o|b], v as [m|a].
  - apply inline_flag in Hv as [Hm Hmlt]. apply inline_flag in Ho as [Hof Holt].
    destruct (inline_op (N.lor (N.ldiff m o) (N.shiftl 1 maxInlineBits)) (fun j => N.testbit m j && negb (N.testbit o j)))
      as [Hwf Hmem].
    { rewrite flag_eq. apply lor_lt; [by apply ldiff_lt|done]. }
    { by rewrite flag_eq, lor_pow2_bit, orb_true_r. }
    { intros j Hj. rewrite flag_eq, lor_pow2_bit, N.ldiff_spec.
      replace (63 =? j) with false by (symmetry; apply N.eqb_neq; lia). by rewrite orb_false_r. }
    eexists. split; [reflexivity|]. split; [done|]. split; [done|]. intros i. rewrite Hmem. cbn [mem].
    by destruct (i <? 63).
  - destruct (first_word_spec (OutOfLine a) (fun w => N.ldiff w (cleanseInlineBits o)) Hv) as (v' & Hv' & Hwf & Hs & Hm).
    { intros w Hw. by apply ldiff_lt. }
    { done. }
    exists v'. split; [exact Hv'|]. split; [done|]. split; [done|]. intros i. rewrite Hm. destruct Hv as [Hne Hall].
    destruct a as [|w a]; [done|]. destruct (i <? 64) eqn:E; breflect.
    + cbn [bits]. rewrite (first_word_mem (w :: a) w) by done. change ((w :: a) !!N 0) with (Some w). cbn iota beta.
      by rewrite N.ldiff_spec, cleanse_mem.
    + rewrite (mem_ge_size (Inline o)) by (cbn [size]; change maxInlineBits with 63; lia). by rewrite andb_true_r.
  - apply inline_flag in Hv as [Hm Hmlt]. destruct Ho as [Hne Hall]. destruct b as [|w b]; [done|].
    apply Forall_cons in Hall as [Hw Hall].
    destruct (inline_op (N.lor (N.ldiff m w) (N.shiftl 1 maxInlineBits)) (fun j => N.testbit m j && negb (N.testbit w j)))
      as [Hwf Hmem].
    { rewrite flag_eq. apply lor_lt; [by apply ldiff_lt|done]. }
    { by rewrite flag_eq, lor_pow2_bit, orb_true_r. }
    { intros j Hj. rewrite flag_eq, lor_pow2_bit, N.ldiff_spec.
      replace (63 =? j) with false by (symmetry; apply N.eqb_neq; lia). by rewrite orb_false_r. }
    eexists. split; [reflexivity|]. split; [done|]. split; [done|]. intros i. rewrite Hmem. cbn [mem].
    destruct (i <? 63) eqn:E; breflect; [|done]. rewrite N.div_small, N.mod_small by lia. done.
  - destruct Hv as [Hnea Ha], Ho as [Hneb Hb]. cbn [exclude_bits excludeSlow].
    destruct (words_loop_spec N.ldiff (N.min (numWords a) (numWords b)) a b) as (r & -> & Hlr & Hr); [lia|lia|].
    run_option. exists (OutOfLine r). split; [done|].
    pose proof (words_lt N.ldiff a b r _ (fun x y Hx _ => ldiff_lt x y Hx) Ha Hb Hr) as Hrlt.
    split; [split; [by intros ->; destruct a|done]|].
    split; [cbn [size]; unfold numWords; by rewrite Hlr|].
    intros i. rewrite !mem_words, Hr. unfold numWords in *. destruct (i / 64 <? N.min _ _) eqn:E; breflect.
    + destruct (lookupN_is_Some a (i / 64)) as [x ->]; [lia|]. destruct (lookupN_is_Some b (i / 64)) as [y ->]; [lia|].
      run_option. by rewrite N.ldiff_spec.
    + destruct (a !!N (i / 64)) as [x|] eqn:Ex; [|done]. apply lookupN_lt in Ex.
      rewrite (lookup_ge_None_2 b) by lia. by rewrite andb_true_r.
Qed.

Lemma set_bit_mem v i : wf v -> i + 1 < 2 ^ 64 ->
  exists v', set_bit v i = Some (mem v i, v') /\ wf v' /\ size v <= size v' /\ (i < size v -> size v' = size v) /\
    forall j, mem v' j = mem v j || (i =? j).
Proof.
  intros Hwf Hi. unfold set_bit. rewrite wrap64_id by (change 18446744073709551616 with (2 ^ 64); done).
  destruct (ensureSize_spec v (i + 1) Hwf) as (Hwf' & Hge & Hle & _ & _ & Hmem).
  destruct (quickSet_spec (ensureSize v (i + 1)) i Hwf') as (v' & -> & Hwf'' & Hs & Hm); [lia|].
  exists v'. rewrite Hmem. split_and!; [done|done|lia| |intros j; by rewrite Hm, Hmem].
  intros Hlt. rewrite Hs. unfold ensureSize. by replace (i + 1 <=? size v) with true by (symmetry; apply N.leb_le; lia).
Qed.

(** [set], [clear] and [get] of a bit, and the two forms with a value: a bit vector is the
    set of its bits, it grows when a bit beyond its size is set, and the operations answer
    whether the bit was set before. *)
Theorem set_clear_get_spec (v : BitVector) (i : N) (value : bool) :
  wf v -> i + 1 < 2 ^ 64 ->
  exists v', set_value v i value = Some (mem v i, v') /\ wf v' /\ size v <= size v' /\
    (forall j, get v' j = Some (if j =? i then value else mem v j)) /\
    get v i = Some (mem v i).
Proof.
  intros Hwf Hi. unfold set_value. destruct value.
  - destruct (set_bit_mem v i Hwf Hi) as (v' & -> & Hwf' & Hs & _ & Hm).
    exists v'. split_and!; [done..| |apply get_spec].
    intros j. rewrite get_spec, Hm. destruct (j =? i) eqn:E; breflect.
    + subst. by rewrite N.eqb_refl, orb_true_r.
    + replace (i =? j) with false by (symmetry; apply N.eqb_neq; congruence). by rewrite orb_false_r.
  - unfold clear_bit. destruct (size v <=? i) eqn:E; breflect.
    + exists v. rewrite (mem_ge_size v i) by done. split_and!; [done|done|lia| |by rewrite get_spec, mem_ge_size].
      intros j. rewrite get_spec. destruct (j =? i) eqn:Ej; [|done]. breflect. subst. by rewrite mem_ge_size.
    + destruct (quickClear_spec v i Hwf E) as (v' & -> & Hwf' & Hs & Hm).
      exists v'. split_and!; [done|done|lia| |apply get_spec]. intros j. rewrite get_spec, Hm.
      destruct (j =? i) eqn:Ej; breflect.
      * subst. by rewrite N.eqb_refl, andb_false_r.
      * replace (i =? j) with false by (symmetry; apply N.eqb_neq; congruence). by rewrite andb_true_r.
Qed.

(** ** The words behind the representation *)

Definition words_of (v : BitVector) : list N := match v with Inline m => [cleanseInlineBits m] | OutOfLine words => words end.

Lemma words_of_wf v : wf v -> words_of v <> [] /\ Forall (fun w => w < 2 ^ 64) (words_of v).
Proof.
  destruct v as [m|words]; [|done]. intros [_ Hm]. split; [done|]. apply Forall_singleton. by apply cleanse_lt.
Qed.

Lemma mem_words_of v i : wf v -> mem (OutOfLine (words_of v)) i = mem v i.
Proof.
  destruct v as [m|words]; [|done]. intros Hwf. cbn [words_of]. unfold cleanseInlineBits. rewrite flag_eq.
  by apply inline_word.
Qed.

Lemma for_range_app a b c : a <= b -> b <= c -> for_range a c = for_range a b ++ for_range b c.
Proof.
  intros Hab. induction c as [|c IH] using N.peano_ind; intros Hbc.
  - by rewrite !for_range_nil by lia.
  - destruct (decide (b = N.succ c)) as [->|]; [by rewrite (for_range_nil (N.succ c)), app_nil_r by lia|].
    rewrite <- N.add_1_r, !for_range_snoc, IH by lia. by rewrite app_assoc.
Qed.

Lemma for_range_shift k n : for_range k (k + n) = (fun i => k + i) <$> for_range 0 n.
Proof.
  induction n as [|n IH] using N.peano_ind; [by rewrite !for_range_nil by lia|].
  rewrite <- N.add_1_r, N.add_assoc, !for_range_snoc, fmap_app, IH by lia. done.
Qed.

Lemma popcount_filter n x :
  popcount n x = N.of_nat (length (filter (fun i => N.testbit x i = true) (for_range 0 (N.of_nat n)))).
Proof.
  induction n as [|n IH]; [done|]. replace (S n) with (n + 1)%nat by lia. rewrite popcount_app, IH.
  replace (N.of_nat (n + 1)) with (N.of_nat n + 1) by lia. rewrite for_range_snoc, filter_app, length_app by lia.
  rewrite Nat2N.inj_add. f_equal. cbn [popcount]. rewrite <- N.bit0_odd, N.shiftr_spec' , N.add_0_l.
  rewrite filter_cons. destruct (N.testbit x (N.of_nat n)); simpl; done.
Qed.

Lemma filter_ext_in {A} (P Q : A -> bool) (l : list A) :
  (forall x, x ∈ l -> P x = Q x) -> filter (fun x => P x = true) l = filter (fun x => Q x = true) l.
Proof.
  induction l as [|x l IH]; intros Hl; [done|]. rewrite !filter_cons, (Hl x) by (by left).
  rewrite IH by (intros; apply Hl; by right). done.
Qed.

Lemma filter_fmap_shift (P : N -> bool) (k : N) (l : list N) :
  length (filter (fun i => P i = true) ((fun i => k + i) <$> l)) = length (filter (fun i => P (k + i) = true) l).
Proof.
  induction l as [|x l IH]; [done|]. rewrite fmap_cons, !filter_cons. destruct (P (k + x)); simpl; by rewrite IH.
Qed.

(** The number of bits of a vector of words. *)
Lemma count_words words : Forall (fun w => w < 2 ^ 64) words ->
  bitCountSlow words = N.of_nat (length (filter (fun i => mem (OutOfLine words) i = true) (for_range 0 (64 * numWords words)))).
Proof.
  unfold bitCountSlow. induction words as [|w words IH] using rev_ind; intros Hall; [done|].
  apply Forall_app in Hall as [Hall Hw]. rewrite Forall_singleton in Hw. rewrite rev_app_distr. cbn [rev app foldl].
  assert (forall l n, foldl (fun r w => r + bitCount64 w) n l = n + foldl (fun r w => r + bitCount64 w) 0 l) as Hacc.
  { intros l. induction l as [|x l IHl]; intros n; cbn [foldl]; [lia|].
    rewrite IHl, (IHl (0 + bitCount64 x)). lia. }
  rewrite Hacc, IH by done. unfold numWords. rewrite length_app, Nat2N.inj_add. change (N.of_nat (length [w])) with 1.
  replace (64 * (N.of_nat (length words) + 1)) with (64 * N.of_nat (length words) + 64) by lia.
  rewrite (for_range_app 0 (64 * N.of_nat (length words)) (64 * N.of_nat (length words) + 64)) by lia. rewrite filter_app, length_app, Nat2N.inj_add.
  rewrite N.add_comm. f_equal.
  - f_equal. f_equal. apply filter_ext_in. intros i Hi%elem_of_for_range. cbn [mem].
    rewrite lookup_app_l; [done|]. assert (i / 64 < N.of_nat (length words)); [|lia].
    apply N.Div0.div_lt_upper_bound. lia.
  - rewrite N.add_0_l, for_range_shift, filter_fmap_shift. rewrite bitCount64_popcount by done.
    rewrite popcount_filter. f_equal. f_equal. change (N.of_nat 64) with 64. apply filter_ext_in.
    intros i Hi%elem_of_for_range. cbn [mem].
    replace (64 * N.of_nat (length words) + i) with (i + N.of_nat (length words) * 64) by lia.
    rewrite N.div_add, N.Div0.mod_add, N.div_small, N.mod_small, N.add_0_l by lia.
    by rewrite Nat2N.id, lookup_app_r, Nat.sub_diag by lia.
Qed.

Lemma bitCount_members v :
  wf v -> bitCount v = N.of_nat (length (members v)).
Proof.
  intros Hwf. destruct (words_of_wf v Hwf) as [_ Hall].
  assert (bitCount v = bitCountSlow (words_of v)) as -> by (by destruct v).
  rewrite count_words by done. f_equal. f_equal. unfold members. destruct v as [m|words]; [|done].
  change (64 * numWords (words_of (Inline m))) with (63 + 1). rewrite for_range_snoc, filter_app by lia.
  change (size (Inline m)) with 63.
  assert (filter (fun i => mem (OutOfLine (words_of (Inline m))) i = true) [63] = []) as ->.
  { rewrite filter_cons, decide_False; [done|]. by rewrite (mem_words_of (Inline m)) by done. }
  rewrite app_nil_r. apply filter_ext_in. intros i _. by rewrite mem_words_of.
Qed.

(** [bitCount] is the number of the bits that are set. *)
Theorem BitVector_bitCount_spec (v : BitVector) :
  wf v -> bitCount v = N.of_nat (length (members v)).
Proof. apply bitCount_members. Qed.

(** ** Searching *)

(** The first index from [i] on, among [left] of them, with the property. *)
Fixpoint first_from (p : N -> bool) (left : nat) (i : N) : option N :=
  match left with
  | O => None
  | S left' => if p i then Some i else first_from p left' (i + 1)
  end.

Lemma first_from_app p n m i :
  first_from p (n + m) i = match first_from p n i with Some j => Some j | None => first_from p m (i + N.of_nat n) end.
Proof.
  revert i. induction n as [|n IH]; intros i; cbn [Nat.add first_from]; [by rewrite N.add_0_r|].
  destruct (p i); [done|]. rewrite IH. by replace (i + 1 + N.of_nat n) with (i + N.of_nat (S n)) by lia.
Qed.

Lemma first_from_ext p q n i :
  (forall j, i <= j < i + N.of_nat n -> p j = q j) -> first_from p n i = first_from q n i.
Proof.
  revert i. induction n as [|n IH]; intros i Hpq; cbn [first_from]; [done|].
  rewrite Hpq by lia. rewrite (IH (i + 1)); [done|]. intros j Hj. apply Hpq. lia.
Qed.

Lemma first_from_shift p k n i :
  first_from p n (k + i) = (fun j => k + j) <$> first_from (fun j => p (k + j)) n i.
Proof.
  revert i. induction n as [|n IH]; intros i; cbn [first_from]; [done|].
  destruct (p (k + i)); [done|]. by rewrite <- IH, N.add_assoc.
Qed.

Lemma first_from_Some p n i j : first_from p n i = Some j ->
  i <= j < i + N.of_nat n /\ p j = true /\ forall k, i <= k < j -> p k = false.
Proof.
  revert i. induction n as [|n IH]; intros i; cbn [first_from]; [done|].
  destruct (p i) eqn:E.
  - intros [= <-]. split_and!; [lia|lia|done|]. intros k Hk. lia.
  - intros Hj. apply IH in Hj as (? & ? & Hk). split_and!; [lia|lia|done|].
    intros k ?. destruct (decide (k = i)) as [->|]; [done|]. apply Hk. lia.
Qed.

Lemma first_from_None p n i : first_from p n i = None -> forall k, i <= k < i + N.of_nat n -> p k = false.
Proof.
  revert i. induction n as [|n IH]; intros i; cbn [first_from]; [lia|].
  destruct (p i) eqn:E; [done|]. intros Hn k Hk. destruct (decide (k = i)) as [->|]; [done|].
  apply (IH _ Hn). lia.
Qed.

Lemma findBitInWord_loop_spec left w i value :
  findBitInWord_loop left (N.shiftr w i) i value = first_from (fun j => eqb (N.testbit w j) value) left i.
Proof.
  revert i. induction left as [|left IH]; intros i; cbn [findBitInWord_loop first_from]; [done|].
  change 1 with (N.ones 1) at 1. rewrite N.land_ones, N.shiftr_shiftr, <- IH.
  change (2 ^ 1) with 2. rewrite <- N.bit0_mod, N.shiftr_spec', N.add_0_l.
  assert ((N.b2n (N.testbit w i) =? N.b2n value) = eqb (N.testbit w i) value) as ->; [|done].
  by destruct (N.testbit w i), value.
Qed.

Lemma findBitSimple_loop_spec left v i value :
  findBitSimple_loop left v i value = Some (default (size v) (first_from (fun j => eqb (mem v j) value) left i)).
Proof.
  revert i. induction left as [|left IH]; intros i; cbn [findBitSimple_loop first_from]; [done|].
  rewrite get_spec. run_option. destruct (eqb (mem v i) value); [done|]. apply IH.
Qed.

(** A word that is all zeros, or all ones, has no bit of the other kind. *)
Lemma skip_word w (value : bool) n : w < 2 ^ 64 -> (w =? (if value then 0 else max64)) = true ->
  forall i, i + N.of_nat n <= 64 -> first_from (fun j => eqb (N.testbit w j) value) n i = None.
Proof.
  intros Hw Hskip. breflect. induction n as [|n IH]; intros i Hi; cbn [first_from]; [done|].
  destruct value; subst w.
  - rewrite N.bits_0. simpl. apply IH. lia.
  - change max64 with (N.ones 64). rewrite N.ones_spec_low by lia. simpl. apply IH. lia.
Qed.

Lemma findBitFast_loop_spec pre words si (value : bool) :
  Forall (fun w => w < 2 ^ 64) words -> si < 64 ->
  findBitFast_loop words (N.of_nat (length pre)) si value =
  first_from (fun j => eqb (mem (OutOfLine (pre ++ words)) j) value)
    (64 * length words - N.to_nat si) (64 * N.of_nat (length pre) + si).
Proof.
  intros Hall. revert pre si. induction Hall as [|w words Hw Hall IH]; intros pre si Hsi; [done|].
  cbn [findBitFast_loop]. unfold bitsInPointer, findBitInWord.
  replace (64 * length (w :: words) - N.to_nat si)%nat with ((64 - N.to_nat si) + (64 * length words - N.to_nat 0))%nat
    by (simpl; lia).
  rewrite first_from_app, first_from_shift.
  assert (forall j, j < 64 -> mem (OutOfLine (pre ++ w :: words)) (64 * N.of_nat (length pre) + j) = N.testbit w j) as Hm.
  { intros j Hj. cbn [mem]. replace (64 * N.of_nat (length pre) + j) with (j + N.of_nat (length pre) * 64) by lia.
    rewrite N.div_add, N.Div0.mod_add, N.div_small, N.mod_small, N.add_0_l by lia.
    by rewrite Nat2N.id, lookup_app_r, Nat.sub_diag by lia. }
  rewrite (first_from_ext _ (fun j => eqb (N.testbit w j) value)) by (intros j Hj; rewrite Hm; [done|lia]).
  rewrite findBitInWord_loop_spec. replace (N.to_nat (64 - si)) with (64 - N.to_nat si)%nat by lia.
  assert ((if w =? (if value then 0 else max64) then None
    else first_from (fun j => eqb (N.testbit w j) value) (64 - N.to_nat si) si)
    = first_from (fun j => eqb (N.testbit w j) value) (64 - N.to_nat si) si) as ->.
  { destruct (w =? _) eqn:E; [|done]. symmetry. apply skip_word; [done|done|lia]. }
  destruct (first_from _ (64 - N.to_nat si) si) as [j|]; cbn [fmap option_fmap option_map]; [f_equal; lia|].
  specialize (IH (pre ++ [w]) 0 ltac:(done)). rewrite <- app_assoc, length_app in IH. cbn [app length] in IH.
  replace (N.of_nat (length pre) + 1) with (N.of_nat (length pre + 1)) by lia. rewrite IH.
  f_equal. lia.
Qed.

Lemma findBitFast_first v startIndex value : wf v ->
  findBitFast v startIndex value =
    default (size v) (first_from (fun j => eqb (mem v j) value) (N.to_nat (size v - startIndex)) startIndex).
Proof.
  intros Hwf. { destruct v as [m|words]; unfold findBitFast.
    - unfold findBitInWord. rewrite findBitInWord_loop_spec. change (size (Inline m)) with maxInlineBits.
      f_equal. apply first_from_ext. intros j Hj. cbn [mem]. change maxInlineBits with 63 in Hj.
      replace (j <? 63) with true; [done|]. symmetry. apply N.ltb_lt. lia.
    - f_equal. cbn [size]. unfold bitsInPointer, numWords. destruct Hwf as [_ Hall].
      pose proof (N.div_mod' startIndex 64) as Hdm. pose proof (N.mod_lt startIndex 64 ltac:(done)) as Hmod.
      set (wi := startIndex / 64) in *. set (r := startIndex mod 64) in *. clearbody wi r.
      replace (startIndex - wi * 64) with r by lia.
      destruct (decide (N.to_nat wi <= length words)%nat) as [Hle|Hgt].
      + pose proof (findBitFast_loop_spec (take (N.to_nat wi) words) (drop (N.to_nat wi) words)
          r value (Forall_drop _ _ _ Hall) Hmod) as Hl.
        rewrite take_drop, length_take, length_drop, Nat.min_l, N2Nat.id in Hl by done. rewrite Hl.
        f_equal; lia.
      + rewrite drop_ge by lia. replace (N.to_nat (64 * N.of_nat (length words) - startIndex)) with 0%nat by lia. done. }
Qed.

(** C37: [findBitFast], which skips whole words, finds what the bit by bit [findBitSimple] finds:
    the first index from [startIndex] on with the value, or the size. *)
Theorem findBit_spec (v : BitVector) (startIndex : N) (value : bool) :
  wf v -> findBitSimple v startIndex value = Some (findBitFast v startIndex value) /\
  findBitFast v startIndex value =
    default (size v) (first_from (fun j => eqb (mem v j) value) (N.to_nat (size v - startIndex)) startIndex).
Proof.
  intros Hwf. pose proof (findBitFast_first v startIndex value Hwf) as Hf. split; [|done].
  unfold findBitSimple. rewrite findBitSimple_loop_spec. by rewrite Hf.
Qed.

Lemma filter_none {A} (P : A -> bool) (l : list A) :
  (forall x, x ∈ l -> P x = false) -> filter (fun x => P x = true) l = [].
Proof.
  induction l as [|x l IH]; intros Hl; [done|]. rewrite filter_cons, decide_False; [|by rewrite (Hl x) by (by left)].
  apply IH. intros. apply Hl. by right.
Qed.

Lemma setBits_members v : wf v -> setBits v = members v.
Proof.
  intros Hwf. unfold setBits, members.
  assert (forall fuel i, i <= size v -> (N.to_nat (size v - i) <= fuel)%nat ->
    setBits_loop fuel v (findBitFast v i true) = filter (fun j => mem v j = true) (for_range i (size v))) as Hall.
  { intros fuel. induction fuel as [|fuel IH]; intros i Hi Hfuel; cbn [setBits_loop]; [by rewrite for_range_nil by lia|].
    rewrite (findBitFast_first v i true Hwf).
    destruct (first_from _ (N.to_nat (size v - i)) i) as [j|] eqn:E; cbn [from_option id default].
    - apply first_from_Some in E as (Hj & Hp & Hk). replace (j =? size v) with false by (symmetry; apply N.eqb_neq; lia).
      rewrite IH by lia. rewrite (for_range_app i j (size v)), filter_app by lia.
      rewrite (filter_none (mem v) (for_range i j)).
      + cbn [app]. rewrite (for_range_cons j (size v)) by lia. simpl in Hp. apply eqb_prop in Hp. by rewrite filter_cons, decide_True.
      + intros k Hk'%elem_of_for_range. specialize (Hk k ltac:(lia)). simpl in Hk. by destruct (mem v k).
    - rewrite N.eqb_refl. symmetry. apply filter_none. intros k Hk%elem_of_for_range.
      pose proof (first_from_None _ _ _ E k ltac:(lia)) as Hp. simpl in Hp. by destruct (mem v k). }
  apply Hall; lia.
Qed.

(** The iteration over [setBits] goes through the bits that are set, in increasing order. *)
Theorem setBits_spec (v : BitVector) : wf v -> setBits v = members v /\ NoDup (setBits v) /\
  forall i, i ∈ setBits v <-> mem v i = true.
Proof.
  intros Hwf. rewrite (setBits_members v Hwf). unfold members. split; [done|].
  split; [apply NoDup_filter, NoDup_for_range|]. intros i. rewrite list_elem_of_filter, elem_of_for_range.
  split; [tauto|]. intros Hm. split_and!; [done|lia|]. destruct (N.lt_ge_cases i (size v)); [done|].
  by rewrite mem_ge_size in Hm.
Qed.

(** ** Equality and hash *)

(** Vectors of words that differ by zeros at their end. *)
Definition pad_eq (a b : list N) : Prop := forall k : nat, default 0 (a !! k) = default 0 (b !! k).

Lemma pad_eq_cons x a y b : pad_eq (x :: a) (y :: b) <-> x = y /\ pad_eq a b.
Proof.
  split.
  - intros H. split; [exact (H 0%nat)|]. intros k. exact (H (S k)).
  - intros [-> H] [|k]; [done|apply H].
Qed.

Lemma pad_eq_nil_l x b : pad_eq [] (x :: b) <-> x = 0 /\ pad_eq [] b.
Proof.
  split.
  - intros H. split; [symmetry; exact (H 0%nat)|]. intros k. exact (H (S k)).
  - intros [-> H] [|k]; [done|]. exact (H k).
Qed.

Lemma pad_eq_sym a b : pad_eq a b <-> pad_eq b a.
Proof. split; intros H k; symmetry; apply H. Qed.

Lemma pad_eq_mem a b : Forall (fun w => w < 2 ^ 64) a -> Forall (fun w => w < 2 ^ 64) b ->
  (forall i, mem (OutOfLine a) i = mem (OutOfLine b) i) <-> pad_eq a b.
Proof.
  assert (forall a i, mem (OutOfLine a) i = N.testbit (default 0 (a !!N (i / 64))) (i mod 64)) as Hm.
  { intros l i. cbn [mem]. destruct (l !!N (i / 64)); [done|]. symmetry. apply N.bits_0. }
  intros Ha Hb. split.
  - intros Heq k. apply N.bits_inj. intros j. destruct (decide (j < 64)) as [Hj|Hj].
    + specialize (Heq (j + N.of_nat k * 64)). rewrite !Hm in Heq.
      rewrite N.div_add, N.Div0.mod_add, N.div_small, N.mod_small, N.add_0_l, Nat2N.id in Heq by done. done.
    + assert (forall l, Forall (fun w => w < 2 ^ 64) l -> N.testbit (default 0 (l !! k)) j = false) as Hh.
      { intros l Hl. apply (proj1 (lt_pow2_testbit _ 64)); [|lia]. destruct (l !! k) as [w|] eqn:E; [|done].
        exact (Forall_lookup_1 _ _ _ _ Hl E). }
      by rewrite !Hh.
  - intros Heq i. rewrite !Hm. by rewrite (Heq (N.to_nat (i / 64))).
Qed.

(** What the fast comparison computes. *)
Lemma fast_compare a b :
  (forallb (fun w => w =? 0) (drop (min (length a) (length b)) (if (length a <? length b)%nat then b else a))
   && forallb (fun p => p.1 =? p.2) (zip (take (min (length a) (length b)) a) b)) = true <-> pad_eq a b.
Proof.
  assert (forall l, forallb (fun w => w =? 0) l = true <-> pad_eq [] l) as Hz.
  { intros l. induction l as [|x l IH]; [done|]. rewrite pad_eq_nil_l, <- IH. simpl.
    rewrite andb_true_iff, N.eqb_eq. done. }
  revert b. induction a as [|x a IH]; intros b.
  - destruct b as [|y b]; [done|]. cbn [length Nat.min drop take zip_with forallb].
    rewrite andb_true_r. apply Hz.
  - destruct b as [|y b].
    + cbn [length Nat.min drop take zip_with forallb]. rewrite andb_true_r, pad_eq_sym. apply Hz.
    + rewrite pad_eq_cons, <- IH. cbn [length Nat.min].
      change (S (length a) <? S (length b))%nat with (length a <? length b)%nat.
      assert (drop (S (min (length a) (length b))) (if (length a <? length b)%nat then y :: b else x :: a)
        = drop (min (length a) (length b)) (if (length a <? length b)%nat then b else a)) as -> by (by destruct (_ <? _)%nat).
      cbn [take zip_with forallb fst snd]. rewrite !andb_true_iff, N.eqb_eq. tauto.
Qed.

Lemma hash_pad a b : pad_eq a b -> hashSlowCase a = hashSlowCase b.
Proof.
  assert (forall l, hashSlowCase l = foldr N.lxor 0 l) as Hf.
  { intros l. unfold hashSlowCase. induction l as [|x l IH]; [done|]. cbn [rev foldr].
    rewrite foldl_app, IH. cbn [foldl]. apply N.lxor_comm. }
  rewrite !Hf. clear Hf. assert (forall l, pad_eq [] l -> foldr N.lxor 0 l = 0) as Hz.
  { intros l. induction l as [|x l IH]; [done|]. rewrite pad_eq_nil_l. intros [-> Hl]. simpl. by rewrite IH. }
  revert b. induction a as [|x a IH]; intros [|y b] Hab; [done| | |].
  - symmetry. by apply Hz.
  - by apply Hz, pad_eq_sym.
  - apply pad_eq_cons in Hab as [-> Hab]. cbn [foldr]. by rewrite (IH b).
Qed.

Lemma equalsSlowCaseSimple_spec v other :
  exists r, equalsSlowCaseSimple v other = Some r /\ (r = true <-> forall i, mem v i = mem other i).
Proof.
  unfold equalsSlowCaseSimple.
  assert (forall l (b : bool), foldM (fun (equal : bool) i =>
      if equal then a ← get v i; b ← get other i; Some (eqb a b) else Some false) b l
    = Some (b && forallb (fun i => eqb (mem v i) (mem other i)) l)) as ->.
  { intros l. induction l as [|i l IH]; intros b; cbn [foldM forallb]; [by rewrite andb_true_r|].
    destruct b; run_option; [|by rewrite IH]. rewrite !get_spec. run_option. by rewrite IH. }
  eexists. split; [done|]. cbn [andb]. rewrite forallb_forall. split.
  - intros Hall i. destruct (decide (i < N.max (size v) (size other))) as [Hi|Hi].
    + apply eqb_prop, Hall. rewrite <- in_rev. apply list_elem_of_In, elem_of_for_range. lia.
    + rewrite !mem_ge_size by lia. done.
  - intros Heq i _. by rewrite Heq, eqb_reflx.
Qed.

Lemma hash_mem v other : wf v -> wf other -> (forall i, mem v i = mem other i) -> hash v = hash other.
Proof.
  intros Hv Ho. { intros Heq. assert (forall u, hash u = intHash64 (hashSlowCase (words_of u))) as Hw.
    { intros [m|words]; [|done]. unfold hash, hashSlowCase. cbn [words_of rev app foldl]. by rewrite N.lxor_0_l. }
    rewrite !Hw. f_equal. apply hash_pad. destruct (words_of_wf v Hv) as [_ H1], (words_of_wf other Ho) as [_ H2].
    apply pad_eq_mem; [done..|]. intros i. by rewrite !mem_words_of. }
Qed.

Lemma equals_mem v other : wf v -> wf other ->
  exists r, equals v other = Some r /\ (r = true <-> forall i, mem v i = mem other i).
Proof.
  intros Hv Ho. { destruct v as [m|a], other as [o|b].
    - exists (m =? o). split; [done|]. rewrite N.eqb_eq. split; [by intros ->|]. intros Heq.
      apply inline_flag in Hv as [Hm Hml], Ho as [Hof Hol]. apply N.bits_inj. intros i.
      destruct (decide (i < 63)) as [Hi|Hi].
      + specialize (Heq i). cbn [mem] in Heq. apply N.ltb_lt in Hi. by rewrite Hi in Heq.
      + destruct (decide (i = 63)) as [->|]; [by rewrite Hm|].
        rewrite (proj1 (lt_pow2_testbit m 64) Hml), (proj1 (lt_pow2_testbit o 64) Hol) by lia. done.
    - apply equalsSlowCaseSimple_spec.
    - apply equalsSlowCaseSimple_spec.
    - destruct Hv as [_ Ha], Ho as [_ Hb].
      assert (equals (OutOfLine a) (OutOfLine b) = Some
        (forallb (fun w => w =? 0) (drop (min (length a) (length b)) (if (length a <? length b)%nat then b else a))
         && forallb (fun p => p.1 =? p.2) (zip (take (min (length a) (length b)) a) b))) as ->.
      { cbn [equals equalsSlowCaseFast]. unfold numWords. rewrite <- Nat2N.inj_min, Nat2N.id.
        replace (N.of_nat (length a) <? N.of_nat (length b)) with (length a <? length b)%nat
          by (apply eq_true_iff_eq; rewrite Nat.ltb_lt, N.ltb_lt; lia).
        by destruct (forallb (fun w => w =? 0) _). }
      eexists. split; [done|]. rewrite fast_compare. symmetry. by apply pad_eq_mem. }
Qed.


(** ** Examples *)

Lemma example_wf_inline : wf (Inline (makeInlineBits 5)).
Proof. by apply makeInline_wf. Qed.

Lemma example_wf_words a b : a < 2 ^ 64 -> b < 2 ^ 64 -> wf (OutOfLine [a; b]).
Proof. intros. split; [done|]. by repeat constructor. Qed.

(** A [filter] by an inline bit vector leaves the second word: bit 64 stays set. *)
Example filter_inline_keeps_words :
  (v ← filter_bits (OutOfLine [7; 1]) (Inline (makeInlineBits 5)); get v 64) = Some true.
Proof. by vm_compute. Qed.

Lemma merge_spec_witness :
  exists v', merge_bits (Inline (makeInlineBits 5)) (OutOfLine [6; 1]) = Some v' /\ wf v' /\
    forall i, mem v' i = mem (Inline (makeInlineBits 5)) i || mem (OutOfLine [6; 1]) i.
Proof.
  apply (merge_spec (Inline (makeInlineBits 5)) (OutOfLine [6; 1])).
  - apply example_wf_inline.
  - by apply example_wf_words.
  - right. by vm_compute.
Defined.

Lemma merge_out_of_bounds_witness : merge_bits (OutOfLine [6; 1]) (OutOfLine [9]) = None.
Proof.
  apply (merge_out_of_bounds [6; 1] [9]).
  - by apply example_wf_words.
  - split; [done|]. by apply Forall_singleton.
  - by vm_compute.
Defined.

Lemma filter_spec_witness :
  exists v', filter_bits (OutOfLine [7; 1]) (OutOfLine [6; 3]) = Some v' /\ wf v' /\
    size v' = size (OutOfLine [7; 1]) /\
    forall i, mem v' i = mem (OutOfLine [7; 1]) i && mem (OutOfLine [6; 3]) i.
Proof. by apply (filter_spec (OutOfLine [7; 1]) (OutOfLine [6; 3])); [apply example_wf_words|apply example_wf_words|]. Defined.

Lemma exclude_spec_witness :
  exists v', exclude_bits (OutOfLine [7; 1]) (Inline (makeInlineBits 5)) = Some v' /\ wf v' /\
    size v' = size (OutOfLine [7; 1]) /\
    forall i, mem v' i = mem (OutOfLine [7; 1]) i && negb (mem (Inline (makeInlineBits 5)) i).
Proof.
  apply (exclude_spec (OutOfLine [7; 1]) (Inline (makeInlineBits 5))).
  - by apply example_wf_words.
  - apply example_wf_inline.
Defined.

Lemma set_clear_get_spec_witness :
  exists v', set_value (Inline (makeInlineBits 5)) 100 true = Some (mem (Inline (makeInlineBits 5)) 100, v') /\
    wf v' /\ size (Inline (makeInlineBits 5)) <= size v' /\
    (forall j, get v' j = Some (if j =? 100 then true else mem (Inline (makeInlineBits 5)) j)) /\
    get (Inline (makeInlineBits 5)) 100 = Some (mem (Inline (makeInlineBits 5)) 100).
Proof.
  apply (set_clear_get_spec (Inline (makeInlineBits 5)) 100 true).
  - apply example_wf_inline.
  - by vm_compute.
Defined.

Lemma BitVector_bitCount_spec_witness :
  bitCount (OutOfLine [7; 3]) = N.of_nat (length (members (OutOfLine [7; 3]))).
Proof. apply (BitVector_bitCount_spec (OutOfLine [7; 3])). by apply example_wf_words. Defined.

Lemma findBit_spec_witness :
  findBitSimple (OutOfLine [0; 4]) 3 true = Some (findBitFast (OutOfLine [0; 4]) 3 true) /\
  findBitFast (OutOfLine [0; 4]) 3 true =
    default (size (OutOfLine [0; 4])) (first_from (fun j => eqb (mem (OutOfLine [0; 4]) j) true)
      (N.to_nat (size (OutOfLine [0; 4]) - 3)) 3).
Proof. apply (findBit_spec (OutOfLine [0; 4]) 3 true). by apply example_wf_words. Defined.

Lemma setBits_spec_witness :
  setBits (OutOfLine [5; 4]) = members (OutOfLine [5; 4]) /\ NoDup (setBits (OutOfLine [5; 4])) /\
  forall i, i ∈ setBits (OutOfLine [5; 4]) <-> mem (OutOfLine [5; 4]) i = true.
Proof. apply (setBits_spec (OutOfLine [5; 4])). by apply example_wf_words. Defined.

