(* ===== verification/NFA.v ===== *)
(** * [WebCore/contentextensions/NFANode.h], [NFA.h] and [NFA.cpp]

    The automaton that the patterns are assembled into: transitions on a
    character, on any character but the end of the input, and on nothing. *)

From S2P Require Import Prelude HashTable.

(** ** Data *)

(** WebCore/contentextensions/NFANode.h:45-51 [NFANode] *)
Record NFANode := mkNFANode {
  nfa_transitions : list (N * list N);   (* HashMap<uint16_t, NFANodeIndexSet> *)
  transitionsOnAnyCharacter : list N;    (* NFANodeIndexSet *)
  finalRuleIds : list N                  (* Vector<uint64_t> *)
}.

Definition emptyNFANode : NFANode := mkNFANode [] [] [].

(** WebCore/contentextensions/NFA.h:44-74 [NFA] *)
Record NFA := mkNFA {
  m_nodes : list NFANode;
  m_root : N
}.

(** WebCore/contentextensions/NFA.h:71-71 [NFA::epsilonTransitionCharacter] *)
Definition epsilonTransitionCharacter : N := 256.

(** ** Operations *)

(** WebCore/contentextensions/NFA.cpp:43-48 [NFA::createNode] *)
Definition createNode (nfa : NFA) : N * NFA :=
  let nextId := N.of_nat (length (m_nodes nfa)) in
  (nextId, mkNFA (m_nodes nfa ++ [emptyNFANode]) (m_root nfa)).

(** WebCore/contentextensions/NFA.cpp:38-41 [NFA::NFA] *)
Definition newNFA : NFA :=
  let '(root, nfa) := createNode (mkNFA [] 0) in mkNFA (m_nodes nfa) root.

(** The index of the transition table for a [char]: it is extended with its
    sign to an [int], and cut to the [uint16_t] of the keys. *)
Definition transition_key (character : N) : N :=
  if character <? 128 then character else character + 65280.

(** [transitions.add(key, NFANodeIndexSet()).iterator->value.add(to)] *)
Definition add_to_slot (key to : N) (node : NFANode) : NFANode :=
  let targets := default [] (hmap_find key (nfa_transitions node)) in
  mkNFANode (hmap_set key (hset_add to targets) (nfa_transitions node))
    (transitionsOnAnyCharacter node) (finalRuleIds node).

(** WebCore/contentextensions/NFA.cpp:62-73 [NFA::addTransition] *)
Definition addTransition (nfa : NFA) (from to character : N) : option NFA :=
  fromNode ← m_nodes nfa !!N from;
  if hset_contains to (transitionsOnAnyCharacter fromNode) then Some nfa
  else Some (mkNFA (<[from :=N add_to_slot (transition_key character) to fromNode]> (m_nodes nfa)) (m_root nfa)).

(** WebCore/contentextensions/NFA.cpp:75-82 [NFA::addEpsilonTransition] *)
Definition addEpsilonTransition (nfa : NFA) (from to : N) : option NFA :=
  fromNode ← m_nodes nfa !!N from;
  Some (mkNFA (<[from :=N add_to_slot epsilonTransitionCharacter to fromNode]> (m_nodes nfa)) (m_root nfa)).

(** WebCore/contentextensions/NFA.cpp:84-94 [NFA::addTransitionsOnAnyCharacter]; the
    loop over the transitions removes [to] from copies of their sets, and so
    changes nothing *)
Definition addTransitionsOnAnyCharacter (nfa : NFA) (from to : N) : option NFA :=
  fromNode ← m_nodes nfa !!N from;
  Some (mkNFA (<[from :=N mkNFANode (nfa_transitions fromNode)
                   (hset_add to (transitionsOnAnyCharacter fromNode)) (finalRuleIds fromNode)]> (m_nodes nfa))
          (m_root nfa)).

(** WebCore/contentextensions/NFA.cpp:96-100 [NFA::setActions]; [copyToVector]
    makes the vector the size of the set before it copies the set in *)
Definition nfa_setActions `{HashOrder} (nfa : NFA) (node : N) (finalActions : list N) : option NFA :=
  n ← m_nodes nfa !!N node;
  Some (mkNFA (<[node :=N mkNFANode (nfa_transitions n) (transitionsOnAnyCharacter n)
                   (hash_order finalActions)]> (m_nodes nfa)) (m_root nfa)).

(** WebCore/contentextensions/NFA.cpp:102-105 [NFA::graphSize] *)
Definition graphSize (nfa : NFA) : N := N.of_nat (length (m_nodes nfa)).

(** WebCore/contentextensions/NFA.cpp:107-113 [NFA::restoreToGraphSize] *)
Definition restoreToGraphSize (nfa : NFA) (size : N) : NFA :=
  mkNFA (take (N.to_nat size) (m_nodes nfa)) (m_root nfa).

(** ** The automaton an NFA denotes *)

Definition slot (key : N) (node : NFANode) : list N := default [] (hmap_find key (nfa_transitions node)).

(** The targets of [p] on nothing. *)
Definition eps_edge (nfa : NFA) (p q : N) : Prop :=
  exists node, m_nodes nfa !!N p = Some node /\ q ∈ slot epsilonTransitionCharacter node.

(** The targets of [p] on the character [c]; the end of the input is the
    character 0. *)
Definition char_edge (nfa : NFA) (p c q : N) : Prop :=
  exists node, m_nodes nfa !!N p = Some node /\
    (q ∈ slot c node \/ (c <> 0 /\ q ∈ transitionsOnAnyCharacter node)).

(** [q] can be reached from [p] on the input [w]. *)
Inductive reach (nfa : NFA) : N -> list N -> N -> Prop :=
| reach_refl p : reach nfa p [] p
| reach_eps p q w r : eps_edge nfa p q -> reach nfa q w r -> reach nfa p w r
| reach_char p c q w r : char_edge nfa p c q -> reach nfa q w r -> reach nfa p (c :: w) r.

(** The actions of [q]. *)
Definition final (nfa : NFA) (q action : N) : Prop :=
  exists node, m_nodes nfa !!N q = Some node /\ action ∈ finalRuleIds node.

(** The actions that the input triggers. *)
Definition accepts (nfa : NFA) (w : list N) (action : N) : Prop :=
  exists q, reach nfa (m_root nfa) w q /\ final nfa q action.

(** ** Well-formedness *)

Record nfa_node_ok (size : N) (node : NFANode) : Prop := {
  nn_keys : NoDup (nfa_transitions node).*1;
  nn_slots : forall key targets, (key, targets) ∈ nfa_transitions node ->
    (key < 128 \/ key = epsilonTransitionCharacter) /\ targets <> [] /\ NoDup targets /\
    Forall (fun q => q < size) targets;
  nn_any : NoDup (transitionsOnAnyCharacter node) /\
    Forall (fun q => q < size) (transitionsOnAnyCharacter node);
  nn_final : Forall (fun a => a < 2 ^ 48) (finalRuleIds node)
}.

Record nfa_ok (nfa : NFA) : Prop := {
  nfa_ok_root : m_root nfa < graphSize nfa;
  nfa_ok_nodes : Forall (nfa_node_ok (graphSize nfa)) (m_nodes nfa)
}.

(** ** Lemmas *)

Lemma reach_trans nfa p w1 q w2 r : reach nfa p w1 q -> reach nfa q w2 r -> reach nfa p (w1 ++ w2) r.
Proof. induction 1; intros; simpl; eauto using reach. Qed.

Lemma reach_eps_one nfa p q : eps_edge nfa p q -> reach nfa p [] q.
Proof. eauto using reach. Qed.

Lemma reach_char_one nfa p c q : char_edge nfa p c q -> reach nfa p [c] q.
Proof. eauto using reach. Qed.

Lemma reach_app_inv nfa p w1 w2 r : reach nfa p (w1 ++ w2) r ->
  exists q, reach nfa p w1 q /\ reach nfa q w2 r.
Proof.
  remember (w1 ++ w2) as w eqn:E. intros Hr. revert w1 E.
  induction Hr as [p|p q w r Hpq Hr IH|p c q w r Hpq Hr IH]; intros w1 E.
  - symmetry in E. apply app_eq_nil in E as [-> ->]. exists p. eauto using reach.
  - destruct (IH w1 E) as (q' & ? & ?). exists q'. eauto using reach.
  - destruct w1 as [|c' w1]; simplify_eq/=.
    + exists p. eauto using reach.
    + destruct (IH w1 eq_refl) as (q' & ? & ?). exists q'. eauto using reach.
Qed.

(** A word is read one character at a time, with empty moves around it. *)
Lemma reach_snoc nfa p w c r : reach nfa p (w ++ [c]) r <->
  exists q q', reach nfa p w q /\ char_edge nfa q c q' /\ reach nfa q' [] r.
Proof.
  split.
  - intros (q & Hp & Hq)%reach_app_inv. remember [c] as w1 eqn:E. revert p w Hp E.
    induction Hq as [| p q w1 r Hpq Hr IH| p c' q w1 r Hpq Hr IH]; intros p0 w0 Hp E; simplify_eq.
    + apply (IH p0 w0); [|done]. rewrite <- (app_nil_r w0). eapply reach_trans; [done|]. by apply reach_eps_one.
    + eauto.
  - intros (q & q' & Hp & Hc & Hr). eapply reach_trans; [done|]. by econstructor.
Qed.

Lemma slot_add key key' to node :
  slot key' (add_to_slot key to node)
  = if decide (key' = key) then hset_add to (slot key node) else slot key' node.
Proof. unfold slot, add_to_slot. simpl. rewrite hmap_find_set. by case_decide. Qed.

Lemma elem_of_slot_add key key' to node q :
  q ∈ slot key' (add_to_slot key to node) <-> (key' = key /\ q = to) \/ q ∈ slot key' node.
Proof. rewrite slot_add. case_decide; [subst; rewrite elem_of_hset_add|]; naive_solver. Qed.

Lemma nfa_node_ok_slot size node key :
  nfa_node_ok size node -> Forall (fun q => q < size) (slot key node) /\ NoDup (slot key node).
Proof.
  intros Hok. unfold slot. destruct (hmap_find key (nfa_transitions node)) as [targets|] eqn:E; simpl.
  - apply hmap_find_elem in E. apply Hok in E. naive_solver.
  - split; constructor.
Qed.

Lemma nfa_node_ok_lookup nfa p node :
  nfa_ok nfa -> m_nodes nfa !!N p = Some node -> nfa_node_ok (graphSize nfa) node.
Proof. intros [_ Hall] Hn. by eapply Forall_lookup_1 in Hall. Qed.

Lemma eps_edge_lt nfa p q : nfa_ok nfa -> eps_edge nfa p q -> p < graphSize nfa /\ q < graphSize nfa.
Proof.
  intros Hok (node & Hn & Hq). split; [by apply lookupN_lt in Hn|].
  destruct (nfa_node_ok_slot _ _ epsilonTransitionCharacter (nfa_node_ok_lookup _ _ _ Hok Hn)) as [Hall _].
  rewrite Forall_forall in Hall. auto.
Qed.

Lemma char_edge_lt nfa p c q : nfa_ok nfa -> char_edge nfa p c q -> p < graphSize nfa /\ q < graphSize nfa.
Proof.
  intros Hok (node & Hn & Hq). split; [by apply lookupN_lt in Hn|].
  pose proof (nfa_node_ok_lookup _ _ _ Hok Hn) as Hnode. destruct Hq as [Hq|[_ Hq]].
  - destruct (nfa_node_ok_slot _ _ c Hnode) as [Hall _]. rewrite Forall_forall in Hall. auto.
  - destruct (nn_any _ _ Hnode) as [_ Hall]. rewrite Forall_forall in Hall. auto.
Qed.

Lemma reach_lt nfa p w q : nfa_ok nfa -> reach nfa p w q -> p < graphSize nfa -> q < graphSize nfa.
Proof.
  intros Hok. induction 1 as [|p q w r Hpq _ IH|p c q w r Hpq _ IH]; intros Hp; [done|..]; apply IH.
  - by apply (eps_edge_lt nfa p q Hok Hpq).
  - by apply (char_edge_lt nfa p c q Hok Hpq).
Qed.

(** *** The operations keep the automaton well formed *)

Lemma nfa_node_ok_mono size size' node : size <= size' -> nfa_node_ok size node -> nfa_node_ok size' node.
Proof.
  intros Hle [Hk Hs Ha Hf]. split; [done| | |done].
  - intros key targets Hin. destruct (Hs key targets Hin) as (? & ? & ? & Hall). split_and!; [done..|].
    eapply Forall_impl; [exact Hall|]. simpl. lia.
  - destruct Ha as [? Hall]. split; [done|]. eapply Forall_impl; [exact Hall|]. simpl. lia.
Qed.

Lemma add_to_slot_ok size key to node :
  nfa_node_ok size node -> key < 128 \/ key = epsilonTransitionCharacter -> to < size ->
  nfa_node_ok size (add_to_slot key to node).
Proof.
  intros Hok Hkey Hto. pose proof Hok as [Hk Hs Ha Hf]. split; [by apply NoDup_hmap_set| |done|done].
  intros key' targets Hin. apply hmap_elem_find in Hin; [|by apply NoDup_hmap_set].
  simpl in Hin. rewrite hmap_find_set in Hin. case_decide; simplify_eq.
  - destruct (nfa_node_ok_slot size node key Hok) as [Hall Hnd]. unfold slot in *. split_and!; [done| | |].
    + intros E. assert (to ∈ hset_add to (default [] (hmap_find key (nfa_transitions node)))) as Hin
        by (apply elem_of_hset_add; by left). rewrite E in Hin. by apply not_elem_of_nil in Hin.
    + by apply NoDup_hset_add.
    + apply Forall_forall. intros x [->|Hx]%elem_of_hset_add; [done|]. rewrite Forall_forall in Hall. auto.
  - apply hmap_find_elem in Hin. by apply Hs.
Qed.

Lemma createNode_ok nfa n nfa' : createNode nfa = (n, nfa') -> nfa_ok nfa -> nfa_ok nfa'.
Proof.
  intros [= <- <-] [Hroot Hall]. split; unfold graphSize in *; simpl; rewrite length_app; simpl; [lia|].
  apply Forall_app. split.
  - eapply Forall_impl; [exact Hall|]. intros node. apply nfa_node_ok_mono. lia.
  - apply Forall_singleton. split; simpl; [constructor| |split; constructor|constructor].
    intros ?? Hin. by apply not_elem_of_nil in Hin.
Qed.

Lemma newNFA_ok : nfa_ok newNFA.
Proof.
  split; simpl; [done|]. apply Forall_singleton. split; simpl; [constructor| |split; constructor|constructor].
  intros ?? Hin. by apply not_elem_of_nil in Hin.
Qed.

(** Replacing a node. *)
Lemma insert_node_ok nfa i node :
  nfa_ok nfa -> nfa_node_ok (graphSize nfa) node ->
  nfa_ok (mkNFA (<[i :=N node]> (m_nodes nfa)) (m_root nfa)).
Proof.
  intros [Hroot Hall] Hnode. split; unfold graphSize in *; simpl; rewrite length_insert; [done|].
  by apply Forall_insert.
Qed.

Lemma addTransition_ok nfa from to c nfa' :
  addTransition nfa from to c = Some nfa' -> nfa_ok nfa -> to < graphSize nfa -> c < 128 -> nfa_ok nfa'.
Proof.
  unfold addTransition. intros He Hok Hto Hc. open_option He; [done|]. apply insert_node_ok; [done|].
  apply add_to_slot_ok; [by eapply nfa_node_ok_lookup| |done].
  left. unfold transition_key. apply N.ltb_lt in Hc as Hc'. by rewrite Hc'.
Qed.

Lemma addEpsilonTransition_ok nfa from to nfa' :
  addEpsilonTransition nfa from to = Some nfa' -> nfa_ok nfa -> to < graphSize nfa -> nfa_ok nfa'.
Proof.
  unfold addEpsilonTransition. intros He Hok Hto. open_option He. apply insert_node_ok; [done|].
  apply add_to_slot_ok; [by eapply nfa_node_ok_lookup|by right|done].
Qed.

Lemma addTransitionsOnAnyCharacter_ok nfa from to nfa' :
  addTransitionsOnAnyCharacter nfa from to = Some nfa' -> nfa_ok nfa -> to < graphSize nfa -> nfa_ok nfa'.
Proof.
  unfold addTransitionsOnAnyCharacter. intros He Hok Hto. open_option He. apply insert_node_ok; [done|].
  match goal with H : m_nodes nfa !!N from = Some ?n |- _ =>
    pose proof (nfa_node_ok_lookup _ _ _ Hok H) as [Hk Hs [Hn Ha] Hf] end.
  split; simpl; [done|done| |done]. split; [by apply NoDup_hset_add|].
  apply Forall_forall. intros x [->|Hx]%elem_of_hset_add; [done|]. rewrite Forall_forall in Ha. auto.
Qed.

Lemma nfa_setActions_ok `{HashOrder} nfa i acts nfa' :
  nfa_setActions nfa i acts = Some nfa' -> nfa_ok nfa -> Forall (fun a => a < 2 ^ 48) acts -> nfa_ok nfa'.
Proof.
  unfold nfa_setActions. intros He Hok Ha. open_option He. apply insert_node_ok; [done|].
  match goal with H : m_nodes nfa !!N i = Some ?n |- _ =>
    pose proof (nfa_node_ok_lookup _ _ _ Hok H) as [Hk Hs Hany Hf] end.
  split; simpl; [done..|]. by rewrite hash_order_perm.
Qed.

(** *** A checker of the well-formedness *)

Definition nfa_node_okb (size : N) (node : NFANode) : bool :=
  bool_decide (NoDup (nfa_transitions node).*1)
  && forallb (fun s => ((s.1 <? 128) || (s.1 =? epsilonTransitionCharacter)) && bool_decide (s.2 <> [])
                       && bool_decide (NoDup s.2) && forallb (fun q => q <? size) s.2) (nfa_transitions node)
  && bool_decide (NoDup (transitionsOnAnyCharacter node))
  && forallb (fun q => q <? size) (transitionsOnAnyCharacter node)
  && forallb (fun a => a <? 2 ^ 48) (finalRuleIds node).

Definition nfa_okb (nfa : NFA) : bool :=
  (m_root nfa <? graphSize nfa) && forallb (nfa_node_okb (graphSize nfa)) (m_nodes nfa).

Lemma forallb_ltb size l : forallb (fun q => q <? size) l = true -> Forall (fun q => q < size) l.
Proof.
  rewrite forallb_forall. intros Hall. apply Forall_forall. intros x Hx%list_elem_of_In.
  by apply N.ltb_lt, Hall.
Qed.

Lemma nfa_okb_spec nfa : nfa_okb nfa = true -> nfa_ok nfa.
Proof.
  unfold nfa_okb. intros [Hroot Hall]%andb_true_iff. split; [by apply N.ltb_lt|].
  rewrite forallb_forall in Hall. apply Forall_forall. intros node Hn%list_elem_of_In.
  specialize (Hall node Hn). unfold nfa_node_okb in Hall. breflect.
  match goal with H : forallb _ (nfa_transitions node) = true |- _ =>
    rename H into Hslots; rewrite forallb_forall in Hslots end.
  split; [by eapply bool_decide_eq_true| | |by apply forallb_ltb].
  - intros key targets Hin%list_elem_of_In. specialize (Hslots _ Hin). simpl in Hslots. breflect.
    split_and!; [|by eapply bool_decide_eq_true|by eapply bool_decide_eq_true|by apply forallb_ltb].
    match goal with H : _ || _ = true |- _ => apply orb_true_iff in H as [?|?] end; breflect; auto.
  - split; [by eapply bool_decide_eq_true|by apply forallb_ltb].
Qed.
