(* ===== verification/NFAToDFA.v ===== *)
(** * [WebCore/contentextensions/NFAToDFA.cpp]

    The subset construction.  A state of the DFA is a set of NFA nodes that is
    closed under the empty moves.  The definitions of this file follow the code;
    [NFAToDFACorrect.v] shows that the DFA triggers on every input the actions
    that the NFA triggers. *)

From S2P Require Import Prelude HashTable DFA NFA.

(** [Vector::takeLast] *)
Definition takeLast {A} (l : list A) : option (A * list A) :=
  a ← last l; Some (a, removelast l).

(** [Vector::isEmpty] and [HashSet::isEmpty] *)
Definition isEmpty {A} (l : list A) : bool := match l with [] => true | _ => false end.

Section NFAToDFA.
Context `{HashOrder}.

(** ** Closures *)

(** The local variables of [epsilonClosureExcludingSelf]. *)
Record Closure := mkClosure {
  closure : list N;
  unprocessedNodes : list N;
  output : list N
}.

(** WebCore/contentextensions/NFAToDFA.cpp:65-71 [epsilonClosureExcludingSelf], the inner loop *)
Definition closure_add (s : Closure) (targetNodeId : N) : Closure :=
  if hset_contains targetNodeId (closure s) then s
  else mkClosure (hset_add targetNodeId (closure s)) (unprocessedNodes s ++ [targetNodeId])
         (output s ++ [targetNodeId]).

(** WebCore/contentextensions/NFAToDFA.cpp:60-73 [epsilonClosureExcludingSelf], the outer loop *)
Fixpoint closure_loop (fuel : nat) (nfaGraph : list NFANode) (s : Closure) : option (list N) :=
  match fuel with
  | O => None
  | S fuel' =>
    r ← takeLast (unprocessedNodes s);
    node ← nfaGraph !!N r.1;
    let s := mkClosure (closure s) r.2 (output s) in
    let s := match hmap_find epsilonTransitionCharacter (nfa_transitions node) with
             | Some targets => foldl closure_add s (hash_order targets)
             | None => s
             end in
    if isEmpty (unprocessedNodes s) then Some (output s)
    else closure_loop fuel' nfaGraph s
  end.

(** WebCore/contentextensions/NFAToDFA.cpp:46-74 [epsilonClosureExcludingSelf]; every node is taken
    out once, so the size of the graph bounds the turns of the loop *)
Definition epsilonClosureExcludingSelf (nfaGraph : list NFANode) (nodeId : N) : option (list N) :=
  node ← nfaGraph !!N nodeId;
  match hmap_find epsilonTransitionCharacter (nfa_transitions node) with
  | None => Some []
  | Some targets =>
      let unprocessed := hash_order targets in
      closure_loop (S (length nfaGraph)) nfaGraph
        (mkClosure (hset_add_range unprocessed [nodeId]) unprocessed unprocessed)
  end.

(** WebCore/contentextensions/NFAToDFA.cpp:83-88 [resolveEpsilonClosures], the second loop *)
Definition remove_epsilon (nfaNodeClosures : list (list N)) (graph : list NFANode) (nodeId : N)
    : option (list NFANode) :=
  nodeClosure ← nfaNodeClosures !!N nodeId;
  node ← graph !!N nodeId;
  Some (if negb (isEmpty nodeClosure)
        then <[nodeId :=N mkNFANode (hmap_remove epsilonTransitionCharacter (nfa_transitions node))
                  (transitionsOnAnyCharacter node) (finalRuleIds node)]> graph
        else graph).

(** WebCore/contentextensions/NFAToDFA.cpp:76-89 [resolveEpsilonClosures] *)
Definition resolveEpsilonClosures (nfaGraph : list NFANode)
    : option (list NFANode * list (list N)) :=
  let nfaGraphSize := N.of_nat (length nfaGraph) in
  nfaNodeClosures ← mapM (epsilonClosureExcludingSelf nfaGraph) (for_range 0 nfaGraphSize);
  graph ← foldM (remove_epsilon nfaNodeClosures) nfaGraph (for_range 0 nfaGraphSize);
  Some (graph, nfaNodeClosures).

(** WebCore/contentextensions/NFAToDFA.cpp:91-97 [extendSetWithClosure] *)
Definition extendSetWithClosure (nfaNodeClosures : list (list N)) (nodeId : N) (set : list N)
    : option (list N) :=
  nodeClosure ← nfaNodeClosures !!N nodeId;
  Some (if negb (isEmpty nodeClosure) then hset_add_range nodeClosure set else set).

(** ** The table of the sets *)

(** WebCore/contentextensions/NFAToDFA.cpp:99-115 [UniqueNodeIdSetImpl]; the hash is a function
    of the set, so a search in the table is a search for an equal set *)
Record UniqueNodeIdSet := mkUniqueNodeIdSet {
  m_buffer : list N;
  m_dfaNodeId : N
}.

(** WebCore/contentextensions/NFAToDFA.cpp:171-181 [UniqueNodeIdSet::operator==] *)
Definition same_set (a : UniqueNodeIdSet) (other : list N) : bool :=
  (length (m_buffer a) =? length other)%nat && forallb (fun n => hset_contains n other) (m_buffer a).

(** The variables of [convert]. *)
Record Conversion := mkConversion {
  c_dfa : DFA;
  uniqueNodeIdSetTable : list UniqueNodeIdSet;
  unprocessedSets : list UniqueNodeIdSet
}.

(** WebCore/contentextensions/NFAToDFA.cpp:245-271 [NodeIdSetToUniqueNodeIdSetTranslator::translate] *)
Definition translate (nodeIdSet : list N) (nfaGraph : list NFANode) (dfa : DFA)
    : option (UniqueNodeIdSet * DFA) :=
  acts ← foldM (fun acts nfaNodeId =>
             nfaNode ← nfaGraph !!N nfaNodeId; Some (hset_add_range (finalRuleIds nfaNode) acts))
           [] (hash_order nodeIdSet);
  let actionsStart := N.of_nat (length (actions dfa)) in
  let dfa := with_actions dfa (actions dfa ++ hash_order acts) in
  let actionsEnd := N.of_nat (length (actions dfa)) in
  let actionsLength := actionsEnd - actionsStart in
  _ ← release_assert (actionsLength <=? max16);
  let newDFANode := setActions emptyNode actionsStart (wrap16 actionsLength) in
  let dfaNodeId := N.of_nat (length (nodes dfa)) in
  Some (mkUniqueNodeIdSet (hash_order nodeIdSet) dfaNodeId, with_nodes dfa (nodes dfa ++ [newDFANode])).

(** WebCore/contentextensions/NFAToDFA.cpp:338-346 [getOrCreateDFANode] *)
Definition getOrCreateDFANode (nfaNodeSet : list N) (nfaGraph : list NFANode) (s : Conversion)
    : option (N * Conversion) :=
  match find (fun a => same_set a nfaNodeSet) (uniqueNodeIdSetTable s) with
  | Some a => Some (m_dfaNodeId a, s)
  | None =>
      r ← translate nfaNodeSet nfaGraph (c_dfa s);
      Some (m_dfaNodeId r.1,
            mkConversion r.2 (uniqueNodeIdSetTable s ++ [r.1]) (unprocessedSets s ++ [r.1]))
  end.

(** ** Transitions of a set *)

(** WebCore/contentextensions/NFAToDFA.cpp:318-322 [populateTransitions], the fallback *)
Definition fallback_add (nfaNodeclosures : list (list N)) (setFallbackTransition : list N) (targetNodeId : N)
    : option (list N) :=
  if hset_contains targetNodeId setFallbackTransition then Some setFallbackTransition
  else extendSetWithClosure nfaNodeclosures targetNodeId (hset_add targetNodeId setFallbackTransition).

(** WebCore/contentextensions/NFAToDFA.cpp:326-334 [populateTransitions], one slot of a node *)
Definition slot_add (nfaNodeclosures : list (list N)) (setFallbackTransition : list N)
    (setTransitions : list (list N)) (transitionSlot : N * list N) : option (list (list N)) :=
  targetSet ← setTransitions !!N transitionSlot.1;
  targetSet ← foldM (fun targetSet targetNodeId =>
                       extendSetWithClosure nfaNodeclosures targetNodeId (hset_add targetNodeId targetSet))
                targetSet (hash_order transitionSlot.2);
  let targetSet := if transitionSlot.1 =? 0 then targetSet
                   else hset_add_range (hash_order setFallbackTransition) targetSet in
  vec_set setTransitions transitionSlot.1 targetSet.

(** WebCore/contentextensions/NFAToDFA.cpp:301-336 [populateTransitions] *)
Definition populateTransitions (setTransitions : list (list N)) (sourceNodeSet : list N)
    (graph : list NFANode) (nfaNodeclosures : list (list N)) : option (list (list N) * list N) :=
  allFallbackTransitions ← foldM (fun all nodeId =>
      nfaSourceNode ← graph !!N nodeId;
      Some (all ++ hash_order (transitionsOnAnyCharacter nfaSourceNode))) [] sourceNodeSet;
  setFallbackTransition ← foldM (fallback_add nfaNodeclosures) [] allFallbackTransitions;
  setTransitions ← foldM (fun setTransitions nodeId =>
      node ← graph !!N nodeId;
      foldM (slot_add nfaNodeclosures setFallbackTransition) setTransitions
        (hash_order (nfa_transitions node))) setTransitions sourceNodeSet;
  Some (setTransitions, setFallbackTransition).

(** ** The conversion *)

(** WebCore/contentextensions/NFAToDFA.cpp:377-388 [NFAToDFA::convert], the loop over the characters *)
Definition add_key (nfaGraph : list NFANode) (s : list (list N) * Conversion) (key : N)
    : option (list (list N) * Conversion) :=
  let '(transitionsFromClosedSet, s) := s in
  targetNodeSet ← transitionsFromClosedSet !!N key;
  if isEmpty targetNodeSet then Some (transitionsFromClosedSet, s)
  else
    r ← getOrCreateDFANode targetNodeSet nfaGraph s;
    let '(targetNodeId, s) := r in
    _ ← release_assert (key <=? 127);
    let dfa := c_dfa s in
    let dfa := with_transitions dfa (transitions dfa ++ [(wrap8 key, targetNodeId)]) in
    transitionsFromClosedSet ← vec_set transitionsFromClosedSet key [];
    Some (transitionsFromClosedSet, mkConversion dfa (uniqueNodeIdSetTable s) (unprocessedSets s)).

(** WebCore/contentextensions/NFAToDFA.cpp:370-398 [NFAToDFA::convert], one turn of the loop *)
Definition process_set (nfaGraph : list NFANode) (nfaNodeClosures : list (list N))
    (s : list (list N) * Conversion) : option (list (list N) * Conversion) :=
  let '(transitionsFromClosedSet, s) := s in
  r ← takeLast (unprocessedSets s);
  let '(uniqueNodeIdSetImpl, rest) := r in
  let s := mkConversion (c_dfa s) (uniqueNodeIdSetTable s) rest in
  let dfaNodeId := m_dfaNodeId uniqueNodeIdSetImpl in
  r ← populateTransitions transitionsFromClosedSet (m_buffer uniqueNodeIdSetImpl) nfaGraph nfaNodeClosures;
  let '(transitionsFromClosedSet, setFallbackTransition) := r in
  let transitionsStart := N.of_nat (length (transitions (c_dfa s))) in
  r ← foldM (add_key nfaGraph) (transitionsFromClosedSet, s)
        (for_range 0 (N.of_nat (length transitionsFromClosedSet)));
  let '(transitionsFromClosedSet, s) := r in
  let transitionsEnd := N.of_nat (length (transitions (c_dfa s))) in
  let transitionsLength := transitionsEnd - transitionsStart in
  _ ← release_assert (transitionsLength <=? 127);
  node ← nodes (c_dfa s) !!N dfaNodeId;
  let dfa := with_nodes (c_dfa s)
    (<[dfaNodeId :=N setTransitions node transitionsStart (wrap8 transitionsLength)]> (nodes (c_dfa s))) in
  let s := mkConversion dfa (uniqueNodeIdSetTable s) (unprocessedSets s) in
  if isEmpty setFallbackTransition then Some (transitionsFromClosedSet, s)
  else
    r ← getOrCreateDFANode setFallbackTransition nfaGraph s;
    let '(targetNodeId, s) := r in
    dfaSourceNode ← nodes (c_dfa s) !!N dfaNodeId;
    r ← addFallbackTransition dfaSourceNode (c_dfa s) targetNodeId;
    let '(dfaSourceNode, dfa) := r in
    let dfa := with_nodes dfa (<[dfaNodeId :=N dfaSourceNode]> (nodes dfa)) in
    Some (transitionsFromClosedSet, mkConversion dfa (uniqueNodeIdSetTable s) (unprocessedSets s)).

(** What the loop of [convert] comes to when it does not crash. *)
Inductive conversion_result :=
| Converted (dfa : DFA)
| Unfinished (s : list (list N) * Conversion).

(** WebCore/contentextensions/NFAToDFA.cpp:369-399 [NFAToDFA::convert], the loop over the sets *)
Fixpoint convert_loop (fuel : nat) (nfaGraph : list NFANode) (nfaNodeClosures : list (list N))
    (s : list (list N) * Conversion) : option conversion_result :=
  match fuel with
  | O => Some (Unfinished s)
  | S fuel' =>
    s ← process_set nfaGraph nfaNodeClosures s;
    if isEmpty (unprocessedSets s.2) then Some (Converted (c_dfa s.2))
    else convert_loop fuel' nfaGraph nfaNodeClosures s
  end.

(** WebCore/contentextensions/NFAToDFA.cpp:348-402 [NFAToDFA::convert] *)
Definition convert (fuel : nat) (nfa : NFA) : option conversion_result :=
  r ← resolveEpsilonClosures (m_nodes nfa);
  let '(nfaGraph, nfaNodeClosures) := r in
  initialSet ← extendSetWithClosure nfaNodeClosures (m_root nfa) [m_root nfa];
  r ← translate initialSet nfaGraph emptyDFA;
  let '(unique, dfa) := r in
  convert_loop fuel nfaGraph nfaNodeClosures
    (replicate 128 [], mkConversion dfa [unique] [unique]).
End NFAToDFA.

#[global] Arguments conversion_result : clear implicits.
