(* ===== verification/NFAToDFACorrect.v ===== *)
(** * The subset construction is correct

    The first part shows that the closures are the nodes that empty moves
    reach; the second, that the transitions of a set are the union of the
    transitions of its nodes; the third, that the loop of [convert] ends and
    builds an automaton in which every node stands for one set. *)

From S2P Require Import Prelude HashTable DFA NFA NFAToDFA.

Section Closures.
Context `{HashOrder} (nfa : NFA) (Hok : nfa_ok nfa).

(** The nodes that empty moves reach. *)
Definition eps_star (p q : N) : Prop := rtc (eps_edge nfa) p q.

Definition closure_of (p : N) (closure : list N) : Prop :=
  forall q, (q = p \/ q ∈ closure) <-> eps_star p q.

Lemma eps_star_reach p q : eps_star p q <-> reach nfa p [] q.
Proof.
  split.
  - induction 1; eauto using reach.
  - remember [] as w eqn:E. intros Hr. induction Hr as [p|p q w r Hpq _ IH|]; [apply rtc_refl| |done].
    eapply rtc_l; [done|]. by apply IH.
Qed.

Lemma eps_star_lt p q : eps_star p q -> p < graphSize nfa -> q < graphSize nfa.
Proof. intros Hpq%eps_star_reach. by eapply reach_lt. Qed.

(** Distinct nodes of the graph are no more than its nodes. *)
Lemma nodes_bound (l : list N) :
  NoDup l -> Forall (fun q => q < graphSize nfa) l -> (length l <= length (m_nodes nfa))%nat.
Proof.
  intros Hnd Hall.
  assert ((N.to_nat <$> l) ⊆+ seq 0 (length (m_nodes nfa))) as Hsub%submseteq_length.
  { apply NoDup_submseteq.
    - apply NoDup_fmap_2; [|done]. intros x y. lia.
    - intros x (q & -> & Hq)%list_elem_of_fmap. rewrite Forall_forall in Hall. specialize (Hall q Hq).
      apply elem_of_seq. unfold graphSize in Hall. lia. }
  by rewrite length_fmap, length_seq in Hsub.
Qed.

Record closure_inv (p : N) (s : Closure) : Prop := {
  cl_closure : forall q, q ∈ closure s <-> q = p \/ q ∈ output s;
  cl_nodup : NoDup (output s);
  cl_star : forall q, q ∈ output s -> eps_star p q;
  cl_todo : forall q, q ∈ unprocessedNodes s -> q ∈ output s;
  cl_done : forall q r, q = p \/ q ∈ output s -> q ∉ unprocessedNodes s -> eps_edge nfa q r -> r ∈ closure s
}.

(** The inner loop adds the targets of [u]. *)
Lemma closure_add_inv p u targets s :
  closure_inv p s -> (u = p \/ u ∈ output s) -> (forall t, t ∈ targets -> eps_edge nfa u t) ->
  let s' := foldl closure_add s targets in
  closure_inv p s' /\ (forall t, t ∈ targets -> t ∈ closure s') /\
  (forall q, q ∈ closure s -> q ∈ closure s') /\
  (length (unprocessedNodes s') + length (output s) = length (unprocessedNodes s) + length (output s'))%nat.
Proof.
  revert s. induction targets as [|t targets IH]; intros s Hinv Hu Hedges; cbn [foldl].
  - split_and!; [done| |done|done]. intros t Ht. by apply not_elem_of_nil in Ht.
  - assert (eps_star p t) as Ht.
    { eapply rtc_r; [|apply Hedges; by left]. destruct Hu as [->|Hu]; [apply rtc_refl|by apply Hinv]. }
    assert (closure_inv p (closure_add s t) /\ t ∈ closure (closure_add s t) /\
      (forall q, q ∈ closure s -> q ∈ closure (closure_add s t)) /\
      (u = p \/ u ∈ output (closure_add s t)) /\
      (length (unprocessedNodes (closure_add s t)) + length (output s)
       = length (unprocessedNodes s) + length (output (closure_add s t)))%nat) as (Hinv' & Hin & Hmono & Hu' & Hlen).
    { unfold closure_add. destruct (hset_contains t (closure s)) eqn:E.
      - apply hset_contains_spec in E. done.
      - assert (t ∉ closure s) as Hnew by (intros ?%hset_contains_spec; congruence).
        pose proof Hinv as [H1 H2 H3 H4 H5]. split_and!; simpl.
        + split; simpl.
          * intros q. rewrite elem_of_hset_add, H1, elem_of_app, list_elem_of_singleton. tauto.
          * apply NoDup_app. split; [done|]. split; [|apply NoDup_singleton].
            intros x Hx ->%list_elem_of_singleton. apply Hnew, H1. by right.
          * intros q. rewrite elem_of_app, list_elem_of_singleton. naive_solver.
          * intros q. rewrite !elem_of_app, list_elem_of_singleton. naive_solver.
          * intros q r. rewrite !not_elem_of_app, elem_of_app, list_elem_of_singleton, elem_of_hset_add.
            intros ? [? ?] ?. right. apply (H5 q); naive_solver.
        + apply elem_of_hset_add. by left.
        + intros q ?. apply elem_of_hset_add. by right.
        + destruct Hu as [->|Hu]; [by left|]. right. apply elem_of_app. by left.
        + rewrite !length_app. simpl. lia. }
    destruct (IH (closure_add s t) Hinv' Hu') as (Hi & Ht' & Hm & Hl).
    { intros t' ?. apply Hedges. by right. }
    split_and!; [done| |naive_solver|lia].
    intros t' [->|?]%elem_of_cons; auto.
Qed.

Lemma closure_add_output targets s : (length (output s) <= length (output (foldl closure_add s targets)))%nat.
Proof.
  revert s. induction targets as [|t targets IH]; intros s; cbn [foldl]; [done|].
  etrans; [|apply IH]. unfold closure_add. destruct (hset_contains t (closure s)); [done|].
  simpl. rewrite length_app. lia.
Qed.

Lemma takeLast_snoc {A} (l : list A) (x : A) : takeLast (l ++ [x]) = Some (x, l).
Proof. unfold takeLast. rewrite last_snoc. simpl. by rewrite removelast_last. Qed.

Lemma closure_loop_spec p fuel s :
  p < graphSize nfa -> closure_inv p s -> unprocessedNodes s <> [] ->
  (length (m_nodes nfa) + length (unprocessedNodes s) <= fuel + length (output s))%nat ->
  exists out, closure_loop fuel (m_nodes nfa) s = Some out /\ NoDup out /\ closure_of p out /\
    (length (output s) <= length out)%nat.
Proof.
  intros Hp. revert s. induction fuel as [|fuel IH]; intros s Hinv Hne Hfuel.
  - exfalso. assert (length (output s) <= length (m_nodes nfa))%nat.
    { apply nodes_bound; [apply Hinv|]. apply Forall_forall. intros q Hq. eapply eps_star_lt; [|done]. by apply Hinv. }
    destruct (unprocessedNodes s); [done|]. simpl in Hfuel. lia.
  - destruct s as [cl un out]. simpl in Hne. destruct un as [|u un _] using rev_ind; [done|]. clear Hne.
    cbn [closure_loop unprocessedNodes]. rewrite takeLast_snoc. run_option. cbn [fst snd closure output].
    assert (u ∈ out) as Hu by (apply Hinv; simpl; apply elem_of_app; right; by left).
    assert (u < graphSize nfa) as Hult by (eapply eps_star_lt; [by apply Hinv|done]).
    destruct (lookupN_is_Some (m_nodes nfa) u Hult) as [node Hn]. rewrite Hn. run_option.
    set (targets := slot epsilonTransitionCharacter node).
    set (s1 := mkClosure cl un out).
    assert (match hmap_find epsilonTransitionCharacter (nfa_transitions node) with
            | Some targets => foldl closure_add s1 (hash_order targets) | None => s1 end
            = foldl closure_add s1 (hash_order targets)) as ->.
    { unfold targets, slot. destruct (hmap_find _ _); [done|]. simpl. by rewrite hash_order_nil. }
    set (s2 := foldl closure_add (mkClosure cl (un ++ [u]) out) (hash_order targets)).
    set (s3 := foldl closure_add s1 (hash_order targets)).
    assert (forall t, t ∈ hash_order targets -> eps_edge nfa u t) as Hedges.
    { intros t Ht. exists node. split; [done|]. by rewrite elem_of_hash_order in Ht. }
    destruct (closure_add_inv p u (hash_order targets) _ Hinv (or_intror Hu) Hedges) as (Hi2 & Hin2 & Hm2 & Hl2).
    fold s2 in Hi2, Hin2, Hm2, Hl2.
    assert (closure s3 = closure s2 /\ output s3 = output s2 /\
      exists extra, unprocessedNodes s3 = un ++ extra /\ unprocessedNodes s2 = un ++ [u] ++ extra)
      as (Hc & Ho & extra & Hun3 & Hun2).
    { unfold s2, s3, s1. clear. generalize (hash_order targets) as l.
      assert (forall l cl out ex, let a := foldl closure_add (mkClosure cl (un ++ ex) out) l in
        let b := foldl closure_add (mkClosure cl (un ++ [u] ++ ex) out) l in
        closure a = closure b /\ output a = output b /\
        exists extra, unprocessedNodes a = un ++ extra /\ unprocessedNodes b = un ++ [u] ++ extra) as Hgen.
      { induction l as [|t l IH]; intros cl0 out0 ex; cbn [foldl]; [by eauto|].
        unfold closure_add at 2 4 6 8 10 12. cbn [closure unprocessedNodes output].
        destruct (hset_contains t cl0); [apply IH|].
        specialize (IH (hset_add t cl0) (out0 ++ [t]) (ex ++ [t])). rewrite !app_assoc in *. apply IH. }
      intros l. specialize (Hgen l cl out []). by rewrite !app_nil_r in Hgen. }
    assert (closure_inv p s3) as Hi3.
    { pose proof Hi2 as [H1 H2 H3 H4 H5]. split; rewrite ?Hc, ?Ho; [done..| |].
      - intros q. rewrite Hun3. intros Hq. apply H4. rewrite Hun2. set_solver.
      - intros q r Hq Hnot He. destruct (decide (q = u)) as [->|Hqu].
        + apply Hin2. apply elem_of_hash_order. destruct He as (node' & Hn' & Hr). by simplify_eq.
        + apply (H5 q r Hq); [|done]. rewrite Hun2. rewrite Hun3 in Hnot. set_solver. }
    simpl in Hl2. rewrite Hun2, !length_app in Hl2. rewrite Hun3.
    destruct (isEmpty (un ++ extra)) eqn:Ee.
    + exists (output s3). split; [done|]. split; [apply Hi3|]. split; [|apply (closure_add_output _ s1)].
      assert (unprocessedNodes s3 = []) as He by (rewrite Hun3; by destruct (un ++ extra)).
      intros q. split.
      * intros [->|Hq]; [apply rtc_refl|by apply Hi3].
      * intros Hq. apply (cl_closure p s3 Hi3). revert q Hq.
        apply (rtc_ind_r (fun q => q ∈ closure s3)); [apply Hi3; by left|].
        intros q1 q2 _ H12 Hq1. eapply (cl_done p s3 Hi3); [by apply (cl_closure p s3 Hi3)| |done].
        rewrite He. apply not_elem_of_nil.
    + destruct (IH s3) as (out' & ? & ? & ? & ?); [done| | |].
      * rewrite Hun3. by destruct (un ++ extra).
      * rewrite Hun3, Ho, length_app. simpl in Hl2, Hfuel. rewrite length_app in Hfuel. simpl in Hfuel. lia.
      * exists out'. split_and!; [done..|]. etrans; [apply (closure_add_output (hash_order targets) s1)|done].
Qed.

Lemma epsilonClosureExcludingSelf_spec p :
  p < graphSize nfa ->
  exists out, epsilonClosureExcludingSelf (m_nodes nfa) p = Some out /\ NoDup out /\ closure_of p out /\
    (forall node, m_nodes nfa !!N p = Some node -> isEmpty out = true ->
      epsilonTransitionCharacter ∉ (nfa_transitions node).*1).
Proof.
  intros Hp. destruct (lookupN_is_Some (m_nodes nfa) p Hp) as [node Hn].
  unfold epsilonClosureExcludingSelf. rewrite Hn. run_option.
  pose proof (nfa_node_ok_lookup nfa p node Hok Hn) as Hnode.
  destruct (hmap_find epsilonTransitionCharacter (nfa_transitions node)) as [targets|] eqn:E.
  - assert (hash_order targets ≡ₚ targets) as Hperm by apply hash_order_perm.
    pose proof (hmap_find_elem _ _ _ E) as Hin. apply Hnode in Hin as (_ & Hne & Hnd & Hall).
    assert (forall t, t ∈ hash_order targets -> eps_edge nfa p t) as Hedges.
    { intros t Ht. exists node. split; [done|]. unfold slot. rewrite E. simpl. by rewrite Hperm in Ht. }
    assert (length (hash_order targets) <= length (m_nodes nfa))%nat as Hlen.
    { apply nodes_bound; by rewrite Hperm. }
    destruct (closure_loop_spec p (S (length (m_nodes nfa)))
      (mkClosure (hset_add_range (hash_order targets) [p]) (hash_order targets) (hash_order targets)))
      as (out & Hout & Hnd' & Hcl & Hge); simpl.
    + done.
    + split; simpl.
      * intros q. rewrite elem_of_hset_add_range, list_elem_of_singleton. tauto.
      * by rewrite Hperm.
      * intros q Hq. by apply rtc_once, Hedges.
      * done.
      * intros q r [->|Hq] Hnot He; [|done]. apply elem_of_hset_add_range. left.
        destruct He as (node' & Hn' & Hr). simplify_eq. unfold slot in Hr. rewrite E in Hr. by rewrite Hperm.
    + intros Hnil. rewrite Hnil in Hperm. by apply Permutation_nil_l in Hperm.
    + lia.
    + exists out. split_and!; [done..|]. intros node' Hn' Hemp. exfalso. simplify_eq.
      destruct out; [|done]. simpl in Hge. rewrite Hperm in Hge.
      destruct targets; [done|]. simpl in Hge. lia.
  - exists []. split_and!; [done|constructor| |].
    + intros q. rewrite elem_of_nil. split.
      * intros [->|[]]. apply rtc_refl.
      * intros Hq. left. destruct Hq as [|q1 q2 q3 (node' & Hn' & Hr) _]; [done|]. simplify_eq.
        unfold slot in Hr. rewrite E in Hr. by apply elem_of_nil in Hr.
    + intros node' Hn' _. simplify_eq. by apply hmap_find_None.
Qed.

(** A node without its empty moves. *)
Definition strip (node : NFANode) : NFANode :=
  mkNFANode (hmap_remove epsilonTransitionCharacter (nfa_transitions node))
    (transitionsOnAnyCharacter node) (finalRuleIds node).

Lemma strip_id node : epsilonTransitionCharacter ∉ (nfa_transitions node).*1 -> strip node = node.
Proof.
  intros Hnot. destruct node as [m a f]. unfold strip. simpl in *. f_equal.
  induction m as [|[k v] m IH]; [done|]. simpl in Hnot. apply not_elem_of_cons in Hnot as [Hk Hnot].
  unfold hmap_remove in *. rewrite filter_cons. simpl. rewrite decide_True by done. by rewrite IH.
Qed.

(** The closures of all the nodes. *)
Definition closures_ok (closures : list (list N)) : Prop :=
  forall p, p < graphSize nfa -> exists cl, closures !!N p = Some cl /\ closure_of p cl.

Lemma resolveEpsilonClosures_spec :
  exists closures, resolveEpsilonClosures (m_nodes nfa) = Some (strip <$> m_nodes nfa, closures) /\
    closures_ok closures.
Proof.
  set (spec := fun p out => closure_of p out /\ (forall node, m_nodes nfa !!N p = Some node ->
    isEmpty out = true -> epsilonTransitionCharacter ∉ (nfa_transitions node).*1)).
  assert (exists closures, mapM (epsilonClosureExcludingSelf (m_nodes nfa)) (for_range 0 (graphSize nfa))
    = Some closures /\ Forall2 spec (for_range 0 (graphSize nfa)) closures) as (closures & Hcl & Hspec).
  { assert (Forall (fun p => p < graphSize nfa) (for_range 0 (graphSize nfa))) as Hall
      by (apply Forall_forall; intros p Hp%elem_of_for_range; lia).
    induction Hall as [|p l Hp _ IH]; cbn [mapM]; [by exists []|].
    destruct (epsilonClosureExcludingSelf_spec p Hp) as (out & -> & _ & Hc & He). run_option.
    destruct IH as (cls & -> & Hcls). run_option. exists (out :: cls). split; [done|].
    by constructor. }
  exists closures. unfold resolveEpsilonClosures, graphSize in *. rewrite Hcl. run_option.
  assert (forall p, p < N.of_nat (length (m_nodes nfa)) -> exists out, closures !!N p = Some out /\ spec p out) as Hlook.
  { intros p Hp. pose proof (proj2 (lookup_for_range 0 (N.of_nat (length (m_nodes nfa))) (N.to_nat p) p)) as Hi.
    eapply Forall2_lookup_l in Hspec as (out & ? & ?); [by exists out|]. apply Hi. lia. }
  split; [|intros p Hp; destruct (Hlook p Hp) as (out & ? & ? & _); eauto].
  rewrite (foldM_map_in_place _ strip); [done|]. intros done x todo Hnodes.
  destruct (Hlook (N.of_nat (length done))) as (out & Hout & _ & He).
  { rewrite Hnodes, length_app. simpl. lia. }
  assert (m_nodes nfa !!N N.of_nat (length done) = Some x) as Hx.
  { rewrite Hnodes, Nat2N.id, lookup_app_r by lia. by rewrite Nat.sub_diag. }
  assert (((strip <$> done) ++ x :: todo) !!N N.of_nat (length done) = Some x) as Hx'.
  { rewrite Nat2N.id, lookup_app_r; rewrite length_fmap; [|lia]. by rewrite Nat.sub_diag. }
  unfold remove_epsilon. rewrite Hout, Hx'. run_option. fold (strip x).
  destruct (isEmpty out) eqn:E; simpl negb; cbn iota.
  - by rewrite strip_id by auto.
  - rewrite Nat2N.id, insert_app_r_alt; rewrite length_fmap; [|lia]. by rewrite Nat.sub_diag.
Qed.

Lemma extendSetWithClosure_spec closures q set :
  closures_ok closures -> q < graphSize nfa ->
  exists set', extendSetWithClosure closures q set = Some set' /\ (NoDup set -> NoDup set') /\
    forall x, (x = q \/ x ∈ set') <-> eps_star q x \/ x ∈ set.
Proof.
  intros Hcl Hq. destruct (Hcl q Hq) as (cl & Hlook & Hspec). unfold extendSetWithClosure. rewrite Hlook.
  run_option. destruct cl as [|y cl]; simpl negb; cbn iota; eexists; (split; [done|]); split.
  - done.
  - intros x. specialize (Hspec x). rewrite elem_of_nil in Hspec. tauto.
  - apply NoDup_hset_add_range.
  - intros x. specialize (Hspec x). rewrite elem_of_hset_add_range. tauto.
Qed.
End Closures.

(** ** The transitions of a set *)

Section Transitions.
Context `{HashOrder} (nfa : NFA) (Hok : nfa_ok nfa) (closures : list (list N)).
Context (Hcl : closures_ok nfa closures).

(** A set that empty moves do not leave. *)
Record good_set (s : list N) : Prop := {
  good_nodup : NoDup s;
  good_lt : forall x, x ∈ s -> x < graphSize nfa;
  good_closed : forall x y, x ∈ s -> eps_star nfa x y -> y ∈ s
}.

(** What a set goes to on a character. *)
Definition next (s : list N) (c x : N) : Prop :=
  exists p q, p ∈ s /\ char_edge nfa p c q /\ eps_star nfa q x.

(** What a set goes to on the transitions on any character. *)
Definition any_next (s : list N) (x : N) : Prop :=
  exists p node q, p ∈ s /\ m_nodes nfa !!N p = Some node /\ q ∈ transitionsOnAnyCharacter node /\ eps_star nfa q x.

Lemma good_nil : good_set [].
Proof. split; [constructor|..]; intros ? *; intros Hx; by apply not_elem_of_nil in Hx. Qed.

Lemma extend_spec q s :
  good_set s -> q < graphSize nfa ->
  exists s', extendSetWithClosure closures q (hset_add q s) = Some s' /\ good_set s' /\
    forall x, x ∈ s' <-> eps_star nfa q x \/ x ∈ s.
Proof.
  intros [Hnd Hlt Hclosed] Hq.
  destruct (extendSetWithClosure_spec nfa closures q (hset_add q s) Hcl Hq) as (s' & He & Hnd' & Hin).
  exists s'. split; [done|].
  assert (q ∈ s') as Hqs'.
  { revert He. unfold extendSetWithClosure. destruct (closures !!N q) as [cl|]; [|done]. run_option.
    intros [= <-]. destruct cl; simpl negb; cbn iota; rewrite ?elem_of_hset_add_range, ?elem_of_hset_add; auto. }
  assert (forall x, x ∈ s' <-> eps_star nfa q x \/ x ∈ s) as Hspec.
  { intros x. specialize (Hin x). rewrite elem_of_hset_add in Hin. split.
    - intros Hx. destruct (proj1 Hin (or_intror Hx)) as [?|[->|?]]; [by left|left; apply rtc_refl|by right].
    - intros Hx. destruct (proj2 Hin) as [->|?]; [tauto|done|done]. }
  split; [|done]. split.
  - by apply Hnd', NoDup_hset_add.
  - intros x [Hx|Hx]%Hspec; [by eapply eps_star_lt|auto].
  - intros x y [Hx|Hx]%Hspec Hxy; apply Hspec; [left; unfold eps_star in *; by etrans|right; eauto].
Qed.

Lemma extend_all l s :
  good_set s -> Forall (fun q => q < graphSize nfa) l ->
  exists s', foldM (fun s q => extendSetWithClosure closures q (hset_add q s)) s l = Some s' /\ good_set s' /\
    forall x, x ∈ s' <-> (exists q, q ∈ l /\ eps_star nfa q x) \/ x ∈ s.
Proof.
  intros Hs Hall. revert s Hs. induction Hall as [|q l Hq _ IH]; intros s Hs; cbn [foldM].
  - exists s. split_and!; [done..|]. set_solver.
  - destruct (extend_spec q s Hs Hq) as (s1 & -> & Hs1 & Hin1). run_option.
    destruct (IH s1 Hs1) as (s' & -> & Hs' & Hin). exists s'. split_and!; [done..|].
    intros x. rewrite Hin, Hin1. set_solver.
Qed.

Lemma fallback_all l s :
  good_set s -> Forall (fun q => q < graphSize nfa) l ->
  exists s', foldM (fallback_add closures) s l = Some s' /\ good_set s' /\
    forall x, x ∈ s' <-> (exists q, q ∈ l /\ eps_star nfa q x) \/ x ∈ s.
Proof.
  intros Hs Hall. revert s Hs. induction Hall as [|q l Hq _ IH]; intros s Hs; cbn [foldM].
  - exists s. split_and!; [done..|]. set_solver.
  - assert (exists s1, fallback_add closures s q = Some s1 /\ good_set s1 /\
      forall x, x ∈ s1 <-> eps_star nfa q x \/ x ∈ s) as (s1 & -> & Hs1 & Hin1).
    { unfold fallback_add. destruct (hset_contains q s) eqn:E; [|by apply extend_spec].
      apply hset_contains_spec in E. exists s. split_and!; [done..|]. intros x. split; [auto|].
      intros [?|?]; [|done]. by eapply good_closed. }
    run_option. destruct (IH s1 Hs1) as (s' & -> & Hs' & Hin). exists s'. split_and!; [done..|].
    intros x. rewrite Hin, Hin1. set_solver.
Qed.

(** A table of 128 sets, and what is in them. *)
Definition table_rel (t : list (list N)) (f : N -> N -> Prop) : Prop :=
  length t = 128%nat /\
  forall c, c < 128 -> exists s, t !!N c = Some s /\ good_set s /\ forall x, x ∈ s <-> f c x.

Lemma table_rel_iff t f g :
  table_rel t f -> (forall c x, c < 128 -> f c x <-> g c x) -> table_rel t g.
Proof.
  intros [Hlen Ht] Hfg. split; [done|]. intros c Hc. destruct (Ht c Hc) as (s & ? & ? & Hs).
  exists s. split_and!; [done..|]. intros x. by rewrite Hs, Hfg.
Qed.

Lemma table_rel_empty : table_rel (replicate 128 []) (fun _ _ => False).
Proof.
  split; [done|]. intros c Hc. exists []. split; [|split; [apply good_nil|set_solver]].
  apply lookup_replicate_2. lia.
Qed.

Lemma table_rel_set t f k s (g : N -> Prop) :
  table_rel t f -> k < 128 -> good_set s -> (forall x, x ∈ s <-> g x) ->
  exists t', vec_set t k s = Some t' /\ table_rel t' (fun c x => if decide (c = k) then g x else f c x).
Proof.
  intros [Hlen Ht] Hk Hs Hg. assert (exists t', vec_set t k s = Some t') as [t' Ht'].
  { unfold vec_set. rewrite Hlen. destruct (_ <? _)%nat eqn:E; [by eexists|]. breflect. lia. }
  exists t'. split; [done|]. split; [by rewrite (vec_set_length _ _ _ _ Ht')|].
  intros c Hc. rewrite (vec_set_lookup _ _ _ _ c Ht'). destruct (decide (k = c)) as [->|Hne].
  - exists s. split_and!; [done..|]. intros x. by rewrite decide_True.
  - destruct (Ht c Hc) as (s0 & ? & ? & Hs0). exists s0. split_and!; [done..|].
    intros x. by rewrite decide_False.
Qed.

(** The loop rule for the tables. *)
Lemma table_rel_loop {A} (body : list (list N) -> A -> option (list (list N))) (g : A -> N -> N -> Prop) l :
  (forall a t f, a ∈ l -> table_rel t f ->
    exists t', body t a = Some t' /\ table_rel t' (fun c x => f c x \/ g a c x)) ->
  forall t f, table_rel t f -> exists t', foldM body t l = Some t' /\
    table_rel t' (fun c x => f c x \/ exists a, a ∈ l /\ g a c x).
Proof.
  intros Hbody. induction l as [|a l IH]; intros t f Ht; cbn [foldM].
  - exists t. split; [done|]. eapply table_rel_iff; [done|]. set_solver.
  - destruct (Hbody a t f) as (t1 & -> & Ht1); [by left|done|]. run_option.
    destruct (IH (fun a' t f Ha => Hbody a' t f (list_elem_of_further _ _ _ Ha)) t1 _ Ht1) as (t' & -> & Ht').
    exists t'. split; [done|]. eapply table_rel_iff; [done|]. intros c x _. simpl. set_solver.
Qed.

Lemma slot_add_spec fallback t f slot :
  table_rel t f -> good_set fallback -> slot.1 < 128 -> Forall (fun q => q < graphSize nfa) slot.2 ->
  exists t', slot_add closures fallback t slot = Some t' /\
    table_rel t' (fun c x => f c x \/
      (c = slot.1 /\ ((exists q, q ∈ slot.2 /\ eps_star nfa q x) \/ (c <> 0 /\ x ∈ fallback)))).
Proof.
  intros Ht Hf Hk Hall. unfold slot_add. destruct slot as [k targets]. simpl in *.
  destruct Ht as [Hlen Ht]. destruct (Ht k Hk) as (s & Hs & Hgood & Hin). rewrite Hs. run_option.
  assert (Forall (fun q => q < graphSize nfa) (hash_order targets)) as Hall' by (by rewrite hash_order_perm).
  destruct (extend_all (hash_order targets) s Hgood Hall') as (s1 & -> & Hgood1 & Hin1). run_option.
  set (s2 := if k =? 0 then s1 else hset_add_range (hash_order fallback) s1).
  assert (forall x, x ∈ s2 <-> x ∈ s1 \/ (k <> 0 /\ x ∈ fallback)) as Hin2.
  { intros x. unfold s2. destruct (k =? 0) eqn:E; breflect; [naive_solver|].
    rewrite elem_of_hset_add_range, elem_of_hash_order. naive_solver. }
  assert (good_set s2) as Hgood2.
  { split.
    - unfold s2. destruct (k =? 0); [apply Hgood1|]. by apply NoDup_hset_add_range, Hgood1.
    - intros x [Hx|[_ Hx]]%Hin2; [exact (good_lt s1 Hgood1 x Hx)|exact (good_lt fallback Hf x Hx)].
    - intros x y [Hx|[? Hx]]%Hin2 Hxy; apply Hin2.
      + left. exact (good_closed s1 Hgood1 x y Hx Hxy).
      + right. split; [done|]. exact (good_closed fallback Hf x y Hx Hxy). }
  destruct (table_rel_set t f k s2 (fun x => x ∈ s2)) as (t' & Ht' & Hrel); [done..|].
  exists t'. split; [done|]. eapply table_rel_iff; [done|]. intros c x Hc. simpl.
  case_decide; [subst c|naive_solver]. rewrite Hin2, Hin1, Hin.
  assert ((exists q, q ∈ hash_order targets /\ eps_star nfa q x) <-> (exists q, q ∈ targets /\ eps_star nfa q x)) as ->.
  { split; intros (q & Hq & ?); exists q; by rewrite elem_of_hash_order in *. }
  tauto.
Qed.

Let graph := strip <$> m_nodes nfa.

Lemma graph_lookup p : p < graphSize nfa ->
  exists node, m_nodes nfa !!N p = Some node /\ graph !!N p = Some (strip node) /\
    nfa_node_ok (graphSize nfa) node.
Proof.
  intros Hp. destruct (lookupN_is_Some (m_nodes nfa) p Hp) as [node Hn]. exists node.
  unfold graph. rewrite list_lookup_fmap, Hn. split_and!; [done..|]. by eapply nfa_node_ok_lookup.
Qed.

Lemma elem_of_strip c targets node : c < 128 ->
  (c, targets) ∈ nfa_transitions (strip node) <-> (c, targets) ∈ nfa_transitions node.
Proof.
  intros Hc. simpl. unfold hmap_remove. rewrite list_elem_of_filter. simpl.
  unfold epsilonTransitionCharacter. split; [tauto|]. intros. split; [lia|done].
Qed.

(** The slots of the nodes of [s]. *)
Definition has_slot (s : list N) (c : N) (targets : list N) : Prop :=
  exists p node, p ∈ s /\ m_nodes nfa !!N p = Some node /\ (c, targets) ∈ nfa_transitions node.

Lemma next_spec s c x : c < 128 ->
  next s c x <-> (exists targets q, has_slot s c targets /\ q ∈ targets /\ eps_star nfa q x)
                 \/ (c <> 0 /\ any_next s x).
Proof.
  intros Hc. split.
  - intros (p & q & Hp & (node & Hn & Hq) & Hx). destruct Hq as [Hq|[Hc0 Hq]].
    + left. unfold slot in Hq. destruct (hmap_find c (nfa_transitions node)) as [targets|] eqn:E; [|by apply elem_of_nil in Hq].
      exists targets, q. split_and!; [|done..]. exists p, node. by apply hmap_find_elem in E.
    + right. split; [done|]. by exists p, node, q.
  - intros [(targets & q & (p & node & Hp & Hn & Hs) & Hq & Hx)|(Hc0 & p & node & q & Hp & Hn & Hq & Hx)];
      exists p, q; split_and!; try done; exists node; (split; [done|]); [left|by right].
    unfold slot. rewrite (hmap_elem_find c targets); [done| |done].
    eapply nn_keys, nfa_node_ok_lookup; done.
Qed.

Lemma populateTransitions_spec t s :
  table_rel t (fun _ _ => False) -> (forall p, p ∈ s -> p < graphSize nfa) ->
  exists t' fallback, populateTransitions t s graph closures = Some (t', fallback) /\
    good_set fallback /\ (forall x, x ∈ fallback <-> any_next s x) /\
    table_rel t' (fun c x => exists targets, has_slot s c targets /\
      ((exists q, q ∈ targets /\ eps_star nfa q x) \/ (c <> 0 /\ x ∈ fallback))).
Proof.
  intros Ht Hs. unfold populateTransitions.
  assert (exists all, foldM (fun all nodeId => nfaSourceNode ← graph !!N nodeId;
      Some (all ++ hash_order (transitionsOnAnyCharacter nfaSourceNode))) [] s = Some all /\
    forall q, q ∈ all <-> exists p node, p ∈ s /\ m_nodes nfa !!N p = Some node /\ q ∈ transitionsOnAnyCharacter node)
    as (all & -> & Hall).
  { clear Ht. induction s as [|p s IH] using rev_ind.
    - exists []. split; [done|]. set_solver.
    - destruct IH as (all & Hf & Hin); [set_solver|]. rewrite foldM_app, Hf. run_option. cbn [foldM].
      destruct (graph_lookup p) as (node & Hn & -> & _); [apply Hs; set_solver|]. run_option.
      eexists. split; [done|]. intros q. rewrite elem_of_app, Hin, elem_of_hash_order. simpl. split.
      + intros [(p' & node' & ? & ? & ?)|Hq]; [|exists p, node]; set_solver.
      + intros (p' & node' & Hp & Hn' & Hq). apply elem_of_app in Hp as [Hp|Hp]; [left; eauto|].
        apply list_elem_of_singleton in Hp as ->. right. by simplify_eq. }
  run_option.
  assert (Forall (fun q => q < graphSize nfa) all) as Hlt.
  { apply Forall_forall. intros q (p & node & _ & Hn & Hq)%Hall.
    destruct (nn_any _ _ (nfa_node_ok_lookup _ _ _ Hok Hn)) as [_ Ha]. rewrite Forall_forall in Ha. auto. }
  destruct (fallback_all all [] good_nil Hlt) as (fallback & -> & Hgood & Hin). run_option.
  destruct (table_rel_loop (fun setTransitions nodeId => node ← graph !!N nodeId;
      foldM (slot_add closures fallback) setTransitions (hash_order (nfa_transitions node)))
    (fun p c x => exists node targets, m_nodes nfa !!N p = Some node /\ (c, targets) ∈ nfa_transitions node /\
       ((exists q, q ∈ targets /\ eps_star nfa q x) \/ (c <> 0 /\ x ∈ fallback))) s) with (t := t) (f := fun _ _ : N => False)
    as (t' & -> & Ht'); [|done|].
  { intros p t0 f Hp Ht0. destruct (graph_lookup p (Hs p Hp)) as (node & Hn & -> & Hnode). run_option.
    destruct (table_rel_loop (slot_add closures fallback) (fun slot c x => c = slot.1 /\
      ((exists q, q ∈ slot.2 /\ eps_star nfa q x) \/ (c <> 0 /\ x ∈ fallback)))
      (hash_order (nfa_transitions (strip node)))) with (t := t0) (f := f) as (t1 & -> & Ht1); [|done|].
    - intros [k targets] t2 f2 Hslot Ht2. rewrite elem_of_hash_order in Hslot. simpl in Hslot.
      apply list_elem_of_filter in Hslot as [Hk Hslot]. simpl in Hk.
      destruct (nn_slots _ _ Hnode _ _ Hslot) as ([?|?] & _ & _ & Ha); [|done]. by apply slot_add_spec.
    - exists t1. split; [done|]. eapply table_rel_iff; [done|]. intros c x Hc. simpl.
      split; (intros [Hf|Hx]; [by left|right]).
      + destruct Hx as ([k targets] & Hslot & -> & Hx). rewrite elem_of_hash_order in Hslot.
        apply elem_of_strip in Hslot; [|done]. by exists node, targets.
      + destruct Hx as (node' & targets & Hn' & Hslot & Hx). simplify_eq. exists (c, targets).
        rewrite elem_of_hash_order. split; [|done]. by apply elem_of_strip. }
  run_option. exists t', fallback. split_and!; [done|done| |].
  - intros x. rewrite Hin, elem_of_nil. unfold any_next. set_solver.
  - eapply table_rel_iff; [done|]. intros c x Hc. unfold has_slot. simpl. naive_solver.
Qed.

(** What the sets of the table say about the transitions of the set. *)
Lemma populated_next (s fallback target : list N) (c : N) :
  c < 128 -> (forall x, x ∈ fallback <-> any_next s x) ->
  (forall x, x ∈ target <-> exists targets, has_slot s c targets /\
      ((exists q, q ∈ targets /\ eps_star nfa q x) \/ (c <> 0 /\ x ∈ fallback))) ->
  (target <> [] -> forall x, x ∈ target <-> next s c x) /\
  (target = [] -> forall x, next s c x <-> c <> 0 /\ x ∈ fallback).
Proof.
  intros Hc Hf Ht. split.
  - intros Hne x. rewrite next_spec, Ht by done.
    assert (exists targets, has_slot s c targets) as (targets0 & Hslot0).
    { destruct target as [|y target]; [done|]. destruct (proj1 (Ht y)) as (targets & ? & _); [by left|eauto]. }
    split.
    + intros (targets & Hs & [(q & Hq & Hx)|[? Hx]]); [left; by exists targets, q|right]. by rewrite <- Hf.
    + intros [(targets & q & Hs & Hq & Hx)|[? Hx]].
      { exists targets. split; [done|]. left. by exists q. }
      exists targets0. split; [done|].
      right. by rewrite Hf.
  - intros -> x. rewrite next_spec, Hf by done. split; [|by right].
    intros [(targets & q & Hs & Hq & Hx)|?]; [|done]. exfalso.
    apply (not_elem_of_nil x), Ht. exists targets. split; [done|]. left. by exists q.
Qed.
End Transitions.
