(* ===== verification/SubsetConstruction.v ===== *)
(** * The subset construction: the loop of [NFAToDFA::convert]

    The invariant of the loop, that every turn keeps it, that the loop ends, and
    what the automaton it builds does. *)

From S2P Require Import Prelude HashTable DFA NFA NFAToDFA NFAToDFACorrect.

(** All the actions of an NFA. *)
Definition nfa_actions (nfa : NFA) : list N := m_nodes nfa ≫= finalRuleIds.

(** The sizes of the vectors of a DFA are [unsigned]. *)
Definition bounded (dfa : DFA) : Prop :=
  N.of_nat (length (actions dfa)) < 2 ^ 32 /\ N.of_nat (length (transitions dfa)) < 2 ^ 32.

(** What keeps the conversion within the limits of a DFA: there are not too many
    sets nor actions, and there is a character that no node has a transition of
    its own on. *)
Record limits (nfa : NFA) : Prop := {
  lim_transitions : 128 * 2 ^ graphSize nfa < 2 ^ 32;
  lim_actions : N.of_nat (length (nfa_actions nfa)) * 2 ^ graphSize nfa < 2 ^ 32;
  lim_node_actions : N.of_nat (length (nfa_actions nfa)) <= max16;
  lim_key : exists c, c < 128 /\ Forall (fun node => c ∉ (nfa_transitions node).*1) (m_nodes nfa)
}.

Section Conversion.
Context `{HashOrder} (nfa : NFA) (Hok : nfa_ok nfa) (closures : list (list N)).
Context (Hcl : closures_ok nfa closures).

Notation graph := (strip <$> m_nodes nfa).

(** ** New nodes *)

Lemma graph_final p acts : p < graphSize nfa ->
  exists node, m_nodes nfa !!N p = Some node /\
    (nfaNode ← graph !!N p; Some (hset_add_range (finalRuleIds nfaNode) acts)) =
    Some (hset_add_range (finalRuleIds node) acts).
Proof.
  intros Hp. destruct (lookupN_is_Some (m_nodes nfa) p Hp) as [node Hn]. exists node.
  rewrite list_lookup_fmap, Hn. done.
Qed.

Lemma gather_actions l acts :
  (forall p, p ∈ l -> p < graphSize nfa) ->
  exists acts', foldM (fun acts nfaNodeId => nfaNode ← graph !!N nfaNodeId;
      Some (hset_add_range (finalRuleIds nfaNode) acts)) acts l = Some acts' /\
    (NoDup acts -> NoDup acts') /\
    forall a, a ∈ acts' <-> (exists p, p ∈ l /\ final nfa p a) \/ a ∈ acts.
Proof.
  revert acts. induction l as [|p l IH]; intros acts Hl; cbn [foldM].
  - exists acts. split_and!; [done..|]. set_solver.
  - destruct (graph_final p acts) as (node & Hn & ->); [apply Hl; by left|]. run_option.
    destruct (IH (hset_add_range (finalRuleIds node) acts)) as (acts' & -> & Hnd & Hin); [set_solver|].
    exists acts'. split_and!; [done| |].
    + intros. by apply Hnd, NoDup_hset_add_range.
    + intros a. rewrite Hin, elem_of_hset_add_range. unfold final. split.
      * intros [(q & Hq & ?)|[?|?]]; [left; exists q; set_solver| |by right]. left. exists p.
        split; [by left|eauto].
      * intros [(q & Hq & Hf)|?]; [|tauto]. apply elem_of_cons in Hq as [->|Hq]; [|left; eauto].
        right. left. destruct Hf as (node' & ? & ?). by simplify_eq.
Qed.

Lemma final_actions p a : final nfa p a -> a ∈ nfa_actions nfa.
Proof.
  intros (node & Hn & Ha). apply list_elem_of_bind. exists node. split; [done|]. by eapply list_elem_of_lookup_2.
Qed.

Lemma translate_spec set dfa : good_set nfa set ->
  match translate set graph dfa with
  | Some (u, dfa') => exists acts,
      m_buffer u ≡ₚ set /\ m_dfaNodeId u = N.of_nat (length (nodes dfa)) /\
      dfa' = mkDFA (actions dfa ++ acts) (transitions dfa)
        (nodes dfa ++ [mkDFANode (N.of_nat (length (actions dfa))) 0 (N.of_nat (length acts)) 0 0]) (root dfa) /\
      (forall a, a ∈ acts <-> exists p, p ∈ set /\ final nfa p a) /\
      (length acts <= length (nfa_actions nfa))%nat
  | None => ~ limits nfa
  end.
Proof.
  intros Hgood. unfold translate.
  destruct (gather_actions (hash_order set) []) as (acts & -> & Hnd & Hin).
  { intros p Hp. rewrite elem_of_hash_order in Hp. by apply (good_lt nfa set). }
  run_option. cbn [actions with_actions].
  assert (length (hash_order acts) <= length (nfa_actions nfa))%nat as Hlen.
  { apply submseteq_length, NoDup_submseteq.
    - apply NoDup_hash_order, Hnd. constructor.
    - intros a Ha. rewrite elem_of_hash_order in Ha. apply Hin in Ha as [(p & _ & Hf)|Ha]; [|by apply elem_of_nil in Ha].
      by eapply final_actions. }
  rewrite length_app, Nat2N.inj_add.
  replace (N.of_nat (length (actions dfa)) + N.of_nat (length (hash_order acts)) - N.of_nat (length (actions dfa)))
    with (N.of_nat (length (hash_order acts))) by lia.
  destruct (N.of_nat (length (hash_order acts)) <=? max16) eqn:E; run_option.
  - breflect. exists (hash_order acts). unfold with_nodes, with_actions, setActions, emptyNode. simpl.
    unfold max16 in E. rewrite wrap16_id by lia. split_and!; [apply hash_order_perm|done|done| |done].
    intros a. rewrite elem_of_hash_order, Hin, elem_of_nil.
    split; [intros [(p & Hp & ?)|[]]|intros (p & Hp & ?); left]; exists p; by rewrite elem_of_hash_order in *.
  - breflect. intros Hlim. pose proof (lim_node_actions _ Hlim). lia.
Qed.

(** ** The invariant *)

Notation set_of := m_buffer.

(** The transitions of the node [k] are those of its set. *)
Definition step_spec (dfa : DFA) (table : list UniqueNodeIdSet) (k : N) : Prop :=
  exists node u ts, nodes dfa !!N k = Some node /\ isKilled node = false /\ table !!N k = Some u /\
    node_transitions node dfa = Some ts /\ NoDup ts.*1 /\
    Forall (fun t => t.1 < 128 /\ t.2 < N.of_nat (length table)) ts /\
    (hasFallbackTransition node = true ->
      exists t, fallbackTransitionDestination node dfa = Some t /\ t < N.of_nat (length table)) /\
    forall c, c < 128 ->
      match step_node node dfa c with
      | Some t => exists v, table !!N t = Some v /\ forall x, x ∈ set_of v <-> next nfa (set_of u) c x
      | None => forall x, ~ next nfa (set_of u) c x
      end.

Record conv_inv (todo : list N) (s : Conversion) : Prop := {
  ci_len : length (uniqueNodeIdSetTable s) = length (nodes (c_dfa s));
  ci_root : root (c_dfa s) = 0;
  ci_sets : forall k u, uniqueNodeIdSetTable s !!N k = Some u ->
    m_dfaNodeId u = k /\ good_set nfa (set_of u) /\ set_of u <> [];
  ci_distinct : forall i j u v, uniqueNodeIdSetTable s !!N i = Some u -> uniqueNodeIdSetTable s !!N j = Some v ->
    (forall x, x ∈ set_of u <-> x ∈ set_of v) -> i = j;
  ci_count : (length (actions (c_dfa s)) <= length (nfa_actions nfa) * length (nodes (c_dfa s)))%nat;
  ci_todo : NoDup todo /\ forall k, k ∈ todo ->
    exists node, nodes (c_dfa s) !!N k = Some node /\ m_flags node = 0;
  ci_actions : bounded (c_dfa s) -> forall k u, uniqueNodeIdSetTable s !!N k = Some u ->
    exists node acts, nodes (c_dfa s) !!N k = Some node /\ node_actions node (c_dfa s) = Some acts /\
      forall a, a ∈ acts <-> exists p, p ∈ set_of u /\ final nfa p a;
  ci_done : bounded (c_dfa s) -> forall k, k < N.of_nat (length (nodes (c_dfa s))) -> k ∉ todo ->
    step_spec (c_dfa s) (uniqueNodeIdSetTable s) k
}.

(** The sets, the nodes, the actions and the transitions only grow. *)
Record conv_le (s s' : Conversion) : Prop := {
  le_table : exists t, uniqueNodeIdSetTable s' = uniqueNodeIdSetTable s ++ t;
  le_nodes : exists n, nodes (c_dfa s') = nodes (c_dfa s) ++ n;
  le_actions : exists a, actions (c_dfa s') = actions (c_dfa s) ++ a;
  le_transitions : exists t, transitions (c_dfa s') = transitions (c_dfa s) ++ t
}.

Lemma conv_le_refl s : conv_le s s.
Proof. split; exists []; by rewrite app_nil_r. Qed.

Lemma conv_le_trans s1 s2 s3 : conv_le s1 s2 -> conv_le s2 s3 -> conv_le s1 s3.
Proof.
  intros [[? H1] [? H2] [? H3] [? H4]] [[? H1'] [? H2'] [? H3'] [? H4']].
  split; eexists; [by rewrite H1', H1, <- app_assoc|by rewrite H2', H2, <- app_assoc|
    by rewrite H3', H3, <- app_assoc|by rewrite H4', H4, <- app_assoc].
Qed.

Lemma conv_le_bounded s s' : conv_le s s' -> bounded (c_dfa s') -> bounded (c_dfa s).
Proof.
  intros [_ _ [a Ha] [t Ht]] [H1 H2]. rewrite Ha, length_app in H1. rewrite Ht, length_app in H2.
  split; lia.
Qed.

Lemma conv_le_lookup s s' k u :
  conv_le s s' -> uniqueNodeIdSetTable s !!N k = Some u -> uniqueNodeIdSetTable s' !!N k = Some u.
Proof. intros [[t ->] _ _ _]. by apply lookup_app_l_Some. Qed.

Lemma fallbackTransitionDestination_le node dfa t d post :
  fallbackTransitionDestination node dfa = Some d -> t = transitions dfa ++ post ->
  fallbackTransitionDestination node (with_transitions dfa t) = Some d.
Proof.
  intros Hf ->. unfold fallbackTransitionDestination in *. simpl.
  destruct (hasFallbackTransition node); [|done]. revert Hf. run_option.
  destruct (transitions dfa !!N transitionsEnd node) as [e|] eqn:E; [|done].
  by rewrite (lookup_app_l_Some _ _ _ _ E).
Qed.

Lemma step_spec_le s s' k :
  conv_le s s' -> step_spec (c_dfa s) (uniqueNodeIdSetTable s) k ->
  step_spec (c_dfa s') (uniqueNodeIdSetTable s') k.
Proof.
  intros Hle (node & u & ts & Hn & Hk & Hu & Hts & Hnd & Hall & Hfb & Hstep).
  pose proof Hle as [[tt Ht] [nn Hnn] _ [tr Htr]].
  assert (node_transitions node (c_dfa s') = Some ts) as Hts'.
  { unfold node_transitions in *. rewrite Htr. by apply mapM_lookup_app. }
  assert (forall d, fallbackTransitionDestination node (c_dfa s) = Some d ->
    fallbackTransitionDestination node (c_dfa s') = Some d) as Hfb'.
  { intros d Hd. apply (fallbackTransitionDestination_le node (c_dfa s) (transitions (c_dfa s')) d tr Hd Htr). }
  assert (length (uniqueNodeIdSetTable s) <= length (uniqueNodeIdSetTable s'))%nat as Hlen
    by (rewrite Ht, length_app; lia).
  exists node, u, ts. split_and!; [|done| |done|done| | |].
  - rewrite Hnn. by apply lookup_app_l_Some.
  - by eapply conv_le_lookup.
  - eapply Forall_impl; [exact Hall|]. simpl. intros t [? ?]. split; [done|lia].
  - intros F. destruct (Hfb F) as (d & Hd & ?). exists d. split; [by apply Hfb'|lia].
  - intros c Hc. specialize (Hstep c Hc). unfold step_node in *. rewrite Hts in Hstep. rewrite Hts'. simpl in *.
    destruct (find_transition c ts) as [t|].
    + destruct Hstep as (v & ? & ?). exists v. split; [by eapply conv_le_lookup|done].
    + destruct (hasFallbackTransition node) eqn:F; simpl in *; [|done]. destruct (negb (c =? 0)); [|done].
      destruct (Hfb eq_refl) as (d & Hd & _). rewrite Hd in Hstep. rewrite (Hfb' d Hd).
      destruct Hstep as (v & ? & ?). exists v. split; [by eapply conv_le_lookup|done].
Qed.

(** ** The search of a set *)

Lemma same_set_spec u set : NoDup (set_of u) -> NoDup set ->
  same_set u set = true <-> forall x, x ∈ set_of u <-> x ∈ set.
Proof.
  intros Hu Hs. unfold same_set. split.
  - intros Hsame. breflect. rewrite forallb_forall in *.
    assert (set_of u ⊆+ set) as Hsub.
    { apply NoDup_submseteq; [done|]. intros x Hx. apply list_elem_of_In in Hx.
      by apply hset_contains_spec; auto. }
    assert (set_of u ≡ₚ set) as Hperm by (apply submseteq_length_Permutation; [done|lia]).
    intros x. by rewrite Hperm.
  - intros Heq. assert (set_of u ≡ₚ set) as Hperm by (by apply NoDup_Permutation).
    apply andb_true_iff. split; [by rewrite Hperm, Nat.eqb_refl|].
    apply forallb_forall. intros x Hx%list_elem_of_In. by apply hset_contains_spec, Heq.
Qed.

Lemma node_actions_le s s' node acts :
  conv_le s s' -> node_actions node (c_dfa s) = Some acts -> node_actions node (c_dfa s') = Some acts.
Proof. intros [_ _ [a Ha] _]. unfold node_actions. rewrite Ha. apply mapM_lookup_app. Qed.

Lemma create_inv todo s set u dfa' acts :
  conv_inv todo s -> good_set nfa set -> set <> [] ->
  find (fun a => same_set a set) (uniqueNodeIdSetTable s) = None ->
  set_of u ≡ₚ set -> m_dfaNodeId u = N.of_nat (length (nodes (c_dfa s))) ->
  dfa' = mkDFA (actions (c_dfa s) ++ acts) (transitions (c_dfa s))
        (nodes (c_dfa s) ++ [mkDFANode (N.of_nat (length (actions (c_dfa s)))) 0 (N.of_nat (length acts)) 0 0])
        (root (c_dfa s)) ->
  (forall a, a ∈ acts <-> exists p, p ∈ set /\ final nfa p a) ->
  (length acts <= length (nfa_actions nfa))%nat ->
  conv_inv (todo ++ [m_dfaNodeId u])
    (mkConversion dfa' (uniqueNodeIdSetTable s ++ [u]) (unprocessedSets s ++ [u])).
Proof.
  intros Hinv Hgood Hne Hfind Hperm Hid Hdfa Hacts Hlen.
  set (s' := mkConversion dfa' (uniqueNodeIdSetTable s ++ [u]) (unprocessedSets s ++ [u])).
  assert (conv_le s s') as Hle by (subst dfa'; split; simpl; eexists; [done|done|done|by rewrite app_nil_r]).
  pose proof Hinv as [Hl Hroot Hsets Hdist Hcount [Htnd Htodo] Hca Hcd].
  assert (forall k v, uniqueNodeIdSetTable s' !!N k = Some v ->
    uniqueNodeIdSetTable s !!N k = Some v \/ (k = N.of_nat (length (nodes (c_dfa s))) /\ v = u)) as Hcase.
  { intros k v Hv. apply lookup_app_Some in Hv as [?|[Hge Hv]]; [by left|right].
    apply list_lookup_singleton_Some in Hv as [? <-]. rewrite Hl in *. split; [lia|done]. }
  assert (forall v k, uniqueNodeIdSetTable s !!N k = Some v -> ~ (forall x, x ∈ set_of u <-> x ∈ set_of v)) as Hnew.
  { intros v k Hv Heq. destruct (Hsets k v Hv) as (_ & Hgv & _).
    assert (same_set v set = true) as Hsame.
    { apply same_set_spec; [apply Hgv|apply Hgood|]. intros x. by rewrite <- Heq, Hperm. }
    assert (In v (uniqueNodeIdSetTable s)) as Hin by (by eapply list_elem_of_In, list_elem_of_lookup_2).
    pose proof (find_none _ _ Hfind v Hin) as Hf. simpl in Hf. congruence. }
  split; unfold s'; cbn [uniqueNodeIdSetTable c_dfa].
  - rewrite Hdfa. simpl. rewrite !length_app, Hl. done.
  - by rewrite Hdfa.
  - intros k v [Hv|[-> ->]]%Hcase; [by apply Hsets|]. split_and!; [done| |].
    + split; [rewrite Hperm; apply Hgood|intros x Hx; rewrite Hperm in Hx; by apply (good_lt nfa set)|].
      intros x y. rewrite Hperm. apply (good_closed nfa set Hgood).
    + intros E. rewrite E in Hperm. by apply Permutation_nil_l in Hperm.
  - intros i j v w [Hv|[-> ->]]%Hcase [Hw|[-> ->]]%Hcase Heq; [by eapply Hdist| | |done].
    + exfalso. apply (Hnew v i Hv). intros x. by rewrite Heq.
    + exfalso. by apply (Hnew w j Hw).
  - rewrite Hdfa. simpl. rewrite !length_app. simpl. lia.
  - split.
    + apply NoDup_app. split; [done|]. split; [|apply NoDup_singleton].
      intros k Hk ->%list_elem_of_singleton. destruct (Htodo _ Hk) as (node & Hn & _).
      apply lookupN_lt in Hn. lia.
    + intros k [Hk| ->%list_elem_of_singleton]%elem_of_app; rewrite Hdfa; cbn [nodes].
      * destruct (Htodo k Hk) as (node & Hn & ?). exists node. by rewrite (lookup_app_l_Some _ _ _ _ Hn).
      * eexists. rewrite Hid, Nat2N.id, lookup_app_r, Nat.sub_diag by lia. done.
  - intros Hb k v [Hv|[-> ->]]%Hcase.
    + destruct (Hca (conv_le_bounded s s' Hle Hb) k v Hv) as (node & a & Hn & Ha & Hin).
      exists node, a. split_and!; [|by apply (node_actions_le s s')|done].
      rewrite Hdfa. cbn [nodes]. by apply lookup_app_l_Some.
    + eexists _, acts. rewrite Hdfa. cbn [nodes]. rewrite Nat2N.id, lookup_app_r, Nat.sub_diag by lia.
      split; [done|]. split.
      * unfold node_actions. cbn [actions m_actionsStart m_actionsLength].
        destruct Hb as [Hb _]. rewrite Hdfa in Hb. cbn [actions] in Hb. rewrite length_app in Hb.
        rewrite wrap32_id by (change 4294967296 with (2 ^ 32); lia).
        pose proof (mapM_window (actions (c_dfa s)) acts []) as Hw. by rewrite app_nil_r in Hw.
      * intros a. rewrite Hacts. split; intros (p & Hp & ?); exists p; by rewrite Hperm in *.
  - intros Hb k Hk Hnot. rewrite Hdfa in Hk. cbn [nodes] in Hk. rewrite length_app in Hk. simpl in Hk.
    apply not_elem_of_app in Hnot as [Hnot Hnk]. rewrite list_elem_of_singleton, Hid in Hnk.
    apply (step_spec_le s s' k Hle). apply Hcd; [by eapply conv_le_bounded|lia|done].
Qed.

Lemma getOrCreateDFANode_spec todo s set :
  conv_inv todo s -> good_set nfa set -> set <> [] ->
  match getOrCreateDFANode set graph s with
  | Some (id, s') => exists new,
      conv_inv (todo ++ (m_dfaNodeId <$> new)) s' /\ conv_le s s' /\
      unprocessedSets s' = unprocessedSets s ++ new /\
      (forall u, u ∈ new -> u ∈ uniqueNodeIdSetTable s') /\
      length (nodes (c_dfa s')) = (length (nodes (c_dfa s)) + length new)%nat /\
      transitions (c_dfa s') = transitions (c_dfa s) /\
      exists u, uniqueNodeIdSetTable s' !!N id = Some u /\ forall x, x ∈ set_of u <-> x ∈ set
  | None => ~ limits nfa
  end.
Proof.
  intros Hinv Hgood Hne. unfold getOrCreateDFANode.
  destruct (find (fun a => same_set a set) (uniqueNodeIdSetTable s)) as [u|] eqn:Hfind.
  - apply find_some in Hfind as [Hin Hsame]. apply list_elem_of_In, list_elem_of_lookup_1 in Hin as [i Hi].
    rewrite <- (Nat2N.id i) in Hi. destruct (ci_sets _ _ Hinv _ _ Hi) as (Hid & Hgu & _).
    exists []. simpl. rewrite !app_nil_r. split_and!; [done|apply conv_le_refl|done| |lia|done|].
    + intros u' Hu'. by apply elem_of_nil in Hu'.
    + exists u. rewrite Hid. split; [done|]. apply same_set_spec; [apply Hgu|apply Hgood|done].
  - pose proof (translate_spec set (c_dfa s) Hgood) as Htr.
    destruct (translate set graph (c_dfa s)) as [[u dfa']|]; [|done]. run_option. cbn [fst snd].
    destruct Htr as (acts & Hperm & Hid & Hdfa & Hacts & Hlen).
    exists [u]. split; [by apply (create_inv todo s set u dfa' acts)|]. simpl.
    split_and!; [|done| | | |].
    + subst dfa'. split; simpl; eexists; [done|done|done|by rewrite app_nil_r].
    + intros u' Hu'. apply elem_of_app. by right.
    + rewrite Hdfa. simpl. by rewrite length_app.
    + by rewrite Hdfa.
    + exists u. rewrite Hid, Nat2N.id, <- (ci_len _ _ Hinv), lookup_app_r, Nat.sub_diag by lia.
      split; [done|]. intros x. by rewrite Hperm.
Qed.

(** ** The loop over the characters *)

Definition append_transition (s : Conversion) (t : N * N) : Conversion :=
  mkConversion (with_transitions (c_dfa s) (transitions (c_dfa s) ++ [t]))
    (uniqueNodeIdSetTable s) (unprocessedSets s).

Lemma append_transition_le s t : conv_le s (append_transition s t).
Proof. split; simpl; eexists; [by rewrite app_nil_r|by rewrite app_nil_r|by rewrite app_nil_r|done]. Qed.

Lemma append_transition_inv todo s t : conv_inv todo s -> conv_inv todo (append_transition s t).
Proof.
  intros [Hl Hroot Hsets Hdist Hcount Htodo Hca Hcd]. pose proof (append_transition_le s t) as Hle.
  split; [done..| |].
  - intros Hb k u Hu. destruct (Hca (conv_le_bounded _ _ Hle Hb) k u Hu) as (node & acts & ? & ? & ?).
    exists node, acts. split_and!; [done|by apply (node_actions_le _ _ _ _ Hle)|done].
  - intros Hb k Hk Hnot. apply (step_spec_le _ _ k Hle), Hcd; [by eapply conv_le_bounded|done|done].
Qed.

(** What the transitions [ts] of the characters below [k] say. *)
Record keys_ok (f : N -> N -> Prop) (k : N) (ts : list (N * N)) (table : list UniqueNodeIdSet) : Prop := {
  keys_nodup : NoDup ts.*1;
  keys_in : forall c t, (c, t) ∈ ts -> c < k /\
    exists u, table !!N t = Some u /\ forall x, x ∈ set_of u <-> f c x;
  keys_out : forall c x, c < k -> c ∉ ts.*1 -> ~ f c x
}.

Record keys_state (todo : list N) (f : N -> N -> Prop) (s0 : Conversion) (k : N)
    (t : list (list N)) (s : Conversion) (ts : list (N * N)) (new : list UniqueNodeIdSet) : Prop := {
  ks_inv : conv_inv (todo ++ (m_dfaNodeId <$> new)) s;
  ks_le : conv_le s0 s;
  ks_new : unprocessedSets s = unprocessedSets s0 ++ new /\ forall u, u ∈ new -> u ∈ uniqueNodeIdSetTable s;
  ks_len : length (nodes (c_dfa s)) = (length (nodes (c_dfa s0)) + length new)%nat;
  ks_transitions : transitions (c_dfa s) = transitions (c_dfa s0) ++ ts;
  ks_table : table_rel nfa t (fun c x => k <= c /\ f c x);
  ks_keys : keys_ok f k ts (uniqueNodeIdSetTable s)
}.

Lemma keys_ok_skip f k ts table : keys_ok f k ts table -> (forall x, ~ f k x) -> keys_ok f (k + 1) ts table.
Proof.
  intros [Hnd Hin Hout] Hk. split; [done| |].
  - intros c t Hct. destruct (Hin c t Hct). split; [lia|done].
  - intros c x Hc. destruct (decide (c = k)) as [->|]; [by intros|]. apply Hout. lia.
Qed.

Lemma keys_ok_add f k ts table table' t u :
  keys_ok f k ts table -> (exists post, table' = table ++ post) -> table' !!N t = Some u ->
  (forall x, x ∈ set_of u <-> f k x) -> keys_ok f (k + 1) (ts ++ [(k, t)]) table'.
Proof.
  intros [Hnd Hin Hout] [post ->] Hu Hf. split.
  - rewrite fmap_app. apply NoDup_app. split; [done|]. split; [|apply NoDup_singleton].
    intros c Hc Hck. apply list_elem_of_singleton in Hck. simpl in Hck. subst c. apply list_elem_of_fmap in Hc as ([c t'] & -> & Hct).
    apply Hin in Hct as [? _]. simpl in *. lia.
  - intros c t' [Hct|[= -> ->]%list_elem_of_singleton]%elem_of_app.
    + destruct (Hin c t' Hct) as (? & v & Hv & ?). split; [lia|]. exists v. split; [|done].
      by apply lookup_app_l_Some.
    + split; [lia|]. by exists u.
  - intros c x Hc. rewrite fmap_app, not_elem_of_app. intros [Hnot Hk].
    apply Hout; [|done]. assert (c <> k) by (intros ->; apply Hk; by left). lia.
Qed.

Lemma table_rel_drop t (f : N -> N -> Prop) (k : N) :
  table_rel nfa t (fun c x => k <= c /\ f c x) -> (forall x, ~ f k x) ->
  table_rel nfa t (fun c x => k + 1 <= c /\ f c x).
Proof.
  intros Ht Hk. eapply table_rel_iff; [exact Ht|]. intros c x _. simpl. split; [|intros []; split; [lia|done]].
  intros [? Hf]. split; [|done]. destruct (decide (c = k)) as [->|]; [by apply Hk in Hf|lia].
Qed.

Lemma add_key_spec todo f s0 k t s ts new :
  k < 128 -> keys_state todo f s0 k t s ts new ->
  match add_key graph (t, s) k with
  | Some (t', s') => exists ts' new', keys_state todo f s0 (k + 1) t' s' ts' new'
  | None => ~ limits nfa
  end.
Proof.
  intros Hk [Hinv Hle [Hun Hnew] Hlen Htr Ht Hkeys]. unfold add_key.
  destruct (proj2 Ht k Hk) as (set & Hset & Hgood & Hin). rewrite Hset. run_option.
  assert (forall x, x ∈ set <-> f k x) as Hf by (intros x; rewrite Hin; split; [by intros []|split; [lia|done]]).
  destruct (isEmpty set) eqn:E.
  - destruct set; [|done]. exists ts, new.
    assert (forall x, ~ f k x) as Hnone by (intros x; rewrite <- Hf; apply not_elem_of_nil).
    split; [done..| |]; [by apply table_rel_drop|by apply keys_ok_skip].
  - assert (set <> []) as Hne by (by intros ->).
    pose proof (getOrCreateDFANode_spec _ s set Hinv Hgood Hne) as Hget.
    destruct (getOrCreateDFANode set graph s) as [[id s1]|]; [|done]. run_option.
    destruct Hget as (new1 & Hinv1 & Hle1 & Hun1 & Hnew1 & Hlen1 & Htr1 & u & Hu & Hfu).
    replace (k <=? 127) with true by (symmetry; apply N.leb_le; lia). run_option.
    destruct (table_rel_set nfa t _ k [] (fun _ => False) Ht Hk (good_nil nfa)) as (t' & -> & Ht'); [set_solver|].
    run_option. rewrite wrap8_id by lia.
    change (mkConversion _ _ _) with (append_transition s1 (k, id)).
    exists (ts ++ [(k, id)]), (new ++ new1). split.
    + rewrite fmap_app, app_assoc. by apply append_transition_inv.
    + eapply conv_le_trans; [done|]. eapply conv_le_trans; [done|]. apply append_transition_le.
    + simpl. rewrite Hun1, Hun, app_assoc. split; [done|]. intros v [Hv|Hv]%elem_of_app; [|by apply Hnew1].
      destruct (le_table _ _ Hle1) as [tt ->]. apply elem_of_app. left. auto.
    + simpl. rewrite length_app. lia.
    + simpl. by rewrite Htr1, Htr, app_assoc.
    + eapply table_rel_iff; [done|]. intros c x Hc. simpl. case_decide; [subst; split; [done|intros []; lia]|].
      split; intros []; split; (done || lia).
    + eapply keys_ok_add; [done|apply Hle1|done|]. intros x. by rewrite Hfu.
Qed.

Lemma add_keys_spec todo f s0 t0 k :
  k <= 128 -> conv_inv todo s0 -> table_rel nfa t0 f ->
  match foldM (add_key graph) (t0, s0) (for_range 0 k) with
  | Some (t, s) => exists ts new, keys_state todo f s0 k t s ts new
  | None => ~ limits nfa
  end.
Proof.
  intros Hk Hinv Ht. induction k as [|k IH] using N.peano_ind.
  - rewrite for_range_nil by lia. cbn [foldM]. exists [], []. split; simpl; rewrite ?app_nil_r;
      [done| |split; [done|intros u Hu; by apply elem_of_nil in Hu]|lia|done| |].
    + apply conv_le_refl.
    + eapply table_rel_iff; [done|]. intros c x _. simpl. split; [intros; split; [lia|done]|by intros []].
    + split; [constructor|intros ?? Hin; by apply elem_of_nil in Hin|lia].
  - rewrite <- N.add_1_r, for_range_snoc, foldM_app by lia.
    destruct (foldM (add_key graph) (t0, s0) (for_range 0 k)) as [[t s]|]; [|apply IH; lia]. run_option.
    destruct IH as (ts & new & Hks); [lia|]. cbn [foldM].
    pose proof (add_key_spec todo f s0 k t s ts new ltac:(lia) Hks) as Hadd.
    by destruct (add_key graph (t, s) k) as [[t' s']|].
Qed.

(** ** The node of the set that is processed *)

Definition replace_node (s : Conversion) (b : N) (node : DFANode) : Conversion :=
  mkConversion (with_nodes (c_dfa s) (<[b :=N node]> (nodes (c_dfa s))))
    (uniqueNodeIdSetTable s) (unprocessedSets s).

Lemma replace_node_lookup s b node k : k <> b ->
  nodes (c_dfa (replace_node s b node)) !!N k = nodes (c_dfa s) !!N k.
Proof. intros Hne. simpl. apply list_lookup_insert_ne. lia. Qed.

Lemma step_spec_replace s b node k :
  k <> b -> step_spec (c_dfa s) (uniqueNodeIdSetTable s) k ->
  step_spec (c_dfa (replace_node s b node)) (uniqueNodeIdSetTable s) k.
Proof.
  intros Hne (node' & u & ts & Hn & H'). exists node', u, ts. split; [|exact H'].
  by rewrite replace_node_lookup.
Qed.

(** The node [b] is replaced by one with the same actions; either it is still
    to be processed, or its transitions are in place. *)
Lemma replace_node_inv b todo todo' s node node' :
  conv_inv (b :: todo) s -> nodes (c_dfa s) !!N b = Some node ->
  m_actionsStart node' = m_actionsStart node -> m_actionsLength node' = m_actionsLength node ->
  (todo' = b :: todo /\ m_flags node' = 0 \/
   todo' = todo /\ (bounded (c_dfa s) ->
     step_spec (c_dfa (replace_node s b node')) (uniqueNodeIdSetTable s) b)) ->
  conv_inv todo' (replace_node s b node').
Proof.
  intros [Hl Hroot Hsets Hdist Hcount [Hnd Htodo] Hca Hcd] Hn Hs Hlen Hcase.
  apply NoDup_cons in Hnd as [Hnb Hnd].
  assert (nodes (c_dfa (replace_node s b node')) !!N b = Some node') as Hb.
  { simpl. apply list_lookup_insert_eq. by apply lookup_lt_Some in Hn. }
  split; [by simpl; rewrite length_insert|done|done|done|by simpl; rewrite length_insert| | |].
  - split; [destruct Hcase as [[-> _]|[-> _]]; [by apply NoDup_cons|done]|]. intros k Hk.
    destruct (decide (k = b)) as [->|Hne].
    + destruct Hcase as [[-> ?]|[-> _]]; [by exists node'|done].
    + rewrite replace_node_lookup by done. apply Htodo. destruct Hcase as [[-> _]|[-> _]]; [done|by right].
  - intros Hbd k u Hu. destruct (Hca Hbd k u Hu) as (n & acts & Hk & Ha & Hin).
    destruct (decide (k = b)) as [->|Hne]; [|exists n, acts; by rewrite replace_node_lookup].
    exists node', acts. simplify_eq. split_and!; [done| |done].
    unfold node_actions in *. by rewrite Hs, Hlen.
  - intros Hbd k Hk Hnot. simpl in Hk. rewrite length_insert in Hk. destruct (decide (k = b)) as [->|Hne].
    + destruct Hcase as [[-> _]|[-> Hstep]]; [|by apply Hstep]. exfalso. apply Hnot. by left.
    + apply (step_spec_replace s b node' k Hne), Hcd; [exact Hbd|done|]. intros [->|Hin]%elem_of_cons; [done|].
      apply Hnot. destruct Hcase as [[-> _]|[-> _]]; [by right|done].
Qed.

Lemma conv_inv_perm todo todo' s : todo ≡ₚ todo' -> conv_inv todo s -> conv_inv todo' s.
Proof.
  intros Hp [Hl Hroot Hsets Hdist Hcount [Hnd Htodo] Hca Hcd]. split; [done..| |done|].
  - split; [by rewrite <- Hp|]. intros k Hk. apply Htodo. by rewrite Hp.
  - intros Hb k Hk Hnot. apply Hcd; [done..|]. by rewrite Hp.
Qed.

(** What the code has computed about the set [u]. *)
Record processed (u : UniqueNodeIdSet) (fallback : list N) (f : N -> N -> Prop) : Prop := {
  pr_fallback : forall x, x ∈ fallback <-> any_next nfa (set_of u) x;
  pr_f : forall c x, f c x <-> exists targets, has_slot nfa (set_of u) c targets /\
    ((exists q, q ∈ targets /\ eps_star nfa q x) \/ (c <> 0 /\ x ∈ fallback))
}.

(** The transitions in place are those of the set. *)
Lemma busy_step u fallback f s T0 ts post node b :
  processed u fallback f ->
  (forall k v, uniqueNodeIdSetTable s !!N k = Some v -> set_of v <> []) ->
  uniqueNodeIdSetTable s !!N b = Some u -> nodes (c_dfa s) !!N b = Some node ->
  keys_ok f 128 ts (uniqueNodeIdSetTable s) ->
  transitions (c_dfa s) = T0 ++ ts ++ post -> bounded (c_dfa s) ->
  m_transitionsStart node = N.of_nat (length T0) -> m_transitionsLength node = N.of_nat (length ts) ->
  (m_flags node = 0 /\ fallback = [] \/
   m_flags node = 1 /\ exists d v, post = [(255, d)] /\ uniqueNodeIdSetTable s !!N d = Some v /\
     forall x, x ∈ set_of v <-> x ∈ fallback) ->
  step_spec (c_dfa s) (uniqueNodeIdSetTable s) b.
Proof.
  intros [Hfb Hf] Hne Hu Hn [Hnd Hin Hout] Htr [_ Hb] Hstart Hlen Hflag.
  rewrite Htr, !length_app in Hb.
  assert (transitionsEnd node = N.of_nat (length T0) + N.of_nat (length ts)) as Hend.
  { unfold transitionsEnd. rewrite Hstart, Hlen. apply wrap32_id. change (2 ^ 32) with 4294967296 in Hb. lia. }
  assert (node_transitions node (c_dfa s) = Some ts) as Hts.
  { unfold node_transitions. rewrite Htr, Hend, Hstart. apply mapM_window. }
  assert (forall d rest, post = (255, d) :: rest -> m_flags node = 1 ->
    fallbackTransitionDestination node (c_dfa s) = Some d) as Hdest.
  { intros d rest -> Hfl. unfold fallbackTransitionDestination, hasFallbackTransition. rewrite Hfl.
    change (negb (N.land 1 HasFallbackTransition =? 0)) with true. run_option.
    rewrite Htr, Hend, app_assoc, lookup_app_r by (rewrite length_app; lia).
    rewrite length_app. by replace (_ - _)%nat with 0%nat by lia. }
  exists node, u, ts. split_and!; [done| |done|done|done| | |].
  - unfold isKilled. by destruct Hflag as [[-> _]|[-> _]].
  - apply Forall_forall. intros [c t] Hct. destruct (Hin c t Hct) as (? & v & Hv & _).
    split; [done|]. by apply lookupN_lt in Hv.
  - unfold hasFallbackTransition. destruct Hflag as [[-> _]|(Hfl & d & v & Hpost & Hv & _)]; [done|]. intros _.
    exists d. split; [by eapply Hdest|]. by apply lookupN_lt in Hv.
  - intros c Hc. unfold step_node. rewrite Hts. cbn [from_option id].
    destruct (find_transition c ts) as [t|] eqn:E.
    + apply find_transition_Some in E. destruct (Hin c t E) as (_ & v & Hv & Hvf). exists v. split; [done|].
      destruct (populated_next nfa Hok (set_of u) fallback (set_of v) c Hc Hfb) as [Hnext _];
        [intros x; by rewrite Hvf, Hf|]. apply Hnext. by eapply Hne.
    + apply find_transition_None in E.
      destruct (populated_next nfa Hok (set_of u) fallback [] c Hc Hfb) as [_ Hnext].
      { intros x. rewrite <- Hf, elem_of_nil. split; [done|]. by apply Hout. }
      specialize (Hnext eq_refl). unfold hasFallbackTransition.
      destruct Hflag as [[Hfl ->]|(Hfl & d & v & Hpost & Hv & Hvf)]; rewrite Hfl.
      * simpl. intros x. rewrite Hnext, elem_of_nil. tauto.
      * change (negb (N.land 1 HasFallbackTransition =? 0)) with true. cbn [andb].
        destruct (c =? 0) eqn:Ec; breflect; simpl.
        -- intros x. rewrite Hnext. naive_solver.
        -- rewrite (Hdest d [] Hpost Hfl). exists v. split; [done|]. intros x. rewrite Hvf, Hnext. naive_solver.
Qed.

(** ** Counting *)

Fixpoint all_vectors (n : nat) : list (list bool) :=
  match n with
  | O => [[]]
  | S n' => (cons true <$> all_vectors n') ++ (cons false <$> all_vectors n')
  end.

Lemma length_all_vectors n : length (all_vectors n) = (2 ^ n)%nat.
Proof. induction n as [|n IH]; [done|]. cbn [all_vectors]. rewrite length_app, !length_fmap, IH. simpl. lia. Qed.

Lemma elem_of_all_vectors v : v ∈ all_vectors (length v).
Proof.
  induction v as [|b v IH]; [by left|]. cbn [length all_vectors]. apply elem_of_app.
  destruct b; [left|right]; apply list_elem_of_fmap; by exists v.
Qed.

Definition indicator (set : list N) : list bool :=
  (fun i => bool_decide (i ∈ set)) <$> for_range 0 (graphSize nfa).

Lemma indicator_inj s1 s2 : good_set nfa s1 -> good_set nfa s2 -> indicator s1 = indicator s2 ->
  forall x, x ∈ s1 <-> x ∈ s2.
Proof.
  intros H1 H2 Heq x. destruct (decide (x < graphSize nfa)) as [Hx|Hx].
  - apply (f_equal (fun l => l !! N.to_nat x)) in Heq. unfold indicator in Heq.
    assert (for_range 0 (graphSize nfa) !! N.to_nat x = Some x) as Hl by (apply lookup_for_range; lia).
    rewrite !list_lookup_fmap, Hl in Heq. simpl in Heq. injection Heq as Heq.
    pose proof (bool_decide_eq_true (x ∈ s1)) as B1. pose proof (bool_decide_eq_true (x ∈ s2)) as B2.
    rewrite Heq in B1. tauto.
  - split; intros Hin; exfalso; apply Hx; [by apply (good_lt nfa s1)|by apply (good_lt nfa s2)].
Qed.

Lemma table_bound todo s : conv_inv todo s ->
  N.of_nat (length (uniqueNodeIdSetTable s)) <= 2 ^ graphSize nfa.
Proof.
  intros Hinv. set (l := (fun u => indicator (set_of u)) <$> uniqueNodeIdSetTable s).
  assert (length l <= length (all_vectors (length (m_nodes nfa))))%nat as Hlen.
  { apply submseteq_length, NoDup_submseteq.
    - apply NoDup_alt. intros i j v Hi Hj. unfold l in Hi, Hj. rewrite list_lookup_fmap in Hi, Hj.
      destruct (uniqueNodeIdSetTable s !! i) as [u|] eqn:Eu; [|done].
      destruct (uniqueNodeIdSetTable s !! j) as [w|] eqn:Ew; [|done]. simplify_eq/=.
      rewrite <- (Nat2N.id i) in Eu. rewrite <- (Nat2N.id j) in Ew.
      assert (N.of_nat i = N.of_nat j); [|lia]. eapply (ci_distinct _ _ Hinv); [done..|].
      apply indicator_inj; [apply (ci_sets _ _ Hinv _ _ Eu)|apply (ci_sets _ _ Hinv _ _ Ew)|congruence].
    - intros v (u & -> & _)%list_elem_of_fmap.
      replace (length (m_nodes nfa)) with (length (indicator (set_of u))); [apply elem_of_all_vectors|].
      unfold indicator, graphSize. rewrite length_fmap, length_for_range. lia. }
  unfold l in Hlen. rewrite length_fmap, length_all_vectors in Hlen. unfold graphSize.
  change 2 with (N.of_nat 2). rewrite <- Nat2N.inj_pow. lia.
Qed.

Lemma keys_length f ts table c :
  keys_ok f 128 ts table -> c < 128 -> c ∉ ts.*1 -> (length ts <= 127)%nat.
Proof.
  intros [Hnd Hin _] Hc Hnot.
  assert ((c :: ts.*1) ⊆+ for_range 0 128) as Hsub%submseteq_length.
  { apply NoDup_submseteq; [by apply NoDup_cons|].
    intros x [->|Hx]%elem_of_cons; apply elem_of_for_range; [lia|].
    apply list_elem_of_fmap in Hx as ([c' t] & -> & Hct). apply Hin in Hct as [? _]. simpl. lia. }
  rewrite length_for_range in Hsub. simpl in Hsub. rewrite length_fmap in Hsub. lia.
Qed.

Lemma keys_limit u fallback f ts s :
  processed u fallback f -> keys_ok f 128 ts (uniqueNodeIdSetTable s) ->
  (forall k v, uniqueNodeIdSetTable s !!N k = Some v -> set_of v <> []) ->
  (127 < length ts)%nat -> ~ limits nfa.
Proof.
  intros [_ Hf] Hkeys Hne Hlen Hlim. destruct (lim_key _ Hlim) as (c & Hc & Hfree).
  assert (c ∉ ts.*1) as Hnot.
  { intros ([c' t] & -> & Hct)%list_elem_of_fmap. destruct (keys_in _ _ _ _ Hkeys _ _ Hct) as (_ & v & Hv & Hvf).
    specialize (Hne t v Hv). destruct (set_of v) as [|x l]; [done|].
    destruct (proj1 (Hf c' x)) as (targets & (p & node & _ & Hn & Hs) & _); [apply Hvf; by left|].
    rewrite Forall_forall in Hfree. apply (Hfree node); [by eapply list_elem_of_lookup_2|].
    simpl. apply list_elem_of_fmap. by exists (c', targets). }
  pose proof (keys_length f ts _ c Hkeys Hc Hnot). lia.
Qed.

(** ** One turn of the loop *)

Definition todo_of (s : Conversion) : list N := m_dfaNodeId <$> unprocessedSets s.

Record loop_inv (t : list (list N)) (s : Conversion) : Prop := {
  li_table : table_rel nfa t (fun _ _ => False);
  li_conv : conv_inv (todo_of s) s;
  li_todo : forall u, u ∈ unprocessedSets s -> u ∈ uniqueNodeIdSetTable s;
  li_count : (length (transitions (c_dfa s)) + 128 * length (unprocessedSets s)
    <= 128 * length (nodes (c_dfa s)))%nat
}.

Lemma table_nonempty todo s k v : conv_inv todo s -> uniqueNodeIdSetTable s !!N k = Some v -> set_of v <> [].
Proof. intros Hinv Hv. apply (ci_sets _ _ Hinv _ _ Hv). Qed.

Lemma addFallbackTransition_spec node dfa id :
  m_flags node = 0 ->
  match addFallbackTransition node dfa id with
  | Some (node', dfa') =>
      node' = mkDFANode (m_actionsStart node) (m_transitionsStart node) (m_actionsLength node)
                (m_transitionsLength node) 1 /\
      dfa' = with_transitions dfa (transitions dfa ++ [(255, id)])
  | None => N.of_nat (length (transitions dfa)) <> transitionsEnd node
  end.
Proof.
  intros Hf. unfold addFallbackTransition. destruct (_ =? _) eqn:E; run_option; breflect; [|done].
  by rewrite Hf.
Qed.

(** The second half of the turn, from the transitions of all the characters. *)
Definition finish_set (dfaNodeId transitionsStart : N) (setFallbackTransition : list N) (s : Conversion)
    : option Conversion :=
  let transitionsLength := N.of_nat (length (transitions (c_dfa s))) - transitionsStart in
  _ ← release_assert (transitionsLength <=? 127);
  node ← nodes (c_dfa s) !!N dfaNodeId;
  let s := replace_node s dfaNodeId (setTransitions node transitionsStart (wrap8 transitionsLength)) in
  if isEmpty setFallbackTransition then Some s
  else
    r ← getOrCreateDFANode setFallbackTransition graph s;
    dfaSourceNode ← nodes (c_dfa r.2) !!N dfaNodeId;
    r' ← addFallbackTransition dfaSourceNode (c_dfa r.2) r.1;
    Some (mkConversion (with_nodes r'.2 (<[dfaNodeId :=N r'.1]> (nodes r'.2)))
            (uniqueNodeIdSetTable r.2) (unprocessedSets r.2)).

Lemma process_set_eq t s :
  process_set graph closures (t, s) =
  (r ← takeLast (unprocessedSets s);
   p ← populateTransitions t (set_of r.1) graph closures;
   k ← foldM (add_key graph) (p.1, mkConversion (c_dfa s) (uniqueNodeIdSetTable s) r.2)
         (for_range 0 (N.of_nat (length p.1)));
   s' ← finish_set (m_dfaNodeId r.1) (N.of_nat (length (transitions (c_dfa s)))) p.2 k.2;
   Some (k.1, s')).
Proof.
  unfold process_set. destruct (takeLast _) as [[u rest]|]; [|done]. run_option. cbn [fst snd c_dfa].
  destruct (populateTransitions _ _ _ _) as [[t1 fb]|]; [|done]. run_option. cbn [fst snd].
  destruct (foldM _ _ _) as [[t2 s2]|]; [|done]. run_option. cbn [fst snd]. unfold finish_set.
  destruct (_ <=? 127); [|done]. run_option.
  destruct (nodes (c_dfa s2) !!N m_dfaNodeId u) as [node|]; [|done]. run_option.
  destruct (isEmpty fb); [done|].
  change (mkConversion _ (uniqueNodeIdSetTable s2) (unprocessedSets s2)) with
    (replace_node s2 (m_dfaNodeId u) (setTransitions node (N.of_nat (length (transitions (c_dfa s))))
      (wrap8 (N.of_nat (length (transitions (c_dfa s2))) - N.of_nat (length (transitions (c_dfa s))))))).
  destruct (getOrCreateDFANode _ _ _) as [[id s3]|]; [|done]. run_option. cbn [fst snd].
  destruct (nodes (c_dfa s3) !!N m_dfaNodeId u) as [node3|]; [|done]. run_option.
  by destruct (addFallbackTransition _ _ _) as [[node4 dfa4]|].
Qed.

Lemma finish_set_spec b todo u fallback f s T0 ts N0 :
  conv_inv (b :: todo) s -> uniqueNodeIdSetTable s !!N b = Some u ->
  processed u fallback f -> good_set nfa fallback ->
  transitions (c_dfa s) = T0 ++ ts -> keys_ok f 128 ts (uniqueNodeIdSetTable s) ->
  (length T0 + 128 <= 128 * N0)%nat -> (N0 <= length (nodes (c_dfa s)))%nat ->
  match finish_set b (N.of_nat (length T0)) fallback s with
  | Some s' => exists new,
      conv_inv (todo ++ (m_dfaNodeId <$> new)) s' /\
      unprocessedSets s' = unprocessedSets s ++ new /\
      (exists tt, uniqueNodeIdSetTable s' = uniqueNodeIdSetTable s ++ tt) /\
      (exists tt, actions (c_dfa s') = actions (c_dfa s) ++ tt) /\
      (exists tt, transitions (c_dfa s') = T0 ++ tt /\ (length tt <= 128)%nat) /\
      (forall v, v ∈ new -> v ∈ uniqueNodeIdSetTable s') /\
      length (nodes (c_dfa s')) = (length (nodes (c_dfa s)) + length new)%nat
  | None => ~ limits nfa
  end.
Proof.
  intros Hinv Hu Hpr Hgood Htr Hkeys Hcount HN0. unfold finish_set.
  rewrite Htr, length_app, Nat2N.inj_add.
  replace (N.of_nat (length T0) + N.of_nat (length ts) - N.of_nat (length T0)) with (N.of_nat (length ts)) by lia.
  destruct (N.of_nat (length ts) <=? 127) eqn:Elen; run_option; breflect;
    [|eapply keys_limit; [done|done|intros ??; by eapply table_nonempty|lia]].
  destruct (ci_todo _ _ Hinv) as [_ Htodo]. destruct (Htodo b ltac:(by left)) as (node & Hn & Hflag).
  rewrite Hn. run_option.
  set (node1 := setTransitions node (N.of_nat (length T0)) (wrap8 (N.of_nat (length ts)))).
  assert (m_transitionsStart node1 = N.of_nat (length T0) /\ m_transitionsLength node1 = N.of_nat (length ts)
    /\ m_flags node1 = 0) as (Hs1 & Hl1 & Hf1).
  { unfold node1, setTransitions. simpl. split_and!; [done| |done]. by rewrite !(wrap8_id (N.of_nat _)) by lia. }
  set (s1 := replace_node s b node1).
  assert (nodes (c_dfa s1) !!N b = Some node1) as Hn1
    by (simpl; apply list_lookup_insert_eq; by apply lookup_lt_Some in Hn).
  destruct (isEmpty fallback) eqn:Eemp.
  - destruct fallback; [|done]. exists []. simpl. rewrite !app_nil_r. split_and!; [|done|..].
    + apply (replace_node_inv b todo todo s node node1 Hinv Hn); [done..|]. right. split; [done|].
      intros Hb. change (uniqueNodeIdSetTable s) with (uniqueNodeIdSetTable s1).
      apply (busy_step u [] f s1 T0 ts [] node1 b); [done| |done|done|done| |done|done|done|by left].
      * intros k v Hv. exact (table_nonempty _ _ _ _ Hinv Hv).
      * by rewrite app_nil_r.
    + exists []. by rewrite app_nil_r.
    + exists []. by rewrite app_nil_r.
    + exists ts. split; [done|lia].
    + intros v Hv. by apply elem_of_nil in Hv.
    + rewrite length_insert. lia.
  - assert (fallback <> []) as Hne by (by intros ->).
    assert (conv_inv (b :: todo) s1) as Hinv1
      by (apply (replace_node_inv b todo _ s node node1 Hinv Hn); [done..|by left]).
    pose proof (getOrCreateDFANode_spec _ s1 fallback Hinv1 Hgood Hne) as Hget.
    destruct (getOrCreateDFANode fallback graph s1) as [[id s2]|]; [|done]. run_option. cbn [fst snd].
    destruct Hget as (new & Hinv2 & Hle & Hun & Hnew & Hlen & Htr2 & v & Hv & Hvf).
    assert (nodes (c_dfa s2) !!N b = Some node1) as Hn2.
    { destruct (le_nodes _ _ Hle) as [nn ->]. by apply lookup_app_l_Some. }
    rewrite Hn2. run_option. pose proof (addFallbackTransition_spec node1 (c_dfa s2) id Hf1) as Hadd.
    destruct (addFallbackTransition node1 (c_dfa s2) id) as [[node2 dfa2]|]; run_option; cbn [fst snd].
    + destruct Hadd as [-> ->]. set (node2 := mkDFANode _ _ _ _ 1). exists new.
      set (s3 := append_transition s2 (255, id)).
      change (mkConversion _ _ _) with (replace_node s3 b node2).
      assert (conv_inv (b :: todo ++ (m_dfaNodeId <$> new)) s3) as Hinv3 by (by apply append_transition_inv).
      assert (nodes (c_dfa s3) !!N b = Some node1) as Hn3 by done.
      split_and!.
      * apply (replace_node_inv b _ _ s3 node1 node2 Hinv3 Hn3); [done..|]. right. split; [done|]. intros Hb.
        change (uniqueNodeIdSetTable s3) with (uniqueNodeIdSetTable (replace_node s3 b node2)).
        apply (busy_step u fallback f _ T0 ts [(255, id)] node2 b); [done|..|done|done| |].
        -- intros k w Hw. exact (table_nonempty _ s3 _ _ Hinv3 Hw).
        -- simpl. destruct (le_table _ _ Hle) as [tt ->]. by apply lookup_app_l_Some.
        -- simpl. apply list_lookup_insert_eq. by apply lookup_lt_Some in Hn2.
        -- simpl. destruct (le_table _ _ Hle) as [tt ->]. destruct Hkeys as [Hk1 Hk2 Hk3]. split; [done| |done].
           intros c t Hct. destruct (Hk2 c t Hct) as (? & w & Hw & ?). split; [done|]. exists w.
           split; [|done]. by apply lookup_app_l_Some.
        -- simpl. rewrite Htr2. simpl. by rewrite Htr, <- app_assoc.
        -- done.
        -- right. split; [done|]. by exists id, v.
      * done.
      * apply (le_table _ _ Hle).
      * apply (le_actions _ _ Hle).
      * exists (ts ++ [(255, id)]). simpl. rewrite Htr2. simpl. rewrite Htr, <- app_assoc, length_app. simpl.
        split; [done|lia].
      * done.
      * simpl. rewrite length_insert. rewrite Hlen. simpl. by rewrite length_insert.
    + intros Hlim. apply Hadd. rewrite Htr2. simpl. rewrite Htr, length_app.
      unfold transitionsEnd. rewrite Hs1, Hl1.
      pose proof (lim_transitions _ Hlim) as HT. pose proof (table_bound _ _ Hinv) as Htb.
      rewrite (ci_len _ _ Hinv) in Htb. change (2 ^ 32) with 4294967296 in HT.
      rewrite wrap32_id; [lia|]. lia.
Qed.

Lemma process_set_spec t s :
  loop_inv t s -> unprocessedSets s <> [] ->
  match process_set graph closures (t, s) with
  | Some (t', s') => loop_inv t' s' /\
      (exists tt, uniqueNodeIdSetTable s' = uniqueNodeIdSetTable s ++ tt) /\
      (exists tt, actions (c_dfa s') = actions (c_dfa s) ++ tt) /\
      (exists tt, transitions (c_dfa s') = transitions (c_dfa s) ++ tt) /\
      (length (unprocessedSets s') + length (nodes (c_dfa s)) + 1
       = length (unprocessedSets s) + length (nodes (c_dfa s')))%nat
  | None => ~ limits nfa
  end.
Proof.
  intros [Ht Hinv Htodo Hcount] Hne. rewrite process_set_eq. unfold todo_of in *.
  destruct s as [dfa table un]. cbn [unprocessedSets c_dfa uniqueNodeIdSetTable] in *.
  destruct un as [|u rest _] using rev_ind; [done|]. clear Hne.
  rewrite takeLast_snoc. run_option. cbn [fst snd].
  assert (u ∈ table) as Hu by (apply Htodo, elem_of_app; right; by left).
  apply list_elem_of_lookup_1 in Hu as [i Hu]. rewrite <- (Nat2N.id i) in Hu.
  destruct (ci_sets _ _ Hinv _ _ Hu) as (Hid & Hgood & Hnonempty). simpl in Hid. rewrite <- Hid in Hu.
  set (b := m_dfaNodeId u) in *.
  destruct (populateTransitions_spec nfa Hok closures Hcl t (set_of u) Ht (good_lt nfa _ Hgood))
    as (t1 & fallback & -> & Hfb & Hfin & Ht1). run_option. cbn [fst snd].
  rewrite (proj1 Ht1). change (N.of_nat 128) with 128.
  set (f := fun c x => exists targets, has_slot nfa (set_of u) c targets /\
    ((exists q, q ∈ targets /\ eps_star nfa q x) \/ (c <> 0 /\ x ∈ fallback))) in *.
  set (s0 := mkConversion dfa table rest).
  assert (conv_inv (b :: (m_dfaNodeId <$> rest)) s0) as Hinv0.
  { eapply conv_inv_perm; [|destruct Hinv; split; done]. rewrite fmap_app. simpl. by rewrite Permutation_app_comm. }
  pose proof (add_keys_spec _ f s0 t1 128 ltac:(lia) Hinv0 Ht1) as Hkeys.
  destruct (foldM (add_key graph) (t1, s0) (for_range 0 128)) as [[t2 s2]|]; [|done]. run_option. cbn [fst snd].
  destruct Hkeys as (ts & new & [Hinv2 Hle2 [Hun2 Hnew2] Hlen2 Htr2 Ht2 Hk2]). simpl in Hun2, Hlen2, Htr2.
  assert (uniqueNodeIdSetTable s2 !!N b = Some u) as Hu2 by (by apply (conv_le_lookup s0)).
  pose proof (finish_set_spec b ((m_dfaNodeId <$> rest) ++ (m_dfaNodeId <$> new)) u fallback f s2
    (transitions dfa) ts (length (nodes dfa)) Hinv2 Hu2 (Build_processed _ _ _ Hfin (fun _ _ => iff_refl _))
    Hfb Htr2 Hk2) as Hfin2.
  rewrite length_app in Hcount. simpl in Hcount. specialize (Hfin2 ltac:(lia) ltac:(lia)).
  destruct (finish_set b _ fallback s2) as [s3|]; [|done]. run_option.
  destruct Hfin2 as (new3 & Hinv3 & Hun3 & [tt3 Htab3] & [ta3 Hact3] & (tr3 & Htr3 & Hlen3) & Hnew3 & Hnodes3).
  destruct Hle2 as [[tt2 Htab2] _ [ta2 Hact2] _]. simpl in Htab2, Hact2.
  assert (unprocessedSets s3 = rest ++ new ++ new3) as Hun by (by rewrite Hun3, Hun2, app_assoc).
  split_and!.
  - split; [| | |].
    + eapply table_rel_iff; [exact Ht2|]. intros c x Hc. simpl. split; [intros []; lia|done].
    + unfold todo_of. by rewrite Hun, !fmap_app, app_assoc.
    + intros v. rewrite Hun, !elem_of_app. intros [Hv|[Hv|Hv]]; [| |by apply Hnew3].
      * rewrite Htab3, Htab2, !elem_of_app. left. left. apply Htodo, elem_of_app. by left.
      * rewrite Htab3, elem_of_app. left. by apply Hnew2.
    + rewrite Htr3, Hun, !length_app. lia.
  - rewrite Htab3, Htab2, <- app_assoc. by eexists.
  - rewrite Hact3, Hact2, <- app_assoc. by eexists.
  - rewrite Htr3. by eexists.
  - rewrite Hun, !length_app. simpl. lia.
Qed.

(** ** The loop *)

Lemma convert_loop_spec fuel t s :
  loop_inv t s -> unprocessedSets s <> [] ->
  (length (unprocessedSets s) + 2 ^ length (m_nodes nfa) < fuel + length (nodes (c_dfa s)))%nat ->
  match convert_loop fuel graph closures (t, s) with
  | Some (Converted dfa) => exists table,
      conv_inv [] (mkConversion dfa table []) /\
      (length (transitions dfa) <= 128 * length (nodes dfa))%nat /\
      (exists tt, table = uniqueNodeIdSetTable s ++ tt)
  | Some (Unfinished _) => False
  | None => ~ limits nfa
  end.
Proof.
  revert t s. induction fuel as [|fuel IH]; intros t s Hinv Hne Hfuel.
  - exfalso. pose proof (table_bound _ _ (li_conv _ _ Hinv)) as Hb. rewrite (ci_len _ _ (li_conv _ _ Hinv)) in Hb.
    unfold graphSize in Hb. change 2 with (N.of_nat 2) in Hb. rewrite <- Nat2N.inj_pow in Hb. lia.
  - cbn [convert_loop]. pose proof (process_set_spec t s Hinv Hne) as Hp.
    destruct (process_set graph closures (t, s)) as [[t' s']|]; [|done]. run_option. cbn [snd].
    destruct Hp as (Hinv' & [tt Htt] & _ & _ & Hlen).
    destruct (isEmpty (unprocessedSets s')) eqn:E.
    + exists (uniqueNodeIdSetTable s'). split; [|split; [pose proof (li_count _ _ Hinv'); lia|by exists tt]].
      destruct (li_conv _ _ Hinv') as [H1 H2 H3 H4 H5 H6 H7 H8]. unfold todo_of in *.
      destruct (unprocessedSets s'); [|done]. by split.
    + assert (unprocessedSets s' <> []) as Hne' by (by intros Hnil; rewrite Hnil in E).
      specialize (IH t' s' Hinv' Hne' ltac:(lia)).
      destruct (convert_loop fuel graph closures (t', s')) as [[dfa|]|]; [|done|done].
      destruct IH as (table & Hc & Ht & [tt' ->]). eexists. split; [done|]. split; [done|].
      exists (tt ++ tt'). by rewrite Htt, app_assoc.
Qed.
End Conversion.

(** ** What the automaton does *)

(** The node that the input leads to. *)
Definition dfa_walk (dfa : DFA) (index : N) (w : list N) : option N :=
  foldM (fun index c => dfa_step dfa index c) index w.

(** The actions of the node that the input leads to. *)
Definition actions_after (dfa : DFA) (w : list N) : list N :=
  match dfa_walk dfa (root dfa) w with Some k => actions_at dfa k | None => [] end.

Section Automaton.
Context (nfa : NFA) (Hok : nfa_ok nfa) (dfa : DFA) (table : list UniqueNodeIdSet).
Context (Hinv : conv_inv nfa [] (mkConversion dfa table [])).
Context (Hb : bounded dfa) (Hsize : N.of_nat (length (nodes dfa)) < max32).
Context (u0 : UniqueNodeIdSet) (Hu0 : table !!N 0 = Some u0).
Context (Hroot : forall x, x ∈ m_buffer u0 <-> eps_star nfa (m_root nfa) x).

Lemma all_steps k u : table !!N k = Some u -> step_spec nfa dfa table k.
Proof.
  intros Hu. apply (ci_done _ _ _ Hinv); [done| |apply not_elem_of_nil].
  rewrite <- (ci_len _ _ _ Hinv). by apply lookupN_lt in Hu.
Qed.

Lemma table_lookup k : k < N.of_nat (length table) -> exists u, table !!N k = Some u.
Proof. apply lookupN_is_Some. Qed.

Lemma table_live k : k < N.of_nat (length table) -> live dfa k.
Proof.
  intros Hk. destruct (table_lookup k Hk) as [u Hu]. destruct (all_steps k u Hu) as (node & _ & _ & Hn & Hkill & _).
  by exists node.
Qed.

Lemma converted_ok : dfa_ok dfa.
Proof.
  pose proof (ci_len _ _ _ Hinv) as Hlen. simpl in Hlen.
  split; [|done|].
  - pose proof (ci_root _ _ _ Hinv) as Hr. simpl in Hr. rewrite Hr. apply table_live. by apply lookupN_lt in Hu0.
  - intros k node Hn _. destruct (table_lookup k) as [u Hu]; [apply lookupN_lt in Hn; lia|].
    destruct (all_steps k u Hu) as (node' & _ & ts & Hn' & _ & _ & Hts & Hnd & Hall & Hfb & _). simplify_eq.
    split.
    + destruct (ci_actions _ _ _ Hinv Hb k u Hu) as (node'' & acts & Hn'' & Ha & Hin). simpl in *. simplify_eq.
      exists acts. split; [done|]. apply Forall_forall. intros a (p & _ & pnode & Hp & Hap)%Hin.
      pose proof (nn_final _ _ (nfa_node_ok_lookup _ _ _ Hok Hp)) as Hf. rewrite Forall_forall in Hf. auto.
    + exists ts. split_and!; [done..|]. eapply Forall_impl; [exact Hall|]. intros t [? ?]. split; [done|].
      by apply table_live.
    + intros F. destruct (Hfb F) as (t & ? & ?). exists t. split; [done|]. by apply table_live.
Qed.

(** The node an input leads to is the set of the nodes the input reaches. *)
Lemma walk_spec w : Forall (fun c => c < 128) w ->
  match dfa_walk dfa 0 w with
  | Some k => exists u, table !!N k = Some u /\ forall x, x ∈ m_buffer u <-> reach nfa (m_root nfa) w x
  | None => forall x, ~ reach nfa (m_root nfa) w x
  end.
Proof.
  induction w as [|c w IH] using rev_ind; intros Hw.
  - exists u0. split; [done|]. intros x. by rewrite Hroot, eps_star_reach.
  - apply Forall_app in Hw as [Hw Hc]. rewrite Forall_singleton in Hc. specialize (IH Hw).
    unfold dfa_walk in *. rewrite foldM_app. destruct (foldM _ 0 w) as [k|]; run_option.
    + destruct IH as (u & Hu & Hin). destruct (all_steps k u Hu) as (node & u' & ts & Hn & _ & Hu' & _ & _ & _ & _ & Hstep).
      rewrite Hu in Hu'. simplify_eq. specialize (Hstep c Hc). cbn [foldM]. unfold dfa_step. rewrite Hn. run_option.
      assert (forall x, next nfa (m_buffer u') c x <-> reach nfa (m_root nfa) (w ++ [c]) x) as Hnext.
      { intros x. rewrite reach_snoc. unfold next. split.
        - intros (p & q & Hp%Hin & Hpq & Hqx%eps_star_reach). by exists p, q.
        - intros (p & q & Hp & Hpq & Hqx). exists p, q. split; [by apply Hin|]. split; [done|].
          by apply eps_star_reach. }
      destruct (step_node node dfa c) as [t|]; run_option.
      * destruct Hstep as (v & Hv & Hvin). exists v. split; [done|]. intros x. by rewrite Hvin.
      * intros x Hx. by eapply Hstep, Hnext.
    + intros x (p & q & Hp & _)%reach_snoc. by apply (IH p).
Qed.

Lemma actions_after_spec w a : Forall (fun c => c < 128) w ->
  a ∈ actions_after dfa w <-> accepts nfa w a.
Proof.
  intros Hw. unfold actions_after, accepts. pose proof (ci_root _ _ _ Hinv) as Hr. simpl in Hr. rewrite Hr.
  pose proof (walk_spec w Hw) as Hwalk. destruct (dfa_walk dfa 0 w) as [k|].
  - destruct Hwalk as (u & Hu & Hin).
    destruct (ci_actions _ _ _ Hinv Hb k u Hu) as (node & acts & Hn & Ha & Hacts). simpl in *.
    unfold actions_at. rewrite Hn. run_option. rewrite Ha. simpl. rewrite Hacts.
    split; intros (q & Hq & ?); exists q; by rewrite Hin in *.
  - rewrite elem_of_nil. split; [done|]. intros (q & Hq & _). by apply Hwalk in Hq.
Qed.
End Automaton.

(** ** The conversion *)

Lemma convert_start `{HashOrder} nfa : nfa_ok nfa ->
  match convert 0 nfa with
  | Some (Unfinished (t, s)) => exists closures u0,
      closures_ok nfa closures /\ loop_inv nfa t s /\ unprocessedSets s = [u0] /\
      length (nodes (c_dfa s)) = 1%nat /\ uniqueNodeIdSetTable s = [u0] /\
      (forall x, x ∈ m_buffer u0 <-> eps_star nfa (m_root nfa) x) /\
      (forall fuel, convert fuel nfa = convert_loop fuel (strip <$> m_nodes nfa) closures (t, s))
  | Some (Converted _) => False
  | None => ~ limits nfa
  end.
Proof.
  intros Hok. unfold convert. destruct (resolveEpsilonClosures_spec nfa Hok) as (closures & -> & Hcl). run_option.
  pose proof (nfa_ok_root nfa Hok) as Hroot.
  destruct (extend_spec nfa Hok closures Hcl (m_root nfa) [] (good_nil nfa) Hroot) as (set & Hset & Hgood & Hin).
  change (hset_add (m_root nfa) []) with [m_root nfa] in Hset. rewrite Hset. run_option.
  assert (forall x, x ∈ set <-> eps_star nfa (m_root nfa) x) as Hinit by (intros x; rewrite Hin, elem_of_nil; tauto).
  assert (set <> []) as Hne.
  { intros ->. apply (not_elem_of_nil (m_root nfa)), Hinit, rtc_refl. }
  pose proof (translate_spec nfa Hok closures Hcl set emptyDFA Hgood) as Htr.
  destruct (translate set _ emptyDFA) as [[u dfa]|]; [|done]. run_option. cbn [convert_loop].
  destruct Htr as (acts & Hperm & Hid & Hdfa & Hacts & Hlen).
  set (empty := mkConversion emptyDFA [] []).
  assert (conv_inv nfa [] empty) as Hempty.
  { split; simpl; try done; try lia.
    - split; [constructor|]. intros k Hk. by apply elem_of_nil in Hk. }
  pose proof (create_inv nfa [] empty set u dfa acts Hempty Hgood Hne eq_refl Hperm Hid Hdfa Hacts Hlen) as Hconv.
  simpl in Hconv. exists closures, u. split_and!; [done| |done|by rewrite Hdfa|done| |done].
  - split; simpl; [by eapply table_rel_empty|done|done|by rewrite Hdfa; simpl; lia].
  - intros x. by rewrite Hperm, Hinit.
Qed.

(** What [convert] comes to. *)
Lemma convert_result `{HashOrder} nfa fuel : nfa_ok nfa -> (2 ^ length (m_nodes nfa) < fuel)%nat ->
  match convert fuel nfa with
  | Some (Converted dfa) => exists table u0, conv_inv nfa [] (mkConversion dfa table []) /\
      (length (transitions dfa) <= 128 * length (nodes dfa))%nat /\
      table !!N 0 = Some u0 /\ forall x, x ∈ m_buffer u0 <-> eps_star nfa (m_root nfa) x
  | Some (Unfinished _) => False
  | None => ~ limits nfa
  end.
Proof.
  intros Hok Hfuel. pose proof (convert_start nfa Hok) as Hstart.
  destruct (convert 0 nfa) as [[dfa|[t s]]|] eqn:E; [done| |].
  - destruct Hstart as (closures & u0 & Hcl & Hinv & Hun & Hnodes & Htab & Hinit & ->).
    pose proof (convert_loop_spec nfa Hok closures Hcl fuel t s Hinv) as Hloop.
    rewrite Hun, Hnodes in Hloop. specialize (Hloop ltac:(done) ltac:(simpl; lia)).
    destruct (convert_loop fuel _ closures (t, s)) as [[dfa|]|]; [|done|done].
    destruct Hloop as (table & Hc & Ht & [tt ->]). exists (uniqueNodeIdSetTable s ++ tt), u0.
    rewrite Htab in *. done.
  - revert E. unfold convert. destruct (resolveEpsilonClosures _) as [[g c]|]; [|done]. run_option.
    destruct (extendSetWithClosure _ _ _); [|done]. run_option. by destruct (translate _ _ _) as [[u dfa]|].
Qed.

(** C4: The subset construction is correct and ends.  On a well-formed NFA with [n]
    nodes, the loop of [NFAToDFA::convert] takes at most [2 ^ n] turns.  When it
    does not run into a [RELEASE_ASSERT] and the vectors of the DFA are within
    their capacity, the DFA is well formed and triggers after every input exactly
    the actions that the NFA triggers. *)
Theorem convert_correct `{HashOrder} (nfa : NFA) (fuel : nat) :
  nfa_ok nfa -> (2 ^ length (m_nodes nfa) < fuel)%nat ->
  (forall s, convert fuel nfa <> Some (Unfinished s)) /\
  forall dfa, convert fuel nfa = Some (Converted dfa) ->
    bounded dfa -> N.of_nat (length (nodes dfa)) < max32 ->
    dfa_ok dfa /\
    forall w a, Forall (fun c => c < 128) w -> a ∈ actions_after dfa w <-> accepts nfa w a.
Proof.
  intros Hok Hfuel. pose proof (convert_result nfa fuel Hok Hfuel) as Hr. split.
  - intros s E. by rewrite E in Hr.
  - intros dfa E Hb Hsize. rewrite E in Hr. destruct Hr as (table & u0 & Hinv & Htr & Hu0 & Hroot).
    split; [by eapply converted_ok|]. intros w a Hw. by eapply actions_after_spec.
Qed.

(** C29: Within the limits of a DFA (not too many sets nor actions, and a character that no node has
    a transition of its own on), [NFAToDFA::convert] runs into none of its
    [RELEASE_ASSERT]s: it returns a well-formed DFA that triggers after every
    input exactly the actions that the NFA triggers. *)
Theorem convert_returns `{HashOrder} (nfa : NFA) (fuel : nat) :
  nfa_ok nfa -> limits nfa -> (2 ^ length (m_nodes nfa) < fuel)%nat ->
  exists dfa, convert fuel nfa = Some (Converted dfa) /\ dfa_ok dfa /\
    forall w a, Forall (fun c => c < 128) w -> a ∈ actions_after dfa w <-> accepts nfa w a.
Proof.
  intros Hok Hlim Hfuel. pose proof (convert_result nfa fuel Hok Hfuel) as Hr.
  destruct (convert fuel nfa) as [[dfa|s]|]; [|done|done].
  destruct Hr as (table & u0 & Hinv & Htr & Hu0 & Hroot). exists dfa. split; [done|].
  pose proof (table_bound nfa _ _ Hinv) as Htb. pose proof (ci_len _ _ _ Hinv) as Hlen. simpl in Htb, Hlen.
  pose proof (ci_count _ _ _ Hinv) as Hcount. simpl in Hcount.
  destruct Hlim as [Ht Ha _ _].
  assert (N.of_nat (length (nodes dfa)) <= 2 ^ graphSize nfa) as Hn by lia.
  change (2 ^ 32) with 4294967296 in *.
  assert (bounded dfa) as Hb.
  { split; change (2 ^ 32) with 4294967296; [|lia]. eapply N.le_lt_trans; [|exact Ha].
    etrans; [|by apply N.mul_le_mono_l]. lia. }
  assert (N.of_nat (length (nodes dfa)) < max32) by (unfold max32; lia).
  split; [by eapply converted_ok|]. intros w a Hw. by eapply actions_after_spec.
Qed.

(** ** An example

    [a] followed by anything, or [b], any number of times. *)
Definition example_nfa : NFA := mkNFA
  [mkNFANode [(97, [1]); (98, [0]); (256, [2])] [] [];
   mkNFANode [] [2] [];
   mkNFANode [(256, [0])] [] [42]] 0.

Lemma example_limits : limits example_nfa.
Proof. by split; [vm_compute..|exists 120; split; [vm_compute|repeat constructor; set_solver]]. Qed.

Lemma convert_returns_witness :
  exists dfa, convert (H := insertion_order) 9 example_nfa = Some (Converted dfa) /\ dfa_ok dfa /\
    forall w a, Forall (fun c => c < 128) w -> a ∈ actions_after dfa w <-> accepts example_nfa w a.
Proof.
  apply (convert_returns (H := insertion_order) example_nfa 9).
  - apply nfa_okb_spec. by vm_compute.
  - apply example_limits.
  - simpl. lia.
Defined.

Lemma convert_correct_witness :
  (forall s, convert (H := insertion_order) 9 example_nfa <> Some (Unfinished s)) /\
  forall dfa, convert (H := insertion_order) 9 example_nfa = Some (Converted dfa) ->
    bounded dfa -> N.of_nat (length (nodes dfa)) < max32 ->
    dfa_ok dfa /\
    forall w a, Forall (fun c => c < 128) w -> a ∈ actions_after dfa w <-> accepts example_nfa w a.
Proof.
  apply (convert_correct (H := insertion_order) example_nfa 9).
  - apply nfa_okb_spec. by vm_compute.
  - simpl. lia.
Defined.

Example convert_example :
  match convert (H := insertion_order) 9 example_nfa with
  | Some (Converted dfa) =>
      (length (nodes dfa), actions_after dfa [98; 97; 7; 98], actions_after dfa [98; 97])
      = (2%nat, [42], [])
  | _ => False
  end.
Proof. by vm_compute. Qed.
