(* ===== verification/DFAViews.v ===== *)
(** * What the nodes of a DFA hold, independently of where it is stored

    A node is two windows of the shared vectors of its DFA.  Its view is what the
    windows hold; the operations of the minimizer rewrite the vectors in place, so
    that the windows of different nodes must not overlap. *)

From S2P Require Import Prelude DFA.

(** ** Vectors written in place *)

Lemma mapM_slice {A} (v : list A) start size : start + size <= N.of_nat (length v) ->
  mapM (fun i => v !!N i) (for_range start (start + size)) =
  Some (take (N.to_nat size) (drop (N.to_nat start) v)).
Proof.
  intros Hle. pose proof (mapM_window (take (N.to_nat start) v) (take (N.to_nat size) (drop (N.to_nat start) v))
    (drop (N.to_nat size) (drop (N.to_nat start) v))) as Hw.
  rewrite take_drop, take_drop in Hw. rewrite !length_take, length_drop in Hw.
  replace (N.of_nat (N.to_nat start `min` length v)) with start in Hw by lia.
  replace (N.of_nat (N.to_nat size `min` (length v - N.to_nat start))) with size in Hw by lia. done.
Qed.

Definition slice {A} (v : list A) (start size : N) : list A := take (N.to_nat size) (drop (N.to_nat start) v).

Lemma lookup_slice {A} (v : list A) start size j : j < size -> slice v start size !!N j = v !!N (start + j).
Proof. intros Hj. unfold slice. rewrite lookup_take_lt by lia. rewrite lookup_drop. f_equal. lia. Qed.

Lemma length_slice {A} (v : list A) start size : start + size <= N.of_nat (length v) ->
  N.of_nat (length (slice v start size)) = size.
Proof. intros. unfold slice. rewrite length_take, length_drop. lia. Qed.

Lemma slice_nil {A} (v : list A) start : slice v start 0 = [].
Proof. done. Qed.

Lemma slice_eq {A} (v : list A) start size l : start + size <= N.of_nat (length v) -> N.of_nat (length l) = size ->
  (forall j, j < size -> v !!N (start + j) = l !!N j) -> slice v start size = l.
Proof.
  intros Hle Hlen Heq. pose proof (length_slice v start size Hle) as Hs. apply list_eq. intros k.
  destruct (decide (k < length l)%nat) as [Hk|Hk].
  - rewrite <- (Nat2N.id k). rewrite lookup_slice by lia. apply Heq. lia.
  - rewrite !lookup_ge_None_2 by lia. done.
Qed.

(** Two vectors that agree on a window. *)
Lemma slice_agree {A} (v v' : list A) start size : length v' = length v ->
  (forall k, start <= k < start + size -> v' !!N k = v !!N k) -> slice v' start size = slice v start size.
Proof.
  intros Hlen Heq. apply list_eq. intros k. unfold slice.
  destruct (decide (k < N.to_nat size)%nat).
  - rewrite !lookup_take_lt, !lookup_drop by done. specialize (Heq (start + N.of_nat k)).
    replace (N.to_nat (start + N.of_nat k)) with (N.to_nat start + k)%nat in Heq by lia. apply Heq. lia.
  - rewrite !lookup_take_ge by lia. done.
Qed.

(** ** Views *)

Definition slots (node : DFANode) : N := m_transitionsLength node + (if hasFallbackTransition node then 1 else 0).

Record view := mkView {
  v_transitions : list (N * N);
  v_fallback : option N;
  v_actions : list N
}.

Definition node_view (dfa : DFA) (node : DFANode) : view :=
  mkView (slice (transitions dfa) (m_transitionsStart node) (m_transitionsLength node))
    (if hasFallbackTransition node
     then snd <$> transitions dfa !!N (m_transitionsStart node + m_transitionsLength node) else None)
    (slice (actions dfa) (m_actionsStart node) (m_actionsLength node)).

Definition step_view (v : view) (c : N) : option N :=
  match find_transition c (v_transitions v) with
  | Some target => Some target
  | None => if c =? 0 then None else v_fallback v
  end.

Definition disjoint_windows (a la b lb : N) : Prop := forall k, a <= k < a + la -> ~ b <= k < b + lb.

Record within (dfa : DFA) (node : DFANode) : Prop := {
  wi_transitions : m_transitionsStart node + slots node <= N.of_nat (length (transitions dfa));
  wi_actions : m_actionsStart node + m_actionsLength node <= N.of_nat (length (actions dfa))
}.

Record apart (node node' : DFANode) : Prop := {
  ap_transitions : disjoint_windows (m_transitionsStart node) (slots node) (m_transitionsStart node') (slots node');
  ap_actions : disjoint_windows (m_actionsStart node) (m_actionsLength node) (m_actionsStart node') (m_actionsLength node')
}.

Definition view_ok (n : N) (v : view) : Prop :=
  NoDup (v_transitions v).*1 /\ Forall (fun t => t.1 < 128 /\ t.2 < n) (v_transitions v) /\
  (forall t, v_fallback v = Some t -> t < n).

(** The vectors of a DFA hold the windows of its nodes apart from each other. *)
Record layout (dfa : DFA) : Prop := {
  ly_transitions : N.of_nat (length (transitions dfa)) < 2 ^ 32;
  ly_actions : N.of_nat (length (actions dfa)) < 2 ^ 32;
  ly_nodes : 128 * N.of_nat (length (nodes dfa)) < 2 ^ 32;
  ly_within : forall i node, nodes dfa !!N i = Some node -> within dfa node;
  ly_apart : forall i j node node', i <> j -> nodes dfa !!N i = Some node -> nodes dfa !!N j = Some node' -> apart node node';
  ly_views : forall i node, nodes dfa !!N i = Some node -> view_ok (N.of_nat (length (nodes dfa))) (node_view dfa node)
}.

Section Layout.
Context (dfa : DFA) (Hly : layout dfa) (node : DFANode) (Hw : within dfa node).

Lemma transitions_end : transitionsEnd node = m_transitionsStart node + m_transitionsLength node.
Proof.
  unfold transitionsEnd. destruct Hw as [Ht _]. pose proof (ly_transitions _ Hly). unfold slots in Ht. apply wrap32_id. lia.
Qed.

Lemma node_transitions_view : node_transitions node dfa = Some (v_transitions (node_view dfa node)).
Proof.
  unfold node_transitions. rewrite transitions_end. apply mapM_slice. destruct Hw as [Ht _]. unfold slots in Ht. lia.
Qed.

Lemma node_actions_view : node_actions node dfa = Some (v_actions (node_view dfa node)).
Proof.
  unfold node_actions. destruct Hw as [_ Ha]. pose proof (ly_actions _ Hly). rewrite wrap32_id by lia. by apply mapM_slice.
Qed.

Lemma fallback_view : hasFallbackTransition node = true ->
  exists t, fallbackTransitionDestination node dfa = Some t /\ v_fallback (node_view dfa node) = Some t.
Proof.
  intros Hf. unfold fallbackTransitionDestination, node_view. cbn [v_fallback]. rewrite transitions_end, Hf. run_option.
  destruct Hw as [Ht _]. unfold slots in Ht. rewrite Hf in Ht.
  destruct (lookupN_is_Some (transitions dfa) (m_transitionsStart node + m_transitionsLength node)) as [t ->]; [lia|].
  by exists t.2.
Qed.

Lemma fallback_view_None : hasFallbackTransition node = false -> v_fallback (node_view dfa node) = None.
Proof. intros Hf. unfold node_view. cbn. by rewrite Hf. Qed.

Lemma step_node_view c : step_node node dfa c = step_view (node_view dfa node) c.
Proof.
  unfold step_node, step_view. rewrite node_transitions_view. simpl default.
  destruct (find_transition c _); [done|]. destruct (c =? 0); [by rewrite andb_false_r|]. rewrite andb_true_r.
  destruct (hasFallbackTransition node) eqn:Hf.
  - destruct (fallback_view Hf) as (t & -> & ->). done.
  - by rewrite fallback_view_None.
Qed.

Lemma length_view : N.of_nat (length (v_transitions (node_view dfa node))) = m_transitionsLength node.
Proof. apply length_slice. destruct Hw as [Ht _]. unfold slots in Ht. lia. Qed.
End Layout.

Lemma dfa_step_view dfa i node c : layout dfa -> nodes dfa !!N i = Some node ->
  dfa_step dfa i c = step_view (node_view dfa node) c.
Proof.
  intros Hly Hn. unfold dfa_step. rewrite Hn. run_option. apply step_node_view; [done|by apply (ly_within _ Hly i)].
Qed.

Lemma actions_at_view dfa i node : layout dfa -> nodes dfa !!N i = Some node ->
  actions_at dfa i = v_actions (node_view dfa node).
Proof.
  intros Hly Hn. unfold actions_at. rewrite Hn. run_option.
  rewrite node_actions_view; [done|done|by apply (ly_within _ Hly i)].
Qed.

(** A node that the vectors agree on the windows of keeps its view. *)
Lemma view_agree dfa dfa' node : length (transitions dfa') = length (transitions dfa) ->
  length (actions dfa') = length (actions dfa) ->
  (forall k, m_transitionsStart node <= k < m_transitionsStart node + slots node ->
    transitions dfa' !!N k = transitions dfa !!N k) ->
  (forall k, m_actionsStart node <= k < m_actionsStart node + m_actionsLength node ->
    actions dfa' !!N k = actions dfa !!N k) ->
  node_view dfa' node = node_view dfa node.
Proof.
  intros Hlt Hla Ht Ha. unfold node_view. unfold slots in Ht. f_equal.
  - apply slice_agree; [done|]. intros k Hk. apply Ht. lia.
  - destruct (hasFallbackTransition node); [|done]. f_equal. apply Ht. lia.
  - by apply slice_agree.
Qed.

(** The keys of a node are characters, so that there are few of them. *)
Lemma few_transitions n v : view_ok n v -> (length (v_transitions v) <= 128)%nat.
Proof.
  intros (Hnd & Hall & _). rewrite <- (length_fmap fst). change 128%nat with (length (for_range 0 128)).
  apply submseteq_length, NoDup_submseteq; [done|]. intros c ([c' t] & -> & Hin)%list_elem_of_fmap.
  rewrite Forall_forall in Hall. apply Hall in Hin as [? _]. apply elem_of_for_range. simpl in *. lia.
Qed.

(** ** Changing one node *)

(** [dfa'] differs from [dfa] in the node [i], whose windows shrink, and within
    these windows. *)
Record changes (dfa dfa' : DFA) (i : N) (node node' : DFANode) : Prop := {
  ch_nodes : nodes dfa' = <[i :=N node']> (nodes dfa);
  ch_root : root dfa' = root dfa;
  ch_length_transitions : length (transitions dfa') = length (transitions dfa);
  ch_length_actions : length (actions dfa') = length (actions dfa);
  ch_transitions : forall k, ~ m_transitionsStart node <= k < m_transitionsStart node + slots node ->
    transitions dfa' !!N k = transitions dfa !!N k;
  ch_actions : forall k, ~ m_actionsStart node <= k < m_actionsStart node + m_actionsLength node ->
    actions dfa' !!N k = actions dfa !!N k;
  ch_window : forall k, m_transitionsStart node' <= k < m_transitionsStart node' + slots node' ->
    m_transitionsStart node <= k < m_transitionsStart node + slots node;
  ch_actions_window : forall k, m_actionsStart node' <= k < m_actionsStart node' + m_actionsLength node' ->
    m_actionsStart node <= k < m_actionsStart node + m_actionsLength node;
  ch_within : within dfa' node'
}.

Section Changes.
Context (dfa dfa' : DFA) (i : N) (node node' : DFANode) (Hly : layout dfa) (Hn : nodes dfa !!N i = Some node).
Context (Hch : changes dfa dfa' i node node').

Lemma changes_lookup j : nodes dfa' !!N j = if decide (i = j) then Some node' else nodes dfa !!N j.
Proof.
  rewrite (ch_nodes _ _ _ _ _ Hch). apply lookup_lt_Some in Hn. case_decide as Hij.
  - subst. by apply list_lookup_insert_eq.
  - apply list_lookup_insert_ne. lia.
Qed.

Lemma changes_count : length (nodes dfa') = length (nodes dfa).
Proof. rewrite (ch_nodes _ _ _ _ _ Hch). apply length_insert. Qed.

(** The other nodes keep their views. *)
Lemma changes_others j other : j <> i -> nodes dfa !!N j = Some other -> node_view dfa' other = node_view dfa other.
Proof.
  intros Hji Hj. destruct (ly_apart _ Hly j i other node Hji Hj Hn) as [Hta Haa].
  apply view_agree; [apply (ch_length_transitions _ _ _ _ _ Hch)|apply (ch_length_actions _ _ _ _ _ Hch)| |].
  - intros k Hk. apply (ch_transitions _ _ _ _ _ Hch). by apply Hta.
  - intros k Hk. apply (ch_actions _ _ _ _ _ Hch). by apply Haa.
Qed.

Lemma changes_layout : view_ok (N.of_nat (length (nodes dfa))) (node_view dfa' node') -> layout dfa'.
Proof.
  intros Hview. pose proof changes_lookup as Hlook. pose proof changes_others as Hothers. split.
  - rewrite (ch_length_transitions _ _ _ _ _ Hch). apply (ly_transitions _ Hly).
  - rewrite (ch_length_actions _ _ _ _ _ Hch). apply (ly_actions _ Hly).
  - rewrite changes_count. apply (ly_nodes _ Hly).
  - intros j other. rewrite Hlook. case_decide as Hij; [intros [= <-]; apply (ch_within _ _ _ _ _ Hch)|].
    intros Hj. destruct (ly_within _ Hly j other Hj). split.
    + by rewrite (ch_length_transitions _ _ _ _ _ Hch).
    + by rewrite (ch_length_actions _ _ _ _ _ Hch).
  - intros a b x y Hab. rewrite !Hlook. pose proof (ch_window _ _ _ _ _ Hch) as Hwin.
    pose proof (ch_actions_window _ _ _ _ _ Hch) as Hawin.
    case_decide as Ha; case_decide as Hb; subst; try done.
    + intros [= <-] Hy. destruct (ly_apart _ Hly a b node y) as [Ht Hac]; [done..|].
      split; intros k Hk; [by apply Ht, Hwin|by apply Hac, Hawin].
    + intros Hx [= <-]. destruct (ly_apart _ Hly a b x node) as [Ht Hac]; [done..|].
      split; intros k Hk Hk'; [by eapply Ht, Hwin|by eapply Hac, Hawin].
    + by apply (ly_apart _ Hly).
  - intros j other. rewrite changes_count, Hlook. case_decide as Hij; [by intros [= <-]|].
    intros Hj. rewrite (Hothers j other) by done. by apply (ly_views _ Hly j).
Qed.
End Changes.

(** ** Deciding the layout *)

Definition disjoint_b (a la b lb : N) : bool := (la =? 0) || (lb =? 0) || (a + la <=? b) || (b + lb <=? a).

Definition apart_b (node node' : DFANode) : bool :=
  disjoint_b (m_transitionsStart node) (slots node) (m_transitionsStart node') (slots node') &&
  disjoint_b (m_actionsStart node) (m_actionsLength node) (m_actionsStart node') (m_actionsLength node').

Definition within_b (dfa : DFA) (node : DFANode) : bool :=
  (m_transitionsStart node + slots node <=? N.of_nat (length (transitions dfa))) &&
  (m_actionsStart node + m_actionsLength node <=? N.of_nat (length (actions dfa))).

Definition view_ok_b (n : N) (v : view) : bool :=
  bool_decide (NoDup (v_transitions v).*1) && forallb (fun t => (t.1 <? 128) && (t.2 <? n)) (v_transitions v) &&
  match v_fallback v with Some t => t <? n | None => true end.

Fixpoint all_apart (l : list DFANode) : bool :=
  match l with
  | [] => true
  | node :: l' => forallb (fun node' => apart_b node node' && apart_b node' node) l' && all_apart l'
  end.

Definition layout_b (dfa : DFA) : bool :=
  (N.of_nat (length (transitions dfa)) <? 2 ^ 32) && (N.of_nat (length (actions dfa)) <? 2 ^ 32) &&
  (128 * N.of_nat (length (nodes dfa)) <? 2 ^ 32) && forallb (within_b dfa) (nodes dfa) && all_apart (nodes dfa) &&
  forallb (fun node => view_ok_b (N.of_nat (length (nodes dfa))) (node_view dfa node)) (nodes dfa).

Lemma disjoint_b_spec a la b lb : disjoint_b a la b lb = true -> disjoint_windows a la b lb.
Proof.
  unfold disjoint_b, disjoint_windows. intros H k Hk Hk'. rewrite !orb_true_iff, !N.eqb_eq, !N.leb_le in H. lia.
Qed.

Lemma apart_b_spec node node' : apart_b node node' = true -> apart node node'.
Proof. unfold apart_b. intros [? ?]%andb_true_iff. split; by apply disjoint_b_spec. Qed.

Lemma all_apart_spec l i j node node' : all_apart l = true -> i <> j -> l !! i = Some node -> l !! j = Some node' -> apart node node'.
Proof.
  revert i j. induction l as [|x l IH]; intros i j Hl Hij Hi Hj; [done|]. cbn in Hl. apply andb_true_iff in Hl as [Hx Hl].
  rewrite forallb_forall in Hx. destruct i as [|i], j as [|j]; cbn in Hi, Hj; simplify_eq.
  - apply list_elem_of_lookup_2, list_elem_of_In in Hj. apply Hx, andb_true_iff in Hj as [? _]. by apply apart_b_spec.
  - apply list_elem_of_lookup_2, list_elem_of_In in Hi. apply Hx, andb_true_iff in Hi as [_ ?]. by apply apart_b_spec.
  - apply (IH i j); [done|congruence|done|done].
Qed.

Lemma view_ok_b_spec n v : view_ok_b n v = true -> view_ok n v.
Proof.
  unfold view_ok_b. intros [[Hnd Hall]%andb_true_iff Hf]%andb_true_iff. split_and!.
  - by apply bool_decide_eq_true in Hnd.
  - apply Forall_forall. intros t Ht%list_elem_of_In. rewrite forallb_forall in Hall. specialize (Hall t Ht). cbn in Hall. by breflect.
  - intros t Ht. rewrite Ht in Hf. by breflect.
Qed.

Lemma layout_b_spec dfa : layout_b dfa = true -> layout dfa.
Proof.
  unfold layout_b. intros H. rewrite !andb_true_iff, !forallb_forall, !N.ltb_lt in H. destruct H as (((((? & ?) & ?) & Hw) & Ha) & Hv).
  split; [done|done|done| | |].
  - intros i node Hn%list_elem_of_lookup_2%list_elem_of_In. apply Hw, andb_true_iff in Hn as [? ?]. breflect. by split.
  - intros i j node node' Hij Hi Hj. apply (all_apart_spec (nodes dfa) (N.to_nat i) (N.to_nat j)); [done|lia|done|done].
  - intros i node Hn%list_elem_of_lookup_2%list_elem_of_In. by apply view_ok_b_spec, Hv.
Qed.
