(* ===== verification/Partition.v ===== *)
(** * [WebCore/contentextensions/DFAMinimizer.cpp]: the class [Partition]

    A partition of the numbers below [n] that is refined in place: the elements
    of a set are a window of one vector, and the marked elements of the set come
    first in its window.  [None] is an index out of range. *)

From S2P Require Import Prelude.

(** ** Data *)

(** WebCore/contentextensions/DFAMinimizer.cpp:226-233 [Partition::SetDescriptor] *)
Record SetDescriptor := mkSet {
  sd_start : N;
  sd_size : N;
  sd_markedCount : N
}.

(** WebCore/contentextensions/DFAMinimizer.cpp:231-231 [SetDescriptor::indexAfterMarkedElements] *)
Definition indexAfterMarkedElements (d : SetDescriptor) : N := wrap32 (sd_start d + sd_markedCount d).

(** WebCore/contentextensions/DFAMinimizer.cpp:232-232 [SetDescriptor::end] *)
Definition set_end (d : SetDescriptor) : N := wrap32 (sd_start d + sd_size d).

(** WebCore/contentextensions/DFAMinimizer.cpp:235-249 [Partition] *)
Record Partition := mkPartition {
  m_sets : list SetDescriptor;
  m_partitionedElements : list N;
  m_elementPositionInPartitionedNodes : list N;
  m_elementToSetMap : list N;
  m_setsMarkedInCurrentGeneration : list N
}.

Definition emptyPartition : Partition := mkPartition [] [] [] [] [].

(** ** Operations *)

(** WebCore/contentextensions/DFAMinimizer.cpp:117-133 [Partition::initialize] *)
Definition initialize (p : Partition) (size : N) : Partition :=
  if size =? 0 then p
  else mkPartition (m_sets p ++ [mkSet 0 size 0]) (for_range 0 size) (for_range 0 size)
    (replicate (N.to_nat size) 0) (m_setsMarkedInCurrentGeneration p).

(** WebCore/contentextensions/DFAMinimizer.cpp:135-163 [Partition::markElementInCurrentGeneration] *)
Definition markElementInCurrentGeneration (p : Partition) (elementIndex : N) : option Partition :=
  setIndex ← m_elementToSetMap p !!N elementIndex;
  setDescriptor ← m_sets p !!N setIndex;
  elementPosition ← m_elementPositionInPartitionedNodes p !!N elementIndex;
  let firstUnmarkedPosition := indexAfterMarkedElements setDescriptor in
  firstUnmarkedElement ← m_partitionedElements p !!N firstUnmarkedPosition;
  elements1 ← vec_set (m_partitionedElements p) firstUnmarkedPosition elementIndex;
  elements2 ← vec_set elements1 elementPosition firstUnmarkedElement;
  positions1 ← vec_set (m_elementPositionInPartitionedNodes p) elementIndex firstUnmarkedPosition;
  positions2 ← vec_set positions1 firstUnmarkedElement elementPosition;
  let marked := if sd_markedCount setDescriptor =? 0
    then m_setsMarkedInCurrentGeneration p ++ [setIndex] else m_setsMarkedInCurrentGeneration p in
  sets ← vec_set (m_sets p) setIndex
    (mkSet (sd_start setDescriptor) (sd_size setDescriptor) (wrap32 (sd_markedCount setDescriptor + 1)));
  Some (mkPartition sets elements2 positions2 (m_elementToSetMap p) marked).

(** The body of the loop over the marked sets, up to the call of the function:
    the index of the new set, if there is one.  The product by 2 is an [unsigned]. *)
(** WebCore/contentextensions/DFAMinimizer.cpp:170-192 [Partition::refineGeneration] *)
Definition refine_set (p : Partition) (setIndex : N) : option (Partition * option N) :=
  d ← m_sets p !!N setIndex;
  if sd_markedCount d =? sd_size d then
    sets ← vec_set (m_sets p) setIndex (mkSet (sd_start d) (sd_size d) 0);
    Some (mkPartition sets (m_partitionedElements p) (m_elementPositionInPartitionedNodes p)
            (m_elementToSetMap p) (m_setsMarkedInCurrentGeneration p), None)
  else
    let newSetIsMarkedSet := wrap32 (sd_markedCount d * 2) <=? sd_size d in
    let '(newSet, start) :=
      if newSetIsMarkedSet
      then (mkSet (sd_start d) (sd_markedCount d) 0, wrap32 (sd_start d + sd_markedCount d))
      else (mkSet (wrap32 (sd_start d + sd_markedCount d)) (sd_size d - sd_markedCount d) 0, sd_start d) in
    sets ← vec_set (m_sets p) setIndex (mkSet start (sd_size d - sd_size newSet) 0);
    let newSetIndex := N.of_nat (length sets) in
    elementToSetMap ← foldM (fun elementToSetMap i =>
        element ← m_partitionedElements p !!N i;
        vec_set elementToSetMap element newSetIndex)
      (m_elementToSetMap p) (for_range (sd_start newSet) (set_end newSet));
    Some (mkPartition (sets ++ [newSet]) (m_partitionedElements p)
            (m_elementPositionInPartitionedNodes p) elementToSetMap
            (m_setsMarkedInCurrentGeneration p), Some newSetIndex).

Definition clear_marked (p : Partition) : Partition :=
  mkPartition (m_sets p) (m_partitionedElements p) (m_elementPositionInPartitionedNodes p)
    (m_elementToSetMap p) [].

(** The function is called with the partition as it is after the split, and
    changes a state [S] of its own. *)
(** WebCore/contentextensions/DFAMinimizer.cpp:166-197 [Partition::refineGeneration] *)
Definition refineGeneration {S} (function : Partition -> N -> S -> option S)
    (p : Partition) (s : S) : option (Partition * S) :=
  ps ← foldM (fun (ps : Partition * S) setIndex =>
      r ← refine_set ps.1 setIndex;
      match r.2 with
      | None => Some (r.1, ps.2)
      | Some newSetIndex => s' ← function r.1 newSetIndex ps.2; Some (r.1, s')
      end)
    (p, s) (m_setsMarkedInCurrentGeneration p);
  Some (clear_marked ps.1, ps.2).

(** The elements [iterateSet] calls its function on, in order. *)
(** WebCore/contentextensions/DFAMinimizer.cpp:199-206 [Partition::iterateSet] *)
Definition iterateSet {S} (function : S -> N -> option S) (p : Partition) (setIndex : N) (s : S) : option S :=
  d ← m_sets p !!N setIndex;
  foldM (fun s i => element ← m_partitionedElements p !!N i; function s element)
    s (for_range (sd_start d) (set_end d)).

(** WebCore/contentextensions/DFAMinimizer.cpp:208-212 [Partition::setIndex] *)
Definition setIndex (p : Partition) (elementIndex : N) : option N := m_elementToSetMap p !!N elementIndex.

(** WebCore/contentextensions/DFAMinimizer.cpp:214-218 [Partition::firstElementInSet] *)
Definition firstElementInSet (p : Partition) (setIndex : N) : option N :=
  d ← m_sets p !!N setIndex;
  m_partitionedElements p !!N sd_start d.

(** WebCore/contentextensions/DFAMinimizer.cpp:220-223 [Partition::size] *)
Definition partition_size (p : Partition) : N := N.of_nat (length (m_sets p)).

(** ** Well-formedness *)

(** [todo] are the sets that have marked elements, each of them once. *)
Record partition_wf (n : N) (todo : list N) (p : Partition) : Prop := {
  wf_bound : n < 2 ^ 32;
  wf_elements : length (m_partitionedElements p) = N.to_nat n;
  wf_positions : length (m_elementPositionInPartitionedNodes p) = N.to_nat n;
  wf_map : length (m_elementToSetMap p) = N.to_nat n;
  wf_inverse : forall e k, m_elementPositionInPartitionedNodes p !!N e = Some k <->
    m_partitionedElements p !!N k = Some e;
  wf_set : forall i d, m_sets p !!N i = Some d ->
    0 < sd_size d /\ sd_start d + sd_size d <= n /\ sd_markedCount d <= sd_size d /\
    (i ∈ todo <-> 0 < sd_markedCount d);
  wf_member : forall e k i d, m_partitionedElements p !!N k = Some e -> m_sets p !!N i = Some d ->
    (m_elementToSetMap p !!N e = Some i <-> sd_start d <= k < sd_start d + sd_size d);
  wf_class : forall e i, m_elementToSetMap p !!N e = Some i -> i < partition_size p;
  wf_todo : NoDup todo;
  wf_todo_lt : forall i, i ∈ todo -> i < partition_size p
}.

Definition partition_ok (n : N) (p : Partition) : Prop :=
  partition_wf n (m_setsMarkedInCurrentGeneration p) p.

Definition marked (p : Partition) (e : N) : Prop :=
  exists i d k, m_elementToSetMap p !!N e = Some i /\ m_sets p !!N i = Some d /\
    m_elementPositionInPartitionedNodes p !!N e = Some k /\ k < sd_start d + sd_markedCount d.

(** What a set is: its elements. *)
Definition in_set (p : Partition) (i e : N) : Prop := m_elementToSetMap p !!N e = Some i.

Section WellFormed.
Context (n : N) (todo : list N) (p : Partition) (Hwf : partition_wf n todo p).

Lemma wf_n : n < 4294967296.
Proof. pose proof (wf_bound _ _ _ Hwf). lia. Qed.

Lemma element_position e : e < n -> exists k, k < n /\
  m_elementPositionInPartitionedNodes p !!N e = Some k /\ m_partitionedElements p !!N k = Some e.
Proof.
  intros He. destruct (lookupN_is_Some (m_elementPositionInPartitionedNodes p) e) as [k Hk].
  { rewrite (wf_positions _ _ _ Hwf). lia. }
  exists k. pose proof Hk as Hk'. rewrite (wf_inverse _ _ _ Hwf) in Hk'. split_and!; [|done..].
  apply lookupN_lt in Hk'. rewrite (wf_elements _ _ _ Hwf) in Hk'. lia.
Qed.

Lemma position_element k : k < n -> exists e, e < n /\
  m_partitionedElements p !!N k = Some e /\ m_elementPositionInPartitionedNodes p !!N e = Some k.
Proof.
  intros He. destruct (lookupN_is_Some (m_partitionedElements p) k) as [e Hk].
  { rewrite (wf_elements _ _ _ Hwf). lia. }
  exists e. pose proof Hk as Hk'. rewrite <- (wf_inverse _ _ _ Hwf) in Hk'. split_and!; [|done..].
  apply lookupN_lt in Hk'. rewrite (wf_positions _ _ _ Hwf) in Hk'. lia.
Qed.

Lemma element_class e : e < n -> exists i d k, in_set p i e /\ m_sets p !!N i = Some d /\
  m_elementPositionInPartitionedNodes p !!N e = Some k /\ m_partitionedElements p !!N k = Some e /\
  sd_start d <= k < sd_start d + sd_size d.
Proof.
  intros He. destruct (element_position e He) as (k & Hk & Hpos & Hel).
  destruct (lookupN_is_Some (m_elementToSetMap p) e) as [i Hi].
  { rewrite (wf_map _ _ _ Hwf). lia. }
  destruct (lookupN_is_Some (m_sets p) i) as [d Hd].
  { by apply (wf_class _ _ _ Hwf) in Hi. }
  exists i, d, k. split_and!; try done; by apply (wf_member _ _ _ Hwf e k i d).
Qed.

Lemma in_set_lt i e : in_set p i e -> e < n.
Proof. intros H%lookupN_lt. rewrite (wf_map _ _ _ Hwf) in H. lia. Qed.

Lemma elements_inj k k' e :
  m_partitionedElements p !!N k = Some e -> m_partitionedElements p !!N k' = Some e -> k = k'.
Proof. intros H H'. rewrite <- (wf_inverse _ _ _ Hwf) in H, H'. by simplify_eq. Qed.

(** No set is empty. *)
Lemma set_inhabited i : i < partition_size p -> exists e, in_set p i e.
Proof.
  intros [d Hd]%lookupN_is_Some. destruct (wf_set _ _ _ Hwf i d Hd) as (? & ? & _).
  destruct (position_element (sd_start d)) as (e & He & Hel & _); [lia|].
  exists e. unfold in_set. rewrite (wf_member _ _ _ Hwf e _ i d Hel Hd). lia.
Qed.

(** There are at most as many sets as elements. *)
Lemma partition_size_le : partition_size p <= n.
Proof.
  unfold partition_size.
  assert (NoDup (sd_start <$> m_sets p)) as Hnd.
  { apply NoDup_alt. intros i j s. rewrite !list_lookup_fmap, !fmap_Some.
    intros (d & Hi & ->) (d' & Hj & Heq).
    rewrite <- (Nat2N.id i) in Hi. rewrite <- (Nat2N.id j) in Hj.
    destruct (wf_set _ _ _ Hwf _ _ Hi) as (? & ? & _), (wf_set _ _ _ Hwf _ _ Hj) as (? & ? & _).
    destruct (position_element (sd_start d)) as (e & He & Hel & _); [lia|].
    assert (in_set p (N.of_nat i) e) as Hin1 by (unfold in_set; rewrite (wf_member _ _ _ Hwf e _ _ d Hel Hi); lia).
    assert (in_set p (N.of_nat j) e) as Hin2 by (unfold in_set; rewrite (wf_member _ _ _ Hwf e _ _ d' Hel Hj); lia).
    unfold in_set in Hin1, Hin2. simplify_eq. lia. }
  assert (length (sd_start <$> m_sets p) <= length (for_range 0 n))%nat as Hle.
  { apply submseteq_length, NoDup_submseteq; [done|]. intros s (d & -> & Hd)%list_elem_of_fmap.
    apply list_elem_of_lookup_1 in Hd as [i Hi]. rewrite <- (Nat2N.id i) in Hi.
    destruct (wf_set _ _ _ Hwf _ _ Hi) as (? & ? & _). apply elem_of_for_range. lia. }
  rewrite length_fmap, length_for_range in Hle. lia.
Qed.

(** [firstElementInSet] answers an element of the set. *)
Lemma firstElementInSet_spec i e : in_set p i e ->
  exists r, firstElementInSet p i = Some r /\ in_set p i r.
Proof.
  intros Hi. destruct (lookupN_is_Some (m_sets p) i) as [d Hd]; [by apply (wf_class _ _ _ Hwf) in Hi|].
  unfold firstElementInSet. rewrite Hd. run_option.
  destruct (wf_set _ _ _ Hwf i d Hd) as (? & ? & _).
  destruct (position_element (sd_start d)) as (r & ? & Hr & _); [lia|]. exists r. split; [done|].
  unfold in_set. rewrite (wf_member _ _ _ Hwf r _ i d Hr Hd). lia.
Qed.

(** Without a set to refine nothing is marked. *)
Lemma unmarked_set i e : in_set p i e -> i ∉ todo -> ~ marked p e.
Proof.
  intros Hi Htodo (i' & d & k & Hi' & Hd & Hk & Hlt). unfold in_set in Hi. simplify_eq.
  destruct (wf_set _ _ _ Hwf _ _ Hd) as (? & ? & ? & Hm).
  rewrite (wf_inverse _ _ _ Hwf) in Hk. rewrite (wf_member _ _ _ Hwf e k _ d Hk Hd) in Hi.
  assert (0 < sd_markedCount d) by lia. tauto.
Qed.

Lemma marked_lt e : marked p e -> e < n.
Proof. intros (i & d & k & Hi & _). by apply (in_set_lt i). Qed.
End WellFormed.

Lemma unmarked n p e : partition_wf n [] p -> ~ marked p e.
Proof.
  intros Hwf Hm. pose proof Hm as (i & _ & _ & Hi & _).
  eapply unmarked_set in Hm; [done..|apply not_elem_of_nil].
Qed.

(** ** Marking *)

(** Exchanging the elements of two positions keeps the two vectors inverse. *)
Lemma swap_inverse (elements positions elements' positions' : list N) k f e u :
  (forall x j, positions !!N x = Some j <-> elements !!N j = Some x) ->
  elements !!N k = Some e -> elements !!N f = Some u ->
  (forall j, elements' !!N j = if decide (k = j) then Some u else if decide (f = j) then Some e else elements !!N j) ->
  (forall x, positions' !!N x = if decide (u = x) then Some k else if decide (e = x) then Some f else positions !!N x) ->
  forall x j, positions' !!N x = Some j <-> elements' !!N j = Some x.
Proof.
  intros Hinv He Hu Hel Hpos x j. rewrite Hel, Hpos.
  pose proof (Hinv x j) as Hxj. pose proof (proj2 (Hinv e k) He) as Hek. pose proof (proj2 (Hinv u f) Hu) as Huf.
  repeat case_decide; subst; try naive_solver.
Qed.

(** What marking changes: two positions of the set of the element, and its count. *)
Record marks (p p' : Partition) (e i : N) (d : SetDescriptor) (k f u : N) : Prop := {
  mk_elements : forall j, m_partitionedElements p' !!N j =
    if decide (k = j) then Some u else if decide (f = j) then Some e else m_partitionedElements p !!N j;
  mk_positions : forall x, m_elementPositionInPartitionedNodes p' !!N x =
    if decide (u = x) then Some k else if decide (e = x) then Some f
    else m_elementPositionInPartitionedNodes p !!N x;
  mk_len_elements : length (m_partitionedElements p') = length (m_partitionedElements p);
  mk_len_positions : length (m_elementPositionInPartitionedNodes p') = length (m_elementPositionInPartitionedNodes p);
  mk_map : m_elementToSetMap p' = m_elementToSetMap p;
  mk_len_sets : length (m_sets p') = length (m_sets p);
  mk_sets : forall j, m_sets p' !!N j =
    if decide (i = j) then Some (mkSet (sd_start d) (sd_size d) (sd_markedCount d + 1)) else m_sets p !!N j;
  mk_marked : m_setsMarkedInCurrentGeneration p' =
    if sd_markedCount d =? 0 then m_setsMarkedInCurrentGeneration p ++ [i] else m_setsMarkedInCurrentGeneration p
}.

Section Mark.
Context (n : N) (p : Partition) (Hwf : partition_ok n p) (e : N) (He : e < n) (Hnot : ~ marked p e).

Lemma mark_changes : exists p' i d k f u,
  markElementInCurrentGeneration p e = Some p' /\ marks p p' e i d k f u /\
  m_elementToSetMap p !!N e = Some i /\ m_sets p !!N i = Some d /\
  m_partitionedElements p !!N k = Some e /\ m_partitionedElements p !!N f = Some u /\
  f = sd_start d + sd_markedCount d /\ f <= k < sd_start d + sd_size d.
Proof.
  destruct (element_class n _ p Hwf e He) as (i & d & k & Hi & Hd & Hk & Hel & Hrange).
  destruct (wf_set _ _ _ Hwf i d Hd) as (? & ? & ? & Htodo). pose proof (wf_n _ _ _ Hwf).
  assert (sd_start d + sd_markedCount d <= k) as Hge.
  { destruct (N.le_gt_cases (sd_start d + sd_markedCount d) k); [done|]. exfalso. apply Hnot.
    exists i, d, k. done. }
  destruct (position_element n _ p Hwf (sd_start d + sd_markedCount d)) as (u & Hu & Helu & _); [lia|].
  unfold markElementInCurrentGeneration. unfold in_set in Hi. rewrite Hi. run_option. rewrite Hd. run_option.
  rewrite Hk. run_option. unfold indexAfterMarkedElements. rewrite (wrap32_id (sd_start d + sd_markedCount d)) by lia. rewrite Helu. run_option.
  pose proof (wf_elements _ _ _ Hwf) as L1. pose proof (wf_positions _ _ _ Hwf) as L2.
  pose proof (lookupN_lt _ _ _ Hd) as L3.
  destruct (vec_set (m_partitionedElements p) _ e) as [l1|] eqn:E1;
    [|unfold vec_set in E1; case_match; breflect; [done|lia]].
  run_option. pose proof (vec_set_length _ _ _ _ E1) as L1'.
  destruct (vec_set l1 k u) as [l2|] eqn:E2; [|unfold vec_set in E2; case_match; breflect; [done|lia]].
  run_option. pose proof (vec_set_length _ _ _ _ E2) as L2'.
  destruct (vec_set (m_elementPositionInPartitionedNodes p) e _) as [l3|] eqn:E3;
    [|unfold vec_set in E3; case_match; breflect; [done|lia]].
  run_option. pose proof (vec_set_length _ _ _ _ E3) as L3'.
  destruct (vec_set l3 u k) as [l4|] eqn:E4; [|unfold vec_set in E4; case_match; breflect; [done|lia]].
  run_option. pose proof (vec_set_length _ _ _ _ E4) as L4'.
  rewrite (wrap32_id (sd_markedCount d + 1)) by lia.
  destruct (vec_set (m_sets p) i _) as [l5|] eqn:E5; [|unfold vec_set in E5; case_match; breflect; [done|lia]].
  run_option. pose proof (vec_set_length _ _ _ _ E5) as L5'.
  eexists _, i, d, k, (sd_start d + sd_markedCount d), u. split; [done|]. split; [|split_and!; (done || lia)]. split; cbn; try congruence.
  - intros j. by rewrite (vec_set_lookup _ _ _ _ j E2), (vec_set_lookup _ _ _ _ j E1).
  - intros x. by rewrite (vec_set_lookup _ _ _ _ x E4), (vec_set_lookup _ _ _ _ x E3).
  - intros j. by rewrite (vec_set_lookup _ _ _ _ j E5).
Qed.
End Mark.

Section Marks.
Context (n : N) (p p' : Partition) (Hwf : partition_ok n p) (e i : N) (d : SetDescriptor) (k f u : N).
Context (Hm : marks p p' e i d k f u).
Context (Hi : m_elementToSetMap p !!N e = Some i) (Hd : m_sets p !!N i = Some d).
Context (Hk : m_partitionedElements p !!N k = Some e) (Hf : m_partitionedElements p !!N f = Some u).
Context (Hfeq : f = sd_start d + sd_markedCount d) (Hrange : f <= k < sd_start d + sd_size d).

Lemma marks_inverse x j : m_elementPositionInPartitionedNodes p' !!N x = Some j <->
  m_partitionedElements p' !!N j = Some x.
Proof.
  apply (swap_inverse (m_partitionedElements p) (m_elementPositionInPartitionedNodes p) _ _ k f e u); try done.
  - apply (wf_inverse _ _ _ Hwf).
  - apply (mk_elements _ _ _ _ _ _ _ _ Hm).
  - apply (mk_positions _ _ _ _ _ _ _ _ Hm).
Qed.

Lemma marks_todo j : j ∈ m_setsMarkedInCurrentGeneration p' <->
  j = i \/ j ∈ m_setsMarkedInCurrentGeneration p.
Proof.
  rewrite (mk_marked _ _ _ _ _ _ _ _ Hm). destruct (wf_set _ _ _ Hwf i d Hd) as (_ & _ & _ & Htodo).
  destruct (sd_markedCount d =? 0) eqn:E; breflect.
  - rewrite elem_of_app, list_elem_of_singleton. tauto.
  - split; [tauto|]. intros [->|]; [|done]. apply Htodo. lia.
Qed.

Lemma marks_member x j a b : m_partitionedElements p' !!N j = Some x -> m_sets p !!N a = Some b ->
  (m_elementToSetMap p !!N x = Some a <-> sd_start b <= j < sd_start b + sd_size b).
Proof.
  rewrite (mk_elements _ _ _ _ _ _ _ _ Hm). intros Hx Hb.
  pose proof (wf_set _ _ _ Hwf i d Hd). pose proof (wf_member _ _ _ Hwf) as Hmem.
  pose proof (Hmem _ _ _ _ Hk Hd). pose proof (Hmem _ _ _ _ Hf Hd) as Hu.
  assert (m_elementToSetMap p !!N u = Some i) as Hui by (apply Hu; lia).
  pose proof (Hmem _ _ _ _ Hk Hb) as Hkb. pose proof (Hmem _ _ _ _ Hf Hb) as Hfb.
  case_decide; [|case_decide]; simplify_eq.
  - rewrite <- Hkb, Hui, Hi. done.
  - rewrite <- Hfb, Hui, Hi. done.
  - by apply Hmem.
Qed.

Lemma marks_wf : partition_ok n p'.
Proof.
  pose proof (wf_set _ _ _ Hwf i d Hd) as (Hpos & Hle & Hcount & Htodo).
  pose proof marks_member as Hmember. pose proof marks_todo as Hmtodo. split.
  - apply (wf_bound _ _ _ Hwf).
  - rewrite (mk_len_elements _ _ _ _ _ _ _ _ Hm). apply (wf_elements _ _ _ Hwf).
  - rewrite (mk_len_positions _ _ _ _ _ _ _ _ Hm). apply (wf_positions _ _ _ Hwf).
  - rewrite (mk_map _ _ _ _ _ _ _ _ Hm). apply (wf_map _ _ _ Hwf).
  - apply marks_inverse.
  - intros j b. rewrite (mk_sets _ _ _ _ _ _ _ _ Hm), Hmtodo. case_decide; simplify_eq; cbn; intros Hb; simplify_eq/=.
    + lia.
    + destruct (wf_set _ _ _ Hwf j b Hb) as (? & ? & ? & Hj). rewrite <- Hj. split_and!; try done.
      split; [intros [->|]; done|tauto].
  - intros x j a b Hx. rewrite (mk_sets _ _ _ _ _ _ _ _ Hm), (mk_map _ _ _ _ _ _ _ _ Hm).
    case_decide; simplify_eq; cbn; intros Hb; simplify_eq/=; [by apply (Hmember x j a d)|by apply Hmember].
  - unfold partition_size. rewrite (mk_len_sets _ _ _ _ _ _ _ _ Hm), (mk_map _ _ _ _ _ _ _ _ Hm).
    apply (wf_class _ _ _ Hwf).
  - rewrite (mk_marked _ _ _ _ _ _ _ _ Hm). pose proof (wf_todo _ _ _ Hwf).
    destruct (sd_markedCount d =? 0) eqn:E; breflect; [|done]. apply NoDup_app. split; [done|].
    split; [|apply NoDup_singleton]. intros x Hx. rewrite list_elem_of_singleton. intros ->.
    apply Htodo in Hx. lia.
  - intros j. unfold partition_size. rewrite (mk_len_sets _ _ _ _ _ _ _ _ Hm), Hmtodo. intros [->|Hj].
    + by apply lookupN_lt in Hd.
    + by apply (wf_todo_lt _ _ _ Hwf).
Qed.

Lemma marks_marked x : marked p' x <-> marked p x \/ x = e.
Proof.
  unfold marked. rewrite (mk_map _ _ _ _ _ _ _ _ Hm). setoid_rewrite (mk_sets _ _ _ _ _ _ _ _ Hm).
  setoid_rewrite (mk_positions _ _ _ _ _ _ _ _ Hm).
  pose proof (wf_inverse _ _ _ Hwf) as Hinv. pose proof (proj2 (Hinv _ _) Hk) as Hk'.
  pose proof (proj2 (Hinv _ _) Hf) as Hf'.
  assert (m_elementToSetMap p !!N u = Some i) as Hui.
  { rewrite (wf_member _ _ _ Hwf u f i d); try done. lia. }
  split.
  - intros (a & b & j & Ha & Hb & Hj & Hlt). destruct (decide (x = e)) as [->|Hxe]; [by right|]. left.
    rewrite (decide_False (P := e = x)) in Hj by done. exists a.
    assert (u = x -> a <> i) as Hux.
    { intros -> ->. rewrite decide_True in Hb by done. rewrite decide_True in Hj by done. simplify_eq/=.
      assert (j = sd_start d + sd_markedCount d) as -> by lia. congruence. }
    destruct (decide (u = x)) as [->|]; [rewrite Hui in Ha; simplify_eq; by destruct Hux|].
    destruct (decide (i = a)) as [->|]; [|by exists b, j]. exists d, j. simplify_eq/=. split_and!; try done.
    apply Hinv in Hj. destruct (decide (j = sd_start d + sd_markedCount d)) as [->|]; [congruence|lia].
  - intros [(a & b & j & Ha & Hb & Hj & Hlt)| ->].
    + exists a. assert (x = u -> a <> i) as Hux by (intros -> ->; simplify_eq; lia).
      assert (x = e -> a <> i) as Hxe by (intros -> ->; simplify_eq; lia).
      rewrite (decide_False (P := u = x)) by (intros ->; simplify_eq; by apply Hux).
      rewrite (decide_False (P := e = x)) by (intros ->; simplify_eq; by apply Hxe).
      destruct (decide (i = a)) as [->|]; [|by exists b, j]. simplify_eq.
      eexists _, j. split_and!; [done..|]. cbn. lia.
    + exists i. eexists _, (sd_start d + sd_markedCount d). rewrite (decide_True (P := i = i)) by done.
      rewrite (decide_True (P := e = e)) by done. split_and!; [done..| |cbn; lia].
      destruct (decide (u = e)) as [E|]; [|congruence]. rewrite E in Hf'. congruence.
Qed.
End Marks.

(** Marking an element that is not marked yet. *)
Lemma mark_element n p e : partition_ok n p -> e < n -> ~ marked p e ->
  exists p', markElementInCurrentGeneration p e = Some p' /\ partition_ok n p' /\
    m_elementToSetMap p' = m_elementToSetMap p /\ partition_size p' = partition_size p /\
    forall x, marked p' x <-> marked p x \/ x = e.
Proof.
  intros Hwf He Hnot.
  destruct (mark_changes n p Hwf e He Hnot) as (p' & i & d & k & f & u & -> & Hm & Hi & Hd & Hk & Hf & Hfeq & Hrange).
  exists p'. split_and!; [done| | | |].
  - by eapply marks_wf.
  - apply (mk_map _ _ _ _ _ _ _ _ Hm).
  - unfold partition_size. by rewrite (mk_len_sets _ _ _ _ _ _ _ _ Hm).
  - intros x. by eapply marks_marked.
Qed.

(** Marking a list of elements. *)
Lemma mark_elements n l p : partition_ok n p -> NoDup l -> (forall e, e ∈ l -> e < n /\ ~ marked p e) ->
  exists p', foldM markElementInCurrentGeneration p l = Some p' /\ partition_ok n p' /\
    m_elementToSetMap p' = m_elementToSetMap p /\ partition_size p' = partition_size p /\
    forall x, marked p' x <-> marked p x \/ x ∈ l.
Proof.
  revert p. induction l as [|e l IH]; intros p Hok Hnd Hl; cbn [foldM].
  - exists p. split_and!; try done. intros x. rewrite elem_of_nil. tauto.
  - apply NoDup_cons in Hnd as [Hnot Hnd].
    destruct (mark_element n p e) as (p1 & -> & Hok1 & Hmap & Hsize & Hmk); [done|by apply Hl; left..|].
    run_option. destruct (IH p1 Hok1 Hnd) as (p' & -> & Hok' & Hmap' & Hsize' & Hmk').
    { intros x Hx. rewrite Hmk. split; [by apply Hl; right|]. intros [?| ->]; [|done].
      by apply (Hl x); [by right|]. }
    exists p'. split_and!; try done; [congruence..|]. intros x. rewrite Hmk', Hmk, elem_of_cons. tauto.
Qed.

(** ** Splitting a set *)

(** The elements of a window get the index of the new set. *)
Lemma relabel_window n todo p new a b (map : list N) : partition_wf n todo p -> a <= b -> b <= n ->
  length map = N.to_nat n ->
  exists map', foldM (fun elementToSetMap i =>
      element ← m_partitionedElements p !!N i; vec_set elementToSetMap element new)
      map (for_range a b) = Some map' /\ length map' = N.to_nat n /\
    forall e k, m_partitionedElements p !!N k = Some e ->
      map' !!N e = if decide (a <= k < b) then Some new else map !!N e.
Proof.
  intros Hwf Hab Hbn Hlen. replace b with (a + N.of_nat (N.to_nat (b - a))) in * by lia.
  revert Hbn. clear Hab. induction (N.to_nat (b - a)) as [|l IH]; intros Hbn.
  - exists map. rewrite for_range_nil by lia. split_and!; [done..|]. intros e k _. by rewrite decide_False by lia.
  - destruct IH as (m & Hm & Hml & Hspec); [lia|]. rewrite Nat2N.inj_succ, <- N.add_1_r, N.add_assoc in *.
    set (c := a + N.of_nat l) in *. rewrite for_range_snoc by lia. rewrite foldM_app, Hm. run_option. cbn [foldM].
    destruct (position_element n todo p Hwf c) as (x & Hx & Helx & _); [lia|]. rewrite Helx. run_option.
    destruct (vec_set m x new) as [m'|] eqn:E; [|unfold vec_set in E; case_match; breflect; [done|lia]].
    run_option. exists m'. split_and!; [done|by rewrite (vec_set_length _ _ _ _ E)|].
    intros e k Hk. rewrite (vec_set_lookup _ _ _ _ e E). case_decide as Hxe.
    + subst. rewrite (elements_inj n todo p Hwf k c e) by done. by rewrite decide_True by lia.
    + rewrite (Hspec e k Hk). assert (k <> c) by (intros ->; congruence).
      destruct (decide (a <= k < c)), (decide (a <= k < c + 1)); (done || lia).
Qed.

(** The window of the set [i] is cut into that of the new set and the rest. *)
Record cut (d newSet rest : SetDescriptor) : Prop := {
  cut_new : 0 < sd_size newSet;
  cut_rest : 0 < sd_size rest;
  cut_unmarked : sd_markedCount newSet = 0 /\ sd_markedCount rest = 0;
  cut_window : forall k, sd_start d <= k < sd_start d + sd_size d <->
    sd_start newSet <= k < sd_start newSet + sd_size newSet \/ sd_start rest <= k < sd_start rest + sd_size rest;
  cut_disjoint : forall k, sd_start newSet <= k < sd_start newSet + sd_size newSet ->
    ~ sd_start rest <= k < sd_start rest + sd_size rest
}.

Section Cut.
Context (n i : N) (todo : list N) (p p' : Partition) (d newSet rest : SetDescriptor).
Context (Hwf : partition_wf n (i :: todo) p) (Hd : m_sets p !!N i = Some d) (Hcut : cut d newSet rest).
Context (Hel : m_partitionedElements p' = m_partitionedElements p).
Context (Hpos : m_elementPositionInPartitionedNodes p' = m_elementPositionInPartitionedNodes p).
Context (Hsets : m_sets p' = <[i :=N rest]> (m_sets p) ++ [newSet]).
Context (Hlen : length (m_elementToSetMap p') = N.to_nat n).
Context (Hmap : forall e k, m_partitionedElements p !!N k = Some e ->
  m_elementToSetMap p' !!N e = if decide (sd_start newSet <= k < sd_start newSet + sd_size newSet)
    then Some (partition_size p) else m_elementToSetMap p !!N e).

Lemma cut_size : partition_size p' = partition_size p + 1.
Proof. unfold partition_size. rewrite Hsets, length_app, length_insert. simpl. lia. Qed.

Lemma cut_lookup j b : m_sets p' !!N j = Some b <->
  (j = partition_size p /\ b = newSet) \/ (j = i /\ b = rest) \/ (j <> i /\ m_sets p !!N j = Some b).
Proof.
  pose proof (lookupN_lt _ _ _ Hd) as Hi. unfold partition_size in *. rewrite Hsets.
  destruct (decide (j < N.of_nat (length (m_sets p)))) as [Hj|Hj].
  - rewrite lookup_app_l by (rewrite length_insert; lia). destruct (decide (j = i)) as [->|Hji].
    + rewrite list_lookup_insert_eq by lia. naive_solver lia.
    + rewrite list_lookup_insert_ne by lia. naive_solver lia.
  - rewrite lookup_app_r by (rewrite length_insert; lia). rewrite length_insert. split.
    + intros Hb. pose proof (lookup_lt_Some _ _ _ Hb) as Hlt. simpl in Hlt. left.
      replace (N.to_nat j - length (m_sets p))%nat with 0%nat in Hb by lia. simplify_eq/=. split; [lia|done].
    + intros [[-> ->]|[[-> _]|[_ Hb]]]; [|lia|by apply lookupN_lt in Hb]. by rewrite Nat2N.id, Nat.sub_diag.
Qed.

Lemma new_not_todo : partition_size p ∉ i :: todo.
Proof. intros H%(wf_todo_lt _ _ _ Hwf). lia. Qed.

Lemma cut_bounds : sd_start newSet + sd_size newSet <= n /\ sd_start rest + sd_size rest <= n.
Proof.
  clear Hel Hpos Hsets Hlen Hmap. destruct Hcut as [Hnew Hrest _ Hwin _]. destruct (wf_set _ _ _ Hwf i d Hd) as (_ & Hle & _).
  pose proof (proj2 (Hwin (sd_start newSet + sd_size newSet - 1))).
  pose proof (proj2 (Hwin (sd_start rest + sd_size rest - 1))). lia.
Qed.

Lemma cut_wf_set j b : m_sets p' !!N j = Some b ->
  0 < sd_size b /\ sd_start b + sd_size b <= n /\ sd_markedCount b <= sd_size b /\ (j ∈ todo <-> 0 < sd_markedCount b).
Proof.
  intros Hb. pose proof cut_bounds. pose proof new_not_todo as Hnew. destruct (cut_unmarked _ _ _ Hcut) as [Hm Hm'].
  pose proof (cut_new _ _ _ Hcut). pose proof (cut_rest _ _ _ Hcut).
  apply not_elem_of_cons in Hnew as [? Hnew]. pose proof (wf_todo _ _ _ Hwf) as [Hi _]%NoDup_cons.
  apply cut_lookup in Hb as [[-> ->]|[[-> ->]|[Hji Hb]]].
  - rewrite Hm. split_and!; [lia..|]. split; [done|lia].
  - rewrite Hm'. split_and!; [lia..|]. split; [done|lia].
  - destruct (wf_set _ _ _ Hwf j b Hb) as (? & ? & ? & Hj). rewrite elem_of_cons in Hj. tauto.
Qed.

Lemma cut_wf_member e k j b : m_partitionedElements p !!N k = Some e -> m_sets p' !!N j = Some b ->
  (m_elementToSetMap p' !!N e = Some j <-> sd_start b <= k < sd_start b + sd_size b).
Proof.
  intros Hk Hb. rewrite (Hmap e k Hk). pose proof (wf_member _ _ _ Hwf e k i d Hk Hd) as Hi.
  pose proof (cut_window _ _ _ Hcut k) as Hwin. pose proof (cut_disjoint _ _ _ Hcut k) as Hdis.
  pose proof (wf_class _ _ _ Hwf e) as Hclass. pose proof (lookupN_lt _ _ _ Hd) as Hlt. change (i < partition_size p) in Hlt.
  apply cut_lookup in Hb as [[-> ->]|[[-> ->]|[Hji Hb]]]; case_decide as Hw.
  - done.
  - split; [intros Hc%Hclass; lia|done].
  - split; [intros [= ?]; lia|tauto].
  - tauto.
  - pose proof (wf_member _ _ _ Hwf e k j b Hk Hb) as Hj. split; [|intros Hkb].
    + intros [= <-]. apply lookupN_lt in Hb. unfold partition_size in *. lia.
    + exfalso. apply Hji. apply Hj in Hkb. assert (m_elementToSetMap p !!N e = Some i) by tauto. congruence.
  - by apply (wf_member _ _ _ Hwf).
Qed.

Lemma cut_wf : partition_wf n todo p'.
Proof.
  pose proof cut_wf_member as Hmember. pose proof cut_size as Hsize. split.
  - apply (wf_bound _ _ _ Hwf).
  - rewrite Hel. apply (wf_elements _ _ _ Hwf).
  - rewrite Hpos. apply (wf_positions _ _ _ Hwf).
  - done.
  - rewrite Hel, Hpos. apply (wf_inverse _ _ _ Hwf).
  - apply cut_wf_set.
  - intros e k j b. rewrite Hel. apply Hmember.
  - intros e j Hj. rewrite Hsize. assert (e < n) as He by (apply lookupN_lt in Hj; lia).
    destruct (element_position n _ p Hwf e He) as (k & _ & _ & Hk). rewrite (Hmap e k Hk) in Hj.
    case_decide; simplify_eq; [lia|]. apply (wf_class _ _ _ Hwf) in Hj. lia.
  - by pose proof (wf_todo _ _ _ Hwf) as [_ ?]%NoDup_cons.
  - intros j Hj. rewrite Hsize. pose proof (wf_todo_lt _ _ _ Hwf j). rewrite elem_of_cons in *. intuition lia.
Qed.

Lemma cut_others e j : in_set p' j e -> j <> i -> j <> partition_size p -> (marked p' e <-> marked p e).
Proof.
  unfold in_set, marked. intros Hj Hji Hjn.
  assert (e < n) as He by (apply lookupN_lt in Hj; lia).
  destruct (element_position n _ p Hwf e He) as (k & _ & _ & Hk). pose proof (Hmap e k Hk) as Hme.
  case_decide; [congruence|]. rewrite <- Hme. setoid_rewrite cut_lookup. rewrite Hpos.
  split; intros (a & b & c & ? & Hb & ? & ?); exists a, b, c; (split_and!; [done| |done..]); simplify_eq.
  - destruct Hb as [[? ?]|[[? ?]|[? ?]]]; (done || congruence).
  - right. right. done.
Qed.
End Cut.

Lemma marked_iff n todo p i d k e : partition_wf n todo p -> in_set p i e -> m_sets p !!N i = Some d ->
  m_partitionedElements p !!N k = Some e -> (marked p e <-> k < sd_start d + sd_markedCount d).
Proof.
  intros Hwf Hi Hd Hk. apply (wf_inverse _ _ _ Hwf) in Hk. unfold in_set, marked in *. split.
  - intros (a & b & c & ? & ? & ? & ?). by simplify_eq.
  - intros. by exists i, d, k.
Qed.

Lemma marked_dec n todo p e : partition_wf n todo p -> marked p e \/ ~ marked p e.
Proof.
  intros Hwf. destruct (decide (e < n)) as [He|He].
  - destruct (element_class n todo p Hwf e He) as (i & d & k & Hi & Hd & _ & Hk & _).
    rewrite (marked_iff n todo p i d k e) by done. lia.
  - right. intros Hm%(marked_lt n todo p Hwf). lia.
Qed.

(** The set [i] has lost its marked elements, or the others, to the set [new]. *)
Record set_split (p p' : Partition) (i new : N) : Prop := {
  sp_new : new = partition_size p;
  sp_size : partition_size p' = new + 1;
  sp_class : forall e, in_set p' new e \/ m_elementToSetMap p' !!N e = m_elementToSetMap p !!N e;
  sp_old : forall e, in_set p' new e -> in_set p i e;
  sp_marked : (forall e, in_set p i e -> (in_set p' new e <-> marked p e)) \/
    (forall e, in_set p i e -> (in_set p' new e <-> ~ marked p e))
}.

Lemma cut_split n i todo p p' d newSet rest :
  partition_wf n (i :: todo) p -> m_sets p !!N i = Some d -> cut d newSet rest ->
  m_sets p' = <[i :=N rest]> (m_sets p) ++ [newSet] -> length (m_elementToSetMap p') = N.to_nat n ->
  (forall e k, m_partitionedElements p !!N k = Some e ->
    m_elementToSetMap p' !!N e = if decide (sd_start newSet <= k < sd_start newSet + sd_size newSet)
      then Some (partition_size p) else m_elementToSetMap p !!N e) ->
  (sd_start newSet = sd_start d /\ sd_size newSet = sd_markedCount d \/
   sd_start newSet = sd_start d + sd_markedCount d /\ sd_size newSet = sd_size d - sd_markedCount d) ->
  0 < sd_markedCount d -> set_split p p' i (partition_size p).
Proof.
  intros Hwf Hd Hcut Hsets Hlen Hmap Hwhich Hpos. destruct (wf_set _ _ _ Hwf i d Hd) as (? & ? & ? & _).
  assert (forall e, e < n -> exists k, m_partitionedElements p !!N k = Some e /\
    (in_set p i e <-> sd_start d <= k < sd_start d + sd_size d) /\
    (in_set p' (partition_size p) e <-> sd_start newSet <= k < sd_start newSet + sd_size newSet)) as Hel.
  { intros e He. destruct (element_position n _ p Hwf e He) as (k & _ & _ & Hk). exists k. split; [done|].
    split; [by apply (wf_member _ _ _ Hwf)|]. unfold in_set. rewrite (Hmap e k Hk).
    case_decide; [done|]. split; [|done]. intros Hc%(wf_class _ _ _ Hwf). lia. }
  assert (forall e, in_set p i e -> (in_set p' (partition_size p) e <->
    if decide (sd_start newSet = sd_start d) then marked p e else ~ marked p e)) as Hmk.
  { intros e Hi. destruct (Hel e) as (k & Hk & Hik & ->); [by apply (in_set_lt n _ p Hwf i)|].
    apply Hik in Hi as Hr. case_decide; rewrite (marked_iff n _ p i d k e) by done; lia. }
  split.
  - done.
  - eapply cut_size; done.
  - intros e. destruct (decide (e < n)) as [He|He].
    + destruct (element_position n _ p Hwf e He) as (k & _ & _ & Hk). unfold in_set. rewrite (Hmap e k Hk).
      destruct (decide (_ <= _ < _)); [by left|by right].
    + right. rewrite !lookup_ge_None_2; [done| |]; rewrite ?Hlen, ?(wf_map _ _ _ Hwf); lia.
  - intros e Hnew. destruct (Hel e) as (k & Hk & Hik & Hnk).
    + apply lookupN_lt in Hnew. lia.
    + apply Hik. apply (cut_window _ _ _ Hcut). left. by apply Hnk.
  - destruct (decide (sd_start newSet = sd_start d)); [by left|by right].
Qed.

(** When all the elements of the set are marked, only its count is reset. *)
Section Unmark.
Context (n i : N) (todo : list N) (p p' : Partition) (d : SetDescriptor).
Context (Hwf : partition_wf n (i :: todo) p) (Hd : m_sets p !!N i = Some d).
Context (Hp' : p' = mkPartition (<[i :=N mkSet (sd_start d) (sd_size d) 0]> (m_sets p)) (m_partitionedElements p)
  (m_elementPositionInPartitionedNodes p) (m_elementToSetMap p) (m_setsMarkedInCurrentGeneration p)).

Lemma unmark_lookup j b : m_sets p' !!N j = Some b <->
  (j = i /\ b = mkSet (sd_start d) (sd_size d) 0) \/ (j <> i /\ m_sets p !!N j = Some b).
Proof.
  pose proof (lookup_lt_Some _ _ _ Hd). subst p'. cbn. destruct (decide (j = i)) as [->|].
  - rewrite list_lookup_insert_eq by done. naive_solver.
  - rewrite list_lookup_insert_ne by lia. naive_solver.
Qed.

Lemma unmark_size : partition_size p' = partition_size p.
Proof. subst p'. unfold partition_size. cbn. by rewrite length_insert. Qed.

Lemma unmark_wf : partition_wf n todo p'.
Proof.
  pose proof unmark_lookup as Hlook. pose proof unmark_size as Hsize.
  pose proof (wf_todo _ _ _ Hwf) as [Hnot Hnd]%NoDup_cons. destruct (wf_set _ _ _ Hwf i d Hd) as (? & ? & ? & _).
  split; try (subst p'; by apply Hwf).
  - intros j b [[-> ->]|[Hji Hb]]%Hlook; cbn.
    + split_and!; [done|done|lia|]. split; [done|lia].
    + destruct (wf_set _ _ _ Hwf j b Hb) as (? & ? & ? & Hj). rewrite elem_of_cons in Hj. tauto.
  - intros e k j b Hk [[-> ->]|[Hji Hb]]%Hlook; subst p'; cbn in *; by apply (wf_member _ _ _ Hwf).
  - intros e j. rewrite Hsize. subst p'. apply (wf_class _ _ _ Hwf).
  - done.
  - intros j Hj. rewrite Hsize. apply (wf_todo_lt _ _ _ Hwf). by right.
Qed.

Lemma unmark_others e j : in_set p' j e -> j <> i -> (marked p' e <-> marked p e).
Proof.
  unfold in_set, marked. setoid_rewrite unmark_lookup. subst p'. cbn. intros Hj Hji.
  split; intros (a & b & c & ? & Hb & ? & ?); exists a, b, c; (split_and!; [done| |done..]); simplify_eq.
  - by destruct Hb as [[? ?]|[? ?]].
  - by right.
Qed.
End Unmark.

(** The statements that make the new set of a window. *)
Lemma split_statements n i todo p d newSet rest : partition_wf n (i :: todo) p -> m_sets p !!N i = Some d ->
  cut d newSet rest ->
  (sd_start newSet = sd_start d /\ sd_size newSet = sd_markedCount d \/
   sd_start newSet = sd_start d + sd_markedCount d /\ sd_size newSet = sd_size d - sd_markedCount d) ->
  exists p',
    (sets ← vec_set (m_sets p) i rest;
     let newSetIndex := N.of_nat (length sets) in
     elementToSetMap ← foldM (fun elementToSetMap i =>
         element ← m_partitionedElements p !!N i; vec_set elementToSetMap element newSetIndex)
       (m_elementToSetMap p) (for_range (sd_start newSet) (set_end newSet));
     Some (mkPartition (sets ++ [newSet]) (m_partitionedElements p)
             (m_elementPositionInPartitionedNodes p) elementToSetMap
             (m_setsMarkedInCurrentGeneration p), Some newSetIndex)) = Some (p', Some (partition_size p)) /\
    partition_wf n todo p' /\ m_setsMarkedInCurrentGeneration p' = m_setsMarkedInCurrentGeneration p /\
    (forall e j, in_set p' j e -> j <> i -> j <> partition_size p -> (marked p' e <-> marked p e)) /\
    set_split p p' i (partition_size p).
Proof.
  intros Hwf Hd Hcut Hwhich. pose proof (wf_n _ _ _ Hwf) as Hn.
  destruct (wf_set _ _ _ Hwf i d Hd) as (Hpos & Hle & Hcount & Htodo).
  assert (0 < sd_markedCount d) as Hmk by (apply Htodo; by left).
  destruct (cut_bounds n i todo p d newSet rest Hwf Hd Hcut) as [Hbound _].
  rewrite (proj2 (vec_set_Some (m_sets p) i rest _)) by (split; [by apply lookup_lt_Some in Hd|done]).
  run_option. rewrite length_insert. fold (partition_size p). unfold set_end. rewrite wrap32_id by lia.
  destruct (relabel_window n (i :: todo) p (partition_size p) (sd_start newSet) (sd_start newSet + sd_size newSet)
    (m_elementToSetMap p)) as (map' & -> & Hlen & Hmap); [done|lia|done|by apply (wf_map _ _ _ Hwf)|].
  run_option. eexists. split; [done|]. split_and!.
  - by eapply cut_wf.
  - done.
  - intros e j. by eapply cut_others.
  - by eapply cut_split.
Qed.

(** One turn of the loop of [refineGeneration]. *)
Lemma refine_set_spec n i todo p : partition_wf n (i :: todo) p ->
  exists p' r, refine_set p i = Some (p', r) /\ partition_wf n todo p' /\
    m_setsMarkedInCurrentGeneration p' = m_setsMarkedInCurrentGeneration p /\
    (forall e j, in_set p' j e -> j <> i -> j <> partition_size p -> (marked p' e <-> marked p e)) /\
    match r with
    | None => m_elementToSetMap p' = m_elementToSetMap p /\ partition_size p' = partition_size p /\
        forall e, in_set p i e -> marked p e
    | Some new => set_split p p' i new
    end.
Proof.
  intros Hwf. destruct (lookupN_is_Some (m_sets p) i) as [d Hd]; [apply (wf_todo_lt _ _ _ Hwf); by left|].
  destruct (wf_set _ _ _ Hwf i d Hd) as (Hpos & Hle & Hcount & Htodo). pose proof (wf_n _ _ _ Hwf) as Hn.
  assert (0 < sd_markedCount d) as Hmk by (apply Htodo; by left).
  assert (forall x, vec_set (m_sets p) i x = Some (<[i :=N x]> (m_sets p))) as Hset.
  { intros x. apply vec_set_Some. split; [by apply lookup_lt_Some in Hd|done]. }
  unfold refine_set. rewrite Hd. run_option. destruct (_ =? _) eqn:E; breflect.
  - rewrite Hset. run_option. eexists _, None. split; [done|].
    split; [by eapply unmark_wf|]. split; [done|]. split.
    { intros e j Hj Hji _. by eapply unmark_others. }
    split; [done|]. split; [by eapply unmark_size|]. intros e Hi.
    destruct (element_position n _ p Hwf e) as (k & _ & _ & Hk); [by apply (in_set_lt n _ p Hwf i)|].
    rewrite (marked_iff n _ p i d k e) by done. unfold in_set in Hi.
    rewrite (wf_member _ _ _ Hwf e k i d) in Hi by done. lia.
  - assert (0 < sd_markedCount d < sd_size d) as Hlt by lia.
    rewrite !(wrap32_id (sd_start d + sd_markedCount d)) by lia.
    destruct (_ <=? _); cbn [sd_size].
    + destruct (split_statements n i todo p d (mkSet (sd_start d) (sd_markedCount d) 0)
        (mkSet (sd_start d + sd_markedCount d) (sd_size d - sd_markedCount d) 0)) as (p' & Heq & Hrest);
        [done..|split; cbn; intros; lia|cbn; lia|].
      exists p', (Some (partition_size p)). by split.
    + replace (sd_size d - (sd_size d - sd_markedCount d)) with (sd_markedCount d) by lia.
      destruct (split_statements n i todo p d (mkSet (sd_start d + sd_markedCount d) (sd_size d - sd_markedCount d) 0)
        (mkSet (sd_start d) (sd_markedCount d) 0)) as (p' & Heq & Hrest);
        [done..|split; cbn; intros; lia|cbn; lia|].
      exists p', (Some (partition_size p)). by split.
Qed.

(** ** Refining *)

(** [x] and [y] are in the same set. *)
Definition same (p : Partition) (x y : N) : Prop := m_elementToSetMap p !!N x = m_elementToSetMap p !!N y.

(** [p'] separates the marked elements of [p] from the others, and the elements
    that move get new indices. *)
Record refined (n : N) (p p' : Partition) : Prop := {
  rf_same : forall x y, x < n -> y < n -> (same p' x y <-> same p x y /\ (marked p x <-> marked p y));
  rf_class : forall x, m_elementToSetMap p' !!N x = m_elementToSetMap p !!N x \/
    exists j, in_set p' j x /\ partition_size p <= j;
  rf_size : partition_size p <= partition_size p'
}.

Section Split.
Context (n i : N) (todo : list N) (p p' : Partition) (Hwf : partition_wf n (i :: todo) p) (Hwf' : partition_wf n todo p').
Context (Hothers : forall e j, in_set p' j e -> j <> i -> j <> partition_size p -> (marked p' e <-> marked p e)).

Lemma todo_unmarked e : in_set p' i e \/ in_set p' (partition_size p) e -> ~ marked p' e.
Proof.
  pose proof (wf_todo _ _ _ Hwf) as [Hnot _]%NoDup_cons. intros [Hi|Hi].
  - by apply (unmarked_set n todo p' Hwf' i).
  - apply (unmarked_set n todo p' Hwf' _ e Hi). intros Hin.
    assert (partition_size p ∈ i :: todo) as Hlt%(wf_todo_lt _ _ _ Hwf) by by right. lia.
Qed.

Lemma split_same new x y : set_split p p' i new -> x < n -> y < n ->
  (same p' x y /\ (marked p' x <-> marked p' y) <-> same p x y /\ (marked p x <-> marked p y)).
Proof.
  intros [-> _ Hclass Hold Hmk] Hx Hy. unfold same.
  destruct (element_class n _ p Hwf x Hx) as (a & _ & _ & Ha & _).
  destruct (element_class n _ p Hwf y Hy) as (b & _ & _ & Hb & _).
  assert (i < partition_size p) as Hlt by (apply (wf_todo_lt _ _ _ Hwf); by left).
  assert (a < partition_size p) as Hal by by apply (wf_class _ _ _ Hwf) in Ha.
  assert (b < partition_size p) as Hbl by by apply (wf_class _ _ _ Hwf) in Hb.
  pose proof (todo_unmarked x) as Hux. pose proof (todo_unmarked y) as Huy.
  pose proof (Hclass x) as Hcx. pose proof (Hclass y) as Hcy. pose proof (Hold x) as Hox. pose proof (Hold y) as Hoy.
  pose proof (Hothers x a) as Hax. pose proof (Hothers y b) as Hby.
  assert (in_set p i x -> in_set p i y -> (in_set p' (partition_size p) x <-> in_set p' (partition_size p) y) <->
    (marked p x <-> marked p y)) as Hxy.
  { intros Hix Hiy. pose proof (marked_dec n _ p x Hwf). pose proof (marked_dec n _ p y Hwf).
    destruct Hmk as [Hmk|Hmk]; rewrite (Hmk x Hix), (Hmk y Hiy); tauto. }
  unfold in_set in *. rewrite Ha, Hb in *. destruct Hcx as [Hcx|Hcx], Hcy as [Hcy|Hcy]; rewrite ?Hcx, ?Hcy in *.
  - assert (a = i /\ b = i) as [-> ->] by (split; naive_solver). tauto.
  - assert (a = i) as -> by naive_solver. split; intros [[= <-] Hm]; [lia|].
    apply Hxy in Hm; [|done..]. assert (Some i = Some (partition_size p)) by tauto. simplify_eq. lia.
  - assert (b = i) as -> by naive_solver. split; intros [[= ->] Hm]; [lia|].
    apply Hxy in Hm; [|done..]. assert (Some i = Some (partition_size p)) by tauto. simplify_eq. lia.
  - destruct (decide (a = b)) as [<-|]; [|naive_solver]. destruct (decide (a = i)) as [->|Hai].
    + assert (Some i <> Some (partition_size p)) by (intros [= ?]; lia). tauto.
    + assert (a <> partition_size p) by lia. tauto.
Qed.

Lemma unmark_same x y : m_elementToSetMap p' = m_elementToSetMap p -> (forall e, in_set p i e -> marked p e) ->
  x < n -> y < n ->
  (same p' x y /\ (marked p' x <-> marked p' y) <-> same p x y /\ (marked p x <-> marked p y)).
Proof.
  intros Hmap Hall Hx Hy. pose proof (todo_unmarked x) as Hux. pose proof (todo_unmarked y) as Huy.
  destruct (element_class n _ p Hwf x Hx) as (a & _ & _ & Ha & _).
  destruct (element_class n _ p Hwf y Hy) as (b & _ & _ & Hb & _).
  assert (a < partition_size p) as Hal by by apply (wf_class _ _ _ Hwf) in Ha.
  pose proof (Hothers x a) as Hax. pose proof (Hothers y b) as Hby. pose proof (Hall x). pose proof (Hall y).
  unfold same, in_set in *. rewrite Hmap, Ha, Hb in *. destruct (decide (a = b)) as [<-|]; [|naive_solver].
  destruct (decide (a = i)) as [->|]; [tauto|]. assert (a <> partition_size p) by lia. tauto.
Qed.
End Split.

(** The rule for [refineGeneration]: the function, which is called after each
    split, keeps an invariant [I] of the sets and of its state. *)
Section Refine.
Context {S : Type} (function : Partition -> N -> S -> option S) (n : N) (I : list N -> S -> Prop).
Context (Hfunction : forall todo p p' i s,
  partition_wf n (i :: todo) p -> partition_wf n todo p' -> set_split p p' i (partition_size p) ->
  I (m_elementToSetMap p) s ->
  exists s', function p' (partition_size p) s = Some s' /\ I (m_elementToSetMap p') s').

Lemma refine_loop todo p s : partition_wf n todo p -> I (m_elementToSetMap p) s ->
  exists p' s', foldM (fun (ps : Partition * S) setIndex =>
      r ← refine_set ps.1 setIndex;
      match r.2 with
      | None => Some (r.1, ps.2)
      | Some newSetIndex => s' ← function r.1 newSetIndex ps.2; Some (r.1, s')
      end) (p, s) todo = Some (p', s') /\
    partition_wf n [] p' /\ I (m_elementToSetMap p') s' /\ refined n p p'.
Proof.
  revert p s. induction todo as [|i todo IH]; intros p s Hwf HI; cbn [foldM].
  - exists p, s. split_and!; [done..|]. split; [|by left|lia]. intros x y Hx Hy.
    pose proof (unmarked n p x Hwf). pose proof (unmarked n p y Hwf). tauto.
  - destruct (refine_set_spec n i todo p Hwf) as (p1 & r & Hr & Hwf1 & _ & Hothers & Hcase). cbn [fst].
    rewrite Hr. run_option. cbn [fst snd].
    destruct r as [new|].
    + pose proof Hcase as [-> Hsize Hclass _ _]. destruct (Hfunction todo p p1 i s) as (s1 & -> & HI1); [done..|].
      run_option. destruct (IH p1 s1 Hwf1 HI1) as (p' & s' & -> & Hwf' & HI' & [Hsame Hcl Hsz]).
      exists p', s'. split_and!; [done..|]. split; [| |lia].
      * intros x y Hx Hy. rewrite Hsame by done. by eapply split_same.
      * intros x. unfold in_set. destruct (Hcl x) as [->|(j & ? & ?)]; [|right; exists j; split; [done|lia]].
        destruct (Hclass x) as [Hx| ->]; [right; exists (partition_size p); split; [done|lia]|by left].
    + destruct Hcase as (Hmap & Hsize & Hall). rewrite <- Hmap in HI.
      run_option. destruct (IH p1 s Hwf1 HI) as (p' & s' & -> & Hwf' & HI' & [Hsame Hcl Hsz]).
      exists p', s'. split_and!; [done..|]. split; [| |lia].
      * intros x y Hx Hy. rewrite Hsame by done. by eapply unmark_same.
      * intros x. rewrite <- Hmap, <- Hsize. apply Hcl.
Qed.

Lemma refineGeneration_rule p s : partition_ok n p -> I (m_elementToSetMap p) s ->
  exists p' s', refineGeneration function p s = Some (p', s') /\ partition_wf n [] p' /\ partition_ok n p' /\
    I (m_elementToSetMap p') s' /\ refined n p p'.
Proof.
  intros Hok HI. destruct (refine_loop _ p s Hok HI) as (p' & s' & Hrun & Hwf & HI' & [Hs Hc Hz]).
  unfold refineGeneration. rewrite Hrun. run_option. exists (clear_marked p'), s'. cbn [fst snd].
  assert (partition_wf n [] (clear_marked p')) as Hwf' by (split; apply Hwf).
  split_and!; [done..|]. by split.
Qed.
End Refine.

(** The partition of [initialize] has a single set. *)
Lemma initialize_ok n : n < 2 ^ 32 ->
  partition_wf n [] (initialize emptyPartition n) /\ partition_ok n (initialize emptyPartition n) /\
  (forall x, x < n -> in_set (initialize emptyPartition n) 0 x).
Proof.
  intros Hn. unfold initialize. destruct (n =? 0) eqn:E; breflect.
  - subst. assert (partition_wf 0 [] emptyPartition) as Hwf.
    { split; cbn; try done; try set_solver; try (by constructor). }
    split_and!; [done..|]. lia.
  - assert (forall x k, for_range 0 n !!N x = Some k <-> x = k /\ k < n) as Hrange.
    { intros x k. rewrite lookup_for_range. lia. }
    assert (forall x i, replicate (N.to_nat n) 0 !!N x = Some i <-> i = 0 /\ x < n) as Hrep.
    { intros x i. rewrite lookup_replicate. split; intros [? ?]; (split; [done|lia]). }
    assert (partition_wf n [] (mkPartition [mkSet 0 n 0] (for_range 0 n) (for_range 0 n) (replicate (N.to_nat n) 0) [])) as Hwf.
    { split; cbn [m_sets m_partitionedElements m_elementPositionInPartitionedNodes m_elementToSetMap].
      - done.
      - rewrite length_for_range. lia.
      - rewrite length_for_range. lia.
      - apply length_replicate.
      - intros e k. rewrite !Hrange. lia.
      - intros i d Hd. pose proof (lookupN_lt _ _ _ Hd). replace i with 0 in * by (simpl in *; lia).
        simplify_eq/=. set_solver by lia.
      - intros e k i d [-> Hk]%Hrange Hd. pose proof (lookupN_lt _ _ _ Hd).
        replace i with 0 in * by (simpl in *; lia). simplify_eq/=. rewrite Hrep. lia.
      - intros e i [-> ?]%Hrep. done.
      - by constructor.
      - by intros i ?%elem_of_nil. }
    split_and!; [done..|]. intros x Hx. by apply Hrep.
Qed.

Lemma foldM_mapM {A B C} (f : B -> A -> option B) (h : C -> option A) ks l s :
  mapM h ks = Some l -> foldM (fun s k => x ← h k; f s x) s ks = foldM f s l.
Proof.
  revert l s. induction ks as [|k ks IH]; intros l s; cbn [mapM].
  - by intros [= <-].
  - destruct (h k) as [x|] eqn:Hx; [|done]. run_option. destruct (mapM _ ks) as [l'|] eqn:Hm; [|done].
    run_option. intros [= <-]. cbn [foldM]. rewrite Hx. run_option. destruct (f s x) as [s'|]; [|done].
    run_option. by apply IH.
Qed.

(** [iterateSet] visits each element of the set once. *)
Lemma iterateSet_spec n todo p i : partition_wf n todo p -> i < partition_size p ->
  exists l, NoDup l /\ (forall e, e ∈ l <-> in_set p i e) /\
    forall S (function : S -> N -> option S) s, iterateSet function p i s = foldM function s l.
Proof.
  intros Hwf [d Hd]%lookupN_is_Some. destruct (wf_set _ _ _ Hwf i d Hd) as (Hpos & Hle & _).
  pose proof (wf_n _ _ _ Hwf). set (ks := for_range (sd_start d) (sd_start d + sd_size d)).
  assert (exists l, mapM (fun k => m_partitionedElements p !!N k) ks = Some l) as [l Hl].
  { apply mapM_is_Some. apply Forall_forall. intros k Hk%elem_of_for_range.
    destruct (position_element n todo p Hwf k) as (e & _ & ? & _); [lia|]. eauto. }
  pose proof Hl as Hl2. apply mapM_Some in Hl2. exists l. split_and!.
  - apply NoDup_alt. intros a b e Ha Hb.
    destruct (Forall2_lookup_r _ _ _ _ _ Hl2 Ha) as (k & Hk & Hke).
    destruct (Forall2_lookup_r _ _ _ _ _ Hl2 Hb) as (k' & Hk' & Hke').
    rewrite (elements_inj n todo p Hwf k k' e Hke Hke') in Hk.
    by apply (proj1 (NoDup_alt ks) (NoDup_for_range _ _) a b k').
  - intros e. split.
    + intros [a Ha]%list_elem_of_lookup_1. destruct (Forall2_lookup_r _ _ _ _ _ Hl2 Ha) as (k & Hk & Hke).
      apply list_elem_of_lookup_2, elem_of_for_range in Hk. by apply (wf_member _ _ _ Hwf e k i d).
    + intros Hi. destruct (element_position n todo p Hwf e) as (k & _ & _ & Hke); [by apply (in_set_lt n todo p Hwf i)|].
      apply (wf_member _ _ _ Hwf e k i d) in Hi; [|done..].
      assert (k ∈ ks) as [a Ha]%list_elem_of_lookup_1 by (apply elem_of_for_range; lia).
      destruct (Forall2_lookup_l _ _ _ _ _ Hl2 Ha) as (e' & He' & Hke'). simplify_eq.
      by eapply list_elem_of_lookup_2.
  - intros S f s. unfold iterateSet. rewrite Hd. run_option. unfold set_end. rewrite wrap32_id by lia.
    by apply (foldM_mapM _ (fun k => m_partitionedElements p !!N k)).
Qed.
