(* ===== verification/DFAMinimizer.v ===== *)
(** * [WebCore/contentextensions/DFAMinimizer.cpp]: simplification and minimization

    [simplifyTransitions], the class [FullGraphPartition] and
    [DFAMinimizer::minimize], on the automata of DFA.v and the partitions of
    Partition.v.  [None] is an index out of range, a failed [RELEASE_ASSERT], or
    not enough fuel for a loop whose bound grows while it runs. *)

From S2P Require Import Prelude HashTable DFA Partition.

(** ** [simplifyTransitions] *)

(** The node gets a fallback: it has, it is meant, a transition on each character
    but the end of the input. *)
(** WebCore/contentextensions/DFAMinimizer.cpp:51-53 [simplifyTransitions] *)
Definition wants_fallback (node : DFANode) (dfa : DFA) : option bool :=
  if hasFallbackTransition node then Some false
  else if m_transitionsLength node =? 126
  then contains ← containsTransition node 0 dfa; Some (negb contains)
  else if m_transitionsLength node =? 127 then containsTransition node 0 dfa
  else Some false.

(** The first target that is reached by the greatest number of transitions, with that number. *)
(** WebCore/contentextensions/DFAMinimizer.cpp:54-71 [simplifyTransitions] *)
Definition best_target (transitions : list (N * N)) : N * N :=
  let '(_, bestTarget, bestTargetScore) :=
    foldl (fun '(targetHistogram, bestTarget, bestTargetScore) (transition : N * N) =>
        if transition.1 =? 0 then (targetHistogram, bestTarget, bestTargetScore)
        else
          let transitionTarget := transition.2 in
          let '(added, isNewEntry) := hmap_add transitionTarget 1 targetHistogram in
          let value := default 0 (hmap_find transitionTarget added) in
          let value' := if isNewEntry then value else wrap32 (value + 1) in
          let targetHistogram' := hmap_set transitionTarget value' added in
          if bestTargetScore <? value' then (targetHistogram', transitionTarget, value')
          else (targetHistogram', bestTarget, bestTargetScore))
      ([], max32, 0) transitions in
  (bestTarget, bestTargetScore).

(** [vector[start + i] = values[i]] for all the values. *)
Definition write_all {A} (vector : list A) (start : N) (values : list A) : option (list A) :=
  foldM (fun vector i => x ← values !!N i; vec_set vector (wrap32 (start + i)) x)
    vector (for_range 0 (N.of_nat (length values))).

(** The transitions of a node that has a fallback, without those that lead where
    the fallback does.  [fallback] is written after them, on the slots the node
    already has. *)
(** WebCore/contentextensions/DFAMinimizer.cpp:90-111 [simplifyTransitions] *)
Definition rewrite_transitions (dfa : DFA) (index : N) (node : DFANode) (hadFallbackTransition : bool)
    (newFallbackDestination : N) : option DFA :=
  oldTransitions ← node_transitions node dfa;
  let availableSlotCount := N.of_nat (length oldTransitions) + (if hadFallbackTransition then 1 else 0) in
  let newTransitions := filter (fun t : N * N => t.2 <> newFallbackDestination) oldTransitions in
  let size := N.of_nat (length newTransitions) in
  _ ← release_assert (size + 1 <=? availableSlotCount);
  let firstSlot := m_transitionsStart node in
  let node' := resetTransitions node firstSlot size in
  t1 ← write_all (transitions dfa) firstSlot newTransitions;
  t2 ← foldM (fun t i => vec_set t (wrap32 (firstSlot + i)) (max8, max32)) t1 (for_range size availableSlotCount);
  t3 ← vec_set t2 (wrap32 (firstSlot + size)) (max8, newFallbackDestination);
  nodes' ← vec_set (nodes dfa) index node';
  Some (with_nodes (with_transitions dfa t3) nodes').

(** The body of the loop on the nodes. *)
(** WebCore/contentextensions/DFAMinimizer.cpp:48-112 [simplifyTransitions] *)
Definition simplify_node (dfa : DFA) (index : N) : option DFA :=
  node ← nodes dfa !!N index;
  addingFallback ← wants_fallback node dfa;
  newFallback ← (if addingFallback : bool
                 then ts ← node_transitions node dfa; Some (best_target ts).1
                 else Some max32);
  let hadFallbackTransition := hasFallbackTransition node in
  oldFallbackTransition ← (if hadFallbackTransition then fallbackTransitionDestination node dfa else Some max32);
  let newFallbackDestination := if newFallback =? max32 then oldFallbackTransition else newFallback in
  let willHaveFallback := negb (newFallbackDestination =? max32) in
  let node' := setHasFallbackTransitionWithoutChangingDFA node willHaveFallback in
  nodes' ← vec_set (nodes dfa) index node';
  let dfa' := with_nodes dfa nodes' in
  if willHaveFallback then rewrite_transitions dfa' index node' hadFallbackTransition newFallbackDestination
  else Some dfa'.

(** WebCore/contentextensions/DFAMinimizer.cpp:46-113 [simplifyTransitions] *)
Definition simplifyTransitions (dfa : DFA) : option DFA :=
  foldM simplify_node dfa (for_range 0 (N.of_nat (length (nodes dfa)))).

(** ** [FullGraphPartition] *)

(** WebCore/contentextensions/DFAMinimizer.cpp:408-412 [FullGraphPartition::Transition] *)
Record Transition := mkTransition {
  source : N;
  target : N;
  character : N
}.

(** WebCore/contentextensions/DFAMinimizer.cpp:414-426 [FullGraphPartition] *)
Record FullGraphPartition := mkFullGraphPartition {
  m_flattenedTransitionsStartOffsetPerNode : list N;
  m_flattenedTransitionsSizePerNode : list N;
  m_flattenedFallbackTransitionsStartOffsetPerNode : list N;
  m_flattenedFallbackTransitionsSizePerNode : list N;
  m_flattenedTransitions : list Transition;
  m_flattenedFallbackTransitions : list N;
  m_nodePartition : Partition;
  m_transitionPartition : Partition;
  m_fallbackTransitionPartition : Partition;
  m_nextTransitionSetToProcess : N
}.

Definition with_partitions (g : FullGraphPartition) (np tp fp : Partition) : FullGraphPartition :=
  mkFullGraphPartition (m_flattenedTransitionsStartOffsetPerNode g) (m_flattenedTransitionsSizePerNode g)
    (m_flattenedFallbackTransitionsStartOffsetPerNode g) (m_flattenedFallbackTransitionsSizePerNode g)
    (m_flattenedTransitions g) (m_flattenedFallbackTransitions g) np tp fp (m_nextTransitionSetToProcess g).

Definition with_next (g : FullGraphPartition) (next : N) : FullGraphPartition :=
  mkFullGraphPartition (m_flattenedTransitionsStartOffsetPerNode g) (m_flattenedTransitionsSizePerNode g)
    (m_flattenedFallbackTransitionsStartOffsetPerNode g) (m_flattenedFallbackTransitionsSizePerNode g)
    (m_flattenedTransitions g) (m_flattenedFallbackTransitions g)
    (m_nodePartition g) (m_transitionPartition g) (m_fallbackTransitionPartition g) next.

(** [++counters[index]] *)
Definition increment (counters : list N) (index : N) : option (list N) :=
  counter ← counters !!N index; vec_set counters index (wrap32 (counter + 1)).

(** WebCore/contentextensions/DFAMinimizer.cpp:267-272 [FullGraphPartition::FullGraphPartition] *)
Definition count_incoming (dfa : DFA) (counters : list N * list N) (node : DFANode) : option (list N * list N) :=
  ts ← node_transitions node dfa;
  counts ← foldM (fun counts (transition : N * N) => increment counts transition.2) counters.1 ts;
  fallbackCounts ← (if hasFallbackTransition node
                    then destination ← fallbackTransitionDestination node dfa; increment counters.2 destination
                    else Some counters.2);
  Some (counts, fallbackCounts).

(** The counters become the offsets of the groups; the total comes with them. *)
(** WebCore/contentextensions/DFAMinimizer.cpp:275-281 [FullGraphPartition::FullGraphPartition] *)
Definition accumulate_offsets (counters : list N) : option (list N * N) :=
  foldM (fun (state : list N * N) i =>
      count ← state.1 !!N i; offsets ← vec_set state.1 i state.2; Some (offsets, wrap32 (state.2 + count)))
    (counters, 0) (for_range 0 (N.of_nat (length counters))).

(** [table[offsets[target] + sizes[target]] = value] and [++sizes[target]]. *)
Definition place {A} (offsets : list N) (table : list A * list N) (target : N) (value : A) : option (list A * list N) :=
  start ← offsets !!N target;
  offset ← table.2 !!N target;
  flattened ← vec_set table.1 (wrap32 (start + offset)) value;
  sizes ← increment table.2 target;
  Some (flattened, sizes).

(** WebCore/contentextensions/DFAMinimizer.cpp:304-325 [FullGraphPartition::FullGraphPartition] *)
Definition fill_node (dfa : DFA) (offsets fallbackOffsets : list N)
    (tables : (list Transition * list N) * (list N * list N)) (i : N) :
    option ((list Transition * list N) * (list N * list N)) :=
  node ← nodes dfa !!N i;
  ts ← node_transitions node dfa;
  table ← foldM (fun table (transition : N * N) =>
      place offsets table transition.2 (mkTransition i transition.2 transition.1)) tables.1 ts;
  fallbackTable ← (if hasFallbackTransition node
                   then destination ← fallbackTransitionDestination node dfa;
                        place fallbackOffsets tables.2 destination i
                   else Some tables.2);
  Some (table, fallbackTable).

Definition no_function : Partition -> N -> unit -> option unit := fun _ _ _ => Some ().

(** WebCore/contentextensions/DFAMinimizer.cpp:331-336 [FullGraphPartition::FullGraphPartition] *)
Definition split_character (flattened : list Transition) (p : Partition) (i : N) : option Partition :=
  p' ← foldM (fun p transitionIndex =>
      transition ← flattened !!N transitionIndex;
      if character transition =? i then markElementInCurrentGeneration p transitionIndex else Some p)
    p (for_range 0 (N.of_nat (length flattened)));
  fst <$> refineGeneration no_function p' ().

(** WebCore/contentextensions/DFAMinimizer.cpp:254-341 [FullGraphPartition::FullGraphPartition] *)
Definition makeFullGraphPartition (dfa : DFA) : option FullGraphPartition :=
  let size := length (nodes dfa) in
  let nodePartition := initialize emptyPartition (N.of_nat size) in
  counters ← foldM (count_incoming dfa) (replicate size 0, replicate size 0) (nodes dfa);
  offsets ← accumulate_offsets counters.1;
  fallbackOffsets ← accumulate_offsets counters.2;
  tables ← foldM (fill_node dfa offsets.1 fallbackOffsets.1)
    ((replicate (N.to_nat offsets.2) (mkTransition 0 0 0), replicate size 0),
     (replicate (N.to_nat fallbackOffsets.2) 0, replicate size 0))
    (for_range 0 (N.of_nat size));
  let flattened := tables.1.1 in
  transitionPartition ← foldM (split_character flattened)
    (initialize emptyPartition (N.of_nat (length flattened))) (for_range 0 128);
  Some (mkFullGraphPartition offsets.1 tables.1.2 fallbackOffsets.1 tables.2.2 flattened tables.2.1
          nodePartition transitionPartition
          (initialize emptyPartition (N.of_nat (length tables.2.1))) 0).

(** WebCore/contentextensions/DFAMinimizer.cpp:343-346 [FullGraphPartition::markNode] *)
Definition markNode (g : FullGraphPartition) (nodeIndex : N) : option FullGraphPartition :=
  np ← markElementInCurrentGeneration (m_nodePartition g) nodeIndex;
  Some (with_partitions g np (m_transitionPartition g) (m_fallbackTransitionPartition g)).

(** Marks the elements [start], ..., [start + size - 1]. *)
Definition mark_range (p : Partition) (start size : N) : option Partition :=
  foldM (fun p i => markElementInCurrentGeneration p (wrap32 (start + i))) p (for_range 0 size).

(** The transitions that lead to a node of the new set. *)
(** WebCore/contentextensions/DFAMinimizer.cpp:351-362 [FullGraphPartition::refinePartitions] *)
Definition mark_incoming (g : FullGraphPartition) (partitions : Partition * Partition) (nodeIndex : N) :
    option (Partition * Partition) :=
  start ← m_flattenedTransitionsStartOffsetPerNode g !!N nodeIndex;
  size ← m_flattenedTransitionsSizePerNode g !!N nodeIndex;
  tp ← mark_range partitions.1 start size;
  fallbackStart ← m_flattenedFallbackTransitionsStartOffsetPerNode g !!N nodeIndex;
  fallbackSize ← m_flattenedFallbackTransitionsSizePerNode g !!N nodeIndex;
  fp ← mark_range partitions.2 fallbackStart fallbackSize;
  Some (tp, fp).

(** WebCore/contentextensions/DFAMinimizer.cpp:350-367 [FullGraphPartition::refinePartitions] *)
Definition split_incoming (g : FullGraphPartition) (np : Partition) (smallestSetIndex : N)
    (partitions : Partition * Partition) : option (Partition * Partition) :=
  marked ← iterateSet (mark_incoming g) np smallestSetIndex partitions;
  tp ← refineGeneration no_function marked.1 ();
  fp ← refineGeneration no_function marked.2 ();
  Some (tp.1, fp.1).

(** WebCore/contentextensions/DFAMinimizer.cpp:348-369 [FullGraphPartition::refinePartitions] *)
Definition refinePartitions (g : FullGraphPartition) : option FullGraphPartition :=
  r ← refineGeneration (split_incoming g) (m_nodePartition g)
        (m_transitionPartition g, m_fallbackTransitionPartition g);
  Some (with_partitions g r.1 r.2.1 r.2.2).

(** WebCore/contentextensions/DFAMinimizer.cpp:375-380 [FullGraphPartition::splitByUniqueTransitions] *)
Definition split_by_transition_set (g : FullGraphPartition) (index : N) : option FullGraphPartition :=
  np ← iterateSet (fun np transitionIndex =>
      transition ← m_flattenedTransitions g !!N transitionIndex;
      markElementInCurrentGeneration np (source transition))
    (m_transitionPartition g) index (m_nodePartition g);
  refinePartitions (with_partitions g np (m_transitionPartition g) (m_fallbackTransitionPartition g)).

(** WebCore/contentextensions/DFAMinimizer.cpp:371-382 [FullGraphPartition::splitByUniqueTransitions] *)
Fixpoint splitByUniqueTransitions (fuel : nat) (g : FullGraphPartition) : option FullGraphPartition :=
  match fuel with
  | O => None
  | S fuel' =>
    if m_nextTransitionSetToProcess g <? partition_size (m_transitionPartition g) then
      g' ← split_by_transition_set g (m_nextTransitionSetToProcess g);
      splitByUniqueTransitions fuel' (with_next g' (m_nextTransitionSetToProcess g' + 1))
    else Some g
  end.

(** WebCore/contentextensions/DFAMinimizer.cpp:390-394 [FullGraphPartition::splitByFallbackTransitions] *)
Definition split_by_fallback_set (g : FullGraphPartition) (index : N) : option FullGraphPartition :=
  np ← iterateSet (fun np transitionIndex =>
      sourceNodeIndex ← m_flattenedFallbackTransitions g !!N transitionIndex;
      markElementInCurrentGeneration np sourceNodeIndex)
    (m_fallbackTransitionPartition g) index (m_nodePartition g);
  refinePartitions (with_partitions g np (m_transitionPartition g) (m_fallbackTransitionPartition g)).

(** WebCore/contentextensions/DFAMinimizer.cpp:384-399 [FullGraphPartition::splitByFallbackTransitions] *)
Fixpoint splitByFallbackTransitions (fuel uniqueFuel : nat) (fallbackTransitionSetIndex : N)
    (g : FullGraphPartition) : option FullGraphPartition :=
  match fuel with
  | O => None
  | S fuel' =>
    if fallbackTransitionSetIndex <? partition_size (m_fallbackTransitionPartition g) then
      g1 ← split_by_fallback_set g fallbackTransitionSetIndex;
      g2 ← splitByUniqueTransitions uniqueFuel g1;
      splitByFallbackTransitions fuel' uniqueFuel (fallbackTransitionSetIndex + 1) g2
    else Some g
  end.

(** WebCore/contentextensions/DFAMinimizer.cpp:401-405 [FullGraphPartition::nodeReplacement] *)
Definition nodeReplacement (g : FullGraphPartition) (nodeIndex : N) : option N :=
  index ← setIndex (m_nodePartition g) nodeIndex;
  firstElementInSet (m_nodePartition g) index.

(** ** The final states *)

(** The valid keys; the hash is not part of the comparison. *)
(** WebCore/contentextensions/DFAMinimizer.cpp:429-460 [ActionKey] *)
Record ActionKey := mkActionKey {
  actionsStart : N;
  actionsLength : N
}.

(** WebCore/contentextensions/DFAMinimizer.cpp:469-480 [ActionKeyHash::equal] *)
Definition actionKey_equal (dfa : DFA) (a b : ActionKey) : option bool :=
  if negb (actionsLength a =? actionsLength b) then Some false
  else foldM (fun (equal : bool) i =>
      if equal then
        x ← actions dfa !!N wrap32 (actionsStart a + i);
        y ← actions dfa !!N wrap32 (actionsStart b + i);
        Some (x =? y)
      else Some false) true (for_range 0 (actionsLength a)).

(** [HashMap::add] of the key, with the comparison of the keys: the node is
    appended to the vector of the equal key. *)
Fixpoint add_final_state (dfa : DFA) (key : ActionKey) (index : N) (finalStates : list (ActionKey * list N)) :
    option (list (ActionKey * list N)) :=
  match finalStates with
  | [] => Some [(key, [index])]
  | (key', indices) :: finalStates' =>
    equal ← actionKey_equal dfa key' key;
    if equal : bool then Some ((key', indices ++ [index]) :: finalStates')
    else rest ← add_final_state dfa key index finalStates'; Some ((key', indices) :: rest)
  end.

(** WebCore/contentextensions/DFAMinimizer.cpp:500-507 [DFAMinimizer::minimize] *)
Definition collect_final_states (dfa : DFA) : option (list (ActionKey * list N)) :=
  foldM (fun finalStates i =>
      node ← nodes dfa !!N i;
      if hasActions node
      then add_final_state dfa (mkActionKey (m_actionsStart node) (m_actionsLength node)) i finalStates
      else Some finalStates)
    [] (for_range 0 (N.of_nat (length (nodes dfa)))).

(** ** [DFAMinimizer::minimize] *)

(** WebCore/contentextensions/DFAMinimizer.cpp:509-513 [DFAMinimizer::minimize] *)
Definition split_final_states `{HashOrder} (finalStates : list (ActionKey * list N)) (g : FullGraphPartition) :
    option FullGraphPartition :=
  foldM (fun g (slot : ActionKey * list N) => g' ← foldM markNode g slot.2; refinePartitions g')
    g (hash_order finalStates).

(** WebCore/contentextensions/DFAMinimizer.cpp:532-539 [DFAMinimizer::minimize] *)
Definition kill_nodes (g : FullGraphPartition) (dfa : DFA) : option (DFA * list N) :=
  let size := N.of_nat (length (nodes dfa)) in
  foldM (fun (state : DFA * list N) i =>
      replacement ← nodeReplacement g i;
      if i =? replacement then Some state
      else
        relocationVector ← vec_set state.2 i replacement;
        node ← nodes state.1 !!N i;
        killed ← kill node state.1;
        nodes' ← vec_set (nodes killed.2) i killed.1;
        Some (with_nodes killed.2 nodes', relocationVector))
    (dfa, for_range 0 size) (for_range 0 size).

(** WebCore/contentextensions/DFAMinimizer.cpp:542-546 [DFAMinimizer::minimize] *)
Definition relocate_node (relocationVector : list N) (dfa : DFA) (node : DFANode) : option DFA :=
  nodeTransitions ← node_transitions node dfa;
  t ← foldM (fun t i =>
      nodeTransition ← nodeTransitions !!N i;
      destination ← relocationVector !!N nodeTransition.2;
      old ← t !!N wrap32 (m_transitionsStart node + i);
      vec_set t (wrap32 (m_transitionsStart node + i)) (old.1, destination))
    (transitions dfa) (for_range 0 (m_transitionsLength node));
  let dfa' := with_transitions dfa t in
  if hasFallbackTransition node then
    oldDestination ← fallbackTransitionDestination node dfa';
    destination ← relocationVector !!N oldDestination;
    changeFallbackTransition node dfa' destination
  else Some dfa'.

(** The partition of the nodes that the automaton gets. *)
(** WebCore/contentextensions/DFAMinimizer.cpp:494-525 [DFAMinimizer::minimize] *)
Definition partition_nodes `{HashOrder} (dfa : DFA) : option FullGraphPartition :=
  g0 ← makeFullGraphPartition dfa;
  finalStates ← collect_final_states dfa;
  g1 ← split_final_states finalStates g0;
  let uniqueFuel := S (length (m_flattenedTransitions g1)) in
  let fallbackFuel := S (length (m_flattenedFallbackTransitions g1)) in
  g2 ← splitByUniqueTransitions uniqueFuel g1;
  splitByFallbackTransitions fallbackFuel uniqueFuel 0 g2.

(** WebCore/contentextensions/DFAMinimizer.cpp:490-554 [DFAMinimizer::minimize] *)
Definition minimize `{HashOrder} (dfa : DFA) : option DFA :=
  dfa1 ← simplifyTransitions dfa;
  g ← partition_nodes dfa1;
  killed ← kill_nodes g dfa1;
  dfa2 ← foldM (relocate_node killed.2) killed.1 (nodes killed.1);
  dfa3 ← simplifyTransitions dfa2;
  newRoot ← killed.2 !!N root dfa3;
  Some (with_root dfa3 newRoot).
