(* ===== verification/Refinement.v ===== *)
(** * The partition refinement of [FullGraphPartition]

    What the loops of DFAMinimizer.v keep: the transitions of a set of the
    transition partition are on the same character and lead to the same set of
    nodes, and the nodes of a set agree on the sets of transitions that have been
    processed. *)

From S2P Require Import Prelude HashTable DFA Partition DFAMinimizer.

(** ** Generic loops *)

Lemma foldM_ext {A B} (f f' : B -> A -> option B) s l :
  (forall s a, a ∈ l -> f s a = f' s a) -> foldM f s l = foldM f' s l.
Proof.
  revert s. induction l as [|a l IH]; intros s Heq; cbn [foldM]; [done|].
  rewrite Heq by (by left). destruct (f' s a); [|done]. apply IH. intros. apply Heq. by right.
Qed.

Lemma foldM_fmap {A B C} (f : B -> C -> option B) (h : A -> C) s l :
  foldM f s (h <$> l) = foldM (fun s a => f s (h a)) s l.
Proof. revert s. induction l as [|a l IH]; intros s; cbn; [done|]. destruct (f s (h a)); [|done]. apply IH. Qed.

Lemma for_range_offset start size :
  (fun i => start + i) <$> for_range 0 size = for_range start (start + size).
Proof.
  apply list_eq. intros k. rewrite list_lookup_fmap. apply option_eq. intros x.
  rewrite fmap_Some, lookup_for_range. setoid_rewrite lookup_for_range. split.
  - intros (i & [-> ?] & ->). lia.
  - intros [-> ?]. exists (N.of_nat k). lia.
Qed.

(** ** Tables of incoming transitions *)

(** The transitions [E] of a graph of [n] nodes, grouped by their targets.  The
    fallbacks are the transitions of a character of their own. *)
Record table_ok (n : N) (E : list Transition) (starts sizes : list N) : Prop := {
  tb_bound : N.of_nat (length E) < 2 ^ 32;
  tb_deterministic : forall k k' T T', E !!N k = Some T -> E !!N k' = Some T' ->
    source T = source T' -> character T = character T' -> k = k';
  tb_range : forall T, T ∈ E -> source T < n /\ target T < n;
  tb_group : forall v, v < n -> exists start size, starts !!N v = Some start /\ sizes !!N v = Some size /\
    start + size <= N.of_nat (length E) /\
    forall k T, E !!N k = Some T -> (target T = v <-> start <= k < start + size)
}.

(** The nodes [nm] of a set of transitions [tp]: one character, one set of targets. *)
Definition cords (nm : list N) (tp : Partition) (E : list Transition) : Prop :=
  forall k k' T T', E !!N k = Some T -> E !!N k' = Some T' -> same tp k k' ->
    character T = character T' /\ nm !!N target T = nm !!N target T'.

(** The indices of the sets only change to new ones. *)
Definition newer (p p' : Partition) : Prop :=
  partition_size p <= partition_size p' /\
  forall x, m_elementToSetMap p' !!N x = m_elementToSetMap p !!N x \/
    exists j, in_set p' j x /\ partition_size p <= j.

(** The nodes of a set agree on the transitions in the sets below [next], up to
    the parts of these that are still to be processed. *)
Definition stable (n : N) (nm : list N) (tp : Partition) (E : list Transition) (next : N) : Prop :=
  forall p q k T i, p < n -> q < n -> nm !!N p = nm !!N q ->
    E !!N k = Some T -> source T = p -> in_set tp i k -> i < next ->
    exists k' T' i', E !!N k' = Some T' /\ source T' = q /\ character T' = character T /\
      in_set tp i' k' /\ (i' = i \/ next <= i').

Lemma newer_refl p : newer p p.
Proof. split; [done|]. by left. Qed.

Lemma newer_trans p1 p2 p3 : newer p1 p2 -> newer p2 p3 -> newer p1 p3.
Proof.
  intros [Hs H12] [Hs' H23]. split; [lia|]. intros x. unfold in_set in *. destruct (H23 x) as [->|(j & ? & ?)].
  - apply H12.
  - right. exists j. split; [done|lia].
Qed.

Lemma refined_newer n p p' : refined n p p' -> newer p p'.
Proof. intros [_ Hc Hs]. by split. Qed.

Lemma newer_old p p' i x : newer p p' -> in_set p' i x -> i < partition_size p -> in_set p i x.
Proof.
  intros [_ Hn] Hi Hlt. unfold in_set in *. destruct (Hn x) as [<-|(j & Hj & ?)]; [done|]. simplify_eq. lia.
Qed.

(** [p'] is at least as fine as [p]. *)
Definition finer (n : N) (nm nm' : list N) : Prop :=
  forall x y, x < n -> y < n -> nm' !!N x = nm' !!N y -> nm !!N x = nm !!N y.

Lemma refined_finer n p p' : refined n p p' -> finer n (m_elementToSetMap p) (m_elementToSetMap p').
Proof. intros [Hs _ _] x y Hx Hy Hxy. by apply (Hs x y Hx Hy) in Hxy as [? _]. Qed.

Lemma finer_trans n a b c : finer n a b -> finer n b c -> finer n a c.
Proof. intros Hab Hbc x y Hx Hy Hxy. by apply Hab, Hbc. Qed.

Lemma finer_refl n a : finer n a a.
Proof. by intros x y. Qed.

Lemma stable_newer n nm nm' tp tp' E next todo :
  partition_wf (N.of_nat (length E)) todo tp' ->
  finer n nm nm' -> newer tp tp' -> next <= partition_size tp ->
  stable n nm tp E next -> stable n nm' tp' E next.
Proof.
  intros Hwf Hfine Hnew Hle Hst p q k T i Hp Hq Hpq HT Hsrc Hi Hlt.
  destruct (Hst p q k T i) as (k' & T' & i' & HT' & Hq' & Hc & Hi' & Hor); [done|done|by apply Hfine|done|done| |done|].
  { eapply newer_old; [done..|lia]. }
  pose proof (proj2 Hnew k') as [Hk|(j & Hj & ?)].
  - exists k', T', i'. unfold in_set in *. by rewrite Hk.
  - exists k', T', j. split_and!; [done..|]. right. lia.
Qed.

(** ** Marking the transitions that lead to a set of nodes *)

Lemma mark_range_spec p start size : start + size < 2 ^ 32 ->
  mark_range p start size = foldM markElementInCurrentGeneration p (for_range start (start + size)).
Proof.
  intros Hb. unfold mark_range. rewrite <- for_range_offset, foldM_fmap. apply foldM_ext.
  intros s i Hi%elem_of_for_range. by rewrite wrap32_id by lia.
Qed.

(** The group of a node is marked. *)
Lemma mark_group n E starts sizes tp v : table_ok n E starts sizes ->
  partition_ok (N.of_nat (length E)) tp -> v < n ->
  (forall k T, E !!N k = Some T -> target T = v -> ~ marked tp k) ->
  exists start size tp', starts !!N v = Some start /\ sizes !!N v = Some size /\
    mark_range tp start size = Some tp' /\ partition_ok (N.of_nat (length E)) tp' /\
    m_elementToSetMap tp' = m_elementToSetMap tp /\ partition_size tp' = partition_size tp /\
    forall k T, E !!N k = Some T -> (marked tp' k <-> marked tp k \/ target T = v).
Proof.
  intros Htb Hok Hv Hnot. pose proof (tb_bound _ _ _ _ Htb).
  destruct (tb_group _ _ _ _ Htb v Hv) as (start & size & Hstart & Hsize & Hle & Hgroup).
  exists start, size. rewrite mark_range_spec by lia.
  destruct (mark_elements (N.of_nat (length E)) (for_range start (start + size)) tp) as (tp' & -> & Hok' & Hmap & Hsz & Hm).
  - done.
  - apply NoDup_for_range.
  - intros k Hk%elem_of_for_range. split; [lia|]. destruct (lookupN_is_Some E k) as [T HT]; [lia|].
    apply (Hnot k T HT). by apply (Hgroup k T HT).
  - exists tp'. split_and!; [done..|]. intros k T HT. rewrite Hm, elem_of_for_range. by rewrite (Hgroup k T HT).
Qed.

Record tables_ok (n : N) (E EF : list Transition) (g : FullGraphPartition) : Prop := {
  tk_flat : m_flattenedTransitions g = E;
  tk_fallback : m_flattenedFallbackTransitions g = source <$> EF;
  tk_table : table_ok n E (m_flattenedTransitionsStartOffsetPerNode g) (m_flattenedTransitionsSizePerNode g);
  tk_table_fallback : table_ok n EF (m_flattenedFallbackTransitionsStartOffsetPerNode g)
    (m_flattenedFallbackTransitionsSizePerNode g)
}.

(** The part of a set of transitions that the nodes [P] are the targets of is marked. *)
Definition marks_targets (E : list Transition) (tp tp' : Partition) (P : N -> Prop) : Prop :=
  partition_ok (N.of_nat (length E)) tp' /\ m_elementToSetMap tp' = m_elementToSetMap tp /\
  partition_size tp' = partition_size tp /\
  forall k T, E !!N k = Some T -> (marked tp' k <-> marked tp k \/ P (target T)).

Section Incoming.
Context (n : N) (E EF : list Transition) (g : FullGraphPartition) (Hg : tables_ok n E EF g).

Lemma mark_incoming_all l tp fp : NoDup l -> (forall v, v ∈ l -> v < n) ->
  partition_ok (N.of_nat (length E)) tp -> partition_ok (N.of_nat (length EF)) fp ->
  (forall k T, E !!N k = Some T -> target T ∈ l -> ~ marked tp k) ->
  (forall k T, EF !!N k = Some T -> target T ∈ l -> ~ marked fp k) ->
  exists tp' fp', foldM (mark_incoming g) (tp, fp) l = Some (tp', fp') /\
    marks_targets E tp tp' (.∈ l) /\ marks_targets EF fp fp' (.∈ l).
Proof.
  intros Hnd Hl. revert tp fp Hnd Hl. induction l as [|v l IH]; intros tp fp Hnd Hl Htp Hfp Hm Hfm; cbn [foldM].
  - exists tp, fp. split; [done|]. split; (split_and!; [done..|]); intros k T _; rewrite elem_of_nil; tauto.
  - apply NoDup_cons in Hnd as [Hv Hnd].
    destruct (mark_group n E _ _ tp v (tk_table _ _ _ _ Hg) Htp) as (st & sz & tp1 & Hst & Hsz & Hrun & Htp1 & Hmap & Hs1 & Hm1).
    { apply Hl. by left. }
    { intros k T HT <-. apply (Hm k T HT). by left. }
    destruct (mark_group n EF _ _ fp v (tk_table_fallback _ _ _ _ Hg) Hfp) as (fstart & fsz & fp1 & Hfst & Hfsz & Hfrun & Hfp1 & Hfmap & Hfs1 & Hfm1).
    { apply Hl. by left. }
    { intros k T HT <-. apply (Hfm k T HT). by left. }
    assert (mark_incoming g (tp, fp) v = Some (tp1, fp1)) as ->.
    { unfold mark_incoming. by rewrite Hst, Hsz, Hfst, Hfsz; cbn; rewrite Hrun; cbn; rewrite Hfrun. }
    run_option.
    destruct (IH tp1 fp1 Hnd) as (tp' & fp' & -> & (? & Hmap' & Hs' & Hm') & (? & Hfmap' & Hfs' & Hfm')); try done.
    { intros w Hw. apply Hl. by right. }
    { intros k T HT Hin. rewrite (Hm1 k T HT). intros [Hk|Heq]; [|congruence]. apply (Hm k T HT); [by right|done]. }
    { intros k T HT Hin. rewrite (Hfm1 k T HT). intros [Hk|Heq]; [|congruence]. apply (Hfm k T HT); [by right|done]. }
    exists tp', fp'. split; [done|]. split; (split_and!; [done|congruence|congruence|]); intros k T HT.
    + rewrite (Hm' k T HT), (Hm1 k T HT), elem_of_cons. tauto.
    + rewrite (Hfm' k T HT), (Hfm1 k T HT), elem_of_cons. tauto.
Qed.

(** [refineGeneration] without a function. *)
Lemma refine_plain m p : partition_ok m p ->
  exists p', refineGeneration no_function p () = Some (p', ()) /\ partition_wf m [] p' /\ partition_ok m p' /\ refined m p p'.
Proof.
  intros Hok. destruct (refineGeneration_rule no_function m (fun _ _ => True)) with (p := p) (s := ())
    as (p' & [] & Hrun & Hwf & Hok' & _ & Href); [|done|done|by exists p'].
  intros. by exists ().
Qed.

(** The sets of transitions stay within the sets of nodes when one is split. *)
Lemma cords_split todo np np' i E' tp tp1 tp' :
  partition_wf n (i :: todo) np -> set_split np np' i (partition_size np) ->
  (forall T, T ∈ E' -> target T < n) ->
  cords (m_elementToSetMap np) tp E' -> m_elementToSetMap tp1 = m_elementToSetMap tp ->
  (forall x, ~ marked tp x) ->
  (forall k T, E' !!N k = Some T -> (marked tp1 k <-> marked tp k \/ in_set np' (partition_size np) (target T))) ->
  refined (N.of_nat (length E')) tp1 tp' ->
  cords (m_elementToSetMap np') tp' E'.
Proof.
  intros Hnp Hsp Hrange Hcords Hmap Hun Hm [Hsame _ _] k k' T T' HT HT' Hkk.
  apply Hsame in Hkk as [Hkk Hmk]; [|by apply lookupN_lt in HT|by apply lookupN_lt in HT'].
  rewrite (Hm k T HT), (Hm k' T' HT') in Hmk. unfold same in Hkk. rewrite Hmap in Hkk.
  destruct (Hcords k k' T T' HT HT' Hkk) as [Hc Htt]. split; [done|].
  pose proof (Hun k). pose proof (Hun k'). unfold in_set in *.
  destruct (sp_class _ _ _ _ Hsp (target T)) as [Hx|Hx], (sp_class _ _ _ _ Hsp (target T')) as [Hy|Hy].
  - by rewrite Hx, Hy.
  - assert (in_set np' (partition_size np) (target T')) as -> by tauto. done.
  - assert (in_set np' (partition_size np) (target T)) as -> by tauto. done.
  - by rewrite Hx, Hy.
Qed.

(** The body of [refinePartitions]. *)
Lemma split_incoming_spec todo np np' i tp fp :
  partition_wf n (i :: todo) np -> partition_wf n todo np' -> set_split np np' i (partition_size np) ->
  partition_wf (N.of_nat (length E)) [] tp -> partition_ok (N.of_nat (length E)) tp ->
  partition_wf (N.of_nat (length EF)) [] fp -> partition_ok (N.of_nat (length EF)) fp ->
  cords (m_elementToSetMap np) tp E -> cords (m_elementToSetMap np) fp EF ->
  exists tp' fp', split_incoming g np' (partition_size np) (tp, fp) = Some (tp', fp') /\
    partition_wf (N.of_nat (length E)) [] tp' /\ partition_ok (N.of_nat (length E)) tp' /\
    partition_wf (N.of_nat (length EF)) [] fp' /\ partition_ok (N.of_nat (length EF)) fp' /\
    cords (m_elementToSetMap np') tp' E /\ cords (m_elementToSetMap np') fp' EF /\
    newer tp tp' /\ newer fp fp'.
Proof.
  intros Hnp Hnp' Hsp Htp Htpo Hfp Hfpo Hc Hfc.
  destruct (iterateSet_spec n todo np' (partition_size np) Hnp') as (l & Hnd & Hl & Hiter).
  { rewrite (sp_size _ _ _ _ Hsp). lia. }
  unfold split_incoming. rewrite Hiter.
  assert (forall v, v ∈ l -> v < n) as Hlt by (intros v Hv%Hl; by apply (in_set_lt n todo np' Hnp' _ v Hv)).
  destruct (mark_incoming_all l tp fp Hnd Hlt Htpo Hfpo)
    as (tp1 & fp1 & -> & (Hok1 & Hmap1 & Hs1 & Hm1) & (Hfok1 & Hfmap1 & Hfs1 & Hfm1)).
  { intros k T _ _. by eapply unmarked. }
  { intros k T _ _. by eapply unmarked. }
  run_option. cbn [fst snd].
  destruct (refine_plain _ tp1 Hok1) as (tp' & -> & Htp' & Htpo' & Href). run_option.
  destruct (refine_plain _ fp1 Hfok1) as (fp' & -> & Hfp' & Hfpo' & Hfref). run_option.
  exists tp', fp'. split_and!; [done..| | | |].
  - eapply cords_split; try done; [|by intros; eapply unmarked|].
    + intros T HT. by apply (tb_range _ _ _ _ (tk_table _ _ _ _ Hg) T HT).
    + intros k T HT. by rewrite (Hm1 k T HT), Hl.
  - eapply cords_split; try done; [|by intros; eapply unmarked|].
    + intros T HT. by apply (tb_range _ _ _ _ (tk_table_fallback _ _ _ _ Hg) T HT).
    + intros k T HT. by rewrite (Hfm1 k T HT), Hl.
  - apply refined_newer in Href. unfold newer in *. by rewrite Hmap1, Hs1 in Href.
  - apply refined_newer in Hfref. unfold newer in *. by rewrite Hfmap1, Hfs1 in Hfref.
Qed.
End Incoming.

(** ** [refinePartitions] *)

(** What holds between two turns; nodes may be marked. *)
Record graph_ok (n : N) (E EF : list Transition) (g : FullGraphPartition) : Prop := {
  gr_tables : tables_ok n E EF g;
  gr_nodes : partition_ok n (m_nodePartition g);
  gr_wf : partition_wf (N.of_nat (length E)) [] (m_transitionPartition g);
  gr_ok : partition_ok (N.of_nat (length E)) (m_transitionPartition g);
  gr_fwf : partition_wf (N.of_nat (length EF)) [] (m_fallbackTransitionPartition g);
  gr_fok : partition_ok (N.of_nat (length EF)) (m_fallbackTransitionPartition g);
  gr_cords : cords (m_elementToSetMap (m_nodePartition g)) (m_transitionPartition g) E;
  gr_fcords : cords (m_elementToSetMap (m_nodePartition g)) (m_fallbackTransitionPartition g) EF
}.

(** A step of the algorithm: from the node partition with its marks to a finer
    one without, the sets of transitions being split along. *)
Record graph_step (n : N) (g g' : FullGraphPartition) : Prop := {
  gt_unmarked : partition_wf n [] (m_nodePartition g');
  gt_refined : refined n (m_nodePartition g) (m_nodePartition g');
  gt_newer : newer (m_transitionPartition g) (m_transitionPartition g');
  gt_fnewer : newer (m_fallbackTransitionPartition g) (m_fallbackTransitionPartition g');
  gt_next : m_nextTransitionSetToProcess g' = m_nextTransitionSetToProcess g
}.

Lemma with_partitions_tables n E EF g np tp fp :
  tables_ok n E EF g -> tables_ok n E EF (with_partitions g np tp fp).
Proof. by intros []. Qed.

Lemma refinePartitions_spec n E EF g : graph_ok n E EF g ->
  exists g', refinePartitions g = Some g' /\ graph_ok n E EF g' /\ graph_step n g g'.
Proof.
  intros [Htab Hnp Hwf Hok Hfwf Hfok Hc Hfc].
  destruct (refineGeneration_rule (split_incoming g) n (fun nm (s : Partition * Partition) =>
      partition_wf (N.of_nat (length E)) [] s.1 /\ partition_ok (N.of_nat (length E)) s.1 /\
      partition_wf (N.of_nat (length EF)) [] s.2 /\ partition_ok (N.of_nat (length EF)) s.2 /\
      cords nm s.1 E /\ cords nm s.2 EF /\
      newer (m_transitionPartition g) s.1 /\ newer (m_fallbackTransitionPartition g) s.2))
    with (p := m_nodePartition g) (s := (m_transitionPartition g, m_fallbackTransitionPartition g))
    as (np' & [tp' fp'] & Hrun & Hnwf & Hnok & (? & ? & ? & ? & ? & ? & ? & ?) & Href).
  - intros todo p p' i [tp fp] Hp Hp' Hsp (? & ? & ? & ? & ? & ? & Ht & Hf).
    destruct (split_incoming_spec n E EF g Htab todo p p' i tp fp)
      as (tp' & fp' & -> & ? & ? & ? & ? & ? & ? & ? & ?); [done..|].
    exists (tp', fp'). split; [done|]. cbn [fst snd] in *.
    split_and!; try done; by eapply newer_trans.
  - done.
  - cbn [fst snd]. split_and!; try done; apply newer_refl.
  - unfold refinePartitions. rewrite Hrun. run_option. eexists. split; [done|]. cbn [fst snd] in *.
    split; [|by split]. split; try done. by apply with_partitions_tables.
Qed.

(** A step keeps what the nodes agree on. *)
Lemma step_stable n E EF g g' next : graph_ok n E EF g' -> graph_step n g g' ->
  next <= partition_size (m_transitionPartition g) ->
  stable n (m_elementToSetMap (m_nodePartition g)) (m_transitionPartition g) E next ->
  stable n (m_elementToSetMap (m_nodePartition g')) (m_transitionPartition g') E next.
Proof.
  intros Hg Hstep Hle. eapply stable_newer; [apply (gr_wf _ _ _ _ Hg)| |apply (gt_newer _ _ _ Hstep)|done].
  apply (refined_finer _ _ _ (gt_refined _ _ _ Hstep)).
Qed.

Lemma step_fstable n E EF g g' next : graph_ok n E EF g' -> graph_step n g g' ->
  next <= partition_size (m_fallbackTransitionPartition g) ->
  stable n (m_elementToSetMap (m_nodePartition g)) (m_fallbackTransitionPartition g) EF next ->
  stable n (m_elementToSetMap (m_nodePartition g')) (m_fallbackTransitionPartition g') EF next.
Proof.
  intros Hg Hstep Hle. eapply stable_newer; [apply (gr_fwf _ _ _ _ Hg)| |apply (gt_fnewer _ _ _ Hstep)|done].
  apply (refined_finer _ _ _ (gt_refined _ _ _ Hstep)).
Qed.

(** ** Processing a set of transitions *)

Section Process.
Context (n : N) (E : list Transition) (starts sizes : list N) (Htb : table_ok n E starts sizes).

(** The sources of the transitions of a set are distinct: it has one character. *)
Lemma sources_distinct nm tp l : cords nm tp E -> NoDup l ->
  (forall k k', k ∈ l -> k' ∈ l -> same tp k k') -> (forall k, k ∈ l -> k < N.of_nat (length E)) ->
  exists sources, mapM (fun k => source <$> E !!N k) l = Some sources /\ NoDup sources /\
    forall s, s ∈ sources <-> exists k T, k ∈ l /\ E !!N k = Some T /\ source T = s.
Proof.
  intros Hcords Hnd Hsame Hlt.
  assert (exists sources, mapM (fun k => source <$> E !!N k) l = Some sources) as [sources Hs].
  { apply mapM_is_Some, Forall_forall. intros k Hk. destruct (lookupN_is_Some E k) as [T HT]; [by apply Hlt|].
    exists (source T). cbv beta. by rewrite HT. }
  exists sources. split; [done|]. apply mapM_Some in Hs. split.
  - apply NoDup_alt. intros a b s Ha Hb.
    destruct (Forall2_lookup_r _ _ _ _ _ Hs Ha) as (k & Hk & (T & HT & ->)%fmap_Some).
    destruct (Forall2_lookup_r _ _ _ _ _ Hs Hb) as (k' & Hk' & (T' & HT' & Heq)%fmap_Some).
    assert (k ∈ l) by by eapply list_elem_of_lookup_2. assert (k' ∈ l) by by eapply list_elem_of_lookup_2.
    destruct (Hcords k k' T T') as [Hc _]; [done|done|by apply Hsame|].
    assert (k = k') as -> by by eapply (tb_deterministic _ _ _ _ Htb).
    by eapply NoDup_lookup.
  - intros s. split.
    + intros [a Ha]%list_elem_of_lookup_1.
      destruct (Forall2_lookup_r _ _ _ _ _ Hs Ha) as (k & Hk & (T & HT & ->)%fmap_Some).
      exists k, T. split_and!; [by eapply list_elem_of_lookup_2|done|done].
    + intros (k & T & [a Ha]%list_elem_of_lookup_1 & HT & <-).
      destruct (Forall2_lookup_l _ _ _ _ _ Hs Ha) as (s & Hs' & Heq). rewrite HT in Heq. simplify_eq/=.
      by eapply list_elem_of_lookup_2.
Qed.

(** After a set is processed the nodes agree on it. *)
Lemma stable_next np0 np np' tp tp' next todo :
  partition_wf (N.of_nat (length E)) todo tp -> cords (m_elementToSetMap np0) tp E ->
  m_elementToSetMap np = m_elementToSetMap np0 ->
  (forall s, s < n -> (marked np s <-> exists k T, in_set tp next k /\ E !!N k = Some T /\ source T = s)) ->
  refined n np np' -> newer tp tp' -> next < partition_size tp ->
  stable n (m_elementToSetMap np') tp' E next ->
  cords (m_elementToSetMap np') tp' E -> partition_wf (N.of_nat (length E)) [] tp' ->
  stable n (m_elementToSetMap np') tp' E (next + 1).
Proof.
  intros Hwf Hcords Hmap Hmarked [Hsame _ _] Hnew Hlt Hst Hcords' Hwf' p q k T i Hp Hq Hpq HT Hsrc Hi Hle.
  assert (marked np p <-> marked np q) as Hmk by (by apply (Hsame p q Hp Hq)).
  rewrite (Hmarked p Hp), (Hmarked q Hq) in Hmk.
  assert (forall x, x < N.of_nat (length E) -> in_set tp next x ->
    exists j, in_set tp' j x /\ (j = next \/ next + 1 <= j)) as Hpieces.
  { intros x Hx Hin. unfold in_set in *. destruct (proj2 Hnew x) as [->|(j & Hj & ?)].
    - exists next. split; [done|by left].
    - exists j. split; [done|lia]. }
  destruct (decide (i = next)) as [->|Hne].
  - assert (in_set tp next k) as Hk by (eapply newer_old; done).
    destruct (proj1 Hmk) as (k' & T' & Hk' & HT' & Hq'); [by exists k, T|].
    destruct (Hpieces k') as (j & Hj & Hor); [by apply lookupN_lt in HT'|done|].
    exists k', T', j. split_and!; try done.
    symmetry. apply (Hcords k k' T T' HT HT'). unfold same, in_set in *. by rewrite Hk, Hk'.
  - destruct (Hst p q k T i) as (k' & T' & i' & HT' & Hq' & Hc & Hi' & Hor); [done..|lia|].
    exists k', T', i'. split_and!; [done..|]. destruct Hor as [?|Hge]; [by left|]. right.
    destruct (decide (i' = next)) as [->|]; [|lia]. exfalso.
    assert (in_set tp next k') as Hk' by (eapply newer_old; done).
    destruct (proj2 Hmk) as (k2 & T2 & Hk2 & HT2 & Hp2); [by exists k', T'|].
    assert (character T2 = character T) as Hc2.
    { rewrite <- Hc. apply (Hcords k2 k' T2 T' HT2 HT'). unfold same, in_set in *. by rewrite Hk2, Hk'. }
    assert (k2 = k) as -> by (eapply (tb_deterministic _ _ _ _ Htb); [done|done|congruence|done]).
    destruct (Hpieces k) as (j & Hj & Hjor); [by apply lookupN_lt in HT|done|].
    unfold in_set in *. simplify_eq. lia.
Qed.
End Process.

Lemma mark_sources n E starts sizes nm np tp todo index :
  table_ok n E starts sizes -> cords nm tp E -> partition_wf n [] np -> partition_ok n np ->
  partition_wf (N.of_nat (length E)) todo tp -> index < partition_size tp ->
  exists np', iterateSet (fun np k => s ← source <$> E !!N k; markElementInCurrentGeneration np s) tp index np = Some np' /\
    partition_ok n np' /\ m_elementToSetMap np' = m_elementToSetMap np /\ partition_size np' = partition_size np /\
    forall s, s < n -> (marked np' s <-> exists k T, in_set tp index k /\ E !!N k = Some T /\ source T = s).
Proof.
  intros Htb Hcords Hnp Hnpo Htp Hindex.
  destruct (iterateSet_spec _ _ tp index Htp Hindex) as (l & Hnd & Hl & ->).
  destruct (sources_distinct n E starts sizes Htb nm tp l) as (sources & Hs & Hsnd & Hin); [done|done| | |].
  { intros k k' Hk%Hl Hk'%Hl. unfold same, in_set in *. congruence. }
  { intros k Hk%Hl. by apply (in_set_lt _ _ _ Htp index). }
  rewrite (foldM_mapM _ _ _ _ _ Hs).
  destruct (mark_elements n sources np) as (np' & -> & Hok' & Hmap & Hsize & Hm); [done|done| |].
  { intros s (k & T & _ & HT & <-)%Hin. split; [|by apply (unmarked n)].
    apply (tb_range _ _ _ _ Htb). by eapply list_elem_of_lookup_2. }
  exists np'. split_and!; [done..|]. intros s Hs'. rewrite Hm, Hin. setoid_rewrite Hl.
  pose proof (unmarked n np s Hnp). tauto.
Qed.

(** ** The loops *)

(** Steps compose. *)
Record graph_le (n : N) (g g' : FullGraphPartition) : Prop := {
  gl_unmarked : partition_wf n [] (m_nodePartition g');
  gl_finer : finer n (m_elementToSetMap (m_nodePartition g)) (m_elementToSetMap (m_nodePartition g'));
  gl_newer : newer (m_transitionPartition g) (m_transitionPartition g');
  gl_fnewer : newer (m_fallbackTransitionPartition g) (m_fallbackTransitionPartition g')
}.

Lemma graph_le_refl n g : partition_wf n [] (m_nodePartition g) -> graph_le n g g.
Proof. intros Hwf. split; [done|apply finer_refl|apply newer_refl|apply newer_refl]. Qed.

Lemma graph_le_trans n g1 g2 g3 : graph_le n g1 g2 -> graph_le n g2 g3 -> graph_le n g1 g3.
Proof. intros [] []. split; [done|by eapply finer_trans|by eapply newer_trans|by eapply newer_trans]. Qed.

Lemma step_le n g g' : graph_step n g g' -> graph_le n g g'.
Proof. intros [? ? ? ? _]. split; [done|by eapply refined_finer|done|done]. Qed.

Lemma fstable_le n E EF g g' next : graph_ok n E EF g' -> graph_le n g g' ->
  next <= partition_size (m_fallbackTransitionPartition g) ->
  stable n (m_elementToSetMap (m_nodePartition g)) (m_fallbackTransitionPartition g) EF next ->
  stable n (m_elementToSetMap (m_nodePartition g')) (m_fallbackTransitionPartition g') EF next.
Proof.
  intros Hg Hle Hn. eapply stable_newer; [apply (gr_fwf _ _ _ _ Hg)|apply (gl_finer _ _ _ Hle)|apply (gl_fnewer _ _ _ Hle)|done].
Qed.

Notation unique_stable n E g :=
  (stable n (m_elementToSetMap (m_nodePartition g)) (m_transitionPartition g) E).
Notation fallback_stable n EF g :=
  (stable n (m_elementToSetMap (m_nodePartition g)) (m_fallbackTransitionPartition g) EF).

Lemma graph_ok_mark n E EF g np : graph_ok n E EF g -> partition_ok n np ->
  m_elementToSetMap np = m_elementToSetMap (m_nodePartition g) ->
  graph_ok n E EF (with_partitions g np (m_transitionPartition g) (m_fallbackTransitionPartition g)).
Proof.
  intros [] Hok Hmap. split; cbn; rewrite ?Hmap; try done. by apply with_partitions_tables.
Qed.

Lemma graph_le_mark n g np g' : m_elementToSetMap np = m_elementToSetMap (m_nodePartition g) ->
  graph_le n (with_partitions g np (m_transitionPartition g) (m_fallbackTransitionPartition g)) g' -> graph_le n g g'.
Proof. intros Hmap [? Hf ? ?]. split; try done. cbn in Hf. by rewrite Hmap in Hf. Qed.

Lemma split_by_transition_set_spec n E EF g next :
  graph_ok n E EF g -> partition_wf n [] (m_nodePartition g) ->
  next < partition_size (m_transitionPartition g) -> unique_stable n E g next ->
  exists g', split_by_transition_set g next = Some g' /\ graph_ok n E EF g' /\ graph_le n g g' /\
    m_nextTransitionSetToProcess g' = m_nextTransitionSetToProcess g /\ unique_stable n E g' (next + 1).
Proof.
  intros Hg Hwf Hnext Hst. pose proof (tk_table _ _ _ _ (gr_tables _ _ _ _ Hg)) as Htb.
  destruct (mark_sources n E _ _ _ _ _ _ next Htb (gr_cords _ _ _ _ Hg) Hwf (gr_nodes _ _ _ _ Hg) (gr_wf _ _ _ _ Hg) Hnext)
    as (np & Hrun & Hok & Hmap & Hsize & Hm).
  pose proof (graph_ok_mark n E EF g np Hg Hok Hmap) as Hg1.
  destruct (refinePartitions_spec n E EF _ Hg1) as (g' & Href & Hg' & Hstep).
  exists g'. split_and!; [|done|by eapply graph_le_mark, step_le|apply (gt_next _ _ _ Hstep)|].
  - unfold split_by_transition_set. rewrite (tk_flat _ _ _ _ (gr_tables _ _ _ _ Hg)).
    assert (iterateSet (fun np k => transition ← E !!N k; markElementInCurrentGeneration np (source transition))
      (m_transitionPartition g) next (m_nodePartition g) = Some np) as ->; [|by run_option].
    rewrite <- Hrun. unfold iterateSet. destruct (m_sets _ !!N next) as [d|]; [|done]. run_option.
    apply foldM_ext. intros s k _. destruct (m_partitionedElements _ !!N k) as [x|]; [|done]. run_option.
    by destruct (E !!N x).
  - eapply (stable_next n E _ _ Htb (m_nodePartition g) np (m_nodePartition g') (m_transitionPartition g)); try done.
    + apply (gr_wf _ _ _ _ Hg).
    + apply (gr_cords _ _ _ _ Hg).
    + apply (gt_refined _ _ _ Hstep).
    + apply (gt_newer _ _ _ Hstep).
    + eapply step_stable; [done|done|cbn; lia|]. cbn. by rewrite Hmap.
    + apply (gr_cords _ _ _ _ Hg').
    + apply (gr_wf _ _ _ _ Hg').
Qed.

Lemma split_by_fallback_set_spec n E EF g next :
  graph_ok n E EF g -> partition_wf n [] (m_nodePartition g) ->
  next < partition_size (m_fallbackTransitionPartition g) -> fallback_stable n EF g next ->
  exists g', split_by_fallback_set g next = Some g' /\ graph_ok n E EF g' /\ graph_le n g g' /\
    m_nextTransitionSetToProcess g' = m_nextTransitionSetToProcess g /\ fallback_stable n EF g' (next + 1).
Proof.
  intros Hg Hwf Hnext Hst. pose proof (tk_table_fallback _ _ _ _ (gr_tables _ _ _ _ Hg)) as Htb.
  destruct (mark_sources n EF _ _ _ _ _ _ next Htb (gr_fcords _ _ _ _ Hg) Hwf (gr_nodes _ _ _ _ Hg) (gr_fwf _ _ _ _ Hg) Hnext)
    as (np & Hrun & Hok & Hmap & Hsize & Hm).
  pose proof (graph_ok_mark n E EF g np Hg Hok Hmap) as Hg1.
  destruct (refinePartitions_spec n E EF _ Hg1) as (g' & Href & Hg' & Hstep).
  exists g'. split_and!; [|done|by eapply graph_le_mark, step_le|apply (gt_next _ _ _ Hstep)|].
  - unfold split_by_fallback_set. rewrite (tk_fallback _ _ _ _ (gr_tables _ _ _ _ Hg)).
    assert (iterateSet (fun np k => s ← (source <$> EF) !!N k; markElementInCurrentGeneration np s)
      (m_fallbackTransitionPartition g) next (m_nodePartition g) = Some np) as ->; [|by run_option].
    rewrite <- Hrun. unfold iterateSet. destruct (m_sets _ !!N next) as [d|]; [|done]. run_option.
    apply foldM_ext. intros s k _. destruct (m_partitionedElements _ !!N k) as [x|]; [|done]. run_option.
    by rewrite list_lookup_fmap.
  - eapply (stable_next n EF _ _ Htb (m_nodePartition g) np (m_nodePartition g') (m_fallbackTransitionPartition g)); try done.
    + apply (gr_fwf _ _ _ _ Hg).
    + apply (gr_fcords _ _ _ _ Hg).
    + apply (gt_refined _ _ _ Hstep).
    + apply (gt_fnewer _ _ _ Hstep).
    + eapply step_fstable; [done|done|cbn; lia|]. cbn. by rewrite Hmap.
    + apply (gr_fcords _ _ _ _ Hg').
    + apply (gr_fwf _ _ _ _ Hg').
Qed.

Lemma with_next_ok n E EF g next : graph_ok n E EF g -> graph_ok n E EF (with_next g next).
Proof. intros [[] ? ? ? ? ? ? ?]. by split. Qed.

(** [splitByUniqueTransitions] ends: there are at most as many sets as transitions. *)
Lemma splitByUniqueTransitions_spec n E EF fuel g :
  graph_ok n E EF g -> partition_wf n [] (m_nodePartition g) ->
  let next := m_nextTransitionSetToProcess g in
  next <= partition_size (m_transitionPartition g) -> unique_stable n E g next ->
  (length E < N.to_nat next + fuel)%nat ->
  exists g', splitByUniqueTransitions fuel g = Some g' /\ graph_ok n E EF g' /\ graph_le n g g' /\
    m_nextTransitionSetToProcess g' = partition_size (m_transitionPartition g') /\
    unique_stable n E g' (partition_size (m_transitionPartition g')).
Proof.
  revert g. induction fuel as [|fuel IH]; intros g Hg Hwf next Hle Hst Hfuel.
  { pose proof (partition_size_le _ _ _ (gr_wf _ _ _ _ Hg)). lia. }
  cbn [splitByUniqueTransitions]. fold next. destruct (next <? _) eqn:Hlt; breflect.
  - destruct (split_by_transition_set_spec n E EF g next) as (g1 & -> & Hg1 & Hle1 & Hnext1 & Hst1); [done..|].
    run_option. fold next in Hnext1. destruct (gl_newer _ _ _ Hle1) as [Hsize _].
    destruct (IH (with_next g1 (m_nextTransitionSetToProcess g1 + 1))) as (g' & Hrun & Hg' & Hle' & ? & ?).
    + by apply with_next_ok.
    + apply (gl_unmarked _ _ _ Hle1).
    + cbn. lia.
    + cbn. by rewrite Hnext1.
    + cbn. lia.
    + exists g'. split_and!; [done|done| |done|done]. eapply graph_le_trans; [done|]. by destruct Hle'.
  - exists g. replace (partition_size (m_transitionPartition g)) with next by lia.
    split_and!; [done|done|by apply graph_le_refl|done|done].
Qed.

Lemma splitByFallbackTransitions_spec n E EF fuel uniqueFuel index g :
  graph_ok n E EF g -> partition_wf n [] (m_nodePartition g) ->
  m_nextTransitionSetToProcess g = partition_size (m_transitionPartition g) ->
  unique_stable n E g (m_nextTransitionSetToProcess g) ->
  index <= partition_size (m_fallbackTransitionPartition g) -> fallback_stable n EF g index ->
  (length E < uniqueFuel)%nat -> (length EF < N.to_nat index + fuel)%nat ->
  exists g', splitByFallbackTransitions fuel uniqueFuel index g = Some g' /\ graph_ok n E EF g' /\ graph_le n g g' /\
    unique_stable n E g' (partition_size (m_transitionPartition g')) /\
    fallback_stable n EF g' (partition_size (m_fallbackTransitionPartition g')).
Proof.
  revert index g. induction fuel as [|fuel IH]; intros index g Hg Hwf Hnext Hst Hle Hfst Hufuel Hfuel.
  { pose proof (partition_size_le _ _ _ (gr_fwf _ _ _ _ Hg)). lia. }
  cbn [splitByFallbackTransitions]. destruct (index <? _) eqn:Hlt; breflect.
  - destruct (split_by_fallback_set_spec n E EF g index) as (g1 & -> & Hg1 & Hle1 & Hnext1 & Hfst1); [done..|].
    run_option. destruct (gl_newer _ _ _ Hle1) as [Hsize _]. destruct (gl_fnewer _ _ _ Hle1) as [Hfsize _].
    destruct (splitByUniqueTransitions_spec n E EF uniqueFuel g1) as (g2 & -> & Hg2 & Hle2 & Hnext2 & Hst2).
    { done. } { apply (gl_unmarked _ _ _ Hle1). } { lia. }
    { rewrite Hnext1. eapply stable_newer; [apply (gr_wf _ _ _ _ Hg1)|apply (gl_finer _ _ _ Hle1)|
        apply (gl_newer _ _ _ Hle1)|lia|done]. }
    { lia. }
    run_option. destruct (gl_fnewer _ _ _ Hle2) as [Hfsize2 _].
    destruct (IH (index + 1) g2) as (g' & -> & Hg' & Hle' & ? & ?); try done.
    { apply (gl_unmarked _ _ _ Hle2). } { by rewrite Hnext2. } { lia. }
    { eapply fstable_le; [done|done|lia|done]. } { lia. }
    exists g'. split_and!; try done. eapply graph_le_trans; [done|]. by eapply graph_le_trans.
  - exists g. replace (partition_size (m_fallbackTransitionPartition g)) with index by lia.
    rewrite <- Hnext. split_and!; [done|done|by apply graph_le_refl|done|done].
Qed.

(** ** The final states *)

(** The nodes of the list are separated from the others. *)
Definition separated (n : N) (nm : list N) (slot : list N) : Prop :=
  forall p q, p < n -> q < n -> nm !!N p = nm !!N q -> (p ∈ slot <-> q ∈ slot).

Lemma separated_finer n nm nm' slot : finer n nm nm' -> separated n nm slot -> separated n nm' slot.
Proof. intros Hf Hs p q Hp Hq Hpq. apply Hs; [done..|]. by apply Hf. Qed.

Lemma foldM_markNode g slot np np' :
  foldM markElementInCurrentGeneration np slot = Some np' ->
  foldM markNode (with_partitions g np (m_transitionPartition g) (m_fallbackTransitionPartition g)) slot =
  Some (with_partitions g np' (m_transitionPartition g) (m_fallbackTransitionPartition g)).
Proof.
  revert np. induction slot as [|s slot IH]; intros np; cbn [foldM]; [by intros [= ->]|].
  destruct (markElementInCurrentGeneration np s) as [np1|] eqn:E; [|done]. run_option. intros Hrun.
  assert (forall g', m_nodePartition g' = np -> markNode g' s =
    Some (with_partitions g' np1 (m_transitionPartition g') (m_fallbackTransitionPartition g'))) as ->; [| |done].
  { intros g' <-. unfold markNode. by rewrite E. }
  run_option. by apply IH.
Qed.

Lemma markNodes_spec n E EF g slot : graph_ok n E EF g -> partition_wf n [] (m_nodePartition g) ->
  NoDup slot -> (forall s, s ∈ slot -> s < n) ->
  exists g', foldM markNode g slot = Some g' /\ graph_ok n E EF g' /\
    m_elementToSetMap (m_nodePartition g') = m_elementToSetMap (m_nodePartition g) /\
    m_transitionPartition g' = m_transitionPartition g /\
    m_fallbackTransitionPartition g' = m_fallbackTransitionPartition g /\
    m_nextTransitionSetToProcess g' = m_nextTransitionSetToProcess g /\
    forall s, marked (m_nodePartition g') s <-> s ∈ slot.
Proof.
  intros Hg Hwf Hnd Hslot.
  destruct (mark_elements n slot (m_nodePartition g)) as (np & Hrun & Hok & Hmap & Hsize & Hm).
  { apply (gr_nodes _ _ _ _ Hg). } { done. }
  { intros s Hs. split; [by apply Hslot|by eapply unmarked]. }
  exists (with_partitions g np (m_transitionPartition g) (m_fallbackTransitionPartition g)).
  split_and!; try done.
  - apply (foldM_markNode g) in Hrun. by destruct g.
  - by apply graph_ok_mark.
  - intros s. cbn. rewrite Hm. pose proof (unmarked n _ s Hwf). tauto.
Qed.

Lemma split_slots_spec n E EF (slots : list (ActionKey * list N)) g :
  graph_ok n E EF g -> partition_wf n [] (m_nodePartition g) ->
  (forall key slot, (key, slot) ∈ slots -> NoDup slot /\ forall s, s ∈ slot -> s < n) ->
  exists g', foldM (fun g (slot : ActionKey * list N) => g' ← foldM markNode g slot.2; refinePartitions g') g slots = Some g' /\
    graph_ok n E EF g' /\ graph_le n g g' /\
    m_nextTransitionSetToProcess g' = m_nextTransitionSetToProcess g /\
    forall key slot, (key, slot) ∈ slots -> separated n (m_elementToSetMap (m_nodePartition g')) slot.
Proof.
  revert g. induction slots as [|[key slot] slots IH]; intros g Hg Hwf Hslots; cbn [foldM].
  - exists g. split_and!; [done|done|by apply graph_le_refl|done|]. by intros ? ? ?%elem_of_nil.
  - destruct (Hslots key slot) as [Hnd Hlt]; [by left|].
    cbn [snd]. destruct (markNodes_spec n E EF g slot Hg Hwf Hnd Hlt) as (g1 & -> & Hg1 & Hmap & Htp & Hfp & Hnx & Hm). run_option.
    destruct (refinePartitions_spec n E EF g1 Hg1) as (g2 & -> & Hg2 & Hstep). run_option.
    assert (graph_le n g g2) as Hle2.
    { apply step_le in Hstep as [? Hf ? ?]. rewrite Hmap, Htp, Hfp in *. by split. }
    destruct (IH g2 Hg2) as (g' & -> & Hg' & Hle & Hnx' & Hsep).
    { apply (gl_unmarked _ _ _ Hle2). } { intros k s Hin. apply (Hslots k s). by right. }
    exists g'. split_and!; [done|done|by eapply graph_le_trans| |].
    + rewrite Hnx', (gt_next _ _ _ Hstep). done.
    + intros k s [[= -> ->]|Hin]%elem_of_cons; [|by eapply Hsep].
      eapply separated_finer; [apply (gl_finer _ _ _ Hle)|]. intros p q Hp Hq Hpq.
      rewrite <- !Hm. apply (rf_same _ _ _ (gt_refined _ _ _ Hstep) p q Hp Hq). done.
Qed.
