(* ===== verification/MinimizerPartition.v ===== *)
(** * The partition of the nodes that [DFAMinimizer::minimize] computes

    The constructor of [FullGraphPartition] groups the transitions of the automaton
    by their targets with a counting sort; the result is the stable sort of the
    list of transitions.  When the refinement ends, the nodes of a set have the
    same actions, the same transitions up to the sets of their targets, and the
    same fallback up to the set of its target. *)

From S2P Require Import Prelude HashTable DFA DFAViews Partition DFAMinimizer Refinement.

(** ** The counting sort *)

Definition to_node (v : N) (l : list Transition) : list Transition := filter (fun T => target T = v) l.

Definition incoming (v : N) (l : list Transition) : N := N.of_nat (length (to_node v l)).

(** How many transitions lead to a node before [v]. *)
Definition before (v : N) (l : list Transition) : N :=
  N.of_nat (length (filter (fun T => target T < v) l)).

Definition sorted_to (m : N) (l : list Transition) : list Transition := for_range 0 m ≫= fun v => to_node v l.

Lemma incoming_le v l : incoming v l <= N.of_nat (length l).
Proof. unfold incoming, to_node. pose proof (length_filter (fun T => target T = v) l). lia. Qed.

Lemma incoming_cons v T l : incoming v (T :: l) = incoming v l + (if decide (target T = v) then 1 else 0).
Proof. unfold incoming, to_node. rewrite filter_cons. case_decide; simpl; lia. Qed.

Lemma incoming_snoc v T l : incoming v (l ++ [T]) = incoming v l + (if decide (target T = v) then 1 else 0).
Proof.
  unfold incoming, to_node. rewrite filter_app, length_app, filter_cons, filter_nil. case_decide; simpl; lia.
Qed.

Lemma incoming_app v l l' : incoming v (l ++ l') = incoming v l + incoming v l'.
Proof. unfold incoming, to_node. rewrite filter_app, length_app. lia. Qed.

Lemma before_0 l : before 0 l = 0.
Proof.
  unfold before. induction l as [|T l IH]; [done|]. rewrite filter_cons. rewrite decide_False by lia. done.
Qed.

Lemma before_succ v l : before (v + 1) l = before v l + incoming v l.
Proof.
  unfold before, incoming, to_node. induction l as [|T l IH]; [done|]. rewrite !filter_cons.
  repeat case_decide; simpl; lia.
Qed.

Lemma before_all n l : (forall T, T ∈ l -> target T < n) -> before n l = N.of_nat (length l).
Proof.
  unfold before. induction l as [|T l IH]; intros Hl; [done|]. rewrite filter_cons, decide_True by (apply Hl; by left).
  simpl. rewrite Nat2N.inj_succ, IH; [lia|]. intros T' ?. apply Hl. by right.
Qed.

Lemma before_mono v w l : v < w -> before v l + incoming v l <= before w l.
Proof.
  intros Hvw. rewrite <- before_succ. unfold before.
  induction l as [|T l IH]; [done|]. rewrite !filter_cons. repeat case_decide; simpl; lia.
Qed.

Lemma sorted_to_succ m l : sorted_to (m + 1) l = sorted_to m l ++ to_node m l.
Proof. unfold sorted_to. rewrite for_range_snoc by lia. rewrite bind_app. simpl. by rewrite app_nil_r. Qed.

Lemma length_sorted_to m l : N.of_nat (length (sorted_to m l)) = before m l.
Proof.
  induction m as [|m IH] using N.peano_ind; [by rewrite before_0|].
  rewrite <- N.add_1_r, sorted_to_succ, length_app, before_succ, <- IH. unfold incoming. lia.
Qed.

(** The group of [v]. *)
Lemma lookup_sorted_to m l v j : v < m -> j < incoming v l ->
  sorted_to m l !!N (before v l + j) = to_node v l !!N j.
Proof.
  induction m as [|m IH] using N.peano_ind; [lia|]. intros Hv Hj.
  rewrite <- N.add_1_r, sorted_to_succ. pose proof (length_sorted_to m l) as Hlen.
  destruct (decide (v = m)) as [->|].
  - rewrite lookup_app_r by lia. f_equal. lia.
  - pose proof (before_mono v m l). rewrite lookup_app_l by lia. apply IH; lia.
Qed.

(** Every position is in a group. *)
Lemma position_group m l k : k < before m l -> exists v j, v < m /\ j < incoming v l /\ k = before v l + j.
Proof.
  induction m as [|m IH] using N.peano_ind; [rewrite before_0; lia|]. rewrite <- N.add_1_r, before_succ. intros Hk.
  destruct (N.lt_ge_cases k (before m l)) as [Hlt|Hge].
  - destruct (IH Hlt) as (v & j & ? & ? & ?). exists v, j. lia.
  - exists m, (k - before m l). lia.
Qed.

Lemma elem_of_sorted_to m l T : T ∈ sorted_to m l <-> T ∈ l /\ target T < m.
Proof.
  unfold sorted_to, to_node. rewrite list_elem_of_bind. split.
  - intros (v & [<- ?]%list_elem_of_filter & ?%elem_of_for_range). split; [done|lia].
  - intros [? ?]. exists (target T). rewrite list_elem_of_filter, elem_of_for_range. split; [done|lia].
Qed.

Lemma to_node_target v l j T : to_node v l !!N j = Some T -> target T = v /\ T ∈ l.
Proof. intros H%list_elem_of_lookup_2. by apply list_elem_of_filter in H. Qed.

(** ** Counting *)

Lemma increment_spec counters v c : counters !!N v = Some c -> c + 1 < 2 ^ 32 ->
  increment counters v = Some (<[v :=N c + 1]> counters).
Proof.
  intros Hc Hlt. unfold increment. rewrite Hc. run_option. rewrite wrap32_id by lia.
  apply vec_set_Some. split; [by apply lookup_lt_Some in Hc|done].
Qed.

Lemma count_all n l counters : (forall T, T ∈ l -> target T < n) ->
  length counters = N.to_nat n ->
  (forall v c, counters !!N v = Some c -> c + incoming v l < 2 ^ 32) ->
  exists counters', foldM increment counters (target <$> l) = Some counters' /\ length counters' = N.to_nat n /\
    forall v, counters' !!N v = (fun c => c + incoming v l) <$> counters !!N v.
Proof.
  revert counters. induction l as [|T l IH]; intros counters Hl Hlen Hbound; cbn [foldM fmap list_fmap].
  - exists counters. split_and!; [done..|]. intros v. destruct (counters !!N v); simpl; [|done]. f_equal. change (incoming v []) with 0. lia.
  - destruct (lookupN_is_Some counters (target T)) as [c Hc]; [rewrite Hlen; assert (target T < n) by (apply Hl; by left); lia|].
    pose proof (Hbound _ _ Hc) as Hb. rewrite incoming_cons, decide_True in Hb by done.
    rewrite (increment_spec _ _ c) by (done || lia). run_option.
    assert (forall v, <[target T :=N c + 1]> counters !!N v =
      (fun c => c + (if decide (target T = v) then 1 else 0)) <$> counters !!N v) as Hins.
    { intros v. case_decide as Hv.
      - subst. rewrite Hc, list_lookup_insert_eq; [done|]. by apply lookup_lt_Some in Hc.
      - rewrite list_lookup_insert_ne by lia. destruct (counters !!N v); simpl; [|done]. f_equal. lia. }
    destruct (IH (<[target T :=N c + 1]> counters)) as (counters' & -> & Hlen' & Hspec).
    + intros T' ?. apply Hl. by right.
    + by rewrite length_insert.
    + intros v c'. rewrite Hins. intros (c0 & Hc0 & ->)%fmap_Some. pose proof (Hbound _ _ Hc0) as Hb0.
      rewrite incoming_cons in Hb0. lia.
    + exists counters'. split_and!; [done..|]. intros v. rewrite Hspec, Hins. rewrite incoming_cons.
      destruct (counters !!N v); simpl; [|done]. f_equal. lia.
Qed.

(** ** Offsets *)

Lemma accumulate_spec n l counters : (forall T, T ∈ l -> target T < n) -> N.of_nat (length l) < 2 ^ 32 ->
  length counters = N.to_nat n -> (forall v, v < n -> counters !!N v = Some (incoming v l)) ->
  exists offsets, accumulate_offsets counters = Some (offsets, N.of_nat (length l)) /\ length offsets = N.to_nat n /\
    forall v, v < n -> offsets !!N v = Some (before v l).
Proof.
  intros Hl Hbound Hlen Hcount. unfold accumulate_offsets. rewrite Hlen, N2Nat.id.
  assert (forall m, m <= n -> exists offsets,
    foldM (fun (state : list N * N) i =>
      count ← state.1 !!N i; offsets ← vec_set state.1 i state.2; Some (offsets, wrap32 (state.2 + count)))
      (counters, 0) (for_range 0 m) = Some (offsets, before m l) /\ length offsets = N.to_nat n /\
    forall v, v < n -> offsets !!N v = Some (if decide (v < m) then before v l else incoming v l)) as Hloop.
  { intros m. induction m as [|m IH] using N.peano_ind; intros Hm.
    - exists counters. rewrite before_0. split_and!; [done..|]. intros v Hv. rewrite decide_False by lia. by apply Hcount.
    - rewrite <- N.add_1_r in *. destruct IH as (offsets & Hrun & Hlo & Ho); [lia|].
      rewrite for_range_snoc by lia. rewrite foldM_app, Hrun. run_option. cbn [foldM fst snd].
      rewrite Ho, decide_False by lia. run_option.
      rewrite (proj2 (vec_set_Some offsets m _ _)) by (split; [lia|done]). run_option.
      assert (before (m + 1) l <= N.of_nat (length l)).
      { unfold before. pose proof (length_filter (fun T => target T < m + 1) l). lia. }
      rewrite before_succ in *. rewrite wrap32_id by lia.
      exists (<[m :=N before m l]> offsets). split_and!; [done|by rewrite length_insert|]. intros v Hv.
      destruct (decide (v = m)) as [->|].
      + rewrite list_lookup_insert_eq by lia. by rewrite decide_True by lia.
      + rewrite list_lookup_insert_ne by lia. rewrite Ho by done. repeat case_decide; (done || lia). }
  destruct (Hloop n) as (offsets & Hrun & Hlo & Ho); [lia|]. exists offsets.
  rewrite (before_all n l Hl) in Hrun. split_and!; [done..|]. intros v Hv. rewrite Ho by done. by rewrite decide_True.
Qed.

(** ** Placing *)

Section Place.
Context {A : Type} (value : Transition -> A) (n : N) (l : list Transition).
Context (Hl : forall T, T ∈ l -> target T < n) (Hbound : N.of_nat (length l) < 2 ^ 32).
Context (offsets : list N) (Hoffsets : forall v, v < n -> offsets !!N v = Some (before v l)).

Record placed (done : list Transition) (table : list A * list N) : Prop := {
  pl_length : length table.1 = length l;
  pl_sizes_length : length table.2 = N.to_nat n;
  pl_sizes : forall v, v < n -> table.2 !!N v = Some (incoming v done);
  pl_values : forall v j, v < n -> j < incoming v done ->
    table.1 !!N (before v l + j) = value <$> to_node v done !!N j
}.

Lemma slot_bound v j : v < n -> j < incoming v l -> before v l + j < N.of_nat (length l).
Proof. intros Hv Hj. pose proof (before_mono v n l Hv). rewrite (before_all n l Hl) in *. lia. Qed.

Lemma place_step done T todo table : l = done ++ T :: todo -> placed done table ->
  exists table', place offsets table (target T) (value T) = Some table' /\ placed (done ++ [T]) table'.
Proof.
  intros Hsplit [Hlen Hslen Hsizes Hvalues]. assert (target T < n) as Hv by (apply Hl; subst l; set_solver).
  assert (forall v, incoming v done + (if decide (target T = v) then 1 else 0) <= incoming v l) as Hle.
  { intros v. rewrite Hsplit, incoming_app, incoming_cons. lia. }
  pose proof (Hle (target T)) as Hlev. rewrite decide_True in Hlev by done.
  pose proof (slot_bound (target T) (incoming (target T) done) Hv) as Hslot.
  pose proof (incoming_le (target T) l).
  destruct table as [values sizes]. cbn [fst snd] in *. unfold place. rewrite (Hoffsets _ Hv). run_option. cbn [fst snd].
  rewrite (Hsizes _ Hv). run_option. rewrite wrap32_id by lia.
  rewrite (proj2 (vec_set_Some values _ _ _)) by (split; [lia|reflexivity]). run_option.
  rewrite (increment_spec _ _ _ (Hsizes _ Hv)) by lia. run_option.
  eexists. split; [reflexivity|]. split; cbn [fst snd].
  - by rewrite length_insert.
  - by rewrite length_insert.
  - intros v Hvn. rewrite incoming_snoc. case_decide as Heq.
    + rewrite <- Heq. rewrite list_lookup_insert_eq by lia. done.
    + rewrite list_lookup_insert_ne by lia. rewrite Hsizes by done. f_equal. lia.
  - intros v j Hvn Hj. rewrite incoming_snoc in Hj. unfold to_node. rewrite filter_app. fold (to_node v done).
    destruct (decide (target T = v /\ j = incoming v done)) as [[<- ->]|Hne].
    + rewrite list_lookup_insert_eq by lia. rewrite lookup_app_r by (unfold incoming; lia).
      unfold incoming at 1. rewrite Nat2N.id, Nat.sub_diag, filter_cons, decide_True by done. done.
    + assert (j < incoming v done) as Hj' by (case_decide; [|lia]; subst; naive_solver lia).
      rewrite lookup_app_l by (unfold incoming in Hj'; lia). rewrite list_lookup_insert_ne; [by apply Hvalues|].
      pose proof (Hle v) as Hlv. destruct (decide (target T = v)) as [<-|Hne']; [lia|].
      destruct (N.lt_trichotomy (target T) v) as [Hlt|[?|Hlt]]; [|done|];
        pose proof (before_mono _ _ l Hlt); lia.
Qed.

Lemma place_all dflt : exists table,
  foldM (fun table T => place offsets table (target T) (value T)) (replicate (length l) dflt, replicate (N.to_nat n) 0) l = Some table /\
  table.1 = value <$> sorted_to n l /\ length table.2 = N.to_nat n /\
  forall v, v < n -> table.2 !!N v = Some (incoming v l).
Proof.
  assert (forall done todo table, l = done ++ todo -> placed done table ->
    exists table', foldM (fun table T => place offsets table (target T) (value T)) table todo = Some table' /\ placed l table') as Hloop.
  { intros done todo. revert done. induction todo as [|T todo IH]; intros done table Hs Hp; cbn [foldM].
    - exists table. rewrite app_nil_r in Hs. by subst.
    - destruct (place_step done T todo table Hs Hp) as (table1 & -> & Hp1). run_option.
      apply (IH (done ++ [T])); [|done]. by rewrite <- app_assoc. }
  destruct (Hloop [] l (replicate (length l) dflt, replicate (N.to_nat n) 0)) as (table & Hrun & [Hlen Hslen Hsizes Hvalues]); [done| |].
  { split; cbn [fst snd]; [apply length_replicate|apply length_replicate| |].
    - intros v Hv. apply lookup_replicate. split; [done|lia].
    - intros v j _ Hj. unfold incoming, to_node in Hj. simpl in Hj. lia. }
  exists table. split_and!; [done| |done|done].
  apply list_eq. intros k. rewrite list_lookup_fmap. pose proof (length_sorted_to n l) as Hls. rewrite (before_all n l Hl) in Hls.
  destruct (decide (k < length l)%nat) as [Hk|Hk].
  - destruct (position_group n l (N.of_nat k)) as (v & j & Hv & Hj & Heq); [rewrite (before_all n l Hl); lia|].
    rewrite <- (Nat2N.id k), Heq. rewrite Hvalues by done. by rewrite lookup_sorted_to.
  - rewrite !lookup_ge_None_2 by lia. done.
Qed.
End Place.

(** ** The transitions of an automaton *)

Definition node_edges (dfa : DFA) (i : N) : list Transition :=
  match nodes dfa !!N i with
  | Some node => (fun t : N * N => mkTransition i t.2 t.1) <$> default [] (node_transitions node dfa)
  | None => []
  end.

(** A fallback is a transition on a character of its own. *)
Definition fallback_character : N := 128.

Definition node_fallback (dfa : DFA) (i : N) : list Transition :=
  match nodes dfa !!N i with
  | Some node => if hasFallbackTransition node
                 then [mkTransition i (default 0 (fallbackTransitionDestination node dfa)) fallback_character] else []
  | None => []
  end.

Definition node_count (dfa : DFA) : N := N.of_nat (length (nodes dfa)).

Definition edges (dfa : DFA) : list Transition := for_range 0 (node_count dfa) ≫= node_edges dfa.
Definition fallback_edges (dfa : DFA) : list Transition := for_range 0 (node_count dfa) ≫= node_fallback dfa.

(** The targets of the transitions are nodes. *)
Record plain_node (dfa : DFA) (node : DFANode) : Prop := {
  pn_transitions : exists ts, node_transitions node dfa = Some ts /\ NoDup ts.*1 /\
    Forall (fun t => t.1 < 128 /\ t.2 < node_count dfa) ts;
  pn_fallback : hasFallbackTransition node = true ->
    exists t, fallbackTransitionDestination node dfa = Some t /\ t < node_count dfa
}.

Record plain_dfa (dfa : DFA) : Prop := {
  pd_nodes : forall i node, nodes dfa !!N i = Some node -> plain_node dfa node;
  pd_size : 128 * node_count dfa < 2 ^ 32
}.

Lemma foldM_pair_bind {A B X Y} (body : A * B -> N -> option (A * B)) (f : A -> X -> option A) (h : B -> Y -> option B)
    (xs : N -> list X) (ys : N -> list Y) l a b :
  (forall i a b, i ∈ l -> body (a, b) i = (a' ← foldM f a (xs i); b' ← foldM h b (ys i); Some (a', b'))) ->
  foldM body (a, b) l = (a' ← foldM f a (l ≫= xs); b' ← foldM h b (l ≫= ys); Some (a', b')).
Proof.
  intros Hbody. revert a b Hbody. induction l as [|i l IH]; intros a b Hbody; cbn [foldM mbind list_bind]; [done|].
  rewrite Hbody by (by left). rewrite !foldM_app. destruct (foldM f a (xs i)) as [a1|]; [|done]. run_option.
  destruct (foldM h b (ys i)) as [b1|].
  - run_option. apply IH. intros. apply Hbody. by right.
  - run_option. by destruct (foldM f a1 _).
Qed.

Lemma foldM_nodes {B} (f : B -> DFANode -> option B) (l : list DFANode) s :
  foldM f s l = foldM (fun s i => node ← l !!N i; f s node) s (for_range 0 (N.of_nat (length l))).
Proof.
  symmetry. apply foldM_mapM. pose proof (mapM_window [] l []) as Hw. rewrite app_nil_r in Hw. by apply Hw.
Qed.

Section Plain.
Context (dfa : DFA) (Hdfa : plain_dfa dfa).
Notation n := (node_count dfa).

Lemma elem_of_edges T : T ∈ edges dfa <-> exists node ts, nodes dfa !!N source T = Some node /\
  node_transitions node dfa = Some ts /\ (character T, target T) ∈ ts.
Proof.
  unfold edges. rewrite list_elem_of_bind. split.
  - intros (i & HT & _). unfold node_edges in HT. destruct (nodes dfa !!N i) as [node|] eqn:Hn; [|by apply elem_of_nil in HT].
    destruct (pn_transitions _ _ (pd_nodes _ Hdfa i node Hn)) as (ts & Hts & _). rewrite Hts in HT. simpl in HT.
    apply list_elem_of_fmap in HT as ([c t] & -> & Hin). by exists node, ts.
  - intros (node & ts & Hn & Hts & Hin). exists (source T). split.
    + unfold node_edges. rewrite Hn, Hts. simpl. apply list_elem_of_fmap. exists (character T, target T). by destruct T.
    + apply elem_of_for_range. unfold node_count. apply lookupN_lt in Hn. lia.
Qed.

Lemma elem_of_fallback_edges T : T ∈ fallback_edges dfa <-> character T = fallback_character /\
  exists node, nodes dfa !!N source T = Some node /\ hasFallbackTransition node = true /\
    fallbackTransitionDestination node dfa = Some (target T).
Proof.
  unfold fallback_edges. rewrite list_elem_of_bind. split.
  - intros (i & HT & _). unfold node_fallback in HT. destruct (nodes dfa !!N i) as [node|] eqn:Hn; [|by apply elem_of_nil in HT].
    destruct (hasFallbackTransition node) eqn:Hf; [|by apply elem_of_nil in HT].
    destruct (pn_fallback _ _ (pd_nodes _ Hdfa i node Hn) Hf) as (t & Ht & _). rewrite Ht in HT. simpl in HT.
    apply list_elem_of_singleton in HT as ->. split; [done|]. by exists node.
  - intros (Hc & node & Hn & Hf & Ht). exists (source T). split.
    + unfold node_fallback. rewrite Hn, Hf, Ht. simpl. apply list_elem_of_singleton. destruct T. by simpl in *; subst.
    + apply elem_of_for_range. unfold node_count. apply lookupN_lt in Hn. lia.
Qed.

Lemma edges_range T : T ∈ edges dfa -> source T < n /\ target T < n.
Proof.
  rewrite elem_of_edges. intros (node & ts & Hn & Hts & Hin). split; [by apply lookupN_lt in Hn|].
  destruct (pn_transitions _ _ (pd_nodes _ Hdfa _ node Hn)) as (ts' & Hts' & _ & Hall). simplify_eq.
  rewrite Forall_forall in Hall. by apply Hall in Hin as [_ ?].
Qed.

Lemma fallback_edges_range T : T ∈ fallback_edges dfa -> source T < n /\ target T < n.
Proof.
  rewrite elem_of_fallback_edges. intros (_ & node & Hn & Hf & Ht). split; [by apply lookupN_lt in Hn|].
  destruct (pn_fallback _ _ (pd_nodes _ Hdfa _ node Hn) Hf) as (t & ? & ?). by simplify_eq.
Qed.

Lemma edges_character T : T ∈ edges dfa -> character T < 128.
Proof.
  rewrite elem_of_edges. intros (node & ts & Hn & Hts & Hin).
  destruct (pn_transitions _ _ (pd_nodes _ Hdfa _ node Hn)) as (ts' & Hts' & _ & Hall). simplify_eq.
  rewrite Forall_forall in Hall. by apply Hall in Hin as [? _].
Qed.

(** An automaton is deterministic. *)
Lemma edges_deterministic T T' : T ∈ edges dfa -> T' ∈ edges dfa ->
  source T = source T' -> character T = character T' -> T = T'.
Proof.
  rewrite !elem_of_edges. intros (node & ts & Hn & Hts & Hin) (node' & ts' & Hn' & Hts' & Hin') Hs Hc.
  rewrite <- Hs in Hn'. simplify_eq.
  destruct (pn_transitions _ _ (pd_nodes _ Hdfa _ _ Hn)) as (? & ? & Hnd & _). simplify_eq.
  apply (find_transition_elem _ _ _ Hnd) in Hin, Hin'. destruct T, T'. simpl in *. congruence.
Qed.

Lemma fallback_edges_deterministic T T' : T ∈ fallback_edges dfa -> T' ∈ fallback_edges dfa ->
  source T = source T' -> T = T'.
Proof.
  rewrite !elem_of_fallback_edges. intros (Hc & node & Hn & _ & Ht) (Hc' & node' & Hn' & _ & Ht') Hs.
  rewrite <- Hs in Hn'. destruct T, T'. simpl in *. congruence.
Qed.

Lemma node_edges_source i T : T ∈ node_edges dfa i -> source T = i.
Proof.
  unfold node_edges. destruct (nodes dfa !!N i); [|by intros ?%elem_of_nil]. by intros (t & -> & _)%list_elem_of_fmap.
Qed.

Lemma node_fallback_source i T : T ∈ node_fallback dfa i -> source T = i.
Proof.
  unfold node_fallback. destruct (nodes dfa !!N i); [|by intros ?%elem_of_nil].
  destruct (hasFallbackTransition _); [|by intros ?%elem_of_nil]. by intros ->%list_elem_of_singleton.
Qed.

Lemma NoDup_bind_sources (f : N -> list Transition) l :
  NoDup l -> (forall i, NoDup (f i)) -> (forall i T, T ∈ f i -> source T = i) -> NoDup (l ≫= f).
Proof.
  intros Hl Hf Hs. induction Hl as [|i l Hi Hl IH]; cbn [mbind list_bind]; [constructor|].
  apply NoDup_app. split; [done|]. split; [|done]. intros T HT (j & HT' & Hj)%list_elem_of_bind.
  apply Hs in HT, HT'. congruence.
Qed.

Lemma NoDup_edges : NoDup (edges dfa).
Proof.
  apply NoDup_bind_sources; [apply NoDup_for_range| |apply node_edges_source]. intros i. unfold node_edges.
  destruct (nodes dfa !!N i) as [node|] eqn:Hn; [|constructor].
  destruct (pn_transitions _ _ (pd_nodes _ Hdfa i node Hn)) as (ts & -> & Hnd & _). simpl.
  apply NoDup_fmap_2; [|by eapply NoDup_fmap_1]. intros [] [] [=]. by subst.
Qed.

Lemma NoDup_fallback_edges : NoDup (fallback_edges dfa).
Proof.
  apply NoDup_bind_sources; [apply NoDup_for_range| |apply node_fallback_source]. intros i. unfold node_fallback.
  destruct (nodes dfa !!N i); [|constructor]. destruct (hasFallbackTransition _); [apply NoDup_singleton|constructor].
Qed.

Lemma length_bind_le (f : N -> list Transition) m l :
  (forall i, (length (f i) <= m)%nat) -> (length (l ≫= f) <= m * length l)%nat.
Proof. intros Hf. induction l as [|i l IH]; simpl; [lia|]. rewrite length_app, Nat.mul_succ_r. pose proof (Hf i). unfold mbind in IH. lia. Qed.

Lemma edges_bound : N.of_nat (length (edges dfa)) < 2 ^ 32.
Proof.
  pose proof (pd_size _ Hdfa). assert (length (edges dfa) <= 128 * length (for_range 0 n))%nat as Hle.
  { apply length_bind_le. intros i. unfold node_edges. destruct (nodes dfa !!N i) as [node|] eqn:Hn; [|simpl; lia].
    destruct (pn_transitions _ _ (pd_nodes _ Hdfa i node Hn)) as (ts & -> & Hnd & Hall). simpl. rewrite length_fmap.
    assert (length ts.*1 <= length (for_range 0 128))%nat as Hle.
    { apply submseteq_length, NoDup_submseteq; [done|]. intros c ([c' t] & -> & Hin)%list_elem_of_fmap.
      rewrite Forall_forall in Hall. apply Hall in Hin as [? _]. apply elem_of_for_range. simpl in *. lia. }
    rewrite length_fmap, length_for_range in Hle. lia. }
  rewrite length_for_range in Hle. lia.
Qed.

Lemma fallback_edges_bound : N.of_nat (length (fallback_edges dfa)) < 2 ^ 32.
Proof.
  pose proof (pd_size _ Hdfa). assert (length (fallback_edges dfa) <= 1 * length (for_range 0 n))%nat as Hle.
  { apply length_bind_le. intros i. unfold node_fallback. destruct (nodes dfa !!N i); [|simpl; lia].
    destruct (hasFallbackTransition _); simpl; lia. }
  rewrite length_for_range in Hle. lia.
Qed.
End Plain.

(** ** The tables *)

Lemma sorted_table n l offsets sizes :
  N.of_nat (length l) < 2 ^ 32 -> (forall T, T ∈ l -> source T < n /\ target T < n) -> NoDup l ->
  (forall T T', T ∈ l -> T' ∈ l -> source T = source T' -> character T = character T' -> T = T') ->
  (forall v, v < n -> offsets !!N v = Some (before v l)) -> (forall v, v < n -> sizes !!N v = Some (incoming v l)) ->
  table_ok n (sorted_to n l) offsets sizes.
Proof.
  intros Hbound Hrange Hnd Hdet Hoff Hsz. assert (forall T, T ∈ l -> target T < n) as Ht by (intros T HT; by apply Hrange).
  pose proof (length_sorted_to n l) as Hlen. rewrite (before_all n l Ht) in Hlen.
  assert (forall k T, sorted_to n l !!N k = Some T -> exists v j, v < n /\ j < incoming v l /\ k = before v l + j /\
    to_node v l !!N j = Some T /\ target T = v /\ T ∈ l) as Hpos.
  { intros k T HT. destruct (position_group n l k) as (v & j & Hv & Hj & ->).
    - apply lookupN_lt in HT. by rewrite length_sorted_to in HT.
    - rewrite lookup_sorted_to in HT by done. pose proof (to_node_target _ _ _ _ HT) as [? ?]. by exists v, j. }
  split.
  - by rewrite Hlen.
  - intros k k' T T' HT HT' Hs Hc.
    destruct (Hpos k T HT) as (v & j & Hv & Hj & -> & Hl & Hvt & Hin).
    destruct (Hpos k' T' HT') as (v' & j' & Hv' & Hj' & -> & Hl' & Hvt' & Hin').
    assert (T = T') as <- by by apply Hdet. subst v v'. f_equal.
    assert (NoDup (to_node (target T) l)) as Hnd' by by apply NoDup_filter.
    pose proof (NoDup_lookup _ _ _ _ Hnd' Hl Hl'). lia.
  - intros T (HT & _)%elem_of_sorted_to. by apply Hrange.
  - intros v Hv. exists (before v l), (incoming v l). split_and!; [by apply Hoff|by apply Hsz| |].
    + rewrite Hlen. pose proof (before_mono v n l Hv). rewrite (before_all n l Ht) in *. done.
    + intros k T HT. destruct (Hpos k T HT) as (w & j & Hw & Hj & -> & _ & <- & _). split.
      * intros <-. lia.
      * intros Hk. destruct (N.lt_trichotomy (target T) v) as [Hlt|[?|Hlt]]; [|done|];
          pose proof (before_mono _ _ l Hlt); lia.
Qed.

(** ** The sets of the characters *)

Lemma foldM_marked_only {A B} (body : B -> A -> option B) (P : A -> bool) l s :
  foldM (fun s a => if P a then body s a else Some s) s l = foldM body s (filter (fun a => P a = true) l).
Proof.
  revert s. induction l as [|a l IH]; intros s; cbn [foldM]; [done|]. rewrite filter_cons.
  destruct (P a) eqn:E; case_decide; try done; run_option.
  - cbn [foldM]. destruct (body s a); [|done]. run_option. apply IH.
  - apply IH.
Qed.

Lemma split_character_spec E p i :
  partition_wf (N.of_nat (length E)) [] p -> partition_ok (N.of_nat (length E)) p ->
  exists p', split_character E p i = Some p' /\ partition_wf (N.of_nat (length E)) [] p' /\
    partition_ok (N.of_nat (length E)) p' /\
    forall k k' T T', E !!N k = Some T -> E !!N k' = Some T' -> same p' k k' ->
      same p k k' /\ (character T = i <-> character T' = i).
Proof.
  intros Hwf Hok. set (m := N.of_nat (length E)) in *.
  set (on_i := fun k => match E !!N k with Some T => character T =? i | None => false end).
  assert (foldM (fun p transitionIndex => transition ← E !!N transitionIndex;
      if character transition =? i then markElementInCurrentGeneration p transitionIndex else Some p) p (for_range 0 m) =
    foldM markElementInCurrentGeneration p (filter (fun k => on_i k = true) (for_range 0 m))) as Heq.
  { rewrite <- foldM_marked_only. apply foldM_ext. intros s k Hk%elem_of_for_range. unfold on_i.
    destruct (lookupN_is_Some E k) as [T ->]; [lia|]. done. }
  destruct (mark_elements m (filter (fun k => on_i k = true) (for_range 0 m)) p Hok) as (p1 & Hrun & Hok1 & Hmap & _ & Hm).
  { apply NoDup_filter, NoDup_for_range. }
  { intros k [_ Hk%elem_of_for_range]%list_elem_of_filter. split; [lia|by eapply unmarked]. }
  destruct (refine_plain m p1 Hok1) as (p' & Href & Hwf' & Hok' & [Hsame _ _]).
  exists p'. split_and!; [|done|done|].
  - unfold split_character. fold m. by rewrite Heq, Hrun; run_option; rewrite Href.
  - intros k k' T T' HT HT' Hkk. pose proof (lookupN_lt _ _ _ HT). pose proof (lookupN_lt _ _ _ HT').
    apply (Hsame k k') in Hkk as [Hkk Hmk]; [|done..]. split; [unfold same in *; by rewrite Hmap in Hkk|].
    rewrite !Hm, !list_elem_of_filter, !elem_of_for_range in Hmk. unfold on_i in Hmk. rewrite HT, HT', !N.eqb_eq in Hmk.
    pose proof (unmarked m p k Hwf). pose proof (unmarked m p k' Hwf). assert (0 <= k < m) by lia. assert (0 <= k' < m) by lia. tauto.
Qed.

Lemma split_characters E p :
  partition_wf (N.of_nat (length E)) [] p -> partition_ok (N.of_nat (length E)) p ->
  exists p', foldM (split_character E) p (for_range 0 128) = Some p' /\ partition_wf (N.of_nat (length E)) [] p' /\
    partition_ok (N.of_nat (length E)) p' /\
    forall k k' T T', E !!N k = Some T -> E !!N k' = Some T' -> same p' k k' ->
      character T < 128 -> character T = character T'.
Proof.
  intros Hwf Hok. assert (forall b, exists p', foldM (split_character E) p (for_range 0 b) = Some p' /\
    partition_wf (N.of_nat (length E)) [] p' /\ partition_ok (N.of_nat (length E)) p' /\
    forall k k' T T', E !!N k = Some T -> E !!N k' = Some T' -> same p' k k' ->
      character T < b -> character T = character T') as Hloop; [|by apply Hloop].
  intros b. induction b as [|b IH] using N.peano_ind.
  - exists p. split_and!; [done..|]. lia.
  - rewrite <- N.add_1_r, for_range_snoc by lia. destruct IH as (p1 & Hrun & Hwf1 & Hok1 & Hc).
    rewrite foldM_app, Hrun. run_option. cbn [foldM].
    destruct (split_character_spec E p1 b Hwf1 Hok1) as (p' & -> & Hwf' & Hok' & Hs). run_option.
    exists p'. split_and!; [done..|]. intros k k' T T' HT HT' Hkk Hlt.
    destruct (Hs k k' T T' HT HT' Hkk) as [Hkk1 Hb]. destruct (decide (character T = b)) as [E1|E1].
    + rewrite E1. symmetry. tauto.
    + apply (Hc k k' T T'); [done..|lia].
Qed.

(** ** The constructor *)

Section Constructor.
Context (dfa : DFA) (Hdfa : plain_dfa dfa).
Notation n := (node_count dfa).
Notation E := (sorted_to n (edges dfa)).
Notation EF := (sorted_to n (fallback_edges dfa)).

Lemma count_incoming_loop a b :
  foldM (count_incoming dfa) (a, b) (nodes dfa) =
  (a' ← foldM increment a (target <$> edges dfa); b' ← foldM increment b (target <$> fallback_edges dfa); Some (a', b')).
Proof.
  rewrite foldM_nodes. fold n.
  rewrite (foldM_pair_bind _ (fun s T => increment s (target T)) (fun s T => increment s (target T)) (node_edges dfa) (node_fallback dfa)).
  { by rewrite !foldM_fmap. }
  intros i a' b' Hi%elem_of_for_range. destruct (lookupN_is_Some (nodes dfa) i) as [node Hn]; [unfold node_count in *; lia|].
  unfold node_edges, node_fallback. rewrite Hn. run_option.
  destruct (pd_nodes _ Hdfa i node Hn) as [(ts & Hts & _) Hfb]. unfold count_incoming. rewrite Hts. run_option. simpl default.
  rewrite foldM_fmap. cbn [target fst snd]. destruct (foldM _ a' ts) as [a1|]; [|done]. run_option.
  destruct (hasFallbackTransition node); [|done]. destruct Hfb as (t & -> & _); [done|]. run_option. simpl default.
  cbn [foldM target]. by destruct (increment b' t).
Qed.

Lemma fill_node_loop offsets fallbackOffsets a b :
  foldM (fill_node dfa offsets fallbackOffsets) (a, b) (for_range 0 n) =
  (a' ← foldM (fun table T => place offsets table (target T) T) a (edges dfa);
   b' ← foldM (fun table T => place fallbackOffsets table (target T) (source T)) b (fallback_edges dfa); Some (a', b')).
Proof.
  apply foldM_pair_bind.
  intros i a' b' Hi%elem_of_for_range. destruct (lookupN_is_Some (nodes dfa) i) as [node Hn]; [unfold node_count in *; lia|].
  unfold node_edges, node_fallback, fill_node. rewrite Hn. run_option.
  destruct (pd_nodes _ Hdfa i node Hn) as [(ts & Hts & _) Hfb]. rewrite Hts. run_option. simpl default.
  rewrite foldM_fmap. cbn [target fst snd]. destruct (foldM _ a' ts) as [a1|]; [|done]. run_option.
  destruct (hasFallbackTransition node); [|done]. destruct Hfb as (t & -> & _); [done|]. run_option. simpl default.
  cbn [foldM target source]. by destruct (place fallbackOffsets b' t i).
Qed.

(** The tables of one kind of transitions. *)
Lemma build_table {A} (value : Transition -> A) l dflt :
  N.of_nat (length l) < 2 ^ 32 -> (forall T, T ∈ l -> source T < n /\ target T < n) -> NoDup l ->
  (forall T T', T ∈ l -> T' ∈ l -> source T = source T' -> character T = character T' -> T = T') ->
  exists counters offsets table,
    foldM increment (replicate (length (nodes dfa)) 0) (target <$> l) = Some counters /\
    accumulate_offsets counters = Some (offsets, N.of_nat (length l)) /\
    foldM (fun table T => place offsets table (target T) (value T))
      (replicate (length l) dflt, replicate (length (nodes dfa)) 0) l = Some table /\
    table.1 = value <$> sorted_to n l /\ table_ok n (sorted_to n l) offsets table.2.
Proof.
  intros Hbound Hrange Hnd Hdet. assert (forall T, T ∈ l -> target T < n) as Ht by (intros T HT; by apply Hrange).
  assert (length (nodes dfa) = N.to_nat n) as Hlen by (unfold node_count; lia).
  destruct (count_all n l (replicate (length (nodes dfa)) 0)) as (counters & Hc & Hcl & Hcs).
  - done.
  - by rewrite length_replicate.
  - intros v c [-> _]%lookup_replicate. pose proof (incoming_le v l). lia.
  - destruct (accumulate_spec n l counters) as (offsets & Ho & Hol & Hos); [done..| |].
    { intros v Hv. rewrite Hcs. rewrite (proj2 (lookup_replicate (length (nodes dfa)) 0 0 (N.to_nat v))) by (split; [done|lia]). done. }
    destruct (place_all value n l Ht Hbound offsets Hos dflt) as (table & Hp & Hpv & Hpl & Hps).
    exists counters, offsets, table. rewrite Hlen in *. split_and!; [done..|]. by apply sorted_table.
Qed.

Lemma makeFullGraphPartition_spec : exists g, makeFullGraphPartition dfa = Some g /\
  graph_ok n E EF g /\ partition_wf n [] (m_nodePartition g) /\ m_nextTransitionSetToProcess g = 0.
Proof.
  destruct (build_table (fun T => T) (edges dfa) (mkTransition 0 0 0)) as (c & o & [t s] & Hc & Ho & Hp & Hv & Htb).
  { by apply edges_bound. } { by apply edges_range. } { by apply NoDup_edges. } { by apply edges_deterministic. }
  destruct (build_table source (fallback_edges dfa) 0) as (fc & fo & [ft fs] & Hfc & Hfo & Hfp & Hfv & Hftb).
  { by apply fallback_edges_bound. } { by apply fallback_edges_range. } { by apply NoDup_fallback_edges. }
  { intros. by apply (fallback_edges_deterministic dfa). }
  cbn [fst snd] in *. rewrite list_fmap_id in Hv. subst t ft.
  assert (N.of_nat (length E) < 2 ^ 32) as Hb by apply (tb_bound _ _ _ _ Htb).
  assert (N.of_nat (length EF) < 2 ^ 32) as Hfb by apply (tb_bound _ _ _ _ Hftb).
  assert (n < 2 ^ 32) as Hnb by (pose proof (pd_size _ Hdfa); lia).
  destruct (initialize_ok _ Hb) as (Hwf0 & Hok0 & _). destruct (initialize_ok _ Hfb) as (Hfwf & Hfok & Hfone).
  destruct (initialize_ok _ Hnb) as (Hnwf & Hnok & Hnone).
  destruct (split_characters E _ Hwf0 Hok0) as (tp & Hchars & Hwf & Hok & Hcords).
  unfold makeFullGraphPartition. rewrite count_incoming_loop, Hc. run_option. rewrite Hfc. run_option. cbn [fst snd].
  rewrite Ho. run_option. rewrite Hfo. run_option. cbn [fst snd]. fold n. rewrite fill_node_loop, !Nat2N.id.
  rewrite Hp. run_option. rewrite Hfp. run_option. cbn [fst snd]. rewrite Hchars. run_option.
  eexists. split; [reflexivity|]. rewrite length_fmap. split; [|by split]. split; cbn; try done.
  - intros k k' T T' HT HT' Hkk. split.
    + apply (Hcords k k' T T' HT HT' Hkk). apply list_elem_of_lookup_2, elem_of_sorted_to in HT as [HT _]. by eapply edges_character.
    + apply list_elem_of_lookup_2 in HT, HT'.
      unfold in_set in Hnone. rewrite !Hnone; [done| |]; by apply (tb_range _ _ _ _ Htb).
  - intros k k' T T' HT HT' _. apply list_elem_of_lookup_2 in HT, HT'. split.
    + apply elem_of_sorted_to in HT as [HT _], HT' as [HT' _]. apply elem_of_fallback_edges in HT as [-> _], HT' as [-> _]; done.
    + unfold in_set in Hnone. rewrite !Hnone; [done| |]; by apply (tb_range _ _ _ _ Hftb).
Qed.
End Constructor.

(** ** The actions of the nodes *)

(** The actions of a node are within the shared vector. *)
Definition actions_within (dfa : DFA) (node : DFANode) : Prop :=
  m_actionsStart node + m_actionsLength node <= N.of_nat (length (actions dfa)).

Definition content (dfa : DFA) (start length : N) : list N := slice (actions dfa) start length.

Lemma node_actions_content dfa node : N.of_nat (length (actions dfa)) < 2 ^ 32 -> actions_within dfa node ->
  node_actions node dfa = Some (content dfa (m_actionsStart node) (m_actionsLength node)).
Proof.
  intros Hb Hw. unfold node_actions, actions_within in *. rewrite wrap32_id by lia. by apply mapM_slice.
Qed.

Lemma lookup_content dfa start len j : start + len <= N.of_nat (length (actions dfa)) -> j < len ->
  content dfa start len !!N j = actions dfa !!N (start + j).
Proof. intros _ Hj. by apply lookup_slice. Qed.

Lemma length_content dfa start len : start + len <= N.of_nat (length (actions dfa)) ->
  length (content dfa start len) = N.to_nat len.
Proof. intros Hle%length_slice. unfold content. lia. Qed.

Definition key_within (dfa : DFA) (key : ActionKey) : Prop :=
  actionsStart key + actionsLength key <= N.of_nat (length (actions dfa)).

(** Two keys are equal when the actions they stand for are. *)
Lemma actionKey_equal_content dfa a b : N.of_nat (length (actions dfa)) < 2 ^ 32 ->
  key_within dfa a -> key_within dfa b ->
  actionKey_equal dfa a b = Some (bool_decide
    (content dfa (actionsStart a) (actionsLength a) = content dfa (actionsStart b) (actionsLength b))).
Proof.
  intros Hb Ha Hbk. unfold actionKey_equal, key_within in *. destruct (_ =? _) eqn:Hlen; cbn [negb]; breflect.
  2: { rewrite bool_decide_eq_false_2; [done|]. intros Heq%(f_equal length). rewrite !length_content in Heq by done. lia. }
  rewrite <- Hlen in *. set (la := content dfa (actionsStart a) (actionsLength a)).
  set (lb := content dfa (actionsStart b) (actionsLength a)).
  assert (forall m, m <= actionsLength a -> foldM (fun (equal : bool) i =>
      if equal then
        x ← actions dfa !!N wrap32 (actionsStart a + i);
        y ← actions dfa !!N wrap32 (actionsStart b + i);
        Some (x =? y)
      else Some false) true (for_range 0 m) =
    Some (bool_decide (take (N.to_nat m) la = take (N.to_nat m) lb))) as Hloop.
  { intros m. induction m as [|m IH] using N.peano_ind; intros Hm; [done|].
    rewrite <- N.add_1_r in *. rewrite for_range_snoc by lia. rewrite foldM_app, IH by lia. run_option. cbn [foldM].
    pose proof (lookup_content dfa (actionsStart a) (actionsLength a) m Ha) as Hla. fold la in Hla.
    pose proof (lookup_content dfa (actionsStart b) (actionsLength a) m Hbk) as Hlb. fold lb in Hlb.
    destruct (lookupN_is_Some (actions dfa) (actionsStart a + m)) as [x Hx]; [lia|].
    destruct (lookupN_is_Some (actions dfa) (actionsStart b + m)) as [y Hy]; [lia|].
    rewrite !wrap32_id by lia. rewrite Hx in *. rewrite Hy in *.
    replace (N.to_nat (m + 1)) with (S (N.to_nat m)) by lia.
    rewrite (take_S_r la _ x), (take_S_r lb _ y) by (apply Hla || apply Hlb; lia).
    destruct (bool_decide (take (N.to_nat m) la = take (N.to_nat m) lb)) eqn:E; run_option.
    - apply bool_decide_eq_true in E. rewrite E. f_equal. destruct (x =? y) eqn:Exy; breflect; symmetry.
      + subst. by apply bool_decide_eq_true.
      + apply bool_decide_eq_false. intros Heq%app_inv_head. congruence.
    - apply bool_decide_eq_false in E. f_equal. symmetry. apply bool_decide_eq_false.
      intros [? _]%app_inj_1; [done|]. rewrite !length_take. unfold la, lb. by rewrite !length_content. }
  rewrite Hloop by done. unfold la, lb. rewrite !take_ge; [done|rewrite length_content by done; lia|rewrite length_content by done; lia].
Qed.

(** ** Collecting the final states *)

Section Collect.
Context (dfa : DFA) (Hbound : N.of_nat (length (actions dfa)) < 2 ^ 32).
Context (Hactions : forall i node, nodes dfa !!N i = Some node -> actions_within dfa node).

Definition node_content (node : DFANode) : list N := content dfa (m_actionsStart node) (m_actionsLength node).

(** A vector of the map holds nodes with the actions of its key. *)
Definition slot_ok (key : ActionKey) (slot : list N) : Prop :=
  key_within dfa key /\ NoDup slot /\ forall s, s ∈ slot -> exists node, nodes dfa !!N s = Some node /\
    hasActions node = true /\ node_content node = content dfa (actionsStart key) (actionsLength key).

Lemma add_final_state_spec i node fs :
  nodes dfa !!N i = Some node -> hasActions node = true ->
  (forall key slot, (key, slot) ∈ fs -> slot_ok key slot /\ i ∉ slot) ->
  exists fs', add_final_state dfa (mkActionKey (m_actionsStart node) (m_actionsLength node)) i fs = Some fs' /\
    (forall key slot, (key, slot) ∈ fs' -> slot_ok key slot /\
      forall s, s ∈ slot -> s = i \/ exists key0 slot0, (key0, slot0) ∈ fs /\ s ∈ slot0) /\
    (forall s, s = i \/ (exists key slot, (key, slot) ∈ fs /\ s ∈ slot) -> exists key slot, (key, slot) ∈ fs' /\ s ∈ slot).
Proof.
  intros Hn Ha. pose proof (Hactions i node Hn) as Hw.
  set (key := mkActionKey (m_actionsStart node) (m_actionsLength node)).
  assert (key_within dfa key) as Hk by done.
  induction fs as [|[key' slot'] fs IH]; intros Hfs; cbn [add_final_state].
  - exists [(key, [i])]. split_and!; [done| |].
    + intros ? ? [= -> ->]%list_elem_of_singleton. split; [|intros s ->%list_elem_of_singleton; by left].
      split_and!; [done|apply NoDup_singleton|]. intros s ->%list_elem_of_singleton. by exists node.
    + intros s [->|(? & ? & H%elem_of_nil & _)]; [|done]. exists key, [i]. split; by left.
  - destruct (Hfs key' slot') as [(Hk' & Hnd & Hs) Hi]; [by left|].
    rewrite actionKey_equal_content by done. run_option. case_bool_decide as Heq.
    + exists ((key', slot' ++ [i]) :: fs). split_and!; [done| |].
      * intros k s [[= -> ->]|Hin]%elem_of_cons.
        -- split; [split_and!; [done| |]|].
           ++ apply NoDup_app. split; [done|]. split; [set_solver|apply NoDup_singleton].
           ++ intros s' [Hs'| ->%list_elem_of_singleton]%elem_of_app; [by apply Hs|]. exists node. by split_and!.
           ++ intros s' [Hs'| ->%list_elem_of_singleton]%elem_of_app; [right|by left]. exists key', slot'. split; [by left|done].
        -- split; [apply (Hfs k s); by right|]. intros s' Hs'. right. exists k, s. split; [by right|done].
      * intros s [->|(k & sl & [[= -> ->]|Hin]%elem_of_cons & Hsl)].
        -- exists key', (slot' ++ [i]). split; [by left|set_solver].
        -- exists key', (slot' ++ [i]). split; [by left|set_solver].
        -- exists k, sl. split; [by right|done].
    + destruct IH as (fs' & -> & Hok & Hall). { intros k s Hin. apply Hfs. by right. }
      run_option. exists ((key', slot') :: fs'). split_and!; [done| |].
      * intros k s [[= -> ->]|Hin]%elem_of_cons.
        -- split; [done|]. intros s' Hs'. right. exists key', slot'. split; [by left|done].
        -- destruct (Hok k s Hin) as [? Hfrom]. split; [done|]. intros s' [?|(k0 & s0 & ? & ?)]%Hfrom; [by left|].
           right. exists k0, s0. split; [by right|done].
      * intros s [->|(k & sl & [[= -> ->]|Hin]%elem_of_cons & Hsl)].
        -- destruct (Hall i) as (k & sl & ? & ?); [by left|]. exists k, sl. split; [by right|done].
        -- exists key', slot'. split; [by left|done].
        -- destruct (Hall s) as (k0 & sl0 & ? & ?); [right; eauto|]. exists k0, sl0. split; [by right|done].
Qed.

Lemma collect_final_states_spec : exists fs, collect_final_states dfa = Some fs /\
  (forall key slot, (key, slot) ∈ fs -> slot_ok key slot) /\
  (forall i node, nodes dfa !!N i = Some node -> hasActions node = true -> exists key slot, (key, slot) ∈ fs /\ i ∈ slot).
Proof.
  unfold collect_final_states. fold (node_count dfa).
  assert (forall m, m <= node_count dfa -> exists fs,
    foldM (fun finalStates i =>
      node ← nodes dfa !!N i;
      if hasActions node
      then add_final_state dfa (mkActionKey (m_actionsStart node) (m_actionsLength node)) i finalStates
      else Some finalStates) [] (for_range 0 m) = Some fs /\
    (forall key slot, (key, slot) ∈ fs -> slot_ok key slot /\ forall s, s ∈ slot -> s < m) /\
    (forall i node, i < m -> nodes dfa !!N i = Some node -> hasActions node = true ->
      exists key slot, (key, slot) ∈ fs /\ i ∈ slot)) as Hloop.
  { intros m. induction m as [|m IH] using N.peano_ind; intros Hm.
    - exists []. split_and!; [done|by intros ? ? ?%elem_of_nil|lia].
    - rewrite <- N.add_1_r in *. destruct IH as (fs & Hrun & Hok & Hall); [lia|].
      rewrite for_range_snoc by lia. rewrite foldM_app, Hrun. run_option. cbn [foldM].
      destruct (lookupN_is_Some (nodes dfa) m) as [node Hn]; [unfold node_count in *; lia|]. rewrite Hn. run_option.
      destruct (hasActions node) eqn:Ha.
      + destruct (add_final_state_spec m node fs Hn Ha) as (fs' & -> & Hok' & Hall').
        { intros k s Hin. destruct (Hok k s Hin) as [? Hlt]. split; [done|]. intros Hi%Hlt. lia. }
        run_option. exists fs'. split_and!; [done| |].
        * intros k s Hin. destruct (Hok' k s Hin) as [? Hfrom]. split; [done|].
          intros s' [->|(k0 & s0 & Hin0 & Hs0)]%Hfrom; [lia|]. apply Hok in Hin0 as [_ Hlt]. apply Hlt in Hs0. lia.
        * intros i node' Hi Hn' Ha'. apply Hall'. destruct (decide (i = m)) as [->|]; [by left|right].
          apply (Hall i node'); (done || lia).
      + run_option. exists fs. split_and!; [done| |].
        * intros k s Hin. destruct (Hok k s Hin) as [? Hlt]. split; [done|]. intros i Hi%Hlt. lia.
        * intros i node' Hi Hn' Ha'. destruct (decide (i = m)) as [->|]; [congruence|]. apply (Hall i node'); (done || lia). }
  destruct (Hloop (node_count dfa)) as (fs & Hrun & Hok & Hall); [done|]. exists fs. split_and!; [done| |].
  - intros k s Hin. by apply Hok in Hin as [? _].
  - intros i node Hn. apply Hall; [|done]. by apply lookupN_lt in Hn.
Qed.
End Collect.

(** ** The partition *)

(** The nodes [p] and [q] cannot be told apart by one step, up to [nm]. *)
Record alike (dfa : DFA) (nm : list N) (p q : N) : Prop := {
  al_actions : actions_at dfa p = actions_at dfa q;
  al_transitions : forall node ts c t, nodes dfa !!N p = Some node -> node_transitions node dfa = Some ts -> (c, t) ∈ ts ->
    exists node' ts' t', nodes dfa !!N q = Some node' /\ node_transitions node' dfa = Some ts' /\ (c, t') ∈ ts' /\
      nm !!N t = nm !!N t';
  al_fallback : forall node t, nodes dfa !!N p = Some node -> hasFallbackTransition node = true ->
    fallbackTransitionDestination node dfa = Some t ->
    exists node' t', nodes dfa !!N q = Some node' /\ hasFallbackTransition node' = true /\
      fallbackTransitionDestination node' dfa = Some t' /\ nm !!N t = nm !!N t'
}.

Section PartitionNodes.
Context `{HashOrder} (dfa : DFA) (Hdfa : plain_dfa dfa) (Hbound : N.of_nat (length (actions dfa)) < 2 ^ 32).
Context (Hactions : forall i node, nodes dfa !!N i = Some node -> actions_within dfa node).
Notation n := (node_count dfa).
Notation E := (sorted_to n (edges dfa)).
Notation EF := (sorted_to n (fallback_edges dfa)).

Lemma actions_at_content i node : nodes dfa !!N i = Some node -> actions_at dfa i = node_content dfa node.
Proof.
  intros Hn. unfold actions_at. rewrite Hn. run_option. rewrite node_actions_content; [done|done|by eapply Hactions].
Qed.

(** A transition has a corresponding one from each node of the set of its source. *)
Lemma stable_corresponds nm tp E' p q T :
  stable n nm tp E' (partition_size tp) -> cords nm tp E' -> partition_wf (N.of_nat (length E')) [] tp ->
  p < n -> q < n -> nm !!N p = nm !!N q -> T ∈ E' -> source T = p ->
  exists T', T' ∈ E' /\ source T' = q /\ character T' = character T /\ nm !!N target T = nm !!N target T'.
Proof.
  intros Hst Hc Hwf Hp Hq Hpq [k HT]%list_elem_of_lookup_1 Hs. rewrite <- (Nat2N.id k) in HT.
  pose proof (lookupN_lt _ _ _ HT) as Hk.
  destruct (element_class _ _ tp Hwf (N.of_nat k) Hk) as (i & d & _ & Hi & Hd & _).
  assert (i < partition_size tp) as Hlt by by apply (wf_class _ _ _ Hwf) in Hi.
  destruct (Hst p q (N.of_nat k) T i) as (k' & T' & i' & HT' & Hs' & Hch & Hi' & Hor); [done..|].
  assert (i' < partition_size tp) as Hlt' by by apply (wf_class _ _ _ Hwf) in Hi'.
  destruct Hor as [->|?]; [|lia]. exists T'. split_and!; [by eapply list_elem_of_lookup_2|done|done|].
  apply (Hc (N.of_nat k) k' T T' HT HT'). unfold same, in_set in *. by rewrite Hi, Hi'.
Qed.

Lemma partition_nodes_spec : exists g, partition_nodes dfa = Some g /\
  partition_wf n [] (m_nodePartition g) /\
  forall p q, p < n -> q < n -> same (m_nodePartition g) p q ->
    alike dfa (m_elementToSetMap (m_nodePartition g)) p q.
Proof.
  destruct (makeFullGraphPartition_spec dfa Hdfa) as (g0 & Hg0 & Hok0 & Hwf0 & Hnext0).
  destruct (collect_final_states_spec dfa Hbound Hactions) as (fs & Hfs & Hslots & Hall).
  destruct (split_slots_spec n E EF (hash_order fs) g0 Hok0 Hwf0) as (g1 & Hg1 & Hok1 & Hle1 & Hnext1 & Hsep).
  { intros key slot Hin. rewrite elem_of_hash_order in Hin. destruct (Hslots key slot Hin) as (_ & Hnd & Hs). split; [done|].
    intros s (node & Hn & _)%Hs. by apply lookupN_lt in Hn. }
  pose proof (gr_tables _ _ _ _ Hok1) as Htab.
  destruct (splitByUniqueTransitions_spec n E EF (S (length E)) g1 Hok1) as (g2 & Hg2 & Hok2 & Hle2 & Hnext2 & Hst2).
  { apply (gl_unmarked _ _ _ Hle1). } { rewrite Hnext1, Hnext0. lia. }
  { rewrite Hnext1, Hnext0. intros ? ? ? ? ? ? ? ? ? ? ? ?. lia. } { lia. }
  destruct (splitByFallbackTransitions_spec n E EF (S (length EF)) (S (length E)) 0 g2 Hok2)
    as (g & Hg & Hok & Hle & Hst & Hfst).
  { apply (gl_unmarked _ _ _ Hle2). } { done. } { by rewrite Hnext2. } { lia. }
  { intros ? ? ? ? ? ? ? ? ? ? ? ?. lia. } { lia. } { lia. }
  exists g. split_and!; [|apply (gl_unmarked _ _ _ Hle)|].
  { unfold partition_nodes. rewrite Hg0. run_option. rewrite Hfs. run_option. unfold split_final_states. rewrite Hg1.
    run_option. rewrite (tk_flat _ _ _ _ Htab), (tk_fallback _ _ _ _ Htab), length_fmap, Hg2. run_option. done. }
  intros p q Hp Hq Hpq.
  assert (forall p q, p < n -> q < n -> same (m_nodePartition g) p q -> forall key slot, (key, slot) ∈ fs ->
    p ∈ slot -> q ∈ slot) as Hslot.
  { clear p q Hp Hq Hpq. intros p q Hp Hq Hpq key slot Hin. rewrite <- elem_of_hash_order in Hin.
    pose proof (separated_finer n _ _ slot (gl_finer _ _ _ Hle) (separated_finer n _ _ slot (gl_finer _ _ _ Hle2) (Hsep key slot Hin))) as Hs.
    apply (Hs p q Hp Hq Hpq). }
  split.
  - destruct (lookupN_is_Some (nodes dfa) p Hp) as [P HP], (lookupN_is_Some (nodes dfa) q Hq) as [Q HQ].
    rewrite (actions_at_content p P HP), (actions_at_content q Q HQ).
    assert (forall p q P Q, p < n -> q < n -> same (m_nodePartition g) p q -> nodes dfa !!N p = Some P ->
      nodes dfa !!N q = Some Q -> hasActions P = true -> node_content dfa P = node_content dfa Q) as Hcase.
    { clear p q P Q Hp Hq Hpq HP HQ. intros p q P Q Hp Hq Hpq HP HQ Ha.
      destruct (Hall p P HP Ha) as (key & slot & Hin & Hps). pose proof (Hslot p q Hp Hq Hpq key slot Hin Hps) as Hqs.
      destruct (Hslots key slot Hin) as (_ & _ & Hc). destruct (Hc p Hps) as (P' & ? & _ & HcP).
      destruct (Hc q Hqs) as (Q' & ? & _ & HcQ). simplify_eq. congruence. }
    destruct (hasActions P) eqn:HaP; [by apply (Hcase p q)|].
    destruct (hasActions Q) eqn:HaQ; [symmetry; by apply (Hcase q p)|].
    unfold hasActions in *. breflect. unfold node_content, content. by rewrite HaP, HaQ.
  - intros node ts c t Hn Hts Hin.
    assert (mkTransition p t c ∈ edges dfa) as HT by (apply elem_of_edges; [done|]; by exists node, ts).
    destruct (stable_corresponds _ _ E p q (mkTransition p t c) Hst (gr_cords _ _ _ _ Hok) (gr_wf _ _ _ _ Hok))
      as (T' & HT' & <- & Hch & Hnm); [done|done|done| |done|].
    { apply elem_of_sorted_to. split; [done|]. by apply (edges_range dfa Hdfa). }
    apply elem_of_sorted_to in HT' as [HT' _]. apply elem_of_edges in HT' as (node' & ts' & ? & ? & Hin'); [|done].
    rewrite Hch in Hin'. by exists node', ts', (target T').
  - intros node t Hn Hf Ht.
    assert (mkTransition p t fallback_character ∈ fallback_edges dfa) as HT.
    { apply elem_of_fallback_edges; [done|]. split; [done|]. by exists node. }
    destruct (stable_corresponds _ _ EF p q (mkTransition p t fallback_character) Hfst (gr_fcords _ _ _ _ Hok) (gr_fwf _ _ _ _ Hok))
      as (T' & HT' & <- & _ & Hnm); [done|done|done| |done|].
    { apply elem_of_sorted_to. split; [done|]. by apply (fallback_edges_range dfa Hdfa). }
    apply elem_of_sorted_to in HT' as [HT' _]. apply elem_of_fallback_edges in HT' as (_ & node' & ? & ? & ?); [|done].
    by exists node', (target T').
Qed.
End PartitionNodes.
