(* ===== verification/SimplifyTransitions.v ===== *)
(** * What [simplifyTransitions] does to the views of the nodes

    A fallback replaces the transitions to one target.  Unless a node has exactly
    126 transitions on characters other than the end of the input, in which case
    the character that is left gets the fallback too, no step changes but that on
    the end of the input. *)

From S2P Require Import Prelude HashTable DFA DFAViews Partition DFAMinimizer Refinement.

(** ** The view that results *)

(** The guard under which a fallback is added. *)
Definition gap (v : view) : bool :=
  match v_fallback v with
  | Some _ => false
  | None =>
    let contains := bool_decide (0 ∈ (v_transitions v).*1) in
    let length := N.of_nat (length (v_transitions v)) in
    ((length =? 126) && negb contains) || ((length =? 127) && contains)
  end.

Definition simplified_fallback (v : view) : option N :=
  if gap v then Some (best_target (v_transitions v)).1 else v_fallback v.

Definition simplified (v : view) : view :=
  match simplified_fallback v with
  | Some f => mkView (filter (fun t : N * N => t.2 <> f) (v_transitions v)) (Some f) (v_actions v)
  | None => v
  end.

(** ** Flags *)

Lemma fallback_flag node b : hasFallbackTransition (setHasFallbackTransitionWithoutChangingDFA node b) = b.
Proof.
  unfold hasFallbackTransition, setHasFallbackTransitionWithoutChangingDFA, HasFallbackTransition. cbn [m_flags].
  destruct b.
  - destruct (N.eqb_spec (N.land (N.lor (m_flags node) 1) 1) 0) as [Heq|]; [|done].
    apply (f_equal (fun x => N.testbit x 0)) in Heq. rewrite N.land_spec, N.lor_spec, orb_comm in Heq. done.
  - assert (N.land (N.ldiff (m_flags node) 1) 1 = 0) as ->; [|done].
    apply N.bits_inj. intros k. rewrite N.land_spec, N.ldiff_spec, N.bits_0.
    destruct (N.testbit 1 k); [by rewrite andb_false_r|by rewrite andb_false_r].
Qed.

Lemma killed_flag node b : isKilled (setHasFallbackTransitionWithoutChangingDFA node b) = isKilled node.
Proof.
  unfold isKilled, setHasFallbackTransitionWithoutChangingDFA, HasFallbackTransition, IsKilled. cbn [m_flags].
  do 2 f_equal. destruct b; apply N.bits_inj; intros k; rewrite !N.land_spec, ?N.lor_spec, ?N.ldiff_spec;
    destruct (decide (k = 0)) as [->|Hk]; try (by rewrite !andb_false_r).
  - replace (N.testbit 1 k) with false; [by rewrite orb_false_r|]. symmetry. apply (N.pow2_bits_false 0). done.
  - replace (N.testbit 1 k) with false; [by rewrite andb_true_r|]. symmetry. apply (N.pow2_bits_false 0). done.
Qed.

(** ** The best target *)

(** What the histogram and the best target are after the transitions [seen]. *)
Record histogram_ok (seen : list (N * N)) (histogram : list (N * N)) (bestTarget bestTargetScore : N) : Prop := {
  hs_values : forall k v, hmap_find k histogram = Some v -> 1 <= v <= N.of_nat (length seen);
  hs_best : (bestTargetScore = 0 /\ Forall (fun t => t.1 = 0) seen) \/
    (0 < bestTargetScore /\ exists t, t ∈ seen /\ t.1 <> 0 /\ t.2 = bestTarget)
}.

Definition histogram_step : list (N * N) * N * N -> N * N -> list (N * N) * N * N :=
  fun '(targetHistogram, bestTarget, bestTargetScore) (transition : N * N) =>
    if transition.1 =? 0 then (targetHistogram, bestTarget, bestTargetScore)
    else
      let transitionTarget := transition.2 in
      let '(added, isNewEntry) := hmap_add transitionTarget 1 targetHistogram in
      let value := default 0 (hmap_find transitionTarget added) in
      let value' := if isNewEntry then value else wrap32 (value + 1) in
      let targetHistogram' := hmap_set transitionTarget value' added in
      if bestTargetScore <? value' then (targetHistogram', transitionTarget, value')
      else (targetHistogram', bestTarget, bestTargetScore).

Lemma histogram_step_ok seen t histogram best score :
  N.of_nat (length seen) < 2 ^ 31 -> histogram_ok seen histogram best score ->
  let '(histogram', best', score') := histogram_step (histogram, best, score) t in
  histogram_ok (seen ++ [t]) histogram' best' score'.
Proof.
  intros Hlen [Hvalues Hbest]. unfold histogram_step. destruct (t.1 =? 0) eqn:Ht; breflect.
  - split.
    + intros k v Hv%Hvalues. rewrite length_app. simpl. lia.
    + destruct Hbest as [[? ?]|(? & t' & ? & ? & ?)]; [left|right].
      * split; [done|]. by apply Forall_app; split; [|constructor].
      * split; [done|]. exists t'. set_solver.
  - assert (exists value histogram1, (let '(added, isNewEntry) := hmap_add t.2 1 histogram in
      (if isNewEntry : bool then default 0 (hmap_find t.2 added) else wrap32 (default 0 (hmap_find t.2 added) + 1), added)) = (value, histogram1) /\
      1 <= value <= N.of_nat (length (seen ++ [t])) /\
      forall k v, hmap_find k histogram1 = Some v -> 1 <= v <= N.of_nat (length (seen ++ [t]))) as (value & h1 & Heq & Hv & Hh).
    { rewrite length_app. unfold hmap_add. destruct (hmap_find t.2 histogram) as [v|] eqn:Hf; eexists _, _; (split; [reflexivity|]).
      - rewrite Hf. simpl default. apply Hvalues in Hf as Hv. rewrite wrap32_id by lia. simpl. split; [lia|].
        intros k v' Hk%Hvalues. lia.
      - rewrite hmap_find_set, decide_True by done. simpl. split; [lia|]. intros k v'. rewrite hmap_find_set.
        case_decide; [intros [= <-]; lia|]. intros Hk%Hvalues. lia. }
    destruct (hmap_add t.2 1 histogram) as [added isNew]. injection Heq as Heq ->. cbv zeta. rewrite Heq.
    assert (forall k v, hmap_find k (hmap_set t.2 value h1) = Some v -> 1 <= v <= N.of_nat (length (seen ++ [t]))) as Hset.
    { intros k v. rewrite hmap_find_set. case_decide; [by intros [= <-]|apply Hh]. }
    destruct (score <? value) eqn:Hs; breflect; split; try done.
    + right. split; [lia|]. exists t. set_solver.
    + destruct Hbest as [[? ?]|(? & t' & ? & ? & ?)]; [lia|]. right. split; [done|]. exists t'. set_solver.
Qed.

(** The best target is the target of a transition on a character. *)
Lemma best_target_in ts t : (length ts <= 128)%nat -> t ∈ ts -> t.1 <> 0 ->
  exists t', t' ∈ ts /\ t'.1 <> 0 /\ t'.2 = (best_target ts).1.
Proof.
  intros Hlen Hin Ht.
  assert (forall todo seen h b s, ts = seen ++ todo -> histogram_ok seen h b s ->
    let '(h', b', s') := foldl histogram_step (h, b, s) todo in histogram_ok ts h' b' s') as Hloop.
  { intros todo. induction todo as [|x todo IH]; intros seen h b s Hts Hok; cbn [foldl].
    - by rewrite app_nil_r in Hts; subst.
    - pose proof (histogram_step_ok seen x h b s) as Hstep. destruct (histogram_step (h, b, s) x) as [[h1 b1] s1].
      apply (IH (seen ++ [x])); [by rewrite <- app_assoc|]. apply Hstep; [|done].
      rewrite Hts, length_app in Hlen. lia. }
  specialize (Hloop ts [] [] max32 0 eq_refl). unfold best_target. fold histogram_step.
  destruct (foldl histogram_step ([], max32, 0) ts) as [[h b] s]. cbn [fst]. destruct Hloop as [_ Hbest].
  { split; [done|]. left. by split. }
  destruct Hbest as [[_ Hall]|(_ & t' & ? & ? & ?)]; [|by exists t'].
  rewrite Forall_forall in Hall. by apply Hall in Hin.
Qed.

(** ** Writing in place *)

Lemma write_all_spec {A} (v : list A) start values :
  start + N.of_nat (length values) <= N.of_nat (length v) -> N.of_nat (length v) < 2 ^ 32 ->
  exists v', write_all v start values = Some v' /\ length v' = length v /\
    forall k, v' !!N k = if decide (start <= k < start + N.of_nat (length values)) then values !!N (k - start) else v !!N k.
Proof.
  intros Hle Hb. unfold write_all.
  assert (forall m, m <= N.of_nat (length values) -> exists v',
    foldM (fun vector i => x ← values !!N i; vec_set vector (wrap32 (start + i)) x) v (for_range 0 m) = Some v' /\
    length v' = length v /\
    forall k, v' !!N k = if decide (start <= k < start + m) then values !!N (k - start) else v !!N k) as Hloop; [|by apply Hloop].
  intros m. induction m as [|m IH] using N.peano_ind; intros Hm.
  - exists v. split_and!; [done..|]. intros k. by rewrite decide_False by lia.
  - rewrite <- N.add_1_r in *. destruct IH as (v1 & Hrun & Hl1 & Hs1); [lia|].
    rewrite for_range_snoc by lia. rewrite foldM_app, Hrun. run_option. cbn [foldM].
    destruct (lookupN_is_Some values m) as [x Hx]; [lia|]. rewrite Hx. run_option. rewrite wrap32_id by lia.
    destruct (vec_set v1 (start + m) x) as [v'|] eqn:E; [|unfold vec_set in E; case_match; breflect; [done|lia]].
    run_option. exists v'. split_and!; [done|by rewrite (vec_set_length _ _ _ _ E)|]. intros k.
    rewrite (vec_set_lookup _ _ _ _ k E), Hs1. case_decide as Hk.
    + subst. rewrite decide_True by lia. by replace (start + m - start) with m by lia.
    + destruct (decide (start <= k < start + m)), (decide (start <= k < start + (m + 1))); (done || lia).
Qed.

Lemma fill_spec {A} (v : list A) start a b x :
  start + b <= N.of_nat (length v) -> N.of_nat (length v) < 2 ^ 32 ->
  exists v', foldM (fun v i => vec_set v (wrap32 (start + i)) x) v (for_range a b) = Some v' /\ length v' = length v /\
    forall k, ~ start + a <= k < start + b -> v' !!N k = v !!N k.
Proof.
  intros Hle Hb.
  destruct (foldM_total (fun v i => vec_set v (wrap32 (start + i)) x) (fun v' => length v' = length v /\
    forall k, ~ start + a <= k < start + b -> v' !!N k = v !!N k) (for_range a b)) with (s := v) as (v' & -> & ? & ?).
  - intros v1 i Hi%elem_of_for_range [Hl Hs]. rewrite wrap32_id by lia.
    destruct (vec_set v1 (start + i) x) as [v2|] eqn:E; [|unfold vec_set in E; case_match; breflect; [done|lia]].
    exists v2. split_and!; [done|by rewrite (vec_set_length _ _ _ _ E)|]. intros k Hk.
    rewrite (vec_set_lookup _ _ _ _ k E). case_decide; [lia|]. by apply Hs.
  - done.
  - by exists v'.
Qed.

(** ** One node *)

Section SimplifyNode.
Context (dfa : DFA) (Hly : layout dfa) (i : N) (node : DFANode) (Hn : nodes dfa !!N i = Some node).
Notation V := (node_view dfa node).
Notation n := (N.of_nat (length (nodes dfa))).

Lemma containsTransition_view c : containsTransition node c dfa = Some (bool_decide (c ∈ (v_transitions V).*1)).
Proof.
  pose proof (ly_within _ Hly i node Hn) as Hw. unfold containsTransition. rewrite (transitions_end dfa Hly node Hw).
  set (ks := for_range _ _).
  assert (mapM (fun k => transitions dfa !!N k) ks = Some (v_transitions V)) as Hslice.
  { apply mapM_slice. destruct Hw as [Ht _]. unfold slots in Ht. lia. }
  rewrite (foldM_ext _ (fun (found : bool) k => t ← transitions dfa !!N k; Some (found || (t.1 =? c)))).
  2: { intros found k Hk. apply mapM_Some in Hslice. apply list_elem_of_lookup_1 in Hk as [j Hj].
    destruct (Forall2_lookup_l _ _ _ _ _ Hslice Hj) as (t & _ & ->). by destruct found. }
  rewrite (foldM_mapM (fun (found : bool) (t : N * N) => Some (found || (t.1 =? c))) _ _ _ _ Hslice).
  rewrite foldM_Some. f_equal. generalize (v_transitions V). intros ts.
  assert (forall b, foldl (fun (found : bool) (t : N * N) => found || (t.1 =? c)) b ts = b || bool_decide (c ∈ ts.*1)) as ->; [|done].
  induction ts as [|t ts IH]; intros b; cbn [foldl fmap list_fmap].
  - by rewrite orb_false_r.
  - rewrite IH, <- orb_assoc. f_equal. destruct (t.1 =? c) eqn:E; breflect; simpl; symmetry.
    + apply bool_decide_eq_true, elem_of_cons. by left.
    + apply bool_decide_ext. rewrite elem_of_cons. naive_solver.
Qed.

Lemma wants_fallback_view : wants_fallback node dfa = Some (gap V).
Proof.
  pose proof (ly_within _ Hly i node Hn) as Hw. unfold wants_fallback, gap.
  rewrite (length_view dfa node Hw), containsTransition_view.
  destruct (hasFallbackTransition node) eqn:Hf.
  - by destruct (fallback_view dfa Hly node Hw Hf) as (t & _ & ->).
  - rewrite fallback_view_None by done. destruct (m_transitionsLength node =? 126) eqn:E; breflect.
    + rewrite E. by rewrite orb_false_r.
    + by destruct (m_transitionsLength node =? 127).
Qed.

Lemma gap_target : gap V = true -> exists t, t ∈ v_transitions V /\ t.1 <> 0 /\ t.2 = (best_target (v_transitions V)).1.
Proof.
  destruct (ly_views _ Hly i node Hn) as (Hnd & Hall & _). pose proof (few_transitions _ _ (ly_views _ Hly i node Hn)) as Hfew.
  unfold gap. destruct (v_fallback V); [done|]. set (ts := v_transitions V) in *. intros Hgap.
  assert (exists t, t ∈ ts /\ t.1 <> 0) as (t & Hin & Ht).
  { destruct ts as [|t1 [|t2 ts']] eqn:E; [simpl in Hgap; discriminate|simpl in Hgap; discriminate|].
    destruct (decide (t1.1 = 0)); [exists t2|exists t1]; (split; [set_solver|]); [|done].
    cbn in Hnd. apply NoDup_cons in Hnd as [Hnot _]. intros E2. apply Hnot. rewrite e, <- E2. by left. }
  by apply (best_target_in ts t).
Qed.

Lemma simplified_fallback_lt f : simplified_fallback V = Some f -> f < n.
Proof.
  destruct (ly_views _ Hly i node Hn) as (_ & Hall & Hfb). unfold simplified_fallback. destruct (gap V) eqn:Hgap.
  - destruct (gap_target Hgap) as (t & Hin & _ & Ht). rewrite <- Ht. intros [= <-].
    rewrite Forall_forall in Hall. by apply Hall in Hin as [_ ?].
  - apply Hfb.
Qed.

Lemma simplified_ok : view_ok n (simplified V).
Proof.
  destruct (ly_views _ Hly i node Hn) as (Hnd & Hall & Hfb). unfold simplified.
  destruct (simplified_fallback V) as [f|] eqn:Hf; [|done]. apply simplified_fallback_lt in Hf. split_and!; cbn.
  - eapply sublist_NoDup; [done|]. apply fmap_sublist, sublist_filter.
  - rewrite Forall_forall in *. intros t [_ Hin]%list_elem_of_filter. by apply Hall.
  - by intros t [= <-].
Qed.

(** There is room for the fallback. *)
Lemma simplified_room f : simplified_fallback V = Some f ->
  N.of_nat (length (filter (fun t : N * N => t.2 <> f) (v_transitions V))) + 1 <= slots node.
Proof.
  pose proof (ly_within _ Hly i node Hn) as Hw. pose proof (length_view dfa node Hw) as Hlen. unfold slots.
  unfold simplified_fallback. destruct (gap V) eqn:Hgap; intros Hf.
  - destruct (gap_target Hgap) as (t & Hin & _ & Ht). rewrite <- Ht in Hf. simplify_eq.
    assert (length (filter (fun u : N * N => u.2 <> t.2) (v_transitions V)) < length (v_transitions V))%nat;
      [|destruct (hasFallbackTransition node); lia].
    apply length_filter_lt with t; [done|]. naive_solver.
  - pose proof (length_filter (fun t : N * N => t.2 <> f) (v_transitions V)).
    unfold node_view in Hf. cbn in Hf. destruct (hasFallbackTransition node); [|done]. lia.
Qed.
End SimplifyNode.

Section SimplifyStep.
Context (dfa : DFA) (Hly : layout dfa) (i : N) (node : DFANode) (Hn : nodes dfa !!N i = Some node).
Notation V := (node_view dfa node).
Notation n := (N.of_nat (length (nodes dfa))).

(** The node without a fallback is not changed. *)
Lemma keep_changes : simplified_fallback V = None ->
  let node' := setHasFallbackTransitionWithoutChangingDFA node false in
  changes dfa (with_nodes dfa (<[i :=N node']> (nodes dfa))) i node node' /\
  node_view (with_nodes dfa (<[i :=N node']> (nodes dfa))) node' = V.
Proof.
  intros Hf node'. pose proof (ly_within _ Hly i node Hn) as [Ht Ha].
  assert (hasFallbackTransition node = false) as Hno.
  { unfold simplified_fallback in Hf. destruct (gap V); [done|]. destruct (hasFallbackTransition node) eqn:E; [|done].
    destruct (fallback_view dfa Hly node (ly_within _ Hly i node Hn) E) as (t & _ & Ht'). congruence. }
  assert (slots node' = slots node) as Hs by (unfold slots, node'; rewrite fallback_flag, Hno; done).
  split.
  - split; try done; rewrite ?Hs; try done. by split; rewrite ?Hs.
  - unfold node_view, node'. rewrite fallback_flag, Hno. done.
Qed.

(** The node with a fallback gets its new transitions in the slots of the old ones. *)
Lemma rewrite_changes f had : simplified_fallback V = Some f -> had = hasFallbackTransition node ->
  let node1 := setHasFallbackTransitionWithoutChangingDFA node true in
  exists dfa' node', rewrite_transitions (with_nodes dfa (<[i :=N node1]> (nodes dfa))) i node1 had f = Some dfa' /\
    changes dfa dfa' i node node' /\
    node_view dfa' node' = mkView (filter (fun t : N * N => t.2 <> f) (v_transitions V)) (Some f) (v_actions V) /\
    isKilled node' = isKilled node.
Proof.
  intros Hf -> node1. pose proof (ly_within _ Hly i node Hn) as Hw. pose proof Hw as [Ht Ha].
  pose proof (simplified_room dfa Hly i node Hn f Hf) as Hroom. pose proof (ly_transitions _ Hly) as Hb.
  pose proof (length_view dfa node Hw) as Hlen.
  pose proof (few_transitions _ _ (ly_views _ Hly i node Hn)) as Hfew.
  set (newTransitions := filter (fun t : N * N => t.2 <> f) (v_transitions V)) in *.
  assert (length newTransitions <= length (v_transitions V))%nat as Hless by apply length_filter.
  assert (node_transitions node1 (with_nodes dfa (<[i :=N node1]> (nodes dfa))) = Some (v_transitions V)) as Hts
    by exact (node_transitions_view dfa Hly node Hw).
  assert (N.of_nat (length (v_transitions V)) + (if hasFallbackTransition node then 1 else 0) = slots node) as Havail
    by (unfold slots; rewrite Hlen; done).
  unfold rewrite_transitions. rewrite Hts. run_option. fold newTransitions. rewrite Havail.
  set (size := N.of_nat (length newTransitions)) in *.
  rewrite (proj2 (N.leb_le _ _) Hroom). run_option. cbn [transitions nodes with_nodes].
  change (m_transitionsStart node1) with (m_transitionsStart node).
  destruct (write_all_spec (transitions dfa) (m_transitionsStart node) newTransitions) as (t1 & -> & Hl1 & Hs1); [lia|lia|].
  run_option. destruct (fill_spec t1 (m_transitionsStart node) size (slots node) (max8, max32)) as (t2 & -> & Hl2 & Hs2); [lia|lia|].
  run_option. rewrite wrap32_id by lia.
  rewrite (proj2 (vec_set_Some t2 (m_transitionsStart node + size) _ _)) by (split; [lia|reflexivity]). run_option.
  set (node' := resetTransitions node1 (m_transitionsStart node) size).
  rewrite (proj2 (vec_set_Some _ i node' _)) by (split; [rewrite length_insert; by apply lookup_lt_Some in Hn|reflexivity]).
  run_option. rewrite list_insert_insert_eq.
  set (t3 := <[m_transitionsStart node + size :=N (max8, f)]> t2).
  set (dfa' := with_nodes _ _).
  assert (m_transitionsLength node' = size) as Hsize by (cbn; rewrite wrap8_id by lia; done).
  assert (hasFallbackTransition node' = true) as Hfb by apply (fallback_flag node true).
  assert (slots node' = size + 1) as Hslots by (unfold slots; rewrite Hsize, Hfb; done).
  assert (length t3 = length (transitions dfa)) as Hl3 by (unfold t3; rewrite length_insert; congruence).
  assert (forall k, k <> m_transitionsStart node + size -> t3 !!N k = t2 !!N k) as Hs3.
  { intros k Hk. apply list_lookup_insert_ne. lia. }
  exists dfa', node'. split; [done|]. split; [|split].
  - split; try done.
    + intros k Hk. cbn [transitions dfa' with_nodes with_transitions]. rewrite Hs3 by lia. rewrite Hs2 by lia.
      rewrite Hs1. by rewrite decide_False by lia.
    + intros k. rewrite Hslots. change (m_transitionsStart node') with (m_transitionsStart node). lia.
    + split; [|done]. rewrite Hslots. change (m_transitionsStart node') with (m_transitionsStart node).
      change (transitions dfa') with t3. lia.
  - unfold node_view at 1. rewrite Hfb, Hsize. change (m_transitionsStart node') with (m_transitionsStart node).
    change (transitions dfa') with t3. f_equal.
    + apply slice_eq; [lia|done|]. intros j Hj. rewrite Hs3 by lia. rewrite Hs2 by lia.
      rewrite Hs1, decide_True by lia. f_equal. lia.
    + unfold t3. rewrite list_lookup_insert_eq by lia. done.
  - apply (killed_flag node true).
Qed.

Lemma simplify_node_spec : exists dfa' node', simplify_node dfa i = Some dfa' /\ changes dfa dfa' i node node' /\
  node_view dfa' node' = simplified V /\ isKilled node' = isKilled node.
Proof.
  pose proof (ly_within _ Hly i node Hn) as Hw. pose proof (ly_nodes _ Hly) as Hnodes.
  unfold simplify_node. rewrite Hn. run_option. rewrite (wants_fallback_view dfa Hly i node Hn). run_option.
  rewrite (node_transitions_view dfa Hly node Hw). run_option.
  assert (exists a b,
    (if gap V then Some (best_target (v_transitions V)).1 else Some max32) = Some a /\
    (if hasFallbackTransition node then fallbackTransitionDestination node dfa else Some max32) = Some b /\
    (if a =? max32 then b else a) = default max32 (simplified_fallback V)) as (a & b & -> & Hb & Hab).
  { pose proof (simplified_fallback_lt dfa Hly i node Hn) as Hlt. unfold simplified_fallback in *.
    destruct (hasFallbackTransition node) eqn:Hf.
    - destruct (fallback_view dfa Hly node Hw Hf) as (t & -> & Hv). unfold gap in *. rewrite Hv in *.
      by eexists _, _.
    - rewrite (fallback_view_None dfa node Hf) in *. destruct (gap V); eexists _, _; (split_and!; [done..|]); [|done].
      specialize (Hlt _ eq_refl). destruct (_ =? max32) eqn:E; breflect; [|done]. unfold max32 in *. lia. }
  run_option. rewrite Hb. run_option. rewrite Hab.
  rewrite !(proj2 (vec_set_Some (nodes dfa) i _ _)) by (split; [by apply lookup_lt_Some in Hn|reflexivity]). run_option.
  destruct (simplified_fallback V) as [f|] eqn:Hf; simpl default.
  - pose proof (simplified_fallback_lt dfa Hly i node Hn f Hf). assert (f =? max32 = false) as -> by (apply N.eqb_neq; unfold max32; lia).
    cbn [negb]. destruct (rewrite_changes f _ Hf eq_refl) as (dfa' & node' & Hrun & Hch & Hv & Hk).
    exists dfa', node'. split_and!; [done|done| |done]. unfold simplified. by rewrite Hf.
  - change (max32 =? max32) with true. cbn [negb]. destruct (keep_changes Hf) as [Hch Hv].
    eexists _, (setHasFallbackTransitionWithoutChangingDFA node false). split_and!; [done|done| |apply killed_flag].
    unfold simplified. by rewrite Hf.
Qed.
End SimplifyStep.

(** ** The loop *)

(** [simplifyTransitions] returns, keeps the layout, and simplifies the view of each node. *)
Lemma simplifyTransitions_views dfa : layout dfa ->
  exists dfa', simplifyTransitions dfa = Some dfa' /\ layout dfa' /\ length (nodes dfa') = length (nodes dfa) /\
    root dfa' = root dfa /\
    forall j node, nodes dfa !!N j = Some node -> exists node', nodes dfa' !!N j = Some node' /\
      node_view dfa' node' = simplified (node_view dfa node) /\ isKilled node' = isKilled node.
Proof.
  intros Hly. unfold simplifyTransitions.
  assert (forall m, m <= N.of_nat (length (nodes dfa)) -> exists dfa',
    foldM simplify_node dfa (for_range 0 m) = Some dfa' /\ layout dfa' /\ length (nodes dfa') = length (nodes dfa) /\
    root dfa' = root dfa /\
    forall j node, nodes dfa !!N j = Some node -> exists node', nodes dfa' !!N j = Some node' /\
      node_view dfa' node' = (if decide (j < m) then simplified (node_view dfa node) else node_view dfa node) /\
      isKilled node' = isKilled node) as Hloop.
  { intros m. induction m as [|m IH] using N.peano_ind; intros Hm.
    - exists dfa. split_and!; [done..|]. intros j node Hj. exists node. by rewrite decide_False by lia.
    - rewrite <- N.add_1_r in *. destruct IH as (d1 & Hrun & Hly1 & Hl1 & Hr1 & Hv1); [lia|].
      rewrite for_range_snoc by lia. rewrite foldM_app, Hrun. run_option. cbn [foldM].
      destruct (lookupN_is_Some (nodes d1) m) as [node1 Hn1]; [lia|].
      destruct (simplify_node_spec d1 Hly1 m node1 Hn1) as (d2 & node2 & -> & Hch & Hv2 & Hk2). run_option.
      exists d2. split_and!; [done| |by rewrite (changes_count _ _ _ _ _ Hch)|by rewrite (ch_root _ _ _ _ _ Hch)|].
      + eapply changes_layout; [done..|]. rewrite Hv2. by apply (simplified_ok d1 Hly1 m).
      + intros j node Hj. destruct (Hv1 j node Hj) as (node' & Hn' & Hv' & Hk').
        rewrite (changes_lookup d1 d2 m node1 node2 Hn1 Hch). destruct (decide (m = j)) as [Hmj|Hmj].
        * subst j. simplify_eq. exists node2. rewrite decide_False in Hv' by lia. rewrite decide_True by lia.
          split_and!; [done| |congruence]. by rewrite Hv2, Hv'.
        * exists node'. split_and!; [done| |done]. rewrite (changes_others d1 d2 m node1 node2 Hly1 Hn1 Hch j node') by done.
          rewrite Hv'. destruct (decide (j < m)), (decide (j < m + 1)); (done || lia). }
  destruct (Hloop (N.of_nat (length (nodes dfa)))) as (dfa' & Hrun & ? & ? & ? & Hv); [done|].
  exists dfa'. split_and!; [done..|]. intros j node Hj. destruct (Hv j node Hj) as (node' & ? & Hv' & ?).
  exists node'. rewrite decide_True in Hv' by (by apply lookupN_lt in Hj). done.
Qed.

(** ** Steps of a simplified view *)

(** Without the guard's mistake the steps on characters are the same, and the step
    on the end of the input can only be lost where it leads where the fallback does. *)
Lemma simplified_steps n v c : view_ok n v -> gap v = false ->
  step_view (simplified v) c = step_view v c \/
  (c = 0 /\ step_view (simplified v) 0 = None /\ exists f, v_fallback v = Some f /\ step_view v 0 = Some f).
Proof.
  intros (Hnd & _ & _) Hgap. unfold simplified, simplified_fallback. rewrite Hgap.
  destruct (v_fallback v) as [f|] eqn:Hf; [|by left]. unfold step_view. cbn [v_transitions v_fallback]. rewrite Hf.
  set (ts := v_transitions v) in *.
  destruct (find_transition c ts) as [t|] eqn:Ht.
  - apply find_transition_Some in Ht. destruct (decide (t = f)) as [->|Hne].
    + assert (find_transition c (filter (fun t : N * N => t.2 <> f) ts) = None) as Hnone.
      { apply find_transition_None. intros ([c' t] & -> & [Hne Hin]%list_elem_of_filter)%list_elem_of_fmap. simpl in *.
        apply (find_transition_elem _ _ _ Hnd) in Hin, Ht. congruence. }
      rewrite Hnone. destruct (c =? 0) eqn:Hc; breflect; [right|by left]. subst. rewrite Hnone.
      split_and!; [done|done|]. exists f. split; [done|]. by rewrite (find_transition_elem _ _ _ Hnd Ht).
    + left. rewrite (find_transition_elem c _ t); [done| |].
      * eapply sublist_NoDup; [done|]. apply fmap_sublist, sublist_filter.
      * by apply list_elem_of_filter.
  - left. assert (find_transition c (filter (fun t : N * N => t.2 <> f) ts) = None) as ->; [|done].
    apply find_transition_None. apply find_transition_None in Ht. intros (t & -> & [_ Hin]%list_elem_of_filter)%list_elem_of_fmap.
    apply Ht, list_elem_of_fmap. by exists t.
Qed.
