(* ===== verification/Minimize.v ===== *)
(** * [DFAMinimizer::minimize] is correct

    The nodes that are not the first of their set are killed, the others' targets
    are replaced by the first nodes of their sets.  The automaton that results
    triggers the same actions.  Then the theorem, its witness, and the two inputs
    on which the code changes what the automaton does. *)

From S2P Require Import Prelude HashTable DFA DFABytecode DFABytecodeCompiler DFABytecodeInterpreter BytecodeCorrect Bytecode DFAViews Partition DFAMinimizer Refinement MinimizerPartition SimplifyTransitions.

(** ** Killing a node *)

Definition killedNode : DFANode := mkDFANode 0 0 0 0 IsKilled.
Definition emptyView : view := mkView [] None [].

Lemma overwrite_spec {A} (v : list A) a b x : b <= N.of_nat (length v) ->
  exists v', foldM (fun v i => vec_set v i x) v (for_range a b) = Some v' /\ length v' = length v /\
    forall k, ~ a <= k < b -> v' !!N k = v !!N k.
Proof.
  intros Hle.
  destruct (foldM_total (fun v i => vec_set v i x) (fun v' => length v' = length v /\
    forall k, ~ a <= k < b -> v' !!N k = v !!N k) (for_range a b)) with (s := v) as (v' & -> & ? & ?).
  - intros v1 i Hi%elem_of_for_range [Hl Hs].
    destruct (vec_set v1 i x) as [v2|] eqn:E; [|unfold vec_set in E; case_match; breflect; [done|lia]].
    exists v2. split_and!; [done|by rewrite (vec_set_length _ _ _ _ E)|]. intros k Hk.
    rewrite (vec_set_lookup _ _ _ _ k E). case_decide; [lia|]. by apply Hs.
  - done.
  - by exists v'.
Qed.

Section Kill.
Context (dfa : DFA) (Hly : layout dfa) (i : N) (node : DFANode) (Hn : nodes dfa !!N i = Some node).

Lemma kill_changes : exists d, kill node dfa = Some (killedNode, d) /\
  changes dfa (with_nodes d (<[i :=N killedNode]> (nodes d))) i node killedNode /\ nodes d = nodes dfa /\
  node_view (with_nodes d (<[i :=N killedNode]> (nodes d))) killedNode = emptyView.
Proof.
  pose proof (ly_within _ Hly i node Hn) as Hw. pose proof Hw as [Ht Ha]. unfold slots in Ht.
  pose proof (ly_actions _ Hly). unfold kill. rewrite (transitions_end dfa Hly node Hw).
  destruct (overwrite_spec (transitions dfa) (m_transitionsStart node) (m_transitionsStart node + m_transitionsLength node) (max8, max32))
    as (t & -> & Hlt & Hst); [lia|]. run_option. rewrite wrap32_id by lia.
  destruct (overwrite_spec (actions dfa) (m_actionsStart node) (m_actionsStart node + m_actionsLength node) max64)
    as (a & -> & Hla & Hsa); [lia|]. run_option.
  exists (mkDFA a t (nodes dfa) (root dfa)). split_and!; [done| |done|done].
  assert (slots killedNode = 0) as Hslots by done.
  split; try done; cbn [transitions actions with_nodes].
  - intros k Hk. apply Hst. unfold slots in Hk. lia.
  - intros k. rewrite Hslots. cbn. lia.
  - intros k. cbn. lia.
  - split; [rewrite Hslots|]; cbn; lia.
Qed.
End Kill.

(** ** The nodes that stay *)

Section Replacement.
Context (n : N) (g : FullGraphPartition) (Hwf : partition_wf n [] (m_nodePartition g)).

(** The first node of the set of [i]. *)
Definition first_node (i : N) : N := default i (nodeReplacement g i).

Lemma nodeReplacement_first i : i < n -> nodeReplacement g i = Some (first_node i) /\ first_node i < n /\
  same (m_nodePartition g) i (first_node i).
Proof.
  intros Hi. destruct (element_class n [] _ Hwf i Hi) as (c & _ & _ & Hc & _). unfold first_node, nodeReplacement, setIndex.
  destruct (firstElementInSet_spec n [] _ Hwf c i Hc) as (r & Hr & Hin). pose proof Hc as Hc'. unfold in_set in Hc'. rewrite Hc'. run_option.
  rewrite Hr. simpl. split_and!; [done|by apply (in_set_lt n [] _ Hwf c)|]. unfold same, in_set in *. congruence.
Qed.

Lemma first_node_same i j : same (m_nodePartition g) i j -> i < n -> first_node i = first_node j.
Proof.
  unfold same, first_node, nodeReplacement, setIndex. intros Hs Hi. rewrite <- Hs.
  destruct (element_class n [] _ Hwf i Hi) as (c & _ & _ & Hc & _). pose proof Hc as Hc'. unfold in_set in Hc'. rewrite Hc'. run_option.
  destruct (firstElementInSet_spec n [] _ Hwf c i Hc) as (r & -> & _). done.
Qed.

Lemma first_node_idemp i : i < n -> first_node (first_node i) = first_node i.
Proof.
  intros Hi. destruct (nodeReplacement_first i Hi) as (_ & _ & Hs). symmetry. by apply first_node_same.
Qed.
End Replacement.

(** ** [kill_nodes] *)

(** [node] is what is left of the node [j] of [dfa] when the nodes below [m] have been considered. *)
Definition survives (dfa d : DFA) (g : FullGraphPartition) (m j : N) (node : DFANode) : Prop :=
  if decide (j < m /\ first_node g j <> j)
  then nodes d !!N j = Some killedNode /\ node_view d killedNode = emptyView
  else nodes d !!N j = Some node /\ node_view d node = node_view dfa node.

Lemma kill_nodes_views dfa g : layout dfa -> partition_wf (N.of_nat (length (nodes dfa))) [] (m_nodePartition g) ->
  exists d reloc, kill_nodes g dfa = Some (d, reloc) /\ layout d /\ length (nodes d) = length (nodes dfa) /\ root d = root dfa /\
    (forall j, j < N.of_nat (length (nodes dfa)) -> reloc !!N j = Some (first_node g j)) /\
    forall j node, nodes dfa !!N j = Some node -> survives dfa d g (N.of_nat (length (nodes dfa))) j node.
Proof.
  intros Hly Hwf. unfold kill_nodes. set (n := N.of_nat (length (nodes dfa))) in *.
  set (body := fun (state : DFA * list N) i => replacement ← nodeReplacement g i; _).
  assert (forall m, m <= n -> exists d reloc, foldM body (dfa, for_range 0 n) (for_range 0 m) = Some (d, reloc) /\
    layout d /\ length (nodes d) = length (nodes dfa) /\ root d = root dfa /\ length reloc = N.to_nat n /\
    (forall j, j < n -> reloc !!N j = Some (if decide (j < m) then first_node g j else j)) /\
    forall j node, nodes dfa !!N j = Some node -> survives dfa d g m j node) as Hloop.
  { intros m. induction m as [|m IH] using N.peano_ind; intros Hm.
    - exists dfa, (for_range 0 n). split_and!; [done..|rewrite length_for_range; lia| |].
      + intros j Hj. rewrite decide_False by lia. apply lookup_for_range. lia.
      + intros j node Hj. unfold survives. by rewrite decide_False by lia.
    - rewrite <- N.add_1_r in *. destruct IH as (d & reloc & Hrun & Hlyd & Hld & Hrd & Hlr & Hreloc & Hv); [lia|].
      rewrite for_range_snoc by lia. rewrite foldM_app, Hrun. run_option. cbn [foldM]. unfold body at 1. cbn [fst snd].
      destruct (nodeReplacement_first n g Hwf m) as (-> & Hlt & _); [lia|]. run_option.
      destruct (m =? first_node g m) eqn:Hrep; breflect.
      + run_option. exists d, reloc. split_and!; [done..| |].
        * intros j Hj. rewrite Hreloc by done. destruct (decide (j = m)) as [->|].
          -- rewrite decide_False, decide_True by lia. congruence.
          -- destruct (decide (j < m)), (decide (j < m + 1)); (done || lia).
        * intros j node Hj. specialize (Hv j node Hj). unfold survives in *. destruct (decide (j = m)) as [->|].
          -- rewrite decide_False in Hv by lia. rewrite decide_False; [done|]. intros [_ ?]. congruence.
          -- destruct (decide (j < m /\ first_node g j <> j)), (decide (j < m + 1 /\ first_node g j <> j)); (done || lia).
      + rewrite (proj2 (vec_set_Some reloc m _ _)) by (split; [lia|reflexivity]). run_option.
        destruct (lookupN_is_Some (nodes dfa) m) as [node0 Hn0]; [unfold n in *; lia|].
        pose proof (Hv m node0 Hn0) as Hvm. unfold survives in Hvm. rewrite decide_False in Hvm by lia. destruct Hvm as [Hnm Hvm].
        rewrite Hnm. run_option. destruct (kill_changes d Hlyd m node0 Hnm) as (k & -> & Hch & Hnk & Hvk). run_option. cbn [fst snd].
        rewrite (proj2 (vec_set_Some (nodes k) m _ _)) by (split; [rewrite Hnk, Hld; unfold n in *; lia|reflexivity]).
        run_option. eexists _, _. split; [reflexivity|]. split_and!.
        * eapply changes_layout; [done|exact Hnm|done|]. rewrite Hvk. split_and!; [constructor|constructor|done].
        * rewrite (changes_count _ _ _ _ _ Hch). done.
        * by rewrite (ch_root _ _ _ _ _ Hch).
        * by rewrite length_insert.
        * intros j Hj. destruct (decide (j = m)) as [->|].
          -- rewrite list_lookup_insert_eq by lia. by rewrite decide_True by lia.
          -- rewrite list_lookup_insert_ne by lia. rewrite Hreloc by done.
             destruct (decide (j < m)), (decide (j < m + 1)); (done || lia).
        * intros j node Hj. specialize (Hv j node Hj). unfold survives in *.
          rewrite (changes_lookup _ _ _ _ _ Hnm Hch j).
          destruct (decide (m = j)) as [<-|Hmj].
          -- rewrite decide_True by (split; [lia|done]). done.
          -- assert (forall x, nodes d !!N j = Some x ->
               node_view (with_nodes k (<[m:=N killedNode]> (nodes k))) x = node_view d x) as Hkeep.
             { intros x Hx. eapply changes_others; [done|exact Hnm|done| |exact Hx]. congruence. }
             destruct (decide (j < m /\ first_node g j <> j)), (decide (j < m + 1 /\ first_node g j <> j)); try lia;
               destruct Hv as [Hj1 Hv1]; by rewrite (Hkeep _ Hj1). }
  destruct (Hloop n) as (d & reloc & Hrun & ? & ? & ? & ? & Hreloc & Hv); [done|].
  exists d, reloc. split_and!; try done. intros j Hj. rewrite Hreloc by done. by rewrite decide_True by done.
Qed.

(** ** Relocating the targets *)

Definition relocated (r : N -> N) (v : view) : view :=
  mkView ((fun t : N * N => (t.1, r t.2)) <$> v_transitions v) (r <$> v_fallback v) (v_actions v).

Section Relocate.
Context (r : N -> N) (reloc : list N) (dfa : DFA) (Hly : layout dfa).
Notation n := (N.of_nat (length (nodes dfa))).
Context (Hreloc : forall j, j < n -> reloc !!N j = Some (r j)) (Hr : forall j, j < n -> r j < n).
Context (i : N) (node : DFANode) (Hn : nodes dfa !!N i = Some node).
Notation V := (node_view dfa node).

Lemma relocated_ok v : view_ok n v -> view_ok n (relocated r v).
Proof.
  intros (Hnd & Hall & Hfb). split_and!; cbn.
  - rewrite <- list_fmap_compose. by rewrite (list_fmap_ext _ fst) by done.
  - apply Forall_fmap. eapply Forall_impl; [done|]. intros [c t] [? ?]. simpl in *. auto.
  - intros t (f & Hf & ->)%fmap_Some. auto.
Qed.

Lemma relocate_transitions : exists t,
  foldM (fun t i =>
      nodeTransition ← v_transitions V !!N i;
      destination ← reloc !!N nodeTransition.2;
      old ← t !!N wrap32 (m_transitionsStart node + i);
      vec_set t (wrap32 (m_transitionsStart node + i)) (old.1, destination))
    (transitions dfa) (for_range 0 (m_transitionsLength node)) = Some t /\
  length t = length (transitions dfa) /\
  forall k, t !!N k = if decide (m_transitionsStart node <= k < m_transitionsStart node + m_transitionsLength node)
    then (fun t => (t.1, r t.2)) <$> transitions dfa !!N k else transitions dfa !!N k.
Proof.
  pose proof (ly_within _ Hly i node Hn) as Hw. pose proof Hw as [Ht _]. unfold slots in Ht.
  pose proof (ly_transitions _ Hly) as Hb. destruct (ly_views _ Hly i node Hn) as (_ & Hall & _).
  set (start := m_transitionsStart node) in *. set (len := m_transitionsLength node) in *.
  assert (forall m, m <= len -> exists t, foldM (fun t i =>
      nodeTransition ← v_transitions V !!N i;
      destination ← reloc !!N nodeTransition.2;
      old ← t !!N wrap32 (start + i);
      vec_set t (wrap32 (start + i)) (old.1, destination)) (transitions dfa) (for_range 0 m) = Some t /\
    length t = length (transitions dfa) /\
    forall k, t !!N k = if decide (start <= k < start + m)
      then (fun t => (t.1, r t.2)) <$> transitions dfa !!N k else transitions dfa !!N k) as Hloop; [|by apply Hloop].
  intros m. induction m as [|m IH] using N.peano_ind; intros Hm.
  - exists (transitions dfa). split_and!; [done..|]. intros k. by rewrite decide_False by lia.
  - rewrite <- N.add_1_r in *. destruct IH as (t1 & Hrun & Hl1 & Hs1); [lia|].
    rewrite for_range_snoc by lia. rewrite foldM_app, Hrun. run_option. cbn [foldM].
    assert (v_transitions V !!N m = transitions dfa !!N (start + m)) as -> by (apply lookup_slice; lia).
    destruct (lookupN_is_Some (transitions dfa) (start + m)) as [[c t] Hct]; [lia|]. rewrite Hct. run_option. cbn [snd].
    assert ((c, t) ∈ v_transitions V) as Hin.
    { apply (list_elem_of_lookup_2 _ (N.to_nat m)). rewrite <- Hct. apply lookup_slice. lia. }
    rewrite Forall_forall in Hall. apply Hall in Hin as [_ Htn]. cbn in Htn. rewrite (Hreloc t) by done. run_option.
    rewrite wrap32_id by lia. rewrite Hs1, decide_False by lia. rewrite Hct. run_option. cbn [fst].
    rewrite (proj2 (vec_set_Some t1 (start + m) _ _)) by (split; [lia|reflexivity]). run_option.
    eexists. split_and!; [reflexivity|by rewrite length_insert|]. intros k. destruct (decide (k = start + m)) as [->|Hk].
    + rewrite list_lookup_insert_eq by lia. rewrite decide_True by lia. by rewrite Hct.
    + rewrite list_lookup_insert_ne by lia. rewrite Hs1.
      destruct (decide (start <= k < start + m)), (decide (start <= k < start + (m + 1))); (done || lia).
Qed.

Lemma relocate_node_changes : exists d, relocate_node reloc dfa node = Some d /\ changes dfa d i node node /\
  nodes d = nodes dfa /\ node_view d node = relocated r V.
Proof.
  pose proof (ly_within _ Hly i node Hn) as Hw. pose proof Hw as [Ht Ha]. pose proof (length_view dfa node Hw) as Hlen.
  pose proof (ly_transitions _ Hly) as Hb. destruct (ly_views _ Hly i node Hn) as (_ & _ & Hfb).
  destruct relocate_transitions as (t & Hrun & Hl & Hs). unfold slots in Ht.
  assert (forall d, nodes d = nodes dfa -> root d = root dfa -> actions d = actions dfa ->
    length (transitions d) = length (transitions dfa) ->
    (forall k, ~ m_transitionsStart node <= k < m_transitionsStart node + slots node ->
       transitions d !!N k = transitions dfa !!N k) -> changes dfa d i node node) as Hchanges.
  { intros d Hdn Hdr Hda Hdl Hdt. split; rewrite ?Hdn, ?Hda; try done.
    - symmetry. by apply list_insert_id.
    - split; [rewrite Hdl; unfold slots; done|by rewrite Hda]. }
  assert (forall d, (forall k, m_transitionsStart node <= k < m_transitionsStart node + m_transitionsLength node ->
      transitions d !!N k = t !!N k) -> length (transitions d) = length (transitions dfa) ->
    slice (transitions d) (m_transitionsStart node) (m_transitionsLength node) =
    (fun t : N * N => (t.1, r t.2)) <$> v_transitions V) as Hslice.
  { intros d Hd Hdl. apply slice_eq; [lia|by rewrite length_fmap|]. intros j Hj. rewrite Hd by lia.
    rewrite Hs, decide_True by lia. rewrite list_lookup_fmap. f_equal. symmetry. by apply lookup_slice. }
  unfold relocate_node. rewrite (node_transitions_view dfa Hly node Hw). run_option. rewrite Hrun. run_option.
  destruct (hasFallbackTransition node) eqn:Hf.
  - destruct (lookupN_is_Some (transitions dfa) (m_transitionsStart node + m_transitionsLength node)) as [[c f] Hcf]; [lia|].
    assert (t !!N (m_transitionsStart node + m_transitionsLength node) = Some (c, f)) as Htf by (rewrite Hs, decide_False by lia; done).
    assert (f < n) as Hfn by (apply Hfb; unfold node_view; cbn; by rewrite Hf, Hcf).
    unfold fallbackTransitionDestination, changeFallbackTransition. rewrite Hf. run_option. cbn [transitions with_transitions].
    rewrite (transitions_end dfa Hly node Hw), Htf. run_option. cbn [snd]. rewrite Hreloc by done. run_option.
    rewrite (proj2 (vec_set_Some t _ _ _)) by (split; [lia|reflexivity]). run_option.
    set (t' := <[_ :=N _]> t). assert (length t' = length t) as Hl' by apply length_insert.
    assert (forall k, k <> m_transitionsStart node + m_transitionsLength node -> t' !!N k = t !!N k) as Hs'.
    { intros k Hk. apply list_lookup_insert_ne. lia. }
    eexists. split_and!; [reflexivity| |done|].
    + apply Hchanges; cbn; try done; [congruence|]. intros k Hk. unfold slots in Hk. rewrite Hf in Hk.
      rewrite Hs' by lia. rewrite Hs. by rewrite decide_False by lia.
    + unfold node_view at 1. rewrite Hf. cbn [transitions actions with_transitions]. unfold relocated. f_equal.
      * apply (Hslice (with_transitions dfa t')); cbn; [|congruence]. intros k Hk. apply Hs'. lia.
      * unfold t'. rewrite list_lookup_insert_eq by lia. unfold node_view. cbn. by rewrite Hf, Hcf.
  - exists (with_transitions dfa t). split_and!; [done| |done|].
    + apply Hchanges; try done. intros k Hk. unfold slots in Hk. cbn. rewrite Hs. by rewrite decide_False by lia.
    + unfold node_view at 1. rewrite Hf. unfold relocated. f_equal.
      * by apply (Hslice (with_transitions dfa t)).
      * unfold node_view. cbn. by rewrite Hf.
Qed.
End Relocate.

(** The loop on the nodes. *)
Lemma relocate_nodes_views r reloc dfa : layout dfa ->
  (forall j, j < N.of_nat (length (nodes dfa)) -> reloc !!N j = Some (r j)) ->
  (forall j, j < N.of_nat (length (nodes dfa)) -> r j < N.of_nat (length (nodes dfa))) ->
  exists d, foldM (relocate_node reloc) dfa (nodes dfa) = Some d /\ layout d /\ nodes d = nodes dfa /\ root d = root dfa /\
    forall j node, nodes dfa !!N j = Some node -> node_view d node = relocated r (node_view dfa node).
Proof.
  intros Hly Hreloc Hr. rewrite foldM_nodes. set (n := N.of_nat (length (nodes dfa))) in *.
  assert (forall m, m <= n -> exists d,
    foldM (fun s i => node ← nodes dfa !!N i; relocate_node reloc s node) dfa (for_range 0 m) = Some d /\
    layout d /\ nodes d = nodes dfa /\ root d = root dfa /\
    forall j node, nodes dfa !!N j = Some node ->
      node_view d node = if decide (j < m) then relocated r (node_view dfa node) else node_view dfa node) as Hloop.
  { intros m. induction m as [|m IH] using N.peano_ind; intros Hm.
    - exists dfa. split_and!; [done..|]. intros j node Hj. by rewrite decide_False by lia.
    - rewrite <- N.add_1_r in *. destruct IH as (d & Hrun & Hlyd & Hnd & Hrd & Hv); [lia|].
      rewrite for_range_snoc by lia. rewrite foldM_app, Hrun. run_option. cbn [foldM].
      destruct (lookupN_is_Some (nodes dfa) m) as [node Hn]; [unfold n in *; lia|]. rewrite Hn. run_option.
      pose proof Hn as Hnd'. rewrite <- Hnd in Hnd'.
      destruct (relocate_node_changes r reloc d Hlyd) with (i := m) (node := node) as (d' & -> & Hch & Hnd2 & Hv2); [by rewrite Hnd..|done|].
      run_option. exists d'. split_and!; [done| |congruence|by rewrite (ch_root _ _ _ _ _ Hch)|].
      + eapply changes_layout; [done|exact Hnd'|done|]. rewrite Hv2. apply relocated_ok; [by rewrite Hnd|].
        by apply (ly_views _ Hlyd m).
      + intros j other Hj. destruct (decide (j = m)) as [->|Hjm].
        * simplify_eq. rewrite decide_True by lia. rewrite Hv2, (Hv m) by done. by rewrite decide_False by lia.
        * rewrite (changes_others d d' m node node Hlyd Hnd' Hch j other) by (done || by rewrite Hnd). rewrite (Hv j) by done.
          destruct (decide (j < m)), (decide (j < m + 1)); (done || lia). }
  destruct (Hloop n) as (d & Hrun & ? & ? & ? & Hv); [done|]. exists d. split_and!; try done.
  intros j node Hj. rewrite (Hv j node Hj). rewrite decide_True; [done|]. by apply lookupN_lt in Hj.
Qed.

(** ** Steps through the rewritings *)

Lemma find_transition_relocated r c ts :
  find_transition c ((fun t : N * N => (t.1, r t.2)) <$> ts) = r <$> find_transition c ts.
Proof. induction ts as [|[c' t] ts IH]; simpl; [done|]. destruct (c' =? c); [done|apply IH]. Qed.

Lemma step_relocated r v c : step_view (relocated r v) c = r <$> step_view v c.
Proof.
  unfold step_view, relocated. cbn [v_transitions v_fallback]. rewrite find_transition_relocated.
  destruct (find_transition c (v_transitions v)); [done|]. by destruct (c =? 0).
Qed.

Lemma gap_relocated r v : gap (relocated r v) = gap v.
Proof.
  unfold gap, relocated. cbn [v_transitions v_fallback]. destruct (v_fallback v); [done|]. cbn [fmap option_fmap option_map].
  rewrite length_fmap, <- list_fmap_compose. by rewrite (list_fmap_ext _ fst) by done.
Qed.

Lemma gap_simplified v : gap v = false -> gap (simplified v) = false.
Proof.
  intros Hg. unfold simplified, simplified_fallback. rewrite Hg. by destruct (v_fallback v) eqn:E.
Qed.

Lemma simplified_fallback_same v : gap v = false -> v_fallback (simplified v) = v_fallback v.
Proof. intros Hg. unfold simplified, simplified_fallback. rewrite Hg. by destruct (v_fallback v) eqn:E. Qed.

Lemma simplified_actions v : v_actions (simplified v) = v_actions v.
Proof. unfold simplified. by destruct (simplified_fallback v). Qed.

Lemma simplified_empty r : simplified (relocated r emptyView) = emptyView.
Proof. done. Qed.

(** ** The views of the nodes that are alike *)

Lemma layout_plain dfa : layout dfa -> plain_dfa dfa.
Proof.
  intros Hly. split; [|apply (ly_nodes _ Hly)]. intros i node Hn. pose proof (ly_within _ Hly i node Hn) as Hw.
  destruct (ly_views _ Hly i node Hn) as (Hnd & Hall & Hfb). split.
  - exists (v_transitions (node_view dfa node)). split; [by apply node_transitions_view|]. by split.
  - intros Hf. destruct (fallback_view dfa Hly node Hw Hf) as (t & ? & Ht). exists t. split; [done|]. by apply Hfb.
Qed.

Section Alike.
Context (dfa : DFA) (Hly : layout dfa) (nm : list N) (r : N -> N).
Context (Hr : forall a b, a < N.of_nat (length (nodes dfa)) -> nm !!N a = nm !!N b -> r a = r b).
Context (p q : N) (P Q : DFANode) (HP : nodes dfa !!N p = Some P) (HQ : nodes dfa !!N q = Some Q).

Lemma alike_transition c t : alike dfa nm p q -> (c, t) ∈ v_transitions (node_view dfa P) ->
  exists t', (c, t') ∈ v_transitions (node_view dfa Q) /\ r t = r t'.
Proof.
  intros [_ Ht _] Hin.
  destruct (Ht P _ c t HP (node_transitions_view dfa Hly P (ly_within _ Hly p P HP)) Hin) as (Q' & ts' & t' & HQ' & Hts' & Hin' & Hnm).
  simplify_eq. rewrite (node_transitions_view dfa Hly Q (ly_within _ Hly q Q HQ)) in Hts'. injection Hts' as <-.
  exists t'. split; [done|]. apply Hr; [|done]. destruct (ly_views _ Hly p P HP) as (_ & Hall & _).
  rewrite Forall_forall in Hall. by apply Hall in Hin as [_ ?].
Qed.

Lemma alike_fallback_view f : alike dfa nm p q -> v_fallback (node_view dfa P) = Some f ->
  exists f', v_fallback (node_view dfa Q) = Some f' /\ r f = r f'.
Proof.
  intros [_ _ Hfb] Hf. destruct (ly_views _ Hly p P HP) as (_ & _ & Hlt). pose proof (Hlt f Hf) as Hfn.
  destruct (hasFallbackTransition P) eqn:HfP; [|by rewrite fallback_view_None in Hf].
  destruct (fallback_view dfa Hly P (ly_within _ Hly p P HP) HfP) as (f0 & Hf0 & Heq). rewrite Hf in Heq. simplify_eq.
  destruct (Hfb P f0 HP HfP Hf0) as (Q' & f' & HQ' & HfQ & Hf' & Hnm). simplify_eq.
  destruct (fallback_view dfa Hly Q (ly_within _ Hly q Q HQ) HfQ) as (f1 & Hf1 & Heq). simplify_eq.
  exists f'. split; [done|]. by apply Hr.
Qed.
End Alike.

Lemma alike_steps dfa nm (r : N -> N) p q P Q c : layout dfa ->
  (forall a b, a < N.of_nat (length (nodes dfa)) -> nm !!N a = nm !!N b -> r a = r b) ->
  nodes dfa !!N p = Some P -> nodes dfa !!N q = Some Q -> alike dfa nm p q -> alike dfa nm q p ->
  r <$> step_view (node_view dfa P) c = r <$> step_view (node_view dfa Q) c.
Proof.
  intros Hly Hr HP HQ Hpq Hqp.
  destruct (ly_views _ Hly p P HP) as (HndP & _ & _), (ly_views _ Hly q Q HQ) as (HndQ & _ & _).
  unfold step_view. destruct (find_transition c (v_transitions (node_view dfa P))) as [t|] eqn:HtP.
  - apply find_transition_Some in HtP. destruct (alike_transition dfa Hly nm r Hr p q P Q HP HQ c t Hpq HtP) as (t' & Hin & Hrt).
    rewrite (find_transition_elem _ _ _ HndQ Hin). simpl. by rewrite Hrt.
  - destruct (find_transition c (v_transitions (node_view dfa Q))) as [t|] eqn:HtQ.
    + apply find_transition_Some in HtQ. destruct (alike_transition dfa Hly nm r Hr q p Q P HQ HP c t Hqp HtQ) as (t' & Hin & _).
      rewrite (find_transition_elem _ _ _ HndP Hin) in HtP. done.
    + destruct (c =? 0); [done|].
      destruct (v_fallback (node_view dfa P)) as [f|] eqn:HfP.
      * destruct (alike_fallback_view dfa Hly nm r Hr p q P Q HP HQ f Hpq HfP) as (f' & -> & Hrf). simpl. by rewrite Hrf.
      * destruct (v_fallback (node_view dfa Q)) as [f|] eqn:HfQ; [|done].
        destruct (alike_fallback_view dfa Hly nm r Hr q p Q P HQ HP f Hqp HfQ) as (f' & ? & _). congruence.
Qed.

(** ** The minimized automaton *)

Definition no_gap (dfa : DFA) : Prop := forall i node, nodes dfa !!N i = Some node -> gap (node_view dfa node) = false.

(** The node [r i] of [d] stands for the node [i] of [dfa]. *)
Record stands_for (dfa d : DFA) (r : N -> N) (i : N) (node : DFANode) : Prop := {
  sf_lt : r i < N.of_nat (length (nodes dfa));
  sf_idemp : r (r i) = r i;
  sf_killed : r i <> i -> exists k, nodes d !!N i = Some k /\ isKilled k = true;
  sf_node : exists node', nodes d !!N r i = Some node' /\ isKilled node' = false /\
    v_actions (node_view d node') = v_actions (node_view dfa node) /\
    (v_fallback (node_view d node') = None <-> v_fallback (node_view dfa node) = None) /\
    forall c, step_view (node_view d node') c = r <$> step_view (node_view dfa node) c \/
      (c = 0 /\ step_view (node_view d node') 0 = None /\ exists t f, step_view (node_view dfa node) 0 = Some t /\
        v_fallback (node_view dfa node) = Some f /\ r t = r f)
}.

(** The composition of the two simplifications and of the relocation, on two nodes that are alike. *)
Lemma composed_steps n (r : N -> N) v v1j v2 c :
  view_ok n v -> view_ok n (relocated r v1j) -> gap v = false -> gap v1j = false ->
  (forall c, r <$> step_view (simplified v) c = r <$> step_view v1j c) ->
  (forall f, v_fallback v1j = Some f -> exists f', v_fallback (simplified v) = Some f' /\ r f = r f') ->
  v2 = simplified (relocated r v1j) ->
  step_view v2 c = r <$> step_view v c \/
  (c = 0 /\ step_view v2 0 = None /\ exists t f, step_view v 0 = Some t /\ v_fallback v = Some f /\ r t = r f).
Proof.
  intros Hv Hv1 Hgap Hgap1 Hsteps Hfb ->.
  destruct (simplified_steps n (relocated r v1j) c Hv1) as [Heq|(-> & Hnone & f & Hf & Hstep)]; [by rewrite gap_relocated| |].
  - rewrite Heq, step_relocated, <- Hsteps.
    destruct (simplified_steps n v c Hv Hgap) as [->|(-> & Hnone & f & Hf & Hstep)]; [by left|]. right.
    split; [done|]. split; [|by exists f, f]. by rewrite Heq, step_relocated, <- Hsteps, Hnone.
  - right. split; [done|]. split; [done|]. rewrite step_relocated, <- Hsteps in Hstep.
    apply fmap_Some in Hstep as (t & Ht & ->). cbn in Hf. apply fmap_Some in Hf as (f & Hf & Hrf).
    destruct (Hfb f Hf) as (f' & Hf' & Hrf'). exists t, f'.
    rewrite simplified_fallback_same in Hf' by done.
    destruct (simplified_steps n v 0 Hv Hgap) as [<-|(_ & Hnone' & _)]; [|congruence]. split_and!; [done|done|congruence].
Qed.

Lemma layout_with_root dfa x : layout dfa -> layout (with_root dfa x).
Proof.
  intros [? ? ? Hw Ha Hv]. split; try done. intros i node Hn. by destruct (Hw i node Hn).
Qed.

Lemma minimize_views `{HashOrder} dfa : layout dfa -> no_gap dfa ->
  (forall i node, nodes dfa !!N i = Some node -> isKilled node = false) -> root dfa < N.of_nat (length (nodes dfa)) ->
  exists d r, minimize dfa = Some d /\ layout d /\ length (nodes d) = length (nodes dfa) /\ root d = r (root dfa) /\
    forall i node, nodes dfa !!N i = Some node -> stands_for dfa d r i node.
Proof.
  intros Hly Hgap Hlive Hroot. set (n := N.of_nat (length (nodes dfa))) in *.
  destruct (simplifyTransitions_views dfa Hly) as (d1 & Hd1 & Hly1 & Hlen1 & Hroot1 & Hv1).
  pose proof (layout_plain _ Hly1) as Hplain1.
  destruct (partition_nodes_spec d1 Hplain1) as (g & Hg & Hwf & Halike).
  { apply (ly_actions _ Hly1). } { intros i node Hn. apply (wi_actions _ _ (ly_within _ Hly1 i node Hn)). }
  assert (node_count d1 = n) as Hn1 by (unfold node_count, n; by rewrite Hlen1). rewrite Hn1 in *.
  pose proof (nodeReplacement_first n g Hwf) as Hfirst. pose proof (first_node_same n g Hwf) as Hsame.
  pose proof (first_node_idemp n g Hwf) as Hidemp. set (r := first_node g) in *.
  destruct (kill_nodes_views d1 g Hly1) as (d2 & reloc & Hd2 & Hly2 & Hlen2 & Hroot2 & Hreloc & Hv2); [by rewrite Hlen1|].
  destruct (relocate_nodes_views r reloc d2 Hly2) as (d3 & Hd3 & Hly3 & Hnodes3 & Hroot3 & Hv3).
  { rewrite Hlen2. apply Hreloc. } { rewrite Hlen2, Hlen1. intros j Hj. apply (Hfirst j Hj). }
  destruct (simplifyTransitions_views d3 Hly3) as (d4 & Hd4 & Hly4 & Hlen4 & Hroot4 & Hv4).
  rewrite Hlen1 in *. fold n in Hv2, Hreloc.
  assert (root d4 = root dfa) as Hr4 by congruence.
  exists (with_root d4 (r (root dfa))), r. split_and!.
  { unfold minimize. rewrite Hd1. run_option. rewrite Hg. run_option. rewrite Hd2. run_option. cbn [fst snd]. rewrite Hd3. run_option.
    rewrite Hd4. run_option. by rewrite Hr4, Hreloc. }
  { by apply layout_with_root. } { cbn. congruence. } { done. }
  intros i node Hn. assert (i < n) as Hi by by apply lookupN_lt in Hn.
  destruct (Hfirst i Hi) as (_ & Hri & Hsi). fold r in Hri, Hsi.
  assert (forall a b, a < N.of_nat (length (nodes d1)) ->
    m_elementToSetMap (m_nodePartition g) !!N a = m_elementToSetMap (m_nodePartition g) !!N b -> r a = r b) as Hr.
  { rewrite Hlen1. intros a b Ha Hab. by apply Hsame. }
  split; [done|by apply Hidemp| |].
  - intros Hne. destruct (Hv1 i node Hn) as (node1 & Hn1' & _). specialize (Hv2 i node1 Hn1'). unfold survives in Hv2.
    rewrite decide_True in Hv2 by done. destruct Hv2 as [Hk _]. rewrite <- Hnodes3 in Hk.
    destruct (Hv4 i _ Hk) as (k & Hk4 & _ & Hkk). exists k. split; [done|]. by rewrite Hkk.
  - destruct (lookupN_is_Some (nodes dfa) (r i)) as [nodej Hnj]; [done|].
    destruct (Hv1 i node Hn) as (node1 & Hn1' & Hview1 & _).
    destruct (Hv1 (r i) nodej Hnj) as (nodej1 & Hnj1 & Hviewj1 & Hkj1).
    pose proof (Hv2 (r i) nodej1 Hnj1) as Hvj2. unfold survives in Hvj2.
    rewrite decide_False in Hvj2 by (intros [_ Hne]; apply Hne, Hidemp, Hi). destruct Hvj2 as [Hnj2 Hviewj2].
    pose proof (Hv3 (r i) nodej1 Hnj2) as Hviewj3. rewrite <- Hnodes3 in Hnj2.
    destruct (Hv4 (r i) nodej1 Hnj2) as (nodej4 & Hnj4 & Hviewj4 & Hkj4).
    pose proof (Halike i (r i) Hi Hri Hsi) as Hij. pose proof (Halike (r i) i Hri Hi (eq_sym Hsi)) as Hji.
    exists nodej4. split; [done|]. split; [rewrite Hkj4, Hkj1; by apply (Hlive (r i))|].
    change (node_view (with_root d4 (r (root dfa))) nodej4) with (node_view d4 nodej4).
    rewrite Hviewj4, Hviewj3, Hviewj2. split.
    + rewrite simplified_actions. cbn. pose proof (al_actions _ _ _ _ Hij) as Ha.
      rewrite (actions_at_view d1 i node1), (actions_at_view d1 (r i) nodej1), Hview1, simplified_actions in Ha by done. done.
    + assert (gap (node_view d1 nodej1) = false) as Hgj1 by (rewrite Hviewj1; by apply gap_simplified, (Hgap (r i))).
      split.
      { rewrite simplified_fallback_same by (by rewrite gap_relocated). unfold relocated. cbn [v_fallback]. rewrite <- (simplified_fallback_same (node_view dfa node)), <- Hview1 by by apply (Hgap i).
        destruct (v_fallback (node_view d1 node1)) as [f|] eqn:Hf1; destruct (v_fallback (node_view d1 nodej1)) as [f'|] eqn:Hf2; try done.
        - destruct (alike_fallback_view d1 Hly1 _ r Hr i (r i) _ _ Hn1' Hnj1 f Hij Hf1) as (? & ? & _). congruence.
        - destruct (alike_fallback_view d1 Hly1 _ r Hr (r i) i _ _ Hnj1 Hn1' f' Hji Hf2) as (? & ? & _). congruence. }
      intros c. apply (composed_steps n r (node_view dfa node) (node_view d1 nodej1)); try done.
      * by apply (ly_views _ Hly i).
      * rewrite <- Hviewj2, <- Hviewj3. replace n with (N.of_nat (length (nodes d3))) by (rewrite Hnodes3; unfold n; congruence).
        by apply (ly_views _ Hly3 (r i)).
      * by apply (Hgap i).
      * intros c'. rewrite <- Hview1. by eapply (alike_steps d1 _ r i (r i)).
      * intros f Hf. rewrite <- Hview1. by eapply (alike_fallback_view d1 Hly1 _ r Hr (r i) i).
Qed.

(** ** Correctness *)

(** The actions of the nodes that are visited on an input, the first one excluded. *)
Definition trace (dfa : DFA) (index : N) (input : list N) : list (list N) := actions_at dfa <$> dfa_run dfa index input.

(** Where the end of the input and the fallback of a node lead can be told apart. *)
Definition nul_distinct (dfa : DFA) : Prop :=
  forall i node t f, nodes dfa !!N i = Some node -> hasFallbackTransition node = true ->
    dfa_step dfa i 0 = Some t -> fallbackTransitionDestination node dfa = Some f ->
    exists w, 0 ∉ w /\ actions_at dfa t :: trace dfa t w <> actions_at dfa f :: trace dfa f w.

Section Minimized.
Context (dfa d : DFA) (r : N -> N) (Hok : dfa_ok dfa) (Hly : layout dfa) (Hly' : layout d).
Context (Hlen : length (nodes d) = length (nodes dfa)).
Context (Hr : forall i node, nodes dfa !!N i = Some node -> stands_for dfa d r i node).
Notation n := (N.of_nat (length (nodes dfa))).

Lemma stands_actions i : i < n -> actions_at d (r i) = actions_at dfa i.
Proof.
  intros [node Hn]%lookupN_is_Some. destruct (sf_node _ _ _ _ _ (Hr i node Hn)) as (node' & Hn' & _ & Ha & _).
  by rewrite (actions_at_view d (r i) node'), (actions_at_view dfa i node).
Qed.

Lemma step_target i c t : dfa_step dfa i c = Some t -> t < n.
Proof.
  unfold dfa_step. destruct (nodes dfa !!N i) as [node|] eqn:Hn; [|done]. run_option.
  rewrite (step_node_view dfa Hly node (ly_within _ Hly i node Hn)).
  destruct (ly_views _ Hly i node Hn) as (_ & Hall & Hfb). unfold step_view.
  destruct (find_transition c _) as [x|] eqn:Hx.
  - intros [= <-]. apply find_transition_Some in Hx. rewrite Forall_forall in Hall. by apply Hall in Hx as [_ ?].
  - destruct (c =? 0); [done|]. apply Hfb.
Qed.

Lemma stands_step i c : i < n -> dfa_step d (r i) c = r <$> dfa_step dfa i c \/
  (c = 0 /\ dfa_step d (r i) 0 = None /\ exists node t f, nodes dfa !!N i = Some node /\ hasFallbackTransition node = true /\
    dfa_step dfa i 0 = Some t /\ fallbackTransitionDestination node dfa = Some f /\ r t = r f).
Proof.
  intros [node Hn]%lookupN_is_Some. destruct (sf_node _ _ _ _ _ (Hr i node Hn)) as (node' & Hn' & _ & _ & _ & Hstep).
  rewrite !(dfa_step_view d (r i) node' _ Hly' Hn'), !(dfa_step_view dfa i node _ Hly Hn).
  destruct (Hstep c) as [?|(-> & ? & t & f & ? & Hf & ?)]; [by left|]. right. split_and!; [done|done|].
  destruct (hasFallbackTransition node) eqn:Hfb; [|by rewrite fallback_view_None in Hf].
  destruct (fallback_view dfa Hly node (ly_within _ Hly i node Hn) Hfb) as (f' & ? & ?). exists node, t, f.
  split_and!; congruence.
Qed.

Lemma stands_trace_chars i w : i < n -> 0 ∉ w -> trace d (r i) w = trace dfa i w.
Proof.
  revert i. induction w as [|c w IH]; intros i Hi Hcw; [done|].
  apply not_elem_of_cons in Hcw as [Hc Hw]. unfold trace in *. cbn [dfa_run].
  destruct (stands_step i c Hi) as [->|[-> _]]; [|done].
  destruct (dfa_step dfa i c) as [t|] eqn:Ht; [|done]. cbn. apply step_target in Ht.
  by rewrite stands_actions, IH.
Qed.

Lemma stands_trace i w : nul_distinct dfa -> i < n -> trace d (r i) w = trace dfa i w.
Proof.
  intros Hd. revert i. induction w as [|c w IH]; intros i Hi; [done|]. unfold trace in *. cbn [dfa_run].
  destruct (stands_step i c Hi) as [->|(-> & _ & node & t & f & Hn & Hfb & Ht & Hf & Htf)].
  - destruct (dfa_step dfa i c) as [t|] eqn:Ht; [|done]. cbn. apply step_target in Ht. by rewrite stands_actions, IH.
  - exfalso. destruct (Hd i node t f Hn Hfb Ht Hf) as (u & Hu & Hne). apply Hne. pose proof (step_target _ _ _ Ht) as Htn.
    destruct (fallback_view dfa Hly node (ly_within _ Hly i node Hn) Hfb) as (f' & Hf' & Hfv). simplify_eq.
    destruct (ly_views _ Hly i node Hn) as (_ & _ & Hlt). apply Hlt in Hfv.
    rewrite <- !stands_actions, <- !stands_trace_chars, Htf by done. done.
Qed.

Lemma stands_live i : i < n -> live d (r i).
Proof.
  intros [node Hn]%lookupN_is_Some. destruct (sf_node _ _ _ _ _ (Hr i node Hn)) as (node' & Hn' & Hk & _). by exists node'.
Qed.

Lemma stands_node_ok j node' : nodes d !!N j = Some node' -> isKilled node' = false ->
  (forall i node, nodes dfa !!N i = Some node -> isKilled node = false) -> node_ok d node'.
Proof.
  intros Hn' Hk Hlive. pose proof (ly_within _ Hly' j node' Hn') as Hw'. pose proof (lookupN_lt _ _ _ Hn') as Hj. rewrite Hlen in Hj.
  destruct (lookupN_is_Some (nodes dfa) j Hj) as [node Hn]. pose proof (Hr j node Hn) as Hs.
  assert (r j = j) as Hrj.
  { destruct (decide (r j = j)); [done|]. destruct (sf_killed _ _ _ _ _ Hs) as (k & Hk' & Hkk); [done|]. congruence. }
  destruct (sf_node _ _ _ _ _ Hs) as (node2 & Hn2 & _ & Ha & _). rewrite Hrj, Hn' in Hn2. injection Hn2 as <-.
  assert (forall c t, c <> 0 \/ (exists t', find_transition c (v_transitions (node_view d node')) = Some t') ->
    step_view (node_view d node') c = Some t -> live d t) as Htargets.
  { intros c t _ Hstep. rewrite <- (dfa_step_view d j node' c Hly' Hn') in Hstep. rewrite <- Hrj in Hstep.
    destruct (stands_step j c Hj) as [Heq|(-> & Hnone & _)]; [|congruence]. rewrite Heq in Hstep.
    apply fmap_Some in Hstep as (t0 & Ht0 & ->). apply stands_live. by eapply step_target. }
  destruct (ly_views _ Hly' j node' Hn') as (Hnd & Hall & Hfb). split.
  - exists (v_actions (node_view d node')). split; [by apply node_actions_view|]. rewrite Ha.
    destruct (ok_actions _ _ (ok_nodes dfa Hok j node Hn (Hlive j node Hn))) as (a & Hacts & Hbound).
    rewrite (node_actions_view dfa Hly node (ly_within _ Hly j node Hn)) in Hacts. congruence.
  - exists (v_transitions (node_view d node')). split; [by apply node_transitions_view|]. split; [done|].
    rewrite Forall_forall in *. intros [c t] Hin. split; [by apply Hall in Hin as [? _]|]. cbn.
    pose proof (find_transition_elem c _ t Hnd Hin) as Hfind. apply (Htargets c t); [right; by exists t|].
    unfold step_view. by rewrite Hfind.
  - intros Hf. destruct (fallback_view d Hly' node' Hw' Hf) as (f & Hdest & Hview). exists f. split; [done|].
    apply (Htargets 128 f); [by left|]. unfold step_view.
    assert (find_transition 128 (v_transitions (node_view d node')) = None) as ->; [|done].
    apply find_transition_None. intros ([c t] & Heq & Hin)%list_elem_of_fmap. rewrite Forall_forall in Hall.
    apply Hall in Hin as [? _]. cbn in *. lia.
Qed.
End Minimized.

(** What is assumed of an automaton: it is what the conversion makes, and no node
    meets the guard of [simplifyTransitions] that adds a fallback. *)
Record minimizable (dfa : DFA) : Prop := {
  mz_ok : dfa_ok dfa;
  mz_layout : layout dfa;
  mz_live : forall i node, nodes dfa !!N i = Some node -> isKilled node = false;
  mz_gap : no_gap dfa
}.

Definition minimizable_b (dfa : DFA) : bool :=
  compilable_b dfa && layout_b dfa &&
  forallb (fun node => negb (isKilled node) && negb (gap (node_view dfa node))) (nodes dfa).

Lemma minimizable_b_spec dfa : minimizable_b dfa = true -> minimizable dfa.
Proof.
  unfold minimizable_b. intros [[Hc Hl]%andb_true_iff Hn]%andb_true_iff. rewrite forallb_forall in Hn. split.
  - by apply compilable_b_spec in Hc as [? _].
  - by apply layout_b_spec.
  - intros i node Hi%list_elem_of_lookup_2%list_elem_of_In. specialize (Hn node Hi). by breflect.
  - intros i node Hi%list_elem_of_lookup_2%list_elem_of_In. specialize (Hn node Hi). by breflect.
Qed.

Section Correct.
Context `{HashOrder} (dfa : DFA) (Hdfa : minimizable dfa).

Lemma minimize_stands : exists d r, minimize dfa = Some d /\ layout d /\ length (nodes d) = length (nodes dfa) /\
  root d = r (root dfa) /\ root dfa < N.of_nat (length (nodes dfa)) /\
  forall i node, nodes dfa !!N i = Some node -> stands_for dfa d r i node.
Proof.
  destruct Hdfa as [Hok Hly Hlive Hgap]. pose proof (live_lt _ _ (ok_root _ Hok)) as Hroot.
  destruct (minimize_views dfa Hly Hgap Hlive Hroot) as (d & r & ? & ? & ? & ? & ?). by exists d, r.
Qed.

(** A node that the end of the input leads to still has no fallback. *)
Lemma minimized_nul_ok d r : layout d -> length (nodes d) = length (nodes dfa) ->
  (forall i node, nodes dfa !!N i = Some node -> stands_for dfa d r i node) -> nul_ok dfa -> nul_ok d.
Proof.
  intros Hly Hlen Hst Hnul i t node Hlive Hstep Hn. destruct Hdfa as [Hok Hly0 Hlive0 _].
  pose proof (live_lt _ _ Hlive) as Hi. rewrite Hlen in Hi. destruct (lookupN_is_Some (nodes dfa) i Hi) as [node0 Hn0].
  assert (r i = i) as Hri.
  { destruct (decide (r i = i)); [done|]. destruct (sf_killed _ _ _ _ _ (Hst i node0 Hn0)) as (k & Hk & Hkk); [done|].
    destruct Hlive as (k' & ? & ?). congruence. }
  destruct (stands_step dfa d r Hly0 Hly Hst i 0 Hi) as [Heq|(_ & Hnone & _)]; [|congruence].
  rewrite Hri, Hstep in Heq. symmetry in Heq. apply fmap_Some in Heq as (t0 & Ht0 & ->).
  pose proof (step_target dfa Hly0 _ _ _ Ht0) as Hlt. destruct (lookupN_is_Some (nodes dfa) t0 Hlt) as [nodet Hnt].
  destruct (sf_node _ _ _ _ _ (Hst t0 nodet Hnt)) as (node' & Hn' & _ & _ & Hfb & _). simplify_eq.
  assert (hasFallbackTransition nodet = false) as Hf.
  { apply (Hnul i t0 nodet); [|done|done]. exists node0. split; [done|by apply (Hlive0 i)]. }
  apply (fallback_view_None dfa) in Hf. apply Hfb in Hf. destruct (hasFallbackTransition node) eqn:E; [|done].
  destruct (fallback_view d Hly node (ly_within _ Hly _ _ Hn) E) as (? & _ & ?). congruence.
Qed.

Lemma minimize_result : exists d, minimize dfa = Some d /\ dfa_ok d /\ layout d /\ (nul_ok dfa -> nul_ok d) /\
  actions_at d (root d) = actions_at dfa (root dfa) /\
  (forall w, 0 ∉ w -> trace d (root d) w = trace dfa (root dfa) w) /\
  (nul_distinct dfa -> forall w, trace d (root d) w = trace dfa (root dfa) w).
Proof.
  destruct minimize_stands as (d & r & Hrun & Hly & Hlen & Hrd & Hroot & Hst). destruct Hdfa as [Hok Hly0 Hlive _].
  exists d. rewrite Hrd. split_and!; [done| |done| | | |].
  - split.
    + rewrite Hrd. by eapply stands_live.
    + rewrite Hlen. apply (ok_size _ Hok).
    + intros j node Hn Hk. by eapply (stands_node_ok dfa d r).
  - intros Hnul. by eapply minimized_nul_ok.
  - by eapply stands_actions.
  - intros w Hw. by eapply stands_trace_chars.
  - intros Hd w. by eapply stands_trace.
Qed.
End Correct.

(** C6: [DFAMinimizer::minimize] returns a well-formed automaton with the windows of its nodes apart,
    which goes through nodes with the same actions on every input of characters, and on
    every input that ends as well when no node has its fallback and its transition
    on the end of the input to nodes that cannot be told apart.  The loops end within
    as many turns as there are transitions.  It is assumed ([minimizable]) that the automaton
    is well formed without killed nodes, and that no node without a fallback has exactly 126
    transitions on characters other than NUL, the number for which [simplifyTransitions] adds
    a fallback, although 127 are needed: there the language changes. *)
Theorem minimize_correct `{HashOrder} (dfa : DFA) :
  minimizable dfa ->
  exists d, minimize dfa = Some d /\ dfa_ok d /\ layout d /\ (nul_ok dfa -> nul_ok d) /\
    actions_at d (root d) = actions_at dfa (root dfa) /\
    (forall w, 0 ∉ w -> trace d (root d) w = trace dfa (root dfa) w) /\
    (nul_distinct dfa -> forall w, trace d (root d) w = trace dfa (root dfa) w).
Proof. apply minimize_result. Qed.

(** [ac|bc], with the same action: the two middle nodes and the two last ones are merged. *)
Definition ac_bc : DFA :=
  mkDFA [7; 7] [(97, 1); (98, 2); (99, 3); (99, 4); (255, 1)]
    [mkDFANode 0 0 0 2 0; mkDFANode 0 2 0 1 0; mkDFANode 0 3 0 1 1; mkDFANode 0 5 1 0 0; mkDFANode 1 5 1 0 0] 0.

Lemma minimize_correct_witness : minimizable_b ac_bc = true /\
  exists d, minimize (H := insertion_order) ac_bc = Some d /\ dfa_ok d /\ layout d /\ (nul_ok ac_bc -> nul_ok d) /\
    actions_at d (root d) = actions_at ac_bc (root ac_bc) /\
    (forall w, 0 ∉ w -> trace d (root d) w = trace ac_bc (root ac_bc) w) /\
    (nul_distinct ac_bc -> forall w, trace d (root d) w = trace ac_bc (root ac_bc) w).
Proof.
  split; [by vm_compute|]. apply (@minimize_correct insertion_order ac_bc). apply minimizable_b_spec. by vm_compute.
Defined.

(** A node with transitions on the 126 characters from 1 to 126. *)
Definition all_but_one : DFA :=
  mkDFA [7] ((fun c => (c, 1)) <$> for_range 1 127) [mkDFANode 0 0 0 126 0; mkDFANode 0 126 1 0 0] 0.

(** [^.] and [^$] with the same action: the end of the input and the fallback lead
    to nodes that are merged. *)
Definition any_or_end : DFA :=
  mkDFA [7; 7] [(0, 1); (255, 2)] [mkDFANode 0 0 0 1 1; mkDFANode 0 2 1 0 0; mkDFANode 1 2 1 0 0] 0.

(** Both hypotheses of the correctness of [minimize] are needed.  The guard of
    [simplifyTransitions] counts 126 transitions where there are 127 characters: a
    node that does not match the character 127 does after the minimization.  The
    transition on the end of the input of a node is removed when its fallback leads
    to the same node, although a fallback does not match the end: an action of
    [^$] is lost when [^.] has the same one. *)
Theorem minimize_divergences :
  (exists d, minimize (H := insertion_order) all_but_one = Some d /\
    trace all_but_one 0 [127] = [] /\ trace d (root d) [127] = [[7]]) /\
  (exists d, minimize (H := insertion_order) any_or_end = Some d /\ minimizable_b any_or_end = true /\
    trace any_or_end 0 [0] = [[7]] /\ trace d (root d) [0] = []).
Proof. split; eexists; (split; [by vm_compute|]); by vm_compute. Qed.
