(* ===== verification/ConvertLayout.v ===== *)
(** * The layout of the automata that [NFAToDFA::convert] makes

    The conversion appends the actions of a node when it creates it, and its
    transitions when it processes its set, so that the windows of the nodes do not
    overlap: what [DFAMinimizer] relies on to rewrite them in place. *)

From S2P Require Import Prelude HashTable DFA NFA NFAToDFA NFAToDFACorrect SubsetConstruction DFAViews.

(** ** Windows that are appended one after the other *)

(** The transitions of the nodes are below [m], and the actions follow the order of the nodes. *)
Record stacked (m : N) (dfa : DFA) : Prop := {
  st_flags : forall i node, nodes dfa !!N i = Some node -> m_flags node = 0 \/ m_flags node = 1;
  st_actions : forall i node, nodes dfa !!N i = Some node ->
    m_actionsStart node + m_actionsLength node <= N.of_nat (length (actions dfa));
  st_order : forall i j node node', i < j -> nodes dfa !!N i = Some node -> nodes dfa !!N j = Some node' ->
    m_actionsStart node + m_actionsLength node <= m_actionsStart node';
  st_below : forall i node, nodes dfa !!N i = Some node -> m_transitionsStart node + slots node <= m;
  st_apart : forall i j node node', i <> j -> nodes dfa !!N i = Some node -> nodes dfa !!N j = Some node' ->
    disjoint_windows (m_transitionsStart node) (slots node) (m_transitionsStart node') (slots node')
}.

Lemma stacked_le m m' dfa : m <= m' -> stacked m dfa -> stacked m' dfa.
Proof. intros Hm [? ? ? Hb ?]. split; try done. intros i node Hn. specialize (Hb i node Hn). lia. Qed.

Lemma stacked_append m dfa t : stacked m dfa -> stacked m (with_transitions dfa t).
Proof. by intros []. Qed.

(** A node that is created has no transitions yet. *)
Lemma stacked_create m dfa acts : stacked m dfa ->
  stacked m (mkDFA (actions dfa ++ acts) (transitions dfa)
    (nodes dfa ++ [mkDFANode (N.of_nat (length (actions dfa))) 0 (N.of_nat (length acts)) 0 0]) (root dfa)).
Proof.
  intros [Hf Ha Ho Hb Hd]. set (new := mkDFANode _ _ _ _ _).
  assert (forall i node, (nodes dfa ++ [new]) !!N i = Some node ->
    nodes dfa !!N i = Some node \/ (i = N.of_nat (length (nodes dfa)) /\ node = new)) as Hcase.
  { intros i node [Hn|[Hle Hn]]%lookup_app_Some; [by left|right].
    apply list_lookup_singleton_Some in Hn as [? <-]. split; [lia|done]. }
  assert (slots new = 0) as Hs by done.
  split; cbn [nodes actions]; rewrite ?length_app.
  - intros i node [Hn|[_ ->]]%Hcase; [by eapply Hf|by left].
  - intros i node [Hn|[_ ->]]%Hcase; [specialize (Ha i node Hn)|unfold new; cbn]; lia.
  - intros i j node node' Hij [Hi|[-> ->]]%Hcase [Hj|[-> ->]]%Hcase; [by eapply Ho| | |lia].
    + apply (Ha i node Hi).
    + apply lookupN_lt in Hj. lia.
  - intros i node [Hn|[_ ->]]%Hcase; [by eapply Hb|rewrite Hs; cbn; lia].
  - intros i j node node' Hij [Hi|[-> ->]]%Hcase [Hj|[-> ->]]%Hcase; [by eapply Hd| | |done];
      intros k; rewrite Hs; lia.
Qed.

(** A node gets the window above [m]. *)
Lemma stacked_window m m' dfa b node node' : stacked m dfa -> nodes dfa !!N b = Some node ->
  m_actionsStart node' = m_actionsStart node -> m_actionsLength node' = m_actionsLength node ->
  (forall k, m_transitionsStart node' <= k < m_transitionsStart node' + slots node' ->
    m <= k \/ m_transitionsStart node <= k < m_transitionsStart node + slots node) ->
  m <= m' -> m_transitionsStart node' + slots node' <= m' ->
  (m_flags node' = 0 \/ m_flags node' = 1) ->
  stacked m' (with_nodes dfa (<[b :=N node']> (nodes dfa))).
Proof.
  intros [Hf Ha Ho Hb Hd] Hn Hstart Hlen Hwin Hm Hm' Hflag.
  assert (forall i x, <[b :=N node']> (nodes dfa) !!N i = Some x ->
    (i = b /\ x = node') \/ (i <> b /\ nodes dfa !!N i = Some x)) as Hcase.
  { intros i x. apply lookup_lt_Some in Hn. destruct (decide (i = b)) as [->|Hib].
    - rewrite list_lookup_insert_eq by done. intros [= <-]. by left.
    - rewrite list_lookup_insert_ne by lia. by right. }
  split; cbn [nodes actions with_nodes].
  - intros i x [[-> ->]|[_ Hx]]%Hcase; [done|by eapply Hf].
  - intros i x [[-> ->]|[_ Hx]]%Hcase; [rewrite Hstart, Hlen|]; by eapply Ha.
  - intros i j x y Hij [[-> ->]|[_ Hx]]%Hcase [[-> ->]|[_ Hy]]%Hcase; rewrite ?Hstart, ?Hlen; [lia|by eapply Ho..].
  - intros i x [[-> ->]|[_ Hx]]%Hcase; [done|]. specialize (Hb i x Hx). lia.
  - intros i j x y Hij [[-> ->]|[_ Hx]]%Hcase [[-> ->]|[_ Hy]]%Hcase; [done| | |by eapply Hd]; intros k Hk Hk'.
    + destruct (Hwin k Hk) as [?|Hk2]; [specialize (Hb j y Hy); lia|]. by eapply (Hd b j).
    + destruct (Hwin k Hk') as [?|Hk2]; [specialize (Hb i x Hx); lia|]. by eapply (Hd i b).
Qed.

(** ** The operations *)

Section Operations.
Context `{HashOrder} (graph : list NFANode).

Lemma translate_stacked m set dfa u dfa' : translate set graph dfa = Some (u, dfa') -> stacked m dfa ->
  stacked m dfa' /\ transitions dfa' = transitions dfa /\ exists new, nodes dfa' = nodes dfa ++ new.
Proof.
  unfold translate. destruct (foldM _ [] _) as [acts|]; [|done]. run_option. cbn [actions with_actions].
  rewrite length_app, Nat2N.inj_add.
  replace (N.of_nat (length (actions dfa)) + N.of_nat (length (hash_order acts)) - N.of_nat (length (actions dfa)))
    with (N.of_nat (length (hash_order acts))) by lia.
  destruct (_ <=? max16) eqn:E; [|done]. run_option. breflect. unfold max16 in E. rewrite wrap16_id by lia.
  intros [= _ <-] Hs. split; [|split; [done|by eexists]].
  exact (stacked_create m dfa (hash_order acts) Hs).
Qed.

Lemma getOrCreateDFANode_stacked m set s id s' : getOrCreateDFANode set graph s = Some (id, s') -> stacked m (c_dfa s) ->
  stacked m (c_dfa s') /\ transitions (c_dfa s') = transitions (c_dfa s) /\ exists new, nodes (c_dfa s') = nodes (c_dfa s) ++ new.
Proof.
  unfold getOrCreateDFANode. destruct (find _ _) as [a|].
  - intros [= _ <-] Hs. split_and!; [done..|]. exists []. by rewrite app_nil_r.
  - destruct (translate set graph (c_dfa s)) as [[u dfa']|] eqn:E; [|done]. run_option. intros [= _ <-] Hs.
    by eapply translate_stacked.
Qed.

Lemma add_keys_stacked m l t s t' s' : foldM (add_key graph) (t, s) l = Some (t', s') -> stacked m (c_dfa s) ->
  stacked m (c_dfa s') /\ (exists ts, transitions (c_dfa s') = transitions (c_dfa s) ++ ts) /\
  exists new, nodes (c_dfa s') = nodes (c_dfa s) ++ new.
Proof.
  revert t s. induction l as [|k l IH]; intros t s; cbn [foldM].
  - intros [= _ <-] Hs. split_and!; [done|exists []|exists []]; by rewrite app_nil_r.
  - destruct (add_key graph (t, s) k) as [[t1 s1]|] eqn:E; [|done]. run_option. intros Hrun Hs.
    assert (stacked m (c_dfa s1) /\ (exists ts, transitions (c_dfa s1) = transitions (c_dfa s) ++ ts) /\
      exists new, nodes (c_dfa s1) = nodes (c_dfa s) ++ new) as (Hs1 & [ts1 Ht1] & [new1 Hn1]).
    { unfold add_key in E. destruct (t !!N k) as [set|]; [|done]. cbn [mbind option_bind] in E.
      destruct (isEmpty set).
      - injection E as _ <-. split_and!; [done|exists []|exists []]; by rewrite app_nil_r.
      - destruct (getOrCreateDFANode set graph s) as [[id s2]|] eqn:Eg; [|done]. cbn [mbind option_bind] in E.
        destruct (release_assert _); [|done]. cbn [mbind option_bind] in E.
        destruct (vec_set t k []); [|done]. cbn [mbind option_bind] in E. injection E as _ <-.
        destruct (getOrCreateDFANode_stacked m set s id s2 Eg Hs) as (Hs2 & Ht2 & Hn2).
        split_and!; [by apply stacked_append|cbn; rewrite Ht2; by eexists|done]. }
    destruct (IH t1 s1 Hrun Hs1) as (Hs' & [ts Ht] & [new Hn]). split_and!; [done| |].
    + rewrite Ht, Ht1, <- app_assoc. by eexists.
    + rewrite Hn, Hn1, <- app_assoc. by eexists.
Qed.

Lemma slots_no_fallback node : m_flags node = 0 -> slots node = m_transitionsLength node.
Proof. intros Hf. unfold slots, hasFallbackTransition. rewrite Hf. simpl. lia. Qed.

End Operations.

Section Turn.
Context `{HashOrder} (nfa : NFA) (closures : list (list N)).
Notation graph := (strip <$> m_nodes nfa).

(** The second half of a turn gives the node [b] its window, on top of the others. *)
Lemma finish_set_stacked b m fallback s s' node :
  finish_set nfa b m fallback s = Some s' -> stacked m (c_dfa s) -> m <= N.of_nat (length (transitions (c_dfa s))) ->
  nodes (c_dfa s) !!N b = Some node -> m_flags node = 0 ->
  stacked (N.of_nat (length (transitions (c_dfa s')))) (c_dfa s').
Proof.
  unfold finish_set. intros Hrun Hs Hm Hn Hf. destruct (_ <=? 127) eqn:Hlen; [|done]. cbn [release_assert mbind option_bind] in Hrun.
  breflect. rewrite Hn in Hrun. cbn [mbind option_bind] in Hrun. set (len := N.of_nat (length (transitions (c_dfa s))) - m) in *.
  rewrite wrap8_id in Hrun by lia. set (node1 := setTransitions node m len) in *.
  assert (m_transitionsLength node1 = len) as Hl1 by (cbn; rewrite wrap8_id by lia; done).
  destruct (isEmpty fallback).
  - injection Hrun as <-. apply (stacked_window m _ _ b node node1 Hs Hn); try done; [| |by left].
    + intros k Hk. left. cbn in Hk. lia.
    + rewrite slots_no_fallback by done. rewrite Hl1. cbn. lia.
  - set (M := N.of_nat (length (transitions (c_dfa s)))) in *.
    destruct (getOrCreateDFANode fallback graph (replace_node s b node1)) as [[id s2]|] eqn:Eg; [|done].
    cbn [mbind option_bind fst snd] in Hrun.
    assert (nodes (c_dfa (replace_node s b node1)) !!N b = Some node1) as Hn1
      by (cbn; apply list_lookup_insert_eq; by apply lookup_lt_Some in Hn).
    assert (stacked M (c_dfa (replace_node s b node1))) as Hs1.
    { apply (stacked_window m _ _ b node node1 Hs Hn); try done; [| |by left].
      - intros k Hk. left. cbn in Hk. lia.
      - rewrite slots_no_fallback by done. rewrite Hl1. cbn. lia. }
    destruct (getOrCreateDFANode_stacked graph M fallback _ id s2 Eg Hs1) as (Hs2 & Ht2 & [new Hn2]).
    rewrite Hn2 in Hrun. rewrite (lookup_app_l_Some _ _ _ _ Hn1) in Hrun. cbn [mbind option_bind] in Hrun.
    pose proof (addFallbackTransition_spec node1 (c_dfa s2) id Hf) as Hadd.
    destruct (addFallbackTransition node1 (c_dfa s2) id) as [[node2 dfa2]|]; [|done].
    cbn [mbind option_bind fst snd] in Hrun. injection Hrun as <-. destruct Hadd as [-> ->]. cbn [c_dfa transitions with_nodes with_transitions].
    rewrite length_app, Ht2. cbn [length replace_node c_dfa transitions with_nodes]. rewrite Nat2N.inj_add. fold M.
    assert (forall f, slots (mkDFANode (m_actionsStart node1) (m_transitionsStart node1) (m_actionsLength node1) (m_transitionsLength node1) 1) = f ->
      f = len + 1) as Hslots by (intros f <-; unfold slots; cbn [m_transitionsLength]; rewrite Hl1; done).
    apply (stacked_window M _ (with_transitions (c_dfa s2) (transitions (c_dfa s) ++ [(255, id)])) b node1).
    + by apply stacked_append.
    + cbn. rewrite Hn2. exact (lookup_app_l_Some _ _ _ _ Hn1).
    + done.
    + done.
    + intros k. rewrite (Hslots _ eq_refl). rewrite (slots_no_fallback node1), Hl1 by done. cbn. lia.
    + lia.
    + rewrite (Hslots _ eq_refl). cbn. lia.
    + by right.
Qed.

(** One turn of the loop. *)
Lemma process_set_stacked t s t' s' :
  process_set graph closures (t, s) = Some (t', s') -> stacked (N.of_nat (length (transitions (c_dfa s)))) (c_dfa s) ->
  (forall u, u ∈ unprocessedSets s -> exists node, nodes (c_dfa s) !!N m_dfaNodeId u = Some node /\ m_flags node = 0) ->
  stacked (N.of_nat (length (transitions (c_dfa s')))) (c_dfa s').
Proof.
  rewrite process_set_eq. intros Hrun Hs Hflags.
  destruct (takeLast (unprocessedSets s)) as [[u rest]|] eqn:Etake; [|done]. cbn [mbind option_bind fst snd] in Hrun.
  destruct (populateTransitions _ _ _ _) as [[t1 fb]|]; [|done]. cbn [mbind option_bind fst snd] in Hrun.
  destruct (foldM (add_key graph) _ _) as [[t2 s2]|] eqn:Ekeys; [|done]. cbn [mbind option_bind fst snd] in Hrun.
  destruct (finish_set _ _ _ _ s2) as [s3|] eqn:Efin; [|done]. cbn [mbind option_bind] in Hrun. injection Hrun as _ <-.
  destruct (add_keys_stacked graph _ _ _ _ _ _ Ekeys Hs) as (Hs2 & [ts Ht2] & [new Hn2]). cbn [c_dfa] in *.
  assert (u ∈ unprocessedSets s) as Hu.
  { unfold takeLast in Etake. destruct (last (unprocessedSets s)) eqn:El; [|done]. cbn in Etake. injection Etake as -> _.
    by apply last_Some_elem_of. }
  destruct (Hflags u Hu) as (node & Hn & Hf).
  eapply (finish_set_stacked _ _ _ _ _ node); [exact Efin|done| |rewrite Hn2; by apply lookup_app_l_Some|done].
  rewrite Ht2, length_app. lia.
Qed.
End Turn.

(** ** The loop *)

Lemma convert_loop_stacked `{HashOrder} nfa closures fuel t s dfa : nfa_ok nfa -> closures_ok nfa closures ->
  loop_inv nfa t s -> unprocessedSets s <> [] -> stacked (N.of_nat (length (transitions (c_dfa s)))) (c_dfa s) ->
  convert_loop fuel (strip <$> m_nodes nfa) closures (t, s) = Some (Converted dfa) ->
  stacked (N.of_nat (length (transitions dfa))) dfa.
Proof.
  intros Hok Hcl. revert t s. induction fuel as [|fuel IH]; intros t s Hinv Hne Hs; cbn [convert_loop]; [done|].
  pose proof (process_set_spec nfa Hok closures Hcl t s Hinv Hne) as Hp.
  destruct (process_set _ closures (t, s)) as [[t' s']|] eqn:Eproc; [|done]. run_option. cbn [snd].
  assert (stacked (N.of_nat (length (transitions (c_dfa s')))) (c_dfa s')) as Hs'.
  { eapply process_set_stacked; [exact Eproc|done|]. intros u Hu. apply (ci_todo _ _ _ (li_conv _ _ _ Hinv)).
    unfold todo_of. apply list_elem_of_fmap. by exists u. }
  destruct (isEmpty (unprocessedSets s')) eqn:E.
  - by intros [= <-].
  - apply IH; [by destruct Hp|by intros Hnil; rewrite Hnil in E|done].
Qed.

Lemma convert_stacked `{HashOrder} nfa fuel dfa : nfa_ok nfa -> convert fuel nfa = Some (Converted dfa) ->
  stacked (N.of_nat (length (transitions dfa))) dfa.
Proof.
  intros Hok Hrun. pose proof (convert_start nfa Hok) as Hstart.
  destruct (convert 0 nfa) as [[d|[t s]]|] eqn:E0; [done| |].
  - destruct Hstart as (closures & u0 & Hcl & Hinv & Hun & Hnodes & Htab & Hinit & Heq). rewrite Heq in Hrun.
    eapply convert_loop_stacked; [done|exact Hcl|exact Hinv|by rewrite Hun| |exact Hrun].
    revert E0. unfold convert. destruct (resolveEpsilonClosures _) as [[g c]|]; [|done]. run_option.
    destruct (extendSetWithClosure _ _ _) as [set|]; [|done]. run_option.
    destruct (translate set g emptyDFA) as [[u d]|] eqn:Etr; [|done]. run_option. cbn [convert_loop]. intros [= <- <-]. cbn [c_dfa].
    destruct (translate_stacked g 0 set emptyDFA u d Etr) as (Hs & Ht & _).
    { split; cbn; intros; by rewrite ?lookup_nil in *. }
    rewrite Ht. cbn. done.
  - revert E0 Hrun. unfold convert. destruct (resolveEpsilonClosures _) as [[g c]|]; [|done]. run_option.
    destruct (extendSetWithClosure _ _ _); [|done]. run_option. by destruct (translate _ _ _) as [[u d]|].
Qed.

(** ** The layout *)

Lemma stacked_live m dfa i node : stacked m dfa -> nodes dfa !!N i = Some node -> isKilled node = false.
Proof. intros Hs Hn. unfold isKilled. by destruct (st_flags _ _ Hs i node Hn) as [-> | ->]. Qed.

Lemma ok_view dfa node : N.of_nat (length (transitions dfa)) < 2 ^ 32 -> within dfa node -> node_ok dfa node ->
  view_ok (N.of_nat (length (nodes dfa))) (node_view dfa node).
Proof.
  intros Hb [Ht Ha] [_ (ts & Hts & Hnd & Hall) Hfb]. unfold slots in Ht.
  assert (transitionsEnd node = m_transitionsStart node + m_transitionsLength node) as Hend.
  { unfold transitionsEnd. apply wrap32_id. lia. }
  assert (ts = v_transitions (node_view dfa node)) as ->.
  { unfold node_transitions in Hts. rewrite Hend, mapM_slice in Hts by lia. injection Hts as <-. done. }
  split_and!; [done| |].
  - eapply Forall_impl; [exact Hall|]. intros t [? ?%live_lt]. done.
  - intros t. unfold node_view. cbn. destruct (hasFallbackTransition node) eqn:Hf; [|done].
    destruct Hfb as (f & Hdest & Hlive); [done|]. unfold fallbackTransitionDestination in Hdest. rewrite Hf, Hend in Hdest.
    cbn [release_assert mbind option_bind] in Hdest. rewrite Hdest. intros [= <-]. by apply live_lt.
Qed.

Lemma stacked_layout dfa : stacked (N.of_nat (length (transitions dfa))) dfa -> dfa_ok dfa -> bounded dfa ->
  128 * N.of_nat (length (nodes dfa)) < 2 ^ 32 -> layout dfa.
Proof.
  intros Hs Hok [Hba Hbt] Hbn.
  assert (forall i node, nodes dfa !!N i = Some node -> within dfa node) as Hw.
  { intros i node Hn. split; [apply (st_below _ _ Hs i node Hn)|apply (st_actions _ _ Hs i node Hn)]. }
  split; [done|done|done|done| |].
  - intros i j node node' Hij Hi Hj. split; [by apply (st_apart _ _ Hs i j)|].
    destruct (N.lt_total i j) as [Hlt|[?|Hlt]]; [|done|]; intros k Hk Hk'.
    + pose proof (st_order _ _ Hs i j node node' Hlt Hi Hj). lia.
    + pose proof (st_order _ _ Hs j i node' node Hlt Hj Hi). lia.
  - intros i node Hn. apply ok_view; [done|by eapply Hw|]. apply (ok_nodes _ Hok i node Hn). by eapply stacked_live.
Qed.
