(* ===== verification/Graph.v ===== *)
(** * Fragments of an automaton

    The operations on an NFA that build it seen as additions of edges, and the
    composition of the fragments that a quantified term is made of.  A fragment
    is a relation between nodes; the operations of [NFA] are shown to add theirs
    in [extends]. *)

From S2P Require Import Prelude HashTable NFA.

(** ** Languages *)

(** The language of the repetitions of [L]. *)
Inductive star (L : list N -> Prop) : list N -> Prop :=
| star_nil : star L []
| star_app w1 w2 : L w1 -> star L w2 -> star L (w1 ++ w2).

Definition concatenation (L1 L2 : list N -> Prop) (w : list N) : Prop :=
  exists w1 w2, w = w1 ++ w2 /\ L1 w1 /\ L2 w2.

Lemma star_ext (L L' : list N -> Prop) w : (forall w, L w <-> L' w) -> star L w <-> star L' w.
Proof. intros HL. split; induction 1; constructor; naive_solver. Qed.

Lemma concatenation_ext (L1 L1' L2 L2' : list N -> Prop) w :
  (forall w, L1 w <-> L1' w) -> (forall w, L2 w <-> L2' w) ->
  concatenation L1 L2 w <-> concatenation L1' L2' w.
Proof. unfold concatenation. naive_solver. Qed.

Lemma concatenation_assoc (L1 L2 L3 : list N -> Prop) w :
  concatenation (concatenation L1 L2) L3 w <-> concatenation L1 (concatenation L2 L3) w.
Proof.
  split.
  - intros (w12 & w3 & -> & (w1 & w2 & -> & ? & ?) & ?). exists w1, (w2 ++ w3). rewrite app_assoc. split_and!; [done..|].
    by exists w2, w3.
  - intros (w1 & w23 & -> & ? & (w2 & w3 & -> & ? & ?)). exists (w1 ++ w2), w3. rewrite app_assoc. split_and!; [done| |done].
    by exists w1, w2.
Qed.

Lemma concatenation_empty_l (L : list N -> Prop) w : concatenation (fun w => w = []) L w <-> L w.
Proof. split; [by intros (? & w2 & -> & -> & ?)|]. intros. by exists [], w. Qed.

Lemma concatenation_or (L L1 L2 : list N -> Prop) w :
  concatenation L (fun w => L1 w \/ L2 w) w <-> concatenation L L1 w \/ concatenation L L2 w.
Proof. unfold concatenation. naive_solver. Qed.

Lemma concatenation_and (P : Prop) (L1 L2 : list N -> Prop) w :
  concatenation L1 (fun w => P /\ L2 w) w <-> P /\ concatenation L1 L2 w.
Proof. unfold concatenation. naive_solver. Qed.

(** ** Relations between nodes *)

(** Edges with their character, [None] for those on nothing. *)
Definition rel := N -> option N -> N -> Prop.

Definition label (l : option N) : list N := match l with Some c => [c] | None => [] end.

Inductive path (R : rel) : N -> list N -> N -> Prop :=
| path_refl p : path R p [] p
| path_step p l q w r : R p l q -> path R q w r -> path R p (label l ++ w) r.

Definition union_rel (R1 R2 : rel) : rel := fun p l q => R1 p l q \/ R2 p l q.
Definition eps (from to : N) : rel := fun p l q => p = from /\ l = None /\ q = to.
Definition chars (from to : N) (S : N -> Prop) : rel := fun p l q => p = from /\ q = to /\ exists c, l = Some c /\ S c.
Definition no_edge : rel := fun _ _ _ => False.

Lemma path_one (R : rel) p l q : R p l q -> path R p (label l) q.
Proof. intros. rewrite <- (app_nil_r (label l)). econstructor; [done|constructor]. Qed.

Lemma path_trans R p w1 q w2 r : path R p w1 q -> path R q w2 r -> path R p (w1 ++ w2) r.
Proof. induction 1; intros; [done|]. rewrite <- app_assoc. econstructor; eauto. Qed.

Lemma path_mono (R R' : rel) p w q : (forall p l q, R p l q -> R' p l q) -> path R p w q -> path R' p w q.
Proof. induction 2; econstructor; eauto. Qed.

Lemma path_ext (R R' : rel) p w q : (forall p l q, R p l q <-> R' p l q) -> path R p w q <-> path R' p w q.
Proof. intros HR. split; apply path_mono; intros; by apply HR. Qed.

(** Where no edge leaves, the only path is the empty one. *)
Lemma path_stuck (R : rel) p w q : (forall l r, ~ R p l r) -> path R p w q -> w = [] /\ q = p.
Proof. intros Hno Hp. destruct Hp as [|p l r w q He _]; [done|]. by destruct (Hno l r). Qed.

Lemma path_split R p w1 w2 q : path R p (w1 ++ w2) q -> exists r, path R p w1 r /\ path R r w2 q.
Proof.
  remember (w1 ++ w2) as w eqn:E. intros Hp. revert w1 E.
  induction Hp as [p|p l r w q He Hp IH]; intros w1 E.
  - symmetry in E. apply app_eq_nil in E as [-> ->]. exists p. split; constructor.
  - destruct l as [c|]; cbn [label app] in E.
    + destruct w1 as [|c' w1]; simplify_eq/=.
      * exists p. split; [constructor|]. change (c :: w) with (label (Some c) ++ w). by econstructor.
      * destruct (IH w1 eq_refl) as (r' & ? & ?). exists r'. split; [|done].
        change (c' :: w1) with (label (Some c') ++ w1). by econstructor.
    + destruct (IH w1 E) as (r' & ? & ?). exists r'. split; [|done].
      change w1 with (label None ++ w1). by econstructor.
Qed.

(** ** Fragments *)

(** The edges [R] lead from the node [s], that is there before, through the new
    nodes from [n] to [m - 1] to the new node [e], on the words of [L]. *)
Record fragment (R : rel) (n m s e : N) (L : list N -> Prop) : Prop := {
  fr_start : s < n;
  fr_end : n <= e < m;
  fr_source : forall p l q, R p l q -> p = s \/ n <= p < m;
  fr_target : forall p l q, R p l q -> n <= q < m;
  fr_stuck : forall l q, ~ R e l q;
  fr_language : forall w, path R s w e <-> L w
}.

Lemma fragment_language R n m s e L L' :
  (forall w, L w <-> L' w) -> fragment R n m s e L -> fragment R n m s e L'.
Proof. intros HL []. split; naive_solver. Qed.

Lemma fragment_ext R R' n m s e L :
  (forall p l q, R p l q <-> R' p l q) -> fragment R n m s e L -> fragment R' n m s e L.
Proof.
  intros HR [? ? Hs Ht He HL]. split; try done.
  - intros p l q. rewrite <- HR. apply Hs.
  - intros p l q. rewrite <- HR. apply Ht.
  - intros l q. rewrite <- HR. apply He.
  - intros w. by rewrite <- HL, (path_ext R' R).
Qed.

(** A path of new edges ends in the new nodes. *)
Lemma fragment_target R n m s e L p w q :
  fragment R n m s e L -> path R p w q -> (p = q /\ w = []) \/ n <= q < m.
Proof.
  intros Hf. induction 1 as [|p l q w r He _ IH]; [by left|]. right. destruct IH as [[-> _]|?]; [|done].
  by eapply fr_target.
Qed.

Lemma fragment_chars n s S : s < n -> fragment (chars s n S) n (n + 1) s n (fun w => exists c, w = [c] /\ S c).
Proof.
  intros Hs. split; [done|lia|..].
  - intros p l q (-> & _). by left.
  - intros p l q (_ & -> & _). lia.
  - intros l q (E & _). lia.
  - intros w. split.
    + intros Hp. inv Hp as [|? ? ? ? ? (_ & -> & c & -> & Hc) Hp']; [lia|].
      apply path_stuck in Hp' as [-> _]; [|intros l r (E & _); lia]. by exists c.
    + intros (c & -> & Hc). change [c] with (label (Some c)). apply path_one. split_and!; eauto.
Qed.

Section Sequence.
Context (R1 R2 : rel) (n m1 m2 s e1 e2 : N) (L1 L2 : list N -> Prop).
Context (H1 : fragment R1 n m1 s e1 L1) (H2 : fragment R2 m1 m2 e1 e2 L2).

(** In the second fragment only its edges can be used. *)
Lemma sequence_second p w q : m1 <= p -> path (union_rel R1 R2) p w q -> path R2 p w q.
Proof.
  intros Hp. induction 1 as [|p l q w r [He|He] _ IH]; [constructor| |].
  - exfalso. pose proof (fr_start _ _ _ _ _ _ H1). pose proof (fr_end _ _ _ _ _ _ H1).
    destruct (fr_source _ _ _ _ _ _ H1 _ _ _ He); lia.
  - econstructor; [done|]. apply IH. pose proof (fr_target _ _ _ _ _ _ H2 _ _ _ He). lia.
Qed.

Lemma sequence_first p w q : p = s \/ n <= p < m1 -> m1 <= q -> path (union_rel R1 R2) p w q ->
  exists w1 w2, w = w1 ++ w2 /\ path R1 p w1 e1 /\ path R2 e1 w2 q.
Proof.
  intros Hp Hq Hpath. induction Hpath as [|p l r w q He Hpath IH].
  - pose proof (fr_start _ _ _ _ _ _ H1). pose proof (fr_end _ _ _ _ _ _ H1). lia.
  - destruct He as [He|He].
    + destruct IH as (w1 & w2 & -> & ? & ?); [right; by eapply fr_target|done|].
      exists (label l ++ w1), w2. rewrite app_assoc. split_and!; [done|by econstructor|done].
    + pose proof (fr_start _ _ _ _ _ _ H1). pose proof (fr_end _ _ _ _ _ _ H1).
      destruct (fr_source _ _ _ _ _ _ H2 _ _ _ He) as [->|?]; [|lia].
      exists [], (label l ++ w). split_and!; [done|constructor|]. econstructor; [done|].
      apply sequence_second; [|done]. pose proof (fr_target _ _ _ _ _ _ H2 _ _ _ He). lia.
Qed.

Lemma fragment_sequence : fragment (union_rel R1 R2) n m2 s e2 (concatenation L1 L2).
Proof.
  pose proof (fr_start _ _ _ _ _ _ H1). pose proof (fr_end _ _ _ _ _ _ H1). pose proof (fr_end _ _ _ _ _ _ H2).
  split; [done|lia|..].
  - intros p l q [He|He]; [destruct (fr_source _ _ _ _ _ _ H1 _ _ _ He)|destruct (fr_source _ _ _ _ _ _ H2 _ _ _ He)]; lia.
  - intros p l q [He|He]; [pose proof (fr_target _ _ _ _ _ _ H1 _ _ _ He)|pose proof (fr_target _ _ _ _ _ _ H2 _ _ _ He)]; lia.
  - intros l q [He|He]; [destruct (fr_source _ _ _ _ _ _ H1 _ _ _ He); lia|by eapply fr_stuck in He].
  - intros w. split.
    + intros Hp. apply sequence_first in Hp as (w1 & w2 & -> & Hp1 & Hp2); [|by left|lia].
      exists w1, w2. split_and!; [done|by apply (fr_language _ _ _ _ _ _ H1)|by apply (fr_language _ _ _ _ _ _ H2)].
    + intros (w1 & w2 & -> & Hp1 & Hp2). eapply path_trans.
      * eapply path_mono, (fr_language _ _ _ _ _ _ H1), Hp1. by left.
      * eapply path_mono, (fr_language _ _ _ _ _ _ H2), Hp2. by right.
Qed.
End Sequence.

Lemma fragment_optional R n m s e L :
  fragment R n m s e L -> fragment (union_rel R (eps s e)) n m s e (fun w => w = [] \/ L w).
Proof.
  intros Hf. pose proof (fr_start _ _ _ _ _ _ Hf). pose proof (fr_end _ _ _ _ _ _ Hf).
  assert (Hstuck : forall l q, ~ union_rel R (eps s e) e l q).
  { intros l q [He|(E & _)]; [by eapply fr_stuck in He|lia]. }
  split; [done|done|..].
  - intros p l q [He|(-> & _)]; [by eapply fr_source|by left].
  - intros p l q [He|(_ & _ & ->)]; [by eapply fr_target|done].
  - done.
  - intros w. split.
    + intros Hp.
      assert (forall p w q, path (union_rel R (eps s e)) p w q -> q = e -> p = s \/ n <= p < m ->
        path R p w e \/ (p = s /\ w = [])) as Hall.
      { clear w Hp. intros p w q Hp. induction Hp as [p|p l q w r [He|(-> & -> & ->)] Hp IH]; intros Hr Hps; subst.
        - left. constructor.
        - pose proof (fr_target _ _ _ _ _ _ Hf _ _ _ He).
          destruct (IH eq_refl) as [?|[? ?]]; [by right| |lia]. left. by econstructor.
        - right. apply path_stuck in Hp as [-> _]; done. }
      destruct (Hall s w e Hp eq_refl) as [?|[_ ->]]; [by left|right; by apply (fr_language _ _ _ _ _ _ Hf)|by left].
    + intros [->|HL].
      * change [] with (label None). apply path_one. by right.
      * eapply path_mono, (fr_language _ _ _ _ _ _ Hf), HL. by left.
Qed.

(** The repetition: the fragment starts at the new node [n], its end leads back to
    it and to the new node [m]. *)
Section Repetition.
Context (R : rel) (n m s e : N) (L : list N -> Prop).
Context (Hf : fragment R (n + 1) m n e L) (Hs : s < n).

Definition loop_rel (extra : rel) : rel :=
  union_rel (union_rel (union_rel (union_rel (eps s n) R) (eps e n)) (eps e m)) extra.

Lemma repetition_stuck extra : (forall p l q, extra p l q -> p = s) -> forall l q, ~ loop_rel extra m l q.
Proof.
  pose proof (fr_end _ _ _ _ _ _ Hf).
  intros Hx l q [[[[(?&?)|He]|(?&?)]|(?&?)]|He]; try lia.
  - destruct (fr_source _ _ _ _ _ _ Hf _ _ _ He); lia.
  - apply Hx in He. lia.
Qed.

(** From inside of the loop to the node after it. *)
Lemma repetition_inside extra p w : (forall p l q, extra p l q -> p = s) ->
  p = n \/ n + 1 <= p < m -> path (loop_rel extra) p w m ->
  exists w1 w2, w = w1 ++ w2 /\ path R p w1 e /\ star L w2.
Proof.
  intros Hx Hp Hpath. pose proof (fr_end _ _ _ _ _ _ Hf). remember m as m' eqn:Em in Hpath.
  induction Hpath as [|p l q w r He Hpath IH]; [subst; lia|]. subst r.
  destruct He as [[[[(?&?)|He]|(->&->&->)]|(->&->&->)]|He].
  - lia.
  - pose proof (fr_target _ _ _ _ _ _ Hf _ _ _ He).
    destruct IH as (w1 & w2 & -> & ? & ?); [by right|done|].
    exists (label l ++ w1), w2. rewrite app_assoc. split_and!; [done|by econstructor|done].
  - destruct IH as (w1 & w2 & -> & ? & ?); [by left|done|].
    exists [], (w1 ++ w2). split_and!; [done|constructor|]. constructor; [|done]. by apply (fr_language _ _ _ _ _ _ Hf).
  - apply path_stuck in Hpath as [-> _]; [|by apply repetition_stuck].
    exists [], []. split_and!; [done|constructor|constructor].
  - apply Hx in He. lia.
Qed.

Lemma repetition_outside extra w1 w2 : L w1 -> star L w2 -> path (loop_rel extra) n (w1 ++ w2) m.
Proof.
  intros H1 H2. revert w1 H1. induction H2 as [|w1' w2 Hw1 Hw2 IH]; intros w1 H1.
  - eapply path_trans.
    + eapply path_mono, (fr_language _ _ _ _ _ _ Hf), H1. intros. left. left. left. by right.
    + change [] with (label None). apply path_one. left. by right.
  - eapply path_trans.
    + eapply path_mono, (fr_language _ _ _ _ _ _ Hf), H1. intros. left. left. left. by right.
    + change (w1' ++ w2) with (label None ++ w1' ++ w2). econstructor; [|by apply IH]. left. left. by right.
Qed.

Lemma repetition_fragment (extra : rel) (L' : list N -> Prop) :
  (forall p l q, extra p l q -> p = s /\ l = None /\ q = m) ->
  (forall w, L' w <-> concatenation L (star L) w \/ (extra s None m /\ w = [])) ->
  fragment (loop_rel extra) n (m + 1) s m L'.
Proof.
  intros Hx HL'. pose proof (fr_end _ _ _ _ _ _ Hf).
  assert (Hx' : forall p l q, extra p l q -> p = s) by (intros p l q He; apply Hx in He; tauto).
  split; [done|lia|..].
  - intros p l q [[[[(?&?)|He]|(?&?)]|(?&?)]|He]; try lia.
    + destruct (fr_source _ _ _ _ _ _ Hf _ _ _ He); lia.
    + left. eauto.
  - intros p l q [[[[(?&?&?)|He]|(?&?&?)]|(?&?&?)]|He]; try lia.
    + pose proof (fr_target _ _ _ _ _ _ Hf _ _ _ He). lia.
    + apply Hx in He. lia.
  - by apply repetition_stuck.
  - intros w. rewrite HL'. split.
    + intros Hp. inv Hp as [|? l q w' ? He Hp']; [lia|].
      destruct He as [[[[(_&->&->)|He]|(?&?)]|(?&?)]|He]; try lia.
      * left. apply repetition_inside in Hp' as (w1 & w2 & -> & ? & ?); [|done|by left].
        exists w1, w2. split_and!; [done|by apply (fr_language _ _ _ _ _ _ Hf)|done].
      * destruct (fr_source _ _ _ _ _ _ Hf _ _ _ He); lia.
      * pose proof (Hx _ _ _ He) as (_ & -> & ->). right. split; [done|].
        apply path_stuck in Hp' as [-> _]; [done|by apply repetition_stuck].
    + intros [(w1 & w2 & -> & H1 & H2)|[He ->]].
      * change (w1 ++ w2) with (label None ++ w1 ++ w2). econstructor; [|by apply repetition_outside].
        left. left. left. by left.
      * change [] with (label None). apply path_one. by right.
Qed.

Lemma fragment_star : fragment (loop_rel (eps s m)) n (m + 1) s m (star L).
Proof.
  apply repetition_fragment.
  - intros p l q. done.
  - intros w. split.
    + intros [|w1 w2]; [by right|]. left. by exists w1, w2.
    + intros [(w1 & w2 & -> & ? & ?)|[_ ->]]; by constructor.
Qed.

Lemma fragment_plus : fragment (loop_rel no_edge) n (m + 1) s m (concatenation L (star L)).
Proof. apply repetition_fragment; [done|]. intros w. split; [by left|]. by intros [?|[[] _]]. Qed.
End Repetition.

(** ** The edges of an NFA *)

(** The edges, on the ASCII characters. *)
Definition edge (nfa : NFA) : rel := fun p l q =>
  match l with None => eps_edge nfa p q | Some c => c < 128 /\ char_edge nfa p c q end.

Lemma reach_path nfa p w q : Forall (fun c => c < 128) w -> reach nfa p w q <-> path (edge nfa) p w q.
Proof.
  intros Hw. split.
  - intros Hr. revert Hw. induction Hr as [|p q w r He _ IH|p c q w r He _ IH]; intros Hw; [constructor|..].
    + change w with (label None ++ w). econstructor; [exact He|auto].
    + apply Forall_cons in Hw as [? ?]. change (c :: w) with (label (Some c) ++ w). econstructor; [by split|auto].
  - intros Hp. revert Hw. induction Hp as [|p [c|] q w r He _ IH]; cbn [label app]; intros Hw; [constructor|..].
    + apply Forall_cons in Hw as [? ?]. destruct He. eapply reach_char; eauto.
    + eapply reach_eps; [exact He|auto].
Qed.

Lemma edge_lt nfa p l q : nfa_ok nfa -> edge nfa p l q -> p < graphSize nfa /\ q < graphSize nfa.
Proof. intros Hok He. destruct l as [c|]; [destruct He as [_ He]; by eapply char_edge_lt|by eapply eps_edge_lt]. Qed.

Lemma final_lt nfa q a : final nfa q a -> q < graphSize nfa.
Proof. intros (node & Hn & _). by apply lookupN_lt in Hn. Qed.

(** The edges of a node. *)
Definition node_edge (node : NFANode) (l : option N) (q : N) : Prop :=
  match l with
  | None => q ∈ slot epsilonTransitionCharacter node
  | Some c => c < 128 /\ (q ∈ slot c node \/ (c <> 0 /\ q ∈ transitionsOnAnyCharacter node))
  end.

Lemma edge_node nfa p l q : edge nfa p l q <-> exists node, m_nodes nfa !!N p = Some node /\ node_edge node l q.
Proof. destruct l; unfold edge, eps_edge, char_edge, node_edge; naive_solver. Qed.

(** ** What an operation adds *)

(** [nfa'] is [nfa] with [k] new nodes, the edges [R] and the actions [F]. *)
Record extends (nfa nfa' : NFA) (k : N) (R : rel) (F : N -> N -> Prop) : Prop := {
  ex_size : graphSize nfa' = graphSize nfa + k;
  ex_root : m_root nfa' = m_root nfa;
  ex_edge : forall p l q, edge nfa' p l q <-> edge nfa p l q \/ R p l q;
  ex_final : forall q a, final nfa' q a <-> final nfa q a \/ F q a;
  ex_ok : nfa_ok nfa'
}.

Definition no_final (q a : N) : Prop := False.
Definition union_final (F1 F2 : N -> N -> Prop) (q a : N) : Prop := F1 q a \/ F2 q a.

Lemma extends_refl nfa : nfa_ok nfa -> extends nfa nfa 0 no_edge no_final.
Proof. intros. split; try done; unfold no_edge, no_final; [lia|tauto..]. Qed.

Lemma extends_trans nfa1 nfa2 nfa3 k1 k2 R1 R2 F1 F2 :
  extends nfa1 nfa2 k1 R1 F1 -> extends nfa2 nfa3 k2 R2 F2 ->
  extends nfa1 nfa3 (k1 + k2) (union_rel R1 R2) (union_final F1 F2).
Proof.
  intros [S1 T1 E1 A1 O1] [S2 T2 E2 A2 O2]. unfold union_rel, union_final. split.
  - lia.
  - congruence.
  - intros. rewrite E2, E1. tauto.
  - intros. rewrite A2, A1. tauto.
  - done.
Qed.

Lemma extends_ext nfa nfa' k k' R R' F F' :
  k = k' -> (forall p l q, R p l q <-> R' p l q) -> (forall q a, F q a <-> F' q a) ->
  extends nfa nfa' k R F -> extends nfa nfa' k' R' F'.
Proof. intros -> HR HF [? ? HE HA ?]. split; [done..| | |done]; intros; [by rewrite HE, HR|by rewrite HA, HF]. Qed.

Lemma createNode_extends nfa : nfa_ok nfa ->
  exists nfa', createNode nfa = (graphSize nfa, nfa') /\ extends nfa nfa' 1 no_edge no_final.
Proof.
  intros Hok. exists (createNode nfa).2. split; [done|].
  assert (forall p, m_nodes (createNode nfa).2 !!N p = m_nodes nfa !!N p
    \/ m_nodes nfa !!N p = None /\ m_nodes (createNode nfa).2 !!N p = Some emptyNFANode
    \/ m_nodes nfa !!N p = None /\ m_nodes (createNode nfa).2 !!N p = None) as Hl.
  { intros p. cbn [createNode snd m_nodes]. destruct (decide (N.to_nat p < length (m_nodes nfa))%nat).
    - left. by apply lookup_app_l.
    - right. rewrite lookup_app_r by lia. rewrite (lookup_ge_None_2 (m_nodes nfa)) by lia.
      destruct (N.to_nat p - length (m_nodes nfa))%nat; auto. }
  split; [unfold graphSize; simpl; rewrite length_app; simpl; lia|done|..].
  - intros p l q. rewrite !edge_node. split.
    + intros (node & Hn & He). left. destruct (Hl p) as [E|[[E1 E2]|[E1 E2]]]; [exists node; by rewrite <- E| |congruence].
      exfalso. rewrite E2 in Hn. simplify_eq. destruct l; cbn in He; set_solver.
    + intros [(node & Hn & He)|[]]. exists node. destruct (Hl p) as [E|[[E1 E2]|[E1 E2]]]; [by rewrite E|congruence..].
  - intros q a. unfold final. split.
    + intros (node & Hn & He). left. destruct (Hl q) as [E|[[E1 E2]|[E1 E2]]]; [exists node; by rewrite <- E| |congruence].
      exfalso. rewrite E2 in Hn. simplify_eq. by apply not_elem_of_nil in He.
    + intros [(node & Hn & He)|[]]. exists node. destruct (Hl q) as [E|[[E1 E2]|[E1 E2]]]; [by rewrite E|congruence..].
  - by eapply (createNode_ok nfa (graphSize nfa)).
Qed.

(** Replacing a node adds what the new node has. *)
Lemma insert_extends nfa from node node' (E : option N -> N -> Prop) (A : N -> Prop) :
  m_nodes nfa !!N from = Some node ->
  (forall l q, node_edge node' l q <-> node_edge node l q \/ E l q) ->
  (forall a, a ∈ finalRuleIds node' <-> a ∈ finalRuleIds node \/ A a) ->
  nfa_ok (mkNFA (<[from :=N node']> (m_nodes nfa)) (m_root nfa)) ->
  extends nfa (mkNFA (<[from :=N node']> (m_nodes nfa)) (m_root nfa)) 0
    (fun p l q => p = from /\ E l q) (fun q a => q = from /\ A a).
Proof.
  intros Hn HE HA Hok. assert (forall p, (<[from :=N node']> (m_nodes nfa)) !!N p = if decide (p = from) then Some node' else m_nodes nfa !!N p) as Hl.
  { intros p. case_decide as Hp; [subst; apply list_lookup_insert_eq; by eapply lookup_lt_Some|].
    apply list_lookup_insert_ne. lia. }
  split; [unfold graphSize; simpl; rewrite length_insert; lia|done|..|done].
  - intros p l q. rewrite !edge_node. simpl. rewrite Hl. case_decide; subst.
    + rewrite Hn. split.
      * intros (? & [= <-] & [?|?]%HE); naive_solver.
      * intros [(? & [= <-] & ?)|[_ ?]]; exists node'; (split; [done|]); apply HE; tauto.
    + naive_solver.
  - intros q a. unfold final. simpl. rewrite Hl. case_decide; subst.
    + rewrite Hn. split.
      * intros (? & [= <-] & [?|?]%HA); naive_solver.
      * intros [(? & [= <-] & ?)|[_ ?]]; exists node'; (split; [done|]); apply HA; tauto.
    + naive_solver.
Qed.

Lemma addEpsilonTransition_extends nfa from to :
  nfa_ok nfa -> from < graphSize nfa -> to < graphSize nfa ->
  exists nfa', addEpsilonTransition nfa from to = Some nfa' /\ extends nfa nfa' 0 (eps from to) no_final.
Proof.
  intros Hok Hf Ht. destruct (lookupN_is_Some (m_nodes nfa) from Hf) as [node Hn].
  pose proof (addEpsilonTransition_ok nfa from to) as Hok'. unfold addEpsilonTransition in *. rewrite Hn in *. run_option.
  eexists. split; [done|]. specialize (Hok' _ eq_refl Hok Ht).
  eapply extends_ext; [done|..|apply (insert_extends nfa from node _ (fun l q => l = None /\ q = to) (fun _ => False) Hn); [..|exact Hok']].
  - unfold eps. naive_solver.
  - unfold no_final. naive_solver.
  - intros [c|] q; unfold node_edge.
    + rewrite elem_of_slot_add. unfold epsilonTransitionCharacter. cbn [transitionsOnAnyCharacter add_to_slot].
      split; [|naive_solver lia]. intros (? & [[[? ?]|?]|?]); [lia|tauto..].
    + rewrite elem_of_slot_add. naive_solver.
  - cbn [add_to_slot finalRuleIds]. tauto.
Qed.

Lemma addTransitionsOnAnyCharacter_extends nfa from to :
  nfa_ok nfa -> from < graphSize nfa -> to < graphSize nfa ->
  exists nfa', addTransitionsOnAnyCharacter nfa from to = Some nfa' /\
    extends nfa nfa' 0 (chars from to (fun c => c < 128 /\ c <> 0)) no_final.
Proof.
  intros Hok Hf Ht. destruct (lookupN_is_Some (m_nodes nfa) from Hf) as [node Hn].
  pose proof (addTransitionsOnAnyCharacter_ok nfa from to) as Hok'. unfold addTransitionsOnAnyCharacter in *.
  rewrite Hn in *. run_option. eexists. split; [done|]. specialize (Hok' _ eq_refl Hok Ht).
  eapply extends_ext; [done|..|apply (insert_extends nfa from node _
    (fun l q => q = to /\ exists c, l = Some c /\ c < 128 /\ c <> 0) (fun _ => False) Hn); [..|exact Hok']].
  - unfold chars. naive_solver.
  - unfold no_final. naive_solver.
  - intros [c|] q; unfold node_edge; cbn [transitionsOnAnyCharacter].
    + change (slot c _) with (slot c node). rewrite elem_of_hset_add. naive_solver.
    + change (slot epsilonTransitionCharacter (mkNFANode _ _ _)) with (slot epsilonTransitionCharacter node). naive_solver.
  - cbn [finalRuleIds]. tauto.
Qed.

Lemma nfa_setActions_extends `{HashOrder} nfa i acts :
  nfa_ok nfa -> i < graphSize nfa -> (forall a, ~ final nfa i a) -> Forall (fun a => a < 2 ^ 48) acts ->
  exists nfa', nfa_setActions nfa i acts = Some nfa' /\ extends nfa nfa' 0 no_edge (fun q a => q = i /\ a ∈ acts).
Proof.
  intros Hok Hi Hno Ha. destruct (lookupN_is_Some (m_nodes nfa) i Hi) as [node Hn].
  pose proof (nfa_setActions_ok nfa i acts) as Hok'. unfold nfa_setActions in *.
  rewrite Hn in *. run_option. eexists. split; [done|]. specialize (Hok' _ eq_refl Hok Ha).
  eapply extends_ext; [done|..|apply (insert_extends nfa i node _ (fun _ _ => False) (fun a => a ∈ acts) Hn); [..|exact Hok']].
  - unfold no_edge. naive_solver.
  - done.
  - intros [c|] q; unfold node_edge; cbn [transitionsOnAnyCharacter].
    + change (slot c (mkNFANode _ _ _)) with (slot c node). naive_solver.
    + change (slot epsilonTransitionCharacter (mkNFANode _ _ _)) with (slot epsilonTransitionCharacter node). naive_solver.
  - intros a. cbn [finalRuleIds]. rewrite elem_of_hash_order. split; [by right|]. intros [Hin|?]; [|done].
    destruct (Hno a). by exists node.
Qed.

(** [addTransition] to a node that has no transition on any character. *)
Lemma addTransition_extends nfa from to c node :
  nfa_ok nfa -> to < graphSize nfa -> c < 128 ->
  m_nodes nfa !!N from = Some node -> to ∉ transitionsOnAnyCharacter node ->
  exists nfa' node', addTransition nfa from to c = Some nfa' /\
    extends nfa nfa' 0 (chars from to (fun c' => c' = c)) no_final /\
    m_nodes nfa' !!N from = Some node' /\ to ∉ transitionsOnAnyCharacter node'.
Proof.
  intros Hok Ht Hc Hn Hany. pose proof (addTransition_ok nfa from to c) as Hok'. unfold addTransition in *.
  rewrite Hn in *. cbn [mbind option_bind] in *. unfold hset_contains in *. rewrite bool_decide_false in * by done.
  eexists _, (add_to_slot (transition_key c) to node). split; [done|]. specialize (Hok' _ eq_refl Hok Ht Hc).
  split; [|split; [apply list_lookup_insert_eq; by eapply lookup_lt_Some|done]].
  assert (transition_key c = c) as Hkey by (unfold transition_key; apply N.ltb_lt in Hc; by rewrite Hc).
  eapply extends_ext; [done|..|apply (insert_extends nfa from node _
    (fun l q => q = to /\ l = Some c) (fun _ => False) Hn); [..|exact Hok']].
  - unfold chars. naive_solver.
  - unfold no_final. naive_solver.
  - rewrite Hkey. intros [c'|] q; unfold node_edge; rewrite elem_of_slot_add; unfold epsilonTransitionCharacter;
      cbn [transitionsOnAnyCharacter add_to_slot]; [naive_solver|].
    split; [intros [[? ?]|?]; [lia|tauto]|naive_solver].
  - cbn [add_to_slot finalRuleIds]. tauto.
Qed.

(** A loop of [addTransition]s to a new node. *)
Lemma addTransitions_extends (body : NFA -> N -> option NFA) (chosen : N -> bool) from to l :
  (forall nfa c, c ∈ l -> body nfa c = if chosen c then addTransition nfa from to c else Some nfa) ->
  Forall (fun c => c < 128) l ->
  forall nfa node, nfa_ok nfa -> to < graphSize nfa ->
  m_nodes nfa !!N from = Some node -> to ∉ transitionsOnAnyCharacter node ->
  exists nfa', foldM body nfa l = Some nfa' /\
    extends nfa nfa' 0 (chars from to (fun c => c ∈ l /\ chosen c = true)) no_final.
Proof.
  intros Hbody Hl. induction Hl as [|c l Hc Hl IH]; intros nfa node Hok Ht Hn Hany.
  - exists nfa. split; [done|]. eapply extends_ext; [done|..|by apply extends_refl]; [|done].
    unfold no_edge, chars. intros. split; [done|]. intros (_ & _ & ? & _ & Hin & _). by apply not_elem_of_nil in Hin.
  - specialize (IH (fun nfa c Hin => Hbody nfa c (list_elem_of_further _ _ _ Hin))).
    cbn [foldM]. rewrite Hbody by (by left). destruct (chosen c) eqn:Ec.
    + destruct (addTransition_extends nfa from to c node Hok Ht Hc Hn Hany) as (nfa1 & node1 & -> & Hx & Hn1 & Hany1).
      run_option. destruct (IH nfa1 node1) as (nfa' & -> & Hx').
      { apply Hx. }
      { rewrite (ex_size _ _ _ _ _ Hx). lia. }
      { done. }
      { done. }
      exists nfa'. split; [done|]. eapply extends_ext; [..|exact (extends_trans _ _ _ _ _ _ _ _ _ Hx Hx')]; [done|..].
      * unfold union_rel, chars. intros. setoid_rewrite elem_of_cons. naive_solver.
      * unfold union_final, no_final. tauto.
    + run_option. destruct (IH nfa node) as (nfa' & -> & Hx'); [done..|].
      exists nfa'. split; [done|]. eapply extends_ext; [..|exact Hx']; [done| |done].
      unfold chars. intros p lb q. split.
      * intros (-> & -> & c' & -> & Hin & Hch). split_and!; [done..|]. exists c'. split_and!; [done|by right|done].
      * intros (-> & -> & c' & -> & [->|Hin]%elem_of_cons & Hch); [congruence|]. eauto 6.
Qed.

(** ** What a fragment adds to the automaton *)

Section Extension.
Context (nfa nfa' : NFA) (k : N) (R : rel) (F : N -> N -> Prop) (s e : N) (L : list N -> Prop).
Context (Hok : nfa_ok nfa) (Hx : extends nfa nfa' k R F).
Context (Hf : fragment R (graphSize nfa) (graphSize nfa + k) s e L).

Lemma extension_new p w q : graphSize nfa <= p -> path (edge nfa') p w q -> path R p w q.
Proof.
  intros Hp Hpath. induction Hpath as [|p l q w r He _ IH]; [constructor|].
  apply (ex_edge _ _ _ _ _ Hx) in He as [He|He].
  - apply edge_lt in He; [lia|done].
  - econstructor; [done|]. apply IH. pose proof (fr_target _ _ _ _ _ _ Hf _ _ _ He). lia.
Qed.

(** No new edge leads to the old nodes. *)
Lemma extension_old p w q : q < graphSize nfa -> path (edge nfa') p w q <-> path (edge nfa) p w q.
Proof.
  intros Hq. split; [|apply path_mono; intros; apply (ex_edge _ _ _ _ _ Hx); by left].
  intros Hpath. induction Hpath as [|p l q w r He Hpath IH]; [constructor|].
  apply (ex_edge _ _ _ _ _ Hx) in He as [He|He]; [econstructor; eauto|]. exfalso.
  pose proof (fr_target _ _ _ _ _ _ Hf _ _ _ He). apply extension_new in Hpath; [|lia].
  destruct (fragment_target _ _ _ _ _ _ _ _ _ Hf Hpath) as [[? _]|?]; lia.
Qed.

Lemma extension_end p w : p < graphSize nfa ->
  path (edge nfa') p w e <-> exists w1 w2, w = w1 ++ w2 /\ path (edge nfa) p w1 s /\ L w2.
Proof.
  intros Hp. pose proof (fr_end _ _ _ _ _ _ Hf). split.
  - intros Hpath. assert (forall q, path (edge nfa') p w q -> q = e ->
      exists w1 w2, w = w1 ++ w2 /\ path (edge nfa) p w1 s /\ path R s w2 e) as Hall.
    { clear Hpath. intros q Hpath. induction Hpath as [|p l q w r He Hpath IH]; intros Hr; [subst; lia|].
      apply (ex_edge _ _ _ _ _ Hx) in He as [He|He].
      - apply edge_lt in He as He'; [|done]. destruct (IH ltac:(lia) Hr) as (w1 & w2 & -> & ? & ?).
        exists (label l ++ w1), w2. rewrite app_assoc. split_and!; [done|by econstructor|done].
      - destruct (fr_source _ _ _ _ _ _ Hf _ _ _ He) as [->|?]; [|lia].
        pose proof (fr_target _ _ _ _ _ _ Hf _ _ _ He). apply extension_new in Hpath; [|lia]. subst r.
        exists [], (label l ++ w). split_and!; [done|constructor|by econstructor]. }
    destruct (Hall e Hpath eq_refl) as (w1 & w2 & ? & ? & HR). exists w1, w2. split_and!; [done..|].
    by apply (fr_language _ _ _ _ _ _ Hf).
  - intros (w1 & w2 & -> & Hw1 & Hw2). pose proof (fr_start _ _ _ _ _ _ Hf). eapply path_trans; [by apply extension_old|].
    eapply path_mono; [|by apply (fr_language _ _ _ _ _ _ Hf)]. intros. apply (ex_edge _ _ _ _ _ Hx). by right.
Qed.
End Extension.

(** A fragment with actions at its end adds the inputs that go through it. *)
Lemma extension_accepts nfa nfa' k R s e L (acts w : list N) a :
  nfa_ok nfa -> extends nfa nfa' k R (fun q a => q = e /\ a ∈ acts) ->
  fragment R (graphSize nfa) (graphSize nfa + k) s e L -> Forall (fun c => c < 128) w ->
  accepts nfa' w a <-> accepts nfa w a \/
    exists w1 w2, w = w1 ++ w2 /\ reach nfa (m_root nfa) w1 s /\ L w2 /\ a ∈ acts.
Proof.
  intros Hok Hx Hf Hw. unfold accepts. rewrite (ex_root _ _ _ _ _ Hx). pose proof (nfa_ok_root _ Hok) as Hroot. split.
  - intros (q & Hr & [Ha|[-> Ha]]%(ex_final _ _ _ _ _ Hx)); apply (reach_path nfa') in Hr; [|done| |done].
    + left. exists q. split; [|done]. apply reach_path; [done|]. apply (extension_old _ _ _ _ _ _ _ _ Hok Hx Hf) in Hr; [done|].
      by eapply final_lt.
    + right. apply (extension_end _ _ _ _ _ _ _ _ Hok Hx Hf) in Hr as (w1 & w2 & -> & ? & ?); [|done].
      apply Forall_app in Hw as [? ?]. exists w1, w2. split_and!; [done| |done|done]. by apply reach_path.
  - intros [(q & Hr & Ha)|(w1 & w2 & -> & Hr & HL & Ha)].
    + exists q. split; [|apply (ex_final _ _ _ _ _ Hx); by left]. apply reach_path; [done|].
      apply (extension_old _ _ _ _ _ _ _ _ Hok Hx Hf); [by eapply final_lt|]. by apply reach_path.
    + exists e. split; [|apply (ex_final _ _ _ _ _ Hx); right; done]. apply reach_path; [done|].
      apply Forall_app in Hw as [? ?]. apply (extension_end _ _ _ _ _ _ _ _ Hok Hx Hf); [done|].
      exists w1, w2. split_and!; [done|by apply reach_path|done].
Qed.
