(* ===== verification/Term.v ===== *)
(** * [WebCore/contentextensions/Term.h]

    A term of a pattern: a set of characters or a group of terms, with a
    quantifier.  The [None] answer of an operation is a crash in one of the calls
    it makes.  Copies of a term are values, a moved term is [TDeleted]. *)

From S2P Require Import BitVector.
From S2P Require Import Prelude HashTable HashFunctions ASCII NFA Graph.

(** ** Data *)

(** WebCore/contentextensions/Term.h:42-47 [AtomQuantifier] *)
Inductive AtomQuantifier := One | ZeroOrOne | ZeroOrMore | OneOrMore.

#[global] Instance AtomQuantifier_eq_dec : EqDecision AtomQuantifier.
Proof. solve_decision. Defined.

(** The value of the enumerator. *)
Definition quantifier_value (q : AtomQuantifier) : N :=
  match q with One => 0 | ZeroOrOne => 1 | ZeroOrMore => 2 | OneOrMore => 3 end.

#[local] Set Warnings "-register-all".

(** WebCore/contentextensions/Term.h:119-176 [Term], [Term::CharacterSet] and [Term::Group] *)
Inductive Term :=
| TEmpty (m_quantifier : AtomQuantifier)
| TDeleted (m_quantifier : AtomQuantifier)
| TCharacterSet (m_quantifier : AtomQuantifier) (inverted : bool) (characters : BitVector)
| TGroup (m_quantifier : AtomQuantifier) (terms : list Term).

Definition m_quantifier (t : Term) : AtomQuantifier :=
  match t with TEmpty q | TDeleted q | TCharacterSet q _ _ | TGroup q _ => q end.

(** ** Construction *)

(** WebCore/contentextensions/Term.h:187-189 [Term::Term] *)
Definition newTerm : Term := TEmpty One.

(** WebCore/contentextensions/Term.h:281-295 [Term::addCharacter] *)
Definition addCharacter (t : Term) (character : N) (isCaseSensitive : bool) : option Term :=
  match t with
  | TCharacterSet q inverted characters =>
      if isCaseSensitive || negb (isASCIIAlpha character) then
        r ← set_bit characters character;
        Some (TCharacterSet q inverted r.2)
      else
        r ← set_bit characters (toASCIIUpper character);
        r ← set_bit r.2 (toASCIILower character);
        Some (TCharacterSet q inverted r.2)
  | _ => Some t
  end.

(** WebCore/contentextensions/Term.h:191-196 [Term::Term], of a character *)
Definition Term_character (character : N) (isCaseSensitive : bool) : option Term :=
  addCharacter (TCharacterSet One false (newBitVector 128)) character isCaseSensitive.

(** WebCore/contentextensions/Term.h:199-205 [Term::Term], of [UniversalTransition] *)
Definition Term_universal : option Term :=
  characters ← foldM (fun characters i => r ← set_bit characters i; Some r.2) (newBitVector 128) (for_range 0 128);
  Some (TCharacterSet One false characters).

(** WebCore/contentextensions/Term.h:207-212 [Term::Term], of [CharacterSetTerm] *)
Definition Term_characterSet (isInverted : bool) : Term := TCharacterSet One isInverted (newBitVector 128).

(** WebCore/contentextensions/Term.h:214-218 [Term::Term], of [GroupTerm] *)
Definition Term_group : Term := TGroup One [].

(** WebCore/contentextensions/Term.h:220-224 [Term::Term], of [EndOfLineAssertionTerm] *)
Definition Term_endOfLine : option Term :=
  match Term_characterSet false with
  | TCharacterSet q inverted characters =>
      r ← set_bit characters 0; Some (TCharacterSet q inverted r.2)
  | t => Some t
  end.

(** WebCore/contentextensions/Term.h:562-576 [Term::destroy] *)
Definition destroy (t : Term) : Term := TDeleted (m_quantifier t).

(** WebCore/contentextensions/Term.h:243-259 [Term::Term], the move: the new term
    and what is left of the other *)
Definition Term_move (other : Term) : Term * Term := (other, destroy other).

(** WebCore/contentextensions/Term.h:276-279 [Term::isValid] *)
Definition isValid (t : Term) : bool := match t with TEmpty _ | TDeleted _ => false | _ => true end.

(** WebCore/contentextensions/Term.h:297-303 [Term::extendGroupSubpattern] *)
Definition extendGroupSubpattern (t term : Term) : Term :=
  match t with TGroup q terms => TGroup q (terms ++ [term]) | _ => t end.

(** WebCore/contentextensions/Term.h:305-309 [Term::quantify] *)
Definition quantify (t : Term) (quantifier : AtomQuantifier) : Term :=
  match t with
  | TEmpty _ => TEmpty quantifier
  | TDeleted _ => TDeleted quantifier
  | TCharacterSet _ inverted characters => TCharacterSet quantifier inverted characters
  | TGroup _ terms => TGroup quantifier terms
  end.

(** WebCore/contentextensions/Term.h:500-503 [Term::isEmptyValue] *)
Definition isEmptyValue (t : Term) : bool := match t with TEmpty _ => true | _ => false end.

(** WebCore/contentextensions/Term.h:505-508 [Term::isDeletedValue] *)
Definition isDeletedValue (t : Term) : bool := match t with TDeleted _ => true | _ => false end.

(** ** Questions *)

(** WebCore/contentextensions/Term.h:357-360 [Term::isEndOfLineAssertion] *)
Definition isEndOfLineAssertion (t : Term) : option bool :=
  match t with
  | TCharacterSet _ _ characters =>
      if bitCount characters =? 1 then get characters 0 else Some false
  | _ => Some false
  end.

(** WebCore/contentextensions/Term.h:510-526 [Term::isUniversalTransition] *)
Fixpoint isUniversalTransition (t : Term) : bool :=
  match t with
  | TEmpty _ | TDeleted _ => false
  | TCharacterSet _ inverted characters =>
      (inverted && (bitCount characters =? 0)) || (negb inverted && (bitCount characters =? 128))
  | TGroup _ terms => match terms with [first] => isUniversalTransition first | _ => false end
  end.

(** WebCore/contentextensions/Term.h:362-379 [Term::matchesAtLeastOneCharacter] *)
Fixpoint matchesAtLeastOneCharacter (t : Term) : option bool :=
  if bool_decide (m_quantifier t = ZeroOrOne) || bool_decide (m_quantifier t = ZeroOrMore) then Some false
  else
    endOfLine ← isEndOfLineAssertion t;
    if (endOfLine : bool) then Some false
    else
      match t with
      | TGroup _ terms =>
          (fix loop terms := match terms with
                             | [] => Some false
                             | term :: terms' => b ← matchesAtLeastOneCharacter term;
                                                 if (b : bool) then Some true else loop terms'
                             end) terms
      | _ => Some true
      end.

(** WebCore/contentextensions/Term.h:381-421 [Term::isKnownToMatchAnyString] *)
Fixpoint isKnownToMatchAnyString (t : Term) : bool :=
  match t with
  | TEmpty _ | TDeleted _ => false
  | TCharacterSet q _ _ => isUniversalTransition t && bool_decide (q = ZeroOrMore)
  | TGroup q terms =>
      match terms with
      | [firstTermInGroup] =>
          if isKnownToMatchAnyString firstTermInGroup then true
          else if isUniversalTransition firstTermInGroup then
            if bool_decide (q = ZeroOrMore) then true
            else if bool_decide (q = ZeroOrOne) && bool_decide (m_quantifier firstTermInGroup = OneOrMore) then true
            else bool_decide (q = OneOrMore) && bool_decide (m_quantifier firstTermInGroup = ZeroOrOne)
          else false
      | _ => false
      end
  end.

(** WebCore/contentextensions/Term.h:423-445 [Term::hasFixedLength] *)
Fixpoint hasFixedLength (t : Term) : bool :=
  match t with
  | TEmpty _ | TDeleted _ => false
  | TCharacterSet q _ _ => bool_decide (q = One)
  | TGroup q terms => bool_decide (q = One) && forallb hasFixedLength terms
  end.

(** WebCore/contentextensions/Term.h:461-477 [Term::operator==], with the one of the
    sets and of the groups at 133-136 and 147-150 *)
Fixpoint term_equals (t other : Term) : option bool :=
  match t, other with
  | TEmpty q, TEmpty q' | TDeleted q, TDeleted q' => Some (bool_decide (q = q'))
  | TCharacterSet q inverted characters, TCharacterSet q' inverted' characters' =>
      if negb (bool_decide (q = q')) then Some false
      else if eqb inverted' inverted then equals characters' characters else Some false
  | TGroup q terms, TGroup q' terms' =>
      if negb (bool_decide (q = q')) then Some false
      else if (length terms =? length terms')%nat then
        (fix loop terms terms' := match terms, terms' with
                                  | term :: terms, term' :: terms' =>
                                      b ← term_equals term term';
                                      if (b : bool) then loop terms terms' else Some false
                                  | _, _ => Some true
                                  end) terms terms'
      else Some false
  | _, _ => Some false
  end.

(** WebCore/contentextensions/Term.h:138-141 [Term::CharacterSet::hash] *)
Definition characterSet_hash (inverted : bool) (characters : BitVector) : N :=
  pairIntHash (N.b2n inverted) (BitVector.hash characters).

(** WebCore/contentextensions/Term.h:155-159 [Term::Group::hash], one turn of the loop *)
Definition group_hash_step (hash termHash : N) : N :=
  let hash := N.lxor (shl32 hash 16) (N.lxor (shl32 termHash 11) hash) in
  wrap32 (hash + N.shiftr hash 11).

(** WebCore/contentextensions/Term.h:479-498 [Term::hash] *)
Fixpoint term_hash (t : Term) : N :=
  let primary termType := N.lor (N.shiftl termType 16) (quantifier_value (m_quantifier t)) in
  match t with
  | TEmpty _ => pairIntHash (primary 0) 52184393
  | TDeleted _ => pairIntHash (primary 1) 40342988
  | TCharacterSet _ inverted characters => pairIntHash (primary 2) (characterSet_hash inverted characters)
  | TGroup _ terms => pairIntHash (primary 3) (foldl (fun hash term => group_hash_step hash (term_hash term)) 6421749 terms)
  end.

(** ** Generation of the automaton *)

Section Generation.
Context `{HashOrder}.

(** WebCore/contentextensions/Term.h:535-552 [Term::generateSubgraphForAtom], a set of characters *)
Definition generateSubgraphForSet (inverted : bool) (characters : BitVector) (universal : bool)
    (nfa : NFA) (source : N) : option (N * NFA) :=
  let '(target, nfa) := createNode nfa in
  nfa ← (if universal then addTransitionsOnAnyCharacter nfa source target
         else if negb inverted then
           foldM (fun nfa character => addTransition nfa source target (wrap8 character)) nfa (setBits characters)
         else
           foldM (fun nfa i => b ← get characters i;
                               if (b : bool) then Some nfa else addTransition nfa source target (wrap8 i))
             nfa (for_range 1 (BitVector.size characters)));
  Some (target, nfa).

(** WebCore/contentextensions/Term.h:317-354 [Term::generateGraph], from the subgraph of the atom *)
Definition generateQuantified (q : AtomQuantifier) (subgraph : NFA -> N -> option (N * NFA))
    (nfa : NFA) (start : N) (finalActions : list N) : option (N * NFA) :=
  r ← match q with
      | One => subgraph nfa start
      | ZeroOrOne =>
          r ← subgraph nfa start;
          let '(newEnd, nfa) := r in
          nfa ← addEpsilonTransition nfa start newEnd;
          Some (newEnd, nfa)
      | ZeroOrMore =>
          let '(repeatStart, nfa) := createNode nfa in
          nfa ← addEpsilonTransition nfa start repeatStart;
          r ← subgraph nfa repeatStart;
          let '(repeatEnd, nfa) := r in
          nfa ← addEpsilonTransition nfa repeatEnd repeatStart;
          let '(kleenEnd, nfa) := createNode nfa in
          nfa ← addEpsilonTransition nfa repeatEnd kleenEnd;
          nfa ← addEpsilonTransition nfa start kleenEnd;
          Some (kleenEnd, nfa)
      | OneOrMore =>
          let '(repeatStart, nfa) := createNode nfa in
          nfa ← addEpsilonTransition nfa start repeatStart;
          r ← subgraph nfa repeatStart;
          let '(repeatEnd, nfa) := r in
          nfa ← addEpsilonTransition nfa repeatEnd repeatStart;
          let '(afterRepeat, nfa) := createNode nfa in
          nfa ← addEpsilonTransition nfa repeatEnd afterRepeat;
          Some (afterRepeat, nfa)
      end;
  let '(newEnd, nfa) := r in
  nfa ← nfa_setActions nfa newEnd finalActions;
  Some (newEnd, nfa).

(** WebCore/contentextensions/Term.h:311-355 [Term::generateGraph], with
    [Term::generateSubgraphForAtom] at 528-560 *)
Fixpoint generateGraph (t : Term) (nfa : NFA) (start : N) (finalActions : list N) : option (N * NFA) :=
  generateQuantified (m_quantifier t)
    (fun nfa source =>
       match t with
       | TEmpty _ | TDeleted _ => None
       | TCharacterSet _ inverted characters =>
           generateSubgraphForSet inverted characters (isUniversalTransition t) nfa source
       | TGroup _ terms =>
           foldM (fun s term => generateGraph term s.2 s.1 []) (source, nfa) terms
       end)
    nfa start finalActions.
End Generation.

(** WebCore/contentextensions/Term.h:528-560 [Term::generateSubgraphForAtom] *)
Definition generateSubgraphForAtom `{HashOrder} (t : Term) (nfa : NFA) (source : N) : option (N * NFA) :=
  match t with
  | TEmpty _ | TDeleted _ => None
  | TCharacterSet _ inverted characters =>
      generateSubgraphForSet inverted characters (isUniversalTransition t) nfa source
  | TGroup _ terms => foldM (fun s term => generateGraph term s.2 s.1 []) (source, nfa) terms
  end.

(** ** The language of a term *)

Definition quantified (q : AtomQuantifier) (L : list N -> Prop) : list N -> Prop :=
  match q with
  | One => L
  | ZeroOrOne => fun w => w = [] \/ L w
  | ZeroOrMore => star L
  | OneOrMore => concatenation L (star L)
  end.

(** The ASCII characters of a set; the universal set leaves out the end of the input. *)
Definition set_matches (inverted : bool) (characters : BitVector) (c : N) : Prop :=
  c < 128 /\
  if (inverted && (bitCount characters =? 0)) || (negb inverted && (bitCount characters =? 128)) then c <> 0
  else if inverted then c <> 0 /\ mem characters c = false
  else mem characters c = true.

Fixpoint language (t : Term) : list N -> Prop :=
  match t with
  | TEmpty _ | TDeleted _ => fun _ => False
  | TCharacterSet q inverted characters => quantified q (fun w => exists c, w = [c] /\ set_matches inverted characters c)
  | TGroup q terms => quantified q (foldr (fun t L => concatenation (language t) L) (fun w => w = []) terms)
  end.

(** The language of a sequence of terms. *)
Definition sequence_language (terms : list Term) : list N -> Prop :=
  foldr (fun t L => concatenation (language t) L) (fun w => w = []) terms.

(** The terms that the parser makes: sets of ASCII characters and groups that are not empty. *)
Fixpoint term_ok (t : Term) : Prop :=
  match t with
  | TEmpty _ | TDeleted _ => False
  | TCharacterSet _ _ characters => wf characters /\ BitVector.size characters = 128
  | TGroup _ terms => terms <> [] /\ foldr (fun t P => term_ok t /\ P) True terms
  end.
