(* ===== verification/TermGraph.v ===== *)
(** * The automaton of a term

    [Term::generateGraph] adds to an NFA a fragment that reads the language of the
    term, and [Term::operator==] decides whether two terms are made of the same
    sets. *)

From S2P Require Import BitVector.
From S2P Require Import Prelude HashTable HashFunctions ASCII NFA Graph Term.

(** ** Induction on the terms *)

Lemma Term_nested_ind (P : Term -> Prop) :
  (forall q, P (TEmpty q)) -> (forall q, P (TDeleted q)) ->
  (forall q inverted characters, P (TCharacterSet q inverted characters)) ->
  (forall q terms, Forall P terms -> P (TGroup q terms)) -> forall t, P t.
Proof.
  intros He Hd Hs Hg. fix IH 1. intros [q|q|q i c|q terms]; [apply He|apply Hd|apply Hs|].
  apply Hg. induction terms as [|t terms IHt]; constructor; [apply IH|apply IHt].
Qed.

(** ** The fragments *)

Section Generation.
Context `{HashOrder}.

(** [build] returns the new end of a fragment that reads [L], with the actions [acts]. *)
Definition builds (build : NFA -> N -> option (N * NFA)) (L : list N -> Prop) (acts : list N) : Prop :=
  forall nfa start, nfa_ok nfa -> start < graphSize nfa ->
  exists e nfa' k R, build nfa start = Some (e, nfa') /\
    extends nfa nfa' k R (fun q a => q = e /\ a ∈ acts) /\
    fragment R (graphSize nfa) (graphSize nfa + k) start e L.

Lemma builds_language build L L' acts : (forall w, L w <-> L' w) -> builds build L acts -> builds build L' acts.
Proof.
  intros HL Hb nfa start Hok Hs. destruct (Hb nfa start Hok Hs) as (e & nfa' & k & R & ? & ? & ?).
  exists e, nfa', k, R. split_and!; [done..|]. by eapply fragment_language.
Qed.

(** The new nodes have no actions. *)
Lemma extends_no_final nfa nfa' k R e :
  extends nfa nfa' k R no_final -> graphSize nfa <= e -> forall a, ~ final nfa' e a.
Proof. intros Hx He a Hf. apply (ex_final _ _ _ _ _ Hx) in Hf as [Hf|[]]. apply final_lt in Hf. lia. Qed.

Lemma extends_no_actions nfa nfa' k R e :
  extends nfa nfa' k R (fun q a => q = e /\ a ∈ []) <-> extends nfa nfa' k R no_final.
Proof.
  split; apply extends_ext; try done; unfold no_final; intros q a; set_solver.
Qed.

Lemma builds_set inverted characters :
  wf characters -> BitVector.size characters = 128 ->
  builds (generateSubgraphForSet inverted characters
            ((inverted && (bitCount characters =? 0)) || (negb inverted && (bitCount characters =? 128))))
    (fun w => exists c, w = [c] /\ set_matches inverted characters c) [].
Proof.
  intros Hwf Hsize nfa start Hok Hs. unfold generateSubgraphForSet.
  destruct (createNode_extends nfa Hok) as (nfa1 & -> & Hx1).
  pose proof (ex_ok _ _ _ _ _ Hx1) as Hok1. pose proof (ex_size _ _ _ _ _ Hx1) as Hsize1.
  assert (Hmem : forall c, mem characters c = true -> c < 128).
  { intros c Hc. destruct (N.lt_ge_cases c 128); [done|]. by rewrite mem_ge_size in Hc by lia. }
  set (universal := (_ || _)).
  assert (exists nfa', (if universal then addTransitionsOnAnyCharacter nfa1 start (graphSize nfa)
           else if negb inverted then
             foldM (fun nfa2 character => addTransition nfa2 start (graphSize nfa) (wrap8 character)) nfa1 (setBits characters)
           else
             foldM (fun nfa2 i => b ← get characters i;
                                 if (b : bool) then Some nfa2 else addTransition nfa2 start (graphSize nfa) (wrap8 i))
               nfa1 (for_range 1 (BitVector.size characters))) = Some nfa' /\
         extends nfa1 nfa' 0 (chars start (graphSize nfa) (set_matches inverted characters)) no_final) as (nfa' & -> & Hx2).
  { destruct (lookupN_is_Some (m_nodes nfa1) start) as [node Hn]; [unfold graphSize in *; lia|].
    assert (graphSize nfa ∉ transitionsOnAnyCharacter node) as Hany.
    { intros Hin. assert (edge nfa1 start (Some 1) (graphSize nfa)) as He
        by (apply edge_node; exists node; split; [done|]; split; [done|by right]).
      apply (ex_edge _ _ _ _ _ Hx1) in He as [He|[]]. apply edge_lt in He; [lia|done]. }
    unfold set_matches. fold universal. destruct universal.
    - destruct (addTransitionsOnAnyCharacter_extends nfa1 start (graphSize nfa) Hok1 ltac:(lia) ltac:(lia)) as (nfa' & ? & ?).
      by exists nfa'.
    - destruct inverted; cbn [negb].
      + destruct (addTransitions_extends (fun nfa2 i => b ← get characters i;
          if (b : bool) then Some nfa2 else addTransition nfa2 start (graphSize nfa) (wrap8 i))
          (fun c => negb (mem characters c)) start (graphSize nfa) (for_range 1 (BitVector.size characters)))
          with (nfa := nfa1) (node := node) as (nfa' & -> & Hx2); [| |done|lia|done|done|].
        * intros nfa2 c Hc. apply elem_of_for_range in Hc. rewrite get_spec. run_option.
          rewrite wrap8_id by lia. by destruct (mem characters c).
        * apply Forall_forall. intros c Hc%elem_of_for_range. lia.
        * exists nfa'. split; [done|]. eapply extends_ext; [done| |done|exact Hx2].
          unfold chars. intros p l q. setoid_rewrite elem_of_for_range. setoid_rewrite negb_true_iff. rewrite Hsize.
          split; intros (-> & -> & c & -> & ?); (split_and!; [done..|]); exists c; (split; [done|]); naive_solver lia.
      + destruct (addTransitions_extends (fun nfa2 c => addTransition nfa2 start (graphSize nfa) (wrap8 c))
          (fun c => true) start (graphSize nfa) (setBits characters))
          with (nfa := nfa1) (node := node) as (nfa' & -> & Hx2); [| |done|lia|done|done|].
        * intros nfa2 c Hc. rewrite setBits_members in Hc by done. apply list_elem_of_filter in Hc as [Hc _].
          rewrite wrap8_id; [done|]. apply Hmem in Hc. lia.
        * apply Forall_forall. intros c Hc. rewrite setBits_members in Hc by done.
          apply list_elem_of_filter in Hc as [Hc _]. by apply Hmem.
        * exists nfa'. split; [done|]. eapply extends_ext; [done| |done|exact Hx2].
          unfold chars. intros p l q. setoid_rewrite (setBits_members characters Hwf). unfold members.
          setoid_rewrite list_elem_of_filter. setoid_rewrite elem_of_for_range. rewrite Hsize.
          split; intros (-> & -> & c & -> & ?); (split_and!; [done..|]); exists c; (split; [done|]); naive_solver lia. }
  run_option. eexists _, nfa', 1, _. split; [done|]. split.
  - apply extends_no_actions. eapply extends_ext; [..|exact (extends_trans _ _ _ _ _ _ _ _ _ Hx1 Hx2)]; [done|..].
    + intros p l q. unfold union_rel, no_edge. instantiate (1 := chars start (graphSize nfa) (set_matches inverted characters)). tauto.
    + unfold union_final, no_final. tauto.
  - by apply fragment_chars.
Qed.

(** A fragment after another. *)
Lemma builds_then build1 build2 L1 L2 acts :
  builds build1 L1 [] -> builds build2 L2 acts ->
  builds (fun nfa start => r ← build1 nfa start; build2 r.2 r.1) (concatenation L1 L2) acts.
Proof.
  intros Hb1 Hb2 nfa start Hok Hs. destruct (Hb1 nfa start Hok Hs) as (e1 & nfa1 & k1 & R1 & -> & Hx1 & Hf1).
  run_option. cbn [fst snd]. apply extends_no_actions in Hx1.
  pose proof (fr_end _ _ _ _ _ _ Hf1). pose proof (ex_size _ _ _ _ _ Hx1) as Hsize.
  destruct (Hb2 nfa1 e1 (ex_ok _ _ _ _ _ Hx1) ltac:(lia)) as (e2 & nfa2 & k2 & R2 & -> & Hx2 & Hf2).
  exists e2, nfa2, (k1 + k2), (union_rel R1 R2). split; [done|]. split.
  - eapply extends_ext; [..|exact (extends_trans _ _ _ _ _ _ _ _ _ Hx1 Hx2)]; [done|done|].
    unfold union_final, no_final. tauto.
  - rewrite Hsize in Hf2. rewrite N.add_assoc. by eapply fragment_sequence.
Qed.

(** The terms of a group, one after the other. *)
Lemma builds_terms terms :
  Forall (fun t => builds (fun nfa start => generateGraph t nfa start []) (language t) []) terms -> terms <> [] ->
  builds (fun nfa source => foldM (fun s term => generateGraph term s.2 s.1 []) (source, nfa) terms)
    (sequence_language terms) [].
Proof.
  intros Hall. induction Hall as [|t terms Ht Hall IH]; intros Hne; [done|]. destruct terms as [|t' terms].
  - eapply builds_language; [|intros nfa start Hok Hs; destruct (Ht nfa start Hok Hs) as (e & nfa' & k & R & E & ?);
      exists e, nfa', k, R; cbn [foldM fst snd]; rewrite E; run_option; done].
    intros w. cbn. unfold concatenation. split.
    + intros Hw. exists w, []. by rewrite app_nil_r.
    + intros (w1 & w2 & -> & ? & ->). by rewrite app_nil_r.
  - specialize (IH ltac:(done)). pose proof (builds_then _ _ _ _ _ Ht IH) as Hb.
    intros nfa start Hok Hs. destruct (Hb nfa start Hok Hs) as (e & nfa' & k & R & E & ?).
    exists e, nfa', k, R. split; [|done]. rewrite <- E. cbn [foldM fst snd].
    by destruct (generateGraph t nfa start []) as [[? ?]|].
Qed.

Lemma setActions_builds build L acts :
  Forall (fun a => a < 2 ^ 48) acts -> builds build L [] ->
  builds (fun nfa start => r ← build nfa start; let '(newEnd, nfa) := r in
                           nfa ← nfa_setActions nfa newEnd acts; Some (newEnd, nfa)) L acts.
Proof.
  intros Ha Hb nfa start Hok Hs. destruct (Hb nfa start Hok Hs) as (e & nfa1 & k & R & -> & Hx & Hf).
  run_option. apply extends_no_actions in Hx. pose proof (fr_end _ _ _ _ _ _ Hf).
  destruct (nfa_setActions_extends nfa1 e acts) as (nfa' & -> & Hx'); [by apply Hx| | |done|].
  { rewrite (ex_size _ _ _ _ _ Hx). lia. }
  { eapply extends_no_final; [exact Hx|lia]. }
  run_option. exists e, nfa', k, R. split; [done|]. split; [|done].
  eapply extends_ext; [..|exact (extends_trans _ _ _ _ _ _ _ _ _ Hx Hx')]; [lia|..].
  - unfold union_rel, no_edge. tauto.
  - unfold union_final, no_final. tauto.
Qed.

Lemma builds_optional build L :
  builds build L [] ->
  builds (fun nfa start => r ← build nfa start; let '(newEnd, nfa) := r in
                           nfa ← addEpsilonTransition nfa start newEnd; Some (newEnd, nfa))
    (fun w => w = [] \/ L w) [].
Proof.
  intros Hb nfa start Hok Hs. destruct (Hb nfa start Hok Hs) as (e & nfa1 & k & R & -> & Hx & Hf).
  run_option. pose proof (fr_end _ _ _ _ _ _ Hf). pose proof (ex_size _ _ _ _ _ Hx).
  destruct (addEpsilonTransition_extends nfa1 start e) as (nfa' & -> & Hx'); [by apply Hx|lia|lia|].
  run_option. exists e, nfa', k, (union_rel R (eps start e)). split; [done|]. split; [|by apply fragment_optional].
  eapply extends_ext; [..|exact (extends_trans _ _ _ _ _ _ _ _ _ Hx Hx')]; [lia|done|].
  unfold union_final, no_final. tauto.
Qed.

(** The loop that the two repetitions start with: its nodes, and its edges but those that
    leave from [start] to the end. *)
Lemma builds_loop build L nfa start : builds build L [] -> nfa_ok nfa -> start < graphSize nfa ->
  exists repeatEnd nfa' k R,
    (let '(repeatStart, nfa) := createNode nfa in
     nfa ← addEpsilonTransition nfa start repeatStart;
     r ← build nfa repeatStart;
     let '(repeatEnd, nfa) := r in
     nfa ← addEpsilonTransition nfa repeatEnd repeatStart;
     let '(afterRepeat, nfa) := createNode nfa in
     nfa ← addEpsilonTransition nfa repeatEnd afterRepeat;
     Some (afterRepeat, nfa)) = Some (graphSize nfa + 1 + k, nfa') /\
    extends nfa nfa' (1 + k + 1)
      (loop_rel R (graphSize nfa) (graphSize nfa + 1 + k) start repeatEnd no_edge) no_final /\
    fragment R (graphSize nfa + 1) (graphSize nfa + 1 + k) (graphSize nfa) repeatEnd L.
Proof.
  intros Hb Hok Hs. destruct (createNode_extends nfa Hok) as (nfa1 & -> & Hx1).
  pose proof (ex_size _ _ _ _ _ Hx1) as S1.
  destruct (addEpsilonTransition_extends nfa1 start (graphSize nfa)) as (nfa2 & -> & Hx2); [apply Hx1|lia|lia|].
  pose proof (ex_size _ _ _ _ _ Hx2) as S2.
  run_option. destruct (Hb nfa2 (graphSize nfa)) as (e & nfa3 & k & R & -> & Hx3 & Hf); [apply Hx2|lia|].
  pose proof (fr_end _ _ _ _ _ _ Hf). pose proof (ex_size _ _ _ _ _ Hx3) as S3.
  run_option. destruct (addEpsilonTransition_extends nfa3 e (graphSize nfa)) as (nfa4 & -> & Hx4); [apply Hx3|lia|lia|].
  pose proof (ex_size _ _ _ _ _ Hx4) as S4.
  run_option. destruct (createNode_extends nfa4) as (nfa5 & -> & Hx5); [apply Hx4|].
  pose proof (ex_size _ _ _ _ _ Hx5) as S5.
  destruct (addEpsilonTransition_extends nfa5 e (graphSize nfa4)) as (nfa6 & -> & Hx6); [apply Hx5|lia|lia|].
  run_option. exists e, nfa6, k, R.
  replace (graphSize nfa4) with (graphSize nfa + 1 + k) in * by lia.
  replace (graphSize nfa2 + k) with (graphSize nfa + 1 + k) in Hf by lia.
  replace (graphSize nfa2) with (graphSize nfa + 1) in Hf by lia.
  split; [done|]. split; [|done].
  pose proof (extends_trans _ _ _ _ _ _ _ _ _ Hx1 (extends_trans _ _ _ _ _ _ _ _ _ Hx2
    (extends_trans _ _ _ _ _ _ _ _ _ Hx3 (extends_trans _ _ _ _ _ _ _ _ _ Hx4
      (extends_trans _ _ _ _ _ _ _ _ _ Hx5 Hx6))))) as Hx.
  eapply extends_ext; [..|exact Hx]; [lia|..].
  - unfold loop_rel, union_rel, no_edge. tauto.
  - intros q a. unfold union_final, no_final. pose proof (not_elem_of_nil a). tauto.
Qed.

Lemma generateQuantified_builds q build L acts :
  builds build L [] -> Forall (fun a => a < 2 ^ 48) acts ->
  builds (fun nfa start => generateQuantified q build nfa start acts) (quantified q L) acts.
Proof.
  intros Hb Ha. unfold generateQuantified. destruct q; cbn [quantified].
  - by apply setActions_builds.
  - by apply setActions_builds, builds_optional.
  - apply (setActions_builds _ _ _ Ha). intros nfa start Hok Hs.
    destruct (builds_loop build L nfa start Hb Hok Hs) as (e & nfa1 & k & R & E & Hx & Hf).
    pose proof (ex_size _ _ _ _ _ Hx) as Hsize.
    destruct (addEpsilonTransition_extends nfa1 start (graphSize nfa + 1 + k)) as (nfa' & E' & Hx'); [apply Hx|lia|lia|].
    eexists _, nfa', (1 + k + 1), _. split; [|split].
    + revert E. destruct (createNode nfa) as [rs nfa2]. destruct (addEpsilonTransition nfa2 start rs) as [nfa3|]; [|done].
      run_option. destruct (build nfa3 rs) as [[re nfa4]|]; [|done]. run_option.
      destruct (addEpsilonTransition nfa4 re rs) as [nfa5|]; [|done]. run_option.
      destruct (createNode nfa5) as [ke nfa6]. destruct (addEpsilonTransition nfa6 re ke) as [nfa7|]; [|done].
      run_option. intros [= -> ->]. rewrite E'. run_option. done.
    + apply extends_no_actions. eapply extends_ext; [..|exact (extends_trans _ _ _ _ _ _ _ _ _ Hx Hx')]; [lia| |].
      * instantiate (1 := loop_rel R (graphSize nfa) (graphSize nfa + 1 + k) start e (eps start (graphSize nfa + 1 + k))).
        unfold loop_rel, union_rel, no_edge. tauto.
      * unfold union_final, no_final. tauto.
    + replace (graphSize nfa + (1 + k + 1)) with (graphSize nfa + 1 + k + 1) by lia. by apply fragment_star.
  - apply (setActions_builds _ _ _ Ha). intros nfa start Hok Hs.
    destruct (builds_loop build L nfa start Hb Hok Hs) as (e & nfa1 & k & R & -> & Hx & Hf).
    eexists _, nfa1, (1 + k + 1), _. split; [done|]. split; [by apply extends_no_actions|].
    replace (graphSize nfa + (1 + k + 1)) with (graphSize nfa + 1 + k + 1) by lia. by apply fragment_plus.
Qed.

Lemma generateGraph_eq t nfa start acts :
  generateGraph t nfa start acts = generateQuantified (m_quantifier t) (generateSubgraphForAtom t) nfa start acts.
Proof. by destruct t. Qed.

Lemma generateGraph_builds t : term_ok t -> forall acts, Forall (fun a => a < 2 ^ 48) acts ->
  builds (fun nfa start => generateGraph t nfa start acts) (language t) acts.
Proof.
  induction t as [q|q|q inverted characters|q terms IH] using Term_nested_ind; intros Hok acts Ha; try done.
  - destruct Hok as [Hwf Hsize]. apply (generateQuantified_builds q); [|done]. by apply builds_set.
  - destruct Hok as [Hne Hterms]. apply (generateQuantified_builds q); [|done].
    apply (builds_terms terms); [|done]. clear Ha Hne. induction IH as [|t terms Ht IH IHt]; constructor.
    + apply Ht; [apply Hterms|done].
    + apply IHt, Hterms.
Qed.
End Generation.

(** C8: [generateGraph] of a term returns, keeps the automaton well formed, and makes it trigger, in
    addition to what it triggered, the actions after the inputs that reach the start
    and go on with a word of the language of the term; the node it returns is the one
    these inputs lead to. *)
Theorem generateGraph_correct `{HashOrder} (t : Term) (nfa : NFA) (start : N) (finalActions : list N) :
  term_ok t -> nfa_ok nfa -> start < graphSize nfa -> Forall (fun a => a < 2 ^ 48) finalActions ->
  exists newEnd nfa', generateGraph t nfa start finalActions = Some (newEnd, nfa') /\ nfa_ok nfa' /\
    forall w, Forall (fun c => c < 128) w ->
      (reach nfa' (m_root nfa') w newEnd <->
         exists w1 w2, w = w1 ++ w2 /\ reach nfa (m_root nfa) w1 start /\ language t w2) /\
      forall a, accepts nfa' w a <-> accepts nfa w a \/
        exists w1 w2, w = w1 ++ w2 /\ reach nfa (m_root nfa) w1 start /\ language t w2 /\ a ∈ finalActions.
Proof.
  intros Ht Hok Hs Ha. destruct (generateGraph_builds t Ht finalActions Ha nfa start Hok Hs)
    as (e & nfa' & k & R & E & Hx & Hf).
  exists e, nfa'. split; [done|]. split; [apply Hx|]. intros w Hw. split.
  - rewrite (ex_root _ _ _ _ _ Hx), reach_path by done.
    rewrite (extension_end _ _ _ _ _ _ _ _ Hok Hx Hf) by apply (nfa_ok_root _ Hok).
    split; intros (w1 & w2 & -> & Hr & HL); apply Forall_app in Hw as [? ?]; exists w1, w2;
      (split_and!; [done| |done]); by apply reach_path.
  - intros a. by eapply extension_accepts.
Qed.

(** ** The questions on terms *)

Lemma universal_set inverted characters c :
  (inverted && (bitCount characters =? 0)) || (negb inverted && (bitCount characters =? 128)) = true ->
  set_matches inverted characters c <-> c < 128 /\ c <> 0.
Proof. intros Hu. unfold set_matches. by rewrite Hu. Qed.

Lemma quantified_once q (L : list N -> Prop) w : L w -> quantified q L w.
Proof.
  intros Hw. destruct q; cbn; [done|by right|..].
  - rewrite <- (app_nil_r w). constructor; [done|constructor].
  - exists w, []. rewrite app_nil_r. split_and!; [done..|constructor].
Qed.

(** The characters that an ASCII input is made of. *)
Definition input_char (c : N) : Prop := c < 128 /\ c <> 0.

Lemma universal_language t c : isUniversalTransition t = true -> input_char c -> language t [c].
Proof.
  intros Hu [Hc Hz]. induction t as [q|q|q i cs|q terms IH] using Term_nested_ind; try done.
  - apply quantified_once. exists c. split; [done|]. by apply universal_set.
  - destruct terms as [|first [|]]; try done. apply quantified_once. cbn. exists [c], [].
    split_and!; [done| |done]. apply Forall_inv in IH. by apply IH.
Qed.

(** Repetitions of what has all the characters. *)
Lemma star_all (L : list N -> Prop) w :
  (forall c, input_char c -> L [c]) -> Forall input_char w -> star L w.
Proof.
  intros HL Hw. induction Hw as [|c w Hc Hw IH]; [constructor|].
  change (c :: w) with ([c] ++ w). constructor; auto.
Qed.

Lemma sequence_one t w : sequence_language [t] w <-> language t w.
Proof.
  cbn. unfold concatenation. split.
  - intros (w1 & w2 & -> & ? & ->). by rewrite app_nil_r.
  - intros Hw. exists w, []. by rewrite app_nil_r.
Qed.

Lemma universal_plus t c w :
  isUniversalTransition t = true -> m_quantifier t = OneOrMore -> input_char c -> Forall input_char w ->
  language t (c :: w).
Proof.
  intros Hu Hq Hc Hw. destruct t as [q|q|q i cs|q terms]; try done; cbn in Hu, Hq; subst q.
  - exists [c], w. split_and!; [done| |].
    + exists c. split; [done|]. by apply universal_set.
    + apply star_all; [|done]. intros c' ?. exists c'. split; [done|]. by apply universal_set.
  - destruct terms as [|t [|]]; try done. exists [c], w. split_and!; [done| |].
    + by apply sequence_one, universal_language.
    + apply star_all; [|done]. intros. by apply sequence_one, universal_language.
Qed.

Lemma known_all t w :
  isKnownToMatchAnyString t = true -> Forall input_char w -> language t w.
Proof.
  intros Hk Hw. induction t as [q|q|q i cs|q terms IH] using Term_nested_ind; try done.
  - cbn in Hk. apply andb_true_iff in Hk as [Hu Hq%bool_decide_eq_true]. subst q. cbn [language quantified].
    apply star_all; [|done]. intros c [? ?]. exists c. split; [done|]. by apply universal_set.
  - destruct terms as [|first [|]]; try done. apply Forall_inv in IH. cbn [isKnownToMatchAnyString] in Hk.
    change (quantified q (sequence_language [first]) w).
    destruct (isKnownToMatchAnyString first) eqn:Ef; [by apply quantified_once, sequence_one, IH|].
    destruct (isUniversalTransition first) eqn:Eu; [|done].
    assert (forall c, input_char c -> sequence_language [first] [c]) as Hone
      by (intros; by apply sequence_one, universal_language).
    destruct q; cbn in Hk |- *; try done.
    + apply bool_decide_eq_true in Hk as Hq || (destruct (bool_decide (m_quantifier first = OneOrMore)) eqn:Hq; [|done];
        apply bool_decide_eq_true in Hq).
      destruct w as [|c w]; [by left|]. right. apply sequence_one.
      apply Forall_cons in Hw as [Hc Hw]. by apply universal_plus.
    + by apply star_all.
    + apply bool_decide_eq_true in Hk. exists [], w. split_and!; [done| |by apply star_all]. apply sequence_one.
      destruct first; try done; cbn in *; subst; by left.
Qed.

(** A term that [isKnownToMatchAnyString] answers true for has all the inputs in its language. *)
Theorem isKnownToMatchAnyString_sound (t : Term) (w : list N) :
  isKnownToMatchAnyString t = true -> Forall input_char w -> language t w.
Proof. apply known_all. Qed.

Lemma fixed_length_seq terms :
  Forall (fun t => exists n, forall w, language t w -> length w = n) terms ->
  exists n, forall w, sequence_language terms w -> length w = n.
Proof.
  induction 1 as [|t terms [n Hn] _ [m Hm]]; [exists 0%nat; by intros w ->|].
  exists (n + m)%nat. intros w (w1 & w2 & -> & H1 & H2). rewrite length_app. by rewrite (Hn w1 H1), (Hm w2 H2).
Qed.

Lemma hasFixedLength_sound (t : Term) : hasFixedLength t = true -> exists n, forall w, language t w -> length w = n.
Proof.
  induction t as [q|q|q i cs|q terms IH] using Term_nested_ind; [done|done| |].
  - intros Hq%bool_decide_eq_true. subst. exists 1%nat. intros w (c & -> & _). done.
  - intros [Hq%bool_decide_eq_true Hall]%andb_true_iff. subst. apply (fixed_length_seq terms).
    rewrite forallb_forall in Hall. rewrite Forall_forall in IH |- *. intros t Ht.
    apply (IH t Ht), Hall. by apply list_elem_of_In.
Qed.

Lemma matchesAtLeastOneCharacter_sound (t : Term) : matchesAtLeastOneCharacter t = Some true -> ~ language t [].
Proof.
  induction t as [q|q|q i cs|q terms IH] using Term_nested_ind; [by intros _ []|by intros _ []| |].
  - intros Hm Hl. destruct q; cbn in Hm, Hl; try done.
    + destruct Hl as (c & ? & _). done.
    + destruct Hl as (w1 & w2 & E & (c & -> & _) & _). done.
  - intros Hm. assert (~ sequence_language terms []) as Hseq.
    { assert ((fix loop terms := match terms with
               | [] => Some false
               | term :: terms' => b ← matchesAtLeastOneCharacter term;
                                   if (b : bool) then Some true else loop terms'
               end) terms = Some true) as Hloop by (by destruct q).
      clear Hm. induction IH as [|t terms Ht _ IHt]; [done|].
      intros (w1 & w2 & E & H1 & H2). symmetry in E. apply app_eq_nil in E as [-> ->].
      destruct (matchesAtLeastOneCharacter t) as [[]|]; cbn in Hloop; [by apply Ht|by apply IHt|done]. }
    intros Hl. destruct q; try done. destruct Hl as (w1 & w2 & E & H1 & _).
    symmetry in E. by apply app_eq_nil in E as [-> ->].
Qed.

(** A term of which [hasFixedLength] holds has words of one length only, and a term of which
    [matchesAtLeastOneCharacter] holds does not have the empty word. *)
Theorem length_questions_sound (t : Term) :
  (hasFixedLength t = true -> exists n, forall w, language t w -> length w = n) /\
  (matchesAtLeastOneCharacter t = Some true -> ~ language t []).
Proof. split; [apply hasFixedLength_sound|apply matchesAtLeastOneCharacter_sound]. Qed.

(** ** Equality *)

(** The terms that are made of the same sets in the same way. *)
Fixpoint same_term (t t' : Term) : Prop :=
  match t, t' with
  | TEmpty q, TEmpty q' | TDeleted q, TDeleted q' => q = q'
  | TCharacterSet q i cs, TCharacterSet q' i' cs' => q = q' /\ i = i' /\ forall c, mem cs c = mem cs' c
  | TGroup q terms, TGroup q' terms' =>
      q = q' /\ (fix loop terms terms' := match terms, terms' with
                                          | [], [] => True
                                          | t :: terms, t' :: terms' => same_term t t' /\ loop terms terms'
                                          | _, _ => False
                                          end) terms terms'
  | _, _ => False
  end.

Lemma same_term_group q terms q' terms' :
  same_term (TGroup q terms) (TGroup q' terms') <-> q = q' /\ Forall2 same_term terms terms'.
Proof.
  cbn. apply and_iff_compat_l. revert terms'. induction terms as [|t terms IH]; intros [|t' terms'].
  - by split; [constructor|].
  - by split; [|intros H; inv H].
  - by split; [|intros H; inv H].
  - rewrite Forall2_cons, IH. done.
Qed.

Lemma term_ok_group q terms : term_ok (TGroup q terms) <-> terms <> [] /\ Forall term_ok terms.
Proof.
  cbn. apply and_iff_compat_l. induction terms as [|t terms IH]; cbn; [by split; [constructor|]|].
  by rewrite Forall_cons, IH.
Qed.

Lemma term_equals_same t t' : term_ok t -> term_ok t' ->
  exists r, term_equals t t' = Some r /\ (r = true <-> same_term t t').
Proof.
  revert t'. induction t as [q|q|q i cs|q terms IH] using Term_nested_ind; intros t' Hok Hok'; try done.
  - destruct t' as [q'|q'|q' i' cs'|q' terms']; try done; cbn [term_equals same_term]; [|by exists false].
    case_bool_decide; cbn [negb]; [|exists false; split; [done|]; naive_solver]. subst q'.
    destruct Hok as [Hwf _], Hok' as [Hwf' _]. destruct (eqb i' i) eqn:Ei.
    + apply eqb_prop in Ei as ->. destruct (equals_mem cs' cs Hwf' Hwf) as (r & -> & Hr). exists r. split; [done|].
      rewrite Hr. naive_solver.
    + apply eqb_false_iff in Ei. exists false. split; [done|]. naive_solver.
  - destruct t' as [q'|q'|q' i' cs'|q' terms']; try done; [by exists false|].
    setoid_rewrite same_term_group. apply term_ok_group in Hok as [_ Hok], Hok' as [_ Hok']. cbn [term_equals].
    case_bool_decide; cbn [negb]; [|exists false; split; [done|]; naive_solver]. subst q'.
    destruct (_ =? _)%nat eqn:El; breflect; [|exists false; split; [done|]; split; [done|]; intros [_ Hf];
      apply Forall2_length in Hf; congruence].
    assert (exists r, (fix loop terms terms' := match terms, terms' with
        | term :: terms, term' :: terms' =>
            b ← term_equals term term'; if (b : bool) then loop terms terms' else Some false
        | _, _ => Some true end) terms terms' = Some r /\ (r = true <-> Forall2 same_term terms terms')) as (r & -> & Hr).
    { revert terms' Hok' El. induction IH as [|t terms Ht _ IHt]; intros [|t' terms'] Hok' El; try done;
        [by exists true|].
      apply Forall_cons in Hok as [? ?], Hok' as [? ?]. setoid_rewrite Forall2_cons.
      destruct (Ht t') as (r1 & -> & Hr1); [done..|]. run_option. destruct r1; cbn.
      - destruct (IHt ltac:(done) terms') as (r & -> & Hr); [done|simpl in El; lia|]. exists r. split; [done|].
        rewrite Hr. tauto.
      - exists false. split; [done|]. naive_solver. }
    exists r. split; [done|]. rewrite Hr. naive_solver.
Qed.

Lemma same_bits_count cs cs' :
  wf cs -> wf cs' -> BitVector.size cs = BitVector.size cs' -> (forall c, mem cs c = mem cs' c) -> bitCount cs = bitCount cs'.
Proof.
  intros Hwf Hwf' Hs Hm. rewrite !bitCount_members by done. unfold members. rewrite Hs.
  by rewrite (BitVector.filter_ext_in (mem cs) (mem cs')).
Qed.

Lemma same_term_hash t t' : term_ok t -> term_ok t' -> same_term t t' -> term_hash t = term_hash t'.
Proof.
  revert t'. induction t as [q|q|q i cs|q terms IH] using Term_nested_ind; intros t' Hok Hok' Hs; try done.
  - destruct t' as [q'|q'|q' i' cs'|q' terms']; try done. destruct Hs as (-> & -> & Hm).
    cbn. unfold characterSet_hash. destruct Hok, Hok'. by rewrite (hash_mem cs cs').
  - destruct t' as [q'|q'|q' i' cs'|q' terms']; try done. apply same_term_group in Hs as [-> Hs].
    apply term_ok_group in Hok as [_ Hok], Hok' as [_ Hok']. cbn [term_hash]. f_equal. generalize 6421749.
    revert Hok Hok'. induction Hs as [|t t' terms terms' Ht Hs IHs]; intros Hok Hok' h; [done|].
    apply Forall_cons in IH as [IHt IH], Hok as [? ?], Hok' as [? ?]. cbn [foldl].
    rewrite (IHt t') by done. by apply IHs.
Qed.

Lemma quantified_ext q (L L' : list N -> Prop) w : (forall w, L w <-> L' w) -> quantified q L w <-> quantified q L' w.
Proof.
  intros HL. destruct q; cbn; [apply HL|by rewrite HL|by apply star_ext|].
  apply concatenation_ext; [done|]. intros. by apply star_ext.
Qed.

Lemma same_term_language t t' w : term_ok t -> term_ok t' -> same_term t t' -> language t w <-> language t' w.
Proof.
  revert t' w. induction t as [q|q|q i cs|q terms IH] using Term_nested_ind; intros t' w Hok Hok' Hs; try done.
  - destruct t' as [q'|q'|q' i' cs'|q' terms']; try done. destruct Hs as (-> & -> & Hm), Hok as [Hwf Hsz], Hok' as [Hwf' Hsz'].
    apply quantified_ext. intros w'. unfold set_matches.
    rewrite (same_bits_count cs cs') by (done || congruence).
    split; intros (c & -> & Hc); exists c; (split; [done|]); revert Hc; by rewrite Hm.
  - destruct t' as [q'|q'|q' i' cs'|q' terms']; try done. apply same_term_group in Hs as [-> Hs].
    apply term_ok_group in Hok as [_ Hok], Hok' as [_ Hok']. apply quantified_ext.
    revert Hok Hok'. induction Hs as [|t t' terms terms' Ht Hs IHs]; intros Hok Hok' w'; [done|].
    apply Forall_cons in IH as [IHt IH], Hok as [? ?], Hok' as [? ?]. cbn [foldr].
    apply concatenation_ext; [intros; by apply IHt|intros; by apply IHs].
Qed.

(** C35: [Term::operator==] on the terms of the parser never fails, holds exactly of the
    terms that are made of the same sets of characters in the same way, however these
    sets are stored, and equal terms have the same hash and the same language. *)
Theorem term_equals_spec (t t' : Term) :
  term_ok t -> term_ok t' ->
  exists r, term_equals t t' = Some r /\ (r = true <-> same_term t t') /\
    (r = true -> term_hash t = term_hash t' /\ forall w, language t w <-> language t' w).
Proof.
  intros Hok Hok'. destruct (term_equals_same t t' Hok Hok') as (r & Hr & Hspec).
  exists r. split; [done|]. split; [done|]. intros Hs%Hspec.
  split; [by apply same_term_hash|]. intros w. by apply same_term_language.
Qed.

(** ** Construction *)

(** The characters that a character stands for. *)
Definition stands_for (isCaseSensitive : bool) (character c : N) : bool :=
  (c =? character) || (negb isCaseSensitive && (toASCIILower c =? toASCIILower character)).

Lemma case_pair character c : character < 128 -> isASCIIAlpha character = true ->
  (toASCIIUpper character =? c) || (toASCIILower character =? c) = stands_for false character c.
Proof.
  intros Hch Halpha. destruct (N.lt_ge_cases c 128) as [Hc|Hc].
  - assert (negb (isASCIIAlpha character) ||
      forallb (fun c => eqb ((toASCIIUpper character =? c) || (toASCIILower character =? c)) (stands_for false character c))
        (for_range 0 128) = true) as Hb.
    { clear Halpha. revert character Hch. apply (for_all_chars 128 (fun character => negb (isASCIIAlpha character) ||
        forallb (fun c => eqb ((toASCIIUpper character =? c) || (toASCIILower character =? c)) (stands_for false character c))
          (for_range 0 128))). by vm_compute. }
    rewrite Halpha in Hb. apply eqb_prop. revert c Hc. by apply for_all_chars.
  - unfold stands_for. pose proof (isASCIIAlpha_spec _ Halpha Hch) as Hr.
    rewrite (toASCIILower_other c) by lia. cbn [negb andb].
    assert (toASCIILower character < 128) by by apply toASCIILower_ascii.
    assert (toASCIIUpper character < 128).
    { destruct Hr; [rewrite toASCIIUpper_other by lia|rewrite toASCIIUpper_lower by lia]; lia. }
    destruct (_ || _) eqn:E; [apply orb_true_iff in E as [E|E]; breflect; lia|].
    symmetry. apply orb_false_iff. rewrite !N.eqb_neq. lia.
Qed.

Lemma not_alpha_pair character c : character < 128 -> isASCIIAlpha character = false ->
  stands_for false character c = (c =? character).
Proof.
  intros Hch Halpha. unfold stands_for. cbn [negb andb].
  assert (forall d, d < 128 -> isASCIIAlpha d = false -> forall c, toASCIILower c = toASCIILower d -> c = d) as Hd.
  { clear. intros d Hd Ha c. assert (negb (isASCIIAlpha d) = true -> ~ (65 <= d <= 90) /\ ~ (97 <= d <= 122)) as Hn.
    { intros _. assert (isASCIIAlpha d || (negb ((65 <=? d) && (d <=? 90)) && negb ((97 <=? d) && (d <=? 122))) = true) as Hb.
      { clear Ha. revert d Hd. apply (for_all_chars 128 (fun d => isASCIIAlpha d ||
          (negb ((65 <=? d) && (d <=? 90)) && negb ((97 <=? d) && (d <=? 122))))). by vm_compute. }
      rewrite Ha in Hb. cbn [orb] in Hb. breflect.
      repeat match goal with H : _ && _ = false |- _ => apply andb_false_iff in H; rewrite !N.leb_gt in H end. lia. }
    rewrite Ha in Hn. destruct (Hn eq_refl). rewrite (toASCIILower_other d) by done.
    destruct (decide (65 <= c <= 90)); [rewrite toASCIILower_upper by done; lia|by rewrite toASCIILower_other]. }
  destruct (toASCIILower c =? toASCIILower character) eqn:E; breflect; [|by rewrite orb_false_r].
  rewrite (Hd character Hch Halpha c E). by rewrite N.eqb_refl.
Qed.

Lemma addCharacter_set q inverted cs character isCaseSensitive :
  wf cs -> BitVector.size cs = 128 -> character < 128 ->
  exists cs', addCharacter (TCharacterSet q inverted cs) character isCaseSensitive = Some (TCharacterSet q inverted cs') /\
    wf cs' /\ BitVector.size cs' = 128 /\
    forall c, mem cs' c = mem cs c || stands_for isCaseSensitive character c.
Proof.
  intros Hwf Hsize Hch. cbn [addCharacter].
  assert (forall v i, wf v -> BitVector.size v = 128 -> i < 128 ->
    exists v', set_bit v i = Some (mem v i, v') /\ wf v' /\ BitVector.size v' = 128 /\
      forall j, mem v' j = mem v j || (i =? j)) as Hset.
  { intros v i Hv Hvs Hi. destruct (set_bit_mem v i Hv) as (v' & ? & ? & _ & Hs & ?); [change (2 ^ 64) with 18446744073709551616; lia|].
    exists v'. rewrite <- Hvs. split_and!; [done|done|apply Hs; lia|done]. }
  destruct (isCaseSensitive || negb (isASCIIAlpha character)) eqn:E.
  - destruct (Hset cs character Hwf Hsize Hch) as (v' & -> & ? & ? & Hm). run_option. exists v'.
    split_and!; [done..|]. intros c. rewrite Hm, N.eqb_sym. f_equal. destruct isCaseSensitive.
    + unfold stands_for. by rewrite orb_false_r.
    + cbn [orb] in E. apply negb_true_iff in E. by rewrite not_alpha_pair.
  - apply orb_false_iff in E as [-> Ha%negb_false_iff].
    assert (toASCIILower character < 128) by by apply toASCIILower_ascii.
    assert (toASCIIUpper character < 128).
    { destruct (isASCIIAlpha_spec _ Ha Hch); [rewrite toASCIIUpper_other by lia|rewrite toASCIIUpper_lower by lia]; lia. }
    destruct (Hset cs (toASCIIUpper character) Hwf Hsize) as (v1 & -> & ? & ? & Hm1); [done|]. run_option. cbn [snd].
    destruct (Hset v1 (toASCIILower character)) as (v2 & -> & ? & ? & Hm2); [done..|]. run_option. exists v2.
    split_and!; [done..|]. intros c. rewrite Hm2, Hm1, <- orb_assoc. f_equal. by apply case_pair.
Qed.

Lemma newBitVector_128 : wf (newBitVector 128) /\ BitVector.size (newBitVector 128) = 128 /\
  forall c, mem (newBitVector 128) c = false.
Proof. destruct (newBitVector_spec 128) as (? & _ & ?). by split_and!. Qed.

Lemma Term_character_language character isCaseSensitive : character < 128 ->
  exists t, Term_character character isCaseSensitive = Some t /\ term_ok t /\
    forall w, language t w <-> exists c, w = [c] /\ stands_for isCaseSensitive character c = true.
Proof.
  intros Hch. destruct newBitVector_128 as (Hwf & Hsize & Hmem).
  destruct (addCharacter_set One false (newBitVector 128) character isCaseSensitive Hwf Hsize Hch)
    as (cs & E & Hcs & Hcsize & Hcmem).
  assert (bitCount cs <> 128) as Hcount.
  { assert (match Term_character character isCaseSensitive with
            | Some (TCharacterSet _ _ cs) => negb (bitCount cs =? 128) | _ => true end = true) as Hb.
    { clear E Hcmem. revert character Hch. destruct isCaseSensitive; [apply (for_all_chars 128 (fun character =>
        match Term_character character true with
        | Some (TCharacterSet _ _ cs) => negb (bitCount cs =? 128) | _ => true end))|
        apply (for_all_chars 128 (fun character =>
        match Term_character character false with
        | Some (TCharacterSet _ _ cs) => negb (bitCount cs =? 128) | _ => true end))]; by vm_compute. }
    unfold Term_character in Hb. rewrite E in Hb. by apply negb_true_iff, N.eqb_neq in Hb. }
  exists (TCharacterSet One false cs). split; [done|]. split; [done|]. intros w. cbn [language quantified].
  assert (forall c, stands_for isCaseSensitive character c = true -> c < 128) as Hlt.
  { intros c Hc. destruct (N.lt_ge_cases c 128); [done|]. pose proof (Hcmem c) as Hm.
    rewrite Hc, orb_true_r, mem_ge_size in Hm by lia. done. }
  unfold set_matches. cbn [negb andb orb]. apply N.eqb_neq in Hcount. rewrite Hcount.
  split; intros (c & -> & Hc); exists c; (split; [done|]).
  + destruct Hc as [_ Hc]. by rewrite Hcmem, Hmem in Hc.
  + split; [by apply Hlt|]. by rewrite Hcmem, Hmem.
Qed.

Lemma Term_universal_language :
  exists t, Term_universal = Some t /\ term_ok t /\ forall w, language t w <-> exists c, w = [c] /\ input_char c.
Proof.
  destruct Term_universal as [t|] eqn:E; [|by vm_compute in E]. vm_compute in E. injection E as <-.
  eexists. split; [done|]. split; [by repeat constructor|]. intros w. cbn [language quantified].
  split; intros (c & -> & Hc); exists c; (split; [done|]); revert Hc; unfold set_matches, input_char; cbn [negb andb orb];
    (replace (bitCount _ =? 128) with true by by vm_compute); tauto.
Qed.

Lemma Term_endOfLine_language :
  exists t, Term_endOfLine = Some t /\ term_ok t /\ forall w, language t w <-> w = [0].
Proof.
  destruct Term_endOfLine as [t|] eqn:E; [|by vm_compute in E]. vm_compute in E. injection E as <-.
  eexists. split; [done|]. split; [by repeat constructor|]. intros w. cbn [language quantified]. split.
  + intros (c & -> & Hc & Hm). revert Hm. cbn [negb andb orb]. replace (bitCount _ =? 128) with false by by vm_compute.
    intros Hm. f_equal. apply N.eqb_eq. revert Hm.
    assert (negb (mem (OutOfLine [1; 0]) c) || (c =? 0) = true) as Hb.
    { revert c Hc. apply (for_all_chars 128 (fun c => negb (mem (OutOfLine [1; 0]) c) || (c =? 0))). by vm_compute. }
    intros Hm. rewrite Hm in Hb. done.
  + intros ->. exists 0. split; [done|]. split; [done|]. by vm_compute.
Qed.

(** The terms of a character, of any character, and of the end of the line are well formed, and
    their languages are the character (or the letter in both cases), every character but
    the end of the input, and the end of the input. *)
Theorem Term_constructors_spec :
  (forall character isCaseSensitive, character < 128 ->
     exists t, Term_character character isCaseSensitive = Some t /\ term_ok t /\
       forall w, language t w <-> exists c, w = [c] /\ stands_for isCaseSensitive character c = true) /\
  (exists t, Term_universal = Some t /\ term_ok t /\ forall w, language t w <-> exists c, w = [c] /\ input_char c) /\
  (exists t, Term_endOfLine = Some t /\ term_ok t /\ forall w, language t w <-> w = [0]).
Proof.
  split; [|split]; [|apply Term_universal_language|apply Term_endOfLine_language].
  intros character isCaseSensitive. apply Term_character_language.
Qed.

(** ** A checker of the well-formedness, and examples *)

Definition set_okb (cs : BitVector) : bool :=
  match cs with
  | Inline m => false
  | OutOfLine words => (length words =? 2)%nat && forallb (fun w => w <? 2 ^ 64) words
  end.

Fixpoint term_okb (t : Term) : bool :=
  match t with
  | TEmpty _ | TDeleted _ => false
  | TCharacterSet _ _ characters => set_okb characters
  | TGroup _ terms => bool_decide (terms <> []) && forallb term_okb terms
  end.

Lemma term_okb_spec t : term_okb t = true -> term_ok t.
Proof.
  induction t as [q|q|q i cs|q terms IH] using Term_nested_ind; try done; intros Hb.
  - destruct cs as [m|words]; [done|]. cbn in Hb. breflect. split; [split; [by destruct words|by apply forallb_ltb]|].
    unfold BitVector.size, numWords. by replace (length words) with 2%nat.
  - apply term_ok_group. cbn [term_okb] in Hb. apply andb_true_iff in Hb as [Hne Hb]. split; [by eapply bool_decide_eq_true|].
    rewrite forallb_forall in Hb. rewrite Forall_forall in IH |- *. intros t Ht. apply (IH t Ht), Hb.
    by apply list_elem_of_In.
Qed.

Definition example_character (c : N) : Term := default newTerm (Term_character c false).

(** [(ab?)+] *)
Definition example_term : Term := TGroup OneOrMore [example_character 97; quantify (example_character 98) ZeroOrOne].

Lemma generateGraph_correct_witness :
  exists newEnd nfa', generateGraph (H := insertion_order) example_term newNFA 0 [7] = Some (newEnd, nfa') /\ nfa_ok nfa' /\
    forall w, Forall (fun c => c < 128) w ->
      (reach nfa' (m_root nfa') w newEnd <->
         exists w1 w2, w = w1 ++ w2 /\ reach newNFA 0 w1 0 /\ language example_term w2) /\
      forall a, accepts nfa' w a <-> accepts newNFA w a \/
        exists w1 w2, w = w1 ++ w2 /\ reach newNFA 0 w1 0 /\ language example_term w2 /\ a ∈ [7].
Proof.
  apply (generateGraph_correct (H := insertion_order) example_term newNFA 0 [7]).
  - apply term_okb_spec. by vm_compute.
  - apply newNFA_ok.
  - done.
  - by repeat constructor.
Defined.

Lemma isKnownToMatchAnyString_sound_witness :
  language (TGroup OneOrMore [quantify (default newTerm Term_universal) ZeroOrOne]) [65; 32; 126].
Proof. apply isKnownToMatchAnyString_sound; [by vm_compute|by repeat constructor]. Defined.

Lemma term_equals_spec_witness :
  exists r, term_equals example_term example_term = Some r /\ (r = true <-> same_term example_term example_term) /\
    (r = true -> term_hash example_term = term_hash example_term /\
       forall w, language example_term w <-> language example_term w).
Proof. apply (term_equals_spec example_term example_term); apply term_okb_spec; by vm_compute. Defined.

(** The empty group leaves the automaton where it is, and takes the actions of that node away. *)
Example empty_group_clears_actions :
  (nfa ← nfa_setActions (H := insertion_order) newNFA 0 [7];
   r ← generateGraph (H := insertion_order) (TGroup One []) nfa 0 [];
   node ← m_nodes r.2 !!N 0;
   Some (r.1, finalRuleIds node)) = Some (0, []).
Proof. reflexivity. Qed.
