(* ===== verification/CombinedURLFilters.v ===== *)
(** * [WebCore/contentextensions/CombinedURLFilters.cpp]

    The patterns of an extension, in a tree of their common prefixes, and the
    automata made from the tree.  A pointer to a vertex is the path that leads to
    it, and a loop with its own stack takes its fuel as an argument. *)

From S2P Require Import Prelude HashTable NFA Term.

(** ** The prefix tree *)

#[local] Set Warnings "-register-all".

(** WebCore/contentextensions/CombinedURLFilters.cpp:38-44 [PrefixTreeVertex] and [PrefixTreeEdges] *)
Inductive PrefixTreeVertex := Vertex {
  edges : list (Term * PrefixTreeVertex);
  finalActions : list N;
  inVariableLengthPrefix : bool
}.

Definition newVertex : PrefixTreeVertex := Vertex [] [] false.

(** A pointer to a vertex: the positions of the edges that lead to it from the root. *)
Definition pointer := list nat.

Fixpoint vertex_at (v : PrefixTreeVertex) (p : pointer) {struct p} : option PrefixTreeVertex :=
  match p with
  | [] => Some v
  | i :: p => e ← edges v !! i; vertex_at e.2 p
  end.

(** The tree with the vertex at [p] changed. *)
Fixpoint update_at (v : PrefixTreeVertex) (p : pointer) (f : PrefixTreeVertex -> PrefixTreeVertex) {struct p} : PrefixTreeVertex :=
  match p with
  | [] => f v
  | i :: p => Vertex (alter (fun e => (e.1, update_at e.2 p f)) i (edges v)) (finalActions v) (inVariableLengthPrefix v)
  end.

(** [edges.find(term)]: the position of the entry whose key equals [term]. *)
Fixpoint find_edge (term : Term) (entries : list (Term * PrefixTreeVertex)) : option (option nat) :=
  match entries with
  | [] => Some None
  | (key, _) :: entries =>
      same ← term_equals key term;
      if (same : bool) then Some (Some 0%nat)
      else r ← find_edge term entries; Some (option_map S r)
  end.

(** [edges.set(term, vertex)], of a new term *)
Definition add_edge (term : Term) (child v : PrefixTreeVertex) : PrefixTreeVertex :=
  Vertex (edges v ++ [(term, child)]) (finalActions v) (inVariableLengthPrefix v).

(** [finalActions.add(actionId)] *)
Definition add_action (actionId : N) (v : PrefixTreeVertex) : PrefixTreeVertex :=
  Vertex (edges v) (hset_add actionId (finalActions v)) (inVariableLengthPrefix v).

(** [inVariableLengthPrefix |= b] *)
Definition mark (b : bool) (v : PrefixTreeVertex) : PrefixTreeVertex :=
  Vertex (edges v) (finalActions v) (inVariableLengthPrefix v || b).

(** ** Adding a pattern *)

(** WebCore/contentextensions/CombinedURLFilters.cpp:61-64 [CombinedURLFilters::CombinedURLFilters] *)
Definition newCombinedURLFilters : PrefixTreeVertex := newVertex.

(** WebCore/contentextensions/CombinedURLFilters.cpp:70-73 [CombinedURLFilters::clear] *)
Definition clear (m_prefixTreeRoot : PrefixTreeVertex) : PrefixTreeVertex := newVertex.

(** The variables of the loop that extends the tree. *)
Record Extension := mkExtension {
  tree : PrefixTreeVertex;
  hasNewTerm : bool;
  lastPrefixTree : pointer;
  prefixTreeVerticesForPattern : list pointer
}.

(** WebCore/contentextensions/CombinedURLFilters.cpp:90-105 [CombinedURLFilters::addPattern], one turn of the loop *)
Definition extend_step (s : Extension) (term : Term) : option Extension :=
  v ← vertex_at (tree s) (lastPrefixTree s);
  nextEntry ← find_edge term (edges v);
  let '(tree', hasNewTerm', lastPrefixTree') :=
    match nextEntry with
    | Some i => (tree s, hasNewTerm s, lastPrefixTree s ++ [i])
    | None => (update_at (tree s) (lastPrefixTree s) (add_edge term newVertex), true,
               lastPrefixTree s ++ [length (edges v)])
    end in
  Some (mkExtension tree' hasNewTerm' lastPrefixTree' (prefixTreeVerticesForPattern s ++ [lastPrefixTree'])).

(** WebCore/contentextensions/CombinedURLFilters.cpp:113-117 [CombinedURLFilters::addPattern], one
    turn of the loop from the last term to the first *)
Definition mark_step (p : Term * pointer) (s : PrefixTreeVertex * bool) : PrefixTreeVertex * bool :=
  let hasSeenVariableLengthTerms := s.2 || negb (hasFixedLength p.1) in
  (update_at s.1 p.2 (mark hasSeenVariableLengthTerms), hasSeenVariableLengthTerms).

(** WebCore/contentextensions/CombinedURLFilters.cpp:75-119 [CombinedURLFilters::addPattern] *)
Definition addPattern (m_prefixTreeRoot : PrefixTreeVertex) (actionId : N) (pattern : list Term) : option PrefixTreeVertex :=
  if bool_decide (pattern = []) then Some m_prefixTreeRoot
  else
    s ← foldM extend_step (mkExtension m_prefixTreeRoot false [] [[]]) pattern;
    last ← last (prefixTreeVerticesForPattern s);
    let t := update_at (tree s) last (add_action actionId) in
    if negb (hasNewTerm s) then Some t
    else
      let '(t, hasSeenVariableLengthTerms) :=
        foldr mark_step (t, false) (zip pattern (tail (prefixTreeVerticesForPattern s))) in
      first ← head (prefixTreeVerticesForPattern s);
      Some (update_at t first (mark hasSeenVariableLengthTerms)).

(** ** Making the automata *)

(** What a turn of a loop leads to. *)
Inductive outcome (S R : Type) := Continue (s : S) | Finished (r : R).
Arguments Continue {S R} s.
Arguments Finished {S R} r.

Section Generation.
Context `{HashOrder}.

(** WebCore/contentextensions/CombinedURLFilters.cpp:121-124 [ActiveSubtree]: the iterator is the
    rest of the iteration *)
Record ActiveSubtree := mkActiveSubtree {
  as_vertex : PrefixTreeVertex;
  as_iterator : list (Term * PrefixTreeVertex)
}.

(** [vertex.edges.begin()] *)
Definition edges_begin (v : PrefixTreeVertex) : list (Term * PrefixTreeVertex) := hash_order (edges v).

(** WebCore/contentextensions/CombinedURLFilters.cpp:130-137 [ActiveNFASubtree] *)
Record ActiveNFASubtree := mkActiveNFASubtree {
  vertex : PrefixTreeVertex;
  iterator : list (Term * PrefixTreeVertex);
  lastNodeIndex : N
}.

(** The stacks have their last element first. *)
Definition nfa_state := (list ActiveNFASubtree * NFA)%type.

(** WebCore/contentextensions/CombinedURLFilters.cpp:144-161 [generateNFAForSubtree], to the next test
    of the condition of the [for] *)
Definition subtree_step (s : nfa_state) : option (outcome nfa_state NFA) :=
  let '(activeStack, nfa) := s in
  match activeStack with
  | [] => None
  | activeSubtree :: rest =>
      match iterator activeSubtree with
      | (term, child) :: next =>
          if inVariableLengthPrefix child then
            Some (Continue (mkActiveNFASubtree (vertex activeSubtree) next (lastNodeIndex activeSubtree) :: rest, nfa))
          else
            r ← generateGraph term nfa (lastNodeIndex activeSubtree) (finalActions child);
            let '(newEndNodeIndex, nfa) := r in
            if negb (bool_decide (edges child = [])) then
              Some (Continue (mkActiveNFASubtree child (edges_begin child) newEndNodeIndex :: activeSubtree :: rest, nfa))
            else
              Some (Continue (mkActiveNFASubtree (vertex activeSubtree) next (lastNodeIndex activeSubtree) :: rest, nfa))
      | [] =>
          match rest with
          | [] => Some (Finished nfa)
          | last :: rest =>
              Some (Continue (mkActiveNFASubtree (vertex last) (tail (iterator last)) (lastNodeIndex last) :: rest, nfa))
          end
      end
  end.

Fixpoint subtree_loop (fuel : nat) (s : nfa_state) : option (outcome nfa_state NFA) :=
  match fuel with
  | O => Some (Continue s)
  | S fuel =>
      r ← subtree_step s;
      match r with Continue s => subtree_loop fuel s | Finished nfa => Some (Finished nfa) end
  end.

(** WebCore/contentextensions/CombinedURLFilters.cpp:126-163 [generateNFAForSubtree] *)
Definition generateNFAForSubtree (fuel : nat) (nfa : NFA) (rootId : N) (v : PrefixTreeVertex) : option (outcome nfa_state NFA) :=
  subtree_loop fuel ([mkActiveNFASubtree v (edges_begin v) rootId], nfa).

Definition forest_state := (list ActiveSubtree * list NFA)%type.

(** WebCore/contentextensions/CombinedURLFilters.cpp:177-183 [CombinedURLFilters::createNFAs], the
    [for] that looks for the next subtree with a variable prefix *)
Fixpoint next_variable (it : list (Term * PrefixTreeVertex)) : list (Term * PrefixTreeVertex) :=
  match it with
  | [] => []
  | (term, child) :: it' => if inVariableLengthPrefix child then it else next_variable it'
  end.

(** WebCore/contentextensions/CombinedURLFilters.cpp:187-195 [CombinedURLFilters::createNFAs] *)
Definition needToGenerate (v : PrefixTreeVertex) : bool :=
  (bool_decide (edges v = []) && negb (bool_decide (finalActions v = [])))
  || existsb (fun edge => negb (inVariableLengthPrefix edge.2)) (edges_begin v).

(** WebCore/contentextensions/CombinedURLFilters.cpp:197-215 [CombinedURLFilters::createNFAs], the
    automaton of one vertex: the prefix that leads to it, and its subtrees with a fixed prefix.  The
    [None] of the result is a loop that needs more fuel. *)
Definition generateNFA (fuel : nat) (prefix : list ActiveSubtree) (v : PrefixTreeVertex) : option (option NFA) :=
  let generatingNFA := newNFA in
  r ← foldM (fun s subtree =>
               entry ← head (as_iterator subtree);
               generateGraph entry.1 s.2 s.1 (finalActions entry.2)) (m_root generatingNFA, generatingNFA) prefix;
  let '(prefixEnd, generatingNFA) := r in
  foldM (fun s (edge : Term * PrefixTreeVertex) =>
           match s with
           | None => Some None
           | Some generatingNFA =>
               if inVariableLengthPrefix edge.2 then Some (Some generatingNFA)
               else
                 r ← generateGraph edge.1 generatingNFA prefixEnd (finalActions edge.2);
                 let '(newSubtreeStart, generatingNFA) := r in
                 r ← generateNFAForSubtree fuel generatingNFA newSubtreeStart edge.2;
                 match r with Finished nfa => Some (Some nfa) | Continue _ => Some None end
           end) (Some generatingNFA) (edges_begin v).

(** WebCore/contentextensions/CombinedURLFilters.cpp:173-221 [CombinedURLFilters::createNFAs], one
    pass from [ProcessSubtree] *)
Definition forest_step (fuel : nat) (s : forest_state) : option (outcome forest_state (option (list NFA))) :=
  let '(activeStack, nfas) := s in
  match activeStack with
  | [] => None
  | activeSubtree :: rest =>
      match next_variable (as_iterator activeSubtree) with
      | (term, child) :: next =>
          Some (Continue (mkActiveSubtree child (edges_begin child)
                          :: mkActiveSubtree (as_vertex activeSubtree) ((term, child) :: next) :: rest, nfas))
      | [] =>
          r ← (if needToGenerate (as_vertex activeSubtree) then
                 r ← generateNFA fuel (rev rest) (as_vertex activeSubtree);
                 Some (match r with Some nfa => Some (nfas ++ [nfa]) | None => None end)
               else Some (Some nfas));
          match r with
          | None => Some (Finished None)
          | Some nfas =>
              match rest with
              | [] => Some (Finished (Some nfas))
              | last :: rest =>
                  Some (Continue (mkActiveSubtree (as_vertex last) (tail (as_iterator last)) :: rest, nfas))
              end
          end
      end
  end.

Fixpoint forest_loop (turns fuel : nat) (s : forest_state) : option (outcome forest_state (option (list NFA))) :=
  match turns with
  | O => Some (Continue s)
  | S turns =>
      r ← forest_step fuel s;
      match r with Continue s => forest_loop turns fuel s | Finished r => Some (Finished r) end
  end.

(** WebCore/contentextensions/CombinedURLFilters.cpp:165-225 [CombinedURLFilters::createNFAs]; the
    same fuel bounds its loop and those of the subtrees *)
Definition createNFAs (fuel : nat) (m_prefixTreeRoot : PrefixTreeVertex) : option (outcome forest_state (option (list NFA))) :=
  forest_loop fuel fuel ([mkActiveSubtree m_prefixTreeRoot (edges_begin m_prefixTreeRoot)], []).
End Generation.
