(* ===== verification/PrefixTree.v ===== *)
(** * The patterns of the prefix tree

    [CombinedURLFilters::addPattern] adds a pattern with its action to what the tree
    holds and nothing else, and keeps the invariant that the making of the automata
    relies on: a vertex is in a variable length prefix when one of its subtrees is. *)

From S2P Require Import BitVector.
From S2P Require Import Prelude HashTable NFA Graph Term TermGraph CombinedURLFilters.

(** ** The content of the tree *)

Lemma Vertex_nested_ind (P : PrefixTreeVertex -> Prop) :
  (forall es acts m, Forall (fun e => P e.2) es -> P (Vertex es acts m)) -> forall v, P v.
Proof.
  intros Hv. fix IH 1. intros [es acts m]. apply Hv. induction es as [|[t c] es IHes]; constructor; [apply IH|apply IHes].
Qed.

(** The tree holds a pattern, up to the equality of terms, with an action. *)
Inductive contains : PrefixTreeVertex -> list Term -> N -> Prop :=
| contains_here v a : a ∈ finalActions v -> contains v [] a
| contains_edge v i t c t' p a :
    edges v !! i = Some (t, c) -> same_term t t' -> contains c p a -> contains v (t' :: p) a.

#[local] Set Warnings "-register-all".

(** The invariant of the tree. *)
Inductive vertex_ok : PrefixTreeVertex -> Prop :=
| vertex_ok_intro es acts m :
    (forall i t c, es !! i = Some (t, c) ->
       term_ok t /\ vertex_ok c /\ (inVariableLengthPrefix c = true -> m = true) /\
       (edges c = [] -> finalActions c <> [])) ->
    Forall (fun a => a < 2 ^ 48) acts ->
    vertex_ok (Vertex es acts m).

Lemma vertex_ok_edge v i t c : vertex_ok v -> edges v !! i = Some (t, c) ->
  term_ok t /\ vertex_ok c /\ (inVariableLengthPrefix c = true -> inVariableLengthPrefix v = true) /\
  (edges c = [] -> finalActions c <> []).
Proof. intros Hok. inv Hok. eauto. Qed.

Lemma vertex_ok_actions v : vertex_ok v -> Forall (fun a => a < 2 ^ 48) (finalActions v).
Proof. intros Hok. by inv Hok. Qed.

Lemma newVertex_ok : vertex_ok newVertex.
Proof. by constructor. Qed.

Lemma contains_nil v a : contains v [] a <-> a ∈ finalActions v.
Proof. split; [intros Hc; by inv Hc|by constructor]. Qed.

Lemma contains_cons v t' p a :
  contains v (t' :: p) a <-> exists i t c, edges v !! i = Some (t, c) /\ same_term t t' /\ contains c p a.
Proof. split; [intros Hc; inv Hc; eauto 6|]. intros (i & t & c & ? & ? & ?). by econstructor. Qed.

Lemma newVertex_contains p a : ~ contains newVertex p a.
Proof.
  destruct p as [|t p]; [rewrite contains_nil; apply not_elem_of_nil|]. rewrite contains_cons. by intros (? & ? & ? & ? & _).
Qed.

(** ** The equality of terms *)

Lemma same_term_refl t : same_term t t.
Proof.
  induction t as [q|q|q i cs|q terms IH] using Term_nested_ind; try done. apply same_term_group. split; [done|].
  by apply Forall_Forall2_diag.
Qed.

Lemma same_term_sym t t' : same_term t t' -> same_term t' t.
Proof.
  revert t'. induction t as [q|q|q i cs|q terms IH] using Term_nested_ind; intros [q'|q'|q' i' cs'|q' terms']; try done.
  - intros (-> & -> & Hm). split_and!; done.
  - rewrite !same_term_group. intros [-> Hs]. split; [done|]. revert IH.
    induction Hs; intros IH; [constructor|]. apply Forall_cons in IH as [? ?]. constructor; auto.
Qed.

Lemma same_term_trans t1 t2 t3 : same_term t1 t2 -> same_term t2 t3 -> same_term t1 t3.
Proof.
  revert t2 t3. induction t1 as [q|q|q i cs|q terms IH] using Term_nested_ind;
    intros [q2|q2|q2 i2 cs2|q2 terms2] [q3|q3|q3 i3 cs3|q3 terms3]; try done.
  - by intros <- <-.
  - by intros <- <-.
  - intros (-> & -> & Hm) (-> & -> & Hm'). split_and!; [done..|]. intros c. by rewrite Hm.
  - rewrite !same_term_group. intros [-> Hs] [-> Hs']. split; [done|]. revert IH terms3 Hs'.
    induction Hs; intros IH terms3 Hs'; [done|]. apply Forall_cons in IH as [? ?].
    inv Hs'. constructor; eauto.
Qed.

(** ** Adding a pattern, by recursion *)

(** The vertex with the vertices of a pattern, whether one is new, and the path that follows the pattern. *)
Fixpoint extend_rec (v : PrefixTreeVertex) (pattern : list Term) {struct pattern} : option (PrefixTreeVertex * bool * pointer) :=
  match pattern with
  | [] => Some (v, false, [])
  | term :: pattern =>
      nextEntry ← find_edge term (edges v);
      match nextEntry with
      | Some i =>
          e ← edges v !! i;
          r ← extend_rec e.2 pattern;
          Some (Vertex (<[i := (e.1, r.1.1)]> (edges v)) (finalActions v) (inVariableLengthPrefix v), r.1.2, i :: r.2)
      | None =>
          r ← extend_rec newVertex pattern;
          Some (Vertex (edges v ++ [(term, r.1.1)]) (finalActions v) (inVariableLengthPrefix v), true,
                length (edges v) :: r.2)
      end
  end.

(** The pointers to the vertices of a path, the first one left out. *)
Fixpoint prefixes (p : pointer) : list pointer :=
  match p with [] => [] | i :: p => [i] :: (cons i <$> prefixes p) end.

Fixpoint mark_rec (v : PrefixTreeVertex) (p : pointer) (pattern : list Term) {struct p} : PrefixTreeVertex * bool :=
  match p, pattern with
  | i :: p, term :: pattern =>
      match edges v !! i with
      | Some e =>
          let r := mark_rec e.2 p pattern in
          let has := r.2 || negb (hasFixedLength term) in
          (Vertex (<[i := (e.1, mark has r.1)]> (edges v)) (finalActions v) (inVariableLengthPrefix v), has)
      | None => (v, false)
      end
  | _, _ => (v, false)
  end.

Lemma update_at_app v p q f : update_at v (p ++ q) f = update_at v p (fun v => update_at v q f).
Proof.
  revert v. induction p as [|i p IH]; intros v; [reflexivity|]. cbn [app update_at]. f_equal.
  apply list_alter_ext; [|done]. intros e _. by rewrite IH.
Qed.

Lemma update_at_step v i p f e : edges v !! i = Some e ->
  update_at v (i :: p) f = Vertex (<[i := (e.1, update_at e.2 p f)]> (edges v)) (finalActions v) (inVariableLengthPrefix v).
Proof.
  intros He. cbn [update_at]. f_equal. apply list_eq. intros j. destruct (decide (i = j)) as [->|Hne].
  - rewrite list_lookup_alter_eq, He, list_lookup_insert_eq; [done|]. by eapply lookup_lt_Some.
  - by rewrite list_lookup_alter_ne, list_lookup_insert_ne.
Qed.

Lemma update_at_ext v p f g w : vertex_at v p = Some w -> f w = g w -> update_at v p f = update_at v p g.
Proof.
  revert v. induction p as [|i p IH]; intros v Hv Hfg; [cbn in *; by simplify_eq|].
  cbn [vertex_at] in Hv. destruct (edges v !! i) as [e|] eqn:He; [|done].
  rewrite !(update_at_step _ _ _ _ e) by done. by rewrite (IH e.2).
Qed.

Lemma vertex_at_app v p q : vertex_at v (p ++ q) = (w ← vertex_at v p; vertex_at w q).
Proof.
  revert v. induction p as [|i p IH]; intros v; [done|]. cbn [app vertex_at].
  destruct (edges v !! i); [|done]. apply IH.
Qed.

Lemma vertex_at_update v p f w : vertex_at v p = Some w -> vertex_at (update_at v p f) p = Some (f w).
Proof.
  revert v. induction p as [|i p IH]; intros v Hv; [cbn in *; by simplify_eq|].
  cbn [vertex_at] in Hv. destruct (edges v !! i) as [e|] eqn:He; [|done].
  rewrite (update_at_step _ _ _ _ e) by done. cbn [vertex_at edges].
  rewrite list_lookup_insert_eq; [by apply IH|]. by eapply lookup_lt_Some.
Qed.

Lemma update_at_twice v p f g : update_at (update_at v p f) p g = update_at v p (fun w => g (f w)).
Proof.
  revert v. induction p as [|i p IH]; intros v; [done|]. cbn [update_at edges finalActions inVariableLengthPrefix]. f_equal.
  rewrite list_alter_alter_eq. apply list_alter_ext; [|done]. intros e _. cbn. by rewrite IH.
Qed.

Lemma update_at_id v p : update_at v p id = v.
Proof.
  revert v. induction p as [|i p IH]; intros [es acts m]; [done|]. cbn. f_equal. apply list_alter_id.
  intros [key c]. cbn. by rewrite IH.
Qed.

Lemma find_edge_lt term es i : find_edge term es = Some (Some i) -> (i < length es)%nat.
Proof.
  revert i. induction es as [|[key c] es IH]; intros i; cbn; [done|].
  destruct (term_equals key term) as [[]|]; cbn; [intros [= <-]; lia| |done].
  destruct (find_edge term es) as [[j|]|]; cbn; [|done..]. intros [= <-]. specialize (IH j eq_refl). lia.
Qed.

(** The loop of [addPattern] goes through the vertices as the recursion does. *)
Lemma extend_loop pattern : forall t new p ps v, vertex_at t p = Some v ->
  foldM extend_step (mkExtension t new p ps) pattern =
    (r ← extend_rec v pattern;
     Some (mkExtension (update_at t p (fun _ => r.1.1)) (new || r.1.2) (p ++ r.2) (ps ++ (app p <$> prefixes r.2)))).
Proof.
  induction pattern as [|term pattern IH]; intros t new p ps v Hv; cbn [foldM extend_rec].
  - run_option. cbn. rewrite orb_false_r, !app_nil_r. f_equal. f_equal.
    rewrite (update_at_ext t p (fun _ => v) id v) by done. by rewrite update_at_id.
  - unfold extend_step at 2. cbn [tree lastPrefixTree hasNewTerm prefixTreeVerticesForPattern]. rewrite Hv. run_option.
    destruct (find_edge term (edges v)) as [[i|]|] eqn:Ef; [| |done]; run_option.
    + pose proof (find_edge_lt _ _ _ Ef) as Hi. apply lookup_lt_is_Some in Hi as [e He]. rewrite He. run_option.
      rewrite (IH _ _ _ _ e.2) by (rewrite vertex_at_app, Hv; cbn; by rewrite He).
      destruct (extend_rec e.2 pattern) as [[[c' n] q]|]; [|done]. run_option. cbn [fst snd prefixes fmap list_fmap].
      f_equal. f_equal.
      * rewrite update_at_app. apply (update_at_ext _ _ _ _ v); [done|]. by rewrite (update_at_step _ _ _ _ e).
      * by rewrite <- app_assoc.
      * rewrite <- app_assoc. cbn [app]. do 2 f_equal. rewrite <- list_fmap_compose. apply list_fmap_ext.
        intros j x _. cbn. by rewrite <- app_assoc.
    + rewrite (IH _ _ _ _ newVertex).
      * destruct (extend_rec newVertex pattern) as [[[c' n] q]|]; [|done]. run_option. cbn [fst snd prefixes fmap list_fmap].
        rewrite orb_true_r. f_equal. f_equal.
        -- rewrite update_at_app, update_at_twice. apply (update_at_ext _ _ _ _ v); [done|].
           rewrite (update_at_step _ _ _ _ (term, newVertex)) by (cbn; apply list_lookup_middle; done).
           cbn [add_edge edges finalActions inVariableLengthPrefix fst snd]. f_equal.
           rewrite insert_app_r_alt, Nat.sub_diag by lia. done.
        -- by rewrite <- app_assoc.
        -- rewrite <- app_assoc. cbn [app]. do 2 f_equal. rewrite <- list_fmap_compose. apply list_fmap_ext.
           intros j x _. cbn. by rewrite <- app_assoc.
      * rewrite vertex_at_app, (vertex_at_update _ _ _ v) by done. run_option. cbn.
        by rewrite list_lookup_middle.
Qed.

(** *** The marks *)

Lemma mark_shift v i e pattern ps : edges v !! i = Some e ->
  foldr mark_step (v, false) (zip pattern (cons i <$> ps)) =
    (Vertex (<[i := (e.1, (foldr mark_step (e.2, false) (zip pattern ps)).1)]> (edges v)) (finalActions v)
       (inVariableLengthPrefix v), (foldr mark_step (e.2, false) (zip pattern ps)).2).
Proof.
  intros He. revert ps. induction pattern as [|t pattern IH]; intros ps.
  - cbn. f_equal. destruct v as [es acts m]. f_equal. cbn in *. destruct e. by rewrite list_insert_id.
  - destruct ps as [|p ps].
    + cbn. f_equal. destruct v as [es acts m]. f_equal. cbn in *. destruct e. by rewrite list_insert_id.
    + cbn [fmap list_fmap zip zip_with foldr]. fold (zip pattern (cons i <$> ps)). fold (zip pattern ps). rewrite IH.
      unfold mark_step. cbn [fst snd]. f_equal.
      rewrite (update_at_step _ _ _ _ (e.1, (foldr mark_step (e.2, false) (zip pattern ps)).1)); cbn [edges finalActions inVariableLengthPrefix fst snd].
      * by rewrite list_insert_insert_eq.
      * rewrite list_lookup_insert_eq; [done|]. by eapply lookup_lt_Some.
Qed.

Lemma mark_loop pattern p v w : vertex_at v p = Some w -> length pattern = length p ->
  foldr mark_step (v, false) (zip pattern (prefixes p)) = mark_rec v p pattern.
Proof.
  revert v pattern. induction p as [|i p IH]; intros v [|t pattern] Hv Hlen; try done.
  cbn [vertex_at] in Hv. destruct (edges v !! i) as [e|] eqn:He; [|done].
  cbn [prefixes zip zip_with foldr mark_rec]. fold (zip pattern (cons i <$> prefixes p)). rewrite (mark_shift _ _ e) by done.
  rewrite (IH e.2 pattern) by (done || (simpl in Hlen; lia)). rewrite He. unfold mark_step. cbn [fst snd]. f_equal.
  rewrite (update_at_step _ _ _ _ (e.1, (mark_rec e.2 p pattern).1)); cbn [edges finalActions inVariableLengthPrefix fst snd update_at].
  - by rewrite list_insert_insert_eq.
  - rewrite list_lookup_insert_eq; [done|]. by eapply lookup_lt_Some.
Qed.

(** Changing one subtree. *)
Lemma contains_insert v i t c c' p a : edges v !! i = Some (t, c) ->
  contains (Vertex (<[i := (t, c')]> (edges v)) (finalActions v) (inVariableLengthPrefix v)) p a <->
  match p with
  | [] => contains v [] a
  | t' :: p' => (same_term t t' /\ contains c' p' a) \/
      exists j t1 c1, j <> i /\ edges v !! j = Some (t1, c1) /\ same_term t1 t' /\ contains c1 p' a
  end.
Proof.
  intros He. destruct p as [|t' p']; [by rewrite !contains_nil|]. rewrite contains_cons. cbn [edges]. split.
  - intros (j & t1 & c1 & Hj & Hs & Hc). destruct (decide (j = i)) as [->|Hne].
    + rewrite list_lookup_insert_eq in Hj by (by eapply lookup_lt_Some). simplify_eq. by left.
    + rewrite list_lookup_insert_ne in Hj by done. right. eauto 8.
  - intros [[Hs Hc]|(j & t1 & c1 & Hne & Hj & Hs & Hc)].
    + exists i, t, c'. split; [|done]. apply list_lookup_insert_eq. by eapply lookup_lt_Some.
    + exists j, t1, c1. split; [|done]. by rewrite list_lookup_insert_ne.
Qed.

Lemma contains_lookup v i t c p a : edges v !! i = Some (t, c) ->
  contains v p a <->
  match p with
  | [] => contains v [] a
  | t' :: p' => (same_term t t' /\ contains c p' a) \/
      exists j t1 c1, j <> i /\ edges v !! j = Some (t1, c1) /\ same_term t1 t' /\ contains c1 p' a
  end.
Proof.
  intros He. rewrite <- (contains_insert v i t c c) by done. rewrite list_insert_id by done. by destruct v.
Qed.

Lemma mark_contains b v p a : contains (mark b v) p a <-> contains v p a.
Proof. destruct p; [by rewrite !contains_nil|by rewrite !contains_cons]. Qed.

Lemma mark_rec_contains p v pattern q a : contains (mark_rec v p pattern).1 q a <-> contains v q a.
Proof.
  revert v pattern q. induction p as [|i p IH]; intros v [|t pattern] q; try done. cbn [mark_rec].
  destruct (edges v !! i) as [[t1 c]|] eqn:He; [|done]. cbn [fst snd].
  rewrite (contains_insert v i t1 c) by done. rewrite (contains_lookup v i t1 c q a He). destruct q as [|t' q]; [done|].
  by rewrite mark_contains, IH.
Qed.

Lemma vertex_ok_mark b b' v : vertex_ok (mark b v) -> (b = true -> b' = true) -> vertex_ok (mark b' v).
Proof.
  intros Hok Hb. inv Hok as [es acts m Hes Hacts]. constructor; [|done]. intros i t c Hi.
  destruct (Hes i t c Hi) as (? & ? & Hm & ?). split_and!; [done..| |done].
  intros Hc%Hm. apply orb_true_iff in Hc as [->|Hc]; [done|]. rewrite (Hb Hc). apply orb_true_r.
Qed.

Lemma mark_false v : mark false v = v.
Proof. destruct v. unfold mark. cbn. by rewrite orb_false_r. Qed.

Lemma mark_edges b v : edges (mark b v) = edges v.
Proof. done. Qed.

Lemma mark_rec_keeps v p pattern :
  length (edges (mark_rec v p pattern).1) = length (edges v) /\
  finalActions (mark_rec v p pattern).1 = finalActions v /\
  inVariableLengthPrefix (mark_rec v p pattern).1 = inVariableLengthPrefix v.
Proof.
  destruct p as [|i p], pattern as [|t pattern]; try done. cbn [mark_rec]. destruct (edges v !! i); [|done].
  cbn. by rewrite length_insert.
Qed.

(** The marks of a whole path keep the invariant. *)
Lemma mark_rec_ok p v pattern : vertex_ok v -> vertex_ok (mark (mark_rec v p pattern).2 (mark_rec v p pattern).1).
Proof.
  revert v pattern. induction p as [|i p IH]; intros v [|t pattern] Hok; cbn [mark_rec]; try by rewrite mark_false.
  destruct (edges v !! i) as [[t1 c]|] eqn:He; [|by rewrite mark_false]. cbn [fst snd].
  set (has := (mark_rec c p pattern).2 || negb (hasFixedLength t)).
  destruct (vertex_ok_edge _ _ _ _ Hok He) as (Ht & Hc & Hm & Hleaf).
  constructor; [|exact (vertex_ok_actions _ Hok)]. intros j t2 c2. cbn [edges].
  destruct (decide (j = i)) as [->|Hne].
  - rewrite list_lookup_insert_eq by (by eapply lookup_lt_Some). intros [= <- <-].
    destruct (mark_rec_keeps c p pattern) as (Hlen & Hfin & Hin). split_and!; [done| | |].
    + eapply vertex_ok_mark; [by apply IH|]. unfold has. by intros ->.
    + cbn. rewrite Hin. intros [Hi|Hh]%orb_true_iff; [by rewrite (Hm Hi)|]. rewrite Hh. apply orb_true_r.
    + cbn. rewrite Hfin. intros Hnil. apply Hleaf. rewrite Hnil in Hlen. by destruct (edges c).
  - rewrite list_lookup_insert_ne by done. intros Hj. destruct (vertex_ok_edge _ _ _ _ Hok Hj) as (? & ? & Hm2 & ?).
    split_and!; [done..| |done]. cbn. intros Hi%Hm2. by rewrite Hi.
Qed.

(** *** The pattern *)

Lemma find_edge_spec term es : term_ok term -> (forall i t c, es !! i = Some (t, c) -> term_ok t) ->
  exists r, find_edge term es = Some r /\
    match r with
    | Some i => exists t c, es !! i = Some (t, c) /\ same_term t term
    | None => True
    end.
Proof.
  intros Ht. induction es as [|[key c] es IH]; intros Hes; cbn; [by exists None|].
  destruct (term_equals_same key term) as (same & -> & Hs); [by apply (Hes 0%nat key c)|done|]. run_option. destruct same.
  - exists (Some 0%nat). split; [done|]. exists key, c. split; [done|]. by apply Hs.
  - destruct IH as (r & -> & Hr); [intros i t c' Hi; by apply (Hes (S i) t c')|]. run_option.
    exists (option_map S r). split; [done|]. destruct r; [|done]. exact Hr.
Qed.

(** The tree after the pattern is there, with its action. *)
Lemma extend_rec_spec pattern a : Forall term_ok pattern -> a < 2 ^ 48 -> forall v, vertex_ok v ->
  exists v' new p w, extend_rec v pattern = Some (v', new, p) /\ length p = length pattern /\ vertex_at v' p = Some w /\
    vertex_ok (update_at v' p (add_action a)) /\
    inVariableLengthPrefix (update_at v' p (add_action a)) = inVariableLengthPrefix v /\
    (edges (update_at v' p (add_action a)) = [] -> finalActions (update_at v' p (add_action a)) <> []) /\
    forall q b, contains (update_at v' p (add_action a)) q b <->
      contains v q b \/ (Forall2 same_term pattern q /\ b = a).
Proof.
  intros Hpat Ha. induction Hpat as [|term pattern Hterm Hpat IH]; intros v Hok.
  - exists v, false, [], v. split_and!; try done; cbn [update_at].
    + destruct Hok as [es acts m Hes Hacts]. constructor; [done|]. apply Forall_forall.
      intros x [->|Hx]%elem_of_hset_add; [done|]. rewrite Forall_forall in Hacts. by apply Hacts.
    + cbn. intros _ E. apply (not_elem_of_nil a). rewrite <- E. apply elem_of_hset_add. by left.
    + intros [|t q] b.
      * rewrite !contains_nil. cbn. rewrite elem_of_hset_add. split; [intros [->|?]; [by right|by left]|].
        intros [?|[_ ->]]; [by right|by left].
      * rewrite !contains_cons. cbn. split; [by left|]. intros [?|[Hf _]]; [done|]. inv Hf.
  - cbn [extend_rec]. destruct (find_edge_spec term (edges v)) as ([i|] & -> & Hr); [done| |..].
    { intros i t c Hi. by eapply vertex_ok_edge. }
    + destruct Hr as (t & c & Hi & Hs). run_option. rewrite Hi. run_option. cbn [fst snd].
      destruct (vertex_ok_edge _ _ _ _ Hok Hi) as (Ht & Hc & Hm & Hleaf).
      destruct (IH c Hc) as (c' & new & p & w & -> & Hlen & Hw & Hok' & Hin & Hleaf' & Hcon). run_option. cbn [fst snd].
      assert (update_at (Vertex (<[i:=(t, c')]> (edges v)) (finalActions v) (inVariableLengthPrefix v)) (i :: p) (add_action a)
        = Vertex (<[i:=(t, update_at c' p (add_action a))]> (edges v)) (finalActions v) (inVariableLengthPrefix v)) as Hup.
      { rewrite (update_at_step _ _ _ _ (t, c')); cbn; [by rewrite list_insert_insert_eq|].
        apply list_lookup_insert_eq. by eapply lookup_lt_Some. }
      eexists _, new, (i :: p), w. split; [done|]. rewrite Hup. split_and!.
      * simpl. by rewrite Hlen.
      * cbn [vertex_at edges]. rewrite list_lookup_insert_eq by (by eapply lookup_lt_Some). done.
      * constructor; [|exact (vertex_ok_actions _ Hok)]. intros j t2 c2. destruct (decide (j = i)) as [->|Hne].
        -- rewrite list_lookup_insert_eq by (by eapply lookup_lt_Some). intros [= <- <-]. rewrite Hin. by split_and!.
        -- rewrite list_lookup_insert_ne by done. intros Hj. by eapply vertex_ok_edge.
      * done.
      * cbn. intros E. exfalso. apply (f_equal length) in E. rewrite length_insert in E. apply lookup_lt_Some in Hi. simpl in E. lia.
      * intros q b. rewrite (contains_insert v i t c) by done. rewrite (contains_lookup v i t c q b Hi). destruct q as [|t' q].
        -- split; [by left|]. intros [?|[Hf _]]; [done|inv Hf].
        -- rewrite Hcon, Forall2_cons. split.
           ++ intros [(Hst & [?|[? ?]])|?]; [by left; left| |by left; right].
              right. split_and!; [|done|done]. eapply same_term_trans; [by apply same_term_sym|done].
           ++ intros [[[? ?]|?]|[[Hst ?] ->]]; [left; by auto|by right|]. left. split; [|by right]. by eapply same_term_trans.
    + run_option. destruct (IH newVertex newVertex_ok) as (c' & new & p & w & -> & Hlen & Hw & Hok' & Hin & Hleaf' & Hcon).
      run_option. cbn [fst snd].
      assert (update_at (Vertex (edges v ++ [(term, c')]) (finalActions v) (inVariableLengthPrefix v)) (length (edges v) :: p) (add_action a)
        = Vertex (edges v ++ [(term, update_at c' p (add_action a))]) (finalActions v) (inVariableLengthPrefix v)) as Hup.
      { rewrite (update_at_step _ _ _ _ (term, c')); cbn; [|by rewrite list_lookup_middle].
        by rewrite insert_app_r_alt, Nat.sub_diag by lia. }
      assert (forall j t2 c2, (edges v ++ [(term, update_at c' p (add_action a))]) !! j = Some (t2, c2) <->
        edges v !! j = Some (t2, c2) \/ (j = length (edges v) /\ t2 = term /\ c2 = update_at c' p (add_action a))) as Hlk.
      { intros j t2 c2. rewrite lookup_app_Some. split.
        - intros [?|[Hge Hj]]; [by left|right]. apply list_lookup_singleton_Some in Hj as [? [= <- <-]].
          split_and!; [lia|done|done].
        - intros [?|(-> & -> & ->)]; [by left|right]. split; [lia|]. by rewrite Nat.sub_diag. }
      eexists _, true, (length (edges v) :: p), w. split; [done|]. rewrite Hup. split_and!.
      * simpl. by rewrite Hlen.
      * cbn [vertex_at edges]. by rewrite list_lookup_middle.
      * constructor; [|exact (vertex_ok_actions _ Hok)]. intros j t2 c2 [Hj|(-> & -> & ->)]%Hlk; [by eapply vertex_ok_edge|].
        rewrite Hin. by split_and!.
      * done.
      * cbn. intros E. by apply app_eq_nil in E as [_ ?].
      * intros q b. destruct q as [|t' q].
        -- rewrite !contains_nil. split; [by left|]. intros [?|[Hf _]]; [done|inv Hf].
        -- rewrite !contains_cons, Forall2_cons. cbn [edges]. setoid_rewrite Hlk. split.
           ++ intros (j & t2 & c2 & [Hj|(-> & -> & ->)] & Hs & Hc); [left; eauto 6|]. right.
              apply Hcon in Hc as [Hc|[? ->]]; [by apply newVertex_contains in Hc|done].
           ++ intros [(j & t2 & c2 & Hj & Hs & Hc)|[[Hs Hf] ->]]; [eauto 8|].
              eexists _, _, _. split; [right; done|]. split; [done|]. apply Hcon. by right.
Qed.

Lemma last_prefixes p : last ([] :: prefixes p) = Some p.
Proof.
  induction p as [|i p IH]; [done|]. cbn [prefixes]. rewrite last_cons_cons.
  change ([i] :: (cons i <$> prefixes p)) with (cons i <$> ([] :: prefixes p)). by rewrite fmap_last, IH.
Qed.

Lemma addPattern_adds root actionId pattern :
  vertex_ok root -> Forall term_ok pattern -> pattern <> [] -> actionId < 2 ^ 48 ->
  exists root', addPattern root actionId pattern = Some root' /\ vertex_ok root' /\
    forall q a, contains root' q a <-> contains root q a \/ (Forall2 same_term pattern q /\ a = actionId).
Proof.
  intros Hok Hpat Hne Ha. unfold addPattern. rewrite bool_decide_false by done.
  rewrite (extend_loop pattern root false [] [[]] root) by done.
  destruct (extend_rec_spec pattern actionId Hpat Ha root Hok) as (v & new & p & w & -> & Hlen & Hw & Hok' & _ & _ & Hcon).
  run_option. cbn [fst snd tree hasNewTerm prefixTreeVerticesForPattern update_at].
  assert ((app [] <$> prefixes p) = prefixes p) as -> by apply list_fmap_id. cbn [app orb head tail].
  rewrite last_prefixes. run_option. destruct new; cbn [negb]; [|eauto].
  rewrite (mark_loop pattern p _ (add_action actionId w)) by (done || by apply vertex_at_update).
  destruct (mark_rec _ p pattern) as [t has] eqn:E. run_option. exists (mark has t). split; [done|].
  pose proof (mark_rec_ok p _ pattern Hok') as Hmark. rewrite E in Hmark. split; [done|].
  intros q a. rewrite mark_contains. pose proof (mark_rec_contains p (update_at v p (add_action actionId)) pattern q a) as Hm.
  rewrite E in Hm. cbn [fst] in Hm. by rewrite Hm, Hcon.
Qed.

(** C9: [addPattern] returns, keeps the invariant of the prefix tree, and adds the pattern with its
    action to what the tree holds, up to the equality of terms, and nothing else. *)
Theorem addPattern_spec (root : PrefixTreeVertex) (actionId : N) (pattern : list Term) :
  vertex_ok root -> Forall term_ok pattern -> pattern <> [] -> actionId < 2 ^ 48 ->
  exists root', addPattern root actionId pattern = Some root' /\ vertex_ok root' /\
    forall q a, contains root' q a <-> contains root q a \/ (Forall2 same_term pattern q /\ a = actionId).
Proof. apply addPattern_adds. Qed.

Definition example_pattern : list Term := [example_character 97; quantify (example_character 98) ZeroOrMore; example_term].

Lemma addPattern_spec_witness :
  exists root', addPattern newVertex 5 example_pattern = Some root' /\ vertex_ok root' /\
    forall q a, contains root' q a <-> contains newVertex q a \/ (Forall2 same_term example_pattern q /\ a = 5).
Proof.
  apply (addPattern_spec newVertex 5 example_pattern).
  - apply newVertex_ok.
  - repeat constructor; by vm_compute.
  - done.
  - done.
Defined.
