(* ===== verification/CreateNFAs.v ===== *)
(** * The automata of the prefix tree

    [CombinedURLFilters::createNFAs] ends, and the automata it makes trigger exactly
    the actions of the patterns that the tree holds. *)

From S2P Require Import BitVector.
From S2P Require Import Prelude HashTable NFA Graph Term TermGraph CombinedURLFilters PrefixTree.

(** ** What is added to an automaton *)

(** The inputs that lead to a node, and those that trigger an action. *)
Definition reads (nfa : NFA) (q : N) (w : list N) : Prop := path (edge nfa) (m_root nfa) w q.
Definition triggers (nfa : NFA) (w : list N) (a : N) : Prop := exists q, reads nfa q w /\ final nfa q a.

Lemma triggers_accepts nfa w a : Forall (fun c => c < 128) w -> triggers nfa w a <-> accepts nfa w a.
Proof. intros Hw. unfold triggers, accepts, reads. by setoid_rewrite (reach_path _ _ _ _ Hw). Qed.

Record adds (nfa nfa' : NFA) (A : list N -> N -> Prop) : Prop := {
  ad_ok : nfa_ok nfa';
  ad_size : graphSize nfa <= graphSize nfa';
  ad_reads : forall q w, q < graphSize nfa -> reads nfa' q w <-> reads nfa q w;
  ad_triggers : forall w a, triggers nfa' w a <-> triggers nfa w a \/ A w a
}.

Lemma adds_refl nfa : nfa_ok nfa -> adds nfa nfa (fun _ _ => False).
Proof. intros. split; try done. tauto. Qed.

Lemma adds_ext nfa nfa' A A' : (forall w a, A w a <-> A' w a) -> adds nfa nfa' A -> adds nfa nfa' A'.
Proof. intros HA [? ? ? Ht]. split; try done. intros. by rewrite Ht, HA. Qed.

Lemma adds_trans nfa1 nfa2 nfa3 A1 A2 :
  adds nfa1 nfa2 A1 -> adds nfa2 nfa3 A2 -> adds nfa1 nfa3 (fun w a => A1 w a \/ A2 w a).
Proof.
  intros [O1 S1 R1 T1] [O2 S2 R2 T2]. split; [done|lia|..].
  - intros q w Hq. rewrite R2 by lia. by apply R1.
  - intros w a. rewrite T2, T1. tauto.
Qed.

(** The words of [L], after the inputs that lead to [start]. *)
Definition after (nfa : NFA) (start : N) (L : list N -> Prop) : list N -> Prop := concatenation (reads nfa start) L.

Lemma generateGraph_adds `{HashOrder} t nfa start acts :
  term_ok t -> nfa_ok nfa -> start < graphSize nfa -> Forall (fun a => a < 2 ^ 48) acts ->
  exists e nfa', generateGraph t nfa start acts = Some (e, nfa') /\ e < graphSize nfa' /\
    adds nfa nfa' (fun w a => a ∈ acts /\ after nfa start (language t) w) /\
    forall w, reads nfa' e w <-> after nfa start (language t) w.
Proof.
  intros Ht Hok Hs Ha. destruct (generateGraph_builds t Ht acts Ha nfa start Hok Hs) as (e & nfa' & k & R & E & Hx & Hf).
  exists e, nfa'. split; [done|]. pose proof (fr_end _ _ _ _ _ _ Hf). pose proof (ex_size _ _ _ _ _ Hx) as Hsize.
  assert (forall q w, q < graphSize nfa -> reads nfa' q w <-> reads nfa q w) as Hold.
  { intros q w Hq. unfold reads. rewrite (ex_root _ _ _ _ _ Hx). by apply (extension_old _ _ _ _ _ _ _ _ Hok Hx Hf). }
  assert (forall w, reads nfa' e w <-> after nfa start (language t) w) as Hnew.
  { intros w. unfold reads. rewrite (ex_root _ _ _ _ _ Hx).
    apply (extension_end _ _ _ _ _ _ _ _ Hok Hx Hf). apply (nfa_ok_root _ Hok). }
  split; [lia|]. split; [|done]. split; [apply Hx|lia|done|]. intros w a. unfold triggers. split.
  - intros (q & Hr & [Hfin|[-> Hin]]%(ex_final _ _ _ _ _ Hx)).
    + left. exists q. split; [|done]. apply Hold; [by eapply final_lt|done].
    + right. split; [done|]. by apply Hnew.
  - intros [(q & Hr & Hfin)|[Hin Hw]].
    + exists q. split; [apply Hold; [by eapply final_lt|done]|]. apply (ex_final _ _ _ _ _ Hx). by left.
    + exists e. split; [by apply Hnew|]. apply (ex_final _ _ _ _ _ Hx). by right.
Qed.

(** ** The content of a tree *)

(** The words and the actions of the paths from [v] through the vertices that [follow] says. *)
Inductive content (follow : PrefixTreeVertex -> bool) : PrefixTreeVertex -> list N -> N -> Prop :=
| content_here v t c w a :
    (t, c) ∈ edges v -> follow c = true -> language t w -> a ∈ finalActions c -> content follow v w a
| content_below v t c w1 w2 a :
    (t, c) ∈ edges v -> follow c = true -> language t w1 -> content follow c w2 a -> content follow v (w1 ++ w2) a.

(** The same from some of the edges. *)
Definition edge_content (follow : PrefixTreeVertex -> bool) (e : Term * PrefixTreeVertex) (w : list N) (a : N) : Prop :=
  (a ∈ finalActions e.2 /\ language e.1 w) \/ concatenation (language e.1) (fun w => content follow e.2 w a) w.

Definition list_content (follow : PrefixTreeVertex -> bool) (it : list (Term * PrefixTreeVertex)) (w : list N) (a : N) : Prop :=
  exists e, e ∈ it /\ follow e.2 = true /\ edge_content follow e w a.

Lemma content_list follow v w a : content follow v w a <-> list_content follow (edges v) w a.
Proof.
  split.
  - intros [v' t c w' a' Hin Hfo Hl Ha|v' t c w1 w2 a' Hin Hfo Hl Hc]; exists (t, c); (split_and!; [done..|]); [by left|].
    right. by exists w1, w2.
  - intros ([t c] & Hin & Hfo & [[Ha Hl]|(w1 & w2 & -> & Hl & Hc)]); [by eapply content_here|by eapply content_below].
Qed.

Lemma list_content_cons follow e it w a :
  list_content follow (e :: it) w a <-> (follow e.2 = true /\ edge_content follow e w a) \/ list_content follow it w a.
Proof. unfold list_content. setoid_rewrite elem_of_cons. naive_solver. Qed.

Lemma list_content_perm follow it it' w a : it ≡ₚ it' -> list_content follow it w a <-> list_content follow it' w a.
Proof. intros Hp. unfold list_content. by setoid_rewrite Hp. Qed.

Definition fixed_prefix (v : PrefixTreeVertex) : bool := negb (inVariableLengthPrefix v).
Definition all_vertices (v : PrefixTreeVertex) : bool := true.

Lemma vertex_ok_elem v t c : vertex_ok v -> (t, c) ∈ edges v ->
  term_ok t /\ vertex_ok c /\ (inVariableLengthPrefix c = true -> inVariableLengthPrefix v = true) /\
  (edges c = [] -> finalActions c <> []).
Proof. intros Hok [i Hi]%list_elem_of_lookup. by eapply vertex_ok_edge. Qed.

(** Below a vertex with a fixed prefix all have one. *)
Lemma fixed_content v w a : vertex_ok v -> fixed_prefix v = true ->
  content fixed_prefix v w a <-> content all_vertices v w a.
Proof.
  intros Hok Hv. split.
  - clear. induction 1; [by eapply content_here|by eapply content_below].
  - intros Hc. revert Hok Hv. induction Hc as [v t c w a Hin _ Hl Ha|v t c w1 w2 a Hin _ Hl Hc IH]; intros Hok Hv;
      destruct (vertex_ok_elem _ _ _ Hok Hin) as (_ & Hcok & Hm & _);
      (assert (fixed_prefix c = true) as Hfc by (unfold fixed_prefix in *; destruct (inVariableLengthPrefix c); [by rewrite Hm in Hv|done])).
    + by eapply content_here.
    + eapply content_below; eauto.
Qed.

(** The content is that of the patterns the tree holds. *)
Lemma content_contains v w a : vertex_ok v ->
  content all_vertices v w a <->
  exists q, q <> [] /\ Forall term_ok q /\ contains v q a /\ sequence_language q w.
Proof.
  intros Hok. split.
  - intros Hc. revert Hok. induction Hc as [v t c w a Hin _ Hl Ha|v t c w1 w2 a Hin _ Hl Hc IH]; intros Hok;
      destruct (vertex_ok_elem _ _ _ Hok Hin) as (Ht & Hcok & _ & _); apply list_elem_of_lookup in Hin as [i Hi].
    + exists [t]. split_and!; [done|by constructor| |by apply sequence_one].
      econstructor; [done|apply same_term_refl|by constructor].
    + destruct (IH Hcok) as (q & Hq & Hqok & Hcq & Hlq). exists (t :: q). split_and!; [done|by constructor| |].
      * econstructor; [done|apply same_term_refl|done].
      * by exists w1, w2.
  - intros (q & Hne & Hqok & Hc & Hl). revert Hok w Hl Hne Hqok.
    induction Hc as [v a Ha|v i t c t' p a Hi Hs Hc IH]; intros Hok w Hl Hne Hqok; [done|].
    destruct (vertex_ok_edge _ _ _ _ Hok Hi) as (Ht & Hcok & _ & _). apply Forall_cons in Hqok as [Ht' Hp].
    apply list_elem_of_lookup_2 in Hi. destruct Hl as (w1 & w2 & -> & Hl1 & Hl2).
    assert (language t w1) by (by apply (same_term_language t t')).
    destruct p as [|t2 p].
    + cbn in Hl2. subst w2. rewrite app_nil_r. apply contains_nil in Hc. by eapply content_here.
    + eapply content_below; [done..|]. by apply IH.
Qed.

(** ** The size of a tree *)

Fixpoint vertex_size (v : PrefixTreeVertex) : nat :=
  match v with Vertex es _ _ => S (foldr (fun e n => vertex_size e.2 + n)%nat 0%nat es) end.

Definition edges_size (it : list (Term * PrefixTreeVertex)) : nat := foldr (fun e n => vertex_size e.2 + n)%nat 0%nat it.

Lemma vertex_size_edges v : vertex_size v = S (edges_size (edges v)).
Proof. by destruct v. Qed.

Lemma edges_size_perm it it' : it ≡ₚ it' -> edges_size it = edges_size it'.
Proof. induction 1; unfold edges_size in *; cbn in *; lia. Qed.

Lemma edges_size_elem e it : e ∈ it -> (vertex_size e.2 <= edges_size it)%nat.
Proof. induction 1; unfold edges_size in *; cbn in *; lia. Qed.

(** ** The subtrees with a fixed prefix *)

Section Generation.
Context `{HashOrder}.

Lemma edges_begin_perm v : edges_begin v ≡ₚ edges v.
Proof. apply hash_order_perm. Qed.

Lemma edges_begin_size v : edges_size (edges_begin v) = edges_size (edges v).
Proof. apply edges_size_perm, edges_begin_perm. Qed.

(** The words of a list of edges after the inputs that lead to [start]. *)
Definition after_list (nfa : NFA) (start : N) (it : list (Term * PrefixTreeVertex)) (w : list N) (a : N) : Prop :=
  after nfa start (fun w => list_content fixed_prefix it w a) w.

Lemma after_reads nfa nfa' start start' (L L' : list N -> Prop) w :
  (forall w, reads nfa' start' w <-> reads nfa start w) -> (forall w, L w <-> L' w) ->
  after nfa' start' L w <-> after nfa start L' w.
Proof. intros Hr HL. by apply concatenation_ext. Qed.

(** [k] turns take the loop from the state [s] to the state [s']. *)
Definition subtree_turns (k : nat) (s s' : nfa_state) : Prop :=
  forall fuel, subtree_loop (k + fuel) s = subtree_loop fuel s'.

Lemma subtree_turns_one s s' : subtree_step s = Some (Continue s') -> subtree_turns 1 s s'.
Proof. intros E fuel. cbn. by rewrite E. Qed.

Lemma subtree_turns_trans k1 k2 s1 s2 s3 :
  subtree_turns k1 s1 s2 -> subtree_turns k2 s2 s3 -> subtree_turns (k1 + k2) s1 s3.
Proof. intros H1 H2 fuel. by rewrite <- Nat.add_assoc, H1, H2. Qed.

(** The turns for the edges that an iterator has left. *)
Definition subtree_spec (v : PrefixTreeVertex) : Prop :=
  vertex_ok v -> forall it, (forall e, e ∈ it -> e ∈ edges v) -> forall nfa node rest,
  nfa_ok nfa -> node < graphSize nfa ->
  exists k nfa', (k <= 2 * edges_size it)%nat /\ adds nfa nfa' (after_list nfa node it) /\
    subtree_turns k (mkActiveNFASubtree v it node :: rest, nfa) (mkActiveNFASubtree v [] node :: rest, nfa').

(** One edge with a fixed prefix, with all that is below it. *)
Lemma subtree_edge v t c it nfa node rest :
  subtree_spec c -> term_ok t -> vertex_ok c -> fixed_prefix c = true -> nfa_ok nfa -> node < graphSize nfa ->
  exists k nfa', (k <= 2 * vertex_size c)%nat /\
    adds nfa nfa' (fun w a => after nfa node (fun w => edge_content fixed_prefix (t, c) w a) w) /\
    subtree_turns k (mkActiveNFASubtree v ((t, c) :: it) node :: rest, nfa) (mkActiveNFASubtree v it node :: rest, nfa').
Proof.
  intros Hspec Ht Hc Hfix Hok Hnode. apply negb_true_iff in Hfix.
  destruct (generateGraph_adds t nfa node (finalActions c) Ht Hok Hnode (vertex_ok_actions _ Hc))
    as (e & nfa1 & E & He & Hadds & Hreads).
  destruct (decide (edges c = [])) as [Hnil|Hnil].
  - exists 1%nat, nfa1. split; [rewrite vertex_size_edges; lia|]. split.
    + eapply adds_ext; [|exact Hadds]. intros w a. unfold edge_content, after, concatenation. cbn. split.
      * intros [Ha (w1 & w2 & -> & ? & ?)]. exists w1, w2. split_and!; [done..|]. by left.
      * intros (w1 & w2 & -> & ? & [[? ?]|(? & w3 & _ & _ & Hcon)]); [by eauto 6|].
        apply content_list in Hcon as (e' & Hin & _). rewrite Hnil in Hin. by apply not_elem_of_nil in Hin.
    + apply subtree_turns_one. unfold subtree_step. cbn [iterator lastNodeIndex vertex]. rewrite Hfix, E. run_option.
      by rewrite bool_decide_true.
  - destruct (Hspec Hc (edges_begin c)) with (nfa := nfa1) (node := e)
      (rest := mkActiveNFASubtree v ((t, c) :: it) node :: rest) as (k & nfa2 & Hk & Hadds2 & Hturns); [|apply Hadds|done|].
    { intros e' Hin. by rewrite edges_begin_perm in Hin. }
    exists (1 + k + 1)%nat, nfa2. split; [rewrite edges_begin_size in Hk; rewrite vertex_size_edges; lia|]. split.
    + eapply adds_ext; [|exact (adds_trans _ _ _ _ _ Hadds Hadds2)]. intros w a. cbv beta.
      assert (after_list nfa1 e (edges_begin c) w a <->
        concatenation (after nfa node (language t)) (fun w => content fixed_prefix c w a) w) as ->.
      { apply concatenation_ext; [exact Hreads|]. intros w'. rewrite content_list. apply list_content_perm, edges_begin_perm. }
      unfold edge_content, after, concatenation. cbn. split.
      * intros [[Ha (w1 & w2 & -> & ? & ?)]|(w12 & w3 & -> & (w1 & w2 & -> & ? & ?) & ?)].
        -- exists w1, w2. split_and!; [done..|]. by left.
        -- exists w1, (w2 ++ w3). rewrite app_assoc. split_and!; [done..|]. right. by exists w2, w3.
      * intros (w1 & w2 & -> & ? & [[? ?]|(w3 & w4 & -> & ? & ?)]); [left; by eauto 6|].
        right. exists (w1 ++ w3), w4. rewrite app_assoc. split_and!; [done| |done]. by exists w1, w3.
    + eapply subtree_turns_trans; [eapply subtree_turns_trans; [|exact Hturns]|].
      * apply subtree_turns_one. unfold subtree_step. cbn [iterator lastNodeIndex vertex]. rewrite Hfix, E. run_option.
        by rewrite bool_decide_false.
      * by apply subtree_turns_one.
Qed.

Lemma subtree_spec_all v : subtree_spec v.
Proof.
  induction v as [es acts m IH] using Vertex_nested_ind. intros Hok it.
  induction it as [|[t c] it IHit]; intros Hin nfa node rest Hnfa Hnode.
  - exists 0%nat, nfa. split; [cbn; lia|]. split; [|done]. eapply adds_ext; [|by apply adds_refl]. intros w a. split; [done|].
    intros (w1 & w2 & _ & _ & e & He & _). by apply not_elem_of_nil in He.
  - assert ((t, c) ∈ es) as Htc by (apply (Hin (t, c)); by left).
    destruct (vertex_ok_elem _ _ _ Hok Htc) as (Ht & Hc & _ & _).
    specialize (IHit (fun e He => Hin e (list_elem_of_further _ _ _ He))).
    destruct (fixed_prefix c) eqn:Hfix.
    + rewrite Forall_forall in IH. specialize (IH (t, c) Htc).
      destruct (subtree_edge (Vertex es acts m) t c it nfa node rest IH Ht Hc Hfix Hnfa Hnode) as (k & nfa1 & Hk & Hadds & Hturns).
      destruct (IHit nfa1 node rest) as (k2 & nfa2 & Hk2 & Hadds2 & Hturns2).
      { apply Hadds. }
      { pose proof (ad_size _ _ _ Hadds). lia. }
      exists (k + k2)%nat, nfa2. split; [unfold edges_size in *; cbn; lia|]. split; [|by eapply subtree_turns_trans].
      eapply adds_ext; [|exact (adds_trans _ _ _ _ _ Hadds Hadds2)]. intros w a. unfold after_list, after, concatenation.
      setoid_rewrite list_content_cons. setoid_rewrite (ad_reads _ _ _ Hadds node); [|done..]. cbn [snd]. naive_solver.
    + destruct (IHit nfa node rest Hnfa Hnode) as (k2 & nfa2 & Hk2 & Hadds2 & Hturns2).
      exists (1 + k2)%nat, nfa2. split; [unfold edges_size in *; cbn; destruct c; cbn; lia|]. split.
      * eapply adds_ext; [|exact Hadds2]. intros w a. unfold after_list. apply concatenation_ext; [done|]. intros w'.
        rewrite list_content_cons. cbn [snd]. rewrite Hfix. naive_solver.
      * eapply subtree_turns_trans; [|exact Hturns2]. apply subtree_turns_one. unfold subtree_step. cbn [iterator].
        apply negb_false_iff in Hfix. by rewrite Hfix.
Qed.

(** [generateNFAForSubtree] returns, and adds the content of the subtree. *)
Lemma generateNFAForSubtree_adds fuel nfa rootId v :
  vertex_ok v -> nfa_ok nfa -> rootId < graphSize nfa -> (2 * vertex_size v < fuel)%nat ->
  exists nfa', generateNFAForSubtree fuel nfa rootId v = Some (Finished nfa') /\
    adds nfa nfa' (fun w a => after nfa rootId (fun w => content fixed_prefix v w a) w).
Proof.
  intros Hv Hok Hroot Hfuel. destruct (subtree_spec_all v Hv (edges_begin v)) with (nfa := nfa) (node := rootId)
    (rest := @nil ActiveNFASubtree) as (k & nfa' & Hk & Hadds & Hturns); [|done|done|].
  { intros e He. by rewrite edges_begin_perm in He. }
  exists nfa'. split.
  - unfold generateNFAForSubtree. rewrite edges_begin_size in Hk. rewrite vertex_size_edges in Hfuel.
    replace fuel with (k + S (fuel - k - 1))%nat by lia. rewrite Hturns. done.
  - eapply adds_ext; [|exact Hadds]. intros w a. apply concatenation_ext; [done|]. intros w'.
    rewrite content_list. apply list_content_perm, edges_begin_perm.
Qed.

(** ** The prefix of a vertex *)

(** The edges of a prefix, from the root, are those the stack of iterators is at. *)
Definition stack_prefix (stack : list ActiveSubtree) (P : list (Term * PrefixTreeVertex)) : Prop :=
  Forall2 (fun s e => head (as_iterator s) = Some e) stack P.

Definition edge_ok (e : Term * PrefixTreeVertex) : Prop := term_ok e.1 /\ vertex_ok e.2.

Definition prefix_language (P : list (Term * PrefixTreeVertex)) : list N -> Prop := sequence_language P.*1.

(** The actions at the vertices of a prefix. *)
Fixpoint prefix_actions (P : list (Term * PrefixTreeVertex)) (w : list N) (a : N) : Prop :=
  match P with
  | [] => False
  | e :: P => (a ∈ finalActions e.2 /\ language e.1 w) \/ concatenation (language e.1) (fun w => prefix_actions P w a) w
  end.

Lemma prefix_language_snoc P e w :
  prefix_language (P ++ [e]) w <-> concatenation (prefix_language P) (language e.1) w.
Proof.
  unfold prefix_language. revert w. induction P as [|e' P IH]; intros w.
  - cbn [app fmap list_fmap]. rewrite sequence_one. symmetry. apply concatenation_empty_l.
  - cbn [app fmap list_fmap]. change (sequence_language (e'.1 :: ?l)) with (concatenation (language e'.1) (sequence_language l)).
    rewrite concatenation_assoc. by apply concatenation_ext.
Qed.

Lemma prefix_actions_snoc P e w a :
  prefix_actions (P ++ [e]) w a <-> prefix_actions P w a \/ (a ∈ finalActions e.2 /\ prefix_language (P ++ [e]) w).
Proof.
  revert w. induction P as [|e' P IH]; intros w.
  - cbn [app prefix_actions]. unfold prefix_language. cbn [fmap list_fmap]. rewrite sequence_one. split.
    + intros [?|(? & ? & _ & _ & [])]. by right.
    + intros [[]|?]. by left.
  - cbn [app prefix_actions]. rewrite (concatenation_ext _ (language e'.1) _
      (fun w => prefix_actions P w a \/ (a ∈ finalActions e.2 /\ prefix_language (P ++ [e]) w))) by done.
    rewrite concatenation_or. unfold prefix_language. cbn [fmap list_fmap].
    change (sequence_language (e'.1 :: ?l)) with (concatenation (language e'.1) (sequence_language l)).
    rewrite concatenation_and. tauto.
Qed.

(** [generateGraph] along the prefix. *)
Lemma prefix_adds stack P : stack_prefix stack P -> Forall edge_ok P ->
  forall node nfa, nfa_ok nfa -> node < graphSize nfa ->
  exists e nfa', foldM (fun s subtree => entry ← head (as_iterator subtree);
                          generateGraph entry.1 s.2 s.1 (finalActions entry.2)) (node, nfa) stack = Some (e, nfa') /\
    e < graphSize nfa' /\ adds nfa nfa' (fun w a => after nfa node (fun w => prefix_actions P w a) w) /\
    forall w, reads nfa' e w <-> after nfa node (prefix_language P) w.
Proof.
  induction 1 as [|s e stack P He Hstack IH]; intros Hok node nfa Hnfa Hnode.
  - exists node, nfa. split_and!; [done|done| |].
    + eapply adds_ext; [|by apply adds_refl]. unfold after, concatenation. naive_solver.
    + intros w. unfold after, prefix_language, concatenation. cbn. split; [intros; exists w, []; by rewrite app_nil_r|].
      intros (w1 & w2 & -> & ? & ->). by rewrite app_nil_r.
  - apply Forall_cons in Hok as [[Ht Hv] Hok]. cbn [foldM]. rewrite He. run_option. cbn [fst snd].
    destruct (generateGraph_adds e.1 nfa node (finalActions e.2) Ht Hnfa Hnode (vertex_ok_actions _ Hv))
      as (e1 & nfa1 & -> & He1 & Hadds & Hreads). run_option.
    destruct (IH Hok e1 nfa1 (ad_ok _ _ _ Hadds) He1) as (e2 & nfa2 & -> & He2 & Hadds2 & Hreads2).
    exists e2, nfa2. split_and!; [done|done| |].
    + eapply adds_ext; [|exact (adds_trans _ _ _ _ _ Hadds Hadds2)]. intros w a. cbn [prefix_actions]. cbv beta.
      unfold after. rewrite concatenation_or, concatenation_and.
      rewrite (concatenation_ext (reads nfa1 e1) (after nfa node (language e.1)) _ (fun w => prefix_actions P w a)) by done.
      unfold after. by rewrite concatenation_assoc.
    + intros w. rewrite Hreads2. unfold after, prefix_language. cbn [fmap list_fmap].
      change (sequence_language (e.1 :: ?l)) with (concatenation (language e.1) (sequence_language l)).
      rewrite <- concatenation_assoc. by apply concatenation_ext.
Qed.

Lemma newNFA_no_edge p l q : ~ edge newNFA p l q.
Proof.
  rewrite edge_node. intros (node & Hn & He). apply list_lookup_singleton_Some in Hn as [_ <-].
  destruct l; cbn in He; set_solver.
Qed.

Lemma newNFA_reads w : reads newNFA 0 w <-> w = [].
Proof.
  unfold reads. split; [|intros ->; constructor]. intros Hp. apply path_stuck in Hp as [-> _]; [done|].
  intros. apply newNFA_no_edge.
Qed.

Lemma newNFA_triggers w a : ~ triggers newNFA w a.
Proof.
  intros (q & _ & node & Hn & Ha). apply list_lookup_singleton_Some in Hn as [_ <-]. by apply not_elem_of_nil in Ha.
Qed.

(** The automaton of one vertex. *)
Lemma generateNFA_spec fuel prefix P v :
  stack_prefix prefix P -> Forall edge_ok P -> vertex_ok v -> (2 * vertex_size v < fuel)%nat ->
  exists nfa, generateNFA fuel prefix v = Some (Some nfa) /\ nfa_ok nfa /\
    forall w a, triggers nfa w a <->
      prefix_actions P w a \/ concatenation (prefix_language P) (fun w => content fixed_prefix v w a) w.
Proof.
  intros Hstack HP Hv Hfuel. unfold generateNFA.
  destruct (prefix_adds prefix P Hstack HP (m_root newNFA) newNFA newNFA_ok) as (e & nfa1 & -> & He & Hadds & Hreads); [done|].
  run_option.
  assert (forall it nfa2, (forall x, x ∈ it -> x ∈ edges v) -> nfa_ok nfa2 -> e < graphSize nfa2 ->
    exists nfa3, foldM (fun s (edge : Term * PrefixTreeVertex) =>
           match s with
           | None => Some None
           | Some generatingNFA =>
               if inVariableLengthPrefix edge.2 then Some (Some generatingNFA)
               else
                 r ← generateGraph edge.1 generatingNFA e (finalActions edge.2);
                 let '(newSubtreeStart, generatingNFA) := r in
                 r ← generateNFAForSubtree fuel generatingNFA newSubtreeStart edge.2;
                 match r with Finished nfa => Some (Some nfa) | Continue _ => Some None end
           end) (Some nfa2) it = Some (Some nfa3) /\ adds nfa2 nfa3 (after_list nfa2 e it)) as Hloop.
  { intros it. induction it as [|[t c] it IH]; intros nfa2 Hin Hok2 He2.
    - exists nfa2. split; [done|]. eapply adds_ext; [|by apply adds_refl]. intros w a. split; [done|].
      intros (w1 & w2 & _ & _ & e' & Hnil & _). by apply not_elem_of_nil in Hnil.
    - assert ((t, c) ∈ edges v) as Htc by (apply (Hin (t, c)); by left).
      destruct (vertex_ok_elem _ _ _ Hv Htc) as (Ht & Hc & _ & _).
      assert (forall x, x ∈ it -> x ∈ edges v) as Hin' by (intros; apply Hin; by right).
      cbn [foldM fst snd]. destruct (inVariableLengthPrefix c) eqn:Hm.
      + run_option. destruct (IH nfa2 Hin' Hok2 He2) as (nfa3 & -> & Hadds3). exists nfa3. split; [done|].
        eapply adds_ext; [|exact Hadds3]. intros w a. apply concatenation_ext; [done|]. intros w'.
        rewrite list_content_cons. unfold fixed_prefix at 2. cbn [snd]. rewrite Hm. naive_solver.
      + destruct (generateGraph_adds t nfa2 e (finalActions c) Ht Hok2 He2 (vertex_ok_actions _ Hc))
          as (e3 & nfa3 & -> & He3 & Hadds3 & Hreads3). run_option.
        assert (vertex_size c < vertex_size v)%nat as Hsize.
        { rewrite (vertex_size_edges v). pose proof (edges_size_elem (t, c) (edges v) Htc). simpl in *. lia. }
        destruct (generateNFAForSubtree_adds fuel nfa3 e3 c Hc (ad_ok _ _ _ Hadds3) He3) as (nfa4 & -> & Hadds4); [lia|].
        run_option. destruct (IH nfa4 Hin' (ad_ok _ _ _ Hadds4)) as (nfa5 & -> & Hadds5).
        { pose proof (ad_size _ _ _ Hadds3). pose proof (ad_size _ _ _ Hadds4). lia. }
        exists nfa5. split; [done|].
        eapply adds_ext; [|exact (adds_trans _ _ _ _ _ (adds_trans _ _ _ _ _ Hadds3 Hadds4) Hadds5)]. intros w a. cbv beta.
        assert (after nfa3 e3 (fun w => content fixed_prefix c w a) w <->
          after nfa2 e (concatenation (language t) (fun w => content fixed_prefix c w a)) w) as ->.
        { unfold after. rewrite <- concatenation_assoc. by apply concatenation_ext. }
        assert (after_list nfa4 e it w a <-> after_list nfa2 e it w a) as ->.
        { apply concatenation_ext; [|done]. intros w'. rewrite (ad_reads _ _ _ Hadds4), (ad_reads _ _ _ Hadds3); [done..|].
          pose proof (ad_size _ _ _ Hadds3). lia. }
        assert (after_list nfa2 e ((t, c) :: it) w a <-> concatenation (reads nfa2 e)
          (fun w => edge_content fixed_prefix (t, c) w a \/ list_content fixed_prefix it w a) w) as ->.
        { apply concatenation_ext; [done|]. intros w'. rewrite list_content_cons. unfold fixed_prefix at 1. cbn [snd].
          rewrite Hm. cbn [negb]. tauto. }
        unfold after_list, after. rewrite concatenation_or. unfold edge_content. cbn [fst snd].
        by rewrite concatenation_or, concatenation_and. }
  destruct (Hloop (edges_begin v) nfa1) as (nfa & -> & Hadds2); [|apply Hadds|done|].
  { intros x Hx. by rewrite edges_begin_perm in Hx. }
  exists nfa. split; [done|]. split; [apply Hadds2|]. intros w a.
  rewrite (ad_triggers _ _ _ Hadds2), (ad_triggers _ _ _ Hadds). unfold after_list, after.
  assert (forall L, concatenation (reads newNFA 0) L w <-> L w) as Hempty.
  { intros L. rewrite <- (concatenation_empty_l L w). apply concatenation_ext; [apply newNFA_reads|done]. }
  pose proof (newNFA_triggers w a) as Hno. change (m_root newNFA) with 0. rewrite Hempty.
  assert (concatenation (reads nfa1 e) (fun w => list_content fixed_prefix (edges_begin v) w a) w <->
    concatenation (prefix_language P) (fun w => content fixed_prefix v w a) w) as ->; [|tauto].
  apply concatenation_ext; intros w'.
  - rewrite Hreads. unfold after. rewrite <- (concatenation_empty_l (prefix_language P) w').
    apply concatenation_ext; [apply newNFA_reads|done].
  - rewrite content_list. apply list_content_perm, edges_begin_perm.
Qed.

(** ** The loop over the vertices with a variable prefix *)

(** What the automata of the edge [e] trigger, after the prefix [P]. *)
Definition edge_full (P : list (Term * PrefixTreeVertex)) (e : Term * PrefixTreeVertex) (w : list N) (a : N) : Prop :=
  prefix_actions (P ++ [e]) w a \/ concatenation (prefix_language (P ++ [e])) (fun w => content all_vertices e.2 w a) w.

Definition variable_full (P : list (Term * PrefixTreeVertex)) (it : list (Term * PrefixTreeVertex)) (w : list N) (a : N) : Prop :=
  exists e, e ∈ it /\ inVariableLengthPrefix e.2 = true /\ edge_full P e w a.

Definition some_trigger (nfas : list NFA) (w : list N) (a : N) : Prop := exists nfa, nfa ∈ nfas /\ triggers nfa w a.

Lemma some_trigger_app nfas1 nfas2 w a : some_trigger (nfas1 ++ nfas2) w a <-> some_trigger nfas1 w a \/ some_trigger nfas2 w a.
Proof. unfold some_trigger. setoid_rewrite elem_of_app. naive_solver. Qed.

Lemma needToGenerate_false v : needToGenerate v = false ->
  (edges v = [] -> finalActions v = []) /\ forall e, e ∈ edges v -> inVariableLengthPrefix e.2 = true.
Proof.
  intros [H1 H2]%orb_false_iff. split.
  - intros Hnil. rewrite bool_decide_true in H1 by done. cbn in H1. apply negb_false_iff in H1. by apply bool_decide_eq_true in H1.
  - intros e He. destruct (inVariableLengthPrefix e.2) eqn:E; [done|]. exfalso.
    apply not_true_iff_false in H2. apply H2. apply existsb_exists. exists e. split; [|by rewrite E].
    apply list_elem_of_In. by rewrite edges_begin_perm.
Qed.

Lemma needToGenerate_true v : needToGenerate v = true -> finalActions v <> [] \/ edges v <> [].
Proof.
  intros [[H1 H2]%andb_true_iff|H1]%orb_true_iff.
  - left. apply negb_true_iff in H2. by eapply bool_decide_eq_false.
  - right. apply existsb_exists in H1 as (e & He%list_elem_of_In & _). rewrite edges_begin_perm in He.
    intros E. rewrite E in He. by apply not_elem_of_nil in He.
Qed.

(** All that is below a vertex is below its marked edges, or in its own automaton. *)
Lemma vertex_total P v w a : vertex_ok v -> (edges v = [] -> finalActions v = [] -> P = []) ->
  variable_full P (edges v) w a \/
    (needToGenerate v = true /\
     (prefix_actions P w a \/ concatenation (prefix_language P) (fun w => content fixed_prefix v w a) w)) <->
  prefix_actions P w a \/ concatenation (prefix_language P) (fun w => content all_vertices v w a) w.
Proof.
  intros Hv Hleaf.
  assert (forall e w, e ∈ edges v -> (a ∈ finalActions e.2 /\ prefix_language (P ++ [e]) w) \/
      concatenation (prefix_language (P ++ [e])) (fun w => content all_vertices e.2 w a) w ->
      concatenation (prefix_language P) (fun w => content all_vertices v w a) w) as Hin.
  { clear w. intros [t c] w He [[Ha (w1 & w2 & -> & Hw1 & Hw2)%prefix_language_snoc]|
      (w12 & w3 & -> & (w1 & w2 & -> & Hw1 & Hw2)%prefix_language_snoc & Hw3)].
    - exists w1, w2. split_and!; [done..|]. by eapply content_here.
    - exists w1, (w2 ++ w3). rewrite app_assoc. split_and!; [done..|]. by eapply content_below. }
  split.
  - intros [(e & He & _ & [[?|?]%prefix_actions_snoc|?])|[_ [?|(w1 & w2 & -> & ? & Hc)]]].
    + by left.
    + right. eapply Hin; [done|by left].
    + right. eapply Hin; [done|by right].
    + by left.
    + right. exists w1, w2. split_and!; [done..|]. clear -Hc. induction Hc; [by eapply content_here|by eapply content_below].
  - intros [Hp|(w1 & w2 & -> & Hw1 & Hc)].
    + destruct (needToGenerate v) eqn:En; [by right; split; [|left]|]. left. apply needToGenerate_false in En as [Hfin Hall].
      destruct (edges v) as [|e es] eqn:Ees; [rewrite Hleaf in Hp by auto; done|].
      exists e. split; [by left|]. split; [apply Hall; by left|]. left. apply prefix_actions_snoc. by left.
    + apply content_list in Hc as ([t c] & He & _ & Hc). destruct (vertex_ok_elem _ _ _ Hv He) as (_ & Hcok & _ & _).
      destruct (inVariableLengthPrefix c) eqn:Em.
      * left. exists (t, c). split_and!; [done..|]. destruct Hc as [[Ha Hl]|(w3 & w4 & -> & Hl & Hc)].
        -- left. apply prefix_actions_snoc. right. split; [done|]. apply prefix_language_snoc. by exists w1, w2.
        -- right. exists (w1 ++ w3), w4. rewrite app_assoc. split_and!; [done| |done]. apply prefix_language_snoc. by exists w1, w3.
      * right. assert (fixed_prefix c = true) as Hfix by (unfold fixed_prefix; by rewrite Em). split.
        -- destruct (needToGenerate v) eqn:En; [done|]. apply needToGenerate_false in En as [_ Hall].
           pose proof (Hall _ He) as Hm. cbn in Hm. congruence.
        -- right. exists w1, w2. split_and!; [done..|]. apply content_list. exists (t, c). split_and!; [done..|].
           destruct Hc as [?|(w3 & w4 & -> & Hl & Hc)]; [by left|]. right. exists w3, w4. split_and!; [done..|].
           by apply fixed_content.
Qed.

Definition forest_turns (fuel k : nat) (s s' : forest_state) : Prop :=
  forall more, forest_loop (k + S more) fuel s = forest_loop (S more) fuel s'.

(** The turns for the edges that an iterator has left. *)
Definition forest_spec (v : PrefixTreeVertex) : Prop :=
  vertex_ok v -> forall fuel it P rest nfas, (forall e, e ∈ it -> e ∈ edges v) ->
  stack_prefix (rev rest) P -> Forall edge_ok P -> (2 * vertex_size v < fuel)%nat ->
  exists k new, (k <= 2 * edges_size it)%nat /\ Forall nfa_ok new /\
    (forall w a, some_trigger new w a <-> variable_full P it w a) /\
    forest_turns fuel k (mkActiveSubtree v it :: rest, nfas) (mkActiveSubtree v [] :: rest, nfas ++ new).

Lemma forest_turns_more fuel k s s' more : forest_turns fuel k s s' -> (0 < more)%nat ->
  forest_loop (k + more) fuel s = forest_loop more fuel s'.
Proof. intros Ht Hm. destruct more as [|more]; [lia|]. apply Ht. Qed.

(** The end of a vertex: its own automaton. *)
Lemma finish_vertex fuel v P rest nfas :
  vertex_ok v -> stack_prefix (rev rest) P -> Forall edge_ok P -> (2 * vertex_size v < fuel)%nat ->
  exists new, Forall nfa_ok new /\
    (forall w a, some_trigger new w a <-> needToGenerate v = true /\
       (prefix_actions P w a \/ concatenation (prefix_language P) (fun w => content fixed_prefix v w a) w)) /\
    forest_step fuel (mkActiveSubtree v [] :: rest, nfas) =
      match rest with
      | [] => Some (Finished (Some (nfas ++ new)))
      | last :: rest => Some (Continue (mkActiveSubtree (as_vertex last) (tail (as_iterator last)) :: rest, nfas ++ new))
      end.
Proof.
  intros Hv Hstack HP Hfuel. unfold forest_step. cbn [as_iterator as_vertex next_variable].
  destruct (needToGenerate v) eqn:En.
  - destruct (generateNFA_spec fuel (rev rest) P v Hstack HP Hv Hfuel) as (nfa & -> & Hok & Htr). run_option.
    exists [nfa]. split; [by constructor|]. split; [|by destruct rest].
    intros w a. unfold some_trigger. setoid_rewrite list_elem_of_singleton. rewrite <- Htr. naive_solver.
  - run_option. exists []. rewrite app_nil_r. split; [constructor|]. split; [|by destruct rest].
    intros w a. split; [intros (? & Hin & _); by apply not_elem_of_nil in Hin|by intros [? _]].
Qed.

Lemma forest_spec_all v : forest_spec v.
Proof.
  induction v as [es acts m IH] using Vertex_nested_ind. intros Hok fuel it.
  induction it as [|[t c] it IHit]; intros P rest nfas Hin Hstack HP Hfuel.
  - exists 0%nat, []. split; [cbn; lia|]. split; [constructor|]. rewrite app_nil_r. split; [|done]. intros w a.
    split; intros (? & Hnil & _); by apply not_elem_of_nil in Hnil.
  - assert ((t, c) ∈ es) as Htc by (apply (Hin (t, c)); by left).
    destruct (vertex_ok_elem _ _ _ Hok Htc) as (Ht & Hc & _ & Hleaf).
    specialize (IHit P rest). assert (forall e, e ∈ it -> e ∈ es) as Hin' by (intros; apply Hin; by right).
    assert (vertex_size c < vertex_size (Vertex es acts m))%nat as Hsize.
    { rewrite (vertex_size_edges (Vertex es acts m)). pose proof (edges_size_elem (t, c) es Htc). simpl in *. lia. }
    destruct (inVariableLengthPrefix c) eqn:Em.
    + rewrite Forall_forall in IH. specialize (IH (t, c) Htc Hc fuel (edges_begin c) (P ++ [(t, c)])
        (mkActiveSubtree (Vertex es acts m) ((t, c) :: it) :: rest) nfas).
      assert (stack_prefix (rev (mkActiveSubtree (Vertex es acts m) ((t, c) :: it) :: rest)) (P ++ [(t, c)])) as Hstack'.
      { cbn [rev]. apply Forall2_app; [done|]. by repeat constructor. }
      assert (Forall edge_ok (P ++ [(t, c)])) as HP' by (apply Forall_app; split; [done|]; by repeat constructor).
      destruct IH as (k & new & Hk & Hnew & Htr & Hturns); [|done|done|cbn [snd]; lia|].
      { intros e He. by rewrite edges_begin_perm in He. }
      destruct (finish_vertex fuel c (P ++ [(t, c)]) (mkActiveSubtree (Vertex es acts m) ((t, c) :: it) :: rest) (nfas ++ new) Hc Hstack' HP')
        as (own & Hown & Htrown & Hstep); [lia|].
      destruct (IHit ((nfas ++ new) ++ own) Hin' Hstack HP Hfuel) as (k2 & new2 & Hk2 & Hnew2 & Htr2 & Hturns2).
      exists (1 + k + 1 + k2)%nat, (new ++ own ++ new2). split; [|split; [|split]].
      * rewrite edges_begin_size in Hk. change (edges_size ((t, c) :: it)) with (vertex_size c + edges_size it)%nat.
        rewrite (vertex_size_edges c). lia.
      * by rewrite !Forall_app.
      * intros w a. rewrite !some_trigger_app, Htr, Htrown, Htr2.
        assert (variable_full (P ++ [(t, c)]) (edges_begin c) w a <-> variable_full (P ++ [(t, c)]) (edges c) w a) as ->
          by (unfold variable_full; by setoid_rewrite edges_begin_perm).
        rewrite <- Logic.or_assoc, (vertex_total (P ++ [(t, c)]) c w a Hc) by (intros Hnil Hfin; by destruct (Hleaf Hnil)).
        unfold variable_full at 2. setoid_rewrite elem_of_cons. unfold edge_full. split.
        -- intros [?|(e & ? & ? & ?)]; [exists (t, c); cbn; auto|exists e; auto].
        -- intros (e & [->|?] & ? & ?); [by left|right; exists e; auto].
      * intros more. replace (1 + k + 1 + k2 + S more)%nat with (S (k + (S (k2 + S more)))) by lia.
        cbn [forest_loop]. unfold forest_step at 1. cbn [as_iterator as_vertex next_variable]. rewrite Em. run_option.
        cbn [snd] in Hturns. rewrite Hturns. cbn [forest_loop]. rewrite Hstep. run_option. cbn [as_vertex as_iterator tail].
        rewrite Hturns2. by rewrite <- !app_assoc.
    + destruct (IHit nfas Hin' Hstack HP Hfuel) as (k2 & new2 & Hk2 & Hnew2 & Htr2 & Hturns2).
      exists k2, new2. split; [change (edges_size ((t, c) :: it)) with (vertex_size c + edges_size it)%nat; lia|].
      split; [done|]. split.
      * intros w a. rewrite Htr2. unfold variable_full. setoid_rewrite elem_of_cons. split; [naive_solver|].
        intros (e & [->|?] & Hm & ?); [cbn in Hm; congruence|eauto].
      * intros more. rewrite <- Hturns2. replace (k2 + S more)%nat with (S (k2 + more)) by lia. cbn [forest_loop].
        assert (forest_step fuel (mkActiveSubtree (Vertex es acts m) ((t, c) :: it) :: rest, nfas) =
          forest_step fuel (mkActiveSubtree (Vertex es acts m) it :: rest, nfas)) as ->; [|done].
        unfold forest_step. cbn [as_iterator as_vertex next_variable]. by rewrite Em.
Qed.

Lemma createNFAs_result (root : PrefixTreeVertex) (fuel : nat) :
  vertex_ok root -> (2 * vertex_size root < fuel)%nat ->
  exists nfas, createNFAs fuel root = Some (Finished (Some nfas)) /\ Forall nfa_ok nfas /\
    forall w a, Forall (fun c => c < 128) w ->
      (exists nfa, nfa ∈ nfas /\ accepts nfa w a) <->
      exists q, q <> [] /\ Forall term_ok q /\ contains root q a /\ sequence_language q w.
Proof.
  intros Hok Hfuel. destruct (forest_spec_all root Hok fuel (edges_begin root) [] [] []) as (k & new & Hk & Hnew & Htr & Hturns).
  { intros e He. by rewrite edges_begin_perm in He. }
  { constructor. }
  { constructor. }
  { done. }
  destruct (finish_vertex fuel root [] [] ([] ++ new) Hok) as (own & Hown & Htrown & Hstep); [constructor|constructor|done|].
  exists (new ++ own). split; [|split].
  - unfold createNFAs. rewrite edges_begin_size in Hk. rewrite vertex_size_edges in Hfuel.
    replace fuel with (k + S (fuel - k - 1))%nat at 1 by lia. rewrite Hturns. cbn [forest_loop]. by rewrite Hstep.
  - by apply Forall_app.
  - intros w a Hw. transitivity (some_trigger (new ++ own) w a).
    + unfold some_trigger. by setoid_rewrite (triggers_accepts _ w a Hw).
    + rewrite some_trigger_app, Htr, Htrown, <- content_contains by done.
      assert (variable_full [] (edges_begin root) w a <-> variable_full [] (edges root) w a) as ->
        by (unfold variable_full; by setoid_rewrite edges_begin_perm).
      rewrite (vertex_total [] root w a Hok) by done. cbn [prefix_actions]. unfold prefix_language. cbn [fmap list_fmap].
      change (sequence_language []) with (fun w : list N => w = []). rewrite concatenation_empty_l. tauto.
Qed.

(** C7: [createNFAs] on a prefix tree ends without a crash, within twice as many turns as the tree
    has vertices in each of its loops.  The automata it returns are well formed, and
    together they trigger on an input exactly the actions of the patterns that the
    tree holds and whose language has the input: no subtree is lost between the
    fixed and the variable length prefixes, and none is added. *)
Theorem createNFAs_correct (root : PrefixTreeVertex) (fuel : nat) :
  vertex_ok root -> (2 * vertex_size root < fuel)%nat ->
  exists nfas, createNFAs fuel root = Some (Finished (Some nfas)) /\ Forall nfa_ok nfas /\
    forall w a, Forall (fun c => c < 128) w ->
      (exists nfa, nfa ∈ nfas /\ accepts nfa w a) <->
      exists q, q <> [] /\ Forall term_ok q /\ contains root q a /\ sequence_language q w.
Proof. apply createNFAs_result. Qed.
End Generation.

(** ** An example: [ab*(ab?)+] and [a] *)

Definition example_root : PrefixTreeVertex :=
  default newVertex (root ← addPattern newVertex 5 example_pattern; addPattern root 6 [example_character 97]).

Lemma example_root_ok : vertex_ok example_root.
Proof.
  destruct (addPattern_adds newVertex 5 example_pattern newVertex_ok) as (root1 & E1 & Hok1 & _);
    [repeat constructor; by vm_compute|done|done|].
  destruct (addPattern_adds root1 6 [example_character 97] Hok1) as (root2 & E2 & Hok2 & _);
    [repeat constructor; by vm_compute|done|done|].
  unfold example_root. rewrite E1. run_option. by rewrite E2.
Qed.

Lemma createNFAs_correct_witness :
  exists nfas, createNFAs (H := insertion_order) 20 example_root = Some (Finished (Some nfas)) /\ Forall nfa_ok nfas /\
    forall w a, Forall (fun c => c < 128) w ->
      (exists nfa, nfa ∈ nfas /\ accepts nfa w a) <->
      exists q, q <> [] /\ Forall term_ok q /\ contains example_root q a /\ sequence_language q w.
Proof.
  apply (createNFAs_correct (H := insertion_order) example_root 20).
  - apply example_root_ok.
  - vm_compute. lia.
Defined.
