(* ===== verification/URLFilterParser.v ===== *)
(** * [WebCore/contentextensions/URLFilterParser.h] and [URLFilterParser.cpp]

    The delegate that YARR, the parser of the regular expressions, calls for what
    it finds in the URL filter of a rule, and the simplification of the terms it
    collects.  YARR is not part of the sources: it is the interface [Yarr]. *)

From Stdlib Require Import String.
From S2P Require Import BitVector.
From S2P Require Import Prelude ASCII Term CombinedURLFilters.

#[local] Open Scope list_scope.

(** ** The interface of YARR *)

(** The calls of the delegate. *)
Inductive event :=
| AtomPatternCharacter (character : N)
| AtomBuiltInCharacterClass (builtInCharacterClassID : N) (inverted : bool)
| QuantifyAtom (minimum maximum : N) (greedy : bool)
| AtomBackReference (subpatternId : N)
| AssertionBOL
| AssertionEOL
| AssertionWordBoundary (inverted : bool)
| AtomCharacterClassBegin (inverted : bool)
| AtomCharacterClassAtom (character : N)
| AtomCharacterClassRange (a b : N)
| AtomCharacterClassEnd
| AtomCharacterClassBuiltIn (builtInCharacterClassID : N) (inverted : bool)
| AtomParenthesesSubpatternBegin (capture : bool)
| AtomParentheticalAssertionBegin (inverted : bool)
| AtomParenthesesEnd
| EventDisjunction.

(** The constants of YARR, and [parse]: the calls it makes for a pattern, and whether
    it returns no error. *)
Class Yarr := {
  quantifyInfinite : N;
  NewlineClassID : N;
  yarr_parse : list N -> list event * bool;
  quantifyInfinite_large : 1 < quantifyInfinite
}.

(** ** Data *)

(** WebCore/contentextensions/URLFilterParser.h:41-56 [URLFilterParser::ParseStatus] *)
Inductive ParseStatus :=
| Ok
| MatchesEverything
| NonASCII
| UnsupportedCharacterClass
| BackReference
| MisplacedStartOfLine
| WordBoundary
| AtomCharacter
| Group
| Disjunction
| MisplacedEndOfLine
| EmptyPattern
| YarrError
| InvalidQuantifier.

#[global] Instance ParseStatus_eq_dec : EqDecision ParseStatus.
Proof. solve_decision. Defined.

(** WebCore/contentextensions/URLFilterParser.cpp:319-327 [PatternParser] *)
Record PatternParser := mkPatternParser {
  m_patternIsCaseSensitive : bool;
  m_openGroups : list Term;
  m_sunkTerms : list Term;
  m_floatingTerm : Term;
  m_hasBeginningOfLineAssertion : bool;
  m_hasProcessedEndOfLineAssertion : bool;
  m_parseStatus : ParseStatus
}.

(** WebCore/contentextensions/URLFilterParser.cpp:43-47 [PatternParser::PatternParser] *)
Definition newPatternParser (patternIsCaseSensitive : bool) : PatternParser :=
  mkPatternParser patternIsCaseSensitive [] [] newTerm false false Ok.

Definition with_floating (p : PatternParser) (t : Term) : PatternParser :=
  mkPatternParser (m_patternIsCaseSensitive p) (m_openGroups p) (m_sunkTerms p) t
    (m_hasBeginningOfLineAssertion p) (m_hasProcessedEndOfLineAssertion p) (m_parseStatus p).

Definition with_sunk (p : PatternParser) (terms : list Term) : PatternParser :=
  mkPatternParser (m_patternIsCaseSensitive p) (m_openGroups p) terms (m_floatingTerm p)
    (m_hasBeginningOfLineAssertion p) (m_hasProcessedEndOfLineAssertion p) (m_parseStatus p).

Definition with_groups (p : PatternParser) (groups : list Term) : PatternParser :=
  mkPatternParser (m_patternIsCaseSensitive p) groups (m_sunkTerms p) (m_floatingTerm p)
    (m_hasBeginningOfLineAssertion p) (m_hasProcessedEndOfLineAssertion p) (m_parseStatus p).

(** ** Operations *)

(** WebCore/contentextensions/URLFilterParser.cpp:238-241 [PatternParser::hasError] *)
Definition hasError (p : PatternParser) : bool := negb (bool_decide (m_parseStatus p = Ok)).

(** WebCore/contentextensions/URLFilterParser.cpp:243-249 [PatternParser::fail] *)
Definition fail (p : PatternParser) (reason : ParseStatus) : PatternParser :=
  if hasError p then p
  else mkPatternParser (m_patternIsCaseSensitive p) (m_openGroups p) (m_sunkTerms p) (m_floatingTerm p)
         (m_hasBeginningOfLineAssertion p) (m_hasProcessedEndOfLineAssertion p) reason.

(** WebCore/contentextensions/URLFilterParser.cpp:251-273 [PatternParser::sinkFloatingTermIfNecessary] *)
Definition sinkFloatingTermIfNecessary (p : PatternParser) : option PatternParser :=
  if negb (isValid (m_floatingTerm p)) then Some p
  else if m_hasProcessedEndOfLineAssertion p then Some (with_floating (fail p MisplacedEndOfLine) newTerm)
  else
    endOfLine ← isEndOfLineAssertion (m_floatingTerm p);
    let p := mkPatternParser (m_patternIsCaseSensitive p) (m_openGroups p) (m_sunkTerms p) (m_floatingTerm p)
               (m_hasBeginningOfLineAssertion p) ((endOfLine : bool) || m_hasProcessedEndOfLineAssertion p)
               (m_parseStatus p) in
    match last (m_openGroups p) with
    | Some group =>
        let groups := <[(length (m_openGroups p) - 1)%nat := extendGroupSubpattern group (m_floatingTerm p)]> (m_openGroups p) in
        Some (with_floating (with_groups p groups) newTerm)
    | None => Some (with_floating (with_sunk p (m_sunkTerms p ++ [m_floatingTerm p])) newTerm)
    end.

(** WebCore/contentextensions/URLFilterParser.cpp:79-94 [PatternParser::atomPatternCharacter] *)
Definition atomPatternCharacter (p : PatternParser) (character : N) : option PatternParser :=
  if hasError p then Some p
  else if negb (isASCII character) then Some (fail p NonASCII)
  else
    p ← sinkFloatingTermIfNecessary p;
    t ← Term_character (wrap8 character) (m_patternIsCaseSensitive p);
    Some (with_floating p t).

(** WebCore/contentextensions/URLFilterParser.cpp:96-108 [PatternParser::atomBuiltInCharacterClass] *)
Definition atomBuiltInCharacterClass `{Yarr} (p : PatternParser) (builtInCharacterClassID : N) (inverted : bool)
    : option PatternParser :=
  if hasError p then Some p
  else
    p ← sinkFloatingTermIfNecessary p;
    if (builtInCharacterClassID =? NewlineClassID) && inverted then
      t ← Term_universal; Some (with_floating p t)
    else Some (fail p UnsupportedCharacterClass).

(** WebCore/contentextensions/URLFilterParser.cpp:110-125 [PatternParser::quantifyAtom] *)
Definition quantifyAtom `{Yarr} (p : PatternParser) (minimum maximum : N) : option PatternParser :=
  if hasError p then Some p
  else if (minimum =? 0) && (maximum =? 1) then Some (with_floating p (quantify (m_floatingTerm p) ZeroOrOne))
  else if (minimum =? 0) && (maximum =? quantifyInfinite) then
    Some (with_floating p (quantify (m_floatingTerm p) ZeroOrMore))
  else if (minimum =? 1) && (maximum =? quantifyInfinite) then
    Some (with_floating p (quantify (m_floatingTerm p) OneOrMore))
  else Some (fail p InvalidQuantifier).

(** WebCore/contentextensions/URLFilterParser.cpp:127-130 [PatternParser::atomBackReference] *)
Definition atomBackReference (p : PatternParser) : option PatternParser := Some (fail p BackReference).

(** WebCore/contentextensions/URLFilterParser.cpp:132-143 [PatternParser::assertionBOL] *)
Definition assertionBOL (p : PatternParser) : option PatternParser :=
  if hasError p then Some p
  else if isValid (m_floatingTerm p) || negb (bool_decide (m_sunkTerms p = [])) || negb (bool_decide (m_openGroups p = []))
  then Some (fail p MisplacedStartOfLine)
  else Some (mkPatternParser (m_patternIsCaseSensitive p) (m_openGroups p) (m_sunkTerms p) (m_floatingTerm p)
               true (m_hasProcessedEndOfLineAssertion p) (m_parseStatus p)).

(** WebCore/contentextensions/URLFilterParser.cpp:145-154 [PatternParser::assertionEOL] *)
Definition assertionEOL (p : PatternParser) : option PatternParser :=
  if hasError p then Some p
  else
    p ← sinkFloatingTermIfNecessary p;
    t ← Term_endOfLine;
    Some (with_floating p t).

(** WebCore/contentextensions/URLFilterParser.cpp:156-159 [PatternParser::assertionWordBoundary] *)
Definition assertionWordBoundary (p : PatternParser) : option PatternParser := Some (fail p WordBoundary).

(** WebCore/contentextensions/URLFilterParser.cpp:161-170 [PatternParser::atomCharacterClassBegin] *)
Definition atomCharacterClassBegin (p : PatternParser) (inverted : bool) : option PatternParser :=
  if hasError p then Some p
  else p ← sinkFloatingTermIfNecessary p; Some (with_floating p (Term_characterSet inverted)).

(** WebCore/contentextensions/URLFilterParser.cpp:172-180 [PatternParser::atomCharacterClassAtom] *)
Definition atomCharacterClassAtom (p : PatternParser) (character : N) : option PatternParser :=
  if hasError p then Some p
  else t ← addCharacter (m_floatingTerm p) character (m_patternIsCaseSensitive p); Some (with_floating p t).

(** WebCore/contentextensions/URLFilterParser.cpp:182-194 [PatternParser::atomCharacterClassRange] *)
Definition atomCharacterClassRange (p : PatternParser) (a b : N) : option PatternParser :=
  if hasError p then Some p
  else
    t ← foldM (fun t i => addCharacter t (wrap16 i) (m_patternIsCaseSensitive p)) (m_floatingTerm p) (for_range a (b + 1));
    Some (with_floating p t).

(** WebCore/contentextensions/URLFilterParser.cpp:196-199 [PatternParser::atomCharacterClassEnd] *)
Definition atomCharacterClassEnd (p : PatternParser) : option PatternParser := Some p.

(** WebCore/contentextensions/URLFilterParser.cpp:201-204 [PatternParser::atomCharacterClassBuiltIn] *)
Definition atomCharacterClassBuiltIn (p : PatternParser) : option PatternParser := Some (fail p AtomCharacter).

(** WebCore/contentextensions/URLFilterParser.cpp:206-214 [PatternParser::atomParenthesesSubpatternBegin] *)
Definition atomParenthesesSubpatternBegin (p : PatternParser) : option PatternParser :=
  if hasError p then Some p
  else p ← sinkFloatingTermIfNecessary p; Some (with_groups p (m_openGroups p ++ [Term_group])).

(** WebCore/contentextensions/URLFilterParser.cpp:216-219 [PatternParser::atomParentheticalAssertionBegin] *)
Definition atomParentheticalAssertionBegin (p : PatternParser) : option PatternParser := Some (fail p Group).

(** WebCore/contentextensions/URLFilterParser.cpp:221-230 [PatternParser::atomParenthesesEnd] *)
Definition atomParenthesesEnd (p : PatternParser) : option PatternParser :=
  if hasError p then Some p
  else
    p ← sinkFloatingTermIfNecessary p;
    group ← last (m_openGroups p);
    Some (with_floating (with_groups p (removelast (m_openGroups p))) group).

(** WebCore/contentextensions/URLFilterParser.cpp:232-235 [PatternParser::disjunction] *)
Definition disjunction (p : PatternParser) : option PatternParser := Some (fail p Disjunction).

(** The delegate. *)
Definition handle `{Yarr} (p : PatternParser) (e : event) : option PatternParser :=
  match e with
  | AtomPatternCharacter character => atomPatternCharacter p character
  | AtomBuiltInCharacterClass id inverted => atomBuiltInCharacterClass p id inverted
  | QuantifyAtom minimum maximum _ => quantifyAtom p minimum maximum
  | AtomBackReference _ => atomBackReference p
  | AssertionBOL => assertionBOL p
  | AssertionEOL => assertionEOL p
  | AssertionWordBoundary _ => assertionWordBoundary p
  | AtomCharacterClassBegin inverted => atomCharacterClassBegin p inverted
  | AtomCharacterClassAtom character => atomCharacterClassAtom p character
  | AtomCharacterClassRange a b => atomCharacterClassRange p a b
  | AtomCharacterClassEnd => atomCharacterClassEnd p
  | AtomCharacterClassBuiltIn _ _ => atomCharacterClassBuiltIn p
  | AtomParenthesesSubpatternBegin _ => atomParenthesesSubpatternBegin p
  | AtomParentheticalAssertionBegin _ => atomParentheticalAssertionBegin p
  | AtomParenthesesEnd => atomParenthesesEnd p
  | EventDisjunction => disjunction p
  end.

(** *** The simplification of the terms *)

(** [Term(Term::UniversalTransition)], quantified by [ZeroOrMore] *)
Definition canonicalDotStar : option Term := t ← Term_universal; Some (quantify t ZeroOrMore).

(** WebCore/contentextensions/URLFilterParser.cpp:285-302 [PatternParser::simplifySunkTerms], the loop
    on the terms from [termIndex] on *)
Fixpoint canonicalize (canonicalDotStar : Term) (isAfterDotStar : bool) (terms : list Term) : list Term :=
  match terms with
  | [] => []
  | term :: terms =>
      if isAfterDotStar && isKnownToMatchAnyString term then canonicalize canonicalDotStar isAfterDotStar terms
      else if isKnownToMatchAnyString term then canonicalDotStar :: canonicalize canonicalDotStar true terms
      else term :: canonicalize canonicalDotStar false terms
  end.

(** WebCore/contentextensions/URLFilterParser.cpp:315-316 [PatternParser::simplifySunkTerms], the last
    loop, on the terms with the last one first *)
Fixpoint remove_irrelevant (terms : list Term) : option (list Term) :=
  match terms with
  | [] => Some []
  | last :: terms =>
      b ← matchesAtLeastOneCharacter last;
      if (b : bool) then Some (last :: terms) else remove_irrelevant terms
  end.

(** WebCore/contentextensions/URLFilterParser.cpp:275-317 [PatternParser::simplifySunkTerms], from the
    terms and the assertion at their beginning *)
Definition simplify (hasBeginningOfLineAssertion : bool) (terms : list Term) : option (list Term) :=
  if bool_decide (terms = []) then Some []
  else
    dotStar ← canonicalDotStar;
    let terms := canonicalize dotStar false terms in
    first ← head terms;
    let terms := if negb hasBeginningOfLineAssertion && negb (isKnownToMatchAnyString first) then dotStar :: terms else terms in
    end_ ← last terms;
    terms ← (if (2 <? length terms)%nat then
               endOfLine ← isEndOfLineAssertion end_;
               if (endOfLine : bool) then
                 beforeLast ← terms !! (length terms - 2)%nat;
                 if isKnownToMatchAnyString beforeLast then Some (take (length terms - 2) terms) else Some terms
               else Some terms
             else Some terms);
    end_ ← last terms;
    endOfLine ← isEndOfLineAssertion end_;
    if (endOfLine : bool) then Some terms
    else terms ← remove_irrelevant (rev terms); Some (rev terms).

(** WebCore/contentextensions/URLFilterParser.cpp:275-317 [PatternParser::simplifySunkTerms] *)
Definition simplifySunkTerms (p : PatternParser) : option PatternParser :=
  terms ← simplify (m_hasBeginningOfLineAssertion p) (m_sunkTerms p); Some (with_sunk p terms).

(** WebCore/contentextensions/URLFilterParser.cpp:58-65 [PatternParser::finalize], the loop *)
Fixpoint matchesEverything (terms : list Term) : option bool :=
  match terms with
  | [] => Some true
  | term :: terms => b ← matchesAtLeastOneCharacter term; if (b : bool) then Some false else matchesEverything terms
  end.

(** WebCore/contentextensions/URLFilterParser.cpp:49-72 [PatternParser::finalize] *)
Definition finalize (p : PatternParser) (patternId : N) (combinedURLFilters : PrefixTreeVertex)
    : option (PatternParser * PrefixTreeVertex) :=
  if hasError p then Some (p, combinedURLFilters)
  else
    p ← sinkFloatingTermIfNecessary p;
    p ← simplifySunkTerms p;
    everything ← matchesEverything (m_sunkTerms p);
    if (everything : bool) then Some (fail p MatchesEverything, combinedURLFilters)
    else
      combinedURLFilters ← addPattern combinedURLFilters patternId (m_sunkTerms p);
      Some (p, combinedURLFilters).

(** WebCore/contentextensions/URLFilterParser.cpp:339-358 [URLFilterParser::addPattern] *)
Definition parser_addPattern `{Yarr} (combinedURLFilters : PrefixTreeVertex) (pattern : list N)
    (patternIsCaseSensitive : bool) (patternId : N) : option (ParseStatus * PrefixTreeVertex) :=
  if negb (forallb isASCII pattern) then Some (NonASCII, combinedURLFilters)
  else if bool_decide (pattern = []) then Some (EmptyPattern, combinedURLFilters)
  else
    let '(events, parsed) := yarr_parse pattern in
    patternParser ← foldM handle (newPatternParser patternIsCaseSensitive) events;
    if (parsed : bool) then
      r ← finalize patternParser patternId combinedURLFilters;
      Some (m_parseStatus r.1, r.2)
    else Some (YarrError, combinedURLFilters).

(** WebCore/contentextensions/URLFilterParser.cpp:360-392 [URLFilterParser::statusString] *)
Definition statusString (status : ParseStatus) : string :=
  match status with
  | Ok => "Ok"
  | MatchesEverything => "Matches everything."
  | NonASCII => "Only ASCII characters are supported in pattern."
  | UnsupportedCharacterClass => "Character class is not supported."
  | BackReference => "Patterns cannot contain backreferences."
  | MisplacedStartOfLine => "Start of line assertion can only appear as the first term in a filter."
  | WordBoundary => "Word boundaries assertions are not supported yet."
  | AtomCharacter => "Builtins character class atoms are not supported yet."
  | Group => "Groups are not supported yet."
  | Disjunction => "Disjunctions are not supported yet."
  | MisplacedEndOfLine => "The end of line assertion must be the last term in an expression."
  | EmptyPattern => "Empty pattern."
  | YarrError => "Internal error in YARR."
  | InvalidQuantifier => "Arbitrary atom repetitions are not supported."
  end.
