(* ===== verification/PatternSemantics.v ===== *)
(** * What a pattern matches, and its simplification

    A pattern matches a URL when its terms read some prefix of the URL and of the
    end of the input that follows it.  [simplifySunkTerms] does not change the URLs
    that a pattern matches. *)

From S2P Require Import BitVector.
From S2P Require Import Prelude HashTable ASCII NFA Graph Term TermGraph CombinedURLFilters URLFilterParser.

(** ** Matching *)

(** The terms read a prefix of the URL [u] and of the end of the input. *)
Definition matches (terms : list Term) (u : list N) : Prop :=
  exists w w', u ++ [0] = w ++ w' /\ sequence_language terms w.

(** The terms without the end of the input. *)
Fixpoint nul_free (t : Term) : Prop :=
  match t with
  | TEmpty _ | TDeleted _ => True
  | TCharacterSet _ inverted characters =>
      mem characters 0 = false \/
      (inverted && (bitCount characters =? 0)) || (negb inverted && (bitCount characters =? 128)) = true
  | TGroup _ terms => foldr (fun t P => nul_free t /\ P) True terms
  end.

Definition plain (t : Term) : Prop := term_ok t /\ nul_free t.

(** The term of the end of the line. *)
Definition eol_term : Term := TCharacterSet One false (OutOfLine [1; 0]).

Lemma Term_endOfLine_eq : Term_endOfLine = Some eol_term.
Proof. by vm_compute. Qed.

(** ** The languages of the terms *)

Definition any_input (w : list N) : Prop := Forall input_char w.

Lemma any_star (L : list N -> Prop) w : (forall w, L w -> any_input w) -> star L w -> any_input w.
Proof. intros HL. induction 1; [constructor|]. apply Forall_app. split; [by apply HL|done]. Qed.

Lemma any_quantified q (L : list N -> Prop) w : (forall w, L w -> any_input w) -> quantified q L w -> any_input w.
Proof.
  intros HL. destruct q; cbn.
  - apply HL.
  - intros [->|?]; [constructor|by apply HL].
  - by apply any_star.
  - intros (w1 & w2 & -> & ? & ?). apply Forall_app. split; [by apply HL|by eapply any_star].
Qed.

Lemma any_sequence terms w :
  Forall (fun t => forall w, language t w -> any_input w) terms -> sequence_language terms w -> any_input w.
Proof.
  intros Hall. revert w. induction Hall as [|t terms Ht _ IH]; intros w; [intros ->; constructor|].
  intros (w1 & w2 & -> & ? & ?). apply Forall_app. split; [by apply Ht|by apply IH].
Qed.

Lemma nul_free_group q terms : nul_free (TGroup q terms) <-> Forall nul_free terms.
Proof. cbn. induction terms as [|t terms IH]; cbn; [by split; [constructor|]|]. by rewrite Forall_cons, IH. Qed.

Lemma nul_free_language t w : nul_free t -> language t w -> any_input w.
Proof.
  revert w. induction t as [q|q|q i cs|q terms IH] using Term_nested_ind; intros w Hn; try done.
  - apply any_quantified. intros w' (c & -> & Hc & Hm). apply Forall_singleton. split; [done|].
    cbn in Hn. destruct (_ || _); [done|]. destruct i; [tauto|]. intros ->. destruct Hn; congruence.
  - apply nul_free_group in Hn. apply any_quantified. intros w' Hw'. apply (any_sequence terms); [|done].
    rewrite Forall_forall in IH, Hn |- *. intros t Ht w2. apply IH; auto.
Qed.

Lemma universal_subset t w : isUniversalTransition t = true -> language t w -> any_input w.
Proof.
  revert w. induction t as [q|q|q i cs|q terms IH] using Term_nested_ind; intros w Hu; try done.
  - apply any_quantified. intros w' (c & -> & Hc). apply universal_set in Hc; [by apply Forall_singleton|done].
  - destruct terms as [|first [|]]; try done. apply any_quantified. intros w' Hw'. apply sequence_one in Hw'.
    apply Forall_inv in IH. by apply IH.
Qed.

Lemma known_subset t w : isKnownToMatchAnyString t = true -> language t w -> any_input w.
Proof.
  revert w. induction t as [q|q|q i cs|q terms IH] using Term_nested_ind; intros w Hk; try done.
  - apply andb_true_iff in Hk as [Hu _]. by apply universal_subset.
  - destruct terms as [|first [|]]; try done. apply any_quantified. intros w' Hw'. apply sequence_one in Hw'.
    apply Forall_inv in IH. cbn in Hk. destruct (isKnownToMatchAnyString first); [by apply IH|].
    destruct (isUniversalTransition first) eqn:Eu; [|done]. by eapply universal_subset.
Qed.

(** What is known to match any string matches just these. *)
Lemma known_language t w : isKnownToMatchAnyString t = true -> language t w <-> any_input w.
Proof. intros Hk. split; [by apply known_subset|]. by apply known_all. Qed.

Lemma concatenation_any w : concatenation any_input any_input w <-> any_input w.
Proof.
  split.
  - intros (w1 & w2 & -> & ? & ?). by apply Forall_app.
  - intros Hw. exists w, []. rewrite app_nil_r. split_and!; [done..|constructor].
Qed.

Lemma any_absorbs (L : list N -> Prop) w :
  concatenation any_input (concatenation any_input L) w <-> concatenation any_input L w.
Proof. rewrite <- concatenation_assoc. apply concatenation_ext; [apply concatenation_any|done]. Qed.

(** ** The questions on plain terms *)

Lemma isEndOfLineAssertion_total t : exists b, isEndOfLineAssertion t = Some b.
Proof. destruct t; cbn; try by eexists. destruct (_ =? _); [|by eexists]. rewrite get_spec. by eexists. Qed.

Lemma plain_not_eol t : nul_free t -> isEndOfLineAssertion t = Some false.
Proof.
  destruct t as [q|q|q i cs|q terms]; try done. cbn. intros Hn. destruct (bitCount cs =? 1) eqn:E; [|done]. rewrite get_spec.
  destruct Hn as [->|Hn]; [done|]. breflect. rewrite E in Hn. by destruct i.
Qed.

Lemma matchesAtLeastOneCharacter_total t : exists b, matchesAtLeastOneCharacter t = Some b.
Proof.
  induction t as [q|q|q i cs|q terms IH] using Term_nested_ind; cbn [matchesAtLeastOneCharacter];
    (destruct (_ || _); [by eexists|]).
  - by exists true.
  - by exists true.
  - destruct (isEndOfLineAssertion_total (TCharacterSet q i cs)) as [b ->]. run_option. destruct b; by eexists.
  - cbn [isEndOfLineAssertion]. run_option. induction IH as [|t terms [b Hb] _ IHt]; [by eexists|].
    rewrite Hb. run_option. destruct b; [by eexists|]. exact IHt.
Qed.

(** A plain term that need not match a character matches the empty word. *)
Lemma emptyable t : plain t -> matchesAtLeastOneCharacter t = Some false -> language t [].
Proof.
  intros [Hok Hn]. revert Hok Hn. induction t as [q|q|q i cs|q terms IH] using Term_nested_ind; intros Hok Hn Hm; try done.
  - destruct q; cbn [matchesAtLeastOneCharacter m_quantifier] in Hm.
    + rewrite (plain_not_eol (TCharacterSet One i cs) Hn) in Hm. vm_compute in Hm. congruence.
    + by left.
    + constructor.
    + rewrite (plain_not_eol (TCharacterSet OneOrMore i cs) Hn) in Hm. vm_compute in Hm. congruence.
  - assert (q = One \/ q = OneOrMore \/ language (TGroup q terms) []) as Hq
      by (destruct q; cbn; [by left|right; right; by left|right; right; constructor|right; by left]).
    assert (q = One \/ q = OneOrMore -> sequence_language terms []) as Hseq.
    { intros Hone. assert ((fix loop terms := match terms with
               | [] => Some false
               | term :: terms' => b ← matchesAtLeastOneCharacter term;
                                   if (b : bool) then Some true else loop terms'
               end) terms = Some false) as Hloop by (destruct Hone as [-> | ->]; exact Hm).
      apply term_ok_group in Hok as [_ Hok]. apply nul_free_group in Hn. clear Hm Hq Hone.
      induction IH as [|t terms Ht _ IHt]; [done|]. apply Forall_cons in Hok as [? ?], Hn as [? ?].
      exists [], []. destruct (matchesAtLeastOneCharacter t) as [[]|]; cbn in Hloop; try done.
      split_and!; [done|by apply Ht|by apply IHt]. }
    destruct Hq as [-> | [-> | ?]]; [by apply Hseq; left| |done].
    exists [], []. split_and!; [done|apply Hseq; by right|constructor].
Qed.

(** ** The canonical [.*] *)

Definition dot_star : Term := TCharacterSet ZeroOrMore false (OutOfLine [max64; max64]).

Lemma canonicalDotStar_eq : canonicalDotStar = Some dot_star.
Proof. by vm_compute. Qed.

Lemma dot_star_plain : plain dot_star.
Proof. split; [apply term_okb_spec; by vm_compute|]. right. by vm_compute. Qed.

Lemma dot_star_known : isKnownToMatchAnyString dot_star = true.
Proof. by vm_compute. Qed.

Lemma dot_star_language w : language dot_star w <-> any_input w.
Proof. apply known_language, dot_star_known. Qed.

Lemma sequence_cons t terms w :
  sequence_language (t :: terms) w <-> concatenation (language t) (sequence_language terms) w.
Proof. done. Qed.

Lemma sequence_app terms1 terms2 w :
  sequence_language (terms1 ++ terms2) w <-> concatenation (sequence_language terms1) (sequence_language terms2) w.
Proof.
  revert w. induction terms1 as [|t terms1 IH]; intros w; [symmetry; apply concatenation_empty_l|].
  cbn [app]. rewrite sequence_cons. rewrite (concatenation_ext _ (language t) _
    (concatenation (sequence_language terms1) (sequence_language terms2))) by done.
  by rewrite <- concatenation_assoc.
Qed.

(** Replacing the terms like [.*] and removing those that follow one. *)
Lemma canonicalize_spec terms :
  (forall w, sequence_language (canonicalize dot_star false terms) w <-> sequence_language terms w) /\
  (forall w, concatenation any_input (sequence_language (canonicalize dot_star true terms)) w <->
     concatenation any_input (sequence_language terms) w).
Proof.
  induction terms as [|t terms [IHf IHt]]; [done|].
  assert (isKnownToMatchAnyString t = true -> forall w,
    sequence_language (dot_star :: canonicalize dot_star true terms) w <-> sequence_language (t :: terms) w) as Hknown.
  { intros Hk w. rewrite !sequence_cons.
    rewrite (concatenation_ext _ any_input _ (sequence_language (canonicalize dot_star true terms))) by (done || apply dot_star_language).
    rewrite IHt. apply concatenation_ext; [|done]. intros. symmetry. by apply known_language. }
  split; intros w; cbn [canonicalize andb]; destruct (isKnownToMatchAnyString t) eqn:Hk.
  - by apply Hknown.
  - by apply concatenation_ext.
  - rewrite IHt. symmetry. rewrite (concatenation_ext _ any_input _ (concatenation any_input (sequence_language terms))).
    + apply any_absorbs.
    + done.
    + intros w'. apply concatenation_ext; [|done]. intros. by apply known_language.
  - apply concatenation_ext; [done|]. intros w'. by apply concatenation_ext.
Qed.

(** The terms of a line: plain terms, and perhaps the end of the line. *)
Definition line (terms : list Term) : Prop :=
  exists front, Forall plain front /\ (terms = front \/ terms = front ++ [eol_term]).

Lemma canonicalize_app d b terms1 : forall (b' : bool),
  (exists b2, forall terms2, canonicalize d b (terms1 ++ terms2) = canonicalize d b terms1 ++ canonicalize d b2 terms2).
Proof.
  revert b. induction terms1 as [|t terms1 IH]; intros b b'; [by exists b|]. cbn [app canonicalize].
  destruct (b && isKnownToMatchAnyString t); [apply IH; done|]. destruct (isKnownToMatchAnyString t).
  - destruct (IH true b') as [b2 Hb2]. exists b2. intros. by rewrite Hb2.
  - destruct (IH false b') as [b2 Hb2]. exists b2. intros. by rewrite Hb2.
Qed.

Lemma canonicalize_plain b terms : Forall plain terms -> Forall plain (canonicalize dot_star b terms).
Proof.
  intros Hp. revert b. induction Hp as [|t terms Ht _ IH]; intros b; cbn [canonicalize]; [constructor|].
  destruct (b && _); [apply IH|]. destruct (isKnownToMatchAnyString t); constructor; [apply dot_star_plain|apply IH|done|apply IH].
Qed.

Lemma canonicalize_line terms : line terms -> line (canonicalize dot_star false terms).
Proof.
  intros (front & Hfront & [-> | ->]).
  - exists (canonicalize dot_star false front). split; [by apply canonicalize_plain|by left].
  - destruct (canonicalize_app dot_star false front false) as [b ->]. exists (canonicalize dot_star false front).
    split; [by apply canonicalize_plain|]. right. f_equal. by destruct b; vm_compute.
Qed.

Lemma canonicalize_nonempty terms : terms <> [] -> canonicalize dot_star false terms <> [].
Proof. destruct terms as [|t terms]; [done|]. cbn. by destruct (isKnownToMatchAnyString t). Qed.

(** ** The simplification *)

Lemma matches_ext terms terms' u :
  (forall w, sequence_language terms w <-> sequence_language terms' w) -> matches terms u <-> matches terms' u.
Proof. intros Hl. unfold matches. split; intros (w & w' & ? & ?); exists w, w'; (split; [done|]); by apply Hl. Qed.

(** A last term that matches the empty word is irrelevant. *)
Lemma matches_drop terms t u : language t [] -> matches (terms ++ [t]) u <-> matches terms u.
Proof.
  intros Ht. split.
  - intros (w & w' & E & (w1 & w2 & -> & Hw1 & _)%sequence_app). exists w1, (w2 ++ w'). by rewrite E, app_assoc.
  - intros (w & w' & E & Hw). exists w, w'. split; [done|]. apply sequence_app. exists w, []. rewrite app_nil_r.
    split_and!; [done..|]. by apply sequence_one.
Qed.

Lemma remove_irrelevant_spec terms : Forall plain terms ->
  exists r, remove_irrelevant (rev terms) = Some (rev r) /\ Forall plain r /\
    forall u, matches r u <-> matches terms u.
Proof.
  induction terms as [|t terms IH] using rev_ind; intros Hp; [by exists []|].
  apply Forall_app in Hp as [Hp Ht%Forall_inv]. rewrite rev_app_distr. cbn [rev app remove_irrelevant].
  destruct (matchesAtLeastOneCharacter_total t) as [[] Hm]; rewrite Hm; run_option.
  - exists (terms ++ [t]). rewrite rev_app_distr. split; [done|]. split; [|done]. apply Forall_app. split; [done|by constructor].
  - destruct (IH Hp) as (r & -> & Hr & Hmr). exists r. split_and!; [done..|]. intros u. rewrite Hmr. symmetry.
    by apply matches_drop, emptyable.
Qed.

Lemma sequence_plain terms w : Forall plain terms -> sequence_language terms w -> any_input w.
Proof.
  intros Hp. apply any_sequence. eapply Forall_impl; [exact Hp|]. intros t [_ Hn] w'. by apply nul_free_language.
Qed.

Lemma eol_language w : language eol_term w <-> w = [0].
Proof.
  cbn [language eol_term quantified]. unfold set_matches. cbn [negb andb orb].
  replace (bitCount (OutOfLine [1; 0]) =? 128) with false by by vm_compute. split.
  - intros (c & -> & Hc & Hm). f_equal.
    assert (negb (mem (OutOfLine [1; 0]) c) || (c =? 0) = true) as Hb.
    { revert c Hc Hm. intros c Hc _. revert c Hc.
      apply (for_all_chars 128 (fun c => negb (mem (OutOfLine [1; 0]) c) || (c =? 0))). by vm_compute. }
    rewrite Hm in Hb. by apply N.eqb_eq.
  - intros ->. exists 0. by vm_compute.
Qed.

(** A last [.*$] is irrelevant. *)
Lemma matches_drop_dotstar_eol terms k u : Forall plain terms -> isKnownToMatchAnyString k = true -> any_input u ->
  matches (terms ++ [k; eol_term]) u <-> matches terms u.
Proof.
  intros Hp Hk Hu. split.
  - intros (w & w' & E & (w1 & w2 & -> & Hw1 & _)%sequence_app). exists w1, (w2 ++ w'). by rewrite E, app_assoc.
  - intros (w & w' & E & Hw). assert (exists w2, w' = w2 ++ [0] /\ u = w ++ w2) as (w2 & -> & ->).
    { destruct w' as [|x w'] using rev_ind.
      - rewrite app_nil_r in E. apply (sequence_plain terms) in Hw; [|done]. rewrite <- E in Hw.
        apply Forall_app in Hw as [_ [[_ ?] _]%Forall_cons]. done.
      - rewrite app_assoc in E. apply app_inj_tail in E as [-> <-]. by exists w'. }
    exists (w ++ w2 ++ [0]), []. rewrite app_nil_r, app_assoc. split; [done|]. rewrite <- app_assoc. apply sequence_app.
    exists w, (w2 ++ [0]). split_and!; [done..|]. apply Forall_app in Hu as [_ Hu]. exists w2, [0]. split_and!; [done| |].
    + by apply known_language.
    + apply sequence_one. by apply eol_language.
Qed.

(** The end of the simplification, from the terms with their first [.*]. *)
Definition trim (terms : list Term) : option (list Term) :=
  end_ ← last terms;
  terms ← (if (2 <? length terms)%nat then
             endOfLine ← isEndOfLineAssertion end_;
             if (endOfLine : bool) then
               beforeLast ← terms !! (length terms - 2)%nat;
               if isKnownToMatchAnyString beforeLast then Some (take (length terms - 2) terms) else Some terms
             else Some terms
           else Some terms);
  end_ ← last terms;
  endOfLine ← isEndOfLineAssertion end_;
  if (endOfLine : bool) then Some terms
  else terms ← remove_irrelevant (rev terms); Some (rev terms).

Lemma trim_plain terms : Forall plain terms -> terms <> [] ->
  exists terms', trim terms = Some terms' /\ Forall plain terms' /\ forall u, matches terms' u <-> matches terms u.
Proof.
  intros Hp Hne. unfold trim. destruct (last terms) as [e|] eqn:El; [|by apply last_None in El]. run_option.
  assert (isEndOfLineAssertion e = Some false) as He.
  { apply last_Some_elem_of in El. rewrite Forall_forall in Hp. apply plain_not_eol, (Hp e El). }
  rewrite He. run_option. destruct (2 <? length terms)%nat; run_option; rewrite El; run_option; rewrite He; run_option;
    destruct (remove_irrelevant_spec terms Hp) as (r & -> & Hr & Hm); run_option; exists r; by rewrite rev_involutive.
Qed.

Lemma eol_is_eol : isEndOfLineAssertion eol_term = Some true.
Proof. by vm_compute. Qed.

Lemma trim_line terms : line terms -> terms <> [] ->
  exists terms', trim terms = Some terms' /\ line terms' /\ (terms' = terms \/ Forall plain terms') /\
    forall u, any_input u -> matches terms' u <-> matches terms u.
Proof.
  intros (front & Hp & [-> | ->]) Hne.
  - destruct (trim_plain front Hp Hne) as (r & ? & ? & Hm). exists r. split; [done|]. split; [by exists r; auto|]. auto.
  - assert (trim (front ++ [eol_term]) = Some (front ++ [eol_term]) \/
      exists X k, X <> [] /\ front = X ++ [k] /\ isKnownToMatchAnyString k = true /\ trim (front ++ [eol_term]) = trim X) as Hcases.
    { unfold trim at 1 2. rewrite last_snoc. run_option. rewrite eol_is_eol. run_option.
      destruct (2 <? length (front ++ [eol_term]))%nat eqn:Elen; run_option.
      - breflect. rewrite length_app in Elen. simpl in Elen.
        destruct front as [|k X _] using rev_ind; [simpl in Elen; lia|]. rewrite length_app in Elen. simpl in Elen.
        assert (((X ++ [k]) ++ [eol_term]) !! (length ((X ++ [k]) ++ [eol_term]) - 2)%nat = Some k) as ->.
        { rewrite !length_app. simpl. rewrite <- app_assoc. apply list_lookup_middle. lia. }
        run_option. destruct (isKnownToMatchAnyString k) eqn:Ek.
        + right. exists X, k. split; [intros ->; simpl in Elen; lia|]. split; [done|]. split; [done|]. run_option.
          assert (take (length ((X ++ [k]) ++ [eol_term]) - 2) ((X ++ [k]) ++ [eol_term]) = X) as ->.
          { rewrite !length_app. simpl. rewrite <- app_assoc. apply take_app_length'. lia. }
          assert (Forall plain X) as HX by (by apply Forall_app in Hp as [? _]).
          unfold trim. destruct (last X) as [e|] eqn:El; [|done]. run_option.
          assert (isEndOfLineAssertion e = Some false) as He.
          { apply last_Some_elem_of in El. rewrite Forall_forall in HX. apply plain_not_eol, (HX e El). }
          rewrite He. run_option. destruct (2 <? length X)%nat; run_option; rewrite El; run_option; by rewrite He.
        + left. run_option. rewrite last_snoc. run_option. by rewrite eol_is_eol.
      - left. rewrite last_snoc. run_option. by rewrite eol_is_eol. }
    destruct Hcases as [E|(X & k & HX & -> & Hk & ->)].
    + exists (front ++ [eol_term]). split; [done|]. split; [by exists front; auto|]. auto.
    + apply Forall_app in Hp as [Hp Hk'%Forall_inv]. destruct (trim_plain X Hp HX) as (r & E & Hr & Hm).
      exists r. split; [done|]. split; [by exists r; auto|]. split; [by right|]. intros u Hu. rewrite Hm, <- app_assoc. symmetry.
      by apply matches_drop_dotstar_eol.
Qed.

Lemma simplify_trim bol terms : terms <> [] ->
  simplify bol terms =
    (first ← head (canonicalize dot_star false terms);
     trim (if negb bol && negb (isKnownToMatchAnyString first) then dot_star :: canonicalize dot_star false terms
           else canonicalize dot_star false terms)).
Proof. intros Hne. unfold simplify. rewrite bool_decide_false by done. rewrite canonicalDotStar_eq. done. Qed.

(** The terms with the [.*] that stands before a pattern that is not anchored. *)
Definition anchored (hasBeginningOfLineAssertion : bool) (terms : list Term) : list Term :=
  if hasBeginningOfLineAssertion then terms else dot_star :: terms.

Lemma simplify_matches bol terms : line terms -> terms <> [] ->
  exists terms', simplify bol terms = Some terms' /\ line terms' /\
    (bol = false -> Forall plain terms' \/ exists k rest, terms' = k :: rest /\ isKnownToMatchAnyString k = true) /\
    forall u, any_input u -> matches terms' u <-> matches (anchored bol terms) u.
Proof.
  intros Hl Hne. rewrite simplify_trim by done. destruct (canonicalize_spec terms) as [Hseq _].
  pose proof (canonicalize_line terms Hl) as Hcl. pose proof (canonicalize_nonempty terms Hne) as Hcne.
  destruct (canonicalize dot_star false terms) as [|first rest] eqn:Ec; [done|]. cbn [head]. run_option.
  set (terms2 := if _ && _ then _ else _).
  assert (line terms2 /\ terms2 <> [] /\ forall w, sequence_language terms2 w <-> sequence_language (anchored bol terms) w)
    as (Hl2 & Hne2 & Hseq2).
  { unfold terms2, anchored. destruct bol; cbn [negb andb]; [done|]. destruct (isKnownToMatchAnyString first) eqn:Ek; cbn [negb].
    - split; [done|]. split; [done|]. intros w. rewrite (sequence_cons dot_star).
      rewrite (concatenation_ext _ any_input _ (concatenation any_input (sequence_language rest))).
      + rewrite any_absorbs. apply concatenation_ext; [|done]. intros. by apply known_language.
      + apply dot_star_language.
      + intros w'. rewrite <- Hseq. apply concatenation_ext; [|done]. intros. by apply known_language.
    - split; [|split; [done|]].
      + destruct Hcl as (front & Hp & [E|E]); rewrite E; exists (dot_star :: front);
          (split; [constructor; [apply dot_star_plain|done]|]); [by left|by right].
      + intros w. by apply concatenation_ext. }
  destruct (trim_line terms2 Hl2 Hne2) as (terms' & -> & Hl' & Hsame & Hm). exists terms'. split; [done|]. split; [done|].
  split.
  { intros ->. destruct Hsame as [->|?]; [right|by left]. unfold terms2. cbn [negb andb].
    destruct (isKnownToMatchAnyString first) eqn:Ek; cbn [negb]; [by exists first, rest|]. by exists dot_star, (first :: rest). }
  intros u Hu. rewrite Hm by done. by apply matches_ext.
Qed.

(** C10: [simplifySunkTerms] returns, and a pattern, that is plain terms and perhaps the end of the line, matches
    the same URLs after it as before it, with the [.*] that an unanchored pattern
    starts with: replacing what is like [.*], removing the [.*]s that follow one, a last
    [.*$] and the last terms that can be empty changes nothing. *)
Theorem simplifySunkTerms_matches (p : PatternParser) :
  line (m_sunkTerms p) -> m_sunkTerms p <> [] ->
  exists p', simplifySunkTerms p = Some p' /\ line (m_sunkTerms p') /\ m_parseStatus p' = m_parseStatus p /\
    forall u, Forall input_char u ->
      matches (m_sunkTerms p') u <-> matches (anchored (m_hasBeginningOfLineAssertion p) (m_sunkTerms p)) u.
Proof.
  intros Hl Hne. destruct (simplify_matches (m_hasBeginningOfLineAssertion p) (m_sunkTerms p) Hl Hne) as (terms' & E & Hl' & _ & Hm).
  unfold simplifySunkTerms. rewrite E. run_option. exists (with_sunk p terms'). by split_and!.
Qed.

(** *** A checker *)

Fixpoint nul_freeb (t : Term) : bool :=
  match t with
  | TEmpty _ | TDeleted _ => true
  | TCharacterSet _ inverted characters =>
      negb (mem characters 0) ||
      ((inverted && (bitCount characters =? 0)) || (negb inverted && (bitCount characters =? 128)))
  | TGroup _ terms => forallb nul_freeb terms
  end.

Lemma nul_freeb_spec t : nul_freeb t = true -> nul_free t.
Proof.
  induction t as [q|q|q i cs|q terms IH] using Term_nested_ind; intros Hb; try done.
  - cbn in Hb |- *. apply orb_true_iff in Hb as [Hb|Hb]; [left; by apply negb_true_iff|by right].
  - apply nul_free_group. cbn [nul_freeb] in Hb. rewrite forallb_forall in Hb. rewrite Forall_forall in IH |- *.
    intros t Ht. apply (IH t Ht), Hb. by apply list_elem_of_In.
Qed.

Lemma plain_check terms : forallb (fun t => term_okb t && nul_freeb t) terms = true -> Forall plain terms.
Proof.
  rewrite forallb_forall. intros Hb. apply Forall_forall. intros t Ht%list_elem_of_In.
  apply Hb, andb_true_iff in Ht as [? ?]. split; [by apply term_okb_spec|by apply nul_freeb_spec].
Qed.

Definition example_sunk : list Term :=
  [example_character 97; TGroup OneOrMore [quantify dot_star ZeroOrOne]; dot_star; quantify (example_character 98) ZeroOrMore;
   dot_star; eol_term].

Lemma simplifySunkTerms_matches_witness :
  exists p', simplifySunkTerms (with_sunk (newPatternParser true) example_sunk) = Some p' /\ line (m_sunkTerms p') /\
    m_parseStatus p' = Ok /\
    forall u, Forall input_char u -> matches (m_sunkTerms p') u <-> matches (anchored false example_sunk) u.
Proof.
  apply (simplifySunkTerms_matches (with_sunk (newPatternParser true) example_sunk)); [|done].
  exists (take 5 example_sunk). split; [apply plain_check; by vm_compute|by right].
Defined.

(** What is left of it: [.*a]. *)
Example simplify_example :
  (p ← simplifySunkTerms (with_sunk (newPatternParser true) example_sunk); Some (m_sunkTerms p))
  = Some [dot_star; example_character 97].
Proof. by vm_compute. Qed.
