(* ===== verification/RegexParser.v ===== *)
(** * The patterns that the parser accepts

    The regular expressions of the content extensions, the calls that YARR makes
    for them, and the correctness of [URLFilterParser::addPattern]: the pattern it
    adds matches the URLs that the regular expression matches. *)

From S2P Require Import BitVector.
From S2P Require Import Prelude HashTable ASCII NFA Graph Term TermGraph CombinedURLFilters PrefixTree URLFilterParser PatternSemantics.

(** ** Regular expressions *)

Inductive class_item := CAtom (c : N) | CRange (a b : N).

#[local] Set Warnings "-register-all".

Inductive regex_atom :=
| RChar (c : N)
| RAny
| RClass (inverted : bool) (items : list class_item)
| RGroup (terms : list (regex_atom * AtomQuantifier)).

Record regex := mkRegex {
  r_bol : bool;
  r_terms : list (regex_atom * AtomQuantifier);
  r_eol : bool
}.

Lemma regex_atom_nested_ind (P : regex_atom -> Prop) :
  (forall c, P (RChar c)) -> P RAny -> (forall i items, P (RClass i items)) ->
  (forall terms, Forall (fun t => P t.1) terms -> P (RGroup terms)) -> forall a, P a.
Proof.
  intros Hc Ha Hs Hg. fix IH 1. intros [c| |i items|terms]; [apply Hc|apply Ha|apply Hs|].
  apply Hg. induction terms as [|[a q] terms IHt]; constructor; [apply IH|apply IHt].
Qed.

(** *** The words of a regular expression *)

Definition item_has (isCaseSensitive : bool) (item : class_item) (c : N) : Prop :=
  match item with
  | CAtom x => stands_for isCaseSensitive x c = true
  | CRange a b => exists x, a <= x <= b /\ stands_for isCaseSensitive x c = true
  end.

Fixpoint atom_language (isCaseSensitive : bool) (a : regex_atom) : list N -> Prop :=
  match a with
  | RChar x => fun w => exists c, w = [c] /\ stands_for isCaseSensitive x c = true
  | RAny => fun w => exists c, w = [c] /\ input_char c
  | RClass inverted items => fun w => exists c, w = [c] /\ input_char c /\
      if inverted then ~ Exists (fun i => item_has isCaseSensitive i c) items
      else Exists (fun i => item_has isCaseSensitive i c) items
  | RGroup terms =>
      foldr (fun t L => concatenation (quantified t.2 (atom_language isCaseSensitive t.1)) L) (fun w => w = []) terms
  end.

Definition terms_language (isCaseSensitive : bool) (terms : list (regex_atom * AtomQuantifier)) : list N -> Prop :=
  foldr (fun t L => concatenation (quantified t.2 (atom_language isCaseSensitive t.1)) L) (fun w => w = []) terms.

(** A regular expression is searched for, from the start of the URL when it is anchored; the
    end of the line is the end of the input. *)
Definition regex_matches (isCaseSensitive : bool) (r : regex) (u : list N) : Prop :=
  exists w w', u ++ [0] = w ++ w' /\
    concatenation (if r_bol r then fun w => w = [] else any_input)
      (concatenation (terms_language isCaseSensitive (r_terms r)) (if r_eol r then fun w => w = [0] else fun w => w = [])) w.

Definition item_ok (item : class_item) : Prop :=
  match item with CAtom x => input_char x | CRange a b => input_char a /\ input_char b end.

Fixpoint atom_ok (a : regex_atom) : Prop :=
  match a with
  | RChar x => input_char x
  | RAny => True
  | RClass _ items => Forall item_ok items
  | RGroup terms => terms <> [] /\ foldr (fun t P => atom_ok t.1 /\ P) True terms
  end.

Definition regex_ok (r : regex) : Prop := Forall (fun t => atom_ok t.1) (r_terms r).

Lemma atom_ok_group terms : atom_ok (RGroup terms) <-> terms <> [] /\ Forall (fun t => atom_ok t.1) terms.
Proof.
  cbn. apply and_iff_compat_l. induction terms as [|t terms IH]; cbn; [by split; [constructor|]|].
  by rewrite Forall_cons, IH.
Qed.

(** *** The calls for a regular expression *)

Section Events.
Context `{Yarr}.

Definition quantifier_events (q : AtomQuantifier) : list event :=
  match q with
  | One => []
  | ZeroOrOne => [QuantifyAtom 0 1 true]
  | ZeroOrMore => [QuantifyAtom 0 quantifyInfinite true]
  | OneOrMore => [QuantifyAtom 1 quantifyInfinite true]
  end.

Definition item_event (item : class_item) : event :=
  match item with CAtom x => AtomCharacterClassAtom x | CRange a b => AtomCharacterClassRange a b end.

Fixpoint atom_events (a : regex_atom) : list event :=
  match a with
  | RChar x => [AtomPatternCharacter x]
  | RAny => [AtomBuiltInCharacterClass NewlineClassID true]
  | RClass inverted items => AtomCharacterClassBegin inverted :: (item_event <$> items) ++ [AtomCharacterClassEnd]
  | RGroup terms =>
      AtomParenthesesSubpatternBegin true
      :: flat_map (fun t => atom_events t.1 ++ quantifier_events t.2) terms ++ [AtomParenthesesEnd]
  end.

Definition terms_events (terms : list (regex_atom * AtomQuantifier)) : list event :=
  flat_map (fun t => atom_events t.1 ++ quantifier_events t.2) terms.

Definition regex_events (r : regex) : list event :=
  (if r_bol r then [AssertionBOL] else []) ++ terms_events (r_terms r) ++ (if r_eol r then [AssertionEOL] else []).
End Events.

(** ** Sinking *)

(** A term at the end of the innermost open group. *)
Definition push_term (p : PatternParser) (t : Term) : PatternParser :=
  match last (m_openGroups p) with
  | Some group => with_groups p (<[(length (m_openGroups p) - 1)%nat := extendGroupSubpattern group t]> (m_openGroups p))
  | None => with_sunk p (m_sunkTerms p ++ [t])
  end.

Definition flush (p : PatternParser) : PatternParser :=
  if isValid (m_floatingTerm p) then with_floating (push_term p (m_floatingTerm p)) newTerm else p.

(** A parser without errors, before the end of the line. *)
Record ready (p : PatternParser) : Prop := {
  rd_status : m_parseStatus p = Ok;
  rd_eol : m_hasProcessedEndOfLineAssertion p = false;
  rd_floating : m_floatingTerm p = newTerm \/ (isValid (m_floatingTerm p) = true /\ plain (m_floatingTerm p))
}.

Lemma ready_no_error p : ready p -> hasError p = false.
Proof. intros [Hs _ _]. unfold hasError. by rewrite Hs, bool_decide_true. Qed.

Lemma sink_ready p : ready p -> sinkFloatingTermIfNecessary p = Some (flush p).
Proof.
  intros [Hs He Hf]. unfold sinkFloatingTermIfNecessary, flush, push_term.
  destruct Hf as [-> | [Hv [_ Hn]]]; [done|]. rewrite Hv, He. cbn [negb].
  rewrite (plain_not_eol _ Hn). run_option. destruct p as [cs gs sunk f bol eol st]. cbn in *. subst.
  by destruct (last gs).
Qed.

Lemma flush_ready p : ready p -> ready (flush p) /\ m_floatingTerm (flush p) = newTerm /\
  m_patternIsCaseSensitive (flush p) = m_patternIsCaseSensitive p.
Proof.
  intros [Hs He Hf]. unfold flush, push_term. destruct Hf as [Hf|[Hv _]].
  - rewrite Hf. cbn. rewrite Hf. split_and!; [|done|done]. split; [done|done|by left].
  - rewrite Hv. destruct (last (m_openGroups p)); (split_and!; [|done|done]); split; cbn; auto.
Qed.

Lemma flush_flushed p : m_floatingTerm p = newTerm -> flush p = p.
Proof. intros Hf. unfold flush. by rewrite Hf. Qed.

Lemma with_floating_twice p t t' : with_floating (with_floating p t) t' = with_floating p t'.
Proof. done. Qed.

Lemma with_floating_same p : with_floating p (m_floatingTerm p) = p.
Proof. by destruct p. Qed.

Lemma push_with_floating p t t' : push_term (with_floating p t') t = with_floating (push_term p t) t'.
Proof. unfold push_term. cbn. by destruct (last (m_openGroups p)). Qed.

Lemma push_floating p t : m_floatingTerm (push_term p t) = m_floatingTerm p.
Proof. unfold push_term. by destruct (last (m_openGroups p)). Qed.

Lemma push_ready p t : ready p -> ready (push_term p t).
Proof. intros [? ? ?]. unfold push_term. by destruct (last (m_openGroups p)); split. Qed.

Lemma push_case p t : m_patternIsCaseSensitive (push_term p t) = m_patternIsCaseSensitive p.
Proof. unfold push_term. by destruct (last (m_openGroups p)). Qed.

Lemma floating_ready p t : ready p -> isValid t = true -> plain t -> ready (with_floating p t).
Proof. intros [? ? ?] ? ?. split; cbn; auto. Qed.

(** A term that floats is sunk by the next flush. *)
Lemma flush_floating p t : m_floatingTerm p = newTerm -> isValid t = true -> flush (with_floating p t) = push_term p t.
Proof.
  intros Hf Hv. unfold flush. cbn [m_floatingTerm with_floating]. rewrite Hv, push_with_floating, with_floating_twice.
  rewrite <- (with_floating_same (push_term p t)) at 2. by rewrite push_floating, Hf.
Qed.

(** ** Sets of characters *)

Lemma stands_for_input isCaseSensitive x c : input_char x -> stands_for isCaseSensitive x c = true -> input_char c.
Proof.
  intros [Hx Hx0] Hs. unfold stands_for in Hs. apply orb_true_iff in Hs as [Hs|Hs]; [by breflect; subst|].
  apply andb_true_iff in Hs as [_ Hs]. breflect.
  assert (toASCIILower x < 128) by by apply toASCIILower_ascii.
  assert (toASCIILower x <> 0).
  { destruct (decide (65 <= x <= 90)); [rewrite toASCIILower_upper by done; lia|by rewrite toASCIILower_other]. }
  destruct (decide (65 <= c <= 90)) as [Hr|Hr]; [split; lia|]. rewrite toASCIILower_other in Hs by done. split; lia.
Qed.

(** A set that is being filled, with the characters [has] says. *)
Record set_term (inverted : bool) (has : N -> Prop) (t : Term) (cs : BitVector) : Prop := {
  st_term : t = TCharacterSet One inverted cs;
  st_wf : wf cs;
  st_size : BitVector.size cs = 128;
  st_mem : forall c, mem cs c = true <-> has c
}.

Lemma addCharacter_term inverted has t cs x isCaseSensitive : set_term inverted has t cs -> x < 128 ->
  exists t' cs', addCharacter t x isCaseSensitive = Some t' /\
    set_term inverted (fun c => has c \/ stands_for isCaseSensitive x c = true) t' cs'.
Proof.
  intros [-> Hwf Hs Hm] Hx. destruct (addCharacter_set One inverted cs x isCaseSensitive Hwf Hs Hx) as (cs' & -> & ? & ? & Hm').
  eexists _, cs'. split; [done|]. split; try done. intros c. by rewrite Hm', orb_true_iff, Hm.
Qed.

Lemma set_term_ext inverted has has' t cs : (forall c, has c <-> has' c) -> set_term inverted has t cs -> set_term inverted has' t cs.
Proof. intros Hh [? ? ? Hm]. split; try done. intros c. by rewrite Hm. Qed.

(** The characters of a range. *)
Lemma addRange_term inverted isCaseSensitive l : forall has t cs, set_term inverted has t cs ->
  Forall (fun x => x < 128) l ->
  exists t' cs', foldM (fun t i => addCharacter t (wrap16 i) isCaseSensitive) t l = Some t' /\
    set_term inverted (fun c => has c \/ exists x, x ∈ l /\ stands_for isCaseSensitive x c = true) t' cs'.
Proof.
  induction l as [|x l IH]; intros has t cs Ht Hl.
  - exists t, cs. split; [done|]. eapply set_term_ext; [|exact Ht]. intros c. split; [by left|].
    intros [?|(x & Hx & _)]; [done|]. by apply not_elem_of_nil in Hx.
  - apply Forall_cons in Hl as [Hx Hl]. cbn [foldM]. rewrite wrap16_id by lia.
    destruct (addCharacter_term inverted has t cs x isCaseSensitive Ht Hx) as (t1 & cs1 & -> & Ht1). run_option.
    destruct (IH _ _ _ Ht1 Hl) as (t2 & cs2 & -> & Ht2). exists t2, cs2. split; [done|].
    eapply set_term_ext; [|exact Ht2]. intros c. cbv beta. setoid_rewrite elem_of_cons. naive_solver.
Qed.

Lemma filter_full {A} (P : A -> bool) l : length (filter (fun x => P x = true) l) = length l -> forall x, x ∈ l -> P x = true.
Proof.
  induction l as [|y l IH]; intros Hlen x Hx; [by apply not_elem_of_nil in Hx|]. rewrite filter_cons in Hlen.
  pose proof (length_filter (fun x => P x = true) l) as Hle. case_decide as Hy; simpl in Hlen; [|lia].
  apply elem_of_cons in Hx as [->|Hx]; [done|]. apply IH; [lia|done].
Qed.

Lemma filter_empty {A} (P : A -> bool) l : length (filter (fun x => P x = true) l) = 0%nat -> forall x, x ∈ l -> P x = false.
Proof.
  intros Hlen x Hx. destruct (P x) eqn:E; [|done]. exfalso.
  assert (x ∈ filter (fun x => P x = true) l) as Hin by (by apply list_elem_of_filter).
  apply nil_length_inv in Hlen. rewrite Hlen in Hin. by apply not_elem_of_nil in Hin.
Qed.

(** The language of a set without the end of the input. *)
Lemma set_term_language inverted has t cs : set_term inverted has t cs -> (forall c, has c -> input_char c) ->
  plain t /\ forall c, set_matches inverted cs c <-> input_char c /\ (if inverted then ~ has c else has c).
Proof.
  intros [-> Hwf Hs Hm] Hin.
  assert (mem cs 0 = false) as H0.
  { destruct (mem cs 0) eqn:E; [|done]. apply Hm, Hin in E as [_ []]. done. }
  split; [split; [done|by left]|]. intros c. unfold set_matches, input_char.
  pose proof (bitCount_members cs Hwf) as Hcount. unfold members in Hcount. rewrite Hs in Hcount.
  assert (mem cs c = false <-> ~ has c) as Hnot by (rewrite <- Hm; by destruct (mem cs c)).
  destruct inverted; cbn [negb andb orb].
  - rewrite orb_false_r. destruct (bitCount cs =? 0) eqn:E; breflect.
    + split; [|tauto]. intros [Hc Hc0]. split; [done|]. apply Hnot. rewrite E in Hcount.
      apply (filter_empty (mem cs) (for_range 0 128)); [lia|]. apply elem_of_for_range. lia.
    + rewrite Hnot. tauto.
  - destruct (bitCount cs =? 128) eqn:E; breflect.
    + exfalso. rewrite E in Hcount. assert (mem cs 0 = true); [|congruence].
      apply (filter_full (mem cs) (for_range 0 128)); [|apply elem_of_for_range; lia].
      rewrite length_for_range. lia.
    + rewrite Hm. split; [|tauto]. intros [Hc Hh]. split; [by apply Hin|done].
Qed.

(** ** The calls for the terms *)

Section Parsing.
Context `{Yarr}.

Lemma items_run inverted items : Forall item_ok items -> forall p has cs,
  hasError p = false -> set_term inverted has (m_floatingTerm p) cs ->
  exists t cs', foldM handle p (item_event <$> items) = Some (with_floating p t) /\
    set_term inverted (fun c => has c \/ Exists (fun i => item_has (m_patternIsCaseSensitive p) i c) items) t cs'.
Proof.
  induction 1 as [|item items Hitem _ IH]; intros p has cs He Ht.
  - exists (m_floatingTerm p), cs. rewrite with_floating_same. split; [done|]. eapply set_term_ext; [|exact Ht].
    intros c. split; [by left|]. intros [?|Hx]; [done|]. by inv Hx.
  - assert (exists t1 cs1, handle p (item_event item) = Some (with_floating p t1) /\
      set_term inverted (fun c => has c \/ item_has (m_patternIsCaseSensitive p) item c) t1 cs1) as (t1 & cs1 & E & Ht1).
    { destruct item as [x|a b]; cbn [item_event handle item_has].
      - destruct Hitem as [Hx _]. unfold atomCharacterClassAtom. rewrite He.
        destruct (addCharacter_term _ _ _ _ x (m_patternIsCaseSensitive p) Ht Hx) as (t1 & cs1 & -> & Ht1). run_option.
        by exists t1, cs1.
      - destruct Hitem as [[Ha _] [Hb _]]. unfold atomCharacterClassRange. rewrite He.
        destruct (addRange_term inverted (m_patternIsCaseSensitive p) (for_range a (b + 1)) _ _ _ Ht) as (t1 & cs1 & -> & Ht1).
        { apply Forall_forall. intros x Hx%elem_of_for_range. lia. }
        run_option. exists t1, cs1. split; [done|]. eapply set_term_ext; [|exact Ht1]. intros c. cbv beta.
        setoid_rewrite elem_of_for_range. split; (intros [?|(x & ? & ?)]; [by left|right; exists x; split; [lia|done]]). }
    cbn [fmap list_fmap foldM]. rewrite E. run_option.
    destruct (IH (with_floating p t1) (fun c => has c \/ item_has (m_patternIsCaseSensitive p) item c) cs1)
      as (t2 & cs2 & E2 & Ht2); [done|exact Ht1|].
    exists t2, cs2. rewrite E2. split; [done|]. eapply set_term_ext; [|exact Ht2]. intros c. cbv beta.
    rewrite Exists_cons. cbn [m_patternIsCaseSensitive with_floating]. tauto.
Qed.

(** A term, quantified by each quantifier, reads an atom. *)
Definition term_of (isCaseSensitive : bool) (a : regex_atom) (t : Term) : Prop :=
  m_quantifier t = One /\ isValid t = true /\ plain t /\
  forall q w, language (quantify t q) w <-> quantified q (atom_language isCaseSensitive a) w.

Definition quantified_term_of (isCaseSensitive : bool) (a : regex_atom * AtomQuantifier) (t : Term) : Prop :=
  isValid t = true /\ plain t /\ forall w, language t w <-> quantified a.2 (atom_language isCaseSensitive a.1) w.

Lemma quantify_plain t q : plain t -> plain (quantify t q) /\ isValid (quantify t q) = isValid t.
Proof. by destruct t. Qed.

Lemma term_of_set isCaseSensitive a inverted cs : plain (TCharacterSet One inverted cs) ->
  (forall w, atom_language isCaseSensitive a w <-> exists c, w = [c] /\ set_matches inverted cs c) ->
  term_of isCaseSensitive a (TCharacterSet One inverted cs).
Proof.
  intros Hp Ha. split_and!; [done|done|done|]. intros q w. cbn [quantify language]. apply quantified_ext. intros w'. by rewrite Ha.
Qed.

(** The terms that the constructors make are sets. *)
Lemma Term_character_set x isCaseSensitive t : Term_character x isCaseSensitive = Some t -> exists cs, t = TCharacterSet One false cs.
Proof.
  unfold Term_character, addCharacter. intros E. open_option E; by eexists.
Qed.

Lemma atom_char_run x p : ready p -> input_char x ->
  exists t, term_of (m_patternIsCaseSensitive p) (RChar x) t /\
    handle p (AtomPatternCharacter x) = Some (with_floating (flush p) t).
Proof.
  intros Hr Hx. cbn [handle]. unfold atomPatternCharacter. rewrite (ready_no_error _ Hr).
  assert (isASCII x = true) as -> by (apply isASCII_lt; apply Hx). cbn [negb]. rewrite (sink_ready _ Hr). run_option.
  destruct (flush_ready p Hr) as (_ & _ & ->). rewrite wrap8_id by (destruct Hx; lia).
  unfold Term_character. destruct newBitVector_128 as (Hwf & Hsize & Hmem).
  destruct (addCharacter_term false (fun _ => False) (TCharacterSet One false (newBitVector 128)) (newBitVector 128) x
    (m_patternIsCaseSensitive p)) as (t & cs & -> & Ht); [|apply Hx|].
  { split; try done. intros c. by rewrite Hmem. }
  run_option. exists t. split; [|done]. pose proof Ht as [-> _ _ _].
  destruct (set_term_language _ _ _ _ Ht) as [Hplain Hset].
  { intros c [[]|Hc]. by eapply stands_for_input. }
  apply term_of_set; [done|]. intros w. cbn [atom_language]. setoid_rewrite Hset.
  split; intros (c & -> & Hc); exists c; (split; [done|]); [|tauto]. split; [by eapply stands_for_input|by right].
Qed.

Lemma atom_any_run p : ready p ->
  exists t, term_of (m_patternIsCaseSensitive p) RAny t /\
    handle p (AtomBuiltInCharacterClass NewlineClassID true) = Some (with_floating (flush p) t).
Proof.
  intros Hr. cbn [handle]. unfold atomBuiltInCharacterClass. rewrite (ready_no_error _ Hr), (sink_ready _ Hr).
  run_option. rewrite N.eqb_refl. cbn [andb].
  assert (Term_universal = Some (TCharacterSet One false (OutOfLine [max64; max64]))) as -> by by vm_compute.
  run_option. eexists. split; [|done]. apply term_of_set.
  - split; [apply term_okb_spec; by vm_compute|apply nul_freeb_spec; by vm_compute].
  - intros w. cbn [atom_language].
    assert ((false && (bitCount (OutOfLine [max64; max64]) =? 0)) ||
      (negb false && (bitCount (OutOfLine [max64; max64]) =? 128)) = true) as Hu by by vm_compute.
    by setoid_rewrite (universal_set _ _ _ Hu).
Qed.

Lemma atom_class_run inverted items p : ready p -> Forall item_ok items ->
  exists t, term_of (m_patternIsCaseSensitive p) (RClass inverted items) t /\
    foldM handle p (atom_events (RClass inverted items)) = Some (with_floating (flush p) t).
Proof.
  intros Hr Hitems. destruct (flush_ready p Hr) as (Hfr & _ & Hcs). cbn [atom_events foldM]. cbn [handle].
  unfold atomCharacterClassBegin. rewrite (ready_no_error _ Hr), (sink_ready _ Hr). run_option.
  rewrite foldM_app. destruct newBitVector_128 as (Hwf & Hsize & Hmem).
  destruct (items_run inverted items Hitems (with_floating (flush p) (Term_characterSet inverted)) (fun _ => False)
    (newBitVector 128)) as (t & cs & -> & Ht).
  { apply (ready_no_error _ Hfr). }
  { split; try done. intros c. by rewrite Hmem. }
  run_option. cbn [foldM handle]. run_option. exists t. split; [|done]. pose proof Ht as [-> _ _ _].
  cbn [m_patternIsCaseSensitive with_floating] in Ht. rewrite Hcs in Ht.
  destruct (set_term_language _ _ _ _ Ht) as [Hplain Hset].
  { intros c [[]|Hc]. apply Exists_exists in Hc as (item & Hin & Hhas). rewrite Forall_forall in Hitems.
    specialize (Hitems item Hin). destruct item as [x|a b]; cbn in *; [by eapply stands_for_input|].
    destruct Hhas as (x & Hx & Hs). eapply stands_for_input; [|exact Hs]. destruct Hitems as [[? ?] [? ?]]. split; lia. }
  apply term_of_set; [done|]. intros w. cbn [atom_language]. setoid_rewrite Hset.
  split; intros (c & -> & Hc & Hh); exists c; (split; [done|]); (split; [done|]); destruct inverted; tauto.
Qed.

(** The quantifier of the term that floats. *)
Lemma quantifier_run a q p t : ready p -> term_of (m_patternIsCaseSensitive p) a t ->
  exists t', quantified_term_of (m_patternIsCaseSensitive p) (a, q) t' /\
    foldM handle (with_floating p t) (quantifier_events q) = Some (with_floating p t').
Proof.
  intros Hr (Hq & Hv & Hplain & Hl). destruct (quantify_plain t q Hplain) as [Hplain' Hv'].
  exists (quantify t q). split; [split_and!; [by rewrite Hv'|done|]; intros w; cbn; apply Hl|].
  pose proof quantifyInfinite_large as Hlarge.
  assert (quantifyInfinite =? 1 = false) as H1 by (apply N.eqb_neq; lia).
  assert (hasError (with_floating p t) = false) as He by (exact (ready_no_error _ Hr)).
  assert (1 =? quantifyInfinite = false) as H2 by (apply N.eqb_neq; lia).
  destruct q; cbn [quantifier_events foldM handle]; unfold quantifyAtom; rewrite ?He; cbn [N.eqb Pos.eqb andb m_floatingTerm with_floating];
    rewrite ?H1, ?N.eqb_refl; try done.
  destruct t; cbn in Hq |- *; by rewrite Hq.
Qed.

Definition atom_runs (a : regex_atom) : Prop :=
  atom_ok a -> forall p, ready p ->
  exists t, term_of (m_patternIsCaseSensitive p) a t /\ foldM handle p (atom_events a) = Some (with_floating (flush p) t).

(** The terms of a group or of the whole pattern. *)
Lemma terms_run terms : Forall (fun t => atom_runs t.1) terms -> Forall (fun t => atom_ok t.1) terms ->
  forall p, ready p ->
  exists ts p', Forall2 (quantified_term_of (m_patternIsCaseSensitive p)) terms ts /\
    foldM handle p (terms_events terms) = Some p' /\ ready p' /\ flush p' = foldl push_term (flush p) ts.
Proof.
  induction terms as [|[a q] terms IH]; intros Hruns Hok p Hr.
  - exists [], p. by split_and!.
  - apply Forall_cons in Hruns as [Ha Hruns], Hok as [Haok Hok]. cbn [fst] in Ha, Haok. cbn [terms_events flat_map fst snd].
    destruct (Ha Haok p Hr) as (t & Ht & E). rewrite <- app_assoc, foldM_app, E. run_option. rewrite foldM_app.
    destruct (flush_ready p Hr) as (Hfr & Hff & Hcs). rewrite <- Hcs in Ht.
    destruct (quantifier_run a q (flush p) t Hfr Ht) as (t' & Ht' & ->). run_option.
    destruct Ht' as (Hv & Hplain & Hl). pose proof (floating_ready (flush p) t' Hfr Hv Hplain) as Hr'.
    destruct (IH Hruns Hok _ Hr') as (ts & p' & Hts & E' & Hp' & Hflush). fold (terms_events terms). rewrite E'.
    cbn [m_patternIsCaseSensitive with_floating] in Hts. rewrite Hcs in Hts, Hl.
    exists (t' :: ts), p'. split_and!; [|done|done|].
    + constructor; [|done]. by split_and!.
    + rewrite Hflush. cbn [foldl]. by rewrite flush_floating.
Qed.

Lemma push_terms_group ts gs p q terms : m_openGroups p = gs ++ [TGroup q terms] ->
  foldl push_term p ts = with_groups p (gs ++ [TGroup q (terms ++ ts)]).
Proof.
  revert p terms. induction ts as [|t ts IH]; intros p terms Hg; cbn [foldl].
  - rewrite app_nil_r, <- Hg. by destruct p.
  - assert (push_term p t = with_groups p (gs ++ [TGroup q (terms ++ [t])])) as ->.
    { unfold push_term. rewrite Hg, last_snoc. f_equal. rewrite length_app. cbn [length].
      replace (length gs + 1 - 1)%nat with (length gs) by lia. by rewrite insert_app_r_alt, Nat.sub_diag by lia. }
    rewrite (IH _ (terms ++ [t])) by done. by rewrite <- app_assoc.
Qed.

Lemma push_terms_sunk ts p : m_openGroups p = [] -> foldl push_term p ts = with_sunk p (m_sunkTerms p ++ ts).
Proof.
  revert p. induction ts as [|t ts IH]; intros p Hg; cbn [foldl].
  - rewrite app_nil_r. by destruct p.
  - assert (push_term p t = with_sunk p (m_sunkTerms p ++ [t])) as -> by (unfold push_term; by rewrite Hg).
    rewrite IH by done. cbn. by rewrite <- app_assoc.
Qed.

Lemma sequence_terms isCaseSensitive terms ts w :
  Forall2 (quantified_term_of isCaseSensitive) terms ts ->
  sequence_language ts w <-> terms_language isCaseSensitive terms w.
Proof.
  intros Hts. revert w. induction Hts as [|a t terms ts (_ & _ & Hl) _ IH]; intros w; [done|].
  by apply concatenation_ext.
Qed.

Lemma terms_plain isCaseSensitive terms ts : Forall2 (quantified_term_of isCaseSensitive) terms ts -> Forall plain ts.
Proof. induction 1 as [|a t terms ts (_ & ? & _) _ IH]; by constructor. Qed.

Lemma atom_runs_all a : atom_runs a.
Proof.
  induction a as [x| |inverted items|terms IH] using regex_atom_nested_ind; intros Hok p Hr.
  - destruct (atom_char_run x p Hr Hok) as (t & ? & E). exists t. split; [done|]. cbn [atom_events foldM]. by rewrite E.
  - destruct (atom_any_run p Hr) as (t & ? & E). exists t. split; [done|]. cbn [atom_events foldM]. by rewrite E.
  - by apply atom_class_run.
  - apply atom_ok_group in Hok as [Hne Hok]. destruct (flush_ready p Hr) as (Hfr & Hff & Hcs).
    cbn [atom_events foldM]. cbn [handle]. unfold atomParenthesesSubpatternBegin.
    rewrite (ready_no_error _ Hr), (sink_ready _ Hr). run_option.
    set (pg := with_groups (flush p) (m_openGroups (flush p) ++ [Term_group])).
    assert (ready pg) as Hpg by (destruct Hfr; by split).
    rewrite foldM_app. fold (terms_events terms).
    destruct (terms_run terms IH Hok pg Hpg) as (ts & p' & Hts & -> & Hp' & Hflush). run_option.
    rewrite (flush_flushed pg) in Hflush by done.
    rewrite (push_terms_group ts (m_openGroups (flush p)) pg One []) in Hflush by done. cbn [app] in Hflush.
    cbn [foldM handle]. unfold atomParenthesesEnd. rewrite (ready_no_error _ Hp'), (sink_ready _ Hp'), Hflush. run_option.
    cbn [m_openGroups with_groups]. rewrite last_snoc. run_option. rewrite removelast_last.
    change (m_patternIsCaseSensitive pg) with (m_patternIsCaseSensitive (flush p)) in Hts. rewrite Hcs in Hts.
    exists (TGroup One ts). split; [split_and!; [done|done| |]|].
    + pose proof (terms_plain _ _ _ Hts) as Hpl. split.
      * apply term_ok_group. split; [intros ->; by inv Hts|]. eapply Forall_impl; [exact Hpl|]. by intros t [? _].
      * apply nul_free_group. eapply Forall_impl; [exact Hpl|]. by intros t [_ ?].
    + intros q w. cbn [quantify language]. apply quantified_ext. intros w'. exact (sequence_terms _ _ _ w' Hts).
    + by f_equal.
Qed.

(** ** The whole pattern *)

Definition start_parser (isCaseSensitive bol : bool) : PatternParser :=
  mkPatternParser isCaseSensitive [] [] newTerm bol false Ok.

(** The terms that the calls for a regular expression leave, once they are sunk. *)
Lemma regex_run isCaseSensitive r : regex_ok r ->
  exists ts p, Forall2 (quantified_term_of isCaseSensitive) (r_terms r) ts /\
    foldM handle (newPatternParser isCaseSensitive) (regex_events r) = Some p /\ hasError p = false /\
    exists p', sinkFloatingTermIfNecessary p = Some p' /\ m_parseStatus p' = Ok /\
      m_hasBeginningOfLineAssertion p' = r_bol r /\ m_sunkTerms p' = ts ++ (if r_eol r then [eol_term] else []).
Proof.
  intros Hok. unfold regex_events. rewrite foldM_app.
  assert (foldM handle (newPatternParser isCaseSensitive) (if r_bol r then [AssertionBOL] else [])
    = Some (start_parser isCaseSensitive (r_bol r))) as -> by (by destruct (r_bol r)).
  run_option. rewrite foldM_app.
  assert (ready (start_parser isCaseSensitive (r_bol r))) as Hstart by (split; auto).
  destruct (terms_run (r_terms r)) with (p := start_parser isCaseSensitive (r_bol r)) as (ts & p & Hts & -> & Hp & Hflush);
    [apply Forall_forall; intros; apply atom_runs_all|done|done|].
  rewrite (flush_flushed (start_parser _ _)) in Hflush by done. rewrite push_terms_sunk in Hflush by done.
  run_option. cbn [m_sunkTerms start_parser app] in Hflush. pose proof (sink_ready p Hp) as Hsink. rewrite Hflush in Hsink.
  destruct (r_eol r); cbn [foldM].
  - cbn [handle]. unfold assertionEOL. rewrite (ready_no_error _ Hp), Hsink. run_option. rewrite Term_endOfLine_eq. run_option.
    exists ts. eexists. split; [exact Hts|]. split; [done|]. split; [done|].
    eexists. split; [|split; [|split]].
    + unfold sinkFloatingTermIfNecessary. cbn [m_floatingTerm with_floating]. cbn [isValid eol_term negb].
      cbn [m_hasProcessedEndOfLineAssertion with_floating with_sunk start_parser].
      change (TCharacterSet One false (OutOfLine [1; 0])) with eol_term. rewrite eol_is_eol. run_option. reflexivity.
    + done.
    + done.
    + done.
  - exists ts, p. split; [exact Hts|]. split; [done|]. split; [exact (ready_no_error _ Hp)|]. eexists. split; [exact Hsink|].
    cbn. by rewrite app_nil_r.
Qed.
End Parsing.

Lemma anchored_matches isCaseSensitive r ts u :
  Forall2 (quantified_term_of isCaseSensitive) (r_terms r) ts ->
  matches (anchored (r_bol r) (ts ++ (if r_eol r then [eol_term] else []))) u <-> regex_matches isCaseSensitive r u.
Proof.
  intros Hts. unfold matches, regex_matches.
  assert (forall w, sequence_language (ts ++ (if r_eol r then [eol_term] else [])) w <->
    concatenation (terms_language isCaseSensitive (r_terms r)) (if r_eol r then fun w => w = [0] else fun w => w = []) w) as Hseq.
  { intros w. rewrite sequence_app. apply concatenation_ext; [intros; by apply sequence_terms|]. intros w'.
    destruct (r_eol r); [|done]. rewrite sequence_one. apply eol_language. }
  assert (forall w, sequence_language (anchored (r_bol r) (ts ++ (if r_eol r then [eol_term] else []))) w <->
    concatenation (if r_bol r then fun w => w = [] else any_input)
      (concatenation (terms_language isCaseSensitive (r_terms r)) (if r_eol r then fun w => w = [0] else fun w => w = [])) w) as Hanch.
  { intros w. destruct (r_bol r); cbn [anchored].
    - by rewrite concatenation_empty_l, Hseq.
    - rewrite sequence_cons. apply concatenation_ext; [apply dot_star_language|done]. }
  by setoid_rewrite Hanch.
Qed.

Lemma line_ok terms : line terms -> Forall term_ok terms.
Proof.
  intros (front & Hp & Hl). assert (Forall term_ok front) by (eapply Forall_impl; [exact Hp|]; by intros t [? _]).
  destruct Hl as [-> | ->]; [done|]. apply Forall_app. split; [done|]. constructor; [|constructor]. apply term_okb_spec. by vm_compute.
Qed.

(** [matchesEverything] never crashes; when it holds no term needs a character, else one does. *)
Lemma matchesEverything_spec terms : exists b, matchesEverything terms = Some b /\
  (b = true -> Forall (fun t => matchesAtLeastOneCharacter t = Some false) terms) /\
  (b = false -> ~ sequence_language terms []).
Proof.
  induction terms as [|t terms (b & IH & Hb & Hb')]; [by exists true|]. cbn [matchesEverything].
  assert (forall L L' : list N -> Prop, concatenation L L' [] -> L [] /\ L' []) as Hsplit.
  { intros L L' (w1 & w2 & E & ? & ?). symmetry in E. by apply app_eq_nil in E as [-> ->]. }
  destruct (matchesAtLeastOneCharacter_total t) as [[] Ht]; rewrite Ht; run_option.
  - exists false. split_and!; [done..|]. intros _ [Hl _]%Hsplit. by apply (matchesAtLeastOneCharacter_sound t).
  - exists b. split_and!; [done| |]; intros ->; [constructor; auto|]. intros [_ Hl]%Hsplit. by apply Hb'.
Qed.

Lemma emptyable_sequence terms : Forall plain terms -> Forall (fun t => matchesAtLeastOneCharacter t = Some false) terms ->
  sequence_language terms [].
Proof.
  induction 1 as [|t terms Ht _ IH]; intros Hm; [done|]. apply Forall_cons in Hm as [? ?].
  exists [], []. split_and!; [done|by apply emptyable|by apply IH].
Qed.

(** What is said to match everything matches the empty input. *)
Lemma emptyable_matches_empty terms : line terms -> Forall (fun t => matchesAtLeastOneCharacter t = Some false) terms ->
  matches terms [].
Proof.
  intros (front & Hp & [-> | ->]) Hm.
  - exists [], [0]. split; [done|]. by apply emptyable_sequence.
  - exists [0], []. split; [done|]. apply sequence_app. exists [], [0]. apply Forall_app in Hm as [Hm _].
    split_and!; [done|by apply emptyable_sequence|]. by apply sequence_one, eol_language.
Qed.

(** What is rejected because it matches everything does, but for an anchored pattern with the
    end of the line. *)
Lemma everything_matches (terms : list Term) u : any_input u -> line terms ->
  Forall (fun t => matchesAtLeastOneCharacter t = Some false) terms ->
  Forall plain terms \/ (exists k rest, terms = k :: rest /\ isKnownToMatchAnyString k = true) ->
  matches terms u.
Proof.
  intros Hu (front & Hp & Hl) Hm Hcase. assert (Forall plain terms -> matches terms u) as Hplain.
  { intros Hpl. exists [], (u ++ [0]). split; [done|]. by apply emptyable_sequence. }
  destruct Hcase as [?|(k & rest & E & Hk)]; [by apply Hplain|]. destruct Hl as [-> | ->]; [by apply Hplain|].
  destruct front as [|k' front]; [injection E as <- _; by vm_compute in Hk|]. injection E as <- _.
  apply Forall_cons in Hp as [_ Hp], Hm as [_ Hm]. apply Forall_app in Hm as [Hm _].
  exists (u ++ [0]), []. rewrite app_nil_r. split; [done|]. exists u, [0]. split_and!; [done|by apply known_language|].
  apply sequence_app. exists [], [0]. split_and!; [done|by apply emptyable_sequence|]. by apply sequence_one, eol_language.
Qed.

Lemma finalize_regex isCaseSensitive r p ts patternId root :
  vertex_ok root -> patternId < 2 ^ 48 -> hasError p = false -> Forall plain ts ->
  (exists p', sinkFloatingTermIfNecessary p = Some p' /\ m_parseStatus p' = Ok /\
     m_hasBeginningOfLineAssertion p' = r_bol r /\ m_sunkTerms p' = ts ++ (if r_eol r then [eol_term] else [])) ->
  (forall u, matches (anchored (r_bol r) (ts ++ (if r_eol r then [eol_term] else []))) u <-> regex_matches isCaseSensitive r u) ->
  exists p' root', finalize p patternId root = Some (p', root') /\ vertex_ok root' /\
    ((m_parseStatus p' = Ok /\ exists pattern, line pattern /\ pattern <> [] /\ ~ sequence_language pattern [] /\
        (forall q a, contains root' q a <-> contains root q a \/ (Forall2 same_term pattern q /\ a = patternId)) /\
        forall u, Forall input_char u -> matches pattern u <-> regex_matches isCaseSensitive r u) \/
     (m_parseStatus p' = MatchesEverything /\ root' = root /\ regex_matches isCaseSensitive r [] /\
        (r_bol r && r_eol r = false -> forall u, Forall input_char u -> regex_matches isCaseSensitive r u))).
Proof.
  intros Hroot Hid Herr Hplain (p1 & Hsink & Hst & Hbol & Hsunk) Hmatch. unfold finalize. rewrite Herr, Hsink. run_option.
  set (terms := ts ++ _) in *.
  assert (line terms) as Hline by (exists ts; split; [done|]; unfold terms; destruct (r_eol r); [by right|left; by rewrite app_nil_r]).
  assert (exists terms', simplify (r_bol r) terms = Some terms' /\ line terms' /\
    (r_bol r && r_eol r = false -> Forall plain terms' \/ exists k rest, terms' = k :: rest /\ isKnownToMatchAnyString k = true) /\
    forall u, Forall input_char u -> matches terms' u <-> regex_matches isCaseSensitive r u) as (terms' & Hsimp & Hline' & Hknown & Hm).
  { destruct (decide (terms = [])) as [Hnil|Hne].
    - exists []. unfold simplify. rewrite bool_decide_true by done. split; [done|]. split; [by exists []; auto|]. split; [auto|].
      intros u Hu. rewrite <- Hmatch, Hnil. split; [|intros _; by exists [], (u ++ [0])].
      intros _. destruct (r_bol r); cbn [anchored]; [by exists [], (u ++ [0])|]. exists u, [0]. split; [done|].
      apply sequence_one. by apply dot_star_language.
    - destruct (simplify_matches (r_bol r) terms Hline Hne) as (terms' & ? & ? & Hk & Hm). exists terms'. split_and!; [done..| |].
      + intros Hb. destruct (r_bol r) eqn:Eb; [|by apply Hk]. cbn in Hb. left.
        assert (Forall plain terms) as Hpt by (unfold terms; rewrite Hb, app_nil_r; done).
        rewrite simplify_trim in H by done. destruct (head _); [|done]. revert H. run_option. cbn [negb andb].
        destruct (trim_plain (canonicalize dot_star false terms)) as (t' & -> & ? & _); [by apply canonicalize_plain|by apply canonicalize_nonempty|].
        by intros [= <-].
      + intros u Hu. by rewrite Hm, Hmatch. }
  unfold simplifySunkTerms. rewrite Hbol, Hsunk, Hsimp. run_option. cbn [m_sunkTerms with_sunk].
  destruct (matchesEverything_spec terms') as (b & Eb & Hall & Hnone). rewrite Eb. destruct b; run_option.
  - eexists _, root. split; [done|]. split; [done|]. right. unfold fail, hasError. cbn [m_parseStatus with_sunk].
    rewrite Hst, bool_decide_true by done. split; [done|]. split; [done|].
    split; [apply Hm; [constructor|]; apply emptyable_matches_empty; auto|].
    intros Hb u Hu. apply Hm; [done|]. apply everything_matches; auto.
  - assert (terms' <> []) as Hne by (by intros ->).
    destruct (addPattern_adds root patternId terms' Hroot (line_ok _ Hline') Hne Hid) as (root' & -> & Hroot' & Hcon).
    run_option. eexists _, root'. split; [done|]. split; [done|]. left. split; [done|]. exists terms'. split_and!; auto.
Qed.

Lemma addPattern_regex `{Yarr} (root : PrefixTreeVertex) (text : list N) (isCaseSensitive : bool) (patternId : N)
    (r : regex) :
  vertex_ok root -> patternId < 2 ^ 48 -> regex_ok r -> text <> [] -> forallb isASCII text = true ->
  yarr_parse text = (regex_events r, true) ->
  exists status root', parser_addPattern root text isCaseSensitive patternId = Some (status, root') /\ vertex_ok root' /\
    ((status = Ok /\ exists pattern, line pattern /\ pattern <> [] /\ ~ sequence_language pattern [] /\
        (forall q a, contains root' q a <-> contains root q a \/ (Forall2 same_term pattern q /\ a = patternId)) /\
        forall u, Forall input_char u -> matches pattern u <-> regex_matches isCaseSensitive r u) \/
     (status = MatchesEverything /\ root' = root /\ regex_matches isCaseSensitive r [] /\
        (r_bol r && r_eol r = false -> forall u, Forall input_char u -> regex_matches isCaseSensitive r u))).
Proof.
  intros Hroot Hid Hok Hne Hascii Hyarr. unfold parser_addPattern. rewrite Hascii, bool_decide_false, Hyarr by done. cbn [negb].
  destruct (regex_run isCaseSensitive r Hok) as (ts & p & Hts & -> & Herr & Hsink). run_option.
  destruct (finalize_regex isCaseSensitive r p ts patternId root Hroot Hid Herr (terms_plain _ _ _ Hts) Hsink)
    as (p' & root' & -> & Hroot' & Hres); [intros u; by apply anchored_matches|].
  run_option. eexists _, root'. split; [done|]. by split.
Qed.

(** C5: [URLFilterParser::addPattern] on the text of a regular expression returns and keeps the
    prefix tree well formed.  When it answers [Ok] it has added, with the action, one
    pattern that matches exactly the URLs that the regular expression matches, and not
    before the first character; else it answers [MatchesEverything], adds nothing, and
    the regular expression matches the empty URL, and every URL, unless it is anchored
    at both ends.  YARR is supposed to make the
    calls of its delegate interface for the regular expression. *)
Theorem parser_addPattern_correct `{Yarr} (root : PrefixTreeVertex) (text : list N) (isCaseSensitive : bool) (patternId : N)
    (r : regex) :
  vertex_ok root -> patternId < 2 ^ 48 -> regex_ok r -> text <> [] -> forallb isASCII text = true ->
  yarr_parse text = (regex_events r, true) ->
  exists status root', parser_addPattern root text isCaseSensitive patternId = Some (status, root') /\ vertex_ok root' /\
    ((status = Ok /\ exists pattern, line pattern /\ pattern <> [] /\ ~ sequence_language pattern [] /\
        (forall q a, contains root' q a <-> contains root q a \/ (Forall2 same_term pattern q /\ a = patternId)) /\
        forall u, Forall input_char u -> matches pattern u <-> regex_matches isCaseSensitive r u) \/
     (status = MatchesEverything /\ root' = root /\ regex_matches isCaseSensitive r [] /\
        (r_bol r && r_eol r = false -> forall u, Forall input_char u -> regex_matches isCaseSensitive r u))).
Proof. apply addPattern_regex. Qed.

(** ** Examples *)

(** YARR for one pattern: [a(b|c)] is not supported, [^a[^b-d]+(ef?)*$] is. *)
Definition example_regex : regex :=
  mkRegex true [(RChar 97, One); (RClass true [CRange 98 100], OneOrMore); (RGroup [(RChar 101, One); (RChar 102, ZeroOrOne)], ZeroOrMore)] true.

Definition example_yarr (events : list event) : Yarr := {|
  quantifyInfinite := max32;
  NewlineClassID := 3;
  yarr_parse := fun _ => (events, true);
  quantifyInfinite_large := eq_refl
|}.

Definition regex_yarr (r : regex) : Yarr := example_yarr (@regex_events (example_yarr []) r).

Lemma parser_addPattern_correct_witness :
  exists status root', parser_addPattern (H := regex_yarr example_regex) newVertex [94; 97] true 7 = Some (status, root') /\ vertex_ok root' /\
    ((status = Ok /\ exists pattern, line pattern /\ pattern <> [] /\ ~ sequence_language pattern [] /\
        (forall q a, contains root' q a <-> contains newVertex q a \/ (Forall2 same_term pattern q /\ a = 7)) /\
        forall u, Forall input_char u -> matches pattern u <-> regex_matches true example_regex u) \/
     (status = MatchesEverything /\ root' = newVertex /\ regex_matches true example_regex [] /\
        (r_bol example_regex && r_eol example_regex = false ->
         forall u, Forall input_char u -> regex_matches true example_regex u))).
Proof.
  apply (parser_addPattern_correct (H := regex_yarr example_regex) newVertex [94; 97] true 7 example_regex).
  - apply newVertex_ok.
  - done.
  - repeat constructor; vm_compute; done.
  - done.
  - done.
  - by vm_compute.
Defined.

Definition status_of (r : regex) : option ParseStatus :=
  fst <$> parser_addPattern (H := regex_yarr r) newVertex [94] true 7.

Example example_regex_ok : status_of example_regex = Some Ok.
Proof. by vm_compute. Qed.

(** [^a?$] is said to match everything. *)
Example anchored_optional_rejected : status_of (mkRegex true [(RChar 97, ZeroOrOne)] true) = Some MatchesEverything.
Proof. by vm_compute. Qed.

(** It does not match the URL [b]. *)
Example anchored_optional_does_not : ~ regex_matches true (mkRegex true [(RChar 97, ZeroOrOne)] true) [98].
Proof.
  intros (w & w' & E & (w1 & w2 & -> & -> & (w3 & w4 & -> & (w5 & w6 & -> & Hq & ->) & ->))). cbn in E, Hq.
  destruct Hq as [-> | (c & -> & Hc)]; simplify_eq/=.
Qed.

(** [a$b] is an error, found when the last term is sunk; the pattern [.*a$] is added all the same. *)
Example misplaced_end_adds_pattern :
  (let Y := example_yarr [AtomPatternCharacter 97; AssertionEOL; AtomPatternCharacter 98] in
   r ← parser_addPattern (H := Y) newVertex [97; 36; 98] true 7;
   child1 ← head (edges r.2); child2 ← head (edges child1.2); child3 ← head (edges child2.2);
   Some (r.1, finalActions child3.2)) = Some (MisplacedEndOfLine, [7]).
Proof. by vm_compute. Qed.
