(* ===== verification/WTFString.v ===== *)
(** * [WTF/wtf/text]: literals, strings, and maps with strings as keys

    The null-terminated literals of the code are the codes of their characters.
    A [WTF::String] is a reference to a [StringImpl], or null; a [StringImpl]
    holds its characters in 8-bit ([LChar]) or in 16-bit ([UChar]) units.  The
    characters are the list of their codes.  [None] as the answer of an operation
    is a null dereference or the reading of one width as the other, which the
    code only excludes with an [ASSERT].  Two strings are the same key of a
    [HashMap] when their characters are equal, whatever their width; such a map is
    the list of its entries in the order of their insertion. *)

From S2P Require Import Prelude ASCII.
From Stdlib Require String Ascii.
Export (notations) String.

(** The characters of a literal. *)
Definition lit (s : String.string) : list N := Ascii.N_of_ascii <$> String.list_ascii_of_string s.

Arguments lit _%_string.

(** A literal that only has ASCII characters. *)
Definition ascii_literal (l : list N) : bool := forallb (fun c => (0 <? c) && (c <? 128)) l.

Example lit_document : lit "doc" = [100; 111; 99].
Proof. done. Qed.

(** ** Data *)

(** The two instances of the templates over the type of the characters. *)
Inductive CharType := LChar | UChar.

#[export] Instance CharType_eq_dec : EqDecision CharType.
Proof. solve_decision. Defined.

(** [sizeof(CharType)]. *)
Definition sizeof_CharType (t : CharType) : N := match t with LChar => 1 | UChar => 2 end.

Definition is_LChar (t : CharType) : bool := match t with LChar => true | UChar => false end.

(** WTF/wtf/text/StringImpl.h:453-458 [StringImpl] *)
Record StringImpl := mkImpl {
  impl_is8Bit : bool;
  impl_chars : list N
}.

(** [String::m_impl]. *)
Definition WTFString : Type := option StringImpl.

#[export] Instance StringImpl_eq_dec : EqDecision StringImpl.
Proof. solve_decision. Defined.

(** [StringImpl::empty()]. *)
Definition StringImpl_empty : StringImpl := mkImpl true [].

(** A string of 8-bit characters, such as a literal. *)
Definition String8 (chars : list N) : WTFString := Some (mkImpl true chars).

Definition String16 (chars : list N) : WTFString := Some (mkImpl false chars).

(** [sizeof(StringImpl)], on a 64-bit machine. *)
Definition sizeof_StringImpl : N := 24.

(** ** Operations *)

(** WTF/wtf/text/WTFString.h:147-147 [String::isNull] *)
Definition String_isNull (s : WTFString) : bool := match s with None => true | Some _ => false end.

(** WTF/wtf/text/WTFString.h:153-158 [String::length] *)
Definition String_length (s : WTFString) : N :=
  match s with None => 0 | Some impl => N.of_nat (length (impl_chars impl)) end.

(** WTF/wtf/text/WTFString.h:148-148 [String::isEmpty] *)
Definition String_isEmpty (s : WTFString) : bool := String_isNull s || (String_length s =? 0).

(** WTF/wtf/text/WTFString.h:180-180 [String::is8Bit], which crashes on null *)
Definition String_is8Bit (s : WTFString) : option bool := impl_is8Bit <$> s.

(** WTF/wtf/text/WTFString.h:160-178 [String::characters8], [String::characters16], [String::characters] *)
Definition String_characters (t : CharType) (s : WTFString) : option (list N) :=
  match s with
  | None => Some []
  | Some impl => if Bool.eqb (impl_is8Bit impl) (is_LChar t) then Some (impl_chars impl) else None
  end.

(** The characters of a string whatever their width; none when it is null. *)
Definition String_chars (s : WTFString) : list N :=
  match s with None => [] | Some impl => impl_chars impl end.

(** WTF/wtf/text/WTFString.h:194-200 [String::at], [String::operator[]] *)
Definition String_at (s : WTFString) (index : N) : N :=
  match s with
  | None => 0
  | Some impl => if N.of_nat (length (impl_chars impl)) <=? index then 0
                 else default 0 (impl_chars impl !!N index)
  end.

(** WTF/wtf/text/StringCommon.h:287-304 [equalCommon], on two [StringImpl&] *)
Definition equal_impl (a b : StringImpl) : bool :=
  if negb (N.of_nat (length (impl_chars a)) =? N.of_nat (length (impl_chars b))) then false
  else forallb (fun p => p.1 =? p.2) (zip (impl_chars a) (impl_chars b)).

(** WTF/wtf/text/StringCommon.h:307-314 [equalCommon], and WTFString.h's [operator==] *)
Definition equal_strings (a b : WTFString) : bool :=
  match a, b with
  | None, None => true
  | Some a, Some b => equal_impl a b
  | _, _ => false
  end.

(** WTF/wtf/text/StringImpl.cpp:1927-1960 [equal], a null-terminated literal, and
    WTFString.h's [operator==] *)
Definition equal_literal (a : WTFString) (literal : list N) : bool :=
  match a with
  | None => false
  | Some a =>
      forallb (fun i =>
        let bc := default 0 (literal !!N i) in
        let ac := default 0 (impl_chars a !!N i) in
        if bc =? 0 then false else ac =? bc)
        (for_range 0 (N.of_nat (length (impl_chars a))))
      && (N.of_nat (length literal) <=? N.of_nat (length (impl_chars a)))
  end.

(** WTF/wtf/text/StringImpl.cpp:239-259 [StringImpl::create], and [String::String] of characters *)
Definition String_create (t : CharType) (characters : list N) : option WTFString :=
  let length := N.of_nat (length characters) in
  if length =? 0 then Some (Some StringImpl_empty)
  else if (max32 - sizeof_StringImpl) / sizeof_CharType t <? length then None
  else Some (Some (mkImpl (is_LChar t) characters)).

(** ** Numbers *)

(** WTF/wtf/text/IntegerToStringConversion.h:55-66 [numberToStringImpl]: the loop that fills the
    buffer from its end, whose contents so far are [digits] *)
Fixpoint number_digits (fuel : nat) (number : N) (digits : list N) : option (list N) :=
  match fuel with
  | O => None
  | S fuel' =>
      let digits := N.land (number mod 10 + 48) 255 :: digits in
      let number := number / 10 in
      if number =? 0 then Some digits else number_digits fuel' number digits
  end.

(** WTF/wtf/text/IntegerToStringConversion.h:55-72 [numberToStringImpl], for [unsigned]: the fuel is
    the size of the buffer, so that running out of it is writing before its start *)
Definition numberToStringImpl (negative : bool) (number : N) : option (list N) :=
  digits ← number_digits 13 number [];
  if negative then
    (if (length digits <? 13)%nat then Some (45 :: digits) else None)
  else Some digits.

(** WTF/wtf/text/IntegerToStringConversion.h:74-80 [numberToStringSigned], for [int] *)
Definition numberToStringSigned (number : Z) : option (list N) :=
  if (number <? 0)%Z then numberToStringImpl true (wrap32 (Z.to_N (- number)))
  else numberToStringImpl false (Z.to_N number).

(** WTF/wtf/text/IntegerToStringConversion.h:82-86 [numberToStringUnsigned], for [unsigned] *)
Definition numberToStringUnsigned (number : N) : option (list N) := numberToStringImpl false number.

(** The number that decimal digits spell. *)
Definition digits_value (digits : list N) : N := foldl (fun v d => 10 * v + (d - 48)) 0 digits.

(** ** Lemmas *)

Lemma forallb_zip_eqb (l k : list N) :
  length l = length k -> forallb (fun p => p.1 =? p.2) (zip l k) = true <-> l = k.
Proof.
  revert k. induction l as [|x l IH]; intros [|y k]; simpl; try done.
  intros [=Hlen]. rewrite andb_true_iff, N.eqb_eq, IH by done. naive_solver.
Qed.

Lemma equal_impl_spec a b : equal_impl a b = true <-> impl_chars a = impl_chars b.
Proof.
  unfold equal_impl. destruct (_ =? _) eqn:E; breflect; simpl.
  - apply forallb_zip_eqb. lia.
  - split; [done|]. intros H. by rewrite H in E.
Qed.

(** Equality of strings: equality of the characters, and null is only equal to null. *)
Lemma equal_strings_spec a b :
  equal_strings a b = true <-> String_isNull a = String_isNull b /\ String_chars a = String_chars b.
Proof. destruct a, b; simpl; rewrite ?equal_impl_spec; naive_solver. Qed.

Lemma equal_strings_refl s : equal_strings s s = true.
Proof. by apply equal_strings_spec. Qed.

Lemma equal_strings_sym a b : equal_strings a b = equal_strings b a.
Proof. apply Bool.eq_iff_eq_true. rewrite !equal_strings_spec. naive_solver. Qed.

Lemma equal_strings_trans a b c :
  equal_strings a b = true -> equal_strings b c = true -> equal_strings a c = true.
Proof. rewrite !equal_strings_spec. intros [-> ->] [-> ->]. done. Qed.

(** A literal has no null character. *)
Definition literal_ok (literal : list N) : Prop := Forall (fun c => c <> 0) literal.

Lemma equal_literal_spec a literal :
  literal_ok literal ->
  equal_literal a literal = true <-> String_isNull a = false /\ String_chars a = literal.
Proof.
  intros Hlit. destruct a as [a|]; cbn [equal_literal String_isNull String_chars]; [|naive_solver].
  rewrite andb_true_iff, N.leb_le, forallb_forall. split.
  - intros [Hall Hle]. split; [done|].
    assert (forall i, (i < length (impl_chars a))%nat -> exists c, impl_chars a !! i = Some c /\ literal !! i = Some c) as Hat.
    { intros i Hi. specialize (Hall (N.of_nat i)). rewrite Nat2N.id in Hall.
      destruct (lookup_lt_is_Some_2 _ _ Hi) as [c Hc]. rewrite Hc in Hall.
      assert (In (N.of_nat i) (for_range 0 (N.of_nat (length (impl_chars a))))) as Hin
        by (apply list_elem_of_In, elem_of_for_range; lia).
      specialize (Hall Hin). exists c. split; [done|].
      destruct (literal !! i) as [d|] eqn:Hd; simpl in Hall; [|done].
      destruct (d =? 0); [done|]. breflect. by subst. }
    apply list_eq. intros i. destruct (decide (i < length (impl_chars a))%nat) as [Hi|Hi].
    + destruct (Hat i Hi) as (c & -> & ->). done.
    + rewrite !lookup_ge_None_2 by lia. done.
  - intros [_ <-]. split; [|done]. intros i Hin%list_elem_of_In%elem_of_for_range.
    destruct (lookupN_is_Some (impl_chars a) i) as [c Hc]; [lia|]. rewrite Hc. simpl.
    rewrite N.eqb_refl. destruct (c =? 0) eqn:E; [|done]. breflect. subst.
    unfold literal_ok in Hlit. rewrite Forall_lookup in Hlit. by apply Hlit in Hc.
Qed.

(** ** Lemmas on numbers *)

Lemma digit_land d : d < 10 -> N.land (d + 48) 255 = d + 48.
Proof.
  intros Hd. change 255 with (N.ones 8). rewrite N.land_ones. apply N.mod_small.
  change (2 ^ 8) with 256. lia.
Qed.

Lemma digits_value_app l k : digits_value (l ++ k) = foldl (fun v d => 10 * v + (d - 48)) (digits_value l) k.
Proof. unfold digits_value. by rewrite foldl_app. Qed.

(** What the loop puts in front of the digits it has. *)
Lemma number_digits_spec fuel number digits :
  number < 10 ^ N.of_nat fuel -> (0 < fuel)%nat ->
  exists front, number_digits fuel number digits = Some (front ++ digits) /\
    digits_value front = number /\ Forall (fun d => 48 <= d < 58) front /\
    (0 < length front <= fuel)%nat /\ (number < 10 -> length front = 1%nat).
Proof.
  revert number digits. induction fuel as [|fuel IH]; intros number digits Hlt Hpos; [lia|].
  cbn [number_digits]. assert (number mod 10 < 10) as Hmod by (by apply N.mod_lt).
  rewrite digit_land by done.
  pose proof (N.div_mod number 10 ltac:(done)) as Hdm.
  destruct (number / 10 =? 0) eqn:E; breflect.
  - exists [number mod 10 + 48]. rewrite E in Hdm. unfold digits_value. cbn [foldl length].
    generalize dependent (number mod 10). intros m Hmod Hdm.
    split_and!; [done|lia| |lia..]. apply Forall_singleton; lia.
  - assert (fuel <> 0)%nat as Hf.
    { intros ->. change (10 ^ N.of_nat 1) with 10 in Hlt. by rewrite N.div_small in E. }
    destruct (IH (number / 10) (number mod 10 + 48 :: digits)) as (front & -> & Hv & Hall & Hlen & _).
    { apply N.Div0.div_lt_upper_bound. rewrite <- N.pow_succ_r'. by rewrite <- Nat2N.inj_succ. }
    { lia. }
    exists (front ++ [number mod 10 + 48]). split_and!.
    + by rewrite <- app_assoc.
    + rewrite digits_value_app, Hv. cbn [foldl]. by rewrite N.add_sub.
    + apply Forall_app. split; [done|]. apply Forall_singleton. clear -Hmod. generalize dependent (number mod 10). intros. lia.
    + rewrite length_app. cbn [length]. lia.
    + rewrite length_app. cbn [length]. lia.
    + intros Hs. by rewrite N.div_small in E.
Qed.

Lemma numberToStringUnsigned_value number :
  number < 2 ^ 32 -> exists digits, numberToStringUnsigned number = Some digits /\
    digits_value digits = number /\ Forall (fun d => 48 <= d < 58) digits /\ (length digits <= 13)%nat.
Proof.
  intros Hn. unfold numberToStringUnsigned, numberToStringImpl.
  destruct (number_digits_spec 13 number []) as (front & -> & ? & ? & ? & _); [|lia|].
  - etrans; [exact Hn|]. by vm_compute.
  - run_option. rewrite app_nil_r. exists front. split_and!; [done..|lia].
Qed.

(** The value of a key of a [HashMap] of strings. *)
Definition string_get {V} (key : WTFString) (map : list (WTFString * V)) : option V :=
  snd <$> List.find (fun e => equal_strings e.1 key) map.

(** The map without a key. *)
Definition string_remove {V} (key : WTFString) (map : list (WTFString * V)) : list (WTFString * V) :=
  List.filter (fun e => negb (equal_strings e.1 key)) map.

(** [set]: the value of a key, replaced in its place or added at the end. *)
Fixpoint string_set {V} (key : WTFString) (value : V) (map : list (WTFString * V)) : list (WTFString * V) :=
  match map with
  | [] => [(key, value)]
  | (k, v) :: map => if equal_strings k key then (k, value) :: map else (k, v) :: string_set key value map
  end.

(** ** Lemmas *)

Lemma equal_strings_text a b : equal_strings a b = true -> String_chars a = String_chars b.
Proof. by intros [_ ?]%equal_strings_spec. Qed.

Lemma equal_strings_key a b c : equal_strings a b = true -> equal_strings a c = equal_strings b c.
Proof.
  intros E. apply Bool.eq_iff_eq_true. split; intros H; [rewrite equal_strings_sym in E|]; by eapply equal_strings_trans.
Qed.

Lemma string_get_cons {V} k0 (v : V) k map : string_get k0 ((k, v) :: map) = if equal_strings k k0 then Some v else string_get k0 map.
Proof. unfold string_get. cbn [List.find fst]. by destruct (equal_strings k k0). Qed.

Lemma string_get_set {V} k key (v : V) map : string_get k (string_set key v map) = if equal_strings key k then Some v else string_get k map.
Proof.
  induction map as [|[k0 v0] map IH]; cbn [string_set].
  - rewrite string_get_cons. by destruct (equal_strings key k).
  - destruct (equal_strings k0 key) eqn:E; rewrite !string_get_cons.
    + rewrite (equal_strings_key _ _ k E). by destruct (equal_strings key k).
    + rewrite IH. destruct (equal_strings k0 k) eqn:E1; [|done]. destruct (equal_strings key k) eqn:E2; [|done].
      rewrite (equal_strings_sym key) in E2. by rewrite (equal_strings_trans _ _ _ E1 E2) in E.
Qed.

Lemma string_get_remove {V} k key (map : list (WTFString * V)) : string_get k (string_remove key map) = if equal_strings key k then None else string_get k map.
Proof.
  unfold string_remove. induction map as [|[k0 v0] map IH]; cbn [List.filter fst].
  - by destruct (equal_strings key k).
  - rewrite (string_get_cons k). destruct (equal_strings k0 key) eqn:E; cbn [negb].
    + rewrite IH, (equal_strings_key _ _ k E). by destruct (equal_strings key k).
    + rewrite string_get_cons, IH. destruct (equal_strings k0 k) eqn:E1; [|done]. destruct (equal_strings key k) eqn:E2; [|done].
      rewrite (equal_strings_sym key) in E2. by rewrite (equal_strings_trans _ _ _ E1 E2) in E.
Qed.

Lemma Forall_string_get {V} (P : WTFString * V -> Prop) key map v : Forall P map -> string_get key map = Some v ->
  exists k, equal_strings k key = true /\ P (k, v).
Proof.
  unfold string_get. intros Hall. destruct (List.find _ map) as [[k v']|] eqn:E; [|done]. intros [= <-].
  apply find_some in E as [Hin%list_elem_of_In Hk]. exists k. split; [exact Hk|]. by eapply Forall_forall in Hall.
Qed.

Lemma Forall_string_remove {V} (P : WTFString * V -> Prop) key map : Forall P map -> Forall P (string_remove key map).
Proof. unfold string_remove. rewrite !Forall_forall. intros Hall e He%list_elem_of_In%filter_In. apply Hall, list_elem_of_In, He. Qed.

Lemma Forall_string_set {V} (P : WTFString * V -> Prop) key v map : Forall P map ->
  (forall k, equal_strings k key = true -> P (k, v)) -> P (key, v) -> Forall P (string_set key v map).
Proof.
  intros Hall Hv Hk. induction Hall as [|[k v'] map He Hall IH]; cbn [string_set]; [by constructor|]. destruct (equal_strings k key) eqn:E; constructor; auto.
Qed.
