(* ===== verification/StringBuilder.v ===== *)
(** * [WTF/wtf/text/StringBuilder.h] and [.cpp]

    A builder keeps the text it has so far in a string that it was given
    ([m_string]) or in a buffer of its own that is larger than the text
    ([m_buffer]), in 8-bit characters until a character needs 16 bits.  [None]
    is a [CRASH()], an access outside of the buffer, or the use of characters of
    one width as characters of the other, which the code only excludes with
    [ASSERT].

    [hasOneRef] says whether the builder is the only owner of its buffer, which
    decides between reallocating it and copying it: nothing that is shown
    depends on it. *)

From S2P Require Import Prelude WTFString.

(** ** State *)

(** A buffer that is being filled: a [StringImpl] of [buf_length] characters
    whose first characters, [buf_data], are written. *)
Record Buffer := mkBuffer {
  buf_is8Bit : bool;
  buf_length : N;
  buf_data : list N
}.

(** WTF/wtf/text/StringBuilder.h:41-46 [StringBuilder] *)
Record StringBuilder := mkStringBuilder {
  m_length : N;
  m_string : WTFString;
  m_is8Bit : bool;
  m_buffer : option Buffer
}.

(** WTF/wtf/text/StringBuilder.h:41-46 [StringBuilder::StringBuilder] *)
Definition StringBuilder_empty : StringBuilder := mkStringBuilder 0 None true None.

(** ** Allocation *)

(** WTF/wtf/text/StringBuilder.cpp:36-40 [expandedCapacity] *)
Definition expandedCapacity (capacity requiredLength : N) : N :=
  let minimumCapacity := 16 in
  N.max requiredLength (N.max minimumCapacity (wrap32 (capacity * 2))).

(** WTF/wtf/text/StringBuilder.h:218-221 [StringBuilder::capacity] *)
Definition capacity (s : StringBuilder) : N :=
  match m_buffer s with Some b => buf_length b | None => m_length s end.

(** WTF/wtf/text/StringImpl.cpp:169-203 [StringImpl::createUninitialized] *)
Definition createUninitialized (t : CharType) (length : N) : option Buffer :=
  if length =? 0 then Some (mkBuffer true 0 [])
  else if (max32 - sizeof_StringImpl) / sizeof_CharType t <? length then None
  else Some (mkBuffer (is_LChar t) length []).

(** The characters of a buffer, as characters of the type [t]. *)
Definition buf_characters (t : CharType) (b : Buffer) : option (list N) :=
  if Bool.eqb (buf_is8Bit b) (is_LChar t) then Some (buf_data b) else None.

(** [memcpy] of [count] characters to the start of a fresh buffer. *)
Definition copy_characters (b : Buffer) (characters : list N) (count : N) : option Buffer :=
  if (count <=? N.of_nat (length characters)) && (count <=? buf_length b)
  then Some (mkBuffer (buf_is8Bit b) (buf_length b) (take (N.to_nat count) characters))
  else None.

(** WTF/wtf/text/StringBuilder.cpp:93-119 [StringBuilder::allocateBuffer] *)
Definition allocateBuffer (t : CharType) (currentCharacters : list N) (requiredLength : N)
    (s : StringBuilder) : option StringBuilder :=
  buffer ← createUninitialized t requiredLength;
  buffer ← copy_characters buffer currentCharacters (m_length s);
  Some (mkStringBuilder (m_length s) None (m_is8Bit s) (Some buffer)).

(** WTF/wtf/text/StringBuilder.cpp:121-136 [StringBuilder::allocateBufferUpConvert] *)
Definition allocateBufferUpConvert (currentCharacters : list N) (requiredLength : N)
    (s : StringBuilder) : option StringBuilder :=
  buffer ← createUninitialized UChar requiredLength;
  buffer ← copy_characters buffer currentCharacters (m_length s);
  Some (mkStringBuilder (m_length s) None false (Some buffer)).

Section StringBuilder.
Context (hasOneRef : Buffer -> bool).

(** WTF/wtf/text/StringImpl.cpp:205-225 [StringImpl::reallocate] *)
Definition reallocate (t : CharType) (b : Buffer) (length : N) : option Buffer :=
  fresh ← createUninitialized t length;
  Some (mkBuffer (buf_is8Bit fresh) (buf_length fresh) (take (N.to_nat length) (buf_data b))).

(** WTF/wtf/text/StringBuilder.cpp:138-167 [StringBuilder::reallocateBuffer] *)
Definition reallocateBuffer (t : CharType) (requiredLength : N) (s : StringBuilder)
    : option StringBuilder :=
  let s := mkStringBuilder (m_length s) None (m_is8Bit s) (m_buffer s) in
  b ← m_buffer s;
  match t with
  | LChar =>
      if hasOneRef b then
        characters ← buf_characters LChar b;
        b' ← reallocate LChar (mkBuffer true (buf_length b) characters) requiredLength;
        Some (mkStringBuilder (m_length s) None (m_is8Bit s) (Some b'))
      else characters ← buf_characters LChar b; allocateBuffer LChar characters requiredLength s
  | UChar =>
      if buf_is8Bit b then allocateBufferUpConvert (buf_data b) requiredLength s
      else if hasOneRef b then
        b' ← reallocate UChar b requiredLength;
        Some (mkStringBuilder (m_length s) None (m_is8Bit s) (Some b'))
      else allocateBuffer UChar (buf_data b) requiredLength s
  end.

(** WTF/wtf/text/StringBuilder.cpp:169-191 [StringBuilder::reserveCapacity] *)
Definition reserveCapacity (newCapacity : N) (s : StringBuilder) : option StringBuilder :=
  match m_buffer s with
  | Some b =>
      if buf_length b <? newCapacity
      then reallocateBuffer (if buf_is8Bit b then LChar else UChar) newCapacity s
      else Some s
  | None =>
      if m_length s <? newCapacity then
        if m_length s =? 0 then allocateBuffer LChar [] newCapacity s
        else
          wide ← String_is8Bit (m_string s);
          let t := if (wide : bool) then LChar else UChar in
          characters ← String_characters t (m_string s);
          allocateBuffer t characters newCapacity s
      else Some s
  end.

(** ** Appending *)

(** WTF/wtf/text/StringBuilder.cpp:217-237 [StringBuilder::appendUninitializedSlow]; the pointer
    that is returned is an offset in the buffer *)
Definition appendUninitializedSlow (t : CharType) (requiredLength : N) (s : StringBuilder)
    : option (StringBuilder * N) :=
  s ← match m_buffer s with
      | Some _ => reallocateBuffer t (expandedCapacity (capacity s) requiredLength) s
      | None =>
          characters ← (if m_length s =? 0 then Some [] else String_characters t (m_string s));
          allocateBuffer t characters (expandedCapacity (capacity s) requiredLength) s
      end;
  Some (mkStringBuilder requiredLength (m_string s) (m_is8Bit s) (m_buffer s), m_length s).

(** WTF/wtf/text/StringBuilder.cpp:193-215 [StringBuilder::appendUninitialized] *)
Definition appendUninitialized (t : CharType) (length : N) (s : StringBuilder)
    : option (StringBuilder * N) :=
  let requiredLength := wrap32 (length + m_length s) in
  if requiredLength <? length then None
  else match m_buffer s with
       | Some b =>
           if requiredLength <=? buf_length b
           then Some (mkStringBuilder requiredLength None (m_is8Bit s) (m_buffer s), m_length s)
           else appendUninitializedSlow t requiredLength s
       | None => appendUninitializedSlow t requiredLength s
       end.

(** The writing of characters of the type [t] at [getBufferCharacters<t>() + offset]. *)
Definition write_characters (t : CharType) (offset : N) (characters : list N) (s : StringBuilder)
    : option StringBuilder :=
  b ← m_buffer s;
  data ← buf_characters t b;
  if (offset <=? N.of_nat (length data))
     && (offset + N.of_nat (length characters) <=? buf_length b)
  then Some (mkStringBuilder (m_length s) (m_string s) (m_is8Bit s)
               (Some (mkBuffer (buf_is8Bit b) (buf_length b) (take (N.to_nat offset) data ++ characters))))
  else None.

(** WTF/wtf/text/StringBuilder.cpp:275-296 [StringBuilder::append], of [LChar] characters *)
Definition append8 (characters : list N) (s : StringBuilder) : option StringBuilder :=
  let count := N.of_nat (length characters) in
  if count =? 0 then Some s
  else
    let t := if m_is8Bit s then LChar else UChar in
    '(s, dest) ← appendUninitialized t count s;
    write_characters t dest characters s.

(** [c & ~0xff], of a 16-bit character. *)
Definition needs_16_bits (c : N) : bool := negb (N.land c 4294967040 =? 0).

(** WTF/wtf/text/StringBuilder.cpp:251-266 [StringBuilder::append]: the change to 16 bits *)
Definition append16_upconvert (characters : list N) (s : StringBuilder) : option StringBuilder :=
  let count := N.of_nat (length characters) in
  let requiredLength := wrap32 (count + m_length s) in
  if requiredLength <? count then None
  else
    s ← match m_buffer s with
        | Some b =>
            current ← buf_characters LChar b;
            allocateBufferUpConvert current (expandedCapacity (capacity s) requiredLength) s
        | None =>
            current ← String_characters LChar (m_string s);
            allocateBufferUpConvert current (expandedCapacity (capacity s) requiredLength) s
        end;
    s ← write_characters UChar (m_length s) characters s;
    Some (mkStringBuilder requiredLength (m_string s) (m_is8Bit s) (m_buffer s)).

(** WTF/wtf/text/StringBuilder.cpp:239-273 [StringBuilder::append], of [UChar] characters *)
Definition append16 (characters : list N) (s : StringBuilder) : option StringBuilder :=
  let count := N.of_nat (length characters) in
  if count =? 0 then Some s
  else if m_is8Bit s then
    match characters with
    | [c] => if negb (needs_16_bits c) then append8 [wrap8 c] s else append16_upconvert characters s
    | _ => append16_upconvert characters s
    end
  else
    '(s, dest) ← appendUninitialized UChar count s;
    write_characters UChar dest characters s.

(** [append(string.characters8(), n)] or [append(string.characters16(), n)], by the width. *)
Definition append_width (is8Bit : bool) (characters : list N) (s : StringBuilder) : option StringBuilder :=
  if is8Bit then append8 characters s else append16 characters s.

(** WTF/wtf/text/StringBuilder.h:53-71 [StringBuilder::append], of a [String] *)
Definition append_String (string : WTFString) (s : StringBuilder) : option StringBuilder :=
  if String_length string =? 0 then Some s
  else
    wide ← String_is8Bit string;
    if (m_length s =? 0) && negb (bool_decide (is_Some (m_buffer s)))
    then Some (mkStringBuilder (String_length string) string wide (m_buffer s))
    else append_width wide (String_chars string) s.

(** WTF/wtf/text/StringBuilder.h:237-257 [StringBuilder::characters8]
    and [StringBuilder::characters16] *)
Definition builder_characters (t : CharType) (s : StringBuilder) : option (list N) :=
  if m_length s =? 0 then Some []
  else if negb (String_isNull (m_string s)) then String_characters t (m_string s)
  else b ← m_buffer s; buf_characters t b.

(** WTF/wtf/text/StringBuilder.h:73-90 [StringBuilder::append], of a [StringBuilder] *)
Definition append_StringBuilder (other s : StringBuilder) : option StringBuilder :=
  if m_length other =? 0 then Some s
  else if (m_length s =? 0) && negb (bool_decide (is_Some (m_buffer s)))
          && negb (String_isNull (m_string other))
  then Some (mkStringBuilder (m_length other) (m_string other) (m_is8Bit s) (m_buffer s))
  else
    characters ← builder_characters (if m_is8Bit other then LChar else UChar) other;
    append_width (m_is8Bit other) (take (N.to_nat (m_length other)) characters) s.

(** WTF/wtf/text/StringBuilder.h:100-112 [StringBuilder::append], of a part of a [String] *)
Definition append_substring (string : WTFString) (offset count : N) (s : StringBuilder)
    : option StringBuilder :=
  if String_length string =? 0 then Some s
  else if String_length string <? wrap32 (offset + count) then Some s
  else
    wide ← String_is8Bit string;
    if offset + count <=? String_length string
    then append_width wide (take (N.to_nat count) (drop (N.to_nat offset) (String_chars string))) s
    else None.

(** [m_buffer && m_length < m_buffer->length() && m_string.isNull()] *)
Definition has_room (s : StringBuilder) : bool :=
  match m_buffer s with
  | Some b => (m_length s <? buf_length b) && String_isNull (m_string s)
  | None => false
  end.

(** [m_bufferCharacters[m_length++] = c] *)
Definition push_character (t : CharType) (c : N) (s : StringBuilder) : option StringBuilder :=
  s' ← write_characters t (m_length s) [c] s;
  Some (mkStringBuilder (m_length s' + 1) (m_string s') (m_is8Bit s') (m_buffer s')).

(** WTF/wtf/text/StringBuilder.h:120-134 [StringBuilder::append], of a [UChar] *)
Definition append_UChar (c : N) (s : StringBuilder) : option StringBuilder :=
  if has_room s then
    if negb (m_is8Bit s) then push_character UChar c s
    else if negb (needs_16_bits c) then push_character LChar (wrap8 c) s
    else append16 [c] s
  else append16 [c] s.

(** WTF/wtf/text/StringBuilder.h:136-145 [StringBuilder::append], of an [LChar] *)
Definition append_LChar (c : N) (s : StringBuilder) : option StringBuilder :=
  if has_room s then
    if m_is8Bit s then push_character LChar c s else push_character UChar c s
  else append8 [c] s.

(** WTF/wtf/text/StringBuilder.h:152-160 [StringBuilder::append], of a [UChar32]: the macros of ICU
    cut a supplementary character into two surrogates *)
Definition append_UChar32 (c : N) (s : StringBuilder) : option StringBuilder :=
  if c <=? 65535 then append_UChar (wrap16 c) s
  else
    s ← append_UChar (wrap16 (N.shiftr c 10 + 55232)) s;
    append_UChar (N.lor (N.land c 1023) 56320) s.

(** WTF/wtf/text/StringBuilder.cpp:303-306 [StringBuilder::appendNumber] *)
Definition appendNumber (number : N) (s : StringBuilder) : option StringBuilder :=
  digits ← numberToStringUnsigned number;
  append8 digits s.

(** WTF/wtf/text/StringBuilder.cpp:298-301 [StringBuilder::appendNumber] *)
Definition appendNumber_signed (number : Z) (s : StringBuilder) : option StringBuilder :=
  digits ← numberToStringSigned number;
  append8 digits s.

(** ** The text *)

(** WTF/wtf/text/StringBuilder.cpp:42-62 [StringBuilder::reifyString] *)
Definition reifyString (s : StringBuilder) : option StringBuilder :=
  if negb (String_isNull (m_string s)) then Some s
  else if m_length s =? 0
  then Some (mkStringBuilder (m_length s) (Some StringImpl_empty) (m_is8Bit s) (m_buffer s))
  else
    b ← m_buffer s;
    if m_length s =? buf_length b
    then Some (mkStringBuilder (m_length s) (Some (mkImpl (buf_is8Bit b) (buf_data b)))
                 (m_is8Bit s) (m_buffer s))
    else Some (mkStringBuilder (m_length s)
                 (Some (mkImpl (buf_is8Bit b) (take (N.to_nat (m_length s)) (buf_data b))))
                 (m_is8Bit s) (m_buffer s)).

(** WTF/wtf/text/StringBuilder.cpp:64-91 [StringBuilder::resize] *)
Definition resize (newSize : N) (s : StringBuilder) : option StringBuilder :=
  if newSize =? m_length s then Some s
  else match m_buffer s with
       | Some b =>
           let s := mkStringBuilder (m_length s) None (m_is8Bit s) (m_buffer s) in
           s ← (if negb (hasOneRef b)
                then allocateBuffer (if buf_is8Bit b then LChar else UChar) (buf_data b) (buf_length b) s
                else Some s);
           Some (mkStringBuilder newSize (m_string s) (m_is8Bit s) (m_buffer s))
       | None =>
           impl ← m_string s;
           Some (mkStringBuilder newSize
             (Some (if newSize =? 0 then StringImpl_empty
                    else mkImpl (impl_is8Bit impl) (take (N.to_nat newSize) (impl_chars impl))))
             (m_is8Bit s) None)
       end.

(** WTF/wtf/text/StringBuilder.cpp:346-350 [StringBuilder::canShrink] *)
Definition canShrink (s : StringBuilder) : bool :=
  match m_buffer s with
  | Some b => wrap32 (m_length s + N.shiftr (m_length s) 2) <? buf_length b
  | None => false
  end.

(** WTF/wtf/text/StringBuilder.cpp:352-361 [StringBuilder::shrinkToFit] *)
Definition shrinkToFit (s : StringBuilder) : option StringBuilder :=
  if canShrink s then
    s ← reallocateBuffer (if m_is8Bit s then LChar else UChar) (m_length s) s;
    b ← m_buffer s;
    Some (mkStringBuilder (m_length s) (Some (mkImpl (buf_is8Bit b) (buf_data b))) (m_is8Bit s) None)
  else Some s.

(** WTF/wtf/text/StringBuilder.h:175-181 [StringBuilder::toString] *)
Definition toString (s : StringBuilder) : option (StringBuilder * WTFString) :=
  s ← shrinkToFit s;
  s ← (if String_isNull (m_string s) then reifyString s else Some s);
  Some (s, m_string s).

(** WTF/wtf/text/StringBuilder.h:261-268 [StringBuilder::clear] *)
Definition clear (s : StringBuilder) : StringBuilder := StringBuilder_empty.

(** WTF/wtf/text/StringBuilder.h:229-235 [StringBuilder::operator[]] *)
Definition char_at (i : N) (s : StringBuilder) : option N :=
  characters ← builder_characters (if m_is8Bit s then LChar else UChar) s;
  characters !!N i.
End StringBuilder.
