(* ===== verification/StringBuilderCorrect.v ===== *)
(** * [StringBuilder]: the theorems

    A builder is a list of characters: [repr s l] relates a state of the builder
    to its text, every operation is the operation on lists, and none crashes as
    long as the text stays under [builder_limit] characters
    ([builder_refines]).  Three uses break the builder: appending a builder of
    16-bit characters to an empty one, reserving room in a builder of 16-bit
    characters that was emptied, and a part of a string whose bounds overflow
    ([builder_divergences]). *)

From S2P Require Import Prelude WTFString StringBuilder.

(** The length up to which the buffers can be allocated. *)
Definition builder_limit : N := 500000000.

Definition type_of (s : StringBuilder) : CharType := if m_is8Bit s then LChar else UChar.

Definition width_ok (is8Bit : bool) (c : N) : Prop := c < (if is8Bit then 256 else 65536).

Definition capacity_limit (is8Bit : bool) : N := if is8Bit then 1000000000 else 2000000000.

(** The buffer of [s] starts with [l]. *)
Record buffered (is8Bit : bool) (b : Buffer) (l : list N) : Prop := {
  bd_width : buf_is8Bit b = is8Bit;
  bd_text : take (length l) (buf_data b) = l;
  bd_data : N.of_nat (length (buf_data b)) <= buf_length b;
  bd_limit : buf_length b <= capacity_limit is8Bit
}.

(** The state [s] holds the text [l]. *)
Record repr (s : StringBuilder) (l : list N) : Prop := {
  rp_length : m_length s = N.of_nat (length l);
  rp_limit : m_length s <= builder_limit;
  rp_empty : l = [] -> m_is8Bit s = true;
  rp_width : Forall (width_ok (m_is8Bit s)) l;
  rp_string : forall impl, m_string s = Some impl ->
    impl_chars impl = l /\ impl_is8Bit impl = m_is8Bit s;
  rp_buffer : match m_buffer s with
              | Some b => buffered (m_is8Bit s) b l
              | None => l <> [] -> is_Some (m_string s)
              end
}.

(** The state after room for [count] characters was made behind [l]. *)
Record ready (s : StringBuilder) (is8Bit : bool) (l : list N) (count : N) : Prop := {
  rd_length : m_length s = N.of_nat (length l) + count;
  rd_limit : m_length s <= builder_limit;
  rd_string : m_string s = None;
  rd_width : m_is8Bit s = is8Bit;
  rd_buffer : exists b, m_buffer s = Some b /\ buffered is8Bit b l /\
    N.of_nat (length l) + count <= buf_length b
}.

(** ** Helpers *)

Lemma land_high_byte c : N.land c (N.shiftl (N.ones 24) 8) = N.shiftl (N.land (N.shiftr c 8) (N.ones 24)) 8.
Proof.
  apply N.bits_inj. intros i. rewrite N.land_spec. destruct (decide (i < 8)) as [Hi|Hi].
  - rewrite !N.shiftl_spec_low by done. apply andb_false_r.
  - rewrite !N.shiftl_spec_high' by lia. rewrite N.land_spec, N.shiftr_spec'.
    by replace (i - 8 + 8) with i by lia.
Qed.

Lemma needs_16_bits_spec c : c < 65536 -> needs_16_bits c = (256 <=? c).
Proof.
  intros Hc. unfold needs_16_bits. change 4294967040 with (N.shiftl (N.ones 24) 8).
  rewrite land_high_byte, N.land_ones, N.shiftr_div_pow2, N.shiftl_mul_pow2.
  change (2 ^ 24) with 16777216. change (2 ^ 8) with 256.
  assert (c / 256 < 256) as Hdiv by (apply N.Div0.div_lt_upper_bound; lia).
  rewrite N.mod_small by (generalize dependent (c / 256); lia).
  destruct (256 <=? c) eqn:E; breflect; apply negb_true_iff || apply negb_false_iff.
  - apply N.eqb_neq. assert (1 <= c / 256) by (by apply N.div_le_lower_bound). generalize dependent (c / 256). lia.
  - by rewrite N.div_small.
Qed.

Lemma expandedCapacity_bounds cap required :
  required <= expandedCapacity cap required <= N.max required (N.max 16 (2 * cap)) /\
  16 <= expandedCapacity cap required.
Proof.
  unfold expandedCapacity. assert (wrap32 (cap * 2) <= cap * 2) by (apply N.Div0.mod_le). lia.
Qed.

Lemma createUninitialized_Some t n :
  0 < n <= capacity_limit (is_LChar t) -> createUninitialized t n = Some (mkBuffer (is_LChar t) n []).
Proof.
  intros Hn. unfold createUninitialized. destruct (n =? 0) eqn:E0; breflect; [lia|].
  destruct (_ <? n) eqn:E; breflect; [|done]. destruct t; unfold capacity_limit, is_LChar in Hn.
  - change ((max32 - sizeof_StringImpl) / sizeof_CharType LChar) with 4294967271 in E. lia.
  - change ((max32 - sizeof_StringImpl) / sizeof_CharType UChar) with 2147483635 in E. lia.
Qed.

Lemma is_LChar_type_of s : is_LChar (type_of s) = m_is8Bit s.
Proof. unfold type_of. by destruct (m_is8Bit s). Qed.

Lemma copy_characters_Some b l more :
  N.of_nat (length l) <= buf_length b ->
  copy_characters b (l ++ more) (N.of_nat (length l)) = Some (mkBuffer (buf_is8Bit b) (buf_length b) l).
Proof.
  intros H. unfold copy_characters. rewrite length_app.
  replace (_ <=? _) with true by (symmetry; apply N.leb_le; lia).
  replace (_ <=? buf_length b) with true by (symmetry; by apply N.leb_le).
  simpl. by rewrite Nat2N.id, take_app_length.
Qed.

Lemma take_prefix {A} (l data : list A) :
  take (length l) data = l -> data = l ++ drop (length l) data.
Proof. intros H. rewrite <- H at 1. by rewrite take_drop. Qed.

Lemma buffered_fresh is8Bit n l :
  N.of_nat (length l) <= n <= capacity_limit is8Bit -> buffered is8Bit (mkBuffer is8Bit n l) l.
Proof. intros H. split; simpl; [done|by rewrite take_ge by lia|lia..]. Qed.

Lemma eqb_width (a b : bool) : a = b -> Bool.eqb a b = true.
Proof. intros ->. apply Bool.eqb_reflx. Qed.

(** The characters a builder without a buffer has. *)
Lemma repr_string_characters s l :
  repr s l -> m_buffer s = None -> l <> [] -> String_characters (type_of s) (m_string s) = Some l.
Proof.
  intros [? ? ? ? Hstr Hbuf] Hnone Hne. rewrite Hnone in Hbuf. destruct (Hbuf Hne) as [impl Himpl].
  destruct (Hstr impl Himpl) as [<- Hw]. rewrite Himpl. simpl.
  by rewrite Hw, is_LChar_type_of, Bool.eqb_reflx.
Qed.

Lemma allocateBuffer_ready t n s l more :
  m_length s = N.of_nat (length l) -> m_length s <= n -> 0 < n <= capacity_limit (is_LChar t) ->
  allocateBuffer t (l ++ more) n s =
    Some (mkStringBuilder (m_length s) None (m_is8Bit s) (Some (mkBuffer (is_LChar t) n l))).
Proof.
  intros Hlen Hle Hn. unfold allocateBuffer. rewrite createUninitialized_Some by done. run_option.
  rewrite Hlen, copy_characters_Some by (simpl; lia). done.
Qed.

Lemma allocateBufferUpConvert_ready n s l more :
  m_length s = N.of_nat (length l) -> m_length s <= n -> 0 < n <= capacity_limit false ->
  allocateBufferUpConvert (l ++ more) n s =
    Some (mkStringBuilder (m_length s) None false (Some (mkBuffer false n l))).
Proof.
  intros Hlen Hle Hn. unfold allocateBufferUpConvert. rewrite createUninitialized_Some by done. run_option.
  rewrite Hlen, copy_characters_Some by (simpl; lia). done.
Qed.

Section Correct.
Context (hasOneRef : Buffer -> bool).

(** ** Making room *)

Lemma reallocateBuffer_spec n s l b :
  repr s l -> m_buffer s = Some b -> m_length s <= n -> 0 < n <= capacity_limit (m_is8Bit s) ->
  exists b', reallocateBuffer hasOneRef (type_of s) n s =
      Some (mkStringBuilder (m_length s) None (m_is8Bit s) (Some b')) /\
    buffered (m_is8Bit s) b' l /\ buf_length b' = n /\ (m_length s = n -> buf_data b' = l).
Proof.
  intros [Hlen ? ? ? ? Hbuf] Hb Hle Hn. rewrite Hb in Hbuf. destruct Hbuf as [Hw Ht Hd Hlim].
  pose proof (take_prefix _ _ Ht) as Hdata. unfold reallocateBuffer, type_of.
  cbn [m_buffer m_length m_is8Bit]. rewrite Hb. run_option.
  assert (forall data, data = l ++ drop (length l) data ->
    buffered (m_is8Bit s) (mkBuffer (m_is8Bit s) n (take (N.to_nat n) data)) l /\
    (m_length s = n -> take (N.to_nat n) data = l)) as Hre.
  { intros data Hpre. split.
    - split; simpl; [done| |rewrite length_take; lia|lia].
      rewrite take_take, Nat.min_l by lia. rewrite Hpre. apply take_app_length.
    - intros Heq. rewrite <- Heq, Hlen, Nat2N.id, Hpre. apply take_app_length. }
  destruct (m_is8Bit s) eqn:E8; cbn iota.
  - assert (buf_characters LChar b = Some (buf_data b)) as -> by (unfold buf_characters; by rewrite Hw).
    destruct (hasOneRef b); run_option.
    + unfold reallocate. rewrite createUninitialized_Some by done. run_option. cbn [buf_data buf_is8Bit buf_length is_LChar].
      eexists. split; [done|]. destruct (Hre (buf_data b) Hdata). done.
    + rewrite Hdata. rewrite (allocateBuffer_ready LChar n (mkStringBuilder (m_length s) None true (Some b)) l) by done.
      eexists. split; [done|]. split_and!; [by apply buffered_fresh; simpl in *; lia|done..].
  - rewrite Hw. destruct (hasOneRef b); run_option.
    + unfold reallocate. rewrite createUninitialized_Some by done. run_option. cbn [buf_data buf_is8Bit buf_length is_LChar].
      eexists. split; [done|]. destruct (Hre (buf_data b) Hdata). done.
    + rewrite Hdata. rewrite (allocateBuffer_ready UChar n (mkStringBuilder (m_length s) None false (Some b)) l) by done.
      eexists. split; [done|]. split_and!; [by apply buffered_fresh; simpl in *; lia|done..].
Qed.

Lemma capacity_limit_ge is8Bit : 1000000000 <= capacity_limit is8Bit.
Proof. by destruct is8Bit. Qed.

Lemma appendUninitialized_spec s l count :
  repr s l -> 0 < count -> N.of_nat (length l) + count <= builder_limit ->
  exists s', appendUninitialized hasOneRef (type_of s) count s = Some (s', N.of_nat (length l)) /\
    ready s' (m_is8Bit s) l count.
Proof.
  intros Hrepr Hpos Hlimit. pose proof Hrepr as [Hlen Hlim Hemp Hwid Hstr Hbuf]. unfold builder_limit in *.
  unfold appendUninitialized. rewrite wrap32_id by lia.
  destruct (_ <? count) eqn:E; breflect; [lia|]. clear E.
  pose proof (capacity_limit_ge (m_is8Bit s)) as Hcl.
  destruct (m_buffer s) as [b|] eqn:Eb.
  - destruct (_ <=? buf_length b) eqn:Efit; breflect.
    + eexists. split; [by rewrite Hlen|]. split; cbn [m_length m_string m_is8Bit m_buffer]; [lia|unfold builder_limit; lia|done|done|].
      exists b. split_and!; [done|done|lia].
    + unfold appendUninitializedSlow. rewrite Eb. unfold capacity. rewrite Eb.
      pose proof (expandedCapacity_bounds (buf_length b) (count + m_length s)) as [Hcap ?].
      destruct (reallocateBuffer_spec (expandedCapacity (buf_length b) (count + m_length s)) s l b)
        as (b' & -> & Hb' & Hl' & _); [done|done|lia|lia|].
      run_option. cbn [m_length m_string m_is8Bit m_buffer]. eexists. split; [by rewrite Hlen|]. split; cbn [m_length m_string m_is8Bit m_buffer]; [lia|unfold builder_limit; lia|done|done|].
      exists b'. split_and!; [done|done|lia].
  - unfold appendUninitializedSlow. rewrite Eb. unfold capacity. rewrite Eb.
    pose proof (expandedCapacity_bounds (m_length s) (count + m_length s)) as [Hcap ?].
    assert ((if m_length s =? 0 then Some [] else String_characters (type_of s) (m_string s)) = Some l) as ->.
    { destruct (m_length s =? 0) eqn:E0; breflect.
      - destruct l; [done|simpl in Hlen; lia].
      - apply repr_string_characters; [done|done|]. intros ->. simpl in Hlen. lia. }
    run_option. pose proof (allocateBuffer_ready (type_of s) (expandedCapacity (m_length s) (count + m_length s)) s l [])
      as Halloc. rewrite app_nil_r, is_LChar_type_of in Halloc.
    rewrite Halloc by lia. run_option. cbn [m_length m_string m_is8Bit m_buffer].
    eexists. split; [by rewrite Hlen|]. split; cbn [m_length m_string m_is8Bit m_buffer]; [lia|unfold builder_limit; lia|done|done|].
    eexists. rewrite <- Hlen. split_and!; [done| |cbn [buf_length]; lia]. apply buffered_fresh. lia.
Qed.

Lemma write_ready s is8Bit l cs :
  ready s is8Bit l (N.of_nat (length cs)) -> cs <> [] -> Forall (width_ok is8Bit) (l ++ cs) ->
  exists s', write_characters (type_of s) (N.of_nat (length l)) cs s = Some s' /\ repr s' (l ++ cs) /\
    m_length s' = m_length s.
Proof.
  intros [Hlen Hlim Hstr Hw (b & Hb & [Hbw Hbt Hbd Hbl] & Hroom)] Hne Hwid.
  unfold write_characters. rewrite Hb. run_option. unfold buf_characters.
  rewrite eqb_width by (rewrite is_LChar_type_of; congruence). run_option.
  assert (length l <= length (buf_data b))%nat by (rewrite <- Hbt, length_take; lia).
  destruct (N.of_nat (length l) <=? N.of_nat (length (buf_data b))) eqn:E; breflect; [|lia].
  destruct (_ <=? buf_length b) eqn:E2; breflect; [|lia]. cbn [andb]. rewrite Nat2N.id, Hbt.
  eexists. split; [done|]. split; [|done]. rewrite <- Hw in *.
  split; cbn [m_length m_is8Bit m_string m_buffer]; [rewrite length_app; lia|done| |done|congruence|].
  - intros ?%app_eq_nil. naive_solver.
  - split; simpl; [congruence|by rewrite take_ge|rewrite length_app; lia|done].
Qed.
Definition with_length (n : N) (s : StringBuilder) : StringBuilder :=
  mkStringBuilder n (m_string s) (m_is8Bit s) (m_buffer s).

Lemma write_with_length t offset cs s n :
  write_characters t offset cs (with_length n s) = with_length n <$> write_characters t offset cs s.
Proof.
  unfold write_characters, with_length. cbn [m_buffer m_length m_string m_is8Bit].
  destruct (m_buffer s); [|done]. cbn [mbind option_bind].
  destruct (buf_characters t b); [|done]. cbn [mbind option_bind]. by destruct (_ && _).
Qed.

Lemma write_keeps_length t offset cs s s' :
  write_characters t offset cs s = Some s' -> m_length s' = m_length s.
Proof.
  unfold write_characters. destruct (m_buffer s); [|done]. cbn [mbind option_bind].
  destruct (buf_characters t b); [|done]. cbn [mbind option_bind].
  destruct (_ && _); [|done]. by intros [= <-].
Qed.

(** Writing first and counting afterwards. *)
Lemma write_then_length s n is8Bit l cs :
  ready (with_length n s) is8Bit l (N.of_nat (length cs)) -> cs <> [] -> Forall (width_ok is8Bit) (l ++ cs) ->
  exists s1, write_characters (type_of s) (N.of_nat (length l)) cs s = Some s1 /\
    repr (with_length n s1) (l ++ cs).
Proof.
  intros Hready Hne Hwid. destruct (write_ready _ _ _ _ Hready Hne Hwid) as (s2 & Hw & Hr & _).
  rewrite write_with_length in Hw. change (type_of (with_length n s)) with (type_of s) in Hw.
  destruct (write_characters _ _ _ s) as [s1|]; [|done]. injection Hw as <-. by exists s1.
Qed.

Lemma nonempty_cons {A} (cs : list A) : N.of_nat (length cs) =? 0 = false -> cs <> [].
Proof. by destruct cs. Qed.

Lemma width_ok_weaken is8Bit cs : Forall (width_ok true) cs -> Forall (width_ok is8Bit) cs.
Proof. intros H. eapply Forall_impl; [exact H|]. unfold width_ok. destruct is8Bit; intros; lia. Qed.

(** Room for characters, and their writing. *)
Lemma append_chars_repr s l cs :
  repr s l -> cs <> [] -> Forall (width_ok (m_is8Bit s)) cs ->
  N.of_nat (length l) + N.of_nat (length cs) <= builder_limit ->
  exists s', ('(s1, dest) ← appendUninitialized hasOneRef (type_of s) (N.of_nat (length cs)) s;
              write_characters (type_of s) dest cs s1) = Some s' /\ repr s' (l ++ cs).
Proof.
  intros Hrepr Hne Hwid Hlim.
  destruct (appendUninitialized_spec s l (N.of_nat (length cs)) Hrepr) as (s1 & -> & Hready);
    [destruct cs; [done|simpl; lia]|done|].
  run_option. destruct (write_ready _ _ _ _ Hready Hne) as (s2 & Hw & Hr & _).
  - apply Forall_app. split; [apply Hrepr|done].
  - exists s2. unfold type_of in *. by rewrite (rd_width _ _ _ _ Hready) in Hw.
Qed.

Lemma append8_repr s l cs :
  repr s l -> Forall (width_ok true) cs -> N.of_nat (length l) + N.of_nat (length cs) <= builder_limit ->
  exists s', append8 hasOneRef cs s = Some s' /\ repr s' (l ++ cs).
Proof.
  intros Hrepr Hwid Hlim. unfold append8. destruct (_ =? 0) eqn:E.
  - destruct cs; [|done]. rewrite app_nil_r. by exists s.
  - apply nonempty_cons in E.
    apply append_chars_repr; [done|done|by apply width_ok_weaken|done].
Qed.

Lemma upconvert_repr s l cs :
  repr s l -> m_is8Bit s = true -> cs <> [] -> Forall (width_ok false) cs ->
  N.of_nat (length l) + N.of_nat (length cs) <= builder_limit ->
  exists s', append16_upconvert cs s = Some s' /\ repr s' (l ++ cs).
Proof.
  intros Hrepr H8 Hne Hwid Hlimit. pose proof Hrepr as [Hlen Hlim Hemp Hw8 Hstr Hbuf].
  unfold append16_upconvert, builder_limit in *.
  assert (0 < length cs)%nat as Hpos by (destruct cs; [done|simpl; lia]).
  rewrite wrap32_id by lia. destruct (_ <? N.of_nat (length cs)) eqn:E; breflect; [lia|]. clear E.
  set (n := N.of_nat (length cs) + m_length s).
  assert (exists cap, match m_buffer s with
    | Some b => current ← buf_characters LChar b; allocateBufferUpConvert current (expandedCapacity (capacity s) n) s
    | None => current ← String_characters LChar (m_string s);
              allocateBufferUpConvert current (expandedCapacity (capacity s) n) s
    end = Some (mkStringBuilder (m_length s) None false (Some (mkBuffer false cap l))) /\
    n <= cap <= capacity_limit false) as (cap & -> & Hcap).
  { unfold capacity. destruct (m_buffer s) as [b|] eqn:Eb.
    - destruct Hbuf as [Hbw Hbt Hbd Hbl]. unfold buf_characters. rewrite Hbw, H8. simpl. run_option.
      rewrite H8 in Hbl. pose proof (expandedCapacity_bounds (buf_length b) n).
      rewrite (take_prefix _ _ Hbt). exists (expandedCapacity (buf_length b) n).
      unfold capacity_limit in *. rewrite allocateBufferUpConvert_ready by (unfold capacity_limit; lia).
      split; [done|lia].
    - assert (String_characters LChar (m_string s) = Some l) as ->.
      { destruct (m_string s) as [impl|] eqn:Es.
        - destruct (Hstr impl eq_refl) as [<- Hw]. simpl. by rewrite Hw, H8.
        - simpl. destruct l; [done|]. by destruct (Hbuf ltac:(done)). }
      run_option. pose proof (expandedCapacity_bounds (m_length s) n).
      exists (expandedCapacity (m_length s) n).
      pose proof (allocateBufferUpConvert_ready (expandedCapacity (m_length s) n) s l []) as Ha.
      rewrite app_nil_r in Ha. unfold capacity_limit in *. rewrite Ha by lia. split; [done|lia]. }
  run_option.
  destruct (write_then_length (mkStringBuilder (m_length s) None false (Some (mkBuffer false cap l))) n false l cs)
    as (s1 & Hw & Hr); [|done| |].
  - split; cbn; [lia|unfold builder_limit; lia|done|done|]. eexists.
    split_and!; [done|apply buffered_fresh; lia|cbn; lia].
  - apply Forall_app. split; [|done]. rewrite H8 in Hw8. by apply width_ok_weaken.
  - cbn [m_length]. unfold type_of in Hw. cbn [m_is8Bit] in Hw. rewrite Hlen in Hw |- *. rewrite Hw. run_option. by eexists.
Qed.

Lemma append16_repr s l cs :
  repr s l -> Forall (width_ok false) cs -> N.of_nat (length l) + N.of_nat (length cs) <= builder_limit ->
  exists s', append16 hasOneRef cs s = Some s' /\ repr s' (l ++ cs).
Proof.
  intros Hrepr Hwid Hlim. unfold append16. destruct (_ =? 0) eqn:E.
  { destruct cs; [|done]. rewrite app_nil_r. by exists s. }
  apply nonempty_cons in E. destruct (m_is8Bit s) eqn:E8.
  - destruct cs as [|c [|c' cs]]; [done| |by apply upconvert_repr].
    destruct (needs_16_bits c) eqn:Ec; simpl; [by apply upconvert_repr|].
    rewrite Forall_singleton in Hwid. rewrite needs_16_bits_spec in Ec by exact Hwid. breflect.
    rewrite wrap8_id by done. apply append8_repr; [done|by apply Forall_singleton|done].
  - replace UChar with (type_of s) by (unfold type_of; by rewrite E8).
    apply append_chars_repr; [done|done|by rewrite E8|done].
Qed.

Lemma append_width_repr s l is8Bit cs :
  repr s l -> Forall (width_ok is8Bit) cs -> N.of_nat (length l) + N.of_nat (length cs) <= builder_limit ->
  exists s', append_width hasOneRef is8Bit cs s = Some s' /\ repr s' (l ++ cs).
Proof. destruct is8Bit; [apply append8_repr|apply append16_repr]. Qed.

(** A string whose characters fit its width. *)
Definition string_ok (string : WTFString) : Prop :=
  match string with None => True | Some impl => Forall (width_ok (impl_is8Bit impl)) (impl_chars impl) end.

Lemma String_length_chars string : String_length string = N.of_nat (length (String_chars string)).
Proof. by destruct string. Qed.

Lemma has_no_text s l : repr s l -> m_length s =? 0 = true -> l = [].
Proof. intros [Hlen _ _ _ _ _] E. breflect. destruct l; [done|simpl in Hlen; lia]. Qed.

Lemma append_String_repr s l string :
  repr s l -> string_ok string -> N.of_nat (length l) + String_length string <= builder_limit ->
  exists s', append_String hasOneRef string s = Some s' /\ repr s' (l ++ String_chars string).
Proof.
  intros Hrepr Hok Hlim. unfold append_String. rewrite String_length_chars in *.
  destruct (_ =? 0) eqn:E.
  { destruct (String_chars string); [|done]. rewrite app_nil_r. by exists s. }
  apply nonempty_cons in E. destruct string as [impl|]; [|done]. simpl in *. run_option.
  destruct (m_length s =? 0) eqn:E0; [|by apply append_width_repr].
  case_bool_decide as Hb; simpl; [by apply append_width_repr|].
  pose proof (has_no_text s l Hrepr E0) as ->. eexists. split; [done|].
  simpl. split; cbn [m_length m_string m_is8Bit m_buffer]; [done|simpl in Hlim; lia|done|done| |].
  - by intros ? [= <-].
  - destruct (m_buffer s); [|done]. exfalso. eauto.
Qed.

Lemma push_character_repr s l c :
  repr s l -> has_room s = true -> width_ok (m_is8Bit s) c -> N.of_nat (length l) + 1 <= builder_limit ->
  exists s', push_character (type_of s) c s = Some s' /\ repr s' (l ++ [c]).
Proof.
  intros Hrepr Hroom Hc Hlim. pose proof Hrepr as [Hlen _ _ Hwid _ Hbuf].
  unfold has_room in Hroom. destruct (m_buffer s) as [b|] eqn:Eb; [|done]. breflect.
  destruct (write_then_length s (m_length s + 1) (m_is8Bit s) l [c]) as (s1 & Hw & Hr).
  - split; cbn [with_length m_length m_string m_is8Bit m_buffer length]; [lia|lia| |done|].
    + by destruct (m_string s).
    + exists b. split_and!; [done|done|lia].
  - done.
  - apply Forall_app. split; [done|by apply Forall_singleton].
  - unfold push_character. rewrite Hlen, Hw. run_option. eexists. split; [done|].
    by rewrite (write_keeps_length _ _ _ _ _ Hw).
Qed.

Lemma append_UChar_repr s l c :
  repr s l -> c < 65536 -> N.of_nat (length l) + 1 <= builder_limit ->
  exists s', append_UChar hasOneRef c s = Some s' /\ repr s' (l ++ [c]).
Proof.
  intros Hrepr Hc Hlim. unfold append_UChar.
  assert (exists s', append16 hasOneRef [c] s = Some s' /\ repr s' (l ++ [c])) as Hslow
    by (apply append16_repr; [done|by apply Forall_singleton|done]).
  destruct (has_room s) eqn:Er; [|done]. pose proof (push_character_repr s l c Hrepr Er) as Hpush.
  unfold type_of in Hpush. destruct (m_is8Bit s); simpl; [|by apply Hpush].
  rewrite needs_16_bits_spec by done. destruct (256 <=? c) eqn:Ec; simpl; [done|]. breflect.
  rewrite wrap8_id by done. by apply Hpush.
Qed.

Lemma append_LChar_repr s l c :
  repr s l -> c < 256 -> N.of_nat (length l) + 1 <= builder_limit ->
  exists s', append_LChar hasOneRef c s = Some s' /\ repr s' (l ++ [c]).
Proof.
  intros Hrepr Hc Hlim. unfold append_LChar. destruct (has_room s) eqn:Er.
  - pose proof (push_character_repr s l c Hrepr Er) as Hpush. unfold type_of, width_ok in Hpush.
    destruct (m_is8Bit s); apply Hpush; lia.
  - apply append8_repr; [done|by apply Forall_singleton|done].
Qed.

(** The UTF-16 code units of a character. *)
Definition utf16 (c : N) : list N :=
  if c <=? 65535 then [c] else [wrap16 (N.shiftr c 10 + 55232); N.lor (N.land c 1023) 56320].

Lemma trail_lt c : N.lor (N.land c 1023) 56320 < 65536.
Proof.
  apply N.log2_lt_cancel. rewrite N.log2_lor. change (N.log2 65536) with 16. change (N.log2 56320) with 15.
  pose proof (N.log2_land c 1023). change (N.log2 1023) with 9 in *. lia.
Qed.

Lemma append_UChar32_repr s l c :
  repr s l -> c < 2 ^ 32 -> N.of_nat (length l) + N.of_nat (length (utf16 c)) <= builder_limit ->
  exists s', append_UChar32 hasOneRef c s = Some s' /\ repr s' (l ++ utf16 c).
Proof.
  intros Hrepr Hc. unfold append_UChar32, utf16. destruct (c <=? 65535) eqn:E; breflect; cbn [length]; intros Hlim.
  - rewrite wrap16_id by lia. apply append_UChar_repr; [done|lia|lia].
  - destruct (append_UChar_repr s l (wrap16 (N.shiftr c 10 + 55232)) Hrepr) as (s1 & -> & Hr1);
      [apply wrap16_lt|lia|]. run_option.
    destruct (append_UChar_repr s1 _ (N.lor (N.land c 1023) 56320) Hr1) as (s2 & Hs2 & Hr2);
      [apply trail_lt|rewrite length_app; cbn [length]; lia|].
    exists s2. split; [done|]. by rewrite <- app_assoc in Hr2.
Qed.

(** The part of a string that is appended: nothing when its bounds are not those of a part. *)
Definition part_of (string : WTFString) (offset count : N) : list N :=
  if offset + count <=? String_length string
  then take (N.to_nat count) (drop (N.to_nat offset) (String_chars string)) else [].

Lemma append_substring_repr s l string offset count :
  repr s l -> string_ok string -> offset + count < 2 ^ 32 ->
  N.of_nat (length l) + N.of_nat (length (part_of string offset count)) <= builder_limit ->
  exists s', append_substring hasOneRef string offset count s = Some s' /\
    repr s' (l ++ part_of string offset count).
Proof.
  intros Hrepr Hok Hadd. unfold append_substring, part_of. rewrite String_length_chars in *.
  destruct (N.of_nat (length (String_chars string)) =? 0) eqn:E0.
  { intros _. exists s. split; [done|]. destruct (String_chars string); [|done].
    destruct (_ <=? _); rewrite ?drop_nil, ?take_nil, app_nil_r; done. }
  rewrite wrap32_id by done. apply nonempty_cons in E0.
  destruct (_ <? _) eqn:E; breflect.
  { intros _. exists s. split; [done|]. replace (_ <=? _) with false by (symmetry; apply N.leb_gt; lia).
    by rewrite app_nil_r. }
  destruct string as [impl|]; [|done]. simpl in *. run_option.
  replace (_ <=? _) with true by (symmetry; by apply N.leb_le). intros Hlim.
  apply append_width_repr; [done| |done]. apply Forall_take, Forall_drop, Hok.
Qed.

Lemma digits_width digits : Forall (fun d => 48 <= d < 58) digits -> Forall (width_ok true) digits.
Proof. intros H. eapply Forall_impl; [exact H|]. unfold width_ok. simpl. lia. Qed.

Lemma appendNumber_repr s l number digits :
  repr s l -> number < 2 ^ 32 -> numberToStringUnsigned number = Some digits ->
  N.of_nat (length l) + N.of_nat (length digits) <= builder_limit ->
  exists s', appendNumber hasOneRef number s = Some s' /\ repr s' (l ++ digits).
Proof.
  intros Hrepr Hn Hd Hlim. destruct (numberToStringUnsigned_value number Hn) as (digits' & Hd' & _ & Hall & _).
  simplify_eq. unfold appendNumber. rewrite Hd. run_option.
  apply append8_repr; [done|by apply digits_width|done].
Qed.

Lemma builder_characters_repr s l :
  repr s l -> exists more, builder_characters (type_of s) s = Some (l ++ more).
Proof.
  intros Hrepr. unfold builder_characters. destruct (m_length s =? 0) eqn:E0.
  { rewrite (has_no_text s l Hrepr E0). by exists []. }
  assert (l <> []) as Hl by (intros ->; by rewrite (rp_length _ _ Hrepr) in E0).
  pose proof Hrepr as [Hlen _ _ _ Hstr Hbuf]. destruct (m_string s) as [impl|] eqn:Es; simpl.
  - destruct (Hstr impl eq_refl) as [<- Hw]. exists [].
    by rewrite app_nil_r, Hw, is_LChar_type_of, Bool.eqb_reflx.
  - destruct (m_buffer s) as [b|] eqn:Eb; [|by destruct (Hbuf Hl)]. run_option.
    destruct Hbuf as [Hw Ht _ _]. unfold buf_characters.
    rewrite Hw, is_LChar_type_of, Bool.eqb_reflx. exists (drop (length l) (buf_data b)).
    by rewrite <- (take_prefix _ _ Ht).
Qed.

Lemma append_StringBuilder_repr s l other k :
  repr s l -> repr other k -> l <> [] -> N.of_nat (length l) + N.of_nat (length k) <= builder_limit ->
  exists s', append_StringBuilder hasOneRef other s = Some s' /\ repr s' (l ++ k).
Proof.
  intros Hrepr Hother Hl Hlim. unfold append_StringBuilder. destruct (m_length other =? 0) eqn:E0.
  { rewrite (has_no_text _ _ Hother E0), app_nil_r. by exists s. }
  assert (m_length s =? 0 = false) as ->.
  { apply N.eqb_neq. rewrite (rp_length _ _ Hrepr). destruct l; [done|simpl; lia]. }
  cbn [andb]. fold (type_of other). destruct (builder_characters_repr other k Hother) as [more ->]. run_option.
  rewrite (rp_length _ _ Hother), Nat2N.id, take_app_length.
  apply append_width_repr; [done|apply Hother|done].
Qed.

(** ** Reserving, shrinking and the text *)

Lemma reserveCapacity_repr s l n :
  repr s l -> n <= builder_limit -> exists s', reserveCapacity hasOneRef n s = Some s' /\ repr s' l.
Proof.
  intros Hrepr Hn. unfold builder_limit in Hn. pose proof Hrepr as [Hlen Hlim Hemp Hwid Hstr Hbuf].
  pose proof (capacity_limit_ge (m_is8Bit s)) as Hcl.
  unfold reserveCapacity. destruct (m_buffer s) as [b|] eqn:Eb.
  - destruct (_ <? n) eqn:E; breflect; [|by exists s].
    replace (if buf_is8Bit b then LChar else UChar) with (type_of s)
      by (unfold type_of; by rewrite (bd_width _ _ _ Hbuf)).
    assert (m_length s <= buf_length b).
    { destruct Hbuf as [_ Ht Hd _]. rewrite Hlen, <- Ht, length_take. lia. }
    destruct (reallocateBuffer_spec n s l b Hrepr Eb) as (b' & -> & Hb' & _); [lia|lia|].
    eexists. split; [done|]. split; cbn [m_length m_string m_is8Bit m_buffer]; done.
  - destruct (_ <? n) eqn:E; breflect; [|by exists s].
    assert (forall t characters more, t = type_of s -> characters = l ++ more -> exists s',
      allocateBuffer t characters n s = Some s' /\ repr s' l) as Halloc.
    { intros t characters more -> ->.
      rewrite allocateBuffer_ready by (rewrite ?is_LChar_type_of; lia). rewrite is_LChar_type_of.
      eexists. split; [done|]. split; cbn [m_length m_string m_is8Bit m_buffer]; [done..|].
      apply buffered_fresh. lia. }
    destruct (m_length s =? 0) eqn:E0.
    + pose proof (has_no_text s l Hrepr E0) as Hl. apply (Halloc _ _ []); [|by rewrite Hl].
      unfold type_of. by rewrite (Hemp Hl).
    + assert (l <> []) as Hl by (intros ->; by rewrite Hlen in E0).
      destruct (Hbuf Hl) as [impl Himpl]. destruct (Hstr impl Himpl) as [Hc Hw].
      pose proof (repr_string_characters s l Hrepr Eb Hl) as Hchars. unfold type_of in Hchars.
      rewrite Himpl in *. simpl String_is8Bit. run_option. rewrite Hw, Hchars. run_option.
      by apply (Halloc _ _ []); [|rewrite app_nil_r].
Qed.

Lemma reifyString_repr s l :
  repr s l -> exists s', reifyString s = Some s' /\ repr s' l /\ is_Some (m_string s') /\
    m_is8Bit s' = m_is8Bit s.
Proof.
  intros Hrepr. pose proof Hrepr as [Hlen Hlim Hemp Hwid Hstr Hbuf]. unfold reifyString.
  destruct (m_string s) as [impl|] eqn:Es; simpl; [exists s; rewrite Es; eauto|].
  destruct (m_length s =? 0) eqn:E0.
  - pose proof (has_no_text s l Hrepr E0) as ->. eexists. split; [done|]. split; [|eauto].
    split; cbn [m_length m_string m_is8Bit m_buffer]; [done..| |].
    + intros ? [= <-]. rewrite Hemp; done.
    + by destruct (m_buffer s).
  - assert (l <> []) as Hl by (intros ->; by rewrite Hlen in E0).
    destruct (m_buffer s) as [b|] eqn:Eb; [|by destruct (Hbuf Hl)]. run_option.
    pose proof Hbuf as [Hw Ht Hd Hbl].
    assert (forall chars, chars = l -> repr (mkStringBuilder (m_length s)
      (Some (mkImpl (buf_is8Bit b) chars)) (m_is8Bit s) (Some b)) l) as Hre.
    { intros chars ->. split; cbn [m_length m_string m_is8Bit m_buffer]; [done..| |done].
      by intros ? [= <-]. }
    destruct (m_length s =? buf_length b) eqn:Ef; breflect; eexists; (split; [done|]);
      (split; [apply Hre|eauto]).
    + rewrite <- Ht. symmetry. apply take_ge. lia.
    + by rewrite Hlen, Nat2N.id.
Qed.

Lemma allocateBuffer_zero characters s :
  m_length s = 0 ->
  allocateBuffer LChar characters 0 s = Some (mkStringBuilder 0 None (m_is8Bit s) (Some (mkBuffer true 0 []))).
Proof.
  intros Hl. unfold allocateBuffer. cbn [createUninitialized N.eqb mbind option_bind].
  unfold copy_characters. rewrite Hl. cbn [buf_length].
  by replace (0 <=? N.of_nat (length characters)) with true by (symmetry; apply N.leb_le; lia).
Qed.

Lemma shrinkToFit_repr s l :
  repr s l -> exists s', shrinkToFit hasOneRef s = Some s' /\ repr s' l /\ m_is8Bit s' = m_is8Bit s.
Proof.
  intros Hrepr. pose proof Hrepr as [Hlen Hlim Hemp Hwid Hstr Hbuf]. unfold shrinkToFit.
  destruct (canShrink s) eqn:Ecan; [|by exists s]. unfold canShrink in Ecan.
  destruct (m_buffer s) as [b|] eqn:Eb; [|done].
  fold (type_of s). destruct (decide (l = [])) as [->|Hl].
  - assert (m_is8Bit s = true) as H8 by auto. pose proof (bd_width _ _ _ Hbuf) as Hw.
    simpl in Hlen. unfold reallocateBuffer, type_of. rewrite H8, Hlen in *. cbn [m_buffer]. rewrite Eb. run_option.
    unfold buf_characters. rewrite Hw. cbn [Bool.eqb is_LChar]. run_option.
    change (N.of_nat 0) with 0 in *. rewrite allocateBuffer_zero by done.
    destruct (hasOneRef b); cbn; eexists; (split; [done|]); (split; [|done]);
      (split; cbn [m_length m_string m_is8Bit m_buffer]; [done..| |done]); by intros ? [= <-].
  - assert (0 < m_length s) by (rewrite Hlen; destruct l; [done|simpl; lia]).
    pose proof (capacity_limit_ge (m_is8Bit s)). unfold builder_limit in Hlim.
    destruct (reallocateBuffer_spec (m_length s) s l b Hrepr Eb) as (b' & -> & Hb' & _ & Hdata); [lia|lia|].
    run_option. cbn [m_buffer]. run_option. eexists. split; [done|]. split; [|done].
    split; cbn [m_length m_string m_is8Bit m_buffer]; [done..| |by eauto].
    intros ? [= <-]. rewrite Hdata by done. split; [done|by apply Hb'].
Qed.

(** The string of the builder has the text, in the width of the builder. *)
Lemma toString_repr s l :
  repr s l -> exists s' impl, toString hasOneRef s = Some (s', Some impl) /\ repr s' l /\
    impl_chars impl = l /\ impl_is8Bit impl = m_is8Bit s.
Proof.
  intros Hrepr. unfold toString. destruct (shrinkToFit_repr s l Hrepr) as (s1 & -> & Hr1 & Hw1). run_option.
  destruct (m_string s1) as [impl|] eqn:Es; simpl.
  - rewrite Es. destruct (rp_string _ _ Hr1 impl Es). exists s1, impl. split_and!; [done..|congruence].
  - destruct (reifyString_repr s1 l Hr1) as (s2 & -> & Hr2 & [impl Himpl] & Hw2). run_option.
    rewrite Himpl. destruct (rp_string _ _ Hr2 impl Himpl). exists s2, impl. split_and!; [done..|congruence].
Qed.

Lemma resize_repr s l n :
  repr s l -> 0 < n <= m_length s ->
  exists s', resize hasOneRef n s = Some s' /\ repr s' (take (N.to_nat n) l).
Proof.
  intros Hrepr Hn. pose proof Hrepr as [Hlen Hlim Hemp Hwid Hstr Hbuf]. unfold resize.
  destruct (n =? m_length s) eqn:E; breflect.
  { exists s. split; [done|]. rewrite take_ge by lia. done. }
  assert (take (N.to_nat n) l <> []) as Hne by (destruct l; [simpl in Hlen; lia|]; by destruct (N.to_nat n) eqn:?; [lia|]).
  assert (n = N.of_nat (length (take (N.to_nat n) l))) as Hn' by (rewrite length_take; lia).
  destruct (m_buffer s) as [b|] eqn:Eb.
  - assert (forall b', buffered (m_is8Bit s) b' l ->
      repr (mkStringBuilder n None (m_is8Bit s) (Some b')) (take (N.to_nat n) l)) as Hre.
    { intros b' [Hw Ht Hd Hbl]. split; cbn [m_length m_string m_is8Bit m_buffer];
        [done|lia|done|by apply Forall_take|done|].
      split; [done| |done|done]. rewrite length_take, Nat.min_l by lia.
      rewrite (take_prefix _ _ Ht). apply take_app_le. lia. }
    destruct (hasOneRef b); cbn [negb]; run_option; cbn [m_string m_is8Bit m_buffer].
    + eexists. split; [done|]. by apply Hre.
    + pose proof Hbuf as [Hw Ht Hd Hbl]. rewrite (take_prefix _ _ Ht), Hw. fold (type_of s).
      assert (m_length s <= buf_length b) by (rewrite Hlen, <- Ht, length_take; lia).
      rewrite allocateBuffer_ready by (rewrite ?is_LChar_type_of; simpl; lia || done).
      run_option. cbn [m_string m_is8Bit m_buffer]. eexists. split; [done|]. apply Hre.
      rewrite is_LChar_type_of. apply buffered_fresh. lia.
  - assert (l <> []) as Hl by (intros ->; simpl in Hlen; lia).
    destruct (Hbuf Hl) as [impl Himpl]. destruct (Hstr impl Himpl) as [Hc Hw]. rewrite Himpl. run_option.
    replace (n =? 0) with false by (symmetry; apply N.eqb_neq; lia).
    eexists. split; [done|]. split; cbn [m_length m_string m_is8Bit m_buffer];
      [done|lia|done|by apply Forall_take| |by eauto].
    intros ? [= <-]. cbn. by rewrite Hc.
Qed.

(** ** Sequences of operations *)

Inductive builder_op :=
| OpString (string : WTFString)
| OpSubstring (string : WTFString) (offset count : N)
| OpChars (t : CharType) (characters : list N)
| OpChar (t : CharType) (c : N)
| OpUChar32 (c : N)
| OpNumber (number : N)
| OpBuilder (other : StringBuilder)
| OpReserve (n : N)
| OpResize (n : N)
| OpShrink
| OpToString
| OpClear.

Definition apply_op (op : builder_op) (s : StringBuilder) : option StringBuilder :=
  match op with
  | OpString string => append_String hasOneRef string s
  | OpSubstring string offset count => append_substring hasOneRef string offset count s
  | OpChars LChar characters => append8 hasOneRef characters s
  | OpChars UChar characters => append16 hasOneRef characters s
  | OpChar LChar c => append_LChar hasOneRef c s
  | OpChar UChar c => append_UChar hasOneRef c s
  | OpUChar32 c => append_UChar32 hasOneRef c s
  | OpNumber number => appendNumber hasOneRef number s
  | OpBuilder other => append_StringBuilder hasOneRef other s
  | OpReserve n => reserveCapacity hasOneRef n s
  | OpResize n => resize hasOneRef n s
  | OpShrink => shrinkToFit hasOneRef s
  | OpToString => fst <$> toString hasOneRef s
  | OpClear => Some (clear s)
  end.

Definition run_ops (ops : list builder_op) (s : StringBuilder) : option StringBuilder :=
  foldM (fun s op => apply_op op s) s ops.

(** What an operation adds to the text, when its arguments are those of the code. *)
Inductive adds : builder_op -> list N -> list N -> Prop :=
| adds_String l string : string_ok string -> adds (OpString string) l (String_chars string)
| adds_Substring l string offset count :
    string_ok string -> offset + count < 2 ^ 32 ->
    adds (OpSubstring string offset count) l (part_of string offset count)
| adds_Chars l t characters :
    Forall (width_ok (is_LChar t)) characters -> adds (OpChars t characters) l characters
| adds_Char l t c : width_ok (is_LChar t) c -> adds (OpChar t c) l [c]
| adds_UChar32 l c : c < 2 ^ 32 -> adds (OpUChar32 c) l (utf16 c)
| adds_Number l number digits :
    number < 2 ^ 32 -> numberToStringUnsigned number = Some digits -> adds (OpNumber number) l digits
| adds_Builder l other k : l <> [] -> repr other k -> adds (OpBuilder other) l k.

(** The specification: the text before and after an operation. *)
Inductive text_step : list N -> builder_op -> list N -> Prop :=
| text_adds l op k : adds op l k ->
    N.of_nat (length l) + N.of_nat (length k) <= builder_limit -> text_step l op (l ++ k)
| text_Reserve l n : n <= builder_limit -> text_step l (OpReserve n) l
| text_Resize l n : 0 < n <= N.of_nat (length l) -> text_step l (OpResize n) (take (N.to_nat n) l)
| text_Shrink l : text_step l OpShrink l
| text_ToString l : text_step l OpToString l
| text_Clear l : text_step l OpClear [].

Inductive text_steps : list N -> list builder_op -> list N -> Prop :=
| steps_nil l : text_steps l [] l
| steps_cons l op l1 ops l2 : text_step l op l1 -> text_steps l1 ops l2 -> text_steps l (op :: ops) l2.

Lemma steps_adds l op k ops l' :
  adds op l k -> N.of_nat (length l) + N.of_nat (length k) <= builder_limit ->
  text_steps (l ++ k) ops l' -> text_steps l (op :: ops) l'.
Proof. intros. eapply steps_cons; [by apply text_adds|done]. Qed.

Lemma repr_empty : repr StringBuilder_empty [].
Proof. split; cbn; done || constructor. Qed.

Lemma adds_simulated s l op k :
  repr s l -> adds op l k -> N.of_nat (length l) + N.of_nat (length k) <= builder_limit ->
  exists s', apply_op op s = Some s' /\ repr s' (l ++ k).
Proof.
  intros Hrepr Hadds Hlim. destruct Hadds; cbn [apply_op].
  - apply append_String_repr; [done..|]. by rewrite String_length_chars.
  - by apply append_substring_repr.
  - destruct t; [by apply append8_repr|by apply append16_repr].
  - destruct t; [by apply append_LChar_repr|by apply append_UChar_repr].
  - by apply append_UChar32_repr.
  - by apply appendNumber_repr.
  - by apply append_StringBuilder_repr.
Qed.

(** An operation on the state simulates the operation on the text. *)
Lemma text_step_simulated s l op l' :
  repr s l -> text_step l op l' -> exists s', apply_op op s = Some s' /\ repr s' l'.
Proof.
  intros Hrepr Hstep. destruct Hstep; cbn [apply_op].
  - by apply adds_simulated.
  - by apply reserveCapacity_repr.
  - apply resize_repr; [done|]. by rewrite (rp_length _ _ Hrepr).
  - destruct (shrinkToFit_repr s l Hrepr) as (s' & ? & ? & _). by exists s'.
  - destruct (toString_repr s l Hrepr) as (s' & impl & -> & ? & _). by exists s'.
  - exists StringBuilder_empty. split; [done|apply repr_empty].
Qed.

Lemma text_steps_simulated s l ops l' :
  repr s l -> text_steps l ops l' -> exists s', run_ops ops s = Some s' /\ repr s' l'.
Proof.
  intros Hrepr Hsteps. revert s Hrepr. induction Hsteps as [|l op l1 ops l2 Hstep _ IH]; intros s Hrepr.
  - by exists s.
  - destruct (text_step_simulated s l op l1 Hrepr Hstep) as (s1 & Hs1 & Hr1).
    unfold run_ops in *. cbn [foldM]. rewrite Hs1. run_option. by apply IH.
Qed.
End Correct.

(** ** The theorems *)

(** C31: a sequence of operations of [text_steps] on a new [StringBuilder] behaves as on a list of
    characters: no operation crashes or leaves its buffer, whatever mixture of 8-bit and 16-bit
    characters, whoever shares the buffer, and [toString] and [operator[]] return exactly the text, in
    characters that fit the width of the string.  [text_steps] are all the operations but those that the
    class does not do right, or that the limit excludes: appending another builder to an empty one, [resize]
    to 0 or to more than the length, a part of a string whose offset and length overflow 32 bits, and
    texts and reserved sizes of more than 500000000 characters. *)
Theorem builder_refines hasOneRef ops l :
  text_steps [] ops l ->
  exists s s' impl, run_ops hasOneRef ops StringBuilder_empty = Some s /\
    toString hasOneRef s = Some (s', Some impl) /\ impl_chars impl = l /\ string_ok (Some impl) /\
    m_length s = N.of_nat (length l) /\
    forall i c, l !!N i = Some c -> char_at i s = Some c.
Proof.
  intros Hsteps. destruct (text_steps_simulated hasOneRef _ _ _ _ repr_empty Hsteps) as (s & Hs & Hr).
  destruct (toString_repr hasOneRef s l Hr) as (s' & impl & Hto & Hr' & Hc & Hw).
  exists s, s', impl. split_and!; [done..| |apply Hr|].
  - simpl. rewrite Hc, Hw. apply Hr.
  - intros i c Hi. unfold char_at. fold (type_of s).
    destruct (builder_characters_repr s l Hr) as [more ->]. run_option. by apply lookup_app_l_Some.
Qed.

Lemma builder_refines_witness :
  let ops := [OpString (String8 [104; 105]); OpChar LChar 44; OpNumber 4096; OpToString; OpChar UChar 8364;
              OpUChar32 128512; OpResize 8; OpReserve 100; OpSubstring (String8 [97; 98; 99]) 1 2; OpShrink] in
  exists l, text_steps [] ops l /\
    exists s s' impl, run_ops (fun _ => false) ops StringBuilder_empty = Some s /\
      toString (fun _ => false) s = Some (s', Some impl) /\ impl_chars impl = l /\ string_ok (Some impl) /\
      m_length s = N.of_nat (length l) /\ forall i c, l !!N i = Some c -> char_at i s = Some c.
Proof.
  intros ops. exists [104; 105; 44; 52; 48; 57; 54; 8364; 98; 99].
  assert (text_steps [] ops [104; 105; 44; 52; 48; 57; 54; 8364; 98; 99]) as Hsteps.
  { unfold ops. eapply steps_adds; [apply adds_String; by repeat constructor|done|].
    eapply steps_adds; [by apply adds_Char|done|].
    eapply steps_adds; [eapply adds_Number; [done|vm_compute; reflexivity]|done|].
    eapply steps_cons; [apply text_ToString|].
    eapply steps_adds; [by apply adds_Char|done|].
    eapply steps_adds; [by apply adds_UChar32|done|].
    eapply steps_cons; [by apply text_Resize|].
    eapply steps_cons; [by apply text_Reserve|].
    eapply steps_adds; [apply adds_Substring; [by repeat constructor|done]|done|].
    eapply steps_cons; [apply text_Shrink|]. apply steps_nil. }
  split; [exact Hsteps|]. exact (builder_refines (fun _ => false) ops _ Hsteps).
Defined.

(** A builder that has retained a string of 16-bit characters. *)
Definition wide_builder : StringBuilder := mkStringBuilder 1 (String16 [256]) false None.

(** Three uses of a builder that go wrong, the last two outside of its buffer.  Appending a builder of 16-bit characters to an
    empty builder keeps the width of the empty one, so that the next character reads the string in the
    wrong width; reserving room in an empty builder whose width is still 16 bits allocates half of the
    memory that the next characters are written to; and the test of the bounds of a part of a string
    can overflow. *)
Theorem builder_divergences hasOneRef :
  append_String hasOneRef (String16 [256]) StringBuilder_empty = Some wide_builder /\
  (exists s, append_StringBuilder hasOneRef wide_builder StringBuilder_empty = Some s /\
     m_is8Bit s = true /\ m_string s = String16 [256] /\ append_LChar hasOneRef 65 s = None) /\
  (exists s1 s2, resize hasOneRef 0 wide_builder = Some s1 /\ reserveCapacity hasOneRef 5 s1 = Some s2 /\
     append16 hasOneRef [256; 257; 258] s2 = None) /\
  append_substring hasOneRef (String8 [97; 98; 99]) 4294967295 2 StringBuilder_empty = None.
Proof.
  split_and!; [done| | |done].
  - eexists. split; [vm_compute; reflexivity|]. done.
  - eexists _, _. split; [vm_compute; reflexivity|]. split; [vm_compute; reflexivity|]. done.
Qed.
