(* ===== verification/Rules.v ===== *)
(** * [WebCore/contentextensions/ContentExtensionRule.h] and [.cpp], [ContentExtensionActions.h]

    The rules of an extension and the reading of the actions that were
    serialized for it.  [None] is a failing [RELEASE_ASSERT], a read outside of
    the serialized actions, or a byte that is no type of an action. *)

From S2P Require Import Prelude WTFString.

(** ** Data *)

(** WebCore/contentextensions/ContentExtensionActions.h:37-44 [ActionType] *)
Inductive ActionType :=
| BlockLoad
| BlockCookies
| CSSDisplayNoneSelector
| CSSDisplayNoneStyleSheet
| IgnorePreviousRules
| InvalidAction.

#[export] Instance ActionType_eq_dec : EqDecision ActionType.
Proof. solve_decision. Defined.

(** [static_cast<SerializedActionByte>(type)]. *)
Definition action_byte (type : ActionType) : N :=
  match type with
  | BlockLoad => 0
  | BlockCookies => 1
  | CSSDisplayNoneSelector => 2
  | CSSDisplayNoneStyleSheet => 3
  | IgnorePreviousRules => 4
  | InvalidAction => 5
  end.

(** [static_cast<ActionType>(byte)], when the byte is one of them. *)
Definition byte_action (byte : N) : option ActionType :=
  match byte with
  | 0 => Some BlockLoad
  | 1 => Some BlockCookies
  | 2 => Some CSSDisplayNoneSelector
  | 3 => Some CSSDisplayNoneStyleSheet
  | 4 => Some IgnorePreviousRules
  | 5 => Some InvalidAction
  | _ => None
  end.

(** WebCore/contentextensions/ContentExtensionRule.h:44-47 [Trigger] *)
Record Trigger := mkTrigger {
  urlFilter : WTFString;
  urlFilterIsCaseSensitive : bool;
  flags : N
}.

(** WebCore/contentextensions/ContentExtensionRule.h:96-100 [Action] *)
Record Action := mkAction {
  m_extensionIdentifier : WTFString;
  m_type : ActionType;
  m_actionID : N;
  m_stringArgument : WTFString
}.

(** WebCore/contentextensions/ContentExtensionRule.h:103-113 [ContentExtensionRule] *)
Record ContentExtensionRule := mkRule {
  m_trigger : Trigger;
  m_action : Action
}.

(** ** Operations *)

(** The default trigger. *)
Definition newTrigger : Trigger := mkTrigger None false 0.

(** WebCore/contentextensions/ContentExtensionRule.h:48-53 [Trigger::operator==] *)
Definition trigger_equals (a b : Trigger) : bool :=
  equal_strings (urlFilter a) (urlFilter b)
  && Bool.eqb (urlFilterIsCaseSensitive a) (urlFilterIsCaseSensitive b)
  && (flags a =? flags b).

(** WebCore/contentextensions/ContentExtensionRule.h:57-61 [Action::Action] *)
Definition newAction : Action := mkAction None InvalidAction max32 None.

(** WebCore/contentextensions/ContentExtensionRule.h:63-69 [Action::Action], with a string *)
Definition Action_string (type : ActionType) (stringArgument : WTFString) (actionID : N) : Action :=
  mkAction None type actionID stringArgument.

(** WebCore/contentextensions/ContentExtensionRule.h:71-76 [Action::Action], without a string *)
Definition Action_plain (type : ActionType) (actionID : N) : Action := mkAction None type actionID None.

(** WebCore/contentextensions/ContentExtensionRule.h:78-84 [Action::operator==] *)
Definition action_equals (a b : Action) : bool :=
  bool_decide (m_type a = m_type b)
  && equal_strings (m_extensionIdentifier a) (m_extensionIdentifier b)
  && (m_actionID a =? m_actionID b)
  && equal_strings (m_stringArgument a) (m_stringArgument b).

(** WebCore/contentextensions/ContentExtensionRule.h:88-88 [Action::setExtensionIdentifier] *)
Definition setExtensionIdentifier (extensionIdentifier : WTFString) (a : Action) : Action :=
  mkAction extensionIdentifier (m_type a) (m_actionID a) (m_stringArgument a).

(** [sizeof(ActionType)], [sizeof(unsigned)] and [sizeof(bool)]. *)
Definition sizeof_ActionType : N := 1.
Definition sizeof_length : N := 4.
Definition sizeof_bool : N := 1.

(** The characters of a string in memory. *)
Definition read_characters (t : CharType) (memory : list N) (start count : N) : option (list N) :=
  mapM (fun i => le_value <$> read_bytes (N.to_nat (sizeof_CharType t)) memory (start + i * sizeof_CharType t))
    (for_range 0 count).

(** WebCore/contentextensions/ContentExtensionRule.cpp:50-63 [Action::deserialize], of a selector *)
Definition deserialize_selector (actions : list N) (actionsLength location : N) : option Action :=
  let stringStartIndex := wrap32 (location + sizeof_ActionType + sizeof_length + sizeof_bool) in
  _ ← release_assert (stringStartIndex <=? actionsLength);
  selectorLength ← le_value <$> read_bytes 4 actions (location + sizeof_ActionType);
  wideCharacters ← actions !!N (location + sizeof_ActionType + sizeof_length);
  let t := if negb (wideCharacters =? 0) then UChar else LChar in
  _ ← release_assert (stringStartIndex + selectorLength * sizeof_CharType t <=? actionsLength);
  characters ← read_characters t actions stringStartIndex selectorLength;
  selector ← String_create t characters;
  Some (Action_string CSSDisplayNoneSelector selector location).

(** WebCore/contentextensions/ContentExtensionRule.cpp:42-68 [Action::deserialize] *)
Definition deserialize (actions : list N) (actionsLength location : N) : option Action :=
  byte ← actions !!N location;
  type ← byte_action byte;
  match type with
  | BlockCookies => Some (Action_plain BlockCookies location)
  | BlockLoad => Some (Action_plain BlockLoad location)
  | IgnorePreviousRules => Some (Action_plain IgnorePreviousRules location)
  | CSSDisplayNoneSelector => deserialize_selector actions actionsLength location
  | CSSDisplayNoneStyleSheet | InvalidAction => None
  end.

(** ** Lemmas *)

Lemma byte_action_byte type : byte_action (action_byte type) = Some type.
Proof. by destruct type. Qed.

Lemma trigger_equals_spec a b :
  trigger_equals a b = true <->
  equal_strings (urlFilter a) (urlFilter b) = true /\
  urlFilterIsCaseSensitive a = urlFilterIsCaseSensitive b /\ flags a = flags b.
Proof. unfold trigger_equals. rewrite !andb_true_iff, Bool.eqb_true_iff, N.eqb_eq. tauto. Qed.

Lemma trigger_equals_refl a : trigger_equals a a = true.
Proof. by rewrite trigger_equals_spec, equal_strings_refl. Qed.

Lemma trigger_equals_sym a b : trigger_equals a b = true -> trigger_equals b a = true.
Proof. rewrite !trigger_equals_spec, (equal_strings_sym (urlFilter b)). naive_solver. Qed.

Lemma trigger_equals_trans a b c :
  trigger_equals a b = true -> trigger_equals b c = true -> trigger_equals a c = true.
Proof.
  rewrite !trigger_equals_spec. intros (Hab & -> & ->) (Hbc & -> & ->).
  split_and!; [|done..]. by eapply equal_strings_trans.
Qed.

Lemma action_equals_type a b : action_equals a b = true -> m_type a = m_type b.
Proof. unfold action_equals. intros H. breflect. by eapply bool_decide_eq_true. Qed.
