(* ===== verification/SerializeActions.v ===== *)
(** * The serialization of the actions in [WebCore/contentextensions/ContentExtensionCompiler.cpp]

    The actions of the rules are written one after the other in a buffer, in
    which [Action::deserialize] reads them back; equal neighbours share their
    location, and the selectors of neighbours with equal triggers are joined.
    [None] is a crash. *)

From S2P Require Import Prelude WTFString StringBuilder Rules.

(** WebCore/contentextensions/ContentExtensionCompiler.cpp:50-70 [serializeSelector] *)
Definition serializeSelector (actions : list N) (selector : WTFString) : option (list N) :=
  let actions := actions ++ [action_byte CSSDisplayNoneSelector] in
  let selectorLength := String_length selector in
  let actions := actions ++ replicate 4 0 in
  actions ← write_bytes (le_bytes 4 selectorLength) actions (N.of_nat (length actions) - sizeof_length);
  is8Bit ← String_is8Bit selector;
  let wideCharacters := negb is8Bit in
  let actions := actions ++ [if (wideCharacters : bool) then 1 else 0] in
  if (wideCharacters : bool) then
    let startIndex := wrap32 (N.of_nat (length actions)) in
    let actions := actions ++ replicate (N.to_nat (2 * selectorLength)) 0 in
    foldM (fun actions i =>
        write_bytes (le_bytes 2 (String_at selector i)) actions (startIndex + i * 2))
      actions (for_range 0 selectorLength)
  else
    foldM (fun actions i => Some (actions ++ [wrap8 (String_at selector i)]))
      actions (for_range 0 selectorLength).

Section Serialize.
Context (hasOneRef : Buffer -> bool).

(** WebCore/contentextensions/ContentExtensionCompiler.cpp:86-94 [serializeActions]: the loop over the
    rules behind [rule], with the locations, the number of rules it went over and the selector *)
Fixpoint consolidate (trigger : Trigger) (rest : list ContentExtensionRule) (location : N)
    (state : list N * N * StringBuilder) : option (list N * N * StringBuilder) :=
  match rest with
  | [] => Some state
  | rule :: rest =>
      let '(actionLocations, ruleIndex, selector) := state in
      if trigger_equals trigger (m_trigger rule)
         && bool_decide (m_type (m_action rule) = CSSDisplayNoneSelector)
      then
        selector ← append_LChar hasOneRef 44 selector;
        selector ← append_String hasOneRef (m_stringArgument (m_action rule)) selector;
        consolidate trigger rest location (actionLocations ++ [location], ruleIndex + 1, selector)
      else Some state
  end.

(** WebCore/contentextensions/ContentExtensionCompiler.cpp:78-118 [serializeActions]: one turn of the
    loop over the rules *)
Definition serialize_rule (ruleList : list ContentExtensionRule)
    (state : list N * list N * N) : option (list N * list N * N) :=
  let '(actionLocations, actions, ruleIndex) := state in
  rule ← ruleList !!N ruleIndex;
  let location := wrap32 (N.of_nat (length actions)) in
  if bool_decide (m_type (m_action rule) = CSSDisplayNoneSelector) then
    selector ← append_String hasOneRef (m_stringArgument (m_action rule)) StringBuilder_empty;
    '(actionLocations, ruleIndex', selector) ←
      consolidate (m_trigger rule) (drop (N.to_nat (ruleIndex + 1)) ruleList) location
        (actionLocations ++ [location], ruleIndex, selector);
    text ← toString hasOneRef selector;
    actions ← serializeSelector actions text.2;
    Some (actionLocations, actions, ruleIndex' + 1)
  else
    identical ← (if negb (ruleIndex =? 0)
                 then previous ← ruleList !!N (ruleIndex - 1);
                      Some (action_equals (m_action rule) (m_action previous))
                 else Some false);
    if (identical : bool) then
      previous ← actionLocations !!N (ruleIndex - 1);
      Some (actionLocations ++ [previous], actions, ruleIndex + 1)
    else
      match m_type (m_action rule) with
      | CSSDisplayNoneSelector | CSSDisplayNoneStyleSheet | InvalidAction => None
      | BlockLoad | BlockCookies | IgnorePreviousRules =>
          Some (actionLocations ++ [location], actions ++ [action_byte (m_type (m_action rule))], ruleIndex + 1)
      end.

(** WebCore/contentextensions/ContentExtensionCompiler.cpp:78-118 [serializeActions]: the loop, with a
    turn of fuel for each rule *)
Fixpoint serialize_loop (fuel : nat) (ruleList : list ContentExtensionRule)
    (state : list N * list N * N) : option (list N * list N) :=
  if state.2 <? N.of_nat (length ruleList) then
    match fuel with
    | O => None
    | S fuel => state ← serialize_rule ruleList state; serialize_loop fuel ruleList state
    end
  else Some state.1.

(** WebCore/contentextensions/ContentExtensionCompiler.cpp:72-120 [serializeActions]: the locations and
    the serialized actions *)
Definition serializeActions (ruleList : list ContentExtensionRule) : option (list N * list N) :=
  serialize_loop (length ruleList) ruleList ([], [], 0).
End Serialize.
