(* ===== verification/SerializeCorrect.v ===== *)
(** * The serialization of the actions is correct

    The bytes that [serializeSelector] appends for a selector, and the reading
    of them by [Action::deserialize]; then the theorem.  Every rule has a location,
    at which [Action::deserialize] reads back its action
    ([serializeActions_roundtrip]): the type of the action, and for a selector the
    selectors of the neighbours that have an equal trigger, joined with commas.
    The locations are in the order of the rules. *)

From S2P Require Import Prelude WTFString StringBuilder StringBuilderCorrect Rules SerializeActions.

(** The characters in memory. *)
Definition character_bytes (impl : StringImpl) : list N :=
  if impl_is8Bit impl then impl_chars impl else impl_chars impl ≫= le_bytes 2.

(** What is written for a selector. *)
Definition selector_bytes (impl : StringImpl) : list N :=
  action_byte CSSDisplayNoneSelector
  :: le_bytes 4 (N.of_nat (length (impl_chars impl)))
  ++ (if impl_is8Bit impl then 0 else 1) :: character_bytes impl.

(** ** Writing *)

Lemma length_flat_le_bytes size l : length (l ≫= le_bytes size) = (size * length l)%nat.
Proof.
  induction l as [|c l IH]; [simpl; lia|]. rewrite bind_cons, length_app, length_le_bytes, IH. simpl. lia.
Qed.

Lemma length_selector_bytes impl :
  N.of_nat (length (selector_bytes impl)) =
  6 + N.of_nat (length (impl_chars impl)) * (if impl_is8Bit impl then 1 else 2).
Proof.
  unfold selector_bytes, character_bytes. cbn [length]. rewrite length_app, length_le_bytes. cbn [length].
  destruct (impl_is8Bit impl); rewrite ?length_flat_le_bytes; lia.
Qed.

Lemma String_at_lookup impl i c : impl_chars impl !!N i = Some c -> String_at (Some impl) i = c.
Proof.
  intros Hc. pose proof (lookupN_lt _ _ _ Hc). unfold String_at.
  destruct (_ <=? i) eqn:E; breflect; [lia|]. by rewrite Hc.
Qed.

Lemma String_at_app impl pre c post :
  impl_chars impl = pre ++ c :: post -> String_at (Some impl) (N.of_nat (length pre)) = c.
Proof. intros E. apply String_at_lookup. rewrite E, Nat2N.id. by apply list_lookup_middle. Qed.

Lemma write_narrow impl actions :
  Forall (width_ok true) (impl_chars impl) ->
  foldM (fun actions i => Some (actions ++ [wrap8 (String_at (Some impl) i)])) actions
    (for_range 0 (N.of_nat (length (impl_chars impl)))) = Some (actions ++ impl_chars impl).
Proof.
  intros Hwid. assert (forall done todo, impl_chars impl = done ++ todo ->
    foldM (fun actions i => Some (actions ++ [wrap8 (String_at (Some impl) i)])) actions
      (for_range 0 (N.of_nat (length done))) = Some (actions ++ done)) as Hall.
  { intros done. induction done as [|c done IH] using rev_ind; intros todo Hl.
    { rewrite for_range_nil by (simpl; lia). by rewrite app_nil_r. }
    rewrite length_app, Nat2N.inj_add. change (N.of_nat (length [c])) with 1.
    rewrite <- app_assoc in Hl. rewrite for_range_snoc by lia. rewrite foldM_app, (IH _ Hl). run_option. cbn [foldM].
    run_option. rewrite (String_at_app _ _ _ _ Hl), <- app_assoc. rewrite wrap8_id; [done|].
    rewrite Hl, Forall_app, Forall_app, Forall_singleton in Hwid. naive_solver. }
  apply (Hall _ []). by rewrite app_nil_r.
Qed.

Lemma write_wide impl pre :
  foldM (fun actions i => write_bytes (le_bytes 2 (String_at (Some impl) i)) actions (N.of_nat (length pre) + i * 2))
    (pre ++ replicate (2 * length (impl_chars impl)) 0) (for_range 0 (N.of_nat (length (impl_chars impl)))) =
  Some (pre ++ (impl_chars impl ≫= le_bytes 2)).
Proof.
  assert (forall done todo, impl_chars impl = done ++ todo ->
    foldM (fun actions i => write_bytes (le_bytes 2 (String_at (Some impl) i)) actions (N.of_nat (length pre) + i * 2))
      (pre ++ replicate (2 * length (impl_chars impl)) 0) (for_range 0 (N.of_nat (length done))) =
    Some (pre ++ (done ≫= le_bytes 2) ++ replicate (2 * length todo) 0)) as Hall.
  { intros done. induction done as [|c done IH] using rev_ind; intros todo Hl.
    { rewrite for_range_nil by (simpl; lia). by rewrite Hl. }
    rewrite length_app, Nat2N.inj_add. change (N.of_nat (length [c])) with 1.
    rewrite <- app_assoc in Hl. rewrite for_range_snoc by lia. rewrite foldM_app, (IH _ Hl). run_option. cbn [foldM].
    rewrite (String_at_app _ _ _ _ Hl), app_assoc.
    replace (2 * length ([c] ++ todo))%nat with (2 + 2 * length todo)%nat by (simpl; lia).
    rewrite replicate_add, (write_bytes_app (pre ++ (done ≫= le_bytes 2)) (replicate 2 0) (le_bytes 2 c)).
    - run_option. by rewrite bind_app, bind_singleton, <- !app_assoc.
    - rewrite length_app, length_flat_le_bytes. lia.
    - by rewrite length_le_bytes. }
  rewrite (Hall _ []) by (by rewrite app_nil_r). by rewrite app_nil_r.
Qed.

(** [serializeSelector] appends the bytes of the selector. *)
Lemma serializeSelector_spec actions impl :
  string_ok (Some impl) -> N.of_nat (length actions) + 6 < 2 ^ 32 ->
  serializeSelector actions (Some impl) = Some (actions ++ selector_bytes impl).
Proof.
  intros Hok Hlen. unfold serializeSelector. cbn [String_length]. change (String_is8Bit (Some impl)) with (Some (impl_is8Bit impl)).
  set (a1 := actions ++ [action_byte CSSDisplayNoneSelector]).
  assert (write_bytes (le_bytes 4 (N.of_nat (length (impl_chars impl)))) (a1 ++ replicate 4 0)
    (N.of_nat (length (a1 ++ replicate 4 0)) - sizeof_length) =
    Some (a1 ++ le_bytes 4 (N.of_nat (length (impl_chars impl))))) as ->.
  { pose proof (write_bytes_app a1 (replicate 4 0) (le_bytes 4 (N.of_nat (length (impl_chars impl)))) []
      (N.of_nat (length (a1 ++ replicate 4 0)) - sizeof_length)) as Hw.
    rewrite !app_nil_r in Hw. apply Hw.
    - rewrite length_app, length_replicate. unfold sizeof_length. lia.
    - by rewrite length_le_bytes, length_replicate. }
  run_option. unfold selector_bytes, character_bytes. simpl in Hok.
  destruct (impl_is8Bit impl); cbn [negb]; subst a1.
  - rewrite write_narrow by done. f_equal. by rewrite <- !app_assoc.
  - rewrite N2Nat.inj_mul, Nat2N.id.
    rewrite wrap32_id by (rewrite !length_app, length_le_bytes; simpl; lia).
    change (N.to_nat 2) with 2%nat. rewrite write_wide. f_equal. by rewrite <- !app_assoc.
Qed.

(** ** Reading *)

Lemma read_characters_app t pre chars post start :
  Forall (width_ok (is_LChar t)) chars -> start = N.of_nat (length pre) ->
  read_characters t (pre ++ (chars ≫= le_bytes (N.to_nat (sizeof_CharType t))) ++ post) start
    (N.of_nat (length chars)) = Some chars.
Proof.
  intros Hwid ->. unfold read_characters. set (size := N.to_nat (sizeof_CharType t)).
  apply mapM_Some, Forall2_same_length_lookup. split; [rewrite length_for_range; lia|].
  intros i k c Hk Hc. apply lookup_for_range in Hk as [-> _]. rewrite N.add_0_l.
  assert (le_value (le_bytes size c) = c) as Hval.
  { rewrite Forall_lookup in Hwid. specialize (Hwid _ _ Hc). subst size.
    destruct t; simpl in Hwid; rewrite le_value_le_bytes; by apply N.mod_small. }
  rewrite <- (take_drop_middle _ _ _ Hc), bind_app, bind_cons, <- !app_assoc, app_assoc.
  rewrite <- (length_le_bytes size c) at 1.
  rewrite read_bytes_app; [simpl; by rewrite Hval|].
  apply lookup_lt_Some in Hc.
  rewrite length_app, length_flat_le_bytes, length_take. subst size. destruct t; simpl; lia.
Qed.

Lemma bind_le_bytes_1 l : Forall (width_ok true) l -> l ≫= le_bytes 1 = l.
Proof.
  induction 1 as [|c l Hc _ IH]; [done|]. rewrite bind_cons, IH. simpl. by rewrite N.mod_small.
Qed.

Definition impl_type (impl : StringImpl) : CharType := if impl_is8Bit impl then LChar else UChar.

Lemma character_bytes_type impl :
  string_ok (Some impl) ->
  character_bytes impl = impl_chars impl ≫= le_bytes (N.to_nat (sizeof_CharType (impl_type impl))).
Proof.
  intros Hok. simpl in Hok. unfold character_bytes, impl_type. destruct (impl_is8Bit impl); [|done].
  symmetry. by apply bind_le_bytes_1.
Qed.

(** The string that is read: the empty string is always the 8-bit one. *)
Definition normal_impl (impl : StringImpl) : StringImpl :=
  match impl_chars impl with [] => StringImpl_empty | _ => impl end.

Lemma String_create_impl impl :
  N.of_nat (length (impl_chars impl)) <= builder_limit ->
  String_create (impl_type impl) (impl_chars impl) = Some (Some (normal_impl impl)).
Proof.
  intros Hlen. unfold String_create, normal_impl.
  destruct (impl_chars impl) as [|c cs] eqn:E; [done|]. rewrite <- E in *.
  destruct (_ =? 0) eqn:E0; breflect; [rewrite E in E0; simpl in E0; lia|].
  destruct (_ <? _) eqn:El; breflect.
  - exfalso. unfold builder_limit in Hlen. unfold impl_type in El. destruct (impl_is8Bit impl); revert El.
    + change ((max32 - sizeof_StringImpl) / sizeof_CharType LChar) with 4294967271. lia.
    + change ((max32 - sizeof_StringImpl) / sizeof_CharType UChar) with 2147483635. lia.
  - rewrite E. f_equal. f_equal. destruct impl as [[] ?]; by simpl in E |- *; rewrite E.
Qed.

(** What [deserialize] reads where a selector was written. *)
Lemma deserialize_selector_bytes pre impl post :
  string_ok (Some impl) -> N.of_nat (length (impl_chars impl)) <= builder_limit ->
  N.of_nat (length (pre ++ selector_bytes impl)) < 2 ^ 32 ->
  let buffer := pre ++ selector_bytes impl ++ post in
  deserialize buffer (N.of_nat (length buffer)) (N.of_nat (length pre)) =
    Some (Action_string CSSDisplayNoneSelector (Some (normal_impl impl)) (N.of_nat (length pre))).
Proof.
  intros Hok Hlen Hsize buffer. set (location := N.of_nat (length pre)).
  rewrite length_app, Nat2N.inj_add, length_selector_bytes in Hsize.
  assert (N.of_nat (length buffer) = location + (6 + N.of_nat (length (impl_chars impl)) *
    sizeof_CharType (impl_type impl)) + N.of_nat (length post)) as Hbuf.
  { subst buffer location. rewrite !length_app, !Nat2N.inj_add, length_selector_bytes.
    unfold impl_type. destruct (impl_is8Bit impl); simpl; lia. }
  assert (location + 6 < 2 ^ 32) as Hloc by (destruct (impl_is8Bit impl); subst location; lia).
  remember (N.of_nat (length (impl_chars impl)) * sizeof_CharType (impl_type impl)) as K eqn:EK.
  assert (buffer !!N location = Some (action_byte CSSDisplayNoneSelector)) as H0.
  { subst buffer location. rewrite Nat2N.id. unfold selector_bytes. by rewrite lookup_app_r, Nat.sub_diag by lia. }
  assert (read_bytes 4 buffer (location + sizeof_ActionType) = Some (le_bytes 4 (N.of_nat (length (impl_chars impl))))) as H1.
  { assert (buffer = (pre ++ [action_byte CSSDisplayNoneSelector]) ++ le_bytes 4 (N.of_nat (length (impl_chars impl)))
      ++ (if impl_is8Bit impl then 0 else 1) :: character_bytes impl ++ post) as ->.
    { subst buffer. unfold selector_bytes. by rewrite <- !app_assoc, <- !app_comm_cons, <- !app_assoc. }
    rewrite <- (length_le_bytes 4 (N.of_nat (length (impl_chars impl)))) at 1. apply read_bytes_app.
    rewrite length_app. unfold sizeof_ActionType. simpl. lia. }
  assert (buffer !!N (location + sizeof_ActionType + sizeof_length) = Some (if impl_is8Bit impl then 0 else 1)) as H2.
  { assert (buffer = (pre ++ action_byte CSSDisplayNoneSelector :: le_bytes 4 (N.of_nat (length (impl_chars impl))))
      ++ (if impl_is8Bit impl then 0 else 1) :: character_bytes impl ++ post) as ->.
    { subst buffer. unfold selector_bytes. by rewrite <- !app_assoc, <- !app_comm_cons, <- !app_assoc. }
    unfold sizeof_ActionType, sizeof_length. apply list_lookup_middle.
    rewrite length_app. cbn [length]. rewrite length_le_bytes. lia. }
  assert (read_characters (impl_type impl) buffer (location + 6) (N.of_nat (length (impl_chars impl))) =
    Some (impl_chars impl)) as H3.
  { assert (buffer = (pre ++ action_byte CSSDisplayNoneSelector :: le_bytes 4 (N.of_nat (length (impl_chars impl)))
      ++ [if impl_is8Bit impl then 0 else 1]) ++ character_bytes impl ++ post) as ->.
    { subst buffer. unfold selector_bytes. by rewrite <- !app_assoc, <- !app_comm_cons, <- !app_assoc. }
    rewrite character_bytes_type by done. apply read_characters_app.
    - unfold impl_type. simpl in Hok. by destruct (impl_is8Bit impl).
    - rewrite length_app. cbn [length]. rewrite length_app, length_le_bytes. simpl. lia. }
  unfold deserialize. rewrite H0. run_option. rewrite byte_action_byte. run_option. unfold deserialize_selector.
  replace (location + sizeof_ActionType + sizeof_length + sizeof_bool) with (location + 6)
    by (unfold sizeof_ActionType, sizeof_length, sizeof_bool; lia).
  rewrite wrap32_id by lia. rewrite H1, H2.
  replace (location + 6 <=? _) with true by (symmetry; apply N.leb_le; lia). run_option.
  rewrite le_value32 by (unfold builder_limit in Hlen; lia).
  replace (if negb ((if impl_is8Bit impl then 0 else 1) =? 0) then UChar else LChar) with (impl_type impl)
    by (unfold impl_type; by destruct (impl_is8Bit impl)).
  rewrite <- EK. replace (_ <=? N.of_nat (length buffer)) with true by (symmetry; apply N.leb_le; lia). run_option.
  rewrite H3. run_option. by rewrite String_create_impl.
Qed.

(** ** What is specified *)

Definition is_css (rule : ContentExtensionRule) : bool :=
  bool_decide (m_type (m_action rule) = CSSDisplayNoneSelector).

Definition selector_of (rule : ContentExtensionRule) : list N := String_chars (m_stringArgument (m_action rule)).

(** Two neighbours whose selectors are joined. *)
Definition joined (a b : ContentExtensionRule) : bool :=
  is_css a && is_css b && trigger_equals (m_trigger a) (m_trigger b).

(** No selectors are joined across the position [n]. *)
Definition boundary (rules : list ContentExtensionRule) (n : nat) : Prop :=
  forall m a b, n = S m -> rules !! m = Some a -> rules !! n = Some b -> joined a b = false.

(** The rules from [j] to [k] are the ones of one joined selector. *)
Record css_run (rules : list ContentExtensionRule) (j k : nat) : Prop := {
  run_range : (j < k <= length rules)%nat;
  run_css : forall i a, (j <= i < k)%nat -> rules !! i = Some a -> is_css a = true;
  run_joined : forall i a b, (j <= i)%nat -> (S i < k)%nat -> rules !! i = Some a -> rules !! S i = Some b ->
    joined a b = true;
  run_start : boundary rules j;
  run_end : boundary rules k
}.

(** The text of joined selectors. *)
Definition join_selectors (selectors : list (list N)) : list N :=
  match selectors with
  | [] => []
  | s :: rest => s ++ (rest ≫= fun s => 44 :: s)
  end.

(** The rules that the parser makes. *)
Definition rule_ok (rule : ContentExtensionRule) : Prop :=
  match m_type (m_action rule) with
  | CSSDisplayNoneSelector => string_ok (m_stringArgument (m_action rule))
  | BlockLoad | BlockCookies | IgnorePreviousRules => True
  | CSSDisplayNoneStyleSheet | InvalidAction => False
  end.

(** A bound on what is written for the rules. *)
Definition rule_size (rule : ContentExtensionRule) : N := 8 + 2 * N.of_nat (length (selector_of rule)).
Definition rules_size (rules : list ContentExtensionRule) : N := foldr (fun r n => rule_size r + n) 0 rules.

(** ** Joined selectors *)

Fixpoint css_prefix (trigger : Trigger) (rest : list ContentExtensionRule) : list ContentExtensionRule :=
  match rest with
  | [] => []
  | rule :: rest =>
      if trigger_equals trigger (m_trigger rule) && is_css rule then rule :: css_prefix trigger rest else []
  end.

Definition tail_text (rules : list ContentExtensionRule) : list N := rules ≫= fun r => 44 :: selector_of r.

Lemma rules_size_cons r l : rules_size (r :: l) = rule_size r + rules_size l.
Proof. done. Qed.

Lemma rules_size_app l k : rules_size (l ++ k) = rules_size l + rules_size k.
Proof. induction l as [|r l IH]; simpl; [lia|]. unfold rules_size in *. rewrite IH. lia. Qed.

Lemma length_tail_text rules : 2 * N.of_nat (length (tail_text rules)) <= rules_size rules.
Proof.
  unfold tail_text. induction rules as [|r l IH]; [simpl; lia|]. rewrite bind_cons, length_app. cbn [length].
  unfold rules_size in *. cbn [foldr]. unfold rule_size at 1. lia.
Qed.

Lemma css_prefix_split t rest :
  exists more, rest = css_prefix t rest ++ more /\
    (forall r, r ∈ css_prefix t rest -> trigger_equals t (m_trigger r) = true /\ is_css r = true) /\
    (forall r, more !! 0%nat = Some r -> trigger_equals t (m_trigger r) && is_css r = false).
Proof.
  induction rest as [|r rest IH]; simpl.
  - exists []. split_and!; [done|by intros r ?%elem_of_nil|done].
  - destruct (trigger_equals t (m_trigger r) && is_css r) eqn:E.
    + destruct IH as (more & Hr & Hall & Hend). exists more. split_and!; [by rewrite <- app_comm_cons, <- Hr| |done].
      apply andb_true_iff in E. intros r' [->|Hin]%elem_of_cons; [done|by apply Hall].
    + exists (r :: rest). split_and!; [done|by intros r' ?%elem_of_nil|]. by intros r' [= <-].
Qed.

Section Correct.
Context (hasOneRef : Buffer -> bool).

Lemma consolidate_spec t rest location locations ruleIndex sb l :
  repr sb l -> Forall rule_ok rest ->
  N.of_nat (length l) + N.of_nat (length (tail_text (css_prefix t rest))) <= builder_limit ->
  exists sb', consolidate hasOneRef t rest location (locations, ruleIndex, sb) =
      Some (locations ++ replicate (length (css_prefix t rest)) location,
            ruleIndex + N.of_nat (length (css_prefix t rest)), sb') /\
    repr sb' (l ++ tail_text (css_prefix t rest)).
Proof.
  revert locations ruleIndex sb l. induction rest as [|r rest IH]; intros locations ruleIndex sb l Hrepr Hok Hlim.
  { exists sb. simpl. unfold tail_text. simpl. by rewrite !app_nil_r, N.add_0_r. }
  apply Forall_cons in Hok as [Hr Hok]. cbn [consolidate css_prefix] in *. fold (is_css r) in *.
  destruct (trigger_equals t (m_trigger r) && is_css r) eqn:E.
  - apply andb_true_iff in E as [_ Hcss]. unfold is_css in Hcss. apply bool_decide_eq_true in Hcss.
    unfold tail_text in *. rewrite bind_cons, length_app in *. cbn [length] in *. fold (tail_text (css_prefix t rest)) in *.
    destruct (append_LChar_repr hasOneRef sb l 44 Hrepr) as (sb1 & -> & Hr1); [done|lia|]. run_option.
    destruct (append_String_repr hasOneRef sb1 (l ++ [44]) (m_stringArgument (m_action r)) Hr1) as (sb2 & -> & Hr2).
    { unfold rule_ok in Hr. by rewrite Hcss in Hr. }
    { rewrite length_app, String_length_chars. cbn [length]. unfold selector_of in Hlim. lia. }
    run_option.
    destruct (IH (locations ++ [location]) (ruleIndex + 1) sb2 ((l ++ [44]) ++ selector_of r)) as (sb3 & -> & Hr3).
    { done. }
    { done. }
    { rewrite !length_app. cbn [length]. lia. }
    exists sb3. split; [|by rewrite <- !app_assoc in *].
    rewrite <- app_assoc. do 3 f_equal. lia.
  - exists sb. cbn. by rewrite !app_nil_r, N.add_0_r.
Qed.

(** ** The invariant of the loop *)

Section Loop.
Context (rules : list ContentExtensionRule).
Context (Hok : Forall rule_ok rules) (Hsize : rules_size rules <= builder_limit).

(** What is known of the rule [i] after its location was chosen. *)
Definition described (locations actions : list N) (i : nat) : Prop :=
  exists rule location text, rules !! i = Some rule /\ locations !! i = Some location /\
    location < N.of_nat (length actions) /\
    (forall post, deserialize (actions ++ post) (N.of_nat (length (actions ++ post))) location =
       Some (mkAction None (m_type (m_action rule)) location text)) /\
    if is_css rule
    then exists j k, (j <= i < k)%nat /\ css_run rules j k /\ (k <= length locations)%nat /\
      String_chars text = join_selectors (selector_of <$> take (k - j) (drop j rules)) /\
      forall i', (j <= i' < k)%nat -> locations !! i' = Some location
    else text = None.

Record loop_inv (n : nat) (locations actions : list N) : Prop := {
  li_range : (n <= length rules)%nat;
  li_length : length locations = n;
  li_size : N.of_nat (length actions) <= rules_size (take n rules);
  li_boundary : boundary rules n;
  li_described : forall i, (i < n)%nat -> described locations actions i;
  li_sorted : forall i i' a b, (i <= i')%nat -> locations !! i = Some a -> locations !! i' = Some b -> a <= b
}.

Lemma described_more locations actions i more_locations more_actions :
  described locations actions i -> described (locations ++ more_locations) (actions ++ more_actions) i.
Proof.
  intros (rule & location & text & Hr & Hl & Hlt & Hd & Htext). exists rule, location, text. split_and!.
  - done.
  - by apply lookup_app_l_Some.
  - rewrite length_app. lia.
  - intros post. rewrite <- !app_assoc. apply Hd.
  - destruct (is_css rule); [|done]. destruct Htext as (j & k & Hjk & Hrun & Hk & Ht & Hsame).
    exists j, k. split_and!; [lia|lia|done|rewrite length_app; lia|done|].
    intros i' Hi'. by apply lookup_app_l_Some, Hsame.
Qed.

Lemma boundary_no_css n a : rules !! n = Some a -> is_css a = false -> boundary rules (S n).
Proof. intros Ha Hcss m a' b [= <-] Ha' _. simplify_eq. unfold joined. by rewrite Hcss. Qed.

(** The sorted vectors that grow by larger locations. *)
Lemma sorted_more locations (location : N) k :
  (forall i i' a b, (i <= i')%nat -> locations !! i = Some a -> locations !! i' = Some b -> a <= b) ->
  (forall a, a ∈ locations -> a <= location) ->
  forall i i' a b, (i <= i')%nat -> (locations ++ replicate k location) !! i = Some a ->
    (locations ++ replicate k location) !! i' = Some b -> a <= b.
Proof.
  intros Hsorted Hmax i i' a b Hle Ha Hb.
  apply lookup_app_Some in Ha as [Ha|[Hi Ha]], Hb as [Hb|[Hi' Hb]].
  - by eapply Hsorted.
  - apply lookup_replicate in Hb as [-> _]. by apply Hmax; eapply list_elem_of_lookup_2.
  - apply lookup_lt_Some in Hb. lia.
  - apply lookup_replicate in Ha as [-> _], Hb as [-> _]. lia.
Qed.

Lemma locations_below n locations actions a :
  loop_inv n locations actions -> a ∈ locations -> a < N.of_nat (length actions).
Proof.
  intros Hinv [i Hi]%list_elem_of_lookup_1.
  destruct (li_described _ _ _ Hinv i) as (rule & location & text & _ & Hl & Hlt & _).
  - rewrite <- (li_length _ _ _ Hinv). by eapply lookup_lt_Some.
  - simplify_eq. done.
Qed.

Lemma loop_inv_extend n locations actions k location bytes :
  loop_inv n locations actions -> (n + k <= length rules)%nat ->
  (forall a, a ∈ locations -> a <= location) ->
  N.of_nat (length (actions ++ bytes)) <= rules_size (take (n + k) rules) ->
  boundary rules (n + k) ->
  (forall i, (n <= i < n + k)%nat -> described (locations ++ replicate k location) (actions ++ bytes) i) ->
  loop_inv (n + k) (locations ++ replicate k location) (actions ++ bytes).
Proof.
  intros [Hr Hl Hs Hb Hd Hsort] Hk Hmax Hsz Hbound Hnew. split; [done| |done|done| |].
  - rewrite length_app, length_replicate. lia.
  - intros i Hi. destruct (decide (i < n)%nat); [apply described_more; auto|apply Hnew; lia].
  - by apply sorted_more.
Qed.

Lemma size_below n locations actions :
  loop_inv n locations actions -> N.of_nat (length actions) <= builder_limit.
Proof.
  intros Hinv. etrans; [apply Hinv|]. etrans; [|exact Hsize].
  rewrite <- (take_drop n rules) at 2. rewrite rules_size_app. lia.
Qed.

Lemma take_next n r : rules !! n = Some r -> take (n + 1) rules = take n rules ++ [r].
Proof. intros Hr. rewrite Nat.add_1_r. by apply take_S_r. Qed.

Lemma rule_ok_lookup n r : rules !! n = Some r -> rule_ok r.
Proof. intros Hr. by eapply Forall_lookup in Hok. Qed.

(** A turn on a rule whose action is that of the rule before. *)
Lemma step_identical n locations actions r previous location :
  loop_inv (S n) locations actions -> rules !! S n = Some r -> is_css r = false ->
  rules !! n = Some previous -> m_type (m_action r) = m_type (m_action previous) ->
  locations !! n = Some location -> loop_inv (S n + 1) (locations ++ [location]) actions.
Proof.
  intros Hinv Hr Hcss Hp Htype Hl. rewrite <- (app_nil_r actions). change [location] with (replicate 1 location).
  apply loop_inv_extend; [done|apply lookup_lt_Some in Hr; lia| | | |].
  - intros a Ha. apply list_elem_of_lookup in Ha as [i Hi]. eapply (li_sorted _ _ _ Hinv i n); [|done..].
    apply lookup_lt_Some in Hi. rewrite (li_length _ _ _ Hinv) in Hi. lia.
  - rewrite app_nil_r, (take_next _ r) by done. rewrite rules_size_app. pose proof (li_size _ _ _ Hinv). lia.
  - rewrite Nat.add_1_r. by eapply boundary_no_css.
  - intros i Hi. replace i with (S n) by lia.
    destruct (li_described _ _ _ Hinv n) as (rule & location' & text & Hrule & Hl' & Hlt & Hd & Htext); [lia|].
    assert (is_css previous = false) as Hpcss by (unfold is_css in *; by rewrite <- Htype).
    simplify_eq. rewrite Hpcss in Htext. subst text. exists r, location, None. split_and!.
    + done.
    + rewrite <- (li_length _ _ _ Hinv). apply list_lookup_middle. done.
    + by rewrite app_nil_r.
    + rewrite app_nil_r. by rewrite Htype.
    + by rewrite Hcss.
Qed.

(** A turn on a rule whose action is a byte of its own. *)
Lemma step_fresh n locations actions r :
  loop_inv n locations actions -> rules !! n = Some r -> is_css r = false ->
  loop_inv (n + 1) (locations ++ [N.of_nat (length actions)]) (actions ++ [action_byte (m_type (m_action r))]).
Proof.
  intros Hinv Hr Hcss. change [N.of_nat (length actions)] with (replicate 1 (N.of_nat (length actions))).
  apply loop_inv_extend; [done|apply lookup_lt_Some in Hr; lia| | | |].
  - intros a Ha. pose proof (locations_below _ _ _ _ Hinv Ha). lia.
  - rewrite (take_next _ r) by done. rewrite rules_size_app, length_app. cbn [length rules_size foldr].
    pose proof (li_size _ _ _ Hinv). unfold rule_size. lia.
  - rewrite Nat.add_1_r. by eapply boundary_no_css.
  - intros i Hi. replace i with n by lia. exists r, (N.of_nat (length actions)), None. split_and!.
    + done.
    + rewrite <- (li_length _ _ _ Hinv). by apply list_lookup_middle.
    + rewrite length_app. simpl. lia.
    + intros post. unfold deserialize. rewrite <- app_assoc, Nat2N.id. cbn [app].
      rewrite (list_lookup_middle _ _ _ _ eq_refl). run_option.
      rewrite byte_action_byte. run_option. pose proof (rule_ok_lookup n r Hr) as Hrok. unfold rule_ok, is_css in *.
      by destruct (m_type (m_action r)).
    + by rewrite Hcss.
Qed.

(** The rules that [consolidate] goes over are one run. *)
Lemma css_prefix_run n locations actions r :
  loop_inv n locations actions -> rules !! n = Some r -> is_css r = true ->
  let run := r :: css_prefix (m_trigger r) (drop (n + 1) rules) in
  take (length run) (drop n rules) = run /\ css_run rules n (n + length run).
Proof.
  intros Hinv Hr Hcss run. destruct (css_prefix_split (m_trigger r) (drop (n + 1) rules)) as (more & Hsplit & Hall & Hend).
  assert (drop n rules = run ++ more) as Hdrop.
  { rewrite (drop_S _ _ _ Hr). subst run. rewrite <- app_comm_cons, <- Hsplit. by rewrite Nat.add_1_r. }
  assert (forall i, rules !! (n + i)%nat = (run ++ more) !! i) as Hat by (intros i; by rewrite <- Hdrop, lookup_drop).
  assert (forall i a, (i < length run)%nat -> rules !! (n + i)%nat = Some a ->
    trigger_equals (m_trigger r) (m_trigger a) = true /\ is_css a = true) as Hrun.
  { intros i a Hi Ha. rewrite Hat, lookup_app_l in Ha by done. destruct i as [|i]; simpl in Ha.
    - simplify_eq. split; [apply trigger_equals_refl|done].
    - apply Hall. by eapply list_elem_of_lookup_2. }
  assert (forall a b, trigger_equals (m_trigger r) (m_trigger a) = true -> trigger_equals (m_trigger r) (m_trigger b) = true ->
    trigger_equals (m_trigger a) (m_trigger b) = true) as Htrans.
  { intros a b Ha Hb. eapply trigger_equals_trans; [by apply trigger_equals_sym|done]. }
  split; [rewrite Hdrop; apply take_app_length|]. split.
  - apply (f_equal length) in Hdrop. rewrite length_drop, length_app in Hdrop. subst run. cbn [length] in *. lia.
  - intros i a Hi Ha. replace i with (n + (i - n))%nat in Ha by lia. eapply Hrun; [|done]. lia.
  - intros i a b Hi Hk Ha Hb. replace i with (n + (i - n))%nat in Ha by lia.
    replace (S i) with (n + (S i - n))%nat in Hb by lia.
    destruct (Hrun (i - n)%nat a ltac:(lia) Ha) as [Hta Hca], (Hrun (S i - n)%nat b ltac:(lia) Hb) as [Htb Hcb].
    unfold joined. by rewrite Hca, Hcb, Htrans.
  - apply Hinv.
  - intros m a b Hm Ha Hb. replace m with (n + (length run - 1))%nat in Ha by (subst run; cbn [length] in *; lia).
    destruct (Hrun (length run - 1)%nat a ltac:(subst run; cbn [length]; lia) Ha) as [Hta Hca].
    rewrite Hat, lookup_app_r, Nat.sub_diag in Hb by lia. specialize (Hend b Hb).
    unfold joined. rewrite Hca. destruct (is_css b) eqn:Hcb; [|done]. cbn [andb].
    rewrite andb_true_r in Hend. destruct (trigger_equals (m_trigger a) (m_trigger b)) eqn:E; [|done].
    by rewrite (trigger_equals_trans _ _ _ Hta E) in Hend.
Qed.

Lemma join_selectors_cons r l :
  join_selectors (selector_of <$> (r :: l)) = selector_of r ++ tail_text l.
Proof.
  rewrite fmap_cons. unfold join_selectors, tail_text. f_equal.
  induction l as [|r' l IH]; [done|]. rewrite fmap_cons, !bind_cons. by rewrite IH.
Qed.

Lemma normal_impl_chars impl : impl_chars (normal_impl impl) = impl_chars impl.
Proof. unfold normal_impl. by destruct (impl_chars impl) eqn:E. Qed.

(** A turn on a selector and those that are joined to it. *)
Lemma step_css n locations actions r impl :
  loop_inv n locations actions -> rules !! n = Some r -> is_css r = true ->
  let run := r :: css_prefix (m_trigger r) (drop (n + 1) rules) in
  string_ok (Some impl) -> impl_chars impl = join_selectors (selector_of <$> run) ->
  loop_inv (n + length run) (locations ++ replicate (length run) (N.of_nat (length actions)))
    (actions ++ selector_bytes impl).
Proof.
  intros Hinv Hr Hcss run Himpl Hchars. set (location := N.of_nat (length actions)).
  destruct (css_prefix_run n _ _ r Hinv Hr Hcss) as [Htake Hrun]. fold run in Htake, Hrun.
  assert (take (n + length run) rules = take n rules ++ run) as Hall by (by rewrite <- take_take_drop, Htake).
  assert (rules_size (take (n + length run) rules) <= rules_size rules) as Hle.
  { rewrite <- (take_drop (n + length run) rules) at 2. rewrite rules_size_app. lia. }
  assert (rules_size run <= rules_size rules) as Hruns by (rewrite Hall, rules_size_app in Hle; lia).
  assert (6 + 2 * N.of_nat (length (impl_chars impl)) <= rules_size run) as Htext.
  { subst run. rewrite Hchars, join_selectors_cons, length_app, rules_size_cons.
    pose proof (length_tail_text (css_prefix (m_trigger r) (drop (n + 1) rules))). unfold rule_size. lia. }
  assert (N.of_nat (length (actions ++ selector_bytes impl)) <= rules_size (take (n + length run) rules)) as Hbytes.
  { rewrite Hall, rules_size_app, length_app, Nat2N.inj_add, length_selector_bytes. pose proof (li_size _ _ _ Hinv).
    destruct (impl_is8Bit impl); lia. }
  unfold builder_limit in Hsize.
  apply loop_inv_extend; [done|apply Hrun| |done|apply Hrun|].
  - intros a Ha. pose proof (locations_below _ _ _ _ Hinv Ha). lia.
  - intros i Hi. destruct (lookup_lt_is_Some_2 rules i) as [rule Hrule]; [destruct (run_range _ _ _ Hrun); lia|].
    pose proof (run_css _ _ _ Hrun i rule Hi Hrule) as Hc.
    assert (forall i', (n <= i' < n + length run)%nat ->
      (locations ++ replicate (length run) location) !! i' = Some location) as Hloc.
    { intros i' Hi'. rewrite lookup_app_r by (rewrite (li_length _ _ _ Hinv); lia).
      apply lookup_replicate. rewrite (li_length _ _ _ Hinv). split; [done|lia]. }
    exists rule, location, (Some (normal_impl impl)). split_and!; [done|by apply Hloc| | |].
    + rewrite length_app, Nat2N.inj_add, length_selector_bytes. subst location. lia.
    + intros post. rewrite <- app_assoc.
      pose proof (deserialize_selector_bytes actions impl post Himpl) as Hde. cbn zeta in Hde. fold location in Hde.
      rewrite Hde by (unfold builder_limit; lia). clear Hde.
      unfold is_css in Hc. apply bool_decide_eq_true in Hc. by rewrite Hc.
    + rewrite Hc. exists n, (n + length run)%nat. split_and!; [lia|lia|done| | |done].
      * rewrite length_app, length_replicate, (li_length _ _ _ Hinv). lia.
      * cbn [String_chars]. rewrite normal_impl_chars, Hchars. do 2 f_equal. by rewrite Nat.add_comm, Nat.add_sub.
Qed.

(** ** The loop *)

Lemma toString_ok sb l :
  repr sb l -> exists sb' impl, toString hasOneRef sb = Some (sb', Some impl) /\ impl_chars impl = l /\
    string_ok (Some impl).
Proof.
  intros Hr. destruct (toString_repr hasOneRef sb l Hr) as (sb' & impl & Hto & _ & Hc & Hw).
  exists sb', impl. split_and!; [done..|]. simpl. rewrite Hc, Hw. apply Hr.
Qed.

Lemma serialize_css n locations actions r :
  loop_inv n locations actions -> rules !! n = Some r -> is_css r = true ->
  exists n' locations' actions', serialize_rule hasOneRef rules (locations, actions, N.of_nat n) =
    Some (locations', actions', N.of_nat n') /\ loop_inv n' locations' actions' /\ (n < n')%nat.
Proof.
  intros Hinv Hr Hcss. unfold serialize_rule. rewrite Nat2N.id, Hr. run_option. fold (is_css r). rewrite Hcss.
  pose proof (size_below _ _ _ Hinv) as Hbelow. pose proof (rule_ok_lookup n r Hr) as Hrok.
  destruct (css_prefix_run n _ _ r Hinv Hr Hcss) as [Htake Hrun].
  set (prefix := css_prefix (m_trigger r) (drop (n + 1) rules)) in *.
  assert (rules_size (r :: prefix) <= builder_limit) as Hlim.
  { etrans; [|exact Hsize]. rewrite <- (take_drop n rules), rules_size_app, <- Htake.
    rewrite <- (take_drop (length (r :: prefix)) (drop n rules)) at 2. rewrite rules_size_app. lia. }
  pose proof (length_tail_text prefix) as Htail. rewrite rules_size_cons in Hlim.
  unfold rule_size in Hlim. unfold builder_limit in *.
  destruct (append_String_repr hasOneRef StringBuilder_empty [] (m_stringArgument (m_action r)) repr_empty)
    as (sb1 & -> & Hr1).
  { unfold rule_ok, is_css in *. apply bool_decide_eq_true in Hcss. by rewrite Hcss in Hrok. }
  { rewrite String_length_chars. unfold builder_limit. cbn [length]. unfold selector_of in Hlim. lia. }
  run_option. rewrite N2Nat.inj_add, Nat2N.id. change (N.to_nat 1) with 1%nat.
  destruct (consolidate_spec (m_trigger r) (drop (n + 1) rules) (wrap32 (N.of_nat (length actions)))
    (locations ++ [wrap32 (N.of_nat (length actions))]) (N.of_nat n) sb1 _ Hr1) as (sb2 & -> & Hr2).
  { by apply Forall_drop. }
  { cbn [app]. fold prefix. fold (selector_of r). unfold builder_limit. lia. }
  fold prefix in Hr2 |- *. run_option.
  destruct (toString_ok _ _ Hr2) as (sb3 & impl & -> & Hchars & Himpl). run_option. cbn [snd].
  rewrite serializeSelector_spec by (done || lia). run_option. rewrite wrap32_id by lia.
  exists (n + length (r :: prefix))%nat. eexists _, _. split; [|split].
  - do 2 f_equal. cbn [length]. lia.
  - rewrite <- app_assoc. apply (step_css n locations actions r impl Hinv Hr Hcss); [done|].
    by rewrite join_selectors_cons, Hchars.
  - cbn [length]. lia.
Qed.

Lemma serialize_other n locations actions r :
  loop_inv n locations actions -> rules !! n = Some r -> is_css r = false ->
  exists n' locations' actions', serialize_rule hasOneRef rules (locations, actions, N.of_nat n) =
    Some (locations', actions', N.of_nat n') /\ loop_inv n' locations' actions' /\ (n < n')%nat.
Proof.
  intros Hinv Hr Hcss. unfold serialize_rule. rewrite Nat2N.id, Hr. run_option. fold (is_css r). rewrite Hcss.
  pose proof (size_below _ _ _ Hinv) as Hbelow. unfold builder_limit in Hbelow. rewrite wrap32_id by lia.
  assert (exists n' locations' actions',
    match m_type (m_action r) with
    | CSSDisplayNoneSelector | CSSDisplayNoneStyleSheet | InvalidAction => None
    | BlockLoad | BlockCookies | IgnorePreviousRules =>
        Some (locations ++ [N.of_nat (length actions)], actions ++ [action_byte (m_type (m_action r))], N.of_nat n + 1)
    end = Some (locations', actions', N.of_nat n') /\ loop_inv n' locations' actions' /\ (n < n')%nat) as Hfresh.
  { pose proof (step_fresh n locations actions r Hinv Hr Hcss) as Hstep.
    pose proof (rule_ok_lookup n r Hr) as Hrok. unfold rule_ok, is_css in *.
    destruct (m_type (m_action r)); try done; exists (n + 1)%nat; eexists _, _;
      (split; [do 2 f_equal; lia|split; [done|lia]]). }
  destruct n as [|n]; cbn [negb]; [exact Hfresh|].
  replace (N.of_nat (S n) =? 0) with false by (symmetry; apply N.eqb_neq; lia). cbn [negb].
  replace (N.to_nat (N.of_nat (S n) - 1)) with n by lia.
  destruct (lookup_lt_is_Some_2 rules n) as [previous Hp]; [apply lookup_lt_Some in Hr; lia|].
  rewrite Hp. run_option. destruct (action_equals _ _) eqn:E; [|exact Hfresh].
  destruct (lookup_lt_is_Some_2 locations n) as [location Hl]; [rewrite (li_length _ _ _ Hinv); lia|].
  rewrite Hl. run_option. exists (S n + 1)%nat. eexists _, _. split; [do 2 f_equal; lia|]. split; [|lia].
  by eapply step_identical; [..|by apply action_equals_type|].
Qed.

Lemma serialize_loop_spec fuel n locations actions :
  loop_inv n locations actions -> (length rules - n <= fuel)%nat ->
  exists locations' actions', serialize_loop hasOneRef fuel rules (locations, actions, N.of_nat n) =
    Some (locations', actions') /\ loop_inv (length rules) locations' actions'.
Proof.
  revert n locations actions. induction fuel as [|fuel IH]; intros n locations actions Hinv Hfuel;
    pose proof (li_range _ _ _ Hinv) as Hrange; cbn [serialize_loop snd fst].
  - replace n with (length rules) in * by lia. rewrite N.ltb_irrefl. by eexists _, _.
  - destruct (_ <? _) eqn:E; breflect.
    + destruct (lookup_lt_is_Some_2 rules n) as [r Hr]; [lia|].
      assert (exists n' locations' actions', serialize_rule hasOneRef rules (locations, actions, N.of_nat n) =
        Some (locations', actions', N.of_nat n') /\ loop_inv n' locations' actions' /\ (n < n')%nat)
        as (n' & locations' & actions' & -> & Hinv' & Hn').
      { destruct (is_css r) eqn:Hcss; [by eapply serialize_css|by eapply serialize_other]. }
      run_option. apply IH; [done|lia].
    + replace n with (length rules) in * by lia. by eexists _, _.
Qed.

Lemma loop_inv_start : loop_inv 0 [] [].
Proof. split; [lia|done|simpl; lia|intros m a b ?; lia|lia|done]. Qed.
End Loop.

Lemma serializeActions_result rules :
  Forall rule_ok rules -> rules_size rules <= builder_limit ->
  exists locations actions, serializeActions hasOneRef rules = Some (locations, actions) /\
    length locations = length rules /\ N.of_nat (length actions) <= rules_size rules /\
    (forall i i' a b, (i <= i')%nat -> locations !! i = Some a -> locations !! i' = Some b -> a <= b) /\
    forall i rule location, rules !! i = Some rule -> locations !! i = Some location ->
      exists action, deserialize actions (N.of_nat (length actions)) location = Some action /\
        m_type action = m_type (m_action rule) /\ m_actionID action = location /\
        if is_css rule
        then exists j k, (j <= i < k)%nat /\ css_run rules j k /\
          String_chars (m_stringArgument action) = join_selectors (selector_of <$> take (k - j) (drop j rules)) /\
          forall i', (j <= i' < k)%nat -> locations !! i' = Some location
        else m_stringArgument action = None.
Proof.
  intros Hok Hsize.
  destruct (serialize_loop_spec rules Hok Hsize (length rules) 0 [] [] (loop_inv_start rules Hsize)) as (locations & actions & Hrun & Hinv);
    [lia|].
  exists locations, actions. split_and!.
  - exact Hrun.
  - apply Hinv.
  - etrans; [apply Hinv|]. by rewrite take_ge by lia.
  - apply Hinv.
  - intros i rule location Hrule Hl.
    destruct (li_described _ _ _ _ Hinv i) as (rule' & location' & text & Hrule' & Hl' & _ & Hd & Htext);
      [by eapply lookup_lt_Some|]. simplify_eq.
    specialize (Hd []). rewrite app_nil_r in Hd. eexists. split; [exact Hd|]. split_and!; [done|done|].
    destruct (is_css rule); [|done]. destruct Htext as (j & k & Hjk & Hrun' & _ & Ht & Hsame).
    by exists j, k.
Qed.

(** C30: [serializeActions] of the rules of the parser returns one location for each rule, in the order
    of the rules; at the location of a rule [Action::deserialize] gives back its action: an action of the
    same type, with the location as its identifier, and when it is a selector, the selectors of the whole
    run of neighbours with selectors and equal triggers it stands in, joined by commas, to all of which
    the location belongs. *)
Theorem serializeActions_roundtrip rules :
  Forall rule_ok rules -> rules_size rules <= builder_limit ->
  exists locations actions, serializeActions hasOneRef rules = Some (locations, actions) /\
    length locations = length rules /\ N.of_nat (length actions) <= rules_size rules /\
    (forall i i' a b, (i <= i')%nat -> locations !! i = Some a -> locations !! i' = Some b -> a <= b) /\
    forall i rule location, rules !! i = Some rule -> locations !! i = Some location ->
      exists action, deserialize actions (N.of_nat (length actions)) location = Some action /\
        m_type action = m_type (m_action rule) /\ m_actionID action = location /\
        if is_css rule
        then exists j k, (j <= i < k)%nat /\ css_run rules j k /\
          String_chars (m_stringArgument action) = join_selectors (selector_of <$> take (k - j) (drop j rules)) /\
          forall i', (j <= i' < k)%nat -> locations !! i' = Some location
        else m_stringArgument action = None.
Proof. apply serializeActions_result. Qed.
End Correct.

(** ** An example *)

Definition example_trigger (filter : list N) : Trigger := mkTrigger (String8 filter) false 0.

(** Two rules that block, three selectors of which two are joined, and the rule to ignore the others. *)
Definition example_rules : list ContentExtensionRule :=
  [mkRule (example_trigger [97]) (Action_plain BlockLoad max32);
   mkRule (example_trigger [98]) (Action_plain BlockLoad max32);
   mkRule (example_trigger [99]) (Action_string CSSDisplayNoneSelector (String8 [35; 97]) max32);
   mkRule (example_trigger [99]) (Action_string CSSDisplayNoneSelector (String16 [46; 8364]) max32);
   mkRule (example_trigger [100]) (Action_string CSSDisplayNoneSelector (String8 [46; 98]) max32);
   mkRule (example_trigger [97]) (Action_plain IgnorePreviousRules max32)].

Lemma example_rules_ok : Forall rule_ok example_rules.
Proof. repeat constructor. Qed.

Lemma serializeActions_roundtrip_witness :
  exists locations actions, serializeActions (fun _ => true) example_rules = Some (locations, actions) /\
    length locations = length example_rules /\ N.of_nat (length actions) <= rules_size example_rules /\
    (forall i i' a b, (i <= i')%nat -> locations !! i = Some a -> locations !! i' = Some b -> a <= b) /\
    forall i rule location, example_rules !! i = Some rule -> locations !! i = Some location ->
      exists action, deserialize actions (N.of_nat (length actions)) location = Some action /\
        m_type action = m_type (m_action rule) /\ m_actionID action = location /\
        if is_css rule
        then exists j k, (j <= i < k)%nat /\ css_run example_rules j k /\
          String_chars (m_stringArgument action) = join_selectors (selector_of <$> take (k - j) (drop j example_rules)) /\
          forall i', (j <= i' < k)%nat -> locations !! i' = Some location
        else m_stringArgument action = None.
Proof.
  apply (serializeActions_roundtrip (fun _ => true) example_rules).
  - repeat constructor.
  - vm_compute. discriminate.
Defined.

(** The locations: the blocking rules share one, and so do the two joined selectors. *)
Example example_locations :
  fst <$> serializeActions (fun _ => true) example_rules = Some [0; 0; 1; 1; 17; 25].
Proof. by vm_compute. Qed.
