(* ===== verification/ResourceTypes.v ===== *)
(** * The types of resources and of loads

    [WebCore/loader/ResourceLoadInfo.h] and the tables of [ResourceLoadInfo.cpp]:
    a type is a bit of the flags of a rule and of a load. *)

From S2P Require Import Prelude WTFString.

(** WebCore/loader/ResourceLoadInfo.h:34-46 [ResourceType] *)
Inductive ResourceType :=
| Resource_Invalid
| Resource_Document
| Resource_Image
| Resource_StyleSheet
| Resource_Script
| Resource_Font
| Resource_Raw
| Resource_SVGDocument
| Resource_Media
| Resource_PlugInStream
| Resource_Popup.

#[export] Instance ResourceType_eq_dec : EqDecision ResourceType.
Proof. solve_decision. Defined.

(** [static_cast<uint16_t>(type)]. *)
Definition resource_value (type : ResourceType) : N :=
  match type with
  | Resource_Invalid => 0x0000
  | Resource_Document => 0x0001
  | Resource_Image => 0x0002
  | Resource_StyleSheet => 0x0004
  | Resource_Script => 0x0008
  | Resource_Font => 0x0010
  | Resource_Raw => 0x0020
  | Resource_SVGDocument => 0x0040
  | Resource_Media => 0x0080
  | Resource_PlugInStream => 0x0100
  | Resource_Popup => 0x0200
  end.

(** WebCore/loader/ResourceLoadInfo.h:48-52 [LoadType] *)
Inductive LoadType := Load_Invalid | Load_FirstParty | Load_ThirdParty.

#[export] Instance LoadType_eq_dec : EqDecision LoadType.
Proof. solve_decision. Defined.

(** [static_cast<uint16_t>(type)]. *)
Definition load_value (type : LoadType) : N :=
  match type with
  | Load_Invalid => 0x0000
  | Load_FirstParty => 0x0400
  | Load_ThirdParty => 0x0800
  end.

(** WebCore/loader/cache/CachedResource.h:63-84 [CachedResource::Type], with every feature enabled *)
Inductive CachedResourceType :=
| Cached_MainResource
| Cached_ImageResource
| Cached_CSSStyleSheet
| Cached_Script
| Cached_FontResource
| Cached_SVGFontResource
| Cached_RawResource
| Cached_SVGDocumentResource
| Cached_XSLStyleSheet
| Cached_LinkPrefetch
| Cached_LinkSubresource
| Cached_TextTrackResource.

(** WebCore/loader/ResourceLoadInfo.cpp:34-68 [toResourceType]: no value is returned for the links *)
Definition toResourceType (type : CachedResourceType) : option ResourceType :=
  match type with
  | Cached_MainResource => Some Resource_Document
  | Cached_SVGDocumentResource => Some Resource_SVGDocument
  | Cached_ImageResource => Some Resource_Image
  | Cached_CSSStyleSheet | Cached_XSLStyleSheet => Some Resource_StyleSheet
  | Cached_Script => Some Resource_Script
  | Cached_FontResource | Cached_SVGFontResource => Some Resource_Font
  | Cached_RawResource => Some Resource_Raw
  | Cached_TextTrackResource => Some Resource_Media
  | Cached_LinkPrefetch | Cached_LinkSubresource => None
  end.

(** WebCore/loader/ResourceLoadInfo.cpp:70-91 [readResourceType] *)
Definition readResourceType (name : WTFString) : N :=
  if equal_literal name (lit "document") then resource_value Resource_Document
  else if equal_literal name (lit "image") then resource_value Resource_Image
  else if equal_literal name (lit "style-sheet") then resource_value Resource_StyleSheet
  else if equal_literal name (lit "script") then resource_value Resource_Script
  else if equal_literal name (lit "font") then resource_value Resource_Font
  else if equal_literal name (lit "raw") then resource_value Resource_Raw
  else if equal_literal name (lit "svg-document") then resource_value Resource_SVGDocument
  else if equal_literal name (lit "media") then resource_value Resource_Media
  else if equal_literal name (lit "popup") then resource_value Resource_Popup
  else resource_value Resource_Invalid.

(** WebCore/loader/ResourceLoadInfo.cpp:93-100 [readLoadType] *)
Definition readLoadType (name : WTFString) : N :=
  if equal_literal name (lit "first-party") then load_value Load_FirstParty
  else if equal_literal name (lit "third-party") then load_value Load_ThirdParty
  else load_value Load_Invalid.

(** ** Lemmas *)

(** The bits of the types of resources, and of the types of loads. *)
Definition resource_mask : N := 0x03FF.
Definition load_mask : N := 0x0C00.

Lemma land_subset_lor mask a b : N.land a mask = a -> N.land b mask = b -> N.land (N.lor a b) mask = N.lor a b.
Proof. intros Ha Hb. by rewrite N.land_lor_distr_l, Ha, Hb. Qed.

Lemma readResourceType_mask name : N.land (readResourceType name) resource_mask = readResourceType name.
Proof. unfold readResourceType. by repeat (destruct (equal_literal name _)). Qed.

Lemma readLoadType_mask name : N.land (readLoadType name) load_mask = readLoadType name.
Proof. unfold readLoadType. by repeat (destruct (equal_literal name _)). Qed.
