(* ===== verification/RuleParser.v ===== *)
(** * [WebCore/contentextensions/ContentExtensionParser.cpp] and [ContentExtensionError.h], [.cpp]

    The rules of an extension are read from JSON text.  The JSON parser and the
    values are those of JavaScriptCore, which is not part of the source: they are
    the class [JSC].  The computations thread the exception of [ExecState], which
    stays set once an operation has thrown, and stop at the first error. *)

From S2P Require Import Prelude WTFString Rules ResourceTypes.

(** ** Errors *)

(** WebCore/contentextensions/ContentExtensionError.h:36-59 [ContentExtensionError] *)
Inductive ContentExtensionError :=
| JSONInvalid
| JSONTopLevelStructureNotAnObject
| JSONTopLevelStructureNotAnArray
| JSONInvalidObjectInTopLevelArray
| JSONInvalidRule
| JSONContainsNoRules
| JSONInvalidTrigger
| JSONInvalidURLFilterInTrigger
| JSONInvalidTriggerFlagsArray
| JSONInvalidObjectInTriggerFlagsArray
| JSONInvalidStringInTriggerFlagsArray
| JSONInvalidAction
| JSONInvalidActionType
| JSONInvalidCSSDisplayNoneActionType
| JSONInvalidRegex
| RegexMatchesEverythingAfterIgnorePreviousRules.

(** WebCore/contentextensions/ContentExtensionError.h:63-66 [make_error_code] *)
Definition error_code (error : ContentExtensionError) : N :=
  match error with
  | JSONInvalid => 1
  | JSONTopLevelStructureNotAnObject => 2
  | JSONTopLevelStructureNotAnArray => 3
  | JSONInvalidObjectInTopLevelArray => 4
  | JSONInvalidRule => 5
  | JSONContainsNoRules => 6
  | JSONInvalidTrigger => 7
  | JSONInvalidURLFilterInTrigger => 8
  | JSONInvalidTriggerFlagsArray => 9
  | JSONInvalidObjectInTriggerFlagsArray => 10
  | JSONInvalidStringInTriggerFlagsArray => 11
  | JSONInvalidAction => 12
  | JSONInvalidActionType => 13
  | JSONInvalidCSSDisplayNoneActionType => 14
  | JSONInvalidRegex => 15
  | RegexMatchesEverythingAfterIgnorePreviousRules => 16
  end.

(** WebCore/contentextensions/ContentExtensionError.cpp:45-83 [ContentExtensionErrorCategory::message] *)
Definition error_message (errorCode : N) : list N :=
  match errorCode with
  | 1 => lit "Failed to parse the JSON String."
  | 2 => lit "Invalid input, the top level structure is not an object."
  | 3 => lit "Invalid input, the top level structure is not an array."
  | 4 => lit "Invalid object in the top level array."
  | 5 => lit "Invalid rule."
  | 6 => lit "Empty extension."
  | 7 => lit "Invalid trigger object."
  | 8 => lit "Invalid url-filter object."
  | 9 => lit "Invalid trigger flags array."
  | 10 => lit "Invalid object in the trigger flags array."
  | 11 => lit "Invalid string in the trigger flags array."
  | 12 => lit "Invalid action object."
  | 13 => lit "Invalid action type."
  | 14 => lit "Invalid css-display-none action type. Requires a selector."
  | 15 => lit "Invalid or unsupported regular expression."
  | 16 => lit "Regular expressions that match everything are only allowed before the first ignore-previous-rules."
  | _ => []
  end.

(** ** JavaScriptCore *)

(** The values and what is asked of them.  A result is perhaps an empty value, with whether an
    exception was thrown. *)
Class JSC := {
  JSValue : Type;
  JSONParse : WTFString -> option JSValue * bool;
  isObject : JSValue -> bool;
  isString : JSValue -> bool;
  isBoolean : JSValue -> bool;
  isJSArray : JSValue -> bool;
  toBoolean : JSValue -> bool;
  toWTFString : JSValue -> WTFString * bool;
  toObject : JSValue -> option JSValue * bool;
  array_length : JSValue -> N;
  getIndex : JSValue -> N -> option JSValue * bool;
  get : JSValue -> list N -> option JSValue * bool
}.

(** ** The computations of the parser *)

(** From the pending exception to an error or a value, and the pending exception. *)
Definition Exec (A : Type) : Type := bool -> (ContentExtensionError + A) * bool.

#[export] Instance Exec_ret : MRet Exec := fun A a exception => (inr a, exception).

#[export] Instance Exec_bind : MBind Exec := fun A B k m exception =>
  match m exception with
  | (inl error, exception) => (inl error, exception)
  | (inr a, exception) => k a exception
  end.

(** [return error]. *)
Definition throw {A} (error : ContentExtensionError) : Exec A := fun exception => (inl error, exception).

(** An operation of JavaScriptCore. *)
Definition call {A} (result : A * bool) : Exec A := fun exception => (inr result.1, exception || result.2).

(** [exec.hadException()]. *)
Definition hadException : Exec bool := fun exception => (inr exception, exception).

Section Parser.
Context `{JSC}.

(** WebCore/contentextensions/ContentExtensionParser.cpp:60-73 [getTypeFlags]: the loop *)
Fixpoint type_flags_loop (array : JSValue) (stringToType : WTFString -> N) (indices : list N) (flags : N)
    : Exec N :=
  match indices with
  | [] => mret flags
  | i :: indices =>
      value ← call (getIndex array i);
      exception ← hadException;
      match value with
      | Some value =>
          if (exception : bool) then throw JSONInvalidObjectInTriggerFlagsArray
          else
            name ← call (toWTFString value);
            let type := stringToType name in
            if type =? 0 then throw JSONInvalidStringInTriggerFlagsArray
            else type_flags_loop array stringToType indices (N.lor flags type)
      | None => throw JSONInvalidObjectInTriggerFlagsArray
      end
  end.

(** WebCore/contentextensions/ContentExtensionParser.cpp:50-76 [getTypeFlags] *)
Definition getTypeFlags (typeValue : JSValue) (flags : N) (stringToType : WTFString -> N) : Exec N :=
  if negb (isObject typeValue) then mret flags
  else if negb (isJSArray typeValue) then throw JSONInvalidTriggerFlagsArray
  else type_flags_loop typeValue stringToType (for_range 0 (array_length typeValue)) flags.

(** A property whose value is of the kind asked for, or an error. *)
Definition get_required (object : JSValue) (name : list N) (kind : JSValue -> bool)
    (error : ContentExtensionError) : Exec JSValue :=
  value ← call (get object name);
  exception ← hadException;
  match value with
  | Some value => if (exception : bool) || negb (kind value) then throw error else mret value
  | None => throw error
  end.

(** [if (typeValue && !exec.hadException()) getTypeFlags(...)] *)
Definition get_flags (triggerObject : JSValue) (name : list N) (flags : N) (stringToType : WTFString -> N)
    : Exec N :=
  typeValue ← call (get triggerObject name);
  exception ← hadException;
  match typeValue with
  | Some typeValue => if negb exception then getTypeFlags typeValue flags stringToType else mret flags
  | None => mret flags
  end.

(** WebCore/contentextensions/ContentExtensionParser.cpp:78-113 [loadTrigger] *)
Definition loadTrigger (ruleObject : JSValue) (trigger : Trigger) : Exec Trigger :=
  triggerObject ← get_required ruleObject (lit "trigger") isObject JSONInvalidTrigger;
  urlFilterObject ← get_required triggerObject (lit "url-filter") isString JSONInvalidURLFilterInTrigger;
  urlFilter ← call (toWTFString urlFilterObject);
  if String_isEmpty urlFilter then throw JSONInvalidURLFilterInTrigger
  else
    urlFilterCaseValue ← call (get triggerObject (lit "url-filter-is-case-sensitive"));
    exception ← hadException;
    let caseSensitive :=
      match urlFilterCaseValue with
      | Some value => if negb exception && isBoolean value then toBoolean value
                      else urlFilterIsCaseSensitive trigger
      | None => urlFilterIsCaseSensitive trigger
      end in
    newFlags ← get_flags triggerObject (lit "resource-type") (flags trigger) readResourceType;
    newFlags ← get_flags triggerObject (lit "load-type") newFlags readLoadType;
    mret (mkTrigger urlFilter caseSensitive newFlags).

(** WebCore/contentextensions/ContentExtensionParser.cpp:115-143 [loadAction] *)
Definition loadAction (ruleObject : JSValue) : Exec Action :=
  actionObject ← get_required ruleObject (lit "action") isObject JSONInvalidAction;
  typeObject ← get_required actionObject (lit "type") isString JSONInvalidActionType;
  actionType ← call (toWTFString typeObject);
  if equal_literal actionType (lit "block") then mret (Action_plain BlockLoad max32)
  else if equal_literal actionType (lit "ignore-previous-rules") then mret (Action_plain IgnorePreviousRules max32)
  else if equal_literal actionType (lit "block-cookies") then mret (Action_plain BlockCookies max32)
  else if equal_literal actionType (lit "css-display-none") then
    selector ← get_required actionObject (lit "selector") isString JSONInvalidCSSDisplayNoneActionType;
    text ← call (toWTFString selector);
    mret (Action_string CSSDisplayNoneSelector text max32)
  else throw JSONInvalidActionType.

(** WebCore/contentextensions/ContentExtensionParser.cpp:145-159 [loadRule] *)
Definition loadRule (ruleObject : JSValue) (ruleList : list ContentExtensionRule)
    : Exec (list ContentExtensionRule) :=
  trigger ← loadTrigger ruleObject newTrigger;
  action ← loadAction ruleObject;
  mret (ruleList ++ [mkRule trigger action]).

(** WebCore/contentextensions/ContentExtensionParser.cpp:180-195 [loadEncodedRules]: the loop *)
Fixpoint rules_loop (topLevelArray : JSValue) (indices : list N) (localRuleList : list ContentExtensionRule)
    : Exec (list ContentExtensionRule) :=
  match indices with
  | [] => mret localRuleList
  | i :: indices =>
      value ← call (getIndex topLevelArray i);
      exception ← hadException;
      match value with
      | Some value =>
          if (exception : bool) then throw JSONInvalidObjectInTopLevelArray
          else
            ruleObject ← call (toObject value);
            exception ← hadException;
            match ruleObject with
            | Some ruleObject =>
                if (exception : bool) then throw JSONInvalidRule
                else localRuleList ← loadRule ruleObject localRuleList;
                     rules_loop topLevelArray indices localRuleList
            | None => throw JSONInvalidRule
            end
      | None => throw JSONInvalidObjectInTopLevelArray
      end
  end.

(** WebCore/contentextensions/ContentExtensionParser.cpp:161-199 [loadEncodedRules] *)
Definition loadEncodedRules (rules : WTFString) : Exec (list ContentExtensionRule) :=
  decodedRules ← call (JSONParse rules);
  exception ← hadException;
  match decodedRules with
  | Some decodedRules =>
      if (exception : bool) then throw JSONInvalid
      else if negb (isObject decodedRules) then throw JSONTopLevelStructureNotAnObject
      else
        topLevelObject ← call (toObject decodedRules);
        exception ← hadException;
        match topLevelObject with
        | Some topLevelObject =>
            if (exception : bool) then throw JSONTopLevelStructureNotAnObject
            else if negb (isJSArray topLevelObject) then throw JSONTopLevelStructureNotAnArray
            else rules_loop topLevelObject (for_range 0 (array_length topLevelObject)) []
        | None => throw JSONTopLevelStructureNotAnObject
        end
  | None => throw JSONInvalid
  end.

(** WebCore/contentextensions/ContentExtensionParser.cpp:201-228 [parseRuleList] *)
Definition parseRuleList (rules : WTFString) : ContentExtensionError + list ContentExtensionRule :=
  match (loadEncodedRules rules false).1 with
  | inl error => inl error
  | inr [] => inl JSONContainsNoRules
  | inr ruleList => inr ruleList
  end.
End Parser.
