(* ===== verification/RuleParserCorrect.v ===== *)
(** * The parser of rules: the theorems

    Whatever the JSON values, the rules that [parseRuleList] returns are well
    formed ([parseRuleList_ok]); on JSON data, the rules of an extension are read
    back from their text ([parseRuleList_roundtrip]). *)

From S2P Require Import Prelude WTFString StringBuilderCorrect Rules ResourceTypes SerializeCorrect RuleParser.

(** ** Well-formed rules *)

(** The flags that the parser sets. *)
Definition flags_mask : N := N.lor resource_mask load_mask.

Record trigger_ok (t : Trigger) : Prop := {
  tr_nonempty : String_isEmpty (urlFilter t) = false;
  tr_string : string_ok (urlFilter t);
  tr_flags : N.land (flags t) flags_mask = flags t
}.

(** A selector has text, and the other actions of the parser have none. *)
Record action_ok (a : Action) : Prop := {
  ac_identifier : m_extensionIdentifier a = None;
  ac_id : m_actionID a = max32;
  ac_type : match m_type a with
            | CSSDisplayNoneSelector => string_ok (m_stringArgument a)
            | BlockLoad | BlockCookies | IgnorePreviousRules => m_stringArgument a = None
            | CSSDisplayNoneStyleSheet | InvalidAction => False
            end
}.

Definition parsed_rule (r : ContentExtensionRule) : Prop := trigger_ok (m_trigger r) /\ action_ok (m_action r).

Lemma parsed_rule_ok r : parsed_rule r -> rule_ok r.
Proof. intros [_ [_ _ Ha]]. unfold rule_ok. by destruct (m_type (m_action r)). Qed.

Lemma lor_flags a b mask : N.land a mask = a -> N.land b mask = b -> N.land (N.lor a b) mask = N.lor a b.
Proof. apply land_subset_lor. Qed.

Lemma mask_weaken a mask mask' : N.land mask mask' = mask -> N.land a mask = a -> N.land a mask' = a.
Proof. intros Hm Ha. rewrite <- Ha at 2. by rewrite <- Hm, N.land_assoc, Ha. Qed.

(** ** What a computation yields *)

(** If it returns a value, the value is as said. *)
Definition yields {A} (m : Exec A) (P : A -> Prop) : Prop :=
  forall exception, match (m exception).1 with inl _ => True | inr a => P a end.

Lemma yields_ret {A} (a : A) (P : A -> Prop) : P a -> yields (mret a) P.
Proof. by intros Ha exception. Qed.

Lemma yields_throw {A} error (P : A -> Prop) : yields (throw error) P.
Proof. by intros exception. Qed.

Lemma yields_call {A} (r : A * bool) (P : A -> Prop) : P r.1 -> yields (call r) P.
Proof. by intros Ha exception. Qed.

Lemma yields_any {A} (m : Exec A) : yields m (fun _ => True).
Proof. intros exception. by destruct (m exception).1. Qed.

Lemma yields_bind {A B} (m : Exec A) (k : A -> Exec B) (P : A -> Prop) (Q : B -> Prop) :
  yields m P -> (forall a, P a -> yields (k a) Q) -> yields (m ≫= k) Q.
Proof.
  intros Hm Hk exception. specialize (Hm exception). unfold mbind, Exec_bind.
  destruct (m exception) as [[error|a] exception']; simpl in *; [done|]. by apply Hk.
Qed.

Create HintDb yields.
#[export] Hint Resolve yields_ret yields_throw yields_any : yields.

Section WellFormed.
Context `{JSC} (Hstrings : forall v, string_ok (toWTFString v).1).

Lemma type_flags_loop_ok array stringToType mask indices fl :
  (forall name, N.land (stringToType name) mask = stringToType name) -> N.land fl mask = fl ->
  yields (type_flags_loop array stringToType indices fl) (fun fl => N.land fl mask = fl).
Proof.
  intros Hmask. revert fl. induction indices as [|i indices IH]; intros fl Hfl; cbn [type_flags_loop]; [by apply yields_ret|].
  apply (yields_bind _ _ (fun _ => True)); [auto with yields|intros [value|] _];
    (apply (yields_bind _ _ (fun _ => True)); [auto with yields|intros exception _]); [|auto with yields].
  destruct exception; [auto with yields|].
  apply (yields_bind _ _ (fun _ => True)); [auto with yields|intros name _].
  destruct (_ =? 0); [auto with yields|]. apply IH. by apply lor_flags.
Qed.

Lemma get_flags_ok object name fl stringToType mask :
  (forall name, N.land (stringToType name) mask = stringToType name) -> N.land fl mask = fl ->
  yields (get_flags object name fl stringToType) (fun fl => N.land fl mask = fl).
Proof.
  intros Hmask Hfl. unfold get_flags, getTypeFlags.
  apply (yields_bind _ _ (fun _ => True)); [auto with yields|intros [value|] _];
    (apply (yields_bind _ _ (fun _ => True)); [auto with yields|intros exception _]); [|by apply yields_ret].
  destruct exception; [by apply yields_ret|]. simpl.
  destruct (isObject value); [|by apply yields_ret]. destruct (isJSArray value); [|apply yields_throw].
  by apply type_flags_loop_ok.
Qed.

Lemma loadTrigger_ok object : yields (loadTrigger object newTrigger) trigger_ok.
Proof.
  unfold loadTrigger.
  apply (yields_bind _ _ (fun _ => True)); [auto with yields|intros triggerObject _].
  apply (yields_bind _ _ (fun _ => True)); [auto with yields|intros urlFilterObject _].
  apply (yields_bind _ _ string_ok); [by apply yields_call|intros filter Hfilter].
  destruct (String_isEmpty filter) eqn:E; [auto with yields|].
  apply (yields_bind _ _ (fun _ => True)); [auto with yields|intros caseValue _].
  apply (yields_bind _ _ (fun _ => True)); [auto with yields|intros exception _].
  apply (yields_bind _ _ (fun fl => N.land fl flags_mask = fl)).
  { apply get_flags_ok; [|done]. intros name. eapply mask_weaken; [|apply readResourceType_mask]. done. }
  intros fl Hfl. apply (yields_bind _ _ (fun fl => N.land fl flags_mask = fl)).
  { apply get_flags_ok; [|done]. intros name. eapply mask_weaken; [|apply readLoadType_mask]. done. }
  intros fl' Hfl'. apply yields_ret. by split.
Qed.

Lemma loadAction_ok object : yields (loadAction object) action_ok.
Proof.
  unfold loadAction.
  apply (yields_bind _ _ (fun _ => True)); [auto with yields|intros actionObject _].
  apply (yields_bind _ _ (fun _ => True)); [auto with yields|intros typeObject _].
  apply (yields_bind _ _ (fun _ => True)); [auto with yields|intros actionType _].
  repeat (destruct (equal_literal actionType _); [try (apply yields_ret; by split)|]); [|auto with yields].
  apply (yields_bind _ _ (fun _ => True)); [auto with yields|intros selector _].
  apply (yields_bind _ _ string_ok); [by apply yields_call|intros text Htext].
  apply yields_ret. by split.
Qed.

Lemma rules_loop_ok array indices rules :
  Forall parsed_rule rules -> yields (rules_loop array indices rules) (Forall parsed_rule).
Proof.
  revert rules. induction indices as [|i indices IH]; intros rules Hrules; cbn [rules_loop]; [by apply yields_ret|].
  apply (yields_bind _ _ (fun _ => True)); [auto with yields|intros [value|] _];
    (apply (yields_bind _ _ (fun _ => True)); [auto with yields|intros exception _]); [|auto with yields].
  destruct exception; [auto with yields|].
  apply (yields_bind _ _ (fun _ => True)); [auto with yields|intros [object|] _];
    (apply (yields_bind _ _ (fun _ => True)); [auto with yields|intros exception _]); [|auto with yields].
  destruct exception; [auto with yields|].
  apply (yields_bind _ _ (Forall parsed_rule)); [|intros rules' Hrules'; by apply IH].
  unfold loadRule. apply (yields_bind _ _ trigger_ok); [apply loadTrigger_ok|intros trigger Ht].
  apply (yields_bind _ _ action_ok); [apply loadAction_ok|intros action Ha].
  apply yields_ret. apply Forall_app. split; [done|]. by apply Forall_singleton.
Qed.

Lemma loadEncodedRules_ok rules : yields (loadEncodedRules rules) (Forall parsed_rule).
Proof.
  unfold loadEncodedRules.
  apply (yields_bind _ _ (fun _ => True)); [auto with yields|intros [decoded|] _];
    (apply (yields_bind _ _ (fun _ => True)); [auto with yields|intros exception _]); [|auto with yields].
  destruct exception; [auto with yields|]. destruct (isObject decoded); [|apply yields_throw].
  apply (yields_bind _ _ (fun _ => True)); [auto with yields|intros [object|] _];
    (apply (yields_bind _ _ (fun _ => True)); [auto with yields|intros exception _]); [|auto with yields].
  destruct exception; [auto with yields|]. destruct (isJSArray object); [|apply yields_throw].
  by apply rules_loop_ok.
Qed.

Lemma parsed_rules rules ruleList :
  parseRuleList rules = inr ruleList -> ruleList <> [] /\ Forall parsed_rule ruleList.
Proof.
  unfold parseRuleList. pose proof (loadEncodedRules_ok rules false) as Hok.
  destruct (loadEncodedRules rules false).1 as [error|[|r l]]; [done..|].
  intros [= <-]. by split.
Qed.

(** C32: The rules that [parseRuleList] returns, whatever the JSON values and the exceptions, are at
    least one, and each has a URL filter that is not empty, flags of known types only, an action with
    the default identifier that the serializer accepts, and text exactly when it is a selector. *)
Theorem parseRuleList_ok rules ruleList :
  parseRuleList rules = inr ruleList ->
  ruleList <> [] /\ Forall parsed_rule ruleList /\ Forall rule_ok ruleList.
Proof.
  intros Hparse. destruct (parsed_rules rules ruleList Hparse) as [Hne Hall]. split_and!; [done..|].
  eapply Forall_impl; [exact Hall|apply parsed_rule_ok].
Qed.
End WellFormed.

(** ** JSON data *)

#[local] Set Warnings "-register-all".

(** The values that JSON text stands for, and [undefined], which is read for a property that is not there. *)
Inductive json :=
| JUndefined
| JNull
| JBool (b : bool)
| JNumber (n : Z)
| JString (s : WTFString)
| JArray (l : list json)
| JObject (properties : list (list N * json)).

Definition json_is_object (v : json) : bool := match v with JArray _ | JObject _ => true | _ => false end.

(** The last property of a name counts. *)
Fixpoint find_property (name : list N) (properties : list (list N * json)) : json :=
  match properties with
  | [] => JUndefined
  | (name', v) :: properties =>
      match find_property name properties with
      | JUndefined => if bool_decide (name = name') then v else JUndefined
      | found => found
      end
  end.

(** JavaScriptCore on JSON data, for a parser of JSON and a conversion of the other values to strings. *)
Definition json_jsc (parse : WTFString -> option json) (to_string : json -> WTFString * bool) : JSC := {|
  JSValue := json;
  JSONParse text := match parse text with Some v => (Some v, false) | None => (None, true) end;
  isObject := json_is_object;
  isString v := match v with JString _ => true | _ => false end;
  isBoolean v := match v with JBool _ => true | _ => false end;
  isJSArray v := match v with JArray _ => true | _ => false end;
  toBoolean v := match v with JBool b => b | _ => true end;
  toWTFString v := match v with JString s => (s, false) | v => to_string v end;
  toObject v := match v with JUndefined | JNull => (None, true) | v => (Some v, false) end;
  array_length v := match v with JArray l => N.of_nat (length l) | _ => 0 end;
  getIndex v i := match v with JArray l => (l !!N i, false) | _ => (Some JUndefined, false) end;
  get v name := match v with JObject properties => (Some (find_property name properties), false)
                           | _ => (Some JUndefined, false) end
|}.

(** ** The JSON of rules *)

Definition resource_names : list (list N * N) :=
  [(lit "document", 0x0001); (lit "image", 0x0002); (lit "style-sheet", 0x0004); (lit "script", 0x0008);
   (lit "font", 0x0010); (lit "raw", 0x0020); (lit "svg-document", 0x0040); (lit "media", 0x0080);
   (lit "popup", 0x0200)].

Definition load_names : list (list N * N) := [(lit "first-party", 0x0400); (lit "third-party", 0x0800)].

(** The names of the types in the flags. *)
Definition names_of (names : list (list N * N)) (fl : N) : list (list N * N) :=
  filter (fun p => negb (N.land fl p.2 =? 0) = true) names.

Definition json_names (names : list (list N * N)) (fl : N) : json :=
  JArray ((fun p => JString (String8 p.1)) <$> names_of names fl).

Definition json_trigger (t : Trigger) : json :=
  JObject [(lit "url-filter", JString (urlFilter t));
           (lit "url-filter-is-case-sensitive", JBool (urlFilterIsCaseSensitive t));
           (lit "resource-type", json_names resource_names (flags t));
           (lit "load-type", json_names load_names (flags t))].

Definition action_name (type : ActionType) : list N :=
  match type with
  | BlockLoad => lit "block"
  | BlockCookies => lit "block-cookies"
  | CSSDisplayNoneSelector => lit "css-display-none"
  | IgnorePreviousRules => lit "ignore-previous-rules"
  | CSSDisplayNoneStyleSheet | InvalidAction => []
  end.

Definition json_action (a : Action) : json :=
  JObject [(lit "type", JString (String8 (action_name (m_type a)))); (lit "selector", JString (m_stringArgument a))].

Definition json_rule (r : ContentExtensionRule) : json :=
  JObject [(lit "trigger", json_trigger (m_trigger r)); (lit "action", json_action (m_action r))].

Definition json_rules (rules : list ContentExtensionRule) : json := JArray (json_rule <$> rules).

(** The types of the flags that have a name. *)
Definition named_mask : N := 0x0EFF.

(** *** The flags *)

Lemma land_bit fl k : (if negb (N.land fl (2 ^ k) =? 0) then 2 ^ k else 0) = N.land fl (2 ^ k).
Proof.
  assert (N.land fl (2 ^ k) = if N.testbit fl k then 2 ^ k else 0) as ->.
  { apply N.bits_inj. intros i. rewrite N.land_spec, N.pow2_bits_eqb. destruct (k =? i) eqn:E; breflect.
    - subst. rewrite andb_true_r. destruct (N.testbit fl i); [|by rewrite N.bits_0]. by rewrite N.pow2_bits_true.
    - rewrite andb_false_r. destruct (N.testbit fl k); [|by rewrite N.bits_0].
      by rewrite N.pow2_bits_false. }
  destruct (N.testbit fl k); [|done]. destruct (2 ^ k =? 0) eqn:E; breflect; [|done].
  exfalso. by apply (N.pow_nonzero 2 k).
Qed.

Definition is_bit (v : N) : bool := v =? 2 ^ N.log2 v.

(** The types of the names that are in the flags are the named flags. *)
Lemma names_of_value names fl start :
  forallb (fun p => is_bit p.2) names = true ->
  foldl (fun acc p => N.lor acc p.2) start (names_of names fl) =
  N.lor start (N.land fl (foldr (fun p acc => N.lor p.2 acc) 0 names)).
Proof.
  revert start. induction names as [|[name v] names IH]; intros start Hbits; simpl in *.
  { by rewrite N.land_0_r, N.lor_0_r. }
  apply andb_true_iff in Hbits as [Hv Hbits]. unfold is_bit in Hv. breflect.
  pose proof (land_bit fl (N.log2 v)) as Hland. rewrite <- Hv in Hland.
  rewrite N.land_lor_distr_r, N.lor_assoc, <- Hland. unfold names_of. rewrite filter_cons. cbn [snd].
  destruct (negb (N.land fl v =? 0)) eqn:E.
  - rewrite decide_True by done. cbn [foldl snd]. by apply IH.
  - rewrite decide_False by done. rewrite N.lor_0_r. by apply IH.
Qed.

Lemma bind_call {A B} (r : A * bool) (k : A -> Exec B) exception :
  (call r ≫= k) exception = k r.1 (exception || r.2).
Proof. done. Qed.

Lemma bind_exception {B} (k : bool -> Exec B) exception : (hadException ≫= k) exception = k exception exception.
Proof. done. Qed.

Lemma bind_value {A B} (m : Exec A) (k : A -> Exec B) exception a exception' :
  m exception = (inr a, exception') -> (m ≫= k) exception = k a exception'.
Proof. intros E. unfold mbind, Exec_bind. by rewrite E. Qed.

Section RoundTrip.
Context (parse : WTFString -> option json) (to_string : json -> WTFString * bool).
#[local] Existing Instance json_jsc.

Abbreviation J := (json_jsc parse to_string).

Lemma type_flags_names stringToType names done fl exception :
  Forall (fun p => stringToType (String8 p.1) = p.2 /\ p.2 <> 0) names ->
  exception = false ->
  type_flags_loop (H := J) (JArray (done ++ ((fun p : list N * N => JString (String8 p.1)) <$> names))) stringToType
    (for_range (N.of_nat (length done)) (N.of_nat (length done) + N.of_nat (length names))) fl exception =
  (inr (foldl (fun acc p => N.lor acc p.2) fl names), exception).
Proof.
  intros Hnames ->. revert done fl. induction Hnames as [|[name v] names [Hv Hne] _ IH]; intros done fl.
  { rewrite for_range_nil by (simpl; lia). done. }
  rewrite for_range_cons by (simpl; lia). cbn [type_flags_loop fst snd] in *.
  rewrite bind_call, bind_exception. cbn [getIndex json_jsc fst snd orb].
  rewrite fmap_cons, Nat2N.id, (list_lookup_middle _ _ _ _ eq_refl), bind_call.
  cbn [toWTFString json_jsc fst snd orb]. rewrite Hv. apply N.eqb_neq in Hne. rewrite Hne. cbn [foldl snd].
  specialize (IH (done ++ [JString (String8 name)]) (N.lor fl v)).
  rewrite length_app, <- app_assoc in IH. cbn [length app] in IH.
  replace (N.of_nat (length done + 1)) with (N.of_nat (length done) + 1) in IH by lia.
  replace (N.of_nat (length done) + N.of_nat (length ((name, v) :: names)))
    with (N.of_nat (length done) + 1 + N.of_nat (length names)) by (cbn [length]; lia).
  exact IH.
Qed.

Lemma get_flags_names object key stringToType names fl start exception :
  find_property key object = json_names names fl -> forallb (fun p => is_bit p.2) names = true ->
  Forall (fun p => stringToType (String8 p.1) = p.2 /\ p.2 <> 0) names -> exception = false ->
  get_flags (H := J) (JObject object) key start stringToType exception =
  (inr (N.lor start (N.land fl (foldr (fun p acc => N.lor p.2 acc) 0 names))), false).
Proof.
  intros Hfind Hbits Hnames ->. unfold get_flags. rewrite bind_call, bind_exception.
  cbn [get json_jsc fst snd orb negb]. rewrite Hfind. unfold getTypeFlags, json_names.
  cbn [isObject isJSArray json_jsc json_is_object negb array_length]. rewrite length_fmap.
  rewrite <- names_of_value by done. apply (type_flags_names stringToType (names_of names fl) []); [|done].
  unfold names_of. rewrite Forall_forall in *. intros p [_ Hp]%list_elem_of_filter. by apply Hnames.
Qed.

Lemma loadTrigger_json r properties t :
  find_property (lit "trigger") properties = json_trigger t -> trigger_ok t -> r = JObject properties ->
  N.land (flags t) named_mask = flags t ->
  loadTrigger (H := J) r newTrigger false = (inr t, false).
Proof.
  intros Hfind Ht -> Hflags. unfold loadTrigger.
  rewrite (bind_value _ _ _ (json_trigger t) false)
    by (unfold get_required; rewrite bind_call, bind_exception; cbn [get json_jsc fst snd orb]; by rewrite Hfind).
  rewrite (bind_value _ _ _ (JString (urlFilter t)) false) by done.
  rewrite bind_call. cbn [toWTFString json_jsc fst snd orb]. rewrite (tr_nonempty _ Ht).
  rewrite bind_call, bind_exception.
  rewrite (bind_value _ _ _ (N.land (flags t) 0x02FF) false).
  2: { unfold json_trigger. rewrite (get_flags_names _ _ _ resource_names (flags t)); [|done|done| |done].
       - rewrite N.lor_0_l. done.
       - unfold resource_names. repeat (constructor; [split; [vm_compute; reflexivity|done]|]). constructor. }
  rewrite (bind_value _ _ _ (flags t) false).
  2: { unfold json_trigger. rewrite (get_flags_names _ _ _ load_names (flags t)); [|done|done| |done].
       - rewrite <- N.land_lor_distr_r. change (N.lor 0x02FF _) with named_mask. by rewrite Hflags.
       - unfold load_names. repeat (constructor; [split; [vm_compute; reflexivity|done]|]). constructor. }
  by destruct t.
Qed.

Lemma loadAction_json r properties a :
  find_property (lit "action") properties = json_action a -> action_ok a -> r = JObject properties ->
  loadAction (H := J) r false = (inr a, false).
Proof.
  intros Hfind Ha ->. unfold loadAction.
  rewrite (bind_value _ _ _ (json_action a) false)
    by (unfold get_required; rewrite bind_call, bind_exception; cbn [get json_jsc fst snd orb]; by rewrite Hfind).
  rewrite (bind_value _ _ _ (JString (String8 (action_name (m_type a)))) false) by done.
  rewrite bind_call. cbn [toWTFString json_jsc fst snd orb].
  destruct Ha as [Hid Hnum Htype]. destruct a as [identifier type number text]. simpl in *. subst.
  destruct type; try done; subst; done.
Qed.

(** The rules that have a JSON form: their flags are those of the named types. *)
Definition json_rule_ok (r : ContentExtensionRule) : Prop :=
  parsed_rule r /\ N.land (flags (m_trigger r)) named_mask = flags (m_trigger r).

Lemma loadRule_json r rules :
  json_rule_ok r -> loadRule (H := J) (json_rule r) rules false = (inr (rules ++ [r]), false).
Proof.
  intros [[Ht Ha] Hflags]. unfold loadRule, json_rule.
  rewrite (bind_value _ _ _ (m_trigger r) false) by (eapply loadTrigger_json; [|done|reflexivity|done]; reflexivity).
  rewrite (bind_value _ _ _ (m_action r) false) by (eapply loadAction_json; [|done|reflexivity]; reflexivity). by destruct r.
Qed.

Lemma rules_loop_json done rules loaded :
  Forall json_rule_ok rules ->
  rules_loop (H := J) (JArray (done ++ (json_rule <$> rules)))
    (for_range (N.of_nat (length done)) (N.of_nat (length done) + N.of_nat (length rules))) loaded false =
  (inr (loaded ++ rules), false).
Proof.
  intros Hrules. revert done loaded. induction Hrules as [|r rules Hr _ IH]; intros done loaded.
  { rewrite for_range_nil by (simpl; lia). by rewrite (app_nil_r loaded). }
  rewrite for_range_cons by (simpl; lia). cbn [rules_loop].
  rewrite bind_call, bind_exception. cbn [getIndex json_jsc fst snd orb].
  rewrite fmap_cons, Nat2N.id, (list_lookup_middle _ _ _ _ eq_refl).
  rewrite bind_call, bind_exception. cbn [toObject json_jsc json_rule fst snd orb].
  rewrite (bind_value _ _ _ (loaded ++ [r]) false) by exact (loadRule_json r loaded Hr).
  specialize (IH (done ++ [json_rule r]) (loaded ++ [r])).
  rewrite length_app, <- !app_assoc in IH. cbn [length app] in IH.
  replace (N.of_nat (length done + 1)) with (N.of_nat (length done) + 1) in IH by lia.
  replace (N.of_nat (length done) + N.of_nat (length (r :: rules)))
    with (N.of_nat (length done) + 1 + N.of_nat (length rules)) by (cbn [length]; lia).
  exact IH.
Qed.

(** C33: A list of rules is read back from its JSON: when the text stands for the array of the objects of
    the rules, [parseRuleList] returns these rules, all of them and in their order, with their filters,
    their case sensitivity, their flags, their actions and selectors. *)
Theorem parseRuleList_roundtrip text rules :
  parse text = Some (json_rules rules) -> rules <> [] -> Forall json_rule_ok rules ->
  parseRuleList (H := J) text = inr rules.
Proof.
  intros Hparse Hne Hrules. unfold parseRuleList, loadEncodedRules.
  rewrite bind_call, bind_exception. cbn [JSONParse json_jsc]. rewrite Hparse. cbn [fst snd orb].
  unfold json_rules. cbn [isObject json_jsc json_is_object negb]. rewrite bind_call, bind_exception.
  cbn [toObject json_jsc fst snd orb isJSArray negb array_length]. rewrite length_fmap.
  pose proof (rules_loop_json [] rules [] Hrules) as Hloop. cbn [length app] in Hloop.
  change (N.of_nat 0) with 0 in Hloop. rewrite N.add_0_l in Hloop. rewrite Hloop. cbn [fst]. by destruct rules.
Qed.
End RoundTrip.

(** ** Examples *)

Definition example_json : json := json_rules example_rules.

Definition example_parse (text : WTFString) : option json := if String_isEmpty text then None else Some example_json.

Definition no_string (v : json) : WTFString * bool := (String8 [], false).

(** JavaScriptCore on JSON data, whose strings only have characters of their width. *)
Definition string_okb (s : WTFString) : bool :=
  match s with
  | None => true
  | Some impl => forallb (fun c => c <? (if impl_is8Bit impl then 256 else 65536)) (impl_chars impl)
  end.

Definition checked_jsc (parse : WTFString -> option json) : JSC :=
  let J := json_jsc parse no_string in
  {| JSValue := json;
     JSONParse := @JSONParse J;
     isObject := @isObject J;
     isString := @isString J;
     isBoolean := @isBoolean J;
     isJSArray := @isJSArray J;
     toBoolean := @toBoolean J;
     toWTFString v := let s := (@toWTFString J v).1 in (if string_okb s then s else String8 [], false);
     toObject := @toObject J;
     array_length := @array_length J;
     getIndex := @getIndex J;
     get := @get J |}.

Lemma string_okb_spec s : string_okb s = true -> string_ok s.
Proof.
  destruct s as [impl|]; [|done]. simpl. rewrite forallb_forall. intros Hall. apply Forall_forall.
  intros c Hc%list_elem_of_In. by apply N.ltb_lt, Hall.
Qed.

Lemma checked_jsc_ok parse v : string_ok (@toWTFString (checked_jsc parse) v).1.
Proof.
  cbn [toWTFString checked_jsc fst]. destruct (string_okb _) eqn:E; [by apply string_okb_spec|]. by constructor.
Qed.

Lemma parseRuleList_ok_witness :
  parseRuleList (H := checked_jsc example_parse) (String8 [91]) = inr example_rules /\
  example_rules <> [] /\ Forall parsed_rule example_rules /\ Forall rule_ok example_rules.
Proof.
  split; [reflexivity|].
  apply (parseRuleList_ok (H := checked_jsc example_parse) (checked_jsc_ok example_parse) (String8 [91])).
  reflexivity.
Defined.

(** Errors: no text, no rule, a trigger that is not an object, an unknown type of resource. *)
Definition error_of (v : json) : ContentExtensionError + list ContentExtensionRule :=
  parseRuleList (H := checked_jsc (fun _ => Some v)) (String8 [91]).

Example parse_errors :
  [error_of JNull; error_of (JObject []); error_of (JArray []); error_of (JArray [JNull]);
   error_of (JArray [JObject [(lit "trigger", JBool true)]]);
   error_of (JArray [JObject [(lit "trigger", JObject [(lit "url-filter", JString (String8 []))])]]);
   error_of (JArray [JObject [(lit "trigger", JObject [(lit "url-filter", JString (String8 [97]));
     (lit "resource-type", JArray [JString (String8 (lit "plug-in-stream"))])])]])] =
  inl <$> [JSONTopLevelStructureNotAnObject; JSONTopLevelStructureNotAnArray; JSONContainsNoRules; JSONInvalidRule;
           JSONInvalidTrigger; JSONInvalidURLFilterInTrigger; JSONInvalidStringInTriggerFlagsArray].
Proof. reflexivity. Qed.

Lemma parseRuleList_roundtrip_witness :
  parseRuleList (H := json_jsc example_parse no_string) (String8 [91]) = inr example_rules.
Proof.
  apply (parseRuleList_roundtrip example_parse no_string (String8 [91]) example_rules).
  - reflexivity.
  - discriminate.
  - repeat constructor.
Defined.
