(* ===== verification/CompileRuleList.v ===== *)
(** * The compilation of a rule list, in [WebCore/contentextensions/ContentExtensionCompiler.cpp]

    [compileRuleList] parses the rules, serializes their actions, collects their
    filters, and turns these into automata and bytecode, which it hands over to
    its client.  [None] is a crash. *)

From S2P Require Import Prelude HashTable DFA NFA NFAToDFA DFAMinimizer DFABytecode DFABytecodeCompiler.
From S2P Require Import Graph Term CombinedURLFilters URLFilterParser WTFString StringBuilder Rules SerializeActions RuleParser.

(** WebCore/contentextensions/ContentExtensionCompiler.h:40-48 [ContentExtensionCompilationClient]: the
    calls that a client gets *)
Inductive ClientCall :=
| writeActions (actions : list N)
| writeBytecode (bytecode : list N).

(** What a call of [compileRuleList] comes to: loops that need more fuel, or an error code, if any,
    and the calls of the client. *)
Inductive CompileResult :=
| OutOfFuel
| Returned (error : option ContentExtensionError) (calls : list ClientCall).

(** The local variables of the loop over the rules. *)
Record CompileState := mkCompileState {
  universalActionLocations : list N;
  combinedURLFilters : PrefixTreeVertex;
  ignorePreviousRulesSeen : bool
}.

Section Compile.
Context `{HashOrder} `{Yarr} `{JSC} (hasOneRef : Buffer -> bool).

(** WebCore/contentextensions/ContentExtensionCompiler.cpp:150-150 [compileRuleList] *)
Definition actionLocationAndFlags (trigger : Trigger) (actionLocation : N) : N :=
  N.lor (wrap64 (N.shiftl (flags trigger) 32)) actionLocation.

(** WebCore/contentextensions/ContentExtensionCompiler.cpp:144-166 [compileRuleList], one turn of the loop
    over the rules *)
Definition compile_rule (actionLocations : list N) (ruleIndex : N) (contentExtensionRule : ContentExtensionRule)
    (s : CompileState) : option (ContentExtensionError + CompileState) :=
  let trigger := m_trigger contentExtensionRule in
  actionLocation ← actionLocations !!N ruleIndex;
  let location := actionLocationAndFlags trigger actionLocation in
  '(status, filters) ← parser_addPattern (combinedURLFilters s) (String_chars (urlFilter trigger))
    (urlFilterIsCaseSensitive trigger) location;
  let ignore := bool_decide (m_type (m_action contentExtensionRule) = IgnorePreviousRules) in
  match status with
  | MatchesEverything =>
      if ignorePreviousRulesSeen s then Some (inl RegexMatchesEverythingAfterIgnorePreviousRules)
      else Some (inr (mkCompileState (hset_add location (universalActionLocations s)) filters (ignore || ignorePreviousRulesSeen s)))
  | Ok => Some (inr (mkCompileState (universalActionLocations s) filters (ignore || ignorePreviousRulesSeen s)))
  | _ => Some (inl JSONInvalidRegex)
  end.

(** WebCore/contentextensions/ContentExtensionCompiler.cpp:144-166 [compileRuleList], the loop *)
Fixpoint compile_rules (actionLocations : list N) (ruleIndex : N) (parsedRuleList : list ContentExtensionRule)
    (s : CompileState) : option (ContentExtensionError + CompileState) :=
  match parsedRuleList with
  | [] => Some (inr s)
  | rule :: rules =>
      r ← compile_rule actionLocations ruleIndex rule s;
      match r with
      | inl error => Some (inl error)
      | inr s => compile_rules actionLocations (ruleIndex + 1) rules s
      end
  end.

(** WebCore/contentextensions/ContentExtensionCompiler.cpp:232-241 [compileRuleList]: the universal
    actions become the actions of the root *)
Definition add_universal (universal : list N) (dfa : DFA) : option DFA :=
  let actionsStart := wrap32 (N.of_nat (length (actions dfa))) in
  let dfa := with_actions dfa (actions dfa ++ hash_order universal) in
  let actionsEnd := wrap32 (N.of_nat (length (actions dfa))) in
  let actionsLength := wrap32 (actionsEnd + 2 ^ 32 - actionsStart) in
  _ ← release_assert (actionsLength <? max16);
  node ← nodes dfa !!N root dfa;
  Some (with_nodes dfa (<[root dfa :=N setActions node actionsStart (wrap16 actionsLength)]> (nodes dfa))).

(** WebCore/contentextensions/ContentExtensionCompiler.cpp:206-241 [compileRuleList], the automaton of one
    turn of the loop over the NFAs *)
Definition make_dfa (fuel : nat) (universal : list N) (i : N) (nfa : NFA) : option (option DFA) :=
  r ← convert fuel nfa;
  match r with
  | Unfinished _ => Some None
  | Converted dfa =>
      dfa ← minimize dfa;
      dfa ← (if i =? 0 then add_universal universal dfa else Some dfa);
      Some (Some dfa)
  end.

(** WebCore/contentextensions/ContentExtensionCompiler.cpp:200-244 [compileRuleList], the loop over the
    NFAs *)
Fixpoint compile_nfas (fuel : nat) (universal : list N) (i : N) (nfas : list NFA) (bytecode : list N)
    : option (option (list N)) :=
  match nfas with
  | [] => Some (Some bytecode)
  | nfa :: nfas =>
      r ← make_dfa fuel universal i nfa;
      match r with
      | None => Some None
      | Some dfa => bytecode ← compile dfa bytecode; compile_nfas fuel universal (i + 1) nfas bytecode
      end
  end.

(** WebCore/contentextensions/ContentExtensionCompiler.cpp:183-184 [compileRuleList] *)
Definition add_empty_nfa (universal : list N) (nfas : list NFA) : list NFA :=
  if bool_decide (nfas = []) && negb (bool_decide (universal = [])) then nfas ++ [newNFA] else nfas.

(** WebCore/contentextensions/ContentExtensionCompiler.cpp:123-265 [compileRuleList] *)
Definition compileRuleList (fuel : nat) (ruleList : WTFString) : option CompileResult :=
  match parseRuleList ruleList with
  | inl parserError => Some (Returned (Some parserError) [])
  | inr parsedRuleList =>
      '(actionLocations, actions) ← serializeActions hasOneRef parsedRuleList;
      let calls := [writeActions actions] in
      r ← compile_rules actionLocations 0 parsedRuleList (mkCompileState [] newCombinedURLFilters false);
      match r with
      | inl error => Some (Returned (Some error) calls)
      | inr s =>
          r ← createNFAs fuel (combinedURLFilters s);
          match r with
          | Finished (Some nfas) =>
              let nfas := add_empty_nfa (universalActionLocations s) nfas in
              r ← compile_nfas fuel (universalActionLocations s) 0 nfas [];
              match r with
              | Some bytecode => Some (Returned None (calls ++ [writeBytecode bytecode]))
              | None => Some OutOfFuel
              end
          | _ => Some OutOfFuel
          end
      end
  end.
End Compile.
