(* ===== verification/FiltersCorrect.v ===== *)
(** * The loop of [compileRuleList] over the rules

    The filters of the rules are collected in the prefix tree, and the actions of
    those that match everything aside.  The loop keeps [filters_inv]: a URL is
    matched by a pattern of the tree, or has a universal action, exactly for the
    rules seen so far whose filter matches it. *)

From S2P Require Import Prelude HashTable DFA CompilerLayout BytecodeCorrect ASCII Graph Term TermGraph CombinedURLFilters PrefixTree.
From S2P Require Import URLFilterParser PatternSemantics RegexParser WTFString StringBuilder Rules RuleParser CompileRuleList.

(** ** The location of an action with its flags *)

Section Location.
Context (trigger : Trigger) (location : N) (Hflags : flags trigger < 2 ^ 16) (Hlocation : location < 2 ^ 32).

Lemma location_sum : actionLocationAndFlags trigger location = flags trigger * 2 ^ 32 + location.
Proof.
  change (2 ^ 16) with 65536 in Hflags. unfold actionLocationAndFlags. rewrite N.shiftl_mul_pow2, wrap64_id by lia.
  apply N.bits_inj. intros k. rewrite N.lor_spec. destruct (N.lt_ge_cases k 32) as [Hk|Hk].
  - rewrite <- (N.mod_pow2_bits_low (_ + _) 32 k) by done. rewrite N.add_comm, N.Div0.mod_add, N.mod_pow2_bits_low by done.
    by rewrite N.mul_pow2_bits_low.
  - replace k with ((k - 32) + 32) by lia. rewrite <- !N.div_pow2_bits.
    rewrite N.div_add_l, N.div_mul, (N.div_small location) by done. by rewrite N.bits_0, orb_false_r, N.add_0_r.
Qed.

Lemma location_lt : actionLocationAndFlags trigger location < 2 ^ 48.
Proof. rewrite location_sum. change (2 ^ 16) with 65536 in Hflags. change (2 ^ 48) with (65536 * 2 ^ 32). lia. Qed.

Lemma location_wrap : wrap32 (actionLocationAndFlags trigger location) = location.
Proof. rewrite location_sum. unfold wrap32. by rewrite N.add_comm, N.Div0.mod_add, N.mod_small. Qed.

Lemma location_flags : action_flags (actionLocationAndFlags trigger location) = flags trigger.
Proof.
  rewrite location_sum. unfold action_flags. rewrite N.shiftr_div_pow2, N.div_add_l, N.div_small by done.
  rewrite N.add_0_r. unfold wrap16. by apply N.mod_small.
Qed.

Lemma location_mask : (N.land (actionLocationAndFlags trigger location) 281470681743360 =? 0) = (flags trigger =? 0).
Proof.
  change 281470681743360 with (N.shiftl (N.ones 16) 32). rewrite location_sum.
  assert (N.land (flags trigger * 2 ^ 32 + location) (N.shiftl (N.ones 16) 32) = N.shiftl (flags trigger) 32) as ->.
  { apply N.bits_inj. intros k. rewrite N.land_spec. destruct (N.lt_ge_cases k 32) as [Hk|Hk].
    - by rewrite !N.shiftl_spec_low, andb_false_r.
    - rewrite !N.shiftl_spec_high' by done. replace k with ((k - 32) + 32) at 1 by lia.
      rewrite <- (N.div_pow2_bits _ 32), N.div_add_l, (N.div_small location), N.add_0_r by done.
      by rewrite <- N.land_spec, N.land_ones, N.mod_small. }
  rewrite N.shiftl_mul_pow2. apply eq_true_iff_eq. rewrite !N.eqb_eq. lia.
Qed.
End Location.

(** ** The rules *)

(** What is supposed of the filter of a rule: YARR makes the calls for the regular expression [r], which
    is not one of those anchored at both ends that are mistaken for one that matches everything. *)
Record filter_of `{Yarr} (rule : ContentExtensionRule) (r : regex) : Prop := {
  fo_regex : regex_ok r;
  fo_text : String_chars (urlFilter (m_trigger rule)) <> [];
  fo_ascii : forallb isASCII (String_chars (urlFilter (m_trigger rule))) = true;
  fo_yarr : yarr_parse (String_chars (urlFilter (m_trigger rule))) = (regex_events r, true);
  fo_exact : r_bol r && r_eol r = true -> regex_matches (urlFilterIsCaseSensitive (m_trigger rule)) r [] ->
    forall u, Forall input_char u -> regex_matches (urlFilterIsCaseSensitive (m_trigger rule)) r u
}.

Definition rule_matches (rule : ContentExtensionRule) (r : regex) (u : list N) : Prop :=
  regex_matches (urlFilterIsCaseSensitive (m_trigger rule)) r u.

Definition matches_everything (rule : ContentExtensionRule) (r : regex) : Prop :=
  forall u, Forall input_char u -> rule_matches rule r u.

Definition is_ignore (rule : ContentExtensionRule) : bool := bool_decide (m_type (m_action rule) = IgnorePreviousRules).

(** The flags and location of the action [a] belong to a rule whose filter matches the URL. *)
Definition rule_action (rules : list ContentExtensionRule) (filters : list regex) (locations : list N)
    (u : list N) (a : N) : Prop :=
  exists (i : nat) rule r location, rules !! i = Some rule /\ filters !! i = Some r /\ locations !! i = Some location /\
    a = actionLocationAndFlags (m_trigger rule) location /\ rule_matches rule r u.

(** A filter that matches everything behind a rule that ignores the previous ones. *)
Definition misplaced (seen : bool) (rules : list ContentExtensionRule) (filters : list regex) : Prop :=
  exists (j : nat) rule r, rules !! j = Some rule /\ filters !! j = Some r /\ matches_everything rule r /\
    (seen = true \/ exists (i : nat) rule', (i < j)%nat /\ rules !! i = Some rule' /\ is_ignore rule' = true).

(** ** The invariant *)

Definition tree_matches (root : PrefixTreeVertex) (u : list N) (a : N) : Prop :=
  exists q, q <> [] /\ Forall term_ok q /\ contains root q a /\ matches q u.

Record filters_inv (s : CompileState) (P : list N -> N -> Prop) : Prop := {
  fi_ok : vertex_ok (combinedURLFilters s);
  fi_below : Forall (fun a => a < 2 ^ 48) (universalActionLocations s);
  fi_late : forall q a, Forall term_ok q -> contains (combinedURLFilters s) q a -> ~ sequence_language q [];
  fi_spec : forall u a, Forall input_char u ->
    (tree_matches (combinedURLFilters s) u a \/ a ∈ universalActionLocations s) <-> P u a
}.

(** The action [a] belongs to a rule whose filter matches everything, and behind no rule that ignores the previous ones. *)
Definition first_everything (rules : list ContentExtensionRule) (filters : list regex) (locations : list N) (a : N) : Prop :=
  exists (i : nat) rule r location, rules !! i = Some rule /\ filters !! i = Some r /\ locations !! i = Some location /\
    a = actionLocationAndFlags (m_trigger rule) location /\ matches_everything rule r /\
    forall (j : nat) rule', (j < i)%nat -> rules !! j = Some rule' -> is_ignore rule' = false.

Lemma filters_inv_start seen : filters_inv (mkCompileState [] newCombinedURLFilters seen) (fun _ _ => False).
Proof.
  split; cbn.
  - apply newVertex_ok.
  - constructor.
  - intros q a _ Hc. by apply newVertex_contains in Hc.
  - intros u a _. split; [|done]. intros [(q & _ & _ & Hc & _)|Ha]; [by apply newVertex_contains in Hc|by apply elem_of_nil in Ha].
Qed.

Lemma same_terms_language terms terms' w : Forall term_ok terms -> Forall term_ok terms' -> Forall2 same_term terms terms' ->
  sequence_language terms w <-> sequence_language terms' w.
Proof.
  intros H1 H2 Hs. revert w. induction Hs as [|t t' terms terms' Ht _ IH]; intros w; [done|].
  apply Forall_cons in H1 as [? ?], H2 as [? ?]. apply concatenation_ext; [intros; by apply same_term_language|by apply IH].
Qed.

Lemma same_terms_refl terms : Forall2 same_term terms terms.
Proof. induction terms; constructor; [apply same_term_refl|done]. Qed.

Section Rules.
Context `{Yarr}.

(** One turn of the loop. *)
Lemma compile_rule_inv locations k rule r s P location :
  filters_inv s P -> filter_of rule r -> flags (m_trigger rule) < 2 ^ 16 -> locations !!N k = Some location -> location < 2 ^ 32 ->
  exists result, compile_rule locations k rule s = Some result /\
    match result with
    | inl error => error = RegexMatchesEverythingAfterIgnorePreviousRules /\ ignorePreviousRulesSeen s = true /\
        matches_everything rule r
    | inr s' => ignorePreviousRulesSeen s' = is_ignore rule || ignorePreviousRulesSeen s /\
        filters_inv s' (fun u a => P u a \/ (a = actionLocationAndFlags (m_trigger rule) location /\ rule_matches rule r u)) /\
        forall a, a ∈ universalActionLocations s' -> a ∈ universalActionLocations s \/
          (a = actionLocationAndFlags (m_trigger rule) location /\ matches_everything rule r /\ ignorePreviousRulesSeen s = false)
    end.
Proof.
  intros [Hok Hbelow Hlate Hspec] [Hr Htext Hascii Hyarr Hexact] Hflags Hloc Hlt.
  unfold compile_rule. rewrite Hloc. run_option. set (a0 := actionLocationAndFlags (m_trigger rule) location).
  assert (a0 < 2 ^ 48) as Ha0 by (by apply location_lt).
  destruct (addPattern_regex (combinedURLFilters s) _ (urlFilterIsCaseSensitive (m_trigger rule)) a0 r Hok Ha0 Hr Htext Hascii Hyarr)
    as (status & root' & -> & Hok' & [(-> & pattern & Hline & Hne & Hempty & Hcon & Hm)|(-> & -> & Hnil & Hall)]); run_option.
  - eexists. split; [done|]. cbn. split; [done|]. split; [|by left]. pose proof (line_ok _ Hline) as Hpat. split; cbn; [done|done| |].
    + intros q a Hq [Hc|[Hs ->]]%Hcon; [by eapply Hlate|]. by rewrite <- same_terms_language.
    + intros u a Hu. rewrite <- Hspec by done. unfold rule_matches. rewrite <- Hm by done. unfold tree_matches. split.
      * intros [(q & ? & Hq & [Hc|[Hs ->]]%Hcon & Hmq)|Ha]; [left; left; eauto| |by left; right].
        right. split; [done|]. eapply matches_ext; [|exact Hmq]. intros w. by apply same_terms_language.
      * intros [[(q & ? & ? & Hc & ?)|Ha]|[-> Hmu]]; [left|by right|left].
        -- exists q. rewrite Hcon. auto.
        -- exists pattern. rewrite Hcon. split_and!; [done..| |done]. right. split; [apply same_terms_refl|done].
  - assert (matches_everything rule r) as Hevery.
    { destruct (r_bol r && r_eol r) eqn:E; [exact (Hexact eq_refl Hnil)|exact (Hall eq_refl)]. }
    destruct (ignorePreviousRulesSeen s) eqn:Eseen; [by eexists|]. eexists. split; [done|]. cbn. split; [done|].
    split; [|intros a [->|?]%elem_of_hset_add; auto]. split; cbn; [done| |done|].
    + apply Forall_forall. rewrite Forall_forall in Hbelow. intros a [->|?]%elem_of_hset_add; auto.
    + intros u a Hu. rewrite elem_of_hset_add, <- Hspec by done. specialize (Hevery u Hu). tauto.
Qed.

(** The loop. *)
Lemma compile_rules_inv locations rules filters s P k :
  filters_inv s P -> Forall2 filter_of rules filters -> Forall (fun rule => flags (m_trigger rule) < 2 ^ 16) rules ->
  (forall i, (i < length rules)%nat -> exists location, locations !! (k + i)%nat = Some location /\ location < 2 ^ 32) ->
  exists result, compile_rules locations (N.of_nat k) rules s = Some result /\
    match result with
    | inl error => error = RegexMatchesEverythingAfterIgnorePreviousRules /\
        misplaced (ignorePreviousRulesSeen s) rules filters
    | inr s' => filters_inv s' (fun u a => P u a \/ rule_action rules filters (drop k locations) u a) /\
        forall a, a ∈ universalActionLocations s' -> a ∈ universalActionLocations s \/
          (ignorePreviousRulesSeen s = false /\ first_everything rules filters (drop k locations) a)
    end.
Proof.
  intros Hinv Hf. revert s P k Hinv. induction Hf as [|rule r rules filters Hr _ IH]; intros s P k Hinv Hflags Hloc.
  - exists (inr s). split; [done|]. split; [|by left]. destruct Hinv as [? ? ? Hspec]. split; [done..|]. intros u a Hu. rewrite Hspec by done.
    split; [by left|]. intros [?|(i & ? & ? & ? & Hi & _)]; [done|]. by rewrite lookup_nil in Hi.
  - apply Forall_cons in Hflags as [Hfl Hflags]. destruct (Hloc 0%nat) as (location & Hl & Hlt); [simpl; lia|]. rewrite Nat.add_0_r in Hl.
    destruct (compile_rule_inv locations (N.of_nat k) rule r s P location Hinv Hr Hfl) as (result & E & Hresult);
      [by rewrite Nat2N.id|done|]. cbn [compile_rules]. rewrite E. run_option. destruct result as [error|s'].
    + eexists. split; [done|]. destruct Hresult as (-> & Hseen & Hm). split; [done|]. exists 0%nat, rule, r. auto.
    + destruct Hresult as (Hseen & Hinv' & Huniversal). replace (N.of_nat k + 1) with (N.of_nat (S k)) by lia.
      destruct (IH s' _ (S k) Hinv' Hflags) as (result & -> & Hres).
      { intros i Hi. destruct (Hloc (S i)) as (l & ? & ?); [simpl; lia|]. exists l. by rewrite Nat.add_succ_l, <- Nat.add_succ_r. }
      exists result. split; [done|]. destruct result as [error|s2].
      * destruct Hres as (-> & j & rule' & r' & Hj & Hj' & Hm & Hcase). split; [done|]. exists (S j), rule', r'.
        split_and!; [done..|]. rewrite Hseen in Hcase. destruct Hcase as [Hb|(i & rule2 & Hi & ? & ?)].
        -- destruct (is_ignore rule) eqn:Ei; [|by left]. right. exists 0%nat, rule. split_and!; [lia|done|done].
        -- right. exists (S i), rule2. split_and!; [lia|done..].
      * destruct Hres as [[? ? ? Hspec] Hu2]. split.
        2: { intros a [[?|(-> & Hm & Hs)]%Huniversal|[Hs Hfirst]]%Hu2; [by left|right|right].
          - split; [done|]. exists 0%nat, rule, r, location. rewrite lookup_drop, Nat.add_0_r. split_and!; [done..|]. intros j rule' Hj. lia.
          - rewrite Hseen in Hs. apply orb_false_iff in Hs as [Hi Hs]. split; [done|]. destruct Hfirst as (i & rule' & r' & l & ? & ? & Hl' & ? & ? & Hbefore).
            exists (S i), rule', r', l. rewrite lookup_drop in *. rewrite Nat.add_succ_r. split_and!; [done..|].
            intros [|j] rule2 Hj Hr2; [by injection Hr2 as <-|]. apply (Hbefore j rule2); [lia|done]. }
        split; [done..|]. intros u a Hu. rewrite Hspec by done.
        assert (rule_action (rule :: rules) (r :: filters) (drop k locations) u a <->
          (a = actionLocationAndFlags (m_trigger rule) location /\ rule_matches rule r u) \/
          rule_action rules filters (drop (S k) locations) u a) as ->; [|tauto].
        rewrite (drop_S _ _ _ Hl). split.
        -- intros (i & rule' & r' & l & H1 & H2 & H3 & H4 & H5). destruct i as [|i]; simplify_eq/=; [by left|].
           right. by exists i, rule', r', l.
        -- intros [[-> ?]|(i & rule' & r' & l & ?)]; [by exists 0%nat, rule, r, location|]. by exists (S i), rule', r', l.
Qed.
End Rules.
