(* ===== verification/AutomataCorrect.v ===== *)
(** * The automata of [compileRuleList]

    Each NFA of the filters becomes a minimized DFA, the first of which gets the
    universal actions on its root. *)

From S2P Require Import Prelude HashTable DFA DFABytecode DFABytecodeCompiler CompilerLayout DFABytecodeInterpreter BytecodeCorrect Bytecode.
From S2P Require Import NFA NFAToDFA NFAToDFACorrect SubsetConstruction DFAViews Partition DFAMinimizer Minimize ConvertLayout.
From S2P Require Import CombinedURLFilters CompileRuleList.

(** ** The minimization keeps the vector of the actions as long as it is *)

Ltac split_bind H := repeat (apply bind_Some in H as (? & ? & H)).

Definition as_many_actions (n : nat) (dfa : DFA) : Prop := length (actions dfa) = n.

Lemma foldM_length {A B} (body : list A -> B -> option (list A)) l t t' :
  (forall t b t', body t b = Some t' -> length t' = length t) -> foldM body t l = Some t' -> length t' = length t.
Proof.
  intros Hstep Hrun. refine (foldM_inv body (fun s => length s = length t) l _ t t' eq_refl Hrun).
  intros s b s' _ Hs ?%Hstep. congruence.
Qed.

Lemma simplify_actions dfa d : simplifyTransitions dfa = Some d -> actions d = actions dfa.
Proof.
  intros Hrun. refine (foldM_inv simplify_node (fun s => actions s = actions dfa) _ _ dfa d eq_refl Hrun).
  intros s i s' _ Hs Hstep. unfold simplify_node in Hstep. split_bind Hstep. destruct (negb _).
  - unfold rewrite_transitions in Hstep. split_bind Hstep. by simplify_eq/=.
  - by simplify_eq/=.
Qed.

Lemma kill_actions g dfa d r : kill_nodes g dfa = Some (d, r) -> length (actions d) = length (actions dfa).
Proof.
  intros Hrun.
  refine (foldM_inv _ (fun s => length (actions s.1) = length (actions dfa)) _ _ (dfa, _) (d, r) eq_refl Hrun).
  intros s i s' _ Hs Hstep. cbn beta in Hstep. apply bind_Some in Hstep as (? & _ & Hstep).
  destruct (_ =? _); [by simplify_eq|]. split_bind Hstep. simplify_eq/=. rewrite <- Hs.
  match goal with H : kill _ _ = Some _ |- _ => unfold kill in H; split_bind H; simplify_eq/= end.
  match goal with H : foldM _ (actions _) _ = Some _ |- _ => apply foldM_length in H; [exact H|] end.
  intros t b t' Hset. by eapply vec_set_length.
Qed.

Lemma relocate_actions r dfa d l : foldM (relocate_node r) dfa l = Some d -> actions d = actions dfa.
Proof.
  intros Hrun. refine (foldM_inv (relocate_node r) (fun s => actions s = actions dfa) l _ dfa d eq_refl Hrun).
  intros s node s' _ Hs Hstep. unfold relocate_node in Hstep. apply bind_Some in Hstep as (? & _ & Hstep).
  apply bind_Some in Hstep as (? & _ & Hstep). destruct (hasFallbackTransition node); [|by simplify_eq/=].
  split_bind Hstep. unfold changeFallbackTransition in Hstep. split_bind Hstep. by simplify_eq/=.
Qed.

Lemma minimize_actions `{HashOrder} dfa d : minimize dfa = Some d -> length (actions d) = length (actions dfa).
Proof.
  intros Hrun. unfold minimize in Hrun.
  apply bind_Some in Hrun as (dfa1 & E1%simplify_actions & Hrun). apply bind_Some in Hrun as (g & _ & Hrun).
  apply bind_Some in Hrun as ([killed r] & E2%kill_actions & Hrun).
  apply bind_Some in Hrun as (dfa2 & E3%relocate_actions & Hrun).
  apply bind_Some in Hrun as (dfa3 & E4%simplify_actions & Hrun). apply bind_Some in Hrun as (newRoot & _ & Hrun).
  simplify_eq/=. congruence.
Qed.

(** ** What a run triggers *)

(** An action of a node that the input goes through is an action behind one of its prefixes. *)
Lemma elem_of_trace dfa i input a :
  (exists acts, acts ∈ trace dfa i input /\ a ∈ acts) <->
  exists w w', input = w ++ w' /\ w <> [] /\ a ∈ match dfa_walk dfa i w with Some k => actions_at dfa k | None => [] end.
Proof.
  unfold trace, dfa_walk. revert i. induction input as [|c input IH]; intros i; cbn [dfa_run].
  - split; [intros (? & Hn & _); by apply elem_of_nil in Hn|].
    intros (w & w' & E & Hne & _). symmetry in E. by apply app_eq_nil in E as [-> _].
  - destruct (dfa_step dfa i c) as [t|] eqn:E.
    + rewrite fmap_cons. setoid_rewrite elem_of_cons. split.
      * intros (acts & [->|Hin] & Ha).
        -- exists [c], input. split_and!; [done..|]. cbn [foldM]. by rewrite E.
        -- destruct (proj1 (IH t)) as (w & w' & -> & _ & Hw); [eauto|].
           exists (c :: w), w'. split_and!; [done..|]. cbn [foldM]. rewrite E. by run_option.
      * intros (w & w' & Ew & Hne & Ha). destruct w as [|c' w]; [done|]. simplify_eq/=. rewrite E in Ha. run_option.
        cbn [mbind option_bind] in Ha. destruct w as [|c2 w]; [exists (actions_at dfa t); cbn in Ha; auto|].
        destruct (proj2 (IH t)) as (acts & ? & ?); [exists (c2 :: w), w'; auto|]. exists acts. auto.
    + split; [intros (? & Hn & _); by apply elem_of_nil in Hn|].
      intros (w & w' & Ew & Hne & Ha). destruct w as [|c' w]; [done|]. simplify_eq/=. rewrite E in Ha. by apply elem_of_nil in Ha.
Qed.

Lemma elem_of_triggered flags acts x : x ∈ triggered flags acts <-> exists a, a ∈ acts /\ flags_match flags a = true /\ x = wrap32 a.
Proof.
  unfold triggered. rewrite list_elem_of_fmap. split.
  - intros (a & -> & [? ?]%list_elem_of_filter). eauto.
  - intros (a & ? & ? & ->). exists a. split; [done|]. by apply list_elem_of_filter.
Qed.

(** The nodes other than the root of an automaton whose root is not to be looked at. *)
Lemma elem_of_dfa_triggered dfa flags url x :
  actions_at dfa (root dfa) = [] ->
  x ∈ dfa_triggered dfa flags url <->
  exists a, flags_match flags a = true /\ x = wrap32 a /\ exists acts, acts ∈ trace dfa (root dfa) (url ++ [0]) /\ a ∈ acts.
Proof.
  intros Hroot. unfold dfa_triggered, trace. rewrite list_elem_of_bind. setoid_rewrite list_elem_of_fmap. split.
  - intros (t & Hx & Ht). destruct (t =? root dfa); [by apply elem_of_nil in Hx|].
    apply elem_of_triggered in Hx as (a & ? & ? & ->). exists a. split; [done|]. split; [done|]. exists (actions_at dfa t). eauto.
  - intros (a & Hf & -> & acts & (t & -> & Ht) & Ha). exists t. split; [|done].
    destruct (t =? root dfa) eqn:E; breflect; [by rewrite E, Hroot, elem_of_nil in Ha|]. apply elem_of_triggered. eauto.
Qed.

(** ** The automaton of an NFA *)

(** The limits of an automaton that the conversion made. *)
Record dfa_within (dfa : DFA) : Prop := {
  dw_transitions : N.of_nat (length (transitions dfa)) < 2 ^ 32;
  dw_actions : N.of_nat (length (actions dfa)) + max16 < 2 ^ 32;
  dw_nodes : 128 * N.of_nat (length (nodes dfa)) < 2 ^ 32;
  dw_gap : no_gap dfa;
  dw_distinct : nul_distinct dfa;
  dw_nul : nul_ok dfa
}.

Definition converts_within `{HashOrder} (fuel : nat) (nfa : NFA) : Prop :=
  (2 ^ length (m_nodes nfa) < fuel)%nat /\ exists dfa, convert fuel nfa = Some (Converted dfa) /\ dfa_within dfa.

(** What an NFA triggers on a URL and its terminator. *)
Definition accepts_prefix (nfa : NFA) (url : list N) (a : N) : Prop :=
  exists w w', url ++ [0] = w ++ w' /\ accepts nfa w a.

Section Automaton.
Context `{HashOrder} (nfa : NFA) (Hok : nfa_ok nfa) (Hlate : forall a, ~ accepts nfa [] a).

(** The automaton before the universal actions. *)
Lemma minimized_spec fuel : converts_within fuel nfa ->
  exists dfa d, convert fuel nfa = Some (Converted dfa) /\ minimize dfa = Some d /\ compilable d /\ layout d /\
    N.of_nat (length (actions d)) + max16 < 2 ^ 32 /\ actions_at d (root d) = [] /\
    forall url a, Forall (fun c => c < 128) url ->
      (exists acts, acts ∈ trace d (root d) (url ++ [0]) /\ a ∈ acts) <-> accepts_prefix nfa url a.
Proof.
  intros (Hfuel & dfa & Hconv & [Ht Ha Hn Hgap Hdis Hnul]). pose proof (convert_result nfa fuel Hok Hfuel) as Hres.
  rewrite Hconv in Hres. destruct Hres as (table & u0 & Hinv & _ & Hu0 & Hinit).
  assert (bounded dfa) as Hb by (split; [lia|done]).
  assert (N.of_nat (length (nodes dfa)) < max32) as Hsize by (change (2 ^ 32) with 4294967296 in Hn; unfold max32; lia).
  assert (forall w a, Forall (fun c => c < 128) w -> a ∈ actions_after dfa w <-> accepts nfa w a) as Hafter.
  { intros w a Hw. by eapply actions_after_spec. }
  assert (dfa_ok dfa) as Hdok by (by eapply converted_ok).
  pose proof (convert_stacked nfa fuel dfa Hok Hconv) as Hstack.
  assert (layout dfa) as Hly by (by apply stacked_layout).
  destruct (minimize_result dfa) as (d & Hmin & Hd & Hlyd & Hnuld & Hroot & _ & Htrace).
  { split; [done|done| |done]. intros i node. by eapply stacked_live. }
  assert (actions_at dfa (root dfa) = []) as Hnone.
  { apply elem_of_nil_inv. intros a Hin. apply (Hlate a). apply Hafter; [constructor|]. exact Hin. }
  exists dfa, d. split_and!; [done..|split; auto|done| | |].
  - by rewrite (minimize_actions dfa d).
  - by rewrite Hroot.
  - intros url a Hurl. rewrite Htrace, elem_of_trace by done. unfold accepts_prefix. split.
    + intros (w & w' & E & _ & Hw). exists w, w'. split; [done|]. apply Hafter; [|done].
      assert (Forall (fun c => c < 128) (url ++ [0])) as Hall by (apply Forall_app; by rewrite Forall_singleton).
      rewrite E in Hall. by apply Forall_app in Hall as [? _].
    + intros (w & w' & E & Hw). exists w, w'. split_and!; [done| |].
      * intros ->. by apply (Hlate a).
      * apply Hafter; [|done]. assert (Forall (fun c => c < 128) (url ++ [0])) as Hall by (apply Forall_app; by rewrite Forall_singleton).
        rewrite E in Hall. by apply Forall_app in Hall as [? _].
Qed.
End Automaton.

(** ** The universal actions *)

Section Universal.
Context `{HashOrder} (dfa : DFA) (universal : list N).
Context (Hok : dfa_ok dfa) (Hnul : nul_ok dfa) (Hly : layout dfa).
Context (Hbound : N.of_nat (length (actions dfa)) + max16 < 2 ^ 32) (Hfew : N.of_nat (length universal) < max16).
Context (Hlocations : Forall (fun a => a < 2 ^ 48) universal).

Definition with_universal (node : DFANode) : DFA :=
  mkDFA (actions dfa ++ hash_order universal) (transitions dfa)
    (<[root dfa :=N setActions node (N.of_nat (length (actions dfa))) (N.of_nat (length universal))]> (nodes dfa)) (root dfa).

Lemma hash_order_length : length (hash_order universal) = length universal.
Proof. by rewrite hash_order_perm. Qed.

Lemma add_universal_eq node : nodes dfa !!N root dfa = Some node -> add_universal universal dfa = Some (with_universal node).
Proof.
  intros Hn. unfold add_universal, with_universal. cbn [actions with_actions nodes root].
  rewrite length_app, hash_order_length, Nat2N.inj_add. unfold max16 in *. change (2 ^ 32) with 4294967296 in *.
  rewrite (wrap32_id (N.of_nat (length (actions dfa)))), (wrap32_id (_ + N.of_nat (length universal))) by lia.
  assert (wrap32 (N.of_nat (length (actions dfa)) + N.of_nat (length universal) + 4294967296 - N.of_nat (length (actions dfa)))
    = N.of_nat (length universal)) as ->.
  { unfold wrap32. change (2 ^ 32) with 4294967296.
    replace (_ + _ + _ - _) with (N.of_nat (length universal) + 1 * 4294967296) by lia.
    rewrite N.Div0.mod_add. apply N.mod_small. lia. }
  rewrite (proj2 (N.ltb_lt _ _) Hfew). run_option. rewrite Hn. run_option. rewrite wrap16_id by lia. done.
Qed.

Context (node : DFANode) (Hn : nodes dfa !!N root dfa = Some node).
Notation d := (with_universal node).

Lemma universal_node i : nodes d !!N i =
  if decide (i = root dfa) then Some (setActions node (N.of_nat (length (actions dfa))) (N.of_nat (length universal)))
  else nodes dfa !!N i.
Proof.
  cbn. case_decide as Hi.
  - subst. apply list_lookup_insert_eq. by eapply lookup_lt_Some.
  - apply list_lookup_insert_ne. lia.
Qed.

Lemma universal_step i c : dfa_step d i c = dfa_step dfa i c.
Proof. unfold dfa_step. rewrite universal_node. case_decide as Hi; [subst; by rewrite Hn|done]. Qed.

Lemma universal_run i input : dfa_run d i input = dfa_run dfa i input.
Proof.
  revert i. induction input as [|c input IH]; intros i; [done|]. cbn [dfa_run]. rewrite universal_step.
  destruct (dfa_step dfa i c); [by rewrite IH|done].
Qed.

Lemma universal_live i : live d i <-> live dfa i.
Proof. unfold live. rewrite universal_node. case_decide as Hi; [subst; rewrite Hn|done]. split; intros (? & ? & ?); simplify_eq; eauto. Qed.

(** The window of another node is still there. *)
Lemma universal_window n acts : node_actions n dfa = Some acts -> node_actions n d = Some acts.
Proof. apply mapM_lookup_app. Qed.

Lemma universal_root_window : node_actions (setActions node (N.of_nat (length (actions dfa))) (N.of_nat (length universal))) d
  = Some (hash_order universal).
Proof.
  unfold node_actions. cbn [setActions m_actionsStart m_actionsLength actions with_universal].
  unfold max16 in *. change (2 ^ 32) with 4294967296 in *. rewrite wrap32_id by lia.
  rewrite <- hash_order_length. pose proof (mapM_window (actions dfa) (hash_order universal) []) as Hw.
  by rewrite app_nil_r in Hw.
Qed.

Lemma universal_root_actions : actions_at d (root d) = hash_order universal.
Proof.
  unfold actions_at. rewrite universal_node, decide_True by done. run_option. by rewrite universal_root_window.
Qed.

Lemma universal_other_actions i : i <> root dfa -> actions_at d i = actions_at dfa i.
Proof.
  intros Hi. unfold actions_at. rewrite universal_node, decide_False by done.
  destruct (nodes dfa !!N i) as [n|] eqn:E; run_option; [|done].
  pose proof (node_actions_view dfa Hly n (ly_within _ Hly _ _ E)) as Hv. rewrite Hv. by rewrite (universal_window n _ Hv).
Qed.

Lemma universal_triggered flags url : dfa_triggered d flags url = dfa_triggered dfa flags url.
Proof.
  unfold dfa_triggered. rewrite universal_run. cbn [root with_universal].
  induction (dfa_run dfa (root dfa) (url ++ [0])) as [|t l IH]; [done|]. rewrite !bind_cons, IH. f_equal.
  destruct (t =? root dfa) eqn:E; [done|]. breflect. by rewrite universal_other_actions.
Qed.

Lemma universal_compilable : compilable d.
Proof.
  assert (forall n acts, node_actions n dfa = Some acts -> exists acts', node_actions n d = Some acts' /\ acts' = acts) as Hacts.
  { intros n acts Ha. exists acts. by rewrite (universal_window n acts Ha). }
  destruct Hok as [Hroot Hsize Hnodes]. split; [split|].
  - by apply universal_live.
  - cbn. by rewrite length_insert.
  - intros i n. rewrite universal_node. case_decide as Hi; intros Hni Hk.
    + simplify_eq. destruct (Hnodes (root dfa) node Hn Hk) as [_ (ts & Ht & Hnd & Hall) Hfb]. split.
      * exists (hash_order universal). split; [apply universal_root_window|]. by rewrite hash_order_perm.
      * exists ts. split_and!; [done..|]. eapply Forall_impl; [exact Hall|]. intros t [? ?]. by rewrite universal_live.
      * intros Hf. destruct (Hfb Hf) as (t & ? & ?). exists t. by rewrite universal_live.
    + destruct (Hnodes i n Hni Hk) as [(acts & Ha & Hall') (ts & Ht & Hnd & Hall) Hfb]. split.
      * exists acts. split; [by apply universal_window|done].
      * exists ts. split_and!; [done..|]. eapply Forall_impl; [exact Hall|]. intros t [? ?]. by rewrite universal_live.
      * intros Hf. destruct (Hfb Hf) as (t & ? & ?). exists t. by rewrite universal_live.
  - intros i t n. rewrite universal_live, universal_step, universal_node. intros Hi Hstep.
    case_decide as Ht; [|by apply (Hnul i t)]. intros [= <-]. subst t. by apply (Hnul i (root dfa) node).
Qed.
End Universal.

(** ** The automata of a rule list *)

Section MakeDFA.
Context `{HashOrder} (fuel : nat) (universal : list N).
Context (Hfew : N.of_nat (length universal) < max16) (Hlocations : Forall (fun a => a < 2 ^ 48) universal).

(** What the automaton of the [i]-th NFA does. *)
Record automaton_of (i : N) (nfa : NFA) (d : DFA) : Prop := {
  au_compilable : compilable d;
  au_root : forall a, a ∈ actions_at d (root d) <-> i = 0 /\ a ∈ universal;
  au_triggered : forall flags url x, Forall (fun c => c < 128) url ->
    x ∈ dfa_triggered d flags url <-> exists a, flags_match flags a = true /\ x = wrap32 a /\ accepts_prefix nfa url a
}.

Lemma make_dfa_spec i nfa : nfa_ok nfa -> (forall a, ~ accepts nfa [] a) -> converts_within fuel nfa ->
  exists d, make_dfa fuel universal i nfa = Some (Some d) /\ automaton_of i nfa d.
Proof.
  intros Hok Hlate Hwithin.
  destruct (minimized_spec nfa Hok Hlate fuel Hwithin) as (dfa & d & Hconv & Hmin & [Hd Hnul] & Hly & Hbound & Hroot & Hacts).
  unfold make_dfa. rewrite Hconv. run_option. rewrite Hmin. run_option.
  assert (forall flags url x, Forall (fun c => c < 128) url -> x ∈ dfa_triggered d flags url <->
    exists a, flags_match flags a = true /\ x = wrap32 a /\ accepts_prefix nfa url a) as Htr.
  { intros flags url x Hurl. rewrite elem_of_dfa_triggered by done. by setoid_rewrite Hacts. }
  destruct (i =? 0) eqn:Ei; breflect.
  - destruct (ok_root _ Hd) as (node & Hn & _). rewrite (add_universal_eq d universal Hbound Hfew node Hn). run_option.
    eexists. split; [done|]. split.
    + by apply universal_compilable.
    + intros a. rewrite universal_root_actions, hash_order_perm by done. tauto.
    + intros flags url x Hurl. rewrite universal_triggered by done. by apply Htr.
  - eexists. split; [done|]. split; [by split| |done]. intros a. rewrite Hroot, elem_of_nil. tauto.
Qed.

(** The automata of the NFAs from the [i]-th on. *)
Fixpoint make_dfas (i : N) (nfas : list NFA) : option (option (list DFA)) :=
  match nfas with
  | [] => Some (Some [])
  | nfa :: nfas =>
      r ← make_dfa fuel universal i nfa;
      match r with
      | None => Some None
      | Some dfa => r ← make_dfas (i + 1) nfas; Some (match r with Some dfas => Some (dfa :: dfas) | None => None end)
      end
  end.

Lemma make_dfas_spec i nfas : Forall nfa_ok nfas -> Forall (fun nfa => forall a, ~ accepts nfa [] a) nfas ->
  Forall (converts_within fuel) nfas ->
  exists dfas, make_dfas i nfas = Some (Some dfas) /\ length dfas = length nfas /\
    forall k nfa d, nfas !! k = Some nfa -> dfas !! k = Some d -> automaton_of (i + N.of_nat k) nfa d.
Proof.
  intros Hok. revert i. induction Hok as [|nfa nfas Hnfa _ IH]; intros i Hlate Hwithin; [by exists []|].
  apply Forall_cons in Hlate as [Hl Hlate], Hwithin as [Hw Hwithin]. cbn [make_dfas].
  destruct (make_dfa_spec i nfa Hnfa Hl Hw) as (d & -> & Hd). run_option.
  destruct (IH (i + 1) Hlate Hwithin) as (dfas & -> & Hlen & Hall). run_option. exists (d :: dfas).
  split; [done|]. split; [by simpl; rewrite Hlen|]. intros [|k] nfa' d' H1 H2; simplify_eq/=; [by rewrite N.add_0_r|].
  replace (i + N.of_nat (S k)) with (i + 1 + N.of_nat k) by lia. by apply Hall.
Qed.

(** The loop is the compilation of these automata. *)
Lemma compile_nfas_eq i nfas dfas bytecode : make_dfas i nfas = Some (Some dfas) ->
  compile_nfas fuel universal i nfas bytecode = (b ← compile_all dfas bytecode; Some (Some b)).
Proof.
  unfold compile_all. revert i dfas bytecode. induction nfas as [|nfa nfas IH]; intros i dfas bytecode; cbn [make_dfas compile_nfas].
  - by intros [= <-].
  - destruct (make_dfa fuel universal i nfa) as [[dfa|]|]; run_option; [|done|done].
    destruct (make_dfas (i + 1) nfas) as [[rest|]|] eqn:E; run_option; [|done|done]. intros [= <-]. cbn [foldM].
    destruct (compile dfa bytecode) as [b|]; run_option; [|done]. by rewrite (IH _ rest).
Qed.
End MakeDFA.
