(* ===== verification/CompileCorrect.v ===== *)
(** * [compileRuleList] is correct

    From the text of a rule list to the bytecode that the interpreter runs on the
    URLs: the composition of the parser, the serialization of the actions, the
    prefix tree, the automata, their minimization and the bytecode. *)

From S2P Require Import Prelude HashTable ASCII DFA DFABytecode DFABytecodeCompiler CompilerLayout DFABytecodeInterpreter BytecodeCorrect Bytecode.
From S2P Require Import NFA NFAToDFA SubsetConstruction DFAViews DFAMinimizer SimplifyTransitions Minimize Graph Term TermGraph CombinedURLFilters PrefixTree CreateNFAs.
From S2P Require Import URLFilterParser PatternSemantics RegexParser WTFString StringBuilder StringBuilderCorrect Rules SerializeActions SerializeCorrect RuleParser RuleParserCorrect.
From S2P Require Import CompileRuleList FiltersCorrect AutomataCorrect.

(** ** The automata *)

Lemma newNFA_accepts w a : ~ accepts newNFA w a.
Proof.
  intros (q & _ & node & Hn & Ha). destruct q as [|q]; simplify_eq/=; [by apply elem_of_nil in Ha|].
  destruct (N.to_nat (N.pos q)) as [|k] eqn:E; [lia|]. by destruct k.
Qed.

(** The limits of the automata of the filters and of the bytecode. *)
Record within_limits `{HashOrder} (fuel : nat) (s : CompileState) : Prop := {
  wl_universal : N.of_nat (length (universalActionLocations s)) < max16;
  wl_tree : (2 * vertex_size (combinedURLFilters s) < fuel)%nat;
  wl_nfas : forall nfas, createNFAs fuel (combinedURLFilters s) = Some (Finished (Some nfas)) ->
    Forall (converts_within fuel) (add_empty_nfa (universalActionLocations s) nfas);
  wl_bytecode : forall nfas dfas, createNFAs fuel (combinedURLFilters s) = Some (Finished (Some nfas)) ->
    make_dfas fuel (universalActionLocations s) 0 (add_empty_nfa (universalActionLocations s) nfas) = Some (Some dfas) ->
    total_size dfas < max32
}.

Section Automata.
Context `{HashOrder} (fuel : nat) (s : CompileState) (P : list N -> N -> Prop).
Context (Hinv : filters_inv s P) (Hlimits : within_limits fuel s).
Notation universal := (universalActionLocations s).

(** The NFAs of the filters. *)
Lemma created_nfas : exists nfas, createNFAs fuel (combinedURLFilters s) = Some (Finished (Some nfas)) /\
  let all := add_empty_nfa universal nfas in
  Forall nfa_ok all /\ Forall (fun nfa => forall a, ~ accepts nfa [] a) all /\ (all = [] -> universal = []) /\
  forall url a, Forall input_char url ->
    (exists nfa, nfa ∈ all /\ accepts_prefix nfa url a) <-> tree_matches (combinedURLFilters s) url a.
Proof.
  destruct (createNFAs_result (combinedURLFilters s) fuel (fi_ok _ _ Hinv) (wl_tree _ _ Hlimits)) as (nfas & E & Hok & Hacc).
  exists nfas. split; [done|].
  assert (forall nfa w a, nfa ∈ add_empty_nfa universal nfas /\ accepts nfa w a <-> nfa ∈ nfas /\ accepts nfa w a) as Hempty.
  { intros nfa w a. unfold add_empty_nfa. destruct (_ && _); [|done]. rewrite elem_of_app, list_elem_of_singleton.
    split; [|tauto]. intros [[?| ->] Ha]; [done|]. by apply newNFA_accepts in Ha. }
  split_and!.
  - unfold add_empty_nfa. destruct (_ && _); [|done]. apply Forall_app. split; [done|]. apply Forall_singleton, newNFA_ok.
  - apply Forall_forall. intros nfa Hin a Ha. destruct (proj1 (Hempty nfa [] a) (conj Hin Ha)) as [Hin' _].
    destruct (proj1 (Hacc [] a (Forall_nil_2 _))) as (q & _ & Hq & Hc & Hseq); [eauto|]. by apply (fi_late _ _ Hinv q a).
  - unfold add_empty_nfa. destruct (bool_decide (nfas = [])) eqn:E1; cbn [andb]; [|by intros ->; apply bool_decide_eq_false in E1].
    destruct (bool_decide (universal = [])) eqn:E2; cbn [negb]; [by apply bool_decide_eq_true in E2|]. by destruct nfas.
  - intros url a Hurl. assert (forall w w', url ++ [0] = w ++ w' -> Forall (fun c => c < 128) w) as Hchars.
    { intros w w' Ew. assert (Forall (fun c => c < 128) (w ++ w')) as Hall; [|by apply Forall_app in Hall as [? _]].
      rewrite <- Ew. apply Forall_app. split; [|by apply Forall_singleton]. eapply Forall_impl; [exact Hurl|]. by intros c []. }
    unfold accepts_prefix, tree_matches, matches. split.
    + intros (nfa & Hin & w & w' & Ew & Ha). destruct (proj1 (Hempty nfa w a) (conj Hin Ha)) as [Hin' _].
      destruct (proj1 (Hacc w a (Hchars w w' Ew))) as (q & ? & ? & ? & ?); [eauto|]. exists q. eauto 7.
    + intros (q & ? & ? & ? & w & w' & Ew & Hseq). destruct (proj2 (Hacc w a (Hchars w w' Ew))) as (nfa & Hin & Ha); [eauto 6|].
      exists nfa. destruct (proj2 (Hempty nfa w a) (conj Hin Ha)) as [? _]. eauto.
Qed.
End Automata.

(** ** The bytecode *)

Section Code.
Context `{HashOrder} (universal : list N) (nfas : list NFA) (dfas : list DFA).
Context (Hlen : length dfas = length nfas) (Hnone : nfas = [] -> universal = []).
Context (Hdfas : forall k nfa d, nfas !! k = Some nfa -> dfas !! k = Some d -> automaton_of universal (N.of_nat k) nfa d).

Lemma dfa_automaton k d : dfas !! k = Some d -> exists nfa, nfas !! k = Some nfa /\ automaton_of universal (N.of_nat k) nfa d.
Proof.
  intros Hd. destruct (lookup_lt_is_Some_2 nfas k) as [nfa Hn]; [rewrite <- Hlen; by eapply lookup_lt_Some|].
  exists nfa. split; [done|by apply Hdfas].
Qed.

Lemma dfas_compilable : Forall compilable dfas.
Proof. apply Forall_lookup. intros k d Hd. destruct (dfa_automaton k d Hd) as (nfa & _ & ?). by eapply au_compilable. Qed.

Lemma elem_of_dfa_adds first k d flags url x : dfas !! k = Some d -> first = (k =? 0)%nat -> Forall (fun c => c < 128) url ->
  x ∈ dfa_adds first flags url d <->
  (k = 0%nat /\ exists a, a ∈ universal /\ N.land a 281470681743360 <> 0 /\ flags_match flags a = true /\ x = wrap32 a) \/
  exists nfa a, nfas !! k = Some nfa /\ flags_match flags a = true /\ x = wrap32 a /\ accepts_prefix nfa url a.
Proof.
  intros Hd -> Hurl. destruct (dfa_automaton k d Hd) as (nfa & Hn & [_ Hroot Htr]). unfold dfa_adds, root_triggered.
  rewrite elem_of_app, Htr by done.
  assert ((exists a, flags_match flags a = true /\ x = wrap32 a /\ accepts_prefix nfa url a) <->
    exists nfa a, nfas !! k = Some nfa /\ flags_match flags a = true /\ x = wrap32 a /\ accepts_prefix nfa url a) as ->.
  { split; [intros (a & ?); by exists nfa, a|]. intros (nfa' & a & ? & ?). simplify_eq. by exists a. }
  apply or_iff_compat_r. rewrite elem_of_triggered. destruct k as [|k]; cbn [Nat.eqb].
  - split.
    + intros (a & [Hm Ha]%list_elem_of_filter & ? & ->). apply Hroot in Ha as [_ Ha]. breflect. eauto 7.
    + intros (_ & a & ? & Hm & ? & ->). exists a. split_and!; [|done..]. apply list_elem_of_filter.
      split; [by apply negb_true_iff, N.eqb_neq|]. by apply Hroot.
  - split; [|by intros [? _]]. intros (a & Ha & _). apply Hroot in Ha as [? _]. lia.
Qed.

Lemma no_dfa : dfas !! 0%nat = None -> dfas = [] /\ nfas = [].
Proof.
  intros Hd%lookup_ge_None. split; [apply nil_length_inv; lia|]. apply nil_length_inv. lia.
Qed.

Lemma elem_of_all_triggered flags url x : Forall (fun c => c < 128) url ->
  x ∈ all_triggered dfas flags url <->
  (exists a, a ∈ universal /\ N.land a 281470681743360 <> 0 /\ flags_match flags a = true /\ x = wrap32 a) \/
  exists nfa a, nfa ∈ nfas /\ flags_match flags a = true /\ x = wrap32 a /\ accepts_prefix nfa url a.
Proof.
  intros Hurl.
  assert (x ∈ all_triggered dfas flags url <-> exists k d, dfas !! k = Some d /\ x ∈ dfa_adds (k =? 0)%nat flags url d) as ->.
  { unfold all_triggered. destruct dfas as [|d ds].
    - rewrite elem_of_nil. split; [done|]. by intros (k & d & ? & _).
    - rewrite elem_of_app, list_elem_of_bind. split.
      + intros [?|(d' & ? & [k Hk]%list_elem_of_lookup)]; [by exists 0%nat, d|by exists (S k), d'].
      + intros ([|k] & d' & Hd & Hx); simplify_eq/=; [by left|right]. exists d'. split; [done|]. by eapply list_elem_of_lookup_2. }
  split.
  - intros (k & d & Hd & Hx). eapply elem_of_dfa_adds in Hx; [|done..].
    destruct Hx as [[_ ?]|(nfa & a & Hn & ?)]; [by left|right]. exists nfa, a. split; [by eapply list_elem_of_lookup_2|done].
  - intros [(a & Ha & ?)|(nfa & a & Hin & ?)].
    + destruct (dfas !! 0%nat) as [d|] eqn:Ed.
      * exists 0%nat, d. split; [done|]. eapply elem_of_dfa_adds; [done..|]. left. eauto.
      * destruct (no_dfa Ed) as [_ Hn]. rewrite (Hnone Hn) in Ha. by apply elem_of_nil in Ha.
    + apply list_elem_of_lookup in Hin as [k Hk]. destruct (lookup_lt_is_Some_2 dfas k) as [d Hd].
      { rewrite Hlen. by eapply lookup_lt_Some. }
      exists k, d. split; [done|]. eapply elem_of_dfa_adds; [done..|]. right. by exists nfa, a.
Qed.

(** The unconditional actions come from the root, and the others from the run. *)
Lemma interpret_automata : total_size dfas < max32 ->
  exists bytecode, compile_all dfas [] = Some bytecode /\
    forall url flags, Forall input_char url -> N.of_nat (length url) + 2 < 2 ^ 32 ->
    exists acts roots fuel0,
      (forall fuel, (fuel0 <= fuel)%nat ->
        interpret fuel (mkInterpreter bytecode (N.of_nat (length bytecode))) url flags = Some acts /\
        (bytecode <> [] -> actionsFromDFARoot fuel (mkInterpreter bytecode (N.of_nat (length bytecode))) = Some roots)) /\
      (bytecode = [] -> roots = []) /\
      (forall x, x ∈ acts ++ roots <-> exists a, flags_match flags a = true /\ x = wrap32 a /\
        (a ∈ universal \/ exists nfa, nfa ∈ nfas /\ accepts_prefix nfa url a)) /\
      forall x, x ∈ roots -> exists a, a ∈ universal /\ N.land a 281470681743360 = 0 /\ x = wrap32 a.
Proof.
  intros Hsize. assert (Forall dfa_ok dfas) as Hok by (eapply Forall_impl; [apply dfas_compilable|by intros ? []]).
  destruct (compile_all_blocks dfas [] Hok) as (bytecode & Hc & Hbytes & _); [done|]. rewrite app_nil_l in Hc.
  exists bytecode. split; [done|]. intros url flags Hurl Hlength.
  assert (Forall (fun c => c <> 0 /\ c < 128) url) as Hurl' by (eapply Forall_impl; [exact Hurl|by intros c []]).
  assert (Forall (fun c => c < 128) url) as Hchars by (eapply Forall_impl; [exact Hurl|by intros c []]).
  destruct (interpret_result dfas url flags dfas_compilable Hsize Hurl' Hlength) as (b1 & acts & k1 & Hc1 & Hrun & Hacts).
  rewrite Hc in Hc1. injection Hc1 as <-.
  assert (exists roots k2, (forall fuel, (k2 <= fuel)%nat -> bytecode <> [] ->
      actionsFromDFARoot fuel (mkInterpreter bytecode (N.of_nat (length bytecode))) = Some roots) /\
    (bytecode = [] -> roots = []) /\
    forall x, x ∈ roots <-> exists a, a ∈ universal /\ N.land a 281470681743360 = 0 /\ x = wrap32 a) as (roots & k2 & Hroots & Hnil & Hin).
  { destruct (dfas !! 0%nat) as [d|] eqn:Ed; [|destruct (no_dfa Ed) as [Hd Hn]].
    2: { exists [], 0%nat. rewrite Hd in Hbytes. destruct bytecode; [|done]. split_and!; [done..|]. intros x.
      rewrite (Hnone Hn). setoid_rewrite elem_of_nil. naive_solver. }
    - assert (dfas = d :: drop 1 dfas) as Hds by (rewrite <- (drop_0 dfas) at 1; by apply drop_S).
      assert (total_size (d :: drop 1 dfas) < max32) as Hsize' by (by rewrite <- Hds).
      assert (Forall dfa_ok (d :: drop 1 dfas)) as Hok' by (by rewrite <- Hds).
      destruct (root_result d (drop 1 dfas) Hok' Hsize') as (b2 & roots & k2 & Hc2 & Hroots & Hin). rewrite <- Hds, Hc in Hc2. injection Hc2 as <-.
      exists roots, k2. split; [auto|]. split.
      { intros ->. rewrite Hds in Hbytes. cbn [total_size foldr length] in Hbytes. unfold compiled_size in Hbytes. lia. }
      intros x. rewrite Hin, list_elem_of_fmap. destruct (dfa_automaton 0 d) as (nfa & _ & [_ Hroot _]); [done|].
      setoid_rewrite list_elem_of_filter. setoid_rewrite Hroot. setoid_rewrite N.eqb_eq. naive_solver. }
  exists acts, roots, (k1 + k2)%nat. split_and!; [|done| |by intros x Hx%Hin].
  { intros fuel Hfuel. split; [apply Hrun; lia|intros; apply Hroots; [lia|done]]. }
  intros x. rewrite elem_of_app, Hacts, Hin, elem_of_all_triggered by done.
  assert (forall a, N.land a 281470681743360 = 0 -> flags_match flags a = true) as Hzero.
  { intros a Ha. unfold flags_match. by rewrite Ha. }
  split.
  - intros [[(a & ? & _ & ? & ->)|(nfa & a & ? & ? & -> & ?)]|(a & ? & ? & ->)]; exists a; eauto 7.
  - intros (a & Hf & -> & [Ha|(nfa & ? & ?)]); [|left; right; by exists nfa, a].
    destruct (decide (N.land a 281470681743360 = 0)); [right; eauto|left; left; eauto].
Qed.
End Code.

(** ** The whole *)

Lemma parsed_flags rule : parsed_rule rule -> flags (m_trigger rule) < 2 ^ 16.
Proof.
  intros [[_ _ Hf] _]. rewrite <- Hf. eapply N.le_lt_trans; [apply N.land_le_r|]. by vm_compute.
Qed.

(** Whether the flags of a load let a rule act. *)
Definition load_matches (loadFlags : N) (rule : ContentExtensionRule) : Prop :=
  flags (m_trigger rule) = 0 \/ N.land loadFlags (flags (m_trigger rule)) <> 0.

Lemma load_flags_match loadFlags rule location : flags (m_trigger rule) < 2 ^ 16 -> location < 2 ^ 32 ->
  flags_match loadFlags (actionLocationAndFlags (m_trigger rule) location) = true <-> load_matches loadFlags rule.
Proof.
  intros Hf Hl. unfold flags_match, load_matches. rewrite location_mask, location_flags by done.
  rewrite orb_true_iff, negb_true_iff, N.eqb_eq, N.eqb_neq. done.
Qed.

(** The rule at [location] matches the URL. *)
Definition rule_triggers (rules : list ContentExtensionRule) (filters : list regex) (locations : list N)
    (url : list N) (loadFlags location : N) : Prop :=
  exists (i : nat) rule r, rules !! i = Some rule /\ filters !! i = Some r /\ locations !! i = Some location /\
    rule_matches rule r url /\ load_matches loadFlags rule.

(** [location] is that of a rule without flags whose filter matches everything, and no rule before it ignores the previous ones. *)
Definition root_rule (rules : list ContentExtensionRule) (filters : list regex) (locations : list N) (location : N) : Prop :=
  exists (i : nat) rule r, rules !! i = Some rule /\ filters !! i = Some r /\ locations !! i = Some location /\
    flags (m_trigger rule) = 0 /\ matches_everything rule r /\
    forall (j : nat) rule', (j < i)%nat -> rules !! j = Some rule' -> is_ignore rule' = false.

(** What the bytecode does on every URL. *)
Definition bytecode_correct (rules : list ContentExtensionRule) (filters : list regex) (locations : list N)
    (bytecode : list N) : Prop :=
  forall url loadFlags, Forall input_char url -> N.of_nat (length url) + 2 < 2 ^ 32 ->
  exists acts roots fuel0,
    (forall fuel, (fuel0 <= fuel)%nat ->
      interpret fuel (mkInterpreter bytecode (N.of_nat (length bytecode))) url loadFlags = Some acts /\
      (bytecode <> [] -> actionsFromDFARoot fuel (mkInterpreter bytecode (N.of_nat (length bytecode))) = Some roots)) /\
    (bytecode = [] -> roots = []) /\
    (forall location, location ∈ acts ++ roots <-> rule_triggers rules filters locations url loadFlags location) /\
    forall location, location ∈ roots -> root_rule rules filters locations location.

Section Correct.
Context `{HashOrder} `{Yarr} `{JSC} (hasOneRef : Buffer -> bool).

Lemma compiled_bytecode fuel rules filters locations s :
  Forall parsed_rule rules -> length locations = length rules -> Forall (fun l => l < 2 ^ 32) locations ->
  filters_inv s (fun u a => False \/ rule_action rules filters (drop 0 locations) u a) ->
  (forall a, a ∈ universalActionLocations s -> first_everything rules filters (drop 0 locations) a) -> within_limits fuel s ->
  exists nfas bytecode, createNFAs fuel (combinedURLFilters s) = Some (Finished (Some nfas)) /\
    compile_nfas fuel (universalActionLocations s) 0 (add_empty_nfa (universalActionLocations s) nfas) [] = Some (Some bytecode) /\
    bytecode_correct rules filters locations bytecode.
Proof.
  intros Hrules Hlen Hlocs Hinv Huniversal Hlim. destruct (created_nfas fuel s _ Hinv Hlim) as (nfas & E & Hok & Hlate & Hnone & Hacc).
  destruct (make_dfas_spec fuel (universalActionLocations s) (wl_universal _ _ Hlim) (fi_below _ _ Hinv) 0 _ Hok Hlate
    (wl_nfas _ _ Hlim _ E)) as (dfas & Hmake & Hdlen & Hdfas).
  destruct (interpret_automata (universalActionLocations s) _ dfas Hdlen Hnone) as (bytecode & Hc & Hrun).
  { intros k nfa d Hn Hd. apply (Hdfas k nfa d Hn Hd). }
  { by eapply (wl_bytecode _ _ Hlim nfas). }
  exists nfas, bytecode. split; [done|]. split; [by rewrite (compile_nfas_eq _ _ _ _ dfas), Hc|].
  intros url loadFlags Hurl Hlength. destruct (Hrun url loadFlags Hurl Hlength) as (acts & roots & k & ? & ? & Hin & Hroots).
  exists acts, roots, k. split; [done|]. split; [done|].
  assert (forall i rule loc, rules !! i = Some rule -> locations !! i = Some loc -> flags (m_trigger rule) < 2 ^ 16 /\ loc < 2 ^ 32) as Hsmall.
  { intros i rule loc Hi Hl. split; [apply parsed_flags; by eapply Forall_lookup_1 in Hrules|by eapply Forall_lookup_1 in Hlocs]. }
  split.
  2: { intros location (a & Ha & Hf & ->)%Hroots. destruct (Huniversal a Ha) as (i & rule & r & loc & Hi & Hr & Hl & -> & Hm & Hbefore).
    rewrite drop_0 in Hl. destruct (Hsmall i rule loc Hi Hl). apply N.eqb_eq in Hf. rewrite location_mask in Hf by done. apply N.eqb_eq in Hf. exists i, rule, r. rewrite location_wrap by done. by split_and!. }
  intros location. rewrite Hin. unfold rule_triggers.
  assert (forall a, (a ∈ universalActionLocations s \/ exists nfa, nfa ∈ add_empty_nfa (universalActionLocations s) nfas /\ accepts_prefix nfa url a)
    <-> rule_action rules filters locations url a) as Hspec.
  { intros a. rewrite Hacc by done. pose proof (fi_spec _ _ Hinv url a Hurl) as Hs. rewrite drop_0 in Hs. tauto. }
  setoid_rewrite Hspec. split.
  - intros (a & Hf & -> & i & rule & r & loc & Hi & Hr & Hl & -> & Hm). destruct (Hsmall i rule loc Hi Hl).
    exists i, rule, r. rewrite location_wrap by done. split_and!; [done..|]. by eapply load_flags_match.
  - intros (i & rule & r & Hi & Hr & Hl & Hm & Hload). destruct (Hsmall i rule location Hi Hl).
    exists (actionLocationAndFlags (m_trigger rule) location). rewrite location_wrap, load_flags_match by done.
    split_and!; [done..|]. by exists i, rule, r, location.
Qed.

Lemma compileRuleList_result (fuel : nat) (text : WTFString) (rules : list ContentExtensionRule) (filters : list regex) :
  (forall v, string_ok (toWTFString v).1) ->
  parseRuleList text = inr rules -> rules_size rules <= builder_limit -> Forall2 filter_of rules filters ->
  (forall locations actions s, serializeActions hasOneRef rules = Some (locations, actions) ->
    compile_rules locations 0 rules (mkCompileState [] newCombinedURLFilters false) = Some (inr s) -> within_limits fuel s) ->
  exists locations actions, serializeActions hasOneRef rules = Some (locations, actions) /\
    ((misplaced false rules filters /\
      compileRuleList hasOneRef fuel text =
        Some (Returned (Some RegexMatchesEverythingAfterIgnorePreviousRules) [writeActions actions])) \/
     exists bytecode,
       compileRuleList hasOneRef fuel text = Some (Returned None [writeActions actions; writeBytecode bytecode]) /\
       bytecode_correct rules filters locations bytecode).
Proof.
  intros Hstrings Hparse Hsize Hfilters Hlimits. destruct (parsed_rules Hstrings text rules Hparse) as [_ Hrules].
  assert (Forall rule_ok rules) as Hok by (eapply Forall_impl; [exact Hrules|apply parsed_rule_ok]).
  destruct (serializeActions_result hasOneRef rules Hok Hsize) as (locations & actions & Hser & Hlen & Hasize & _ & Hat).
  exists locations, actions. split; [done|]. unfold compileRuleList. rewrite Hparse, Hser. run_option.
  assert (Forall (fun l => l < 2 ^ 32) locations) as Hlocs.
  { apply Forall_lookup. intros i l Hi. destruct (lookup_lt_is_Some_2 rules i) as [rule Hr]; [rewrite <- Hlen; by eapply lookup_lt_Some|].
    destruct (Hat i rule l Hr Hi) as (action & Hd & _). unfold deserialize in Hd. apply bind_Some in Hd as (byte & Hb%lookupN_lt & _).
    unfold builder_limit in Hsize. change (2 ^ 32) with 4294967296. lia. }
  destruct (compile_rules_inv locations rules filters (mkCompileState [] newCombinedURLFilters false) (fun _ _ => False) 0
    (filters_inv_start false) Hfilters) as (result & E & Hresult).
  { eapply Forall_impl; [exact Hrules|apply parsed_flags]. }
  { intros i Hi. destruct (lookup_lt_is_Some_2 locations i) as [l Hl]; [lia|]. exists l. split; [done|]. by eapply Forall_lookup_1 in Hlocs. }
  change (N.of_nat 0) with 0 in E. rewrite E. run_option. destruct result as [error|s].
  - left. destruct Hresult as [-> Hm]. by split.
  - assert (forall a, a ∈ universalActionLocations s -> first_everything rules filters (drop 0 locations) a) as Huniversal.
    { intros a [Ha|[_ Ha]]%(proj2 Hresult); [by apply elem_of_nil in Ha|done]. }
    right. destruct (compiled_bytecode fuel rules filters locations s Hrules Hlen Hlocs (proj1 Hresult) Huniversal (Hlimits _ _ _ Hser E))
      as (nfas & bytecode & Ecreate & Ecompile & Hcorrect).
    exists bytecode. rewrite Ecreate. run_option. rewrite Ecompile. run_option. by split.
Qed.

End Correct.

(** ** An example

    [^a] blocks the load, and [.*] the cookies of first-party loads. *)

Definition start_a : regex := mkRegex true [(RChar 97, One)] false.
Definition everything : regex := mkRegex false [(RAny, ZeroOrMore)] false.

(** YARR on the two filters. *)
Definition two_filters_yarr : Yarr := {|
  quantifyInfinite := max32;
  NewlineClassID := 3;
  yarr_parse := fun text => (@regex_events (example_yarr []) (if bool_decide (text = [94; 97]) then start_a else everything), true);
  quantifyInfinite_large := eq_refl
|}.

Definition two_rules : list ContentExtensionRule :=
  [mkRule (mkTrigger (String8 [94; 97]) true 0) (Action_plain BlockLoad max32);
   mkRule (mkTrigger (String8 [46; 42]) false 1024) (Action_plain BlockCookies max32)].

Definition two_rules_jsc : JSC := checked_jsc (fun _ => Some (json_rules two_rules)).

(** A check of the limits of an automaton none of whose nodes has both a fallback and a transition at the
    end of the URL. *)
Definition dfa_within_b (dfa : DFA) : bool :=
  (N.of_nat (length (transitions dfa)) <? 2 ^ 32) && (N.of_nat (length (actions dfa)) + max16 <? 2 ^ 32) &&
  (128 * N.of_nat (length (nodes dfa)) <? 2 ^ 32) && compilable_b dfa &&
  forallb (fun i => match nodes dfa !!N i with
                    | Some node => negb (gap (node_view dfa node)) &&
                        (negb (hasFallbackTransition node) || negb (bool_decide (is_Some (dfa_step dfa i 0))))
                    | None => true
                    end) (for_range 0 (N.of_nat (length (nodes dfa)))).

Lemma dfa_within_b_spec dfa : dfa_within_b dfa = true -> dfa_within dfa.
Proof.
  unfold dfa_within_b. intros [[[[Ht Ha]%andb_true_iff Hn]%andb_true_iff Hc]%andb_true_iff Hall]%andb_true_iff.
  apply compilable_b_spec in Hc as [_ Hnul]. rewrite forallb_forall in Hall.
  assert (forall i node, nodes dfa !!N i = Some node -> gap (node_view dfa node) = false /\
    (hasFallbackTransition node = true -> dfa_step dfa i 0 = None)) as Hnode.
  { intros i node Hi. specialize (Hall i). rewrite Hi in Hall. destruct (proj1 (andb_true_iff _ _) (Hall ltac:(apply list_elem_of_In, elem_of_for_range; apply lookupN_lt in Hi; lia))) as [Hg Hf].
    split; [by apply negb_true_iff|]. intros Hfb. rewrite Hfb in Hf. cbn [negb orb] in Hf.
    apply negb_true_iff, bool_decide_eq_false in Hf. by apply eq_None_not_Some. }
  split; [by apply N.ltb_lt|by apply N.ltb_lt|by apply N.ltb_lt| | |done].
  - intros i node Hi. by apply (Hnode i).
  - intros i node t f Hi Hf Hstep _. destruct (Hnode i node Hi) as [_ Hnone]. by rewrite Hnone in Hstep.
Qed.

Definition two_rules_state := compile_rules (H0 := two_filters_yarr) [0; 1] 0 two_rules (mkCompileState [] newCombinedURLFilters false).

Lemma two_rules_limits s : two_rules_state = Some (inr s) -> within_limits (H := insertion_order) 100 s.
Proof.
  intros Hs. vm_compute in Hs. injection Hs as <-. split.
  - by vm_compute.
  - cbn. lia.
  - intros nfas Hn. vm_compute in Hn. injection Hn as <-. constructor; [|constructor]. split; [cbn; lia|].
    eexists. split; [vm_compute; reflexivity|]. apply dfa_within_b_spec. by vm_compute.
  - intros nfas dfas Hn. vm_compute in Hn. injection Hn as <-. intros Hd. vm_compute in Hd. injection Hd as <-. by vm_compute.
Qed.

Lemma two_rules_filters : Forall2 (filter_of (H := two_filters_yarr)) two_rules [start_a; everything].
Proof.
  constructor; [|constructor; [|constructor]]; split; try reflexivity; try discriminate; repeat constructor; by vm_compute.
Qed.

