(* ===== verification/URLCharacters.v ===== *)
(** * [WebCore/platform/URL.cpp]: the classes of the characters and the escaping

    A character is a byte; the tables give the classes of the 256 bytes. *)

From S2P Require Import Prelude ASCII WTFString.

(** ** The classes *)

(** WebCore/platform/URL.cpp:81-107 [URLCharacterClasses] *)
Definition SchemeFirstChar : N := 1.
Definition SchemeChar : N := 2.
Definition UserInfoChar : N := 4.
Definition HostnameChar : N := 8.
Definition IPv6Char : N := 16.
Definition PathSegmentEndChar : N := 32.
Definition BadChar : N := 64.

(** WebCore/platform/URL.cpp:109-234 [characterClassTable] *)
Definition characterClassTable : list N :=
  [
   32; 64; 64; 64; 64; 64; 64; 64; 64; 64; 64; 64; 64; 64; 64; 64;
   64; 64; 64; 64; 64; 64; 64; 64; 64; 64; 64; 64; 64; 64; 64; 64;
   64; 4; 64; 96; 4; 92; 4; 4; 4; 4; 4; 6; 4; 14; 30; 32;
   30; 30; 30; 30; 30; 30; 30; 30; 30; 30; 20; 4; 64; 4; 64; 96;
   0; 31; 31; 31; 31; 31; 31; 15; 15; 15; 15; 15; 15; 15; 15; 15;
   15; 15; 15; 15; 15; 15; 15; 15; 15; 15; 15; 0; 0; 0; 0; 12;
   0; 31; 31; 31; 31; 31; 31; 15; 15; 15; 15; 15; 15; 15; 15; 15;
   15; 15; 15; 15; 15; 15; 15; 15; 15; 15; 15; 0; 0; 0; 4; 64;
   64; 64; 64; 64; 64; 64; 64; 64; 64; 64; 64; 64; 64; 64; 64; 64;
   64; 64; 64; 64; 64; 64; 64; 64; 64; 64; 64; 64; 64; 64; 64; 64;
   64; 64; 64; 64; 64; 64; 64; 64; 64; 64; 64; 64; 64; 64; 64; 64;
   64; 64; 64; 64; 64; 64; 64; 64; 64; 64; 64; 64; 64; 64; 64; 64;
   64; 64; 64; 64; 64; 64; 64; 64; 64; 64; 64; 64; 64; 64; 64; 64;
   64; 64; 64; 64; 64; 64; 64; 64; 64; 64; 64; 64; 64; 64; 64; 64;
   64; 64; 64; 64; 64; 64; 64; 64; 64; 64; 64; 64; 64; 64; 64; 64;
   64; 64; 64; 64; 64; 64; 64; 64; 64; 64; 64; 64; 64; 64; 64; 64
  ].

(** WebCore/platform/URL.cpp:236-242 [PercentEncodeCharacterClass] *)
Definition PercentEncodeSimple : N := 255.
Definition PercentEncodeDefault : N := 127.
Definition PercentEncodePassword : N := 63.
Definition PercentEncodeUsername : N := 31.

(** WebCore/platform/URL.cpp:244-336 [percentEncodeClassTable] *)
Definition percentEncodeClassTable : list N :=
  [
   255; 255; 255; 255; 255; 255; 255; 255; 255; 255; 255; 255; 255; 255; 255; 255;
   255; 255; 255; 255; 255; 255; 255; 255; 255; 255; 255; 255; 255; 255; 255; 255;
   127; 0; 127; 127; 0; 0; 0; 0; 0; 0; 0; 0; 0; 0; 0; 63;
   0; 0; 0; 0; 0; 0; 0; 0; 0; 0; 31; 0; 127; 0; 127; 127;
   63; 0; 0; 0; 0; 0; 0; 0; 0; 0; 0; 0; 0; 0; 0; 0;
   0; 0; 0; 0; 0; 0; 0; 0; 0; 0; 0; 0; 63; 0; 0; 0;
   127; 0; 0; 0; 0; 0; 0; 0; 0; 0; 0; 0; 0; 0; 0; 0;
   0; 0; 0; 0; 0; 0; 0; 0; 0; 0; 0; 0; 0; 0; 0; 255;
   255; 255; 255; 255; 255; 255; 255; 255; 255; 255; 255; 255; 255; 255; 255; 255;
   255; 255; 255; 255; 255; 255; 255; 255; 255; 255; 255; 255; 255; 255; 255; 255;
   255; 255; 255; 255; 255; 255; 255; 255; 255; 255; 255; 255; 255; 255; 255; 255;
   255; 255; 255; 255; 255; 255; 255; 255; 255; 255; 255; 255; 255; 255; 255; 255;
   255; 255; 255; 255; 255; 255; 255; 255; 255; 255; 255; 255; 255; 255; 255; 255;
   255; 255; 255; 255; 255; 255; 255; 255; 255; 255; 255; 255; 255; 255; 255; 255;
   255; 255; 255; 255; 255; 255; 255; 255; 255; 255; 255; 255; 255; 255; 255; 255;
   255; 255; 255; 255; 255; 255; 255; 255; 255; 255; 255; 255; 255; 255; 255; 255
  ].

(** [characterClassTable[c] & bit], of an unsigned character. *)
Definition in_class (bit c : N) : bool := negb (N.land (default 0 (characterClassTable !!N c)) bit =? 0).

(** WebCore/platform/URL.cpp:342-343 [isSchemeFirstChar] *)
Definition isSchemeFirstChar (c : N) : bool := (c <=? 255) && in_class SchemeFirstChar c.

(** WebCore/platform/URL.cpp:344-345 [isSchemeChar] *)
Definition isSchemeChar (c : N) : bool := (c <=? 255) && in_class SchemeChar c.

(** WebCore/platform/URL.cpp:346-346 [isUserInfoChar] *)
Definition isUserInfoChar (c : N) : bool := in_class UserInfoChar c.

(** WebCore/platform/URL.cpp:347-347 [isHostnameChar] *)
Definition isHostnameChar (c : N) : bool := in_class HostnameChar c.

(** WebCore/platform/URL.cpp:348-348 [isIPv6Char] *)
Definition isIPv6Char (c : N) : bool := in_class IPv6Char c.

(** WebCore/platform/URL.cpp:349-350 [isPathSegmentEndChar] *)
Definition isPathSegmentEndChar (c : N) : bool := (c <=? 255) && in_class PathSegmentEndChar c.

(** WebCore/platform/URL.cpp:351-351 [isBadChar] *)
Definition isBadChar (c : N) : bool := in_class BadChar c.

(** WebCore/platform/URL.cpp:57-61 [isLetterMatchIgnoringCase] *)
Definition isLetterMatchIgnoringCase (character lowercaseLetter : N) : bool := N.lor character 32 =? lowercaseLetter.

(** WebCore/platform/URL.cpp:353-359 [isSchemeCharacterMatchIgnoringCase] *)
Definition isSchemeCharacterMatchIgnoringCase (character schemeCharacter : N) : bool :=
  N.lor character 32 =? schemeCharacter.

(** ** Escaping *)

(** WTF/wtf/HexNumber.h:61-66 [placeByteAsHex], with upper case digits *)
Definition placeByteAsHex (byte : N) : list N :=
  let hexDigits := lit "0123456789ABCDEF" in
  [hexDigits !!! N.to_nat (N.shiftr byte 4); hexDigits !!! N.to_nat (N.land byte 15)].

(** WebCore/platform/URL.cpp:979-983 [appendEscapedChar] *)
Definition escapedChar (c : N) : list N := 37 :: placeByteAsHex c.

(** WebCore/platform/URL.cpp:992-999 [appendEscapingBadChars], one character *)
Definition escape_bad_char (c : N) : list N :=
  if isBadChar c then
    if (c =? 37) || (c =? 63) then [c]
    else if negb (c =? 9) && negb (c =? 10) && negb (c =? 13) then escapedChar c else []
  else [c].

(** WebCore/platform/URL.cpp:985-1003 [appendEscapingBadChars], what is appended *)
Definition escapingBadChars (str : list N) : list N := str ≫= escape_bad_char.

(** WebCore/platform/URL.cpp:1012-1023 [escapeAndAppendNonHierarchicalPart], one character *)
Definition escape_opaque_char (c : N) : list N :=
  if (c =? 9) || (c =? 10) || (c =? 13) then []
  else if (c <? 32) || (127 <=? c) then escapedChar c
  else [c].

(** WebCore/platform/URL.cpp:1005-1028 [escapeAndAppendNonHierarchicalPart], what is appended *)
Definition escapedNonHierarchicalPart (str : list N) : list N := str ≫= escape_opaque_char.
