(* ===== verification/StringOps.v ===== *)
(** * [WTF/wtf/text]: parts, case and numbers of strings

    What [URL] and [SecurityOrigin] use of [String] and [StringImpl].  What ICU
    says of the characters outside of ASCII is the interface [ICU]. *)

From S2P Require Import Prelude ASCII WTFString.

(** The functions of ICU; the ones on a character agree with ASCII there. *)
Class ICU := {
  u_tolower : N -> N;
  u_foldCase : N -> N;
  u_strToLower : list N -> option (list N);
  u_memcasecmp_equal : list N -> list N -> bool;
  u_isWhiteSpace : N -> bool;
  u_tolower_latin1 : forall c, c < 256 -> u_tolower c < 256;
  u_foldCase_ascii : forall c, c < 128 -> u_foldCase c = toASCIILower c;
  u_memcasecmp_ascii : forall l k, Forall (fun c => c < 128) l -> Forall (fun c => c < 128) k ->
    u_memcasecmp_equal l k = true <-> toASCIILower <$> l = toASCIILower <$> k
}.

(** The difference of two [unsigned]. *)
Definition sub32 (a b : N) : N := wrap32 (a + 2 ^ 32 - b).

(** ** Parts *)

(** WTF/wtf/text/StringImpl.cpp:335-350 [StringImpl::substring] *)
Definition impl_substring (impl : StringImpl) (start length_ : N) : StringImpl :=
  let m_length := N.of_nat (length (impl_chars impl)) in
  if m_length <=? start then StringImpl_empty
  else
    let maxLength := m_length - start in
    if (maxLength <=? length_) && (start =? 0) then impl
    else
      let length_ := if maxLength <=? length_ then maxLength else length_ in
      if length_ =? 0 then StringImpl_empty
      else mkImpl (impl_is8Bit impl) (take (N.to_nat length_) (drop (N.to_nat start) (impl_chars impl))).

(** WTF/wtf/text/WTFString.cpp:318-323 [String::substring] *)
Definition String_substring (s : WTFString) (pos len : N) : WTFString :=
  match s with None => None | Some impl => Some (impl_substring impl pos len) end.

(** WTF/wtf/text/WTFString.h:330-330 [String::left] *)
Definition String_left (s : WTFString) (len : N) : WTFString := String_substring s 0 len.

(** WTF/wtf/text/StringCommon.h:380-398 [endsWith], and [StringImpl::endsWith], [String::endsWith] *)
Definition String_endsWith (s suffix : WTFString) : bool :=
  match s, suffix with
  | None, _ => String_isEmpty suffix
  | Some _, None => false
  | Some reference, Some suffix =>
      let suffixLength := length (impl_chars suffix) in
      let referenceLength := length (impl_chars reference) in
      if (referenceLength <? suffixLength)%nat then false
      else bool_decide (take suffixLength (drop (referenceLength - suffixLength) (impl_chars reference)) = impl_chars suffix)
  end.

(** ** Searching, replacing and joining *)

(** WTF/wtf/text/StringImpl.h:951-959 [find], from an index; [None] is [notFound] *)
Fixpoint find_from (characters : list N) (matchCharacter index : N) : option N :=
  match characters with
  | [] => None
  | c :: characters => if c =? matchCharacter then Some index else find_from characters matchCharacter (index + 1)
  end.

(** WTF/wtf/text/StringImpl.h:1078-1083 [StringImpl::find], and [String::find] *)
Definition String_find (s : WTFString) (c : N) : option N :=
  match s with None => None | Some impl => find_from (impl_chars impl) c 0 end.

(** WTF/wtf/text/WTFString.h:262-262 [String::contains] *)
Definition String_contains (s : WTFString) (c : N) : bool := match String_find s c with Some _ => true | None => false end.

(** WTF/wtf/text/StringImpl.h:1041-1052 [reverseFind], from the end, and [String::reverseFind] *)
Definition String_reverseFind (s : WTFString) (c : N) : option N :=
  let chars := String_chars s in
  (fun i => N.of_nat (length chars) - 1 - i) <$> find_from (rev chars) c 0.

(** WTF/wtf/text/StringImpl.cpp:1516-1575 [StringImpl::replace], of a character by one of 8 bits *)
Definition impl_replace (impl : StringImpl) (oldC newC : N) : StringImpl :=
  if oldC =? newC then impl
  else match find_from (impl_chars impl) oldC 0 with
       | None => impl
       | Some _ => mkImpl (impl_is8Bit impl) ((fun ch => if ch =? oldC then newC else ch) <$> impl_chars impl)
       end.

(** WTF/wtf/text/WTFString.h:572-581 [String::containsOnlyASCII] *)
Definition String_containsOnlyASCII (s : WTFString) : bool :=
  if String_isEmpty s then true else forallb (fun c => c <? 128) (String_chars s).

(** [StringTypeAdapter<String>::is8Bit] *)
Definition adapter_is8Bit (s : WTFString) : bool := match s with None => true | Some impl => impl_is8Bit impl end.

(** WTF/wtf/text/StringConcatenate.h:258-295 [tryMakeString], and [makeString], which crashes on
    null: the sum of the parts *)
Definition String_concat (parts : list WTFString) : option WTFString :=
  String_create (if forallb adapter_is8Bit parts then LChar else UChar) (parts ≫= String_chars).

(** ** Case *)

(** WTF/wtf/text/StringImpl.cpp:2245-2262 [StringImpl::latin1CaseFoldTable]: the capital letters
    of Latin-1, but for the multiplication sign, become small, and the micro sign a Greek letter *)
Definition latin1CaseFoldTable (c : N) : N :=
  if ((65 <=? c) && (c <=? 90)) || ((192 <=? c) && (c <=? 222) && negb (c =? 215)) then c + 32
  else if c =? 181 then 956
  else c.

Section Case.
Context `{ICU}.

(** WTF/wtf/text/StringImpl.cpp:362-441 [StringImpl::lower]; a 16-bit string is too short for the
    [CRASH], by the limit on its size *)
Definition impl_lower (impl : StringImpl) : StringImpl :=
  if impl_is8Bit impl then
    mkImpl true ((fun c => if c <? 128 then toASCIILower c else wrap8 (u_tolower c)) <$> impl_chars impl)
  else if forallb (fun c => c <? 128) (impl_chars impl) then mkImpl false (toASCIILower <$> impl_chars impl)
  else match u_strToLower (impl_chars impl) with Some chars => mkImpl false chars | None => impl end.

(** WTF/wtf/text/WTFString.cpp:346-351 [String::lower] *)
Definition String_lower (s : WTFString) : WTFString := impl_lower <$> s.

(** The folding of a character of a string with this width. *)
Definition fold_char (is8Bit : bool) (c : N) : N := if is8Bit then latin1CaseFoldTable c else u_foldCase c.

(** WTF/wtf/text/StringImpl.cpp:2031-2052 [equalIgnoringCaseNonNull]; ICU compares two 16-bit strings *)
Definition equalIgnoringCaseNonNull (a b : StringImpl) : bool :=
  if negb (length (impl_chars a) =? length (impl_chars b))%nat then false
  else if negb (impl_is8Bit a) && negb (impl_is8Bit b) then u_memcasecmp_equal (impl_chars a) (impl_chars b)
  else bool_decide (fold_char (impl_is8Bit a) <$> impl_chars a = fold_char (impl_is8Bit b) <$> impl_chars b).

(** WTF/wtf/text/StringImpl.cpp:1967-1975 [equalIgnoringCase] *)
Definition equalIgnoringCase (a b : WTFString) : bool :=
  match a, b with
  | None, None => true
  | Some a, Some b => equalIgnoringCaseNonNull a b
  | _, _ => false
  end.

(** WTF/wtf/text/StringImpl.cpp:1446-1452 [StringImpl::startsWith], a literal without regard to case, and
    [String::startsWith] *)
Definition startsWithIgnoringCase (s : WTFString) (literal : list N) : bool :=
  match s with
  | None => false
  | Some impl =>
      if (length (impl_chars impl) <? length literal)%nat then false
      else bool_decide (fold_char (impl_is8Bit impl) <$> take (length literal) (impl_chars impl) = latin1CaseFoldTable <$> literal)
  end.

(** ** Numbers *)

(** WTF/wtf/ASCIICType.h:124-127 [isASCIISpace] *)
Definition isASCIISpace (c : N) : bool := (c <=? 32) && ((c =? 32) || ((c <=? 13) && (9 <=? c))).

(** WTF/wtf/text/StringImpl.h:1145-1150 [isSpaceOrNewline] *)
Definition isSpaceOrNewline (c : N) : bool :=
  if c <=? 127 then isASCIISpace c else u_isWhiteSpace c.

(** WTF/wtf/text/WTFString.cpp:875-888 [isCharacterAllowedInBase] *)
Definition isCharacterAllowedInBase (c base : N) : bool :=
  if 127 <? c then false
  else if isASCIIDigit c then c - 48 <? base
  else if isASCIIAlpha c then
    let base := if 36 <? base then 36 else base in
    ((97 <=? c) && (c <? 97 + base - 10)) || ((65 <=? c) && (c <? 65 + base - 10))
  else false.

(** WTF/wtf/text/WTFString.cpp:905-908 [toIntegralType]: the loop that skips space, the same as the one at the end *)
Fixpoint skip_space (data : list N) : list N :=
  match data with c :: rest => if isSpaceOrNewline c then skip_space rest else data | [] => [] end.

(** WTF/wtf/text/WTFString.cpp:922-938 [toIntegralType]: the loop over the digits, for [unsigned]; [None]
    is the jump to [bye] *)
Fixpoint integral_digits (base value : N) (data : list N) : option (N * list N) :=
  match data with
  | c :: rest =>
      if isCharacterAllowedInBase c base then
        let digitValue := if isASCIIDigit c then c - 48 else if 97 <=? c then c - 97 + 10 else c - 65 + 10 in
        let maxMultiplier := max32 / base in
        if (maxMultiplier <? value) || ((value =? maxMultiplier) && (max32 mod base <? digitValue)) then None
        else integral_digits base (wrap32 (base * value + digitValue)) rest
      else Some (value, data)
  | [] => Some (value, [])
  end.

(** WTF/wtf/text/WTFString.cpp:890-964 [toIntegralType], for [unsigned]: the value and [ok] *)
Definition toIntegralType (data : list N) (base : N) : N * bool :=
  let data := skip_space data in
  let data := match data with c :: rest => if c =? 43 then rest else data | [] => [] end in
  match data with
  | [] => (0, false)
  | c :: _ =>
      if isCharacterAllowedInBase c base then
        match integral_digits base 0 data with
        | None => (0, false)
        | Some (value, rest) => match skip_space rest with [] => (value, true) | _ => (0, false) end
        end
      else (0, false)
  end.

(** WTF/wtf/text/WTFString.cpp:1000-1008 [charactersToUIntStrict] *)
Definition charactersToUIntStrict (data : list N) : N * bool := toIntegralType data 10.
End Case.
