(* ===== verification/URL.v ===== *)
(** * [WebCore/platform/URL.h] and [URL.cpp]

    A [URL] is a string with the ends of its parts.  [parse] reads a
    null-terminated buffer: a list of bytes stands for the buffer before its
    terminator, and [None] is a read behind the terminator or a write behind the
    end of the output buffer.  The ends are [int]s that are never negative. *)

From S2P Require Import Prelude ASCII WTFString StringOps URLCharacters.

(** ** Data *)

(** WebCore/platform/URL.h:211-224 [URL] *)
Record URL := mkURL {
  m_string : WTFString;
  m_isValid : bool;
  m_protocolIsInHTTPFamily : bool;
  m_schemeEnd : N;
  m_userStart : N;
  m_userEnd : N;
  m_passwordEnd : N;
  m_hostEnd : N;
  m_portEnd : N;
  m_pathAfterLastSlash : N;
  m_pathEnd : N;
  m_queryEnd : N;
  m_fragmentEnd : N
}.

(** WebCore/platform/URL.cpp:416-430 [URL::invalidate], with the string *)
Definition invalidate (string : WTFString) : URL := mkURL string false false 0 0 0 0 0 0 0 0 0 0.

(** WebCore/platform/URL.h:56-56 [URL::URL] *)
Definition emptyURL : URL := invalidate None.

(** ** Accessors *)

(** WebCore/platform/URL.h:333-336 [URL::hasPath] *)
Definition hasPath (url : URL) : bool := negb (m_pathEnd url =? m_portEnd url).

(** WebCore/platform/URL.h:338-341 [URL::hasPort] *)
Definition hasPort (url : URL) : bool := m_hostEnd url <? m_portEnd url.

(** WebCore/platform/URL.h:348-351 [URL::hostStart] *)
Definition hostStart (url : URL) : N :=
  if m_passwordEnd url =? m_userStart url then m_passwordEnd url else m_passwordEnd url + 1.

(** WebCore/platform/URL.cpp:675-678 [URL::protocol] *)
Definition protocol (url : URL) : WTFString := String_left (m_string url) (m_schemeEnd url).

(** WebCore/platform/URL.cpp:680-684 [URL::host] *)
Definition host (url : URL) : WTFString :=
  String_substring (m_string url) (hostStart url) (sub32 (m_hostEnd url) (hostStart url)).

(** WebCore/platform/URL.cpp:51-52 [maximumValidPortNumber], [invalidPortNumber] *)
Definition maximumValidPortNumber : N := 65534.
Definition invalidPortNumber : N := 65535.

Section Accessors.
Context `{ICU}.

(** WebCore/platform/URL.cpp:686-704 [URL::port]; [None] reads outside of the string *)
Definition port (url : URL) : option N :=
  if (m_hostEnd url =? m_portEnd url) || (m_hostEnd url + 1 =? m_portEnd url) then Some 0
  else
    let chars := String_chars (m_string url) in
    if (m_portEnd url <? m_hostEnd url) || (N.of_nat (length chars) <? m_portEnd url) then None
    else
      let '(number, ok) := charactersToUIntStrict
        (take (N.to_nat (m_portEnd url - m_hostEnd url - 1)) (drop (N.to_nat (m_hostEnd url + 1)) chars)) in
      if negb ok || (maximumValidPortNumber <? number) then Some invalidPortNumber else Some number.
End Accessors.

(** WebCore/platform/URL.cpp:718-721 [URL::encodedUser] *)
Definition encodedUser (url : URL) : WTFString :=
  String_substring (m_string url) (m_userStart url) (sub32 (m_userEnd url) (m_userStart url)).

(** WebCore/platform/URL.cpp:723-729 [URL::encodedPass] *)
Definition encodedPass (url : URL) : WTFString :=
  if m_passwordEnd url =? m_userEnd url then None
  else String_substring (m_string url) (m_userEnd url + 1) (sub32 (sub32 (m_passwordEnd url) (m_userEnd url)) 1).

(** WebCore/platform/URL.cpp:731-737 [URL::fragmentIdentifier] *)
Definition fragmentIdentifier (url : URL) : WTFString :=
  if m_fragmentEnd url =? m_queryEnd url then None
  else String_substring (m_string url) (m_queryEnd url + 1) (sub32 (m_fragmentEnd url) (m_queryEnd url + 1)).

(** WebCore/platform/URL.cpp:739-742 [URL::hasFragmentIdentifier] *)
Definition hasFragmentIdentifier (url : URL) : bool := negb (m_fragmentEnd url =? m_queryEnd url).

(** WebCore/platform/URL.cpp:744-747 [URL::baseAsString] *)
Definition baseAsString (url : URL) : WTFString := String_left (m_string url) (m_pathAfterLastSlash url).

(** WebCore/platform/URL.cpp:797-803 [URL::query] *)
Definition query (url : URL) : WTFString :=
  if m_queryEnd url =? m_pathEnd url then None
  else String_substring (m_string url) (m_pathEnd url + 1) (sub32 (m_queryEnd url) (m_pathEnd url + 1)).

(** WebCore/platform/URL.cpp:805-808 [URL::path] *)
Definition path (url : URL) : WTFString :=
  String_substring (m_string url) (m_portEnd url) (sub32 (m_pathEnd url) (m_portEnd url)).

(** WebCore/platform/URL.cpp:778-796 [URL::protocolIs]; the literal has no null character *)
Definition protocolIs (url : URL) (protocol : list N) : bool :=
  if negb (m_isValid url) then false
  else
    forallb (fun i => match protocol !!N i with
                      | Some c => isSchemeCharacterMatchIgnoringCase (String_at (m_string url) i) c
                      | None => false
                      end) (for_range 0 (m_schemeEnd url))
    && (N.of_nat (length protocol) =? m_schemeEnd url).

(** WebCore/platform/URL.h:129-129 [URL::protocolIsData] *)
Definition protocolIsData (url : URL) : bool := protocolIs url (lit "data").

(** WebCore/platform/URL.cpp:1867-1873 [URL::isHierarchical] *)
Definition isHierarchical (url : URL) : bool :=
  m_isValid url && (String_at (m_string url) (m_schemeEnd url + 1) =? 47).

(** WebCore/platform/URL.cpp:1883-1893 [protocolIs], of a string *)
Fixpoint string_protocolIs (chars protocol : list N) {struct protocol} : bool :=
  match protocol with
  | [] => match chars with c :: _ => c =? 58 | [] => false end
  | p :: protocol =>
      match chars with
      | c :: chars => isLetterMatchIgnoringCase c p && string_protocolIs chars protocol
      | [] => isLetterMatchIgnoringCase 0 p && string_protocolIs [] protocol
      end
  end.

(** WebCore/platform/URL.cpp:1895-1908 [isValidProtocol] *)
Definition isValidProtocol (chars : list N) : bool :=
  match chars with
  | [] => false
  | first :: rest => isSchemeFirstChar first && forallb isSchemeChar rest
  end.
