(* ===== verification/URLParse.v ===== *)
(** * [URL::parse], in [WebCore/platform/URL.cpp]

    The parser first finds the ends of the parts in the input, then writes the
    parts to a buffer of three times their size, lowering and escaping
    characters.  The positions in the input and the size of the buffer are of
    type [int].  [None] is a read behind the terminator of the input, a read
    before the start of a buffer, a write behind its end, or an [int] that
    overflows. *)

From S2P Require Import Prelude ASCII WTFString StringOps URLCharacters URL.

(** ** The input *)

(** The bytes of the input and its terminator. *)
Definition memory (url : list N) : list N := url ++ [0].

(** The largest [int]. *)
Notation int_max := 2147483647.

(** [url[index]], where the index is an [int]: every position that [parse] counts up to is read this
    way before it is used, but for the end of the fragment, which [assemble] tests. *)
Definition char_at (url : list N) (index : N) : option N := if index <=? int_max then memory url !!N index else None.

(** [while (p(url[i])) i++] *)
Fixpoint scan_from (p : N -> bool) (rest : list N) (i : N) : option N :=
  match rest with [] => None | c :: rest => if p c then scan_from p rest (i + 1) else Some i end.

Definition scan (p : N -> bool) (url : list N) (i : N) : option N := scan_from p (drop (N.to_nat i) (memory url)) i.

(** The letters from [rest] on, compared one after the other without regard to case. *)
Fixpoint match_letters (rest letters : list N) {struct letters} : option bool :=
  match letters with
  | [] => Some true
  | l :: letters =>
      match rest with
      | [] => None
      | c :: rest => if isLetterMatchIgnoringCase c l then match_letters rest letters else Some false
      end
  end.

Definition letters_at (url : list N) (i : N) (letters : list N) : option bool :=
  match_letters (drop (N.to_nat i) (memory url)) letters.

(** The bytes of the input from [first] to [last]. *)
Definition slice (url : list N) (first last : N) : option (list N) :=
  if last <=? first then Some []
  else if N.of_nat (length (memory url)) <? last then None
  else Some (take (N.to_nat (last - first)) (drop (N.to_nat first) (memory url))).

(** ** Schemes and ports *)

(** WebCore/platform/URL.cpp:1113-1130 [equal]: the characters of [a] start with those of the array *)
Definition equal_chars (a b : list N) : bool := bool_decide (take (length b) a = b).

(** WebCore/platform/URL.cpp:1132-1136 [equal] *)
Definition equal_length_chars (stringA : list N) (stringB : list N) : bool :=
  bool_decide (length stringA = length stringB) && equal_chars stringA stringB.

(** WebCore/platform/URL.cpp:1140-1161 [isDefaultPortForScheme] *)
Definition isDefaultPortForScheme (port scheme : list N) (schemeLength : N) : bool :=
  match schemeLength with
  | 2 => equal_chars scheme (lit "ws") && equal_length_chars port (lit "80")
  | 3 =>
      if equal_chars scheme (lit "ftp") then equal_length_chars port (lit "21")
      else if equal_chars scheme (lit "wss") then equal_length_chars port (lit "443")
      else false
  | 4 => equal_chars scheme (lit "http") && equal_length_chars port (lit "80")
  | 5 => equal_chars scheme (lit "https") && equal_length_chars port (lit "443")
  | 6 => equal_chars scheme (lit "gopher") && equal_length_chars port (lit "70")
  | _ => false
  end.

(** WebCore/platform/URL.cpp:1168-1183 [isNonFileHierarchicalScheme] *)
Definition isNonFileHierarchicalScheme (scheme : list N) (schemeLength : N) : bool :=
  match schemeLength with
  | 2 => equal_chars scheme (lit "ws")
  | 3 => equal_chars scheme (lit "ftp") || equal_chars scheme (lit "wss")
  | 4 => equal_chars scheme (lit "http")
  | 5 => equal_chars scheme (lit "https")
  | 6 => equal_chars scheme (lit "gopher")
  | _ => false
  end.

(** WebCore/platform/URL.cpp:1185-1200 [isCanonicalHostnameLowercaseForScheme] *)
Definition isCanonicalHostnameLowercaseForScheme (scheme : list N) (schemeLength : N) : bool :=
  match schemeLength with
  | 2 => equal_chars scheme (lit "ws")
  | 3 => equal_chars scheme (lit "ftp") || equal_chars scheme (lit "wss")
  | 4 => equal_chars scheme (lit "http") || equal_chars scheme (lit "file")
  | 5 => equal_chars scheme (lit "https")
  | 6 => equal_chars scheme (lit "gopher")
  | _ => false
  end.

(** WebCore/platform/URL.cpp:1246-1250 [URL::parse], and the same test in [protocolIsInHTTPFamily] *)
Definition http_family (url : list N) : option bool :=
  http ← letters_at url 0 (lit "http");
  if (http : bool) then
    c ← char_at url 4;
    if c =? 58 then Some true
    else if isLetterMatchIgnoringCase c 115 then c ← char_at url 5; Some (c =? 58)
    else Some false
  else Some false.

(** ** The authority *)

(** The local variables of [parse] for the authority. *)
Record Authority := mkAuthority {
  userStart : N;
  userEnd : N;
  passwordStart : N;
  passwordEnd : N;
  au_hostStart : N;
  hostEnd : N;
  portStart : N;
  portEnd : N
}.

(** WebCore/platform/URL.cpp:1256-1266 [URL::parse], the start of the authority *)
Definition authority_start (url : list N) (schemeEnd : N) (hierarchical hasSecondSlash : bool) : option N :=
  let userStart := schemeEnd + 1 in
  if (hierarchical : bool) then
    let userStart := userStart + 1 in
    if (hasSecondSlash : bool) then
      let userStart := userStart + 1 in
      if isNonFileHierarchicalScheme (memory url) schemeEnd then scan (fun c => c =? 47) url userStart
      else Some userStart
    else Some userStart
  else Some userStart.

(** WebCore/platform/URL.cpp:1270-1275 [URL::parse], the loop over the user info: its end and the place of
    its first colon *)
Fixpoint scan_user (rest : list N) (userEnd colonPos : N) : option (N * N) :=
  match rest with
  | [] => None
  | c :: rest =>
      if isUserInfoChar c then scan_user rest (userEnd + 1) (if (c =? 58) && (colonPos =? 0) then userEnd else colonPos)
      else Some (userEnd, colonPos)
  end.

(** WebCore/platform/URL.cpp:1268-1299 [URL::parse], the user and the password, and the start of the
    host; no value when the input is invalid *)
Definition parse_user (url : list N) (userStart : N) : option (option (N * N * N * N)) :=
  r ← scan_user (drop (N.to_nat userStart) (memory url)) userStart 0;
  let '(userEnd, colonPos) := r in
  c ← char_at url userEnd;
  if c =? 64 then
    if negb (colonPos =? 0) then Some (Some (colonPos, colonPos + 1, userEnd, userEnd + 1))
    else Some (Some (userEnd, userEnd, userEnd, userEnd + 1))
  else if (c =? 91) || isPathSegmentEndChar c then Some (Some (userStart, userStart, userStart, userStart))
  else Some None.

(** WebCore/platform/URL.cpp:1301-1319 [URL::parse], the end of the host *)
Definition parse_host (url : list N) (hostStart : N) : option (option N) :=
  c ← char_at url hostStart;
  if c =? 91 then
    hostEnd ← scan isIPv6Char url (hostStart + 1);
    c ← char_at url hostEnd;
    if c =? 93 then Some (Some (hostEnd + 1)) else Some None
  else hostEnd ← scan isHostnameChar url hostStart; Some (Some hostEnd).

(** WebCore/platform/URL.cpp:1321-1329 [URL::parse], the start and the end of the port *)
Definition parse_port (url : list N) (hostEnd : N) : option (N * N) :=
  c ← char_at url hostEnd;
  if c =? 58 then portEnd ← scan isASCIIDigit url (hostEnd + 1); Some (hostEnd + 1, portEnd)
  else Some (hostEnd, hostEnd).

(** WebCore/platform/URL.cpp:1163-1166 [hostPortIsEmptyButCredentialsArePresent] *)
Definition hostPortIsEmptyButCredentialsArePresent (hostStart portEnd userinfoEndChar : N) : bool :=
  (userinfoEndChar =? 64) && (hostStart =? portEnd).

(** All the ends are the same. *)
Definition no_authority (position : N) : Authority :=
  mkAuthority position position position position position position position position.

(** WebCore/platform/URL.cpp:1252-1362 [URL::parse]: the authority *)
Definition parse_authority (url : list N) (schemeEnd : N) (hierarchical hasSecondSlash isFile isHTTP : bool)
    : option (option Authority) :=
  if (hierarchical && hasSecondSlash) || isNonFileHierarchicalScheme (memory url) schemeEnd then
    userStart ← authority_start url schemeEnd hierarchical hasSecondSlash;
    user ← parse_user url userStart;
    match user with
    | None => Some None
    | Some (userEnd, passwordStart, passwordEnd, hostStart) =>
        host ← parse_host url hostStart;
        match host with
        | None => Some None
        | Some hostEnd =>
            r ← parse_port url hostEnd;
            let '(portStart, portEnd) := r in
            c ← char_at url portEnd;
            if negb (isPathSegmentEndChar c) then Some None
            else
              userinfoEnd ← char_at url passwordEnd;
              if hostPortIsEmptyButCredentialsArePresent hostStart portEnd userinfoEnd then Some None
              else if (userStart =? portEnd) && negb isHTTP && negb isFile then Some (Some (no_authority (userStart - 2)))
              else Some (Some (mkAuthority userStart userEnd passwordStart passwordEnd hostStart hostEnd portStart portEnd))
        end
    end
  else Some (Some (no_authority (schemeEnd + 1))).

(** ** The path, the query and the fragment *)

(** The other local variables of [parse]. *)
Record Parts := mkParts {
  pathEnd : N;
  queryEnd : N;
  fragmentStart : N;
  fragmentEnd : N
}.

(** WebCore/platform/URL.cpp:1364-1383 [URL::parse] *)
Definition parse_parts (url : list N) (pathStart : N) : option Parts :=
  pathEnd ← scan (fun c => negb (c =? 0) && negb (c =? 63) && negb (c =? 35)) url pathStart;
  c ← char_at url pathEnd;
  queryEnd ← (if c =? 63 then scan (fun c => negb (c =? 0) && negb (c =? 35)) url pathEnd else Some pathEnd);
  c ← char_at url queryEnd;
  if c =? 35 then
    fragmentEnd ← scan (fun c => negb (c =? 0)) url (queryEnd + 1);
    Some (mkParts pathEnd queryEnd (queryEnd + 1) fragmentEnd)
  else Some (mkParts pathEnd queryEnd queryEnd queryEnd).

(** ** The dots of a path *)

(** WebCore/platform/URL.cpp:1065-1066 [copyPathRemovingDots], the loop; the last character is first *)
Fixpoint rewind (dst : list N) : list N :=
  match dst with c :: rest => if c =? 47 then dst else rewind rest | [] => [] end.

(** WebCore/platform/URL.cpp:1071-1073 [copyPathRemovingDots], with the size of the destination *)
Definition push (size c : N) (dst : list N) : option (list N) :=
  if N.of_nat (length dst) <? size then Some (c :: dst) else None.

(** WebCore/platform/URL.cpp:1050-1074 [copyPathRemovingDots], the loop, with a turn of fuel for each
    character; [below] is the character below the destination *)
Fixpoint copy_dots (fuel : nat) (below : option N) (size : N) (src : list N) (pos end_ : N) (dst : list N) : option (list N) :=
  if pos <? end_ then
    match fuel with
    | O => None
    | S fuel =>
        c ← src !!N pos;
        copy ← (if c =? 46 then
                  previous ← (match dst with previous :: _ => Some previous | [] => below end);
                  if previous =? 47 then
                    next ← src !!N (pos + 1);
                    if (next =? 47) || (pos + 1 =? end_) then Some (inr (pos + 2, dst))
                    else if next =? 46 then
                      after ← src !!N (pos + 2);
                      if (after =? 47) || (pos + 2 =? end_) then
                        Some (inr (pos + 3, rewind (if (1 <? length dst)%nat then tail dst else dst)))
                      else Some (inl ())
                    else Some (inl ())
                  else Some (inl ())
                else Some (inl ()));
        match copy with
        | inr (pos, dst) => copy_dots fuel below size src pos end_ dst
        | inl _ => dst ← push size c dst; copy_dots fuel below size src (pos + 1) end_ dst
        end
    end
  else Some dst.

(** WebCore/platform/URL.cpp:1031-1078 [copyPathRemovingDots], with the size of the destination and the
    character below it, if any; what [src] points to is the whole of its buffer *)
Definition copyPathRemovingDots (below : option N) (size : N) (src : list N) (srcStart srcEnd : N) : option (list N) :=
  dst ← (if negb (srcStart =? srcEnd) then
           c ← src !!N srcStart;
           dst ← push size c [];
           copy_dots (N.to_nat (srcEnd - srcStart)) below size src (srcStart + 1) srcEnd dst
         else Some []);
  _ ← push size 0 dst;
  Some (rev dst).

(** WebCore/platform/URL.cpp:1086-1090 [hasSlashDotOrDotDot], the loop *)
Fixpoint slash_dot (pc : N) (str : list N) : bool :=
  match str with
  | [] => false
  | c :: str =>
      if c =? 0 then false
      else if (c =? 46) && ((pc =? 47) || (pc =? 46)) then true
      else slash_dot c str
  end.

(** WebCore/platform/URL.cpp:1080-1092 [hasSlashDotOrDotDot] *)
Definition hasSlashDotOrDotDot (str : list N) : bool :=
  match str with
  | [] => false
  | c :: str => if c =? 0 then false else slash_dot c str
  end.

(** ** Writing the URL *)

(** [*p++ = c] for the characters, in a buffer of [size] characters of which the first are written. *)
Definition emit (size : N) (chars buffer : list N) : option (list N) :=
  if N.of_nat (length buffer + length chars) <=? size then Some (buffer ++ chars) else None.

Definition position (buffer : list N) : N := N.of_nat (length buffer).

(** The ends of the parts of the authority in the output. *)
Record Ends := mkEnds {
  e_userStart : N;
  e_userEnd : N;
  e_passwordEnd : N;
  e_hostEnd : N;
  e_portEnd : N
}.

(** WebCore/platform/URL.cpp:1434-1495 [URL::parse]: the authority behind its slashes *)
Definition write_authority (size : N) (url : list N) (a : Authority) (schemeEnd_ : N) (isFile hostIsLocalHost : bool)
    (buffer : list N) : option (Ends * list N) :=
  let haveNonHostAuthorityPart :=
    negb (userStart a =? userEnd a) || negb (passwordStart a =? passwordEnd a) || negb (hostEnd a =? portEnd a) in
  let m_userStart := position buffer in
  user ← slice url (userStart a) (userEnd a);
  buffer ← emit size user buffer;
  let m_userEnd := position buffer in
  buffer ← (if negb (passwordEnd a =? passwordStart a) then
              password ← slice url (passwordStart a) (passwordEnd a);
              emit size (58 :: password) buffer
            else Some buffer);
  let m_passwordEnd := position buffer in
  buffer ← (if negb (position buffer =? m_userStart) then emit size [64] buffer else Some buffer);
  buffer ← (if negb (isFile && hostIsLocalHost && negb haveNonHostAuthorityPart) then
              host ← slice url (au_hostStart a) (hostEnd a);
              emit size (if isCanonicalHostnameLowercaseForScheme buffer schemeEnd_ then toASCIILower_char <$> host else host) buffer
            else Some buffer);
  let m_hostEnd := position buffer in
  buffer ← (if negb (hostEnd a =? portStart a) then
              port ← slice url (portStart a) (portEnd a);
              if (negb (portEnd a =? portStart a) && negb (isDefaultPortForScheme port buffer schemeEnd_))
                 || ((au_hostStart a =? hostEnd a) && negb (hostEnd a =? portStart a))
              then emit size (58 :: port) buffer
              else Some buffer
            else Some buffer);
  Some (mkEnds m_userStart m_userEnd m_passwordEnd m_hostEnd (position buffer), buffer).

(** WebCore/platform/URL.cpp:1510-1519 [URL::parse]: the path *)
Definition write_path (size : N) (url : list N) (pathStart pathEnd : N) (hierarchical : bool) (buffer : list N)
    : option (list N) :=
  if negb hierarchical then
    path ← slice url pathStart pathEnd;
    emit size (escapedNonHierarchicalPart path) buffer
  else if negb (hasSlashDotOrDotDot url) then
    path ← slice url pathStart pathEnd;
    emit size (escapingBadChars path) buffer
  else
    path ← copyPathRemovingDots None (pathEnd - pathStart + 1) (memory url) pathStart pathEnd;
    emit size (escapingBadChars path) buffer.

(** WebCore/platform/URL.cpp:1525-1530 [URL::parse], the loop, with a turn of fuel for each character *)
Fixpoint after_last_slash (fuel : nat) (buffer : list N) (portEnd i : N) : option N :=
  if portEnd <? i then
    match fuel with
    | O => None
    | S fuel => c ← buffer !!N (i - 1); if c =? 47 then Some i else after_last_slash fuel buffer portEnd (i - 1)
    end
  else Some i.

(** WebCore/platform/URL.cpp:1548-1551 [URL::parse] *)
Definition result_string (originalString : option WTFString) (buffer : list N) : WTFString :=
  match originalString with
  | Some original => if equal_strings original (String8 buffer) then original else String8 buffer
  | None => String8 buffer
  end.

(** WebCore/platform/URL.cpp:1385-1553 [URL::parse]: writing the parts; the size of the buffer is an [int] *)
Definition assemble (url : list N) (originalString : option WTFString) (schemeEnd : N) (hierarchical isFile isHTTP : bool)
    (a : Authority) (parts : Parts) : option URL :=
  let size := fragmentEnd parts * 3 + 1 in
  if int_max <? size then None else
  scheme ← slice url 0 schemeEnd;
  buffer ← emit size (toASCIILower_char <$> scheme) [];
  let m_schemeEnd := position buffer in
  hostIsLocalHost ← (if portEnd a - userStart a =? 9 then letters_at url (userStart a) (lit "localhost") else Some false);
  let pathStart := portEnd a in
  let degenerateFilePath := (pathStart =? pathEnd parts) && ((au_hostStart a =? hostEnd a) || hostIsLocalHost) in
  let haveNonHostAuthorityPart :=
    negb (userStart a =? userEnd a) || negb (passwordStart a =? passwordEnd a) || negb (hostEnd a =? portEnd a) in
  buffer ← emit size [58] buffer;
  r ← (if (if (isFile : bool) then negb degenerateFilePath else haveNonHostAuthorityPart || negb (au_hostStart a =? hostEnd a)) then
         buffer ← emit size [47; 47] buffer;
         write_authority size url a m_schemeEnd isFile hostIsLocalHost buffer
       else
         buffer ← (if (isFile : bool) then emit size [47; 47] buffer else Some buffer);
         let p := position buffer in
         Some (mkEnds p p p p p, buffer));
  let '(ends, buffer) := r in
  buffer ← (if (isHTTP || isFile) && (pathEnd parts =? pathStart) then emit size [47] buffer else Some buffer);
  buffer ← write_path size url pathStart (pathEnd parts) hierarchical buffer;
  let m_pathEnd := position buffer in
  m_pathAfterLastSlash ← after_last_slash (length buffer) buffer (e_portEnd ends) m_pathEnd;
  query ← slice url (pathEnd parts) (queryEnd parts);
  buffer ← emit size (escapingBadChars query) buffer;
  let m_queryEnd := position buffer in
  buffer ← (if negb (fragmentEnd parts =? queryEnd parts) then
              buffer ← emit size [35] buffer;
              fragment ← slice url (fragmentStart parts) (fragmentEnd parts);
              emit size (escapedNonHierarchicalPart fragment) buffer
            else Some buffer);
  Some (mkURL (result_string originalString buffer) true isHTTP m_schemeEnd (e_userStart ends) (e_userEnd ends)
    (e_passwordEnd ends) (e_hostEnd ends) (e_portEnd ends) m_pathAfterLastSlash m_pathEnd m_queryEnd (position buffer)).

(** ** The parser *)

(** [originalString ? *originalString : url], the characters before the terminator. *)
Definition invalid_string (url : list N) (originalString : option WTFString) : WTFString :=
  match originalString with
  | Some original => original
  | None => String8 (match list_find (fun c => c = 0) url with Some (i, _) => take i url | None => url end)
  end.

(** WebCore/platform/URL.cpp:1202-1554 [URL::parse], of a null-terminated buffer *)
Definition parse (url : list N) (originalString : option WTFString) : option URL :=
  let invalid := Some (invalidate (invalid_string url originalString)) in
  first ← char_at url 0;
  if (first =? 0) || negb (isSchemeFirstChar first) then invalid
  else
    schemeEnd ← scan isSchemeChar url 0;
    colon ← char_at url schemeEnd;
    if negb (colon =? 58) then invalid
    else
      c1 ← char_at url (schemeEnd + 1);
      let hierarchical := c1 =? 47 in
      hasSecondSlash ← (if hierarchical then c2 ← char_at url (schemeEnd + 2); Some (c2 =? 47) else Some false);
      isFile ← (if schemeEnd =? 4 then letters_at url 0 (lit "file") else Some false);
      isHTTP ← http_family url;
      authority ← parse_authority url schemeEnd hierarchical hasSecondSlash isFile isHTTP;
      match authority with
      | None => invalid
      | Some a =>
          parts ← parse_parts url (portEnd a);
          assemble url originalString schemeEnd hierarchical isFile isHTTP a parts
      end.

(** WebCore/platform/URL.cpp:366-379 [copyASCII] *)
Definition copyASCII (string : WTFString) : list N :=
  match string with
  | None => []
  | Some impl => if impl_is8Bit impl then impl_chars impl else wrap8 <$> impl_chars impl
  end.

(** WebCore/platform/URL.cpp:1094-1102 [URL::parse], of a string *)
Definition parse_string (string : WTFString) : option URL := parse (copyASCII string) (Some string).

(** WebCore/platform/URL.cpp:432-436 [URL::URL], of a string that was parsed before *)
Definition URL_parsed (url : WTFString) : option URL := parse_string url.
