(* ===== verification/URLSafety.v ===== *)
(** * [URL::parse] stays within its buffers, and the parts of its result are in order

    The lemmas are about inputs whose length is an [int]. *)

From S2P Require Import Prelude ASCII WTFString StringOps URLCharacters URL URLParse.

(** ** Characters *)

Definition url_char (c : N) : Prop := 0 < c /\ c < 128.

(** A check of all the bytes. *)
Lemma all_bytes (p : N -> bool) c : forallb p (for_range 0 256) = true -> c < 256 -> p c = true.
Proof. rewrite forallb_forall. intros Hall Hc. apply Hall, list_elem_of_In, elem_of_for_range. lia. Qed.

Lemma in_class_bound bit c : in_class bit c = true -> c < 256.
Proof.
  unfold in_class. intros Hin. destruct (N.lt_ge_cases c 256) as [|Hc]; [done|]. exfalso.
  rewrite lookup_ge_None_2 in Hin; [done|]. change (length characterClassTable) with 256%nat. lia.
Qed.

(** The classes other than those of the ends of parts only have ASCII characters. *)
Lemma class_ascii bit c : bit ∈ [SchemeFirstChar; SchemeChar; UserInfoChar; HostnameChar; IPv6Char] ->
  in_class bit c = true -> url_char c.
Proof.
  intros Hbit Hin. pose proof (in_class_bound _ _ Hin) as Hc.
  assert (forallb (fun c => forallb (fun bit => negb (in_class bit c) || ((0 <? c) && (c <? 128)))
    [SchemeFirstChar; SchemeChar; UserInfoChar; HostnameChar; IPv6Char]) (for_range 0 256) = true) as Hall by (by vm_compute).
  pose proof (all_bytes _ c Hall Hc) as Hb. cbn beta in Hb. rewrite forallb_forall in Hb.
  apply list_elem_of_In, Hb in Hbit. rewrite Hin in Hbit. cbn [negb orb] in Hbit. unfold url_char. breflect. lia.
Qed.

Lemma isUserInfoChar_ascii c : isUserInfoChar c = true -> url_char c.
Proof. apply class_ascii. set_solver. Qed.

Lemma isHostnameChar_ascii c : isHostnameChar c = true -> url_char c.
Proof. apply class_ascii. set_solver. Qed.

Lemma isIPv6Char_ascii c : isIPv6Char c = true -> url_char c.
Proof. apply class_ascii. set_solver. Qed.

Lemma isSchemeChar_ascii c : isSchemeChar c = true -> url_char c.
Proof. unfold isSchemeChar. intros [_ Hc]%andb_true_iff. revert Hc. apply class_ascii. set_solver. Qed.

Lemma digit_ascii c : isASCIIDigit c = true -> url_char c.
Proof. unfold isASCIIDigit, url_char. intros. breflect. lia. Qed.

(** The characters of a host: of a name, or of an address between brackets. *)
Definition host_char (c : N) : Prop := isHostnameChar c || isIPv6Char c || (c =? 91) || (c =? 93) = true.

Lemma host_char_bound c : host_char c -> c < 256.
Proof.
  unfold host_char, isHostnameChar, isIPv6Char. rewrite !orb_true_iff, !N.eqb_eq. intros [[[H%in_class_bound|H%in_class_bound]| ->]| ->]; done.
Qed.

Lemma lower_host c : host_char c -> host_char (toASCIILower_char c).
Proof.
  intros Hc. pose proof (host_char_bound c Hc) as Hb. unfold host_char in *.
  set (p c := isHostnameChar c || isIPv6Char c || (c =? 91) || (c =? 93)) in *.
  assert (forallb (fun c => negb (p c) || p (toASCIILower_char c)) (for_range 0 256) = true) as Hall by (by vm_compute).
  pose proof (all_bytes _ c Hall Hb) as Hp. cbn beta in Hp. fold (p c) in Hc. by rewrite Hc in Hp.
Qed.

Lemma lower_ascii c : url_char c -> url_char (toASCIILower_char c).
Proof.
  intros [H0 Hc].
  assert (forallb (fun c => negb (0 <? c) || ((0 <? toASCIILower_char c) && (toASCIILower_char c <? 128))) (for_range 0 128) = true) as Hall
    by (by vm_compute).
  rewrite forallb_forall in Hall. specialize (Hall c). rewrite (proj2 (N.ltb_lt 0 c) H0) in Hall. cbn [negb orb] in Hall.
  unfold url_char. destruct (proj1 (andb_true_iff _ _) (Hall ltac:(apply list_elem_of_In, elem_of_for_range; lia))). breflect. lia.
Qed.

(** The escaped characters: at most three ASCII characters for each. *)
Lemma escape_bad_ok c : 0 < c -> c < 256 -> (length (escape_bad_char c) <= 3)%nat /\ Forall url_char (escape_bad_char c).
Proof.
  intros H0 Hc.
  assert (forallb (fun c => negb (0 <? c) || ((length (escape_bad_char c) <=? 3)%nat && forallb (fun x => (0 <? x) && (x <? 128)) (escape_bad_char c)))
    (for_range 0 256) = true) as Hall by (by vm_compute).
  pose proof (all_bytes _ c Hall Hc) as Hb. cbn beta in Hb. rewrite (proj2 (N.ltb_lt 0 c) H0) in Hb. cbn [negb orb] in Hb.
  apply andb_true_iff in Hb as [Hl Hf]. split; [by apply Nat.leb_le|]. rewrite forallb_forall in Hf. apply Forall_forall.
  intros x Hx%list_elem_of_In%Hf. unfold url_char. breflect. lia.
Qed.

Lemma escape_opaque_ok c : c < 256 -> (length (escape_opaque_char c) <= 3)%nat /\ Forall url_char (escape_opaque_char c).
Proof.
  intros Hc.
  assert (forallb (fun c => (length (escape_opaque_char c) <=? 3)%nat && forallb (fun x => (0 <? x) && (x <? 128)) (escape_opaque_char c))
    (for_range 0 256) = true) as Hall by (by vm_compute).
  pose proof (all_bytes _ c Hall Hc) as Hb. cbn beta in Hb.
  apply andb_true_iff in Hb as [Hl Hf]. split; [by apply Nat.leb_le|]. rewrite forallb_forall in Hf. apply Forall_forall.
  intros x Hx%list_elem_of_In%Hf. unfold url_char. breflect. lia.
Qed.

Lemma flat_map_ok (f : N -> list N) (P : N -> Prop) str :
  (forall c, P c -> (length (f c) <= 3)%nat /\ Forall url_char (f c)) -> Forall P str ->
  (length (str ≫= f) <= 3 * length str)%nat /\ Forall url_char (str ≫= f).
Proof.
  intros Hf. induction 1 as [|c str Hc _ [IHl IHf]]; [split; [simpl; lia|constructor]|].
  rewrite bind_cons, length_app. destruct (Hf c Hc) as [? ?]. split; [simpl; lia|by apply Forall_app].
Qed.

Definition input_byte (c : N) : Prop := 0 < c /\ c < 256.

Lemma escapingBadChars_ok str : Forall input_byte str ->
  (length (escapingBadChars str) <= 3 * length str)%nat /\ Forall url_char (escapingBadChars str).
Proof. apply flat_map_ok. intros c [? ?]. by apply escape_bad_ok. Qed.

Lemma escapedNonHierarchicalPart_ok str : Forall input_byte str ->
  (length (escapedNonHierarchicalPart str) <= 3 * length str)%nat /\ Forall url_char (escapedNonHierarchicalPart str).
Proof. apply flat_map_ok. intros c [? ?]. by apply escape_opaque_ok. Qed.

(** ** Reading the input *)

(** The length of the longest inputs for which no [int] of the parser overflows:
    the output buffer has a size of three times as much, and one. *)
Definition parse_limit : N := 715827882.

Lemma parse_limit_fits n : n <= parse_limit <-> 3 * n + 1 <= int_max.
Proof. unfold parse_limit. lia. Qed.

(** In an input whose length is an [int], so is every position. *)
Definition int_length (url : list N) : Prop := N.of_nat (length url) <= int_max.

Lemma limit_int_length url : N.of_nat (length url) <= parse_limit -> int_length url.
Proof. unfold int_length, parse_limit. lia. Qed.

Lemma char_at_lookup url i : int_length url -> char_at url i = memory url !!N i.
Proof.
  unfold int_length. intros Hlen. unfold char_at. destruct (i <=? int_max) eqn:E; breflect; [done|]. symmetry. apply lookup_ge_None_2.
  unfold memory. rewrite length_app. simpl. lia.
Qed.

Lemma char_at_memory url i c : char_at url i = Some c -> memory url !!N i = Some c.
Proof. unfold char_at. by destruct (_ <=? _). Qed.

Section Input.
Context (url : list N) (Hbytes : Forall (fun c => c < 256) url) (Hint : int_length url).
Notation L := (N.of_nat (length url)).

Lemma char_at_Some i : i <= L -> exists c, char_at url i = Some c /\ c < 256.
Proof.
  intros Hi. rewrite char_at_lookup by done. unfold memory. destruct (lookupN_is_Some (url ++ [0]) i) as [c Hc]; [rewrite length_app; simpl; lia|].
  exists c. split; [done|]. assert (Forall (fun c => c < 256) (url ++ [0])) as Hall by (apply Forall_app; split; [done|by apply Forall_singleton]).
  by eapply Forall_lookup_1 in Hall.
Qed.

Lemma char_at_nonzero i c : char_at url i = Some c -> c <> 0 -> i < L.
Proof.
  intros Hc%char_at_memory Hne. unfold memory in Hc. destruct (N.lt_ge_cases i L) as [|Hi]; [done|]. exfalso.
  rewrite lookup_app_r in Hc by lia. destruct (N.to_nat i - length url)%nat as [|[|k]] eqn:E; simplify_eq/=; done.
Qed.

(** The characters from [a] to [b]. *)
Definition span (P : N -> Prop) (a b : N) : Prop := forall k, a <= k < b -> exists c, char_at url k = Some c /\ P c.

Lemma span_nil P a b : b <= a -> span P a b.
Proof. intros ? k ?. lia. Qed.

Lemma span_one (P : N -> Prop) a c : char_at url a = Some c -> P c -> span P a (a + 1).
Proof. intros Hc HP k Hk. replace k with a by lia. eauto. Qed.

Lemma span_app P a b c : span P a b -> span P b c -> span P a c.
Proof. intros H1 H2 k Hk. destruct (N.lt_ge_cases k b); [apply H1|apply H2]; lia. Qed.

Lemma span_sub P a b a' b' : span P a b -> a <= a' -> b' <= b -> span P a' b'.
Proof. intros Hs Ha Hb k Hk. apply Hs. lia. Qed.

Lemma span_impl (P Q : N -> Prop) a b : (forall c, c < 256 -> P c -> Q c) -> span P a b -> span Q a b.
Proof.
  intros HPQ Hs k Hk. destruct (Hs k Hk) as (c & Hc & HP). exists c. split; [done|]. apply HPQ; [|done].
  assert (k <= L) as Hle. { pose proof (lookupN_lt _ _ _ (char_at_memory _ _ _ Hc)) as Hk'. unfold memory in Hk'. rewrite length_app in Hk'. simpl in Hk'. lia. }
  destruct (char_at_Some k Hle) as (c' & Hc' & ?). by simplify_eq.
Qed.

Lemma drop_memory i c : char_at url i = Some c -> drop (N.to_nat i) (memory url) = c :: drop (N.to_nat (i + 1)) (memory url).
Proof. intros Hc%char_at_memory. rewrite (drop_S _ _ _ Hc). f_equal. f_equal. lia. Qed.

(** A loop over characters that ends at the terminator at the latest. *)
Lemma scan_spec p i : p 0 = false -> i <= L ->
  exists j c, scan p url i = Some j /\ i <= j <= L /\ span (fun c => p c = true) i j /\ char_at url j = Some c /\ p c = false.
Proof.
  intros Hp Hi. unfold scan. remember (N.to_nat (L - i)) as n eqn:En. revert i Hi En. induction n as [|n IH]; intros i Hi En.
  - destruct (char_at_Some i Hi) as (c & Hc & _). rewrite (drop_memory i c Hc). cbn [scan_from].
    destruct (p c) eqn:E.
    + assert (c <> 0) as Hne by (by intros ->; congruence). apply (char_at_nonzero i c Hc) in Hne. lia.
    + exists i, c. split_and!; [done|lia|lia|apply span_nil; lia|done|done].
  - destruct (char_at_Some i Hi) as (c & Hc & _). rewrite (drop_memory i c Hc). cbn [scan_from].
    destruct (p c) eqn:E; [|exists i, c; split_and!; [done|lia|lia|apply span_nil; lia|done|done]].
    destruct (IH (i + 1)) as (j & c' & -> & ? & Hs & ? & ?); [lia|lia|]. exists j, c'. split_and!; [done|lia|lia| |done|done].
    eapply span_app; [by eapply span_one|done].
Qed.

Lemma scan_user_spec i colon : i <= L ->
  exists j colon' c, scan_user (drop (N.to_nat i) (memory url)) i colon = Some (j, colon') /\ i <= j <= L /\
    span (fun c => isUserInfoChar c = true) i j /\ char_at url j = Some c /\ isUserInfoChar c = false /\
    (colon <> 0 -> colon' = colon) /\ (colon = 0 -> colon' = 0 \/ i <= colon' < j).
Proof.
  intros Hi. remember (N.to_nat (L - i)) as n eqn:En. revert i colon Hi En. induction n as [|n IH]; intros i colon Hi En;
    destruct (char_at_Some i Hi) as (c & Hc & _); rewrite (drop_memory i c Hc); cbn [scan_user];
    destruct (isUserInfoChar c) eqn:E.
  - assert (c <> 0) as Hne by (by intros ->; vm_compute in E). apply (char_at_nonzero i c Hc) in Hne. lia.
  - exists i, colon, c. split_and!; [done|lia|lia|apply span_nil; lia|done|done|done|by left].
  - destruct (IH (i + 1) (if (c =? 58) && (colon =? 0) then i else colon)) as (j & colon' & c' & -> & ? & Hs & ? & ? & H1 & H2); [lia|lia|].
    exists j, colon', c'. split_and!; [done|lia|lia| |done|done| |].
    + eapply span_app; [by eapply span_one|done].
    + intros Hcol. replace (colon =? 0) with false in H1 by (symmetry; by apply N.eqb_neq). rewrite andb_false_r in H1. auto.
    + intros ->. rewrite N.eqb_refl, andb_true_r in H1, H2. destruct (c =? 58).
      * destruct (decide (i = 0)) as [->|Hne]; [destruct (H2 eq_refl) as [?|?]; [by left|right; lia]|]. rewrite H1 by done. right. lia.
      * destruct (H2 eq_refl) as [?|?]; [by left|right; lia].
  - exists i, colon, c. split_and!; [done|lia|lia|apply span_nil; lia|done|done|done|by left].
Qed.

Lemma slice_spec (P : N -> Prop) a b : a <= b -> b <= L -> span P a b ->
  exists s, slice url a b = Some s /\ N.of_nat (length s) = b - a /\ Forall P s.
Proof.
  intros Hab Hb Hs. unfold slice. destruct (b <=? a) eqn:E; breflect.
  - exists []. split_and!; [done|simpl; lia|done].
  - replace (N.of_nat (length (memory url)) <? b) with false by (symmetry; apply N.ltb_ge; unfold memory; rewrite length_app; simpl; lia).
    eexists. split; [done|]. assert (length (memory url) = S (length url)) as Hm by (unfold memory; rewrite length_app; simpl; lia). split.
    + rewrite length_take, length_drop, Hm. lia.
    + apply Forall_lookup. intros k c Hk. apply lookup_take_Some in Hk as [Hk Hlt]. rewrite lookup_drop in Hk.
      destruct (Hs (a + N.of_nat k)) as (c' & Hc'%char_at_memory & HP); [lia|].
      replace (N.to_nat (a + N.of_nat k)) with (N.to_nat a + k)%nat in Hc' by lia. by simplify_eq.
Qed.

Lemma letters_at_total i letters : i <= L -> Forall (fun l => N.lor 0 32 <> l) letters -> exists b, letters_at url i letters = Some b.
Proof.
  intros Hi Hl. unfold letters_at. revert i Hi. induction Hl as [|l letters Hne _ IH]; intros i Hi; [by exists true|].
  destruct (char_at_Some i Hi) as (c & Hc & _). rewrite (drop_memory i c Hc). cbn [match_letters].
  destruct (isLetterMatchIgnoringCase c l) eqn:E; [|by exists false].
  assert (c <> 0) as Hc0. { intros ->. unfold isLetterMatchIgnoringCase in E. breflect. done. }
  apply (char_at_nonzero i c Hc) in Hc0. apply IH. lia.
Qed.
(** ** The authority *)

Record authority_ok (schemeEnd : N) (a : Authority) : Prop := {
  ao_start : schemeEnd + 1 <= userStart a + 2;
  ao_low : userStart a < schemeEnd + 1 -> a = no_authority (userStart a);
  ao_user : userStart a <= userEnd a;
  ao_password : userEnd a <= passwordStart a /\ passwordStart a <= passwordEnd a;
  ao_colon : passwordStart a <> passwordEnd a -> passwordStart a = userEnd a + 1;
  ao_host : passwordEnd a <= au_hostStart a /\ au_hostStart a <= hostEnd a;
  ao_at : userStart a <> userEnd a \/ passwordStart a <> passwordEnd a -> au_hostStart a = passwordEnd a + 1;
  ao_port : hostEnd a <= portStart a /\ portStart a <= portEnd a;
  ao_port_colon : hostEnd a <> portStart a -> portStart a = hostEnd a + 1;
  ao_no_port : hostEnd a = portStart a -> portEnd a = portStart a;
  ao_stop : au_hostStart a <> hostEnd a -> exists c, char_at url (portEnd a) = Some c /\ isPathSegmentEndChar c = true;
  ao_end : 1 <= portEnd a /\ portEnd a <= L;
  ao_user_span : span (fun c => isUserInfoChar c = true) (userStart a) (userEnd a);
  ao_password_span : span (fun c => isUserInfoChar c = true) (passwordStart a) (passwordEnd a);
  ao_host_span : span host_char (au_hostStart a) (hostEnd a);
  ao_port_span : span (fun c => isASCIIDigit c = true) (portStart a) (portEnd a)
}.

Lemma no_authority_ok schemeEnd p : schemeEnd + 1 <= p + 2 -> 1 <= p -> p <= L -> authority_ok schemeEnd (no_authority p).
Proof. intros. split; cbn; try lia; try done; try (apply span_nil; lia). Qed.

Lemma nonfile_length scheme schemeLength : isNonFileHierarchicalScheme scheme schemeLength = true -> 2 <= schemeLength.
Proof. unfold isNonFileHierarchicalScheme. destruct schemeLength as [|[| |]]; [done| | |done]; lia. Qed.

Section Authority.
Context (schemeEnd : N) (Hscheme : 1 <= schemeEnd) (Hcolon : schemeEnd + 1 <= L).

Lemma authority_start_spec (hierarchical second : bool) :
  (hierarchical = true -> schemeEnd + 2 <= L) -> (hierarchical && second = true -> schemeEnd + 3 <= L) ->
  exists u, authority_start url schemeEnd hierarchical second = Some u /\ schemeEnd + 1 <= u <= L /\
    (hierarchical && second = true -> schemeEnd + 3 <= u).
Proof.
  intros H1 H2. unfold authority_start. destruct hierarchical; [|exists (schemeEnd + 1); split_and!; [done|lia|lia|done]].
  specialize (H1 eq_refl). destruct second; [|exists (schemeEnd + 1 + 1); split_and!; [done|lia|lia|done]]. specialize (H2 eq_refl).
  destruct (isNonFileHierarchicalScheme _ _).
  - destruct (scan_spec (fun c => c =? 47) (schemeEnd + 1 + 1 + 1) eq_refl) as (j & c & -> & ? & _); [lia|].
    exists j. split_and!; [done|lia|lia|lia].
  - exists (schemeEnd + 1 + 1 + 1). split_and!; [done|lia|lia|lia].
Qed.

(** The user and the password. *)
Record user_ok (u userEnd passwordStart passwordEnd hostStart : N) : Prop := {
  uo_order : u <= userEnd /\ userEnd <= passwordStart /\ passwordStart <= passwordEnd /\ passwordEnd <= hostStart /\ hostStart <= L;
  uo_colon : passwordStart <> passwordEnd -> passwordStart = userEnd + 1;
  uo_at : u <> userEnd \/ passwordStart <> passwordEnd -> hostStart = passwordEnd + 1;
  uo_user : span (fun c => isUserInfoChar c = true) u userEnd;
  uo_password : span (fun c => isUserInfoChar c = true) passwordStart passwordEnd
}.

Lemma parse_user_spec u : u <= L -> u <> 0 ->
  exists r, parse_user url u = Some r /\
    match r with None => True | Some (userEnd, passwordStart, passwordEnd, hostStart) => user_ok u userEnd passwordStart passwordEnd hostStart end.
Proof.
  intros Hu Hu0. unfold parse_user. destruct (scan_user_spec u 0 Hu) as (j & colon & c & -> & Hj & Hs & Hc & _ & _ & Hcol).
  specialize (Hcol eq_refl). run_option. rewrite Hc. run_option.
  pose proof Hs as Hspan.
  destruct (c =? 64) eqn:E; breflect.
  - assert (j < L) as HjL by (apply (char_at_nonzero j c Hc); lia).
    destruct (colon =? 0) eqn:Ec; breflect; cbn [negb].
    + eexists. split; [done|]. cbn. split; try lia; [done|apply span_nil; lia].
    + destruct Hcol as [|Hcol]; [done|]. eexists. split; [done|]. cbn. split; try lia; eapply span_sub; [done|lia|lia|done|lia|lia].
  - destruct (_ || _); [|by exists None]. eexists. split; [done|]. cbn. split; try lia; apply span_nil; lia.
Qed.

Lemma parse_host_spec h : h <= L -> exists r, parse_host url h = Some r /\
  match r with None => True | Some e => h <= e <= L /\ span host_char h e end.
Proof.
  intros Hh. unfold parse_host. destruct (char_at_Some h Hh) as (c & Hc & _). rewrite Hc. run_option.
  destruct (c =? 91) eqn:E; breflect.
  - subst c. assert (h < L) as HhL by (by apply (char_at_nonzero h 91 Hc)).
    destruct (scan_spec isIPv6Char (h + 1)) as (j & c' & -> & Hj & Hs & Hc' & _); [by vm_compute|lia|]. run_option. rewrite Hc'. run_option.
    destruct (c' =? 93) eqn:E'; [|by exists None]. breflect. subst c'. exists (Some (j + 1)). split; [done|].
    assert (j < L) by (by apply (char_at_nonzero j 93 Hc')). split; [lia|].
    eapply span_app; [eapply span_one; [exact Hc|done]|]. eapply span_app; [|eapply span_one; [exact Hc'|done]].
    eapply span_impl; [|exact Hs]. intros ? _ Hx. unfold host_char. by rewrite Hx, !orb_true_r.
  - destruct (scan_spec isHostnameChar h) as (j & c' & -> & Hj & Hs & _ & _); [by vm_compute|lia|]. run_option.
    exists (Some j). split; [done|]. split; [lia|]. eapply span_impl; [|exact Hs]. intros ? _ Hx. unfold host_char. by rewrite Hx.
Qed.

Lemma parse_port_spec h : h <= L -> exists s e, parse_port url h = Some (s, e) /\ h <= s /\ s <= e <= L /\
  (h <> s -> s = h + 1) /\ (h = s -> e = s) /\ span (fun c => isASCIIDigit c = true) s e.
Proof.
  intros Hh. unfold parse_port. destruct (char_at_Some h Hh) as (c & Hc & _). rewrite Hc. run_option.
  destruct (c =? 58) eqn:E; breflect.
  - subst c. assert (h < L) by (by apply (char_at_nonzero h 58 Hc)).
    destruct (scan_spec isASCIIDigit (h + 1)) as (j & c' & -> & Hj & Hs & _ & _); [done|lia|]. run_option.
    exists (h + 1), j. split_and!; [done|lia|lia|lia|lia|lia|done].
  - exists h, h. split_and!; [done|lia|lia|lia|lia|lia|apply span_nil; lia].
Qed.

Lemma parse_authority_spec (hierarchical second isFile isHTTP : bool) :
  (hierarchical = true -> schemeEnd + 2 <= L) -> (hierarchical && second = true -> schemeEnd + 3 <= L) ->
  exists r, parse_authority url schemeEnd hierarchical second isFile isHTTP = Some r /\
    match r with None => True | Some a => authority_ok schemeEnd a /\ (userStart a < schemeEnd + 1 -> isFile = false /\ isHTTP = false) end.
Proof.
  intros H1 H2. unfold parse_authority. destruct ((hierarchical && second) || _) eqn:Ecase.
  2: { eexists. split; [done|]. split; [apply no_authority_ok; lia|cbn; lia]. }
  destruct (authority_start_spec hierarchical second H1 H2) as (u & -> & Hu & Hu2). run_option.
  assert (3 <= u) as Hu3.
  { apply orb_true_iff in Ecase as [Hb|Hn]; [specialize (Hu2 Hb); lia|]. apply nonfile_length in Hn. lia. }
  destruct (parse_user_spec u) as (user & -> & Huser); [lia|lia|]. run_option.
  destruct user as [[[[ue ps] pe] hs]|]; [|by exists None]. destruct Huser as [(? & ? & ? & ? & ?) Hcol Hat Hus Hps].
  destruct (parse_host_spec hs) as (host & -> & Hhost); [lia|]. run_option. destruct host as [he|]; [|by exists None].
  destruct Hhost as [? Hhs]. destruct (parse_port_spec he) as (pts & pte & -> & ? & ? & Hpc & Hnp & Hpt); [lia|]. run_option.
  destruct (char_at_Some pte) as (c & Hstop & _); [lia|]. rewrite Hstop. run_option. destruct (isPathSegmentEndChar c) eqn:Estop; cbn [negb]; [|by exists None].
  destruct (char_at_Some pe) as (c' & -> & _); [lia|]. run_option. destruct (hostPortIsEmptyButCredentialsArePresent _ _ _); [by exists None|].
  destruct (_ && negb isFile) eqn:E; breflect.
  - eexists. split; [done|]. split; [apply no_authority_ok; lia|done].
  - eexists. split; [done|]. split; [|cbn; lia]. split; cbn; try done; try lia. by exists c.
Qed.
End Authority.

(** Where a hierarchical path starts: at a slash, or it has no dot. *)
Definition dots_ok (start : N) : Prop :=
  forall last, span (fun c => c <> 0 /\ c <> 63 /\ c <> 35) start last ->
    last <= start \/ char_at url start = Some 47 \/ span (fun c => c <> 46) start last.

Lemma segment_end_cases c : isPathSegmentEndChar c = true -> c = 0 \/ c = 63 \/ c = 35 \/ c = 47.
Proof.
  intros Hend. assert (c < 256) as Hb by (unfold isPathSegmentEndChar in Hend; apply andb_true_iff in Hend as [? _]; breflect; lia).
  assert (forallb (fun c => negb (isPathSegmentEndChar c) || ((c =? 0) || ((c =? 63) || ((c =? 35) || (c =? 47))))) (for_range 0 256) = true)
    as Hall by (by vm_compute).
  pose proof (all_bytes _ c Hall Hb) as Hcase. cbn beta in Hcase. rewrite Hend in Hcase. cbn [negb orb] in Hcase.
  by rewrite !orb_true_iff, !N.eqb_eq in Hcase.
Qed.

Lemma segment_end_dots p c : char_at url p = Some c -> isPathSegmentEndChar c = true -> dots_ok p.
Proof.
  intros Hc Hend last Hs. destruct (N.le_gt_cases last p) as [|Hlt]; [by left|]. right. left.
  destruct (Hs p) as (c' & Hc' & H0 & H1 & H2); [lia|]. simplify_eq. rewrite Hc.
  by apply segment_end_cases in Hend as [?|[?|[?| ->]]].
Qed.

Section PathStart.
Context (schemeEnd : N) (second : bool) (Hslash : char_at url (schemeEnd + 1) = Some 47).
Context (Hcolon : char_at url schemeEnd = Some 58).
Context (Hsecond : exists c, char_at url (schemeEnd + 2) = Some c /\ second = (c =? 47)).

Lemma authority_start_slashes u : authority_start url schemeEnd true second = Some u ->
  schemeEnd + 2 <= u /\ span (fun c => c = 47) (schemeEnd + 1) u /\ (second = true -> schemeEnd + 3 <= u).
Proof.
  destruct Hsecond as (c & Hc & ->). unfold authority_start. destruct (c =? 47) eqn:E.
  - breflect. subst c. assert (span (fun c => c = 47) (schemeEnd + 1) (schemeEnd + 1 + 1 + 1)) as Hs.
    { eapply span_app; [by eapply span_one|]. eapply span_one; [|done]. by replace (schemeEnd + 1 + 1) with (schemeEnd + 2) by lia. }
    assert (schemeEnd + 2 < L) by (by apply (char_at_nonzero _ _ Hc)).
    destruct (isNonFileHierarchicalScheme _ _).
    + destruct (scan_spec (fun c => c =? 47) (schemeEnd + 1 + 1 + 1) eq_refl) as (j & c & -> & ? & Hj & _); [lia|].
      intros [= <-]. split_and!; [lia| |lia]. eapply span_app; [exact Hs|]. eapply span_impl; [|exact Hj]. by intros ? _ ?%N.eqb_eq.
    + intros [= <-]. split_and!; [lia|done|lia].
  - intros [= <-]. split_and!; [lia| |done]. eapply span_one; [exact Hslash|done].
Qed.

Lemma parse_authority_dots isFile isHTTP a :
  parse_authority url schemeEnd true second isFile isHTTP = Some (Some a) -> dots_ok (portEnd a).
Proof.
  unfold parse_authority. destruct (_ || _); [|intros [= <-]; by apply segment_end_dots with 47].
  destruct (authority_start url schemeEnd true second) as [u|] eqn:Eu; [|done]. run_option.
  destruct (authority_start_slashes u Eu) as (Hu & Hs & Hu2).
  destruct (parse_user url u) as [[[[[ue ps] pe] hs]|]|]; run_option; [|done|done].
  destruct (parse_host url hs) as [[he|]|]; run_option; [|done|done].
  destruct (parse_port url he) as [[pts pte]|]; run_option; [|done].
  destruct (char_at url pte) as [c|] eqn:Ec; run_option; [|done]. destruct (isPathSegmentEndChar c) eqn:Eend; cbn [negb]; [|done].
  destruct (char_at url pe) as [c'|]; run_option; [|done]. destruct (hostPortIsEmptyButCredentialsArePresent _ _ _); [done|].
  destruct (_ && negb isFile) eqn:Eempty; [|intros [= <-]; by eapply segment_end_dots].
  intros [= <-]. cbn. breflect. subst pte. destruct (decide (u = schemeEnd + 2)) as [->|Hne].
  - destruct Hsecond as (c2 & Hc2 & Es). assert (c = c2) as -> by congruence.
    assert (c2 <> 47) as Hc47 by (intros ->; rewrite Es in Hu2; specialize (Hu2 eq_refl); lia).
    replace (schemeEnd + 2 - 2) with schemeEnd by lia. intros last Hl. right. right. intros k Hk.
    assert (last <= schemeEnd + 2) as Hlast.
    { destruct (N.le_gt_cases last (schemeEnd + 2)) as [|Hgt]; [done|]. exfalso.
      destruct (Hl (schemeEnd + 2)) as (cx & Hcx & ? & ? & ?); [lia|]. simplify_eq.
      by apply segment_end_cases in Eend as [?|[?|[?|?]]]. }
    destruct (decide (k = schemeEnd)) as [->|]; [by exists 58|]. replace k with (schemeEnd + 1) by lia. by exists 47.
  - intros last Hl. right. left. destruct (Hs (u - 2)) as (c47 & Hc47 & ->); [lia|done].
Qed.
End PathStart.

(** ** The other parts *)

(** The characters of a path, and of a query. *)
Definition path_char (c : N) : Prop := input_byte c /\ c <> 63 /\ c <> 35.
Definition query_char (c : N) : Prop := input_byte c /\ c <> 35.

Record parts_ok (pathStart : N) (parts : Parts) : Prop := {
  po_path : pathStart <= pathEnd parts;
  po_query : pathEnd parts <= queryEnd parts;
  po_fragment : queryEnd parts <= fragmentStart parts /\ fragmentStart parts <= fragmentEnd parts;
  po_question : pathEnd parts <> queryEnd parts -> char_at url (pathEnd parts) = Some 63;
  po_hash : queryEnd parts <> fragmentEnd parts -> fragmentStart parts = queryEnd parts + 1;
  po_end : fragmentEnd parts <= L;
  po_path_span : span path_char pathStart (pathEnd parts);
  po_query_span : span query_char (pathEnd parts) (queryEnd parts);
  po_fragment_span : span input_byte (fragmentStart parts) (fragmentEnd parts)
}.

Lemma span_class (p : N -> bool) (Q : N -> Prop) a b : (forall c, c < 256 -> p c = true -> Q c) -> span (fun c => p c = true) a b -> span Q a b.
Proof. apply span_impl. Qed.

Lemma parse_parts_spec pathStart : pathStart <= L -> exists parts, parse_parts url pathStart = Some parts /\ parts_ok pathStart parts.
Proof.
  intros Hp. unfold parse_parts.
  destruct (scan_spec (fun c => negb (c =? 0) && negb (c =? 63) && negb (c =? 35)) pathStart) as (pe & c & -> & Hpe & Hps & Hc & _);
    [done|done|]. run_option. rewrite Hc. run_option.
  apply (span_class _ path_char) in Hps; [|intros; breflect; unfold path_char, input_byte; lia].
  assert (exists qe, (if c =? 63 then scan (fun c => negb (c =? 0) && negb (c =? 35)) url pe else Some pe) = Some qe /\
    pe <= qe <= L /\ span query_char pe qe /\ (pe <> qe -> c = 63)) as (qe & -> & Hqe & Hqs & Hq).
  { destruct (c =? 63) eqn:E63; breflect; [|exists pe; split_and!; [done|lia|lia|apply span_nil; lia|done]].
    destruct (scan_spec (fun c => negb (c =? 0) && negb (c =? 35)) pe) as (qe & c' & -> & Hqe & Hqs & _); [done|lia|].
    exists qe. split_and!; [done|lia|lia| |done].
    apply (span_class _ query_char) in Hqs; [done|intros; breflect; unfold query_char, input_byte; lia]. }
  run_option. destruct (char_at_Some qe) as (c' & Hc' & _); [lia|]. rewrite Hc'. run_option. destruct (c' =? 35) eqn:E; breflect.
  - subst c'. assert (qe < L) by (by apply (char_at_nonzero qe 35 Hc')).
    destruct (scan_spec (fun c => negb (c =? 0)) (qe + 1)) as (fe & c2 & -> & Hfe & Hfs & _); [done|lia|]. run_option.
    eexists. split; [done|]. apply (span_class _ input_byte) in Hfs; [|intros; breflect; unfold input_byte; lia].
    split; cbn; try lia; try done. intros Hne. by rewrite <- (Hq Hne).
  - eexists. split; [done|]. split; cbn; try lia; try done; [intros Hne; by rewrite <- (Hq Hne)|apply span_nil; lia].
Qed.
End Input.
