(* ===== verification/URLLayout.v ===== *)
(** * The parts of a URL, as an abstract specification of [URL]

    A valid [URL] is the text of its parts; the ends of the parts that it
    records are sums of the lengths of the parts, and the accessors give the
    parts back. *)

From S2P Require Import Prelude ASCII WTFString StringOps URLCharacters URL.

(** ** The parts *)

Record Layout := mkLayout {
  l_scheme : list N;
  l_slashes : list N;
  l_user : list N;
  l_password : option (list N);
  l_host : list N;
  l_port : option (list N);
  l_path : list N;
  l_query : option (list N);
  l_fragment : option (list N)
}.

Definition prefixed (delimiter : N) (part : option (list N)) : list N :=
  match part with Some part => delimiter :: part | None => [] end.

#[global] Arguments prefixed delimiter !part /.

(** The user and the password end with an at sign when there are any. *)
Definition at_sign (user : list N) (password : option (list N)) : list N :=
  match user, password with [], None => [] | _, _ => [64] end.

Definition authority_text (user : list N) (password : option (list N)) (host : list N) (port : option (list N)) : list N :=
  user ++ prefixed 58 password ++ at_sign user password ++ host ++ prefixed 58 port.

Definition render (l : Layout) : list N :=
  l_scheme l ++ 58 :: l_slashes l ++ authority_text (l_user l) (l_password l) (l_host l) (l_port l)
  ++ l_path l ++ prefixed 63 (l_query l) ++ prefixed 35 (l_fragment l).

(** The number of characters before the last segment of a path. *)
Fixpoint after_slash (path : list N) : N :=
  match path with
  | [] => 0
  | c :: path => if existsb (fun c => c =? 47) path then 1 + after_slash path else if c =? 47 then 1 else 0
  end.

Definition size {A} (l : list A) : N := N.of_nat (length l).

(** The URL of the parts. *)
Definition url_of (string : WTFString) (isHTTP : bool) (l : Layout) : URL :=
  let schemeEnd := size (l_scheme l) in
  let userStart := schemeEnd + 1 + size (l_slashes l) in
  let userEnd := userStart + size (l_user l) in
  let passwordEnd := userEnd + size (prefixed 58 (l_password l)) in
  let hostEnd := passwordEnd + size (at_sign (l_user l) (l_password l)) + size (l_host l) in
  let portEnd := hostEnd + size (prefixed 58 (l_port l)) in
  let pathEnd := portEnd + size (l_path l) in
  let queryEnd := pathEnd + size (prefixed 63 (l_query l)) in
  mkURL string true isHTTP schemeEnd userStart userEnd passwordEnd hostEnd portEnd
    (portEnd + after_slash (l_path l)) pathEnd queryEnd (queryEnd + size (prefixed 35 (l_fragment l))).

(** ** Lemmas *)

Lemma size_app {A} (l k : list A) : size (l ++ k) = size l + size k.
Proof. unfold size. rewrite length_app. lia. Qed.

Lemma size_cons {A} (x : A) l : size (x :: l) = 1 + size l.
Proof. unfold size. simpl. lia. Qed.

Lemma size_nil {A} : size ([] : list A) = 0.
Proof. done. Qed.

Ltac sizes := repeat first [rewrite size_app|rewrite size_cons|rewrite size_nil]; try lia.

Lemma after_slash_snoc path c : after_slash (path ++ [c]) = if c =? 47 then size path + 1 else after_slash path.
Proof.
  induction path as [|d path IH]; [by cbn; destruct (c =? 47)|]. cbn [app after_slash]. rewrite existsb_app. cbn [existsb]. rewrite IH, orb_false_r.
  destruct (c =? 47); [rewrite orb_true_r; sizes|by rewrite orb_false_r].
Qed.

Lemma after_slash_le path : after_slash path <= size path.
Proof.
  induction path as [|c path IH]; [done|]. cbn [after_slash]. sizes. destruct (existsb _ _); [lia|]. destruct (c =? 47); lia.
Qed.

(** The characters behind the last slash, and the slash. *)
Lemma after_slash_spec path : exists dir segment, path = dir ++ segment /\ after_slash path = size dir /\
  Forall (fun c => c <> 47) segment /\ (dir = [] \/ last dir = Some 47).
Proof.
  induction path as [|c path IH] using rev_ind; [exists [], []; split_and!; [done|done|done|by left]|].
  rewrite after_slash_snoc. destruct (c =? 47) eqn:E; breflect.
  - exists (path ++ [c]), []. rewrite app_nil_r. split_and!; [done|sizes|done|right; rewrite last_snoc; by f_equal].
  - destruct IH as (dir & segment & -> & -> & Hs & Hd). exists dir, (segment ++ [c]). rewrite app_assoc.
    split_and!; [done|done| |done]. apply Forall_app. split; [done|by apply Forall_singleton].
Qed.

Lemma String_substring_part s pre mid post : String_chars s = pre ++ mid ++ post ->
  String_chars (String_substring s (size pre) (size mid)) = mid.
Proof.
  destruct s as [impl|]; cbn [String_chars String_substring]; [|by destruct pre, mid].
  intros Hs. unfold impl_substring. rewrite Hs, !length_app. unfold size.
  destruct (_ <=? N.of_nat (length pre)) eqn:E1; breflect; [destruct mid; [done|simpl in *; lia]|].
  destruct ((_ <=? N.of_nat (length mid)) && _) eqn:E2; breflect.
  - assert (pre = []) as -> by (destruct pre; simpl in *; [done|lia]). assert (post = []) as -> by (destruct post; simpl in *; [done|lia]).
    rewrite Hs. cbn. by rewrite app_nil_r.
  - assert (take (length mid) (drop (length pre) (pre ++ mid ++ post)) = mid) as Htake by (by rewrite drop_app_length, take_app_length).
    match goal with |- context [if ?t then ?x else N.of_nat (length mid)] => assert ((if t then x else N.of_nat (length mid)) = N.of_nat (length mid)) as -> end.
    { destruct (_ <=? N.of_nat (length mid)) eqn:E3; [breflect; lia|done]. }
    destruct (N.of_nat (length mid) =? 0) eqn:E4; breflect; [by destruct mid|]. cbn [impl_chars]. by rewrite ?Hs, !Nat2N.id.
Qed.

Lemma sub32_le a b : b <= a -> a < 2 ^ 32 -> sub32 a b = a - b.
Proof.
  intros. unfold sub32, wrap32. replace (a + 2 ^ 32 - b) with (a - b + 1 * 2 ^ 32) by lia. rewrite N.Div0.mod_add. apply N.mod_small. lia.
Qed.

Lemma substring_part s a b pre mid post : String_chars s = pre ++ mid ++ post -> a = size pre -> b = size mid ->
  String_chars (String_substring s a b) = mid.
Proof. intros Hs -> ->. by eapply String_substring_part. Qed.

Lemma prefixed_None d part : (size (prefixed d part) =? 0) = match part with Some _ => false | None => true end.
Proof. destruct part; cbn [prefixed]; sizes; [|done]. apply N.eqb_neq. lia. Qed.

Lemma eqb_shift a b : (a + b =? a) = (b =? 0).
Proof. destruct (b =? 0) eqn:E; breflect; [apply N.eqb_eq|apply N.eqb_neq]; lia. Qed.

(** ** The accessors *)

Ltac url_fields := unfold url_of; cbn [m_schemeEnd m_userStart m_userEnd m_passwordEnd m_hostEnd m_portEnd m_pathAfterLastSlash m_pathEnd m_queryEnd m_fragmentEnd].

Section Accessors.
Context (string : WTFString) (isHTTP : bool) (l : Layout) (Hstring : String_chars string = render l) (Hsize : size (render l) < 2 ^ 32).
Notation u := (url_of string isHTTP l).

Lemma render_size : size (render l) = m_fragmentEnd u.
Proof. unfold render, authority_text. url_fields. sizes. Qed.

Lemma hostStart_url_of : hostStart u = m_passwordEnd u + size (at_sign (l_user l) (l_password l)).
Proof.
  unfold hostStart. url_fields. destruct (l_user l), (l_password l); cbn [prefixed at_sign];
    rewrite ?size_cons, ?size_nil; match goal with |- context [?a =? ?b] => destruct (a =? b) eqn:E end; breflect; lia.
Qed.

(** The text, cut before and after a part. *)
Ltac cut_at pre mid post := apply (substring_part _ _ _ pre mid post); [transitivity (render l); [exact Hstring|unfold render, authority_text; repeat (rewrite <- ?app_assoc; cbn [app]); done]| | ].

Lemma bound_url_of x : x <= m_fragmentEnd u -> x < 2 ^ 32.
Proof. rewrite <- render_size. lia. Qed.

Lemma protocol_url_of : String_chars (protocol u) = l_scheme l.
Proof. unfold protocol, String_left. eapply (substring_part _ _ _ [] (l_scheme l)); [exact Hstring|done|done]. Qed.

Lemma host_url_of : String_chars (host u) = l_host l.
Proof.
  unfold host. rewrite hostStart_url_of.
  rewrite sub32_le; [|url_fields; lia|apply bound_url_of; url_fields; lia].
  cut_at (l_scheme l ++ 58 :: l_slashes l ++ l_user l ++ prefixed 58 (l_password l) ++ at_sign (l_user l) (l_password l))
    (l_host l) (prefixed 58 (l_port l) ++ l_path l ++ prefixed 63 (l_query l) ++ prefixed 35 (l_fragment l));
    url_fields; sizes.
Qed.

Lemma user_url_of : String_chars (encodedUser u) = l_user l.
Proof.
  unfold encodedUser. rewrite sub32_le; [|url_fields; lia|apply bound_url_of; url_fields; lia].
  cut_at (l_scheme l ++ 58 :: l_slashes l) (l_user l) (prefixed 58 (l_password l) ++ at_sign (l_user l) (l_password l) ++ l_host l
    ++ prefixed 58 (l_port l) ++ l_path l ++ prefixed 63 (l_query l) ++ prefixed 35 (l_fragment l)); url_fields; sizes.
Qed.

Lemma path_url_of : String_chars (path u) = l_path l.
Proof.
  unfold path. rewrite sub32_le; [|url_fields; lia|apply bound_url_of; url_fields; lia].
  cut_at (l_scheme l ++ 58 :: l_slashes l ++ authority_text (l_user l) (l_password l) (l_host l) (l_port l))
    (l_path l) (prefixed 63 (l_query l) ++ prefixed 35 (l_fragment l)); url_fields; unfold authority_text; sizes.
Qed.

(** A part that may be missing. *)
Definition optional (part : option (list N)) (s : WTFString) : Prop :=
  match part with Some chars => String_isNull s = false /\ String_chars s = chars | None => s = None end.

Lemma optional_part part a b x pre post : String_isNull string = false ->
  (part = None -> x = true) -> (forall chars, part = Some chars -> x = false /\ a = size pre /\ b = size chars /\ render l = pre ++ chars ++ post) ->
  optional part (if (x : bool) then None else String_substring string a b).
Proof.
  intros Hn H1 H2. destruct part as [chars|]; [|by rewrite H1]. destruct (H2 chars eq_refl) as (-> & -> & -> & Hr). split; [by destruct string|].
  apply (substring_part _ _ _ pre chars post); [by rewrite Hstring|done|done].
Qed.

Context (Hnull : String_isNull string = false).

Lemma pass_url_of : optional (l_password l) (encodedPass u).
Proof.
  unfold encodedPass. apply (optional_part _ _ _ _ (l_scheme l ++ 58 :: l_slashes l ++ l_user l ++ [58])
    (at_sign (l_user l) (l_password l) ++ l_host l ++ prefixed 58 (l_port l) ++ l_path l ++ prefixed 63 (l_query l) ++ prefixed 35 (l_fragment l)) Hnull).
  - intros E. url_fields. rewrite eqb_shift, prefixed_None. by rewrite E.
  - intros chars E. url_fields. rewrite eqb_shift, prefixed_None. assert (Hs := Hsize). revert Hs. unfold render, authority_text. rewrite E. cbn [prefixed].
    sizes. intros Hs. split_and!; [done|sizes| |by repeat (rewrite <- ?app_assoc; cbn [app])].
    rewrite (sub32_le (_ + _)); sizes. rewrite sub32_le; sizes.
Qed.

Lemma query_url_of : optional (l_query l) (query u).
Proof.
  unfold query. apply (optional_part _ _ _ _ (l_scheme l ++ 58 :: l_slashes l ++ authority_text (l_user l) (l_password l) (l_host l) (l_port l)
    ++ l_path l ++ [63]) (prefixed 35 (l_fragment l)) Hnull).
  - intros E. url_fields. rewrite eqb_shift, prefixed_None. by rewrite E.
  - intros chars E. url_fields. rewrite eqb_shift, prefixed_None. assert (Hs := Hsize). revert Hs. unfold render, authority_text. rewrite E. cbn [prefixed].
    sizes. intros Hs. split_and!; [done|sizes|rewrite sub32_le; sizes|by repeat (rewrite <- ?app_assoc; cbn [app])].
Qed.

Lemma fragment_url_of : optional (l_fragment l) (fragmentIdentifier u).
Proof.
  unfold fragmentIdentifier. apply (optional_part _ _ _ _ (l_scheme l ++ 58 :: l_slashes l ++ authority_text (l_user l) (l_password l) (l_host l)
    (l_port l) ++ l_path l ++ prefixed 63 (l_query l) ++ [35]) [] Hnull).
  - intros E. url_fields. rewrite eqb_shift, prefixed_None. by rewrite E.
  - intros chars E. url_fields. rewrite eqb_shift, prefixed_None. assert (Hs := Hsize). revert Hs. unfold render, authority_text. rewrite E. cbn [prefixed].
    sizes. intros Hs. split_and!; [done|sizes|rewrite sub32_le; sizes|]. rewrite app_nil_r. by repeat (rewrite <- ?app_assoc; cbn [app]).
Qed.
End Accessors.
