(* ===== verification/URLAssemble.v ===== *)
(** * [URL::parse]: the output

    The parts fit in the output buffer, and what is written is made of ASCII
    characters, part after part. *)

From S2P Require Import Prelude ASCII WTFString StringOps URLCharacters URL URLLayout URLParse URLSafety.

(** ** Writing *)

Lemma emit_ok n chars buffer : size buffer + size chars <= n -> emit n chars buffer = Some (buffer ++ chars).
Proof. intros. unfold emit, size in *. rewrite (proj2 (N.leb_le _ _)); [done|lia]. Qed.

(** ** The dots of the path *)

Lemma head_rev_last {A} (l : list A) : head (rev l) = last l.
Proof. induction l as [|x l _] using rev_ind; [done|]. by rewrite rev_app_distr, last_snoc. Qed.

Lemma push_Some size c dst : N.of_nat (length dst) < size -> push size c dst = Some (c :: dst).
Proof. intros. unfold push. by rewrite (proj2 (N.ltb_lt _ _)). Qed.

Section Dots.
Context (src : list N) (a e : N) (P : N -> Prop) (below : option N) (n : N).
Context (Hae : a < e) (Hspan : forall k, a <= k < e -> exists c, src !!N k = Some c /\ P c).
Context (Hread : is_Some (src !!N e) \/ src !!N (e - 1) = Some 47) (Hn : e - a <= n).
Context (Hstart : src !!N a = Some 47 \/ below <> None \/ (forall k, a <= k < e -> src !!N k <> Some 46)).

(** What is written so far, from the last character: it starts with a slash if the source does. *)
Definition dst_ok (pos : N) (dst : list N) : Prop :=
  Forall P dst /\ N.of_nat (length dst) <= N.min pos e - a /\ (src !!N a = Some 47 -> last dst = Some 47) /\
  (dst <> [] \/ below <> None).

Lemma rewind_ok dst : Forall P dst ->
  Forall P (rewind dst) /\ (length (rewind dst) <= length dst)%nat /\ (last dst = Some 47 -> last (rewind dst) = Some 47).
Proof.
  induction 1 as [|c dst Hc Hd IH]; [done|]. cbn [rewind]. destruct (c =? 47) eqn:E; [by split_and!; [constructor| |]|].
  destruct IH as (? & ? & IH). split_and!; [done|simpl in *; lia|]. intros Hl. apply IH.
  destruct dst as [|c' dst]; [injection Hl as ->; done|]. by rewrite last_cons_cons in Hl.
Qed.

Lemma tail_ok dst : Forall P dst ->
  let dst' := if (1 <? length dst)%nat then tail dst else dst in
  Forall P dst' /\ (length dst' <= length dst)%nat /\ (last dst = Some 47 -> last dst' = Some 47).
Proof.
  intros Hd. destruct dst as [|c [|c' dst]]; [done|done|]. cbn. apply Forall_cons in Hd as [_ Hd]. split_and!; [done|lia|done].
Qed.

Lemma last_nonempty (dst : list N) : last dst = Some 47 -> dst <> [].
Proof. by destruct dst. Qed.

Lemma push_ok pos dst c : dst_ok pos dst -> a < pos -> pos < e -> src !!N pos = Some c ->
  push n c dst = Some (c :: dst) /\ dst_ok (pos + 1) (c :: dst).
Proof.
  intros (Hd & Hl & Hcase & _) Ha Hp Hc. rewrite push_Some by lia. split; [done|].
  destruct (Hspan pos) as (c' & Hc' & Hb); [lia|]. simplify_eq. split_and!; [by constructor|cbn [length]; lia| |by left].
  intros Hs. specialize (Hcase Hs). destruct dst; [done|]. by rewrite last_cons_cons.
Qed.

Lemma read_after pos : a <= pos -> pos < e -> src !!N pos = Some 46 -> exists c, src !!N (pos + 1) = Some c.
Proof.
  intros Ha Hp Hc. destruct (N.lt_ge_cases (pos + 1) e) as [Hlt|Hge]; [destruct (Hspan (pos + 1)) as (c & ? & _); [lia|by exists c]|].
  replace (pos + 1) with e by lia. destruct Hread as [[c ?]|Hlast]; [by exists c|]. replace (e - 1) with pos in Hlast by lia. congruence.
Qed.

Lemma copy_dots_spec fuel pos dst : a < pos -> dst_ok pos dst -> e <= pos + N.of_nat fuel ->
  exists dst', copy_dots fuel below n src pos e dst = Some dst' /\ dst_ok e dst'.
Proof.
  revert pos dst. induction fuel as [|fuel IH]; intros pos dst Hpos Hdst Hfuel; cbn [copy_dots].
  - rewrite (proj2 (N.ltb_ge _ _)) by lia. exists dst. split; [done|]. destruct Hdst as (? & ? & ? & ?). split_and!; [done|lia|done|done].
  - destruct (pos <? e) eqn:E; breflect;
      [|exists dst; split; [done|]; destruct Hdst as (? & ? & ? & ?); split_and!; [done|lia|done|done]].
    destruct (Hspan pos) as (c & Hc & _); [lia|]. rewrite Hc. run_option.
    destruct (push_ok pos dst c Hdst Hpos E Hc) as [Hpush Hnext].
    assert (exists dst', (dst0 ← push n c dst; copy_dots fuel below n src (pos + 1) e dst0) = Some dst' /\ dst_ok e dst') as Hcopy.
    { rewrite Hpush. run_option. apply IH; [lia|done|lia]. }
    destruct (c =? 46) eqn:Ec; [|exact Hcopy]. breflect. subst c.
    destruct Hdst as (Hd & Hl & Hlast & Hne).
    assert (exists previous, (match dst with previous :: _ => Some previous | [] => below end) = Some previous) as [previous ->].
    { destruct dst; [|by eexists]. destruct Hne as [|Hb]; [done|]. destruct below; [by eexists|done]. }
    run_option. destruct (previous =? 47); [|exact Hcopy].
    destruct (read_after pos) as (c1 & Hc1); [lia|lia|done|]. rewrite Hc1. run_option.
    destruct ((c1 =? 47) || (pos + 1 =? e)) eqn:E1.
    + apply IH; [lia| |lia]. split_and!; [done|lia|done|done].
    + apply orb_false_iff in E1 as [_ E1]. breflect. destruct (c1 =? 46) eqn:E2; [|exact Hcopy]. breflect. subst c1.
      destruct (read_after (pos + 1)) as (c2 & Hc2); [lia|lia|done|]. replace (pos + 1 + 1) with (pos + 2) in Hc2 by lia. rewrite Hc2. run_option.
      destruct (_ || _); [|exact Hcopy]. destruct (tail_ok dst Hd) as (Ht & Htl & Htlast).
      destruct (rewind_ok _ Ht) as (? & Hr & Hrlast). apply IH; [lia| |lia]. split_and!; [done| | |].
      * eapply N.le_trans; [|eapply N.le_trans; [exact Hl|lia]]. lia.
      * auto.
      * destruct Hstart as [Hs|[Hb|Hnodot]]; [left; by apply last_nonempty; auto|by right|]. by destruct (Hnodot pos); [lia|].
Qed.

Lemma copyPathRemovingDots_dst : e - a + 1 <= n -> exists path, copyPathRemovingDots below n src a e = Some path /\
  Forall P path /\ N.of_nat (length path) <= e - a /\ (src !!N a = Some 47 -> head path = Some 47).
Proof.
  intros Hn1. unfold copyPathRemovingDots. rewrite (proj2 (N.eqb_neq a e)) by lia. cbn [negb].
  destruct (Hspan a) as (c & Hc & Hb); [lia|]. rewrite Hc. run_option. rewrite push_Some by (simpl; lia). run_option.
  destruct (copy_dots_spec (N.to_nat (e - a)) (a + 1) [c]) as (dst & -> & Hd & Hl & Hlast & _); [lia| |lia|].
  { split_and!; [by apply Forall_singleton|simpl; lia|intros Hs; simpl; congruence|by left]. }
  run_option. rewrite push_Some by lia. run_option. exists (rev dst). split_and!; [done|by apply Forall_rev|rewrite length_rev; lia|].
  intros Hs. rewrite <- Hc in Hs. rewrite head_rev_last. auto.
Qed.
End Dots.

Lemma copyPathRemovingDots_spec url a e : Forall (fun c => c < 256) url -> int_length url -> a <= e -> e <= N.of_nat (length url) ->
  span url path_char a e -> e <= a \/ char_at url a = Some 47 \/ span url (fun c => c <> 46) a e ->
  exists path, copyPathRemovingDots None (e - a + 1) (memory url) a e = Some path /\ Forall path_char path /\ N.of_nat (length path) <= e - a /\
    (char_at url a = Some 47 -> a < e -> head path = Some 47).
Proof.
  intros Hbytes Hint Hae He Hspan Hstart. destruct (decide (a = e)) as [->|Hne].
  - unfold copyPathRemovingDots. rewrite N.eqb_refl. exists []. cbn [negb]. run_option. rewrite push_Some by (simpl; lia). run_option.
    split_and!; [done|done|simpl; lia|lia].
  - destruct (copyPathRemovingDots_dst (memory url) a e path_char None (e - a + 1)) as (path & -> & Hp & Hl & Hh); [lia| | |lia| |lia|].
    + intros k Hk. destruct (Hspan k Hk) as (c & ?%char_at_memory & ?). by exists c.
    + left. destruct (char_at_Some url Hbytes Hint e He) as (c & Hc%char_at_memory & _). by exists c.
    + destruct Hstart as [?|[?%char_at_memory|Hnodot]]; [lia|by left|right; right]. intros k Hk Hc. destruct (Hnodot k Hk) as (c & Hc'%char_at_memory & ?). congruence.
    + exists path. split_and!; [done|done|done|]. intros ?%char_at_memory _. auto.
Qed.

(** ** The authority *)

Definition user_char (c : N) : Prop := isUserInfoChar c = true.
Definition digit_char (c : N) : Prop := isASCIIDigit c = true.

(** The ends of the parts of an authority at [start]. *)
Definition ends_of (start : N) (user : list N) (password : option (list N)) (host : list N) (port : option (list N)) : Ends :=
  let userEnd := start + size user in
  let passwordEnd := userEnd + size (prefixed 58 password) in
  let hostEnd := passwordEnd + size (at_sign user password) + size host in
  mkEnds start userEnd passwordEnd hostEnd (hostEnd + size (prefixed 58 port)).

Record text_ok (user : list N) (password : option (list N)) (host : list N) (port : option (list N)) : Prop := {
  to_user : Forall user_char user;
  to_password : forall chars, password = Some chars -> chars <> [] /\ Forall user_char chars;
  to_host : Forall host_char host;
  to_port : forall chars, port = Some chars -> Forall digit_char chars
}.

Section Authority.
Context (url : list N) (Hbytes : Forall (fun c => c < 256) url) (schemeEnd : N) (a : Authority) (Ha : authority_ok url schemeEnd a).
Notation L := (N.of_nat (length url)).

Lemma write_password n buffer : size buffer + (passwordEnd a - userEnd a) <= n -> exists password,
  (if negb (passwordEnd a =? passwordStart a)
   then password ← slice url (passwordStart a) (passwordEnd a); emit n (58 :: password) buffer
   else Some buffer) = Some (buffer ++ prefixed 58 password) /\
  size (prefixed 58 password) <= passwordEnd a - userEnd a /\ (password <> None -> passwordStart a <> passwordEnd a) /\
  forall chars, password = Some chars -> chars <> [] /\ Forall user_char chars.
Proof.
  intros Hn. destruct (passwordEnd a =? passwordStart a) eqn:E; breflect; cbn [negb].
  - exists None. cbn [prefixed]. rewrite app_nil_r. split_and!; [done|sizes|done|done].
  - destruct Ha as [_ _ _ [Hp1 Hp2] Hcolon [Hh1 Hh2] _ [Ht1 Ht2] _ _ _ [_ Hend] _ Hspan _ _]. specialize (Hcolon ltac:(done)).
    destruct (slice_spec url user_char (passwordStart a) (passwordEnd a)) as (s & -> & Hs & Hc); [done|lia|done|]. run_option.
    fold (size s) in Hs. rewrite emit_ok by (sizes). exists (Some s). cbn [prefixed]. split_and!; [done|sizes|done|].
    intros chars [= <-]. split; [|done]. intros ->. rewrite size_nil in Hs. lia.
Qed.

Lemma write_host n buffer (lower local : bool) : size buffer + (hostEnd a - au_hostStart a) <= n -> exists host,
  (if negb local
   then host ← slice url (au_hostStart a) (hostEnd a); emit n (if lower then toASCIILower_char <$> host else host) buffer
   else Some buffer) = Some (buffer ++ host) /\
  size host <= hostEnd a - au_hostStart a /\ Forall host_char host.
Proof.
  intros Hn. destruct local; cbn [negb]; [exists []; rewrite app_nil_r; split_and!; [done|sizes|done]|].
  destruct Ha as [_ _ _ _ _ [Hh1 Hh2] _ [Ht1 Ht2] _ _ _ [_ Hend] _ _ Hspan _].
  destruct (slice_spec url host_char (au_hostStart a) (hostEnd a)) as (s & -> & Hs & Hc); [done|lia|done|]. run_option.
  fold (size s) in Hs. assert (size (toASCIILower_char <$> s) = size s) as Hl by (unfold size; by rewrite length_fmap).
  eexists. split; [apply emit_ok; destruct lower; lia|]. destruct lower; split; [lia| |lia|done].
  apply Forall_fmap. eapply Forall_impl; [exact Hc|]. intros c. apply lower_host.
Qed.

Lemma write_port n buffer (b : list N -> bool) : size buffer + (portEnd a - hostEnd a) <= n -> exists port,
  (if negb (hostEnd a =? portStart a)
   then port ← slice url (portStart a) (portEnd a); if b port then emit n (58 :: port) buffer else Some buffer
   else Some buffer) = Some (buffer ++ prefixed 58 port) /\
  size (prefixed 58 port) <= portEnd a - hostEnd a /\ forall chars, port = Some chars -> Forall digit_char chars.
Proof.
  intros Hn. destruct (hostEnd a =? portStart a) eqn:E; breflect; cbn [negb];
    [exists None; cbn [prefixed]; rewrite app_nil_r; split_and!; [done|sizes|done]|].
  destruct Ha as [_ _ _ _ _ _ _ [Ht1 Ht2] Hcolon _ _ [_ Hend] _ _ _ Hspan]. specialize (Hcolon E).
  destruct (slice_spec url digit_char (portStart a) (portEnd a)) as (s & -> & Hs & Hc); [done|lia|done|]. run_option.
  fold (size s) in Hs. destruct (b s); [|exists None; cbn [prefixed]; rewrite app_nil_r; split_and!; [done|sizes|done]].
  exists (Some s). cbn [prefixed]. rewrite emit_ok by sizes. split_and!; [done|sizes|by intros chars [= <-]].
Qed.

Lemma at_sign_eqb start user password : (start + size user + size (prefixed 58 password) =? start) =
  match at_sign user password with [] => true | _ => false end.
Proof.
  destruct user, password; cbn [at_sign prefixed]; sizes; first [apply N.eqb_eq; lia|apply N.eqb_neq; lia].
Qed.

Lemma write_authority_spec n m_schemeEnd isFile local buffer : size buffer + (portEnd a - userStart a) <= n ->
  exists user password host port,
    write_authority n url a m_schemeEnd isFile local buffer
      = Some (ends_of (size buffer) user password host port, buffer ++ authority_text user password host port) /\
    size (authority_text user password host port) <= portEnd a - userStart a /\ text_ok user password host port /\
    (host <> [] -> au_hostStart a <> hostEnd a).
Proof.
  intros Hn. unfold write_authority. destruct Ha as [_ _ Hu [Hp1 Hp2] Hcolon [Hh1 Hh2] Hat [Ht1 Ht2] _ _ _ [_ Hend] Huser _ _ _].
  destruct (slice_spec url user_char (userStart a) (userEnd a)) as (user & -> & Hsu & Hcu); [done|lia|done|]. run_option.
  fold (size user) in Hsu. rewrite emit_ok by sizes. run_option.
  destruct (write_password n (buffer ++ user)) as (password & -> & Hsp & Hnone & Hcp); [sizes|]. run_option.
  assert (size (at_sign user password) <= au_hostStart a - passwordEnd a) as Hsat.
  { destruct (decide (at_sign user password = [])) as [->|Hne]; [sizes|]. rewrite Hat.
    - destruct user, password; cbn [at_sign]; sizes.
    - destruct user as [|? user]; [right|left; rewrite size_cons in Hsu; lia]. destruct password; [by apply Hnone|done]. }
  assert ((if negb (position ((buffer ++ user) ++ prefixed 58 password) =? position buffer)
           then emit n [64] ((buffer ++ user) ++ prefixed 58 password) else Some ((buffer ++ user) ++ prefixed 58 password))
    = Some (((buffer ++ user) ++ prefixed 58 password) ++ at_sign user password)) as ->.
  { change position with (@size N). rewrite !size_app, at_sign_eqb.
    destruct (at_sign user password) eqn:E; cbn [negb]; [by rewrite app_nil_r|]. rewrite size_cons in Hsat. rewrite emit_ok by (sizes).
    f_equal. f_equal. destruct user, password; simplify_eq/=; done. }
  run_option. set (buffer' := ((buffer ++ user) ++ prefixed 58 password) ++ at_sign user password).
  assert (size buffer' = size buffer + size user + size (prefixed 58 password) + size (at_sign user password)) as Hb' by (unfold buffer'; sizes).
  edestruct (write_host n buffer') as (host & -> & Hsh & Hch); [lia|]. run_option.
  destruct (write_port n (buffer' ++ host) (fun port => (negb (portEnd a =? portStart a) && negb (isDefaultPortForScheme port (buffer' ++ host) m_schemeEnd))
    || ((au_hostStart a =? hostEnd a) && negb (hostEnd a =? portStart a)))) as (port & -> & Hst & Hct); [sizes|]. run_option.
  exists user, password, host, port. split_and!.
  - f_equal. unfold ends_of. change position with (@size N). f_equal; [f_equal|]; rewrite ?size_app, ?Hb'; sizes.
    unfold buffer', authority_text. by rewrite <- !app_assoc.
  - unfold authority_text. sizes.
  - by split.
  - intros Hne E. destruct host; [done|]. rewrite size_cons in Hsh. lia.
Qed.
End Authority.

(** ** The path, the query and the fragment *)

(** The characters of the parts of a URL. *)
Definition path_text (c : N) : Prop := url_char c /\ c <> 63 /\ c <> 35.
Definition query_text (c : N) : Prop := url_char c /\ c <> 35.

(** Escaping makes no question mark and no number sign. *)
Lemma escape_keeps d c : d ∈ [63; 35] -> c < 256 -> c <> d ->
  Forall (fun x => x <> d) (escape_bad_char c) /\ Forall (fun x => x <> d) (escape_opaque_char c).
Proof.
  intros Hd Hc Hne.
  assert (forallb (fun c => forallb (fun d => (c =? d) || (forallb (fun x => negb (x =? d)) (escape_bad_char c)
    && forallb (fun x => negb (x =? d)) (escape_opaque_char c))) [63; 35]) (for_range 0 256) = true) as Hall by (by vm_compute).
  pose proof (all_bytes _ c Hall Hc) as Hb. cbn beta in Hb. rewrite forallb_forall in Hb. apply list_elem_of_In, Hb in Hd.
  apply N.eqb_neq in Hne. rewrite Hne in Hd. apply andb_true_iff in Hd as [H1 H2]. rewrite forallb_forall in H1, H2.
  split; apply Forall_forall; intros x; [intros Hx%list_elem_of_In%H1|intros Hx%list_elem_of_In%H2]; by breflect.
Qed.

Lemma Forall_and_intro {A} (P Q : A -> Prop) l : Forall P l -> Forall Q l -> Forall (fun x => P x /\ Q x) l.
Proof. rewrite !Forall_forall. naive_solver. Qed.

Lemma escape_path (opaque : bool) c : path_char c ->
  (length (if opaque then escape_opaque_char c else escape_bad_char c) <= 3)%nat /\
  Forall path_text (if opaque then escape_opaque_char c else escape_bad_char c).
Proof.
  intros ((H0 & Hc) & H63 & H35). destruct (escape_keeps 63 c) as [Ha Hb]; [set_solver|done|done|].
  destruct (escape_keeps 35 c) as [Ha' Hb']; [set_solver|done|done|]. destruct (escape_bad_ok c H0 Hc), (escape_opaque_ok c Hc).
  destruct opaque; (split; [done|]); (apply (Forall_and_intro url_char (fun x => x <> 63 /\ x <> 35)); [done|by apply Forall_and_intro]).
Qed.

Lemma escape_query c : query_char c -> (length (escape_bad_char c) <= 3)%nat /\ Forall query_text (escape_bad_char c).
Proof.
  intros ((H0 & Hc) & H35). destruct (escape_keeps 35 c) as [Ha _]; [set_solver|done|done|]. destruct (escape_bad_ok c H0 Hc).
  split; [done|]. by apply (Forall_and_intro url_char (fun x => x <> 35)).
Qed.

Lemma escaped_ok (f : N -> list N) (P Q : N -> Prop) str :
  (forall c, P c -> (length (f c) <= 3)%nat /\ Forall Q (f c)) -> Forall P str ->
  size (str ≫= f) <= 3 * size str /\ Forall Q (str ≫= f).
Proof.
  intros Hf. induction 1 as [|c str Hc _ [IHl IHf]]; [split; [done|constructor]|].
  rewrite bind_cons. sizes. destruct (Hf c Hc) as [Hl ?]. split; [|by apply Forall_app]. unfold size at 1. lia.
Qed.

Lemma slice_head url a b s : slice url a b = Some s -> a < b -> head s = memory url !!N a.
Proof.
  unfold slice. intros Hs Hab. rewrite (proj2 (N.leb_gt b a)) in Hs by lia. destruct (_ <? b) eqn:E; breflect; [done|]. injection Hs as <-.
  destruct (lookupN_is_Some (memory url) a) as [c Hc]; [lia|]. rewrite Hc, (drop_S _ _ _ Hc).
  destruct (N.to_nat (b - a)) eqn:En; [lia|done].
Qed.

Section Parts.
Context (url : list N) (Hbytes : Forall (fun c => c < 256) url) (Hint : int_length url).
Notation L := (N.of_nat (length url)).

Lemma write_path_spec n hierarchical start last buffer : start <= last -> last <= L -> span url path_char start last ->
  (hierarchical = true -> dots_ok url start) -> size buffer + 3 * (last - start) <= n ->
  exists path, write_path n url start last hierarchical buffer = Some (buffer ++ path) /\
    size path <= 3 * (last - start) /\ Forall path_text path /\
    (char_at url start = Some 47 -> start < last -> head path = Some 47) /\ (last = start -> path = []).
Proof.
  intros Hle Hlast Hspan Hdots Hn.
  assert (exists s (opaque : bool), write_path n url start last hierarchical buffer
      = emit n (s ≫= if opaque then escape_opaque_char else escape_bad_char) buffer /\
    Forall path_char s /\ size s <= last - start /\ (char_at url start = Some 47 -> start < last -> head s = Some 47)) as (s & opaque & -> & Hc & Hl & Hhead).
  { unfold write_path. destruct (slice_spec url path_char start last) as (s & Hs & Hl & Hc); [done|done|done|].
    assert (char_at url start = Some 47 -> start < last -> head s = Some 47) as Hhead by (intros <-%char_at_memory Hlt; by eapply slice_head).
    destruct hierarchical; cbn [negb]; [destruct (hasSlashDotOrDotDot url); cbn [negb]|].
    - destruct (copyPathRemovingDots_spec url start last) as (s' & -> & Hc' & Hl' & Hh'); [done|done|done|done|done| |].
      { apply (Hdots eq_refl). eapply span_impl; [done|done| |exact Hspan]. intros c _ ((? & ?) & ? & ?). split_and!; [lia|done|done]. }
      run_option. by exists s', false.
    - rewrite Hs. run_option. exists s, false. split_and!; [done|done|unfold size; lia|done].
    - rewrite Hs. run_option. exists s, true. split_and!; [done|done|unfold size; lia|done]. }
  destruct (escaped_ok (if opaque then escape_opaque_char else escape_bad_char) path_char path_text s) as [He1 He2];
    [intros c Hcc; pose proof (escape_path opaque c Hcc); by destruct opaque|done|].
  rewrite emit_ok by lia. eexists. split_and!; [done|lia|done| |].
  - intros Hs Hlt. specialize (Hhead Hs Hlt). destruct s as [|c s]; [done|]. injection Hhead as ->. by destruct opaque.
  - intros ->. assert (s = []) as -> by (destruct s; [done|rewrite size_cons in Hl; lia]). done.
Qed.

Lemma after_last_slash_spec fuel pre path post : (length path <= fuel)%nat ->
  after_last_slash fuel (pre ++ path ++ post) (size pre) (size pre + size path) = Some (size pre + after_slash path).
Proof.
  revert post fuel. induction path as [|c path IH] using rev_ind; intros post fuel Hf.
  - destruct fuel; cbn [after_last_slash after_slash]; sizes; rewrite (proj2 (N.ltb_ge _ _)) by lia; f_equal; lia.
  - rewrite length_app in Hf. cbn [length] in Hf. destruct fuel as [|fuel]; [lia|]. cbn [after_last_slash]. sizes.
    rewrite (proj2 (N.ltb_lt _ _)) by lia.
    assert ((pre ++ (path ++ [c]) ++ post) !!N (size pre + (size path + (1 + 0)) - 1) = Some c) as ->.
    { rewrite app_assoc, lookup_app_l by (rewrite !length_app; unfold size; simpl; lia).
      rewrite app_assoc, lookup_app_r by (rewrite !length_app; unfold size; lia). rewrite length_app. unfold size.
      by replace (N.to_nat _ - _)%nat with 0%nat by lia. }
    run_option. rewrite after_slash_snoc. destruct (c =? 47); [f_equal; lia|].
    rewrite <- app_assoc. replace (size pre + (size path + (1 + 0)) - 1) with (size pre + size path) by lia. apply IH. lia.
Qed.

Lemma write_query n parts start buffer : parts_ok url start parts -> size buffer + 3 * (queryEnd parts - pathEnd parts) <= n ->
  exists query, (s ← slice url (pathEnd parts) (queryEnd parts); emit n (escapingBadChars s) buffer) = Some (buffer ++ prefixed 63 query) /\
    size (prefixed 63 query) <= 3 * (queryEnd parts - pathEnd parts) /\ forall chars, query = Some chars -> Forall query_text chars.
Proof.
  intros [_ Hle [Hf1 Hf2] Hq _ Hend _ Hspan _] Hn.
  destruct (slice_spec url query_char (pathEnd parts) (queryEnd parts)) as (s & Hs & Hl & Hc); [done|lia|done|]. fold (size s) in Hl.
  rewrite Hs. run_option. destruct (escaped_ok escape_bad_char query_char query_text s escape_query Hc) as [He1 He2].
  fold (escapingBadChars s) in *. rewrite emit_ok by lia. destruct s as [|c s].
  - exists None. cbn [prefixed]. split_and!; [done|sizes|done].
  - rewrite size_cons in Hl. specialize (Hq ltac:(lia)).
    assert (c = 63) as ->. { apply char_at_memory in Hq. apply slice_head in Hs; [|lia]. rewrite Hq in Hs. by injection Hs as ->. }
    change (escapingBadChars (63 :: s)) with (63 :: escapingBadChars s) in *. exists (Some (escapingBadChars s)). cbn [prefixed].
    split_and!; [done|rewrite !size_cons in *; lia|]. intros chars [= <-]. by apply Forall_cons in He2 as [_ ?].
Qed.

Lemma write_fragment n parts start buffer : parts_ok url start parts -> size buffer + 3 * (fragmentEnd parts - queryEnd parts) <= n ->
  exists fragment,
    (if negb (fragmentEnd parts =? queryEnd parts)
     then buffer ← emit n [35] buffer; s ← slice url (fragmentStart parts) (fragmentEnd parts); emit n (escapedNonHierarchicalPart s) buffer
     else Some buffer) = Some (buffer ++ prefixed 35 fragment) /\
    size (prefixed 35 fragment) <= 3 * (fragmentEnd parts - queryEnd parts) /\ forall chars, fragment = Some chars -> Forall url_char chars.
Proof.
  intros [_ _ [Hf1 Hf2] _ Hhash Hend _ _ Hspan] Hn. destruct (fragmentEnd parts =? queryEnd parts) eqn:E; breflect; cbn [negb];
    [exists None; cbn [prefixed]; rewrite app_nil_r; split_and!; [done|sizes|done]|]. specialize (Hhash ltac:(done)).
  destruct (slice_spec url input_byte (fragmentStart parts) (fragmentEnd parts)) as (s & -> & Hl & Hc); [done|done|done|]. fold (size s) in Hl.
  rewrite emit_ok by sizes. run_option.
  destruct (escaped_ok escape_opaque_char input_byte url_char s (fun c Hc => escape_opaque_ok c (proj2 Hc)) Hc) as [He1 He2].
  fold (escapedNonHierarchicalPart s) in *. rewrite emit_ok by sizes. exists (Some (escapedNonHierarchicalPart s)). cbn [prefixed].
  rewrite <- app_assoc. split_and!; [done|sizes|by intros chars [= <-]].
Qed.
End Parts.

(** ** The whole URL *)

Record layout_ok (l : Layout) : Prop := {
  lo_scheme : exists c rest, l_scheme l = c :: rest /\ isSchemeFirstChar c = true;
  lo_scheme_chars : Forall (fun c => isSchemeChar c = true /\ toASCIILower_char c = c) (l_scheme l);
  lo_slashes : l_slashes l = [47; 47] \/
    l_slashes l = [] /\ l_user l = [] /\ l_password l = None /\ l_host l = [] /\ l_port l = None;
  lo_text : text_ok (l_user l) (l_password l) (l_host l) (l_port l);
  lo_path : Forall path_text (l_path l);
  lo_root : l_host l <> [] -> l_path l = [] \/ head (l_path l) = Some 47;
  lo_query : forall chars, l_query l = Some chars -> Forall query_text chars;
  lo_fragment : forall chars, l_fragment l = Some chars -> Forall url_char chars
}.

Lemma lower_scheme c : isSchemeChar c = true ->
  isSchemeChar (toASCIILower_char c) = true /\ toASCIILower_char (toASCIILower_char c) = toASCIILower_char c /\
  (isSchemeFirstChar c = true -> isSchemeFirstChar (toASCIILower_char c) = true).
Proof.
  intros Hc. assert (c < 256) as Hb by (unfold isSchemeChar in Hc; breflect; lia).
  assert (forallb (fun c => negb (isSchemeChar c) || (isSchemeChar (toASCIILower_char c)
    && ((toASCIILower_char (toASCIILower_char c) =? toASCIILower_char c)
    && (negb (isSchemeFirstChar c) || isSchemeFirstChar (toASCIILower_char c))))) (for_range 0 256) = true) as Hall by (by vm_compute).
  pose proof (all_bytes _ c Hall Hb) as Hp. cbn beta in Hp. rewrite Hc in Hp. cbn [negb orb] in Hp. breflect. split_and!; [done|done|].
  intros Hf. by rewrite Hf in *.
Qed.

Section Assemble.
Context (url : list N) (Hbytes : Forall (fun c => c < 256) url) (Hint : int_length url) (schemeEnd : N) (Hscheme : 1 <= schemeEnd) (HschemeL : schemeEnd < N.of_nat (length url)).
Context (Hschars : span url (fun c => isSchemeChar c = true) 0 schemeEnd).
Context (first : N) (Hfirst : char_at url 0 = Some first) (Hfirstc : isSchemeFirstChar first = true).
Context (isFile isHTTP hierarchical : bool) (a : Authority) (Ha : authority_ok url schemeEnd a).
Context (Hlow : userStart a < schemeEnd + 1 -> isFile = false /\ isHTTP = false).
Context (Hdots : hierarchical = true -> dots_ok url (portEnd a)) (parts : Parts) (Hparts : parts_ok url (portEnd a) parts).

Lemma scheme_text : exists scheme, slice url 0 schemeEnd = Some scheme /\ size scheme = schemeEnd /\
  (exists c rest, toASCIILower_char <$> scheme = c :: rest /\ isSchemeFirstChar c = true) /\
  Forall (fun c => isSchemeChar c = true /\ toASCIILower_char c = c) (toASCIILower_char <$> scheme).
Proof.
  destruct (slice_spec url (fun c => isSchemeChar c = true) 0 schemeEnd) as (s & Hs & Hl & Hc); [lia|lia|done|]. exists s.
  fold (size s) in Hl. split_and!; [done|lia| |].
  - destruct s as [|c s]; [rewrite size_nil in Hl; lia|]. exists (toASCIILower_char c), (toASCIILower_char <$> s). split; [done|].
    apply Forall_cons in Hc as [Hc _]. apply lower_scheme; [done|].
    apply slice_head in Hs; [|lia]. rewrite (char_at_memory _ _ _ Hfirst) in Hs. by injection Hs as ->.
  - apply Forall_fmap. eapply Forall_impl; [exact Hc|]. cbn. intros c Hcc. by destruct (lower_scheme c Hcc) as (? & ? & _).
Qed.

(** The slashes and the authority. *)
Lemma assemble_authority n (b local : bool) buffer : size buffer = schemeEnd + 1 ->
  (userStart a < schemeEnd + 1 -> (if isFile then b else negb (userStart a =? userEnd a) || negb (passwordStart a =? passwordEnd a)
    || negb (hostEnd a =? portEnd a) || negb (au_hostStart a =? hostEnd a)) = false) ->
  portEnd a + 3 <= n -> exists slashes user password host port,
  (if (if isFile then b else negb (userStart a =? userEnd a) || negb (passwordStart a =? passwordEnd a)
    || negb (hostEnd a =? portEnd a) || negb (au_hostStart a =? hostEnd a)) then
     buffer ← emit n [47; 47] buffer; write_authority n url a schemeEnd isFile local buffer
   else
     buffer ← (if isFile then emit n [47; 47] buffer else Some buffer);
     Some (mkEnds (position buffer) (position buffer) (position buffer) (position buffer) (position buffer), buffer))
  = Some (ends_of (size (buffer ++ slashes)) user password host port, (buffer ++ slashes) ++ authority_text user password host port) /\
  (slashes = [47; 47] \/ slashes = [] /\ user = [] /\ password = None /\ host = [] /\ port = None) /\
  text_ok user password host port /\ (host <> [] -> au_hostStart a <> hostEnd a) /\
  schemeEnd + 1 + size slashes + size (authority_text user password host port) <= portEnd a + 2.
Proof.
  intros Hb Hlowb Hn. pose proof Ha as [Hst Hlow' Hu [Hp1 Hp2] _ [Hh1 Hh2] _ [Ht1 Ht2] _ _ _ _ _ _ _ _].
  assert (text_ok [] None [] None) as Hnil by (split; done).
  destruct (if isFile then b else _) eqn:Ecase.
  - assert (schemeEnd + 1 <= userStart a) as Hge.
    { destruct (N.lt_ge_cases (userStart a) (schemeEnd + 1)) as [Hlt|]; [|done]. by specialize (Hlowb Hlt). }
    rewrite emit_ok by sizes. run_option. exists [47; 47].
    destruct (write_authority_spec url schemeEnd a Ha n schemeEnd isFile local (buffer ++ [47; 47])) as (user & password & host & port & -> & Hl & Hok & Hhost);
      [sizes|]. exists user, password, host, port. split_and!; [done|by left|done|done|sizes].
  - destruct isFile.
    + rewrite emit_ok by sizes. run_option. exists [47; 47], [], None, [], None. unfold authority_text. cbn [prefixed at_sign app]. rewrite app_nil_r.
      split_and!; [|by left|done|done|].
      * unfold ends_of. cbn [prefixed at_sign]. change position with (@size N). by rewrite ?size_nil, ?N.add_0_r.
      * sizes.
    + run_option. exists [], [], None, [], None. unfold authority_text. cbn [prefixed at_sign app]. rewrite !app_nil_r.
      split_and!; [|by right|done|done|].
      * unfold ends_of. cbn [prefixed at_sign]. change position with (@size N). by rewrite ?size_nil, ?N.add_0_r.
      * sizes.
Qed.

Lemma low_equal : userStart a < schemeEnd + 1 -> negb (userStart a =? userEnd a) || negb (passwordStart a =? passwordEnd a)
    || negb (hostEnd a =? portEnd a) || negb (au_hostStart a =? hostEnd a) = false.
Proof. intros Hlt. rewrite (ao_low _ _ _ Ha Hlt). cbn. by rewrite !N.eqb_refl. Qed.

(** The path behind a host starts with a slash. *)
Lemma path_root (host slash path : list N) : (host <> [] -> au_hostStart a <> hostEnd a) -> slash = [] \/ slash = [47] ->
  (char_at url (portEnd a) = Some 47 -> portEnd a < pathEnd parts -> head path = Some 47) -> (pathEnd parts = portEnd a -> path = []) ->
  host <> [] -> slash ++ path = [] \/ head (slash ++ path) = Some 47.
Proof.
  intros Hhost [->| ->] Hhead Hempty Hne; [|by right]. destruct (ao_stop _ _ _ Ha (Hhost Hne)) as (c & Hc & Hstop). cbn [app].
  destruct (decide (pathEnd parts = portEnd a)) as [E|Hlt]; [left; auto|right]. pose proof (po_path _ _ _ Hparts).
  destruct (po_path_span _ _ _ Hparts (portEnd a)) as (c' & Hc' & (? & ?) & ? & ?); [lia|]. rewrite Hc in Hc'. injection Hc' as <-.
  apply Hhead; [|lia]. by apply segment_end_cases in Hstop as [?|[?|[?| ->]]]; [lia|..].
Qed.

Lemma assemble_spec originalString : fragmentEnd parts * 3 + 1 <= int_max -> exists l,
  assemble url originalString schemeEnd hierarchical isFile isHTTP a parts
    = Some (url_of (result_string originalString (render l)) isHTTP l) /\
  layout_ok l /\ size (render l) <= 3 * fragmentEnd parts + 1.
Proof.
  intros Hlimit. destruct scheme_text as (scheme & Hslice & Hsize & Hfirst' & Hchars). pose proof Hparts as [Hpp Hpq [Hpf1 Hpf2] _ _ HpL Hspan _ _].
  destruct (ao_end _ _ _ Ha) as [Hend1 HendL]. pose proof (ao_start _ _ _ Ha) as Hstart.
  assert (userStart a <= portEnd a) as Hchain by (destruct Ha as [_ _ ? [? ?] _ [? ?] _ [? ?] _ _ _ _ _ _ _ _]; lia). unfold assemble. set (n := fragmentEnd parts * 3 + 1).
  assert (int_max <? n = false) as -> by (by apply N.ltb_ge). rewrite Hslice. run_option.
  assert (size (toASCIILower_char <$> scheme) = schemeEnd) as Hlsize by (unfold size in *; by rewrite length_fmap).
  rewrite emit_ok by (rewrite Hlsize; unfold n; sizes). run_option. change (position ([] ++ _)) with (size (toASCIILower_char <$> scheme)).
  rewrite Hlsize. cbn [app].
  assert (exists local, (if portEnd a - userStart a =? 9 then letters_at url (userStart a) (lit "localhost") else Some false) = Some local) as [local ->].
  { destruct (portEnd a - userStart a =? 9) eqn:E; [|by exists false]. apply letters_at_total; [done|done| |repeat constructor; done].
    lia. }
  run_option. rewrite emit_ok by (sizes; unfold n; lia). run_option.
  edestruct (assemble_authority n (negb ((portEnd a =? pathEnd parts) && ((au_hostStart a =? hostEnd a) || local))) local
    ((toASCIILower_char <$> scheme) ++ [58])) as (slashes & user & password & host & port & -> & Hslashes & Htext & Hhost & Hl); [sizes| |unfold n; lia|].
  { intros Hlt. destruct (Hlow Hlt) as [-> _]. by apply low_equal. }
  run_option. set (buffer := (((toASCIILower_char <$> scheme) ++ [58]) ++ slashes) ++ authority_text user password host port).
  assert (size buffer <= portEnd a + 2) as Hbuf by (unfold buffer; sizes).
  assert (e_portEnd (ends_of (size (((toASCIILower_char <$> scheme) ++ [58]) ++ slashes)) user password host port) = size buffer) as Hports
    by (unfold buffer, ends_of, authority_text; cbn [e_portEnd]; sizes).
  assert (exists slash, (if (isHTTP || isFile) && (pathEnd parts =? portEnd a) then emit n [47] buffer else Some buffer) = Some (buffer ++ slash) /\
    size slash <= 1 /\ Forall path_text slash /\ (slash = [] \/ slash = [47])) as (slash & -> & Hslash & Hslashc & Hslash47).
  { destruct (_ && _); [|exists []; rewrite app_nil_r; split_and!; [done|sizes|done|by left]]. exists [47]. rewrite emit_ok by (unfold n; sizes).
    split_and!; [done|sizes|by apply Forall_singleton|by right]. }
  run_option. edestruct (write_path_spec url Hbytes Hint n hierarchical (portEnd a) (pathEnd parts) (buffer ++ slash)) as (path & -> & Hpath & Hpathc & Hhead & Hempty);
    [done|lia|done|done|unfold n; sizes|]. run_option.
  rewrite Hports. replace (position ((buffer ++ slash) ++ path)) with (size buffer + size (slash ++ path)) by (change position with (@size N); sizes).
  pose proof (after_last_slash_spec (length ((buffer ++ slash) ++ path)) buffer (slash ++ path) []) as Hafter.
  rewrite app_nil_r, app_assoc in Hafter. rewrite Hafter by (rewrite !length_app; lia). run_option. clear Hafter.
  destruct (write_query url n parts (portEnd a) ((buffer ++ slash) ++ path) Hparts) as (query & Hquery & Hqueryl & Hqueryc); [unfold n; sizes|].
  change position with (@size N). revert Hquery.
  destruct (slice url (pathEnd parts) (queryEnd parts)) as [qs|]; run_option; [intros ->|done]. run_option.
  destruct (write_fragment url n parts (portEnd a) (((buffer ++ slash) ++ path) ++ prefixed 63 query) Hparts) as (fragment & Hfrag & Hfragl & Hfragc);
    [unfold n; sizes|]. rewrite Hfrag. run_option.
  exists (mkLayout (toASCIILower_char <$> scheme) slashes user password host port (slash ++ path) query fragment).
  assert ((((buffer ++ slash) ++ path) ++ prefixed 63 query) ++ prefixed 35 fragment
    = render (mkLayout (toASCIILower_char <$> scheme) slashes user password host port (slash ++ path) query fragment)) as Hrender
    by (unfold render, buffer; cbn [l_scheme l_slashes l_user l_password l_host l_port l_path l_query l_fragment]; by repeat (rewrite <- ?app_assoc; cbn [app])).
  rewrite <- Hrender. split_and!; [|split; [exact Hfirst'|exact Hchars|exact Hslashes|exact Htext|by apply Forall_app|cbn; by apply path_root|exact Hqueryc|exact Hfragc]|unfold n in *; sizes].
  f_equal. unfold url_of. cbn [l_scheme l_slashes l_user l_password l_host l_port l_path l_query l_fragment ends_of e_userStart e_userEnd e_passwordEnd e_hostEnd].
  f_equal; unfold buffer, authority_text; sizes.
Qed.
End Assemble.
