(* ===== verification/URLRoundTrip.v ===== *)
(** * A canonical URL is parsed to itself *)

From S2P Require Import Prelude ASCII WTFString StringOps URLCharacters URL URLLayout URLParse URLSafety URLAssemble.

(** ** Reading a text that is cut in parts *)

Section Reading.
Context (url : list N) (Hint : int_length url).

Lemma char_at_part pre c post : memory url = pre ++ c :: post -> char_at url (size pre) = Some c.
Proof.
  intros Hm. rewrite char_at_lookup by done. rewrite Hm. unfold size. rewrite Nat2N.id, lookup_app_r by lia. by rewrite Nat.sub_diag.
Qed.

Lemma drop_part pre post : memory url = pre ++ post -> drop (N.to_nat (size pre)) (memory url) = post.
Proof. intros ->. unfold size. by rewrite Nat2N.id, drop_app_length. Qed.

Lemma scan_part p pre mid c post : memory url = pre ++ mid ++ c :: post -> Forall (fun c => p c = true) mid -> p c = false ->
  scan p url (size pre) = Some (size pre + size mid).
Proof.
  intros Hm Hmid Hc. unfold scan. rewrite (drop_part _ _ Hm). generalize (size pre). clear Hm. induction Hmid as [|d mid Hd _ IH]; intros i; cbn [app scan_from].
  - rewrite Hc. f_equal. sizes.
  - rewrite Hd, IH. f_equal. sizes.
Qed.

Lemma scan_user_part pre mid c post : memory url = pre ++ mid ++ c :: post -> Forall user_char mid -> isUserInfoChar c = false ->
  exists colon, scan_user (drop (N.to_nat (size pre)) (memory url)) (size pre) 0 = Some (size pre + size mid, colon).
Proof.
  intros Hm Hmid Hc. rewrite (drop_part _ _ Hm). generalize (size pre), 0. clear Hm. induction Hmid as [|d mid Hd _ IH]; intros i colon; cbn [app scan_user].
  - rewrite Hc. exists colon. f_equal. f_equal. sizes.
  - rewrite Hd. destruct (IH (i + 1) (if (d =? 58) && (colon =? 0) then i else colon)) as [colon' ->]. exists colon'. f_equal. f_equal. sizes.
Qed.

(** The end of the user info, and the colon in front of the password. *)
Lemma scan_user_colon pre user password post : memory url = pre ++ (user ++ prefixed 58 password) ++ 64 :: post -> 0 < size pre ->
  Forall (fun c => user_char c /\ c <> 58) user -> (forall chars, password = Some chars -> Forall user_char chars) ->
  scan_user (drop (N.to_nat (size pre)) (memory url)) (size pre) 0
  = Some (size pre + size user + size (prefixed 58 password), match password with Some _ => size pre + size user | None => 0 end).
Proof.
  intros Hm Hpos Hu Hp. rewrite (drop_part _ _ Hm). clear Hm. revert Hpos. generalize (size pre). induction Hu as [|c user [Hc Hne] _ IH]; intros i Hi; cbn [app].
  - destruct password as [chars|]; cbn [prefixed app scan_user N.eqb Pos.eqb]; [|change (isUserInfoChar 64) with false; cbn iota; do 2 f_equal; sizes].
    change (isUserInfoChar 58) with true. cbn [andb].
    assert (forall colon, colon <> 0 -> forall j, scan_user (chars ++ 64 :: post) j colon = Some (j + size chars, colon)) as Hpass.
    { intros colon Hcolon. specialize (Hp chars eq_refl). induction Hp as [|c chars Hc _ IH]; intros j; cbn [app scan_user]; [change (isUserInfoChar 64) with false; cbn iota; do 2 f_equal; sizes|].
      unfold user_char in Hc. rewrite Hc, (proj2 (N.eqb_neq colon 0)), andb_false_r, IH by done. do 2 f_equal; sizes. }
    rewrite Hpass by lia. do 2 f_equal; sizes.
  - cbn [scan_user]. unfold user_char in Hc. rewrite Hc, (proj2 (N.eqb_neq c 58)) by done. cbn [andb]. rewrite IH by lia. destruct password; do 2 f_equal; sizes.
Qed.

Lemma slice_part pre mid post last : memory url = pre ++ mid ++ post -> last = size pre + size mid -> slice url (size pre) last = Some mid.
Proof.
  intros Hm ->. unfold slice. destruct (_ <=? size pre) eqn:E1; breflect; [destruct mid; [done|rewrite size_cons in E1; lia]|].
  rewrite (drop_part _ _ Hm). replace (_ <? _) with false; [|symmetry; apply N.ltb_ge; rewrite Hm, !length_app; unfold size; lia].
  replace (size pre + size mid - size pre) with (size mid) by lia. unfold size. by rewrite Nat2N.id, take_app_length.
Qed.
End Reading.

(** ** Schemes *)

Definition lower_scheme_char (c : N) : Prop := isSchemeChar c = true /\ toASCIILower_char c = c.

Lemma lower_scheme_match c l : lower_scheme_char c -> isLetterMatchIgnoringCase c l = (c =? l).
Proof.
  intros [Hc Hl]. assert (c < 256) as Hb by (unfold isSchemeChar in Hc; breflect; lia).
  assert (forallb (fun c => negb (isSchemeChar c) || (negb (toASCIILower_char c =? c) || (N.lor c 32 =? c))) (for_range 0 256) = true) as Hall by (by vm_compute).
  pose proof (all_bytes _ c Hall Hb) as Hp. cbn beta in Hp. rewrite Hc, Hl, N.eqb_refl in Hp. cbn [negb orb] in Hp. breflect.
  unfold isLetterMatchIgnoringCase. by rewrite Hp.
Qed.

(** Letters are found where the scheme starts with them. *)
Lemma match_letters_scheme scheme rest letters : Forall lower_scheme_char scheme -> Forall (fun l => N.lor 58 32 <> l) letters ->
  match_letters (scheme ++ 58 :: rest) letters = Some (bool_decide (letters `prefix_of` scheme)).
Proof.
  intros Hs Hl. revert scheme Hs. induction Hl as [|l letters Hne _ IH]; intros scheme Hs; cbn [match_letters].
  - rewrite bool_decide_true; [done|apply prefix_nil].
  - destruct scheme as [|c scheme]; cbn [app].
    + unfold isLetterMatchIgnoringCase. rewrite (proj2 (N.eqb_neq _ _) Hne). rewrite bool_decide_false; [done|apply prefix_nil_not].
    + apply Forall_cons in Hs as [Hc Hs]. rewrite (lower_scheme_match c l Hc). destruct (c =? l) eqn:E; breflect.
      * subst l. rewrite IH by done. f_equal. apply bool_decide_ext. split; [apply prefix_cons|apply prefix_cons_inv_2].
      * rewrite bool_decide_false; [done|]. intros Hp%prefix_cons_inv_1. done.
Qed.

Definition http_scheme (scheme : list N) : bool := bool_decide (scheme = lit "http" \/ scheme = lit "https").

Lemma http_family_scheme url scheme rest : int_length url -> memory url = scheme ++ 58 :: rest -> Forall lower_scheme_char scheme ->
  http_family url = Some (http_scheme scheme).
Proof.
  intros Hint Hm Hs. unfold http_family, letters_at. rewrite !char_at_lookup by done. rewrite Hm. change (N.to_nat 0) with 0%nat. rewrite drop_0.
  rewrite match_letters_scheme; [|done|repeat constructor; done]. run_option. unfold http_scheme.
  destruct (bool_decide (lit "http" `prefix_of` scheme)) eqn:E; [apply bool_decide_eq_true in E|apply bool_decide_eq_false in E].
  2: { rewrite bool_decide_false; [done|]. intros [->| ->]; apply E; [done|by exists (lit "s")]. }
  destruct E as [k ->]. apply Forall_app in Hs as [_ Hk]. destruct k as [|c k].
  - rewrite app_nil_r. change ((lit "http" ++ 58 :: rest) !!N 4) with (Some 58). run_option. by rewrite bool_decide_true by (by left).
  - apply Forall_cons in Hk as [Hc Hk]. change (((lit "http" ++ c :: k) ++ 58 :: rest) !!N 4) with (Some c). run_option.
    destruct (c =? 58) eqn:E; breflect; [subst c; by destruct Hc|]. rewrite lower_scheme_match by done. destruct (c =? 115) eqn:E2; breflect.
    + subst c. destruct k as [|d k].
      * change (((lit "http" ++ [115]) ++ 58 :: rest) !!N 5) with (Some 58). run_option. by rewrite bool_decide_true by (by right).
      * change (((lit "http" ++ 115 :: d :: k) ++ 58 :: rest) !!N 5) with (Some d). run_option. apply Forall_cons in Hk as [[Hd _] _].
        destruct (d =? 58) eqn:E3; breflect; [by subst d|]. rewrite bool_decide_false; [done|]. by intros [?|?].
    + rewrite bool_decide_false; [done|]. intros [[=]|[= -> ->]]. done.
Qed.

Lemma equal_chars_app a rest b : length b = length a -> equal_chars (a ++ rest) b = equal_chars a b.
Proof. intros Hl. unfold equal_chars. by rewrite take_app_le by lia. Qed.

Lemma isDefaultPortForScheme_app port scheme rest :
  isDefaultPortForScheme port (scheme ++ rest) (size scheme) = isDefaultPortForScheme port scheme (size scheme).
Proof.
  unfold isDefaultPortForScheme. assert (forall k, size scheme = N.of_nat k -> length scheme = k) as Hl by (unfold size; lia).
  destruct (decide (size scheme = 2)) as [E|?]; [rewrite E, equal_chars_app by (by rewrite (Hl 2%nat E)); done|].
  destruct (decide (size scheme = 3)) as [E|?]; [rewrite E, !equal_chars_app by (by rewrite (Hl 3%nat E)); done|].
  destruct (decide (size scheme = 4)) as [E|?]; [rewrite E, equal_chars_app by (by rewrite (Hl 4%nat E)); done|].
  destruct (decide (size scheme = 5)) as [E|?]; [rewrite E, equal_chars_app by (by rewrite (Hl 5%nat E)); done|].
  destruct (decide (size scheme = 6)) as [E|?]; [rewrite E, equal_chars_app by (by rewrite (Hl 6%nat E)); done|].
  destruct (size scheme) as [|[[p|p|]|[p|p|]|]]; try done; destruct p; try done; destruct p; done.
Qed.

Lemma hostname_user c : isHostnameChar c = true -> user_char c.
Proof.
  unfold user_char. intros Hc. pose proof (in_class_bound _ _ Hc) as Hb.
  assert (forallb (fun c => negb (isHostnameChar c) || isUserInfoChar c) (for_range 0 256) = true) as Hall by (by vm_compute).
  pose proof (all_bytes _ c Hall Hb) as Hp. cbn beta in Hp. by rewrite Hc in Hp.
Qed.

Lemma digit_user c : digit_char c -> user_char c.
Proof.
  unfold user_char, digit_char. intros Hc. assert (c < 256) as Hb by (unfold isASCIIDigit in Hc; breflect; lia).
  assert (forallb (fun c => negb (isASCIIDigit c) || isUserInfoChar c) (for_range 0 256) = true) as Hall by (by vm_compute).
  pose proof (all_bytes _ c Hall Hb) as Hp. cbn beta in Hp. by rewrite Hc in Hp.
Qed.

(** ** Canonical URLs *)

(** The text of a host: a name, or an address between brackets. *)
Definition host_text (host : list N) : Prop :=
  (host <> [] /\ Forall (fun c => isHostnameChar c = true) host) \/
  (exists address, host = 91 :: address ++ [93] /\ Forall (fun c => isIPv6Char c = true) address).

Record canonical (l : Layout) : Prop := {
  c_scheme : exists c rest, l_scheme l = c :: rest /\ isSchemeFirstChar c = true;
  c_scheme_chars : Forall lower_scheme_char (l_scheme l);
  c_file : l_scheme l <> lit "file";
  c_slashes : l_slashes l = [47; 47];
  c_user : Forall (fun c => user_char c /\ c <> 58) (l_user l);
  c_password : forall chars, l_password l = Some chars -> chars <> [] /\ Forall user_char chars;
  c_host : host_text (l_host l) /\ toASCIILower_char <$> l_host l = l_host l;
  c_port : forall chars, l_port l = Some chars ->
    chars <> [] /\ Forall digit_char chars /\ isDefaultPortForScheme chars (l_scheme l) (size (l_scheme l)) = false;
  c_path : l_path l = [] \/ head (l_path l) = Some 47;
  c_path_chars : Forall path_char (l_path l) /\ escapingBadChars (l_path l) = l_path l;
  c_dots : hasSlashDotOrDotDot (render l) = false;
  c_query : forall chars, l_query l = Some chars -> Forall query_char chars /\ escapingBadChars chars = chars;
  c_fragment : forall chars, l_fragment l = Some chars -> Forall input_byte chars /\ escapedNonHierarchicalPart chars = chars
}.

(** The path that the parser gives to a URL in the HTTP family. *)
Definition with_root (l : Layout) : Layout :=
  mkLayout (l_scheme l) (l_slashes l) (l_user l) (l_password l) (l_host l) (l_port l)
    (match l_path l with [] => if http_scheme (l_scheme l) then [47] else [] | path => path end) (l_query l) (l_fragment l).

(** ** The parser on a canonical URL *)

Section Canonical.
Context (l : Layout) (Hl : canonical l) (Hint : int_length (render l)).
Notation url := (render l).

(** What stands in front of the host. *)
Definition credentials : list N := l_user l ++ prefixed 58 (l_password l) ++ at_sign (l_user l) (l_password l).

Notation user_start := (size (l_scheme l) + 3).
Notation user_end := (user_start + size (l_user l)).
Notation password_end := (user_end + size (prefixed 58 (l_password l))).
Notation start := (user_start + size credentials).

Definition password_start : N := match l_password l with Some _ => user_end + 1 | None => user_end end.

(** What follows the authority. *)
Definition rest_text : list N := l_path l ++ prefixed 63 (l_query l) ++ prefixed 35 (l_fragment l) ++ [0].

Lemma memory_render : memory url = l_scheme l ++ 58 :: 47 :: 47 :: credentials ++ l_host l ++ prefixed 58 (l_port l) ++ rest_text.
Proof.
  unfold memory, render, authority_text, rest_text, credentials. rewrite (c_slashes l Hl).
  by repeat (rewrite <- ?app_assoc; cbn [app]).
Qed.

Definition slashes_text : list N := l_scheme l ++ [58; 47; 47].
Definition prefix_text : list N := slashes_text ++ credentials.

Lemma size_slashes : size slashes_text = user_start.
Proof. unfold slashes_text. sizes. Qed.

Lemma size_prefix : size prefix_text = start.
Proof. unfold prefix_text. rewrite size_app, size_slashes. done. Qed.

Lemma memory_slashes : memory url = slashes_text ++ credentials ++ l_host l ++ prefixed 58 (l_port l) ++ rest_text.
Proof. rewrite memory_render. unfold slashes_text. by rewrite <- app_assoc. Qed.

Lemma memory_prefix : memory url = prefix_text ++ l_host l ++ prefixed 58 (l_port l) ++ rest_text.
Proof. rewrite memory_slashes. unfold prefix_text. by rewrite <- app_assoc. Qed.

Lemma size_credentials : start = password_end + size (at_sign (l_user l) (l_password l)).
Proof. unfold credentials. sizes. Qed.

Lemma rest_head : exists c rest, rest_text = c :: rest /\ (c = 0 \/ c = 35 \/ c = 47 \/ c = 63).
Proof.
  unfold rest_text. destruct (l_path l) as [|c path] eqn:E; cbn [app].
  - destruct (l_query l); cbn [prefixed app]; [eauto 10|]. destruct (l_fragment l); cbn [prefixed app]; eauto 10.
  - destruct (c_path l Hl) as [Hp|Hp]; rewrite E in Hp; [done|]. injection Hp as ->. eauto 10.
Qed.

Lemma host_not_empty : l_host l <> [].
Proof. destruct (c_host l Hl) as [[[? _]|(? & -> & _)] _]; done. Qed.

Lemma port_chars : Forall user_char (prefixed 58 (l_port l)).
Proof.
  destruct (l_port l) as [port|] eqn:E; cbn [prefixed]; [|done]. destruct (c_port l Hl port E) as (_ & Hd & _).
  constructor; [by vm_compute|]. eapply Forall_impl; [exact Hd|apply digit_user].
Qed.

(** Nobody is named: there is no at sign. *)
Lemma no_credentials : l_user l = [] -> l_password l = None -> credentials = [].
Proof. unfold credentials. by intros -> ->. Qed.

Lemma parse_user_canonical : parse_user url user_start = Some (Some (user_end, password_start, password_end, start)).
Proof.
  unfold parse_user. rewrite size_credentials. unfold password_start. pose proof (c_user l Hl) as Hu. pose proof (c_password l Hl) as Hp.
  destruct (decide (l_user l = [] /\ l_password l = None)) as [[Eu Ep]|Hsome].
  - pose proof (no_credentials Eu Ep) as Ecred. pose proof memory_slashes as Hm. rewrite Ecred in Hm. cbn [app] in Hm. rewrite Eu, Ep. cbn [prefixed at_sign]. change (size ([] : list N)) with 0. rewrite !N.add_0_r.
    destruct rest_head as (c & rest & Hrest & Hc). destruct (c_host l Hl) as [[[_ Hh]|(address & Hh & _)] _].
    + destruct (scan_user_part url slashes_text (l_host l ++ prefixed 58 (l_port l)) c rest) as (colon & Hscan).
      * rewrite Hm, Hrest. by rewrite <- app_assoc.
      * apply Forall_app. split; [eapply Forall_impl; [exact Hh|apply hostname_user]|apply port_chars].
      * by destruct Hc as [->|[->|[->| ->]]].
      * rewrite size_slashes in Hscan. rewrite Hscan. run_option.
        rewrite <- size_slashes, <- size_app. rewrite (char_at_part url Hint _ c rest) by (rewrite Hm, Hrest; by rewrite <- !app_assoc).
        run_option. by destruct Hc as [->|[->|[->| ->]]].
    + destruct (scan_user_part url slashes_text [] 91 (address ++ 93 :: prefixed 58 (l_port l) ++ rest_text)) as (colon & Hscan);
        [rewrite Hm, Hh; cbn [app]; by rewrite <- app_assoc|done|done|].
      replace (size slashes_text + size ([] : list N)) with (size slashes_text) in Hscan by sizes. rewrite size_slashes in Hscan. rewrite Hscan. run_option. rewrite <- size_slashes.
      rewrite (char_at_part url Hint _ 91 (address ++ 93 :: prefixed 58 (l_port l) ++ rest_text))
        by (rewrite Hm, Hh; cbn [app]; by rewrite <- app_assoc). done.
  - assert (at_sign (l_user l) (l_password l) = [64]) as Eat by (destruct (l_user l), (l_password l); [done|by destruct Hsome|done..]).
    set (after := l_host l ++ prefixed 58 (l_port l) ++ rest_text).
    assert (memory url = slashes_text ++ (l_user l ++ prefixed 58 (l_password l)) ++ 64 :: after) as Hm
      by (rewrite memory_slashes; unfold credentials; rewrite Eat; by repeat (rewrite <- ?app_assoc; cbn [app])).
    pose proof (scan_user_colon url slashes_text (l_user l) (l_password l) after Hm ltac:(rewrite size_slashes; lia) Hu ltac:(intros chars Hc; by apply Hp)) as Hscan.
    rewrite size_slashes in Hscan. rewrite Hscan. run_option. rewrite Eat. change (size [64]) with 1.
    rewrite <- size_slashes, <- N.add_assoc, <- !size_app. rewrite (char_at_part url Hint _ 64 after) by (rewrite Hm; by rewrite <- !app_assoc). run_option. cbn [N.eqb Pos.eqb].
    destruct (l_password l) as [password|]; cbn [prefixed].
    + rewrite (proj2 (N.eqb_neq _ 0)) by (rewrite size_app, size_slashes; lia). cbn [negb]. done.
    + rewrite N.eqb_refl. cbn [negb prefixed]. by rewrite app_nil_r.
Qed.

Lemma parse_host_canonical : parse_host url start = Some (Some (start + size (l_host l))).
Proof.
  unfold parse_host. rewrite <- size_prefix. destruct (c_host l Hl) as [[[Hne Hh]|(address & Hh & Ha)] _].
  - assert (exists d post, prefixed 58 (l_port l) ++ rest_text = d :: post /\ isHostnameChar d = false) as (d & post & Hpost & Hd).
    { destruct (l_port l); cbn [prefixed app]; [by eexists _, _|]. destruct rest_head as (c & rest & -> & Hc). exists c, rest.
      split; [done|]. by destruct Hc as [->|[->|[->| ->]]]. }
    destruct (l_host l) as [|h host] eqn:E; [done|].
    rewrite (char_at_part url Hint _ h (host ++ prefixed 58 (l_port l) ++ rest_text)) by (by rewrite memory_prefix, E). run_option.
    assert (h =? 91 = false) as ->. { apply Forall_cons in Hh as [Hh _]. apply N.eqb_neq. by intros ->. }
    rewrite (scan_part url isHostnameChar prefix_text (h :: host) d post); [done| |done|done]. by rewrite memory_prefix, E, Hpost.
  - assert (memory url = prefix_text ++ 91 :: address ++ 93 :: prefixed 58 (l_port l) ++ rest_text) as Hm
      by (rewrite memory_prefix, Hh; cbn [app]; by rewrite <- app_assoc).
    rewrite (char_at_part url Hint _ _ _ Hm). run_option. cbn [N.eqb Pos.eqb].
    assert (memory url = (prefix_text ++ [91]) ++ address ++ 93 :: prefixed 58 (l_port l) ++ rest_text) as Hm2 by (rewrite Hm; by rewrite <- app_assoc).
    replace (size prefix_text + 1) with (size (prefix_text ++ [91])) by sizes.
    rewrite (scan_part url isIPv6Char _ address 93 _ Hm2); [|done|done]. run_option. rewrite <- size_app.
    rewrite (char_at_part url Hint _ 93 (prefixed 58 (l_port l) ++ rest_text)) by (rewrite Hm2; by rewrite <- !app_assoc). run_option. cbn [N.eqb Pos.eqb].
    rewrite Hh. f_equal. f_equal. sizes.
Qed.

Notation host_end := (start + size (l_host l)).
Notation port_end := (host_end + size (prefixed 58 (l_port l))).

Lemma memory_port : memory url = (prefix_text ++ l_host l) ++ prefixed 58 (l_port l) ++ rest_text.
Proof. rewrite memory_prefix. by rewrite <- app_assoc. Qed.

Lemma size_host_end : size (prefix_text ++ l_host l) = host_end.
Proof. rewrite size_app, size_prefix. done. Qed.

Lemma memory_rest : memory url = ((prefix_text ++ l_host l) ++ prefixed 58 (l_port l)) ++ rest_text.
Proof. rewrite memory_port. by rewrite <- !app_assoc. Qed.

Lemma size_port_end : size ((prefix_text ++ l_host l) ++ prefixed 58 (l_port l)) = port_end.
Proof. rewrite size_app, size_host_end. done. Qed.

Definition port_start : N := match l_port l with Some _ => host_end + 1 | None => host_end end.

Lemma parse_port_canonical : parse_port url host_end = Some (port_start, port_end).
Proof.
  unfold parse_port, port_start. pose proof memory_port as Hm. pose proof (c_port l Hl) as Hport. destruct rest_head as (c & rest & Hrest & Hc).
  rewrite Hrest in Hm. rewrite <- size_host_end. destruct (l_port l) as [port|]; cbn [prefixed app] in *.
  - rewrite (char_at_part url Hint _ _ _ Hm). run_option. cbn [N.eqb Pos.eqb]. destruct (Hport port eq_refl) as (_ & Hd & _).
    replace (size (prefix_text ++ l_host l) + 1) with (size ((prefix_text ++ l_host l) ++ [58])) by sizes.
    rewrite (scan_part url isASCIIDigit _ port c rest); [|by rewrite Hm, <- !app_assoc|done|by destruct Hc as [->|[->|[->| ->]]]].
    run_option. f_equal. f_equal. sizes.
  - rewrite (char_at_part url Hint _ _ _ Hm). run_option. assert (c =? 58 = false) as -> by (by destruct Hc as [->|[->|[->| ->]]]).
    f_equal. f_equal. sizes.
Qed.

Lemma authority_first : exists h tail_, credentials ++ l_host l ++ prefixed 58 (l_port l) ++ rest_text = h :: tail_ /\ h <> 47.
Proof.
  destruct (credentials) as [|h tail_] eqn:E; cbn [app].
  - pose proof host_not_empty as Hne. destruct (c_host l Hl) as [[[_ Hc]|(address & -> & _)] _]; [|by eexists _, _].
    destruct (l_host l) as [|h tail_]; [done|]. apply Forall_cons in Hc as [Hc _]. exists h. eexists. split; [done|]. by intros ->.
  - exists h. eexists. split; [done|]. pose proof (c_user l Hl) as Hu. unfold credentials in E. destruct (l_user l) as [|c user]; cbn [app] in E.
    + destruct (l_password l); cbn in E; [by injection E as <- _|done].
    + injection E as <- _. apply Forall_cons in Hu as [[Hu _] _]. by intros ->.
Qed.

Lemma userinfo_end : exists u, char_at url password_end = Some u.
Proof.
  destruct (char_at url password_end) as [u|] eqn:E; [by exists u|]. exfalso. rewrite char_at_lookup in E by done. apply lookup_ge_None in E.
  rewrite memory_rest, !length_app in E. pose proof size_port_end as Hs. pose proof host_not_empty. pose proof size_credentials.
  rewrite size_app in Hs. unfold size in *. rewrite !length_app in Hs. destruct (l_host l); [done|cbn in *; lia].
Qed.

Lemma parse_authority_canonical isHTTP : parse_authority url (size (l_scheme l)) true true false isHTTP
  = Some (Some (mkAuthority user_start user_end password_start password_end start host_end port_start port_end)).
Proof.
  unfold parse_authority, authority_start. cbn [andb orb].
  replace (size (l_scheme l) + 1 + 1 + 1) with user_start by lia.
  destruct authority_first as (h & tail_ & Hh & H47). pose proof memory_slashes as Hm. rewrite Hh in Hm.
  assert ((if isNonFileHierarchicalScheme (memory url) (size (l_scheme l)) then scan (fun c => c =? 47) url user_start else Some user_start) = Some user_start) as ->.
  { destruct (isNonFileHierarchicalScheme _ _); [|done]. rewrite <- size_slashes at 1.
    rewrite (scan_part url (fun c => c =? 47) slashes_text [] h _ Hm); [|done|by apply N.eqb_neq].
    rewrite size_slashes. f_equal. sizes. }
  run_option. rewrite parse_user_canonical. run_option. rewrite parse_host_canonical. run_option. rewrite parse_port_canonical. run_option.
  destruct rest_head as (c & rest & Hrest & Hc). pose proof memory_rest as Hm'. rewrite Hrest in Hm'.
  rewrite <- size_port_end at 1. rewrite (char_at_part url Hint _ _ _ Hm'). run_option.
  assert (isPathSegmentEndChar c = true) as -> by (by destruct Hc as [->|[->|[->| ->]]]). cbn [negb].
  destruct userinfo_end as [u ->]. run_option. unfold hostPortIsEmptyButCredentialsArePresent. pose proof host_not_empty as Hne.
  rewrite (proj2 (N.eqb_neq start port_end)), andb_false_r by (destruct (l_host l); [done|sizes]).
  rewrite (proj2 (N.eqb_neq user_start port_end)) by (destruct (l_host l); [done|sizes]). done.
Qed.

Notation path_end := (port_end + size (l_path l)).
Notation query_end := (path_end + size (prefixed 63 (l_query l))).
Notation fragment_end := (query_end + size (prefixed 35 (l_fragment l))).

Definition fragment_start : N := match l_fragment l with Some _ => query_end + 1 | None => query_end end.

Definition before_path : list N := (prefix_text ++ l_host l) ++ prefixed 58 (l_port l).

Lemma parse_parts_canonical : parse_parts url port_end = Some (mkParts path_end query_end fragment_start fragment_end).
Proof.
  unfold parse_parts, fragment_start. pose proof memory_rest as Hm. pose proof size_port_end as Hs. fold before_path in Hm, Hs. unfold rest_text in Hm.
  rewrite <- Hs. destruct (c_path_chars l Hl) as [Hpath _]. pose proof (c_query l Hl) as Hquery. pose proof (c_fragment l Hl) as Hfrag.
  assert (exists d post, prefixed 63 (l_query l) ++ prefixed 35 (l_fragment l) ++ [0] = d :: post /\
    (d = 63 /\ l_query l <> None \/ l_query l = None /\ (d = 35 /\ l_fragment l <> None \/ d = 0 /\ l_fragment l = None))) as (d & post & Hpost & Hd).
  { destruct (l_query l), (l_fragment l); cbn [prefixed app]; eauto 10. }
  rewrite (scan_part url _ before_path (l_path l) d post); [|by rewrite Hm, Hpost| |by destruct Hd as [[-> _]|[_ [[-> _]|[-> _]]]]].
  2: { eapply Forall_impl; [exact Hpath|]. intros c ((? & ?) & ? & ?). rewrite !(proj2 (N.eqb_neq _ _)) by lia. done. }
  run_option. rewrite <- size_app. rewrite (char_at_part url Hint _ d post) by (rewrite Hm, Hpost; by rewrite <- !app_assoc). run_option.
  assert (exists e post, prefixed 35 (l_fragment l) ++ [0] = e :: post /\ (e = 35 /\ l_fragment l <> None \/ e = 0 /\ l_fragment l = None)) as (e & post' & Hpost' & He).
  { destruct (l_fragment l); cbn [prefixed app]; eauto 10. }
  assert ((if d =? 63 then scan (fun c => negb (c =? 0) && negb (c =? 35)) url (size (before_path ++ l_path l)) else Some (size (before_path ++ l_path l)))
    = Some (size ((before_path ++ l_path l) ++ prefixed 63 (l_query l)))) as ->.
  { destruct Hd as [[-> Hq]|[Hq Hd]].
    - cbn [N.eqb Pos.eqb]. destruct (l_query l) as [query|]; [|done]. destruct (Hquery query eq_refl) as [Hq' _].
      rewrite (scan_part url _ _ (63 :: query) e post'); [|rewrite Hm, Hpost'; cbn [prefixed]; by rewrite <- !app_assoc| |by destruct He as [[-> _]|[-> _]]].
      + f_equal. cbn [prefixed]. sizes.
      + constructor; [done|]. eapply Forall_impl; [exact Hq'|]. intros c ((? & ?) & ?). rewrite !(proj2 (N.eqb_neq _ _)) by lia. done.
    - rewrite Hq. cbn [prefixed]. rewrite app_nil_r. by destruct Hd as [[-> _]|[-> _]]. }
  run_option. assert (memory url = ((before_path ++ l_path l) ++ prefixed 63 (l_query l)) ++ e :: post') as Hm2
    by (rewrite Hm, Hpost'; by rewrite <- !app_assoc).
  rewrite (char_at_part url Hint _ _ _ Hm2). run_option. destruct He as [[-> Hf]|[-> Hf]]; cbn [N.eqb Pos.eqb].
  - destruct (l_fragment l) as [fragment|]; [|done]. destruct (Hfrag fragment eq_refl) as [Hf' _]. cbn [prefixed app] in Hpost'. injection Hpost' as <-.
    replace (size ((before_path ++ l_path l) ++ prefixed 63 (l_query l)) + 1)
      with (size (((before_path ++ l_path l) ++ prefixed 63 (l_query l)) ++ [35])) by sizes.
    rewrite (scan_part url _ _ fragment 0 []); [|rewrite Hm2; by rewrite <- !app_assoc| |done].
    + run_option. cbn [prefixed]. f_equal. f_equal; sizes.
    + eapply Forall_impl; [exact Hf'|]. intros c [? ?]. by rewrite (proj2 (N.eqb_neq _ _)) by lia.
  - rewrite Hf. cbn [prefixed]. f_equal. f_equal; sizes.
Qed.

Notation authority := (mkAuthority user_start user_end password_start password_end start host_end port_start port_end).

Lemma write_password_canonical n : start <= n ->
  (if negb (password_end =? password_start) then password ← slice url password_start password_end; emit n (58 :: password) (slashes_text ++ l_user l)
   else Some (slashes_text ++ l_user l)) = Some ((slashes_text ++ l_user l) ++ prefixed 58 (l_password l)).
Proof.
  intros Hn. pose proof size_credentials as Hs. pose proof memory_slashes as Hm. unfold credentials in Hm. pose proof (c_password l Hl) as Hp. unfold password_start.
  destruct (l_password l) as [password|]; cbn [prefixed] in *.
  - destruct (Hp password eq_refl) as [Hne _]. rewrite (proj2 (N.eqb_neq (user_end + size (58 :: password)) _)) by (rewrite size_cons; destruct password; [done|sizes]). cbn [negb].
    assert (memory url = (slashes_text ++ l_user l ++ [58]) ++ password ++ at_sign (l_user l) (Some password) ++ l_host l ++ prefixed 58 (l_port l) ++ rest_text) as Hm2
      by (rewrite Hm; by repeat (rewrite <- ?app_assoc; cbn [app])).
    replace (user_end + 1) with (size (slashes_text ++ l_user l ++ [58])) by (rewrite size_app, size_slashes; sizes).
    rewrite (slice_part url _ _ _ _ Hm2) by (rewrite size_app, size_slashes; sizes). run_option. rewrite emit_ok; [done|]. rewrite size_app, size_slashes. rewrite Hs in Hn. lia.
  - rewrite size_nil, N.add_0_r, N.eqb_refl. cbn [negb]. by rewrite app_nil_r.
Qed.

Lemma write_authority_canonical n local : port_end <= n -> write_authority n url authority (size (l_scheme l)) false local slashes_text
  = Some (ends_of user_start (l_user l) (l_password l) (l_host l) (l_port l), slashes_text ++ authority_text (l_user l) (l_password l) (l_host l) (l_port l)).
Proof.
  intros Hn. unfold write_authority.
  cbn [userStart userEnd passwordStart passwordEnd au_hostStart hostEnd portStart portEnd andb negb]. change position with (@size N).
  pose proof memory_slashes as Hms. unfold credentials in Hms. rewrite <- !app_assoc in Hms.
  rewrite <- size_slashes at 1. rewrite (slice_part url _ _ _ _ Hms) by (by rewrite size_slashes). run_option.
  rewrite (emit_ok n (l_user l) slashes_text) by (pose proof size_credentials; rewrite size_slashes; lia). run_option. rewrite write_password_canonical by lia. run_option.
  assert ((if negb (size ((slashes_text ++ l_user l) ++ prefixed 58 (l_password l)) =? size slashes_text) then emit n [64] ((slashes_text ++ l_user l) ++ prefixed 58 (l_password l))
    else Some ((slashes_text ++ l_user l) ++ prefixed 58 (l_password l))) = Some prefix_text) as ->.
  { unfold prefix_text, credentials. pose proof size_credentials as Hs. rewrite <- app_assoc, size_app, eqb_shift.
    destruct (l_user l) as [|c user] eqn:Eu, (l_password l) as [password|] eqn:Ep; cbn [prefixed at_sign app size] in *.
    all: rewrite ?(proj2 (N.eqb_neq (size (_ :: _)) 0)) by (rewrite size_cons; lia); cbn [negb]; rewrite ?emit_ok by (rewrite !size_app, ?size_slashes, ?size_cons in *; sizes).
    all: rewrite ?app_nil_r; repeat (rewrite <- ?app_assoc; cbn [app]); done. }
  run_option.
  rewrite <- size_prefix at 1. rewrite (slice_part url prefix_text (l_host l) (prefixed 58 (l_port l) ++ rest_text) _ memory_prefix) by (by rewrite size_prefix).
  run_option. destruct (c_host l Hl) as [_ Hlower]. rewrite Hlower.
  assert ((if isCanonicalHostnameLowercaseForScheme prefix_text (size (l_scheme l)) then l_host l else l_host l) = l_host l) as ->
    by (by destruct (isCanonicalHostnameLowercaseForScheme _ _)).
  rewrite emit_ok by (rewrite size_prefix; lia). run_option. unfold ends_of, authority_text. cbn [at_sign prefixed app].
  pose proof (c_port l Hl) as Hport. pose proof memory_port as Hm. unfold port_start in *. destruct (l_port l) as [port|]; cbn [prefixed app] in *.
  - rewrite (proj2 (N.eqb_neq host_end (host_end + 1))) by lia. cbn [negb]. destruct (Hport port eq_refl) as (Hne & _ & Hdefault).
    assert (memory url = ((prefix_text ++ l_host l) ++ [58]) ++ port ++ rest_text) as Hm2 by (rewrite Hm; by rewrite <- !app_assoc).
    replace (host_end + 1) with (size ((prefix_text ++ l_host l) ++ [58])) by (rewrite !size_app, size_prefix; sizes).
    rewrite (slice_part url _ _ _ _ Hm2) by (rewrite !size_app, size_prefix; sizes). run_option.
    assert (isDefaultPortForScheme port (prefix_text ++ l_host l) (size (l_scheme l)) = false) as ->
      by (unfold prefix_text, slashes_text; by rewrite <- !app_assoc, isDefaultPortForScheme_app). rewrite (proj2 (N.eqb_neq (host_end + size (58 :: port)) _)).
    2: { rewrite !size_app, size_prefix. destruct port; [done|sizes]. }
    cbn [negb andb orb]. rewrite emit_ok by (rewrite size_app, size_prefix; lia). run_option.
    unfold prefix_text, credentials. f_equal. f_equal; [f_equal; rewrite ?size_app, ?size_slashes; sizes|by repeat (rewrite <- ?app_assoc; cbn [app])].
  - rewrite N.eqb_refl. cbn [negb]. run_option. unfold prefix_text, credentials. f_equal. f_equal; [f_equal; rewrite ?size_app, ?size_slashes; sizes|rewrite app_nil_r; by repeat (rewrite <- ?app_assoc; cbn [app])].
Qed.

Lemma fragment_end_size : size url = fragment_end.
Proof. unfold render, authority_text. rewrite (c_slashes l Hl), size_credentials. sizes. Qed.

Lemma render_bytes : Forall (fun c => c < 256) url.
Proof.
  assert (Forall (fun c => c < 256) (memory url)) as Hm.
  { rewrite memory_render. unfold rest_text. pose proof (c_port l Hl) as Hport. pose proof (c_query l Hl) as Hquery. pose proof (c_fragment l Hl) as Hfrag.
    destruct (c_path_chars l Hl) as [Hpath _].
    repeat first [apply Forall_app; split|apply Forall_cons; split]; try done.
    - eapply Forall_impl; [exact (c_scheme_chars l Hl)|]. intros c [Hc _]. unfold isSchemeChar in Hc. breflect. lia.
    - eapply Forall_impl; [exact (c_user l Hl)|]. intros c [Hc _]. by eapply in_class_bound.
    - pose proof (c_password l Hl) as Hp. destruct (l_password l) as [password|]; cbn [prefixed]; [|done]. constructor; [done|]. destruct (Hp password eq_refl) as [_ Hc].
      eapply Forall_impl; [exact Hc|]. intros c. apply in_class_bound.
    - by destruct (l_user l), (l_password l); repeat constructor.
    - destruct (c_host l Hl) as [[[_ Hh]|(address & -> & Ha)] _]; [eapply Forall_impl; [exact Hh|intros c; apply in_class_bound]|].
      constructor; [done|]. apply Forall_app. split; [eapply Forall_impl; [exact Ha|intros c; apply in_class_bound]|by constructor].
    - destruct (l_port l) as [port|]; cbn [prefixed]; [|done]. constructor; [done|]. destruct (Hport port eq_refl) as (_ & Hd & _).
      eapply Forall_impl; [exact Hd|]. intros c Hc%digit_ascii. unfold url_char in Hc. lia.
    - eapply Forall_impl; [exact Hpath|]. by intros c ((_ & ?) & _).
    - destruct (l_query l) as [query|]; cbn [prefixed]; [|done]. constructor; [done|]. destruct (Hquery query eq_refl) as [Hq _].
      eapply Forall_impl; [exact Hq|]. by intros c ((_ & ?) & _).
    - destruct (l_fragment l) as [fragment|]; cbn [prefixed]; [|done]. constructor; [done|]. destruct (Hfrag fragment eq_refl) as [Hq _].
      eapply Forall_impl; [exact Hq|]. by intros c (_ & ?). }
  unfold memory in Hm. by apply Forall_app in Hm as [? _].
Qed.

Lemma scheme_first : exists c, char_at url 0 = Some c /\ isSchemeFirstChar c = true.
Proof.
  destruct (c_scheme l Hl) as (c & rest & Hs & Hc). exists c. split; [|done].
  apply (char_at_part url Hint [] c (rest ++ 58 :: 47 :: 47 :: credentials ++ l_host l ++ prefixed 58 (l_port l) ++ rest_text)). by rewrite memory_render, Hs.
Qed.

Lemma not_file : (if size (l_scheme l) =? 4 then letters_at url 0 (lit "file") else Some false) = Some false.
Proof.
  destruct (size (l_scheme l) =? 4) eqn:E; [|done]. breflect. unfold letters_at. change (N.to_nat 0) with 0%nat. rewrite drop_0, memory_render.
  rewrite match_letters_scheme; [|exact (c_scheme_chars l Hl)|repeat constructor; done]. rewrite bool_decide_false; [done|].
  intros [k Hk]. apply (c_file l Hl). rewrite Hk in *. rewrite size_app in E. destruct k; [by rewrite app_nil_r|rewrite size_cons in E; change (size (lit "file")) with 4 in E; lia].
Qed.

Lemma scheme_lower : toASCIILower_char <$> l_scheme l = l_scheme l.
Proof. pose proof (c_scheme_chars l Hl) as Hs. induction Hs as [|c s [_ Hc] _ IH]; [done|]. cbn. by rewrite Hc, IH. Qed.

Lemma query_escaped : escapingBadChars (prefixed 63 (l_query l)) = prefixed 63 (l_query l).
Proof.
  pose proof (c_query l Hl) as Hq. destruct (l_query l) as [query|]; cbn [prefixed]; [|done]. destruct (Hq query eq_refl) as [_ Hq'].
  change (escapingBadChars (63 :: query)) with (63 :: escapingBadChars query). by rewrite Hq'.
Qed.

Lemma root_canonical n buffer : size buffer + 1 <= n -> exists slash,
  (if (http_scheme (l_scheme l) || false) && (path_end =? port_end) then emit n [47] buffer else Some buffer) = Some (buffer ++ slash) /\
  l_path (with_root l) = slash ++ l_path l /\ size slash <= 1.
Proof.
  intros Hn. unfold with_root. cbn [l_path]. rewrite orb_false_r. destruct (l_path l) as [|c path].
  - rewrite size_nil, N.add_0_r, N.eqb_refl, andb_true_r. destruct (http_scheme _); [|exists []; by rewrite app_nil_r].
    exists [47]. rewrite emit_ok by sizes. by split_and!.
  - exists []. rewrite app_nil_r, (proj2 (N.eqb_neq (port_end + size (c :: path)) port_end)) by sizes. by rewrite andb_false_r.
Qed.

Lemma fragment_canonical n buffer : size buffer + size (prefixed 35 (l_fragment l)) <= n ->
  (if negb (fragment_end =? query_end) then
     buffer ← emit n [35] buffer;
     fragment ← slice url fragment_start fragment_end; emit n (escapedNonHierarchicalPart fragment) buffer
   else Some buffer) = Some (buffer ++ prefixed 35 (l_fragment l)).
Proof.
  intros Hn. pose proof (c_fragment l Hl) as Hf. unfold fragment_start. pose proof memory_rest as Hm. fold before_path in Hm.
  pose proof size_port_end as Hs. fold before_path in Hs. unfold rest_text in Hm. destruct (l_fragment l) as [fragment|] eqn:E; cbn [prefixed] in *.
  - rewrite (proj2 (N.eqb_neq (query_end + size (35 :: fragment)) query_end)) by sizes. cbn [negb]. rewrite size_cons in Hn. rewrite emit_ok by sizes. run_option.
    assert (memory url = (((before_path ++ l_path l) ++ prefixed 63 (l_query l)) ++ [35]) ++ fragment ++ [0]) as Hm3 by (rewrite Hm; by rewrite <- !app_assoc).
    replace (query_end + 1) with (size (((before_path ++ l_path l) ++ prefixed 63 (l_query l)) ++ [35])) by (rewrite !size_app, Hs; sizes).
    rewrite (slice_part url _ _ _ _ Hm3) by (rewrite !size_app, Hs; sizes). run_option. destruct (Hf fragment eq_refl) as [_ ->].
    rewrite emit_ok by sizes. by rewrite <- app_assoc.
  - rewrite size_nil, N.add_0_r, N.eqb_refl. cbn [negb]. by rewrite app_nil_r.
Qed.

Lemma assemble_canonical originalString : assemble url originalString (size (l_scheme l)) true false (http_scheme (l_scheme l)) authority
    (mkParts path_end query_end fragment_start fragment_end)
  = if int_max <? 3 * size url + 1 then None
    else Some (url_of (result_string originalString (render (with_root l))) (http_scheme (l_scheme l)) (with_root l)).
Proof.
  unfold assemble. cbn [fragmentEnd pathEnd queryEnd fragmentStart userStart userEnd passwordStart passwordEnd au_hostStart hostEnd portStart portEnd].
  rewrite fragment_end_size. replace (3 * fragment_end + 1) with (fragment_end * 3 + 1) by lia.
  set (n := fragment_end * 3 + 1). destruct (int_max <? n); [done|].
  pose proof scheme_lower as Hlower.
  assert (slice url 0 (size (l_scheme l)) = Some (l_scheme l)) as -> by (by apply (slice_part url [] _ _ _ memory_render)).
  run_option. rewrite Hlower. rewrite emit_ok by (unfold n; sizes). run_option. cbn [app]. change (position (l_scheme l)) with (size (l_scheme l)).
  assert (exists local, (if port_end - user_start =? 9 then letters_at url user_start (lit "localhost") else Some false) = Some local) as [local ->].
  { destruct (port_end - user_start =? 9) eqn:E; [|by exists false]. breflect. apply letters_at_total; [exact render_bytes|done| |repeat constructor; done].
    pose proof fragment_end_size as Hsize. unfold size at 1 in Hsize. lia. }
  run_option. rewrite emit_ok by (unfold n; sizes). run_option. rewrite (proj2 (N.eqb_neq start host_end)).
  2: { pose proof host_not_empty. destruct (l_host l); [done|sizes]. }
  rewrite orb_true_r. cbn [negb]. rewrite emit_ok by (unfold n; sizes). run_option.
  replace ((l_scheme l ++ [58]) ++ [47; 47]) with slashes_text by (unfold slashes_text; by rewrite <- app_assoc).
  rewrite write_authority_canonical by (unfold n; lia). run_option. set (buffer := slashes_text ++ _). cbn [ends_of e_portEnd].
  assert (size buffer = port_end) as Hbuffer by (unfold buffer, authority_text; rewrite size_app, size_slashes, size_credentials; sizes).
  replace (password_end + size (at_sign (l_user l) (l_password l)) + size (l_host l) + size (prefixed 58 (l_port l))) with port_end by (rewrite size_credentials; lia).
  destruct (root_canonical n buffer) as (slash & -> & Hroot & Hslash); [unfold n; sizes|].
  run_option. pose proof memory_rest as Hm. fold before_path in Hm. pose proof size_port_end as Hs. fold before_path in Hs. unfold rest_text in Hm.
  unfold write_path. rewrite (c_dots l Hl). cbn [negb]. rewrite <- Hs at 1. rewrite (slice_part url _ _ _ _ Hm) by (by rewrite Hs). run_option.
  destruct (c_path_chars l Hl) as [_ ->]. rewrite emit_ok by (unfold n; sizes). run_option. rewrite <- app_assoc, <- Hroot.
  set (root := l_path (with_root l)) in *. change position with (@size N).
  pose proof (after_last_slash_spec (length (buffer ++ root)) buffer root []) as Hafter. rewrite app_nil_r, Hbuffer in Hafter.
  rewrite size_app, Hbuffer, Hafter by (rewrite length_app; lia). run_option.
  assert (memory url = (before_path ++ l_path l) ++ prefixed 63 (l_query l) ++ prefixed 35 (l_fragment l) ++ [0]) as Hm2 by (rewrite Hm; by rewrite <- app_assoc).
  assert (size (before_path ++ l_path l) = path_end) as Hs2 by (by rewrite size_app, Hs).
  rewrite <- Hs2 at 1. rewrite (slice_part url _ _ _ _ Hm2) by (by rewrite Hs2). run_option.
  rewrite query_escaped.
  assert (size buffer + size root <= port_end + 1 + size (l_path l)) as Hsize' by (rewrite Hroot; sizes).
  rewrite emit_ok by (unfold n; sizes). run_option.
  rewrite fragment_canonical by (unfold n; sizes).
  run_option. f_equal.
  assert (((buffer ++ root) ++ prefixed 63 (l_query l)) ++ prefixed 35 (l_fragment l) = render (with_root l)) as <-.
  { unfold render, buffer, authority_text, slashes_text. fold root. unfold with_root.
    cbn [l_scheme l_slashes l_user l_password l_host l_port l_query l_fragment]. rewrite (c_slashes l Hl).
    by repeat (rewrite <- ?app_assoc; cbn [app]). }
  pose proof size_credentials as Hcred. unfold url_of. fold root.
  change (l_scheme (with_root l)) with (l_scheme l). change (l_slashes (with_root l)) with (l_slashes l). change (l_user (with_root l)) with (l_user l).
  change (l_password (with_root l)) with (l_password l). change (l_host (with_root l)) with (l_host l). change (l_port (with_root l)) with (l_port l).
  change (l_query (with_root l)) with (l_query l). change (l_fragment (with_root l)) with (l_fragment l). rewrite (c_slashes l Hl).
  unfold ends_of. cbn [e_userStart e_userEnd e_passwordEnd e_hostEnd]. change (size [47; 47]) with 2. f_equal; rewrite ?size_app, ?Hbuffer; lia.
Qed.

Lemma parse_canonical_exact originalString : parse url originalString
  = if int_max <? 3 * size url + 1 then None
    else Some (url_of (result_string originalString (render (with_root l))) (http_scheme (l_scheme l)) (with_root l)).
Proof.
  unfold parse. destruct scheme_first as (first & Hfirst & Hc). rewrite Hfirst. run_option.
  assert ((first =? 0) || negb (isSchemeFirstChar first) = false) as ->.
  { rewrite Hc, orb_false_r. apply N.eqb_neq. by intros ->. }
  assert (scan isSchemeChar url 0 = Some (size (l_scheme l))) as ->.
  { apply (scan_part url isSchemeChar [] (l_scheme l) 58 _ memory_render); [|done].
    eapply Forall_impl; [exact (c_scheme_chars l Hl)|by intros c [? _]]. }
  run_option.
  rewrite (char_at_part url Hint _ _ _ memory_render). run_option. cbn [N.eqb Pos.eqb negb].
  assert (memory url = (l_scheme l ++ [58]) ++ 47 :: 47 :: credentials ++ l_host l ++ prefixed 58 (l_port l) ++ rest_text) as Hm1 by (rewrite memory_render; by rewrite <- app_assoc).
  assert (memory url = (l_scheme l ++ [58; 47]) ++ 47 :: credentials ++ l_host l ++ prefixed 58 (l_port l) ++ rest_text) as Hm2 by (rewrite memory_render; by rewrite <- app_assoc).
  replace (size (l_scheme l) + 1) with (size (l_scheme l ++ [58])) by sizes. rewrite (char_at_part url Hint _ _ _ Hm1). run_option. cbn [N.eqb Pos.eqb].
  replace (size (l_scheme l) + 2) with (size (l_scheme l ++ [58; 47])) by sizes. rewrite (char_at_part url Hint _ _ _ Hm2). run_option. cbn [N.eqb Pos.eqb].
  rewrite not_file. run_option. rewrite (http_family_scheme _ _ _ Hint memory_render (c_scheme_chars l Hl)). run_option.
  rewrite parse_authority_canonical. run_option. cbn [portEnd]. rewrite parse_parts_canonical. run_option. apply assemble_canonical.
Qed.
End Canonical.

Lemma parse_canonical_result l originalString : canonical l -> size (render l) <= parse_limit ->
  parse (render l) originalString
  = Some (url_of (result_string originalString (render (with_root l))) (http_scheme (l_scheme l)) (with_root l)).
Proof.
  intros Hl Hlimit. rewrite (parse_canonical_exact l Hl (limit_int_length _ Hlimit)).
  rewrite (proj2 (N.ltb_ge _ _)); [done|]. by apply parse_limit_fits.
Qed.
