(* ===== verification/URLEncode.v ===== *)
(** * [WebCore/platform/URL.cpp]: the encoding of references

    What [URL::init] does to a reference that is not ASCII: its host names are
    converted by ICU, and its text by the encoding of the document. *)

From S2P Require Import Prelude ASCII WTFString StringOps URLCharacters URL.

(** The conversions that are not part of the repository or depend on its data:
    [uidna_IDNToASCII], and [TextEncoding::encode] in UTF-8 and in the encoding of
    a document, of which [encoding_is_utf8] and [encoding_isValid] are what
    [encodeRelativeString] asks. *)
Class Encodings := {
  uidna_IDNToASCII : list N -> option (list N);
  utf8_encode : list N -> list N;
  document_encode : list N -> list N;
  encoding_is_utf8 : bool;
  encoding_isValid : bool;
  utf8_encode_byte : forall chars, Forall (fun c => c < 256) (utf8_encode chars);
  document_encode_byte : forall chars, Forall (fun c => c < 256) (document_encode chars);
  utf8_encode_ascii : forall chars, Forall (fun c => c < 128) chars -> utf8_encode chars = chars
}.

(** ** Searching *)

(** The characters from an index, searched for any of some. *)
Fixpoint first_of (chars : list N) (i : N) (target : list N) : option N :=
  match chars with
  | [] => None
  | c :: chars => if existsb (fun t => c =? t) target then Some i else first_of chars (i + 1) target
  end.

(** WebCore/platform/URL.cpp:393-403 [findFirstOf]; [None] is -1 *)
Definition findFirstOf (string : list N) (startPosition : N) (target : list N) : option N :=
  first_of (drop (N.to_nat startPosition) string) startPosition target.

(** WTF/wtf/text/StringView.h:348-363 [StringView::substring] *)
Definition view_substring (string : list N) (start length_ : N) : list N :=
  if N.of_nat (length string) <=? start then []
  else
    let maxLength := N.of_nat (length string) - start in
    take (N.to_nat (if maxLength <=? length_ then maxLength else length_)) (drop (N.to_nat start) string).

(** [StringView::substring] to the end. *)
Definition view_from (string : list N) (start : N) : list N := view_substring string start max32.

(** WebCore/platform/URL.cpp:1646-1657 [protocolIs], of a view *)
Fixpoint view_protocolIs (stringURL protocol : list N) : bool :=
  match stringURL with
  | [] => false
  | c :: stringURL =>
      match protocol with
      | [] => c =? 58
      | p :: protocol => if isLetterMatchIgnoringCase c p then view_protocolIs stringURL protocol else false
      end
  end.

(** ** Host names *)

Section Encoding.
Context `{Encodings}.

(** WebCore/platform/URL.cpp:1661-1678 [appendEncodedHostname], what is appended *)
Definition encodedHostname (string : list N) : list N :=
  let hostnameBufferLength := 2048 in
  if (hostnameBufferLength <? N.of_nat (length string)) || forallb (fun c => c <? 128) string then string
  else match uidna_IDNToASCII string with Some converted => converted | None => [] end.

(** WebCore/platform/URL.cpp:1720-1738 [findHostnamesInMailToURL]: the loop over a quoted string, with a turn
    of fuel for each character; no value at the end of the string *)
Fixpoint skip_quoted (fuel : nat) (string : list N) (p : N) : option N :=
  match fuel with
  | O => None
  | S fuel =>
      match findFirstOf string p [34; 92] with
      | None => None
      | Some i =>
          let p := i + 1 in
          if default 0 (string !!N i) =? 34 then Some p
          else if p =? N.of_nat (length string) then None
          else skip_quoted fuel string (p + 1)
      end
  end.

(** WebCore/platform/URL.cpp:1689-1740 [findHostnamesInMailToURL]: the loop, with a turn of fuel for each
    character *)
Fixpoint find_hostnames (fuel : nat) (string : list N) (p : N) (nameRanges : list (N * N)) : list (N * N) :=
  match fuel with
  | O => nameRanges
  | S fuel =>
      match findFirstOf string p [34; 64; 63] with
      | None => nameRanges
      | Some hostnameOrStringStart =>
          let c := default 0 (string !!N hostnameOrStringStart) in
          let p := hostnameOrStringStart + 1 in
          if c =? 63 then nameRanges
          else if c =? 64 then
            match findFirstOf string p [62; 44; 63] with
            | None => nameRanges ++ [(p, N.of_nat (length string))]
            | Some hostnameEnd => find_hostnames fuel string hostnameEnd (nameRanges ++ [(p, hostnameEnd)])
            end
          else
            match skip_quoted (length string) string p with
            | None => nameRanges
            | Some p => find_hostnames fuel string p nameRanges
            end
      end
  end.

(** WebCore/platform/URL.cpp:1680-1741 [findHostnamesInMailToURL] *)
Definition findHostnamesInMailToURL (string : list N) : list (N * N) := find_hostnames (S (length string)) string 0 [].

(** WebCore/platform/URL.cpp:1766-1773 [findHostnameInHierarchicalURL], the loop *)
Fixpoint hostname_end (chars : list N) (i : N) : N :=
  match chars with
  | [] => i
  | c :: chars => if (c =? 58) || (isPathSegmentEndChar c && negb (c =? 0)) then i else hostname_end chars (i + 1)
  end.

(** WebCore/platform/URL.cpp:1743-1786 [findHostnameInHierarchicalURL] *)
Definition findHostnameInHierarchicalURL (string : list N) : option (N * N) :=
  match findFirstOf string 0 [58] with
  | None => None
  | Some separator =>
      if (N.of_nat (length string) <=? separator + 2) || negb (default 0 (string !!N (separator + 1)) =? 47)
         || negb (default 0 (string !!N (separator + 2)) =? 47) then None
      else if negb (isSchemeFirstChar (default 0 (string !!N 0))) then None
      else if negb (forallb isSchemeChar (take (N.to_nat (separator - 1)) (drop 1 string))) then None
      else
        let authorityStart := separator + 3 in
        let hostnameEnd := hostname_end (drop (N.to_nat authorityStart) string) authorityStart in
        let hostnameStart :=
          match findFirstOf string authorityStart [64] with
          | None => authorityStart
          | Some userInfoTerminator => if hostnameEnd <? userInfoTerminator then authorityStart else userInfoTerminator + 1
          end in
        Some (hostnameStart, hostnameEnd)
  end.

(** WebCore/platform/URL.cpp:1799-1804 [encodeHostnames], the loop over the host names of a [mailto] URL *)
Fixpoint encode_ranges (string : list N) (ranges : list (N * N)) (p : N) (buffer : list N) : N * list N :=
  match ranges with
  | [] => (p, buffer)
  | r :: ranges =>
      encode_ranges string ranges r.2
        (buffer ++ view_substring string p (r.1 - p) ++ encodedHostname (view_substring string r.1 (r.2 - r.1)))
  end.

(** WebCore/platform/URL.cpp:1790-1819 [encodeHostnames] *)
Definition encodeHostnames (string : list N) : list N :=
  if view_protocolIs string (lit "mailto") then
    let '(p, buffer) := encode_ranges string (findHostnamesInMailToURL string) 0 [] in
    buffer ++ view_from string p
  else
    match findHostnameInHierarchicalURL string with
    | Some (hostStart, hostEnd) =>
        view_substring string 0 hostStart ++ encodedHostname (view_substring string hostStart (hostEnd - hostStart)) ++ view_from string hostEnd
    | None => string
    end.

(** WebCore/platform/URL.cpp:1821-1849 [encodeRelativeString]: the buffer with its terminator *)
Definition encodeRelativeString (rel : list N) : list N :=
  let s := encodeHostnames rel in
  let pathEnd :=
    if negb encoding_is_utf8 && encoding_isValid && negb (string_protocolIs rel (lit "mailto"))
       && negb (string_protocolIs rel (lit "data")) && negb (string_protocolIs rel (lit "javascript"))
    then findFirstOf s 0 [35; 63] else None in
  match pathEnd with
  | None => utf8_encode s ++ [0]
  | Some pathEnd => utf8_encode (take (N.to_nat pathEnd) s) ++ document_encode (drop (N.to_nat pathEnd) s) ++ [0]
  end.
End Encoding.

(** WebCore/platform/URL.cpp:1851-1865 [substituteBackslashes] *)
Definition substituteBackslashes (string : WTFString) : option WTFString :=
  let questionPos := String_find string 63 in
  let hashPos := String_find string 35 in
  let pathEnd :=
    match hashPos, questionPos with
    | Some hashPos, None => hashPos
    | Some hashPos, Some questionPos => if hashPos <? questionPos then hashPos else questionPos
    | None, Some questionPos => questionPos
    | None, None => String_length string
    end in
  String_concat [(fun impl => impl_replace impl 92 47) <$> String_left string pathEnd; String_substring string pathEnd max32].
