(* ===== verification/URLInit.v ===== *)
(** * [URL::init] and the setters, in [WebCore/platform/URL.cpp]

    References are resolved in a buffer of characters that is then parsed.
    [None] is an access outside of a buffer. *)

From S2P Require Import Prelude ASCII WTFString StringOps URLCharacters URL URLParse URLEncode.

(** ** Buffers *)

(** The null-terminated string at the start of a buffer. *)
Fixpoint cstring (buffer : list N) : option (list N) :=
  match buffer with
  | [] => None
  | c :: buffer => if c =? 0 then Some [] else s ← cstring buffer; Some (c :: s)
  end.

(** [parse(buffer + start, &relative)] *)
Definition parse_buffer (buffer : list N) (start : N) (relative : WTFString) : option URL :=
  s ← cstring (drop (N.to_nat start) buffer); parse s (Some relative).

(** WebCore/platform/URL.cpp:381-387 [appendASCII]: the buffer that is made of [base] and the [len]
    characters at [rel] *)
Definition appendASCII (base : WTFString) (buffer : list N) (rel len : N) : option (list N) :=
  if N.of_nat (length buffer) <? rel + len then None
  else Some (copyASCII base ++ take (N.to_nat len) (drop (N.to_nat rel) buffer) ++ [0]).

(** WebCore/platform/URL.cpp:452-458 [shouldTrimFromURL] *)
Definition shouldTrimFromURL (c : N) : bool := c <=? 32.

(** WebCore/platform/URL.cpp:493-496 [URL::init], the loop, over the characters at [str] *)
Fixpoint trim_start (chars : list N) (str len : N) : N * N :=
  match chars with
  | c :: chars => if shouldTrimFromURL c then trim_start chars (str + 1) (len - 1) else (str, len)
  | [] => (str, len)
  end.

(** WebCore/platform/URL.cpp:499-500 [URL::init], the loop, with a turn of fuel for each character *)
Fixpoint trim_end (fuel : nat) (buffer : list N) (str len : N) : option (list N * N) :=
  match fuel with
  | O => Some (buffer, len)
  | S fuel =>
      if len =? 0 then Some (buffer, len)
      else
        c ← buffer !!N (str + len - 1);
        if shouldTrimFromURL c then
          buffer ← vec_set buffer (str + len - 1) 0;
          trim_end fuel buffer str (len - 1)
        else Some (buffer, len)
  end.

(** ** Relative paths *)

(** WebCore/platform/URL.cpp:627-628 [URL::init], the loop; the last character is first *)
Fixpoint rewind_path (dst : list N) : list N :=
  match dst with
  | c :: (_ :: _) as rest => if c =? 47 then dst else rewind_path rest
  | _ => dst
  end.

(** WebCore/platform/URL.cpp:609-636 [URL::init]: the loop over the relative path, with a turn of fuel for
    each character; [before] is what is written before the path *)
Fixpoint copy_relative (fuel : nat) (bufferSize : N) (before buffer : list N) (pos : N) (dst : list N)
    : option (N * list N) :=
  c ← buffer !!N pos;
  if (c =? 0) || (c =? 63) || (c =? 35) then Some (pos, dst)
  else
    match fuel with
    | O => None
    | S fuel =>
        copy ← (if c =? 46 then
                  previous ← (match dst with previous :: _ => Some previous | [] => last before end);
                  if previous =? 47 then
                    c1 ← buffer !!N (pos + 1);
                    if isPathSegmentEndChar c1 then Some (inr (if c1 =? 47 then pos + 2 else pos + 1, dst))
                    else if c1 =? 46 then
                      c2 ← buffer !!N (pos + 2);
                      if isPathSegmentEndChar c2 then
                        Some (inr (if c2 =? 47 then pos + 3 else pos + 2,
                                   rewind_path (if (1 <? length dst)%nat then tail dst else dst)))
                      else Some (inl ())
                    else Some (inl ())
                  else Some (inl ())
                else Some (inl ()));
        match copy with
        | inr (pos, dst) => copy_relative fuel bufferSize before buffer pos dst
        | inl _ =>
            if N.of_nat (length before + length dst) <? bufferSize
            then copy_relative fuel bufferSize before buffer (pos + 1) (c :: dst)
            else None
        end
    end.

(** WebCore/platform/URL.cpp:570-646 [URL::init]: a relative path, at [str] *)
Definition relative_path (base : URL) (relative : WTFString) (buffer : list N) (str len : N) : option URL :=
  let bufferSize := m_pathEnd base + 1 + len + 1 in
  let baseString := copyASCII (m_string base) in
  if N.of_nat (length baseString) <? m_portEnd base then None
  else
    let before := take (N.to_nat (m_portEnd base)) baseString in
    baseStringEnd ← after_last_slash (N.to_nat (m_pathEnd base)) baseString (m_portEnd base) (m_pathEnd base);
    first ← buffer !!N str;
    path ← (if baseStringEnd =? m_portEnd base then
              Some (if negb (m_schemeEnd base + 1 =? m_pathEnd base) && negb (first =? 0) && negb (first =? 63) && negb (first =? 35)
                    then [47] else [])
            else copyPathRemovingDots (last before) (bufferSize - m_portEnd base) baseString (m_portEnd base) baseStringEnd);
    r ← copy_relative (length buffer) bufferSize before buffer str (rev path);
    let '(relStringPos, dst) := r in
    rest ← cstring (drop (N.to_nat relStringPos) buffer);
    let written := before ++ rev dst in
    let room := bufferSize - N.of_nat (length written) in
    let copied := take (N.to_nat room) rest in
    parse_buffer (written ++ copied ++ repeat 0 (N.to_nat room - length copied)) 0 relative.

(** ** [init] *)

(** WebCore/platform/URL.h:66-66 [URL::isEmpty] *)
Definition URL_isEmpty (url : URL) : bool := String_isEmpty (m_string url).

(** WebCore/platform/URL.cpp:932-937 [URL::removeFragmentIdentifier] *)
Definition removeFragmentIdentifier (url : URL) : option URL :=
  if negb (m_isValid url) then Some url else parse_string (String_left (m_string url) (m_queryEnd url)).

Section Init.
Context `{ICU} `{Encodings}.

(** WebCore/platform/URL.cpp:470-490 [URL::init]: the buffer with the reference, and its length *)
Definition reference_buffer (relative : WTFString) : option (list N * N) :=
  let chars := String_chars relative in
  rel ← (if String_contains relative 92
            && negb (string_protocolIs chars (lit "javascript") || string_protocolIs chars (lit "data"))
         then substituteBackslashes relative else Some relative);
  if String_containsOnlyASCII rel then Some (copyASCII rel ++ [0], String_length rel)
  else
    let buffer := encodeRelativeString (String_chars rel) in
    s ← cstring buffer;
    Some (buffer, N.of_nat (length s)).

(** WebCore/platform/URL.cpp:507-520 [URL::init]: where the reference starts, and if it is absolute *)
Definition find_scheme (base : URL) (buffer : list N) (str : N) : option (N * bool) :=
  first ← buffer !!N str;
  if isSchemeFirstChar first then
    p ← scan_from isSchemeChar (drop (N.to_nat (str + 1)) buffer) (str + 1);
    c ← buffer !!N p;
    if c =? 58 then
      c1 ← buffer !!N (p + 1);
      if negb (c1 =? 47)
         && equalIgnoringCase (protocol base) (String8 (take (N.to_nat (p - str)) (drop (N.to_nat str) buffer)))
         && isHierarchical base
      then Some (p + 1, false)
      else Some (str, true)
    else Some (str, false)
  else Some (str, false).

(** WebCore/platform/URL.cpp:524-648 [URL::init]: the reference at [str] *)
Definition resolve (base : URL) (relative : WTFString) (buffer : list N) (str len : N) (absolute : bool) : option URL :=
  let append last := buffer ← appendASCII (String_left (m_string base) last) buffer str len; parse_buffer buffer 0 relative in
  if (absolute : bool) then parse_buffer buffer str relative
  else
    first ← buffer !!N str;
    if negb (isHierarchical base) then
      if first =? 35 then append (m_queryEnd base) else Some (invalidate relative)
    else if first =? 0 then removeFragmentIdentifier base
    else if first =? 35 then append (m_queryEnd base)
    else if first =? 63 then append (m_pathEnd base)
    else if first =? 47 then
      second ← buffer !!N (str + 1);
      if second =? 47 then append (m_schemeEnd base + 1) else append (m_portEnd base)
    else relative_path base relative buffer str len.

(** WebCore/platform/URL.cpp:460-649 [URL::init] *)
Definition init (base : URL) (relative : WTFString) : option URL :=
  if negb (m_isValid base) && negb (URL_isEmpty base) then Some (invalidate relative)
  else
    r ← reference_buffer relative;
    let '(buffer, len) := r in
    let '(str, len) := trim_start (take (N.to_nat len) buffer) 0 len in
    r ← trim_end (N.to_nat len) buffer str len;
    let '(buffer, len) := r in
    r ← find_scheme base buffer str;
    let '(str, absolute) := r in
    resolve base relative buffer str len absolute.
End Init.

(** WebCore/platform/URL.cpp:438-441 [URL::URL], a reference and its base *)
Definition URL_relative `{ICU} `{Encodings} (base : URL) (relative : WTFString) : option URL := init base relative.

(** ** Setters *)

(** WebCore/platform/URL.cpp:810-826 [URL::setProtocol]: the new URL, and what is returned *)
Definition setProtocol (url : URL) (s : WTFString) : option (URL * bool) :=
  let separatorPosition := String_find s 58 in
  let newProtocol := String_substring s 0 (match separatorPosition with Some i => i | None => max32 end) in
  if negb (isValidProtocol (String_chars newProtocol)) then Some (url, false)
  else if negb (m_isValid url) then
    text ← String_concat [newProtocol; String8 [58]; m_string url];
    url ← parse_string text; Some (url, true)
  else
    text ← String_concat [newProtocol; String_substring (m_string url) (m_schemeEnd url) max32];
    url ← parse_string text; Some (url, true).

(** WebCore/platform/URL.cpp:828-839 [URL::setHost] *)
Definition setHost (url : URL) (s : WTFString) : option URL :=
  if negb (m_isValid url) then Some url
  else
    let slashSlashNeeded := m_userStart url =? m_schemeEnd url + 1 in
    text ← String_concat [String_left (m_string url) (hostStart url); String8 (if slashSlashNeeded then [47; 47] else []); s;
                          String_substring (m_string url) (m_hostEnd url) max32];
    parse_string text.

(** WebCore/platform/URL.cpp:841-846 [URL::removePort] *)
Definition removePort (url : URL) : option URL :=
  if m_hostEnd url =? m_portEnd url then Some url
  else
    text ← String_concat [String_left (m_string url) (m_hostEnd url); String_substring (m_string url) (m_portEnd url) max32];
    parse_string text.

(** WebCore/platform/URL.cpp:848-857 [URL::setPort] *)
Definition setPort (url : URL) (i : N) : option URL :=
  if negb (m_isValid url) then Some url
  else
    let colonNeeded := m_portEnd url =? m_hostEnd url in
    let portStart := if (colonNeeded : bool) then m_hostEnd url else m_hostEnd url + 1 in
    number ← numberToStringUnsigned i;
    text ← String_concat [String_left (m_string url) portStart; String8 (if (colonNeeded : bool) then [58] else []); String8 number;
                          String_substring (m_string url) (m_portEnd url) max32];
    parse_string text.

(** WebCore/platform/URL.cpp:859-870 [URL::setHostAndPort] *)
Definition setHostAndPort (url : URL) (hostAndPort : WTFString) : option URL :=
  if negb (m_isValid url) then Some url
  else
    let slashSlashNeeded := m_userStart url =? m_schemeEnd url + 1 in
    text ← String_concat [String_left (m_string url) (hostStart url); String8 (if slashSlashNeeded then [47; 47] else []); hostAndPort;
                          String_substring (m_string url) (m_portEnd url) max32];
    parse_string text.

(** WebCore/platform/URL.cpp:923-930 [URL::setFragmentIdentifier] *)
Definition setFragmentIdentifier (url : URL) (s : WTFString) : option URL :=
  if negb (m_isValid url) then Some url
  else
    text ← String_concat [String_left (m_string url) (m_queryEnd url); String8 [35]; s];
    parse_string text.

(** WebCore/platform/URL.cpp:939-952 [URL::setQuery] *)
Definition setQuery (url : URL) (query : WTFString) : option URL :=
  if negb (m_isValid url) then Some url
  else
    let mark := (String_isEmpty query || negb (String_at query 0 =? 63)) && negb (String_isNull query) in
    text ← String_concat [String_left (m_string url) (m_pathEnd url); String8 (if (mark : bool) then [63] else []); query;
                          String_substring (m_string url) (m_queryEnd url) max32];
    parse_string text.
