(* ===== verification/URLInitCorrect.v ===== *)
(** * [URL::init] stays within its buffers, but for one read

    The texts are short enough for the [int]s of the parser ([reference_fits]). *)

From S2P Require Import Prelude ASCII WTFString StringOps URLCharacters URL URLLayout URLParse URLSafety URLAssemble URLCorrect URLEncode URLInit.

(** ** Well-formed URLs *)

(** A URL that a parser made: invalid, or the text of its parts. *)
Definition url_wf (u : URL) : Prop :=
  (exists string, u = invalidate string) \/
  (exists string isHTTP l, u = url_of string isHTTP l /\ layout_ok l /\ String_chars string = render l /\ String_isNull string = false).

Lemma parse_wf url originalString : Forall (fun c => c < 256) url -> size url <= parse_limit -> exists u, parse url originalString = Some u /\ url_wf u.
Proof.
  intros Hbytes Hlimit. destruct (parse_result url originalString Hbytes (limit_int_length _ Hlimit)) as [[Hlong _]|(u & Hu & [->|(isHTTP & l & -> & Hok & _)])];
    [unfold size in *; lia|eexists..]; (split; [exact Hu|]).
  - left. by eexists.
  - right. eexists _, _, l. split_and!; [done|done|apply result_string_chars|apply result_string_null].
Qed.

Lemma host_char_ascii c : host_char c -> url_char c.
Proof.
  unfold host_char. rewrite !orb_true_iff, !N.eqb_eq. intros [[[H|H]| ->]| ->]; [by apply isHostnameChar_ascii|by apply isIPv6Char_ascii|done|done].
Qed.

Lemma layout_ascii l : layout_ok l -> Forall url_char (render l).
Proof.
  intros [_ Hscheme Hslashes [Huser Hpassword Hhost Hport] Hpath _ Hquery Hfragment]. unfold render, authority_text.
  assert (forall d part, url_char d -> (forall chars, part = Some chars -> Forall url_char chars) -> Forall url_char (prefixed d part)) as Hpart.
  { intros d [chars|] Hd Hc; cbn [prefixed]; [|done]. constructor; [done|by apply Hc]. }
  repeat first [apply Forall_app; split|apply Forall_cons; split]; try done.
  - eapply Forall_impl; [exact Hscheme|]. intros c [Hc _]. by apply isSchemeChar_ascii.
  - destruct Hslashes as [->|[-> _]]; repeat constructor.
  - eapply Forall_impl; [exact Huser|apply isUserInfoChar_ascii].
  - apply Hpart; [done|]. intros chars E. destruct (Hpassword chars E) as [_ Hc]. eapply Forall_impl; [exact Hc|apply isUserInfoChar_ascii].
  - destruct (l_user l), (l_password l); cbn [at_sign]; repeat constructor.
  - eapply Forall_impl; [exact Hhost|apply host_char_ascii].
  - apply Hpart; [done|]. intros chars E. eapply Forall_impl; [exact (Hport chars E)|apply digit_ascii].
  - eapply Forall_impl; [exact Hpath|by intros c (? & _)].
  - apply Hpart; [done|]. intros chars E. eapply Forall_impl; [exact (Hquery chars E)|by intros c (? & _)].
  - apply Hpart; [done|]. exact Hfragment.
Qed.

Lemma copyASCII_ascii string : Forall url_char (String_chars string) -> copyASCII string = String_chars string.
Proof.
  destruct string as [[is8Bit chars]|]; [|done]. cbn. destruct is8Bit; [done|]. induction 1 as [|c chars [_ Hc] _ IH]; [done|].
  cbn. rewrite IH. unfold wrap8. by rewrite N.mod_small by lia.
Qed.

Lemma ascii_byte chars : Forall url_char chars -> Forall (fun c => c < 256) chars.
Proof. intros Hc. eapply Forall_impl; [exact Hc|]. intros c [_ ?]. lia. Qed.

Lemma copyASCII_byte string : Forall (fun c => c < 256) (String_chars string) -> Forall (fun c => c < 256) (copyASCII string).
Proof.
  destruct string as [[is8Bit chars]|]; [|done]. cbn. destruct is8Bit; [done|]. intros _. apply Forall_fmap, Forall_true. intros. apply wrap8_lt.
Qed.

Lemma substring_Forall (P : N -> Prop) string pos len : Forall P (String_chars string) -> Forall P (String_chars (String_substring string pos len)).
Proof.
  destruct string as [impl|]; [|done]. cbn. intros HP. unfold impl_substring, StringImpl_empty.
  repeat case_match; cbn; try done; by apply Forall_take, Forall_drop.
Qed.

Lemma left_size string len : size (String_chars (String_left string len)) <= N.min len (size (String_chars string)).
Proof.
  destruct string as [impl|]; cbn [String_left String_substring String_chars]; [|unfold size; simpl; lia]. unfold String_left, String_substring, impl_substring, StringImpl_empty, size.
  cbn. destruct (_ <=? 0) eqn:E; breflect; [simpl; lia|]. rewrite N.sub_0_r, andb_true_r. destruct (_ <=? len) eqn:E2; breflect; [lia|].
  destruct (len =? 0); cbn [impl_chars length]; [lia|]. rewrite length_take, length_drop. lia.
Qed.

Lemma copyASCII_size string : size (copyASCII string) = size (String_chars string).
Proof. destruct string as [[[] chars]|]; [done| |done]. unfold size. cbn. by rewrite length_fmap. Qed.

(** ** Null-terminated strings *)

Lemma cstring_spec buffer : 0 ∈ buffer -> exists s post, cstring buffer = Some s /\ buffer = s ++ 0 :: post.
Proof.
  induction buffer as [|c buffer IH]; [by intros ?%not_elem_of_nil|]. intros Hin. cbn [cstring]. destruct (c =? 0) eqn:E; breflect.
  - subst c. by exists [], buffer.
  - apply elem_of_cons in Hin as [?|Hin]; [done|]. destruct (IH Hin) as (s & post & -> & ->). run_option. by exists (c :: s), post.
Qed.

Lemma elem_of_drop_lookup (buffer : list N) i z : i <= z -> buffer !!N z = Some 0 -> 0 ∈ drop (N.to_nat i) buffer.
Proof.
  intros Hi Hz. apply list_elem_of_lookup. exists (N.to_nat z - N.to_nat i)%nat. rewrite lookup_drop.
  by replace (N.to_nat i + (N.to_nat z - N.to_nat i))%nat with (N.to_nat z) by lia.
Qed.

Lemma cstring_drop buffer i z : i <= z -> buffer !!N z = Some 0 ->
  exists s, cstring (drop (N.to_nat i) buffer) = Some s /\ size s <= z - i /\ (Forall (fun c => c < 256) buffer -> Forall (fun c => c < 256) s).
Proof.
  intros Hi Hz. destruct (cstring_spec _ (elem_of_drop_lookup buffer i z Hi Hz)) as (s & post & Hs & Hd). exists s. split_and!; [done| |].
  - destruct (N.le_gt_cases (size s) (z - i)) as [|Hlt]; [done|]. exfalso. unfold size in Hlt.
    assert (s !!N (z - i) = Some 0) as Hs0.
    { rewrite <- (lookup_app_l s (0 :: post)) by lia. rewrite <- Hd, lookup_drop. by replace (N.to_nat i + N.to_nat (z - i))%nat with (N.to_nat z) by lia. }
    clear Hlt Hz. revert Hs Hs0. clear. generalize (drop (N.to_nat i) buffer) as b. generalize (N.to_nat (z - i)) as k. clear.
    intros k b. revert s k. induction b as [|c b IH]; intros s k; cbn [cstring]; [done|]. destruct (c =? 0) eqn:E; [by intros [= <-]|].
    destruct (cstring b) as [s'|]; run_option; [|done]. intros [= <-]. destruct k; cbn; [by intros [= ->]|by apply IH].
  - intros Hb. assert (Forall (fun c => c < 256) (drop (N.to_nat i) buffer)) as Hd' by (by apply Forall_drop). rewrite Hd in Hd'. by apply Forall_app in Hd' as [? _].
Qed.

Lemma parse_buffer_wf buffer start z relative : Forall (fun c => c < 256) buffer -> start <= z -> buffer !!N z = Some 0 -> z - start <= parse_limit ->
  exists u, parse_buffer buffer start relative = Some u /\ url_wf u.
Proof.
  intros Hb Hs Hz Hlimit. unfold parse_buffer. destruct (cstring_drop buffer start z Hs Hz) as (s & -> & Hsl & Hsb). run_option.
  apply parse_wf; [auto|lia].
Qed.

(** ** Relative paths *)

Lemma rewind_path_ok (P : N -> Prop) dst : Forall P dst -> Forall P (rewind_path dst) /\ (length (rewind_path dst) <= length dst)%nat.
Proof.
  induction 1 as [|c dst Hc Hd IH]; [done|]. destruct dst as [|d dst]; [split; [by repeat constructor|done]|].
  cbn [rewind_path]. destruct (c =? 47); [split; [by constructor|done]|]. destruct IH as [? Hl]. split; [done|].
  cbn [rewind_path length] in *. lia.
Qed.

Section Copy.
Context (buffer : list N) (Hbytes : Forall (fun c => c < 256) buffer) (z : N) (Hz : buffer !!N z = Some 0).
Context (before : list N) (Hbefore : before <> []) (bufferSize : N).

Lemma buffer_read i : i <= z -> exists c, buffer !!N i = Some c /\ c < 256.
Proof.
  intros Hi. pose proof (lookupN_lt _ _ _ Hz). destruct (lookupN_is_Some buffer i) as [c Hc]; [lia|]. exists c. split; [done|].
  by eapply Forall_lookup_1 in Hbytes.
Qed.

Lemma buffer_before i c : buffer !!N i = Some c -> c <> 0 -> i <= z -> i + 1 <= z.
Proof. intros Hc Hne Hi. destruct (decide (i = z)) as [->|]; [congruence|lia]. Qed.

Lemma copy_relative_spec fuel pos dst : pos <= z -> z - pos <= N.of_nat fuel -> Forall (fun c => c < 256) dst ->
  size before + size dst + (z - pos) < bufferSize ->
  exists pos' dst', copy_relative fuel bufferSize before buffer pos dst = Some (pos', dst') /\ pos' <= z /\
    Forall (fun c => c < 256) dst' /\ size before + size dst' + (z - pos') < bufferSize.
Proof.
  revert pos dst. induction fuel as [|fuel IH]; intros pos dst Hpos Hfuel Hd Hroom; cbn [copy_relative];
    destruct (buffer_read pos Hpos) as (c & Hc & Hcb); rewrite Hc; run_option.
  - assert (pos = z) as -> by lia. assert (c = 0) as -> by congruence. cbn. by exists z, dst.
  - destruct ((c =? 0) || (c =? 63) || (c =? 35)) eqn:E; [by exists pos, dst|]. apply orb_false_iff in E as [[E _]%orb_false_iff _]. breflect.
    pose proof (buffer_before pos c Hc E Hpos) as Hpos1.
    assert (exists pos' dst', (if N.of_nat (length before + length dst) <? bufferSize
        then copy_relative fuel bufferSize before buffer (pos + 1) (c :: dst) else None) = Some (pos', dst') /\ pos' <= z /\
      Forall (fun c => c < 256) dst' /\ size before + size dst' + (z - pos') < bufferSize) as Hcopy.
    { rewrite (proj2 (N.ltb_lt _ _)) by (unfold size in *; lia). apply IH; [lia|lia|by constructor|sizes]. }
    destruct (c =? 46) eqn:E46; [|exact Hcopy].
    assert (exists previous, (match dst with previous :: _ => Some previous | [] => last before end) = Some previous) as [previous ->].
    { destruct dst; [|by eexists]. destruct (last before) eqn:El; [by eexists|]. by apply last_None in El. }
    run_option. destruct (previous =? 47); [|exact Hcopy]. destruct (buffer_read (pos + 1) Hpos1) as (c1 & Hc1 & _). rewrite Hc1. run_option.
    destruct (isPathSegmentEndChar c1) eqn:Eend.
    { apply IH; [|destruct (c1 =? 47); lia|done|destruct (c1 =? 47); lia].
      destruct (c1 =? 47) eqn:E47; breflect; [|done]. subst c1. pose proof (buffer_before (pos + 1) 47 Hc1 ltac:(done) Hpos1). lia. }
    destruct (c1 =? 46) eqn:E1; [|exact Hcopy]. breflect. subst c1. pose proof (buffer_before (pos + 1) 46 Hc1 ltac:(done) Hpos1) as Hpos2.
    destruct (buffer_read (pos + 2)) as (c2 & Hc2 & _); [lia|]. rewrite Hc2. run_option. destruct (isPathSegmentEndChar c2); [|exact Hcopy].
    assert (Forall (fun c => c < 256) (if (1 <? length dst)%nat then tail dst else dst) /\
      (length (if (1 <? length dst)%nat then tail dst else dst) <= length dst)%nat) as [Ht Htl].
    { destruct dst as [|? [|? dst]]; [done|done|]. cbn. apply Forall_cons in Hd as [_ Hd]. split; [done|lia]. }
    destruct (rewind_path_ok _ _ Ht) as [Hr Hrl].
    apply IH; [|destruct (c2 =? 47); lia|done|unfold size in *; destruct (c2 =? 47); lia].
    destruct (c2 =? 47) eqn:E47; breflect; [|lia]. subst c2. pose proof (buffer_before (pos + 2) 47 Hc2 ltac:(done) ltac:(lia)). lia.
Qed.
End Copy.

(** What [appendASCII] makes of a part of the base and the reference. *)
Lemma append_wf string relative last_ buffer str len : Forall (fun c => c < 256) (String_chars string) ->
  Forall (fun c => c < 256) buffer -> str + len <= size buffer -> size (String_chars string) + size buffer <= parse_limit ->
  exists u, (buffer ← appendASCII (String_left string last_) buffer str len; parse_buffer buffer 0 relative) = Some u /\ url_wf u.
Proof.
  intros Hs Hb Hlen Hlimit. unfold appendASCII. rewrite (proj2 (N.ltb_ge _ _)) by (unfold size in *; lia). run_option.
  set (part := take (N.to_nat len) (drop (N.to_nat str) buffer)).
  assert (Forall (fun c => c < 256) (copyASCII (String_left string last_))) as Hbase by (by apply copyASCII_byte, substring_Forall).
  apply (parse_buffer_wf _ 0 (size (copyASCII (String_left string last_) ++ part))); [|lia| |].
  3: { rewrite size_app, copyASCII_size. pose proof (left_size string last_). unfold part, size in *. rewrite length_take, length_drop. lia. }
  - repeat (apply Forall_app; split); [done|by apply Forall_take, Forall_drop|by constructor].
  - rewrite app_assoc, lookup_app_r by (unfold size; lia). by replace (N.to_nat _ - _)%nat with 0%nat by (unfold size; lia).
Qed.

(** The base of a reference: a hierarchical URL. *)
Section Base.
Context (string : WTFString) (isHTTP : bool) (l : Layout) (Hl : layout_ok l) (Hstring : String_chars string = render l).
Notation base := (url_of string isHTTP l).

Lemma base_text : copyASCII (m_string base) = render l.
Proof. cbn [url_of m_string]. rewrite copyASCII_ascii; rewrite Hstring; [done|by apply layout_ascii]. Qed.

Lemma base_ends : 0 < m_portEnd base /\ m_portEnd base <= m_pathEnd base /\ m_pathEnd base <= size (render l).
Proof.
  assert (size (render l) = m_fragmentEnd base) as -> by (unfold render, authority_text; url_fields; sizes). url_fields. lia.
Qed.

(** What is before the path. *)
Definition base_before : list N := l_scheme l ++ 58 :: l_slashes l ++ authority_text (l_user l) (l_password l) (l_host l) (l_port l).

Lemma render_before : render l = base_before ++ l_path l ++ prefixed 63 (l_query l) ++ prefixed 35 (l_fragment l).
Proof. unfold render, base_before. by repeat (rewrite <- ?app_assoc; cbn [app]). Qed.

Lemma size_before : size base_before = m_portEnd base.
Proof. unfold base_before, authority_text. url_fields. sizes. Qed.

Lemma base_last_slash : exists e, after_last_slash (N.to_nat (m_pathEnd base)) (render l) (m_portEnd base) (m_pathEnd base) = Some e /\
  m_portEnd base <= e <= m_pathEnd base /\ (m_portEnd base < e -> render l !!N (e - 1) = Some 47).
Proof.
  pose proof size_before as Hb. assert (m_pathEnd base = size base_before + size (l_path l)) as Hp by (rewrite Hb; url_fields; lia).
  pose proof (after_last_slash_spec (N.to_nat (m_pathEnd base)) base_before (l_path l) (prefixed 63 (l_query l) ++ prefixed 35 (l_fragment l))) as Hs.
  rewrite <- render_before, <- Hp, Hb in Hs. eexists. split; [apply Hs; rewrite Hp; unfold size; lia|].
  pose proof (after_slash_le (l_path l)). split; [lia|]. intros Hlt. destruct (after_slash_spec (l_path l)) as (dir & segment & Hpath & Ha & _ & Hd).
  rewrite Ha in Hlt. destruct Hd as [->|Hd]; [rewrite size_nil in Hlt; lia|]. rewrite Ha, render_before, Hpath, <- Hb.
  rewrite lookup_app_r by (unfold size in *; lia). rewrite <- app_assoc, lookup_app_l by (unfold size in *; lia).
  replace (N.to_nat (size base_before + size dir - 1) - length base_before)%nat with (pred (length dir)) by (unfold size in *; lia).
  by rewrite <- last_lookup.
Qed.

Lemma relative_path_wf relative buffer str len z : Forall (fun c => c < 256) buffer -> buffer !!N z = Some 0 -> str <= z -> z <= str + len ->
  size (render l) + len + 1 <= parse_limit ->
  exists u, relative_path base relative buffer str len = Some u /\ url_wf u.
Proof.
  intros Hb Hz Hstr Hlen Hlimit. unfold relative_path. rewrite base_text. destruct base_ends as (He1 & He2 & He3).
  set (bufferSize := m_pathEnd base + 1 + len + 1). assert (N.of_nat (length (render l)) <? m_portEnd base = false) as -> by (apply N.ltb_ge; unfold size in *; lia).
  set (before := take (N.to_nat (m_portEnd base)) (render l)).
  assert (size before = m_portEnd base) as Hbefore by (unfold before, size in *; rewrite length_take; lia).
  assert (before <> []) as Hne by (intros Hn; rewrite Hn, size_nil in Hbefore; lia).
  destruct base_last_slash as (e & -> & He & Hslash). run_option. destruct (buffer_read buffer Hb z Hz str Hstr) as (first & -> & _). run_option.
  pose proof (ascii_byte _ (layout_ascii l Hl)) as Hrender.
  assert (exists path, (if e =? m_portEnd base then
      Some (if negb (m_schemeEnd base + 1 =? m_pathEnd base) && negb (first =? 0) && negb (first =? 63) && negb (first =? 35) then [47] else [])
    else copyPathRemovingDots (last before) (bufferSize - m_portEnd base) (render l) (m_portEnd base) e) = Some path /\
    Forall (fun c => c < 256) path /\ size path <= m_pathEnd base + 1 - m_portEnd base) as (path & -> & Hpath & Hsize).
  { destruct (e =? m_portEnd base) eqn:E; breflect.
    - eexists. split; [done|]. destruct (_ && _); split; try (by repeat constructor); sizes.
    - assert (m_portEnd base < e) as Hlt by lia.
      destruct (copyPathRemovingDots_dst (render l) (m_portEnd base) e (fun c => c < 256) (last before) (bufferSize - m_portEnd base))
        as (path & -> & Hp & Hpl & _); [done| |right; by apply Hslash|unfold bufferSize; lia| |unfold bufferSize; lia|].
      + intros k Hk. destruct (lookupN_is_Some (render l) k) as [c Hc]; [unfold size in *; lia|]. exists c. split; [done|]. by eapply Forall_lookup_1 in Hrender.
      + right. left. intros Hn. by apply last_None in Hn.
      + exists path. split_and!; [done|done|unfold size; lia]. }
  run_option. destruct (copy_relative_spec buffer Hb z Hz before Hne bufferSize (length buffer) str (rev path)) as (pos & dst & -> & Hpos & Hd & Hroom);
    [done|pose proof (lookupN_lt _ _ _ Hz); lia|by apply Forall_rev|unfold size; rewrite length_rev; fold (size path); fold (size before); unfold bufferSize; lia|].
  run_option. destruct (cstring_drop buffer pos z Hpos Hz) as (rest & -> & Hrest & Hrestb). run_option.
  rewrite take_ge by (unfold size in *; rewrite length_app, length_rev; lia).
  set (written := before ++ rev dst ++ rest).
  set (room := N.to_nat (bufferSize - N.of_nat (length (before ++ rev dst)))).
  assert (length rest < room)%nat as Hlt by (unfold room, size in *; rewrite length_app, length_rev; lia).
  rewrite <- app_assoc. apply (parse_buffer_wf _ 0 (size (before ++ rev dst ++ rest))); [|lia| |].
  3: { unfold room, size in *. rewrite !length_app, length_rev in *. unfold bufferSize in *. lia. }
  - repeat (apply Forall_app; split); [by apply Forall_take|by apply Forall_rev|by apply Hrestb|]. apply Forall_forall. intros c Hc%list_elem_of_In%repeat_spec. lia.
  - rewrite !app_assoc. rewrite lookup_app_r by (unfold size; rewrite !length_app; lia). unfold size. rewrite !length_app.
    replace (N.to_nat _ - _)%nat with 0%nat by lia. destruct (room - length rest)%nat as [|k] eqn:E; [lia|done].
Qed.
End Base.

(** ** The reference *)

Section Init.
Context `{ICU} `{Encodings}.

(** A bound on the size of texts that can be joined to a string and parsed. *)
Definition reference_limit : N := 715827882.

Lemma String_create_Some t chars : size chars <= reference_limit ->
  exists s, String_create t chars = Some s /\ String_chars s = chars.
Proof.
  intros Hl. unfold String_create. fold (size chars). destruct (size chars =? 0) eqn:E; breflect; [destruct chars; [by eexists|rewrite size_cons in E; lia]|].
  rewrite (proj2 (N.ltb_ge _ _)); [by eexists|]. unfold reference_limit in Hl. destruct t; [change ((max32 - sizeof_StringImpl) / sizeof_CharType LChar) with 4294967271|change ((max32 - sizeof_StringImpl) / sizeof_CharType UChar) with 2147483635]; lia.
Qed.

Lemma substring_size string pos len : size (String_chars (String_substring string pos len)) <= size (String_chars string) - pos.
Proof.
  destruct string as [impl|]; cbn [String_substring String_chars]; [|unfold size; simpl; lia]. unfold impl_substring, StringImpl_empty, size.
  destruct (_ <=? pos) eqn:E; breflect; [simpl; lia|]. destruct ((_ <=? len) && (pos =? 0)) eqn:E2; breflect; [subst pos; lia|].
  clear E2. set (n := if (_ : bool) then _ else len). destruct (n =? 0); cbn [impl_chars length]; [lia|]. rewrite length_take, length_drop. lia.
Qed.

Lemma substituteBackslashes_Some string : size (String_chars string) <= reference_limit -> exists s, substituteBackslashes string = Some s.
Proof.
  intros Hl. unfold substituteBackslashes. set (pathEnd := match String_find string 35 with Some _ => _ | None => _ end).
  unfold String_concat. edestruct String_create_Some as (s & -> & _); [|by eexists]. cbn [mbind list_bind]. rewrite app_nil_r. sizes.
  pose proof (left_size string pathEnd) as H1. pose proof (substring_size string pathEnd max32) as H2.
  assert (size (String_chars ((fun impl => impl_replace impl 92 47) <$> String_left string pathEnd)) = size (String_chars (String_left string pathEnd))) as ->.
  { destruct (String_left string pathEnd) as [impl|]; [|done]. unfold impl_replace. cbn -[find_from]. destruct (find_from _ _ _); [|done].
    unfold size. cbn. by rewrite length_fmap. }
  lia.
Qed.

Lemma reference_buffer_spec relative : size (String_chars relative) <= reference_limit ->
  exists buffer len, reference_buffer relative = Some (buffer, len) /\ Forall (fun c => c < 256) buffer /\ buffer !!N len = Some 0.
Proof.
  intros Hl. unfold reference_buffer.
  assert (exists rel, (if String_contains relative 92 && negb (string_protocolIs (String_chars relative) (lit "javascript") || string_protocolIs (String_chars relative) (lit "data"))
    then substituteBackslashes relative else Some relative) = Some rel) as [rel ->].
  { destruct (_ && _); [by apply substituteBackslashes_Some|by exists relative]. }
  run_option. destruct (String_containsOnlyASCII rel) eqn:E.
  - eexists _, _. split; [done|]. assert (length (copyASCII rel) = length (String_chars rel)) as Hlen.
    { destruct rel as [[[] chars]|]; [done| |done]. cbn. by rewrite length_fmap. }
    split.
    + apply Forall_app. split; [|by constructor]. apply copyASCII_byte. unfold String_containsOnlyASCII in E. destruct (String_isEmpty rel) eqn:Ee.
      * destruct rel as [impl|]; [|done]. cbn in Ee. apply N.eqb_eq in Ee. cbn. destruct (impl_chars impl); [done|cbn in Ee; lia].
      * apply Forall_forall. intros c Hc. rewrite forallb_forall in E. apply list_elem_of_In, E, N.ltb_lt in Hc. lia.
    + assert (String_length rel = N.of_nat (length (copyASCII rel))) as -> by (rewrite Hlen; by destruct rel).
      rewrite Nat2N.id, lookup_app_r by lia. by rewrite Nat.sub_diag.
  - assert (exists content, encodeRelativeString (String_chars rel) = content ++ [0] /\ Forall (fun c => c < 256) content) as (content & -> & Hc).
    { unfold encodeRelativeString. destruct (if (_ : bool) then _ else _); [|eexists; split; [done|apply utf8_encode_byte]].
      eexists. rewrite app_assoc. split; [done|]. apply Forall_app. split; [apply utf8_encode_byte|apply document_encode_byte]. }
    destruct (cstring_spec (content ++ [0])) as (s & post & -> & Hs); [set_solver|]. run_option. eexists _, _. split; [done|]. split.
    + apply Forall_app. split; [done|by constructor].
    + rewrite Hs, Nat2N.id, lookup_app_r by lia. by rewrite Nat.sub_diag.
Qed.

Lemma trim_start_spec chars str len : len = size chars -> exists str' len', trim_start chars str len = (str', len') /\ str' + len' = str + len /\ str <= str'.
Proof.
  revert str len. induction chars as [|c chars IH]; intros str len ->; cbn [trim_start]; [by eexists _, _|].
  destruct (shouldTrimFromURL c); [|by eexists _, _]. destruct (IH (str + 1) (size (c :: chars) - 1)) as (str' & len' & -> & ? & ?); [sizes|].
  eexists _, _. split; [done|]. rewrite size_cons in *. lia.
Qed.

Lemma trim_end_spec fuel buffer str len : Forall (fun c => c < 256) buffer -> buffer !!N (str + len) = Some 0 ->
  exists buffer' len', trim_end fuel buffer str len = Some (buffer', len') /\ Forall (fun c => c < 256) buffer' /\
    buffer' !!N (str + len') = Some 0 /\ length buffer' = length buffer /\ len' <= len.
Proof.
  revert buffer len. induction fuel as [|fuel IH]; intros buffer len Hb Hz; cbn [trim_end]; [by exists buffer, len|].
  destruct (len =? 0) eqn:E; breflect; [by exists buffer, len|]. pose proof (lookupN_lt _ _ _ Hz).
  destruct (lookupN_is_Some buffer (str + len - 1)) as [c Hc]; [lia|]. rewrite Hc. run_option. destruct (shouldTrimFromURL c); [|by exists buffer, len].
  unfold vec_set. rewrite (proj2 (Nat.ltb_lt _ _)) by lia. run_option.
  destruct (IH (<[str + len - 1 :=N 0]> buffer) (len - 1)) as (buffer' & len' & -> & Hb' & Hz' & Hl' & ?).
  - by apply Forall_insert.
  - replace (str + (len - 1)) with (str + len - 1) by lia. apply list_lookup_insert_eq. lia.
  - exists buffer', len'. rewrite length_insert in Hl'. split_and!; [done|done|done|done|lia].
Qed.

Lemma find_scheme_spec base buffer str len : Forall (fun c => c < 256) buffer -> buffer !!N (str + len) = Some 0 ->
  exists str' absolute, find_scheme base buffer str = Some (str', absolute) /\
    (str' = str \/ absolute = false /\ str <= str' <= str + len /\ isHierarchical base = true /\ buffer !!N str' <> Some 47).
Proof.
  intros Hb Hz. unfold find_scheme. destruct (buffer_read buffer Hb _ Hz str) as (first & Hfirst & _); [lia|]. rewrite Hfirst. run_option.
  destruct (isSchemeFirstChar first) eqn:Ef; [|eexists _, _; split; [done|by left]].
  assert (first <> 0) as Hf0 by (by intros ->). pose proof (buffer_before buffer _ Hz str first Hfirst Hf0 ltac:(lia)) as Hstr.
  assert (forall i, i <= str + len -> exists p, scan_from isSchemeChar (drop (N.to_nat i) buffer) i = Some p /\ i <= p <= str + len) as Hscan.
  { intros i Hi. remember (N.to_nat (str + len - i)) as k eqn:Ek. revert i Hi Ek. induction k as [|k IH]; intros i Hi Ek;
      destruct (buffer_read buffer Hb _ Hz i Hi) as (c & Hc & _); rewrite (drop_S _ _ _ Hc); cbn [scan_from];
      (destruct (isSchemeChar c) eqn:E; [|exists i; split; [done|lia]]).
    - assert (i = str + len) as -> by lia. assert (c = 0) as -> by congruence. done.
    - assert (c <> 0) as Hne by (by intros ->). pose proof (buffer_before buffer _ Hz i c Hc Hne Hi) as Hi1.
      destruct (IH (i + 1)) as (p & Hp & ?); [lia|lia|]. exists p. replace (S (N.to_nat i)) with (N.to_nat (i + 1)) by lia. split; [done|lia]. }
  destruct (Hscan (str + 1) Hstr) as (p & -> & Hp). run_option. destruct (buffer_read buffer Hb _ Hz p) as (c & Hc & _); [lia|]. rewrite Hc. run_option.
  destruct (c =? 58) eqn:Ec; breflect; [|eexists _, _; split; [done|by left]]. subst c.
  pose proof (buffer_before buffer _ Hz p 58 Hc ltac:(done) ltac:(lia)) as Hp1. destruct (buffer_read buffer Hb _ Hz (p + 1) Hp1) as (c1 & Hc1 & _).
  rewrite Hc1. run_option. destruct (negb (c1 =? 47) && _ && isHierarchical base) eqn:E; [|eexists _, _; split; [done|by left]].
  apply andb_true_iff in E as [[E _]%andb_true_iff Hh]. breflect. exists (p + 1), false. split; [done|]. right. split_and!; [done|lia|lia|done|].
  rewrite Hc1. congruence.
Qed.

(** The steps of [init] before the reference is resolved: the buffer, the start and the length of the
    reference, and if it is absolute. *)
Definition reference (base : URL) (relative : WTFString) : option (list N * N * N * bool) :=
  r ← reference_buffer relative;
  let '(buffer, len) := r in
  let '(str, len) := trim_start (take (N.to_nat len) buffer) 0 len in
  r ← trim_end (N.to_nat len) buffer str len;
  let '(buffer, len) := r in
  r ← find_scheme base buffer str;
  let '(str, absolute) := r in
  Some (buffer, str, len, absolute).

Lemma init_reference base relative : negb (m_isValid base) && negb (URL_isEmpty base) = false ->
  init base relative = (r ← reference base relative; let '(buffer, str, len, absolute) := r in resolve base relative buffer str len absolute).
Proof.
  intros E. unfold init, reference. rewrite E. destruct (reference_buffer relative) as [[buffer len]|]; run_option; [|done].
  destruct (trim_start _ 0 len) as [str len']. destruct (trim_end _ buffer str len') as [[buffer' len'']|]; run_option; [|done].
  by destruct (find_scheme base buffer' str) as [[str' absolute]|].
Qed.

(** The reference after its start was found: it ends with a null character at [z]; when its scheme is
    skipped, its length is not corrected. *)
Lemma reference_spec base relative : size (String_chars relative) <= reference_limit ->
  exists buffer str len absolute z, reference base relative = Some (buffer, str, len, absolute) /\
    (exists buffer0 len0, reference_buffer relative = Some (buffer0, len0) /\ size buffer = size buffer0) /\ len < size buffer /\
    Forall (fun c => c < 256) buffer /\ buffer !!N z = Some 0 /\ str <= z <= str + len /\
    (str + len = z \/ absolute = false /\ isHierarchical base = true /\ buffer !!N str <> Some 47).
Proof.
  intros Hl. unfold reference. destruct (reference_buffer_spec relative Hl) as (buffer & len & -> & Hb & Hz). run_option.
  pose proof (lookupN_lt _ _ _ Hz) as Hlen.
  destruct (trim_start_spec (take (N.to_nat len) buffer) 0 len) as (str & len' & -> & Hs & _); [unfold size; rewrite length_take; lia|].
  replace len with (str + len') in Hz by lia. destruct (trim_end_spec (N.to_nat len') buffer str len' Hb Hz) as (buffer' & len'' & -> & Hb' & Hz' & Hlen' & _). run_option.
  destruct (find_scheme_spec base buffer' str len'' Hb' Hz') as (str' & absolute & -> & Hcase). run_option.
  exists buffer', str', len'', absolute, (str + len''). pose proof (lookupN_lt _ _ _ Hz') as Hzl.
  split_and!; [done|exists buffer, len; unfold size; by rewrite Hlen'|unfold size; lia|done|done| | |]; destruct Hcase as [->|(-> & ? & ? & ?)]; try lia; first [by left|by right].
Qed.

(** The reference repeats the scheme of its base, and the query or the fragment behind it is read with
    a length that still counts the scheme. *)
Definition overreads (base : URL) (relative : WTFString) : bool :=
  match reference base relative with
  | Some (buffer, str, len, absolute) =>
      let first := default 0 (buffer !!N str) in
      negb absolute && isHierarchical base && ((first =? 35) || (first =? 63)) && (N.of_nat (length buffer) <? str + len)
  | None => false
  end.

(** The text of the base and the reference, with its terminator and as it is encoded, can be parsed together. *)
Definition reference_fits (base : URL) (relative : WTFString) : Prop :=
  match reference_buffer relative with
  | Some (buffer, _) => size (String_chars (m_string base)) + size buffer <= parse_limit
  | None => True
  end.

Lemma remove_fragment_wf base : url_wf base -> size (String_chars (m_string base)) <= parse_limit -> exists u, removeFragmentIdentifier base = Some u /\ url_wf u.
Proof.
  intros [(string & ->)|(string & isHTTP & l & -> & Hl & Hs & Hn)] Hlimit; unfold removeFragmentIdentifier; cbn [invalidate url_of m_isValid negb].
  - eexists. split; [done|]. left. by eexists.
  - unfold parse_string. apply parse_wf; [|rewrite copyASCII_size; pose proof (left_size string (m_queryEnd (url_of string isHTTP l))); cbn [url_of m_string] in *; lia].
    apply copyASCII_byte, substring_Forall. change (Forall (fun c => c < 256) (String_chars string)). rewrite Hs. by apply ascii_byte, layout_ascii.
Qed.

Lemma base_bytes base : url_wf base -> m_isValid base = true \/ URL_isEmpty base = true -> Forall (fun c => c < 256) (String_chars (m_string base)).
Proof.
  intros [(string & ->)|(string & isHTTP & l & -> & Hl & Hs & Hn)] Hbase.
  - destruct Hbase as [?|He]; [done|]. unfold URL_isEmpty, String_isEmpty in He. cbn [invalidate m_string] in *. destruct string as [impl|]; [|done].
    cbn in *. apply N.eqb_eq in He. destruct (impl_chars impl); [done|cbn in He; lia].
  - cbn [url_of m_string]. rewrite Hs. by apply ascii_byte, layout_ascii.
Qed.

Lemma append_case string relative last_ buffer str len : Forall (fun c => c < 256) (String_chars string) -> Forall (fun c => c < 256) buffer ->
  size (String_chars string) + size buffer <= parse_limit ->
  if N.of_nat (length buffer) <? str + len
  then (buffer ← appendASCII (String_left string last_) buffer str len; parse_buffer buffer 0 relative) = None
  else exists u, (buffer ← appendASCII (String_left string last_) buffer str len; parse_buffer buffer 0 relative) = Some u /\ url_wf u.
Proof.
  intros Hs Hb Hlimit. destruct (_ <? str + len) eqn:E; [unfold appendASCII; by rewrite E|]. breflect. apply append_wf; [done|done|unfold size; lia|done].
Qed.

(** [init] returns a well-formed URL, but where it reads too far. *)
Lemma init_result base relative : url_wf base -> size (String_chars relative) <= reference_limit -> reference_fits base relative ->
  if overreads base relative && (m_isValid base || URL_isEmpty base) then init base relative = None
  else exists u, init base relative = Some u /\ url_wf u.
Proof.
  intros Hbase Hl Hfits. destruct (negb (m_isValid base) && negb (URL_isEmpty base)) eqn:E.
  { rewrite <- negb_orb in E. apply negb_true_iff in E. rewrite E, andb_false_r. unfold init. rewrite <- negb_orb, E. cbn [negb].
    eexists. split; [done|]. left. by eexists. }
  pose proof (init_reference base relative E) as ->. rewrite <- negb_orb in E. apply negb_false_iff in E. rewrite E, andb_true_r.
  apply orb_true_iff in E. pose proof (base_bytes base Hbase E) as Hbytes.
  unfold overreads. destruct (reference_spec base relative Hl) as (buffer & str & len & absolute & z & -> & (buffer0 & len0 & Hbuffer & Hsb) & Hlb & Hb & Hz & Hstr & Hlen). run_option.
  unfold reference_fits in Hfits. rewrite Hbuffer in Hfits. rewrite <- Hsb in Hfits.
  pose proof (lookupN_lt _ _ _ Hz) as Hzl. unfold resolve. destruct absolute; cbn [negb andb]; [apply (parse_buffer_wf _ _ z); [done|lia|done|unfold size in *; lia]|].
  destruct (buffer_read buffer Hb z Hz str) as (first & Hfirst & _); [lia|]. rewrite Hfirst. change (default 0 (Some first)) with first. run_option.
  destruct (isHierarchical base) eqn:Eh; cbn [negb andb].
  2: { destruct (first =? 35); [|eexists; split; [done|left; by eexists]]. apply append_wf; [done|done| |exact Hfits]. destruct Hlen as [?|(_ & ? & _)]; [unfold size; lia|done]. }
  destruct (first =? 0) eqn:E0; breflect; [subst first; apply remove_fragment_wf; [done|lia]|].
  destruct (first =? 35) eqn:E35; cbn [orb andb]; [by apply append_case|]. destruct (first =? 63) eqn:E63; cbn [andb]; [by apply append_case|]. breflect.
  destruct (first =? 47) eqn:E47; breflect.
  - subst first. destruct Hlen as [Hlen|(_ & _ & Hne)]; [|congruence]. pose proof (buffer_before buffer z Hz str 47 Hfirst ltac:(done) ltac:(lia)).
    destruct (buffer_read buffer Hb z Hz (str + 1)) as (second & -> & _); [lia|]. run_option.
    destruct (second =? 47); apply append_wf; (done || (unfold size; lia)).
  - destruct Hbase as [(string & ->)|(string & isHTTP & l & -> & Hlo & Hs & Hn)]; [done|]. cbn [url_of m_string] in Hfits. rewrite Hs in Hfits.
    apply (relative_path_wf string isHTTP l Hlo Hs relative buffer str len z); [done|done|lia|lia|lia].
Qed.
End Init.
