(* ===== verification/URLReferences.v ===== *)
(** * References and setters of URLs: the theorems

    Setting a part of a canonical URL makes the URL with that part, and a
    canonical URL is its own absolute reference.  The interfaces have an instance
    here, for the theorems on concrete URLs: a Unicode of ASCII characters only,
    and the encoding by the low byte. *)

From S2P Require Import Prelude ASCII WTFString URLCharacters StringOps URL URLParse URLSafety URLLayout URLAssemble URLRoundTrip URLCorrect URLEncode URLInit URLInitCorrect.

(** ** Parsing a text that was joined *)

Lemma copyASCII_bytes string : Forall (fun c => c < 256) (String_chars string) -> copyASCII string = String_chars string.
Proof.
  destruct string as [[is8Bit chars]|]; [|done]. cbn. destruct is8Bit; [done|]. induction 1 as [|c chars Hc _ IH]; [done|].
  cbn. rewrite IH. unfold wrap8. by rewrite N.mod_small by lia.
Qed.

(** The URL of canonical parts, whatever its string. *)
Definition canonical_url (l : Layout) (u : URL) : Prop :=
  exists string, u = url_of string (http_scheme (l_scheme l)) (with_root l) /\ String_chars string = render (with_root l).

Lemma parse_text l string : canonical l -> size (render l) <= reference_limit -> String_chars string = render l -> exists u, parse_string string = Some u /\ canonical_url l u.
Proof.
  intros Hl Hlimit Hs. unfold parse_string. rewrite copyASCII_bytes; rewrite Hs; [|by apply render_bytes]. rewrite (parse_canonical_result l _ Hl Hlimit).
  eexists. split; [done|]. eexists. split; [done|apply result_string_chars].
Qed.

Lemma parse_concat l parts : canonical l -> size (render l) <= reference_limit -> parts ≫= String_chars = render l ->
  exists u, (text ← String_concat parts; parse_string text) = Some u /\ canonical_url l u.
Proof.
  intros Hl Hsize Hparts. unfold String_concat. rewrite Hparts.
  destruct (String_create_Some (if forallb adapter_is8Bit parts then LChar else UChar) (render l) Hsize) as (s & -> & Hs). run_option. by apply parse_text.
Qed.

(** ** Setters *)

Section Setters.
Context (string : WTFString) (isHTTP : bool) (l : Layout) (Hstring : String_chars string = render l).
Notation u := (url_of string isHTTP l).

Lemma left_part n pre post : render l = pre ++ post -> n = size pre -> String_chars (String_left (m_string u) n) = pre.
Proof. intros Hr ->. unfold String_left. apply (String_substring_part string [] pre post). by rewrite Hstring. Qed.

Lemma right_part n pre post : render l = pre ++ post -> n = size pre -> size post <= max32 -> String_chars (String_substring (m_string u) n max32) = post.
Proof.
  intros Hr -> Hpost. cbn [url_of m_string]. destruct string as [impl|] eqn:Es; cbn [String_substring String_chars] in *; [|symmetry in Hstring; rewrite Hr in Hstring; by apply app_nil in Hstring as [_ ->]].
  unfold impl_substring. rewrite Hstring, Hr, length_app. unfold size in *. destruct (_ <=? N.of_nat (length pre)) eqn:E; breflect.
  - assert (length post = 0)%nat by lia. by destruct post.
  - replace (N.of_nat (length pre + length post) - N.of_nat (length pre)) with (N.of_nat (length post)) by lia.
    destruct ((N.of_nat (length post) <=? max32) && (N.of_nat (length pre) =? 0)) eqn:E1; breflect.
    + assert (pre = []) as -> by (destruct pre; [done|simpl in *; lia]). rewrite Hstring, Hr. done.
    + rewrite (proj2 (N.leb_le _ _) Hpost). destruct (N.of_nat (length post) =? 0) eqn:E2; breflect; [by destruct post|]. cbn [impl_chars].
      by rewrite ?Hstring, ?Hr, !Nat2N.id, drop_app_length, firstn_all.
Qed.

Definition text_before_user : list N := l_scheme l ++ 58 :: l_slashes l.
Definition text_before_port : list N := text_before_user ++ l_user l ++ prefixed 58 (l_password l) ++ at_sign (l_user l) (l_password l) ++ l_host l.
Definition text_before_query : list N := text_before_port ++ prefixed 58 (l_port l) ++ l_path l.
Definition text_before_fragment : list N := text_before_query ++ prefixed 63 (l_query l).

Lemma render_port : render l = text_before_port ++ prefixed 58 (l_port l) ++ l_path l ++ prefixed 63 (l_query l) ++ prefixed 35 (l_fragment l).
Proof. unfold render, authority_text, text_before_port, text_before_user. by repeat (rewrite <- ?app_assoc; cbn [app]). Qed.

Lemma render_query : render l = text_before_query ++ prefixed 63 (l_query l) ++ prefixed 35 (l_fragment l).
Proof. rewrite render_port. unfold text_before_query. by rewrite <- !app_assoc. Qed.

Lemma render_fragment : render l = text_before_fragment ++ prefixed 35 (l_fragment l).
Proof. rewrite render_query. unfold text_before_fragment. by rewrite <- !app_assoc. Qed.

Lemma size_port : size text_before_port = m_hostEnd u.
Proof. unfold text_before_port, text_before_user. url_fields. sizes. Qed.

Lemma size_query : size text_before_query = m_pathEnd u.
Proof. unfold text_before_query. sizes. rewrite size_port. url_fields. sizes. Qed.

Lemma size_fragment : size text_before_fragment = m_queryEnd u.
Proof. unfold text_before_fragment. sizes. rewrite size_query. url_fields. sizes. Qed.
End Setters.

Definition with_port (port : option (list N)) (l : Layout) : Layout :=
  mkLayout (l_scheme l) (l_slashes l) (l_user l) (l_password l) (l_host l) port (l_path l) (l_query l) (l_fragment l).
Definition with_query (query : option (list N)) (l : Layout) : Layout :=
  mkLayout (l_scheme l) (l_slashes l) (l_user l) (l_password l) (l_host l) (l_port l) (l_path l) query (l_fragment l).
Definition with_fragment (fragment : option (list N)) (l : Layout) : Layout :=
  mkLayout (l_scheme l) (l_slashes l) (l_user l) (l_password l) (l_host l) (l_port l) (l_path l) (l_query l) fragment.
Definition with_host (host : list N) (l : Layout) : Layout :=
  mkLayout (l_scheme l) (l_slashes l) (l_user l) (l_password l) host (l_port l) (l_path l) (l_query l) (l_fragment l).
Definition with_scheme (scheme : list N) (l : Layout) : Layout :=
  mkLayout scheme (l_slashes l) (l_user l) (l_password l) (l_host l) (l_port l) (l_path l) (l_query l) (l_fragment l).

Section Change.
Context (string : WTFString) (isHTTP : bool) (l : Layout) (Hstring : String_chars string = render l) (Hsize : size (render l) <= reference_limit).
Notation u := (url_of string isHTTP l).

Lemma rest_size pre post : render l = pre ++ post -> size post <= max32.
Proof. intros Hr. pose proof Hsize as Hs. rewrite Hr, size_app in Hs. unfold reference_limit, max32 in *. lia. Qed.

Lemma parts_text parts : parts ≫= String_chars = concat (String_chars <$> parts).
Proof. induction parts as [|p parts IH]; [done|]. rewrite bind_cons, IH. done. Qed.

Lemma set_port number port' : canonical (with_port port' l) -> size (render (with_port port' l)) <= reference_limit ->
  (match port' with Some chars => numberToStringUnsigned number = Some chars | None => is_Some (l_port l) end) ->
  exists u', (match port' with Some _ => setPort u number | None => removePort u end) = Some u' /\ canonical_url (with_port port' l) u'.
Proof.
  intros Hc Hl Hnumber. pose proof (size_port string isHTTP l) as Hp.
  assert (render l = (text_before_port l ++ prefixed 58 (l_port l)) ++ l_path l ++ prefixed 63 (l_query l) ++ prefixed 35 (l_fragment l)) as Hr2
    by (rewrite render_port; by rewrite <- app_assoc).
  assert (m_portEnd u = size (text_before_port l ++ prefixed 58 (l_port l))) as Hp2 by (rewrite size_app, Hp; url_fields; done).
  pose proof (right_part string isHTTP l Hstring (m_portEnd u) _ _ Hr2 Hp2 (rest_size _ _ Hr2)) as Hright.
  pose proof (left_part string isHTTP l Hstring (m_hostEnd u) _ _ (render_port l) (eq_sym Hp)) as Hleft.
  assert (m_portEnd u = m_hostEnd u + size (prefixed 58 (l_port l))) as Hpe by (url_fields; done).
  destruct port' as [chars|].
  - unfold setPort. rewrite Hnumber. run_option. change (m_isValid u) with true. cbn [negb]. rewrite Hpe, eqb_shift, prefixed_None.
    apply parse_concat; [done|done|]. rewrite parts_text. cbn [fmap list_fmap concat]. rewrite <- Hpe, Hright.
    assert (String_chars (String_left (m_string u) (if match l_port l with Some _ => false | None => true end then m_hostEnd u else m_hostEnd u + 1))
      ++ String_chars (String8 (if match l_port l with Some _ => false | None => true end then [58] else [])) = text_before_port l ++ [58]) as Htext.
    { destruct (l_port l) as [old|] eqn:E; [|by rewrite Hleft]. rewrite app_nil_r.
      apply (left_part string isHTTP l Hstring _ _ (old ++ l_path l ++ prefixed 63 (l_query l) ++ prefixed 35 (l_fragment l))).
      - rewrite render_port, E. cbn [prefixed app]. by rewrite <- app_assoc.
      - rewrite size_app, Hp. sizes. }
    rewrite app_assoc, Htext. rewrite (render_port (with_port (Some chars) l)). unfold text_before_port, text_before_user. cbn. rewrite ?app_nil_r. by repeat (rewrite <- ?app_assoc; cbn [app]).
  - destruct Hnumber as [old Eo]. unfold removePort. rewrite (N.eqb_sym (m_hostEnd u)), Hpe, eqb_shift, prefixed_None, Eo.
    apply parse_concat; [done|done|]. rewrite parts_text. cbn [fmap list_fmap concat]. rewrite Eo in Hpe. rewrite <- Hpe, Hright, Hleft.
    rewrite (render_port (with_port None l)). unfold text_before_port, text_before_user. cbn. rewrite ?app_nil_r. by repeat (rewrite <- ?app_assoc; cbn [app]).
Qed.

Lemma set_fragment fragment' s : canonical (with_fragment fragment' l) -> size (render (with_fragment fragment' l)) <= reference_limit ->
  fragment' = (if String_isNull s then None else Some (String_chars s)) ->
  exists u', (if String_isNull s then removeFragmentIdentifier u else setFragmentIdentifier u s) = Some u' /\
    canonical_url (with_fragment fragment' l) u'.
Proof.
  intros Hc Hl ->. pose proof (left_part string isHTTP l Hstring (m_queryEnd u) _ _ (render_fragment l) (eq_sym (size_fragment string isHTTP l))) as Hleft.
  destruct s as [impl|]; cbn [String_isNull] in *.
  - unfold setFragmentIdentifier. change (m_isValid u) with true. cbn [negb]. apply parse_concat; [done|done|].
    rewrite parts_text. cbn [fmap list_fmap concat]. rewrite Hleft. rewrite (render_fragment (with_fragment _ l)). cbn. by rewrite app_nil_r.
  - unfold removeFragmentIdentifier. change (m_isValid u) with true. cbn [negb]. apply parse_text; [done|done|].
    rewrite Hleft, (render_fragment (with_fragment None l)). cbn. by rewrite app_nil_r.
Qed.

Lemma set_query query' s : canonical (with_query query' l) -> size (render (with_query query' l)) <= reference_limit ->
  query' = (if String_isNull s then None else Some (String_chars s)) -> head (String_chars s) <> Some 63 ->
  exists u', setQuery u s = Some u' /\ canonical_url (with_query query' l) u'.
Proof.
  intros Hc Hl -> Hhead. pose proof (left_part string isHTTP l Hstring (m_pathEnd u) _ _ (render_query l) (eq_sym (size_query string isHTTP l))) as Hleft.
  pose proof (right_part string isHTTP l Hstring (m_queryEnd u) _ _ (render_fragment l) (eq_sym (size_fragment string isHTTP l)) (rest_size _ _ (render_fragment l))) as Hright.
  unfold setQuery. change (m_isValid u) with true. cbn [negb]. apply parse_concat; [done|done|]. rewrite parts_text. cbn [fmap list_fmap concat].
  rewrite Hleft, Hright, (render_query (with_query _ l)). destruct s as [impl|]; cbn [String_isNull] in *.
  - assert ((String_isEmpty (Some impl) || negb (String_at (Some impl) 0 =? 63)) && negb false = true) as ->.
    { rewrite andb_true_r. unfold String_isEmpty, String_length, String_at. cbn in Hhead |- *. destruct (impl_chars impl) as [|c chars]; [done|].
      change (N.of_nat (length (c :: chars)) =? 0) with false. change (N.of_nat (length (c :: chars)) <=? 0) with false.
      change (default 0 ((c :: chars) !!N 0)) with c. cbn [orb String_isNull]. apply negb_true_iff, N.eqb_neq. intros ->. by apply Hhead. }
    cbn. by rewrite app_nil_r.
  - rewrite andb_false_r. cbn. by rewrite app_nil_r.
Qed.
End Change.

(** ** Absolute references *)

(** The characters that are neither trimmed, nor escaped, nor replaced in a reference. *)
Definition plain_char (c : N) : Prop := 32 < c /\ c < 127 /\ c <> 92.

Lemma find_from_None chars c i : Forall (fun d => d <> c) chars -> find_from chars c i = None.
Proof. intros Hc. revert i. induction Hc as [|d chars Hd _ IH]; intros i; [done|]. cbn. by rewrite (proj2 (N.eqb_neq _ _) Hd). Qed.

Lemma cstring_nonzero chars : Forall (fun c => c <> 0) chars -> cstring (chars ++ [0]) = Some chars.
Proof. induction 1 as [|c chars Hc _ IH]; [done|]. cbn [app cstring]. rewrite (proj2 (N.eqb_neq _ _) Hc), IH. done. Qed.

Section Absolute.
Context `{ICU} `{Encodings}.
Context (l : Layout) (Hl : canonical l) (Hplain : Forall plain_char (render l)) (Hlimit : size (render l) <= reference_limit).
Context (s : WTFString) (Hs : String_chars s = render l).

Lemma render_nonempty : exists c rest, render l = c :: rest.
Proof. destruct (c_scheme l Hl) as (c & rest & E & _). unfold render. rewrite E. by eexists _, _. Qed.

Lemma plain_impl (P : N -> Prop) : (forall c, plain_char c -> P c) -> Forall P (render l).
Proof. intros HP. eapply Forall_impl; [exact Hplain|exact HP]. Qed.

Lemma reference_buffer_plain : reference_buffer s = Some (render l ++ [0], size (render l)).
Proof.
  unfold reference_buffer. assert (String_contains s 92 = false) as ->.
  { unfold String_contains, String_find. destruct s as [impl|]; [|done]. cbn in Hs. rewrite Hs, find_from_None; [done|]. apply plain_impl. by intros c (_ & _ & ?). }
  cbn [andb]. run_option. assert (String_containsOnlyASCII s = true) as ->.
  { unfold String_containsOnlyASCII. destruct (String_isEmpty s); [done|]. rewrite Hs. apply forallb_forall. intros c Hc%list_elem_of_In.
    eapply Forall_forall in Hplain as (_ & ? & _); [|exact Hc]. apply N.ltb_lt. lia. }
  rewrite copyASCII_bytes; rewrite Hs; [|apply plain_impl; intros c (_ & ? & _); lia]. f_equal. f_equal. unfold String_length. unfold size.
  destruct s as [impl|]; [cbn in Hs; by rewrite Hs|]. destruct render_nonempty as (c & rest & E). by rewrite E in Hs.
Qed.

Lemma trims_plain : trim_start (take (N.to_nat (size (render l))) (render l ++ [0])) 0 (size (render l)) = (0, size (render l)) /\
  trim_end (N.to_nat (size (render l))) (render l ++ [0]) 0 (size (render l)) = Some (render l ++ [0], size (render l)).
Proof.
  unfold size. rewrite Nat2N.id, take_app_length. destruct render_nonempty as (c & rest & E).
  assert (forall c, plain_char c -> shouldTrimFromURL c = false) as Htrim.
  { intros d (Hd & _). unfold shouldTrimFromURL. apply N.leb_gt. lia. }
  pose proof Hplain as Hp. split.
  - rewrite E in *. apply Forall_cons in Hp as [Hc _]. cbn [trim_start]. by rewrite Htrim.
  - destruct (length (render l)) as [|k] eqn:Ek; [by rewrite E in Ek|]. cbn [trim_end].
    rewrite (proj2 (N.eqb_neq _ _)) by lia. destruct (lookup_lt_is_Some_2 (render l) k) as [d Hd]; [lia|].
    replace (N.to_nat (0 + N.of_nat (S k) - 1)) with k by lia. rewrite lookup_app_l by lia. rewrite Hd. run_option.
    eapply Forall_lookup_1 in Hp; [|exact Hd]. by rewrite Htrim.
Qed.

Lemma find_scheme_plain base : find_scheme base (render l ++ [0]) 0 = Some (0, true).
Proof.
  pose proof (limit_int_length _ Hlimit) as Hint. unfold find_scheme.
  destruct (scheme_first l Hl Hint) as (c & Hc%char_at_memory & Hf). unfold memory in Hc. rewrite Hc. run_option. rewrite Hf.
  pose proof (memory_render l Hl) as Hm. unfold memory in Hm.
  assert (scan_from isSchemeChar (drop (N.to_nat (0 + 1)) (render l ++ [0])) (0 + 1) = Some (size (l_scheme l))) as ->.
  { destruct (c_scheme l Hl) as (c0 & rest & Es & _). pose proof (c_scheme_chars l Hl) as Hchars. rewrite Es in Hchars. apply Forall_cons in Hchars as [_ Hchars].
    assert (memory (render l) = [c0] ++ rest ++ 58 :: 47 :: 47 :: credentials l ++ l_host l ++ prefixed 58 (l_port l) ++ rest_text l) as Hm' by (rewrite memory_render, Es; done).
    pose proof (scan_part (render l) isSchemeChar [c0] rest 58 _ Hm') as Hscan. unfold scan, memory in Hscan.
    change (0 + 1) with (size [c0]). rewrite Hscan; [rewrite Es; f_equal; sizes|eapply Forall_impl; [exact Hchars|by intros d [? _]]|done]. }
  run_option. rewrite Hm. pose proof (char_at_memory _ _ _ (char_at_part (render l) Hint _ _ _ (memory_render l Hl))) as Hcolon. rewrite (memory_render l Hl) in Hcolon.
  rewrite Hcolon. run_option. cbn [N.eqb Pos.eqb].
  assert (memory (render l) = (l_scheme l ++ [58]) ++ 47 :: 47 :: credentials l ++ l_host l ++ prefixed 58 (l_port l) ++ rest_text l) as Hm1 by (rewrite memory_render; [by rewrite <- app_assoc|done]).
  pose proof (char_at_memory _ _ _ (char_at_part (render l) Hint _ _ _ Hm1)) as Hslash. rewrite (memory_render l Hl) in Hslash.
  replace (size (l_scheme l) + 1) with (size (l_scheme l ++ [58])) by sizes. rewrite Hslash. done.
Qed.

Lemma init_plain base : m_isValid base = true \/ URL_isEmpty base = true ->
  exists u, init base s = Some u /\ canonical_url l u /\ parse (render l) (Some s) = Some u.
Proof.
  intros Hbase. unfold init. assert (negb (m_isValid base) && negb (URL_isEmpty base) = false) as -> by (by destruct Hbase as [-> | ->]; [|destruct (m_isValid base)]).
  rewrite reference_buffer_plain. run_option. destruct trims_plain as [-> ->]. run_option. rewrite find_scheme_plain. run_option.
  unfold resolve, parse_buffer. change (N.to_nat 0) with 0%nat. rewrite drop_0, cstring_nonzero by (apply plain_impl; intros c (? & _); lia). run_option.
  rewrite (parse_canonical_result l _ Hl Hlimit). eexists. split; [done|]. split; [|done]. eexists. split; [done|apply result_string_chars].
Qed.
End Absolute.

(** ** Instances of the interfaces *)

Lemma toASCIILower_byte c : c < 256 -> toASCIILower c < 256.
Proof.
  intros Hc. assert (forallb (fun c => toASCIILower c <? 256) (for_range 0 256) = true) as Hall by (by vm_compute).
  rewrite forallb_forall in Hall. apply N.ltb_lt, Hall, list_elem_of_In, elem_of_for_range. lia.
Qed.

Program Definition ascii_icu : ICU := {|
  u_tolower := toASCIILower;
  u_foldCase := toASCIILower;
  u_strToLower := fun _ => None;
  u_memcasecmp_equal := fun a b => bool_decide (toASCIILower <$> a = toASCIILower <$> b);
  u_isWhiteSpace := fun _ => false
|}.
Next Obligation. intros c Hc. by apply toASCIILower_byte. Qed.
Next Obligation. done. Qed.
Next Obligation. intros a b _ _. by rewrite bool_decide_eq_true. Qed.

Program Definition low_byte_encodings : Encodings := {|
  uidna_IDNToASCII := fun _ => None;
  utf8_encode := fmap wrap8;
  document_encode := fmap wrap8;
  encoding_is_utf8 := true;
  encoding_isValid := true
|}.
Next Obligation. intros chars. apply Forall_fmap, Forall_true. intros. apply wrap8_lt. Qed.
Next Obligation. intros chars. apply Forall_fmap, Forall_true. intros. apply wrap8_lt. Qed.
Next Obligation.
  intros chars Hc. induction Hc as [|c chars Hc _ IH]; [done|]. cbn. rewrite IH. f_equal. unfold wrap8. apply N.mod_small. lia.
Qed.

#[local] Existing Instances ascii_icu low_byte_encodings.

(** ** Host names with a password *)

(** The host name of a reference with a user and no password is converted; with a password, the text
    between the slashes and the colon before the password is taken for the host name. *)
Lemma encodeHostnames_password (C : Encodings) :
  encodeHostnames (lit "http://u@" ++ [233] ++ lit "/") = lit "http://u@" ++ encodedHostname [233] ++ lit "/" /\
  encodeHostnames (lit "http://u:p@" ++ [233] ++ lit "/") = lit "http://u:p@" ++ [233] ++ lit "/".
Proof. by vm_compute. Qed.

(** ** Properties *)

(** C14: resolving a reference against a URL that was parsed makes a URL that is
    well formed again, and stays within the buffers, for every base, encoding and
    behaviour of ICU, and every reference of at most 715827882 characters whose
    text, as it is encoded, has together with the text of the base at most that
    many characters (for more, an [int] of the parser may overflow); the one exception is a reference that repeats
    the scheme of its base before a query or a fragment, where the reference is
    read beyond its end (and [overreads] says exactly when). *)
Theorem init_well_formed (I : ICU) (C : Encodings) (base : URL) (relative : WTFString)
  (Hbase : url_wf base) (Hsize : size (String_chars relative) <= reference_limit) (Hfits : reference_fits base relative) :
  if overreads base relative && (m_isValid base || URL_isEmpty base) then init base relative = None
  else exists u, init base relative = Some u /\ url_wf u.
Proof. by apply init_result. Qed.

Lemma init_well_formed_witness : exists base, parse (lit "http://h/a/b?c") None = Some base /\
  if overreads base (String8 (lit "../d?e")) && (m_isValid base || URL_isEmpty base) then init base (String8 (lit "../d?e")) = None
  else exists u, init base (String8 (lit "../d?e")) = Some u /\ url_wf u.
Proof.
  destruct (parse_wf (lit "http://h/a/b?c") None) as (base & Hp & Hwf); [repeat constructor|by vm_compute|]. exists base. split; [done|].
  apply (init_well_formed ascii_icu low_byte_encodings base (String8 (lit "../d?e")) Hwf); [by vm_compute|].
  vm_compute in Hp. injection Hp as <-. by vm_compute.
Defined.

(** The exception of [init_well_formed] happens: resolving [http:?q] against
    an [http] URL skips the scheme without correcting the length, and copies five
    characters from behind the buffer; [http:q], whose path is copied up to its
    terminator, is resolved. *)
Theorem init_reads_beyond (I : ICU) (C : Encodings) :
  (base ← parse (lit "http://h/") None; init base (String8 (lit "http:?q"))) = None /\
  (u ← (base ← parse (lit "http://h/") None; init base (String8 (lit "http:q"))); Some (String_chars (m_string u))) = Some (lit "http://h/q").
Proof. by vm_compute. Qed.

(** A canonical URL of plain characters is its own absolute reference,
    whatever the base: it is resolved to its own parts and text, with the root for
    an empty path of an HTTP URL. *)
Theorem init_absolute (I : ICU) (C : Encodings) (l : Layout) (string : WTFString) (base : URL)
  (Hl : canonical l) (Hplain : Forall plain_char (render l)) (Hs : String_chars string = render l)
  (Hlimit : size (render l) <= reference_limit) (Hbase : m_isValid base = true \/ URL_isEmpty base = true) :
  exists u, init base string = Some u /\ canonical_url l u.
Proof. destruct (init_plain l Hl Hplain Hlimit string Hs base Hbase) as (u & Hu & Hc & _). by exists u. Qed.

Lemma canonical_example : canonical (mkLayout (lit "http") [47; 47] [] None (lit "h") (Some (lit "81")) (lit "/a") None None).
Proof.
  split; cbn [l_scheme l_slashes l_user l_password l_host l_port l_path l_query l_fragment]; try done.
  - by eexists _, _.
  - repeat constructor.
  - split; [left; split; [done|repeat constructor]|done].
  - intros chars [= <-]. split_and!; [done|repeat constructor|done].
  - by right.
  - split; [|done]. repeat constructor; done.
Qed.

Lemma init_absolute_witness : exists u, init emptyURL (String8 (lit "http://h:81/a")) = Some u /\
  canonical_url (mkLayout (lit "http") [47; 47] [] None (lit "h") (Some (lit "81")) (lit "/a") None None) u.
Proof.
  apply (init_absolute ascii_icu low_byte_encodings _ (String8 (lit "http://h:81/a")) emptyURL canonical_example); [|done|by vm_compute|by right].
  repeat constructor; done.
Defined.

(** C15: for values with which the URL is canonical again, the setters of a
    canonical URL change their part only: after setting the
    port, removing it, setting or removing the query, or setting or removing the
    fragment, the URL is the one of the same parts with that part.  Nothing is
    said of other values: the number sign in the query [a#b], for example, which
    [setQuery] does not escape, starts a fragment. *)
Theorem setters_canonical (string : WTFString) (isHTTP : bool) (l : Layout)
  (Hstring : String_chars string = render l) (Hsize : size (render l) <= reference_limit) :
  (forall number chars, numberToStringUnsigned number = Some chars -> canonical (with_port (Some chars) l) ->
    size (render (with_port (Some chars) l)) <= reference_limit ->
    exists u, setPort (url_of string isHTTP l) number = Some u /\ canonical_url (with_port (Some chars) l) u) /\
  (is_Some (l_port l) -> canonical (with_port None l) -> size (render (with_port None l)) <= reference_limit ->
    exists u, removePort (url_of string isHTTP l) = Some u /\ canonical_url (with_port None l) u) /\
  (forall chars, canonical (with_query (Some chars) l) -> head chars <> Some 63 -> size (render (with_query (Some chars) l)) <= reference_limit ->
    exists u, setQuery (url_of string isHTTP l) (String8 chars) = Some u /\ canonical_url (with_query (Some chars) l) u) /\
  (canonical (with_query None l) -> size (render (with_query None l)) <= reference_limit ->
    exists u, setQuery (url_of string isHTTP l) None = Some u /\ canonical_url (with_query None l) u) /\
  (forall chars, canonical (with_fragment (Some chars) l) -> size (render (with_fragment (Some chars) l)) <= reference_limit ->
    exists u, setFragmentIdentifier (url_of string isHTTP l) (String8 chars) = Some u /\ canonical_url (with_fragment (Some chars) l) u) /\
  (canonical (with_fragment None l) -> size (render (with_fragment None l)) <= reference_limit ->
    exists u, removeFragmentIdentifier (url_of string isHTTP l) = Some u /\ canonical_url (with_fragment None l) u).
Proof.
  split_and!.
  - intros number chars Hn Hc Hl. by apply (set_port string isHTTP l Hstring Hsize number (Some chars)).
  - intros Hp Hc Hl. by apply (set_port string isHTTP l Hstring Hsize 0 None).
  - intros chars Hc Hh Hl. by apply (set_query string isHTTP l Hstring Hsize (Some chars) (String8 chars)).
  - intros Hc Hl. by apply (set_query string isHTTP l Hstring Hsize None None).
  - intros chars Hc Hl. by apply (set_fragment string isHTTP l Hstring (Some chars) (String8 chars)).
  - intros Hc Hl. by apply (set_fragment string isHTTP l Hstring None None).
Qed.

Lemma setters_canonical_witness : exists u,
  setFragmentIdentifier (url_of (String8 (lit "http://h:81/a")) true
    (mkLayout (lit "http") [47; 47] [] None (lit "h") (Some (lit "81")) (lit "/a") None None)) (String8 (lit "f")) = Some u /\
  canonical_url (mkLayout (lit "http") [47; 47] [] None (lit "h") (Some (lit "81")) (lit "/a") None (Some (lit "f"))) u.
Proof.
  apply (setters_canonical (String8 (lit "http://h:81/a")) true
    (mkLayout (lit "http") [47; 47] [] None (lit "h") (Some (lit "81")) (lit "/a") None None) eq_refl); [by vm_compute| |by vm_compute].
  pose proof canonical_example as [H1 H2 H3 H4 H5 H6 H7 H8 H9 H10 _ H12 _]. split; try done. intros chars [= <-]. split; [|done]. repeat constructor; done.
Defined.
