(* ===== verification/TextCodecUTF8.v ===== *)
(** * [WebCore/platform/text/TextCodecUTF8]: the codec of UTF-8

    A codec keeps the bytes of a sequence that the last call did not complete: the
    list of the first [m_partialSequenceSize] bytes of [m_partialSequence], whose
    other bytes are never read.  The input of [decode] is the list of the bytes
    from [source] to [end]; [end_] is the address of its end, which the copies of
    whole machine words depend on.  [None] is an access outside of a buffer. *)

From S2P Require Import Prelude ASCII WTFString.

(** ** Machine words *)

(** [sizeof(MachineWord)], on a 64-bit machine. *)
Definition sizeof_MachineWord : N := 8.

(** WTF/wtf/text/ASCIIFastPath.h:45-45 [machineWordAlignmentMask] *)
Definition machineWordAlignmentMask : N := sizeof_MachineWord - 1.

(** WTF/wtf/text/ASCIIFastPath.h:36-50 [isAlignedTo], [isAlignedToMachineWord] *)
Definition isAlignedToMachineWord (pointer : N) : bool := N.land pointer machineWordAlignmentMask =? 0.

(** WTF/wtf/text/ASCIIFastPath.h:52-55 [alignToMachineWord] *)
Definition alignToMachineWord (pointer : N) : N := N.ldiff pointer machineWordAlignmentMask.

(** WTF/wtf/text/ASCIIFastPath.h:67-69 [NonASCIIMask], of 8 bytes of [LChar] *)
Definition NonASCIIMask : N := 0x8080808080808080.

(** WTF/wtf/text/ASCIIFastPath.h:72-76 [isAllASCII], of [LChar] *)
Definition isAllASCII (word : N) : bool := N.land word NonASCIIMask =? 0.

(** ** Sequences *)

(** WebCore/platform/text/TextCodecUTF8.cpp:67-84 [lengths] *)
Definition sequence_lengths : list N := [
    0; 0; 0; 0; 0; 0; 0; 0; 0; 0; 0; 0; 0; 0; 0; 0;
    0; 0; 0; 0; 0; 0; 0; 0; 0; 0; 0; 0; 0; 0; 0; 0;
    0; 0; 0; 0; 0; 0; 0; 0; 0; 0; 0; 0; 0; 0; 0; 0;
    0; 0; 0; 0; 0; 0; 0; 0; 0; 0; 0; 0; 0; 0; 0; 0;
    0; 0; 0; 0; 0; 0; 0; 0; 0; 0; 0; 0; 0; 0; 0; 0;
    0; 0; 0; 0; 0; 0; 0; 0; 0; 0; 0; 0; 0; 0; 0; 0;
    0; 0; 0; 0; 0; 0; 0; 0; 0; 0; 0; 0; 0; 0; 0; 0;
    0; 0; 0; 0; 0; 0; 0; 0; 0; 0; 0; 0; 0; 0; 0; 0;
    2; 2; 2; 2; 2; 2; 2; 2; 2; 2; 2; 2; 2; 2; 2; 2;
    2; 2; 2; 2; 2; 2; 2; 2; 2; 2; 2; 2; 2; 2; 2; 2;
    2; 2; 2; 2; 2; 2; 2; 2; 2; 2; 2; 2; 2; 2; 2; 2;
    2; 2; 2; 2; 2; 2; 2; 2; 2; 2; 2; 2; 2; 2; 2; 2;
    2; 2; 2; 2; 2; 2; 2; 2; 2; 2; 2; 2; 2; 2; 2; 2;
    2; 2; 2; 2; 2; 2; 2; 2; 2; 2; 2; 2; 2; 2; 2; 2;
    3; 3; 3; 3; 3; 3; 3; 3; 3; 3; 3; 3; 3; 3; 3; 3;
    4; 4; 4; 4; 4; 0; 0; 0; 0; 0; 0; 0; 0; 0; 0; 0].

(** WebCore/platform/text/TextCodecUTF8.cpp:65-86 [nonASCIISequenceLength] *)
Definition nonASCIISequenceLength (firstByte : N) : option N := sequence_lengths !!N firstByte.

(** [byte < low || byte > high] *)
Definition outside (byte low high : N) : bool := (byte <? low) || (high <? byte).

(** WebCore/platform/text/TextCodecUTF8.cpp:88-138 [decodeNonASCIISequence]; the inner [None] is
    [nonCharacter] *)
Definition decodeNonASCIISequence (sequence : list N) (length : N) : option (option N) :=
  s0 ← sequence !!N 0;
  s1 ← sequence !!N 1;
  if length =? 2 then
    if s0 <? 0xC2 then Some None
    else if outside s1 0x80 0xBF then Some None
    else Some (Some (N.shiftl s0 6 + s1 - 0x3080))
  else
    s2 ← sequence !!N 2;
    if length =? 3 then
      if (if s0 =? 0xE0 then outside s1 0xA0 0xBF
          else if s0 =? 0xED then outside s1 0x80 0x9F
          else outside s1 0x80 0xBF) then Some None
      else if outside s2 0x80 0xBF then Some None
      else Some (Some (N.shiftl s0 12 + N.shiftl s1 6 + s2 - 0xE2080))
    else
      s3 ← sequence !!N 3;
      if (if s0 =? 0xF0 then outside s1 0x90 0xBF
          else if s0 =? 0xF4 then outside s1 0x80 0x8F
          else outside s1 0x80 0xBF) then Some None
      else if outside s2 0x80 0xBF then Some None
      else if outside s3 0x80 0xBF then Some None
      else Some (Some (N.shiftl s0 18 + N.shiftl s1 12 + N.shiftl s2 6 + s3 - 0x3C82080)).

(** The macros [U_IS_BMP], [U16_LEAD] and [U16_TRAIL] of ICU. *)
Definition U_IS_BMP (c : N) : bool := c <=? 0xFFFF.
Definition U16_LEAD (supplementary : N) : N := wrap16 (N.shiftr supplementary 10 + 0xD7C0).
Definition U16_TRAIL (supplementary : N) : N := wrap16 (N.lor (N.land supplementary 0x3FF) 0xDC00).

(** WTF/wtf/unicode/CharacterNames.h:73-73 [replacementCharacter] *)
Definition replacementCharacter : N := 0xFFFD.

(** ** Decoding *)

(** The variables of [decode]. *)
Record Decoding := mkDecoding {
  d_partial : list N;
  d_source : list N;
  d_destination : list N;
  d_sawError : bool
}.

Section Decode.
Context (capacity end_ : N) (flush stopOnError : bool).

(** Writes at [destination], in a buffer of [capacity] characters. *)
Definition write (characters : list N) (s : Decoding) : option Decoding :=
  if N.of_nat (length (d_destination s) + length characters) <=? capacity
  then Some (mkDecoding (d_partial s) (d_source s) (d_destination s ++ characters) (d_sawError s))
  else None.

Definition with_partial (partial : list N) (s : Decoding) : Decoding :=
  mkDecoding partial (d_source s) (d_destination s) (d_sawError s).
Definition with_source (source : list N) (s : Decoding) : Decoding :=
  mkDecoding (d_partial s) source (d_destination s) (d_sawError s).
Definition saw_error (s : Decoding) : Decoding :=
  mkDecoding (d_partial s) (d_source s) (d_destination s) true.

(** WebCore/platform/text/TextCodecUTF8.cpp:140-151 [appendCharacter] *)
Definition appendCharacter (character : N) (s : Decoding) : option Decoding :=
  if U_IS_BMP character then write [character] s
  else s ← write [U16_LEAD character] s; write [U16_TRAIL character] s.

(** WebCore/platform/text/TextCodecUTF8.cpp:153-157 [TextCodecUTF8::consumePartialSequenceByte] *)
Definition consumePartialSequenceByte (s : Decoding) : option Decoding :=
  match d_partial s with [] => None | _ :: rest => Some (with_partial rest s) end.

(** WebCore/platform/text/TextCodecUTF8.cpp:159-167 [TextCodecUTF8::handleError] *)
Definition handleError (s : Decoding) : option Decoding :=
  let s := saw_error s in
  if stopOnError then Some s
  else s ← write [replacementCharacter] s; consumePartialSequenceByte s.

(** [memcpy] of the next [count] bytes of the source behind the partial sequence, whose buffer has
    [U8_MAX_LENGTH] bytes. *)
Definition take_bytes (count : N) (s : Decoding) : option Decoding :=
  let bytes := take (N.to_nat count) (d_source s) in
  if N.of_nat (length (d_partial s) + length bytes) <=? 4
  then Some (mkDecoding (d_partial s ++ bytes) (drop (N.to_nat count) (d_source s)) (d_destination s) (d_sawError s))
  else None.

(** [m_partialSequenceSize -= count]: the bytes that are left are the first ones. *)
Definition shrink_partial (count : N) (s : Decoding) : Decoding :=
  with_partial (take (length (d_partial s) - N.to_nat count) (d_partial s)) s.

Definition size_partial (s : Decoding) : N := N.of_nat (length (d_partial s)).
Definition size_source (s : Decoding) : N := N.of_nat (length (d_source s)).

(** WebCore/platform/text/TextCodecUTF8.cpp:169-210 [TextCodecUTF8::handlePartialSequence], for [LChar]:
    the state, and what is returned *)
Fixpoint handlePartialSequence8 (fuel : nat) (s : Decoding) : option (Decoding * bool) :=
  let next s := match d_partial s with [] => Some (s, false)
                | _ => match fuel with O => None | S fuel => handlePartialSequence8 fuel s end end in
  first ← d_partial s !!N 0;
  if isASCII first then
    s ← write [first] s; s ← consumePartialSequenceByte s; next s
  else
    count ← nonASCIISequenceLength first;
    if count =? 0 then Some (s, true)
    else
      let complete s :=
        character ← decodeNonASCIISequence (d_partial s) count;
        match character with
        | None => Some (s, true)
        | Some character =>
            if 0xFF <? character then Some (s, true)
            else s ← write [character] (shrink_partial count s); next s
        end in
      if size_partial s <? count then
        if size_source s <? count - size_partial s then
          if negb flush then s ← take_bytes (size_source s) s; Some (s, false)
          else Some (s, true)
        else s ← take_bytes (count - size_partial s) s; complete s
      else complete s.

(** WebCore/platform/text/TextCodecUTF8.cpp:212-261 [TextCodecUTF8::handlePartialSequence], for [UChar],
    which always returns false *)
Fixpoint handlePartialSequence16 (fuel : nat) (s : Decoding) : option Decoding :=
  let next s := match d_partial s with [] => Some s
                | _ => match fuel with O => None | S fuel => handlePartialSequence16 fuel s end end in
  let error s := s ← handleError s; if stopOnError then Some s else next s in
  first ← d_partial s !!N 0;
  if isASCII first then
    s ← write [first] s; s ← consumePartialSequenceByte s; next s
  else
    count ← nonASCIISequenceLength first;
    if count =? 0 then error s
    else
      let complete s :=
        character ← decodeNonASCIISequence (d_partial s) count;
        match character with
        | None => error s
        | Some character => s ← appendCharacter character (shrink_partial count s); next s
        end in
      if size_partial s <? count then
        if size_source s <? count - size_partial s then
          if negb flush then take_bytes (size_source s) s
          else error s
        else s ← take_bytes (count - size_partial s) s; complete s
      else complete s.

(** WebCore/platform/text/TextCodecUTF8.cpp:296-302 [TextCodecUTF8::decode]: the loop over machine words,
    which [copyASCIIMachineWord] of both widths copies, with a turn of fuel for each byte *)
Fixpoint copy_words (fuel : nat) (s : Decoding) : option Decoding :=
  if end_ - size_source s <? alignToMachineWord end_ then
    match fuel with
    | O => None
    | S fuel =>
        chunk ← read_bytes (N.to_nat sizeof_MachineWord) (d_source s) 0;
        if negb (isAllASCII (le_value chunk)) then Some s
        else s ← write chunk s; copy_words fuel (with_source (drop (N.to_nat sizeof_MachineWord) (d_source s)) s)
    end
  else Some s.

(** WebCore/platform/text/TextCodecUTF8.cpp:292-339 [TextCodecUTF8::decode]: the loop that writes 8-bit
    characters, with a turn of fuel for each byte; the answer says if it jumps to [upConvertTo16Bit] *)
Fixpoint decode_source8 (fuel : nat) (s : Decoding) : option (Decoding * bool) :=
  match d_source s, fuel with
  | [], _ => Some (s, false)
  | _, O => None
  | first :: _, S fuel =>
      if isASCII first then
        s ← (if isAlignedToMachineWord (end_ - size_source s) then copy_words (length (d_source s)) s else Some s);
        match d_source s with
        | [] => Some (s, false)
        | c :: source =>
            if isASCII c then s ← write [c] s; decode_source8 fuel (with_source source s)
            else decode_source8 fuel s
        end
      else
        count ← nonASCIISequenceLength first;
        if (negb (count =? 0)) && (size_source s <? count) then
          Some (with_source [] (with_partial (d_source s) s), false)
        else
          character ← (if count =? 0 then Some None else decodeNonASCIISequence (d_source s) count);
          match character with
          | None => Some (saw_error s, negb stopOnError)
          | Some character =>
              if 0xFF <? character then Some (s, true)
              else s ← write [character] (with_source (drop (N.to_nat count) (d_source s)) s); decode_source8 fuel s
          end
  end.

(** WebCore/platform/text/TextCodecUTF8.cpp:369-415 [TextCodecUTF8::decode]: the loop that writes 16-bit
    characters *)
Fixpoint decode_source16 (fuel : nat) (s : Decoding) : option Decoding :=
  match d_source s, fuel with
  | [], _ => Some s
  | _, O => None
  | first :: rest, S fuel =>
      if isASCII first then
        s ← (if isAlignedToMachineWord (end_ - size_source s) then copy_words (length (d_source s)) s else Some s);
        match d_source s with
        | [] => Some s
        | c :: source =>
            if isASCII c then s ← write [c] s; decode_source16 fuel (with_source source s)
            else decode_source16 fuel s
        end
      else
        count ← nonASCIISequenceLength first;
        if (negb (count =? 0)) && (size_source s <? count) then
          Some (with_source [] (with_partial (d_source s) s))
        else
          character ← (if count =? 0 then Some None else decodeNonASCIISequence (d_source s) count);
          match character with
          | None =>
              let s := saw_error s in
              if stopOnError then Some s
              else s ← write [replacementCharacter] s; decode_source16 fuel (with_source rest s)
          | Some character =>
              s ← appendCharacter character (with_source (drop (N.to_nat count) (d_source s)) s); decode_source16 fuel s
          end
  end.

(** The bytes that are not decoded yet. *)
Definition pending (s : Decoding) : nat := (length (d_partial s) + length (d_source s))%nat.

(** WebCore/platform/text/TextCodecUTF8.cpp:275-340 [TextCodecUTF8::decode]: the outer loop on 8-bit characters; the answer
    of [handlePartialSequence] drops what it wrote *)
Fixpoint decode8 (fuel : nat) (s : Decoding) : option (Decoding * bool) :=
  r ← (match d_partial s with
       | [] => Some (s, false)
       | _ => r ← handlePartialSequence8 (pending s) s;
              let '(s', up) := r in
              Some (if (up : bool) then mkDecoding (d_partial s') (d_source s') (d_destination s) (d_sawError s') else s', up)
       end);
  let '(s, up) := r in
  if (up : bool) then Some (s, true)
  else match d_partial s with
       | _ :: _ => Some (s, false)
       | [] =>
           r ← decode_source8 (length (d_source s)) s;
           let '(s, up) := r in
           if (up : bool) then Some (s, true)
           else match d_partial s with
                | [] => Some (s, false)
                | _ => if flush then match fuel with O => None | S fuel => decode8 fuel s end else Some (s, false)
                end
       end.

(** WebCore/platform/text/TextCodecUTF8.cpp:355-416 [TextCodecUTF8::decode]: the outer loop on 16-bit characters *)
Fixpoint decode16 (fuel : nat) (s : Decoding) : option Decoding :=
  s ← (match d_partial s with [] => Some s | _ => handlePartialSequence16 (pending s) s end);
  match d_partial s with
  | _ :: _ => Some s
  | [] =>
      s ← decode_source16 (length (d_source s)) s;
      match d_partial s with
      | [] => Some s
      | _ => if flush then match fuel with O => None | S fuel => decode16 fuel s end else Some s
      end
  end.
End Decode.

(** WTF/wtf/text/StringImpl.cpp:2104-2118 [StringImpl::adopt], of both widths *)
Definition adopt (t : CharType) (characters : list N) : WTFString :=
  match characters with [] => Some StringImpl_empty | _ => Some (mkImpl (is_LChar t) characters) end.

(** WebCore/platform/text/TextCodecUTF8.cpp:263-421 [TextCodecUTF8::decode], of the bytes whose end is at [end_]: the codec
    after it, the string, and [sawError]; the buffers take an [unsigned] length *)
Definition decode (codec : list N) (bytes : list N) (end_ : N) (flush stopOnError sawError : bool)
    : option (list N * WTFString * bool) :=
  let capacity partial := wrap32 (N.of_nat (length partial + length bytes)) in
  r ← decode8 (capacity codec) end_ flush stopOnError 2 (mkDecoding codec bytes [] sawError);
  let '(s, up) := r in
  if negb up then Some (d_partial s, adopt LChar (d_destination s), d_sawError s)
  else if capacity (d_partial s) <? N.of_nat (length (d_destination s)) then None
  else
    s ← decode16 (capacity (d_partial s)) end_ flush stopOnError 2 s;
    Some (d_partial s, adopt UChar (d_destination s), d_sawError s).

(** The state of a codec that is new. *)
Definition TextCodecUTF8_new : list N := [].

(** ** Encoding *)

(** The macros [U16_IS_LEAD] and [U16_IS_TRAIL]. *)
Definition U16_IS_LEAD (c : N) : bool := N.land c 0xfffffc00 =? 0xd800.
Definition U16_IS_TRAIL (c : N) : bool := N.land c 0xfffffc00 =? 0xdc00.

(** [U16_GET_SUPPLEMENTARY], which is not negative on surrogates. *)
Definition U16_GET_SUPPLEMENTARY (lead trail : N) : N :=
  N.shiftl lead 10 + trail - (N.shiftl 0xd800 10 + 0xdc00 - 0x10000).

(** [U16_NEXT]: the character at the front, and the rest *)
Definition U16_NEXT (c : N) (rest : list N) : N * list N :=
  if U16_IS_LEAD c then
    match rest with
    | c2 :: rest' => if U16_IS_TRAIL c2 then (U16_GET_SUPPLEMENTARY c c2, rest') else (c, rest)
    | [] => (c, rest)
    end
  else (c, rest).

(** [U8_APPEND_UNSAFE]: the bytes that are written *)
Definition U8_APPEND_UNSAFE (c : N) : list N :=
  let trail c := wrap8 (N.lor (N.land c 0x3f) 0x80) in
  if c <=? 0x7f then [wrap8 c]
  else if c <=? 0x7ff then [wrap8 (N.lor (N.shiftr c 6) 0xc0); trail c]
  else if c <=? 0xffff then [wrap8 (N.lor (N.shiftr c 12) 0xe0); trail (N.shiftr c 6); trail c]
  else [wrap8 (N.lor (N.shiftr c 18) 0xf0); trail (N.shiftr c 12); trail (N.shiftr c 6); trail c].

(** WebCore/platform/text/TextCodecUTF8.cpp:434-438 [TextCodecUTF8::encode], the loop, into a buffer of [room] bytes *)
Fixpoint encode_characters (fuel : nat) (room : N) (characters bytes : list N) : option (list N) :=
  match characters with
  | [] => Some bytes
  | c :: rest =>
      match fuel with
      | O => None
      | S fuel =>
          let '(character, rest) := U16_NEXT c rest in
          let bytes := bytes ++ U8_APPEND_UNSAFE character in
          if room <? N.of_nat (length bytes) then None else encode_characters fuel room rest bytes
      end
  end.

(** WebCore/platform/text/TextCodecUTF8.cpp:423-441 [TextCodecUTF8::encode]; the vector cannot have more than
    [max32] bytes *)
Definition encode (characters : list N) : option (list N) :=
  let length_ := N.of_nat (length characters) in
  if (max64 / 3 <? length_) || (max32 <? length_ * 3) then None
  else encode_characters (length characters) (length_ * 3) characters [].
