(* ===== verification/UTF8Spec.v ===== *)
(** * The specification of UTF-8

    A scalar value has an encoding in bytes and one in 16-bit units; decoding
    takes encodings off the front of a text, and one byte where there is none. *)

From S2P Require Import Prelude ASCII WTFString TextCodecUTF8.
From Stdlib Require Import ZifyN.

(** [lia] with quotients and remainders. *)
#[local] Ltac Zify.zify_post_hook ::= Z.div_mod_to_equations.

(** ** Encodings *)

Definition scalar (c : N) : Prop := c < 0xD800 \/ 0xE000 <= c < 0x110000.

Definition utf8 (c : N) : list N :=
  if c <? 0x80 then [c]
  else if c <? 0x800 then [0xC0 + c / 64; 0x80 + c mod 64]
  else if c <? 0x10000 then [0xE0 + c / 4096; 0x80 + c / 64 mod 64; 0x80 + c mod 64]
  else [0xF0 + c / 262144; 0x80 + c / 4096 mod 64; 0x80 + c / 64 mod 64; 0x80 + c mod 64].

Definition utf16 (c : N) : list N :=
  if c <? 0x10000 then [c] else [0xD800 + (c - 0x10000) / 1024; 0xDC00 + (c - 0x10000) mod 1024].

Definition utf8_text (cs : list N) : list N := cs ≫= utf8.
Definition utf16_text (cs : list N) : list N := cs ≫= utf16.

(** ** Decoding *)

(** No encoding is at the front. *)
Definition undecodable (bytes : list N) : Prop := forall c rest, scalar c -> bytes <> utf8 c ++ rest.

(** The front of [bytes], up to [rest], decodes to [cs], with or without errors; [later] is the text that
    follows all of it. *)
Inductive decodes (later : list N) : list N -> list N -> bool -> list N -> Prop :=
| decodes_nil rest : decodes later rest [] false rest
| decodes_char c bytes cs e rest : scalar c -> decodes later bytes cs e rest ->
    decodes later (utf8 c ++ bytes) (c :: cs) e rest
| decodes_error b bytes cs e rest : undecodable ((b :: bytes) ++ later) -> decodes later bytes cs e rest ->
    decodes later (b :: bytes) (replacementCharacter :: cs) true rest.

Lemma decodes_app later bytes cs1 e1 mid cs2 e2 rest :
  decodes later bytes cs1 e1 mid -> decodes later mid cs2 e2 rest -> decodes later bytes (cs1 ++ cs2) (e1 || e2) rest.
Proof. induction 1; intros Hrest; cbn [app orb]; [done|apply decodes_char; auto|eapply decodes_error; eauto]. Qed.

Lemma decodes_length later bytes cs e rest : decodes later bytes cs e rest -> (length rest <= length bytes)%nat.
Proof. induction 1; rewrite ?length_app; cbn [length]; lia. Qed.

Lemma utf8_nonempty c : utf8 c <> [].
Proof. unfold utf8. by repeat case_match. Qed.

Lemma length_utf8 c : (1 <= length (utf8 c) <= 4)%nat.
Proof. unfold utf8. repeat case_match; simpl; lia. Qed.

Lemma length_utf16 c : (1 <= length (utf16 c) <= 2)%nat /\ (length (utf16 c) <= length (utf8 c))%nat.
Proof. unfold utf16, utf8. repeat case_match; breflect; simpl; lia. Qed.

Lemma length_utf16_text cs : (length (utf16_text cs) <= length (utf8_text cs))%nat.
Proof.
  unfold utf16_text, utf8_text. induction cs as [|c cs IH]; [done|].
  cbn [mbind list_bind] in *. rewrite !length_app. pose proof (length_utf16 c). lia.
Qed.

Lemma utf16_text_app cs1 cs2 : utf16_text (cs1 ++ cs2) = utf16_text cs1 ++ utf16_text cs2.
Proof. apply bind_app. Qed.

Lemma utf8_text_cons c cs : utf8_text (c :: cs) = utf8 c ++ utf8_text cs.
Proof. done. Qed.

(** ** Decoding a sequence *)

Lemma isASCII_ltb b : isASCII b = (b <? 128).
Proof.
  unfold isASCII.
  destruct (b <? 128) eqn:E; breflect.
  - apply N.eqb_eq. change 127 with (N.ones 7). apply N.ldiff_ones_r_low.
    destruct (decide (b = 0)) as [->|]; [done|]. apply N.log2_lt_pow2; [lia|done].
  - apply N.eqb_neq. change 127 with (N.ones 7). rewrite N.ldiff_ones_r, N.shiftr_div_pow2, N.shiftl_mul_pow2.
    change (2 ^ 7) with 128. lia.
Qed.

Lemma sequence_length_spec b : b < 256 ->
  nonASCIISequenceLength b = Some (if b <? 128 then 0 else if b <? 224 then 2 else if b <? 240 then 3 else if b <? 245 then 4 else 0).
Proof.
  intros Hb. assert (forallb (fun b => bool_decide (nonASCIISequenceLength b =
    Some (if b <? 128 then 0 else if b <? 224 then 2 else if b <? 240 then 3 else if b <? 245 then 4 else 0))) (for_range 0 256) = true) as Hall
    by (vm_compute; reflexivity).
  rewrite forallb_forall in Hall. specialize (Hall b). apply bool_decide_eq_true in Hall; [done|].
  apply list_elem_of_In, elem_of_for_range. lia.
Qed.

Lemma outside_false b low high : outside b low high = false <-> low <= b <= high.
Proof. unfold outside. rewrite orb_false_iff, !N.ltb_ge. lia. Qed.

Lemma shift_6 b : N.shiftl b 6 = b * 64.
Proof. by rewrite N.shiftl_mul_pow2. Qed.

Lemma shift_12 b : N.shiftl b 12 = b * 4096.
Proof. by rewrite N.shiftl_mul_pow2. Qed.

Lemma shift_18 b : N.shiftl b 18 = b * 262144.
Proof. by rewrite N.shiftl_mul_pow2. Qed.

(** What the tests of [decodeNonASCIISequence] say. *)
Ltac sequence_tests :=
  repeat match goal with
  | H : context [if ?b =? ?n then _ else _] |- _ => destruct (b =? n) eqn:?; breflect
  | H : context [if ?b <? ?n then _ else _] |- _ => destruct (b <? n) eqn:?; breflect
  | H : context [if outside ?b ?l ?h then _ else _] |- _ => let E := fresh in destruct (outside b l h) eqn:E; [|apply outside_false in E]
  | H : Some _ = Some _ |- _ => injection H as H
  end; try done.

Lemma decode_two b0 b1 l : decodeNonASCIISequence (b0 :: b1 :: l) 2 =
  Some (if b0 <? 194 then None else if outside b1 128 191 then None else Some (b0 * 64 + b1 - 12416)).
Proof.
  unfold decodeNonASCIISequence. change ((b0 :: b1 :: l) !!N 0) with (Some b0). change ((b0 :: b1 :: l) !!N 1) with (Some b1).
  cbn [mbind option_bind N.eqb Pos.eqb]. rewrite ?shift_6, ?shift_12, ?shift_18. by repeat case_match.
Qed.

Lemma decode_three b0 b1 b2 l : decodeNonASCIISequence (b0 :: b1 :: b2 :: l) 3 =
  Some (if (if b0 =? 224 then outside b1 160 191 else if b0 =? 237 then outside b1 128 159 else outside b1 128 191) then None
        else if outside b2 128 191 then None else Some (b0 * 4096 + b1 * 64 + b2 - 925824)).
Proof.
  unfold decodeNonASCIISequence. change ((b0 :: b1 :: b2 :: l) !!N 0) with (Some b0). change ((b0 :: b1 :: b2 :: l) !!N 1) with (Some b1). change ((b0 :: b1 :: b2 :: l) !!N 2) with (Some b2).
  cbn [mbind option_bind N.eqb Pos.eqb]. rewrite ?shift_6, ?shift_12, ?shift_18. by repeat case_match.
Qed.

Lemma decode_four b0 b1 b2 b3 l : decodeNonASCIISequence (b0 :: b1 :: b2 :: b3 :: l) 4 =
  Some (if (if b0 =? 240 then outside b1 144 191 else if b0 =? 244 then outside b1 128 143 else outside b1 128 191) then None
        else if outside b2 128 191 then None else if outside b3 128 191 then None
        else Some (b0 * 262144 + b1 * 4096 + b2 * 64 + b3 - 63447168)).
Proof.
  unfold decodeNonASCIISequence. change ((b0 :: b1 :: b2 :: b3 :: l) !!N 0) with (Some b0). change ((b0 :: b1 :: b2 :: b3 :: l) !!N 1) with (Some b1). change ((b0 :: b1 :: b2 :: b3 :: l) !!N 2) with (Some b2). change ((b0 :: b1 :: b2 :: b3 :: l) !!N 3) with (Some b3).
  cbn [mbind option_bind N.eqb Pos.eqb]. rewrite ?shift_6, ?shift_12, ?shift_18. by repeat case_match.
Qed.

(** The first byte of a sequence, and how many bytes it has. *)
Definition starts (source : list N) (count : N) : Prop :=
  exists b rest, source = b :: rest /\ 128 <= b < 256 /\ nonASCIISequenceLength b = Some count.

Lemma starts_spec source count : starts source count -> exists b rest, source = b :: rest /\
  ((128 <= b < 224 /\ count = 2) \/ (224 <= b < 240 /\ count = 3) \/ (240 <= b < 245 /\ count = 4) \/ (245 <= b < 256 /\ count = 0)).
Proof.
  intros (b & rest & -> & Hb & Hcount). exists b, rest. split; [done|]. rewrite sequence_length_spec in Hcount by lia.
  injection Hcount as <-. repeat case_match; breflect; lia.
Qed.

(** A sequence that the codec accepts is the encoding of the character it computes. *)
Lemma decode_sequence_sound source count c :
  starts source count -> count <> 0 -> (N.to_nat count <= length source)%nat -> decodeNonASCIISequence source count = Some (Some c) ->
  scalar c /\ source = utf8 c ++ drop (N.to_nat count) source /\ length (utf8 c) = N.to_nat count /\ 128 <= c.
Proof.
  intros (b0 & rest & -> & Hb)%starts_spec Hpos Hlen Hdecode.
  destruct Hb as [[Hb ->]|[[Hb ->]|[[Hb ->]|[_ ->]]]]; [| | |done];
    repeat (destruct rest as [|? rest]; [cbn in Hlen; lia|]; try (rewrite ?decode_two, ?decode_three, ?decode_four in Hdecode; progress sequence_tests; [])).
  all: try rewrite decode_three in Hdecode; try rewrite decode_four in Hdecode; sequence_tests; subst c.
  all: cbn [N.to_nat Pos.to_nat Pos.iter_op Nat.add drop]; unfold scalar, utf8; repeat case_match; breflect; try lia.
  all: split_and!; [lia| |done|lia]; cbn [app]; repeat f_equal; lia.
Qed.

(** Bytes that are in their range, whatever the first byte. *)
Ltac inside :=
  repeat match goal with |- context [?a =? ?b] => destruct (a =? b) eqn:?; breflect end;
  repeat match goal with
  | |- context [outside ?b ?l ?h] => replace (outside b l h) with false by (symmetry; apply outside_false; lia)
  | |- context [?a <? ?b] => replace (a <? b) with false by (symmetry; apply N.ltb_ge; lia)
  end.

Lemma starts_intro b rest count : 128 <= b < 256 ->
  count = (if b <? 224 then 2 else if b <? 240 then 3 else if b <? 245 then 4 else 0) -> starts (b :: rest) count.
Proof.
  intros Hb ->. exists b, rest. split_and!; [done|lia..|]. rewrite sequence_length_spec by lia.
  by rewrite (proj2 (N.ltb_ge b 128)) by lia.
Qed.

(** The codec accepts every encoding. *)
Lemma decode_sequence_complete c rest :
  scalar c -> 128 <= c -> exists count, starts (utf8 c ++ rest) count /\ count <> 0 /\ N.to_nat count = length (utf8 c) /\
    decodeNonASCIISequence (utf8 c ++ rest) count = Some (Some c).
Proof.
  intros Hc Hge. unfold scalar, utf8 in *. repeat case_match; breflect; try lia; cbn [app length].
  - exists 2. rewrite decode_two. split_and!; [apply starts_intro; [lia|]; repeat case_match; breflect; lia|done..|]. inside; do 2 f_equal; lia.
  - exists 3. rewrite decode_three. split_and!; [apply starts_intro; [lia|]; repeat case_match; breflect; lia|done..|]. inside; do 2 f_equal; lia.
  - exists 4. rewrite decode_four. split_and!; [apply starts_intro; [lia|]; repeat case_match; breflect; lia|done..|]. inside; do 2 f_equal; lia.
Qed.

Lemma starts_unique source count count' : starts source count -> starts source count' -> count = count'.
Proof. intros (b & r & -> & _ & H1) (b' & r' & [= <- <-] & _ & H2). congruence. Qed.

Lemma starts_app source count more : starts source count -> starts (source ++ more) count.
Proof. intros (b & rest & -> & Hb). by exists b, (rest ++ more). Qed.

Lemma decode_sequence_app source count more r : decodeNonASCIISequence source count = Some r -> decodeNonASCIISequence (source ++ more) count = Some r.
Proof.
  unfold decodeNonASCIISequence. intros H. destruct source as [|b0 [|b1 source]]; [done|done|]. cbn [app] in *.
  change ((b0 :: b1 :: source ++ more) !!N 0) with (Some b0). change ((b0 :: b1 :: source ++ more) !!N 1) with (Some b1).
  change ((b0 :: b1 :: source) !!N 0) with (Some b0) in H. change ((b0 :: b1 :: source) !!N 1) with (Some b1) in H.
  cbn [mbind option_bind] in *. destruct (count =? 2); [done|].
  destruct source as [|b2 source]; [done|]. cbn [app] in *.
  change ((b0 :: b1 :: b2 :: source ++ more) !!N 2) with (Some b2). change ((b0 :: b1 :: b2 :: source) !!N 2) with (Some b2) in H.
  cbn [mbind option_bind] in *. destruct (count =? 3); [done|].
  by destruct source as [|b3 source].
Qed.

(** What the codec takes for no character is none, whatever follows. *)
Definition rejected (source : list N) : Prop :=
  exists count, starts source count /\ (count = 0 \/ decodeNonASCIISequence source count = Some None).

(** The end of a text that the codec keeps for later. *)
Definition incomplete (source : list N) : Prop :=
  exists count, starts source count /\ count <> 0 /\ (length source < N.to_nat count)%nat.

Lemma ascii_scalar b : b < 128 -> scalar b /\ utf8 b = [b] /\ utf16 b = [b].
Proof. intros Hb. unfold scalar, utf8, utf16. rewrite !(proj2 (N.ltb_lt b _)) by lia. split_and!; [lia|done..]. Qed.

Lemma starts_not_ascii source count c rest : starts source count -> source = utf8 c ++ rest -> 128 <= c.
Proof.
  intros (b & r & -> & Hb & _) Heq. destruct (decide (c < 128)) as [Hc|]; [|lia].
  rewrite (proj1 (proj2 (ascii_scalar c Hc))) in Heq. injection Heq as -> _. lia.
Qed.

Lemma rejected_undecodable source more : rejected source -> undecodable (source ++ more).
Proof.
  intros (count & Hstarts & Hbad) c rest Hc Heq. pose proof (starts_app _ _ more Hstarts) as Hs.
  pose proof (starts_not_ascii _ _ _ _ Hs Heq) as Hge. destruct (decode_sequence_complete c rest Hc Hge) as (count' & Hs' & Hpos & _ & Hd).
  rewrite <- Heq in *. rewrite (starts_unique _ _ _ Hs Hs') in *. destruct Hbad as [->|Hbad]; [done|].
  rewrite (decode_sequence_app _ _ more _ Hbad) in Hd. done.
Qed.

Lemma incomplete_undecodable source : incomplete source -> undecodable source.
Proof.
  intros (count & Hs & Hpos & Hlen) c rest Hc Heq. pose proof (starts_not_ascii _ _ _ _ Hs Heq) as Hge.
  destruct (decode_sequence_complete c rest Hc Hge) as (count' & Hs' & _ & Hl & _). rewrite <- Heq in Hs'.
  rewrite (starts_unique _ _ _ Hs Hs') in *. apply (f_equal length) in Heq. rewrite length_app in Heq. lia.
Qed.

(** An encoding is not the start of another one. *)
Lemma utf8_prefix c c' rest rest' : scalar c -> scalar c' -> utf8 c ++ rest = utf8 c' ++ rest' -> c = c' /\ rest = rest'.
Proof.
  intros Hc Hc' Heq. assert (c = c') as <-.
  { destruct (decide (c < 128)) as [Ha|Ha], (decide (c' < 128)) as [Ha'|Ha'].
    - rewrite (proj1 (proj2 (ascii_scalar c Ha))), (proj1 (proj2 (ascii_scalar c' Ha'))) in Heq. by injection Heq.
    - destruct (decode_sequence_complete c' rest' Hc' ltac:(lia)) as (k & Hs & _). pose proof (starts_not_ascii _ _ _ _ Hs (eq_sym Heq)). lia.
    - destruct (decode_sequence_complete c rest Hc ltac:(lia)) as (k & Hs & _). pose proof (starts_not_ascii _ _ _ _ Hs Heq). lia.
    - destruct (decode_sequence_complete c rest Hc ltac:(lia)) as (k & Hs & _ & _ & Hd).
      destruct (decode_sequence_complete c' rest' Hc' ltac:(lia)) as (k' & Hs' & _ & _ & Hd').
      rewrite Heq in Hs, Hd. rewrite (starts_unique _ _ _ Hs Hs') in Hd. congruence. }
  split; [done|]. by apply app_inv_head in Heq.
Qed.

(** A text that is encoded decodes to what it was made of, and to nothing else. *)
Lemma decodes_text later bytes out e rest cs : decodes later bytes out e rest -> Forall scalar cs -> bytes ++ later = utf8_text cs ->
  e = false /\ exists cs', cs = out ++ cs' /\ rest ++ later = utf8_text cs'.
Proof.
  intros Hd. revert cs. induction Hd as [|c bytes out e rest Hc Hd IH|b bytes out e rest Hu Hd IH]; intros cs Hcs Heq.
  - by split; [|exists cs].
  - destruct cs as [|c' cs]; [rewrite <- app_assoc in Heq; apply app_nil in Heq as [Hnil _]; by destruct (utf8_nonempty c)|].
    apply Forall_cons in Hcs as [Hc' Hcs]. rewrite utf8_text_cons, <- app_assoc in Heq. destruct (utf8_prefix _ _ _ _ Hc Hc' Heq) as [<- Hrest].
    destruct (IH cs Hcs Hrest) as (-> & cs' & -> & Hr). split; [done|]. by exists cs'.
  - exfalso. destruct cs as [|c cs]; [done|]. apply Forall_cons in Hcs as [Hc _]. rewrite utf8_text_cons in Heq. by apply (Hu c (utf8_text cs)).
Qed.

Lemma text_decodes cs : Forall scalar cs -> decodes [] (utf8_text cs) cs false [].
Proof. induction 1 as [|c cs Hc _ IH]; [constructor|]. rewrite utf8_text_cons. by constructor. Qed.
