(* ===== verification/UTF8Decode.v ===== *)
(** * [TextCodecUTF8::decode]: its loops

    Each loop decodes the text as the specification does and stays within its
    buffers; the copies of machine words are copies of ASCII characters. *)

From S2P Require Import Prelude ASCII WTFString TextCodecUTF8 UTF8Spec.
From Stdlib Require Import ZifyN.

#[local] Ltac Zify.zify_post_hook ::= Z.div_mod_to_equations.

(** ** Machine words *)

Lemma land_land_distr a b o : N.land (N.land a b) o = N.land (N.land a o) (N.land b o).
Proof. apply N.bits_inj. intros i. rewrite !N.land_spec. by destruct (N.testbit a i), (N.testbit b i), (N.testbit o i). Qed.

Lemma land_bytes b m x y : b < 256 -> m < 256 -> N.land (b + 256 * x) (m + 256 * y) = N.land b m + 256 * N.land x y.
Proof.
  intros Hb Hm. assert (forall z c, c < 256 -> N.shiftr (c + 256 * z) 8 = z) as Hshift by (intros z c Hc; rewrite N.shiftr_div_pow2; change (2 ^ 8) with 256; lia).
  assert (forall z c, c < 256 -> N.land (c + 256 * z) (N.ones 8) = c) as Hlow by (intros z c Hc; rewrite N.land_ones; change (2 ^ 8) with 256; lia).
  set (v := N.land (b + _) _). rewrite (N.div_mod v 256) by done.
  assert (v mod 256 = N.land b m) as -> by (change 256 with (2 ^ 8); rewrite <- N.land_ones; unfold v; by rewrite land_land_distr, !Hlow).
  assert (v / 256 = N.land x y) as -> by (change 256 with (2 ^ 8); rewrite <- N.shiftr_div_pow2; unfold v; by rewrite N.shiftr_land, !Hshift).
  lia.
Qed.

Lemma land_128 b : b < 256 -> N.land b 128 = 0 <-> b < 128.
Proof.
  intros Hb. assert (forallb (fun b => Bool.eqb (N.land b 128 =? 0) (b <? 128)) (for_range 0 256) = true) as Hall by (vm_compute; reflexivity).
  rewrite forallb_forall in Hall. specialize (Hall b ltac:(apply list_elem_of_In, elem_of_for_range; lia)).
  apply Bool.eqb_prop in Hall. rewrite <- N.eqb_eq, Hall. apply N.ltb_lt.
Qed.

Lemma word_ascii l : Forall (fun b => b < 256) l -> N.land (le_value l) (le_value (repeat 128 (length l))) = 0 <-> Forall (fun b => b < 128) l.
Proof.
  induction 1 as [|b l Hb _ IH]; [done|]. cbn [le_value repeat length]. rewrite land_bytes, Forall_cons, <- IH, <- (land_128 b) by done. lia.
Qed.

Lemma isAllASCII_spec chunk : length chunk = 8%nat -> Forall (fun b => b < 256) chunk -> isAllASCII (le_value chunk) = true <-> Forall (fun b => b < 128) chunk.
Proof.
  intros Hlen Hb. unfold isAllASCII. rewrite N.eqb_eq, <- word_ascii by done. rewrite Hlen.
  by change (le_value (repeat 128 8)) with NonASCIIMask.
Qed.

Lemma aligned_spec p : isAlignedToMachineWord p = true <-> p mod 8 = 0.
Proof.
  unfold isAlignedToMachineWord. change machineWordAlignmentMask with (N.ones 3). by rewrite N.eqb_eq, N.land_ones.
Qed.

Lemma alignToMachineWord_spec p : alignToMachineWord p = 8 * (p / 8).
Proof.
  unfold alignToMachineWord. change machineWordAlignmentMask with (N.ones 3).
  rewrite N.ldiff_ones_r, N.shiftr_div_pow2, N.shiftl_mul_pow2. change (2 ^ 3) with 8. lia.
Qed.

(** ** The state *)

Definition bytes_ok (l : list N) : Prop := Forall (fun b => b < 256) l.

Lemma bytes_ok_drop n l : bytes_ok l -> bytes_ok (drop n l).
Proof. apply Forall_drop. Qed.

(** The buffer has room for a character for each byte that is not decoded yet. *)
Definition room (capacity : N) (s : Decoding) : Prop := N.of_nat (length (d_destination s) + pending s) <= capacity.

Lemma write_Some capacity cs s : N.of_nat (length (d_destination s) + length cs) <= capacity ->
  write capacity cs s = Some (mkDecoding (d_partial s) (d_source s) (d_destination s ++ cs) (d_sawError s)).
Proof. intros H. unfold write. by rewrite (proj2 (N.leb_le _ _) H). Qed.

Lemma U16_LEAD_spec c : 0x10000 <= c < 0x110000 -> U16_LEAD c = 0xD800 + (c - 0x10000) / 1024.
Proof. intros Hc. unfold U16_LEAD. rewrite N.shiftr_div_pow2. change (2 ^ 10) with 1024. rewrite wrap16_id; lia. Qed.

Lemma lor_disjoint a b n : a < 2 ^ n -> N.lor a (N.shiftl b n) = a + N.shiftl b n.
Proof.
  intros Ha. symmetry. rewrite <- N.lxor_lor, N.add_nocarry_lxor; try done;
  (apply N.bits_inj; intros i; rewrite N.land_spec, N.bits_0; destruct (decide (i < n)) as [Hi|Hi];
   [by rewrite N.shiftl_spec_low, andb_false_r|rewrite <- (N.mod_small a (2 ^ n) Ha), N.mod_pow2_bits_high; [done|lia]]).
Qed.

Lemma U16_TRAIL_spec c : 0x10000 <= c < 0x110000 -> U16_TRAIL c = 0xDC00 + (c - 0x10000) mod 1024.
Proof.
  intros Hc. unfold U16_TRAIL. change 0x3FF with (N.ones 10). rewrite N.land_ones. change 0xDC00 with (N.shiftl 55 10).
  rewrite lor_disjoint by (apply N.mod_lt; done). change (N.shiftl 55 10) with 0xDC00. change (2 ^ 10) with 1024. rewrite wrap16_id; lia.
Qed.

Lemma appendCharacter_Some capacity c s : scalar c -> N.of_nat (length (d_destination s) + length (utf16 c)) <= capacity ->
  appendCharacter capacity c s = Some (mkDecoding (d_partial s) (d_source s) (d_destination s ++ utf16 c) (d_sawError s)).
Proof.
  intros Hc Hroom. unfold appendCharacter, U_IS_BMP, utf16, scalar in *. destruct (c <? 0x10000) eqn:E; breflect.
  - rewrite (proj2 (N.leb_le c 0xFFFF)) by lia. by apply write_Some.
  - rewrite (proj2 (N.leb_gt c 0xFFFF)) by lia. cbn [length] in Hroom.
    rewrite write_Some by (cbn [length]; lia). run_option. rewrite write_Some by (cbn; rewrite length_app; cbn; lia).
    cbn. by rewrite U16_LEAD_spec, U16_TRAIL_spec, <- app_assoc by lia.
Qed.

(** ** Copies of machine words *)

Lemma read_front n l : (n <= length l)%nat -> read_bytes n l 0 = Some (take n l).
Proof. intros Hn. unfold read_bytes. change (drop (N.to_nat 0) l) with l. rewrite length_take_le by done. by rewrite Nat.eqb_refl. Qed.

(** The state after [n] characters were copied. *)
Definition copied (n : nat) (s : Decoding) : Decoding :=
  mkDecoding (d_partial s) (drop n (d_source s)) (d_destination s ++ take n (d_source s)) (d_sawError s).

Lemma copied_0 s : copied 0 s = s.
Proof. destruct s. unfold copied. cbn. by rewrite app_nil_r. Qed.

Lemma copied_copied n m s : copied m (copied n s) = copied (n + m) s.
Proof. unfold copied. cbn. by rewrite drop_drop, <- app_assoc, take_take_drop. Qed.

Lemma room_copied capacity n s : room capacity s -> room capacity (copied n s).
Proof. unfold room, pending, copied. cbn. rewrite length_app, length_take, length_drop. lia. Qed.

Lemma copy_words_spec capacity end_ fuel s :
  bytes_ok (d_source s) -> size_source s <= end_ -> isAlignedToMachineWord (end_ - size_source s) = true -> (length (d_source s) <= fuel)%nat ->
  room capacity s ->
  exists n, copy_words capacity end_ fuel s = Some (copied n s) /\ Forall (fun b => b < 128) (take n (d_source s)).
Proof.
  revert s. induction fuel as [|fuel IH]; intros s Hb Hend Hal Hfuel Hroom; cbn [copy_words];
    (destruct (_ <? alignToMachineWord end_) eqn:E; breflect; [|exists 0%nat; split; [by rewrite copied_0|constructor]]);
    rewrite alignToMachineWord_spec in E; pose proof Hal as Hal'; apply aligned_spec in Hal'; assert (8 <= length (d_source s))%nat as H8 by (unfold size_source in *; lia).
  - lia.
  - change (N.to_nat sizeof_MachineWord) with 8%nat. rewrite read_front by done. run_option.
    assert (length (take 8 (d_source s)) = 8%nat) as Hlen by (rewrite length_take; lia).
    assert (bytes_ok (take 8 (d_source s))) as Hbt by (by apply Forall_take).
    destruct (isAllASCII _) eqn:Ea; cbn [negb]; [|exists 0%nat; split; [by rewrite copied_0|constructor]].
    apply isAllASCII_spec in Ea; [|done..].
    rewrite write_Some by (unfold room, pending in Hroom; rewrite Hlen; lia). run_option.
    change (with_source _ _) with (copied 8 s).
    destruct (IH (copied 8 s)) as (n & -> & Hn).
    + by apply bytes_ok_drop.
    + unfold size_source in *. cbn. rewrite length_drop. lia.
    + apply aligned_spec. unfold size_source in *. cbn. rewrite length_drop. lia.
    + cbn. rewrite length_drop. lia.
    + by apply room_copied.
    + exists (8 + n)%nat. rewrite copied_copied. split; [done|]. rewrite <- take_take_drop. apply Forall_app. by split.
Qed.

Lemma decodes_ascii later l rest : Forall (fun b => b < 128) l -> decodes later (l ++ rest) l false rest.
Proof.
  induction 1 as [|b l Hb _ IH]; [constructor|]. destruct (ascii_scalar b Hb) as (Hs & Hu & _).
  cbn [app]. change (b :: l ++ rest) with ([b] ++ (l ++ rest)). rewrite <- Hu. by constructor.
Qed.

Lemma utf16_ascii l : Forall (fun b => b < 128) l -> utf16_text l = l.
Proof.
  induction 1 as [|b l Hb _ IH]; [done|]. unfold utf16_text in *. cbn [mbind list_bind].
  rewrite (proj2 (proj2 (ascii_scalar b Hb))). by rewrite IH.
Qed.

(** What the loops do at an ASCII character. *)
Lemma ascii_run capacity end_ s b rest :
  d_source s = b :: rest -> b < 128 -> bytes_ok (d_source s) -> size_source s <= end_ -> room capacity s ->
  exists n, (if isAlignedToMachineWord (end_ - size_source s) then copy_words capacity end_ (length (d_source s)) s else Some s) = Some (copied n s) /\
    Forall (fun b => b < 128) (take n (d_source s)) /\ (n = 0%nat \/ (1 <= n)%nat).
Proof.
  intros Hs Hb Hok Hend Hroom. destruct (isAlignedToMachineWord _) eqn:E.
  - destruct (copy_words_spec capacity end_ (length (d_source s)) s) as (n & -> & Hn); [done..|]. exists n. split_and!; [done|done|lia].
  - exists 0%nat. rewrite copied_0. split_and!; [done|constructor|by left].
Qed.

(** ** The loop on 16-bit characters *)

(** What a loop did between two states. *)
Record loop_result (capacity : N) (later : list N) (s s' : Decoding) (out : list N) (e : bool) : Prop := {
  lr_decodes : decodes later (d_source s) out e (d_partial s' ++ d_source s');
  lr_destination : d_destination s' = d_destination s ++ utf16_text out;
  lr_room : room capacity s';
  lr_bytes : bytes_ok (d_partial s' ++ d_source s');
  lr_pending : (length (d_destination s') + pending s' <= length (d_destination s) + pending s)%nat
}.

Lemma loop_result_trans capacity later s s1 s2 out1 e1 out2 e2 :
  d_partial s1 = [] -> loop_result capacity later s s1 out1 e1 -> loop_result capacity later s1 s2 out2 e2 ->
  loop_result capacity later s s2 (out1 ++ out2) (e1 || e2).
Proof.
  intros Hp [D1 O1 R1 B1 P1] [D2 O2 R2 B2 P2]. rewrite Hp in D1. split; [by eapply decodes_app| |done|done|lia].
  by rewrite O2, O1, utf16_text_app, app_assoc.
Qed.

Lemma loop_result_nil capacity later s : d_partial s = [] -> bytes_ok (d_source s) -> room capacity s -> loop_result capacity later s s [] false.
Proof. intros Hp Hb Hr. split; rewrite ?Hp; [constructor| |done|done|done]. unfold utf16_text. cbn. by rewrite app_nil_r. Qed.

Lemma loop_result_copied capacity later s n : d_partial s = [] -> bytes_ok (d_source s) -> room capacity s ->
  Forall (fun b => b < 128) (take n (d_source s)) -> loop_result capacity later s (copied n s) (take n (d_source s)) false.
Proof.
  intros Hp Hb Hr Hn. split.
  - cbn. rewrite Hp. rewrite <- (take_drop n (d_source s)) at 1. by apply decodes_ascii.
  - cbn. by rewrite utf16_ascii.
  - by apply room_copied.
  - cbn. rewrite Hp. by apply bytes_ok_drop.
  - unfold pending. cbn. rewrite length_app, length_take, length_drop. lia.
Qed.

(** One character, of the bytes at the front of the source. *)
Definition decoded (c : N) (count : nat) (s : Decoding) : Decoding :=
  mkDecoding (d_partial s) (drop count (d_source s)) (d_destination s ++ utf16 c) (d_sawError s).

Lemma loop_result_char capacity later s c : d_partial s = [] -> bytes_ok (d_source s) -> room capacity s -> scalar c ->
  d_source s = utf8 c ++ drop (length (utf8 c)) (d_source s) -> loop_result capacity later s (decoded c (length (utf8 c)) s) [c] false.
Proof.
  intros Hp Hb Hr Hc Hs. split.
  - cbn. rewrite Hp. rewrite Hs at 1. apply decodes_char; [done|constructor].
  - cbn. unfold utf16_text. cbn. by rewrite app_nil_r.
  - unfold room, pending in *. cbn. rewrite length_app, length_drop. pose proof (length_utf16 c). pose proof (f_equal length Hs) as Hl. rewrite length_app in Hl. lia.
  - cbn. rewrite Hp. by apply bytes_ok_drop.
  - unfold pending. cbn. rewrite length_app, length_drop. pose proof (length_utf16 c). pose proof (f_equal length Hs) as Hl. rewrite length_app in Hl. lia.
Qed.

Lemma loop_result_error capacity later s b rest err : d_partial s = [] -> bytes_ok (d_source s) -> room capacity s ->
  d_source s = b :: rest -> undecodable (d_source s ++ later) ->
  loop_result capacity later s (mkDecoding (d_partial s) rest (d_destination s ++ [replacementCharacter]) err) [replacementCharacter] true.
Proof.
  intros Hp Hb Hr Hs Hu. split.
  - cbn. rewrite Hp. rewrite Hs in *. eapply decodes_error; [done|constructor].
  - done.
  - unfold room, pending in *. cbn. rewrite length_app, Hs in *. cbn in *. lia.
  - cbn. rewrite Hp. rewrite Hs in Hb. by apply Forall_cons in Hb as [_ ?].
  - unfold pending. cbn. rewrite length_app, Hs. cbn. lia.
Qed.

(** The end of the text that a loop keeps. *)
Definition kept (s : Decoding) : Prop := d_source s = [] /\ (d_partial s = [] \/ incomplete (d_partial s)).

(** The cases of the first byte that is not ASCII. *)
Lemma sequence_cases s b rest : d_source s = b :: rest -> 128 <= b < 256 ->
  exists count, nonASCIISequenceLength b = Some count /\ starts (d_source s) count /\
    ((negb (count =? 0) && (size_source s <? count) = true /\ incomplete (d_source s)) \/
     (negb (count =? 0) && (size_source s <? count) = false /\ exists r,
        (if count =? 0 then Some None else decodeNonASCIISequence (d_source s) count) = Some r /\
        match r with
        | None => rejected (d_source s)
        | Some c => scalar c /\ d_source s = utf8 c ++ drop (length (utf8 c)) (d_source s) /\ N.to_nat count = length (utf8 c)
        end)).
Proof.
  intros Hs Hb. pose proof (sequence_length_spec b ltac:(lia)) as Hl. destruct (nonASCIISequenceLength b) as [count|] eqn:Hcount; [|done].
  exists count. assert (starts (d_source s) count) as Hstarts by (by exists b, rest). split; [done|]. split; [done|].
  unfold size_source. destruct (count =? 0) eqn:E0; breflect; cbn [negb andb].
  - right. split; [done|]. exists None. split; [done|]. exists count. auto.
  - destruct (_ <? count) eqn:E1; breflect; [left; split; [done|]; exists count; split_and!; [done..|lia]|right]. split; [done|].
    destruct (decodeNonASCIISequence (d_source s) count) as [[c|]|] eqn:Ed.
    + exists (Some c). split; [done|]. destruct (decode_sequence_sound _ _ _ Hstarts E0 ltac:(lia) Ed) as (Hc & Hsrc & Hlen & _).
      split_and!; [done|by rewrite Hlen|done].
    + exists None. split; [done|]. exists count. auto.
    + exfalso. destruct (starts_spec _ _ Hstarts) as (b' & r' & Heq & Hcases). rewrite Heq in Ed, E1. cbn [length] in E1.
      destruct Hcases as [[_ ->]|[[_ ->]|[[_ ->]|[_ ->]]]]; [..|done]; repeat (destruct r' as [|? r']; [cbn [length] in E1; lia|]; cbn [length] in E1).
      * by rewrite decode_two in Ed.
      * by rewrite decode_three in Ed.
      * by rewrite decode_four in Ed.
Qed.

(** The branch of an ASCII character, in a loop that goes on with [next] and ends with [finish]. *)
Lemma ascii_branch {B} capacity end_ (next finish : Decoding -> option B) s b rest :
  d_source s = b :: rest -> b < 128 -> bytes_ok (d_source s) -> size_source s <= end_ -> room capacity s ->
  exists n, (1 <= n)%nat /\ Forall (fun b => b < 128) (take n (d_source s)) /\
    ((s ← (if isAlignedToMachineWord (end_ - size_source s) then copy_words capacity end_ (length (d_source s)) s else Some s);
      match d_source s with
      | [] => finish s
      | c :: source => if isASCII c then s ← write capacity [c] s; next (with_source source s) else next s
      end) = next (copied n s) \/
     (s ← (if isAlignedToMachineWord (end_ - size_source s) then copy_words capacity end_ (length (d_source s)) s else Some s);
      match d_source s with
      | [] => finish s
      | c :: source => if isASCII c then s ← write capacity [c] s; next (with_source source s) else next s
      end) = finish (copied n s) /\ d_source (copied n s) = []).
Proof.
  intros Hs Hb Hok Hend Hroom. destruct (ascii_run capacity end_ s b rest Hs Hb Hok Hend Hroom) as (n & -> & Hn & _). run_option.
  pose proof (room_copied _ n _ Hroom) as Hr. destruct (d_source (copied n s)) as [|c source] eqn:Hc.
  - exists n. split_and!; [|done|by right]. destruct n as [|n]; [|lia]. cbn in Hc. by rewrite Hs in Hc.
  - rewrite isASCII_ltb. destruct (c <? 128) eqn:Ec; breflect.
    + assert (take (S n) (d_source s) = take n (d_source s) ++ [c] /\ drop (S n) (d_source s) = source) as [Htake Hdrop].
      { cbn in Hc. assert (d_source s !! n = Some c) as Hl by (rewrite <- (Nat.add_0_r n), <- lookup_drop, Hc; done).
        split; [by apply take_S_r|]. rewrite (drop_S _ _ _ Hl) in Hc. by injection Hc. }
      exists (S n). split_and!; [lia| |left].
      * rewrite Htake. apply Forall_app. split; [done|by repeat constructor].
      * unfold room, pending in Hr. rewrite Hc in Hr. cbn [length] in Hr.
        rewrite write_Some by (cbn [length]; lia). run_option. f_equal. unfold copied, with_source. cbn. by rewrite Htake, Hdrop, app_assoc.
    + exists n. split_and!; [|done|by left]. destruct n as [|n]; [|lia]. cbn in Hc. rewrite Hs in Hc. injection Hc as -> _. lia.
Qed.
Section Loops.
Context (capacity end_ : N) (later : list N).

(** What the loops are for: the text is decoded, and what is left is kept. *)
Definition decodes_to (result : option Decoding) (s : Decoding) : Prop :=
  exists s' out e, result = Some s' /\ loop_result capacity later s s' out e /\ kept s' /\ d_sawError s' = d_sawError s || e.

Lemma decodes_to_trans result s s1 out e : d_partial s1 = [] -> loop_result capacity later s s1 out e -> d_sawError s1 = d_sawError s || e ->
  decodes_to result s1 -> decodes_to result s.
Proof.
  intros Hp H1 He (s' & out' & e' & -> & H2 & Hk & He'). exists s', (out ++ out'), (e || e').
  split_and!; [done|by eapply loop_result_trans|done|]. by rewrite He', He, orb_assoc.
Qed.

Lemma decodes_to_end s : d_partial s = [] -> bytes_ok (d_source s) -> room capacity s -> d_source s = [] -> decodes_to (Some s) s.
Proof.
  intros Hp Hb Hr Hs. exists s, [], false. rewrite orb_false_r. split_and!; [done|by apply loop_result_nil|split; [done|by left]|done].
Qed.

Lemma loop_result_keep s : d_partial s = [] -> bytes_ok (d_source s) -> room capacity s ->
  loop_result capacity later s (with_source [] (with_partial (d_source s) s)) [] false.
Proof.
  intros Hp Hb Hr. split; cbn.
  - rewrite app_nil_r. constructor.
  - unfold utf16_text. cbn. by rewrite app_nil_r.
  - unfold room, pending in *. cbn. rewrite Hp in Hr. cbn in Hr. lia.
  - by rewrite app_nil_r.
  - unfold pending. cbn. lia.
Qed.

Lemma decodes_to_keep s : d_partial s = [] -> bytes_ok (d_source s) -> room capacity s -> incomplete (d_source s) ->
  decodes_to (Some (with_source [] (with_partial (d_source s) s))) s.
Proof.
  intros Hp Hb Hr Hi. eexists _, [], false. rewrite orb_false_r. split_and!; [done|by apply loop_result_keep|split; [done|by right]|done].
Qed.

Lemma first_byte s b rest : bytes_ok (d_source s) -> d_source s = b :: rest -> b < 256.
Proof. intros Hb Hs. rewrite Hs in Hb. by apply Forall_cons in Hb as [? _]. Qed.

Lemma shorter s n : (1 <= n)%nat -> d_source s <> [] -> size_source s <= end_ ->
  size_source (copied n s) <= end_ /\ (length (d_source (copied n s)) < length (d_source s))%nat.
Proof. intros Hn Hs He. unfold size_source in *. cbn. rewrite length_drop. destruct (d_source s); [done|cbn [length] in *]. lia. Qed.

Lemma decode_source16_spec fuel s :
  d_partial s = [] -> bytes_ok (d_source s) -> size_source s <= end_ -> (length (d_source s) <= fuel)%nat -> room capacity s ->
  decodes_to (decode_source16 capacity end_ false fuel s) s.
Proof.
  revert s. induction fuel as [|fuel IH]; intros s Hp Hb Hend Hfuel Hroom; cbn [decode_source16];
    (destruct (d_source s) as [|b rest] eqn:Hs; [apply decodes_to_end; [done|by rewrite Hs|done..]|]); [cbn in Hfuel; lia|].
  rewrite <- Hs in *. rewrite isASCII_ltb. destruct (b <? 128) eqn:Eb; breflect.
  - destruct (ascii_branch capacity end_ (decode_source16 capacity end_ false fuel) Some s b rest) as (n & Hn & Ha & Hcase); [done..|].
    destruct (shorter s n Hn ltac:(by rewrite Hs) Hend) as [He Hl].
    apply (decodes_to_trans _ s (copied n s) (take n (d_source s)) false); [done|by apply loop_result_copied|by rewrite orb_false_r|].
    destruct Hcase as [->|[-> Hnil]].
    + apply IH; [done|by apply bytes_ok_drop|done|lia|by apply room_copied].
    + apply decodes_to_end; [done|by apply bytes_ok_drop|by apply room_copied|done].
  - destruct (sequence_cases s b rest Hs) as (count & -> & Hst & Hcase); [split; [done|by eapply first_byte]|]. run_option.
    destruct Hcase as [[-> Hi]|(-> & [c|] & -> & Hr)]; run_option; [by apply decodes_to_keep| |].
    + destruct Hr as (Hc & Hsrc & Hcount). rewrite Hcount.
      pose proof (loop_result_char capacity later s c Hp Hb Hroom Hc Hsrc) as Hres. pose proof (lr_room _ _ _ _ _ _ Hres) as Hr2.
      rewrite appendCharacter_Some; [|done|unfold room in Hr2; cbn in Hr2 |- *; rewrite length_app in Hr2; lia]. run_option.
      change (mkDecoding _ _ _ _) with (decoded c (length (utf8 c)) s).
      apply (decodes_to_trans _ s (decoded c (length (utf8 c)) s) [c] false); [done|done|by rewrite orb_false_r|]. pose proof (length_utf8 c).
      apply IH; [done|by apply bytes_ok_drop|..|done]; unfold size_source in *; cbn; rewrite length_drop; lia.
    + pose proof (loop_result_error capacity later s b rest true Hp Hb Hroom Hs (rejected_undecodable _ later Hr)) as Hres.
      rewrite write_Some by (unfold room, pending in Hroom; rewrite Hs in Hroom; cbn [length saw_error d_destination] in *; lia). run_option.
      eapply (decodes_to_trans _ s _ _ true); [|exact Hres|by rewrite orb_true_r|]; [exact Hp|].
      rewrite Hs in Hb, Hfuel. apply Forall_cons in Hb as [_ Hb]. unfold size_source in Hend. rewrite Hs in Hend. cbn [length] in *.
      apply IH; [done|done|unfold size_source; cbn; lia|cbn; lia|apply Hres].
Qed.

(** The loop on 8-bit characters, up to the character that it jumps at. *)
Definition stops_8bit (result : option (Decoding * bool)) (s : Decoding) : Prop :=
  exists s' up out, result = Some (s', up) /\ loop_result capacity later s s' out false /\ Forall (fun c => c < 256) out /\
    if (up : bool) then d_partial s' = [] /\ (d_sawError s' = d_sawError s \/ d_sawError s' = true /\ rejected (d_source s'))
    else kept s' /\ d_sawError s' = d_sawError s.

Lemma stops_8bit_trans result s s1 out : d_partial s1 = [] -> loop_result capacity later s s1 out false -> Forall (fun c => c < 256) out ->
  d_sawError s1 = d_sawError s -> stops_8bit result s1 -> stops_8bit result s.
Proof.
  intros Hp H1 Ho He (s' & up & out' & -> & H2 & Ho' & Hrest). exists s', up, (out ++ out').
  split_and!; [done|by apply (loop_result_trans _ _ _ s1 _ _ false _ false)|by apply Forall_app|]. by rewrite <- He.
Qed.

Lemma stops_8bit_end s : d_partial s = [] -> bytes_ok (d_source s) -> room capacity s -> d_source s = [] -> stops_8bit (Some (s, false)) s.
Proof. intros Hp Hb Hr Hs. exists s, false, []. split_and!; [done|by apply loop_result_nil|constructor|split; [done|by left]|done]. Qed.

Lemma decode_source8_spec fuel s :
  d_partial s = [] -> bytes_ok (d_source s) -> size_source s <= end_ -> (length (d_source s) <= fuel)%nat -> room capacity s ->
  stops_8bit (decode_source8 capacity end_ false fuel s) s.
Proof.
  revert s. induction fuel as [|fuel IH]; intros s Hp Hb Hend Hfuel Hroom; cbn [decode_source8];
    (destruct (d_source s) as [|b rest] eqn:Hs; [apply stops_8bit_end; [done|by rewrite Hs|done..]|]); [cbn in Hfuel; lia|].
  rewrite <- Hs in *. rewrite isASCII_ltb. destruct (b <? 128) eqn:Eb; breflect.
  - destruct (ascii_branch capacity end_ (decode_source8 capacity end_ false fuel) (fun s => Some (s, false)) s b rest) as (n & Hn & Ha & Hcase); [done..|].
    destruct (shorter s n Hn ltac:(by rewrite Hs) Hend) as [He Hl].
    apply (stops_8bit_trans _ s (copied n s) (take n (d_source s))); [done|by apply loop_result_copied|eapply Forall_impl; [exact Ha|intros x Hx; cbn in *; lia]|done|].
    destruct Hcase as [->|[-> Hnil]].
    + apply IH; [done|by apply bytes_ok_drop|done|lia|by apply room_copied].
    + apply stops_8bit_end; [done|by apply bytes_ok_drop|by apply room_copied|done].
  - destruct (sequence_cases s b rest Hs) as (count & -> & Hst & Hcase); [split; [done|by eapply first_byte]|]. run_option.
    pose proof (loop_result_nil capacity later s Hp Hb Hroom) as Hnil.
    destruct Hcase as [[-> Hi]|(-> & [c|] & -> & Hr)]; run_option.
    + eexists _, false, []. split_and!; [done|by apply loop_result_keep|constructor|split; [done|by right]|done].
    + destruct Hr as (Hc & Hsrc & Hcount). destruct (0xFF <? c) eqn:Ec; breflect.
      { exists s, true, []. split_and!; [done..|constructor|done|by left]. }
      rewrite Hcount. pose proof (loop_result_char capacity later s c Hp Hb Hroom Hc Hsrc) as Hres. pose proof (lr_room _ _ _ _ _ _ Hres) as Hr2.
      assert (utf16 c = [c]) as Hu by (unfold utf16; by rewrite (proj2 (N.ltb_lt c 0x10000)) by lia).
      rewrite write_Some by (unfold room in Hr2; cbn in Hr2 |- *; rewrite Hu, length_app in Hr2; cbn in Hr2; lia). run_option.
      rewrite <- Hu at 1. change (mkDecoding _ _ _ _) with (decoded c (length (utf8 c)) s).
      apply (stops_8bit_trans _ s (decoded c (length (utf8 c)) s) [c]); [done|done|by constructor; [lia|]|done|]. pose proof (length_utf8 c).
      apply IH; [done|by apply bytes_ok_drop|..|done]; unfold size_source in *; cbn; rewrite length_drop; lia.
    + exists (saw_error s), true, []. split_and!; [done| |constructor|done|by right].
      by destruct Hnil.
Qed.
End Loops.
