(* ===== verification/UTF8RoundTrip.v ===== *)
(** * [TextCodecUTF8] is correct

    Decoding at once is what the specification says, and a text without errors can
    be decoded in pieces: what a call keeps is the start of the next character.
    Encoding well-formed UTF-16 is the specification, and is undone by decoding;
    decoding a text with errors in pieces can lose characters. *)

From S2P Require Import Prelude ASCII WTFString TextCodecUTF8 UTF8Spec UTF8Decode.
From Stdlib Require Import ZifyN.

(** ** The partial sequence, at the end of the text *)

Section Flush.
Context (capacity end_ : N).

(** Decoding the bytes that are left, with nothing behind them. *)
Definition flushed (result : option Decoding) (bytes : list N) (s : Decoding) : Prop :=
  exists s' out e, result = Some s' /\ d_partial s' = [] /\ d_source s' = [] /\ decodes [] bytes out e [] /\
    d_destination s' = d_destination s ++ utf16_text out /\ d_sawError s' = d_sawError s || e.

Lemma flushed_done s bytes : d_partial s = [] -> d_source s = [] -> bytes = [] -> flushed (Some s) bytes s.
Proof.
  intros Hp Hs ->. exists s, [], false. rewrite orb_false_r. split_and!; [done..|constructor| |done]. unfold utf16_text. cbn. by rewrite app_nil_r.
Qed.

(** The state after the first byte of the partial sequence was replaced by a character. *)
Definition replaced (c : N) (err : bool) (rest : list N) (s : Decoding) : Decoding :=
  mkDecoding rest (d_source s) (d_destination s ++ [c]) err.

Lemma flushed_ascii result s b rest : b < 128 -> flushed result rest (replaced b (d_sawError s) rest s) -> flushed result (b :: rest) s.
Proof.
  intros Hb (s' & out & e & -> & Hp & Hs & Hd & Ho & He). exists s', (b :: out), e. destruct (ascii_scalar b Hb) as (Hc & Hu & Hu16).
  split_and!; [done..| | |done].
  - change (b :: rest) with ([b] ++ rest). rewrite <- Hu. by apply decodes_char.
  - rewrite Ho. unfold utf16_text. cbn [mbind list_bind replaced d_destination]. by rewrite Hu16, <- app_assoc.
Qed.

Lemma flushed_error result s b rest : undecodable (b :: rest) -> flushed result rest (replaced replacementCharacter true rest s) -> flushed result (b :: rest) s.
Proof.
  intros Hu (s' & out & e & -> & Hp & Hs & Hd & Ho & He). exists s', (replacementCharacter :: out), true. split_and!; [done..| | |].
  - eapply decodes_error; [by rewrite app_nil_r|done].
  - rewrite Ho. unfold utf16_text. cbn [mbind list_bind replaced d_destination]. by rewrite <- app_assoc.
  - rewrite orb_true_r. by rewrite He.
Qed.

Lemma room_replaced c err b rest s : d_partial s = b :: rest -> room capacity s -> room capacity (replaced c err rest s).
Proof. intros Hp Hr. unfold room, pending, replaced in *. rewrite Hp in Hr. cbn in *. rewrite length_app. cbn. lia. Qed.

Lemma write_replaced c err b rest s : d_partial s = b :: rest -> room capacity s ->
  (s ← write capacity [c] (mkDecoding (d_partial s) (d_source s) (d_destination s) err); consumePartialSequenceByte s) = Some (replaced c err rest s).
Proof.
  intros Hp Hr. unfold room, pending in Hr. rewrite Hp in *. cbn [length] in Hr. rewrite write_Some by (cbn [d_destination length]; lia).
  run_option. unfold consumePartialSequenceByte, with_partial, replaced. done.
Qed.

Lemma handleError_Some b rest s : d_partial s = b :: rest -> room capacity s ->
  handleError capacity false s = Some (replaced replacementCharacter true rest s).
Proof. apply (write_replaced _ true). Qed.

(** The partial sequences that no call leaves bytes of, as [shrink_partial] would do. *)
Definition at_end (partial : list N) : Prop := (length partial <= 2)%nat \/ incomplete partial.

Lemma incomplete_length partial : incomplete partial -> (length partial <= 3)%nat.
Proof.
  intros (count & Hs & Hpos & Hlen). destruct (starts_spec _ _ Hs) as (b & rest & _ & Hc).
  destruct Hc as [[_ ->]|[[_ ->]|[[_ ->]|[_ ->]]]]; [..|done]; lia.
Qed.

Lemma at_end_tail b rest : at_end (b :: rest) -> at_end rest.
Proof. intros [H|H%incomplete_length]; left; cbn in H; lia. Qed.

Lemma handlePartialSequence16_flush fuel s :
  d_source s = [] -> d_partial s <> [] -> bytes_ok (d_partial s) -> at_end (d_partial s) -> room capacity s -> (length (d_partial s) <= fuel)%nat ->
  flushed (handlePartialSequence16 capacity true false fuel s) (d_partial s) s.
Proof.
  revert s. induction fuel as [|fuel IH]; intros s Hs Hne Hb Hend Hroom Hfuel; [destruct (d_partial s); [done|cbn in Hfuel; lia]|].
  destruct (d_partial s) as [|b rest] eqn:Hp; [done|]. cbn [handlePartialSequence16]. rewrite Hp. change ((b :: rest) !!N 0) with (Some b). run_option.
  assert (forall c err, flushed (match d_partial (replaced c err rest s) with [] => Some (replaced c err rest s)
      | _ => handlePartialSequence16 capacity true false fuel (replaced c err rest s) end) rest (replaced c err rest s)) as Hnext.
  { intros c err. pose proof (room_replaced c err b rest s Hp Hroom) as Hr. cbn [replaced d_partial].
    destruct rest as [|b' rest']; [by apply flushed_done|]. apply Forall_cons in Hb as [_ Hb].
    apply (IH (replaced c err (b' :: rest') s)); [done..|by eapply at_end_tail|done|cbn in Hfuel |- *; lia]. }
  pose proof (Forall_inv Hb) as Hb0. cbn in Hb0. rewrite isASCII_ltb. destruct (b <? 128) eqn:Eb; breflect.
  - apply flushed_ascii; [done|]. pose proof (write_replaced b (d_sawError s) b rest s Hp Hroom) as Hw.
    replace (mkDecoding (d_partial s) (d_source s) (d_destination s) (d_sawError s)) with s in Hw by (by destruct s).
    destruct (write capacity [b] s) as [s1|]; [|done]. cbn [mbind option_bind] in *. rewrite Hw. apply Hnext.
  - assert (starts (b :: rest) (default 0 (nonASCIISequenceLength b)) /\ is_Some (nonASCIISequenceLength b)) as [Hst [count Hcount]].
    { rewrite sequence_length_spec by done. split; [|by eexists]. exists b, rest. by rewrite sequence_length_spec. }
    rewrite Hcount in *. change (default 0 (Some count)) with count in Hst. run_option.
    rewrite (handleError_Some b rest s Hp Hroom). run_option. unfold size_partial, size_source. rewrite Hp, Hs.
    destruct (count =? 0) eqn:E0; breflect.
    { apply flushed_error; [|apply Hnext]. rewrite <- (app_nil_r (b :: rest)). apply rejected_undecodable. exists count. auto. }
    destruct (N.of_nat (length (b :: rest)) <? count) eqn:E1; breflect.
    { rewrite (proj2 (N.ltb_lt (N.of_nat (length (@nil N))) (count - N.of_nat (length (b :: rest))))) by (cbn [length] in *; lia). cbn [negb]. apply flushed_error; [|apply Hnext].
      apply incomplete_undecodable. exists count. split_and!; [done..|lia]. }
    assert (count = 2 /\ exists b1, rest = [b1]) as [-> [b1 ->]].
    { destruct (starts_spec _ _ Hst) as (b' & r' & _ & Hcases). destruct Hend as [Hlen|(count' & Hst' & _ & Hlen)];
        [|pose proof (starts_unique _ _ _ Hst Hst'); lia]. cbn [length] in *. assert (count = 2) as -> by lia. split; [done|].
      destruct rest as [|b1 [|]]; cbn in *; [lia|by exists b1|lia]. }
    destruct (decodeNonASCIISequence [b; b1] 2) as [[c|]|] eqn:Ed; [..|by rewrite decode_two in Ed]; run_option.
    + destruct (decode_sequence_sound [b; b1] 2 c Hst) as (Hc & Hsrc & Hlen & _); [done..|]. cbn [drop N.to_nat Pos.to_nat Pos.iter_op Nat.add] in Hsrc.
      pose proof (length_utf16 c). unfold room, pending in Hroom. rewrite Hp in Hroom. cbn [length] in Hroom. rewrite Hlen in *.
      rewrite appendCharacter_Some; [|done|cbn [shrink_partial with_partial d_destination]; lia]. run_option. cbn. rewrite Hp. cbn.
      eexists _, [c], false. split_and!; [done..| | |by rewrite orb_false_r].
      * rewrite Hsrc. apply decodes_char; [done|constructor].
      * unfold utf16_text. cbn. by rewrite app_nil_r.
    + apply flushed_error; [|apply Hnext]. rewrite <- (app_nil_r [b; b1]). apply rejected_undecodable. exists 2. auto.
Qed.
End Flush.

(** ** Decoding at once *)

Lemma rejected_not_kept source : rejected source -> source <> [] /\ ~ incomplete source.
Proof.
  intros (count & Hs & Hbad). split; [by destruct Hs as (b & rest & -> & _)|]. intros (count' & Hs' & Hpos & Hlen).
  rewrite <- (starts_unique _ _ _ Hs Hs') in *. destruct Hbad as [->|Hbad]; [done|].
  destruct (starts_spec _ _ Hs) as (b & rest & -> & Hcases). destruct rest as [|b1 [|b2 [|b3 rest]]], Hcases as [[_ ->]|[[_ ->]|[[_ ->]|[_ ->]]]];
    try done; cbn in Hlen; lia.
Qed.

Lemma decodes_rejected later source out e rest : rejected source -> (rest = [] \/ incomplete rest) -> decodes later source out e rest -> e = true.
Proof.
  intros Hr Hk Hd. destruct (rejected_not_kept _ Hr) as [Hne Hi]. destruct Hd as [rest|c bytes out e rest Hc Hd|]; [naive_solver| |done].
  exfalso. by apply (rejected_undecodable _ [] Hr c bytes Hc), app_nil_r.
Qed.

Lemma handlePartialSequence8_flush capacity fuel s : d_source s = [] -> incomplete (d_partial s) ->
  handlePartialSequence8 capacity true fuel s = Some (s, true).
Proof.
  intros Hs (count & (b & rest & Hp & Hb & Hcount) & Hpos & Hlen). destruct fuel; cbn [handlePartialSequence8]; unfold size_partial, size_source;
    rewrite Hp, Hs in *; change ((b :: rest) !!N 0) with (Some b); run_option; rewrite isASCII_ltb, (proj2 (N.ltb_ge b 128)), Hcount by lia; run_option;
    rewrite (proj2 (N.eqb_neq count 0)) by done; rewrite (proj2 (N.ltb_lt (N.of_nat (length (b :: rest))) count)) by lia;
    by rewrite (proj2 (N.ltb_lt (N.of_nat (length (@nil N))) _)) by (cbn [length] in *; lia).
Qed.

Section AtOnce.
Context (capacity end_ : N).

Lemma decode16_partial fuel s : d_source s = [] -> d_partial s <> [] -> bytes_ok (d_partial s) -> incomplete (d_partial s) -> room capacity s ->
  flushed (decode16 capacity end_ true false fuel s) (d_partial s) s.
Proof.
  intros Hs Hp Hb Hi Hr. destruct (handlePartialSequence16_flush capacity (pending s) s) as (s' & out & e & Hh & Hp' & Hs' & Hd & Ho & He);
    [done..|by right|done|unfold pending; lia|].
  exists s', out, e. split_and!; [|done..]. destruct fuel; cbn [decode16]; (destruct (d_partial s) eqn:Ep; [done|]); rewrite Hh; run_option;
    rewrite Hp', Hs'; cbn [length decode_source16]; rewrite Hs'; run_option; by rewrite Hp'.
Qed.

Lemma decode16_source fuel s : d_partial s = [] -> bytes_ok (d_source s) -> size_source s <= end_ -> room capacity s ->
  flushed (decode16 capacity end_ true false (S fuel) s) (d_source s) s.
Proof.
  intros Hp Hb Hend Hr. cbn [decode16]. rewrite Hp. run_option. rewrite Hp.
  destruct (decode_source16_spec capacity end_ [] (length (d_source s)) s) as (s1 & out & e & -> & [D O R B _] & [Hs1 Hk] & He); [done..|]. run_option.
  destruct (d_partial s1) as [|b rest] eqn:Ep; [|destruct Hk as [|Hk]; [done|]].
  - rewrite Hs1 in D. by exists s1, out, e.
  - rewrite <- Ep in *. rewrite Hs1, app_nil_r in *. destruct (decode16_partial fuel s1) as (s2 & out2 & e2 & -> & Hp2 & Hs2 & D2 & O2 & He2); [done|by rewrite Ep|done..|].
    exists s2, (out ++ out2), (e || e2). split_and!; [done..|by eapply decodes_app|by rewrite O2, O, utf16_text_app, app_assoc|by rewrite He2, He, orb_assoc].
Qed.
End AtOnce.

Lemma adopt_chars t chars : String_chars (adopt t chars) = chars.
Proof. by destruct chars. Qed.

Lemma utf16_latin1 out : Forall (fun c => c < 256) out -> utf16_text out = out.
Proof.
  induction 1 as [|c out Hc _ IH]; [done|]. unfold utf16_text, utf16 in *. cbn [mbind list_bind]. rewrite (proj2 (N.ltb_lt c 0x10000)) by lia. by rewrite IH.
Qed.

(** The longest input that the length of a buffer can be the one of. *)
Definition codec_limit : N := 4294967290.

(** The 8-bit part of [decode] ends where its loop does, and goes on in 16 bits when bytes are left. *)
Lemma decode8_flush capacity end_ fuel s s1 up :
  d_partial s = [] -> decode_source8 capacity end_ false (length (d_source s)) s = Some (s1, up) -> (up = false -> kept s1) ->
  decode8 capacity end_ true false (S fuel) s = Some (s1, up || match d_partial s1 with [] => false | _ => true end).
Proof.
  intros Hp Hd Hk. cbn [decode8]. rewrite Hp. run_option. rewrite Hp, Hd. run_option. destruct up; [done|].
  destruct (Hk eq_refl) as [Hs1 Hi]. destruct (d_partial s1) as [|b p] eqn:Ep; [done|]. destruct Hi as [|Hi]; [done|]. rewrite <- Ep in *.
  destruct fuel; cbn [decode8]; rewrite (handlePartialSequence8_flush capacity (pending s1) s1 Hs1 Hi); rewrite Ep; run_option;
    destruct s1; cbn in *; by subst.
Qed.

Lemma decode_at_once bytes end_ err :
  bytes_ok bytes -> N.of_nat (length bytes) <= codec_limit -> N.of_nat (length bytes) <= end_ ->
  exists t cs e, decode [] bytes end_ true false err = Some ([], adopt t (utf16_text cs), err || e) /\
    decodes [] bytes cs e [] /\ (t = LChar -> Forall (fun c => c < 256) cs).
Proof.
  intros Hb Hlimit Hend. unfold decode. set (s0 := mkDecoding [] bytes [] err). set (n := N.of_nat (length bytes)) in *.
  assert (forall p : list N, (length p <= 3)%nat -> wrap32 (N.of_nat (length p + length bytes)) = N.of_nat (length p) + n) as Hcap
    by (intros p Hp; unfold codec_limit, n in *; rewrite wrap32_id; lia).
  rewrite Hcap by (cbn; lia). change (N.of_nat (length (@nil N)) + n) with n.
  destruct (decode_source8_spec n end_ [] (length bytes) s0) as (s1 & up & out1 & Hd8 & [D1 O1 R1 B1 _] & Ho1 & Hup);
    [done|done|done|done|unfold room, pending; cbn; lia|].
  rewrite (decode8_flush n end_ 1 s0 s1 up eq_refl Hd8) by (intros ->; apply Hup). run_option.
  cbn [d_source s0 d_destination] in D1, O1. cbn [app] in O1.
  rewrite (utf16_latin1 _ Ho1) in O1. destruct up.
  - destruct Hup as [Hp1 Hsaw]. cbn [negb orb]. rewrite Hp1 in D1, B1 |- *. rewrite Hcap by (cbn; lia). change (N.of_nat (length (@nil N)) + n) with n.
    rewrite (proj2 (N.ltb_ge n _)) by (unfold room in R1; lia). cbn [app] in D1, B1.
    destruct (decode16_source n end_ 1 s1) as (s2 & out2 & e2 & -> & Hp2 & Hs2 & D2 & O2 & He2); [done..| |done|].
    { unfold size_source, room, pending in *. lia. }
    run_option. exists UChar, (out1 ++ out2), e2. rewrite Hp2, O2, O1, utf16_text_app, (utf16_latin1 _ Ho1), He2.
    split_and!; [|exact (decodes_app _ _ _ false _ _ _ _ D1 D2)|done]. do 2 f_equal.
    destruct Hsaw as [->|[-> Hrej]]; [done|]. rewrite (decodes_rejected _ _ _ _ _ Hrej (or_introl eq_refl) D2). by destruct err.
  - destruct Hup as [[Hs1 Hk] Hsaw]. rewrite Hs1, app_nil_r in *. destruct (d_partial s1) as [|b p] eqn:Ep; [|destruct Hk as [|Hk]; [done|]].
    + cbn [negb orb]. rewrite ?Ep. exists LChar, out1, false. rewrite Hsaw, O1, (utf16_latin1 _ Ho1), orb_false_r. done.
    + cbn [negb orb]. rewrite <- Ep in *.
      pose proof (incomplete_length _ Hk) as Hl3. rewrite Hcap by done. rewrite (proj2 (N.ltb_ge _ _)) by (unfold room in R1; lia).
      destruct (decode16_partial (N.of_nat (length (d_partial s1)) + n) end_ 2 s1) as (s2 & out2 & e2 & -> & Hp2 & Hs2 & D2 & O2 & He2);
        [done|by rewrite Ep|done|done|unfold room in *; lia|].
      run_option. exists UChar, (out1 ++ out2), e2. rewrite Hp2, O2, O1, utf16_text_app, (utf16_latin1 _ Ho1), He2, Hsaw.
      split_and!; [done|exact (decodes_app _ _ _ false _ _ _ _ D1 D2)|done].
Qed.

(** ** Decoding in pieces *)

(** The bytes that are kept are the start of the next character. *)
Lemma split_partial p chunk later cs : incomplete p -> Forall scalar cs -> p ++ chunk ++ later = utf8_text cs ->
  exists c cs' count q, cs = c :: cs' /\ starts p count /\ count <> 0 /\ scalar c /\ utf8 c = p ++ q /\ N.to_nat count = length (utf8 c) /\
    chunk ++ later = q ++ utf8_text cs' /\ decodeNonASCIISequence (utf8 c) count = Some (Some c) /\ q <> [].
Proof.
  intros (count & Hst & Hpos & Hlen) Hcs Heq. destruct cs as [|c cs'].
  { destruct Hst as (b & rest & -> & _). done. }
  apply Forall_cons in Hcs as [Hc Hcs]. rewrite utf8_text_cons in Heq.
  pose proof (starts_app _ _ (chunk ++ later) Hst) as Hst'. pose proof (starts_not_ascii _ _ _ _ Hst' Heq) as Hge.
  destruct (decode_sequence_complete c [] Hc Hge) as (k & Hk & _ & Hlk & Hd). rewrite app_nil_r in *.
  assert (count = k) as <- by (rewrite Heq in Hst'; by eapply starts_unique, starts_app).
  destruct (app_eq_inv p (chunk ++ later) (utf8 c) (utf8_text cs') Heq) as [(q & Hp & Hrest)|(q & Hu & Hrest)].
  { apply (f_equal length) in Hp. rewrite length_app in Hp. lia. }
  exists c, cs', count, q. split_and!; try done. intros ->. rewrite app_nil_r in Hu. rewrite Hu in Hlk. lia.
Qed.

Section Pieces.
Context (capacity end_ : N).

Lemma decode8_source fuel s s1 up : d_partial s = [] -> decode_source8 capacity end_ false (length (d_source s)) s = Some (s1, up) ->
  decode8 capacity end_ false false fuel s = Some (s1, up).
Proof.
  intros Hp Hd. destruct fuel; cbn [decode8]; rewrite Hp; run_option; rewrite Hp, Hd; run_option; (destruct up; [done|]); by destruct (d_partial s1).
Qed.

Lemma decode16_run fuel s s1 : d_partial s = [] -> decode_source16 capacity end_ false (length (d_source s)) s = Some s1 ->
  decode16 capacity end_ false false fuel s = Some s1.
Proof.
  intros Hp Hd. destruct fuel; cbn [decode16]; rewrite Hp; run_option; rewrite Hp, Hd; run_option; by destruct (d_partial s1).
Qed.

Lemma decode8_after fuel s s1 : d_partial s <> [] -> handlePartialSequence8 capacity false (pending s) s = Some (s1, false) -> d_partial s1 = [] ->
  decode8 capacity end_ false false fuel s = decode8 capacity end_ false false fuel s1.
Proof.
  intros Hp Hh Hp1. destruct fuel; cbn [decode8]; (destruct (d_partial s) eqn:Ep; [done|]); rewrite Hh, Hp1; run_option; by rewrite Hp1.
Qed.

Lemma decode8_partial fuel s s1 up : d_partial s <> [] -> handlePartialSequence8 capacity false (pending s) s = Some (s1, up) -> d_partial s1 <> [] ->
  decode8 capacity end_ false false fuel s =
    Some (if (up : bool) then mkDecoding (d_partial s1) (d_source s1) (d_destination s) (d_sawError s1) else s1, up).
Proof.
  intros Hp Hh Hp1. destruct fuel; cbn [decode8]; (destruct (d_partial s) eqn:Ep; [done|]); rewrite Hh; run_option;
    (destruct up; [done|]); by destruct (d_partial s1).
Qed.

Lemma decode16_after fuel s s1 : d_partial s <> [] -> handlePartialSequence16 capacity false false (pending s) s = Some s1 -> d_partial s1 = [] ->
  decode16 capacity end_ false false fuel s = decode16 capacity end_ false false fuel s1.
Proof.
  intros Hp Hh Hp1. destruct fuel; cbn [decode16]; (destruct (d_partial s) eqn:Ep; [done|]); rewrite Hh, Hp1; run_option; by rewrite Hp1.
Qed.

Lemma take_bytes_Some n s : (length (d_partial s) + n <= 4)%nat ->
  take_bytes (N.of_nat n) s = Some (mkDecoding (d_partial s ++ take n (d_source s)) (drop n (d_source s)) (d_destination s) (d_sawError s)).
Proof.
  intros Hn. unfold take_bytes. rewrite Nat2N.id. pose proof (length_take (d_source s) n).
  by rewrite (proj2 (N.leb_le _ _)) by lia.
Qed.

Lemma shrink_all count s : (length (d_partial s) <= N.to_nat count)%nat -> shrink_partial count s = with_partial [] s.
Proof. intros Hl. unfold shrink_partial. by replace (length (d_partial s) - N.to_nat count)%nat with 0%nat by lia. Qed.

(** The sequence that was kept gets its other bytes, or more of them. *)
Lemma handlePartialSequence8_piece fuel p chunk dest err c q count :
  starts p count -> count <> 0 -> utf8 c = p ++ q -> N.to_nat count = length (utf8 c) -> q <> [] ->
  decodeNonASCIISequence (utf8 c) count = Some (Some c) -> N.of_nat (length dest + 1) <= capacity ->
  ((length q <= length chunk)%nat -> take (length q) chunk = q) ->
  handlePartialSequence8 capacity false fuel (mkDecoding p chunk dest err) =
    if (length chunk <? length q)%nat then Some (mkDecoding (p ++ chunk) [] dest err, false)
    else if 0xFF <? c then Some (mkDecoding (utf8 c) (drop (length q) chunk) dest err, true)
    else Some (mkDecoding [] (drop (length q) chunk) (dest ++ [c]) err, false).
Proof.
  intros Hst Hpos Hu Hlen Hq Hd Hroom Htake. pose proof Hst as (b & rest & -> & Hb & Hcount). pose proof (length_utf8 c) as H4.
  pose proof (f_equal length Hu) as Hl. rewrite length_app in Hl. assert (0 < length q)%nat as Hq0 by (destruct q; [by destruct Hq|cbn; lia]).
  destruct fuel; cbn [handlePartialSequence8]; unfold size_partial, size_source; cbn [d_partial d_source]; change ((b :: rest) !!N 0) with (Some b); run_option;
    rewrite isASCII_ltb, (proj2 (N.ltb_ge b 128)), Hcount by lia; run_option; rewrite (proj2 (N.eqb_neq count 0)) by done;
    rewrite (proj2 (N.ltb_lt (N.of_nat (length (b :: rest))) count)) by lia;
    replace (count - N.of_nat (length (b :: rest))) with (N.of_nat (length q)) by lia.
  all: destruct (length chunk <? length q)%nat eqn:E; breflect.
  all: try (rewrite (proj2 (N.ltb_lt _ _)) by lia; cbn [negb]; rewrite take_bytes_Some by (cbn [d_partial]; lia); cbn [d_source d_partial];
    by rewrite firstn_all, skipn_all).
  all: rewrite (proj2 (N.ltb_ge _ _)) by lia; rewrite take_bytes_Some by (cbn [d_partial]; lia); run_option; cbn [d_partial d_source d_destination d_sawError];
    rewrite Htake, <- Hu, Hd by done; run_option; destruct (255 <? c) eqn:Ec; breflect; [done|];
    rewrite shrink_all by (cbn [d_partial]; lia); rewrite write_Some by (cbn [with_partial d_destination length]; lia); done.
Qed.

Lemma handlePartialSequence16_piece fuel chunk dest err c count :
  starts (utf8 c) count -> count <> 0 -> N.to_nat count = length (utf8 c) -> scalar c ->
  decodeNonASCIISequence (utf8 c) count = Some (Some c) -> N.of_nat (length dest + length (utf16 c)) <= capacity ->
  handlePartialSequence16 capacity false false fuel (mkDecoding (utf8 c) chunk dest err) = Some (mkDecoding [] chunk (dest ++ utf16 c) err).
Proof.
  intros Hst Hpos Hlen Hc Hd Hroom. pose proof Hst as (b & rest & Hu & Hb & Hcount).
  destruct fuel; cbn [handlePartialSequence16]; unfold size_partial, size_source; cbn [d_partial d_source]; rewrite Hu;
    change ((b :: rest) !!N 0) with (Some b); run_option; rewrite isASCII_ltb, (proj2 (N.ltb_ge b 128)), Hcount by lia; run_option;
    rewrite (proj2 (N.eqb_neq count 0)) by done; rewrite <- Hu, (proj2 (N.ltb_ge (N.of_nat (length (utf8 c))) count)) by lia; rewrite Hd; run_option;
    rewrite shrink_all by (cbn [d_partial]; lia); rewrite appendCharacter_Some by (first [done|cbn [with_partial d_destination]; lia]); done.
Qed.
End Pieces.

(** A loop result on a text without errors. *)
Lemma loop_result_text capacity later s s' out e cs : d_partial s = [] -> loop_result capacity later s s' out e ->
  Forall scalar cs -> d_source s ++ later = utf8_text cs ->
  e = false /\ exists cs', cs = out ++ cs' /\ (d_partial s' ++ d_source s') ++ later = utf8_text cs' /\ Forall scalar cs'.
Proof.
  intros Hp Hr Hcs Heq. destruct (decodes_text _ _ _ _ _ _ (lr_decodes _ _ _ _ _ _ Hr) Hcs Heq) as (-> & cs' & -> & Hrest).
  split; [done|]. exists cs'. apply Forall_app in Hcs as [_ ?]. done.
Qed.

(** What a call does to the text: it decodes [cs1], and keeps the start of [cs2]. *)
Definition piece (later : list N) (s s' : Decoding) (cs : list N) : Prop :=
  exists cs1 cs2, cs = cs1 ++ cs2 /\ d_partial s' ++ later = utf8_text cs2 /\ d_destination s' = d_destination s ++ utf16_text cs1 /\
    d_sawError s' = d_sawError s /\ kept s'.

Lemma piece_source16 capacity end_ fuel later s cs :
  d_partial s = [] -> bytes_ok (d_source s) -> size_source s <= end_ -> room capacity s -> Forall scalar cs -> d_source s ++ later = utf8_text cs ->
  exists s', decode16 capacity end_ false false fuel s = Some s' /\ piece later s s' cs.
Proof.
  intros Hp Hb Hend Hr Hcs Heq. destruct (decode_source16_spec capacity end_ later (length (d_source s)) s) as (s' & out & e & Hd & Hres & [Hs' Hk] & He); [done..|].
  exists s'. split; [by apply decode16_run|]. destruct (loop_result_text _ _ _ _ _ _ cs Hp Hres Hcs Heq) as (-> & cs' & -> & Hrest & _).
  rewrite Hs', app_nil_r in Hrest. rewrite orb_false_r in He. exists out, cs'. split_and!; [done|done|apply Hres|done|done].
Qed.

Lemma piece_trans later s s1 s2 out cs : d_destination s1 = d_destination s ++ utf16_text out -> d_sawError s1 = d_sawError s ->
  piece later s1 s2 cs -> piece later s s2 (out ++ cs).
Proof.
  intros Ho He (cs1 & cs2 & -> & Hrest & Ho2 & He2 & Hk). exists (out ++ cs1), cs2.
  split_and!; [by rewrite app_assoc|done|by rewrite Ho2, Ho, utf16_text_app, app_assoc|by rewrite He2|done].
Qed.

(** The text at the source, with a buffer of [capacity] and one of [capacity16]. *)
Lemma piece_source capacity capacity16 end_ fuel later s cs :
  d_partial s = [] -> bytes_ok (d_source s) -> size_source s <= end_ -> room capacity s -> room capacity16 s -> Forall scalar cs ->
  d_source s ++ later = utf8_text cs ->
  exists s1 up s2, decode8 capacity end_ false false fuel s = Some (s1, up) /\
    (if (up : bool) then d_partial s1 = [] /\ room capacity16 s1 /\ decode16 capacity16 end_ false false fuel s1 = Some s2 else s1 = s2) /\ piece later s s2 cs.
Proof.
  intros Hp Hb Hend Hr Hr16 Hcs Heq. destruct (decode_source8_spec capacity end_ later (length (d_source s)) s) as (s1 & up & out & Hd & Hres & Ho & Hup); [done..|].
  pose proof (decode8_source capacity end_ fuel s s1 up Hp Hd) as Hd8. destruct (loop_result_text _ _ _ _ _ _ cs Hp Hres Hcs Heq) as (_ & cs' & -> & Hrest & Hcs').
  pose proof Hres as [_ O1 _ B1 P1]. destruct up.
  - destruct Hup as [Hp1 Hsaw]. rewrite Hp1 in *. cbn [app] in *.
    assert (room capacity16 s1) as Hr1 by (unfold room in *; lia). assert (size_source s1 <= end_) as He1.
    { pose proof (decodes_length _ _ _ _ _ (lr_decodes _ _ _ _ _ _ Hres)) as Hl. rewrite Hp1 in Hl. unfold size_source in *. cbn [app] in Hl. lia. }
    destruct (piece_source16 capacity16 end_ fuel later s1 cs') as (s2 & Hd2 & Hpiece); [done..|].
    exists s1, true, s2. split_and!; [done..|]. apply (piece_trans _ _ s1); [done| |done]. destruct Hsaw as [|[_ Hrej]]; [done|].
    exfalso. destruct cs' as [|c cs']; [cbn in Hrest; apply app_nil in Hrest as [Hn _]; rewrite Hn in Hrej; by destruct (rejected_not_kept _ Hrej)|].
    apply Forall_cons in Hcs' as [Hc _]. by apply (rejected_undecodable _ later Hrej c (utf8_text cs') Hc).
  - destruct Hup as [[Hs1 Hk] Hsaw]. rewrite Hs1, app_nil_r in Hrest. exists s1, false, s1. split_and!; [done..|].
    exists out, cs'. by split_and!.
Qed.

Lemma utf8_bytes c : scalar c -> bytes_ok (utf8 c).
Proof.
  intros Hc. unfold scalar, utf8 in *. assert (forall x, 0x80 + x mod 64 < 256) as Hm by (intros x; pose proof (N.mod_lt x 64 ltac:(done)); lia).
  repeat case_match; breflect; repeat constructor; try done; [lia|..].
  - pose proof (N.Div0.div_lt_upper_bound c 64 32). lia.
  - pose proof (N.Div0.div_lt_upper_bound c 4096 16). lia.
  - pose proof (N.Div0.div_lt_upper_bound c 262144 5). lia.
Qed.

Lemma utf8_text_bytes cs : Forall scalar cs -> bytes_ok (utf8_text cs).
Proof. induction 1 as [|c cs Hc _ IH]; [constructor|]. rewrite utf8_text_cons. apply Forall_app. split; [by apply utf8_bytes|done]. Qed.

Definition codec_ok (p : list N) : Prop := p = [] \/ incomplete p.

(** A call on a piece of a text without errors. *)
Definition decodes_piece (p chunk : list N) (end_ : N) (later cs : list N) (err : bool) : Prop :=
  exists p' t cs1 cs2, decode p chunk end_ false false err = Some (p', adopt t (utf16_text cs1), err) /\
    cs = cs1 ++ cs2 /\ p' ++ later = utf8_text cs2 /\ codec_ok p'.

Section Piece.
Context (chunk : list N) (end_ : N) (later : list N) (err : bool).
Context (Hbytes : bytes_ok chunk) (Hlimit : N.of_nat (length chunk) <= codec_limit) (Hend : N.of_nat (length chunk) <= end_).

Lemma piece_capacity (q : list N) : (length q <= 4)%nat -> wrap32 (N.of_nat (length q + length chunk)) = N.of_nat (length q + length chunk).
Proof. intros Hq. unfold codec_limit in Hlimit. apply wrap32_id. lia. Qed.

Lemma decode_piece_nothing_kept cs : Forall scalar cs -> chunk ++ later = utf8_text cs -> decodes_piece [] chunk end_ later cs err.
Proof.
  intros Hcs Heq. unfold decodes_piece, decode. rewrite piece_capacity by (cbn; lia). cbn [length Nat.add]. set (s0 := mkDecoding [] chunk [] err).
  destruct (piece_source (N.of_nat (length chunk)) (N.of_nat (length chunk)) end_ 2 later s0 cs) as (s1 & up & s2 & -> & Hup & Hpiece);
    [done|done|done|unfold room, pending; cbn; lia|unfold room, pending; cbn; lia|done|done|].
  destruct Hpiece as (cs1 & cs2 & -> & Hrest & Ho & He & [_ Hk]). run_option.
  exists (d_partial s2), (if up then UChar else LChar), cs1, cs2. split_and!; [|done..]. destruct up; cbn [negb].
  - destruct Hup as (Hp1 & Hr1 & Hd). rewrite Hp1, piece_capacity by (cbn; lia). cbn [length Nat.add].
    rewrite (proj2 (N.ltb_ge _ _)) by (unfold room in Hr1; lia). rewrite Hd. run_option. by rewrite Ho, He.
  - subst s2. by rewrite Ho, He.
Qed.

(** The rest of the character [c], of which [p] is kept. *)
Context (p q : list N) (c count : N) (cs' : list N).
Context (Hst : starts p count) (Hpos : count <> 0) (Hc : scalar c) (Hu : utf8 c = p ++ q) (Hlen : N.to_nat count = length (utf8 c)).
Context (Hrest : chunk ++ later = q ++ utf8_text cs') (Hd : decodeNonASCIISequence (utf8 c) count = Some (Some c)) (Hq : q <> []).
Context (Hcs : Forall scalar cs').

Lemma kept_lengths : (length (utf8 c) <= 4)%nat /\ length (utf8 c) = (length p + length q)%nat /\ (0 < length q)%nat /\ p <> [].
Proof.
  pose proof (length_utf8 c). pose proof (f_equal length Hu) as Hl. rewrite length_app in Hl. split_and!; [lia|done|destruct q; [by destruct Hq|cbn; lia]|].
  by destruct Hst as (b & rest & -> & _).
Qed.

Lemma piece_front : (length q <= length chunk)%nat -> take (length q) chunk = q /\ drop (length q) chunk ++ later = utf8_text cs'.
Proof.
  intros Hl. destruct (app_eq_inv chunk later q (utf8_text cs') Hrest) as [(k & -> & Hk)|(k & Hk & Hl')].
  - by rewrite take_app_length, drop_app_length.
  - pose proof (f_equal length Hk) as Hlk. rewrite length_app in Hlk. destruct k; [|cbn in Hlk; lia]. rewrite app_nil_r in Hk. subst q.
    by rewrite firstn_all, skipn_all.
Qed.

Lemma handle_piece : handlePartialSequence8 (N.of_nat (length p + length chunk)) false (pending (mkDecoding p chunk [] err)) (mkDecoding p chunk [] err) =
    if (length chunk <? length q)%nat then Some (mkDecoding (p ++ chunk) [] [] err, false)
    else if 0xFF <? c then Some (mkDecoding (utf8 c) (drop (length q) chunk) [] err, true)
    else Some (mkDecoding [] (drop (length q) chunk) [c] err, false).
Proof.
  destruct kept_lengths as (H4 & Hl & Hq0 & Hp). rewrite (handlePartialSequence8_piece _ _ p chunk [] err c q count); try done.
  - destruct p; [done|cbn [length]; lia].
  - intros Hle. by apply piece_front.
Qed.

Lemma decode_piece_kept : decodes_piece p chunk end_ later (c :: cs') err.
Proof.
  destruct kept_lengths as (H4 & Hl & Hq0 & Hp). pose proof handle_piece as Hh. unfold decodes_piece, decode. rewrite piece_capacity by lia.
  destruct (length chunk <? length q)%nat eqn:E; breflect.
  - rewrite (decode8_partial _ end_ 2 _ _ false) by (done || (cbn; intros Hn; apply app_nil in Hn as [? _]; done)). run_option. cbn [negb].
    exists (p ++ chunk), LChar, [], (c :: cs'). split_and!; [done|done|by rewrite <- app_assoc, Hrest, utf8_text_cons, Hu, app_assoc|].
    right. exists count. split_and!; [by apply starts_app|done|rewrite length_app; lia].
  - destruct (piece_front E) as [Htake Hdrop]. assert (bytes_ok (drop (length q) chunk)) as Hbd by (by apply bytes_ok_drop).
    assert (size_source (mkDecoding [] (drop (length q) chunk) [] err) <= end_) as He by (unfold size_source; cbn; rewrite length_drop; lia).
    destruct (255 <? c) eqn:Ec; breflect.
    + rewrite (decode8_partial _ end_ 2 _ _ true) by (done || apply utf8_nonempty). run_option. cbn [negb d_partial d_source d_destination d_sawError length].
      rewrite piece_capacity by lia. rewrite (proj2 (N.ltb_ge _ _)) by lia. pose proof (length_utf16 c).
      rewrite (decode16_after _ _ _ _ (mkDecoding [] (drop (length q) chunk) (utf16 c) err));
        [|apply utf8_nonempty|apply (handlePartialSequence16_piece _ _ _ [] err c count); try done; [rewrite Hu; by apply starts_app|cbn; lia]|done].
      destruct (piece_source16 (N.of_nat (length (utf8 c) + length chunk)) end_ 2 later (mkDecoding [] (drop (length q) chunk) (utf16 c) err) cs')
        as (s2 & -> & cs1 & cs2 & -> & Hr2 & Ho & Hsaw & [_ Hk]); [done..|unfold room, pending; cbn; rewrite length_drop; lia|done|done|].
      run_option. exists (d_partial s2), UChar, (c :: cs1), cs2. by rewrite Ho, Hsaw.
    + rewrite (decode8_after _ end_ 2 _ _) by done.
      destruct (piece_source (N.of_nat (length p + length chunk)) (N.of_nat (length chunk)) end_ 2 later (mkDecoding [] (drop (length q) chunk) [c] err) cs')
        as (s1 & up & s2 & -> & Hup & cs1 & cs2 & -> & Hr2 & Ho & Hsaw & [_ Hk]); [done..|unfold room, pending; cbn; rewrite length_drop; lia|unfold room, pending; cbn; rewrite length_drop; lia|done|done|].
      run_option. exists (d_partial s2), (if up then UChar else LChar), (c :: cs1), cs2.
      assert (utf16_text (c :: cs1) = [c] ++ utf16_text cs1) as Hu16 by (unfold utf16_text; cbn; unfold utf16; by rewrite (proj2 (N.ltb_lt c 0x10000)) by lia).
      split_and!; [|done..]. cbn [d_destination d_sawError] in Ho, Hsaw. rewrite Hu16. destruct up; cbn [negb].
      * destruct Hup as (Hp1 & Hr1 & Hd16). rewrite Hp1, piece_capacity by (cbn; lia). cbn [length Nat.add] in *.
        rewrite (proj2 (N.ltb_ge _ _)) by (unfold room in Hr1; lia).
        rewrite Hd16. run_option. by rewrite Ho, Hsaw.
      * subst s2. by rewrite Ho, Hsaw.
Qed.
End Piece.

(** Pieces one after the other, as [decode] is called by who reads a stream; the ends of the pieces in memory
    are anywhere. *)
Fixpoint decode_stream (codec : list N) (pieces : list (list N * N)) (err : bool) : option (list N * list WTFString * bool) :=
  match pieces with
  | [] => r ← decode codec [] 0 true false err; let '(codec, s, err) := r in Some (codec, [s], err)
  | (bytes, end_) :: pieces =>
      r ← decode codec bytes end_ false false err;
      let '(codec, s, err) := r in
      r ← decode_stream codec pieces err;
      let '(codec, strings, err) := r in
      Some (codec, s :: strings, err)
  end.

Lemma decode_piece p chunk end_ later cs err :
  codec_ok p -> Forall scalar cs -> p ++ chunk ++ later = utf8_text cs -> N.of_nat (length chunk) <= codec_limit -> N.of_nat (length chunk) <= end_ ->
  decodes_piece p chunk end_ later cs err.
Proof.
  intros Hp Hcs Heq Hlimit Hend. pose proof (utf8_text_bytes cs Hcs) as Hb. rewrite <- Heq in Hb. apply Forall_app in Hb as [_ [Hbc _]%Forall_app].
  destruct Hp as [->|Hp]; [by apply decode_piece_nothing_kept|].
  destruct (split_partial p chunk later cs Hp Hcs Heq) as (c & cs' & count & q & -> & Hst & Hpos & Hc & Hu & Hlen & Hrest & Hd & Hq).
  apply Forall_cons in Hcs as [_ Hcs]. by apply (decode_piece_kept chunk end_ later err Hbc Hlimit Hend p q c count cs').
Qed.

Definition pieces_text (pieces : list (list N * N)) : list N := pieces ≫= fst.

Lemma decode_stream_text p pieces cs err :
  codec_ok p -> Forall scalar cs -> p ++ pieces_text pieces = utf8_text cs ->
  Forall (fun piece => N.of_nat (length piece.1) <= codec_limit /\ N.of_nat (length piece.1) <= piece.2) pieces ->
  exists strings, decode_stream p pieces err = Some ([], strings, err) /\ strings ≫= String_chars = utf16_text cs.
Proof.
  intros Hp Hcs Heq Hpieces. revert p cs Hp Hcs Heq. induction Hpieces as [|[bytes end_] pieces [Hlimit Hend] _ IH]; intros p cs Hp Hcs Heq; cbn [decode_stream].
  - unfold pieces_text in Heq. cbn in Heq. rewrite app_nil_r in Heq. destruct Hp as [->|Hp].
    + destruct cs as [|c cs]; [|rewrite utf8_text_cons in Heq; symmetry in Heq; apply app_nil in Heq as [Hn _]; by destruct (utf8_nonempty c)].
      exists [Some StringImpl_empty]. split; done.
    + exfalso. destruct cs as [|c cs]; [rewrite Heq in Hp; by destruct Hp as (k & (b & r & [=] & _) & _)|]. apply Forall_cons in Hcs as [Hc _].
      by apply (incomplete_undecodable _ Hp c (utf8_text cs) Hc).
  - unfold pieces_text in Heq. cbn [mbind list_bind fst] in Heq. cbn [fst snd] in Hlimit, Hend.
    destruct (decode_piece p bytes end_ (pieces_text pieces) cs err) as (p' & t & cs1 & cs2 & -> & -> & Hrest & Hp'); [done..|]. run_option.
    apply Forall_app in Hcs as [_ Hcs2]. destruct (IH p' cs2 Hp' Hcs2 Hrest) as (strings & -> & Hstrings). run_option.
    exists (adopt t (utf16_text cs1) :: strings). split; [done|]. cbn [mbind list_bind]. by rewrite Hstrings, adopt_chars, utf16_text_app.
Qed.

#[local] Ltac Zify.zify_post_hook ::= Z.div_mod_to_equations.

(** ** Encoding *)

Lemma land_shiftl c m n : N.land c (N.shiftl m n) = N.shiftl (N.land (N.shiftr c n) m) n.
Proof.
  apply N.bits_inj. intros i. rewrite N.land_spec. destruct (decide (i < n)) as [Hi|Hi].
  - rewrite !N.shiftl_spec_low by done. apply andb_false_r.
  - rewrite !N.shiftl_spec_high' by lia. rewrite N.land_spec, N.shiftr_spec'. by replace (i - n + n) with i by lia.
Qed.

Lemma surrogate_bits c : c < 0x10000 -> N.land c 0xfffffc00 = c / 1024 * 1024.
Proof.
  intros Hc. change 0xfffffc00 with (N.shiftl (N.ones 22) 10). rewrite land_shiftl, N.land_ones, N.shiftr_div_pow2, N.shiftl_mul_pow2.
  change (2 ^ 10) with 1024. rewrite N.mod_small; [done|]. change (2 ^ 22) with 4194304. pose proof (N.Div0.div_le_upper_bound c 1024 64). lia.
Qed.

Lemma is_lead c : c < 0x10000 -> U16_IS_LEAD c = (0xD800 <=? c) && (c <? 0xDC00).
Proof. intros Hc. unfold U16_IS_LEAD. rewrite surrogate_bits by done. apply Bool.eq_iff_eq_true. rewrite andb_true_iff, N.eqb_eq, N.leb_le, N.ltb_lt. lia. Qed.

Lemma is_trail c : c < 0x10000 -> U16_IS_TRAIL c = (0xDC00 <=? c) && (c <? 0xE000).
Proof. intros Hc. unfold U16_IS_TRAIL. rewrite surrogate_bits by done. apply Bool.eq_iff_eq_true. rewrite andb_true_iff, N.eqb_eq, N.leb_le, N.ltb_lt. lia. Qed.

Lemma U16_NEXT_scalar c rest : scalar c -> exists u us, utf16 c ++ rest = u :: us /\ U16_NEXT u us = (c, rest).
Proof.
  intros Hc. unfold scalar, utf16, U16_NEXT in *. destruct (c <? 0x10000) eqn:E; breflect; cbn [app].
  - exists c, rest. rewrite is_lead by lia. split; [done|].
    replace (_ && _) with false; [done|]. symmetry. apply andb_false_iff. rewrite N.leb_gt, N.ltb_ge. lia.
  - eexists _, _. split; [done|]. rewrite is_lead, is_trail by lia.
    replace (_ && _) with true by (symmetry; apply andb_true_iff; rewrite N.leb_le, N.ltb_lt; lia).
    replace (_ && _) with true by (symmetry; apply andb_true_iff; rewrite N.leb_le, N.ltb_lt; lia).
    f_equal. unfold U16_GET_SUPPLEMENTARY. rewrite N.shiftl_mul_pow2. change (2 ^ 10) with 1024. change (N.shiftl 0xd800 10 + 0xdc00 - 0x10000) with 56613888. lia.
Qed.

Lemma trail_byte c : wrap8 (N.lor (N.land c 0x3f) 0x80) = 0x80 + c mod 64.
Proof.
  change 0x3f with (N.ones 6). rewrite N.land_ones. change 0x80 with (N.shiftl 2 6). rewrite lor_disjoint by (apply N.mod_lt; done).
  change (N.shiftl 2 6) with 0x80. change (2 ^ 6) with 64. rewrite wrap8_id; lia.
Qed.

Lemma lead_byte c k b n : c / 2 ^ k < 2 ^ n -> c / 2 ^ k + N.shiftl b n < 256 -> wrap8 (N.lor (N.shiftr c k) (N.shiftl b n)) = N.shiftl b n + c / 2 ^ k.
Proof. intros Hc Hb. rewrite N.shiftr_div_pow2, lor_disjoint by done. rewrite wrap8_id; lia. Qed.

Lemma U8_APPEND_UNSAFE_scalar c : scalar c -> U8_APPEND_UNSAFE c = utf8 c.
Proof.
  intros Hc. unfold scalar, U8_APPEND_UNSAFE, utf8 in *. rewrite !trail_byte, !N.shiftr_div_pow2.
  change (2 ^ 6) with 64. change (2 ^ 12) with 4096. change (2 ^ 18) with 262144.
  destruct (c <=? 127) eqn:E1, (c <? 128) eqn:E1'; breflect; try lia; [by rewrite wrap8_id by lia|].
  destruct (c <=? 2047) eqn:E2, (c <? 2048) eqn:E2'; breflect; try lia.
  - f_equal. pose proof (lead_byte c 6 3 6) as H. change (2 ^ 6) with 64 in H. change (N.shiftl 3 6) with 0xc0 in H.
    rewrite N.shiftr_div_pow2 in H. change (2 ^ 6) with 64 in H. apply H; lia.
  - destruct (c <=? 65535) eqn:E3, (c <? 65536) eqn:E3'; breflect; try lia; f_equal.
    + pose proof (lead_byte c 12 7 5) as H. rewrite N.shiftr_div_pow2 in H. change (2 ^ 12) with 4096 in H. change (N.shiftl 7 5) with 0xe0 in H. change (2 ^ 5) with 32 in H. apply H; lia.
    + pose proof (lead_byte c 18 15 4) as H. rewrite N.shiftr_div_pow2 in H. change (2 ^ 18) with 262144 in H. change (N.shiftl 15 4) with 0xf0 in H. change (2 ^ 4) with 16 in H. apply H; lia.
Qed.

Lemma utf8_room cs : (length (utf8_text cs) <= length (utf16_text cs) * 3)%nat.
Proof.
  unfold utf8_text, utf16_text. induction cs as [|c cs IH]; [done|]. cbn [mbind list_bind] in *. rewrite !length_app.
  assert (length (utf8 c) <= length (utf16 c) * 3)%nat by (unfold utf8, utf16; repeat case_match; breflect; cbn [length]; lia). lia.
Qed.

Lemma encode_characters_text fuel room cs bytes : Forall scalar cs -> (length (utf16_text cs) <= fuel)%nat ->
  N.of_nat (length bytes + length (utf8_text cs)) <= room ->
  encode_characters fuel room (utf16_text cs) bytes = Some (bytes ++ utf8_text cs).
Proof.
  intros Hcs. revert fuel bytes. induction Hcs as [|c cs Hc _ IH]; intros fuel bytes Hfuel Hroom.
  - destruct fuel; cbn; by rewrite app_nil_r.
  - change (utf16_text (c :: cs)) with (utf16 c ++ utf16_text cs) in *. rewrite utf8_text_cons in *.
    destruct (U16_NEXT_scalar c (utf16_text cs) Hc) as (u & us & Hu & Hnext). rewrite Hu in *. destruct fuel as [|fuel]; [cbn in Hfuel; lia|].
    cbn [encode_characters]. rewrite Hnext, U8_APPEND_UNSAFE_scalar by done. rewrite !length_app in *.
    pose proof (f_equal length Hu) as Hl. rewrite length_app in Hl. pose proof (length_utf16 c). cbn [length] in *.
    rewrite (proj2 (N.ltb_ge _ _)) by lia. rewrite IH by (rewrite ?length_app; lia). by rewrite <- app_assoc.
Qed.

Lemma encode_text cs : Forall scalar cs -> N.of_nat (length (utf16_text cs)) * 3 <= max32 -> encode (utf16_text cs) = Some (utf8_text cs).
Proof.
  intros Hcs Hlimit. unfold encode. replace (_ || _) with false.
  - rewrite encode_characters_text; [done|done|done|]. pose proof (utf8_room cs). cbn [length]. lia.
  - symmetry. apply orb_false_iff. rewrite !N.ltb_ge. unfold max32 in *. change (max64 / 3) with 6148914691236517205. lia.
Qed.

(** ** The theorems *)

(** C21: Decoding bytes at once, as [TextEncoding::decode] does, returns without an access outside of a buffer,
    whatever the bytes and their alignment: the codec keeps nothing, the string has the characters that the
    specification of UTF-8 decodes the bytes to, in 8 bits only when all are Latin-1, with a replacement
    character for each byte that no encoding starts at, and [sawError] is set exactly when there is one. *)
Theorem decode_refines (bytes : list N) (end_ : N) (sawError : bool)
  (Hbytes : Forall (fun b => b < 256) bytes) (Hlimit : N.of_nat (length bytes) <= codec_limit) (Hend : N.of_nat (length bytes) <= end_) :
  exists t cs e, decode TextCodecUTF8_new bytes end_ true false sawError = Some ([], adopt t (utf16_text cs), sawError || e) /\
    decodes [] bytes cs e [] /\ (t = LChar -> Forall (fun c => c < 256) cs).
Proof. by apply decode_at_once. Qed.

Lemma decode_refines_witness : exists t cs e,
  decode TextCodecUTF8_new [104; 105; 195; 169; 255; 240; 159; 152; 128; 226; 130] 4099 true false false = Some ([], adopt t (utf16_text cs), false || e) /\
  decodes [] [104; 105; 195; 169; 255; 240; 159; 152; 128; 226; 130] cs e [] /\ (t = LChar -> Forall (fun c => c < 256) cs).
Proof. apply decode_refines; [repeat constructor; done|done|done]. Defined.

(** C22: Well-formed UTF-16 is encoded to UTF-8 without a crash, and decoding the bytes gives the text back,
    without errors, at once or in pieces of any size at any addresses. *)
Theorem encode_decode_roundtrip (cs : list N) (pieces : list (list N * N))
  (Hcs : Forall scalar cs) (Hlimit : N.of_nat (length (utf16_text cs)) * 3 <= 4294967290)
  (Hpieces : encode (utf16_text cs) = Some (pieces_text pieces)) (Hends : Forall (fun piece => N.of_nat (length piece.1) <= piece.2) pieces) :
  encode (utf16_text cs) = Some (utf8_text cs) /\
  exists strings, decode_stream TextCodecUTF8_new pieces false = Some ([], strings, false) /\ strings ≫= String_chars = utf16_text cs.
Proof.
  pose proof (encode_text cs Hcs ltac:(unfold max32; lia)) as He. split; [done|]. rewrite He in Hpieces. injection Hpieces as Hp.
  apply decode_stream_text; [by left|done|by rewrite <- Hp|]. pose proof (utf8_room cs) as Hroom. rewrite Hp in Hroom.
  assert (forall l k, N.of_nat (length l + length k) <= 4294967290 -> N.of_nat (length (l : list N)) <= codec_limit /\ N.of_nat (length (k : list N)) <= 4294967290) as Hle
    by (unfold codec_limit; lia).
  assert (N.of_nat (length (pieces_text pieces)) <= 4294967290) as Hl by lia. clear -Hl Hends Hle.
  induction Hends as [|[bytes end_] pieces Hend _ IH]; [constructor|]. unfold pieces_text in Hl. cbn [mbind list_bind fst] in Hl. rewrite length_app in Hl.
  destruct (Hle _ _ Hl). constructor; [done|]. by apply IH.
Qed.

Lemma encode_decode_roundtrip_witness :
  encode (utf16_text [104; 233; 8364; 128512; 33]) = Some (utf8_text [104; 233; 8364; 128512; 33]) /\
  exists strings, decode_stream TextCodecUTF8_new [([104; 195], 5002); ([169; 226; 130], 3); ([172; 240], 8); ([159; 152], 99); ([128; 33], 20)] false =
      Some ([], strings, false) /\ strings ≫= String_chars = utf16_text [104; 233; 8364; 128512; 33].
Proof.
  apply (encode_decode_roundtrip [104; 233; 8364; 128512; 33] [([104; 195], 5002); ([169; 226; 130], 3); ([172; 240], 8); ([159; 152], 99); ([128; 33], 20)]).
  - repeat constructor; unfold scalar; lia.
  - done.
  - vm_compute. reflexivity.
  - repeat constructor; done.
Defined.

(** Bytes with an error decode differently in pieces: after F1 the codec keeps a byte, finds with the next
    three that there is no character, replaces F1 and decodes C3 A9, but forgets to move the byte that is left
    to the front, so that the A behind is lost and a replacement character is written in its place. *)
Theorem decode_pieces_lose_characters :
  (exists strings, decode_stream TextCodecUTF8_new [([0xF1; 0xC3; 0xA9; 65; 66], 5)] false = Some ([], strings, true) /\
     strings ≫= String_chars = [replacementCharacter; 233; 65; 66]) /\
  (exists strings, decode_stream TextCodecUTF8_new [([0xF1], 1); ([0xC3; 0xA9; 65; 66], 5)] false = Some ([], strings, true) /\
     strings ≫= String_chars = [replacementCharacter; 233; replacementCharacter; 66]).
Proof. split; eexists; (split; [vm_compute; reflexivity|vm_compute; reflexivity]). Qed.
