(* ===== verification/WTFUnicode.v ===== *)
(** * [WTF/wtf/unicode/UTF8] and the strings of WTF in UTF-8

    The conversions between UTF-8, UTF-16 and Latin-1, the hash and the comparison
    of strings in UTF-8 that the table of [AtomicString] uses, and the conversions
    of [String] and [CString].  A pointer into a text is the list of what follows
    it; [None] is an access outside of a text or of a buffer, or a crash. *)

From S2P Require Import Prelude ASCII StringHasher WTFString TextCodecUTF8.

(** ** Sequences *)

(** WTF/wtf/unicode/UTF8.h:45-50 [ConversionResult] *)
Inductive ConversionResult := conversionOK | sourceExhausted | targetExhausted | sourceIllegal.

#[export] Instance ConversionResult_eq_dec : EqDecision ConversionResult.
Proof. solve_decision. Defined.

(** WTF/wtf/unicode/UTF8.cpp:37-48 [inlineUTF8SequenceLengthNonASCII] *)
Definition inlineUTF8SequenceLengthNonASCII (b0 : N) : N :=
  if negb (N.land b0 0xC0 =? 0xC0) then 0
  else if N.land b0 0xE0 =? 0xC0 then 2
  else if N.land b0 0xF0 =? 0xE0 then 3
  else if N.land b0 0xF8 =? 0xF0 then 4
  else 0.

(** WTF/wtf/unicode/UTF8.cpp:50-58 [inlineUTF8SequenceLength], [UTF8SequenceLength] *)
Definition inlineUTF8SequenceLength (b0 : N) : N :=
  if isASCII b0 then 1 else inlineUTF8SequenceLengthNonASCII b0.

(** WTF/wtf/unicode/UTF8.cpp:60-119 [decodeUTF8Sequence]; the inner [None] is -1 *)
Definition decodeUTF8Sequence (sequence : list N) : option (option N) :=
  let is_trail b := N.land b 0xC0 =? 0x80 in
  b0 ← sequence !!N 0;
  let length := inlineUTF8SequenceLength b0 in
  if length =? 0 then Some None
  else
    b1 ← sequence !!N 1;
    if length =? 1 then Some (if b1 =? 0 then Some b0 else None)
    else if negb (is_trail b1) then Some None
    else
      b2 ← sequence !!N 2;
      if length =? 2 then
        Some (if b2 =? 0 then
                let c := N.lor (N.shiftl (N.land b0 0x1F) 6) (N.land b1 0x3F) in
                if c <? 0x80 then None else Some c
              else None)
      else if negb (is_trail b2) then Some None
      else
        b3 ← sequence !!N 3;
        if length =? 3 then
          Some (if b3 =? 0 then
                  let c := N.lor (N.lor (N.shiftl (N.land b0 0xF) 12) (N.shiftl (N.land b1 0x3F) 6)) (N.land b2 0x3F) in
                  if c <? 0x800 then None
                  else if (0xD800 <=? c) && (c <=? 0xDFFF) then None
                  else Some c
                else None)
        else if negb (is_trail b3) then Some None
        else
          b4 ← sequence !!N 4;
          Some (if (length =? 4) && (b4 =? 0) then
                  let c := N.lor (N.lor (N.lor (N.shiftl (N.land b0 0x7) 18) (N.shiftl (N.land b1 0x3F) 12)) (N.shiftl (N.land b2 0x3F) 6)) (N.land b3 0x3F) in
                  if (c <? 0x10000) || (0x10FFFF <? c) then None else Some c
                else None).

(** WTF/wtf/unicode/UTF8.cpp:126-126 [firstByteMark] *)
Definition firstByteMark : list N := [0x00; 0x00; 0xC0; 0xE0; 0xF0; 0xF8; 0xFC].

(** WTF/wtf/unicode/UTF8.cpp:231-236 [convertUTF16ToUTF8]: the bytes of a character, written from the last
    to the first; [convertLatin1ToUTF8] has the cases 2 and 1 of this *)
Fixpoint put_bytes (trailing : nat) (mark ch : N) (written : list N) : list N :=
  match trailing with
  | O => wrap8 (N.lor ch mark) :: written
  | S trailing => put_bytes trailing mark (N.shiftr ch 6) (wrap8 (N.land (N.lor ch 0x80) 0xBF) :: written)
  end.

(** The bytes of [ch], when there is room for them. *)
Definition put_sequence (bytesToWrite ch room : N) : option (list N) :=
  if room <? bytesToWrite then None
  else Some (put_bytes (N.to_nat (bytesToWrite - 1)) (default 0 (firstByteMark !!N bytesToWrite)) ch []).

(** A conversion: its result, what is left of the source, and what was written. *)
Definition Conversion : Type := ConversionResult * list N * list N.

(** [bytes] were written, in a room of [room], before the source went on as [after]. *)
Definition converted (bytes : list N) (room : N) (after : N -> Conversion) : Conversion :=
  let '(result, source, written) := after (room - N.of_nat (length bytes)) in (result, source, bytes ++ written).

(** WTF/wtf/unicode/UTF8.cpp:128-169 [convertLatin1ToUTF8], into a room of [room] bytes *)
Fixpoint convertLatin1ToUTF8 (source : list N) (room : N) : Conversion :=
  match source with
  | [] => (conversionOK, [], [])
  | ch :: rest =>
      let bytesToWrite := if ch <? 0x80 then 1 else 2 in
      match put_sequence bytesToWrite ch room with
      | None => (targetExhausted, source, [])
      | Some bytes => converted bytes room (convertLatin1ToUTF8 rest)
      end
  end.

(** WTF/wtf/unicode/UTF8.cpp:208-220 [convertUTF16ToUTF8]: how many bytes the result requires, and the
    character *)
Definition bytes_required (ch : N) : N * N :=
  if ch <? 0x80 then (1, ch)
  else if ch <? 0x800 then (2, ch)
  else if ch <? 0x10000 then (3, ch)
  else if ch <? 0x110000 then (4, ch)
  else (3, replacementCharacter).

(** WTF/wtf/unicode/UTF8.cpp:207-238 [convertUTF16ToUTF8]: the end of a turn, for the character [ch] in
    front of [source] *)
Definition put_character (ch room : N) (source : list N) (after : N -> Conversion) : Conversion :=
  let '(bytesToWrite, ch) := bytes_required ch in
  match put_sequence bytesToWrite ch room with
  | None => (targetExhausted, source, [])
  | Some bytes => converted bytes room after
  end.

(** WTF/wtf/unicode/UTF8.cpp:171-244 [convertUTF16ToUTF8], into a room of [room] bytes *)
Fixpoint convertUTF16ToUTF8 (strict : bool) (source : list N) (room : N) : Conversion :=
  match source with
  | [] => (conversionOK, [], [])
  | ch :: rest =>
      if (0xD800 <=? ch) && (ch <=? 0xDBFF) then
        match rest with
        | [] => (sourceExhausted, source, [])
        | ch2 :: rest2 =>
            if (0xDC00 <=? ch2) && (ch2 <=? 0xDFFF)
            then put_character (N.shiftl (ch - 0xD800) 10 + (ch2 - 0xDC00) + 0x10000) room source (convertUTF16ToUTF8 strict rest2)
            else if strict then (sourceIllegal, source, [])
            else put_character ch room source (convertUTF16ToUTF8 strict rest)
        end
      else if strict && ((0xDC00 <=? ch) && (ch <=? 0xDFFF)) then (sourceIllegal, source, [])
      else put_character ch room source (convertUTF16ToUTF8 strict rest)
  end.

(** WTF/wtf/unicode/UTF8.cpp:249-275 [isLegalUTF8]: the cases fall through, the one of a length looks at the
    byte before that length *)
Definition isLegalUTF8 (source : list N) (length : N) : option bool :=
  first ← source !!N 0;
  let case_1 := Some (negb ((0x80 <=? first) && (first <? 0xC2)) && negb (0xF4 <? first)) in
  let case_2 :=
    a ← source !!N 1;
    if 0xBF <? a then Some false
    else if first =? 0xE0 then (if a <? 0xA0 then Some false else case_1)
    else if first =? 0xED then (if 0x9F <? a then Some false else case_1)
    else if first =? 0xF0 then (if a <? 0x90 then Some false else case_1)
    else if first =? 0xF4 then (if 0x8F <? a then Some false else case_1)
    else if a <? 0x80 then Some false else case_1 in
  let case_3 := a ← source !!N 2; if (a <? 0x80) || (0xBF <? a) then Some false else case_2 in
  if length =? 4 then a ← source !!N 3; if (a <? 0x80) || (0xBF <? a) then Some false else case_3
  else if length =? 3 then case_3
  else if length =? 2 then case_2
  else if length =? 1 then case_1
  else Some false.

(** WTF/wtf/unicode/UTF8.cpp:280-280 [offsetsFromUTF8], of the lengths that are used *)
Definition offsetsFromUTF8 : list Z := [0x00000000%Z; 0x00003080%Z; 0x000E2080%Z; 0x03C82080%Z].

(** WTF/wtf/unicode/UTF8.cpp:282-297 [readUTF8Sequence]; a [UChar32] is signed *)
Definition readUTF8Sequence (sequence : list N) (length : N) : option Z :=
  offset ← offsetsFromUTF8 !!N (length - 1);
  if (Datatypes.length sequence <? N.to_nat length)%nat then None
  else Some (foldl (fun character b => character * 64 + Z.of_N b)%Z 0%Z (take (N.to_nat length) sequence) - offset)%Z.

(** [U_IS_SURROGATE] *)
Definition U_IS_SURROGATE (c : N) : bool := N.ldiff c 0x7FF =? 0xD800.

(** [U_IS_SUPPLEMENTARY] *)
Definition U_IS_SUPPLEMENTARY (c : N) : bool := (0x10000 <=? c) && (c <=? 0x10FFFF).

(** [sourceEnd - source < utf8SequenceLength]. *)
Definition shorter (source : list N) (length : N) : bool := (Datatypes.length source <? N.to_nat length)%nat.

(** WTF/wtf/unicode/UTF8.cpp:299-370 [convertUTF8ToUTF16]: the loop, with a turn of fuel for each byte, into
    a room of [room] characters; a negative [UChar32] is no character of 16 bits and no supplementary one *)
Fixpoint convert_UTF8 (strict : bool) (fuel : nat) (source : list N) (room : N) : option Conversion :=
  match source, fuel with
  | [], _ => Some (conversionOK, [], [])
  | _, O => None
  | b0 :: _, S fuel =>
      let utf8SequenceLength := inlineUTF8SequenceLength b0 in
      if shorter source utf8SequenceLength then Some (sourceExhausted, source, [])
      else
        legal ← isLegalUTF8 source utf8SequenceLength;
        if negb legal then Some (sourceIllegal, source, [])
        else
          character ← readUTF8Sequence source utf8SequenceLength;
          let go written :=
            r ← convert_UTF8 strict fuel (drop (N.to_nat utf8SequenceLength) source) (room - N.of_nat (length written));
            let '(result, rest, more) := r in Some (result, rest, written ++ more) in
          if room =? 0 then Some (targetExhausted, source, [])
          else if ((0 <=? character) && (character <=? 0xFFFF))%Z then
            let character := Z.to_N character in
            if U_IS_SURROGATE character then
              if strict then Some (sourceIllegal, source, []) else go [replacementCharacter]
            else go [character]
          else if ((0x10000 <=? character) && (character <=? 0x10FFFF))%Z then
            let character := Z.to_N character in
            if room =? 1 then Some (targetExhausted, source, [])
            else go [U16_LEAD character; U16_TRAIL character]
          else if strict then Some (sourceIllegal, source, [])
          else go [replacementCharacter]
  end.

(** WTF/wtf/unicode/UTF8.cpp:299-370 [convertUTF8ToUTF16], and [*sourceAllASCII]; a surrogate pair sets all
    the bits that are collected *)
Definition convertUTF8ToUTF16 (strict : bool) (source : list N) (room : N) : option (Conversion * bool) :=
  r ← convert_UTF8 strict (length source) source room;
  Some (r, forallb (fun c => N.ldiff c 0x7F =? 0) r.2).

(** ** Hashing and comparing *)

(** WTF/wtf/unicode/UTF8.cpp:372-421 [calculateStringHashAndLengthFromUTF8MaskingTop8Bits]: the loop, with a
    turn of fuel for each byte.  The data ends at [dataEnd] or, when that is null, at a null byte; the answer
    is the hasher, if the data is legal, and the lengths *)
Fixpoint hash_UTF8 (has_end : bool) (fuel : nat) (data : list N) (h : StringHasher) (dataLength utf16Length : N)
    : option (option StringHasher * N * N) :=
  let turn b0 :=
    match fuel with
    | O => None
    | S fuel =>
        if isASCII b0 then hash_UTF8 has_end fuel (drop 1 data) (addCharacter b0 h) (wrap32 (dataLength + 1)) (wrap32 (utf16Length + 1))
        else
          let utf8SequenceLength := inlineUTF8SequenceLengthNonASCII b0 in
          let dataLength := wrap32 (dataLength + utf8SequenceLength) in
          let fail := Some (None, dataLength, utf16Length) in
          complete ← (if (has_end : bool) then Some (negb (shorter data utf8SequenceLength))
                      else foldM (fun complete i => if (complete : bool) then b ← data !!N i; Some (negb (b =? 0)) else Some false)
                             true (for_range 1 utf8SequenceLength));
          if negb (complete : bool) then fail
          else
            legal ← isLegalUTF8 data utf8SequenceLength;
            if negb legal then fail
            else
              character ← readUTF8Sequence data utf8SequenceLength;
              let rest := drop (N.to_nat utf8SequenceLength) data in
              if ((0 <=? character) && (character <=? 0xFFFF))%Z then
                let character := Z.to_N character in
                if U_IS_SURROGATE character then fail
                else hash_UTF8 has_end fuel rest (addCharacter character h) dataLength (wrap32 (utf16Length + 1))
              else if ((0x10000 <=? character) && (character <=? 0x10FFFF))%Z then
                let character := Z.to_N character in
                hash_UTF8 has_end fuel rest (addTwoCharacters (U16_LEAD character) (U16_TRAIL character) h) dataLength (wrap32 (utf16Length + 2))
              else fail
    end in
  match data with
  | [] => if (has_end : bool) then Some (Some h, dataLength, utf16Length) else None
  | b0 :: _ => if negb has_end && (b0 =? 0) then Some (Some h, dataLength, utf16Length) else turn b0
  end.

(** WTF/wtf/unicode/UTF8.cpp:372-421 [calculateStringHashAndLengthFromUTF8MaskingTop8Bits], of data that is
    not null: the hash, 0 for data that is not legal, and the lengths *)
Definition calculateStringHashAndLengthFromUTF8MaskingTop8Bits (has_end : bool) (data : list N) : option (N * N * N) :=
  r ← hash_UTF8 has_end (length data) data StringHasher_new 0 0;
  let '(h, dataLength, utf16Length) := r in
  Some (match h with Some h => hashWithTop8BitsMasked h | None => 0 end, dataLength, utf16Length).

(** [*a != *b], where a byte of 128 or more is negative as a [char]. *)
Definition char_differs (a b : N) : bool := negb (isASCII b && (a =? b)).

(** WTF/wtf/unicode/UTF8.cpp:423-459 [equalUTF16WithUTF8], with a turn of fuel for each byte *)
Fixpoint equalUTF16WithUTF8 (fuel : nat) (a b : list N) : option bool :=
  match b, fuel with
  | [], _ => Some true
  | _, O => None
  | b0 :: b_rest, S fuel =>
      match a with
      | [] => None
      | a0 :: a_rest =>
          if isASCII a0 || isASCII b0 then
            if char_differs a0 b0 then Some false else equalUTF16WithUTF8 fuel a_rest b_rest
          else
            let utf8SequenceLength := inlineUTF8SequenceLengthNonASCII b0 in
            if shorter b utf8SequenceLength then Some false
            else
              legal ← isLegalUTF8 b utf8SequenceLength;
              if negb legal then Some false
              else
                character ← readUTF8Sequence b utf8SequenceLength;
                let rest := drop (N.to_nat utf8SequenceLength) b in
                if ((0 <=? character) && (character <=? 0xFFFF))%Z then
                  let character := Z.to_N character in
                  if U_IS_SURROGATE character then Some false
                  else if negb (a0 =? character) then Some false else equalUTF16WithUTF8 fuel a_rest rest
                else if ((0x10000 <=? character) && (character <=? 0x10FFFF))%Z then
                  let character := Z.to_N character in
                  if negb (a0 =? U16_LEAD character) then Some false
                  else
                    match a_rest with
                    | [] => None
                    | a1 :: a_rest => if negb (a1 =? U16_TRAIL character) then Some false else equalUTF16WithUTF8 fuel a_rest rest
                    end
                else Some false
      end
  end.

(** WTF/wtf/unicode/UTF8.cpp:461-485 [equalLatin1WithUTF8] *)
Fixpoint equalLatin1WithUTF8 (a b : list N) : option bool :=
  match b with
  | [] => Some true
  | b0 :: b_rest =>
      match a with
      | [] => None
      | a0 :: a_rest =>
          if isASCII a0 || isASCII b0 then
            if char_differs a0 b0 then Some false else equalLatin1WithUTF8 a_rest b_rest
          else
            match b_rest with
            | [] => Some false
            | b1 :: b_rest =>
                if negb (N.land b0 0xE0 =? 0xC0) || negb (N.land b1 0xC0 =? 0x80) then Some false
                else
                  let character := wrap8 (N.lor (N.shiftl (N.land b0 0x1F) 6) (N.land b1 0x3F)) in
                  if negb (a0 =? character) then Some false else equalLatin1WithUTF8 a_rest b_rest
            end
      end
  end.

(** WTF/wtf/text/AtomicString.cpp:172-177 [HashAndUTF8Characters] *)
Record HashAndUTF8Characters := mkUTF8Buffer {
  u_hash : N;
  u_characters : list N;
  u_length : N;
  u_utf16Length : N
}.

(** WTF/wtf/text/AtomicString.cpp:537-542 [AtomicString::fromUTF8Internal]: the buffer; the inner [None] is
    the null string *)
Definition utf8_buffer (has_end : bool) (characters : list N) : option (option HashAndUTF8Characters) :=
  r ← calculateStringHashAndLengthFromUTF8MaskingTop8Bits has_end characters;
  let '(hash, length, utf16Length) := r in
  Some (if hash =? 0 then None else Some (mkUTF8Buffer hash characters length utf16Length)).

(** WTF/wtf/text/AtomicString.cpp:185-219 [HashAndUTF8CharactersTranslator::equal] *)
Definition translator_equal (string : StringImpl) (buffer : HashAndUTF8Characters) : option bool :=
  let chars := impl_chars string in
  let bytes := take (N.to_nat (u_length buffer)) (u_characters buffer) in
  if negb (u_utf16Length buffer =? N.of_nat (length chars)) then Some false
  else if negb (u_utf16Length buffer =? u_length buffer) then
    if impl_is8Bit string then equalLatin1WithUTF8 chars bytes
    else equalUTF16WithUTF8 (length bytes) chars bytes
  else
    foldM (fun same i =>
      if (same : bool) then a ← chars !!N i; b ← u_characters buffer !!N i; Some (negb (char_differs a b)) else Some false)
      true (for_range 0 (u_length buffer)).

(** WTF/wtf/text/AtomicString.cpp:221-237 [HashAndUTF8CharactersTranslator::translate]: the new string *)
Definition translate (buffer : HashAndUTF8Characters) : option WTFString :=
  let bytes := take (N.to_nat (u_length buffer)) (u_characters buffer) in
  newString ← String_create UChar (repeat 0 (N.to_nat (u_utf16Length buffer)));
  r ← convertUTF8ToUTF16 true bytes (u_utf16Length buffer);
  let '(result, _, written, isAllASCII) := r in
  if (isAllASCII : bool) then String_create LChar bytes
  else Some (option_map (fun impl => mkImpl (impl_is8Bit impl) (written ++ drop (length written) (impl_chars impl))) newString).

(** ** Strings and UTF-8 *)

(** WTF/wtf/text/ConversionMode.h:31-35 [ConversionMode] *)
Inductive ConversionMode := LenientConversion | StrictConversion | StrictConversionReplacingUnpairedSurrogatesWithFFFD.

(** WTF/wtf/text/CString.h:56-87 [CString]: the bytes in front of the terminator, or null *)
Definition CString : Type := option (list N).

(** [sizeof(CStringBuffer)], on a 64-bit machine. *)
Definition sizeof_CStringBuffer : N := 16.

(** WTF/wtf/text/CString.cpp:52-72 [CString::CString], [CString::init], [CStringBuffer::createUninitialized],
    of characters that are not null *)
Definition CString_create (str : list N) : option CString :=
  if max32 - sizeof_CStringBuffer <=? N.of_nat (length str) then None else Some (Some str).

(** WTF/wtf/text/StringImpl.cpp:2129-2136 [putUTF8Triple] *)
Definition putUTF8Triple (ch : N) : list N :=
  [wrap8 (N.lor (N.land (N.shiftr ch 12) 0x0F) 0xE0); wrap8 (N.lor (N.land (N.shiftr ch 6) 0x3F) 0x80); wrap8 (N.lor (N.land ch 0x3F) 0x80)].

(** Three bytes in a room of [room]. *)
Definition put_triple (ch room : N) : option (list N) := if room <? 3 then None else Some (putUTF8Triple ch).

(** WTF/wtf/text/StringImpl.cpp:2140-2158 [StringImpl::utf8Impl], the loop that replaces unpaired surrogates,
    with a turn of fuel for each character *)
Fixpoint utf8_replacing (fuel : nat) (characters : list N) (room : N) : option (list N) :=
  match characters, fuel with
  | [], _ => Some []
  | _, O => None
  | _, S fuel =>
      let '(result, rest, written) := convertUTF16ToUTF8 true characters room in
      let room := room - N.of_nat (length written) in
      if bool_decide (result = conversionOK) then more ← utf8_replacing fuel rest room; Some (written ++ more)
      else
        triple ← put_triple replacementCharacter room;
        more ← utf8_replacing fuel (drop 1 rest) (room - 3);
        Some (written ++ triple ++ more)
  end.

(** WTF/wtf/text/StringImpl.cpp:2138-2187 [StringImpl::utf8Impl]: the bytes, or [None] inside for false *)
Definition utf8Impl (characters : list N) (bufferSize : N) (mode : ConversionMode) : option (option (list N)) :=
  match mode with
  | StrictConversionReplacingUnpairedSurrogatesWithFFFD => bytes ← utf8_replacing (length characters) characters bufferSize; Some (Some bytes)
  | _ =>
      let strict := match mode with StrictConversion => true | _ => false end in
      let '(result, rest, written) := convertUTF16ToUTF8 strict characters bufferSize in
      match result with
      | sourceIllegal => Some None
      | sourceExhausted =>
          if (strict : bool) then Some None
          else
            first ← rest !!N 0;
            triple ← put_triple first (bufferSize - N.of_nat (length written));
            Some (Some (written ++ triple))
      | _ => Some (Some written)
      end
  end.

(** The end of [utf8ForCharacters] and [utf8ForRange]. *)
Definition to_CString (bytes : option (list N)) : option CString :=
  match bytes with None => Some None | Some bytes => CString_create bytes end.

(** WTF/wtf/text/StringImpl.cpp:2189-2200 [StringImpl::utf8ForCharacters] *)
Definition utf8ForCharacters (characters : list N) (mode : ConversionMode) : option CString :=
  let length := N.of_nat (length characters) in
  if length =? 0 then Some (Some [])
  else if max32 / 3 <? length then Some None
  else bytes ← utf8Impl characters (length * 3) mode; to_CString bytes.

(** WTF/wtf/text/StringImpl.cpp:2202-2237 [StringImpl::utf8ForRange] *)
Definition utf8ForRange (string : StringImpl) (offset length : N) (mode : ConversionMode) : option CString :=
  if length =? 0 then Some (Some [])
  else if max32 / 3 <? length then Some None
  else
    if negb (offset + length <=? N.of_nat (Datatypes.length (impl_chars string))) then None
    else
      let characters := take (N.to_nat length) (drop (N.to_nat offset) (impl_chars string)) in
      if impl_is8Bit string then
        let '(_, _, written) := convertLatin1ToUTF8 characters (length * 3) in CString_create written
      else bytes ← utf8Impl characters (length * 3) mode; to_CString bytes.

(** WTF/wtf/text/StringImpl.cpp:2239-2242 [StringImpl::utf8] *)
Definition StringImpl_utf8 (string : StringImpl) (mode : ConversionMode) : option CString :=
  utf8ForRange string 0 (N.of_nat (length (impl_chars string))) mode.

(** WTF/wtf/text/WTFString.cpp:792-798 [String::utf8] *)
Definition String_utf8 (s : WTFString) (mode : ConversionMode) : option CString :=
  match s with None => Some (Some []) | Some impl => StringImpl_utf8 impl mode end.

Section FromUTF8.
Context (address : N).

(** WTF/wtf/text/ASCIIFastPath.h:87-90 [charactersAreAllASCII] of [LChar]: the prologue, at an address *)
Fixpoint ascii_prologue (address : N) (characters : list N) (allCharBits : N) : N * list N * N :=
  match characters with
  | c :: rest =>
      if isAlignedToMachineWord address then (address, characters, allCharBits)
      else ascii_prologue (address + 1) rest (N.lor allCharBits c)
  | [] => (address, [], allCharBits)
  end.

(** WTF/wtf/text/ASCIIFastPath.h:93-98 [charactersAreAllASCII] of [LChar]: the words, with a turn of fuel for each character *)
Fixpoint ascii_words (fuel : nat) (address wordEnd : N) (characters : list N) (allCharBits : N) : option (list N * N) :=
  if address <? wordEnd then
    match fuel with
    | O => None
    | S fuel =>
        word ← read_bytes (N.to_nat sizeof_MachineWord) characters 0;
        ascii_words fuel (address + sizeof_MachineWord) wordEnd (drop (N.to_nat sizeof_MachineWord) characters) (N.lor allCharBits (le_value word))
    end
  else Some (characters, allCharBits).

(** WTF/wtf/text/ASCIIFastPath.h:80-108 [charactersAreAllASCII], of [LChar] *)
Definition charactersAreAllASCII (characters : list N) : option bool :=
  let end_ := address + N.of_nat (length characters) in
  let '(position, rest, allCharBits) := ascii_prologue address characters 0 in
  r ← ascii_words (length rest) position (alignToMachineWord end_) rest allCharBits;
  let '(rest, allCharBits) := r in
  Some (N.land (foldl N.lor allCharBits rest) NonASCIIMask =? 0).

(** WTF/wtf/text/WTFString.cpp:826-851 [String::fromUTF8], of characters that are not null; a vector of
    16-bit characters has at most half of [max32] *)
Definition fromUTF8 (string : list N) : option WTFString :=
  let length := N.of_nat (length string) in
  if max32 <? length then None
  else if length =? 0 then Some (Some StringImpl_empty)
  else
    ascii ← charactersAreAllASCII string;
    if (ascii : bool) then String_create LChar string
    else if max32 / 2 <? length then None
    else
      r ← convertUTF8ToUTF16 true string length;
      let '(result, _, written, _) := r in
      if bool_decide (result = conversionOK) then String_create UChar written else Some None.

(** [strlen]: the bytes in front of the first null byte. *)
Fixpoint c_string (bytes : list N) : list N :=
  match bytes with b :: bytes => if b =? 0 then [] else b :: c_string bytes | [] => [] end.

(** WTF/wtf/text/WTFString.cpp:853-863 [String::fromUTF8], of a [CString], which is read up to its first
    null byte *)
Definition fromUTF8_CString (s : CString) : option WTFString :=
  match s with None => Some None | Some bytes => fromUTF8 (c_string bytes) end.

(** WTF/wtf/text/WTFString.cpp:865-871 [String::fromUTF8WithLatin1Fallback] *)
Definition fromUTF8WithLatin1Fallback (string : list N) : option WTFString :=
  utf8 ← fromUTF8 string;
  if String_isNull utf8 then String_create LChar string else Some utf8.
End FromUTF8.
