(* ===== verification/WTFUnicodeCorrect.v ===== *)
(** * The conversions of [WTF/wtf/unicode/UTF8] are correct

    [String::utf8] encodes the code points of a text, in each of its modes;
    [String::fromUTF8] reads back exactly the texts that [isLegalUTF8] accepts; the
    hash and the comparison of UTF-8 texts are those of the strings they decode to. *)

From S2P Require Import Prelude ASCII HashFunctions StringHasher WTFString TextCodecUTF8 UTF8Spec UTF8Decode UTF8RoundTrip WTFUnicode.
From Stdlib Require Import ZifyN.

#[local] Ltac Zify.zify_post_hook ::= Z.div_mod_to_equations.

(** ** Encoding a character *)

Lemma mark_byte c : wrap8 (N.land (N.lor c 0x80) 0xBF) = 0x80 + c mod 64.
Proof.
  rewrite <- trail_byte. f_equal. rewrite N.land_lor_distr_l. change (N.land 0x80 0xBF) with 0x80. change 0xBF with (N.lor 0x3F 0x80).
  rewrite N.land_lor_distr_r, <- N.lor_assoc. f_equal. apply N.bits_inj. intros i. rewrite N.lor_spec, N.land_spec. by destruct (N.testbit c i), (N.testbit 128 i).
Qed.

Lemma put_sequence_spec c room : c < 0x110000 ->
  put_sequence (N.of_nat (length (utf8 c))) c room = (if room <? N.of_nat (length (utf8 c)) then None else Some (utf8 c)).
Proof.
  intros Hc. unfold put_sequence. destruct (room <? _); [done|]. f_equal. unfold utf8.
  destruct (c <? 0x80) eqn:E1; [|destruct (c <? 0x800) eqn:E2; [|destruct (c <? 0x10000) eqn:E3]]; breflect; cbn [length];
    match goal with |- put_bytes ?n ?mark _ _ = _ =>
      let n' := eval vm_compute in n in let mark' := eval vm_compute in mark in change n with n'; change mark with mark' end;
    cbn [put_bytes]; rewrite ?N.shiftr_shiftr, ?mark_byte, ?N.shiftr_div_pow2.
  - rewrite N.lor_0_r, wrap8_id by lia. done.
  - pose proof (lead_byte c 6 3 6) as H. change (N.shiftl 3 6) with 0xc0 in H. rewrite <- N.shiftr_div_pow2. rewrite H; change (2 ^ 6) with 64; try lia. done.
  - pose proof (lead_byte c 12 7 5) as H. change (N.shiftl 7 5) with 0xe0 in H. change (6 + 6) with 12. rewrite <- (N.shiftr_div_pow2 c 12). rewrite H; change (2 ^ 12) with 4096; change (2 ^ 5) with 32; change (2 ^ 6) with 64; try lia. done.
  - pose proof (lead_byte c 18 15 4) as H. change (N.shiftl 15 4) with 0xf0 in H. change (6 + (6 + 6)) with 18. change (6 + 6 + 6) with 18. change (6 + 6) with 12.
    rewrite <- (N.shiftr_div_pow2 c 18). rewrite H; change (2 ^ 18) with 262144; change (2 ^ 12) with 4096; change (2 ^ 4) with 16; change (2 ^ 6) with 64; try lia. done.
Qed.

Lemma put_character_spec c room source after : c < 0x110000 ->
  put_character c room source after = (if room <? N.of_nat (length (utf8 c)) then (targetExhausted, source, []) else converted (utf8 c) room after).
Proof.
  intros Hc. unfold put_character. assert (bytes_required c = (N.of_nat (length (utf8 c)), c)) as ->.
  { unfold bytes_required, utf8. repeat case_match; breflect; [done..|lia]. }
  rewrite put_sequence_spec by done. by destruct (room <? _).
Qed.

(** ** The code points of a text *)

Definition lead_unit (c : N) : bool := (0xD800 <=? c) && (c <=? 0xDBFF).
Definition trail_unit (c : N) : bool := (0xDC00 <=? c) && (c <=? 0xDFFF).

Definition supplementary (lead trail : N) : N := (lead - 0xD800) * 1024 + (trail - 0xDC00) + 0x10000.

(** A surrogate that is not one of a pair is a code point of its own. *)
Fixpoint code_points (units : list N) : list N :=
  match units with
  | [] => []
  | c :: rest =>
      match rest with
      | c2 :: rest2 => if lead_unit c && trail_unit c2 then supplementary c c2 :: code_points rest2 else c :: code_points rest
      | [] => [c]
      end
  end.

(** The characters that Unicode assigns. *)
Definition is_scalar (c : N) : bool := (c <? 0xD800) || ((0xE000 <=? c) && (c <? 0x110000)).

Lemma is_scalar_spec c : is_scalar c = true <-> scalar c.
Proof. unfold is_scalar, scalar. rewrite orb_true_iff, andb_true_iff, !N.ltb_lt, N.leb_le. done. Qed.

(** The code points after a character. *)
Lemma code_points_cons c rest : code_points (c :: rest) =
  match rest with
  | c2 :: rest2 => if lead_unit c && trail_unit c2 then supplementary c c2 :: code_points rest2 else c :: code_points rest
  | [] => [c]
  end.
Proof. done. Qed.

Lemma code_points_text units : Forall (fun c => c < 2 ^ 16) units -> utf16_text (code_points units) = units /\ Forall (fun c => c < 0x110000) (code_points units).
Proof.
  induction units as [units IH] using (well_founded_induction (well_founded_ltof _ length)). unfold ltof in IH. change (2 ^ 16) with 65536 in *.
  destruct units as [|c rest]; [done|]. intros [Hc Hrest]%Forall_cons. rewrite code_points_cons.
  assert (utf16 c = [c]) as Hutf by (unfold utf16; by rewrite (proj2 (N.ltb_lt c 0x10000)) by lia).
  destruct rest as [|c2 rest2]; [unfold utf16_text; cbn; rewrite Hutf; split; [done|repeat constructor; lia]|].
  destruct (lead_unit c && trail_unit c2) eqn:E.
  - unfold lead_unit, trail_unit in E. breflect. apply Forall_cons in Hrest as [Hc2 Hrest]. destruct (IH rest2 ltac:(cbn; lia) Hrest) as [E1 E2].
    unfold utf16_text in *. rewrite bind_cons, E1. split; [|constructor; [unfold supplementary; lia|done]].
    unfold utf16, supplementary. rewrite (proj2 (N.ltb_ge _ _)) by lia. cbn [app]. repeat f_equal; lia.
  - destruct (IH (c2 :: rest2) ltac:(cbn; lia) Hrest) as [E1 E2]. unfold utf16_text in *. rewrite bind_cons, E1, Hutf. split; [done|]. constructor; [lia|done].
Qed.

Lemma utf16_lookup c : c < 0x110000 -> (length (utf8 c) <= 3 * length (utf16 c))%nat.
Proof. unfold utf8, utf16. repeat case_match; breflect; cbn [length]; lia. Qed.

Lemma utf8_size cs : Forall (fun c => c < 0x110000) cs -> (length (utf8_text cs) <= 3 * length (utf16_text cs))%nat.
Proof.
  induction 1 as [|c cs Hc _ IH]; [done|]. unfold utf8_text, utf16_text in *. rewrite !bind_cons, !length_app.
  pose proof (utf16_lookup c Hc). lia.
Qed.

(** ** [convertUTF16ToUTF8] *)

(** Why the conversion stopped in front of [rest], with a room of [room] left. *)
Definition stopped (strict : bool) (result : ConversionResult) (rest : list N) (room : N) : Prop :=
  match result with
  | conversionOK => rest = []
  | sourceExhausted => exists lead, rest = [lead] /\ lead_unit lead = true
  | sourceIllegal => strict = true /\ exists c cs, code_points rest = c :: cs /\ rest = c :: drop 1 rest /\ code_points (drop 1 rest) = cs /\ is_scalar c = false
  | targetExhausted => exists c cs, code_points rest = c :: cs /\ room < N.of_nat (length (utf8 c))
  end.

(** What was written is the encoding of the code points in front of [rest]. *)
Definition converts (strict : bool) (source : list N) (room : N) (r : Conversion) : Prop :=
  let '(result, rest, written) := r in
  exists cs, code_points source = cs ++ code_points rest /\ source = utf16_text cs ++ rest /\ written = utf8_text cs /\
    N.of_nat (length written) <= room /\ (strict = true -> Forall scalar cs) /\ stopped strict result rest (room - N.of_nat (length written)).

Lemma converted_converts strict c us source rest room after :
  source = us ++ rest -> us = utf16 c -> code_points source = c :: code_points rest -> c < 0x110000 -> (strict = true -> scalar c) ->
  (forall room, converts strict rest room (after room)) -> converts strict source room (put_character c room source after).
Proof.
  intros Hsource Hus Hcode Hc Hs IH. rewrite put_character_spec by done. destruct (room <? _) eqn:E; breflect.
  - exists []. split_and!; [done|done|done|cbn; lia|done|]. exists c, (code_points rest). cbn [length]. split; [done|]. by rewrite N.sub_0_r.
  - unfold converted. specialize (IH (room - N.of_nat (length (utf8 c)))). destruct (after _) as [[result rest'] written].
    destruct IH as (cs & Hcs & Hrest & -> & Hroom & Hscalar & Hstop). exists (c :: cs). rewrite Hcode, Hcs. split_and!.
    + done.
    + rewrite Hsource, Hrest, Hus. unfold utf16_text. by rewrite bind_cons, <- app_assoc.
    + by rewrite utf8_text_cons.
    + rewrite length_app. lia.
    + intros Hstrict. constructor; auto.
    + rewrite length_app. replace (room - _) with (room - N.of_nat (length (utf8 c)) - N.of_nat (length (utf8_text cs))) by lia. done.
Qed.

Lemma convertUTF16ToUTF8_converts strict source room : Forall (fun c => c < 2 ^ 16) source ->
  converts strict source room (convertUTF16ToUTF8 strict source room).
Proof.
  revert room. induction source as [source IH] using (well_founded_induction (well_founded_ltof _ length)). unfold ltof in IH.
  intros room Hsource. change (2 ^ 16) with 65536 in *. destruct source as [|c rest]; [exists []; split_and!; [done|done|done|cbn; lia|done|done]|].
  apply Forall_cons in Hsource as [Hc Hrest]. cbn [convertUTF16ToUTF8].
  assert ([c] = utf16 c) as Hutf by (unfold utf16; by rewrite (proj2 (N.ltb_lt c 0x10000)) by lia).
  change ((0xD800 <=? c) && (c <=? 0xDBFF)) with (lead_unit c). change ((0xDC00 <=? c) && (c <=? 0xDFFF)) with (trail_unit c).
  assert (lead_unit c = true -> is_scalar c = false) as Hlead by (unfold lead_unit, is_scalar; intros H; breflect; apply orb_false_iff; rewrite andb_false_iff, !N.ltb_ge, !N.leb_gt; lia).
  assert (trail_unit c = true -> is_scalar c = false) as Htrail by (unfold trail_unit, is_scalar; intros H; breflect; apply orb_false_iff; rewrite andb_false_iff, !N.ltb_ge, !N.leb_gt; lia).
  assert (lead_unit c = false -> trail_unit c = false -> scalar c) as Hscalar.
  { unfold lead_unit, trail_unit, scalar. rewrite !andb_false_iff, !N.leb_gt. lia. }
  destruct (lead_unit c) eqn:El.
  - destruct rest as [|c2 rest2].
    + exists []. split_and!; [done|done|done|cbn; lia|done|]. by exists c.
    + change ((0xDC00 <=? c2) && (c2 <=? 0xDFFF)) with (trail_unit c2). destruct (trail_unit c2) eqn:Et.
      * apply Forall_cons in Hrest as [Hc2 Hrest].
        rewrite N.shiftl_mul_pow2. change (2 ^ 10) with 1024. change ((c - 55296) * 1024 + (c2 - 56320) + 65536) with (supplementary c c2).
        unfold lead_unit, trail_unit in El, Et. breflect.
        apply (converted_converts _ (supplementary c c2) [c; c2] _ rest2); [done| | |unfold supplementary; lia|unfold supplementary, scalar; lia|intros room'; apply IH; [cbn; lia|done]].
        -- unfold utf16, supplementary. rewrite (proj2 (N.ltb_ge _ _)) by lia. repeat f_equal; lia.
        -- rewrite code_points_cons. unfold lead_unit, trail_unit. by rewrite !(proj2 (N.leb_le _ _)) by lia.
      * destruct strict.
        -- exists []. split_and!; [done|done|done|cbn; lia|done|]. split; [done|]. exists c, (code_points (c2 :: rest2)).
           rewrite code_points_cons, El, Et. cbn [andb drop]. split_and!; [done..|auto].
        -- apply (converted_converts _ c [c] _ (c2 :: rest2)); [done|done|rewrite code_points_cons, El, Et; done|lia|done|intros room'; apply IH; [cbn; lia|done]].
  - assert (code_points (c :: rest) = c :: code_points rest) as Hcode by (rewrite code_points_cons, El; by destruct rest).
    destruct (strict && trail_unit c) eqn:Es.
    + breflect. subst. exists []. split_and!; [done|done|done|cbn; lia|done|]. split; [done|]. exists c, (code_points rest). cbn [drop]. auto.
    + apply (converted_converts _ c [c] _ rest); [done|done|done|lia| |intros room'; apply IH; [cbn; lia|done]].
      intros ->. apply Hscalar; [done|]. by destruct (trail_unit c).
Qed.

(** ** [String::utf8] *)

Lemma utf8_text_app cs cs' : utf8_text (cs ++ cs') = utf8_text cs ++ utf8_text cs'.
Proof. apply bind_app. Qed.

Lemma putUTF8Triple_spec c : 0x800 <= c < 0x10000 -> putUTF8Triple c = utf8 c.
Proof.
  intros Hc. unfold putUTF8Triple, utf8. rewrite !(proj2 (N.ltb_ge c _)) by lia. rewrite (proj2 (N.ltb_lt c 0x10000)) by lia.
  rewrite !trail_byte, !N.shiftr_div_pow2. change (2 ^ 6) with 64. change (2 ^ 12) with 4096. f_equal.
  change 0x0F with (N.ones 4). rewrite N.land_ones, N.mod_small by (change (2 ^ 4) with 16; lia).
  change 0xE0 with (N.shiftl 7 5). rewrite lor_disjoint by (change (2 ^ 5) with 32; lia). change (N.shiftl 7 5) with 0xE0. rewrite wrap8_id; lia.
Qed.

Definition replaced (c : N) : N := if is_scalar c then c else replacementCharacter.

Lemma replaced_scalar cs : Forall scalar cs -> replaced <$> cs = cs.
Proof. induction 1 as [|c cs Hc _ IH]; [done|]. cbn. rewrite IH. unfold replaced. by rewrite (proj2 (is_scalar_spec c) Hc). Qed.

(** With three bytes for each unit there is room for everything. *)
Lemma converts_room strict source room result rest written : Forall (fun c => c < 2 ^ 16) source -> N.of_nat (length source) * 3 <= room ->
  converts strict source room (result, rest, written) ->
  result <> targetExhausted /\ N.of_nat (length rest) * 3 <= room - N.of_nat (length written) /\ Forall (fun c => c < 2 ^ 16) rest.
Proof.
  intros Hsource Hroom (cs & Hcs & Htext & -> & Hle & Hs & Hstop). destruct (code_points_text source Hsource) as [Hc1 Hc2].
  rewrite Hcs in Hc2. apply Forall_app in Hc2 as [Hc2 Hc3]. rewrite Htext in Hsource. apply Forall_app in Hsource as [_ Hrest].
  pose proof (utf8_size cs Hc2) as H1. rewrite Htext, length_app in Hroom. split_and!; [|lia|done]. intros ->. destruct Hstop as (c & cs' & E & Hlt).
  destruct (code_points_text rest Hrest) as [H2 _]. rewrite E in H2, Hc3. apply Forall_cons in Hc3 as [Hc _].
  pose proof (utf16_lookup c Hc) as H3. apply (f_equal length) in H2. unfold utf16_text in H2. rewrite bind_cons, length_app in H2. lia.
Qed.

Lemma lead_scalar c : lead_unit c = true -> is_scalar c = false /\ 0x800 <= c < 0x10000.
Proof. unfold lead_unit, is_scalar. intros H. breflect. split; [|lia]. apply orb_false_iff. rewrite andb_false_iff, !N.ltb_ge, !N.leb_gt. lia. Qed.

Lemma utf8_replacing_spec fuel units room : (length units <= fuel)%nat -> Forall (fun c => c < 2 ^ 16) units -> N.of_nat (length units) * 3 <= room ->
  utf8_replacing fuel units room = Some (utf8_text (replaced <$> code_points units)).
Proof.
  revert units room. induction fuel as [|fuel IH]; intros units room Hfuel Hu Hroom; [by destruct units; [|cbn in Hfuel; lia]|].
  destruct units as [|c units]; [done|]. cbn [utf8_replacing]. set (source := c :: units) in *.
  pose proof (convertUTF16ToUTF8_converts true source room Hu) as Hconv. destruct (convertUTF16ToUTF8 true source room) as [[result rest] written].
  destruct (converts_room _ _ _ _ _ _ Hu Hroom Hconv) as (Hne & Hleft & Hrest). destruct Hconv as (cs & Hcs & Htext & -> & Hle & Hs & Hstop).
  specialize (Hs eq_refl). rewrite Hcs, fmap_app, utf8_text_app, (replaced_scalar cs Hs).
  assert (forall d, rest = d :: drop 1 rest -> is_scalar d = false -> code_points rest = d :: code_points (drop 1 rest) ->
    (triple ← put_triple replacementCharacter (room - N.of_nat (length (utf8_text cs)));
     more ← utf8_replacing fuel (drop 1 rest) (room - N.of_nat (length (utf8_text cs)) - 3);
     Some (utf8_text cs ++ triple ++ more)) = Some (utf8_text cs ++ utf8_text (replaced <$> code_points rest))) as Hgo.
  { intros d Hd Hscalar Hcode. rewrite Hcode. unfold put_triple. rewrite Hd in Hleft. cbn [length] in Hleft. rewrite (proj2 (N.ltb_ge _ _)) by lia.
    cbn [mbind option_bind]. rewrite IH.
    - cbn [mbind option_bind fmap list_fmap]. rewrite utf8_text_cons. unfold replaced at 2. rewrite Hscalar. rewrite putUTF8Triple_spec by done. done.
    - apply (f_equal length) in Htext. rewrite length_app, Hd in Htext. cbn [length] in Htext. lia.
    - by apply Forall_drop.
    - lia. }
  destruct result; cbn [stopped] in Hstop; [subst rest|destruct Hstop as (lead & -> & El)|done|destruct Hstop as (_ & d & cs' & Hcode & Hd & <- & Hscalar)];
    rewrite ?bool_decide_true, ?bool_decide_false by done.
  - destruct fuel; done.
  - apply Hgo with lead; [done|by apply lead_scalar|done].
  - by apply Hgo with d.
Qed.

(** What [String::utf8] makes of code points. *)
Definition utf8_in_mode (mode : ConversionMode) (cs : list N) : option (list N) :=
  match mode with
  | LenientConversion => Some (utf8_text cs)
  | StrictConversion => if forallb is_scalar cs then Some (utf8_text cs) else None
  | StrictConversionReplacingUnpairedSurrogatesWithFFFD => Some (utf8_text (replaced <$> cs))
  end.

Lemma forallb_scalar cs : Forall scalar cs -> forallb is_scalar cs = true.
Proof. induction 1 as [|c cs Hc _ IH]; [done|]. cbn. by rewrite (proj2 (is_scalar_spec c) Hc). Qed.

Lemma utf8Impl_spec units mode : Forall (fun c => c < 2 ^ 16) units ->
  utf8Impl units (N.of_nat (length units) * 3) mode = Some (utf8_in_mode mode (code_points units)).
Proof.
  intros Hu. destruct mode; cbn [utf8Impl utf8_in_mode]; [| |by rewrite utf8_replacing_spec];
    match goal with |- context [convertUTF16ToUTF8 ?strict units ?room] =>
      pose proof (convertUTF16ToUTF8_converts strict units room Hu) as Hconv; destruct (convertUTF16ToUTF8 strict units room) as [[result rest] written];
      destruct (converts_room _ _ _ _ _ _ Hu (N.le_refl _) Hconv) as (Hne & Hleft & Hrest); destruct Hconv as (cs & -> & Htext & -> & Hle & Hs & Hstop) end.
  - destruct result; cbn [stopped] in Hstop; [subst rest; by rewrite app_nil_r|destruct Hstop as (lead & -> & El)|done|by destruct Hstop].
    change ([lead] !!N 0) with (Some lead). cbn [mbind option_bind]. unfold put_triple. cbn [length] in Hleft. rewrite (proj2 (N.ltb_ge _ _)) by lia. cbn [mbind option_bind].
    rewrite putUTF8Triple_spec by (by apply lead_scalar). rewrite utf8_text_app. unfold utf8_text. cbn. by rewrite app_nil_r.
  - specialize (Hs eq_refl). rewrite forallb_app, forallb_scalar by done.
    destruct result; cbn [stopped] in Hstop; [subst rest; by rewrite app_nil_r|destruct Hstop as (lead & -> & El)|done|destruct Hstop as (_ & d & cs' & -> & _ & _ & Hscalar)].
    + cbn. by rewrite (proj1 (lead_scalar lead El)).
    + cbn. by rewrite Hscalar.
Qed.

Lemma utf8_in_mode_size mode cs bytes : Forall (fun c => c < 0x110000) cs -> utf8_in_mode mode cs = Some bytes -> (length bytes <= 3 * length (utf16_text cs))%nat.
Proof.
  intros Hcs. destruct mode; cbn [utf8_in_mode].
  - intros [= <-]. by apply utf8_size.
  - destruct (forallb _ _); [|done]. intros [= <-]. by apply utf8_size.
  - intros [= <-]. induction Hcs as [|c cs Hc Hcs IH]; [done|]. cbn [fmap list_fmap]. unfold utf16_text in *. rewrite utf8_text_cons, bind_cons, !length_app.
    assert (length (utf8 (replaced c)) <= 3 * length (utf16 c))%nat; [|lia].
    unfold replaced. destruct (is_scalar c); [by apply utf16_lookup|]. pose proof (length_utf16 c). cbn. lia.
Qed.

(** The width of the units of a string. *)
Definition unit_limit (is8Bit : bool) : N := if is8Bit then 2 ^ 8 else 2 ^ 16.

Lemma convertLatin1_spec chars room : Forall (fun c => c < 2 ^ 8) chars -> N.of_nat (length chars) * 2 <= room ->
  convertLatin1ToUTF8 chars room = (conversionOK, [], utf8_text chars).
Proof.
  intros Hc. revert room. induction Hc as [|c chars Hc _ IH]; intros room Hroom; [done|]. cbn [convertLatin1ToUTF8]. change (2 ^ 8) with 256 in Hc.
  assert ((if c <? 0x80 then 1 else 2) = N.of_nat (length (utf8 c))) as -> by (unfold utf8; repeat case_match; breflect; [done..|lia|lia]).
  rewrite put_sequence_spec by lia. assert (length (utf8 c) <= 2)%nat by (unfold utf8; repeat case_match; breflect; cbn; lia).
  cbn [length] in Hroom. rewrite (proj2 (N.ltb_ge _ _)) by lia. unfold converted. by rewrite IH by lia.
Qed.

Lemma String_utf8_spec (string : StringImpl) (mode : ConversionMode) :
  Forall (fun c => c < unit_limit (impl_is8Bit string)) (impl_chars string) -> N.of_nat (length (impl_chars string)) * 3 < max32 - sizeof_CStringBuffer ->
  String_utf8 (Some string) mode = Some (if impl_is8Bit string then Some (utf8_text (impl_chars string)) else utf8_in_mode mode (code_points (impl_chars string))).
Proof.
  intros Hc Hsize. destruct string as [is8Bit chars]. cbn [String_utf8 StringImpl_utf8 impl_is8Bit impl_chars] in *. unfold StringImpl_utf8, utf8ForRange. cbn [impl_is8Bit impl_chars].
  unfold max32, sizeof_CStringBuffer in *.
  destruct (N.of_nat (length chars) =? 0) eqn:E0; breflect; [destruct chars; [by destruct is8Bit, mode|cbn in E0; lia]|].
  rewrite (proj2 (N.ltb_ge (4294967295 / 3) _)) by lia. rewrite (proj2 (N.leb_le _ _)) by lia. cbn [negb]. change (N.to_nat 0) with 0%nat. rewrite drop_0, Nat2N.id, firstn_all.
  destruct is8Bit; cbn [unit_limit] in Hc.
  - rewrite convertLatin1_spec by (done || lia). unfold CString_create, max32, sizeof_CStringBuffer. rewrite (proj2 (N.leb_gt _ _)); [done|].
    pose proof (utf8_size chars) as H. assert (Forall (fun c => c < 0x110000) chars) as Hc' by (eapply Forall_impl; [exact Hc|]; cbn; change (2 ^ 8) with 256; lia).
    specialize (H Hc'). assert (utf16_text chars = chars) as Ht; [|rewrite Ht in H; lia].
    clear -Hc. induction Hc as [|c chars Hc _ IH]; [done|]. unfold utf16_text in *. rewrite bind_cons, IH. unfold utf16. change (2 ^ 8) with 256 in Hc. by rewrite (proj2 (N.ltb_lt _ _)) by lia.
  - rewrite utf8Impl_spec by done. cbn [mbind option_bind]. destruct (utf8_in_mode mode (code_points chars)) as [bytes|] eqn:E; [|done].
    cbn [to_CString]. unfold CString_create, max32, sizeof_CStringBuffer. rewrite (proj2 (N.leb_gt _ _)); [done|].
    destruct (code_points_text chars Hc) as [H1 H2]. pose proof (utf8_in_mode_size _ _ _ H2 E) as H. rewrite H1 in H. lia.
Qed.

(** C23: [String::utf8] in all its modes, on every string whose bytes fit: the encoding of its code points; leniently
    unpaired surrogates are encoded as if they were characters, strictly they make the answer null, and the third
    mode replaces each of them.  There is no access outside of the buffer, which has three bytes for each unit. *)
Theorem utf8_modes (string : StringImpl) (mode : ConversionMode) :
  Forall (fun c => c < unit_limit (impl_is8Bit string)) (impl_chars string) -> N.of_nat (length (impl_chars string)) * 3 < max32 - sizeof_CStringBuffer ->
  String_utf8 (Some string) mode = Some (if impl_is8Bit string then Some (utf8_text (impl_chars string)) else utf8_in_mode mode (code_points (impl_chars string))).
Proof. apply String_utf8_spec. Qed.

Lemma utf8_modes_witness :
  String_utf8 (String16 [0xD83D; 0xDE00; 65; 0xD800]) LenientConversion = Some (Some [0xF0; 0x9F; 0x98; 0x80; 65; 0xED; 0xA0; 0x80]) /\
  String_utf8 (String16 [0xD83D; 0xDE00; 65; 0xD800]) StrictConversion = Some None /\
  String_utf8 (String16 [0xD83D; 0xDE00; 65; 0xD800]) StrictConversionReplacingUnpairedSurrogatesWithFFFD = Some (Some [0xF0; 0x9F; 0x98; 0x80; 65; 0xEF; 0xBF; 0xBD]).
Proof.
  split_and!; (etransitivity; [apply (utf8_modes (mkImpl false [0xD83D; 0xDE00; 65; 0xD800])); [repeat constructor|reflexivity]|reflexivity]).
Defined.

(** ** The sequences that are accepted *)

(** What [isLegalUTF8] accepts and should not: after ED and F4 the second byte is only tested for being too
    large, so that an ASCII character is taken for a part of the sequence. *)
Inductive stray : list N -> N -> Prop :=
  | stray_three a b : a < 0x80 -> 0x80 <= b < 0xC0 -> stray [0xED; a; b] (0xAF80 + a * 64 + b)
  | stray_four a b c : a < 0x80 -> 0x80 <= b < 0xC0 -> 0x80 <= c < 0xC0 -> stray [0xF4; a; b; c] (0x7DF80 + a * 4096 + b * 64 + c).

Definition sequence (s : list N) (c : N) : Prop := (scalar c /\ s = utf8 c) \/ stray s c.

Lemma sequence_scalar s c : sequence s c -> scalar c.
Proof. intros [[Hc _]|Hs]; [done|]. destruct Hs; unfold scalar; lia. Qed.

Lemma sequence_length_of_first b : b < 256 -> inlineUTF8SequenceLength b = (if b <? 128 then 1 else if b <? 192 then 0 else if b <? 224 then 2 else if b <? 240 then 3 else if b <? 248 then 4 else 0).
Proof.
  intros Hb. assert (forallb (fun b => inlineUTF8SequenceLength b =? (if b <? 128 then 1 else if b <? 192 then 0 else if b <? 224 then 2 else if b <? 240 then 3 else if b <? 248 then 4 else 0))
    (for_range 0 256) = true) as Hall by (vm_compute; reflexivity).
  rewrite forallb_forall in Hall. specialize (Hall b). apply N.eqb_eq, Hall. apply list_elem_of_In, elem_of_for_range. lia.
Qed.

Lemma first_byte_ascii b : inlineUTF8SequenceLength b = if isASCII b then 1 else inlineUTF8SequenceLengthNonASCII b.
Proof. done. Qed.

(** The length of a sequence is told by its first byte. *)
Lemma sequence_length s c : sequence s c -> exists b s', s = b :: s' /\ b < 256 /\ inlineUTF8SequenceLength b = N.of_nat (length s) /\ Forall (fun b => b < 256) s.
Proof.
  intros [[Hc ->]|Hs].
  - unfold scalar, utf8 in *. repeat case_match; breflect; eexists _, _; (split; [done|]); (split; [lia|]); (split; [rewrite sequence_length_of_first by lia; repeat case_match; breflect; cbn; lia|]); repeat constructor; lia.
  - destruct Hs; eexists _, _; (split; [done|]); (split; [done|]); (split; [done|]); repeat constructor; lia.
Qed.

(** The tests of [isLegalUTF8], in the order of the cases. *)
Definition legal_first (b0 : N) : bool := negb ((0x80 <=? b0) && (b0 <? 0xC2)) && negb (0xF4 <? b0).
Definition legal_second (b0 b1 : N) : bool :=
  negb (0xBF <? b1) && negb (if b0 =? 0xE0 then b1 <? 0xA0 else if b0 =? 0xED then 0x9F <? b1 else if b0 =? 0xF0 then b1 <? 0x90 else if b0 =? 0xF4 then 0x8F <? b1 else b1 <? 0x80).
Definition legal_trail (b : N) : bool := negb ((b <? 0x80) || (0xBF <? b)).

Lemma isLegalUTF8_1 b0 l : isLegalUTF8 (b0 :: l) 1 = Some (legal_first b0).
Proof. done. Qed.

Lemma isLegalUTF8_2 b0 b1 l : isLegalUTF8 (b0 :: b1 :: l) 2 = Some (legal_second b0 b1 && legal_first b0).
Proof.
  unfold isLegalUTF8, legal_second. change ((b0 :: b1 :: l) !!N 0) with (Some b0). change ((b0 :: b1 :: l) !!N 1) with (Some b1).
  cbn [mbind option_bind N.eqb Pos.eqb]. by repeat case_match.
Qed.

Lemma isLegalUTF8_3 b0 b1 b2 l : isLegalUTF8 (b0 :: b1 :: b2 :: l) 3 = Some (legal_trail b2 && (legal_second b0 b1 && legal_first b0)).
Proof.
  transitivity (if (b2 <? 0x80) || (0xBF <? b2) then Some false else isLegalUTF8 (b0 :: b1 :: b2 :: l) 2); [done|].
  rewrite isLegalUTF8_2. unfold legal_trail. by destruct (_ || _).
Qed.

Lemma isLegalUTF8_4 b0 b1 b2 b3 l : isLegalUTF8 (b0 :: b1 :: b2 :: b3 :: l) 4 = Some (legal_trail b3 && (legal_trail b2 && (legal_second b0 b1 && legal_first b0))).
Proof.
  transitivity (if (b3 <? 0x80) || (0xBF <? b3) then Some false else isLegalUTF8 (b0 :: b1 :: b2 :: b3 :: l) 3); [done|].
  rewrite isLegalUTF8_3. unfold legal_trail at 2. by destruct (_ || _).
Qed.

Ltac read_sequence n :=
  unfold readUTF8Sequence; match goal with |- context [offsetsFromUTF8 !!N ?i] => let o := eval vm_compute in (offsetsFromUTF8 !!N i) in change (offsetsFromUTF8 !!N i) with o end;
  match goal with |- context [N.to_nat ?i] => change (N.to_nat i) with n end; cbn [mbind option_bind Datatypes.length Nat.ltb Nat.leb take foldl]; rewrite ?take_0; cbn [foldl]; f_equal; lia.

Lemma readUTF8Sequence_1 b0 l : readUTF8Sequence (b0 :: l) 1 = Some (Z.of_N b0).
Proof. read_sequence 1%nat. Qed.
Lemma readUTF8Sequence_2 b0 b1 l : readUTF8Sequence (b0 :: b1 :: l) 2 = Some (Z.of_N b0 * 64 + Z.of_N b1 - 0x3080)%Z.
Proof. read_sequence 2%nat. Qed.
Lemma readUTF8Sequence_3 b0 b1 b2 l : readUTF8Sequence (b0 :: b1 :: b2 :: l) 3 = Some ((Z.of_N b0 * 64 + Z.of_N b1) * 64 + Z.of_N b2 - 0xE2080)%Z.
Proof. read_sequence 3%nat. Qed.
Lemma readUTF8Sequence_4 b0 b1 b2 b3 l : readUTF8Sequence (b0 :: b1 :: b2 :: b3 :: l) 4 = Some (((Z.of_N b0 * 64 + Z.of_N b1) * 64 + Z.of_N b2) * 64 + Z.of_N b3 - 0x3C82080)%Z.
Proof. read_sequence 4%nat. Qed.

(** What the tests say. *)
Ltac legal_cases :=
  unfold legal_first, legal_second, legal_trail in *;
  repeat match goal with
  | H : context [if ?b =? ?n then _ else _] |- _ => destruct (b =? n) eqn:?
  end; breflect;
  repeat match goal with H : _ && _ = false |- _ => apply andb_false_iff in H as [H|H]; breflect end.

Lemma legal_sound b0 rest : let len := inlineUTF8SequenceLength b0 in b0 < 256 -> shorter (b0 :: rest) len = false ->
  isLegalUTF8 (b0 :: rest) len = Some true ->
  exists s c, b0 :: rest = s ++ drop (N.to_nat len) (b0 :: rest) /\ sequence s c /\ len = N.of_nat (length s) /\ readUTF8Sequence (b0 :: rest) len = Some (Z.of_N c).
Proof.
  intros len Hb Hlen Hlegal. unfold len, shorter in *. clear len. apply Nat.ltb_ge in Hlen. pose proof (sequence_length_of_first b0 Hb) as Hfirst.
  repeat case_match; breflect; rewrite Hfirst in *; [|done| | | |done].
  - exists [b0], b0. rewrite readUTF8Sequence_1. split_and!; [done| |done|done]. left. unfold scalar, utf8. rewrite (proj2 (N.ltb_lt b0 0x80)) by lia. split; [lia|done].
  - destruct rest as [|b1 rest]; [cbn in Hlen; lia|]. rewrite isLegalUTF8_2 in Hlegal. injection Hlegal as Hlegal. legal_cases; try lia.
    exists [b0; b1], ((b0 - 192) * 64 + (b1 - 128)). rewrite readUTF8Sequence_2. split_and!; [done| |done|f_equal; lia].
    left. unfold scalar, utf8. split; [lia|]. rewrite (proj2 (N.ltb_ge _ 0x80)), (proj2 (N.ltb_lt _ 0x800)) by lia. repeat f_equal; lia.
  - destruct rest as [|b1 [|b2 rest]]; [cbn in Hlen; lia..|]. rewrite isLegalUTF8_3 in Hlegal. injection Hlegal as Hlegal. 
    destruct (decide (b0 = 0xED /\ b1 < 0x80)) as [[-> Hstray]|Hn].
    + exists [0xED; b1; b2], (0xAF80 + b1 * 64 + b2). rewrite readUTF8Sequence_3. legal_cases; try lia. split_and!; [done| |done|f_equal; lia]. right. constructor; lia.
    + exists [b0; b1; b2], (b0 * 4096 + b1 * 64 + b2 - 0xE2080). rewrite readUTF8Sequence_3. legal_cases; try lia.
      all: split_and!; [done| |done|f_equal; lia]; left; unfold scalar, utf8; (split; [lia|]).
      all: rewrite (proj2 (N.ltb_ge _ 0x80)), (proj2 (N.ltb_ge _ 0x800)), (proj2 (N.ltb_lt _ 0x10000)) by lia; repeat f_equal; lia.
  - destruct rest as [|b1 [|b2 [|b3 rest]]]; [cbn in Hlen; lia..|]. rewrite isLegalUTF8_4 in Hlegal. injection Hlegal as Hlegal.
    destruct (decide (b0 = 0xF4 /\ b1 < 0x80)) as [[-> Hstray]|Hn].
    + exists [0xF4; b1; b2; b3], (0x7DF80 + b1 * 4096 + b2 * 64 + b3). rewrite readUTF8Sequence_4. legal_cases; try lia. split_and!; [done| |done|f_equal; lia]. right. constructor; lia.
    + exists [b0; b1; b2; b3], (b0 * 262144 + b1 * 4096 + b2 * 64 + b3 - 0x3C82080). rewrite readUTF8Sequence_4. legal_cases; try lia.
      all: split_and!; [done| |done|f_equal; lia]; left; unfold scalar, utf8; (split; [lia|]).
      all: rewrite (proj2 (N.ltb_ge _ 0x80)), (proj2 (N.ltb_ge _ 0x800)), (proj2 (N.ltb_ge _ 0x10000)) by lia; repeat f_equal; lia.
Qed.

(** Tests on numbers that [lia] decides. *)
Ltac decide_tests :=
  repeat match goal with
  | |- context [?a <? ?b] => first [rewrite (proj2 (N.ltb_lt a b)) by lia|rewrite (proj2 (N.ltb_ge a b)) by lia]
  | |- context [?a =? ?b] => first [rewrite (proj2 (N.eqb_eq a b)) by lia|rewrite (proj2 (N.eqb_neq a b)) by lia]
  | |- context [?a <=? ?b] => first [rewrite (proj2 (N.leb_le a b)) by lia|rewrite (proj2 (N.leb_gt a b)) by lia]
  end.

Lemma legal_second_spec b0 b1 : b1 < 192 -> (b0 = 0xE0 -> 0xA0 <= b1) -> (b0 = 0xED -> b1 < 0xA0) -> (b0 = 0xF0 -> 0x90 <= b1) ->
  (b0 = 0xF4 -> b1 < 0x90) -> (b0 <> 0xED -> b0 <> 0xF4 -> 0x80 <= b1) -> legal_second b0 b1 = true.
Proof.
  intros. unfold legal_second. repeat match goal with |- context [if b0 =? ?n then _ else _] => destruct (b0 =? n) eqn:?; breflect end; decide_tests; done.
Qed.

Lemma legal_trail_spec b : 0x80 <= b < 0xC0 -> legal_trail b = true.
Proof. intros. unfold legal_trail. decide_tests. done. Qed.

Lemma legal_first_spec b : b < 0x80 \/ 0xC2 <= b <= 0xF4 -> legal_first b = true.
Proof. intros [H|H]; unfold legal_first; decide_tests; done. Qed.

Lemma legal_complete s c rest : sequence s c -> isLegalUTF8 (s ++ rest) (N.of_nat (length s)) = Some true.
Proof.
  intros [[Hc ->]|Hs].
  - unfold scalar, utf8 in *. repeat case_match; breflect; cbn [app length];
      [change (N.of_nat 1) with 1; rewrite isLegalUTF8_1|change (N.of_nat 2) with 2; rewrite isLegalUTF8_2|change (N.of_nat 3) with 3; rewrite isLegalUTF8_3|change (N.of_nat 4) with 4; rewrite isLegalUTF8_4];
      rewrite ?legal_trail_spec by lia; rewrite ?legal_second_spec by lia; by rewrite legal_first_spec by lia.
  - destruct Hs; cbn [app length]; [change (N.of_nat 3) with 3; rewrite isLegalUTF8_3|change (N.of_nat 4) with 4; rewrite isLegalUTF8_4];
      rewrite ?legal_trail_spec by lia; by rewrite ?legal_second_spec by lia.
Qed.

(** The texts that are accepted, and the characters they are read as. *)
Inductive accepted : list N -> list N -> Prop :=
  | accepted_nil : accepted [] []
  | accepted_cons s c text cs : sequence s c -> accepted text cs -> accepted (s ++ text) (c :: cs).

(** No sequence is in front. *)
Definition unreadable (source : list N) : Prop := forall s c rest, sequence s c -> source <> s ++ rest.

Lemma accepted_text cs : Forall scalar cs -> accepted (utf8_text cs) cs.
Proof. induction 1 as [|c cs Hc _ IH]; [constructor|]. rewrite utf8_text_cons. constructor; [by left|done]. Qed.

Lemma accepted_scalar text cs : accepted text cs -> Forall scalar cs.
Proof. induction 1; constructor; [by eapply sequence_scalar|done]. Qed.

Lemma accepted_bytes text cs : accepted text cs -> Forall (fun b => b < 256) text.
Proof. induction 1 as [|s c text cs Hs _ IH]; [done|]. apply Forall_app. split; [|done]. by destruct (sequence_length _ _ Hs) as (_ & _ & _ & _ & _ & ?). Qed.

Lemma sequence_cut s c s' c' rest rest' : sequence s c -> sequence s' c' -> s ++ rest = s' ++ rest' -> s = s' /\ rest = rest'.
Proof.
  intros Hs Hs' Heq. destruct (sequence_length _ _ Hs) as (b & t & -> & _ & Hl & _). destruct (sequence_length _ _ Hs') as (b' & t' & -> & _ & Hl' & _).
  injection Heq as <- Heq. rewrite Hl in Hl'. apply Nat2N.inj in Hl'. cbn [length] in Hl'. injection Hl' as Hl'. apply app_inj_1 in Heq as [-> ->]; done.
Qed.

Lemma accepted_rest text cs rest cs' : accepted text cs -> accepted (text ++ rest) cs' -> exists cs2, accepted rest cs2.
Proof.
  intros Ht. revert cs'. induction Ht as [|s c text cs Hs _ IH]; intros cs' Hr; [by exists cs'|]. rewrite <- app_assoc in Hr.
  inversion Hr as [Heq|s' c' text' cs2 Hs' Hr' Heq]; subst.
  - destruct (sequence_length _ _ Hs) as (b & t & -> & _). done.
  - destruct (sequence_cut _ _ _ _ _ _ Hs' Hs Heq) as [_ ->]. by apply (IH cs2).
Qed.

Lemma accepted_unreadable text cs rest : accepted text cs -> unreadable rest -> rest <> [] -> ~ exists cs', accepted (text ++ rest) cs'.
Proof.
  intros Ht Hu Hne [cs' Ha]. destruct (accepted_rest _ _ _ _ Ht Ha) as [cs2 Hr]. inversion Hr as [|s c text' cs3 Hs]; subst; [done|]. by apply (Hu s c text').
Qed.

Lemma illegal_unreadable b0 rest : isLegalUTF8 (b0 :: rest) (inlineUTF8SequenceLength b0) <> Some true \/ shorter (b0 :: rest) (inlineUTF8SequenceLength b0) = true ->
  unreadable (b0 :: rest).
Proof.
  intros H s c rest' Hs Heq. destruct (sequence_length _ _ Hs) as (b & t & E & _ & Hl & _). rewrite E in Heq. injection Heq as -> Heq. rewrite Hl in H.
  rewrite Heq in H. change (b :: t ++ rest') with ((b :: t) ++ rest') in H. rewrite <- E in H. destruct H as [H|H].
  - by rewrite (legal_complete s c rest' Hs) in H.
  - unfold shorter in H. apply Nat.ltb_lt in H. rewrite length_app in H. lia.
Qed.

Lemma isLegalUTF8_Some b0 rest : b0 < 256 -> shorter (b0 :: rest) (inlineUTF8SequenceLength b0) = false -> exists legal, isLegalUTF8 (b0 :: rest) (inlineUTF8SequenceLength b0) = Some legal.
Proof.
  intros Hb Hlen. unfold shorter in Hlen. apply Nat.ltb_ge in Hlen. rewrite sequence_length_of_first in * by done.
  repeat case_match; [|by exists false| | | |by exists false].
  - eexists. apply isLegalUTF8_1.
  - destruct rest as [|b1 rest]; [cbn in Hlen; lia|]. eexists. apply isLegalUTF8_2.
  - destruct rest as [|b1 [|b2 rest]]; [cbn in Hlen; lia..|]. eexists. apply isLegalUTF8_3.
  - destruct rest as [|b1 [|b2 [|b3 rest]]]; [cbn in Hlen; lia..|]. eexists. apply isLegalUTF8_4.
Qed.

(** The character in front of a text, as every reader finds it. *)
Lemma front_sequence b0 rest : b0 < 256 ->
  let len := inlineUTF8SequenceLength b0 in
  (shorter (b0 :: rest) len = true /\ unreadable (b0 :: rest)) \/
  (shorter (b0 :: rest) len = false /\ isLegalUTF8 (b0 :: rest) len = Some false /\ unreadable (b0 :: rest)) \/
  (exists s c more, b0 :: rest = s ++ more /\ drop (N.to_nat len) (b0 :: rest) = more /\ sequence s c /\ len = N.of_nat (length s) /\
     shorter (b0 :: rest) len = false /\ isLegalUTF8 (b0 :: rest) len = Some true /\ readUTF8Sequence (b0 :: rest) len = Some (Z.of_N c)).
Proof.
  intros Hb len. destruct (shorter (b0 :: rest) len) eqn:Hs; [left; split; [done|apply illegal_unreadable; by right]|right].
  destruct (isLegalUTF8_Some b0 rest Hb Hs) as [legal Hl]. fold len in Hl. destruct legal.
  - right. destruct (legal_sound b0 rest Hb Hs Hl) as (s & c & E1 & E2 & E3 & E4). exists s, c, (drop (N.to_nat len) (b0 :: rest)). by rewrite E1 at 1.
  - left. split_and!; [done|done|]. apply illegal_unreadable. left. fold len. by rewrite Hl.
Qed.

(** ** [convertUTF8ToUTF16] *)

Lemma not_surrogate c : scalar c -> U_IS_SURROGATE c = false.
Proof.
  intros Hc. unfold U_IS_SURROGATE. change 0x7FF with (N.ones 11). rewrite N.ldiff_ones_r, N.shiftr_div_pow2, N.shiftl_mul_pow2. change (2 ^ 11) with 2048.
  apply N.eqb_neq. unfold scalar in Hc. lia.
Qed.

(** Whether a character is in the plane of 16 bits, as the code asks. *)
Lemma plane_tests c : c < 0x110000 ->
  ((0 <=? Z.of_N c) && (Z.of_N c <=? 0xFFFF))%Z = (c <? 0x10000) /\ ((0x10000 <=? Z.of_N c) && (Z.of_N c <=? 0x10FFFF))%Z = negb (c <? 0x10000).
Proof.
  intros Hc. split; apply Bool.eq_iff_eq_true; rewrite ?negb_true_iff, andb_true_iff, !Z.leb_le, ?N.ltb_lt, ?N.ltb_ge; lia.
Qed.

Lemma utf16_pair c : 0x10000 <= c < 0x110000 -> utf16 c = [U16_LEAD c; U16_TRAIL c].
Proof.
  intros Hc. unfold utf16. rewrite (proj2 (N.ltb_ge c 0x10000)), U16_LEAD_spec, U16_TRAIL_spec by lia. done.
Qed.

(** Why a conversion from UTF-8 stopped in front of [rest], with a room of [room] left. *)
Definition stopped_reading (result : ConversionResult) (rest : list N) (room : N) : Prop :=
  match result with
  | conversionOK => rest = []
  | sourceExhausted => unreadable rest /\ exists b rest', rest = b :: rest' /\ N.of_nat (length rest) < inlineUTF8SequenceLength b
  | sourceIllegal => unreadable rest /\ rest <> []
  | targetExhausted => exists s c more, rest = s ++ more /\ sequence s c /\ room < N.of_nat (length (utf16 c))
  end.

Definition reads (source : list N) (room : N) (r : Conversion) : Prop :=
  let '(result, rest, written) := r in
  exists text cs, source = text ++ rest /\ accepted text cs /\ written = utf16_text cs /\
    N.of_nat (length written) <= room /\ stopped_reading result rest (room - N.of_nat (length written)).

Lemma reads_nothing source room result : stopped_reading result source room -> reads source room (result, source, []).
Proof. intros H. exists [], []. split_and!; [done|constructor|done|cbn; lia|]. cbn [length]. by rewrite N.sub_0_r. Qed.

Lemma reads_cons s c more room result rest written : sequence s c -> N.of_nat (length (utf16 c)) <= room ->
  reads more (room - N.of_nat (length (utf16 c))) (result, rest, written) -> reads (s ++ more) room (result, rest, utf16 c ++ written).
Proof.
  intros Hs Hroom (text & cs & -> & Ha & -> & Hle & Hstop). exists (s ++ text), (c :: cs). split_and!.
  - by rewrite app_assoc.
  - by constructor.
  - unfold utf16_text. by rewrite bind_cons.
  - rewrite length_app. lia.
  - rewrite length_app. by replace (room - _) with (room - N.of_nat (length (utf16 c)) - N.of_nat (length (utf16_text cs))) by lia.
Qed.

Lemma convert_UTF8_reads strict fuel source room : (length source <= fuel)%nat -> Forall (fun b => b < 256) source ->
  exists r, convert_UTF8 strict fuel source room = Some r /\ reads source room r.
Proof.
  revert source room. induction fuel as [|fuel IH]; intros source room Hfuel Hb; [destruct source; [|cbn in Hfuel; lia]; eexists; split; [done|by apply reads_nothing]|].
  destruct source as [|b0 rest]; [eexists; split; [done|by apply reads_nothing]|]. pose proof Hb as [Hb0 _]%Forall_cons. cbn [convert_UTF8].
  destruct (front_sequence b0 rest Hb0) as [[Hshort Hu]|[(-> & -> & Hu)|(s & c & more & Heq & -> & Hs & Hl & -> & -> & ->)]]; cbn [mbind option_bind negb].
  - rewrite Hshort. eexists. split; [done|]. apply reads_nothing. split; [done|]. exists b0, rest. split; [done|]. unfold shorter in Hshort. apply Nat.ltb_lt in Hshort. lia.
  - eexists. split; [done|]. by apply reads_nothing.
  - rewrite Heq in *. pose proof (sequence_scalar _ _ Hs) as Hc. destruct (plane_tests c) as [-> ->]; [unfold scalar in Hc; lia|]. rewrite N2Z.id.
    assert (length s <> 0)%nat as Hne by (destruct (sequence_length _ _ Hs) as (? & ? & -> & _); done).
    assert (forall room', exists r, convert_UTF8 strict fuel more room' = Some r /\ reads more room' r) as IH'.
    { intros room'. apply IH; [rewrite length_app in Hfuel; lia|]. by apply Forall_app in Hb as [_ ?]. }
    assert (N.of_nat (length (utf16 c)) <= room -> exists r, (r ← convert_UTF8 strict fuel more (room - N.of_nat (length (utf16 c)));
      let '(result, rest, more) := r in Some (result, rest, utf16 c ++ more)) = Some r /\ reads (s ++ more) room r) as Hgo.
    { intros Hroom. destruct (IH' (room - N.of_nat (length (utf16 c)))) as ([[result rest'] written] & -> & Hr). eexists. split; [done|]. by apply reads_cons. }
    assert (room < N.of_nat (length (utf16 c)) -> reads (s ++ more) room (targetExhausted, s ++ more, [])) as Hfull.
    { intros Hroom. apply reads_nothing. by exists s, c, more. }
    unfold scalar in Hc. destruct (c <? 0x10000) eqn:Ec; breflect; cbn [negb].
    + assert (utf16 c = [c]) as E by (unfold utf16; by rewrite (proj2 (N.ltb_lt c 0x10000)) by lia). rewrite E in *. rewrite not_surrogate by done.
      destruct (room =? 0) eqn:E0; breflect; [eexists; split; [done|apply Hfull; cbn; lia]|]. apply Hgo. cbn. lia.
    + rewrite utf16_pair in * by lia.
      destruct (room =? 0) eqn:E0; breflect; [eexists; split; [done|apply Hfull; cbn; lia]|].
      destruct (room =? 1) eqn:E1; breflect; [eexists; split; [done|apply Hfull; cbn; lia]|]. apply Hgo. cbn. lia.
Qed.

(** ** [String::fromUTF8] *)

Lemma ascii_prologue_spec address characters bits : let '(address', rest, bits') := ascii_prologue address characters bits in
  exists front, characters = front ++ rest /\ bits' = foldl N.lor bits front /\ address' = address + N.of_nat (length front) /\ (rest = [] \/ isAlignedToMachineWord address' = true).
Proof.
  revert address bits. induction characters as [|c rest IH]; intros address bits; cbn [ascii_prologue]; [exists []; split_and!; [done|done|cbn; lia|by left]|].
  destruct (isAlignedToMachineWord address) eqn:E; [exists []; split_and!; [done|done|cbn; lia|by right]|].
  specialize (IH (address + 1) (N.lor bits c)). destruct (ascii_prologue _ _ _) as [[address' rest'] bits'].
  destruct IH as (front & -> & -> & -> & Hend). exists (c :: front). split_and!; [done|done|cbn; lia|]. by replace (address + N.of_nat (length (c :: front))) with (address + 1 + N.of_nat (length front)) by (cbn; lia).
Qed.

Lemma mask_lor a b : N.land (N.lor a b) NonASCIIMask = 0 <-> N.land a NonASCIIMask = 0 /\ N.land b NonASCIIMask = 0.
Proof. by rewrite N.land_lor_distr_l, N.lor_eq_0_iff. Qed.

Lemma mask_byte c : c < 256 -> N.land c NonASCIIMask = 0 <-> c < 128.
Proof.
  intros Hc. pose proof (land_bytes c 128 0 0x80808080808080 Hc ltac:(lia)) as H. rewrite N.land_0_l, N.mul_0_r, !N.add_0_r in H.
  change NonASCIIMask with (128 + 256 * 0x80808080808080). rewrite H. by apply land_128.
Qed.

Lemma mask_foldl bits l : Forall (fun b => b < 256) l -> N.land (foldl N.lor bits l) NonASCIIMask = 0 <-> N.land bits NonASCIIMask = 0 /\ Forall (fun b => b < 128) l.
Proof.
  intros Hl. revert bits. induction Hl as [|c l Hc _ IH]; intros bits; cbn [foldl]; [split; [done|by intros [? _]]|].
  rewrite IH, mask_lor, Forall_cons, (mask_byte c Hc). tauto.
Qed.

Lemma ascii_words_spec fuel address end_ characters bits : Forall (fun b => b < 256) characters -> end_ = address + N.of_nat (length characters) ->
  isAlignedToMachineWord address = true \/ characters = [] -> (length characters <= fuel)%nat ->
  exists rest bits', ascii_words fuel address (alignToMachineWord end_) characters bits = Some (rest, bits') /\
    Forall (fun b => b < 256) rest /\ ((N.land bits' NonASCIIMask = 0 /\ Forall (fun b => b < 128) rest) <-> (N.land bits NonASCIIMask = 0 /\ Forall (fun b => b < 128) characters)).
Proof.
  intros Hb -> Hal Hfuel. revert address characters bits Hb Hal Hfuel. induction fuel as [|fuel IH]; intros address characters bits Hb Hal Hfuel; cbn [ascii_words];
    rewrite alignToMachineWord_spec; (destruct (_ <? _) eqn:E; breflect; [|by exists characters, bits]);
    (destruct Hal as [Hal| ->]; [|cbn in E; lia]); apply aligned_spec in Hal; assert (8 <= length characters)%nat as H8 by lia; [lia|].
  change (N.to_nat sizeof_MachineWord) with 8%nat. rewrite read_front by done. cbn [mbind option_bind]. rewrite <- alignToMachineWord_spec.
  assert (length (take 8 characters) = 8%nat) as Hlen by (rewrite length_take; lia).
  destruct (IH (address + sizeof_MachineWord) (drop 8 characters) (N.lor bits (le_value (take 8 characters)))) as (rest & bits' & E' & Hr & Hiff).
  - by apply Forall_drop.
  - left. apply aligned_spec. unfold sizeof_MachineWord. lia.
  - rewrite length_drop. lia.
  - exists rest, bits'. split_and!; [|done|].
    + rewrite <- E'. f_equal. f_equal. rewrite length_drop. unfold sizeof_MachineWord. lia.
    + rewrite Hiff, mask_lor. pose proof (isAllASCII_spec (take 8 characters) Hlen ltac:(by apply Forall_take)) as Ha. unfold isAllASCII in Ha. rewrite N.eqb_eq in Ha.
      rewrite Ha.
      assert (Forall (fun b => b < 128) characters <-> Forall (fun b => b < 128) (take 8 characters) /\ Forall (fun b => b < 128) (drop 8 characters)) as Hsplit
        by (by rewrite <- Forall_app, take_drop). tauto.
Qed.

Lemma charactersAreAllASCII_spec address characters : Forall (fun b => b < 256) characters ->
  charactersAreAllASCII address characters = Some (bool_decide (Forall (fun b => b < 128) characters)).
Proof.
  intros Hb. unfold charactersAreAllASCII. pose proof (ascii_prologue_spec address characters 0) as H. destruct (ascii_prologue address characters 0) as [[position rest] bits].
  destruct H as (front & -> & -> & -> & Hend). apply Forall_app in Hb as [Hb1 Hb2].
  destruct (ascii_words_spec (length rest) (address + N.of_nat (length front)) (address + N.of_nat (length (front ++ rest))) rest (foldl N.lor 0 front)) as (rest' & bits' & -> & Hr & Hiff);
    [done|rewrite length_app; lia|by destruct Hend; [right|left]|done|]. cbn [mbind option_bind]. f_equal. apply Bool.eq_iff_eq_true.
  rewrite N.eqb_eq, bool_decide_eq_true, mask_foldl, Hiff, mask_foldl, Forall_app by done. rewrite N.land_0_l. tauto.
Qed.

Lemma accepted_size text cs : accepted text cs -> (length (utf16_text cs) <= length text)%nat.
Proof.
  induction 1 as [|s c text cs Hs _ IH]; [done|]. unfold utf16_text in *. rewrite bind_cons, !length_app.
  assert (length (utf16 c) <= length s)%nat; [|lia]. destruct Hs as [[_ ->]|Hs]; [apply length_utf16|]. pose proof (length_utf16 c). destruct Hs; cbn; lia.
Qed.

Lemma accepted_ascii bytes : Forall (fun b => b < 128) bytes -> accepted bytes bytes /\ utf16_text bytes = bytes.
Proof.
  induction 1 as [|b bytes Hb _ [IH1 IH2]]; [by split; [constructor|]|]. destruct (ascii_scalar b Hb) as (H1 & H2 & H3). split.
  - change (b :: bytes) with ([b] ++ bytes) at 1. constructor; [|done]. left. by rewrite H2.
  - unfold utf16_text in *. by rewrite bind_cons, H3, IH2.
Qed.

Lemma sequence_read s c rest : sequence s c -> readUTF8Sequence (s ++ rest) (N.of_nat (length s)) = Some (Z.of_N c).
Proof.
  intros [[Hc ->]|Hs].
  - unfold scalar, utf8 in *. repeat case_match; breflect; cbn [app length];
      [change (N.of_nat 1) with 1; rewrite readUTF8Sequence_1|change (N.of_nat 2) with 2; rewrite readUTF8Sequence_2|change (N.of_nat 3) with 3; rewrite readUTF8Sequence_3|change (N.of_nat 4) with 4; rewrite readUTF8Sequence_4];
      f_equal; lia.
  - destruct Hs; cbn [app length]; [change (N.of_nat 3) with 3; rewrite readUTF8Sequence_3|change (N.of_nat 4) with 4; rewrite readUTF8Sequence_4]; f_equal; lia.
Qed.

(** A text is read in one way. *)
Lemma accepted_fun text cs cs' : accepted text cs -> accepted text cs' -> cs = cs'.
Proof.
  intros Ha. revert cs'. induction Ha as [|s c text cs Hs _ IH]; intros cs' Ha'.
  - inversion Ha' as [|s c text cs Hs _ Heq]; [done|]. destruct (sequence_length _ _ Hs) as (b & t & -> & _). done.
  - inversion Ha' as [Heq|s' c' text' cs2 Hs' Hr' Heq]; [destruct (sequence_length _ _ Hs) as (b & t & -> & _); done|].
    destruct (sequence_cut _ _ _ _ _ _ Hs' Hs Heq) as [-> ->]. f_equal; [|by apply IH].
    pose proof (sequence_read _ _ [] Hs) as H1. pose proof (sequence_read _ _ [] Hs') as H2. rewrite H1 in H2. injection H2 as H2. by apply N2Z.inj.
Qed.

(** The longest text that a string of 16-bit characters has room for. *)
Definition utf8_limit : N := (max32 - sizeof_StringImpl) / 2.

(** C24: [String::fromUTF8] returns on every text, whatever its address: it reads exactly the texts that are
    accepted, and answers null for the others.  These are the texts in UTF-8 and those with a stray sequence.
    It has 8-bit characters exactly when all are ASCII. *)
Theorem fromUTF8_spec (address : N) (bytes : list N) :
  Forall (fun b => b < 256) bytes -> N.of_nat (length bytes) <= utf8_limit ->
  exists s, fromUTF8 address bytes = Some s /\
    match s with
    | Some string => (exists cs, accepted bytes cs) /\ (forall cs, accepted bytes cs -> impl_chars string = utf16_text cs) /\
        (impl_is8Bit string = true <-> Forall (fun b => b < 128) bytes)
    | None => ~ exists cs, accepted bytes cs
    end.
Proof.
  intros Hb Hlimit. unfold utf8_limit, max32, sizeof_StringImpl in Hlimit. unfold fromUTF8, max32. rewrite (proj2 (N.ltb_ge _ _)) by lia.
  destruct (N.of_nat (length bytes) =? 0) eqn:E0; breflect.
  { destruct bytes; [|cbn in E0; lia]. eexists. split; [done|]. split_and!; [exists []; constructor|intros cs Hcs; by rewrite (accepted_fun [] cs [] Hcs) by constructor|done]. }
  rewrite charactersAreAllASCII_spec by done. cbn [mbind option_bind]. case_bool_decide as Hascii.
  - unfold String_create, max32. rewrite (proj2 (N.eqb_neq _ _)), (proj2 (N.ltb_ge _ _)) by (unfold sizeof_StringImpl, sizeof_CharType; lia). eexists. split; [done|].
    destruct (accepted_ascii bytes Hascii) as [H1 H2]. split_and!; [by exists bytes|intros cs Hcs; by rewrite (accepted_fun _ _ _ Hcs H1), H2|done].
  - rewrite (proj2 (N.ltb_ge _ _)) by lia. unfold convertUTF8ToUTF16.
    destruct (convert_UTF8_reads true (length bytes) bytes (N.of_nat (length bytes)) (Nat.le_refl _) Hb) as ([[result rest] written] & -> & (text & cs & Htext & Ha & -> & Hle & Hstop)).
    cbn [mbind option_bind]. case_bool_decide as Hresult.
    + subst result. cbn in Hstop. subst rest. rewrite app_nil_r in Htext. subst text.
      unfold String_create. assert (N.of_nat (length (utf16_text cs)) <> 0) as Hn.
      { destruct Ha as [|s c text cs Hs Ha]; [done|]. unfold utf16_text. rewrite bind_cons, length_app. pose proof (length_utf16 c). lia. }
      rewrite (proj2 (N.eqb_neq _ _)), (proj2 (N.ltb_ge _ _)) by (unfold max32, sizeof_StringImpl, sizeof_CharType; lia). eexists. split; [done|]. split_and!; [by exists cs|intros cs' Hcs'; by rewrite (accepted_fun _ _ _ Hcs' Ha)|done].
    + eexists. split; [done|]. rewrite Htext. assert (unreadable rest /\ rest <> []) as [Hu Hne].
      { destruct result; cbn in Hstop; [done|destruct Hstop as [Hu (b & rest' & -> & _)]; done| |done].
        destruct Hstop as (s & c & more & -> & Hs & Hroom). exfalso. pose proof (accepted_size text cs Ha) as H1. rewrite Htext, !length_app in Hroom.
        assert (length (utf16 c) <= length s)%nat; [|lia].
        pose proof (accepted_size (s ++ []) [c] ltac:(by constructor; [|constructor])) as H2. unfold utf16_text in H2. cbn in H2. by rewrite !app_nil_r in H2. }
      by apply (accepted_unreadable text cs).
Qed.

Lemma fromUTF8_spec_witness : exists s, fromUTF8 3 [0xC3; 0xA9; 65] = Some (Some s) /\ impl_chars s = [233; 65] /\ impl_is8Bit s = false.
Proof.
  destruct (fromUTF8_spec 3 [0xC3; 0xA9; 65]) as (s & E & Hs); [repeat constructor|vm_compute; discriminate|].
  destruct s as [s|]; [|exfalso; apply Hs; exists [233; 65]; apply (accepted_text [233; 65]); repeat constructor].
  destruct Hs as (_ & Hs & _). exists s. rewrite (Hs [233; 65]) by (apply (accepted_text [233; 65]); repeat constructor).
  split_and!; [exact E|reflexivity|]. vm_compute in E. injection E as <-. reflexivity.
Defined.

(** ** Hashing *)

Lemma isLegalUTF8_app b0 rest more : b0 < 256 -> shorter (b0 :: rest) (inlineUTF8SequenceLength b0) = false ->
  isLegalUTF8 ((b0 :: rest) ++ more) (inlineUTF8SequenceLength b0) = isLegalUTF8 (b0 :: rest) (inlineUTF8SequenceLength b0).
Proof.
  intros Hb Hlen. unfold shorter in Hlen. apply Nat.ltb_ge in Hlen. rewrite sequence_length_of_first in * by done. cbn [app].
  repeat case_match; [done|done| | | |done].
  - destruct rest as [|b1 rest]; [cbn in Hlen; lia|]. cbn [app]. by rewrite !isLegalUTF8_2.
  - destruct rest as [|b1 [|b2 rest]]; [cbn in Hlen; lia..|]. cbn [app]. by rewrite !isLegalUTF8_3.
  - destruct rest as [|b1 [|b2 [|b3 rest]]]; [cbn in Hlen; lia..|]. cbn [app]. by rewrite !isLegalUTF8_4.
Qed.

Section Hash.
(** The text is followed by its end, or by a null byte. *)
Context (has_end : bool) (tail : list N).
Context (Htail : if has_end then tail = [] else exists more, tail = 0 :: more).

Definition bytes_before_end (bytes : list N) : Prop := Forall (fun b => b < 256 /\ (has_end = false -> b <> 0)) bytes.

Lemma none_null_false {A} (test : A -> option bool) l : foldM (fun (complete : bool) i => if complete then test i else Some false) false l = Some false.
Proof. induction l as [|i l IH]; [done|]. cbn. apply IH. Qed.

Lemma none_null more bytes len k n : len - k = N.of_nat n -> k <= N.of_nat (length bytes) -> Forall (fun b => b <> 0) bytes ->
  foldM (fun (complete : bool) i => if complete then b ← (bytes ++ 0 :: more) !!N i; Some (negb (b =? 0)) else Some false) true (for_range k len) = Some (negb (shorter bytes len) || (len <=? k)).
Proof.
  revert k. induction n as [|n IH]; intros k Hn Hk Hb.
  - rewrite for_range_nil by lia. cbn. f_equal. rewrite (proj2 (N.leb_le len k)) by lia. by rewrite orb_true_r.
  - rewrite for_range_cons by lia. cbn [foldM]. rewrite (proj2 (N.leb_gt len k)), orb_false_r by lia.
    destruct (decide (k = N.of_nat (length bytes))) as [->|Hne].
    + rewrite Nat2N.id, list_lookup_middle by done. cbn -[for_range shorter]. rewrite none_null_false. unfold shorter. by rewrite (proj2 (Nat.ltb_lt _ _)) by lia.
    + destruct (lookup_lt_is_Some_2 (bytes ++ 0 :: more) (N.to_nat k)) as [b Hlook]; [rewrite length_app; cbn; lia|]. rewrite Hlook.
      rewrite lookup_app_l in Hlook by lia. eapply Forall_lookup_1 in Hb as Hb0; [|exact Hlook]. cbn -[for_range shorter]. rewrite (proj2 (N.eqb_neq b 0)) by done. cbn [negb].
      rewrite IH by (done || lia). f_equal. unfold shorter. destruct (len <=? k + 1) eqn:E; breflect; [|by rewrite orb_false_r]. by rewrite (proj2 (Nat.ltb_ge _ _)) by lia.
Qed.

Lemma complete_spec bytes len : bytes <> [] -> bytes_before_end bytes ->
  (if has_end then Some (negb (shorter (bytes ++ tail) len))
   else foldM (fun complete i => if (complete : bool) then b ← (bytes ++ tail) !!N i; Some (negb (b =? 0)) else Some false) true (for_range 1 len)) = Some (negb (shorter bytes len)).
Proof.
  unfold bytes_before_end. intros Hne Hb. destruct has_end; [by rewrite Htail, app_nil_r|]. destruct Htail as [more ->].
  rewrite (none_null more bytes len 1 (N.to_nat (len - 1))); [|lia|destruct bytes; [done|cbn; lia]|eapply Forall_impl; [exact Hb|]; cbn; intros b [_ H]; auto].
  f_equal. unfold shorter. destruct (len <=? 1) eqn:E; breflect; [|by rewrite orb_false_r]. rewrite (proj2 (Nat.ltb_ge _ _)); [done|]. destruct bytes; [done|cbn; lia].
Qed.

Lemma hash_UTF8_spec fuel bytes pre h dataLength utf16Length : (length bytes <= fuel)%nat -> bytes_before_end bytes -> hashed pre h ->
  dataLength + N.of_nat (length bytes) < 2 ^ 32 -> utf16Length + N.of_nat (length bytes) < 2 ^ 32 ->
  exists h' dl ul, hash_UTF8 has_end fuel (bytes ++ tail) h dataLength utf16Length = Some (h', dl, ul) /\
    match h' with
    | Some h' => exists cs, accepted bytes cs /\ hashed (pre ++ utf16_text cs) h' /\ dl = dataLength + N.of_nat (length bytes) /\ ul = utf16Length + N.of_nat (length (utf16_text cs))
    | None => ~ exists cs, accepted bytes cs
    end.
Proof.
  revert bytes pre h dataLength utf16Length. induction fuel as [|fuel IH]; intros bytes pre h dataLength utf16Length Hfuel Hb Hh Hdl Hul.
  1: destruct bytes; [|cbn in Hfuel; lia].
  2: destruct bytes as [|b0 rest].
  1,2: exists (Some h), dataLength, utf16Length; (split; [|exists []; rewrite app_nil_r; split_and!; [constructor|done|cbn; lia|cbn; lia]]);
      destruct has_end; [by subst tail|destruct Htail as [more ->]; done].
  pose proof Hb as [[Hb0 Hz] Hrest]%Forall_cons. cbn [app hash_UTF8]. change (2 ^ 32) with 4294967296 in *.
  assert (negb has_end && (b0 =? 0) = false) as -> by (destruct has_end; [done|]; apply N.eqb_neq; auto).
  assert (forall s c more h' dl, s ++ more = b0 :: rest -> sequence s c -> dl = dataLength + N.of_nat (length s) -> hashed (pre ++ utf16 c) h' ->
    exists r dl' ul', hash_UTF8 has_end fuel (more ++ tail) h' dl (wrap32 (utf16Length + N.of_nat (length (utf16 c)))) = Some (r, dl', ul') /\
    match r with
    | Some h' => exists cs, accepted (b0 :: rest) cs /\ hashed (pre ++ utf16_text cs) h' /\ dl' = dataLength + N.of_nat (length (b0 :: rest)) /\ ul' = utf16Length + N.of_nat (length (utf16_text cs))
    | None => ~ exists cs, accepted (b0 :: rest) cs
    end) as Hgo.
  { intros s c more h' dl Heq Hs -> Hh'. pose proof (accepted_size (s ++ []) [c] ltac:(by constructor; [|constructor])) as Hsize. unfold utf16_text in Hsize. cbn in Hsize. rewrite !app_nil_r in Hsize.
    rewrite <- Heq in *. rewrite length_app in *. apply Forall_app in Hb as [_ Hmore].
    assert (length s <> 0)%nat as Hne by (destruct (sequence_length _ _ Hs) as (? & ? & -> & _); done).
    unfold wrap32. change (2 ^ 32) with 4294967296. rewrite N.mod_small by lia.
    destruct (IH more (pre ++ utf16 c) h' (dataLength + N.of_nat (length s)) (utf16Length + N.of_nat (length (utf16 c)))) as (r & dl' & ul' & E & Hr); [lia|done|done|lia|lia|].
    exists r, dl', ul'. split; [done|]. destruct r as [h2|].
    - destruct Hr as (cs & Ha & Hh2 & -> & ->). exists (c :: cs). unfold utf16_text in *. rewrite bind_cons, length_app, app_assoc. split_and!; [by constructor|done|lia|lia].
    - intros [cs Ha]. apply Hr. apply (accepted_rest s [c] more cs); [|done]. replace s with (s ++ []) by (by rewrite app_nil_r). by constructor; [|constructor]. }
  destruct (isASCII b0) eqn:Ea.
  - pose proof Ea as Ea'. apply isASCII_lt in Ea'. destruct (ascii_scalar b0 Ea') as (H1 & H2 & H3). change (drop 1 (b0 :: rest ++ tail)) with (rest ++ tail).
    specialize (Hgo [b0] b0 rest (addCharacter b0 h) (wrap32 (dataLength + 1))). rewrite H3 in Hgo. apply Hgo; [done|left; by rewrite H2| |by apply hashed_one].
    unfold wrap32. cbn [length] in *. rewrite N.mod_small by (change (2 ^ 32) with 4294967296; lia). lia.
  - assert (inlineUTF8SequenceLengthNonASCII b0 = inlineUTF8SequenceLength b0) as -> by (unfold inlineUTF8SequenceLength; by rewrite Ea).
    change (b0 :: rest ++ tail) with ((b0 :: rest) ++ tail).
    rewrite complete_spec by done. cbn [mbind option_bind]. rewrite Bool.negb_involutive.
    destruct (front_sequence b0 rest Hb0) as [[Hshort Hu]|[(Hshort & Hl & Hu)|(s & c & more & Heq & Hdrop & Hs & Hl & Hshort & Hlegal & Hread)]]; rewrite Hshort.
    + eexists _, _, _. split; [done|]. by apply (accepted_unreadable [] [] (b0 :: rest)); [constructor|..].
    + rewrite isLegalUTF8_app, Hl by done. cbn [mbind option_bind negb]. eexists _, _, _. split; [done|]. by apply (accepted_unreadable [] [] (b0 :: rest)); [constructor|..].
    + rewrite isLegalUTF8_app, Hlegal by done. cbn [mbind option_bind negb]. pose proof (sequence_read s c (more ++ tail) Hs) as Hr. rewrite app_assoc, <- Heq, <- Hl in Hr. rewrite Hr. cbn [mbind option_bind].
      assert (drop (N.to_nat (inlineUTF8SequenceLength b0)) ((b0 :: rest) ++ tail) = more ++ tail) as ->.
      { rewrite Heq, Hl, Nat2N.id, <- app_assoc. apply drop_app_length. }
      pose proof (sequence_scalar _ _ Hs) as Hc. destruct (plane_tests c) as [-> ->]; [unfold scalar in Hc; lia|]. rewrite N2Z.id.
      assert (wrap32 (dataLength + inlineUTF8SequenceLength b0) = dataLength + N.of_nat (length s)) as Hlen.
      { apply (f_equal length) in Heq. rewrite length_app in Heq. rewrite Hl. unfold wrap32. apply N.mod_small. change (2 ^ 32) with 4294967296. lia. }
      destruct (c <? 0x10000) eqn:Ec; breflect; cbn [negb].
      * assert (utf16 c = [c]) as E by (unfold utf16; by rewrite (proj2 (N.ltb_lt c 0x10000)) by lia). rewrite not_surrogate by done.
        specialize (Hgo s c more (addCharacter c h) (wrap32 (dataLength + inlineUTF8SequenceLength b0))). rewrite E in Hgo. apply Hgo; [done|done|done|by apply hashed_one].
      * unfold scalar in Hc. specialize (Hgo s c more (addTwoCharacters (U16_LEAD c) (U16_TRAIL c) h) (wrap32 (dataLength + inlineUTF8SequenceLength b0))). rewrite utf16_pair in Hgo by lia.
        apply Hgo; [done|done|done|by apply hashed_two].
Qed.
End Hash.

(** ** Comparing *)

Lemma char_differs_ascii a b : b < 128 -> char_differs a b = negb (a =? b).
Proof. intros Hb. unfold char_differs. by rewrite (proj2 (isASCII_lt b) Hb). Qed.

Lemma char_differs_high a b : 128 <= b -> char_differs a b = true.
Proof. intros Hb. unfold char_differs. destruct (isASCII b) eqn:E; [apply isASCII_lt in E; lia|done]. Qed.

(** A sequence is an ASCII character, or it and what it is read as start with something else. *)
Lemma sequence_kinds s c : sequence s c -> (c < 128 /\ s = [c]) \/ (128 <= c /\ exists b s', s = b :: s' /\ 128 <= b /\ isASCII b = false /\ inlineUTF8SequenceLengthNonASCII b = N.of_nat (length s)).
Proof.
  intros Hs. destruct (decide (c < 128)) as [Hc|Hc].
  - left. split; [done|]. destruct Hs as [[_ ->]|Hs]; [by destruct (ascii_scalar c Hc) as (_ & -> & _)|destruct Hs; lia].
  - right. split; [lia|]. destruct (sequence_length _ _ Hs) as (b & t & -> & Hb & Hl & _). exists b, t. split; [done|].
    assert (128 <= b) as Hge; [|assert (isASCII b = false) as Ha by (apply Bool.not_true_iff_false; rewrite isASCII_lt; lia); split_and!; [done|done|]; unfold inlineUTF8SequenceLength in Hl; by rewrite Ha in Hl].
    destruct Hs as [[Hsc Heq]|Hs]; [|inversion Hs; lia]. unfold utf8 in Heq. unfold scalar in Hsc. repeat case_match; breflect; injection Heq as -> _; lia.
Qed.

Lemma equalUTF16WithUTF8_spec b cs : accepted b cs -> forall fuel a, (length b <= fuel)%nat -> length a = length (utf16_text cs) ->
  equalUTF16WithUTF8 fuel a b = Some (bool_decide (a = utf16_text cs)).
Proof.
  induction 1 as [|s c b cs Hs Ha IH]; intros fuel a Hfuel Hlen; [destruct a; [|done]; by destruct fuel|].
  unfold utf16_text in *. rewrite bind_cons in *. pose proof (sequence_scalar _ _ Hs) as Hc.
  destruct (sequence_kinds _ _ Hs) as [[Hc128 ->]|(Hc128 & b0 & t & -> & Hb0 & Hascii & Hl)].
  - destruct (ascii_scalar c Hc128) as (_ & _ & Hu). rewrite Hu in *. cbn [app length] in *. destruct fuel as [|fuel]; [lia|]. destruct a as [|a0 a]; [done|].
    cbn [equalUTF16WithUTF8]. rewrite (proj2 (isASCII_lt c) Hc128), orb_true_r, char_differs_ascii by done. destruct (a0 =? c) eqn:E; breflect; cbn [negb].
    + subst a0. rewrite IH by (cbn in Hlen; lia). f_equal. apply bool_decide_ext. split; [by intros ->|by intros [= ->]].
    + symmetry. f_equal. apply bool_decide_eq_false. congruence.
  - cbn [app] in *. destruct fuel as [|fuel]; [cbn in Hfuel; lia|]. destruct a as [|a0 a]; [rewrite length_app in Hlen; pose proof (length_utf16 c); cbn in Hlen; lia|].
    cbn [equalUTF16WithUTF8]. rewrite Hascii, orb_false_r. assert (exists u us, utf16 c = u :: us /\ 128 <= u) as (u & us & Hus & Hu).
    { unfold utf16. case_match; eexists _, _; (split; [done|]); [done|lia]. }
    destruct (isASCII a0) eqn:Ea.
    { rewrite char_differs_high by done. symmetry. f_equal. apply bool_decide_eq_false. rewrite Hus. apply isASCII_lt in Ea. intros [= -> _]. lia. }
    rewrite Hl. change (b0 :: t ++ b) with ((b0 :: t) ++ b). unfold shorter. rewrite (proj2 (Nat.ltb_ge _ _)) by (rewrite length_app; lia).
    rewrite (legal_complete _ c b Hs), (sequence_read _ c b Hs). cbn [mbind option_bind negb]. rewrite Nat2N.id, drop_app_length.
    destruct (plane_tests c) as [-> ->]; [unfold scalar in Hc; lia|]. rewrite N2Z.id. cbn [length] in Hfuel. rewrite length_app in Hfuel. unfold scalar in Hc.
    destruct (c <? 0x10000) eqn:Ec; breflect; cbn [negb].
    + assert (utf16 c = [c]) as E by (unfold utf16; by rewrite (proj2 (N.ltb_lt c 0x10000)) by lia). rewrite not_surrogate by done. rewrite E in *. cbn [app length] in *.
      destruct (a0 =? c) eqn:E'; breflect; cbn [negb].
      * subst a0. rewrite IH by lia. f_equal. apply bool_decide_ext. split; [by intros ->|by intros [= ->]].
      * symmetry. f_equal. apply bool_decide_eq_false. congruence.
    + rewrite utf16_pair in * by lia. cbn [app length] in *. destruct (a0 =? U16_LEAD c) eqn:E'; breflect; cbn [negb]; [|symmetry; f_equal; apply bool_decide_eq_false; congruence].
      destruct a as [|a1 a]; [cbn in Hlen; lia|]. destruct (a1 =? U16_TRAIL c) eqn:E''; breflect; cbn [negb]; [|symmetry; f_equal; apply bool_decide_eq_false; congruence].
      subst. rewrite IH by (cbn in *; lia). f_equal. apply bool_decide_ext. split; [by intros ->|by intros [= ->]].
Qed.

Lemma two_bytes c : 128 <= c < 0x800 -> (N.land (0xC0 + c / 64) 0xE0 =? 0xC0) = true /\ (N.land (0x80 + c mod 64) 0xC0 =? 0x80) = true /\
  wrap8 (N.lor (N.shiftl (N.land (0xC0 + c / 64) 0x1F) 6) (N.land (0x80 + c mod 64) 0x3F)) = c mod 256.
Proof.
  intros Hc. assert (forallb (fun c => (N.land (0xC0 + c / 64) 0xE0 =? 0xC0) && (N.land (0x80 + c mod 64) 0xC0 =? 0x80) &&
    (wrap8 (N.lor (N.shiftl (N.land (0xC0 + c / 64) 0x1F) 6) (N.land (0x80 + c mod 64) 0x3F)) =? c mod 256)) (for_range 128 0x800) = true) as Hall by (vm_compute; reflexivity).
  rewrite forallb_forall in Hall. specialize (Hall c ltac:(apply list_elem_of_In, elem_of_for_range; lia)). apply andb_true_iff in Hall as [[H1 H2]%andb_true_iff H3%N.eqb_eq]. done.
Qed.

Lemma three_byte_lead b : 224 <= b < 256 -> (N.land b 0xE0 =? 0xC0) = false.
Proof.
  intros Hb. assert (forallb (fun b => negb (N.land b 0xE0 =? 0xC0)) (for_range 224 256) = true) as Hall by (vm_compute; reflexivity).
  rewrite forallb_forall in Hall. specialize (Hall b ltac:(apply list_elem_of_In, elem_of_for_range; lia)). by apply negb_true_iff in Hall.
Qed.

(** What [equalLatin1WithUTF8] takes for the same character: the byte that is left of a character of two bytes. *)
Definition latin1_same (a u : N) : Prop := a = u \/ (128 <= a /\ 128 <= u < 0x800 /\ a = u mod 256).

Lemma equalLatin1WithUTF8_spec b cs : accepted b cs -> forall a, Forall (fun a => a < 256) a -> length a = length (utf16_text cs) ->
  exists same, equalLatin1WithUTF8 a b = Some same /\ (same = true <-> Forall2 latin1_same a (utf16_text cs)).
Proof.
  induction 1 as [|s c b cs Hs Ha IH]; intros a Hbytes Hlen; [destruct a; [|done]; exists true; split; [done|]; by split; [constructor|]|].
  unfold utf16_text in *. rewrite bind_cons in *. pose proof (sequence_scalar _ _ Hs) as Hc.
  assert (exists u us, utf16 c = u :: us) as (u & us & Hus) by (unfold utf16; case_match; by eexists _, _).
  destruct a as [|a0 a]; [rewrite Hus in Hlen; done|]. apply Forall_cons in Hbytes as [Ha0 Hbytes].
  assert (forall (P : Prop), ~ latin1_same a0 u -> exists same, Some false = Some same /\ (same = true <-> Forall2 latin1_same (a0 :: a) (utf16 c ++ (cs ≫= utf16)))) as Hno.
  { intros _ Hn. exists false. split; [done|]. split; [done|]. rewrite Hus. cbn [app]. intros Hf. apply Forall2_cons in Hf as [? _]. done. }
  destruct (sequence_kinds _ _ Hs) as [[Hc128 ->]|(Hc128 & b0 & t & -> & Hb0 & Hascii & Hl)].
  - destruct (ascii_scalar c Hc128) as (_ & _ & Hu). rewrite Hu in *. injection Hus as <- <-. cbn [app length] in *.
    cbn [equalLatin1WithUTF8]. rewrite (proj2 (isASCII_lt c) Hc128), orb_true_r, char_differs_ascii by done. destruct (a0 =? c) eqn:E; breflect; cbn [negb].
    + subst a0. destruct (IH a Hbytes ltac:(lia)) as (same & -> & Hiff). exists same. split; [done|]. rewrite Hiff, Forall2_cons. unfold latin1_same at 2. tauto.
    + apply (Hno True). unfold latin1_same. lia.
  - cbn [app equalLatin1WithUTF8]. rewrite Hascii, orb_false_r. destruct (isASCII a0) eqn:Ea.
    { rewrite char_differs_high by done. apply isASCII_lt in Ea. apply (Hno True). unfold latin1_same. assert (128 <= u) by (unfold utf16 in Hus; case_match; injection Hus as <- _; lia). lia. }
    assert (128 <= a0) as Hge by (destruct (decide (a0 < 128)) as [H|H]; [apply isASCII_lt in H; congruence|lia]).
    destruct (decide (c < 0x800)) as [H800|H800].
    + assert (b0 :: t = [0xC0 + c / 64; 0x80 + c mod 64]) as Heq.
      { destruct Hs as [[_ Heq]|Hs]; [|inversion Hs; lia]. unfold utf8 in Heq. rewrite (proj2 (N.ltb_ge c 0x80)), (proj2 (N.ltb_lt c 0x800)) in Heq by lia. done. }
      injection Heq as -> ->. cbn [app].
      destruct (two_bytes c ltac:(lia)) as (-> & -> & ->). cbn [negb orb].
      assert (utf16 c = [c]) as E by (unfold utf16; by rewrite (proj2 (N.ltb_lt c 0x10000)) by lia). rewrite E in *. injection Hus as <- <-. cbn [app length] in *.
      destruct (a0 =? c mod 256) eqn:E'; breflect; cbn [negb].
      * destruct (IH a Hbytes ltac:(lia)) as (same & -> & Hiff). exists same. split; [done|]. rewrite Hiff, Forall2_cons. unfold latin1_same at 2. split; [|tauto]. intros; split; [right; lia|done].
      * apply (Hno True). unfold latin1_same. lia.
    + assert (224 <= b0 < 256) as Hb3.
      { destruct (sequence_length _ _ Hs) as (b' & t' & [= <- <-] & Hb' & _). split; [|done]. destruct Hs as [[_ Heq]|Hs]; [|inversion Hs; lia].
        unfold utf8 in Heq. rewrite (proj2 (N.ltb_ge c 0x80)), (proj2 (N.ltb_ge c 0x800)) in Heq by lia. case_match; breflect; injection Heq as -> _; lia. }
      destruct t as [|b1 t]; [exfalso; pose proof (sequence_length_of_first b0 ltac:(lia)) as Hf; unfold inlineUTF8SequenceLength in Hf; rewrite Hascii, Hl in Hf; cbn in Hf; repeat case_match; breflect; lia|]. cbn [app].
      rewrite three_byte_lead by done. cbn [negb orb]. apply (Hno True). unfold latin1_same.
      assert (0x800 <= u) by (unfold utf16 in Hus; case_match; injection Hus as <- _; lia). lia.
Qed.

(** ** The keys of the table of atomic strings *)

Lemma compare_false (chars bytes : list N) l : foldM (fun same i => if (same : bool) then a ← chars !!N i; b ← bytes !!N i; Some (negb (char_differs a b)) else Some false) false l = Some false.
Proof. induction l as [|i l IH]; [done|]. cbn. apply IH. Qed.

(** The comparison of ASCII characters one by one. *)
Lemma compare_spec (chars bytes more : list N) n k : N.of_nat (length bytes) - k = N.of_nat n -> k <= N.of_nat (length bytes) -> length chars = length bytes -> Forall (fun b => b < 128) bytes ->
  foldM (fun same i => if (same : bool) then a ← chars !!N i; b ← (bytes ++ more) !!N i; Some (negb (char_differs a b)) else Some false) true (for_range k (N.of_nat (length bytes)))
  = Some (bool_decide (drop (N.to_nat k) chars = drop (N.to_nat k) bytes)).
Proof.
  revert k. induction n as [|n IH]; intros k Hn Hk Hlen Hb.
  - rewrite for_range_nil by lia. cbn. rewrite bool_decide_true; [done|]. by rewrite !drop_ge by lia.
  - rewrite for_range_cons by lia. cbn [foldM].
    destruct (lookup_lt_is_Some_2 chars (N.to_nat k)) as [a Ha]; [lia|]. destruct (lookup_lt_is_Some_2 bytes (N.to_nat k)) as [b Hb']; [lia|].
    rewrite (lookup_app_l_Some _ _ _ _ Hb'), Ha. cbn -[for_range]. eapply Forall_lookup_1 in Hb as Hb1; [|exact Hb']. rewrite char_differs_ascii, negb_involutive by done.
    rewrite (drop_S _ _ _ Ha), (drop_S _ _ _ Hb'). destruct (a =? b) eqn:E; breflect.
    + subst a. rewrite IH by (done || lia). replace (N.to_nat (k + 1)) with (S (N.to_nat k)) by lia. f_equal. apply bool_decide_ext. split; [by intros ->|by intros [= ->]].
    + rewrite compare_false. symmetry. f_equal. apply bool_decide_eq_false. congruence.
Qed.

Lemma accepted_utf16_ascii cs text : accepted text cs -> Forall (fun u => u < 128) (utf16_text cs) <-> Forall (fun b => b < 128) text.
Proof.
  induction 1 as [|s c text cs Hs _ IH]; [done|]. unfold utf16_text in *. rewrite bind_cons, !Forall_app, IH.
  destruct (sequence_kinds _ _ Hs) as [[Hc ->]|(Hc & b & t & -> & Hb & _)].
  - destruct (ascii_scalar c Hc) as (_ & _ & ->). done.
  - split; intros [H _]; exfalso; [|apply Forall_cons in H as [H _]; lia]. unfold utf16 in H. case_match; apply Forall_cons in H as [H _]; lia.
Qed.

(** All the bytes are ASCII when there are as many characters. *)
Lemma utf16_shorter text cs : accepted text cs -> length (utf16_text cs) = length text <-> Forall (fun b => b < 128) text.
Proof.
  intros Ha. split; [|intros Hascii; destruct (accepted_ascii _ Hascii) as [H1 H2]; by rewrite (accepted_fun _ _ _ Ha H1), H2].
  induction Ha as [|s c text cs Hs Ha IH]; [done|]. unfold utf16_text in *. rewrite bind_cons, !length_app. intros Hlen.
  pose proof (accepted_size _ _ Ha) as H1. unfold utf16_text in H1. destruct (sequence_kinds _ _ Hs) as [[Hc ->]|(Hc & b & t & -> & Hb & _ & Hl)].
  - destruct (ascii_scalar c Hc) as (_ & _ & Hu). rewrite Hu in *. cbn [length] in *. apply Forall_app. split; [by repeat constructor|]. apply IH. lia.
  - exfalso. assert (length (utf16 c) < length (b :: t))%nat; [|lia]. destruct Hs as [[Hsc ->]|Hs]; [|inversion Hs; subst; unfold utf16; case_match; cbn; lia].
    unfold utf8, utf16. repeat case_match; breflect; cbn; lia.
Qed.

Lemma latin1_same_ascii chars units : Forall (fun u => u < 128) units -> Forall2 latin1_same chars units <-> chars = units.
Proof.
  intros Hu. revert chars. induction Hu as [|u units Hu _ IH]; intros chars; [split; [by inversion 1|by intros ->]|]. split.
  - inversion 1 as [|a ? chars' ? Ha Hc]; subst. f_equal; [unfold latin1_same in Ha; lia|by apply IH].
  - intros ->. constructor; [by left|by apply IH].
Qed.

Lemma accepted_app text cs rest cs' : accepted text cs -> accepted rest cs' -> accepted (text ++ rest) (cs ++ cs').
Proof. intros Ha Hr. induction Ha as [|s c text cs Hs _ IH]; [done|]. rewrite <- app_assoc. by constructor. Qed.

(** An accepted text is converted into a room of just its size. *)
Lemma convert_accepted bytes cs : accepted bytes cs -> convertUTF8ToUTF16 true bytes (N.of_nat (length (utf16_text cs))) =
  Some (conversionOK, [], utf16_text cs, forallb (fun c => N.ldiff c 0x7F =? 0) (utf16_text cs)).
Proof.
  intros Ha. unfold convertUTF8ToUTF16.
  destruct (convert_UTF8_reads true (length bytes) bytes (N.of_nat (length (utf16_text cs))) (Nat.le_refl _) (accepted_bytes _ _ Ha)) as ([[result rest] written] & -> & (text & cs1 & -> & Ha1 & -> & Hle & Hstop)).
  destruct (accepted_rest _ _ _ _ Ha1 Ha) as [cs2 Ha2]. pose proof (accepted_fun _ _ _ Ha (accepted_app _ _ _ _ Ha1 Ha2)) as ->.
  cbn [mbind option_bind]. destruct result; cbn in Hstop.
  - subst rest. inversion Ha2 as [|s c text' cs3 Hs _ Heq]; [by rewrite app_nil_r|]. destruct (sequence_length _ _ Hs) as (? & ? & -> & _). done.
  - destruct Hstop as [Hu (b & rest' & -> & _)]. inversion Ha2 as [|s c text' cs3 Hs _ Heq]; subst. by destruct (Hu s c text').
  - destruct Hstop as (s & c & more & -> & Hs & Hroom). exfalso. inversion Ha2 as [Heq|s' c' text' cs3 Hs' _ Heq]; subst; [destruct (sequence_length _ _ Hs) as (? & ? & -> & _); done|].
    destruct (sequence_cut _ _ _ _ _ _ Hs' Hs Heq) as [-> ->]. pose proof (sequence_read _ _ [] Hs) as H1. rewrite (sequence_read _ _ [] Hs') in H1. injection H1 as H1%N2Z.inj. subst c'.
    assert (utf16_text (c :: cs3) = utf16 c ++ utf16_text cs3) as E by (unfold utf16_text; by rewrite bind_cons).
    rewrite utf16_text_app, E, !length_app in Hroom. lia.
  - destruct Hstop as [Hu Hne]. inversion Ha2 as [|s c text' cs3 Hs _ Heq]; subst; [done|]. by destruct (Hu s c text').
Qed.

(** ** The laws of the translator *)

Lemma translator_string hash bytes tail cs : accepted bytes cs -> N.of_nat (length bytes) <= utf8_limit ->
  exists s, translate (mkUTF8Buffer hash (bytes ++ tail) (N.of_nat (length bytes)) (N.of_nat (length (utf16_text cs)))) = Some (Some s) /\
    impl_chars s = utf16_text cs /\ (impl_is8Bit s = true <-> Forall (fun b => b < 128) bytes).
Proof.
  intros Ha Hlimit. unfold translate, utf8_limit, max32, sizeof_StringImpl in *. cbn [u_length u_characters u_utf16Length]. rewrite !Nat2N.id, take_app_length.
  rewrite convert_accepted by done. pose proof (accepted_size _ _ Ha) as Hsize.
  assert (forallb (fun c => N.ldiff c 0x7F =? 0) (utf16_text cs) = bool_decide (Forall (fun b => b < 128) bytes)) as ->.
  { apply Bool.eq_iff_eq_true. rewrite bool_decide_eq_true, <- (accepted_utf16_ascii _ _ Ha), forallb_forall, Forall_forall.
    split; intros H c Hc; apply isASCII_lt, H, list_elem_of_In, Hc. }
  case_bool_decide as Hascii.
  - assert (exists s, String_create UChar (repeat 0 (length (utf16_text cs))) = Some s) as [s0 E0].
    { unfold String_create. rewrite repeat_length. unfold max32, sizeof_StringImpl. case_match; [by eexists|]. rewrite (proj2 (N.ltb_ge _ _)) by (unfold sizeof_CharType; lia). by eexists. }
    rewrite E0. cbn [mbind option_bind]. destruct (accepted_ascii bytes Hascii) as [H1 H2]. rewrite (accepted_fun _ _ _ Ha H1), H2.
    unfold String_create. unfold max32, sizeof_StringImpl. case_match eqn:E; breflect.
    + exists StringImpl_empty. destruct bytes; [done|cbn in E; lia].
    + rewrite (proj2 (N.ltb_ge _ _)) by (unfold sizeof_CharType; lia). by eexists.
  - unfold String_create. rewrite repeat_length. unfold max32, sizeof_StringImpl. destruct (N.of_nat (length (utf16_text cs)) =? 0) eqn:E; breflect.
    { exfalso. apply Hascii, (accepted_utf16_ascii _ _ Ha). destruct (utf16_text cs); [done|cbn in E; lia]. }
    rewrite (proj2 (N.ltb_ge (_ / sizeof_CharType UChar) _)) by (unfold sizeof_CharType; lia). cbn [mbind option_bind option_map]. eexists. split; [done|]. cbn [impl_chars impl_is8Bit is_LChar].
    rewrite drop_ge by (rewrite repeat_length; lia). rewrite app_nil_r. done.
Qed.

Lemma translator_equal_spec hash bytes tail cs string : accepted bytes cs -> Forall (fun c => c < unit_limit (impl_is8Bit string)) (impl_chars string) ->
  exists same, translator_equal string (mkUTF8Buffer hash (bytes ++ tail) (N.of_nat (length bytes)) (N.of_nat (length (utf16_text cs)))) = Some same /\
    (same = true <-> if impl_is8Bit string then Forall2 latin1_same (impl_chars string) (utf16_text cs) else impl_chars string = utf16_text cs).
Proof.
  intros Ha Hc. destruct string as [is8Bit chars]. unfold translator_equal. cbn [u_length u_characters u_utf16Length impl_is8Bit impl_chars] in *. rewrite Nat2N.id, take_app_length.
  destruct (_ =? N.of_nat (length chars)) eqn:E1; breflect; cbn [negb].
  - apply Nat2N.inj in E1. destruct (N.of_nat (length (utf16_text cs)) =? N.of_nat (length bytes)) eqn:E2; breflect; cbn [negb].
    + apply Nat2N.inj in E2. pose proof (proj1 (utf16_shorter _ _ Ha) E2) as Hascii. rewrite (compare_spec chars bytes tail (length bytes) 0) by (lia || done).
      eexists. split; [done|]. rewrite !drop_0, bool_decide_eq_true. destruct (accepted_ascii _ Hascii) as [H1 H2]. rewrite (accepted_fun _ _ _ Ha H1), H2.
      destruct is8Bit; [by rewrite latin1_same_ascii|done].
    + destruct is8Bit.
      * by apply equalLatin1WithUTF8_spec.
      * rewrite (equalUTF16WithUTF8_spec _ _ Ha) by done. eexists. split; [done|]. by rewrite bool_decide_eq_true.
  - exists false. split; [done|]. split; [done|]. destruct is8Bit; [intros H%Forall2_length|intros ->]; congruence.
Qed.

(** C25: What [AtomicString::fromUTF8] looks up in its table: a text that is accepted has the hash and the length of
    the string it is read as, whether its end is given or it ends at a null byte; the translator makes that
    string; and a string of 16-bit characters is equal to the text exactly when it is that string.  A string of
    8-bit characters is also taken for equal when a character is only equal to the low byte of one that has two
    bytes in UTF-8.  Every other text has no buffer, and is the null string. *)
Theorem utf8_translator_spec (has_end : bool) (tail bytes : list N) :
  (if has_end then tail = [] else exists more, tail = 0 :: more) -> Forall (fun b => b < 256 /\ (has_end = false -> b <> 0)) bytes ->
  N.of_nat (length bytes) <= utf8_limit ->
  exists buffer, utf8_buffer has_end (bytes ++ tail) = Some buffer /\
  match buffer with
  | None => ~ exists cs, accepted bytes cs
  | Some buffer => exists cs, accepted bytes cs /\ u_hash buffer = computeHashAndMaskTop8Bits defaultConverter (utf16_text cs) /\
      (exists s, translate buffer = Some (Some s) /\ impl_chars s = utf16_text cs /\ (impl_is8Bit s = true <-> Forall (fun b => b < 128) bytes)) /\
      forall string, Forall (fun c => c < unit_limit (impl_is8Bit string)) (impl_chars string) -> exists same, translator_equal string buffer = Some same /\
        (same = true <-> if impl_is8Bit string then Forall2 latin1_same (impl_chars string) (utf16_text cs) else impl_chars string = utf16_text cs)
  end.
Proof.
  intros Htail Hb Hlimit. unfold utf8_buffer, calculateStringHashAndLengthFromUTF8MaskingTop8Bits. pose proof Hlimit as Hl. unfold utf8_limit, max32, sizeof_StringImpl in Hl.
  destruct (hash_UTF8_spec has_end tail Htail (length (bytes ++ tail)) bytes [] StringHasher_new 0 0) as (h & dl & ul & -> & Hh);
    [rewrite length_app; lia|done|apply hashed_new|change (2 ^ 32) with 4294967296; lia..|].
  cbn [mbind option_bind]. destruct h as [h|]; [|by exists None]. destruct Hh as (cs & Ha & Hh & -> & ->). rewrite !N.add_0_l.
  pose proof (masked_bounds h). rewrite (proj2 (N.eqb_neq _ _)) by lia. eexists. split; [done|]. cbn beta iota. exists cs. cbn [u_hash]. split_and!; [done| | |].
  - unfold computeHashAndMaskTop8Bits, hashWithTop8BitsMasked. by rewrite (hashed_avalanche _ _ _ Hh (hashed_compute _)).
  - by apply translator_string.
  - intros string Hs. by apply translator_equal_spec.
Qed.

Lemma utf8_translator_spec_witness : exists buffer cs, utf8_buffer false ([0xC3; 0xA9; 65] ++ [0; 7]) = Some (Some buffer) /\ accepted [0xC3; 0xA9; 65] cs /\
  u_hash buffer = computeHashAndMaskTop8Bits defaultConverter (utf16_text cs).
Proof.
  destruct (utf8_translator_spec false [0; 7] [0xC3; 0xA9; 65]) as (buffer & E & Hb); [by exists [7]|repeat constructor; discriminate|vm_compute; discriminate|].
  destruct buffer as [buffer|]; [|exfalso; apply Hb; exists [233; 65]; apply (accepted_text [233; 65]); repeat constructor].
  destruct Hb as (cs & Ha & Hh & _). exists buffer, cs. split_and!; [exact E|exact Ha|exact Hh].
Defined.

(** Where the conversions do not do what they mean to: the sequence ED 41 80, which is not UTF-8, is read as a
    character that swallows the A, by [String::fromUTF8] and by the hash; the string of the character E9 in
    Latin-1 is taken for equal to the text of U+01E9; the decoder of one sequence reads beyond the end of the empty
    string; and a [String] with a null character is not read back from its own [CString]. *)
Theorem unicode_divergences :
  fromUTF8 0 [0xED; 65; 0x80] = Some (String16 [0xC040]) /\ fromUTF8 0 [0xF4; 65; 0x80; 0x80] = Some (String16 (utf16 0xC1000)) /\
  (b ← utf8_buffer true [0xED; 65; 0x80]; b ← b; translate b) = Some (String16 [0xC040]) /\
  (b ← utf8_buffer true (utf8 0x1E9); b ← b; same ← translator_equal (mkImpl true [0xE9]) b; s ← translate b; Some (same, String_chars s)) = Some (true, [0x1E9]) /\
  decodeUTF8Sequence [0] = None /\
  (s ← String_utf8 (String8 [97; 0; 98]) LenientConversion; s ← fromUTF8_CString 0 s; Some (String_chars s)) = Some [97].
Proof. vm_compute. done. Qed.
