(* ===== verification/DecodeEscapeSequences.v ===== *)
(** * [WebCore/platform/text/DecodeEscapeSequences.h]: percent-encoded text

    A run of escape sequences is turned into bytes and decoded as UTF-8; the rest
    of the text is copied.  [None] is a crash of the builder or of the codec. *)

From S2P Require Import Prelude ASCII WTFString StringOps StringBuilder TextCodecUTF8.

Section Decode.
Context (hasOneRef : Buffer -> bool) (address : N).

(** WebCore/platform/text/DecodeEscapeSequences.h:73-73 [URLEscapeSequence::sequenceSize] *)
Definition sequenceSize : N := 3.

(** WebCore/platform/text/DecodeEscapeSequences.h:74-74 [URLEscapeSequence::findInString] *)
Definition findInString (string : WTFString) (startPosition : N) : option N :=
  find_from (drop (N.to_nat startPosition) (String_chars string)) 37 startPosition.

(** WebCore/platform/text/DecodeEscapeSequences.h:75-98 [URLEscapeSequence::findEndOfRun]: the loop, with a turn of fuel for each character *)
Fixpoint findEndOfRun (fuel : nat) (string : WTFString) (runEnd endPosition numberOfTrailingCharacters : N) : N :=
  match fuel with
  | O => runEnd
  | S fuel =>
      if runEnd <? endPosition then
        let c := String_at string runEnd in
        if c =? 37 then
          if (sequenceSize <=? endPosition - runEnd) && isASCIIHexDigit (String_at string (runEnd + 1)) && isASCIIHexDigit (String_at string (runEnd + 2))
          then findEndOfRun fuel string (runEnd + sequenceSize) endPosition 0
          else runEnd
        else if (0x40 <=? c) && (c <=? 0x7F) && (numberOfTrailingCharacters <? 2)
        then findEndOfRun fuel string (runEnd + 1) endPosition (numberOfTrailingCharacters + 1)
        else runEnd
      else runEnd
  end.

(** WebCore/platform/text/DecodeEscapeSequences.h:106-114 [URLEscapeSequence::decodeRun], the loop; [None] reads outside of the run *)
Fixpoint run_bytes (fuel : nat) (run : list N) : option (list N) :=
  match run, fuel with
  | [], _ => Some []
  | _, O => None
  | c :: rest, S fuel =>
      if c =? 37 then
        high ← run !!N 1; low ← run !!N 2;
        bytes ← run_bytes fuel (drop (N.to_nat sequenceSize) run);
        Some (wrap8 (N.lor (N.shiftl (toASCIIHexValue high) 4) (toASCIIHexValue low)) :: bytes)
      else bytes ← run_bytes fuel rest; Some (wrap8 c :: bytes)
  end.

(** WebCore/platform/text/DecodeEscapeSequences.h:99-117 [URLEscapeSequence::decodeRun], in UTF-8 *)
Definition decodeRun (run : list N) : option WTFString :=
  bytes ← run_bytes (length run) run;
  r ← decode TextCodecUTF8_new bytes (address + N.of_nat (length bytes)) true false false;
  Some r.1.2.

(** WebCore/platform/text/DecodeEscapeSequences.h:128-143 [decodeEscapeSequences]: the loop, with a turn of fuel for each character and one for the end *)
Fixpoint decode_runs (fuel : nat) (string : WTFString) (decodedPosition searchPosition : N) (result : StringBuilder)
    : option (N * StringBuilder) :=
  match fuel with
  | O => None
  | S fuel =>
      match findInString string searchPosition with
      | None => Some (decodedPosition, result)
      | Some encodedRunPosition =>
          let encodedRunEnd := findEndOfRun (length (String_chars string)) string encodedRunPosition (String_length string) 0 in
          if encodedRunEnd =? encodedRunPosition then decode_runs fuel string decodedPosition (encodedRunEnd + 1) result
          else
            decoded ← decodeRun (take (N.to_nat (encodedRunEnd - encodedRunPosition)) (drop (N.to_nat encodedRunPosition) (String_chars string)));
            if String_isEmpty decoded then decode_runs fuel string decodedPosition encodedRunEnd result
            else
              result ← append_substring hasOneRef string decodedPosition (encodedRunPosition - decodedPosition) result;
              result ← append_String hasOneRef decoded result;
              decode_runs fuel string encodedRunEnd encodedRunEnd result
      end
  end.

(** WebCore/platform/text/DecodeEscapeSequences.h:120-146 [decodeEscapeSequences], and URL.cpp's [decodeURLEscapeSequences] *)
Definition decodeURLEscapeSequences (string : WTFString) : option WTFString :=
  r ← decode_runs (S (length (String_chars string))) string 0 0 StringBuilder_empty;
  let '(decodedPosition, result) := r in
  result ← append_substring hasOneRef string decodedPosition (String_length string - decodedPosition) result;
  r ← toString hasOneRef result;
  Some r.2.
End Decode.
