(* ===== verification/SchemeRegistry.v ===== *)
(** * [WebCore/platform/SchemeRegistry.cpp]: what schemes are for

    The registry has a set of schemes for each property.  A set that is empty is
    filled with its defaults when it is next used; the sets compare their elements
    without regard to case, but for the one of the schemes that forbid domain
    relaxation.  A query that fills a set is not written back, since the next use
    fills it again with the same schemes.  [None] is the hash of a null string,
    which is a null dereference. *)

From S2P Require Import Prelude ASCII WTFString StringOps.

(** The static sets. *)
Inductive SchemeSet :=
| LocalSchemes | DisplayIsolatedSchemes | SecureSchemes | UniqueOriginSchemes | EmptyDocumentSchemes | ForbiddenSchemes
| CanDisplayOnlyIfCanRequestSchemes | NotAllowingJavascriptSchemes | LocalStorageSchemes | DatabaseSchemes | CORSSchemes
| ContentSecurityPolicySchemes | CachePartitioningSchemes.

#[export] Instance SchemeSet_eq_dec : EqDecision SchemeSet.
Proof. solve_decision. Defined.

Definition Registry : Type := SchemeSet -> list WTFString.

(** The registry before any use. *)
Definition Registry_new : Registry := fun _ => [].

Section Registry.
Context `{ICU} (cocoa : bool).

(** WebCore/platform/SchemeRegistry.cpp:33-45 [localURLSchemes], what it adds to an empty set *)
Definition localURLSchemes_defaults : list WTFString := String8 (lit "file") :: (if cocoa then [String8 (lit "applewebdata")] else []).

(** WebCore/platform/SchemeRegistry.cpp:53-64 [secureSchemes] *)
Definition secureSchemes_defaults : list WTFString := [String8 (lit "https"); String8 (lit "about"); String8 (lit "data")].

(** WebCore/platform/SchemeRegistry.cpp:66-79 [schemesWithUniqueOrigins] *)
Definition schemesWithUniqueOrigins_defaults : list WTFString := [String8 (lit "about"); String8 (lit "javascript"); String8 (lit "data")].

(** WebCore/platform/SchemeRegistry.cpp:81-89 [emptyDocumentSchemes] *)
Definition emptyDocumentSchemes_defaults : list WTFString := [String8 (lit "about")].

(** WebCore/platform/SchemeRegistry.cpp:97-106 [canDisplayOnlyIfCanRequestSchemes] *)
Definition canDisplayOnlyIfCanRequestSchemes_defaults : list WTFString := [String8 (lit "blob")].

(** WebCore/platform/SchemeRegistry.cpp:147-158 [CORSEnabledSchemes] *)
Definition CORSEnabledSchemes_defaults : list WTFString := [String8 (lit "http"); String8 (lit "https")].

Definition defaults (k : SchemeSet) : list WTFString :=
  match k with
  | LocalSchemes => localURLSchemes_defaults
  | SecureSchemes => secureSchemes_defaults
  | UniqueOriginSchemes => schemesWithUniqueOrigins_defaults
  | EmptyDocumentSchemes => emptyDocumentSchemes_defaults
  | CanDisplayOnlyIfCanRequestSchemes => canDisplayOnlyIfCanRequestSchemes_defaults
  | CORSSchemes => CORSEnabledSchemes_defaults
  | _ => []
  end.

(** The set, after it was filled. *)
Definition filled (r : Registry) (k : SchemeSet) : list WTFString := match r k with [] => defaults k | l => l end.

(** WTF/wtf/text/StringHash.h:134-137 [CaseFoldingHash::equal], or the equality of [StringHash] *)
Definition key_equal (k : SchemeSet) (a b : WTFString) : bool :=
  match k with ForbiddenSchemes => equal_strings a b | _ => equalIgnoringCase a b end.

Definition has (k : SchemeSet) (l : list WTFString) (scheme : WTFString) : bool := existsb (fun s => key_equal k s scheme) l.

Definition with_set (k : SchemeSet) (l : list WTFString) (r : Registry) : Registry := fun k' => if decide (k' = k) then l else r k'.

(** [HashSet::add], [remove] and [contains] of a set of the registry. *)
Definition add_scheme (k : SchemeSet) (scheme : WTFString) (r : Registry) : option Registry :=
  match scheme with
  | None => None
  | Some _ => let l := filled r k in Some (with_set k (if has k l scheme then l else l ++ [scheme]) r)
  end.

Definition remove_scheme (k : SchemeSet) (scheme : WTFString) (r : Registry) : option Registry :=
  match scheme with
  | None => None
  | Some _ => Some (with_set k (List.filter (fun s => negb (key_equal k s scheme)) (filled r k)) r)
  end.

Definition contains_scheme (k : SchemeSet) (scheme : WTFString) (r : Registry) : bool :=
  if String_isEmpty scheme then false else has k (filled r k) scheme.

(** ** The operations *)

(** WebCore/platform/SchemeRegistry.cpp:114-117 [SchemeRegistry::registerURLSchemeAsLocal] *)
Definition registerURLSchemeAsLocal := add_scheme LocalSchemes.

(** WebCore/platform/SchemeRegistry.cpp:119-128 [SchemeRegistry::removeURLSchemeRegisteredAsLocal] *)
Definition removeURLSchemeRegisteredAsLocal (scheme : WTFString) (r : Registry) : option Registry :=
  if equal_literal scheme (lit "file") then Some r
  else if cocoa && equal_literal scheme (lit "applewebdata") then Some r
  else remove_scheme LocalSchemes scheme r.

(** WebCore/platform/SchemeRegistry.cpp:130-133 [SchemeRegistry::localSchemes] *)
Definition localSchemes (r : Registry) : list WTFString := filled r LocalSchemes.

(** WebCore/platform/SchemeRegistry.cpp:174-179 [SchemeRegistry::shouldTreatURLSchemeAsLocal] *)
Definition shouldTreatURLSchemeAsLocal := contains_scheme LocalSchemes.

(** WebCore/platform/SchemeRegistry.cpp:181-184 [SchemeRegistry::registerURLSchemeAsNoAccess] *)
Definition registerURLSchemeAsNoAccess := add_scheme UniqueOriginSchemes.

(** WebCore/platform/SchemeRegistry.cpp:186-191 [SchemeRegistry::shouldTreatURLSchemeAsNoAccess] *)
Definition shouldTreatURLSchemeAsNoAccess := contains_scheme UniqueOriginSchemes.

(** WebCore/platform/SchemeRegistry.cpp:193-196 [SchemeRegistry::registerURLSchemeAsDisplayIsolated] *)
Definition registerURLSchemeAsDisplayIsolated := add_scheme DisplayIsolatedSchemes.

(** WebCore/platform/SchemeRegistry.cpp:198-203 [SchemeRegistry::shouldTreatURLSchemeAsDisplayIsolated] *)
Definition shouldTreatURLSchemeAsDisplayIsolated := contains_scheme DisplayIsolatedSchemes.

(** WebCore/platform/SchemeRegistry.cpp:205-208 [SchemeRegistry::registerURLSchemeAsSecure] *)
Definition registerURLSchemeAsSecure := add_scheme SecureSchemes.

(** WebCore/platform/SchemeRegistry.cpp:210-215 [SchemeRegistry::shouldTreatURLSchemeAsSecure] *)
Definition shouldTreatURLSchemeAsSecure := contains_scheme SecureSchemes.

(** WebCore/platform/SchemeRegistry.cpp:217-220 [SchemeRegistry::registerURLSchemeAsEmptyDocument] *)
Definition registerURLSchemeAsEmptyDocument := add_scheme EmptyDocumentSchemes.

(** WebCore/platform/SchemeRegistry.cpp:222-227 [SchemeRegistry::shouldLoadURLSchemeAsEmptyDocument] *)
Definition shouldLoadURLSchemeAsEmptyDocument := contains_scheme EmptyDocumentSchemes.

(** WebCore/platform/SchemeRegistry.cpp:229-238 [SchemeRegistry::setDomainRelaxationForbiddenForURLScheme] *)
Definition setDomainRelaxationForbiddenForURLScheme (forbidden : bool) (scheme : WTFString) (r : Registry) : option Registry :=
  if String_isEmpty scheme then Some r
  else if forbidden then add_scheme ForbiddenSchemes scheme r else remove_scheme ForbiddenSchemes scheme r.

(** WebCore/platform/SchemeRegistry.cpp:240-245 [SchemeRegistry::isDomainRelaxationForbiddenForURLScheme] *)
Definition isDomainRelaxationForbiddenForURLScheme := contains_scheme ForbiddenSchemes.

(** WebCore/platform/SchemeRegistry.cpp:247-252 [SchemeRegistry::canDisplayOnlyIfCanRequest] *)
Definition canDisplayOnlyIfCanRequest := contains_scheme CanDisplayOnlyIfCanRequestSchemes.

(** WebCore/platform/SchemeRegistry.cpp:254-257 [SchemeRegistry::registerAsCanDisplayOnlyIfCanRequest] *)
Definition registerAsCanDisplayOnlyIfCanRequest := add_scheme CanDisplayOnlyIfCanRequestSchemes.

(** WebCore/platform/SchemeRegistry.cpp:259-262 [SchemeRegistry::registerURLSchemeAsNotAllowingJavascriptURLs] *)
Definition registerURLSchemeAsNotAllowingJavascriptURLs := add_scheme NotAllowingJavascriptSchemes.

(** WebCore/platform/SchemeRegistry.cpp:264-269 [SchemeRegistry::shouldTreatURLSchemeAsNotAllowingJavascriptURLs] *)
Definition shouldTreatURLSchemeAsNotAllowingJavascriptURLs := contains_scheme NotAllowingJavascriptSchemes.

(** WebCore/platform/SchemeRegistry.cpp:271-274 [SchemeRegistry::registerURLSchemeAsAllowingLocalStorageAccessInPrivateBrowsing] *)
Definition registerURLSchemeAsAllowingLocalStorageAccessInPrivateBrowsing := add_scheme LocalStorageSchemes.

(** WebCore/platform/SchemeRegistry.cpp:276-281 [SchemeRegistry::allowsLocalStorageAccessInPrivateBrowsing] *)
Definition allowsLocalStorageAccessInPrivateBrowsing := contains_scheme LocalStorageSchemes.

(** WebCore/platform/SchemeRegistry.cpp:283-286 [SchemeRegistry::registerURLSchemeAsAllowingDatabaseAccessInPrivateBrowsing] *)
Definition registerURLSchemeAsAllowingDatabaseAccessInPrivateBrowsing := add_scheme DatabaseSchemes.

(** WebCore/platform/SchemeRegistry.cpp:288-293 [SchemeRegistry::allowsDatabaseAccessInPrivateBrowsing] *)
Definition allowsDatabaseAccessInPrivateBrowsing := contains_scheme DatabaseSchemes.

(** WebCore/platform/SchemeRegistry.cpp:295-298 [SchemeRegistry::registerURLSchemeAsCORSEnabled] *)
Definition registerURLSchemeAsCORSEnabled := add_scheme CORSSchemes.

(** WebCore/platform/SchemeRegistry.cpp:300-305 [SchemeRegistry::shouldTreatURLSchemeAsCORSEnabled] *)
Definition shouldTreatURLSchemeAsCORSEnabled := contains_scheme CORSSchemes.

(** WebCore/platform/SchemeRegistry.cpp:307-310 [SchemeRegistry::registerURLSchemeAsBypassingContentSecurityPolicy] *)
Definition registerURLSchemeAsBypassingContentSecurityPolicy := add_scheme ContentSecurityPolicySchemes.

(** WebCore/platform/SchemeRegistry.cpp:312-315 [SchemeRegistry::removeURLSchemeRegisteredAsBypassingContentSecurityPolicy] *)
Definition removeURLSchemeRegisteredAsBypassingContentSecurityPolicy := remove_scheme ContentSecurityPolicySchemes.

(** WebCore/platform/SchemeRegistry.cpp:317-322 [SchemeRegistry::schemeShouldBypassContentSecurityPolicy] *)
Definition schemeShouldBypassContentSecurityPolicy := contains_scheme ContentSecurityPolicySchemes.

(** WebCore/platform/SchemeRegistry.cpp:324-331 [SchemeRegistry::shouldCacheResponsesFromURLSchemeIndefinitely] *)
Definition shouldCacheResponsesFromURLSchemeIndefinitely (scheme : WTFString) : bool :=
  if cocoa && equalIgnoringCase scheme (String8 (lit "applewebdata")) then true
  else equalIgnoringCase scheme (String8 (lit "data")).

(** WebCore/platform/SchemeRegistry.cpp:334-337 [SchemeRegistry::registerURLSchemeAsCachePartitioned] *)
Definition registerURLSchemeAsCachePartitioned := add_scheme CachePartitioningSchemes.

(** WebCore/platform/SchemeRegistry.cpp:339-344 [SchemeRegistry::shouldPartitionCacheForURLScheme] *)
Definition shouldPartitionCacheForURLScheme := contains_scheme CachePartitioningSchemes.
End Registry.
