(* ===== verification/SecurityOrigin.v ===== *)
(** * [WebCore/page/SecurityOrigin]: origins

    Origins are shared objects: a reference is an object with its address, and
    the address is [None] for an object that nobody else refers to.  The origins
    that were registered for blob URLs are a map of the thread.  [None] as the
    answer of an operation is a crash or an access outside of a buffer. *)

From S2P Require Import Prelude ASCII WTFString StringOps StringBuilder URLCharacters URL URLParse URLEncode URLInit SchemeRegistry DecodeEscapeSequences.

(** ** Data *)

(** WebCore/page/SecurityOrigin.h:47-51 [SecurityOrigin::StorageBlockingPolicy] *)
Inductive StorageBlockingPolicy := AllowAllStorage | BlockThirdPartyStorage | BlockAllStorage.

#[export] Instance StorageBlockingPolicy_eq_dec : EqDecision StorageBlockingPolicy.
Proof. solve_decision. Defined.

(** WebCore/page/SecurityOrigin.h:41-45 [SecurityOrigin::Policy] *)
Inductive Policy := AlwaysDeny | AlwaysAllow | Ask.

(** WebCore/page/SecurityOrigin.h:228-239 [SecurityOrigin] *)
Record SecurityOrigin := mkOrigin {
  m_protocol : WTFString;
  m_host : WTFString;
  m_domain : WTFString;
  m_filePath : WTFString;
  m_port : N;
  m_isUnique : bool;
  m_universalAccess : bool;
  m_domainWasSetInDOM : bool;
  m_canLoadLocalResources : bool;
  m_storageBlockingPolicy : StorageBlockingPolicy;
  m_enforceFilePathSeparation : bool;
  m_needsDatabaseIdentifierQuirkForFiles : bool
}.

(** A reference to an origin. *)
Definition OriginRef : Type := option N * SecurityOrigin.

(** [this == other] *)
Definition same_object (a b : OriginRef) : bool :=
  match a.1, b.1 with Some x, Some y => x =? y | _, _ => false end.

(** WebCore/page/SecurityOrigin.cpp:45-46 [InvalidPort], [MaxAllowedPort] *)
Definition InvalidPort : N := 0.
Definition MaxAllowedPort : Z := 65535.

(** WebCore/page/SecurityOrigin.cpp:135-148 [SecurityOrigin::SecurityOrigin] *)
Definition uniqueOrigin : SecurityOrigin :=
  mkOrigin (String8 []) (String8 []) (String8 []) None InvalidPort true false false false AllowAllStorage false false.

(** WebCore/page/SecurityOrigin.cpp:150-164 [SecurityOrigin::SecurityOrigin], and [isolatedCopy]: an object with the same members *)
Definition isolatedCopy (other : SecurityOrigin) : OriginRef := (None, other).

(** WebCore/page/SecurityOrigin.cpp:191-196 [SecurityOrigin::createUnique] *)
Definition createUnique : OriginRef := (None, uniqueOrigin).

(** ** Ports and protocols *)

(** WebCore/platform/URL.cpp:1940-1948 [protocolIsInHTTPFamily] *)
Definition protocolIsInHTTPFamily (url : WTFString) : bool :=
  isLetterMatchIgnoringCase (String_at url 0) 104 && isLetterMatchIgnoringCase (String_at url 1) 116 &&
  isLetterMatchIgnoringCase (String_at url 2) 116 && isLetterMatchIgnoringCase (String_at url 3) 112 &&
  ((String_at url 4 =? 58) || (isLetterMatchIgnoringCase (String_at url 4) 115 && (String_at url 5 =? 58))).

Section Origins.
Context `{ICU} `{Encodings} (cocoa : bool) (hasOneRef : Buffer -> bool) (stack : N).

(** WebCore/platform/URL.cpp:1961-1975 [isDefaultPortForProtocol]; a protocol that is not in the map has the port 0 *)
Definition isDefaultPortForProtocol (port : N) (protocol : WTFString) : bool :=
  if String_isEmpty protocol then false
  else
    (if equalIgnoringCase (String8 (lit "http")) protocol then 80
     else if equalIgnoringCase (String8 (lit "https")) protocol then 443
     else if equalIgnoringCase (String8 (lit "ftp")) protocol then 21
     else if equalIgnoringCase (String8 (lit "ftps")) protocol then 990
     else 0) =? port.

(** WebCore/page/SecurityOrigin.cpp:48-54 [schemeRequiresHost] *)
Definition schemeRequiresHost (url : URL) : bool := m_protocolIsInHTTPFamily url || protocolIs url (lit "ftp").

(** WebCore/page/SecurityOrigin.cpp:56-63 [SecurityOrigin::shouldUseInnerURL] *)
Definition shouldUseInnerURL (url : URL) : bool := protocolIs url (lit "blob").

(** WebCore/page/SecurityOrigin.cpp:68-75 [SecurityOrigin::extractInnerURL]; [URL::innerURL] is always null *)
Definition extractInnerURL (url : URL) : option URL :=
  s ← decodeURLEscapeSequences hasOneRef stack (path url); URL_parsed s.

(** ** The predicates of an origin *)

(** WebCore/page/SecurityOrigin.cpp:457-460 [SecurityOrigin::isLocal] *)
Definition isLocal (registry : Registry) (o : SecurityOrigin) : bool := shouldTreatURLSchemeAsLocal cocoa (m_protocol o) registry.

(** WebCore/page/SecurityOrigin.h:223-223 [SecurityOrigin::isHTTPFamily] *)
Definition isHTTPFamily (o : SecurityOrigin) : bool := equal_literal (m_protocol o) (lit "http") || equal_literal (m_protocol o) (lit "https").

(** WebCore/page/SecurityOrigin.cpp:270-278 [SecurityOrigin::passesFileCheck] *)
Definition passesFileCheck (o other : SecurityOrigin) : bool :=
  if negb (m_enforceFilePathSeparation o) && negb (m_enforceFilePathSeparation other) then true
  else equal_strings (m_filePath o) (m_filePath other).

(** WebCore/page/SecurityOrigin.cpp:222-268 [SecurityOrigin::canAccess] *)
Definition canAccess (registry : Registry) (this other : OriginRef) : bool :=
  if m_universalAccess this.2 then true
  else if same_object this other then true
  else if m_isUnique this.2 || m_isUnique other.2 then false
  else
    let canAccess :=
      if equal_strings (m_protocol this.2) (m_protocol other.2) then
        if negb (m_domainWasSetInDOM this.2) && negb (m_domainWasSetInDOM other.2) then
          equal_strings (m_host this.2) (m_host other.2) && (m_port this.2 =? m_port other.2)
        else if m_domainWasSetInDOM this.2 && m_domainWasSetInDOM other.2 then
          equal_strings (m_domain this.2) (m_domain other.2)
        else false
      else false in
    if canAccess && isLocal registry this.2 then passesFileCheck this.2 other.2 else canAccess.

(** WebCore/page/SecurityOrigin.cpp:584-599 [SecurityOrigin::isSameSchemeHostPort] *)
Definition isSameSchemeHostPort (registry : Registry) (o other : SecurityOrigin) : bool :=
  if negb (equal_strings (m_host o) (m_host other)) then false
  else if negb (equal_strings (m_protocol o) (m_protocol other)) then false
  else if negb (m_port o =? m_port other) then false
  else if isLocal registry o && negb (passesFileCheck o other) then false
  else true.

(** WebCore/page/SecurityOrigin.cpp:567-582 [SecurityOrigin::equal] *)
Definition equal (registry : Registry) (this other : OriginRef) : bool :=
  if same_object other this then true
  else if negb (isSameSchemeHostPort registry this.2 other.2) then false
  else if negb (Bool.eqb (m_domainWasSetInDOM this.2) (m_domainWasSetInDOM other.2)) then false
  else if m_domainWasSetInDOM this.2 && negb (equal_strings (m_domain this.2) (m_domain other.2)) then false
  else true.

(** WebCore/page/SecurityOrigin.cpp:324-330 [SecurityOrigin::canReceiveDragData] *)
Definition canReceiveDragData (registry : Registry) (this dragInitiator : OriginRef) : bool :=
  if same_object this dragInitiator then true else canAccess registry this dragInitiator.

(** WebCore/page/SecurityOrigin.cpp:407-419 [SecurityOrigin::isThirdParty] *)
Definition isThirdParty (registry : Registry) (this child : OriginRef) : bool :=
  if m_universalAccess child.2 then false
  else if same_object this child then false
  else if m_isUnique this.2 || m_isUnique child.2 then true
  else negb (isSameSchemeHostPort registry this.2 child.2).

(** WebCore/page/SecurityOrigin.cpp:374-396 [SecurityOrigin::canAccessStorage]; [always] is [AlwaysAllowFromThirdParty] *)
Definition canAccessStorage (registry : Registry) (this : OriginRef) (topOrigin : option OriginRef) (always : bool) : bool :=
  if m_isUnique this.2 then false
  else if bool_decide (m_storageBlockingPolicy this.2 = BlockAllStorage) then false
  else match topOrigin with
       | None => true
       | Some topOrigin =>
           if bool_decide (m_storageBlockingPolicy topOrigin.2 = BlockAllStorage) then false
           else if always then true
           else negb ((bool_decide (m_storageBlockingPolicy this.2 = BlockThirdPartyStorage)
                       || bool_decide (m_storageBlockingPolicy topOrigin.2 = BlockThirdPartyStorage))
                      && isThirdParty registry topOrigin this)
       end.

(** WebCore/page/SecurityOrigin.h:153-157 [SecurityOrigin::canAccessDatabase], and its siblings *)
Definition canAccessDatabase (registry : Registry) (this : OriginRef) (topOrigin : option OriginRef) : bool := canAccessStorage registry this topOrigin false.
Definition canAccessSessionStorage (registry : Registry) (this : OriginRef) (topOrigin : option OriginRef) : bool := canAccessStorage registry this topOrigin true.

(** WebCore/page/SecurityOrigin.h:158-158 [SecurityOrigin::canAccessCookies] *)
Definition canAccessCookies (o : SecurityOrigin) : bool := negb (m_isUnique o).

(** WebCore/page/SecurityOrigin.cpp:398-405 [SecurityOrigin::canShowNotifications] *)
Definition canShowNotifications (o : SecurityOrigin) : Policy :=
  if m_universalAccess o then AlwaysAllow else if m_isUnique o then AlwaysDeny else Ask.

(** WebCore/page/SecurityOrigin.cpp:436-448 [SecurityOrigin::domainForCachePartition] *)
Definition domainForCachePartition (registry : Registry) (o : SecurityOrigin) : WTFString :=
  if negb (bool_decide (m_storageBlockingPolicy o = BlockThirdPartyStorage)) then None
  else if isHTTPFamily o then m_host o
  else if shouldPartitionCacheForURLScheme cocoa (m_protocol o) registry then m_host o
  else None.

(** ** Strings *)

(** WebCore/page/SecurityOrigin.cpp:471-488 [SecurityOrigin::toRawString] *)
Definition toRawString (o : SecurityOrigin) : option WTFString :=
  if equal_literal (m_protocol o) (lit "file") then Some (String8 (lit "file://"))
  else
    result ← reserveCapacity hasOneRef (wrap32 (String_length (m_protocol o) + String_length (m_host o) + 10)) StringBuilder_empty;
    result ← append_String hasOneRef (m_protocol o) result;
    result ← append8 hasOneRef (lit "://") result;
    result ← append_String hasOneRef (m_host o) result;
    result ← (if negb (m_port o =? 0) then result ← append_LChar hasOneRef 58 result; appendNumber hasOneRef (m_port o) result else Some result);
    r ← toString hasOneRef result;
    Some r.2.

(** WebCore/page/SecurityOrigin.cpp:462-469 [SecurityOrigin::toString] *)
Definition origin_toString (o : SecurityOrigin) : option WTFString :=
  if m_isUnique o then Some (String8 (lit "null"))
  else if equal_literal (m_protocol o) (lit "file") && m_enforceFilePathSeparation o then Some (String8 (lit "null"))
  else toRawString o.

(** WebCore/platform/FileSystem.cpp:50-74 [needsEscaping] *)
Definition needsEscaping : list bool :=
  repeat true 32 ++
  [true; false; true; false; false; true; false; false; false; false; true; false; false; false; false; true] ++
  [false; false; false; false; false; false; false; false; false; false; true; false; true; false; true; true] ++
  repeat false 28 ++ [true; false; false; false] ++
  repeat false 28 ++ [true; false; false; true].

(** WebCore/platform/FileSystem.cpp:76-79 [shouldEscapeUChar] *)
Definition shouldEscapeUChar (c : N) : bool := if 127 <? c then false else default false (needsEscaping !!N c).

(** WTF/wtf/HexNumber.h:43-49 [appendByteAsHex], to a builder, of the low byte *)
Definition appendByteAsHex (byte : N) (s : StringBuilder) : option StringBuilder :=
  s ← append_LChar hasOneRef (upperNibbleToASCIIHexDigit (wrap8 byte)) s; append_LChar hasOneRef (lowerNibbleToASCIIHexDigit (wrap8 byte)) s.

(** WebCore/platform/FileSystem.cpp:81-96 [encodeForFileName] *)
Definition encodeForFileName (inputString : WTFString) : option WTFString :=
  result ← foldM (fun result character =>
      if shouldEscapeUChar character then result ← append_LChar hasOneRef 37 result; appendByteAsHex character result
      else append_UChar hasOneRef character result) StringBuilder_empty (String_chars inputString);
  r ← toString hasOneRef result;
  Some r.2.

(** WebCore/page/SecurityOrigin.cpp:547-565 [SecurityOrigin::databaseIdentifier] *)
Definition databaseIdentifier (o : SecurityOrigin) : option WTFString :=
  if m_needsDatabaseIdentifierQuirkForFiles o then Some (String8 (lit "file__0"))
  else
    s ← append_String hasOneRef (m_protocol o) StringBuilder_empty;
    s ← append_LChar hasOneRef 95 s;
    name ← encodeForFileName (m_host o);
    s ← append_String hasOneRef name s;
    s ← append_LChar hasOneRef 95 s;
    s ← appendNumber hasOneRef (m_port o) s;
    r ← toString hasOneRef s;
    Some r.2.

(** ** Mutators *)

(** WebCore/page/SecurityOrigin.cpp:203-207 [SecurityOrigin::setDomainFromDOM] *)
Definition setDomainFromDOM (newDomain : WTFString) (o : SecurityOrigin) : SecurityOrigin :=
  mkOrigin (m_protocol o) (m_host o) (String_lower newDomain) (m_filePath o) (m_port o) (m_isUnique o) (m_universalAccess o) true
    (m_canLoadLocalResources o) (m_storageBlockingPolicy o) (m_enforceFilePathSeparation o) (m_needsDatabaseIdentifierQuirkForFiles o).

(** WebCore/page/SecurityOrigin.cpp:421-428 [SecurityOrigin::grantLoadLocalResources] *)
Definition grantLoadLocalResources (o : SecurityOrigin) : SecurityOrigin :=
  mkOrigin (m_protocol o) (m_host o) (m_domain o) (m_filePath o) (m_port o) (m_isUnique o) (m_universalAccess o) (m_domainWasSetInDOM o)
    true (m_storageBlockingPolicy o) (m_enforceFilePathSeparation o) (m_needsDatabaseIdentifierQuirkForFiles o).

(** WebCore/page/SecurityOrigin.cpp:430-433 [SecurityOrigin::grantUniversalAccess] *)
Definition grantUniversalAccess (o : SecurityOrigin) : SecurityOrigin :=
  mkOrigin (m_protocol o) (m_host o) (m_domain o) (m_filePath o) (m_port o) (m_isUnique o) true (m_domainWasSetInDOM o)
    (m_canLoadLocalResources o) (m_storageBlockingPolicy o) (m_enforceFilePathSeparation o) (m_needsDatabaseIdentifierQuirkForFiles o).

(** WebCore/page/SecurityOrigin.cpp:451-455 [SecurityOrigin::enforceFilePathSeparation] *)
Definition enforceFilePathSeparation (o : SecurityOrigin) : SecurityOrigin :=
  mkOrigin (m_protocol o) (m_host o) (m_domain o) (m_filePath o) (m_port o) (m_isUnique o) (m_universalAccess o) (m_domainWasSetInDOM o)
    (m_canLoadLocalResources o) (m_storageBlockingPolicy o) true (m_needsDatabaseIdentifierQuirkForFiles o).

(** WebCore/page/SecurityOrigin.h:147-147 [SecurityOrigin::setStorageBlockingPolicy] *)
Definition setStorageBlockingPolicy (policy : StorageBlockingPolicy) (o : SecurityOrigin) : SecurityOrigin :=
  mkOrigin (m_protocol o) (m_host o) (m_domain o) (m_filePath o) (m_port o) (m_isUnique o) (m_universalAccess o) (m_domainWasSetInDOM o)
    (m_canLoadLocalResources o) policy (m_enforceFilePathSeparation o) (m_needsDatabaseIdentifierQuirkForFiles o).
End Origins.
