(* ===== verification/OriginCreation.v ===== *)
(** * [WebCore/page/SecurityOrigin.cpp]: making origins

    The state of the process: the registry of schemes and the origins of the blob
    URLs, each with the address of its object.  An origin that is made is either
    one of those, or an object that nobody else refers to. *)

From S2P Require Import Prelude ASCII WTFString StringOps StringBuilder URLCharacters URL URLParse URLEncode URLInit SchemeRegistry DecodeEscapeSequences SecurityOrigin.

(** ** Blob URLs *)

(** WebCore/fileapi/BlobURL.cpp:55-62 [BlobURL::getOrigin] *)
Definition BlobURL_getOrigin (url : URL) : WTFString :=
  String_substring (m_string url) (m_portEnd url) (sub32 (sub32 (m_pathAfterLastSlash url) (m_portEnd url)) 1).

(** WebCore/fileapi/BlobURL.cpp:64-70 [BlobURL::getIdentifier] *)
Definition BlobURL_getIdentifier (url : URL) : WTFString := String_substring (m_string url) (m_pathAfterLastSlash url) max32.

(** ** White lists *)

(** WebCore/page/OriginAccessEntry.h:42-45 [OriginAccessEntry::SubdomainSetting] *)
Inductive SubdomainSetting := AllowSubdomains | DisallowSubdomains.

#[export] Instance SubdomainSetting_eq_dec : EqDecision SubdomainSetting.
Proof. solve_decision. Defined.

(** WebCore/page/OriginAccessEntry.h:55-59 [OriginAccessEntry] *)
Record OriginAccessEntry := mkEntry {
  e_protocol : WTFString;
  e_host : WTFString;
  e_subdomainSettings : SubdomainSetting;
  e_hostIsIPAddress : bool
}.

Section Entries.
Context `{ICU}.

(** WebCore/page/OriginAccessEntry.cpp:38-47 [OriginAccessEntry::OriginAccessEntry] *)
Definition newEntry (protocol host : WTFString) (subdomainSetting : SubdomainSetting) : OriginAccessEntry :=
  let host := String_lower host in
  mkEntry (String_lower protocol) host subdomainSetting
    (negb (String_isEmpty host) && isASCIIDigit (String_at host (sub32 (String_length host) 1))).

(** WebCore/page/OriginAccessEntry.cpp:49-78 [OriginAccessEntry::matchesOrigin] *)
Definition matchesOrigin (entry : OriginAccessEntry) (origin : SecurityOrigin) : bool :=
  if negb (equal_strings (e_protocol entry) (m_protocol origin)) then false
  else if bool_decide (e_subdomainSettings entry = AllowSubdomains) && String_isEmpty (e_host entry) then true
  else if equal_strings (e_host entry) (m_host origin) then true
  else if bool_decide (e_subdomainSettings entry = DisallowSubdomains) then false
  else if e_hostIsIPAddress entry then false
  else (String_length (e_host entry) <? String_length (m_host origin))
       && (String_at (m_host origin) (String_length (m_host origin) - String_length (e_host entry) - 1) =? 46)
       && String_endsWith (m_host origin) (e_host entry).

(** WebCore/page/OriginAccessEntry.h:62-65 [operator==] *)
Definition equal_entries (a b : OriginAccessEntry) : bool :=
  equalIgnoringCase (e_protocol a) (e_protocol b) && equalIgnoringCase (e_host a) (e_host b) &&
  bool_decide (e_subdomainSettings a = e_subdomainSettings b).
End Entries.

(** ** The state *)

(** WebCore/page/SecurityPolicy.h:52-56 [SecurityPolicy::LocalLoadPolicy] *)
Inductive LocalLoadPolicy := AllowLocalLoadsForAll | AllowLocalLoadsForLocalAndSubstituteData | AllowLocalLoadsForLocalOnly.

#[export] Instance LocalLoadPolicy_eq_dec : EqDecision LocalLoadPolicy.
Proof. solve_decision. Defined.

(** The statics of the program that the origins depend on: the registry of schemes, the map of the blob URLs, the
    local load policy and the white lists, and the objects that the program refers to, by their address. *)
Record World := mkWorld {
  w_registry : Registry;
  w_heap : list SecurityOrigin;
  w_blobs : list (WTFString * N);
  w_localLoadPolicy : LocalLoadPolicy;
  w_accessMap : list (WTFString * list OriginAccessEntry)
}.

Definition World_new : World := mkWorld Registry_new [] [] AllowLocalLoadsForLocalOnly [].

Definition with_registry (r : Registry) (w : World) : World := mkWorld r (w_heap w) (w_blobs w) (w_localLoadPolicy w) (w_accessMap w).
Definition with_heap (heap : list SecurityOrigin) (w : World) : World := mkWorld (w_registry w) heap (w_blobs w) (w_localLoadPolicy w) (w_accessMap w).
Definition with_blobs (blobs : list (WTFString * N)) (w : World) : World := mkWorld (w_registry w) (w_heap w) blobs (w_localLoadPolicy w) (w_accessMap w).
Definition with_accessMap (map : list (WTFString * list OriginAccessEntry)) (w : World) : World :=
  mkWorld (w_registry w) (w_heap w) (w_blobs w) (w_localLoadPolicy w) map.

(** WebCore/page/SecurityPolicy.cpp:96-99 [SecurityPolicy::setLocalLoadPolicy] *)
Definition setLocalLoadPolicy (policy : LocalLoadPolicy) (w : World) : World :=
  mkWorld (w_registry w) (w_heap w) (w_blobs w) policy (w_accessMap w).

(** What is at an address. *)
Definition deref (w : World) (address : N) : option OriginRef := o ← w_heap w !!N address; Some (Some address, o).

(** ** Origins of blob URLs *)

(** WebCore/fileapi/ThreadableBlobRegistry.cpp:197-200 [ThreadableBlobRegistry::getCachedOrigin] *)
Definition ThreadableBlobRegistry_getCachedOrigin (w : World) (url : URL) : option OriginRef :=
  a ← string_get (m_string url) (w_blobs w); deref w a.

(** WebCore/fileapi/ThreadableBlobRegistry.cpp:129-133 [ThreadableBlobRegistry::registerBlobURL], the map; the registry of the blobs is not modelled *)
Definition registerBlobURL (origin : option N) (url : URL) (w : World) : World :=
  match origin with
  | Some a =>
      if equal_literal (BlobURL_getOrigin url) (lit "null") then
        match string_get (m_string url) (w_blobs w) with
        | Some _ => w
        | None => with_blobs (w_blobs w ++ [(m_string url, a)]) w
        end
      else w
  | None => w
  end.

(** WebCore/fileapi/ThreadableBlobRegistry.cpp:180-183 [ThreadableBlobRegistry::unregisterBlobURL], the map *)
Definition unregisterBlobURL (url : URL) (w : World) : World :=
  if equal_literal (BlobURL_getOrigin url) (lit "null") then with_blobs (string_remove (m_string url) (w_blobs w)) w else w.

(** WebCore/page/SecurityOrigin.cpp:77-82 [getCachedOrigin] *)
Definition getCachedOrigin (w : World) (url : URL) : option OriginRef :=
  if protocolIs url (lit "blob") then ThreadableBlobRegistry_getCachedOrigin w url else None.

Section Creation.
Context `{ICU} `{Encodings} (cocoa : bool) (hasOneRef : Buffer -> bool) (stack : N).

(** WebCore/page/SecurityOrigin.cpp:84-109 [shouldTreatAsUniqueOrigin] *)
Definition shouldTreatAsUniqueOrigin (registry : Registry) (url : URL) : option bool :=
  if negb (m_isValid url) then Some true
  else
    innerURL ← (if shouldUseInnerURL url then extractInnerURL hasOneRef stack url else Some url);
    if schemeRequiresHost innerURL && String_isEmpty (host innerURL) then Some true
    else Some (shouldTreatURLSchemeAsNoAccess cocoa (String_lower (protocol innerURL)) registry).

(** WebCore/page/SecurityOrigin.cpp:111-133 [SecurityOrigin::SecurityOrigin] *)
Definition originOfURL (registry : Registry) (url : URL) : option SecurityOrigin :=
  let lower s := if String_isNull s then String8 [] else String_lower s in
  let protocol := lower (protocol url) in
  let host := lower (host url) in
  port ← port url;
  let port := if isDefaultPortForProtocol port protocol then InvalidPort else port in
  let local := shouldTreatURLSchemeAsLocal cocoa protocol registry in
  Some (mkOrigin protocol host host (if local then path url else None) port false false false local AllowAllStorage false false).

(** WebCore/page/SecurityOrigin.cpp:166-189 [SecurityOrigin::create] *)
Definition create (w : World) (url : URL) : option OriginRef :=
  match getCachedOrigin w url with
  | Some cachedOrigin => Some cachedOrigin
  | None =>
      unique ← shouldTreatAsUniqueOrigin (w_registry w) url;
      if (unique : bool) then
        Some (None, if protocolIs url (lit "file")
                    then mkOrigin (String8 []) (String8 []) (String8 []) None InvalidPort true false false false AllowAllStorage false true
                    else uniqueOrigin)
      else
        url ← (if shouldUseInnerURL url then extractInnerURL hasOneRef stack url else Some url);
        o ← originOfURL (w_registry w) url; Some (None, o)
  end.

(** WebCore/page/SecurityOrigin.cpp:490-493 [SecurityOrigin::createFromString] *)
Definition createFromString (w : World) (originString : WTFString) : option OriginRef :=
  url ← init emptyURL originString; create w url.

(** WebCore/page/SecurityOrigin.cpp:209-220 [SecurityOrigin::isSecure] *)
Definition isSecure (registry : Registry) (url : URL) : option bool :=
  if negb (m_isValid url) || shouldTreatURLSchemeAsSecure cocoa (protocol url) registry then Some true
  else if shouldUseInnerURL url then
    inner ← extractInnerURL hasOneRef stack url; Some (shouldTreatURLSchemeAsSecure cocoa (protocol inner) registry)
  else Some false.

(** WebCore/page/SecurityOrigin.cpp:601-606 [SecurityOrigin::urlWithUniqueSecurityOrigin] *)
Definition urlWithUniqueSecurityOrigin : option URL := URL_parsed (String8 (lit "data:,")).

(** ** Database identifiers *)

(** WTF/wtf/text/WTFString.h:331-331 [String::right] *)
Definition String_right (s : WTFString) (len : N) : WTFString := String_substring s (sub32 (String_length s) len) len.

(** WTF/wtf/text/WTFString.cpp:966-988 [lengthOfCharactersAsInteger]: the characters it counts *)
Definition charactersAsInteger (data : list N) : list N :=
  let rest := skip_space data in
  let spaces := take (length data - length rest) data in
  let '(sign, rest) := match rest with c :: rest' => if (c =? 43) || (c =? 45) then ([c], rest') else ([], rest) | [] => ([], []) end in
  spaces ++ sign ++ (fix digits l := match l with c :: l' => if isASCIIDigit c then c :: digits l' else [] | [] => [] end) rest.

(** WTF/wtf/text/WTFString.cpp:922-938 [toIntegralType]: the loop over the digits, for [int]; [None] is the jump to [bye] *)
Fixpoint int_digits (isNegative : bool) (value : N) (data : list N) : option (N * list N) :=
  match data with
  | c :: rest =>
      if isASCIIDigit c then
        let digitValue := c - 48 in
        if (214748364 <? value) || ((value =? 214748364) && (7 + N.b2n isNegative <? digitValue)) then None
        else int_digits isNegative (10 * value + digitValue) rest
      else Some (value, data)
  | [] => Some (value, [])
  end.

(** WTF/wtf/text/WTFString.cpp:890-964 [toIntegralType], for [int] in base 10, of the characters that [charactersToInt] gives it: the value and [ok] *)
Definition toInt (s : WTFString) : Z * bool :=
  match s with
  | None => (0%Z, false)
  | Some impl =>
      let data := skip_space (charactersAsInteger (impl_chars impl)) in
      let '(isNegative, data) := match data with
        | c :: rest => if c =? 45 then (true, rest) else if c =? 43 then (false, rest) else (false, data)
        | [] => (false, []) end in
      match data with
      | [] => (0%Z, false)
      | c :: _ =>
          if isASCIIDigit c then
            match int_digits isNegative 0 data with
            | None => (0%Z, false)
            | Some (value, rest) =>
                match skip_space rest with [] => (if isNegative then (- Z.of_N value)%Z else Z.of_N value, true) | _ => (0%Z, false) end
            end
          else (0%Z, false)
      end
  end.

(** [create(URL(URL(), protocol + "://" + host + ":" + String::number(port) + "/"))] *)
Definition createFromParts (w : World) (protocol host : WTFString) (port : Z) : option OriginRef :=
  number ← numberToStringSigned port;
  text ← String_concat [protocol; String8 (lit "://"); host; String8 [58]; String8 number; String8 [47]];
  url ← init emptyURL text;
  create w url.

(** WebCore/page/SecurityOrigin.cpp:497-530 [SecurityOrigin::maybeCreateFromDatabaseIdentifier]; the inner [None] is the null pointer *)
Definition maybeCreateFromDatabaseIdentifier (w : World) (databaseIdentifier : WTFString) : option (option OriginRef) :=
  match String_find databaseIdentifier 95, String_reverseFind databaseIdentifier 95 with
  | Some separator1, Some separator2 =>
      if separator1 =? separator2 then Some None
      else
        let '(port, portOkay) := toInt (String_right databaseIdentifier (sub32 (sub32 (String_length databaseIdentifier) separator2) 1)) in
        let portAbsent := separator2 =? String_length databaseIdentifier - 1 in
        if negb (portOkay || portAbsent) then Some None
        else if (port <? 0)%Z || (MaxAllowedPort <? port)%Z then Some None
        else
          let protocol := String_substring databaseIdentifier 0 separator1 in
          let host := String_substring databaseIdentifier (separator1 + 1) (separator2 - separator1 - 1) in
          host ← decodeURLEscapeSequences hasOneRef stack host;
          o ← createFromParts w protocol host port;
          Some (Some o)
  | _, _ => Some None
  end.

(** WebCore/page/SecurityOrigin.cpp:532-537 [SecurityOrigin::createFromDatabaseIdentifier] *)
Definition createFromDatabaseIdentifier (w : World) (databaseIdentifier : WTFString) : option OriginRef :=
  r ← maybeCreateFromDatabaseIdentifier w databaseIdentifier;
  match r with Some origin => Some origin | None => create w emptyURL end.

(** WebCore/page/SecurityOrigin.cpp:539-545 [SecurityOrigin::create], of the parts: the decoded host is not used *)
Definition create_parts (w : World) (protocol host : WTFString) (port : Z) : option OriginRef :=
  if (port <? 0)%Z || (MaxAllowedPort <? port)%Z then Some createUnique
  else
    decodedHost ← decodeURLEscapeSequences hasOneRef stack host;
    createFromParts w protocol host port.
End Creation.
