(* ===== verification/SecurityPolicy.v ===== *)
(** * [WebCore/page/SecurityPolicy.cpp] and the requests of origins

    What a document may read, display and send as a referrer, and the party of a
    load; these make origins of the URLs they ask about.  The mutators of the
    state are the steps of a relation between states of the process. *)

From S2P Require Import Prelude ASCII WTFString StringOps StringBuilder URLCharacters URL URLParse URLEncode URLInit SchemeRegistry DecodeEscapeSequences SecurityOrigin OriginCreation ResourceTypes.

Section Policy.
Context `{ICU} `{Encodings} (cocoa : bool) (hasOneRef : Buffer -> bool) (stack : N).

(** ** White lists *)

(** WebCore/page/SecurityPolicy.cpp:111-120 [SecurityPolicy::isAccessWhiteListed] *)
Definition isAccessWhiteListed (w : World) (activeOrigin targetOrigin : SecurityOrigin) : option bool :=
  key ← origin_toString hasOneRef activeOrigin;
  Some (match string_get key (w_accessMap w) with
        | Some list => existsb (fun entry => matchesOrigin entry targetOrigin) list
        | None => false
        end).

(** WebCore/page/SecurityPolicy.cpp:122-126 [SecurityPolicy::isAccessToURLWhiteListed] *)
Definition isAccessToURLWhiteListed (w : World) (activeOrigin : SecurityOrigin) (url : URL) : option bool :=
  targetOrigin ← create cocoa hasOneRef stack w url; isAccessWhiteListed w activeOrigin targetOrigin.2.

Definition subdomains (allowDestinationSubdomains : bool) : SubdomainSetting :=
  if allowDestinationSubdomains then AllowSubdomains else DisallowSubdomains.

(** WebCore/page/SecurityPolicy.cpp:128-142 [SecurityPolicy::addOriginAccessWhitelistEntry] *)
Definition addOriginAccessWhitelistEntry (sourceOrigin : SecurityOrigin) (destinationProtocol destinationDomain : WTFString) (allowDestinationSubdomains : bool)
    (w : World) : option World :=
  if m_isUnique sourceOrigin then Some w
  else
    sourceString ← origin_toString hasOneRef sourceOrigin;
    let list := default [] (string_get sourceString (w_accessMap w)) in
    Some (with_accessMap (string_set sourceString (list ++ [newEntry destinationProtocol destinationDomain (subdomains allowDestinationSubdomains)]) (w_accessMap w)) w).

(** [Vector::removeFirst]: the vector without the first element that is equal, if there is one. *)
Fixpoint removeFirst (entry : OriginAccessEntry) (entries : list OriginAccessEntry) : option (list OriginAccessEntry) :=
  match entries with
  | [] => None
  | e :: entries => if equal_entries e entry then Some entries else cons e <$> removeFirst entry entries
  end.

(** WebCore/page/SecurityPolicy.cpp:144-164 [SecurityPolicy::removeOriginAccessWhitelistEntry] *)
Definition removeOriginAccessWhitelistEntry (sourceOrigin : SecurityOrigin) (destinationProtocol destinationDomain : WTFString) (allowDestinationSubdomains : bool)
    (w : World) : option World :=
  if m_isUnique sourceOrigin then Some w
  else
    sourceString ← origin_toString hasOneRef sourceOrigin;
    match string_get sourceString (w_accessMap w) with
    | None => Some w
    | Some list =>
        match removeFirst (newEntry destinationProtocol destinationDomain (subdomains allowDestinationSubdomains)) list with
        | None => Some w
        | Some [] => Some (with_accessMap (string_remove sourceString (w_accessMap w)) w)
        | Some list => Some (with_accessMap (string_set sourceString list (w_accessMap w)) w)
        end
    end.

(** WebCore/page/SecurityPolicy.cpp:166-170 [SecurityPolicy::resetOriginAccessWhitelists] *)
Definition resetOriginAccessWhitelists (w : World) : World := with_accessMap [] w.

(** WebCore/page/SecurityPolicy.cpp:101-104 [SecurityPolicy::restrictAccessToLocal] *)
Definition restrictAccessToLocal (w : World) : bool := negb (bool_decide (w_localLoadPolicy w = AllowLocalLoadsForAll)).

(** WebCore/page/SecurityPolicy.cpp:106-109 [SecurityPolicy::allowSubstituteDataAccessToLocal] *)
Definition allowSubstituteDataAccessToLocal (w : World) : bool := negb (bool_decide (w_localLoadPolicy w = AllowLocalLoadsForLocalOnly)).

(** ** Requests *)

(** WebCore/page/SecurityOrigin.cpp:280-305 [SecurityOrigin::canRequest] *)
Definition canRequest (w : World) (this : OriginRef) (url : URL) : option bool :=
  if m_universalAccess this.2 then Some true
  else if match getCachedOrigin w url with Some origin => same_object origin this | None => false end then Some true
  else if m_isUnique this.2 then Some false
  else
    targetOrigin ← create cocoa hasOneRef stack w url;
    if m_isUnique targetOrigin.2 then Some false
    else if isSameSchemeHostPort cocoa (w_registry w) this.2 targetOrigin.2 then Some true
    else isAccessWhiteListed w this.2 targetOrigin.2.

(** WebCore/page/SecurityOrigin.cpp:307-322 [SecurityOrigin::taintsCanvas] *)
Definition taintsCanvas (w : World) (this : OriginRef) (url : URL) : option bool :=
  can ← canRequest w this url;
  Some (if (can : bool) then false else negb (protocolIsData url)).

(** WebCore/page/SecurityOrigin.cpp:340-350 [isFeedWithNestedProtocolInHTTPFamily] *)
Definition isFeedWithNestedProtocolInHTTPFamily (url : URL) : bool :=
  let urlString := m_string url in
  if negb (startsWithIgnoringCase urlString (lit "feed")) then false
  else startsWithIgnoringCase urlString (lit "feed://")
       || startsWithIgnoringCase urlString (lit "feed:http:") || startsWithIgnoringCase urlString (lit "feed:https:")
       || startsWithIgnoringCase urlString (lit "feeds:http:") || startsWithIgnoringCase urlString (lit "feeds:https:")
       || startsWithIgnoringCase urlString (lit "feedsearch:http:") || startsWithIgnoringCase urlString (lit "feedsearch:https:").

(** WebCore/page/SecurityOrigin.cpp:352-372 [SecurityOrigin::canDisplay] *)
Definition canDisplay (w : World) (this : OriginRef) (url : URL) : option bool :=
  if m_universalAccess this.2 then Some true
  else
    let protocol := String_lower (protocol url) in
    if isFeedWithNestedProtocolInHTTPFamily url then Some true
    else if canDisplayOnlyIfCanRequest cocoa protocol (w_registry w) then canRequest w this url
    else if shouldTreatURLSchemeAsDisplayIsolated cocoa protocol (w_registry w) then
      if equal_strings (m_protocol this.2) protocol then Some true else isAccessToURLWhiteListed w this.2 url
    else if restrictAccessToLocal w && shouldTreatURLSchemeAsLocal cocoa protocol (w_registry w) then
      if m_canLoadLocalResources this.2 then Some true else isAccessToURLWhiteListed w this.2 url
    else Some true.

(** ** Referrers *)

(** WebCore/platform/ReferrerPolicy.h:37-44 [ReferrerPolicy] *)
Inductive ReferrerPolicy := ReferrerPolicyAlways | ReferrerPolicyDefault | ReferrerPolicyNever | ReferrerPolicyOrigin.

(** WebCore/page/SecurityPolicy.cpp:52-66 [SecurityPolicy::shouldHideReferrer] *)
Definition shouldHideReferrer (url : URL) (referrer : WTFString) : bool :=
  let referrerIsSecureURL := string_protocolIs (String_chars referrer) (lit "https") in
  let referrerIsWebURL := referrerIsSecureURL || string_protocolIs (String_chars referrer) (lit "http") in
  if negb referrerIsWebURL then true
  else if negb referrerIsSecureURL then false
  else negb (protocolIs url (lit "https")).

(** WebCore/page/SecurityPolicy.cpp:68-94 [SecurityPolicy::generateReferrerHeader] *)
Definition generateReferrerHeader (w : World) (referrerPolicy : ReferrerPolicy) (url : URL) (referrer : WTFString) : option WTFString :=
  if String_isEmpty referrer then Some None
  else if negb (protocolIsInHTTPFamily referrer) then Some None
  else match referrerPolicy with
       | ReferrerPolicyNever => Some None
       | ReferrerPolicyAlways => Some referrer
       | ReferrerPolicyOrigin =>
           o ← createFromString cocoa hasOneRef stack w referrer;
           origin ← origin_toString hasOneRef o.2;
           if equal_literal origin (lit "null") then Some None else String_concat [origin; String8 [47]]
       | ReferrerPolicyDefault => Some (if shouldHideReferrer url referrer then None else referrer)
       end.

(** ** Loads *)

(** WebCore/loader/ResourceLoadInfo.h:60-67 [ResourceLoadInfo] *)
Record ResourceLoadInfo := mkResourceLoadInfo {
  resourceURL : URL;
  mainDocumentURL : URL;
  info_type : ResourceType
}.

(** WebCore/loader/ResourceLoadInfo.cpp:102-108 [ResourceLoadInfo::isThirdParty] *)
Definition info_isThirdParty (w : World) (info : ResourceLoadInfo) : option bool :=
  mainDocumentSecurityOrigin ← create cocoa hasOneRef stack w (mainDocumentURL info);
  resourceSecurityOrigin ← create cocoa hasOneRef stack w (resourceURL info);
  Some (negb (canAccess cocoa (w_registry w) mainDocumentSecurityOrigin resourceSecurityOrigin)).

(** WebCore/loader/ResourceLoadInfo.cpp:110-117 [ResourceLoadInfo::getResourceFlags] *)
Definition getResourceFlags (w : World) (info : ResourceLoadInfo) : option N :=
  thirdParty ← info_isThirdParty w info;
  Some (N.lor (resource_value (info_type info)) (if (thirdParty : bool) then load_value Load_ThirdParty else load_value Load_FirstParty)).

(** ** Steps *)

(** The object at an address, changed. *)
Definition update_origin (a : N) (f : SecurityOrigin -> SecurityOrigin) (w : World) : option World :=
  o ← w_heap w !!N a; Some (with_heap (<[a :=N f o]> (w_heap w)) w).

(** A reference that the program keeps: the object gets an address when it is new. *)
Definition keep (r : OriginRef) (w : World) : World := match r.1 with Some _ => w | None => with_heap (w_heap w ++ [r.2]) w end.

(** What the program does to its state. *)
Inductive origin_op :=
| OpCreate (url : URL)
| OpCreateUnique
| OpIsolatedCopy (a : N)
| OpSetDomain (a : N) (domain : WTFString)
| OpGrantLoadLocalResources (a : N)
| OpGrantUniversalAccess (a : N)
| OpEnforceFilePathSeparation (a : N)
| OpSetStorageBlockingPolicy (a : N) (policy : StorageBlockingPolicy)
| OpRegisterBlobURL (origin : option N) (url : URL)
| OpUnregisterBlobURL (url : URL)
| OpRegisterScheme (k : SchemeSet) (scheme : WTFString)
| OpRemoveLocalScheme (scheme : WTFString)
| OpAddWhitelistEntry (a : N) (protocol domain : WTFString) (subdomains : bool)
| OpRemoveWhitelistEntry (a : N) (protocol domain : WTFString) (subdomains : bool)
| OpResetWhitelists
| OpSetLocalLoadPolicy (policy : LocalLoadPolicy).

Definition run_op (op : origin_op) (w : World) : option World :=
  match op with
  | OpCreate url => r ← create cocoa hasOneRef stack w url; Some (keep r w)
  | OpCreateUnique => Some (keep createUnique w)
  | OpIsolatedCopy a => r ← deref w a; Some (keep (isolatedCopy r.2) w)
  | OpSetDomain a domain => update_origin a (setDomainFromDOM domain) w
  | OpGrantLoadLocalResources a => update_origin a grantLoadLocalResources w
  | OpGrantUniversalAccess a => update_origin a grantUniversalAccess w
  | OpEnforceFilePathSeparation a => update_origin a enforceFilePathSeparation w
  | OpSetStorageBlockingPolicy a policy => update_origin a (setStorageBlockingPolicy policy) w
  | OpRegisterBlobURL origin url => match origin with Some a => _ ← deref w a; Some (registerBlobURL origin url w) | None => Some w end
  | OpUnregisterBlobURL url => Some (unregisterBlobURL url w)
  | OpRegisterScheme k scheme => r ← add_scheme cocoa k scheme (w_registry w); Some (with_registry r w)
  | OpRemoveLocalScheme scheme => r ← removeURLSchemeRegisteredAsLocal cocoa scheme (w_registry w); Some (with_registry r w)
  | OpAddWhitelistEntry a protocol domain subdomains => r ← deref w a; addOriginAccessWhitelistEntry r.2 protocol domain subdomains w
  | OpRemoveWhitelistEntry a protocol domain subdomains => r ← deref w a; removeOriginAccessWhitelistEntry r.2 protocol domain subdomains w
  | OpResetWhitelists => Some (resetOriginAccessWhitelists w)
  | OpSetLocalLoadPolicy policy => Some (setLocalLoadPolicy policy w)
  end.

(** The runs of the program, from a state of the process. *)
Inductive run : World -> list origin_op -> World -> Prop :=
| run_nil w : run w [] w
| run_cons w op w1 ops w2 : run_op op w = Some w1 -> run w1 ops w2 -> run w (op :: ops) w2.
End Policy.
