(* ===== verification/OriginRules.v ===== *)
(** * Schemes and the origins of canonical URLs

    Strings of ASCII characters are folded in the same way whatever their width,
    so that each set of the registry, but for the one that is sensitive to case,
    is a set of lower-case schemes.  A set is not an abstract set, though: it gets
    its defaults back when it becomes empty.  The origin of a canonical URL is its
    scheme, its host and its port; the text of the origin is that of the URL of
    those three parts. *)

From S2P Require Import Prelude ASCII WTFString StringBuilder StringBuilderCorrect URLCharacters StringOps URL URLParse URLSafety URLLayout URLAssemble URLRoundTrip URLEncode URLInit URLInitCorrect URLReferences DecodeEscapeSequences SchemeRegistry SecurityOrigin OriginCreation.

(** ** Folding *)

Definition ascii (s : WTFString) : Prop := Forall (fun c => c < 128) (String_chars s).

#[export] Instance ascii_decision s : Decision (ascii s).
Proof. unfold ascii. apply _. Defined.

(** What a string is, without regard to case. *)
Definition folded (s : WTFString) : list N := toASCIILower <$> String_chars s.

Section Folding.
Context `{ICU}.

Lemma fold_char_ascii is8Bit c : c < 128 -> fold_char is8Bit c = toASCIILower c.
Proof.
  intros Hc. destruct is8Bit; cbn [fold_char]; [|by apply u_foldCase_ascii].
  assert (forallb (fun c => latin1CaseFoldTable c =? toASCIILower c) (for_range 0 128) = true) as Hall by (by vm_compute).
  rewrite forallb_forall in Hall. apply N.eqb_eq, Hall, list_elem_of_In, elem_of_for_range. lia.
Qed.

Lemma fold_chars_ascii is8Bit chars : Forall (fun c => c < 128) chars -> fold_char is8Bit <$> chars = toASCIILower <$> chars.
Proof. induction 1 as [|c chars Hc _ IH]; [done|]. cbn. by rewrite IH, fold_char_ascii. Qed.

Lemma equalIgnoringCase_ascii a b : ascii a -> ascii b ->
  equalIgnoringCase a b = true <-> String_isNull a = String_isNull b /\ folded a = folded b.
Proof.
  destruct a as [[wa a]|], b as [[wb b]|]; unfold ascii, folded; cbn [String_chars impl_chars equalIgnoringCase String_isNull]; intros Ha Hb; try naive_solver.
  unfold equalIgnoringCaseNonNull. cbn [impl_chars impl_is8Bit]. destruct (length a =? length b)%nat eqn:E; breflect; cbn [negb].
  - destruct (negb wa && negb wb); [rewrite (u_memcasecmp_ascii a b Ha Hb); naive_solver|].
    rewrite bool_decide_eq_true, !fold_chars_ascii by done. naive_solver.
  - split; [done|]. intros [_ Hf]. by apply (f_equal length) in Hf; rewrite !length_fmap in Hf.
Qed.

Lemma impl_lower_ascii impl : Forall (fun c => c < 128) (impl_chars impl) -> impl_lower impl = mkImpl (impl_is8Bit impl) (toASCIILower <$> impl_chars impl).
Proof.
  intros Hc. unfold impl_lower. destruct impl as [[|] chars]; cbn [impl_is8Bit impl_chars] in *.
  - f_equal. induction Hc as [|c chars Hc _ IH]; [done|]. cbn. rewrite IH. by destruct (c <? 128) eqn:E; breflect; [|lia].
  - replace (forallb _ _) with true; [done|]. symmetry. apply forallb_forall. intros c Hin%list_elem_of_In. eapply Forall_forall in Hc; [|done]. by apply N.ltb_lt.
Qed.

Lemma String_lower_ascii s : ascii s -> String_chars (String_lower s) = folded s.
Proof. destruct s as [impl|]; [|done]. intros Hs. unfold String_lower. cbn [fmap option_fmap option_map]. by rewrite impl_lower_ascii. Qed.

Lemma String_lower_null s : String_isNull (String_lower s) = String_isNull s.
Proof. by destruct s. Qed.

Lemma toASCIILower_idemp c : toASCIILower (toASCIILower c) = toASCIILower c.
Proof.
  destruct (decide (65 <= c <= 90)) as [Hc|Hc].
  - rewrite (toASCIILower_upper c Hc). unfold toASCIILower, isASCIIUpper. destruct (_ && _) eqn:E; breflect; [lia|]. cbn [N.b2n]. apply N.lor_0_r.
  - unfold toASCIILower, isASCIIUpper. destruct ((65 <=? c) && _) eqn:E; breflect; [lia|]. cbn [N.b2n]. change (N.shiftl 0 5) with 0. rewrite !N.lor_0_r, E. cbn [N.b2n]. by rewrite N.lor_0_r.
Qed.
End Folding.

(** ** The sets *)

Definition ascii_set (r : Registry) (k : SchemeSet) : Prop := Forall ascii (r k) /\ Forall (fun s => String_isNull s = false) (r k).

Lemma String_isEmpty_spec s : String_isEmpty s = false <-> String_isNull s = false /\ String_chars s <> [].
Proof.
  unfold String_isEmpty, String_length. destruct s as [[w [|c chars]]|]; cbn [String_isNull orb impl_chars length String_chars]; [naive_solver| |naive_solver].
  split; [done|]. intros _. apply N.eqb_neq. lia.
Qed.

Section Sets.
Context `{ICU} (cocoa : bool).

Lemma defaults_ascii k : Forall ascii (defaults cocoa k) /\ Forall (fun s => String_isNull s = false) (defaults cocoa k).
Proof. destruct k, cocoa; cbn; split; repeat constructor. Qed.

Lemma filled_ascii r k : ascii_set r k -> Forall ascii (filled cocoa r k) /\ Forall (fun s => String_isNull s = false) (filled cocoa r k).
Proof. intros Hr. unfold filled. destruct (r k) eqn:E; [apply defaults_ascii|]. rewrite <- E. exact Hr. Qed.

(** The lower-case schemes of a set. *)
Definition schemes (r : Registry) (k : SchemeSet) : list (list N) := folded <$> filled cocoa r k.

Lemma has_folded k l scheme : k <> ForbiddenSchemes -> ascii scheme -> String_isNull scheme = false ->
  Forall ascii l -> Forall (fun s => String_isNull s = false) l -> has k l scheme = true <-> folded scheme ∈ folded <$> l.
Proof.
  intros Hk Hs Hn Ha Hnull. unfold has. rewrite existsb_exists, list_elem_of_fmap. split.
  - intros (x & Hin%list_elem_of_In & Heq). exists x. split; [|done].
    assert (equalIgnoringCase x scheme = true) as He by (by destruct k). apply equalIgnoringCase_ascii in He as [_ He]; [done| |done].
    by eapply Forall_forall in Ha.
  - intros (x & He & Hin). exists x. split; [by apply list_elem_of_In|].
    assert (key_equal k x scheme = equalIgnoringCase x scheme) as -> by (by destruct k).
    apply equalIgnoringCase_ascii; [by eapply Forall_forall in Ha|done|]. split; [|done]. rewrite Hn. by eapply Forall_forall in Hnull.
Qed.

Lemma contains_scheme_spec k r scheme : k <> ForbiddenSchemes -> ascii scheme -> ascii_set r k ->
  contains_scheme cocoa k scheme r = true <-> String_isEmpty scheme = false /\ folded scheme ∈ schemes r k.
Proof.
  intros Hk Hs Hr. unfold contains_scheme. destruct (String_isEmpty scheme) eqn:E; [naive_solver|].
  apply String_isEmpty_spec in E as [Hn _]. destruct (filled_ascii r k Hr) as [Ha Hnull]. rewrite (has_folded k _ scheme); naive_solver.
Qed.

(** A query depends on the characters only. *)
Lemma contains_scheme_chars k r s1 s2 : k <> ForbiddenSchemes -> ascii_set r k -> ascii s1 -> String_isNull s1 = String_isNull s2 ->
  String_chars s1 = String_chars s2 -> contains_scheme cocoa k s1 r = contains_scheme cocoa k s2 r.
Proof.
  intros Hk Hr H1 Hn Hc. assert (ascii s2) as H2 by (unfold ascii; by rewrite <- Hc).
  apply Bool.eq_iff_eq_true. rewrite !contains_scheme_spec by done. unfold folded, schemes. rewrite Hc, !String_isEmpty_spec, Hn, Hc. done.
Qed.

(** After adding, and after removing. *)
Lemma add_scheme_spec k r r' scheme : k <> ForbiddenSchemes -> ascii scheme -> ascii_set r k -> add_scheme cocoa k scheme r = Some r' ->
  ascii_set r' k /\ forall x, x ∈ schemes r' k <-> x = folded scheme \/ x ∈ schemes r k.
Proof.
  intros Hk Hs Hr. destruct scheme as [impl|]; [|done]. cbn [add_scheme]. intros [= <-].
  destruct (filled_ascii r k Hr) as [Ha Hnull]. unfold schemes, ascii_set. pose proof (has_folded k _ (Some impl) Hk Hs eq_refl Ha Hnull) as Hhas.
  set (l := filled cocoa r k) in *. destruct (has k l (Some impl)).
  - assert (folded (Some impl) ∈ folded <$> l) as Hin by (by apply Hhas). unfold filled, with_set. rewrite decide_True by done.
    split; [done|]. intros x. destruct l; [by apply not_elem_of_nil in Hin|]. set_solver.
  - unfold filled, with_set. rewrite decide_True by done. split; [split; apply Forall_app; split; [done|by apply Forall_singleton|done|by apply Forall_singleton]|].
    intros x. assert (forall d, match l ++ [Some impl] with [] => d | s :: l => s :: l end = l ++ [Some impl]) as -> by (intros; by destruct l).
    rewrite fmap_app. set_solver.
Qed.

Lemma remove_scheme_spec k r r' scheme : k <> ForbiddenSchemes -> ascii scheme -> ascii_set r k -> remove_scheme cocoa k scheme r = Some r' ->
  ascii_set r' k /\
  let rest := filter (fun x => x <> folded scheme) (schemes r k) in
  schemes r' k = match rest with [] => folded <$> defaults cocoa k | _ => rest end.
Proof.
  intros Hk Hs Hr. destruct scheme as [impl|]; [|done]. cbn [remove_scheme]. intros [= <-]. cbn zeta.
  destruct (filled_ascii r k Hr) as [Ha Hnull]. unfold schemes at 2 3. set (l := filled cocoa r k) in *.
  set (l' := List.filter _ l). assert (Forall ascii l' /\ Forall (fun s => String_isNull s = false) l') as Hl'.
  { rewrite !Forall_forall in *. unfold l'. split; intros x Hx%list_elem_of_In%filter_In; destruct Hx as [Hx%list_elem_of_In _]; auto. }
  assert (filter (fun x => x <> folded (Some impl)) (folded <$> l) = folded <$> l') as ->.
  { unfold l'. clear Hl' l'. clearbody l. induction l as [|s l IH]; [done|]. apply Forall_cons in Ha as [Has Ha], Hnull as [Hns Hnull].
    cbn [fmap list_fmap List.filter]. specialize (IH Ha Hnull). rewrite filter_cons, IH.
    assert (key_equal k s (Some impl) = bool_decide (folded s = folded (Some impl))) as ->.
    { apply Bool.eq_iff_eq_true. rewrite bool_decide_eq_true. assert (key_equal k s (Some impl) = equalIgnoringCase s (Some impl)) as -> by (by destruct k).
      rewrite equalIgnoringCase_ascii by done. rewrite Hns. naive_solver. }
    destruct (decide (folded s = folded (Some impl))) as [E|E]; [rewrite decide_False by (by intros ?); by rewrite bool_decide_true|].
    rewrite decide_True by done. by rewrite bool_decide_false. }
  unfold schemes, ascii_set, filled, with_set. rewrite decide_True by done. split; [done|]. by destruct l'.
Qed.

(** The set of another key does not change. *)
Lemma scheme_set_other k k' r r' scheme : k' <> k -> (add_scheme cocoa k scheme r = Some r' \/ remove_scheme cocoa k scheme r = Some r') -> r' k' = r k'.
Proof. intros Hk. destruct scheme as [impl|]; [|by intros [?|?]]. cbn. intros [[= <-]|[= <-]]; unfold with_set; by rewrite decide_False. Qed.
End Sets.

(** ** Ports *)

Definition port_number (port : option (list N)) : N :=
  match port with
  | Some digits => if maximumValidPortNumber <? digits_value digits then invalidPortNumber else digits_value digits
  | None => 0
  end.

Section Digits.
Context `{ICU}.

Lemma digits_value_snoc l c : digits_value (l ++ [c]) = 10 * digits_value l + (c - 48).
Proof. by rewrite digits_value_app. Qed.

Lemma digits_value_ge l k : digits_value l <= digits_value (l ++ k).
Proof. induction k as [|c k IH] using rev_ind; [by rewrite app_nil_r|]. rewrite app_assoc, digits_value_snoc. lia. Qed.

Lemma digit_allowed c : digit_char c -> isCharacterAllowedInBase c 10 = true /\ isSpaceOrNewline c = false /\ c <> 43.
Proof.
  unfold digit_char. intros Hc. unfold isCharacterAllowedInBase, isSpaceOrNewline. rewrite Hc. unfold isASCIISpace, isASCIIDigit in *. breflect.
  destruct (127 <? c) eqn:E; breflect; [lia|]. destruct (c <=? 127) eqn:E1; breflect; [|lia]. split_and!; [apply N.ltb_lt; lia| |lia].
  destruct (c <=? 32) eqn:E2; breflect; [lia|done].
Qed.

(** The loop over digits: the value, or nothing when it is too large. *)
Lemma integral_digits_spec pre digits : Forall digit_char digits -> digits_value pre <= max32 ->
  integral_digits 10 (digits_value pre) digits = if digits_value (pre ++ digits) <=? max32 then Some (digits_value (pre ++ digits), []) else None.
Proof.
  intros Hd. revert pre. induction Hd as [|c digits Hc Hd IH]; intros pre Hpre; cbn [integral_digits].
  - rewrite app_nil_r. by rewrite (proj2 (N.leb_le _ _) Hpre).
  - destruct (digit_allowed c Hc) as (-> & _ & _). unfold digit_char in Hc. rewrite Hc. unfold isASCIIDigit in Hc. breflect.
    change (max32 / 10) with 429496729. change (max32 mod 10) with 5. rewrite cons_middle, app_assoc.
    pose proof (digits_value_snoc pre c) as Hsnoc. pose proof (digits_value_ge (pre ++ [c]) digits) as Hge. unfold max32 in *.
    destruct ((429496729 <? digits_value pre) || _) eqn:E; breflect.
    + apply orb_true_iff in E as [E|E]; breflect; by rewrite (proj2 (N.leb_gt _ _)) by lia.
    + assert (10 * digits_value pre + (c - 48) <= max32) by (match goal with H : _ && _ = false |- _ => apply andb_false_iff in H as [H|H] end; unfold max32; breflect; lia).
      rewrite wrap32_id by (unfold max32 in *; lia). rewrite <- Hsnoc. apply IH. unfold max32 in *. lia.
Qed.

Lemma charactersToUIntStrict_digits digits : Forall digit_char digits -> digits <> [] ->
  charactersToUIntStrict digits = if digits_value digits <=? max32 then (digits_value digits, true) else (0, false).
Proof.
  intros Hd Hne. unfold charactersToUIntStrict, toIntegralType. pose proof Hd as Hd'. destruct Hd as [|c digits Hc Hd]; [done|].
  destruct (digit_allowed c Hc) as (Hallowed & Hspace & Hplus). cbn [skip_space]. rewrite Hspace, (proj2 (N.eqb_neq _ _) Hplus), Hallowed.
  change 0 with (digits_value []) at 1. rewrite integral_digits_spec by done. cbn [app]. by destruct (_ <=? _).
Qed.

(** What [URL::port] says of the digits of a port. *)
Lemma port_digits digits : Forall digit_char digits -> digits <> [] ->
  (let '(number, ok) := charactersToUIntStrict digits in
   if negb ok || (maximumValidPortNumber <? number) then Some invalidPortNumber else Some number) = Some (port_number (Some digits)).
Proof.
  intros Hd Hne. rewrite charactersToUIntStrict_digits by done. unfold port_number, maximumValidPortNumber, max32.
  destruct (_ <=? 4294967295) eqn:E; breflect; cbn [negb orb]; [by destruct (_ <? _)|].
  destruct (65534 <? digits_value digits) eqn:E2; breflect; [done|lia].
Qed.
End Digits.

Lemma port_number_bound port : port_number port <= 65535.
Proof. destruct port as [digits|]; cbn [port_number]; [|done]. unfold maximumValidPortNumber, invalidPortNumber. destruct (_ <? _) eqn:E; breflect; lia. Qed.

(** The port that a scheme has in an origin when the URL says none; that of the parser has others. *)
Definition default_port (scheme : list N) : N :=
  if decide (scheme = lit "http") then 80
  else if decide (scheme = lit "https") then 443
  else if decide (scheme = lit "ftp") then 21
  else if decide (scheme = lit "ftps") then 990
  else 0.

(** The port of the origin of a URL. *)
Definition origin_port (l : Layout) : N := if default_port (l_scheme l) =? port_number (l_port l) then 0 else port_number (l_port l).

Lemma lower_scheme_ascii scheme : Forall lower_scheme_char scheme -> Forall (fun c => c < 128) scheme /\ toASCIILower <$> scheme = scheme.
Proof.
  induction 1 as [|c scheme [Hs Hl] _ [IH1 IH2]]; [done|]. assert (c < 256) as Hb by (unfold isSchemeChar in Hs; breflect; lia).
  assert (forallb (fun c => negb (isSchemeChar c) || (c <? 128)) (for_range 0 256) = true) as Hall by (by vm_compute).
  pose proof (all_bytes _ c Hall Hb) as Hp. cbn beta in Hp. rewrite Hs in Hp. cbn [negb orb] in Hp. breflect. cbn. rewrite IH2.
  rewrite <- toASCIILower_char_spec, Hl by done. by split; [constructor|].
Qed.

Lemma host_text_ascii l : canonical l -> Forall (fun c => c < 128) (l_host l) /\ toASCIILower <$> l_host l = l_host l.
Proof.
  intros Hl. destruct (c_host l Hl) as [Ht Hlow].
  assert (Forall (fun c => c < 128) (l_host l)) as Ha.
  { assert (forallb (fun c => negb (isHostnameChar c || isIPv6Char c) || (c <? 128)) (for_range 0 256) = true) as Hall by (by vm_compute).
    assert (forall c, isHostnameChar c = true \/ isIPv6Char c = true -> c < 128) as Hc.
    { intros c Hc. assert (c < 256) as Hb by (destruct Hc as [Hc|Hc]; by apply (in_class_bound _ _ Hc)).
      pose proof (all_bytes _ c Hall Hb) as Hp. cbn beta in Hp. apply orb_true_iff in Hp as [Hp|Hp]; [|by apply N.ltb_lt].
      apply negb_true_iff, orb_false_iff in Hp as [Hp1 Hp2]. destruct Hc; congruence. }
    destruct Ht as [[_ Ht]|(address & -> & Ht)]; [eapply Forall_impl; [exact Ht|auto]|].
    constructor; [done|]. apply Forall_app. split; [eapply Forall_impl; [exact Ht|auto]|by apply Forall_singleton]. }
  split; [done|]. rewrite <- Hlow at 2. apply Forall_fmap_ext. eapply Forall_impl; [exact Ha|]. intros c Hc. cbn beta in *. by rewrite toASCIILower_char_spec by lia.
Qed.

(** ** The accessors of a canonical URL *)

Section Accessors.
Context (l : Layout) (Hl : canonical l) (u : URL) (Hu : canonical_url l u) (Hsize : size (render (with_root l)) < 2 ^ 32).

Lemma url_protocol : String_chars (protocol u) = l_scheme l /\ String_isNull (protocol u) = false.
Proof.
  destruct Hu as (string & -> & Hs). split; [by apply (protocol_url_of string _ (with_root l))|].
  destruct string as [impl|]; [done|]. destruct (c_scheme l Hl) as (c & rest & E & _). unfold render in Hs. cbn [with_root l_scheme String_chars] in Hs. by rewrite E in Hs.
Qed.

Lemma url_host : String_chars (host u) = l_host l /\ String_isNull (host u) = false.
Proof.
  destruct Hu as (string & -> & Hs). split; [by apply (host_url_of string _ (with_root l))|].
  destruct string as [impl|]; [done|]. destruct (c_scheme l Hl) as (c & rest & E & _). unfold render in Hs. cbn [with_root l_scheme String_chars] in Hs. by rewrite E in Hs.
Qed.

Lemma url_port `{ICU} : port u = Some (port_number (l_port l)).
Proof.
  destruct Hu as (string & -> & Hs). unfold port. url_fields. cbn [with_root l_scheme l_slashes l_user l_password l_host l_port].
  destruct (l_port l) as [digits|] eqn:E; cbn [prefixed]; rewrite ?size_cons, ?size_nil, ?N.add_0_r.
  2: { by rewrite N.eqb_refl. }
  destruct (c_port l Hl digits E) as (Hne & Hd & _). set (before := _ + size (l_host l)).
  assert (0 < size digits) as Hpos by (destruct digits; [done|sizes]).
  rewrite (proj2 (N.eqb_neq before _)) by lia. rewrite (proj2 (N.eqb_neq (before + 1) _)) by lia. cbn [orb url_of m_string].
  assert (exists pre post, String_chars string = pre ++ digits ++ post /\ size pre = before + 1) as (pre & post & Hpre & Hsp).
  { exists (l_scheme l ++ 58 :: l_slashes l ++ l_user l ++ prefixed 58 (l_password l) ++ at_sign (l_user l) (l_password l) ++ l_host l ++ [58]),
      (l_path (with_root l) ++ prefixed 63 (l_query l) ++ prefixed 35 (l_fragment l)).
    split; [|unfold before; sizes]. rewrite Hs. unfold render, authority_text. cbn [with_root l_scheme l_slashes l_user l_password l_host l_port l_query l_fragment].
    rewrite E. by repeat (rewrite <- ?app_assoc; cbn [app prefixed]). }
  rewrite Hpre. replace ((before + (1 + size digits) <? before) || _) with false.
  2: { symmetry. apply orb_false_iff. split; apply N.ltb_ge; [lia|]. rewrite !length_app. unfold size in *. lia. }
  replace (before + (1 + size digits) - before - 1) with (size digits) by lia. rewrite <- Hsp. unfold size. rewrite !Nat2N.id, drop_app_length, take_app_length.
  by apply port_digits.
Qed.

Lemma url_protocolIs p : protocolIs u p = bool_decide (l_scheme l = p).
Proof.
  destruct Hu as (string & -> & Hs). unfold protocolIs. cbn [url_of m_isValid m_string m_schemeEnd negb]. cbn [with_root l_scheme].
  apply Bool.eq_iff_eq_true. rewrite andb_true_iff, bool_decide_eq_true, forallb_forall, N.eqb_eq.
  assert (forall i, i < size (l_scheme l) -> exists c, l_scheme l !!N i = Some c /\ String_at string i = c /\ lower_scheme_char c) as Hat.
  { intros i Hi. destruct (lookupN_is_Some (l_scheme l) i Hi) as [c Hc]. exists c. split_and!; [done| |].
    - unfold String_at. destruct string as [impl|]; cbn [String_chars] in Hs.
      + unfold render in Hs. cbn [with_root l_scheme] in Hs. rewrite Hs. rewrite (proj2 (N.leb_gt _ _)); [by rewrite (lookup_app_l_Some _ _ _ _ Hc)|].
        rewrite length_app. unfold size in Hi. lia.
      + unfold render in Hs. cbn [with_root l_scheme] in Hs. destruct (l_scheme l); [done|by destruct (N.to_nat i)].
    - pose proof (c_scheme_chars l Hl) as Hc'. eapply Forall_lookup_1 in Hc'; [|exact Hc]. done. }
  split.
  - intros [Hall Hlen]. apply list_eq. intros i. destruct (decide (i < length (l_scheme l))%nat) as [Hi|Hi].
    + destruct (Hat (N.of_nat i)) as (c & Hc & Hs' & Hlow); [unfold size; lia|]. rewrite Nat2N.id in Hc.
      assert (In (N.of_nat i) (for_range 0 (size (l_scheme l)))) as Hin by (apply list_elem_of_In, elem_of_for_range; unfold size; lia).
      specialize (Hall _ Hin). rewrite Nat2N.id, Hs' in Hall. destruct (p !! i) as [d|]; [|done]. rewrite Hc. f_equal.
      pose proof (lower_scheme_match c d Hlow) as Hm. unfold isLetterMatchIgnoringCase, isSchemeCharacterMatchIgnoringCase in *. rewrite Hm in Hall. by breflect.
    + unfold size in Hlen. rewrite !lookup_ge_None_2 by lia. done.
  - intros <-. split; [|done]. intros i Hin%list_elem_of_In%elem_of_for_range. destruct (Hat i) as (c & Hc & -> & Hlow); [lia|]. rewrite Hc.
    pose proof (lower_scheme_match c c Hlow) as Hm. unfold isLetterMatchIgnoringCase, isSchemeCharacterMatchIgnoringCase in *. rewrite Hm. apply N.eqb_refl.
Qed.
End Accessors.

(** ** The origin of a canonical URL *)

(** A scheme whose URLs have the origin of their own parts: they are not blobs, and the registry does not forbid it. *)
Definition has_origin `{ICU} (cocoa : bool) (registry : Registry) (scheme : list N) : Prop :=
  scheme <> lit "blob" /\
  forall s, String_chars s = scheme -> String_isNull s = false -> shouldTreatURLSchemeAsNoAccess cocoa s registry = false.

(** The origin of the parts, as an object. *)
Record origin_of (l : Layout) (o : SecurityOrigin) : Prop := {
  oo_protocol : String_chars (m_protocol o) = l_scheme l /\ String_isNull (m_protocol o) = false;
  oo_host : String_chars (m_host o) = l_host l /\ String_isNull (m_host o) = false;
  oo_domain : m_domain o = m_host o;
  oo_port : m_port o = origin_port l;
  oo_flags : m_isUnique o = false /\ m_universalAccess o = false /\ m_domainWasSetInDOM o = false /\ m_enforceFilePathSeparation o = false /\
    m_needsDatabaseIdentifierQuirkForFiles o = false
}.

Section Create.
Context `{ICU} `{Encodings} (cocoa : bool) (hasOneRef : Buffer -> bool) (stack : N).

Lemma lower_part s chars : String_chars s = chars -> String_isNull s = false -> Forall (fun c => c < 128) chars -> toASCIILower <$> chars = chars ->
  let lower := if String_isNull s then String8 [] else String_lower s in String_chars lower = chars /\ String_isNull lower = false.
Proof.
  intros Hs Hn Ha Hl. cbn zeta. rewrite Hn, String_lower_null. split; [|done]. rewrite String_lower_ascii by (unfold ascii; by rewrite Hs).
  unfold folded. by rewrite Hs.
Qed.

Lemma isDefaultPortForProtocol_spec port protocol scheme : String_chars protocol = scheme -> String_isNull protocol = false -> scheme <> [] ->
  Forall (fun c => c < 128) scheme -> toASCIILower <$> scheme = scheme -> isDefaultPortForProtocol port protocol = (default_port scheme =? port).
Proof.
  intros Hs Hn Hne Ha Hl. unfold isDefaultPortForProtocol. assert (String_isEmpty protocol = false) as -> by (apply String_isEmpty_spec; by rewrite Hs).
  assert (forall p, Forall (fun c => c < 128) p -> toASCIILower <$> p = p -> equalIgnoringCase (String8 p) protocol = bool_decide (scheme = p)) as Heq.
  { intros p Hp Hlp. apply Bool.eq_iff_eq_true. rewrite equalIgnoringCase_ascii, bool_decide_eq_true by (first [done|unfold ascii; by rewrite Hs]).
    unfold folded. rewrite Hs, Hl, Hn. cbn [String8 String_chars impl_chars String_isNull]. rewrite Hlp. naive_solver. }
  unfold default_port. rewrite !Heq by (first [repeat constructor|by vm_compute]).
  repeat (case_bool_decide; [by rewrite decide_True|rewrite decide_False by done]). done.
Qed.

Lemma create_canonical w l u : canonical l -> canonical_url l u -> size (render (with_root l)) < 2 ^ 32 -> has_origin cocoa (w_registry w) (l_scheme l) ->
  exists o, create cocoa hasOneRef stack w u = Some (None, o) /\ origin_of l o.
Proof.
  intros Hl Hu Hsize [Hblob Haccess]. destruct (url_protocol l Hl u Hu) as [Hp Hpn], (url_host l Hl u Hu Hsize) as [Hh Hhn].
  pose proof (url_port l Hl u Hu Hsize) as Hport. pose proof (url_protocolIs l Hl u Hu Hsize) as Hprotocol.
  destruct (lower_scheme_ascii _ (c_scheme_chars l Hl)) as [Hpa Hpl], (host_text_ascii l Hl) as [Hha Hhl].
  destruct (lower_part _ _ Hp Hpn Hpa Hpl) as [Hlp Hlpn], (lower_part _ _ Hh Hhn Hha Hhl) as [Hlh Hlhn].
  unfold create, getCachedOrigin. rewrite Hprotocol, bool_decide_false by done.
  assert (shouldTreatAsUniqueOrigin cocoa hasOneRef stack (w_registry w) u = Some false) as ->.
  { unfold shouldTreatAsUniqueOrigin. assert (m_isValid u = true) as -> by (by destruct Hu as (string & -> & _)). cbn [negb].
    unfold shouldUseInnerURL. rewrite Hprotocol, bool_decide_false by done. run_option.
    assert (String_isEmpty (host u) = false) as ->.
    { apply String_isEmpty_spec. rewrite Hh. split; [done|]. apply (host_not_empty l Hl). }
    rewrite andb_false_r. f_equal. rewrite Hpn in Hlp, Hlpn. by apply Haccess. }
  run_option. unfold shouldUseInnerURL. rewrite Hprotocol, bool_decide_false by done. run_option. unfold originOfURL. rewrite Hport. run_option.
  eexists. split; [done|]. split; cbn [m_protocol m_host m_domain m_port m_isUnique m_universalAccess m_domainWasSetInDOM m_enforceFilePathSeparation m_needsDatabaseIdentifierQuirkForFiles];
    try done.
  rewrite (isDefaultPortForProtocol_spec _ _ _ Hlp Hlpn) by (first [done|destruct (c_scheme l Hl) as (c & rest & -> & _); done]). done.
Qed.

(** ** Comparing origins *)

Lemma equal_strings_chars a b : String_isNull a = false -> String_isNull b = false -> equal_strings a b = bool_decide (String_chars a = String_chars b).
Proof. intros Ha Hb. apply Bool.eq_iff_eq_true. rewrite equal_strings_spec, Ha, Hb, bool_decide_eq_true. naive_solver. Qed.

(** The scheme, the host and the port. *)
Definition origin_tuple (l : Layout) : list N * list N * N := (l_scheme l, l_host l, origin_port l).

Lemma passesFileCheck_default o1 o2 : m_enforceFilePathSeparation o1 = false -> m_enforceFilePathSeparation o2 = false -> passesFileCheck o1 o2 = true.
Proof. unfold passesFileCheck. by intros -> ->. Qed.

Lemma isSameSchemeHostPort_tuple registry l1 l2 o1 o2 : origin_of l1 o1 -> origin_of l2 o2 ->
  isSameSchemeHostPort cocoa registry o1 o2 = bool_decide (origin_tuple l1 = origin_tuple l2).
Proof.
  intros [[P1 N1] [H1 M1] _ E1 (_ & _ & _ & S1 & _)] [[P2 N2] [H2 M2] _ E2 (_ & _ & _ & S2 & _)]. unfold isSameSchemeHostPort, origin_tuple.
  rewrite !equal_strings_chars, passesFileCheck_default, P1, P2, H1, H2, E1, E2 by done. cbn [negb]. rewrite andb_false_r.
  repeat (case_bool_decide; cbn [negb]; simplify_eq; try done).
  - by rewrite (proj2 (N.eqb_eq _ _)) by congruence.
  - destruct (_ =? _) eqn:E; breflect; [|done]. congruence.
Qed.

Lemma canAccess_tuple registry a l1 l2 o1 o2 : origin_of l1 o1 -> origin_of l2 o2 ->
  canAccess cocoa registry (None, o1) (a, o2) = bool_decide (origin_tuple l1 = origin_tuple l2).
Proof.
  intros Ho1 Ho2. rewrite <- (isSameSchemeHostPort_tuple registry l1 l2 o1 o2) by done. destruct Ho1 as [_ _ _ _ (U1 & A1 & D1 & S1 & _)], Ho2 as [_ _ _ _ (U2 & _ & D2 & S2 & _)].
  unfold canAccess, isSameSchemeHostPort. cbn [snd]. rewrite A1, U1, U2, D1, D2, passesFileCheck_default by done. cbn [same_object fst orb andb negb].
  rewrite andb_false_r. destruct (equal_strings (m_protocol o1) _), (equal_strings (m_host o1) _), (_ =? _), (isLocal _ _ _); done.
Qed.
End Create.
