(* ===== verification/OriginCorrect.v ===== *)
(** * Origins: the theorems

    The text of an origin is read back as the same origin; the party of a load,
    and the symmetry of access. *)

From S2P Require Import Prelude ASCII WTFString StringBuilder StringBuilderCorrect ResourceTypes URLCharacters StringOps URL URLParse URLSafety URLLayout URLAssemble URLRoundTrip URLEncode URLInit URLInitCorrect URLReferences DecodeEscapeSequences SchemeRegistry SecurityOrigin OriginCreation SecurityPolicy OriginRules.

(** ** The URL of an origin *)

Definition digits_of (number : N) : list N := default [] (numberToStringUnsigned number).

Definition origin_layout (l : Layout) : Layout :=
  mkLayout (l_scheme l) [47; 47] [] None (l_host l) (if origin_port l =? 0 then None else Some (digits_of (origin_port l))) [] None None.

(** The ports that the parser leaves out. *)
Definition parser_default_port (scheme : list N) : option N :=
  if decide (scheme = lit "ws" \/ scheme = lit "http") then Some 80
  else if decide (scheme = lit "wss" \/ scheme = lit "https") then Some 443
  else if decide (scheme = lit "ftp") then Some 21
  else if decide (scheme = lit "gopher") then Some 70
  else None.

Lemma slash_dot_prefix pc a b : slash_dot pc (a ++ b) = false -> slash_dot pc a = false.
Proof.
  revert pc. induction a as [|c a IH]; intros pc; [done|]. cbn [app slash_dot]. destruct (c =? 0); [done|]. destruct (_ && _); [done|]. apply IH.
Qed.

Lemma slash_dot_app pc a b : slash_dot pc a = false -> Forall (fun c => c <> 46) b -> slash_dot pc (a ++ b) = false.
Proof.
  intros Ha Hb. revert pc Ha. induction a as [|c a IH]; intros pc; cbn [app slash_dot].
  - intros _. revert pc. induction Hb as [|c b Hc _ IH]; intros pc; [done|]. cbn [slash_dot]. destruct (c =? 0); [done|].
    rewrite (proj2 (N.eqb_neq _ _) Hc). apply IH.
  - destruct (c =? 0); [done|]. destruct (_ && _); [done|]. apply IH.
Qed.

Lemma slash_dot_join pc a x b : slash_dot pc (a ++ [x]) = false -> slash_dot x b = false -> slash_dot pc (a ++ x :: b) = false.
Proof.
  intros Ha Hb. revert pc Ha. induction a as [|c a IH]; intros pc; cbn [app slash_dot]; (destruct (_ =? 0); [done|]); (destruct (_ && _); [done|]); [done|apply IH].
Qed.

Lemma slash_dot_suffix pc a b : Forall (fun c => c <> 0) a -> slash_dot pc (a ++ b) = false -> exists pc', slash_dot pc' b = false.
Proof.
  intros Ha. revert pc. induction Ha as [|c a Hc _ IH]; intros pc Hs; [by exists pc|]. cbn [app slash_dot] in Hs.
  rewrite (proj2 (N.eqb_neq _ _) Hc) in Hs. destruct (_ && _); [done|]. by eapply IH.
Qed.

Lemma slash_dot_head pc pc' a : head a <> Some 46 -> slash_dot pc a = false -> slash_dot pc' a = false.
Proof.
  destruct a as [|c a]; [done|]. cbn [head slash_dot]. intros Hc. rewrite (proj2 (N.eqb_neq c 46)) by (by intros ->). done.
Qed.

Lemma digits_of_spec number : number < 2 ^ 32 -> digits_value (digits_of number) = number /\ Forall digit_char (digits_of number) /\
  digits_of number <> [] /\ (length (digits_of number) <= 13)%nat /\ numberToStringUnsigned number = Some (digits_of number).
Proof.
  intros Hn. destruct (numberToStringUnsigned_value number Hn) as (digits & E & Hv & Hd & Hl). unfold digits_of. rewrite E. cbn [default].
  split_and!; [done| | |done|done].
  - eapply Forall_impl; [exact Hd|]. intros c [? ?]. unfold digit_char, isASCIIDigit. apply andb_true_iff. rewrite !N.leb_le. cbn beta in *. lia.
  - unfold numberToStringUnsigned, numberToStringImpl in E. destruct (number_digits_spec 13 number []) as (front & E' & _ & _ & Hf & _); [|lia|].
    + etrans; [exact Hn|]. by vm_compute.
    + rewrite E' in E. revert E. run_option. rewrite app_nil_r. intros [= <-]. destruct front; [simpl in Hf; lia|done].
Qed.

Lemma isDefaultPortForScheme_value port scheme : isDefaultPortForScheme port scheme (size scheme) = true ->
  exists n, parser_default_port scheme = Some n /\ digits_value port = n.
Proof.
  unfold isDefaultPortForScheme. assert (forall k s, N.of_nat k = size scheme -> length s = k -> equal_chars scheme s = true -> scheme = s) as Hs.
  { intros k s Hk Hl. unfold equal_chars. unfold size in Hk. rewrite bool_decide_eq_true. intros E. rewrite <- E. symmetry. apply firstn_all2. lia. }
  assert (forall s, equal_length_chars port s = true -> port = s) as Hp.
  { intros s. unfold equal_length_chars, equal_chars. rewrite andb_true_iff, !bool_decide_eq_true. intros [E1 E2]. rewrite <- E2. symmetry. apply firstn_all2. lia. }
  intros Hd. set (n := size scheme) in *. assert (n = 2 \/ n = 3 \/ n = 4 \/ n = 5 \/ n = 6) as Hn.
  { clearbody n. destruct n as [|[[p|p|]|[p|p|]|]]; try done; try lia; destruct p; try done; lia. }
  destruct Hn as [E|[E|[E|[E|E]]]]; rewrite E in Hd; apply eq_sym in E.
  1: apply andb_true_iff in Hd as [H1 H2]; rewrite (Hs 2%nat (lit "ws") E eq_refl H1), (Hp _ H2); by eexists.
  2: apply andb_true_iff in Hd as [H1 H2]; rewrite (Hs 4%nat (lit "http") E eq_refl H1), (Hp _ H2); by eexists.
  2: apply andb_true_iff in Hd as [H1 H2]; rewrite (Hs 5%nat (lit "https") E eq_refl H1), (Hp _ H2); by eexists.
  2: apply andb_true_iff in Hd as [H1 H2]; rewrite (Hs 6%nat (lit "gopher") E eq_refl H1), (Hp _ H2); by eexists.
  destruct (equal_chars scheme (lit "ftp")) eqn:H1; [rewrite (Hs 3%nat (lit "ftp") E eq_refl H1), (Hp _ Hd); by eexists|].
  destruct (equal_chars scheme (lit "wss")) eqn:H2; [rewrite (Hs 3%nat (lit "wss") E eq_refl H2), (Hp _ Hd); by eexists|done].
Qed.

Lemma origin_port_bound l : origin_port l <= 65535.
Proof. unfold origin_port. pose proof (port_number_bound (l_port l)). destruct (_ =? _); lia. Qed.

Lemma render_origin_layout l : render (origin_layout l) = l_scheme l ++ 58 :: 47 :: 47 :: l_host l ++ (if origin_port l =? 0 then [] else 58 :: digits_of (origin_port l)).
Proof.
  unfold render, authority_text, origin_layout. cbn [l_scheme l_slashes l_user l_password l_host l_port l_path l_query l_fragment prefixed at_sign app].
  destruct (origin_port l =? 0); cbn [prefixed]; by rewrite !app_nil_r.
Qed.

Section Origin.
Context (l : Layout) (Hl : canonical l) (Hdot : head (l_host l) <> Some 46) (Hdefault : parser_default_port (l_scheme l) <> Some (origin_port l)).

Lemma port_no_dot : Forall (fun c => c <> 46) (if origin_port l =? 0 then [] else 58 :: digits_of (origin_port l)).
Proof.
  pose proof (origin_port_bound l). destruct (digits_of_spec (origin_port l)) as (_ & Hd & _); [lia|]. destruct (_ =? 0); [constructor|]. constructor; [done|].
  eapply Forall_impl; [exact Hd|]. unfold digit_char, isASCIIDigit. intros c Hc ->. done.
Qed.

Lemma prefix_nonzero : Forall (fun c => c <> 0) (prefix_text l).
Proof.
  assert (forall c, user_char c -> c <> 0) as Hu by (by intros c Hc ->).
  unfold prefix_text, slashes_text, credentials. rewrite !Forall_app. split_and!; try by repeat constructor.
  - eapply Forall_impl; [exact (c_scheme_chars l Hl)|]. by intros c [Hc _] ->.
  - eapply Forall_impl; [exact (c_user l Hl)|]. intros c [Hc _]. by apply Hu.
  - pose proof (c_password l Hl) as Hp. destruct (l_password l) as [chars|]; [|done]. constructor; [done|]. destruct (Hp chars eq_refl) as [_ Hc].
    eapply Forall_impl; [exact Hc|exact Hu].
  - unfold at_sign. by destruct (l_user l), (l_password l); repeat constructor.
Qed.

Lemma origin_layout_canonical : canonical (origin_layout l).
Proof.
  pose proof (origin_port_bound l) as Hb. destruct (digits_of_spec (origin_port l)) as (Hv & Hd & Hne & _ & _); [lia|].
  split; unfold origin_layout; cbn [l_scheme l_slashes l_user l_password l_host l_port l_path l_query l_fragment]; try done; try apply Hl.
  - intros chars. destruct (_ =? 0); [done|]. intros [= <-]. split_and!; [done|done|].
    destruct (isDefaultPortForScheme _ _ _) eqn:E; [|done]. apply isDefaultPortForScheme_value in E as (n & Hn & <-). by rewrite Hv in Hn.
  - by left.
  - fold (origin_layout l). rewrite render_origin_layout. pose proof (c_dots l Hl) as Hdots. unfold render, authority_text in Hdots.
    destruct (c_scheme l Hl) as (c & rest & Es & _). pose proof prefix_nonzero as Hp. unfold prefix_text, slashes_text in Hp.
    rewrite Es in Hp. rewrite (c_slashes l Hl), Es in Hdots. rewrite Es. cbn [app hasSlashDotOrDotDot] in *. destruct (c =? 0); [done|].
    apply Forall_cons in Hp as [_ Hp].
    replace (rest ++ 58 :: 47 :: 47 :: l_host l ++ _) with ((rest ++ [58; 47]) ++ 47 :: l_host l ++ (if origin_port l =? 0 then [] else 58 :: digits_of (origin_port l)))
      by (by rewrite <- app_assoc).
    match type of Hdots with slash_dot _ ?t = false => replace t
      with (((rest ++ [58; 47; 47]) ++ credentials l) ++ l_host l ++ prefixed 58 (l_port l) ++ l_path l ++ prefixed 63 (l_query l) ++ prefixed 35 (l_fragment l)) in Hdots
      by (unfold credentials; by repeat (rewrite <- ?app_assoc; cbn [app])) end.
    apply slash_dot_join.
    + apply slash_dot_prefix, slash_dot_prefix in Hdots. by rewrite <- app_assoc.
    + apply slash_dot_app; [|exact port_no_dot]. apply slash_dot_suffix in Hdots as [pc Hdots]; [|done].
      apply slash_dot_prefix in Hdots. by eapply slash_dot_head.
Qed.

Lemma origin_layout_plain : Forall plain_char (render (origin_layout l)).
Proof.
  rewrite render_origin_layout. pose proof (origin_port_bound l). destruct (digits_of_spec (origin_port l)) as (_ & Hd & _); [lia|].
  assert (forallb (fun c => negb (isSchemeChar c || isHostnameChar c || isIPv6Char c || isASCIIDigit c || (c =? 58) || (c =? 47) || (c =? 91) || (c =? 93))
    || ((32 <? c) && (c <? 127) && negb (c =? 92))) (for_range 0 256) = true) as Hall by (by vm_compute).
  assert (forall c, c < 256 -> isSchemeChar c || isHostnameChar c || isIPv6Char c || isASCIIDigit c || (c =? 58) || (c =? 47) || (c =? 91) || (c =? 93) = true -> plain_char c) as Hp.
  { intros c Hc Ht. pose proof (all_bytes _ c Hall Hc) as Hq. cbn beta in Hq. rewrite Ht in Hq. cbn [negb orb] in Hq. breflect. by split_and!. }
  destruct (lower_scheme_ascii _ (c_scheme_chars l Hl)) as [Hsa _], (host_text_ascii l Hl) as [Hha _].
  apply Forall_app. split.
  { pose proof (c_scheme_chars l Hl) as Hs. rewrite Forall_forall in *. intros c Hc. apply Hp; [specialize (Hsa c Hc); cbn beta in Hsa; lia|].
    destruct (Hs c Hc) as [-> _]. done. }
  do 3 (apply Forall_cons; split; [by apply Hp|]). apply Forall_app. split.
  { destruct (c_host l Hl) as [Ht _]. rewrite !Forall_forall in *. intros c Hc. apply Hp; [specialize (Hha c Hc); cbn beta in Hha; lia|].
    destruct Ht as [[_ Ht]|(address & E & Ht)]; rewrite Forall_forall in Ht.
    - rewrite (Ht c Hc). by rewrite !orb_true_r.
    - rewrite E in Hc. apply elem_of_cons in Hc as [->|Hc]; [done|]. apply elem_of_app in Hc as [Hc|Hc%list_elem_of_singleton]; [|by subst].
      rewrite (Ht c Hc). by rewrite !orb_true_r. }
  destruct (_ =? 0); [constructor|]. apply Forall_cons. split; [by apply Hp|].
  eapply Forall_impl; [exact Hd|]. intros c Hc. cbn beta in Hc. apply Hp; [unfold digit_char, isASCIIDigit in Hc; breflect; lia|]. unfold digit_char in Hc. rewrite Hc. by rewrite !orb_true_r.
Qed.

Lemma origin_layout_tuple : origin_tuple (origin_layout l) = origin_tuple l.
Proof.
  unfold origin_tuple. f_equal. unfold origin_port at 1. cbn [origin_layout l_scheme l_port].
  pose proof (origin_port_bound l) as Hb. destruct (digits_of_spec (origin_port l)) as (Hv & _); [lia|].
  assert (port_number (if origin_port l =? 0 then None else Some (digits_of (origin_port l))) = origin_port l) as ->.
  { destruct (_ =? 0) eqn:E; breflect; [done|]. cbn [port_number]. rewrite Hv. unfold maximumValidPortNumber, invalidPortNumber. destruct (_ <? _) eqn:E2; breflect; lia. }
  unfold origin_port. destruct (default_port _ =? port_number _) eqn:E; [by destruct (_ =? 0)|]. by rewrite E.
Qed.
End Origin.

(** ** Writing the text *)

Section Text.
Context `{ICU} `{Encodings} (cocoa : bool) (hasOneRef : Buffer -> bool) (stack : N).

Lemma ascii_string_ok s chars : String_chars s = chars -> Forall (fun c => c < 128) chars -> string_ok s.
Proof.
  intros <-. destruct s as [impl|]; [|done]. cbn [String_chars string_ok]. intros Hc. eapply Forall_impl; [exact Hc|]. intros c Hlt. cbn beta in Hlt.
  unfold width_ok. destruct (impl_is8Bit impl); lia.
Qed.

(** The limit on the size of a host and a scheme, with room for the port. *)
Definition origin_fits (l : Layout) : Prop := size (l_scheme l) + size (l_host l) + 20 <= builder_limit.

Lemma toString_origin l o : canonical l -> origin_of l o -> origin_fits l ->
  exists s, origin_toString hasOneRef o = Some s /\ String_chars s = render (origin_layout l) /\ String_isNull s = false.
Proof.
  intros Hl [[Hp Hpn] [Hh Hhn] _ Hport (Hu & _ & _ & Hs & _)] Hfits. unfold origin_fits in Hfits.
  destruct (lower_scheme_ascii _ (c_scheme_chars l Hl)) as [Hpa _], (host_text_ascii l Hl) as [Hha _].
  assert (equal_literal (m_protocol o) (lit "file") = false) as Hfile.
  { destruct (equal_literal _ _) eqn:E; [|done]. apply equal_literal_spec in E as [_ E]; [|repeat constructor; done]. rewrite Hp in E. by destruct (c_file l Hl). }
  unfold origin_toString. rewrite Hu, Hfile. cbn [andb]. unfold toRawString. rewrite Hfile.
  assert (String_length (m_protocol o) = size (l_scheme l)) as Hpl by (by rewrite String_length_chars, Hp).
  assert (String_length (m_host o) = size (l_host l)) as Hhl by (by rewrite String_length_chars, Hh).
  destruct (reserveCapacity_repr hasOneRef _ [] (wrap32 (String_length (m_protocol o) + String_length (m_host o) + 10)) repr_empty) as (s1 & -> & R1).
  { rewrite Hpl, Hhl, wrap32_id by (unfold builder_limit in *; lia). lia. }
  run_option. pose proof (ascii_string_ok _ _ Hp Hpa) as Hpok. pose proof (ascii_string_ok _ _ Hh Hha) as Hhok. unfold size in *.
  destruct (append_String_repr hasOneRef s1 [] (m_protocol o) R1 Hpok) as (s2 & -> & R2); [rewrite Hpl; cbn [length]; lia|]. run_option. cbn [app] in R2. rewrite Hp in R2.
  destruct (append8_repr hasOneRef s2 _ (lit "://") R2) as (s3 & -> & R3); [repeat constructor|cbn [length lit] in *; change (N.of_nat (length (lit "://"))) with 3; lia|].
  run_option. destruct (append_String_repr hasOneRef s3 _ (m_host o) R3 Hhok) as (s4 & -> & R4).
  { rewrite Hhl, length_app. change (length (lit "://")) with 3%nat. lia. }
  run_option. rewrite Hh in R4. rewrite Hport. pose proof (origin_port_bound l) as Hb. destruct (digits_of_spec (origin_port l)) as (_ & _ & _ & Hdl & Hd); [lia|].
  assert (exists s5, (if negb (origin_port l =? 0) then result ← append_LChar hasOneRef 58 s4; appendNumber hasOneRef (origin_port l) result else Some s4) = Some s5 /\
    repr s5 (((l_scheme l ++ lit "://") ++ l_host l) ++ (if origin_port l =? 0 then [] else 58 :: digits_of (origin_port l)))) as (s5 & -> & R5).
  { destruct (origin_port l =? 0) eqn:E; cbn [negb]; [by exists s4; rewrite app_nil_r|].
    destruct (append_LChar_repr hasOneRef s4 _ 58 R4) as (s5 & -> & R5); [done|rewrite !length_app; change (length (lit "://")) with 3%nat; lia|].
    run_option. destruct (appendNumber_repr hasOneRef s5 _ (origin_port l) _ R5 ltac:(lia) Hd) as (s6 & -> & R6).
    - rewrite !length_app. change (length (lit "://")) with 3%nat. cbn [length]. lia.
    - exists s6. split; [done|]. by rewrite <- app_assoc in R6. }
  run_option. destruct (toString_repr hasOneRef _ _ R5) as (s6 & impl & -> & _ & Hc & _). run_option. eexists. split; [done|]. split; [|done].
  transitivity (impl_chars impl); [done|]. rewrite Hc, render_origin_layout, <- !app_assoc. done.
Qed.

(** The text of the origin of a canonical URL is read back as an object with the same tuple. *)
Lemma origin_text_roundtrip w l o : canonical l -> head (l_host l) <> Some 46 -> origin_of l o -> origin_fits l -> has_origin cocoa (w_registry w) (l_scheme l) ->
  parser_default_port (l_scheme l) <> Some (origin_port l) ->
  exists s o', origin_toString hasOneRef o = Some s /\ createFromString cocoa hasOneRef stack w s = Some (None, o') /\ origin_of (origin_layout l) o'.
Proof.
  intros Hl Hdot Ho Hfits Haccess Hdefault. destruct (toString_origin l o Hl Ho Hfits) as (s & Hs & Hc & Hn).
  pose proof (origin_layout_canonical l Hl Hdot Hdefault) as Hl'.
  assert (size (render (origin_layout l)) <= 600000000) as Hsize.
  { rewrite render_origin_layout. destruct (digits_of_spec (origin_port l)) as (_ & _ & _ & Hdl & _); [pose proof (origin_port_bound l); lia|].
    unfold origin_fits, builder_limit in Hfits. rewrite size_app, !size_cons, size_app. destruct (_ =? 0); sizes; unfold size in *; lia. }
  destruct (init_plain (origin_layout l) Hl' (origin_layout_plain l Hl)) with s emptyURL as (u & Hu & Hcu & _); [unfold reference_limit; lia|done|by right|].
  destruct (create_canonical cocoa hasOneRef stack w (origin_layout l) u Hl' Hcu) as (o' & Ho' & Hoo); [|done|].
  - assert (size (render (with_root (origin_layout l))) <= size (render (origin_layout l)) + 1) as Hle.
    { unfold render, authority_text, with_root. cbn [l_scheme l_slashes l_user l_password l_host l_port l_path l_query l_fragment].
      destruct (l_path _); [destruct (http_scheme _)|]; sizes. }
    change (2 ^ 32) with 4294967296. lia.
  - exists s, o'. split_and!; [done| |done]. unfold createFromString. rewrite Hu. run_option. exact Ho'.
Qed.
End Text.

#[local] Existing Instances ascii_icu low_byte_encodings.

(** ** Symmetry *)

Lemma isLocal_chars `{ICU} cocoa registry a b : ascii_set registry LocalSchemes -> ascii (m_protocol a) ->
  equal_strings (m_protocol a) (m_protocol b) = true -> isLocal cocoa registry a = isLocal cocoa registry b.
Proof. intros Hr Ha [Hn Hc]%equal_strings_spec. by apply contains_scheme_chars. Qed.

Lemma passesFileCheck_sym a b : passesFileCheck a b = passesFileCheck b a.
Proof. unfold passesFileCheck. rewrite (equal_strings_sym (m_filePath a)). by rewrite andb_comm. Qed.

Lemma same_object_sym a b : same_object a b = same_object b a.
Proof. unfold same_object. destruct a.1, b.1; try done. apply N.eqb_sym. Qed.

(** C40: access between origins is symmetric as long as neither was granted
    universal access, for any state of their domains, ports, file paths and
    objects, when their protocols and the local schemes are ASCII. *)
Theorem canAccess_symmetric (I : ICU) (cocoa : bool) (registry : Registry) (a b : OriginRef)
  (Hr : ascii_set registry LocalSchemes) (Ha : ascii (m_protocol a.2))
  (Hua : m_universalAccess a.2 = false) (Hub : m_universalAccess b.2 = false) :
  canAccess cocoa registry a b = canAccess cocoa registry b a.
Proof.
  unfold canAccess. rewrite Hua, Hub, (same_object_sym b a), (equal_strings_sym (m_protocol b.2)), (equal_strings_sym (m_host b.2)),
    (equal_strings_sym (m_domain b.2)), (N.eqb_sym (m_port b.2)), (passesFileCheck_sym b.2), (orb_comm (m_isUnique b.2)),
    (andb_comm (negb (m_domainWasSetInDOM b.2))), (andb_comm (m_domainWasSetInDOM b.2)).
  destruct (same_object a b); [done|]. destruct (_ || _); [done|]. destruct (equal_strings (m_protocol a.2) _) eqn:E; [|done].
  by rewrite (isLocal_chars cocoa registry a.2 b.2).
Qed.

Lemma canAccess_symmetric_witness : exists a b, create true (fun _ => false) 0 World_new <$> parse (lit "file:///a") None = Some (Some a) /\
  create true (fun _ => false) 0 World_new <$> parse (lit "file:///b") None = Some (Some b) /\
  canAccess true Registry_new (None, enforceFilePathSeparation a.2) b = canAccess true Registry_new b (None, enforceFilePathSeparation a.2).
Proof.
  eexists _, _. split; [by vm_compute|]. split; [by vm_compute|]. apply canAccess_symmetric; [split; by apply Forall_nil|by apply (bool_decide_unpack _); vm_compute|done|done].
Defined.

(** ** The party of a load *)

(** C18: for every two canonical URLs whose schemes have origins of their own
    ([has_origin]: not [blob], and no scheme without access, such as [javascript],
    whose origins are unique and third parties to themselves), the
    resource of the one is of the first party for a document at the other exactly
    when their schemes, hosts and the ports of their origins are equal; the flags of the load that the
    content extensions match on say so next to the type of the resource.  The port
    of an origin is 0 for a missing port and a default one, and the same for all
    the invalid ports. *)
Theorem third_party_spec (I : ICU) (C : Encodings) (cocoa : bool) (hasOneRef : Buffer -> bool) (stack : N) (w : World)
  (ldoc lres : Layout) (doc res : URL) (type : ResourceType)
  (Hdoc : canonical ldoc /\ canonical_url ldoc doc /\ size (render (with_root ldoc)) < 2 ^ 32 /\ has_origin cocoa (w_registry w) (l_scheme ldoc))
  (Hres : canonical lres /\ canonical_url lres res /\ size (render (with_root lres)) < 2 ^ 32 /\ has_origin cocoa (w_registry w) (l_scheme lres)) :
  let same := bool_decide (l_scheme ldoc = l_scheme lres /\ l_host ldoc = l_host lres /\ origin_port ldoc = origin_port lres) in
  let info := mkResourceLoadInfo res doc type in
  info_isThirdParty cocoa hasOneRef stack w info = Some (negb same) /\
  getResourceFlags cocoa hasOneRef stack w info = Some (N.lor (resource_value type) (if same then load_value Load_FirstParty else load_value Load_ThirdParty)).
Proof.
  destruct Hdoc as (Hd & Hdu & Hds & Hdo), Hres as (Hr & Hru & Hrs & Hro). cbn zeta.
  destruct (create_canonical cocoa hasOneRef stack w ldoc doc Hd Hdu Hds Hdo) as (o1 & E1 & O1).
  destruct (create_canonical cocoa hasOneRef stack w lres res Hr Hru Hrs Hro) as (o2 & E2 & O2).
  assert (info_isThirdParty cocoa hasOneRef stack w (mkResourceLoadInfo res doc type) =
    Some (negb (bool_decide (l_scheme ldoc = l_scheme lres /\ l_host ldoc = l_host lres /\ origin_port ldoc = origin_port lres)))) as E.
  { unfold info_isThirdParty. cbn [mainDocumentURL resourceURL]. rewrite E1. run_option. rewrite E2. run_option.
    rewrite (canAccess_tuple cocoa _ _ ldoc lres o1 o2 O1 O2). f_equal. f_equal. apply bool_decide_ext. unfold origin_tuple. split; [intros [= ? ? ?]; done|intros (? & ? & ?); congruence]. }
  split; [exact E|]. unfold getResourceFlags. rewrite E. run_option. cbn [info_type]. by case_bool_decide.
Qed.

Lemma has_origin_new (I : ICU) (cocoa : bool) (scheme : list N) : Forall (fun c => c < 128) scheme -> scheme <> lit "blob" ->
  toASCIILower <$> scheme ∉ [lit "about"; lit "javascript"; lit "data"] -> has_origin cocoa Registry_new scheme.
Proof.
  intros Ha Hb Hn. split; [done|]. intros s Hs Hnull. destruct (shouldTreatURLSchemeAsNoAccess _ _ _) eqn:E; [|done]. exfalso.
  apply (contains_scheme_spec cocoa UniqueOriginSchemes Registry_new s) in E as [_ E]; [|done|unfold ascii; by rewrite Hs|split; by apply Forall_nil].
  unfold folded in E. rewrite Hs in E. by apply Hn.
Qed.

Definition example_document : Layout := mkLayout (lit "http") [47; 47] [] None (lit "h") (Some (lit "81")) (lit "/a") None None.
Definition example_resource : Layout := mkLayout (lit "http") [47; 47] [] None (lit "h") None (lit "/") None None.

Lemma example_resource_canonical : canonical example_resource.
Proof.
  split; cbn [example_resource l_scheme l_slashes l_user l_password l_host l_port l_path l_query l_fragment]; try done.
  - by eexists _, _.
  - repeat constructor.
  - split; [left; split; [done|repeat constructor]|done].
  - by right.
  - split; [|done]. repeat constructor; done.
Qed.

Lemma canonical_url_text l : canonical l -> canonical_url l (url_of (String8 (render (with_root l))) (http_scheme (l_scheme l)) (with_root l)).
Proof. intros Hl. by eexists. Qed.

Lemma example_has_origin : has_origin (H := ascii_icu) true (w_registry World_new) (lit "http").
Proof. apply has_origin_new; [repeat constructor|done|]. rewrite !not_elem_of_cons. split_and!; [done..|apply not_elem_of_nil]. Qed.

Lemma third_party_spec_witness : exists doc res,
  info_isThirdParty true (fun _ => false) 0 World_new (mkResourceLoadInfo res doc Resource_Image) = Some true /\
  getResourceFlags true (fun _ => false) 0 World_new (mkResourceLoadInfo res doc Resource_Image) = Some (N.lor (resource_value Resource_Image) (load_value Load_ThirdParty)).
Proof.
  eexists (url_of (String8 (render (with_root example_document))) _ (with_root example_document)), (url_of (String8 (render (with_root example_resource))) _ (with_root example_resource)).
  apply (third_party_spec ascii_icu low_byte_encodings true (fun _ => false) 0 World_new example_document example_resource).
  - split_and!; [exact canonical_example|apply canonical_url_text, canonical_example|by vm_compute|exact example_has_origin].
  - split_and!; [exact example_resource_canonical|apply canonical_url_text, example_resource_canonical|by vm_compute|exact example_has_origin].
Defined.

(** ** The text of an origin *)

(** C19: the text of the origin of a canonical URL is the URL of its scheme, host
    and port, and the origin that is made of that text again is another object
    with the same scheme, host and port, so that the two have access to each
    other, and the user and the password of the URL play no part in it.  Excluded
    are the schemes whose origins are not their own (the text of a unique origin is
    [null]), a port that only the URL parser knows as the default of its scheme, as
    in [ws://h:080], a host that starts with a dot, and texts that are too long for
    a [StringBuilder]. *)
Theorem origin_string_roundtrip (I : ICU) (C : Encodings) (cocoa : bool) (hasOneRef : Buffer -> bool) (stack : N) (w : World) (l : Layout) (u : URL)
  (Hl : canonical l) (Hu : canonical_url l u) (Hsize : size (render (with_root l)) < 2 ^ 32) (Hfits : origin_fits l)
  (Ho : has_origin cocoa (w_registry w) (l_scheme l)) (Hdot : head (l_host l) <> Some 46)
  (Hdefault : parser_default_port (l_scheme l) <> Some (origin_port l)) :
  exists o s o', create cocoa hasOneRef stack w u = Some (None, o) /\
    origin_toString hasOneRef o = Some s /\ String_chars s = render (origin_layout l) /\
    createFromString cocoa hasOneRef stack w s = Some (None, o') /\
    isSameSchemeHostPort cocoa (w_registry w) o o' = true /\ canAccess cocoa (w_registry w) (None, o) (None, o') = true.
Proof.
  destruct (create_canonical cocoa hasOneRef stack w l u Hl Hu Hsize Ho) as (o & E & Hoo).
  destruct (origin_text_roundtrip cocoa hasOneRef stack w l o Hl Hdot Hoo Hfits Ho Hdefault) as (s & o' & Hs & Ho' & Hoo').
  destruct (toString_origin hasOneRef l o Hl Hoo Hfits) as (s' & Hs' & Hc & _). rewrite Hs in Hs'. injection Hs' as <-.
  exists o, s, o'. rewrite (isSameSchemeHostPort_tuple cocoa _ l (origin_layout l) o o' Hoo Hoo'), (canAccess_tuple cocoa _ _ l (origin_layout l) o o' Hoo Hoo').
  rewrite origin_layout_tuple by done. by rewrite bool_decide_true.
Qed.

Lemma origin_string_roundtrip_witness : exists u o s o', create true (fun _ => false) 0 World_new u = Some (None, o) /\
    origin_toString (fun _ => false) o = Some s /\ String_chars s = lit "http://h:81" /\
    createFromString true (fun _ => false) 0 World_new s = Some (None, o') /\
    isSameSchemeHostPort true Registry_new o o' = true /\ canAccess true Registry_new (None, o) (None, o') = true.
Proof.
  exists (url_of (String8 (render (with_root example_document))) true (with_root example_document)).
  apply (origin_string_roundtrip ascii_icu low_byte_encodings true (fun _ => false) 0 World_new example_document);
    [exact canonical_example|apply canonical_url_text, canonical_example|by vm_compute|by vm_compute|exact example_has_origin|done|by vm_compute].
Defined.
