(* ===== verification/URLUserInfo.v ===== *)
(** * [WebCore/platform/URL.cpp]: percent-encoding, and the parts of a URL behind it

    The user, the password and the path of a URL are set through
    [encodeWithURLEscapeSequences] and read through [decodeURLEscapeSequences].
    Encoding text and decoding it again gives the text back; setting a user, a
    password or a path of a canonical URL makes the URL with that part; the
    comparisons of two URLs compare the parts that their names say, and the
    ports that are allowed are those that are not on the list. *)

From S2P Require Import Prelude ASCII WTFString StringBuilder StringBuilderCorrect URLCharacters StringOps URL URLParse URLSafety URLLayout URLAssemble URLRoundTrip URLEncode URLInit URLInitCorrect URLReferences TextCodecUTF8 UTF8Spec UTF8Decode UTF8RoundTrip WTFUnicode WTFUnicodeCorrect DecodeEscapeSequences OriginRules OriginCorrect.

(** ** Percent-encoding *)

(** The loop of the two encoders: each byte is escaped or copied. *)
Definition escape_where (escaped : N -> bool) (bytes : list N) : list N :=
  bytes ≫= fun c => if escaped c then escapedChar c else [c].

(** The buffer of an encoder, a [Vector] that crashes when it is too large, and the string that is made of it. *)
Definition encode_where (escaped : N -> bool) (notEncodedString : WTFString) : option WTFString :=
  asUTF8 ← String_utf8 notEncodedString LenientConversion;
  let bytes := default [] asUTF8 in
  if max32 <? N.of_nat (length bytes) * 3 + 1 then None
  else String_create LChar (escape_where escaped bytes).

(** WebCore/platform/URL.cpp:1595-1615 [encodeWithURLEscapeSequences], of the characters of a class *)
Definition encodeWithURLEscapeSequences_class (notEncodedString : WTFString) (whatToEncode : N) : option WTFString :=
  encode_where (fun c => whatToEncode <=? default 0 (percentEncodeClassTable !!N c)) notEncodedString.

(** WebCore/platform/URL.cpp:1617-1637 [encodeWithURLEscapeSequences] *)
Definition encodeWithURLEscapeSequences (notEncodedString : WTFString) : option WTFString :=
  encode_where isBadChar notEncodedString.

(** ** Setters *)

(** WTF/wtf/text/WTFString.cpp:121-163 [String::append], of a character of 8 bits; a string that is too long for
    its characters crashes *)
Definition String_append_LChar (s : WTFString) (c : N) : option WTFString :=
  match s with
  | None => String_create LChar [c]
  | Some impl =>
      if max32 <=? N.of_nat (length (impl_chars impl)) then None
      else String_create (if impl_is8Bit impl then LChar else UChar) (impl_chars impl ++ [c])
  end.

(** WebCore/platform/URL.cpp:872-897 [URL::setUser] *)
Definition setUser (url : URL) (user : WTFString) : option URL :=
  if negb (m_isValid url) then Some url
  else
    let end_ := m_userEnd url in
    if negb (String_isEmpty user) then
      u ← encodeWithURLEscapeSequences_class user PercentEncodeUsername;
      u ← (if m_userStart url =? m_schemeEnd url + 1 then String_concat [String8 [47; 47]; u] else Some u);
      u ← (if (end_ =? m_hostEnd url) || ((end_ =? m_passwordEnd url) && negb (String_at (m_string url) end_ =? 64))
           then String_append_LChar u 64 else Some u);
      text ← String_concat [String_left (m_string url) (m_userStart url); u; String_substring (m_string url) end_ max32];
      parse_string text
    else
      let end_ := if (m_userEnd url =? m_passwordEnd url) && negb (end_ =? m_hostEnd url) && (String_at (m_string url) end_ =? 64)
                  then end_ + 1 else end_ in
      if negb (m_userStart url =? end_) then
        text ← String_concat [String_left (m_string url) (m_userStart url); String_substring (m_string url) end_ max32];
        parse_string text
      else Some url.

(** WebCore/platform/URL.cpp:899-921 [URL::setPass] *)
Definition setPass (url : URL) (password : WTFString) : option URL :=
  if negb (m_isValid url) then Some url
  else
    let end_ := m_passwordEnd url in
    if negb (String_isEmpty password) then
      p ← encodeWithURLEscapeSequences_class password PercentEncodePassword;
      p ← String_concat [String8 [58]; p; String8 [64]];
      p ← (if m_userEnd url =? m_schemeEnd url + 1 then String_concat [String8 [47; 47]; p] else Some p);
      let end_ := if negb (end_ =? m_hostEnd url) && (String_at (m_string url) end_ =? 64) then end_ + 1 else end_ in
      text ← String_concat [String_left (m_string url) (m_userEnd url); p; String_substring (m_string url) end_ max32];
      parse_string text
    else
      let end_ := if (m_userStart url =? m_userEnd url) && negb (end_ =? m_hostEnd url) && (String_at (m_string url) end_ =? 64)
                  then end_ + 1 else end_ in
      if negb (m_userEnd url =? end_) then
        text ← String_concat [String_left (m_string url) (m_userEnd url); String_substring (m_string url) end_ max32];
        parse_string text
      else Some url.

(** WebCore/platform/URL.cpp:954-966 [URL::setPath] *)
Definition setPath (url : URL) (s : WTFString) : option URL :=
  if negb (m_isValid url) then Some url
  else
    path ← (if String_isEmpty s || negb (String_at s 0 =? 47) then String_concat [String8 [47]; s] else Some s);
    path ← encodeWithURLEscapeSequences path;
    text ← String_concat [String_left (m_string url) (m_portEnd url); path; String_substring (m_string url) (m_pathEnd url) max32];
    parse_string text.

(** WebCore/platform/URL.cpp:1917-1924 [URL::strippedForUseAsReferrer] *)
Definition strippedForUseAsReferrer (url : URL) : option WTFString :=
  referrer ← setUser url None;
  referrer ← setPass referrer None;
  referrer ← removeFragmentIdentifier referrer;
  Some (m_string referrer).

(** ** Parts *)

(** WTF/wtf/text/StringImpl.h:1041-1052 [reverseFind], the loop from an index downwards *)
Fixpoint reverse_find (fuel : nat) (characters : list N) (matchCharacter index : N) : option N :=
  match fuel with
  | O => None
  | S fuel =>
      if default 0 (characters !!N index) =? matchCharacter then Some index
      else if index =? 0 then None
      else reverse_find fuel characters matchCharacter (index - 1)
  end.

(** WTF/wtf/text/StringImpl.cpp:1273-1278 [StringImpl::reverseFind], of a character from an index, and [String::reverseFind] *)
Definition String_reverseFind_from (s : WTFString) (c index : N) : option N :=
  let characters := String_chars s in
  let length_ := N.of_nat (length characters) in
  if length_ =? 0 then None
  else
    let index := if length_ <=? index then length_ - 1 else index in
    reverse_find (S (N.to_nat index)) characters c index.

(** WebCore/platform/URL.cpp:658-673 [URL::lastPathComponent]; [notFound] is not less than an end, and becomes
    zero when it is incremented *)
Definition lastPathComponent (url : URL) : WTFString :=
  if negb (hasPath url) then None
  else
    let end_ := sub32 (m_pathEnd url) 1 in
    let end_ := if String_at (m_string url) end_ =? 47 then sub32 end_ 1 else end_ in
    match String_reverseFind_from (m_string url) 47 end_ with
    | Some start =>
        if start <? m_portEnd url then None
        else String_substring (m_string url) (start + 1) (wrap32 (sub32 end_ (start + 1) + 1))
    | None => String_substring (m_string url) 0 (wrap32 (end_ + 1))
    end.

(** WebCore/platform/URL.cpp:1926-1933 [URL::isLocalFile] *)
Definition isLocalFile (url : URL) : bool := protocolIs url (lit "file").

(** WebCore/platform/URL.cpp:1935-1938 [protocolIsJavaScript] *)
Definition protocolIsJavaScript (url : WTFString) : bool := string_protocolIs (String_chars url) (lit "javascript").

(** WebCore/platform/URL.cpp:1956-1959 [URL::isBlankURL] *)
Definition isBlankURL (url : URL) : bool := protocolIs url (lit "about").

Section Decoded.
Context (hasOneRef : Buffer -> bool) (address : N).

(** WebCore/platform/URL.cpp:705-708 [URL::user] *)
Definition user (url : URL) : option WTFString := decodeURLEscapeSequences hasOneRef address (encodedUser url).

(** WebCore/platform/URL.cpp:710-716 [URL::pass] *)
Definition pass (url : URL) : option WTFString :=
  if m_passwordEnd url =? m_userEnd url then Some None
  else decodeURLEscapeSequences hasOneRef address
         (String_substring (m_string url) (m_userEnd url + 1) (sub32 (sub32 (m_passwordEnd url) (m_userEnd url)) 1)).

(** WebCore/platform/URL.cpp:750-756 [URL::fileSystemPath] *)
Definition fileSystemPath (url : URL) : option WTFString :=
  if negb (m_isValid url) || negb (isLocalFile url) then Some None
  else decodeURLEscapeSequences hasOneRef address (path url).
End Decoded.

(** WebCore/platform/URL.cpp:2081-2093 [mimeTypeFromDataURL] *)
Definition mimeTypeFromDataURL `{ICU} (url : WTFString) : WTFString :=
  let index := match String_find url 59 with Some i => Some i | None => String_find url 44 end in
  match index with
  | Some index => if 5 <? index then String_lower (String_substring url 5 (index - 5)) else String8 (lit "text/plain")
  | None => String8 []
  end.

(** WebCore/platform/URL.cpp:2109-2115 [URL::stringCenterEllipsizedToLength], and [String::right] *)
Definition stringCenterEllipsizedToLength (url : URL) (length_ : N) : option WTFString :=
  let string := m_string url in
  if String_length string <=? length_ then Some string
  else
    let right := sub32 (length_ / 2) 2 in
    String_concat [String_left string (sub32 (length_ / 2) 1); String8 (lit "...");
                   String_substring string (sub32 (String_length string) right) right].

(** WebCore/platform/URL.cpp:2122-2125 [URL::fileURLWithFileSystemPath] *)
Definition fileURLWithFileSystemPath `{ICU} `{Encodings} (filePath : WTFString) : option URL :=
  text ← String_concat [String8 (lit "file:///"); filePath]; URL_relative emptyURL text.

(** ** Comparing URLs *)

(** The characters of two strings at some indices are the same. *)
Definition same_at (a b : WTFString) (startA startB count : N) : bool :=
  forallb (fun i => String_at a (startA + i) =? String_at b (startB + i)) (for_range 0 count).

(** WebCore/platform/URL.cpp:1556-1565 [equalIgnoringFragmentIdentifier] *)
Definition equalIgnoringFragmentIdentifier (a b : URL) : bool :=
  if negb (m_queryEnd a =? m_queryEnd b) then false
  else same_at (m_string a) (m_string b) 0 0 (m_queryEnd a).

Section Ports.
Context `{ICU}.

(** WebCore/platform/URL.cpp:1567-1593 [protocolHostAndPortAreEqual]; the lengths are never negative *)
Definition protocolHostAndPortAreEqual (a b : URL) : option bool :=
  if negb (m_schemeEnd a =? m_schemeEnd b) then Some false
  else
    let hostLengthA := m_hostEnd a - hostStart a in
    let hostLengthB := m_hostEnd b - hostStart b in
    if negb (hostLengthA =? hostLengthB) then Some false
    else if negb (same_at (m_string a) (m_string b) 0 0 (m_schemeEnd a)) then Some false
    else if negb (same_at (m_string a) (m_string b) (hostStart a) (hostStart b) hostLengthA) then Some false
    else portA ← port a; portB ← port b; Some (portA =? portB).

(** WebCore/platform/URL.cpp:1987-2053 [portAllowed], the list *)
Definition blockedPortList : list N :=
  [1; 7; 9; 11; 13; 15; 17; 19; 20; 21; 22; 23; 25; 37; 42; 43; 53; 77; 79; 87; 95; 101; 102; 103; 104; 109; 110; 111; 113;
   115; 117; 119; 123; 135; 139; 143; 179; 389; 465; 512; 513; 514; 515; 526; 530; 531; 532; 540; 556; 563; 587; 601; 636;
   993; 995; 2049; 3659; 4045; 6000; 6665; 6666; 6667; 6668; 6669; invalidPortNumber].

(** [std::binary_search]: the first element that is not less than the value, in the half where it is. *)
Fixpoint binary_search (fuel : nat) (l : list N) (first last value : N) : bool :=
  match fuel with
  | O => false
  | S fuel =>
      if first <? last then
        let middle := first + (last - first) / 2 in
        if default 0 (l !!N middle) <? value then binary_search fuel l (middle + 1) last value
        else binary_search fuel l first middle value
      else match l !!N first with Some element => element =? value | None => false end
  end.

(** WebCore/platform/URL.cpp:1977-2079 [portAllowed] *)
Definition portAllowed (url : URL) : option bool :=
  port ← port url;
  if port =? 0 then Some true
  else if negb (binary_search (S (length blockedPortList)) blockedPortList 0 (N.of_nat (length blockedPortList)) port) then Some true
  else if ((port =? 21) || (port =? 22)) && protocolIs url (lit "ftp") then Some true
  else if protocolIs url (lit "file") then Some true
  else Some false.
End Ports.

(** ** Encoded text *)

(** The code points of a string, and the strings that have a UTF-8 encoding. *)
Definition String_code_points (s : WTFString) : list N :=
  match s with
  | None => []
  | Some impl => if impl_is8Bit impl then impl_chars impl else code_points (impl_chars impl)
  end.

Definition well_formed (s : WTFString) : Prop := string_ok s /\ Forall scalar (String_code_points s).

(** The texts that the encoders and the decoder have room for. *)
Definition encoder_limit : N := 100000000.

Lemma utf16_latin cs : Forall (fun c => c < 0x10000) cs -> utf16_text cs = cs.
Proof.
  induction 1 as [|c cs Hc _ IH]; [done|]. unfold utf16_text in *. rewrite bind_cons, IH. unfold utf16. by rewrite (proj2 (N.ltb_lt c 0x10000)) by lia.
Qed.

Lemma code_points_chars s : string_ok s -> utf16_text (String_code_points s) = String_chars s.
Proof.
  destruct s as [[is8Bit chars]|]; [|done]. cbn [string_ok String_code_points String_chars impl_is8Bit impl_chars]. unfold width_ok. intros Hs. destruct is8Bit.
  - apply utf16_latin. eapply Forall_impl; [exact Hs|]. cbn. lia.
  - by apply code_points_text.
Qed.

Lemma String_utf8_well_formed s : well_formed s -> String_length s <= encoder_limit ->
  exists asUTF8, String_utf8 s LenientConversion = Some asUTF8 /\ default [] asUTF8 = utf8_text (String_code_points s).
Proof.
  intros [Hs _] Hlen. destruct s as [impl|]; [|by eexists]. unfold String_length, encoder_limit in Hlen. rewrite String_utf8_spec.
  - eexists. split; [done|]. unfold String_code_points. by destruct (impl_is8Bit impl).
  - unfold string_ok, width_ok, unit_limit in *. by destruct (impl_is8Bit impl).
  - unfold max32, sizeof_CStringBuffer. lia.
Qed.

(** ** Escaping and reading back a byte *)

Lemma escapedChar_spec b : b < 256 -> exists h1 h2, escapedChar b = [37; h1; h2] /\ isASCIIHexDigit h1 = true /\ isASCIIHexDigit h2 = true /\
  wrap8 (N.lor (N.shiftl (toASCIIHexValue h1) 4) (toASCIIHexValue h2)) = b /\ h1 < 256 /\ h2 < 256.
Proof.
  intros Hb. assert (forallb (fun b => match escapedChar b with
    | [37; h1; h2] => isASCIIHexDigit h1 && isASCIIHexDigit h2 && (wrap8 (N.lor (N.shiftl (toASCIIHexValue h1) 4) (toASCIIHexValue h2)) =? b) && (h1 <? 256) && (h2 <? 256)
    | _ => false end) (for_range 0 256) = true) as Hall by (by vm_compute).
  pose proof (all_bytes _ b Hall Hb) as Hp. cbn beta in Hp. unfold escapedChar, placeByteAsHex in *. breflect.
  eexists _, _. split; [reflexivity|]. split_and!; assumption.
Qed.

Section Text.
Context (escaped : N -> bool).

(** The characters that are not ASCII are escaped, and so are the percent signs of the text, as far as it has any. *)
Definition escapes (cs : list N) : Prop := (forall b, 128 <= b < 256 -> escaped b = true) /\ Forall scalar cs /\ (37 ∈ cs -> escaped 37 = true).

Definition encoded (c : N) : list N := escape_where escaped (utf8 c).

Definition plain (c : N) : Prop := c < 128 /\ escaped c = false.

Lemma encoded_text cs : escape_where escaped (utf8_text cs) = cs ≫= encoded.
Proof. induction cs as [|c cs IH]; [done|]. rewrite utf8_text_cons, bind_cons, <- IH. apply bind_app. Qed.

Lemma encoded_cases cs c : escapes cs -> c ∈ cs -> (plain c /\ c <> 37 /\ encoded c = [c]) \/ (~ plain c /\ encoded c = utf8 c ≫= escapedChar).
Proof.
  intros (Hhigh & Hcs & Hpercent) Hc. pose proof (proj1 (Forall_forall _ _) Hcs c Hc) as Hsc. unfold encoded, escape_where, plain. destruct (decide (c < 128)) as [Hc128|Hc128].
  - destruct (ascii_scalar c Hc128) as (_ & -> & _). cbn [mbind list_bind app]. destruct (escaped c) eqn:E; [right|left].
    + split; [by intros [_ [=]]|done].
    + split_and!; [done|done| |done]. intros ->. by rewrite (Hpercent Hc) in E.
  - right. split; [tauto|]. assert (Forall (fun b => 128 <= b < 256) (utf8 c)) as Hb.
    { pose proof (utf8_bytes c Hsc) as Hb. unfold bytes_ok in Hb. rewrite Forall_forall in *. intros b Hin. specialize (Hb b Hin). cbn beta in *.
      split; [|lia]. unfold utf8 in Hin. repeat case_match; breflect; try lia; rewrite ?elem_of_cons, elem_of_nil in Hin; lia. }
    induction Hb as [|b bs Hb _ IH]; [done|]. by rewrite !bind_cons, IH, Hhigh.
Qed.

Lemma escapes_app cs cs' : escapes (cs ++ cs') -> escapes cs /\ escapes cs'.
Proof.
  unfold escapes. rewrite Forall_app. setoid_rewrite elem_of_app. tauto.
Qed.
End Text.

(** ** Decoding encoded text *)

Lemma String_at_part s pre c post : String_chars s = pre ++ c :: post -> String_at s (size pre) = c.
Proof.
  intros Hs. destruct s as [impl|]; cbn [String_chars] in Hs; [|by destruct pre]. unfold String_at, size. rewrite Hs, length_app. cbn [length].
  rewrite (proj2 (N.leb_gt _ _)) by lia. by rewrite Nat2N.id, list_lookup_middle.
Qed.

Lemma escaped_longer bytes : (length bytes <= length (bytes ≫= escapedChar))%nat.
Proof. induction bytes as [|b bytes IH]; [done|]. rewrite bind_cons, length_app. change (length (escapedChar b)) with 3%nat. cbn [length]. lia. Qed.

Section Run.
Context (escaped : N -> bool) (string : WTFString).

(** The escape sequences of some bytes are passed over together. *)
Lemma findEndOfRun_bytes bytes fuel pre post trailing : Forall (fun b => b < 256) bytes ->
  String_chars string = pre ++ (bytes ≫= escapedChar) ++ post -> bytes <> [] ->
  findEndOfRun (length bytes + fuel) string (size pre) (size (String_chars string)) trailing =
  findEndOfRun fuel string (size (pre ++ (bytes ≫= escapedChar))) (size (String_chars string)) 0.
Proof.
  intros Hb. revert pre trailing. induction Hb as [|b bytes Hb _ IH]; intros pre trailing Hs Hne; [done|]. clear Hne.
  destruct (escapedChar_spec b Hb) as (h1 & h2 & E & H1 & H2 & _). rewrite bind_cons, E in *. cbn [app] in Hs. cbn [length Nat.add findEndOfRun].
  rewrite (proj2 (N.ltb_lt _ _)) by (rewrite Hs; sizes). rewrite (String_at_part string pre 37 _ Hs). rewrite N.eqb_refl.
  assert (String_at string (size pre + 1) = h1) as ->.
  { replace (size pre + 1) with (size (pre ++ [37])) by sizes. eapply String_at_part. rewrite Hs. by rewrite <- app_assoc. }
  assert (String_at string (size pre + 2) = h2) as ->.
  { replace (size pre + 2) with (size (pre ++ [37; h1])) by sizes. eapply String_at_part. rewrite Hs. by rewrite <- app_assoc. }
  rewrite (proj2 (N.leb_le sequenceSize _)) by (rewrite Hs; unfold sequenceSize; sizes). rewrite H1, H2. cbn [andb].
  replace (size pre + sequenceSize) with (size (pre ++ [37; h1; h2])) by (unfold sequenceSize; sizes).
  replace (pre ++ [37; h1; h2] ++ (bytes ≫= escapedChar)) with ((pre ++ [37; h1; h2]) ++ (bytes ≫= escapedChar)) by (by rewrite <- app_assoc).
  destruct (decide (bytes = [])) as [->|Hne]; [cbn [length Nat.add mbind list_bind]; by rewrite app_nil_r|].
  apply IH; [|done]. rewrite Hs. by rewrite <- app_assoc.
Qed.

(** A run ends between two characters. *)
Lemma findEndOfRun_text cs fuel pre trailing : escapes escaped cs -> String_chars string = pre ++ (cs ≫= encoded escaped) ->
  (length (cs ≫= encoded escaped) <= fuel)%nat -> exists cs1 cs2, cs = cs1 ++ cs2 /\
  findEndOfRun fuel string (size pre) (size (String_chars string)) trailing = size (pre ++ (cs1 ≫= encoded escaped)).
Proof.
  revert fuel pre trailing. induction cs as [|c cs IH]; intros fuel pre trailing He Hs Hfuel.
  - exists [], []. split; [done|]. cbn [mbind list_bind]. rewrite app_nil_r in *. destruct fuel as [|fuel]; cbn [findEndOfRun]; [done|].
    rewrite (proj2 (N.ltb_ge _ _)); [done|]. rewrite Hs. lia.
  - destruct (escapes_app escaped [c] cs He) as [_ Hcs]. rewrite bind_cons in *. rewrite length_app in Hfuel.
    destruct (encoded_cases escaped (c :: cs) c He (list_elem_of_here _ _)) as [([Hc _] & Hne & E)|[_ E]].
    + rewrite E in *. cbn [app length] in *. destruct fuel as [|fuel]; [lia|]. cbn [findEndOfRun].
      rewrite (proj2 (N.ltb_lt _ _)) by (rewrite Hs; sizes). rewrite (String_at_part string pre c _ Hs), (proj2 (N.eqb_neq _ _) Hne).
      destruct (_ && _ && _).
      * replace (size pre + 1) with (size (pre ++ [c])) by sizes.
        destruct (IH fuel (pre ++ [c]) (trailing + 1) Hcs) as (cs1 & cs2 & -> & ->); [rewrite Hs; by rewrite <- app_assoc|lia|].
        exists (c :: cs1), cs2. split; [done|]. by rewrite bind_cons, E, <- app_assoc.
      * exists [], (c :: cs). split; [done|]. cbn [mbind list_bind]. by rewrite app_nil_r.
    + assert (scalar c) as Hc by (destruct He as (_ & He & _); by apply Forall_cons in He as [? _]).
      rewrite E in Hs, Hfuel. pose proof (length_utf8 c) as Hl. pose proof (escaped_longer (utf8 c)) as Hle.
      replace fuel with (length (utf8 c) + (fuel - length (utf8 c)))%nat by lia.
      assert (utf8 c <> []) as Hne by apply utf8_nonempty.
      rewrite (findEndOfRun_bytes (utf8 c) _ pre (cs ≫= encoded escaped) trailing); [|by apply utf8_bytes|done|done].
      destruct (IH (fuel - length (utf8 c))%nat (pre ++ (utf8 c ≫= escapedChar)) 0 Hcs) as (cs1 & cs2 & -> & ->); [rewrite Hs; by rewrite <- app_assoc| |].
      * lia.
      * exists (c :: cs1), cs2. split; [done|]. by rewrite bind_cons, E, <- app_assoc.
Qed.

(** A run is not empty. *)
Lemma findEndOfRun_first c cs fuel pre : (length (String_chars string) <= fuel)%nat -> escapes escaped (c :: cs) -> ~ plain escaped c -> String_chars string = pre ++ ((c :: cs) ≫= encoded escaped) ->
  exists cs1 cs2, cs = cs1 ++ cs2 /\
  findEndOfRun fuel string (size pre) (size (String_chars string)) 0 = size (pre ++ ((c :: cs1) ≫= encoded escaped)).
Proof.
  intros Hfuel He Hp Hs. destruct (encoded_cases escaped (c :: cs) c He (list_elem_of_here _ _)) as [[? _]|[_ E]]; [done|].
  assert (scalar c) as Hc by (destruct He as (_ & He & _); by apply Forall_cons in He as [? _]).
  rewrite bind_cons, E in Hs. pose proof (escaped_longer (utf8 c)) as Hle.
  pose proof (f_equal length Hs) as Hl. rewrite !length_app in Hl.
  replace fuel with (length (utf8 c) + (fuel - length (utf8 c)))%nat by lia.
  rewrite (findEndOfRun_bytes (utf8 c) _ pre (cs ≫= encoded escaped) 0); [|by apply utf8_bytes|done|apply utf8_nonempty].
  destruct (escapes_app escaped [c] cs He) as [_ Hcs].
  destruct (findEndOfRun_text cs (fuel - length (utf8 c)) (pre ++ (utf8 c ≫= escapedChar)) 0 Hcs) as (cs1 & cs2 & -> & ->);
    [rewrite Hs; by rewrite <- app_assoc|lia|].
  exists cs1, cs2. split; [done|]. by rewrite bind_cons, E, <- app_assoc.
Qed.
End Run.

Lemma run_bytes_escaped bytes fuel rest : Forall (fun b => b < 256) bytes ->
  run_bytes (length bytes + fuel) ((bytes ≫= escapedChar) ++ rest) = (fun decoded => bytes ++ decoded) <$> run_bytes fuel rest.
Proof.
  induction 1 as [|b bytes Hb _ IH]; [cbn [mbind list_bind app length Nat.add]; by destruct (run_bytes fuel rest)|].
  destruct (escapedChar_spec b Hb) as (h1 & h2 & E & _ & _ & Hv & _). rewrite bind_cons, E, <- app_assoc. cbn [app length Nat.add run_bytes]. rewrite N.eqb_refl.
  change ((37 :: h1 :: h2 :: (bytes ≫= escapedChar) ++ rest) !!N 1) with (Some h1). change ((37 :: h1 :: h2 :: (bytes ≫= escapedChar) ++ rest) !!N 2) with (Some h2).
  run_option. change (drop (N.to_nat sequenceSize) (37 :: h1 :: h2 :: (bytes ≫= escapedChar) ++ rest)) with ((bytes ≫= escapedChar) ++ rest).
  rewrite IH, Hv. by destruct (run_bytes fuel rest).
Qed.

Lemma run_bytes_text escaped cs fuel : escapes escaped cs -> (length (cs ≫= encoded escaped) <= fuel)%nat ->
  run_bytes fuel (cs ≫= encoded escaped) = Some (utf8_text cs).
Proof.
  revert fuel. induction cs as [|c cs IH]; intros fuel He Hfuel; [by destruct fuel|]. destruct (escapes_app escaped [c] cs He) as [_ Hcs].
  rewrite bind_cons, utf8_text_cons in *. rewrite length_app in Hfuel.
  destruct (encoded_cases escaped (c :: cs) c He (list_elem_of_here _ _)) as [([Hc _] & Hne & E)|[_ E]]; rewrite E in *.
  - cbn [app length] in *. destruct fuel as [|fuel]; [lia|]. cbn [run_bytes]. rewrite (proj2 (N.eqb_neq _ _) Hne), IH by (done || lia). run_option.
    destruct (ascii_scalar c Hc) as (_ & -> & _). by rewrite wrap8_id by lia.
  - assert (scalar c) as Hc by (destruct He as (_ & He & _); by apply Forall_cons in He as [? _]).
    pose proof (escaped_longer (utf8 c)) as Hle.
    replace fuel with (length (utf8 c) + (fuel - length (utf8 c)))%nat by lia. rewrite run_bytes_escaped by (by apply utf8_bytes).
    pose proof (utf8_nonempty c) as Hne. rewrite IH; [done|done|lia].
Qed.

Lemma find_from_app l rest c i : Forall (fun d => d <> c) l -> find_from (l ++ rest) c i = find_from rest c (i + size l).
Proof.
  intros Hl. revert i. induction Hl as [|d l Hd _ IH]; intros i; [by rewrite size_nil, N.add_0_r|]. cbn [app find_from].
  rewrite (proj2 (N.eqb_neq _ _) Hd), IH. f_equal. sizes.
Qed.

Section Decoding.
Context (hasOneRef : Buffer -> bool) (address : N) (escaped : N -> bool).

Lemma decodeRun_text cs : escapes escaped cs -> size (cs ≫= encoded escaped) <= codec_limit ->
  exists t, decodeRun address (cs ≫= encoded escaped) = Some (adopt t (utf16_text cs)) /\ (t = LChar -> Forall (fun c => c < 256) cs).
Proof.
  intros He Hsize. unfold decodeRun. rewrite (run_bytes_text escaped) by done. run_option. pose proof He as (Hhigh & Hcs & _).
  assert (length (utf8_text cs) <= length (cs ≫= encoded escaped))%nat as Hlen.
  { rewrite <- encoded_text. clear. induction (utf8_text cs) as [|b bytes IH]; [done|]. unfold escape_where in *. rewrite bind_cons, length_app.
    destruct (escaped b); [change (length (escapedChar b)) with 3%nat|]; cbn [length]; lia. }
  change TextCodecUTF8_new with (@nil N). destruct (decode_at_once (utf8_text cs) (address + N.of_nat (length (utf8_text cs))) false) as (t & cs' & e & -> & Hd & Ht);
    [by apply utf8_text_bytes|unfold size in Hsize; lia|lia|].
  destruct (decodes_text _ _ _ _ _ _ Hd Hcs) as (_ & cs2 & -> & Hrest); [by rewrite app_nil_r|]. destruct cs2 as [|c cs2].
  - rewrite app_nil_r. run_option. by exists t.
  - exfalso. rewrite utf8_text_cons in Hrest. symmetry in Hrest. apply app_nil in Hrest as [Hnil _]. by destruct (utf8_nonempty c).
Qed.

(** The characters up to the first that is escaped. *)
Lemma plain_prefix cs : escapes escaped cs -> exists a b, cs = a ++ b /\ (a ≫= encoded escaped) = a /\ Forall (fun c => c < 128 /\ c <> 37) a /\
  (b = [] \/ exists c b', b = c :: b' /\ ~ plain escaped c).
Proof.
  induction cs as [|c cs IH]; intros He; [exists [], []; split_and!; [done..|constructor|by left]|]. destruct (escapes_app escaped [c] cs He) as [_ Hcs].
  destruct (encoded_cases escaped (c :: cs) c He (list_elem_of_here _ _)) as [([Hc _] & Hne & E)|[Hp _]].
  - destruct (IH Hcs) as (a & b & -> & Ha & Hall & Hb). exists (c :: a), b. rewrite bind_cons, E, Ha. split_and!; [done|done|by constructor|done].
  - exists [], (c :: cs). split_and!; [done..|constructor|right; by eexists _, _].
Qed.

Lemma String_isEmpty_adopt t chars : chars <> [] -> String_isEmpty (adopt t chars) = false.
Proof. by destruct chars. Qed.

Lemma adopt_ok t cs : Forall scalar cs -> (t = LChar -> Forall (fun c => c < 256) cs) -> string_ok (adopt t (utf16_text cs)).
Proof.
  intros Hcs Ht. assert (Forall (width_ok (is_LChar t)) (utf16_text cs)) as Hall; [|unfold adopt; destruct (utf16_text cs); [by apply Forall_nil|done]].
  unfold width_ok. destruct t; cbn [is_LChar].
  - specialize (Ht eq_refl). rewrite utf16_latin; [done|]. eapply Forall_impl; [exact Ht|]. cbn. lia.
  - clear Ht. induction Hcs as [|c cs Hc _ IH]; [constructor|]. unfold utf16_text in *. rewrite bind_cons. apply Forall_app. split; [|done].
    unfold utf16, scalar in *. case_match; breflect; repeat constructor; cbn in *; try lia.
Qed.

Lemma utf16_nonempty c cs : utf16_text (c :: cs) <> [].
Proof. unfold utf16_text. rewrite bind_cons. unfold utf16. by case_match. Qed.

Section Loop.
Context (string : WTFString) (Hok : string_ok string) (Hsize : size (String_chars string) <= codec_limit).

Lemma part_of_mid pre mid post : String_chars string = pre ++ mid ++ post -> part_of string (size pre) (size mid) = mid.
Proof.
  intros Hs. unfold part_of. rewrite String_length_chars, Hs, !length_app. unfold size. rewrite (proj2 (N.leb_le _ _)) by lia.
  by rewrite !Nat2N.id, drop_app_length, take_app_length.
Qed.

Lemma decode_runs_text fuel cs pre s out : (S (length cs) <= fuel)%nat -> escapes escaped cs -> String_chars string = pre ++ (cs ≫= encoded escaped) ->
  repr s out -> N.of_nat (length out) + size (utf16_text cs) <= builder_limit ->
  exists decoded left s', decode_runs hasOneRef address fuel string (size pre) (size pre) s = Some (size decoded, s') /\
    repr s' left /\ exists tail, String_chars string = decoded ++ tail /\ out ++ utf16_text cs = left ++ tail.
Proof.
  revert cs pre s out. induction fuel as [|fuel IH]; intros cs pre s out Hfuel He Hs Hr Hlimit; [lia|]. cbn [decode_runs].
  destruct (plain_prefix cs He) as (a & b & -> & Ha & Hall & Hb). rewrite bind_app, Ha in Hs.
  assert (utf16_text a = a) as Hua by (apply utf16_latin; eapply Forall_impl; [exact Hall|]; cbn; lia).
  rewrite utf16_text_app, Hua in *. destruct (escapes_app escaped a b He) as [_ Heb].
  assert (findInString string (size pre) = find_from (b ≫= encoded escaped) 37 (size (pre ++ a))) as ->.
  { unfold findInString. rewrite Hs. unfold size at 1. rewrite Nat2N.id, drop_app_length, find_from_app; [by rewrite size_app|].
    eapply Forall_impl; [exact Hall|]. by intros c [_ ?]. }
  destruct Hb as [->|(c & b' & -> & Hp)].
  - cbn [mbind list_bind find_from]. exists pre, out, s. split_and!; [done|done|]. exists a. cbn [mbind list_bind utf16_text] in *. by rewrite !app_nil_r in *.
  - destruct (encoded_cases escaped (c :: b') c Heb (list_elem_of_here _ _)) as [[? _]|[_ Ec]]; [done|].
    assert (find_from ((c :: b') ≫= encoded escaped) 37 (size (pre ++ a)) = Some (size (pre ++ a))) as ->.
    { rewrite bind_cons, Ec. destruct (utf8 c) as [|x bytes] eqn:E; [by destruct (utf8_nonempty c)|]. by rewrite bind_cons. }
    rewrite app_assoc in Hs.
    destruct (findEndOfRun_first escaped string c b' (length (String_chars string)) (pre ++ a)) as (cs1 & cs2 & -> & Hend); [done..|].
    rewrite String_length_chars. fold (size (String_chars string)). rewrite Hend. clear Hend. set (run := (c :: cs1) ≫= encoded escaped).
    change (c :: cs1 ++ cs2) with ((c :: cs1) ++ cs2) in *. rewrite bind_app in Hs. fold run in Hs. rewrite utf16_text_app in *. rewrite !length_app in Hfuel.
    assert (0 < size run) as Hrun.
    { unfold run. rewrite bind_cons, Ec. pose proof (escaped_longer (utf8 c)). pose proof (length_utf8 c). rewrite size_app. unfold size. lia. }
    rewrite (proj2 (N.eqb_neq _ _)) by (rewrite size_app; lia).
    assert (take (N.to_nat (size ((pre ++ a) ++ run) - size (pre ++ a))) (drop (N.to_nat (size (pre ++ a))) (String_chars string)) = run) as ->.
    { rewrite Hs. replace (size ((pre ++ a) ++ run) - size (pre ++ a)) with (size run) by sizes. unfold size. by rewrite !Nat2N.id, drop_app_length, take_app_length. }
    destruct (escapes_app escaped (c :: cs1) cs2 Heb) as [He1 He2].
    destruct (decodeRun_text (c :: cs1) He1) as (t & Hdec & Ht); [fold run; rewrite Hs in Hsize; rewrite !size_app in Hsize; lia|]. fold run in Hdec. rewrite Hdec. run_option.
    rewrite String_isEmpty_adopt by apply utf16_nonempty. replace (size (pre ++ a) - size pre) with (size a) by sizes.
    destruct (append_substring_repr hasOneRef s out string (size pre) (size a)) as (s1 & -> & Hr1); [done|done| |by rewrite (part_of_mid pre a (run ++ (cs2 ≫= encoded escaped))) by (by rewrite Hs, <- app_assoc); rewrite !size_app in Hlimit; unfold size in *; lia|].
    { rewrite Hs in Hsize. rewrite !size_app in Hsize. unfold codec_limit in Hsize. change (2 ^ 32) with 4294967296. lia. }
    rewrite (part_of_mid pre a (run ++ (cs2 ≫= encoded escaped))) in Hr1 by (by rewrite Hs, <- app_assoc). run_option.
    destruct (append_String_repr hasOneRef s1 (out ++ a) (adopt t (utf16_text (c :: cs1)))) as (s2 & -> & Hr2);
      [done|apply adopt_ok; [by destruct He1 as (_ & ? & _)|done]|rewrite String_length_chars, adopt_chars, length_app; rewrite !size_app in Hlimit; unfold size in *; lia|].
    run_option. rewrite adopt_chars in Hr2.
    destruct (IH cs2 ((pre ++ a) ++ run) s2 ((out ++ a) ++ utf16_text (c :: cs1))) as (decoded & left & s' & -> & Hr' & tail & Htail & Hout);
      [cbn [length] in Hfuel; lia|done|by rewrite <- app_assoc|done|rewrite !length_app; rewrite !size_app in Hlimit; unfold size in *; lia|].
    exists decoded, left, s'. split_and!; [done|done|]. exists tail. split; [done|]. rewrite <- Hout. by rewrite <- !app_assoc.
Qed.

Lemma decode_text cs : escapes escaped cs -> String_chars string = cs ≫= encoded escaped -> size (utf16_text cs) <= builder_limit ->
  exists d, decodeURLEscapeSequences hasOneRef address string = Some d /\ String_chars d = utf16_text cs /\ String_isNull d = false.
Proof.
  intros He Hs Hlimit. unfold decodeURLEscapeSequences.
  destruct (decode_runs_text (S (length (String_chars string))) cs [] StringBuilder_empty []) as (decoded & left & s' & Hd & Hr & tail & Htail & Hout);
    [|done|done|apply repr_empty|done|].
  { rewrite Hs. clear -He. induction cs as [|c cs IH]; [done|]. destruct (escapes_app escaped [c] cs He) as [_ Hcs]. specialize (IH Hcs).
    rewrite bind_cons, length_app. assert (1 <= length (encoded escaped c))%nat; [|cbn [length]; lia].
    destruct (encoded_cases escaped (c :: cs) c He (list_elem_of_here _ _)) as [(_ & _ & ->)|[_ ->]]; [done|].
    pose proof (escaped_longer (utf8 c)). pose proof (length_utf8 c). lia. }
  change (size []) with 0 in Hd. rewrite Hd. run_option. cbn [app] in Hout.
  assert (String_length string - size decoded = size tail) as -> by (rewrite String_length_chars, Htail, length_app; unfold size; lia).
  assert (part_of string (size decoded) (size tail) = tail) as Hpart by (apply (part_of_mid decoded tail []); by rewrite app_nil_r).
  destruct (append_substring_repr hasOneRef s' left string (size decoded) (size tail) Hr Hok) as (s1 & -> & Hr1).
  - rewrite Htail, size_app in Hsize. unfold codec_limit in Hsize. change (2 ^ 32) with 4294967296. lia.
  - rewrite Hpart. apply (f_equal length) in Hout. rewrite length_app in Hout. unfold size in *. lia.
  - run_option. rewrite Hpart in Hr1. destruct (toString_repr hasOneRef s1 _ Hr1) as (s2 & impl & -> & _ & Hc & _). run_option.
    exists (Some impl). split_and!; [done| |done]. cbn [String_chars]. by rewrite Hc, Hout.
Qed.
End Loop.
End Decoding.

(** ** Encoding *)

(** The text that an encoder makes of a string. *)
Definition escaped_text (escaped : N -> bool) (s : WTFString) : list N := String_code_points s ≫= encoded escaped.

Lemma encoded_chars escaped cs : escapes escaped cs -> (forall c, isASCIIHexDigit c = true -> escaped c = false) ->
  Forall (fun c => c < 256 /\ (c = 37 \/ escaped c = false)) (cs ≫= encoded escaped).
Proof.
  intros He Hhex. induction cs as [|c cs IH]; [by apply Forall_nil|]. destruct (escapes_app escaped [c] cs He) as [_ Hcs]. rewrite bind_cons. apply Forall_app. split; [|by apply IH].
  destruct (encoded_cases escaped (c :: cs) c He (list_elem_of_here _ _)) as [([Hc E] & _ & ->)|[_ ->]].
  - apply Forall_singleton. split; [lia|by right].
  - destruct He as (_ & Hsc & _). apply Forall_cons in Hsc as [Hsc _]. pose proof (utf8_bytes c Hsc) as Hb. unfold bytes_ok in Hb.
    induction Hb as [|b bytes Hb _ IHb]; [by apply Forall_nil|]. rewrite bind_cons. destruct (escapedChar_spec b Hb) as (h1 & h2 & -> & H1 & H2 & _ & ? & ?).
    cbn [app]. repeat (apply Forall_cons; split); [split; [lia|by left]|split; [done|by right; apply Hhex]..|done].
Qed.

Lemma encoded_size escaped cs : escapes escaped cs -> size (cs ≫= encoded escaped) <= 12 * size cs.
Proof.
  intros He. induction cs as [|c cs IH]; [done|]. destruct (escapes_app escaped [c] cs He) as [_ Hcs]. rewrite bind_cons, size_app, size_cons. specialize (IH Hcs).
  assert (size (encoded escaped c) <= 12); [|lia]. destruct (encoded_cases escaped (c :: cs) c He (list_elem_of_here _ _)) as [(_ & _ & ->)|[_ ->]]; [done|].
  assert (forall bytes, size (bytes ≫= escapedChar) = 3 * size bytes) as ->; [|pose proof (length_utf8 c); unfold size; lia].
  intros bytes. induction bytes as [|b bytes IHb]; [done|]. rewrite bind_cons, size_app, size_cons, IHb. change (size (escapedChar b)) with 3. lia.
Qed.

Lemma code_points_size s : string_ok s -> size (String_code_points s) <= String_length s /\ size (utf16_text (String_code_points s)) = String_length s.
Proof.
  intros Hs. rewrite (code_points_chars s Hs), String_length_chars. split; [|done]. rewrite <- (code_points_chars s Hs).
  unfold size. induction (String_code_points s) as [|c cs IH]; [done|]. unfold utf16_text in *. rewrite bind_cons, length_app. pose proof (length_utf16 c). cbn [length]. lia.
Qed.

Lemma encode_where_text escaped s : well_formed s -> String_length s <= encoder_limit -> escapes escaped (String_code_points s) ->
  (forall c, isASCIIHexDigit c = true -> escaped c = false) ->
  exists e, encode_where escaped s = Some e /\ String_chars e = escaped_text escaped s /\ string_ok e /\ size (String_chars e) <= 12 * encoder_limit.
Proof.
  intros Hs Hlen He Hhex. destruct (String_utf8_well_formed s Hs Hlen) as (asUTF8 & Hutf & Hbytes). unfold encode_where. rewrite Hutf. run_option. rewrite Hbytes, encoded_text.
  fold (escaped_text escaped s). pose proof (encoded_size escaped _ He) as Hsize. fold (escaped_text escaped s) in Hsize.
  destruct Hs as [Hok Hcs]. destruct (code_points_size s Hok) as [Hcount Hunits]. unfold encoder_limit in *.
  pose proof (utf8_size (String_code_points s)) as Hu. rewrite (proj2 (N.ltb_ge _ _)).
  2: { unfold size in *. unfold max32. destruct He as (_ & He & _). assert (Forall (fun c => c < 0x110000) (String_code_points s)) as Hlt; [|specialize (Hu Hlt); lia].
       eapply Forall_impl; [exact He|]. unfold scalar. cbn. lia. }
  unfold String_create. fold (size (escaped_text escaped s)). pose proof (encoded_chars escaped _ He Hhex) as Hchars. fold (escaped_text escaped s) in Hchars.
  destruct (size (escaped_text escaped s) =? 0) eqn:E; breflect.
  - eexists. split; [done|]. destruct (escaped_text escaped s); [|by rewrite size_cons in E; lia]. split_and!; [done|by apply Forall_nil|done].
  - rewrite (proj2 (N.ltb_ge _ _)). 2: { change ((max32 - sizeof_StringImpl) / sizeof_CharType LChar) with 4294967271. lia. }
    eexists. split; [done|]. split_and!; [done| |cbn [String_chars impl_chars]; lia]. cbn [string_ok impl_is8Bit is_LChar impl_chars]. eapply Forall_impl; [exact Hchars|]. unfold width_ok. tauto.
Qed.

(** What [encodeWithURLEscapeSequences] makes of a string is read back by [decodeURLEscapeSequences]. *)
Lemma encode_decode escaped hasOneRef address s : well_formed s -> String_length s <= encoder_limit -> escapes escaped (String_code_points s) ->
  forall e, string_ok e -> String_chars e = escaped_text escaped s ->
  exists d, decodeURLEscapeSequences hasOneRef address e = Some d /\ String_chars d = String_chars s.
Proof.
  intros [Hok Hcs] Hlen He e Hoke Hchars. destruct (code_points_size s Hok) as [Hcount Hunits]. unfold encoder_limit in *.
  pose proof (encoded_size escaped _ He) as Hsize.
  destruct (decode_text hasOneRef address escaped e Hoke) with (cs := String_code_points s) as (d & Hd & Hdc & _); [|done|done| |].
  - rewrite Hchars. unfold escaped_text, codec_limit. lia.
  - unfold builder_limit. lia.
  - exists d. split; [done|]. by rewrite Hdc, code_points_chars.
Qed.

Definition class_escaped (whatToEncode c : N) : bool := whatToEncode <=? default 0 (percentEncodeClassTable !!N c).

Lemma bad_escapes cs : Forall scalar cs -> escapes isBadChar cs.
Proof.
  intros Hcs. split_and!; [|done|done]. intros b Hb. assert (forallb (fun b => (b <? 128) || isBadChar b) (for_range 0 256) = true) as Hall by (by vm_compute).
  pose proof (all_bytes _ b Hall ltac:(lia)) as Hp. cbn beta in Hp. by rewrite (proj2 (N.ltb_ge _ _)) in Hp by lia.
Qed.

Lemma class_escapes whatToEncode cs : whatToEncode <= 255 -> 37 ∉ cs -> Forall scalar cs -> escapes (class_escaped whatToEncode) cs.
Proof.
  intros Hw H37 Hcs. split_and!; [|done|done]. intros b Hb. assert (forallb (fun b => (b <? 128) || (default 0 (percentEncodeClassTable !!N b) =? 255)) (for_range 0 256) = true) as Hall by (by vm_compute).
  pose proof (all_bytes _ b Hall ltac:(lia)) as Hp. cbn beta in Hp. rewrite (proj2 (N.ltb_ge _ _)) in Hp by lia. cbn [orb] in Hp. breflect. unfold class_escaped. rewrite Hp. by apply N.leb_le.
Qed.

Lemma hex_not_escaped c whatToEncode : isASCIIHexDigit c = true -> isBadChar c = false /\ (0 < whatToEncode -> class_escaped whatToEncode c = false).
Proof.
  intros Hc. assert (c < 256) as Hb.
  { unfold isASCIIHexDigit, isASCIIDigit in Hc. apply orb_true_iff in Hc as [Hc|Hc]; breflect; [lia|]. apply N.log2_lt_cancel.
    apply N.log2_le_mono in H0. rewrite N.log2_lor in H0. change (N.log2 102) with 6 in H0. change (N.log2 256) with 8. lia. }
  assert (forallb (fun c => negb (isASCIIHexDigit c) || (negb (isBadChar c) && (default 0 (percentEncodeClassTable !!N c) =? 0))) (for_range 0 256) = true) as Hall by (by vm_compute).
  pose proof (all_bytes _ c Hall Hb) as Hp. cbn beta in Hp. rewrite Hc in Hp. cbn [negb orb] in Hp. breflect. split; [done|]. intros Hw. unfold class_escaped.
  apply N.leb_gt. lia.
Qed.

Lemma percent_code_points s : string_ok s -> 37 ∉ String_chars s -> 37 ∉ String_code_points s.
Proof.
  intros Hok Hn Hin. apply Hn. rewrite <- (code_points_chars s Hok). unfold utf16_text. apply list_elem_of_bind. exists 37. split; [|done]. by apply list_elem_of_here.
Qed.

(** ** Setting a user, a password and a path *)

Definition with_user (user : list N) (l : Layout) : Layout :=
  mkLayout (l_scheme l) (l_slashes l) user (l_password l) (l_host l) (l_port l) (l_path l) (l_query l) (l_fragment l).
Definition with_password (password : option (list N)) (l : Layout) : Layout :=
  mkLayout (l_scheme l) (l_slashes l) (l_user l) password (l_host l) (l_port l) (l_path l) (l_query l) (l_fragment l).
Definition with_path (path : list N) (l : Layout) : Layout :=
  mkLayout (l_scheme l) (l_slashes l) (l_user l) (l_password l) (l_host l) (l_port l) path (l_query l) (l_fragment l).

(** The texts behind the user, behind the password, and behind the at sign. *)
Definition text_after_at (l : Layout) : list N := l_host l ++ prefixed 58 (l_port l) ++ l_path l ++ prefixed 63 (l_query l) ++ prefixed 35 (l_fragment l).
Definition text_after_password (l : Layout) : list N := at_sign (l_user l) (l_password l) ++ text_after_at l.
Definition text_after_user (l : Layout) : list N := prefixed 58 (l_password l) ++ text_after_password l.

Lemma render_user l : render l = text_before_user l ++ l_user l ++ text_after_user l.
Proof. unfold render, authority_text, text_before_user, text_after_user, text_after_password, text_after_at. by repeat (rewrite <- ?app_assoc; cbn [app]). Qed.

Lemma escaped_nonempty escaped s : escapes escaped (String_code_points s) -> string_ok s -> String_isEmpty s = false -> escaped_text escaped s <> [].
Proof.
  intros He Hok Hs. unfold escaped_text. destruct (String_code_points s) as [|c cs] eqn:E.
  - pose proof (code_points_chars s Hok) as Hc. rewrite E in Hc. cbn in Hc. destruct s as [impl|]; [|done]. cbn in Hc, Hs. by rewrite <- Hc in Hs.
  - rewrite bind_cons. destruct (encoded_cases escaped (c :: cs) c He (list_elem_of_here _ _)) as [(_ & _ & ->)|[_ ->]]; [done|].
    pose proof (escaped_longer (utf8 c)). pose proof (length_utf8 c). destruct (utf8 c ≫= escapedChar); [simpl in *; lia|done].
Qed.

(** An encoder on a string that it has room for. *)
Lemma class_text whatToEncode s : 0 < whatToEncode <= 255 -> well_formed s -> String_length s <= encoder_limit -> 37 ∉ String_chars s ->
  escapes (class_escaped whatToEncode) (String_code_points s) /\
  exists e, encodeWithURLEscapeSequences_class s whatToEncode = Some e /\ String_chars e = escaped_text (class_escaped whatToEncode) s /\ string_ok e.
Proof.
  intros Hw Hs Hlen H37. assert (escapes (class_escaped whatToEncode) (String_code_points s)) as He
    by (apply class_escapes; [lia|by apply percent_code_points; [destruct Hs|]|by destruct Hs]).
  split; [done|]. destruct (encode_where_text _ s Hs Hlen He) as (e & E & Hc & Hok & _); [intros c Hx; apply (hex_not_escaped c whatToEncode Hx); lia|].
  by exists e.
Qed.

Section Credentials.
Context (string : WTFString) (isHTTP : bool) (l : Layout) (Hl : canonical l).
Context (Hstring : String_chars string = render l) (Hsize : size (render l) <= reference_limit).
Notation u := (url_of string isHTTP l).

Lemma size_user : size (text_before_user l) = m_userStart u /\ size (text_before_user l ++ l_user l) = m_userEnd u /\
  size (text_before_user l ++ l_user l ++ prefixed 58 (l_password l)) = m_passwordEnd u.
Proof. unfold text_before_user. url_fields. split_and!; sizes. Qed.

Lemma host_head : exists c rest, l_host l = c :: rest /\ c <> 64.
Proof.
  destruct (c_host l Hl) as [[[Hne Hh]|(address & -> & _)] _]; [|by eexists _, _]. destruct (l_host l) as [|c rest]; [done|].
  exists c, rest. split; [done|]. apply Forall_cons in Hh as [Hc _]. by intros ->.
Qed.

Lemma host_not_at_end : (m_userEnd u =? m_hostEnd u) = false /\ (m_passwordEnd u =? m_hostEnd u) = false /\ (m_userStart u =? m_schemeEnd u + 1) = false /\
  (m_userEnd u =? m_schemeEnd u + 1) = false.
Proof.
  destruct host_head as (c & rest & E & _). url_fields. rewrite (c_slashes l Hl), E. change (size [47; 47]) with 2. split_and!; apply N.eqb_neq; sizes.
Qed.

Lemma user_password_end : (m_userEnd u =? m_passwordEnd u) = match l_password l with None => true | Some _ => false end.
Proof. url_fields. rewrite (N.eqb_sym (_ + size (l_user l))), eqb_shift. by destruct (l_password l). Qed.

(** The character behind the password. *)
Lemma at_password_end : (String_at string (m_passwordEnd u) =? 64) = negb (bool_decide (l_user l = [] /\ l_password l = None)).
Proof.
  destruct size_user as (_ & _ & <-). destruct host_head as (c & rest & E & Hc).
  assert (String_chars string = (text_before_user l ++ l_user l ++ prefixed 58 (l_password l)) ++ at_sign (l_user l) (l_password l) ++ text_after_at l) as Hs
    by (rewrite Hstring, render_user; unfold text_after_user, text_after_password; by rewrite <- !app_assoc).
  unfold text_after_at in Hs. rewrite E in Hs. destruct (l_user l) as [|x user], (l_password l) as [password|]; cbn [at_sign app prefixed] in Hs |- *.
  1, 3, 4: rewrite (String_at_part _ _ _ _ Hs), bool_decide_false by (by intros []); done.
  rewrite (String_at_part _ _ _ _ Hs), bool_decide_true by done. by apply N.eqb_neq.
Qed.

Lemma left_user : String_chars (String_left string (m_userStart u)) = text_before_user l.
Proof. destruct size_user as (<- & _). by apply (left_part string isHTTP l Hstring _ _ (l_user l ++ text_after_user l) (render_user l)). Qed.

Lemma left_password : String_chars (String_left string (m_userEnd u)) = text_before_user l ++ l_user l.
Proof. destruct size_user as (_ & <- & _). apply (left_part string isHTTP l Hstring _ _ (text_after_user l)); [|done]. rewrite render_user. by rewrite <- app_assoc. Qed.

Lemma right_user : String_chars (String_substring string (m_userEnd u) max32) = text_after_user l.
Proof.
  destruct size_user as (_ & <- & _). assert (render l = (text_before_user l ++ l_user l) ++ text_after_user l) as Hr by (rewrite render_user; by rewrite <- app_assoc).
  by apply (right_part string isHTTP l Hstring _ _ _ Hr), (rest_size l Hsize _ _ Hr).
Qed.

Lemma right_password : String_chars (String_substring string (m_passwordEnd u) max32) = text_after_password l.
Proof.
  destruct size_user as (_ & _ & <-).
  assert (render l = (text_before_user l ++ l_user l ++ prefixed 58 (l_password l)) ++ text_after_password l) as Hr by (rewrite render_user; unfold text_after_user; by rewrite <- !app_assoc).
  by apply (right_part string isHTTP l Hstring _ _ _ Hr), (rest_size l Hsize _ _ Hr).
Qed.

Lemma right_at : ~ (l_user l = [] /\ l_password l = None) -> String_chars (String_substring string (m_passwordEnd u + 1) max32) = text_after_at l.
Proof.
  intros Hsome. destruct size_user as (_ & _ & <-). assert (at_sign (l_user l) (l_password l) = [64]) as Hat by (by destruct (l_user l), (l_password l); [|destruct Hsome| |]).
  assert (render l = (text_before_user l ++ l_user l ++ prefixed 58 (l_password l) ++ [64]) ++ text_after_at l) as Hr
    by (rewrite render_user; unfold text_after_user, text_after_password; rewrite Hat; by rewrite <- !app_assoc).
  apply (right_part string isHTTP l Hstring _ _ _ Hr); [sizes|by apply (rest_size l Hsize _ _ Hr)].
Qed.

Lemma set_user s chars : well_formed s -> String_length s <= encoder_limit -> 37 ∉ String_chars s -> String_isEmpty s = false ->
  chars = escaped_text (class_escaped PercentEncodeUsername) s -> canonical (with_user chars l) -> size (render (with_user chars l)) <= reference_limit ->
  exists u', setUser u s = Some u' /\ canonical_url (with_user chars l) u'.
Proof.
  intros Hs Hlen H37 Hne Echars Hc Hlimit. destruct (class_text PercentEncodeUsername s) as (He & e & Henc & Hchars & _); [by split|done..|]. rewrite <- Echars in Hchars.
  assert (chars <> []) as Hcne by (rewrite Echars; apply escaped_nonempty; [done|by destruct Hs|done]).
  destruct host_not_at_end as (E1 & _ & E2 & _). unfold setUser. change (m_isValid u) with true. rewrite Hne, Henc. run_option. cbn [negb].
  rewrite E2, E1, user_password_end. run_option. cbn [orb]. rewrite render_user in Hlimit. cbn [l_user with_user text_before_user l_scheme l_slashes] in Hlimit.
  assert (exists x, (if (match l_password l with None => true | Some _ => false end) && negb (String_at string (m_userEnd u) =? 64) then String_append_LChar e 64 else Some e) = Some x /\
    String_chars x ++ text_after_user l = chars ++ text_after_user (with_user chars l)) as (x & Hx & Hxc).
  { unfold text_after_user, text_after_password, text_after_at in *. cbn [l_user l_password l_host l_port l_path l_query l_fragment with_user] in *.
    assert (at_sign chars (l_password l) = [64]) as Hat by (by destruct chars, (l_password l)). rewrite Hat in *.
    pose proof user_password_end as Hend. pose proof at_password_end as Hp. destruct (l_password l) as [password|] eqn:Ep; cbn [andb prefixed app] in *.
    - exists e. rewrite Hchars. destruct (l_user l); done.
    - breflect. rewrite Hend, Hp, negb_involutive. destruct (l_user l) as [|y user]; [rewrite bool_decide_true by done|rewrite bool_decide_false by (by intros [])].
      + unfold String_append_LChar. destruct e as [impl|]; [|by destruct chars]. cbn [String_chars] in Hchars. rewrite Hchars.
        assert (size (chars ++ [64]) <= reference_limit) as Hsz by (rewrite !size_app, size_cons in Hlimit; rewrite size_app, size_cons, size_nil; lia).
        destruct (String_create_Some (if impl_is8Bit impl then LChar else UChar) _ Hsz) as (x & -> & Hx). rewrite (proj2 (N.leb_gt _ _)).
        * exists x. split; [done|]. cbn [at_sign]. by rewrite Hx, <- app_assoc.
        * rewrite size_app in Hsz. unfold size, reference_limit, max32 in *. cbn [length] in Hsz. lia.
      + exists e. by rewrite Hchars. }
  change (m_string u) with string. rewrite Hx. run_option. apply parse_concat; [done|by rewrite render_user|]. rewrite parts_text. cbn [fmap list_fmap concat]. rewrite app_nil_r, left_user, right_user, Hxc, render_user. done.
Qed.

(** The user is removed with its at sign when there is no password. *)
Lemma remove_user s : String_isEmpty s = true -> canonical (with_user [] l) ->
  if bool_decide (l_user l = []) then setUser u s = Some u else exists u', setUser u s = Some u' /\ canonical_url (with_user [] l) u'.
Proof.
  intros Hs Hc. unfold setUser. change (m_isValid u) with true. rewrite Hs. cbn [negb]. destruct host_not_at_end as (E1 & _). rewrite E1, user_password_end. cbn [negb].
  rewrite andb_true_r. change (m_string u) with string. pose proof user_password_end as Hend. pose proof at_password_end as Hp.
  assert ((m_userStart u =? m_userEnd u) = bool_decide (l_user l = [])) as Hstart.
  { url_fields. rewrite N.eqb_sym, eqb_shift. destruct (l_user l); [done|]. rewrite bool_decide_false by done. apply N.eqb_neq. sizes. }
  assert (size (render (with_user [] l)) <= reference_limit) as Hlimit.
  { rewrite render_user in *. change (text_before_user (with_user [] l)) with (text_before_user l).
    unfold text_after_user, text_after_password, text_after_at in *. cbn [l_user with_user l_password l_host l_port l_path l_query l_fragment] in *.
    assert (size (at_sign [] (l_password l)) <= size (at_sign (l_user l) (l_password l))) by (destruct (l_user l), (l_password l); unfold size; cbn [at_sign length]; lia).
    rewrite !size_app in *. rewrite size_nil. lia. }
  destruct (l_password l) as [password|] eqn:Ep; cbn [andb].
  - rewrite Hstart. case_bool_decide as Eu; [done|]. cbn [negb]. apply parse_concat; [done|done|]. rewrite parts_text. cbn [fmap list_fmap concat].
    rewrite app_nil_r, left_user, right_user, render_user. unfold text_after_user, text_after_password. cbn [l_user with_user l_password]. rewrite Ep. by destruct (l_user l).
  - breflect. rewrite Hend, Hp. case_bool_decide as Eu.
    + rewrite bool_decide_true by done. cbn [negb]. rewrite <- Hend, Hstart. done.
    + rewrite bool_decide_false by (by intros []). cbn [negb]. rewrite (proj2 (N.eqb_neq _ _)) by (url_fields; sizes). cbn [negb].
      apply parse_concat; [done|done|]. rewrite parts_text. cbn [fmap list_fmap concat]. rewrite app_nil_r, left_user, right_at by (by intros []).
      rewrite render_user. unfold text_after_user, text_after_password. cbn [l_user with_user l_password]. by rewrite Ep.
Qed.

Lemma set_password s chars : well_formed s -> String_length s <= encoder_limit -> 37 ∉ String_chars s -> String_isEmpty s = false ->
  chars = escaped_text (class_escaped PercentEncodePassword) s -> canonical (with_password (Some chars) l) -> size (render (with_password (Some chars) l)) <= reference_limit ->
  exists u', setPass u s = Some u' /\ canonical_url (with_password (Some chars) l) u'.
Proof.
  intros Hs Hlen H37 Hne Echars Hc Hlimit. destruct (class_text PercentEncodePassword s) as (He & e & Henc & Hchars & _); [by split|done..|]. rewrite <- Echars in Hchars.
  destruct host_not_at_end as (_ & E1 & _ & E2). unfold setPass. change (m_isValid u) with true. rewrite Hne, Henc. run_option. cbn [negb].
  rewrite E1, E2. change (m_string u) with string. cbn [negb andb].
  assert (at_sign (l_user l) (Some chars) = [64]) as Hat by (by destruct (l_user l)).
  assert (render (with_password (Some chars) l) = (text_before_user l ++ l_user l) ++ (58 :: chars ++ [64]) ++ text_after_at l) as Hr.
  { rewrite render_user. unfold text_after_user, text_after_password. cbn [l_user l_password with_password prefixed]. rewrite Hat. by repeat (rewrite <- ?app_assoc; cbn [app]). }
  assert (size (58 :: chars ++ [64]) <= reference_limit) as Hsz by (rewrite Hr, !size_app in Hlimit; lia).
  assert (exists p, String_concat [String8 [58]; e; String8 [64]] = Some p /\ String_chars p = 58 :: chars ++ [64]) as (p & -> & Hp).
  { unfold String_concat. rewrite parts_text. cbn [fmap list_fmap concat String_chars String8 impl_chars]. rewrite Hchars. by apply String_create_Some. }
  run_option. apply parse_concat; [done|done|]. rewrite parts_text. cbn [fmap list_fmap concat]. rewrite app_nil_r, left_password, Hp, Hr. do 2 f_equal.
  pose proof at_password_end as Hend. case_bool_decide as Enone; cbn [negb] in Hend; rewrite Hend; [|by apply right_at]. rewrite right_password.
  destruct Enone as [Eu Ep]. unfold text_after_password. by rewrite Eu, Ep.
Qed.

(** The password is removed with its colon, and the at sign with it when there is no user. *)
Lemma remove_password s : String_isEmpty s = true -> canonical (with_password None l) ->
  match l_password l with
  | None => setPass u s = Some u
  | Some _ => exists u', setPass u s = Some u' /\ canonical_url (with_password None l) u'
  end.
Proof.
  intros Hs Hc. unfold setPass. change (m_isValid u) with true. rewrite Hs. cbn [negb]. destruct host_not_at_end as (_ & E1 & _). rewrite E1. cbn [negb].
  rewrite andb_true_r. change (m_string u) with string. pose proof at_password_end as Hp. pose proof user_password_end as Hend.
  assert ((m_userStart u =? m_userEnd u) = bool_decide (l_user l = [])) as ->.
  { url_fields. rewrite N.eqb_sym, eqb_shift. destruct (l_user l); [done|]. rewrite bool_decide_false by done. apply N.eqb_neq. sizes. }
  rewrite Hp. destruct (l_password l) as [password|] eqn:Ep.
  - rewrite (bool_decide_false (_ /\ _)) by (by intros []). cbn [negb]. rewrite andb_true_r. clear Hp. breflect.
    assert (m_userEnd u < m_passwordEnd u) as Hlt by (revert Hend; url_fields; rewrite Ep; cbn [prefixed]; sizes).
    rewrite (proj2 (N.eqb_neq _ _)) by (case_bool_decide; lia). cbn [negb].
    assert (render (with_password None l) = (text_before_user l ++ l_user l) ++ at_sign (l_user l) None ++ text_after_at l) as Hr.
    { rewrite render_user. unfold text_after_user, text_after_password. cbn [l_user l_password with_password prefixed app]. by rewrite <- !app_assoc. }
    apply parse_concat; [done| |].
    + rewrite Hr. rewrite render_user in Hsize. unfold text_after_user, text_after_password in Hsize. rewrite Ep in Hsize. cbn [prefixed] in Hsize.
      assert (size (at_sign (l_user l) None) <= size (at_sign (l_user l) (Some password))) by (destruct (l_user l); unfold size; cbn [at_sign length]; lia).
      rewrite !size_app, size_cons in *. lia.
    + rewrite parts_text. cbn [fmap list_fmap concat]. rewrite app_nil_r, left_password, Hr. f_equal. case_bool_decide as Eu.
      * rewrite right_at by (rewrite Ep; by intros []). by rewrite Eu.
      * rewrite right_password. unfold text_after_password. rewrite Ep. by destruct (l_user l).
  - clear Hp. breflect. rewrite Hend, (bool_decide_ext (_ /\ None = None) (l_user l = [])) by tauto. by case_bool_decide; cbn [andb negb]; rewrite N.eqb_refl.
Qed.

Lemma render_path : render l = (text_before_port l ++ prefixed 58 (l_port l)) ++ l_path l ++ prefixed 63 (l_query l) ++ prefixed 35 (l_fragment l).
Proof. rewrite render_port. by rewrite <- !app_assoc. Qed.

Lemma code_points_slash units : code_points (47 :: units) = 47 :: code_points units.
Proof. rewrite code_points_cons. by destruct units. Qed.

(** A path with a slash in front of it. *)
Lemma slash_concat s : well_formed s -> String_length s < encoder_limit ->
  exists p, String_concat [String8 [47]; s] = Some p /\ well_formed p /\ String_length p <= encoder_limit /\ String_code_points p = 47 :: String_code_points s.
Proof.
  intros [Hok Hcs] Hlen. unfold String_concat. rewrite parts_text. cbn [fmap list_fmap concat forallb adapter_is8Bit String8 impl_is8Bit String_chars impl_chars andb].
  rewrite app_nil_r, andb_true_r. cbn [app]. unfold String_create. rewrite String_length_chars in Hlen. unfold encoder_limit in *. cbn [length]. rewrite (proj2 (N.eqb_neq _ _)) by lia.
  assert (scalar 47) as Hslash by (unfold scalar; lia).
  match goal with |- context [String_create ?x] => set (t := x) | |- context [sizeof_CharType ?x] => set (t := x) end. rewrite (proj2 (N.ltb_ge _ _)).
  2: { destruct t; [change ((max32 - sizeof_StringImpl) / sizeof_CharType LChar) with 4294967271|change ((max32 - sizeof_StringImpl) / sizeof_CharType UChar) with 2147483635]; lia. }
  eexists. split; [done|]. cbn [String_length String_chars impl_chars length]. unfold well_formed. cbn [string_ok String_code_points impl_is8Bit impl_chars].
  assert (is_LChar t = match s with None => true | Some impl => impl_is8Bit impl end) as -> by (unfold t; destruct s as [[[|] ?]|]; done).
  destruct s as [[is8Bit units]|]; cbn [string_ok String_code_points String_chars impl_is8Bit impl_chars length] in *; [|by repeat constructor].
  assert (width_ok is8Bit 47) by (unfold width_ok; destruct is8Bit; lia). split_and!; [by constructor| |lia|]; destruct is8Bit; try done; rewrite ?code_points_slash; try done; by constructor.
Qed.

Lemma set_path s chars : well_formed s -> String_length s < encoder_limit ->
  chars = (if bool_decide (head (String_chars s) = Some 47) then [] else [47]) ++ escaped_text isBadChar s ->
  canonical (with_path chars l) -> size (render (with_path chars l)) <= reference_limit ->
  exists u', setPath u s = Some u' /\ canonical_url (with_path chars l) u'.
Proof.
  intros Hs Hlen Echars Hc Hlimit. unfold setPath. change (m_isValid u) with true. change (m_string u) with string. cbn [negb].
  assert (exists p, (if String_isEmpty s || negb (String_at s 0 =? 47) then String_concat [String8 [47]; s] else Some s) = Some p /\
    well_formed p /\ String_length p <= encoder_limit /\ escaped_text isBadChar p = chars) as (p & -> & Hp & Hplen & Hpc).
  { assert (String_isEmpty s || negb (String_at s 0 =? 47) = negb (bool_decide (head (String_chars s) = Some 47))) as ->.
    { destruct s as [[is8Bit [|c units]]|]; [done| |done]. unfold String_isEmpty, String_length, String_at. cbn [impl_chars String_chars head length].
      rewrite (proj2 (N.eqb_neq _ _)), (proj2 (N.leb_gt _ _)) by lia. change (default 0 ((c :: units) !!N 0)) with c. cbn [orb]. f_equal.
      destruct (c =? 47) eqn:E; breflect; [by rewrite bool_decide_true by congruence|by rewrite bool_decide_false by congruence]. }
    case_bool_decide; cbn [negb]; [exists s; by split_and!; [..|lia|]|].
    destruct (slash_concat s Hs Hlen) as (p & -> & Hp & Hplen & Hcp). exists p. split_and!; [done..|]. rewrite Echars. unfold escaped_text. by rewrite Hcp. }
  run_option. destruct (encode_where_text isBadChar p Hp Hplen) as (e & He & Hec & _ & _); [by apply bad_escapes, Hp|intros c Hx; by apply (hex_not_escaped c 1)|].
  unfold encodeWithURLEscapeSequences. rewrite He. run_option. rewrite Hpc in Hec.
  apply parse_concat; [done|done|]. rewrite parts_text. cbn [fmap list_fmap concat]. rewrite app_nil_r, Hec.
  assert (size (text_before_port l ++ prefixed 58 (l_port l)) = m_portEnd u) as Hport by (rewrite size_app, (size_port string isHTTP l); url_fields; done).
  pose proof (left_part string isHTTP l Hstring (m_portEnd u) _ _ render_path (eq_sym Hport)) as Hleft.
  pose proof (right_part string isHTTP l Hstring (m_pathEnd u) _ _ (render_query l) (eq_sym (size_query string isHTTP l)) (rest_size l Hsize _ _ (render_query l))) as Hright.
  change (m_string u) with string in Hleft, Hright. rewrite Hleft, Hright.
  rewrite render_query. unfold text_before_query. by repeat (rewrite <- ?app_assoc; cbn [app]).
Qed.
End Credentials.

(** ** Canonical URLs without some of their parts *)

Lemma slash_dot_cut pc a x b : Forall (fun c => c <> 0) x -> head b <> Some 46 -> slash_dot pc (a ++ x ++ b) = false -> slash_dot pc (a ++ b) = false.
Proof.
  intros Hx Hb. revert pc. induction a as [|c a IH]; intros pc; cbn [app slash_dot].
  - intros Hs. apply slash_dot_suffix in Hs as [pc' Hs]; [|done]. by eapply slash_dot_head.
  - destruct (c =? 0); [done|]. destruct (_ && _); [done|]. apply IH.
Qed.

Lemma slash_dot_root pc a b : head b <> Some 46 -> slash_dot pc (a ++ b) = false -> slash_dot pc (a ++ 47 :: b) = false.
Proof.
  intros Hb. revert pc. induction a as [|c a IH]; intros pc; cbn [app slash_dot].
  - by apply slash_dot_head.
  - destruct (c =? 0); [done|]. destruct (_ && _); [done|]. apply IH.
Qed.

(** The dots of a text that starts with some scheme. *)
Lemma has_dots_tail l rest : canonical l -> hasSlashDotOrDotDot (text_before_user l ++ rest) = false <->
  (exists c a, l_scheme l = c :: a /\ slash_dot c ((a ++ [58; 47; 47]) ++ rest) = false).
Proof.
  intros Hl. destruct (c_scheme l Hl) as (c & a & E & _). pose proof (c_scheme_chars l Hl) as Hs. rewrite E in Hs. apply Forall_cons in Hs as [[Hc _] _].
  unfold text_before_user. rewrite (c_slashes l Hl), E. cbn [app hasSlashDotOrDotDot]. rewrite (proj2 (N.eqb_neq c 0)) by (by intros ->).
  split; [intros Hd; by exists c, a|]. by intros (? & ? & [= <- <-] & Hd).
Qed.

Lemma user_nonzero l : canonical l -> Forall (fun c => c <> 0) (l_user l ++ prefixed 58 (l_password l) ++ at_sign (l_user l) (l_password l)).
Proof. intros Hl. pose proof (prefix_nonzero l Hl) as Hp. unfold prefix_text in Hp. by apply Forall_app in Hp as [_ Hp]. Qed.

Lemma dots_cut l a x b : canonical l -> Forall (fun c => c <> 0) x -> head b <> Some 46 -> render l = text_before_user l ++ a ++ x ++ b ->
  hasSlashDotOrDotDot (text_before_user l ++ a ++ b) = false.
Proof.
  intros Hl Hx Hb Hr. pose proof (c_dots l Hl) as Hd. rewrite Hr in Hd. apply has_dots_tail in Hd as (c & s & E & Hd); [|done]. apply has_dots_tail; [done|].
  exists c, s. split; [done|]. rewrite app_assoc in Hd |- *. by eapply slash_dot_cut.
Qed.

Lemma head_after_at l : canonical l -> head (l_host l) <> Some 46 -> head (text_after_at l) <> Some 46.
Proof. intros Hl. unfold text_after_at. destruct (host_head l Hl) as (c & rest & -> & _). done. Qed.

Lemma canonical_without_user l : canonical l -> (l_password l = None -> head (l_host l) <> Some 46) -> canonical (with_user [] l).
Proof.
  intros Hl Hdot. split; try apply Hl; [by apply Forall_nil|]. rewrite render_user. change (text_before_user (with_user [] l)) with (text_before_user l).
  unfold text_after_user, text_after_password. change (text_after_at (with_user [] l)) with (text_after_at l). cbn [l_user l_password with_user app].
  pose proof (user_nonzero l Hl) as Hnz. pose proof (render_user l) as Hr. unfold text_after_user, text_after_password in Hr.
  destruct (l_password l) as [password|]; cbn [prefixed at_sign app] in *.
  - assert (at_sign (l_user l) (Some password) = [64]) as Hat by (by destruct (l_user l)). rewrite Hat in Hr.
    apply (dots_cut l [] (l_user l)); [done|by apply Forall_app in Hnz as [? _]|done|done].
  - apply (dots_cut l [] (l_user l ++ at_sign (l_user l) None)); [done|done|apply head_after_at; [done|by apply Hdot]|by rewrite Hr, <- app_assoc].
Qed.

Lemma canonical_without_password l : canonical l -> (l_user l = [] -> head (l_host l) <> Some 46) -> canonical (with_password None l).
Proof.
  intros Hl Hdot. split; try apply Hl; [done|]. rewrite render_user. change (text_before_user (with_password None l)) with (text_before_user l).
  unfold text_after_user, text_after_password. change (text_after_at (with_password None l)) with (text_after_at l). cbn [l_user l_password with_password prefixed app].
  pose proof (user_nonzero l Hl) as Hnz. pose proof (render_user l) as Hr. unfold text_after_user, text_after_password in Hr. apply Forall_app in Hnz as [_ Hnz].
  destruct (l_user l) as [|c user].
  - cbn [app at_sign] in *. apply (dots_cut l [] (prefixed 58 (l_password l) ++ at_sign [] (l_password l))); [done|done|apply head_after_at; [done|by apply Hdot]|].
    by rewrite Hr, <- app_assoc.
  - apply (dots_cut l (c :: user) (prefixed 58 (l_password l))); [done|by apply Forall_app in Hnz as [? _]|done|done].
Qed.

Lemma canonical_without_fragment l : canonical l -> canonical (with_fragment None l).
Proof.
  intros Hl. split; try apply Hl; [|done]. pose proof (c_dots l Hl) as Hd. rewrite render_fragment in Hd |- *. cbn [with_fragment l_fragment prefixed].
  change (text_before_fragment (with_fragment None l)) with (text_before_fragment l). rewrite app_nil_r.
  destruct (text_before_fragment l) as [|c text]; [done|]. cbn [app hasSlashDotOrDotDot] in *. destruct (c =? 0); [done|]. by eapply slash_dot_prefix.
Qed.

(** The path that the parser gives to a canonical URL is canonical. *)
Lemma canonical_with_root l : canonical l -> canonical (with_root l).
Proof.
  intros Hl. destruct (l_path l) as [|c path] eqn:E; [destruct (http_scheme (l_scheme l)) eqn:Eh|].
  2, 3: replace (with_root l) with l; [done|unfold with_root; rewrite E, ?Eh, <- ?E; by destruct l].
  split; try apply Hl; unfold with_root; rewrite E, Eh; cbn [l_path].
  - by right.
  - split; [|done]. apply Forall_singleton. destruct (c_path_chars l Hl) as [_ _]. by split_and!.
  - pose proof (c_dots l Hl) as Hd. rewrite (render_path l), E in Hd. cbn [app] in Hd. rewrite render_path. cbn [l_path l_query l_fragment app].
    set (a := _ ++ prefixed 58 (l_port l)) in Hd. change (text_before_port _ ++ _) with a.
    assert (exists c s, a = c :: s) as (c & s & Ea).
    { destruct (c_scheme l Hl) as (c & s & Es & _). unfold a, text_before_port, text_before_user. rewrite Es. by eexists _, _. }
    rewrite Ea in *. cbn [app hasSlashDotOrDotDot] in *. destruct (c =? 0); [done|]. apply slash_dot_root; [|done].
    destruct (l_query l), (l_fragment l); done.
Qed.

Lemma with_root_idempotent l : with_root (with_root l) = with_root l.
Proof. unfold with_root. cbn [l_scheme l_slashes l_user l_password l_host l_port l_path l_query l_fragment]. by destruct (l_path l), (http_scheme (l_scheme l)). Qed.

(** ** Referrers *)

(** The parts of a URL that a referrer keeps. *)
Definition referrer_layout (l : Layout) : Layout := with_fragment None (with_password None (with_user [] (with_root l))).

Lemma render_with_user_size l : size (render (with_user [] l)) <= size (render l).
Proof.
  unfold render, authority_text. cbn [with_user l_scheme l_slashes l_user l_password l_host l_port l_path l_query l_fragment app].
  assert (size (at_sign [] (l_password l)) <= size (at_sign (l_user l) (l_password l))) by (destruct (l_user l), (l_password l); unfold size; cbn [at_sign length]; lia). sizes.
Qed.

Lemma render_with_password_size l : size (render (with_password None l)) <= size (render l).
Proof.
  unfold render, authority_text. cbn [with_password l_scheme l_slashes l_user l_password l_host l_port l_path l_query l_fragment prefixed app].
  assert (size (at_sign (l_user l) None) <= size (at_sign (l_user l) (l_password l))) by (destruct (l_user l), (l_password l); unfold size; cbn [at_sign length]; lia). sizes.
Qed.

(** A URL whose path the parser does not change, and its three steps. *)
Section Rooted.
Context (l : Layout) (Hl : canonical l) (Hroot : with_root l = l) (Hsize : size (render l) <= reference_limit) (Hdot : head (l_host l) <> Some 46).
Context (string : WTFString) (Hs : String_chars string = render l).

Lemma strip_user : exists s, setUser (url_of string (http_scheme (l_scheme l)) l) None = Some (url_of s (http_scheme (l_scheme l)) (with_user [] l)) /\
  String_chars s = render (with_user [] l).
Proof.
  pose proof (remove_user string (http_scheme (l_scheme l)) l Hl Hs Hsize None eq_refl (canonical_without_user l Hl (fun _ => Hdot))) as Hu.
  case_bool_decide as E.
  - exists string. assert (with_user [] l = l) as -> by (rewrite <- E; by destruct l). done.
  - destruct Hu as (u & -> & s & -> & Hc). exists s. change (with_root (with_user [] l)) with (with_user [] (with_root l)) in *. by rewrite Hroot in *.
Qed.

Lemma strip_password : exists s, setPass (url_of string (http_scheme (l_scheme l)) l) None = Some (url_of s (http_scheme (l_scheme l)) (with_password None l)) /\
  String_chars s = render (with_password None l).
Proof.
  pose proof (remove_password string (http_scheme (l_scheme l)) l Hl Hs Hsize None eq_refl (canonical_without_password l Hl (fun _ => Hdot))) as Hu.
  destruct (l_password l) as [password|] eqn:E.
  - destruct Hu as (u & -> & s & -> & Hc). exists s. change (with_root (with_password None l)) with (with_password None (with_root l)) in *. by rewrite Hroot in *.
  - exists string. assert (with_password None l = l) as -> by (rewrite <- E; by destruct l). done.
Qed.

Lemma strip_fragment : exists s, removeFragmentIdentifier (url_of string (http_scheme (l_scheme l)) l) = Some (url_of s (http_scheme (l_scheme l)) (with_fragment None l)) /\
  String_chars s = render (with_fragment None l).
Proof.
  destruct (set_fragment string (http_scheme (l_scheme l)) l Hs None None) as (u & Hu & s & -> & Hc); [by apply canonical_without_fragment| |done|].
  - rewrite (render_fragment l) in Hsize. rewrite render_fragment. cbn [with_fragment l_fragment prefixed].
    change (text_before_fragment (with_fragment None l)) with (text_before_fragment l). rewrite size_app in *. rewrite size_nil. lia.
  - exists s. change (with_root (with_fragment None l)) with (with_fragment None (with_root l)) in *. by rewrite Hroot in *.
Qed.
End Rooted.

Lemma stripped_text l u : canonical l -> head (l_host l) <> Some 46 -> canonical_url l u -> size (render (with_root l)) <= reference_limit ->
  exists s, strippedForUseAsReferrer u = Some s /\ String_chars s = render (referrer_layout l).
Proof.
  intros Hl Hdot (string & -> & Hs) Hsize. pose proof (canonical_with_root l Hl) as Hr. pose proof (with_root_idempotent l) as Hroot.
  unfold strippedForUseAsReferrer, referrer_layout. change (l_scheme l) with (l_scheme (with_root l)). change (l_host l) with (l_host (with_root l)) in Hdot.
  generalize dependent (with_root l). clear l Hl. intros l Hdot Hs Hsize Hl Hroot.
  destruct (strip_user l Hl Hroot Hsize Hdot string Hs) as (s1 & -> & Hs1). run_option.
  pose proof (canonical_without_user l Hl (fun _ => Hdot)) as Hl1. assert (with_root (with_user [] l) = with_user [] l) as Hroot1
    by (change (with_root (with_user [] l)) with (with_user [] (with_root l)); by rewrite Hroot).
  pose proof (render_with_user_size l) as Hsize1. change (l_scheme l) with (l_scheme (with_user [] l)). change (l_host l) with (l_host (with_user [] l)) in Hdot.
  generalize dependent (with_user [] l). intros l1 Hdot1 Hs1 Hl1 Hroot1 Hsize1.
  destruct (strip_password l1 Hl1 Hroot1 ltac:(lia) Hdot1 s1 Hs1) as (s2 & -> & Hs2). run_option.
  pose proof (canonical_without_password l1 Hl1 (fun _ => Hdot1)) as Hl2. assert (with_root (with_password None l1) = with_password None l1) as Hroot2
    by (change (with_root (with_password None l1)) with (with_password None (with_root l1)); by rewrite Hroot1).
  pose proof (render_with_password_size l1) as Hsize2. change (l_scheme l1) with (l_scheme (with_password None l1)).
  destruct (strip_fragment (with_password None l1) Hl2 Hroot2 ltac:(lia) s2 Hs2) as (s3 & -> & Hs3). run_option. by exists s3.
Qed.

(** ** Reading a user and a password *)

Lemma with_root_size l : size (render (with_root l)) <= size (render l) + 1.
Proof.
  unfold render, authority_text. cbn [with_root l_scheme l_slashes l_user l_password l_host l_port l_path l_query l_fragment].
  assert (size (match l_path l with [] => if http_scheme (l_scheme l) then [47] else [] | path => path end) <= size (l_path l) + 1)
    by (destruct (l_path l), (http_scheme (l_scheme l)); sizes). sizes.
Qed.

Lemma bytes_ok_string s : Forall (fun c => c < 256) (String_chars s) -> string_ok s.
Proof.
  destruct s as [[is8Bit chars]|]; [|done]. cbn [string_ok String_chars impl_is8Bit impl_chars]. intros Hc. eapply Forall_impl; [exact Hc|]. intros c H. unfold width_ok. destruct is8Bit; cbn in *; lia.
Qed.

Section Read.
Context (hasOneRef : Buffer -> bool) (address : N).
Context (s : WTFString) (Hs : well_formed s) (Hlen : String_length s <= encoder_limit) (H37 : 37 ∉ String_chars s).

Lemma read_class whatToEncode e : 0 < whatToEncode <= 255 -> String_chars e = escaped_text (class_escaped whatToEncode) s ->
  exists d, decodeURLEscapeSequences hasOneRef address e = Some d /\ String_chars d = String_chars s.
Proof.
  intros Hw He. destruct (class_text whatToEncode s Hw Hs Hlen H37) as (Hesc & _). apply (encode_decode (class_escaped whatToEncode)); [done|done|done| |done].
  apply bytes_ok_string. rewrite He. eapply Forall_impl; [apply encoded_chars; [exact Hesc|intros c Hx; apply (hex_not_escaped c whatToEncode Hx); lia]|]. by intros c [? _].
Qed.

Lemma read_user l u : l_user l = escaped_text (class_escaped PercentEncodeUsername) s -> canonical_url l u -> size (render l) <= reference_limit ->
  exists d, user hasOneRef address u = Some d /\ String_chars d = String_chars s.
Proof.
  intros Hu (string & -> & Hc) Hsize. apply (read_class PercentEncodeUsername); [by split|]. rewrite <- Hu. pose proof (with_root_size l).
  apply (user_url_of string _ (with_root l) Hc). unfold reference_limit in Hsize. change (2 ^ 32) with 4294967296. lia.
Qed.

Lemma read_password l u : l_password l = Some (escaped_text (class_escaped PercentEncodePassword) s) -> canonical_url l u -> size (render l) <= reference_limit ->
  exists d, pass hasOneRef address u = Some d /\ String_chars d = String_chars s.
Proof.
  intros Hu (string & -> & Hc) Hsize. pose proof (with_root_size l).
  assert (String_isNull string = false) as Hnull.
  { destruct string; [done|]. cbn in Hc. unfold render in Hc. symmetry in Hc. by apply app_nil in Hc as [_ ?]. }
  assert (size (render (with_root l)) < 2 ^ 32) as Hsz by (unfold reference_limit in Hsize; change (2 ^ 32) with 4294967296; lia).
  pose proof (pass_url_of string (http_scheme (l_scheme l)) (with_root l) Hc Hsz Hnull) as Hp. change (l_password (with_root l)) with (l_password l) in Hp.
  rewrite Hu in Hp. destruct Hp as [Hn Hpc]. unfold pass, encodedPass in *. destruct (_ =? _); [done|]. by apply (read_class PercentEncodePassword).
Qed.
End Read.

(** ** Comparing *)

Lemma same_at_parts a b prea mida posta preb midb postb count : String_chars a = prea ++ mida ++ posta -> String_chars b = preb ++ midb ++ postb ->
  size mida = count -> size midb = count -> same_at a b (size prea) (size preb) count = bool_decide (mida = midb).
Proof.
  intros Ha Hb <-. revert prea preb midb Ha Hb. induction mida as [|x mida IH]; intros prea preb midb Ha Hb Hsize.
  - destruct midb; [done|]. rewrite size_nil, size_cons in Hsize. lia.
  - destruct midb as [|y midb]; [rewrite size_nil, size_cons in Hsize; lia|]. rewrite !size_cons in Hsize. unfold same_at in *.
    specialize (IH (prea ++ [x]) (preb ++ [y]) midb). rewrite <- !app_assoc in IH. specialize (IH Ha Hb ltac:(lia)).
    apply Bool.eq_iff_eq_true. rewrite bool_decide_eq_true, forallb_forall. apply Bool.eq_iff_eq_true in IH. rewrite bool_decide_eq_true, forallb_forall in IH.
    setoid_rewrite <- list_elem_of_In in IH. setoid_rewrite <- list_elem_of_In. setoid_rewrite elem_of_for_range in IH. setoid_rewrite elem_of_for_range.
    rewrite size_cons. pose proof (String_at_part a prea x (mida ++ posta) Ha) as Hx. pose proof (String_at_part b preb y (midb ++ postb) Hb) as Hy. split.
    + intros Hall. assert (x = y) as <- by (specialize (Hall 0 ltac:(lia)); rewrite !N.add_0_r, Hx, Hy in Hall; by breflect).
      f_equal. apply IH. intros i Hi. specialize (Hall (i + 1) ltac:(lia)). rewrite !size_app, !size_cons, !size_nil.
      by replace (size prea + (1 + 0) + i) with (size prea + (i + 1)) by lia; replace (size preb + (1 + 0) + i) with (size preb + (i + 1)) by lia.
    + intros [= <- Heq] i Hi. destruct (decide (i = 0)) as [->|Hi0]; [rewrite !N.add_0_r, Hx, Hy; apply N.eqb_refl|].
      apply IH with (x := i - 1) in Heq; [|lia]. rewrite !size_app, !size_cons, !size_nil in Heq.
      by replace (size prea + (1 + 0) + (i - 1)) with (size prea + i) in Heq by lia; replace (size preb + (1 + 0) + (i - 1)) with (size preb + i) in Heq by lia.
Qed.

Section Compare.
Context (stringA stringB : WTFString) (a b : Layout) (HA : String_chars stringA = render a) (HB : String_chars stringB = render b).
Context (isHTTPA isHTTPB : bool).
Notation ua := (url_of stringA isHTTPA a).
Notation ub := (url_of stringB isHTTPB b).

Lemma size_eqb (l k : list N) : (size l =? size k) = bool_decide (size l = size k).
Proof. apply Bool.eq_iff_eq_true. by rewrite N.eqb_eq, bool_decide_eq_true. Qed.

Lemma equal_fragments : equalIgnoringFragmentIdentifier ua ub = bool_decide (render (with_fragment None a) = render (with_fragment None b)).
Proof.
  unfold equalIgnoringFragmentIdentifier. rewrite <- (size_fragment stringA isHTTPA a), <- (size_fragment stringB isHTTPB b).
  assert (forall l, render (with_fragment None l) = text_before_fragment l) as E.
  { intros l. rewrite render_fragment. cbn [with_fragment l_fragment prefixed]. by rewrite app_nil_r. }
  rewrite !E. destruct (_ =? _) eqn:Esize; breflect; cbn [negb].
  - apply (same_at_parts stringA stringB [] (text_before_fragment a) (prefixed 35 (l_fragment a)) [] (text_before_fragment b) (prefixed 35 (l_fragment b)));
      [by rewrite HA, render_fragment|by rewrite HB, render_fragment|done|done].
  - rewrite bool_decide_false; [done|]. intros H. by rewrite H in Esize.
Qed.

Lemma render_host l : render l = (text_before_user l ++ l_user l ++ prefixed 58 (l_password l) ++ at_sign (l_user l) (l_password l)) ++ l_host l ++
  prefixed 58 (l_port l) ++ l_path l ++ prefixed 63 (l_query l) ++ prefixed 35 (l_fragment l).
Proof. unfold render, authority_text, text_before_user. by repeat (rewrite <- ?app_assoc; cbn [app]). Qed.

Lemma size_host_start string isHTTP l : size (render l) < 2 ^ 32 -> size (text_before_user l ++ l_user l ++ prefixed 58 (l_password l) ++ at_sign (l_user l) (l_password l)) = hostStart (url_of string isHTTP l) /\
  m_hostEnd (url_of string isHTTP l) - hostStart (url_of string isHTTP l) = size (l_host l).
Proof. intros Hs. rewrite hostStart_url_of by done. unfold text_before_user. url_fields. split; [sizes|lia]. Qed.

Lemma equal_hosts `{ICU} pa pb : size (render a) < 2 ^ 32 -> size (render b) < 2 ^ 32 -> port ua = Some pa -> port ub = Some pb ->
  protocolHostAndPortAreEqual ua ub = Some (bool_decide (l_scheme a = l_scheme b /\ l_host a = l_host b /\ pa = pb)).
Proof.
  intros Hsa Hsb Hpa Hpb. unfold protocolHostAndPortAreEqual. destruct (size_host_start stringA isHTTPA a Hsa) as [Ea ->], (size_host_start stringB isHTTPB b Hsb) as [Eb ->].
  rewrite Hpa, Hpb, <- Ea, <- Eb. change (m_schemeEnd ua) with (size (l_scheme a)). change (m_schemeEnd ub) with (size (l_scheme b)). change (m_string ua) with stringA. change (m_string ub) with stringB.
  run_option. destruct (size (l_scheme a) =? _) eqn:E1; breflect; cbn [negb]; [|rewrite bool_decide_false; [done|intros (E & _); by rewrite E in E1]].
  destruct (size (l_host a) =? _) eqn:E2; breflect; cbn [negb]; [|rewrite bool_decide_false; [done|intros (_ & E & _); by rewrite E in E2]].
  pose proof (same_at_parts stringA stringB [] (l_scheme a) (58 :: l_slashes a ++ authority_text (l_user a) (l_password a) (l_host a) (l_port a)
    ++ l_path a ++ prefixed 63 (l_query a) ++ prefixed 35 (l_fragment a)) [] (l_scheme b) _ _ HA HB eq_refl (eq_sym E1)) as Hscheme.
  change (size []) with 0 in Hscheme. rewrite Hscheme.
  case_bool_decide as E3; cbn [negb]; [|rewrite bool_decide_false; [done|tauto]].
  rewrite (same_at_parts stringA stringB _ _ _ _ _ _ (size (l_host a)) (eq_trans HA (render_host a)) (eq_trans HB (render_host b)) eq_refl (eq_sym E2)).
  case_bool_decide as E4; cbn [negb]; [|rewrite bool_decide_false; [done|tauto]].
  f_equal. apply Bool.eq_iff_eq_true. rewrite N.eqb_eq, bool_decide_eq_true. naive_solver.
Qed.
End Compare.

(** ** Ports *)

(** The elements before [first] are less than the value, and none from [last] on is. *)
Lemma binary_search_correct fuel l first last value : (forall i j x y, l !!N i = Some x -> l !!N j = Some y -> i <= j -> x <= y) ->
  first <= last -> last <= N.of_nat (length l) -> last - first < N.of_nat fuel ->
  (forall i x, i < first -> l !!N i = Some x -> x < value) -> (forall i x, last <= i -> l !!N i = Some x -> value <= x) ->
  binary_search fuel l first last value = bool_decide (value ∈ l).
Proof.
  intros Hsorted. revert first last. induction fuel as [|fuel IH]; intros first last Hle Hlen Hfuel Hless Hmore; [lia|]. cbn [binary_search].
  destruct (first <? last) eqn:E; breflect.
  - assert ((last - first) / 2 < last - first) as Hd by (apply N.div_lt; lia). set (middle := first + (last - first) / 2).
    destruct (lookupN_is_Some l middle) as [x Hx]; [lia|]. rewrite Hx. cbn [default id]. destruct (x <? value) eqn:Ex; breflect.
    + apply IH; [lia|done|lia| |done]. intros i y Hi Hy. pose proof (Hsorted i middle y x Hy Hx ltac:(lia)). lia.
    + apply IH; [lia|lia|lia|done|]. intros i y Hi Hy. pose proof (Hsorted middle i x y Hx Hy ltac:(lia)). lia.
  - assert (first = last) as <- by lia. apply Bool.eq_iff_eq_true. rewrite bool_decide_eq_true. split.
    + destruct (l !!N first) as [x|] eqn:Ex; [|done]. intros Heq. breflect. subst x. by eapply list_elem_of_lookup_2.
    + intros [j Hj]%list_elem_of_lookup. rewrite <- (Nat2N.id j) in Hj. destruct (decide (N.of_nat j < first)) as [Hlt|Hge].
      * specialize (Hless _ _ Hlt Hj). lia.
      * destruct (lookupN_is_Some l first) as [x Hx]; [apply lookupN_lt in Hj; lia|]. rewrite Hx. apply N.eqb_eq.
        pose proof (Hsorted _ _ _ _ Hx Hj ltac:(lia)). pose proof (Hmore first x ltac:(lia) Hx). lia.
Qed.

Lemma blocked_sorted i j x y : blockedPortList !!N i = Some x -> blockedPortList !!N j = Some y -> i <= j -> x <= y.
Proof.
  intros Hx Hy Hij. assert (forallb (fun i => forallb (fun j => (j <? i) || (default 0 (blockedPortList !!N i) <=? default 0 (blockedPortList !!N j)))
    (for_range 0 (N.of_nat (length blockedPortList)))) (for_range 0 (N.of_nat (length blockedPortList))) = true) as Hall by (vm_compute; reflexivity).
  assert (forall k z, blockedPortList !!N k = Some z -> In k (for_range 0 (N.of_nat (length blockedPortList)))) as Hin.
  { intros k z Hk%lookupN_lt. apply list_elem_of_In, elem_of_for_range. lia. }
  rewrite forallb_forall in Hall. specialize (Hall i (Hin i x Hx)). rewrite forallb_forall in Hall. specialize (Hall j (Hin j y Hy)).
  rewrite Hx, Hy in Hall. cbn [default id] in Hall. apply orb_true_iff in Hall as [Hlt|Hle]; breflect; [lia|done].
Qed.

Lemma binary_search_spec p : binary_search (S (length blockedPortList)) blockedPortList 0 (N.of_nat (length blockedPortList)) p = bool_decide (p ∈ blockedPortList).
Proof.
  apply binary_search_correct; [exact blocked_sorted|lia|lia|lia|lia|]. intros i x Hi Hx. apply lookupN_lt in Hx. lia.
Qed.

(** ** The last component *)

Lemma reverse_find_spec pre mid post fuel : Forall (fun c => c <> 47) mid -> (length mid < fuel)%nat ->
  reverse_find fuel (pre ++ 47 :: mid ++ post) 47 (size pre + size mid) = Some (size pre).
Proof.
  revert mid post. induction fuel as [|fuel IH]; intros mid post Hm Hfuel; [lia|]. cbn [reverse_find]. destruct mid as [|d mid _] using rev_ind.
  - replace (size pre + size []) with (size pre) by sizes. cbn [app]. assert ((pre ++ 47 :: post) !!N (size pre) = Some 47) as -> by (unfold size; by rewrite Nat2N.id, list_lookup_middle). cbn [default id]. by rewrite N.eqb_refl.
  - apply Forall_app in Hm as [Hm Hd]. apply Forall_cons in Hd as [Hd _]. rewrite length_app in Hfuel. cbn [length] in Hfuel.
    assert ((pre ++ 47 :: (mid ++ [d]) ++ post) !!N (size pre + size (mid ++ [d])) = Some d) as ->.
    { replace (pre ++ 47 :: (mid ++ [d]) ++ post) with ((pre ++ 47 :: mid) ++ d :: post) by (by repeat (rewrite <- ?app_assoc; cbn [app])).
      rewrite list_lookup_middle; [done|]. rewrite length_app, size_app. cbn [length]. unfold size. cbn [length]. lia. }
    cbn [default id]. rewrite (proj2 (N.eqb_neq _ _) Hd), (proj2 (N.eqb_neq _ _)) by sizes.
    replace (size pre + size (mid ++ [d]) - 1) with (size pre + size mid) by sizes. rewrite <- app_assoc. apply IH; [done|lia].
Qed.

Lemma last_component string isHTTP l dir segment slash : String_chars string = render l -> size (render l) <= reference_limit ->
  l_path l = dir ++ 47 :: segment ++ slash -> segment <> [] -> Forall (fun c => c <> 47) segment -> slash = [] \/ slash = [47] ->
  String_chars (lastPathComponent (url_of string isHTTP l)) = segment.
Proof.
  intros Hs Hsize Hpath Hne Hseg Hslash. set (u := url_of string isHTTP l).
  pose proof (size_query string isHTTP l) as Hend. pose proof (render_query l) as Hr. unfold text_before_query in Hend, Hr. rewrite Hpath in Hend, Hr.
  set (pre := text_before_port l ++ prefixed 58 (l_port l) ++ dir) in *.
  set (post := prefixed 63 (l_query l) ++ prefixed 35 (l_fragment l)) in *.
  assert (render l = pre ++ 47 :: segment ++ slash ++ post) as Hr2 by (rewrite Hr; unfold pre; by repeat (rewrite <- ?app_assoc; cbn [app])).
  assert (m_pathEnd u = size pre + 1 + size segment + size slash) as Hpe by (unfold u; rewrite <- Hend; unfold pre; sizes).
  assert (m_portEnd u <= size pre) as Hport.
  { unfold pre. rewrite !size_app, (size_port string isHTTP l). url_fields. unfold u. url_fields. sizes. }
  assert (0 < size segment) as Hpos by (destruct segment; [done|sizes]).
  assert (size pre + 1 + size segment + size slash + size post <= reference_limit) as Hlimit by (rewrite Hr2 in Hsize; revert Hsize; sizes).
  unfold reference_limit in Hlimit.
  unfold lastPathComponent, hasPath. rewrite (proj2 (N.eqb_neq _ _)) by lia. cbn [negb]. change (m_string u) with string.
  rewrite (sub32_le (m_pathEnd u) 1) by (change (2 ^ 32) with 4294967296; lia). rewrite Hpe.
  assert ((if String_at string (size pre + 1 + size segment + size slash - 1) =? 47 then sub32 (size pre + 1 + size segment + size slash - 1) 1
    else size pre + 1 + size segment + size slash - 1) = size pre + size segment) as ->.
  { destruct Hslash as [-> | ->].
    - destruct segment as [|d mid _] using rev_ind; [done|]. apply Forall_app in Hseg as [_ Hd]. apply Forall_cons in Hd as [Hd _].
      replace (size pre + 1 + size (mid ++ [d]) + size [] - 1) with (size (pre ++ 47 :: mid)) by sizes.
      rewrite (String_at_part string (pre ++ 47 :: mid) d post) by (rewrite Hs, Hr2; by repeat (rewrite <- ?app_assoc; cbn [app])).
      rewrite (proj2 (N.eqb_neq _ _) Hd). sizes.
    - replace (size pre + 1 + size segment + size [47] - 1) with (size (pre ++ 47 :: segment)) by sizes.
      rewrite (String_at_part string (pre ++ 47 :: segment) 47 post) by (rewrite Hs, Hr2; by repeat (rewrite <- ?app_assoc; cbn [app])).
      rewrite N.eqb_refl, sub32_le by (rewrite ?size_app, ?size_cons in *; change (2 ^ 32) with 4294967296; lia). sizes. }
  unfold String_reverseFind_from. rewrite Hs. fold (size (render l)). rewrite Hr2.
  rewrite (proj2 (N.eqb_neq _ _)) by sizes. rewrite (proj2 (N.leb_gt _ _)) by sizes.
  rewrite reverse_find_spec by (done || unfold size; lia). rewrite (proj2 (N.ltb_ge _ _)) by lia.
  rewrite sub32_le by (change (2 ^ 32) with 4294967296; lia). rewrite wrap32_id by (change (2 ^ 32) with 4294967296; lia).
  apply (substring_part string _ _ (pre ++ [47]) segment (slash ++ post)); [rewrite Hs, Hr2; by rewrite <- app_assoc|sizes|lia].
Qed.

(** ** The theorems *)

(** C26: percent-encoding text and decoding it gives the text back, whatever the string, as long as it is well-formed
    UTF-16: for [encodeWithURLEscapeSequences] always, and for the variant that escapes the characters of a class
    when there is no percent sign, since that is in no class.  There is no bad character in the encoded text but the
    percent signs.  The escapes are decoded in runs, that end between two characters. *)
Theorem percent_roundtrip (hasOneRef : Buffer -> bool) (address : N) (s : WTFString)
  (Hs : well_formed s) (Hlen : String_length s <= encoder_limit) :
  (exists e d, encodeWithURLEscapeSequences s = Some e /\ Forall (fun c => c = 37 \/ isBadChar c = false) (String_chars e) /\
    decodeURLEscapeSequences hasOneRef address e = Some d /\ String_chars d = String_chars s) /\
  (forall whatToEncode, 0 < whatToEncode <= 255 -> 37 ∉ String_chars s ->
    exists e d, encodeWithURLEscapeSequences_class s whatToEncode = Some e /\
      decodeURLEscapeSequences hasOneRef address e = Some d /\ String_chars d = String_chars s).
Proof.
  split.
  - assert (escapes isBadChar (String_code_points s)) as He by (by apply bad_escapes, Hs).
    assert (forall c, isASCIIHexDigit c = true -> isBadChar c = false) as Hhex by (intros c Hx; by apply (hex_not_escaped c 1)).
    destruct (encode_where_text isBadChar s Hs Hlen He Hhex) as (e & Henc & Hchars & Hok & _).
    destruct (encode_decode isBadChar hasOneRef address s Hs Hlen He e Hok Hchars) as (d & Hd & Hdc). exists e, d. split_and!; [done| |done|done].
    rewrite Hchars. eapply Forall_impl; [by apply encoded_chars|]. by intros c [_ ?].
  - intros whatToEncode Hw H37. destruct (class_text whatToEncode s Hw Hs Hlen H37) as (He & e & Henc & Hchars & _).
    destruct (read_class hasOneRef address s Hs Hlen H37 whatToEncode e Hw Hchars) as (d & Hd & Hdc). by exists e, d.
Qed.

Lemma percent_roundtrip_witness : exists e d, encodeWithURLEscapeSequences (String16 [65; 37; 32; 0xE9; 0xD83D; 0xDE00; 66]) = Some e /\
  Forall (fun c => c = 37 \/ isBadChar c = false) (String_chars e) /\
  decodeURLEscapeSequences (fun _ => false) 5 e = Some d /\ String_chars d = [65; 37; 32; 0xE9; 0xD83D; 0xDE00; 66].
Proof.
  refine (proj1 (percent_roundtrip (fun _ => false) 5 (String16 [65; 37; 32; 0xE9; 0xD83D; 0xDE00; 66]) _ _)); [|by vm_compute].
  split; [repeat constructor|]. assert (String_code_points (String16 [65; 37; 32; 0xE9; 0xD83D; 0xDE00; 66]) = [65; 37; 32; 0xE9; 0x1F600; 66]) as -> by reflexivity.
  repeat (apply Forall_cons; split; [unfold scalar; lia|]). apply Forall_nil. exact I.
Defined.

(** C27: for values with which the URL is canonical again, setting the user, the password or the path of a canonical
    URL makes the URL with the encoded part, and the user or the password that is read back is the one that was set, if
    it has no percent sign; the other parts stay, and the at sign is added
    when it is needed.  The values are well-formed UTF-16 within the limit of the encoder; a percent sign is not encoded,
    so that the user [%41] is read back as [A], and a bracket in a user makes the URL invalid.  Question marks and number
    signs of a path are encoded (against the comment in [setPath]).  Removing a user or a password that is there removes it, with the at sign when nobody is left;
    otherwise the URL stays as it is; there, the host does not start with a dot. *)
Theorem credentials_roundtrip (hasOneRef : Buffer -> bool) (address : N) (string : WTFString) (isHTTP : bool) (l : Layout)
  (Hl : canonical l) (Hstring : String_chars string = render l) (Hsize : size (render l) <= reference_limit) :
  (forall s, well_formed s -> String_length s <= encoder_limit -> 37 ∉ String_chars s -> String_isEmpty s = false ->
    let l' := with_user (escaped_text (class_escaped PercentEncodeUsername) s) l in canonical l' -> size (render l') <= reference_limit ->
    exists u d, setUser (url_of string isHTTP l) s = Some u /\ canonical_url l' u /\ user hasOneRef address u = Some d /\ String_chars d = String_chars s) /\
  (forall s, well_formed s -> String_length s <= encoder_limit -> 37 ∉ String_chars s -> String_isEmpty s = false ->
    let l' := with_password (Some (escaped_text (class_escaped PercentEncodePassword) s)) l in canonical l' -> size (render l') <= reference_limit ->
    exists u d, setPass (url_of string isHTTP l) s = Some u /\ canonical_url l' u /\ pass hasOneRef address u = Some d /\ String_chars d = String_chars s) /\
  (forall s, well_formed s -> String_length s < encoder_limit ->
    let l' := with_path ((if bool_decide (head (String_chars s) = Some 47) then [] else [47]) ++ escaped_text isBadChar s) l in
    canonical l' -> size (render l') <= reference_limit ->
    exists u, setPath (url_of string isHTTP l) s = Some u /\ canonical_url l' u) /\
  (forall s, String_isEmpty s = true -> head (l_host l) <> Some 46 ->
    (if bool_decide (l_user l = []) then setUser (url_of string isHTTP l) s = Some (url_of string isHTTP l)
     else exists u, setUser (url_of string isHTTP l) s = Some u /\ canonical_url (with_user [] l) u) /\
    (if bool_decide (l_password l = None) then setPass (url_of string isHTTP l) s = Some (url_of string isHTTP l)
     else exists u, setPass (url_of string isHTTP l) s = Some u /\ canonical_url (with_password None l) u)).
Proof.
  split_and!.
  - intros s Hs Hlen H37 Hne l' Hc Hlimit. destruct (set_user string isHTTP l Hl Hstring Hsize s _ Hs Hlen H37 Hne eq_refl Hc Hlimit) as (u & Hu & Hcu).
    destruct (read_user hasOneRef address s Hs Hlen H37 l' u eq_refl Hcu Hlimit) as (d & Hd & Hdc). by exists u, d.
  - intros s Hs Hlen H37 Hne l' Hc Hlimit. destruct (set_password string isHTTP l Hl Hstring Hsize s _ Hs Hlen H37 Hne eq_refl Hc Hlimit) as (u & Hu & Hcu).
    destruct (read_password hasOneRef address s Hs Hlen H37 l' u eq_refl Hcu Hlimit) as (d & Hd & Hdc). by exists u, d.
  - intros s Hs Hlen l' Hc Hlimit. by apply (set_path string isHTTP l Hstring Hsize s).
  - intros s Hs Hdot. split.
    + apply (remove_user string isHTTP l Hl Hstring Hsize s Hs). by apply canonical_without_user.
    + pose proof (remove_password string isHTTP l Hl Hstring Hsize s Hs) as Hp. destruct (l_password l) as [password|] eqn:E.
      * rewrite bool_decide_false by done. apply Hp. by apply canonical_without_password.
      * rewrite bool_decide_true by done. apply Hp. by apply canonical_without_password.
Qed.

Lemma example_user_canonical : canonical (with_user (lit "a%20b") example_document).
Proof.
  pose proof canonical_example as [H1 H2 H3 H4 _ H6 H7 H8 H9 H10 _ H12 H13]. split; try done. cbn [with_user l_user]. repeat constructor; done.
Qed.

Lemma credentials_roundtrip_witness : exists u d, setUser (url_of (String8 (lit "http://h:81/a")) true example_document) (String8 (lit "a b")) = Some u /\
  canonical_url (with_user (lit "a%20b") example_document) u /\ user (fun _ => false) 0 u = Some d /\ String_chars d = lit "a b".
Proof.
  refine (proj1 (credentials_roundtrip (fun _ => false) 0 (String8 (lit "http://h:81/a")) true example_document canonical_example eq_refl _) (String8 (lit "a b")) _ _ _ _ _ _);
    [by vm_compute| |by vm_compute| |done|exact example_user_canonical|by vm_compute].
  - split; [repeat constructor|]. change (Forall scalar [97; 32; 98]). repeat (apply Forall_cons; split; [unfold scalar; lia|]). by apply Forall_nil.
  - cbn. rewrite !not_elem_of_cons. split_and!; try done. apply not_elem_of_nil.
Defined.

(** C28: the referrer of a canonical URL is the text of the same URL without its user, its password and its fragment,
    so that it names nobody. *)
Theorem stripped_spec (l : Layout) (u : URL) (Hl : canonical l) (Hdot : head (l_host l) <> Some 46) (Hu : canonical_url l u)
  (Hsize : size (render (with_root l)) <= reference_limit) :
  exists s, strippedForUseAsReferrer u = Some s /\ String_chars s = render (referrer_layout l).
Proof. by apply stripped_text. Qed.

Lemma stripped_spec_witness : exists u s, strippedForUseAsReferrer u = Some s /\ String_chars s = lit "http://h:81/a".
Proof.
  exists (url_of (String8 (render (with_root (with_user (lit "a%20b") example_document)))) true (with_root (with_user (lit "a%20b") example_document))).
  apply (stripped_spec (with_user (lit "a%20b") example_document)); [exact example_user_canonical|done|by eexists|by vm_compute].
Defined.



(** The last component of the path of a URL is the text behind the last slash, or between the last two when the
    path ends with one. *)
Theorem lastPathComponent_spec (l : Layout) (u : URL) (dir segment slash : list N)
  (Hu : canonical_url l u) (Hsize : size (render (with_root l)) <= reference_limit) (Hpath : l_path (with_root l) = dir ++ 47 :: segment ++ slash)
  (Hne : segment <> []) (Hsegment : Forall (fun c => c <> 47) segment) (Hslash : slash = [] \/ slash = [47]) :
  String_chars (lastPathComponent u) = segment.
Proof. destruct Hu as (string & -> & Hs). by apply (last_component string _ (with_root l) dir segment slash). Qed.

Lemma lastPathComponent_spec_witness :
  String_chars (lastPathComponent (url_of (String8 (lit "http://h/a/bc/")) true (mkLayout (lit "http") [47; 47] [] None (lit "h") None (lit "/a/bc/") None None))) = lit "bc".
Proof.
  apply (lastPathComponent_spec (mkLayout (lit "http") [47; 47] [] None (lit "h") None (lit "/a/bc/") None None) _ (lit "/a") (lit "bc") [47]);
    [by eexists|by vm_compute|done|done|repeat constructor; done|by right].
Defined.

(** What goes wrong.  A user with a percent sign is not escaped, and [%41] is read back as [A]; a user with a
    bracket, which is neither escaped nor accepted by the parser, makes the URL invalid.  The last component of a
    path without a slash is the whole text of the URL, since [notFound] is not less than an end.  Setting a path
    escapes its question marks and number signs, against what the comment in [setPath] says, and escapes the percent
    signs of a path that is escaped already. *)
Theorem url_part_divergences :
  (u ← parse_string (String8 (lit "http://h/")); u ← setUser u (String8 (lit "%41")); d ← user (fun _ => false) 0 u;
     Some (String_chars (m_string u), String_chars d)) = Some (lit "http://%41@h/", lit "A") /\
  (u ← parse_string (String8 (lit "http://h/")); u ← setUser u (String8 (lit "[")); Some (m_isValid u, String_chars (m_string u))) = Some (false, lit "http://[@h/") /\
  (u ← parse_string (String8 (lit "about:blank")); Some (String_chars (lastPathComponent u))) = Some (lit "about:blank") /\
  (u ← parse_string (String8 (lit "http://h/")); u ← setPath u (String8 (lit "a?b#c")); Some (String_chars (path u), query u, fragmentIdentifier u)) =
    Some (lit "/a%3Fb%23c", None, None) /\
  (u ← parse_string (String8 (lit "http://h/a%20b")); u ← setPath u (path u); Some (String_chars (path u))) = Some (lit "/a%2520b").
Proof. by vm_compute. Qed.
