(* ===== verification/OriginAccess.v ===== *)
(** * The runs of the program over its origins: invariants and isolation

    By induction on the steps: an origin never changes its identity, privileges
    come from grants, the blob map refers to objects, and each entry of a white
    list comes from the operation that adds it.  Then the theorem on the isolation
    of unique origins. *)

From S2P Require Import Prelude ASCII WTFString StringBuilder ResourceTypes URLCharacters StringOps URL URLParse URLLayout URLEncode URLInit URLReferences DecodeEscapeSequences SchemeRegistry SecurityOrigin OriginCreation SecurityPolicy OriginRules.

(** What no mutator of an origin changes. *)
Record same_identity (o o' : SecurityOrigin) : Prop := {
  si_protocol : m_protocol o' = m_protocol o;
  si_host : m_host o' = m_host o;
  si_filePath : m_filePath o' = m_filePath o;
  si_port : m_port o' = m_port o;
  si_unique : m_isUnique o' = m_isUnique o
}.

#[export] Instance same_identity_preorder : PreOrder same_identity.
Proof. split; [done|]. intros o1 o2 o3 [] []. split; congruence. Qed.

(** The privileges of [o'] that [o] has not; they come from grants. *)
Definition privileges (granted_universal granted_local : Prop) (o o' : SecurityOrigin) : Prop :=
  (m_universalAccess o' = true -> m_universalAccess o = true \/ granted_universal) /\
  (m_canLoadLocalResources o' = true -> m_canLoadLocalResources o = true \/ granted_local) /\
  (m_enforceFilePathSeparation o = true -> m_enforceFilePathSeparation o' = true) /\
  (m_domainWasSetInDOM o = true -> m_domainWasSetInDOM o' = true).

(** Every address of the blob map is one of the heap. *)
Definition blobs_ok (w : World) : Prop := Forall (fun e => e.2 < N.of_nat (length (w_heap w))) (w_blobs w).

(** An entry of the white lists and the operation that added it. *)
Definition entry_from `{ICU} (hasOneRef : Buffer -> bool) (ops : list origin_op) (heap : list SecurityOrigin) (key : WTFString) (entry : OriginAccessEntry) : Prop :=
  exists a protocol domain allow source source', OpAddWhitelistEntry a protocol domain allow ∈ ops /\
    entry = newEntry protocol domain (subdomains allow) /\
    heap !!N a = Some source' /\ same_identity source source' /\ m_isUnique source = false /\
    exists text, origin_toString hasOneRef source = Some text /\ String_chars text = String_chars key.

Definition entries_from `{ICU} (hasOneRef : Buffer -> bool) (ops : list origin_op) (w : World) : Prop :=
  Forall (fun e => Forall (entry_from hasOneRef ops (w_heap w) e.1) e.2) (w_accessMap w).

Lemma removeFirst_subset `{ICU} entry entries rest : removeFirst entry entries = Some rest -> forall e, e ∈ rest -> e ∈ entries.
Proof.
  revert rest. induction entries as [|e entries IH]; intros rest; [done|]. cbn [removeFirst]. destruct (equal_entries e entry); [intros [= <-]; set_solver|].
  destruct (removeFirst entry entries) as [rest'|]; [|done]. intros [= <-]. specialize (IH rest' eq_refl). set_solver.
Qed.

(** ** One step *)

Section Steps.
Context `{ICU} `{Encodings} (cocoa : bool) (hasOneRef : Buffer -> bool) (stack : N).
Notation run_op := (run_op cocoa hasOneRef stack).
Notation run := (run cocoa hasOneRef stack).

(** What happens to the object at an address. *)
Definition kept (ops : list origin_op) (w w' : World) : Prop :=
  forall a o, w_heap w !!N a = Some o -> exists o', w_heap w' !!N a = Some o' /\ same_identity o o' /\
    privileges (OpGrantUniversalAccess a ∈ ops) (OpGrantLoadLocalResources a ∈ ops) o o'.

Lemma kept_same ops w w' : w_heap w' = w_heap w -> kept ops w w'.
Proof. intros E a o Ho. exists o. rewrite E. split_and!; [done|done|]. split_and!; auto. Qed.

Lemma kept_keep ops r w : kept ops w (keep r w).
Proof.
  unfold keep. destruct r.1; [by apply kept_same|]. intros a o Ho. exists o. cbn [with_heap w_heap]. rewrite (lookup_app_l_Some _ _ _ _ Ho).
  split_and!; [done|done|]. split_and!; auto.
Qed.

Lemma kept_update ops a f w w' : update_origin a f w = Some w' -> (forall o, same_identity o (f o)) ->
  (forall o, privileges (OpGrantUniversalAccess a ∈ ops) (OpGrantLoadLocalResources a ∈ ops) o (f o)) -> kept ops w w'.
Proof.
  unfold update_origin. destruct (w_heap w !!N a) as [o|] eqn:Ea; [|done]. intros [= <-] Hf Hp b ob Hb. cbn [with_heap w_heap].
  destruct (decide (a = b)) as [<-|Hne].
  - rewrite list_lookup_insert_eq by (by eapply lookup_lt_Some). rewrite Hb in Ea. injection Ea as <-. exists (f ob). auto.
  - rewrite list_lookup_insert_ne by lia. exists ob. split_and!; [done|done|]. split_and!; auto.
Qed.

Lemma add_entry_world source protocol domain allow w w' : addOriginAccessWhitelistEntry hasOneRef source protocol domain allow w = Some w' ->
  exists map, w' = with_accessMap map w.
Proof.
  unfold addOriginAccessWhitelistEntry. destruct (m_isUnique source); [intros [= <-]; exists (w_accessMap w); by destruct w|].
  destruct (origin_toString _ _); [|done]. run_option. intros [= <-]. by eexists.
Qed.

Lemma remove_entry_world source protocol domain allow w w' : removeOriginAccessWhitelistEntry hasOneRef source protocol domain allow w = Some w' ->
  exists map, w' = with_accessMap map w.
Proof.
  assert (exists map, w = with_accessMap map w) as Hsame by (exists (w_accessMap w); by destruct w).
  unfold removeOriginAccessWhitelistEntry. destruct (m_isUnique source); [by intros [= <-]|]. destruct (origin_toString _ _); [|done]. run_option.
  destruct (string_get _ _); [|by intros [= <-]]. destruct (removeFirst _ _) as [[|]|]; intros [= <-]; [by eexists|by eexists|done].
Qed.

Lemma registerBlob_heap origin url w : w_heap (registerBlobURL origin url w) = w_heap w.
Proof. unfold registerBlobURL. destruct origin; [|done]. destruct (equal_literal _ _); [|done]. by destruct (string_get _ _). Qed.

Lemma unregisterBlob_heap url w : w_heap (unregisterBlobURL url w) = w_heap w.
Proof. unfold unregisterBlobURL. by destruct (equal_literal _ _). Qed.

Lemma step_kept op w w' : run_op op w = Some w' -> kept [op] w w'.
Proof.
  destruct op; cbn [SecurityPolicy.run_op].
  - destruct (create _ _ _ _ _) as [r|]; [|done]. run_option. intros [= <-]. apply kept_keep.
  - intros [= <-]. apply kept_keep.
  - destruct (deref w a) as [r|]; [|done]. run_option. intros [= <-]. apply kept_keep.
  - intros E. eapply kept_update; [exact E|done|]. intros o. split_and!; auto.
  - intros E. eapply kept_update; [exact E|done|]. intros o. split_and!; auto. intros _. right. by apply list_elem_of_singleton.
  - intros E. eapply kept_update; [exact E|done|]. intros o. split_and!; auto. intros _. right. by apply list_elem_of_singleton.
  - intros E. eapply kept_update; [exact E|done|]. intros o. split_and!; auto.
  - intros E. eapply kept_update; [exact E|done|]. intros o. split_and!; auto.
  - destruct origin as [a|]; [|intros [= <-]; by apply kept_same]. destruct (deref w a); [|done]. run_option. intros [= <-]. apply kept_same. exact (registerBlob_heap (Some a) url w).
  - intros [= <-]. apply kept_same, unregisterBlob_heap.
  - destruct (add_scheme _ _ _ _); [|done]. run_option. intros [= <-]. by apply kept_same.
  - destruct (removeURLSchemeRegisteredAsLocal _ _ _); [|done]. run_option. intros [= <-]. by apply kept_same.
  - destruct (deref w a); [|done]. run_option. intros [map ->]%add_entry_world. by apply kept_same.
  - destruct (deref w a); [|done]. run_option. intros [map ->]%remove_entry_world. by apply kept_same.
  - intros [= <-]. by apply kept_same.
  - intros [= <-]. by apply kept_same.
Qed.

Lemma kept_trans ops1 ops2 w1 w2 w3 : kept ops1 w1 w2 -> kept ops2 w2 w3 -> kept (ops1 ++ ops2) w1 w3.
Proof.
  intros K1 K2 a o Ho. destruct (K1 a o Ho) as (o1 & H1 & S1 & (U1 & L1 & F1 & D1)). destruct (K2 a o1 H1) as (o2 & H2 & S2 & (U2 & L2 & F2 & D2)).
  exists o2. split_and!; [done|by transitivity o1|]. split_and!; [..|auto|auto].
  - intros [[?| ?]%U1|?]%U2; [by left|right|right]; apply elem_of_app; auto.
  - intros [[?| ?]%L1|?]%L2; [by left|right|right]; apply elem_of_app; auto.
Qed.

Lemma run_kept w ops w' : run w ops w' -> kept ops w w'.
Proof.
  induction 1 as [w|w op w1 ops w2 Hop _ IH]; [by apply kept_same|]. apply (kept_trans [op] ops w w1 w2); [by apply step_kept|done].
Qed.

(** ** Invariants of the state *)

Lemma deref_lookup w a r : deref w a = Some r <-> exists o, w_heap w !!N a = Some o /\ r = (Some a, o).
Proof. unfold deref. destruct (w_heap w !!N a) as [o|]; cbn; naive_solver. Qed.

Lemma kept_length ops w w' : kept ops w w' -> (length (w_heap w) <= length (w_heap w'))%nat.
Proof.
  intros K. destruct (decide (length (w_heap w) <= length (w_heap w'))%nat) as [|Hlt]; [done|]. destruct (lookup_lt_is_Some_2 (w_heap w) (length (w_heap w'))) as [o Ho]; [lia|].
  destruct (K (N.of_nat (length (w_heap w'))) o) as (o' & Ho' & _); [by rewrite Nat2N.id|]. rewrite Nat2N.id in Ho'. apply lookup_lt_Some in Ho'. lia.
Qed.

Lemma step_blobs op w w' : run_op op w = Some w' -> blobs_ok w -> blobs_ok w'.
Proof.
  intros Hop Hb. assert (w_blobs w' = w_blobs w -> blobs_ok w') as Hsame.
  { intros E. unfold blobs_ok. rewrite E. pose proof (kept_length _ _ _ (step_kept _ _ _ Hop)) as Hle. eapply Forall_impl; [exact Hb|]. cbn. intros e He. lia. }
  assert (forall r, w_blobs (keep r w) = w_blobs w) as Hkeep by (intros r; unfold keep; by destruct r.1).
  assert (forall a f, update_origin a f w = Some w' -> w_blobs w' = w_blobs w) as Hupdate.
  { intros a f. unfold update_origin. destruct (_ !!N _); [|done]. by intros [= <-]. }
  destruct op; cbn [SecurityPolicy.run_op] in Hop; try (apply Hsame; by eapply Hupdate).
  - destruct (create _ _ _ _ _) as [r|]; [|done]. injection Hop as <-. apply Hsame, Hkeep.
  - injection Hop as <-. apply Hsame, Hkeep.
  - destruct (deref w a) as [r|]; [|done]. injection Hop as <-. apply Hsame, Hkeep.
  - destruct origin as [a|]; [|by injection Hop as <-]. destruct (deref w a) as [r|] eqn:E; [|done]. apply deref_lookup in E as (o & Ho & _).
    injection Hop as <-. destruct (equal_literal _ _); [|done]. destruct (string_get _ _); [done|]. unfold blobs_ok. cbn [with_blobs w_blobs w_heap].
    apply Forall_app. split; [done|]. apply Forall_singleton. cbn. apply lookup_lt_Some in Ho. lia.
  - injection Hop as <-. unfold unregisterBlobURL. destruct (equal_literal _ _); [|done]. by apply (Forall_string_remove (fun e => e.2 < _)).
  - destruct (add_scheme _ _ _ _); [|done]. by injection Hop as <-.
  - destruct (removeURLSchemeRegisteredAsLocal _ _ _); [|done]. by injection Hop as <-.
  - destruct (deref w a); [|done]. apply add_entry_world in Hop as [map ->]. by apply Hsame.
  - destruct (deref w a); [|done]. apply remove_entry_world in Hop as [map ->]. by apply Hsame.
  - by injection Hop as <-.
  - by injection Hop as <-.
Qed.

Lemma run_blobs w ops w' : run w ops w' -> blobs_ok w -> blobs_ok w'.
Proof. induction 1 as [|w op w1 ops w2 Hop _ IH]; [done|]. intros Hb. by eapply IH, step_blobs. Qed.

(** Universal access comes from a grant, and an object that is made has none. *)
Lemma create_no_universal w url r : create cocoa hasOneRef stack w url = Some r -> r.1 = None -> m_universalAccess r.2 = false.
Proof.
  unfold create. destruct (getCachedOrigin w url) as [c|] eqn:Ec.
  - intros [= <-]. unfold getCachedOrigin, ThreadableBlobRegistry_getCachedOrigin in Ec. destruct (protocolIs _ _); [|done].
    destruct (string_get _ _); [|done]. by apply deref_lookup in Ec as (o & _ & ->).
  - destruct (shouldTreatAsUniqueOrigin _ _ _ _ _) as [[|]|]; [|..|done]; run_option.
    + intros [= <-] _. cbn. by destruct (protocolIs _ _).
    + destruct (if shouldUseInnerURL url then _ else _) as [inner|]; [|done]. run_option. unfold originOfURL. destruct (port inner); [|done]. run_option. by intros [= <-].
Qed.

Definition no_universal (w : World) : Prop := Forall (fun o => m_universalAccess o = false) (w_heap w).

Lemma keep_no_universal r w : no_universal w -> (r.1 = None -> m_universalAccess r.2 = false) -> no_universal (keep r w).
Proof.
  unfold keep, no_universal. destruct r.1; [done|]. intros Hw Hr. cbn [with_heap w_heap]. apply Forall_app. split; [done|]. by apply Forall_singleton, Hr.
Qed.

Lemma step_no_universal op w w' : run_op op w = Some w' -> (forall a, op <> OpGrantUniversalAccess a) -> no_universal w -> no_universal w'.
Proof.
  intros Hop Hne Hw. assert (w_heap w' = w_heap w -> no_universal w') as Hsame by (intros E; unfold no_universal; by rewrite E).
  assert (forall a f, update_origin a f w = Some w' -> (forall o, m_universalAccess (f o) = m_universalAccess o) -> no_universal w') as Hupdate.
  { intros a f. unfold update_origin. destruct (_ !!N _) as [o|] eqn:E; [|done]. intros [= <-] Hf. unfold no_universal. cbn [with_heap w_heap].
    apply Forall_insert; [done|]. rewrite Hf. by eapply Forall_lookup_1 in Hw. }
  destruct op; cbn [SecurityPolicy.run_op] in Hop; try (by eapply Hupdate).
  - destruct (create _ _ _ _ _) as [r|] eqn:E; [|done]. injection Hop as <-. apply keep_no_universal; [done|]. by eapply create_no_universal.
  - injection Hop as <-. by apply keep_no_universal.
  - destruct (deref w a) as [r|] eqn:E; [|done]. apply deref_lookup in E as (o & Ho & ->). injection Hop as <-. apply keep_no_universal; [done|]. intros _. by eapply Forall_lookup_1 in Hw.
  - by destruct (Hne a).
  - destruct origin as [a|]; [|by injection Hop as <-]. destruct (deref w a) as [r|]; [|done]. injection Hop as <-. apply Hsame. exact (registerBlob_heap (Some a) url w).
  - injection Hop as <-. apply Hsame, unregisterBlob_heap.
  - destruct (add_scheme _ _ _ _); [|done]. by injection Hop as <-.
  - destruct (removeURLSchemeRegisteredAsLocal _ _ _); [|done]. by injection Hop as <-.
  - destruct (deref w a); [|done]. apply add_entry_world in Hop as [map ->]. by apply Hsame.
  - destruct (deref w a); [|done]. apply remove_entry_world in Hop as [map ->]. by apply Hsame.
  - by injection Hop as <-.
  - by injection Hop as <-.
Qed.

Lemma run_no_universal w ops w' : run w ops w' -> (forall a, OpGrantUniversalAccess a ∉ ops) -> no_universal w -> no_universal w'.
Proof.
  induction 1 as [|w op w1 ops w2 Hop _ IH]; [done|]. intros Hne Hw. apply IH.
  - intros a Ha. apply (Hne a), elem_of_cons. by right.
  - eapply step_no_universal; [exact Hop| |done]. intros a ->. apply (Hne a), elem_of_cons. by left.
Qed.
End Steps.

#[local] Existing Instances ascii_icu low_byte_encodings.

(** ** Where the entries of the white lists come from *)

Section Entries.
Context `{ICU} `{Encodings} (cocoa : bool) (hasOneRef : Buffer -> bool) (stack : N).
Notation run_op := (run_op cocoa hasOneRef stack).
Notation run := (run cocoa hasOneRef stack).

Lemma entry_from_mono ops ops1 ops2 w w' key entry : kept ops1 w w' -> ops ⊆ ops2 ->
  entry_from hasOneRef ops (w_heap w) key entry -> entry_from hasOneRef ops2 (w_heap w') key entry.
Proof.
  intros K Hsub (a & protocol & domain & allow & source & source' & Hin & -> & Ha & Hid & Hu & Htext).
  destruct (K a source' Ha) as (source2 & Ha2 & Hid2 & _). exists a, protocol, domain, allow, source, source2.
  split_and!; [by apply Hsub|done|done|by transitivity source'|done|done].
Qed.

Lemma entry_from_key ops heap k1 k2 entry : String_chars k1 = String_chars k2 -> entry_from hasOneRef ops heap k1 entry -> entry_from hasOneRef ops heap k2 entry.
Proof. unfold entry_from. by intros ->. Qed.

Lemma entries_get ops w key list : entries_from hasOneRef ops w -> string_get key (w_accessMap w) = Some list ->
  Forall (entry_from hasOneRef ops (w_heap w) key) list.
Proof.
  intros Hw Hg. eapply Forall_string_get in Hg as (k & Hk & Hl); [|exact Hw]. cbn [fst snd] in Hl. eapply Forall_impl; [exact Hl|].
  intros e. apply entry_from_key. by apply equal_strings_text.
Qed.

Lemma entries_set ops w key list : entries_from hasOneRef ops w -> Forall (entry_from hasOneRef ops (w_heap w) key) list ->
  entries_from hasOneRef ops (with_accessMap (string_set key list (w_accessMap w)) w).
Proof.
  intros Hw Hl. unfold entries_from. cbn [with_accessMap w_accessMap w_heap]. apply Forall_string_set; [exact Hw| |exact Hl].
  intros k Hk. cbn [fst snd]. eapply Forall_impl; [exact Hl|]. intros e. apply entry_from_key. symmetry. by apply equal_strings_text.
Qed.

Lemma step_entries ops op w w' : run_op op w = Some w' -> entries_from hasOneRef ops w -> entries_from hasOneRef (ops ++ [op]) w'.
Proof.
  intros Hop Hw. pose proof (step_kept cocoa hasOneRef stack op w w' Hop) as K.
  assert (forall w1, kept [op] w w1 -> w_accessMap w1 = w_accessMap w -> entries_from hasOneRef (ops ++ [op]) w1) as Hsame.
  { intros w1 K1 E. unfold entries_from. rewrite E. eapply Forall_impl; [exact Hw|]. intros [k l] Hl. cbn [fst snd] in *.
    eapply Forall_impl; [exact Hl|]. intros e. apply (entry_from_mono ops [op]); [done|]. set_solver. }
  assert (entries_from hasOneRef (ops ++ [op]) w) as Hw' by (apply Hsame; [by apply kept_same|done]).
  assert (forall r, w_accessMap (keep r w) = w_accessMap w) as Hkeep by (intros r; unfold keep; by destruct r.1).
  assert (forall a f, update_origin a f w = Some w' -> w_accessMap w' = w_accessMap w) as Hupdate.
  { intros a f. unfold update_origin. destruct (_ !!N _); [|done]. by intros [= <-]. }
  destruct op; cbn [SecurityPolicy.run_op] in Hop; try (apply Hsame; [done|]; by eapply Hupdate).
  - apply Hsame; [done|]. destruct (create _ _ _ _ _) as [r|]; [|done]. injection Hop as <-. apply Hkeep.
  - apply Hsame; [done|]. injection Hop as <-. apply Hkeep.
  - apply Hsame; [done|]. destruct (deref w a) as [r|]; [|done]. injection Hop as <-. apply Hkeep.
  - apply Hsame; [done|]. destruct origin as [a|]; [|by injection Hop as <-]. destruct (deref w a) as [r|]; [|done]. injection Hop as <-.
    destruct (equal_literal _ _); [|done]. by destruct (string_get _ _).
  - apply Hsame; [done|]. injection Hop as <-. unfold unregisterBlobURL. by destruct (equal_literal _ _).
  - apply Hsame; [done|]. destruct (add_scheme _ _ _ _); [|done]. by injection Hop as <-.
  - apply Hsame; [done|]. destruct (removeURLSchemeRegisteredAsLocal _ _ _); [|done]. by injection Hop as <-.
  - destruct (deref w a) as [r|] eqn:Er; [|done]. apply deref_lookup in Er as (o & Ho & ->). cbn [mbind option_bind snd] in Hop. unfold addOriginAccessWhitelistEntry in Hop.
    destruct (m_isUnique o) eqn:Hu; [by injection Hop as <-|]. destruct (origin_toString hasOneRef o) as [key|] eqn:Hkey; [|done]. injection Hop as <-.
    apply entries_set; [done|]. apply Forall_app. split.
    + destruct (string_get key (w_accessMap w)) as [list|] eqn:Hg; [|by constructor]. by eapply entries_get.
    + apply Forall_singleton. exists a, protocol, domain, subdomains, o, o. split_and!; [set_solver|done|done|done|done|by exists key].
  - destruct (deref w a) as [r|] eqn:Er; [|done]. apply deref_lookup in Er as (o & Ho & ->). cbn [mbind option_bind snd] in Hop. unfold removeOriginAccessWhitelistEntry in Hop.
    destruct (m_isUnique o) eqn:Hu; [by injection Hop as <-|]. destruct (origin_toString hasOneRef o) as [key|] eqn:Hkey; [|done].
    cbn [mbind option_bind] in Hop. destruct (string_get key (w_accessMap w)) as [list|] eqn:Hg; [|by injection Hop as <-].
    destruct (removeFirst _ _) as [rest|] eqn:Hrest; [|by injection Hop as <-]. pose proof (removeFirst_subset _ _ _ Hrest) as Hsub.
    destruct rest as [|e rest]; injection Hop as <-; [by apply (Forall_string_remove (fun e => Forall _ e.2))|].
    apply entries_set; [done|]. pose proof (entries_get _ _ _ _ Hw' Hg) as Hl. rewrite Forall_forall in *. auto.
  - injection Hop as <-. constructor.
  - apply Hsame; [done|]. by injection Hop as <-.
Qed.

Lemma run_entries ops0 w ops w' : run w ops w' -> entries_from hasOneRef ops0 w -> entries_from hasOneRef (ops0 ++ ops) w'.
Proof.
  intros Hrun. revert ops0. induction Hrun as [w|w op w1 ops w2 Hop _ IH]; intros ops0 Hw; [by rewrite app_nil_r|].
  rewrite cons_middle, app_assoc. apply IH. by eapply step_entries.
Qed.
End Entries.

(** ** What an entry allows *)

(** The protocol is the one of the entry, and the host is its domain, or lies in its domain when subdomains are
    allowed; the domain of an address has none, and the empty domain has all hosts. *)
Definition entry_allows (protocol domain : list N) (allow : bool) (target_protocol target_host : list N) : Prop :=
  target_protocol = protocol /\
  (target_host = domain \/
   allow = true /\ (domain = [] \/ (forall c, last domain = Some c -> isASCIIDigit c = false) /\ exists label, target_host = label ++ 46 :: domain)).

Section Matching.
Context `{ICU}.

Lemma in_domain_spec host domain : String_isNull host = false -> String_isNull domain = false ->
  (String_length domain <? String_length host) && (String_at host (String_length host - String_length domain - 1) =? 46) && String_endsWith host domain = true <->
  exists label, String_chars host = label ++ 46 :: String_chars domain.
Proof.
  destruct host as [[wh h]|], domain as [[wd d]|]; try done. intros _ _. unfold String_at, String_endsWith, String_length. cbn [String_chars impl_chars].
  rewrite !andb_true_iff, N.ltb_lt. split.
  - intros [[Hlt Hdot] Hend]. destruct (_ <=? _) eqn:E; breflect; [lia|]. destruct (_ <? _)%nat eqn:E1; breflect; [done|].
    rewrite bool_decide_eq_true in Hend. rewrite (firstn_all2 (n := length d)) in Hend by (rewrite length_drop; lia).
    exists (take (length h - length d - 1) h). rewrite <- (take_drop (length h - length d - 1) h) at 1. f_equal.
    destruct (lookup_lt_is_Some_2 h (length h - length d - 1)) as [c Hc]; [lia|]. rewrite (drop_S _ _ _ Hc).
    replace (N.to_nat (N.of_nat (length h) - N.of_nat (length d) - 1)) with (length h - length d - 1)%nat in Hdot by lia. rewrite Hc in Hdot. cbn [default] in Hdot. change (c = 46) in Hdot. subst c.
    f_equal. rewrite <- Hend at 2. f_equal. lia.
  - intros [label ->]. rewrite length_app. cbn [length]. split_and!.
    + lia.
    + destruct (_ <=? _) eqn:E; breflect; [lia|].
      replace (N.to_nat _) with (length label) by lia. by rewrite lookup_app_r, Nat.sub_diag by lia.
    + destruct (_ <? _)%nat eqn:E1; breflect; [lia|]. rewrite bool_decide_eq_true.
      replace (length label + S (length d) - length d)%nat with (length (label ++ [46])) by (rewrite length_app; cbn [length]; lia).
      replace (label ++ 46 :: d) with ((label ++ [46]) ++ d) by (by rewrite <- app_assoc). rewrite drop_app_length. apply firstn_all.
Qed.

Lemma last_at (s : WTFString) : String_chars s <> [] -> String_length s < 2 ^ 32 -> last (String_chars s) = Some (String_at s (sub32 (String_length s) 1)).
Proof.
  destruct s as [[w l]|]; [|done]. unfold String_at, String_length. cbn [String_chars impl_chars]. intros Hne Hlt.
  destruct l as [|c l] using rev_ind; [done|]. clear IHl. rewrite last_snoc. rewrite length_app in *. cbn [length] in *.
  assert (sub32 (N.of_nat (length l + 1)) 1 = N.of_nat (length l)) as -> by (rewrite sub32_le by lia; lia).
  destruct (_ <=? _) eqn:E; breflect; [lia|]. rewrite Nat2N.id, lookup_app_r, Nat.sub_diag by lia. done.
Qed.

Lemma matchesOrigin_spec protocol domain allow o : ascii protocol -> ascii domain -> String_isNull protocol = false -> String_isNull domain = false ->
  String_isNull (m_protocol o) = false -> String_isNull (m_host o) = false -> String_length domain < 2 ^ 32 ->
  matchesOrigin (newEntry protocol domain (subdomains allow)) o = true <->
  entry_allows (folded protocol) (folded domain) allow (String_chars (m_protocol o)) (String_chars (m_host o)).
Proof.
  intros Hp Hd Hpn Hdn Hop Hoh Hlen. unfold matchesOrigin, newEntry. cbn [e_protocol e_host e_subdomainSettings e_hostIsIPAddress].
  pose proof (String_lower_ascii protocol Hp) as Ep. pose proof (String_lower_ascii domain Hd) as Ed. pose proof (String_lower_null protocol) as Np. pose proof (String_lower_null domain) as Nd.
  rewrite Hpn in Np. rewrite Hdn in Nd. unfold entry_allows. rewrite <- Ep, <- Ed.
  assert (String_length (String_lower domain) < 2 ^ 32) as Hlen'.
  { destruct domain as [impl|]; [|done]. cbn [String_lower fmap option_fmap option_map]. rewrite impl_lower_ascii by done. unfold String_length in *. cbn [impl_chars]. by rewrite length_fmap. }
  set (d := String_lower domain) in *. set (p := String_lower protocol) in *. clearbody d p.
  destruct (equal_strings p (m_protocol o)) eqn:E1; cbn [negb].
  2: { split; [done|]. intros [E _]. rewrite <- not_true_iff_false in E1. destruct E1. apply equal_strings_spec. by rewrite Np. }
  apply equal_strings_spec in E1 as [_ E1].
  destruct (equal_strings d (m_host o)) eqn:E2.
  { apply equal_strings_spec in E2 as [_ E2]. destruct (_ && String_isEmpty d); naive_solver. }
  assert (String_chars (m_host o) <> String_chars d) as Hne.
  { intros E. rewrite <- not_true_iff_false in E2. destruct E2. apply equal_strings_spec. by rewrite Nd. }
  destruct allow; cbn [subdomains]; [rewrite (bool_decide_true (AllowSubdomains = AllowSubdomains)), (bool_decide_false (AllowSubdomains = DisallowSubdomains)) by done
    |rewrite (bool_decide_false (DisallowSubdomains = AllowSubdomains)), (bool_decide_true (DisallowSubdomains = DisallowSubdomains)) by done]; cbn [andb].
  2: { split; [done|]. intros [_ [?|[? _]]]; done. }
  destruct (String_isEmpty d) eqn:E3.
  { assert (String_chars d = []) as Hd0 by (destruct (decide (String_chars d = [])) as [|Hn]; [done|]; by rewrite (proj2 (String_isEmpty_spec d) (conj Nd Hn)) in E3). naive_solver. }
  apply String_isEmpty_spec in E3 as [_ E3]. cbn [negb andb]. rewrite (last_at d E3 Hlen').
  destruct (isASCIIDigit (String_at d _)) eqn:E4.
  - split; [done|]. intros [_ [?|[_ [?|[Hdig _]]]]]; [done|done|]. specialize (Hdig _ eq_refl). congruence.
  - rewrite in_domain_spec by done. naive_solver.
Qed.
End Matching.

(** ** Isolation *)

(** The address that a blob URL is registered for. *)
Definition blob_owner (w : World) (url : URL) : option N := if protocolIs url (lit "blob") then string_get (m_string url) (w_blobs w) else None.

Lemma cached_origin_owner w url a o : blobs_ok w ->
  match getCachedOrigin w url with Some origin => same_object origin (Some a, o) | None => false end = bool_decide (blob_owner w url = Some a).
Proof.
  intros Hb. unfold getCachedOrigin, ThreadableBlobRegistry_getCachedOrigin, blob_owner. destruct (protocolIs _ _); [|done].
  destruct (string_get _ _) as [b|] eqn:Hg; [|done]. run_option. eapply Forall_string_get in Hg as (k & _ & Hlt); [|exact Hb]. cbn [snd] in Hlt.
  destruct (lookupN_is_Some _ _ Hlt) as [ob Ho]. unfold deref. rewrite Ho. run_option. unfold same_object. cbn [fst].
  apply Bool.eq_iff_eq_true. rewrite N.eqb_eq, bool_decide_eq_true. naive_solver.
Qed.

(** C16: in every state that a run of the program reaches without a grant of
    universal access, a unique origin has access to its own object only and
    nothing has access to it, is of a third party for every other origin, may
    request the blob URLs registered for its object and nothing else, and has
    neither cookies nor databases. *)
Theorem unique_origins_isolated (I : ICU) (C : Encodings) (cocoa : bool) (hasOneRef : Buffer -> bool) (stack : N) (ops : list origin_op) (w : World)
  (a b : N) (ra rb : OriginRef)
  (Hrun : run cocoa hasOneRef stack World_new ops w) (Hgrants : forall c, OpGrantUniversalAccess c ∉ ops)
  (Ha : deref w a = Some ra) (Hb : deref w b = Some rb) (Hu : m_isUnique ra.2 = true) :
  canAccess cocoa (w_registry w) ra rb = bool_decide (a = b) /\ canAccess cocoa (w_registry w) rb ra = bool_decide (a = b) /\
  isThirdParty cocoa (w_registry w) ra rb = negb (bool_decide (a = b)) /\ isThirdParty cocoa (w_registry w) rb ra = negb (bool_decide (a = b)) /\
  (forall url, canRequest cocoa hasOneRef stack w ra url = Some (bool_decide (blob_owner w url = Some a))) /\
  canAccessCookies ra.2 = false /\ (forall top, canAccessDatabase cocoa (w_registry w) ra top = false).
Proof.
  pose proof (run_no_universal cocoa hasOneRef stack _ _ _ Hrun Hgrants) as Hno. pose proof (run_blobs cocoa hasOneRef stack _ _ _ Hrun) as Hblobs.
  specialize (Hno ltac:(constructor)). specialize (Hblobs ltac:(constructor)).
  apply deref_lookup in Ha as (oa & Hoa & ->), Hb as (ob & Hob & ->). cbn [snd] in Hu. unfold no_universal in Hno.
  assert (m_universalAccess oa = false) as Ua by (by eapply Forall_lookup_1 in Hno). assert (m_universalAccess ob = false) as Ub by (by eapply Forall_lookup_1 in Hno).
  assert (same_object (Some a, oa) (Some b, ob) = bool_decide (a = b)) as Hs by (apply Bool.eq_iff_eq_true; unfold same_object; cbn; by rewrite N.eqb_eq, bool_decide_eq_true).
  assert (same_object (Some b, ob) (Some a, oa) = bool_decide (a = b)) as Hs' by (apply Bool.eq_iff_eq_true; unfold same_object; cbn; rewrite N.eqb_eq, bool_decide_eq_true; naive_solver).
  unfold canAccess, isThirdParty. cbn [snd]. rewrite Ua, Ub, Hu, orb_true_r, Hs, Hs'. cbn [orb]. split_and!; try (by destruct (bool_decide _)).
  - intros url. unfold canRequest. cbn [snd]. rewrite Ua, (cached_origin_owner w url a oa Hblobs), Hu. by repeat case_bool_decide.
  - unfold canAccessCookies. cbn [snd]. by rewrite Hu.
  - intros top. unfold canAccessDatabase, canAccessStorage. cbn [snd]. by rewrite Hu.
Qed.

(** A page at [data:,] and one at [http://h/], and a blob of the first. *)
Definition example_url (s : list N) : URL := default emptyURL (init emptyURL (String8 s)).

Definition example_ops : list origin_op :=
  [OpCreate (example_url (lit "data:,")); OpCreate (example_url (lit "http://h/")); OpRegisterBlobURL (Some 0) (example_url (lit "blob:null/1"))].

Definition run_ops (ops : list origin_op) (w : World) : option World := foldM (fun w op => run_op true (fun _ => false) 0 op w) w ops.

Lemma run_ops_run ops w w' : run_ops ops w = Some w' -> run true (fun _ => false) 0 w ops w'.
Proof.
  revert w. induction ops as [|op ops IH]; intros w; [intros [= <-]; constructor|]. unfold run_ops. cbn [foldM].
  destruct (run_op _ _ _ op w) as [w1|] eqn:E; [|done]. run_option. intros Hops. by eapply run_cons, IH.
Qed.

Definition example_world : World := default World_new (run_ops example_ops World_new).
Definition example_origin (a : N) : OriginRef := default createUnique (deref example_world a).

Lemma example_run : run true (fun _ => false) 0 World_new example_ops example_world.
Proof. apply run_ops_run. by vm_compute. Qed.

Lemma example_no_grants c : OpGrantUniversalAccess c ∉ example_ops.
Proof. unfold example_ops. intros Hc. do 3 (apply elem_of_cons in Hc as [Hc|Hc]; [discriminate|]). by apply not_elem_of_nil in Hc. Qed.

Lemma unique_origins_isolated_witness :
  canAccess true (w_registry example_world) (example_origin 0) (example_origin 1) = false /\
  canRequest true (fun _ => false) 0 example_world (example_origin 0) (example_url (lit "blob:null/1")) = Some true /\
  canRequest true (fun _ => false) 0 example_world (example_origin 0) (example_url (lit "http://h/")) = Some false.
Proof.
  assert (deref example_world 0 = Some (example_origin 0)) as E0 by (by vm_compute). assert (deref example_world 1 = Some (example_origin 1)) as E1 by (by vm_compute).
  assert (m_isUnique (example_origin 0).2 = true) as Hu by (by vm_compute).
  pose proof (unique_origins_isolated ascii_icu low_byte_encodings true (fun _ => false) 0 example_ops example_world 0 1 (example_origin 0) (example_origin 1)
    example_run example_no_grants E0 E1 Hu) as (H1 & _ & _ & _ & H5 & _). rewrite H1, !H5. split_and!; by vm_compute.
Defined.
