(* ===== verification/Whitelists.v ===== *)
(** * White lists of origins: the theorems *)

From S2P Require Import Prelude ASCII WTFString StringOps StringBuilder URLCharacters URL URLLayout URLParse URLEncode URLInit URLReferences SchemeRegistry OriginRules DecodeEscapeSequences SecurityOrigin OriginCreation ResourceTypes SecurityPolicy OriginAccess.

#[local] Existing Instances ascii_icu low_byte_encodings.

(** C17: whenever a request is allowed by the white lists in a state that a run of
    the program reaches, the run has an operation that added an entry for it: the
    protocol and the domain of the operation allow the target, and it was added
    for an object that was not unique and whose text was that of the requesting
    origin; that object is still there, with the same scheme, host and port. *)
Theorem whitelist_provenance (I : ICU) (C : Encodings) (cocoa : bool) (hasOneRef : Buffer -> bool) (stack : N) (ops : list origin_op) (w : World)
  (active target : SecurityOrigin)
  (Hrun : run cocoa hasOneRef stack World_new ops w) (Htarget : String_isNull (m_protocol target) = false /\ String_isNull (m_host target) = false)
  (Hops : forall a protocol domain allow, OpAddWhitelistEntry a protocol domain allow ∈ ops ->
    ascii protocol /\ ascii domain /\ String_isNull protocol = false /\ String_isNull domain = false /\ String_length domain < 2 ^ 32)
  (Hallowed : isAccessWhiteListed hasOneRef w active target = Some true) :
  exists a protocol domain allow source source', OpAddWhitelistEntry a protocol domain allow ∈ ops /\
    entry_allows (folded protocol) (folded domain) allow (String_chars (m_protocol target)) (String_chars (m_host target)) /\
    w_heap w !!N a = Some source' /\ same_identity source source' /\ m_isUnique source = false /\
    String_chars <$> origin_toString hasOneRef source = String_chars <$> origin_toString hasOneRef active.
Proof.
  pose proof (run_entries cocoa hasOneRef stack [] _ _ _ Hrun ltac:(constructor)) as Hentries. cbn [app] in Hentries.
  unfold isAccessWhiteListed in Hallowed. destruct (origin_toString hasOneRef active) as [key|]; [|done]. cbn [mbind option_bind] in Hallowed.
  destruct (string_get key (w_accessMap w)) as [list|] eqn:Hg; [|done]. injection Hallowed as Hex. apply existsb_exists in Hex as (e & Hin%list_elem_of_In & Hm).
  pose proof (entries_get _ _ _ _ _ Hentries Hg) as Hl. rewrite Forall_forall in Hl.
  destruct (Hl e Hin) as (a & protocol & domain & allow & source & source' & Hop & -> & Ha & Hid & Hu & text & Ht & Hc).
  destruct (Hops _ _ _ _ Hop) as (Hp & Hd & Hpn & Hdn & Hlen), Htarget as [Htp Hth].
  exists a, protocol, domain, allow, source, source'. split_and!; [done| |done|done|done|].
  - by apply matchesOrigin_spec.
  - rewrite Ht. cbn. by rewrite Hc.
Qed.

Definition entry_ops : list origin_op :=
  [OpCreate (example_url (lit "http://h/")); OpCreate (example_url (lit "https://www.a.org/")); OpAddWhitelistEntry 0 (String8 (lit "HTTPS")) (String8 (lit "a.org")) true].

Definition entry_world : World := default World_new (run_ops entry_ops World_new).
Definition entry_origin (a : N) : OriginRef := default createUnique (deref entry_world a).

Lemma whitelist_provenance_witness : exists a protocol domain allow source source', OpAddWhitelistEntry a protocol domain allow ∈ entry_ops /\
    entry_allows (folded protocol) (folded domain) allow (lit "https") (lit "www.a.org") /\
    w_heap entry_world !!N a = Some source' /\ same_identity source source' /\ m_isUnique source = false /\
    String_chars <$> origin_toString (fun _ => false) source = String_chars <$> origin_toString (fun _ => false) (entry_origin 0).2.
Proof.
  apply (whitelist_provenance ascii_icu low_byte_encodings true (fun _ => false) 0 entry_ops entry_world (entry_origin 0).2 (entry_origin 1).2).
  - apply run_ops_run. by vm_compute.
  - split; by vm_compute.
  - intros a protocol domain allow Hin. unfold entry_ops in Hin. do 3 (apply elem_of_cons in Hin as [Hin|Hin]; [try discriminate|]); [|by apply not_elem_of_nil in Hin].
    injection Hin as -> -> -> ->. split_and!; [repeat constructor|repeat constructor|done|done|done].
  - by vm_compute.
Defined.

(** ** Adding and removing *)

Lemma equalIgnoringCase_refl (I : ICU) s : ascii s -> equalIgnoringCase s s = true.
Proof. intros Hs. by apply equalIgnoringCase_ascii. Qed.

Lemma ascii_lower (I : ICU) s : ascii s -> ascii (String_lower s).
Proof.
  intros Hs. unfold ascii. rewrite String_lower_ascii by done. apply Forall_fmap. eapply Forall_impl; [exact Hs|]. intros c Hc. cbn beta in *. unfold compose.
  assert (forallb (fun c => toASCIILower c <? 128) (for_range 0 128) = true) as Hall by (by vm_compute).
  rewrite forallb_forall in Hall. apply N.ltb_lt, Hall, list_elem_of_In, elem_of_for_range. lia.
Qed.

Lemma equal_entries_refl (I : ICU) protocol domain allow : ascii protocol -> ascii domain ->
  equal_entries (newEntry protocol domain allow) (newEntry protocol domain allow) = true.
Proof.
  intros Hp Hd. unfold equal_entries, newEntry. cbn [e_protocol e_host e_subdomainSettings]. rewrite !equalIgnoringCase_refl by (by apply ascii_lower). by rewrite bool_decide_true.
Qed.

Lemma removeFirst_snoc (I : ICU) list entry : Forall (fun e => equal_entries e entry = false) list -> equal_entries entry entry = true ->
  removeFirst entry (list ++ [entry]) = Some list.
Proof. intros Hl He. induction Hl as [|e list Hne _ IH]; cbn [app removeFirst]; [by rewrite He|]. by rewrite Hne, IH. Qed.

(** C20: adding an entry for an origin that is not unique adds exactly what the
    entry matches to what the white lists allow to the origins with the same text,
    and changes nothing for other origins; removing the entry again, when there
    was no equal one before, restores every answer; for a unique origin both do
    nothing. *)
Theorem whitelist_add_remove (I : ICU) (C : Encodings) (hasOneRef : Buffer -> bool) (w : World) (source : SecurityOrigin) (protocol domain : WTFString) (allow : bool)
  (key : WTFString) (Hkey : origin_toString hasOneRef source = Some key) (Hp : ascii protocol) (Hd : ascii domain)
  (Hnew : Forall (fun e => equal_entries e (newEntry protocol domain (subdomains allow)) = false) (default [] (string_get key (w_accessMap w)))) :
  exists w1 w2, addOriginAccessWhitelistEntry hasOneRef source protocol domain allow w = Some w1 /\
    removeOriginAccessWhitelistEntry hasOneRef source protocol domain allow w1 = Some w2 /\
    (forall active target text, origin_toString hasOneRef active = Some text ->
      isAccessWhiteListed hasOneRef w2 active target = isAccessWhiteListed hasOneRef w active target /\
      exists before, isAccessWhiteListed hasOneRef w active target = Some before /\
      isAccessWhiteListed hasOneRef w1 active target =
        Some (before || (negb (m_isUnique source) && equal_strings key text && matchesOrigin (newEntry protocol domain (subdomains allow)) target))).
Proof.
  unfold addOriginAccessWhitelistEntry, removeOriginAccessWhitelistEntry. destruct (m_isUnique source) eqn:Hu.
  { exists w, w. split_and!; [done|done|]. intros active target text Ht. split; [done|]. unfold isAccessWhiteListed. rewrite Ht. eexists. split; [done|]. cbn. by rewrite orb_false_r. }
  rewrite Hkey. run_option. set (entry := newEntry _ _ _) in *. set (list := default [] _) in *.
  assert (forall text, equal_strings key text = true -> string_get text (w_accessMap w) = string_get key (w_accessMap w)) as Hsame.
  { intros text E. clear list Hnew. induction (w_accessMap w) as [|[k l] map IH]; [done|]. rewrite !string_get_cons, IH.
    by rewrite (equal_strings_sym k text), (equal_strings_sym k key), (equal_strings_key _ _ k E). }
  assert (equal_entries entry entry = true) as Hrefl.
  { by apply equal_entries_refl. }
  set (added := string_set key (list ++ [entry]) (w_accessMap w)).
  eexists _, (with_accessMap (match list with [] => string_remove key added | _ => string_set key list added end) _). split; [done|].
  split.
  { cbn [with_accessMap w_accessMap]. unfold added at 1. rewrite string_get_set, equal_strings_refl, (removeFirst_snoc I list entry Hnew Hrefl). by destruct list. }
  intros active target text Ht. unfold isAccessWhiteListed. rewrite Ht. run_option. cbn [with_accessMap w_accessMap]. unfold added. split.
  - f_equal. destruct (equal_strings key text) eqn:E.
    + rewrite (Hsame text E). unfold list. destruct (string_get key (w_accessMap w)) as [[|e l]|]; cbv beta iota delta [default id];
        rewrite ?string_get_remove, ?string_get_set, E; done.
    + destruct list; rewrite ?string_get_remove, !string_get_set, E; done.
  - eexists. split; [done|]. rewrite string_get_set. f_equal. destruct (equal_strings key text) eqn:E; cbn [andb negb]; [|by rewrite orb_false_r].
    rewrite (Hsame text E), existsb_app. cbn [existsb]. rewrite orb_false_r. f_equal. unfold list. by destruct (string_get key (w_accessMap w)).
Qed.

Lemma whitelist_add_remove_witness : exists w1 w2,
    addOriginAccessWhitelistEntry (fun _ => false) (entry_origin 0).2 (String8 (lit "https")) (String8 (lit "b.org")) true entry_world = Some w1 /\
    removeOriginAccessWhitelistEntry (fun _ => false) (entry_origin 0).2 (String8 (lit "https")) (String8 (lit "b.org")) true w1 = Some w2 /\
    (forall active target text, origin_toString (fun _ => false) active = Some text ->
      isAccessWhiteListed (fun _ => false) w2 active target = isAccessWhiteListed (fun _ => false) entry_world active target /\
      exists before, isAccessWhiteListed (fun _ => false) entry_world active target = Some before /\
      isAccessWhiteListed (fun _ => false) w1 active target =
        Some (before || (true && equal_strings (String8 (lit "http://h")) text && matchesOrigin (newEntry (String8 (lit "https")) (String8 (lit "b.org")) AllowSubdomains) target))).
Proof.
  apply (whitelist_add_remove ascii_icu low_byte_encodings (fun _ => false) entry_world (entry_origin 0).2 (String8 (lit "https")) (String8 (lit "b.org")) true (String8 (lit "http://h"))).
  - by vm_compute.
  - repeat constructor.
  - repeat constructor.
  - vm_compute. repeat constructor.
Defined.
