(* ===== verification/OriginDivergences.v ===== *)
(** * Where the origins are not what they mean to be *)

From S2P Require Import Prelude ASCII WTFString StringOps StringBuilder URLCharacters URL URLLayout URLParse URLEncode URLInit URLReferences SchemeRegistry DecodeEscapeSequences SecurityOrigin OriginCreation ResourceTypes SecurityPolicy.

#[local] Existing Instances ascii_icu low_byte_encodings.

(** The program at its start, on Cocoa. *)
Definition origin_at (text : list N) : option OriginRef := createFromString true (fun _ => false) 0 World_new (String8 text).

Definition access_between (a b : list N) : option bool := a ← origin_at a; b ← origin_at b; Some (canAccess true Registry_new a b).

Definition reread (text : list N) : option (list N * bool) :=
  o ← origin_at text; s ← origin_toString (fun _ => false) o.2; o' ← createFromString true (fun _ => false) 0 World_new s;
  Some (String_chars s, canAccess true Registry_new o o').

(** Ports and identity: the port 0 and the ports above the largest one are not
    told from no port and from each other, so that different servers have one
    origin; the default port of [ws], written with a zero before it, is not that of
    the scheme, and the text of this origin is read back as another origin;
    two unique origins are equal as keys, and with the separation of files the
    equality of schemes, hosts and ports is not transitive. *)
Theorem origin_identity_divergences :
  access_between (lit "http://h:0/") (lit "http://h/") = Some true /\
  access_between (lit "http://h:65535/") (lit "http://h:99999/") = Some true /\
  access_between (lit "http://h:080/") (lit "http://h/") = Some true /\
  access_between (lit "ws://h:080/") (lit "ws://h/") = Some false /\
  reread (lit "ws://h:080/") = Some (lit "ws://h:80", false) /\
  (d ← origin_at (lit "data:,");
   Some (equal true Registry_new (Some 1, d.2) (Some 2, d.2), canAccess true Registry_new (Some 1, d.2) (Some 2, d.2))) = Some (true, false) /\
  (a ← origin_at (lit "file:///a"); b ← origin_at (lit "file:///b");
   let c := enforceFilePathSeparation b.2 in
   Some (isSameSchemeHostPort true Registry_new a.2 b.2, isSameSchemeHostPort true Registry_new b.2 c, isSameSchemeHostPort true Registry_new a.2 c))
  = Some (true, true, false).
Proof. by vm_compute. Qed.

(** Whether [file] is local, after a removal. *)
Definition file_local_after (scheme : list N) : option bool :=
  r ← removeURLSchemeRegisteredAsLocal true (String8 scheme) Registry_new; Some (shouldTreatURLSchemeAsLocal true (String8 (lit "file")) r).

(** Policy: [file] cannot be removed from the local schemes, unless it is
    spelled in capitals; the white list of a file origin with separated paths is
    that of all unique origins, so that a unique origin may display what it
    allows; and an origin that is made of its parts does not decode its host, as
    the one that is made of a database identifier does. *)
Theorem origin_policy_divergences :
  file_local_after (lit "file") = Some true /\ file_local_after (lit "FILE") = Some false /\
  (f ← origin_at (lit "file:///a"); d ← origin_at (lit "data:,"); u ← parse (lit "file:///b") None;
   w ← addOriginAccessWhitelistEntry (fun _ => false) (enforceFilePathSeparation f.2) (String8 (lit "file")) (String8 []) false World_new;
   before ← canDisplay true (fun _ => false) 0 World_new d u; after ← canDisplay true (fun _ => false) 0 w d u;
   Some (before, after)) = Some (false, true) /\
  (o ← create_parts true (fun _ => false) 0 World_new (String8 (lit "http")) (String8 (lit "%61b")) 81; Some (String_chars (m_host o.2))) = Some (lit "%61b") /\
  (o ← maybeCreateFromDatabaseIdentifier true (fun _ => false) 0 World_new (String8 (lit "http_%61b_81")); o ← o; Some (String_chars (m_host o.2))) = Some (lit "ab").
Proof. by vm_compute. Qed.
