(* ===== verification/ContentExtensionsBackend.v ===== *)
(** * [WebCore/contentextensions/ContentExtensionsBackend.cpp]: what the extensions do to a load

    The backend has the extensions of a page by their identifiers.  It asks each
    for the actions of a load, and changes the request, the loader and the style
    sheets of the document for them.  [None] is a crash, an access out of a buffer
    or, for the interpreter, fuel that ran out. *)

From stdpp Require Import sorting.
From S2P Require Import Prelude HashTable ASCII WTFString StringOps StringBuilder Rules DFABytecodeInterpreter URLCharacters URL URLParse URLEncode URLInit SchemeRegistry DecodeEscapeSequences SecurityOrigin OriginCreation ResourceTypes SecurityPolicy.

(** ** Data *)

(** WebCore/contentextensions/CompiledContentExtension.h:39-48 [CompiledContentExtension]: the buffers, with their lengths *)
Record CompiledContentExtension := mkCompiled {
  c_bytecode : list N;
  c_actions : list N
}.

(** What the extensions use of a style sheet: the text that was parsed for it. *)
Record StyleSheetContents := mkSheet {
  isUserStyleSheet : bool;
  sheetText : WTFString
}.

(** WebCore/contentextensions/ContentExtension.h:43-59 [ContentExtension] *)
Record ContentExtension := mkExtension {
  x_identifier : WTFString;
  x_compiledExtension : CompiledContentExtension;
  m_globalDisplayNoneStyleSheet : option StyleSheetContents;
  m_parsedGlobalDisplayNoneStyleSheet : bool
}.

(** WebCore/contentextensions/ContentExtensionsBackend.h:54-74 [ContentExtensionsBackend] *)
Definition ContentExtensionsBackend : Type := list (WTFString * ContentExtension).

(** WebCore/contentextensions/ContentExtensionStyleSheet.h:42-58 [ContentExtensionStyleSheet]: the selectors that were given to [addRule], and the IDs *)
Record ContentExtensionStyleSheet := mkExtensionSheet {
  m_addedRules : list WTFString;
  m_addedSelectorIDs : list N
}.

(** A user style sheet of a document: that of the selectors of an extension, or one that an extension parsed. *)
Inductive UserStyleSheet :=
| SelectorSheet (identifier : WTFString)
| NamedSheet (contents : StyleSheetContents).

(** The members of [DocumentStyleSheetCollection] that the extensions change. *)
Record StyleSheetCollection := mkCollection {
  m_contentExtensionSelectorSheets : list (WTFString * ContentExtensionStyleSheet);
  m_contentExtensionSheets : list (WTFString * StyleSheetContents);
  m_userStyleSheets : list UserStyleSheet
}.

(** The document of a frame, if there is one, and the URL of the document of its main frame. *)
Record Frame := mkFrame {
  f_document : option StyleSheetCollection;
  f_mainDocumentURL : option URL
}.

(** WebCore/loader/DocumentLoader.h:442-443 [DocumentLoader], the members that the extensions change, and the frame *)
Record DocumentLoader := mkLoader {
  m_frame : option Frame;
  m_pendingNamedContentExtensionStyleSheets : list (WTFString * StyleSheetContents);
  m_pendingContentExtensionDisplayNoneSelectors : list (WTFString * (WTFString * N))
}.

(** What the extensions use of a request. *)
Record ResourceRequest := mkRequest {
  r_url : URL;
  m_allowCookies : bool
}.

(** [ResourceRequest()] *)
Definition ResourceRequest_new : ResourceRequest := mkRequest emptyURL true.

Definition with_document (document : StyleSheetCollection) (loader : DocumentLoader) : DocumentLoader :=
  mkLoader ((fun frame => mkFrame (Some document) (f_mainDocumentURL frame)) <$> m_frame loader)
    (m_pendingNamedContentExtensionStyleSheets loader) (m_pendingContentExtensionDisplayNoneSelectors loader).

(** [HashMap::set], [get] and [remove]: a null key has no hash. *)
Definition map_set {V} (key : WTFString) (value : V) (map : list (WTFString * V)) : option (list (WTFString * V)) :=
  if String_isNull key then None else Some (string_set key value map).
Definition map_get {V} (key : WTFString) (map : list (WTFString * V)) : option (option V) :=
  if String_isNull key then None else Some (string_get key map).

(** ** The style sheets of a document *)

(** WebCore/contentextensions/ContentExtensionStyleSheet.cpp:45-54 [ContentExtensionStyleSheet::addDisplayNoneSelector] *)
Definition sheet_addDisplayNoneSelector (selector : WTFString) (selectorID : N) (sheet : ContentExtensionStyleSheet) : ContentExtensionStyleSheet :=
  if hset_contains selectorID (m_addedSelectorIDs sheet) then sheet
  else mkExtensionSheet (m_addedRules sheet ++ [selector]) (hset_add selectorID (m_addedSelectorIDs sheet)).

(** WebCore/dom/DocumentStyleSheetCollection.cpp:197-207 [DocumentStyleSheetCollection::addDisplayNoneSelector] *)
Definition addDisplayNoneSelector (identifier selector : WTFString) (selectorID : N) (c : StyleSheetCollection) : option StyleSheetCollection :=
  old ← map_get identifier (m_contentExtensionSelectorSheets c);
  let '(sheet, userStyleSheets) := match old with
    | Some sheet => (sheet, m_userStyleSheets c)
    | None => (mkExtensionSheet [] [], m_userStyleSheets c ++ [SelectorSheet identifier]) end in
  sheets ← map_set identifier (sheet_addDisplayNoneSelector selector selectorID sheet) (m_contentExtensionSelectorSheets c);
  Some (mkCollection sheets (m_contentExtensionSheets c) userStyleSheets).

(** WebCore/dom/DocumentStyleSheetCollection.cpp:209-220 [DocumentStyleSheetCollection::maybeAddContentExtensionSheet] *)
Definition maybeAddContentExtensionSheet (identifier : WTFString) (sheet : StyleSheetContents) (c : StyleSheetCollection) : option StyleSheetCollection :=
  old ← map_get identifier (m_contentExtensionSheets c);
  match old with
  | Some _ => Some c
  | None =>
      sheets ← map_set identifier sheet (m_contentExtensionSheets c);
      Some (mkCollection (m_contentExtensionSelectorSheets c) sheets (m_userStyleSheets c ++ [NamedSheet sheet]))
  end.

(** WebCore/loader/DocumentLoader.cpp:1555-1559 [DocumentLoader::addPendingContentExtensionSheet] *)
Definition addPendingContentExtensionSheet (identifier : WTFString) (sheet : StyleSheetContents) (loader : DocumentLoader) : option DocumentLoader :=
  sheets ← map_set identifier sheet (m_pendingNamedContentExtensionStyleSheets loader);
  Some (mkLoader (m_frame loader) sheets (m_pendingContentExtensionDisplayNoneSelectors loader)).

(** WebCore/loader/DocumentLoader.cpp:1561-1565 [DocumentLoader::addPendingContentExtensionDisplayNoneSelector] *)
Definition addPendingContentExtensionDisplayNoneSelector (identifier selector : WTFString) (selectorID : N) (loader : DocumentLoader) : option DocumentLoader :=
  selectors ← map_set identifier (selector, selectorID) (m_pendingContentExtensionDisplayNoneSelectors loader);
  Some (mkLoader (m_frame loader) (m_pendingNamedContentExtensionStyleSheets loader) selectors).

Section Commit.
Context `{HashOrder}.

(** WebCore/loader/DocumentLoader.cpp:830-840 [DocumentLoader::commitData], the part for the extensions *)
Definition commitContentExtensions (loader : DocumentLoader) : option DocumentLoader :=
  frame ← m_frame loader;
  document ← f_document frame;
  document ← foldM (fun c pending => maybeAddContentExtensionSheet pending.1 pending.2 c) document
    (hash_order (m_pendingNamedContentExtensionStyleSheets loader));
  document ← foldM (fun c pending => addDisplayNoneSelector pending.1 pending.2.1 pending.2.2 c) document
    (hash_order (m_pendingContentExtensionDisplayNoneSelectors loader));
  let loader := with_document document loader in
  Some (mkLoader (m_frame loader) [] []).
End Commit.

Section Backend.
Context `{HashOrder} `{ICU} `{Encodings} (cocoa : bool) (hasOneRef : Buffer -> bool) (stack : N) (fuel : nat).

(** ** The extensions *)

Definition interpreter_of (c : CompiledContentExtension) : Interpreter := mkInterpreter (c_bytecode c) (N.of_nat (length (c_bytecode c))).

(** [Action::deserialize(actions, actionsLength, static_cast<unsigned>(actionLocation))] *)
Definition deserialize_at (c : CompiledContentExtension) (actionLocation : N) : option Action :=
  deserialize (c_actions c) (N.of_nat (length (c_actions c))) (wrap32 actionLocation).

(** WebCore/contentextensions/CompiledContentExtension.cpp:39-55 [CompiledContentExtension::globalDisplayNoneSelectors] *)
Definition globalDisplayNoneSelectors (c : CompiledContentExtension) : option (list WTFString) :=
  actionLocations ← actionsFromDFARoot fuel (interpreter_of c);
  globalActions ← mapM (deserialize_at c) (hash_order actionLocations);
  Some (m_stringArgument <$> filter (fun action => m_type action = CSSDisplayNoneSelector) globalActions).

(** WebCore/contentextensions/ContentExtensionsBackend.cpp:194-198 [ContentExtensionsBackend::displayNoneCSSRule] *)
Definition displayNoneCSSRule : WTFString := String8 (lit "display:none !important;").

(** WebCore/contentextensions/ContentExtension.cpp:39-49 [ContentExtension::create], and the constructor *)
Definition ContentExtension_create (identifier : WTFString) (compiledExtension : CompiledContentExtension) : ContentExtension :=
  mkExtension identifier compiledExtension None false.

(** WebCore/contentextensions/ContentExtension.cpp:62-68 [ContentExtension::globalDisplayNoneStyleSheet], the loop *)
Definition selectors_css (selectors : list WTFString) : option StringBuilder :=
  foldM (fun css selector =>
    css ← append_String hasOneRef selector css;
    css ← append8 hasOneRef (lit "{") css;
    css ← append_String hasOneRef displayNoneCSSRule css;
    append8 hasOneRef (lit "}") css) StringBuilder_empty selectors.

(** WebCore/contentextensions/ContentExtension.cpp:51-76 [ContentExtension::globalDisplayNoneStyleSheet]; the parser of style sheets
    returns true on every text *)
Definition extension_globalDisplayNoneStyleSheet (x : ContentExtension) : option (ContentExtension * option StyleSheetContents) :=
  if m_parsedGlobalDisplayNoneStyleSheet x then Some (x, m_globalDisplayNoneStyleSheet x)
  else
    selectors ← globalDisplayNoneSelectors (x_compiledExtension x);
    if bool_decide (selectors = []) then Some (mkExtension (x_identifier x) (x_compiledExtension x) (m_globalDisplayNoneStyleSheet x) true, None)
    else
      css ← selectors_css selectors;
      text ← toString hasOneRef css;
      let sheet := Some (mkSheet true text.2) in
      Some (mkExtension (x_identifier x) (x_compiledExtension x) sheet true, sheet).

(** ** The backend *)

(** WebCore/contentextensions/ContentExtensionsBackend.cpp:64-67 [ContentExtensionsBackend::removeContentExtension] *)
Definition removeContentExtension (identifier : WTFString) (b : ContentExtensionsBackend) : option ContentExtensionsBackend :=
  if String_isNull identifier then None else Some (string_remove identifier b).

(** WebCore/contentextensions/ContentExtensionsBackend.cpp:49-62 [ContentExtensionsBackend::addContentExtension] *)
Definition addContentExtension (identifier : WTFString) (compiledContentExtension : option CompiledContentExtension) (b : ContentExtensionsBackend)
    : option ContentExtensionsBackend :=
  if String_isEmpty identifier then Some b
  else match compiledContentExtension with
       | None => removeContentExtension identifier b
       | Some c => map_set identifier (ContentExtension_create identifier c) b
       end.

(** WebCore/contentextensions/ContentExtensionsBackend.cpp:69-72 [ContentExtensionsBackend::removeAllContentExtensions] *)
Definition removeAllContentExtensions (b : ContentExtensionsBackend) : ContentExtensionsBackend := [].

(** WebCore/contentextensions/ContentExtensionsBackend.cpp:105-114 [ContentExtensionsBackend::actionsForResourceLoad], the loop over
    the locations from the last one: whether it saw the action that ignores the previous rules, and what it added *)
Fixpoint add_triggered (x : ContentExtension) (actionLocations : list N) : option (bool * list Action) :=
  match actionLocations with
  | [] => Some (false, [])
  | location :: actionLocations =>
      action ← deserialize_at (x_compiledExtension x) location;
      let action := setExtensionIdentifier (x_identifier x) action in
      if bool_decide (m_type action = IgnorePreviousRules) then Some (true, [])
      else r ← add_triggered x actionLocations; Some (r.1, action :: r.2)
  end.

(** WebCore/contentextensions/ContentExtensionsBackend.cpp:88-128 [ContentExtensionsBackend::actionsForResourceLoad], one turn of the loop
    over the extensions *)
Definition extension_actions (url : list N) (flags : N) (x : ContentExtension) : option (list Action) :=
  let compiledExtension := x_compiledExtension x in
  triggeredActions ← interpret fuel (interpreter_of compiledExtension) url flags;
  r ← add_triggered x (reverse (merge_sort N.le (wrap32 <$> hash_order triggeredActions)));
  let '(sawIgnorePreviousRules, added) := r in
  if (sawIgnorePreviousRules : bool) then Some added
  else
    universalActions ← actionsFromDFARoot fuel (interpreter_of compiledExtension);
    universal ← mapM (deserialize_at compiledExtension) (hash_order universalActions);
    let universal := setExtensionIdentifier (x_identifier x) <$> filter (fun action => m_type action <> CSSDisplayNoneSelector) universal in
    Some (added ++ universal ++ [setExtensionIdentifier (x_identifier x) (Action_string CSSDisplayNoneStyleSheet (x_identifier x) max32)]).

(** WebCore/contentextensions/ContentExtensionsBackend.cpp:74-135 [ContentExtensionsBackend::actionsForResourceLoad] *)
Definition actionsForResourceLoad (w : World) (resourceLoadInfo : ResourceLoadInfo) (b : ContentExtensionsBackend) : option (list Action) :=
  if protocolIsData (resourceURL resourceLoadInfo) then Some []
  else
    let urlCString := utf8_encode (String_chars (m_string (resourceURL resourceLoadInfo))) in
    flags ← getResourceFlags cocoa hasOneRef stack w resourceLoadInfo;
    actions ← mapM (extension_actions urlCString flags) (hash_order b.*2);
    Some (concat actions).

(** WebCore/contentextensions/ContentExtensionsBackend.cpp:137-141 [ContentExtensionsBackend::globalDisplayNoneStyleSheet] *)
Definition globalDisplayNoneStyleSheet (identifier : WTFString) (b : ContentExtensionsBackend) : option (ContentExtensionsBackend * option StyleSheetContents) :=
  contentExtension ← map_get identifier b;
  match contentExtension with
  | Some x => r ← extension_globalDisplayNoneStyleSheet x; Some (string_set identifier r.1 b, r.2)
  | None => Some (b, None)
  end.

(** The local variables and the objects that [processContentExtensionRulesForLoad] changes. *)
Record Process := mkProcess {
  p_backend : ContentExtensionsBackend;
  p_request : ResourceRequest;
  p_loader : DocumentLoader;
  p_willBlockLoad : bool
}.

Definition with_loader (loader : DocumentLoader) (p : Process) : Process := mkProcess (p_backend p) (p_request p) loader (p_willBlockLoad p).

(** [currentDocument->styleSheetCollection()], changed, if there is a document. *)
Definition change_document (f : StyleSheetCollection -> option StyleSheetCollection) (p : Process) : option Process :=
  match frame ← m_frame (p_loader p); f_document frame with
  | Some document => document ← f document; Some (with_loader (with_document document (p_loader p)) p)
  | None => Some p
  end.

(** WebCore/contentextensions/ContentExtensionsBackend.cpp:160-187 [ContentExtensionsBackend::processContentExtensionRulesForLoad], one turn
    of the loop over the actions *)
Definition process_action (resourceType : ResourceType) (p : Process) (action : Action) : option Process :=
  match m_type action with
  | BlockLoad => Some (mkProcess (p_backend p) (p_request p) (p_loader p) true)
  | BlockCookies => Some (mkProcess (p_backend p) (mkRequest (r_url (p_request p)) false) (p_loader p) (p_willBlockLoad p))
  | CSSDisplayNoneSelector =>
      if bool_decide (resourceType = Resource_Document) then
        loader ← addPendingContentExtensionDisplayNoneSelector (m_extensionIdentifier action) (m_stringArgument action) (m_actionID action) (p_loader p);
        Some (with_loader loader p)
      else change_document (addDisplayNoneSelector (m_extensionIdentifier action) (m_stringArgument action) (m_actionID action)) p
  | CSSDisplayNoneStyleSheet =>
      r ← globalDisplayNoneStyleSheet (m_stringArgument action) (p_backend p);
      let p := mkProcess r.1 (p_request p) (p_loader p) (p_willBlockLoad p) in
      match r.2 with
      | Some styleSheetContents =>
          if bool_decide (resourceType = Resource_Document) then
            loader ← addPendingContentExtensionSheet (m_stringArgument action) styleSheetContents (p_loader p);
            Some (with_loader loader p)
          else change_document (maybeAddContentExtensionSheet (m_stringArgument action) styleSheetContents) p
      | None => Some p
      end
  | IgnorePreviousRules | InvalidAction => None
  end.

(** WebCore/contentextensions/ContentExtensionsBackend.cpp:143-192 [ContentExtensionsBackend::processContentExtensionRulesForLoad] *)
Definition processContentExtensionRulesForLoad (w : World) (request : ResourceRequest) (resourceType : ResourceType) (initiatingDocumentLoader : DocumentLoader)
    (b : ContentExtensionsBackend) : option (ContentExtensionsBackend * ResourceRequest * DocumentLoader) :=
  let mainDocumentURL := default emptyURL (frame ← m_frame initiatingDocumentLoader; f_mainDocumentURL frame) in
  actions ← actionsForResourceLoad w (mkResourceLoadInfo (r_url request) mainDocumentURL resourceType) b;
  p ← foldM (process_action resourceType) (mkProcess b request initiatingDocumentLoader false) actions;
  Some (p_backend p, if p_willBlockLoad p then ResourceRequest_new else p_request p, p_loader p).

(** ** The controller of a page *)

(** WebCore/page/UserContentController.cpp:183-189 [UserContentController::addUserContentExtension] *)
Definition addUserContentExtension (name : WTFString) (contentExtension : option CompiledContentExtension) (m_contentExtensionBackend : option ContentExtensionsBackend)
    : option (option ContentExtensionsBackend) :=
  Some <$> addContentExtension name contentExtension (default [] m_contentExtensionBackend).

(** WebCore/page/UserContentController.cpp:191-197 [UserContentController::removeUserContentExtension] *)
Definition removeUserContentExtension (name : WTFString) (m_contentExtensionBackend : option ContentExtensionsBackend)
    : option (option ContentExtensionsBackend) :=
  match m_contentExtensionBackend with Some b => Some <$> removeContentExtension name b | None => Some None end.

(** WebCore/page/UserContentController.cpp:199-205 [UserContentController::removeAllUserContentExtensions] *)
Definition removeAllUserContentExtensions (m_contentExtensionBackend : option ContentExtensionsBackend) : option ContentExtensionsBackend :=
  removeAllContentExtensions <$> m_contentExtensionBackend.

(** WebCore/page/UserContentController.cpp:207-213 [UserContentController::processContentExtensionRulesForLoad] *)
Definition controller_processContentExtensionRulesForLoad (w : World) (request : ResourceRequest) (resourceType : ResourceType) (initiatingDocumentLoader : DocumentLoader)
    (m_contentExtensionBackend : option ContentExtensionsBackend) : option (option ContentExtensionsBackend * ResourceRequest * DocumentLoader) :=
  match m_contentExtensionBackend with
  | None => Some (None, request, initiatingDocumentLoader)
  | Some b => r ← processContentExtensionRulesForLoad w request resourceType initiatingDocumentLoader b; Some (Some r.1.1, r.1.2, r.2)
  end.

(** WebCore/page/UserContentController.cpp:215-221 [UserContentController::actionsForResourceLoad] *)
Definition controller_actionsForResourceLoad (w : World) (resourceLoadInfo : ResourceLoadInfo) (m_contentExtensionBackend : option ContentExtensionsBackend)
    : option (list Action) :=
  match m_contentExtensionBackend with None => Some [] | Some b => actionsForResourceLoad w resourceLoadInfo b end.
End Backend.
