(* ===== verification/BackendCorrect.v ===== *)
(** * What the extensions do to a load

    For an extension that was compiled from rules, the actions of a load are those
    of the rules that match it and that no later rule which matches it ignores.
    The proofs stand on what [compileRuleList_correct] says of the bytecode and
    [serializeActions_roundtrip] of the actions. *)

From stdpp Require Import sorting.
From S2P Require Import Prelude ASCII HashTable DFABytecodeInterpreter NFA Term TermGraph CombinedURLFilters URLFilterParser PatternSemantics RegexParser WTFString StringBuilder StringBuilderCorrect Rules SerializeActions SerializeCorrect ResourceTypes RuleParser RuleParserCorrect.
From S2P Require Import CompileRuleList FiltersCorrect CompileCorrect URLCharacters StringOps URL URLParse URLEncode URLInit DecodeEscapeSequences SchemeRegistry SecurityOrigin OriginCreation SecurityPolicy ContentExtensionsBackend.

(** ** Sorting *)

Lemma StronglySorted_reverse {A} (R : A -> A -> Prop) (l : list A) : StronglySorted R l -> StronglySorted (flip R) (reverse l).
Proof.
  induction 1 as [|x l Hl IH Hx]; [constructor|]. rewrite reverse_cons. apply StronglySorted_app_2; [|exact IH|constructor; [constructor|constructor]].
  intros y z Hy Hz%list_elem_of_singleton. rewrite elem_of_reverse in Hy. subst z. rewrite Forall_forall in Hx. exact (Hx y Hy).
Qed.

(** The locations from the last one. *)
Lemma descending (locations : list N) : let l := reverse (merge_sort N.le locations) in
  StronglySorted (flip N.le) l /\ forall x, x ∈ l <-> x ∈ locations.
Proof.
  cbn zeta. split.
  - apply StronglySorted_reverse, StronglySorted_merge_sort; [intros x y z; apply N.le_trans|intros x y; lia].
  - intros x. rewrite elem_of_reverse. pose proof (merge_sort_Permutation N.le locations) as Hp. by rewrite Hp.
Qed.

(** ** The actions of one extension *)

Section Triggered.
Context (x : ContentExtension).
Notation c := (x_compiledExtension x).

Definition type_at (location : N) : ActionType := match deserialize_at c location with Some action => m_type action | None => InvalidAction end.

(** The loop over the locations from the last one adds those behind the last one that ignores. *)
Lemma add_triggered_spec l : StronglySorted (flip N.le) l -> Forall (fun location => is_Some (deserialize_at c location)) l ->
  exists saw acts, add_triggered x l = Some (saw, acts) /\ (saw = true <-> exists location, location ∈ l /\ type_at location = IgnorePreviousRules) /\
    forall a, a ∈ acts <-> exists location b, location ∈ l /\ (forall location', location' ∈ l -> type_at location' = IgnorePreviousRules -> location' < location) /\
      deserialize_at c location = Some b /\ a = setExtensionIdentifier (x_identifier x) b.
Proof.
  induction 1 as [|location l Hl IH Hle]; intros Hd.
  { exists false, []. split; [done|]. setoid_rewrite elem_of_nil. naive_solver. }
  apply Forall_cons in Hd as [[b Hb] Hd]. destruct (IH Hd) as (saw & acts & E & Hsaw & Hacts). cbn [add_triggered]. rewrite Hb. cbn [mbind option_bind].
  assert (type_at location = m_type b) as Ht by (unfold type_at; by rewrite Hb). rewrite Forall_forall in Hle.
  change (m_type (setExtensionIdentifier (x_identifier x) b)) with (m_type b). destruct (decide (m_type b = IgnorePreviousRules)) as [Hi|Hi].
  - rewrite bool_decide_true by done. exists true, []. split; [done|]. split.
    + split; [|done]. intros _. exists location. split; [by apply elem_of_cons; left|congruence].
    + intros a. rewrite elem_of_nil. split; [done|]. intros (loc & b' & Hin & Hlast & _). specialize (Hlast location). rewrite elem_of_cons in Hlast.
      specialize (Hlast (or_introl eq_refl)). rewrite Ht in Hlast. specialize (Hlast Hi). apply elem_of_cons in Hin as [->|Hin]; [lia|]. specialize (Hle loc Hin). cbn in Hle. lia.
  - rewrite bool_decide_false by done. rewrite E. cbn [mbind option_bind]. exists saw, (setExtensionIdentifier (x_identifier x) b :: acts). split; [done|]. split.
    + rewrite Hsaw. setoid_rewrite elem_of_cons. split; [naive_solver|]. intros (loc & [->|Hin] & Hty); [congruence|by exists loc].
    + intros a. rewrite elem_of_cons, Hacts. setoid_rewrite elem_of_cons. split.
      * intros [->|(loc & b' & Hin & Hlast & Hb' & ->)].
        -- exists location, b. split_and!; [by left| |done|done]. intros loc' [->|Hin] Hty; [congruence|]. specialize (Hle loc' Hin). cbn in Hle.
           assert (loc' <> location) by (intros ->; congruence). lia.
        -- exists loc, b'. split_and!; [by right| |done|done]. intros loc' [->|Hin'] Hty; [congruence|by apply Hlast].
      * intros (loc & b' & [->|Hin] & Hlast & Hb' & ->); [left; congruence|right]. exists loc, b'. split_and!; [done| |done|done]. intros loc' Hin' Hty. apply Hlast; auto.
Qed.
End Triggered.

(** The rule matches the URL and the load. *)
Definition rule_on (rules : list ContentExtensionRule) (filters : list regex) (url : list N) (loadFlags : N) (i : nat) (rule : ContentExtensionRule) : Prop :=
  rules !! i = Some rule /\ exists r, filters !! i = Some r /\ rule_matches rule r url /\ load_matches loadFlags rule.

(** The rule applies: it matches, and no rule behind it that matches ignores the previous ones. *)
Definition applies (rules : list ContentExtensionRule) (filters : list regex) (url : list N) (loadFlags : N) (i : nat) (rule : ContentExtensionRule) : Prop :=
  rule_on rules filters url loadFlags i rule /\
  forall j rule', (i < j)%nat -> rule_on rules filters url loadFlags j rule' -> is_ignore rule' = false.

(** No rule that ignores the previous ones matches everything for every load. *)
Definition no_ignored_everything (rules : list ContentExtensionRule) (filters : list regex) : Prop :=
  forall i rule r, rules !! i = Some rule -> filters !! i = Some r -> is_ignore rule = true -> flags (m_trigger rule) = 0 -> ~ matches_everything rule r.

(** The serialized actions of rules: what [serializeActions_roundtrip] says of them. *)
Record actions_of (rules : list ContentExtensionRule) (locations actions : list N) : Prop := {
  ao_length : length locations = length rules;
  ao_small : Forall (fun l => l < 2 ^ 32) locations;
  ao_mono : forall i i' a b, (i <= i')%nat -> locations !! i = Some a -> locations !! i' = Some b -> a <= b;
  ao_at : forall i rule location, rules !! i = Some rule -> locations !! i = Some location ->
    exists action, deserialize actions (N.of_nat (length actions)) location = Some action /\
      m_type action = m_type (m_action rule) /\ m_actionID action = location
}.

(** The extension was compiled from the rules: its buffers are the ones that [compileRuleList] wrote. *)
Record compiled_from (rules : list ContentExtensionRule) (filters : list regex) (locations : list N) (x : ContentExtension) : Prop := {
  cf_actions : actions_of rules locations (c_actions (x_compiledExtension x));
  cf_bytecode : bytecode_correct rules filters locations (c_bytecode (x_compiledExtension x));
  cf_code : c_bytecode (x_compiledExtension x) <> [];
  cf_ignore : no_ignored_everything rules filters
}.

Section Extension.
Context `{HashOrder} (x : ContentExtension) (rules : list ContentExtensionRule) (filters : list regex) (locations : list N).
Context (Hx : compiled_from rules filters locations x).
Notation c := (x_compiledExtension x).
Notation rule_on := (rule_on rules filters).
Notation applies := (applies rules filters).

Lemma location_action i rule location : rules !! i = Some rule -> locations !! i = Some location ->
  exists action, deserialize_at c location = Some action /\ m_type action = m_type (m_action rule) /\ m_actionID action = location /\
    type_at x location = m_type (m_action rule) /\ wrap32 location = location.
Proof.
  intros Hr Hl. destruct (ao_at _ _ _ (cf_actions _ _ _ _ Hx) i rule location Hr Hl) as (action & Hd & Ht & Hid).
  pose proof (ao_small _ _ _ (cf_actions _ _ _ _ Hx)) as Hs. eapply Forall_lookup_1 in Hs; [|exact Hl].
  assert (wrap32 location = location) as Hw by (by apply wrap32_id). exists action. unfold type_at, deserialize_at. rewrite Hw, Hd. done.
Qed.

Lemma rule_location i rule : rules !! i = Some rule -> exists location, locations !! i = Some location.
Proof. intros Hr. apply lookup_lt_is_Some. rewrite (ao_length _ _ _ (cf_actions _ _ _ _ Hx)). by eapply lookup_lt_Some. Qed.

Lemma is_ignore_type rule : is_ignore rule = true <-> m_type (m_action rule) = IgnorePreviousRules.
Proof. unfold is_ignore. by rewrite bool_decide_eq_true. Qed.

(** Rules of different types have locations in the order of the rules. *)
Lemma locations_order i j rule rule' a b : rules !! i = Some rule -> rules !! j = Some rule' -> locations !! i = Some a -> locations !! j = Some b ->
  m_type (m_action rule) <> m_type (m_action rule') -> (i < j)%nat <-> a < b.
Proof.
  intros Hi Hj Ha Hb Hne. destruct (location_action i rule a Hi Ha) as (_ & _ & _ & _ & T1 & _), (location_action j rule' b Hj Hb) as (_ & _ & _ & _ & T2 & _).
  assert (a <> b) by congruence. assert (i <> j) by congruence. pose proof (ao_mono _ _ _ (cf_actions _ _ _ _ Hx)) as Hmono. split.
  - intros Hlt. specialize (Hmono i j a b ltac:(lia) Ha Hb). lia.
  - intros Hlt. destruct (decide (i < j)%nat) as [|Hn]; [done|]. specialize (Hmono j i b a ltac:(lia) Hb Ha). lia.
Qed.

(** The action that is added for a location. *)
Definition added (location : N) (a : Action) : Prop := exists b, deserialize_at c location = Some b /\ a = setExtensionIdentifier (x_identifier x) b.

Definition sheet_action : Action := setExtensionIdentifier (x_identifier x) (Action_string CSSDisplayNoneStyleSheet (x_identifier x) max32).

(** What the actions of a load are, by the locations of the triggered and of the universal actions. *)
Lemma extension_actions_result url loadFlags : Forall input_char url -> N.of_nat (length url) + 2 < 2 ^ 32 ->
  exists acts roots saw result fuel0,
    (forall fuel, (fuel0 <= fuel)%nat -> extension_actions fuel url loadFlags x = Some result) /\
    (forall location, location ∈ acts ++ roots <-> rule_triggers rules filters locations url loadFlags location) /\
    (forall location, location ∈ roots -> root_rule rules filters locations location) /\
    (saw = true <-> exists location, location ∈ acts /\ type_at x location = IgnorePreviousRules) /\
    (forall a, a ∈ result <->
      (exists location, location ∈ acts /\ (forall location', location' ∈ acts -> type_at x location' = IgnorePreviousRules -> location' < location) /\ added location a) \/
      (saw = false /\ (a = sheet_action \/ exists location, location ∈ roots /\ type_at x location <> CSSDisplayNoneSelector /\ added location a))).
Proof.
  intros Hurl Hlength. destruct (cf_bytecode _ _ _ _ Hx url loadFlags Hurl Hlength) as (acts & roots & fuel0 & Hrun & _ & Hin & Hroots).
  assert (forall location, location ∈ acts ++ roots -> is_Some (deserialize_at c location) /\ wrap32 location = location) as Hok.
  { intros location (i & rule & r & Hi & _ & Hl & _)%Hin. destruct (location_action i rule location Hi Hl) as (action & -> & _ & _ & _ & Hw). by split. }
  assert (wrap32 <$> hash_order acts = hash_order acts) as Hwrap.
  { rewrite <- (list_fmap_id (hash_order acts)) at 2. apply list_fmap_ext. intros i location Hi. apply Hok, elem_of_app. left.
    rewrite <- (elem_of_hash_order _ acts). by eapply list_elem_of_lookup_2. }
  destruct (descending (hash_order acts)) as [Hsorted Helem]. cbn zeta in Hsorted, Helem.
  assert (forall y, y ∈ reverse (merge_sort N.le (hash_order acts)) <-> y ∈ acts) as Helem' by (intros y; by rewrite Helem, elem_of_hash_order). clear Helem. rename Helem' into Helem.
  destruct (add_triggered_spec x _ Hsorted) as (saw & added' & Eadd & Hsaw & Hadded).
  { apply Forall_forall. intros location Hl%Helem. apply Hok, elem_of_app. by left. }
  assert (exists universal, mapM (deserialize_at c) (hash_order roots) = Some universal /\
    forall b, b ∈ universal <-> exists location, location ∈ roots /\ deserialize_at c location = Some b) as (universal & Eu & Hu).
  { assert (Forall (fun location => is_Some (deserialize_at c location)) (hash_order roots)) as Hall.
    { apply Forall_forall. intros location Hl. apply Hok, elem_of_app. right. by rewrite <- (elem_of_hash_order _ roots). }
    apply mapM_is_Some in Hall as [universal Eu]. exists universal. split; [done|]. apply mapM_Some in Eu. intros b. split.
    - intros Hb. apply list_elem_of_lookup in Hb as [k Hk]. eapply Forall2_lookup_r in Eu as (location & Hl & Hd); [|exact Hk].
      exists location. split; [|done]. rewrite <- (elem_of_hash_order _ roots). by eapply list_elem_of_lookup_2.
    - intros (location & Hl & Hd). rewrite <- (elem_of_hash_order _ roots) in Hl. apply list_elem_of_lookup in Hl as [k Hk].
      eapply Forall2_lookup_l in Eu as (b' & Hb' & Hd'); [|exact Hk]. rewrite Hd in Hd'. injection Hd' as <-. by eapply list_elem_of_lookup_2. }
  eexists acts, roots, saw, _, fuel0. split.
  { intros fuel Hfuel. destruct (Hrun fuel Hfuel) as [Hi Hr]. specialize (Hr (cf_code _ _ _ _ Hx)). unfold extension_actions, interpreter_of.
    rewrite Hi. cbn [mbind option_bind]. rewrite Hwrap, Eadd. cbn [mbind option_bind]. rewrite Hr. cbn [mbind option_bind]. rewrite Eu. cbn [mbind option_bind].
    instantiate (1 := if saw then added' else added' ++ (setExtensionIdentifier (x_identifier x) <$> filter (fun action => m_type action <> CSSDisplayNoneSelector) universal) ++ [sheet_action]).
    by destruct saw. }
  split; [done|]. split; [done|]. split.
  { rewrite Hsaw. by setoid_rewrite Helem. }
  intros a. assert (a ∈ added' <-> exists location, location ∈ acts /\
    (forall location', location' ∈ acts -> type_at x location' = IgnorePreviousRules -> location' < location) /\ added location a) as Ha.
  { rewrite Hadded. unfold added. setoid_rewrite Helem. naive_solver. }
  rewrite <- Ha. destruct saw; [naive_solver|]. rewrite !elem_of_app, list_elem_of_singleton, list_elem_of_fmap. setoid_rewrite list_elem_of_filter. setoid_rewrite Hu.
  split.
  - intros [?|[(b & -> & Hne & location & Hl & Hd)| ->]]; [by left|right; split; [done|right]|by right; auto].
    exists location. unfold type_at, added. rewrite Hd. eauto.
  - intros [?|[_ [->|(location & Hl & Hne & b & Hd & ->)]]]; [by left|by right; right|right; left]. exists b. unfold type_at in Hne. rewrite Hd in Hne. eauto.
Qed.

(** No location that ignores the previous rules is universal. *)
Lemma root_not_ignore location : root_rule rules filters locations location -> type_at x location <> IgnorePreviousRules.
Proof.
  intros (k & rule & r & Hk & Hr & Hl & Hf & Hm & _) Ht. destruct (location_action k rule location Hk Hl) as (_ & _ & _ & _ & T & _).
  apply (cf_ignore _ _ _ _ Hx k rule r Hk Hr); [|done|done]. apply is_ignore_type. congruence.
Qed.

(** The outcome of a load, by [extension_actions_result]. *)
Section Outcome.
Context (url : list N) (loadFlags : N) (acts roots : list N) (saw : bool) (result : list Action) (Hurl : Forall input_char url).
Context (Hin : forall location, location ∈ acts ++ roots <-> rule_triggers rules filters locations url loadFlags location).
Context (Hroots : forall location, location ∈ roots -> root_rule rules filters locations location).
Context (Hsaw : saw = true <-> exists location, location ∈ acts /\ type_at x location = IgnorePreviousRules).
Context (Hresult : forall a, a ∈ result <->
  (exists location, location ∈ acts /\ (forall location', location' ∈ acts -> type_at x location' = IgnorePreviousRules -> location' < location) /\ added location a) \/
  (saw = false /\ (a = sheet_action \/ exists location, location ∈ roots /\ type_at x location <> CSSDisplayNoneSelector /\ added location a))).

(** A rule that ignores and matches is triggered, before the locations of the rules behind it. *)
Lemma ignoring_location i j rule rule' location : rule_on url loadFlags j rule' -> is_ignore rule' = true ->
  rules !! i = Some rule -> locations !! i = Some location -> is_ignore rule = false ->
  exists location', locations !! j = Some location' /\ location' ∈ acts /\ type_at x location' = IgnorePreviousRules /\
    ((i < j)%nat <-> location < location') /\ ((j < i)%nat <-> location' < location).
Proof.
  intros (Hj & r' & Hr' & Hm' & Hf') Hi' Hi Hl Hni. destruct (rule_location j rule' Hj) as [location' Hl'].
  destruct (location_action j rule' location' Hj Hl') as (_ & _ & _ & _ & T & _). apply is_ignore_type in Hi'. assert (type_at x location' = IgnorePreviousRules) as T' by congruence.
  assert (m_type (m_action rule) <> IgnorePreviousRules) as Hne by (intros E; apply is_ignore_type in E; congruence).
  exists location'. split_and!; [done| |done|apply (locations_order i j rule rule'); [done..|congruence]|apply (locations_order j i rule' rule); [done..|congruence]].
  assert (location' ∈ acts ++ roots) as Hin' by (apply Hin; by exists j, rule', r').
  apply elem_of_app in Hin' as [?|Hroot]; [done|]. by destruct (root_not_ignore location' (Hroots _ Hroot)).
Qed.

(** A triggered location behind which nothing ignores is that of a rule that applies. *)
Lemma last_location_applies i rule r location a : rules !! i = Some rule -> filters !! i = Some r -> locations !! i = Some location ->
  rule_matches rule r url -> load_matches loadFlags rule -> is_ignore rule = false ->
  (forall location', location' ∈ acts -> type_at x location' = IgnorePreviousRules -> location' < location) -> added location a ->
  m_extensionIdentifier a = x_identifier x /\
  exists i rule, applies url loadFlags i rule /\ m_type a = m_type (m_action rule) /\ is_ignore rule = false /\ locations !! i = Some (m_actionID a).
Proof.
  intros Hi Hr Hl Hm Hf Hni Hlast (b & Hd & ->). split; [done|]. exists i, rule.
  destruct (location_action i rule location Hi Hl) as (b' & Hd' & Ht & Hid & _ & _). rewrite Hd in Hd'. injection Hd' as <-.
  split_and!; [|done|done|by rewrite <- Hid in Hl]. split; [by split; [done|exists r]|]. intros j rule' Hlt Hon.
  destruct (is_ignore rule') eqn:Hi'; [|done]. exfalso. destruct (ignoring_location i j rule rule' location Hon Hi' Hi Hl Hni) as (location' & _ & Hacts & T & Hlt' & _).
  specialize (Hlast location' Hacts T). apply Hlt' in Hlt. lia.
Qed.

Lemma result_sound a : a ∈ result -> m_extensionIdentifier a = x_identifier x /\
  (a = sheet_action \/ exists i rule, applies url loadFlags i rule /\ m_type a = m_type (m_action rule) /\ is_ignore rule = false /\ locations !! i = Some (m_actionID a)).
Proof.
  intros Ha. apply Hresult in Ha. destruct Ha as [(location & Hl & Hlast & Hadd)|[Hno [->|(location & Hl & Hne & Hadd)]]]; [|by split; [|left]|].
  - assert (location ∈ acts ++ roots) as Hl' by (apply elem_of_app; by left). apply Hin in Hl' as (i & rule & r & Hi & Hr & Hloc & Hm & Hf).
    assert (is_ignore rule = false) as Hni.
    { destruct (is_ignore rule) eqn:E; [|done]. apply is_ignore_type in E. destruct (location_action i rule location Hi Hloc) as (_ & _ & _ & _ & T & _).
      specialize (Hlast location Hl). rewrite T in Hlast. specialize (Hlast E). lia. }
    destruct (last_location_applies i rule r location a Hi Hr Hloc Hm Hf Hni Hlast Hadd) as [? ?]. split; [done|by right].
  - pose proof (Hroots _ Hl) as Hroot. pose proof (root_not_ignore _ Hroot) as Hni. destruct Hroot as (i & rule & r & Hi & Hr & Hloc & Hf & Hm & _).
    destruct (location_action i rule location Hi Hloc) as (_ & _ & _ & _ & T & _).
    assert (is_ignore rule = false) as Hni' by (destruct (is_ignore rule) eqn:E; [apply is_ignore_type in E; congruence|done]).
    destruct (last_location_applies i rule r location a Hi Hr Hloc (Hm url Hurl) (or_introl Hf) Hni') as [? ?]; [|done|split; [done|by right]].
    intros location' Hacts Ht. assert (saw = true) as Hs by (apply Hsaw; by exists location'). congruence.
Qed.

(** Every location that ignores is before that of a rule that applies. *)
Lemma ignoring_before i rule location location' : applies url loadFlags i rule -> is_ignore rule = false -> locations !! i = Some location ->
  location' ∈ acts -> type_at x location' = IgnorePreviousRules ->
  exists j rule', rules !! j = Some rule' /\ is_ignore rule' = true /\ locations !! j = Some location' /\ location' < location.
Proof.
  intros [(Hi & r & Hr & Hm & Hf) Hlater] Hni Hl Hacts T'. assert (location' ∈ acts ++ roots) as Hl' by (apply elem_of_app; by left).
  apply Hin in Hl' as (j & rule' & r' & Hj & Hr' & Hloc' & Hm' & Hf').
  destruct (location_action j rule' location' Hj Hloc') as (_ & _ & _ & _ & T2 & _). assert (is_ignore rule' = true) as Hi' by (apply is_ignore_type; congruence).
  assert (rule_on url loadFlags j rule') as Hon by (split; [done|by exists r']).
  destruct (ignoring_location i j rule rule' location Hon Hi' Hi Hl Hni) as (l2 & Hl2 & _ & _ & _ & Hlt). rewrite Hloc' in Hl2. injection Hl2 as <-.
  exists j, rule'. split_and!; [done|done|done|]. apply Hlt. destruct (decide (i < j)%nat) as [Hij|Hij]; [specialize (Hlater j rule' Hij Hon); congruence|].
  assert (i <> j) by congruence. lia.
Qed.

(** When a universal rule has the location of a rule that applies, nothing ignores it. *)
Lemma universal_not_ignored i rule location : applies url loadFlags i rule -> is_ignore rule = false -> locations !! i = Some location -> location ∈ roots -> saw = false.
Proof.
  intros Happlies Hni Hl Hroot. destruct saw; [|done]. exfalso. destruct (proj1 Hsaw eq_refl) as (location' & Ha & Ht').
  destruct (ignoring_before i rule location location' Happlies Hni Hl Ha Ht') as (j & rule' & Hj & Hi' & Hlj & Hlt).
  destruct (Hroots _ Hroot) as (k & rule2 & r2 & Hk & _ & Hlk & _ & _ & Hfirst). destruct Happlies as [[Hi _] _].
  destruct (location_action k rule2 location Hk Hlk) as (_ & _ & _ & _ & T2 & _), (location_action i rule location Hi Hl) as (_ & _ & _ & _ & T & _). apply is_ignore_type in Hi'.
  assert (m_type (m_action rule) <> IgnorePreviousRules) as Hne by (intros E; apply is_ignore_type in E; congruence).
  assert (j < k)%nat as Hjk by (apply (locations_order j k rule' rule2 location' location); [done..|congruence|done]).
  specialize (Hfirst j rule' Hjk Hj). apply is_ignore_type in Hi'. congruence.
Qed.

Lemma result_complete i rule location : applies url loadFlags i rule -> is_ignore rule = false -> locations !! i = Some location ->
  (exists a, a ∈ result /\ m_type a = m_type (m_action rule) /\ m_actionID a = location) \/
  (m_type (m_action rule) = CSSDisplayNoneSelector /\ root_rule rules filters locations location /\ sheet_action ∈ result).
Proof.
  intros Happlies Hni Hl. pose proof Happlies as [(Hi & r & Hr & Hm & Hf) _]. destruct (location_action i rule location Hi Hl) as (b & Hd & Ht & Hid & T & _).
  assert (location ∈ acts ++ roots) as Hboth by (apply Hin; by exists i, rule, r). set (a := setExtensionIdentifier (x_identifier x) b).
  assert (added location a) as Hadd by (by exists b). apply elem_of_app in Hboth as [Hacts|Hroot].
  - left. exists a. split; [|done]. apply Hresult. left. exists location. split_and!; [done| |done]. intros location' Ha Ht'.
    by destruct (ignoring_before i rule location location' Happlies Hni Hl Ha Ht') as (_ & _ & _ & _ & _ & ?).
  - pose proof (universal_not_ignored i rule location Happlies Hni Hl Hroot) as Hs.
    destruct (decide (m_type (m_action rule) = CSSDisplayNoneSelector)) as [Hcss|Hcss].
    + right. split_and!; [done|by apply Hroots|]. apply Hresult. right. split; [done|by left].
    + left. exists a. split; [|done]. apply Hresult. right. split; [done|right]. exists location. split_and!; [done|congruence|done].
Qed.
End Outcome.

(** The actions are those of the rules that apply; the selectors of the universal rules are in the style sheet instead. *)
Lemma extension_actions_applies url loadFlags : Forall input_char url -> N.of_nat (length url) + 2 < 2 ^ 32 ->
  exists result fuel0, (forall fuel, (fuel0 <= fuel)%nat -> extension_actions fuel url loadFlags x = Some result) /\
    (forall a, a ∈ result -> m_extensionIdentifier a = x_identifier x /\
      (a = sheet_action \/ exists i rule, applies url loadFlags i rule /\ m_type a = m_type (m_action rule) /\ is_ignore rule = false /\
        locations !! i = Some (m_actionID a))) /\
    (forall i rule location, applies url loadFlags i rule -> is_ignore rule = false -> locations !! i = Some location ->
      (exists a, a ∈ result /\ m_type a = m_type (m_action rule) /\ m_actionID a = location) \/
      (m_type (m_action rule) = CSSDisplayNoneSelector /\ root_rule rules filters locations location /\ sheet_action ∈ result)).
Proof.
  intros Hurl Hlength. destruct (extension_actions_result url loadFlags Hurl Hlength) as (acts & roots & saw & result & fuel0 & Hrun & Hin & Hroots & Hsaw & Hresult).
  exists result, fuel0. split; [done|]. split.
  - intros a Ha. by eapply result_sound.
  - intros i rule location Happlies Hni Hl. by eapply result_complete.
Qed.
End Extension.

(** ** Compiled extensions *)

Section Compiled.
Context `{HashOrder} `{Yarr} `{JSC} (hasOneRef : Buffer -> bool).

(** Some rule matches some URL. *)
Definition satisfiable (rules : list ContentExtensionRule) (filters : list regex) : Prop :=
  exists i rule r url, rules !! i = Some rule /\ filters !! i = Some r /\ Forall input_char url /\ N.of_nat (length url) + 2 < 2 ^ 32 /\ rule_matches rule r url.

Lemma bytecode_not_empty rules filters locations bytecode : length locations = length rules -> satisfiable rules filters ->
  bytecode_correct rules filters locations bytecode -> bytecode <> [].
Proof.
  intros Hlen (i & rule & r & url & Hi & Hr & Hu & Hl & Hm) Hcorrect ->.
  destruct (Hcorrect url (flags (m_trigger rule)) Hu Hl) as (acts & roots & fuel0 & Hrun & Hroots & Hin & _). rewrite (Hroots eq_refl), app_nil_r in Hin.
  destruct (Hrun (S fuel0) ltac:(lia)) as [Ha _]. cbn in Ha. injection Ha as <-.
  destruct (lookup_lt_is_Some_2 locations i) as [location Hloc]; [rewrite Hlen; by eapply lookup_lt_Some|].
  assert (location ∈ []) as Hnil; [|by apply elem_of_nil in Hnil]. apply Hin. exists i, rule, r. split_and!; [done..|]. unfold load_matches.
  destruct (decide (flags (m_trigger rule) = 0)); [by left|right]. by rewrite N.land_diag.
Qed.

(** The buffers that [compileRuleList] writes are those of an extension of the rules. *)
Lemma compileRuleList_extension fuel text rules filters identifier actions bytecode :
  (forall v, string_ok (toWTFString v).1) -> parseRuleList text = inr rules -> rules_size rules <= builder_limit -> Forall2 filter_of rules filters ->
  (forall locations actions s, serializeActions hasOneRef rules = Some (locations, actions) ->
    compile_rules locations 0 rules (mkCompileState [] newCombinedURLFilters false) = Some (inr s) -> within_limits fuel s) ->
  satisfiable rules filters -> no_ignored_everything rules filters ->
  compileRuleList hasOneRef fuel text = Some (Returned None [writeActions actions; writeBytecode bytecode]) ->
  exists locations, compiled_from rules filters locations (ContentExtension_create identifier (mkCompiled bytecode actions)).
Proof.
  intros Hstrings Hparse Hsize Hfilters Hlimits Hsat Hignore Hcompile.
  destruct (compileRuleList_result hasOneRef fuel text rules filters Hstrings Hparse Hsize Hfilters Hlimits) as (locations & actions' & Hser & Hresult).
  destruct Hresult as [[_ E]|(bytecode' & E & Hcorrect)]; rewrite Hcompile in E; [done|]. injection E as <- <-.
  destruct (parsed_rules Hstrings text rules Hparse) as [_ Hrules].
  assert (Forall rule_ok rules) as Hok by (eapply Forall_impl; [exact Hrules|apply parsed_rule_ok]).
  destruct (serializeActions_result hasOneRef rules Hok Hsize) as (locations' & actions' & Hser' & Hlen & Hasize & Hmono & Hat). rewrite Hser in Hser'. injection Hser' as <- <-.
  exists locations. split; cbn [ContentExtension_create x_compiledExtension c_actions c_bytecode]; [|done|by eapply bytecode_not_empty|done].
  assert (forall i rule location, rules !! i = Some rule -> locations !! i = Some location ->
    exists action, deserialize actions (N.of_nat (length actions)) location = Some action /\ m_type action = m_type (m_action rule) /\ m_actionID action = location) as Hat'.
  { intros i rule location Hi Hl. destruct (Hat i rule location Hi Hl) as (action & ? & ? & ? & _). by exists action. }
  split; [done| |done|done]. apply Forall_lookup. intros i l Hl. destruct (lookup_lt_is_Some_2 rules i) as [rule Hr]; [rewrite <- Hlen; by eapply lookup_lt_Some|].
  destruct (Hat' i rule l Hr Hl) as (action & Hd & _). unfold deserialize in Hd. apply bind_Some in Hd as (byte & Hb%lookupN_lt & _).
  unfold builder_limit in Hsize. change (2 ^ 32) with 4294967296. lia.
Qed.
End Compiled.

(** ** The actions, one after the other *)

Section Processing.
Context `{HashOrder} (hasOneRef : Buffer -> bool) (fuel : nat).
Notation process_action := (process_action hasOneRef fuel).
Notation sheet_of := (extension_globalDisplayNoneStyleSheet hasOneRef fuel).

(** The style sheet of every extension can be made. *)
Definition sheets_ok (b : ContentExtensionsBackend) : Prop := Forall (fun e => is_Some (sheet_of e.2)) b.

(** What a load needs of an action. *)
Definition action_fine (a : Action) : Prop :=
  String_isNull (m_extensionIdentifier a) = false /\
  match m_type a with
  | CSSDisplayNoneStyleSheet => String_isNull (m_stringArgument a) = false
  | IgnorePreviousRules | InvalidAction => False
  | _ => True
  end.

Lemma sheet_again x r : sheet_of x = Some r -> is_Some (sheet_of r.1).
Proof.
  unfold extension_globalDisplayNoneStyleSheet. destruct (m_parsedGlobalDisplayNoneStyleSheet x) eqn:E; [intros [= <-]; cbn [fst]; by rewrite E|].
  destruct (globalDisplayNoneSelectors _ _) as [selectors|]; [|done]. cbn [mbind option_bind]. case_bool_decide; [by intros [= <-]|].
  destruct (selectors_css _ _) as [css|]; [|done]. cbn [mbind option_bind]. destruct (toString _ _); [|done]. by intros [= <-].
Qed.

Lemma sheet_step identifier b : String_isNull identifier = false -> sheets_ok b ->
  exists b' sheet, globalDisplayNoneStyleSheet hasOneRef fuel identifier b = Some (b', sheet) /\ sheets_ok b'.
Proof.
  intros Hn Hb. unfold globalDisplayNoneStyleSheet, map_get. rewrite Hn. cbn [mbind option_bind]. destruct (string_get identifier b) as [x|] eqn:Hg; [|by exists b, None].
  pose proof Hg as Hg'. eapply Forall_string_get in Hg' as (k & Hk & Hsome); [|exact Hb]. destruct Hsome as [r Hr]. cbn [snd] in Hr. rewrite Hr. cbn [mbind option_bind]. eexists _, _. split; [done|].
  pose proof (sheet_again x r Hr) as Ha. by apply Forall_string_set.
Qed.

Lemma map_set_Some {V} key (value : V) map : String_isNull key = false -> map_set key value map = Some (string_set key value map).
Proof. unfold map_set. by intros ->. Qed.

Lemma change_document_Some f p : (forall c, is_Some (f c)) -> exists loader, change_document f p = Some (with_loader loader p).
Proof.
  intros Hf. unfold change_document. destruct (frame ← m_frame (p_loader p); f_document frame) as [document|]; [|by exists (p_loader p); destruct p].
  destruct (Hf document) as [d ->]. by eexists.
Qed.

Lemma process_action_fine resourceType p a : action_fine a -> sheets_ok (p_backend p) ->
  exists p', process_action resourceType p a = Some p' /\ sheets_ok (p_backend p') /\
    p_willBlockLoad p' = p_willBlockLoad p || bool_decide (m_type a = BlockLoad) /\ r_url (p_request p') = r_url (p_request p) /\
    m_allowCookies (p_request p') = m_allowCookies (p_request p) && negb (bool_decide (m_type a = BlockCookies)).
Proof.
  intros [Hid Hty] Hb. unfold ContentExtensionsBackend.process_action. destruct (m_type a); try done.
  - eexists. split; [done|]. cbn. rewrite orb_true_r, andb_true_r. done.
  - eexists. split; [done|]. cbn. rewrite orb_false_r, andb_false_r. done.
  - case_bool_decide.
    + unfold addPendingContentExtensionDisplayNoneSelector. rewrite map_set_Some by done. eexists. split; [done|]. cbn. by rewrite orb_false_r, andb_true_r.
    + destruct (change_document_Some (addDisplayNoneSelector (m_extensionIdentifier a) (m_stringArgument a) (m_actionID a)) p) as [loader ->].
      { intros c. unfold addDisplayNoneSelector, map_get. rewrite Hid. cbn [mbind option_bind]. destruct (match string_get _ _ with Some _ => _ | None => _ end). rewrite map_set_Some by done. by eexists. }
      eexists. split; [done|]. cbn. by rewrite orb_false_r, andb_true_r.
  - destruct (sheet_step (m_stringArgument a) (p_backend p) Hty Hb) as (b' & sheet & -> & Hb'). cbn [mbind option_bind snd fst]. destruct sheet as [sheet|].
    2: { eexists. split; [done|]. cbn. by rewrite orb_false_r, andb_true_r. }
    case_bool_decide.
    + unfold addPendingContentExtensionSheet. rewrite map_set_Some by done. eexists. split; [done|]. cbn. by rewrite orb_false_r, andb_true_r.
    + destruct (change_document_Some (maybeAddContentExtensionSheet (m_stringArgument a) sheet) (mkProcess b' (p_request p) (p_loader p) (p_willBlockLoad p))) as [loader ->].
      { intros c. unfold maybeAddContentExtensionSheet, map_get. rewrite Hty. cbn [mbind option_bind]. destruct (string_get _ _); [by eexists|]. rewrite map_set_Some by done. by eexists. }
      eexists. split; [done|]. cbn. by rewrite orb_false_r, andb_true_r.
Qed.

Lemma process_actions_fine resourceType actions p : Forall action_fine actions -> sheets_ok (p_backend p) ->
  exists p', foldM (process_action resourceType) p actions = Some p' /\
    p_willBlockLoad p' = p_willBlockLoad p || existsb (fun a => bool_decide (m_type a = BlockLoad)) actions /\ r_url (p_request p') = r_url (p_request p) /\
    m_allowCookies (p_request p') = m_allowCookies (p_request p) && negb (existsb (fun a => bool_decide (m_type a = BlockCookies)) actions).
Proof.
  intros Hactions. revert p. induction Hactions as [|a actions Ha _ IH]; intros p Hb; cbn [foldM existsb].
  - exists p. by rewrite orb_false_r, andb_true_r.
  - destruct (process_action_fine resourceType p a Ha Hb) as (p1 & -> & Hb1 & B1 & U1 & C1). cbn [mbind option_bind].
    destruct (IH p1 Hb1) as (p2 & -> & B2 & U2 & C2). exists p2. rewrite B2, B1, U2, U1, C2, C1, negb_orb, orb_assoc, andb_assoc. done.
Qed.
End Processing.

(** ** All extensions *)

(** A rule list, with its filters and the locations of its actions. *)
Record RuleList := mkRuleList {
  rl_rules : list ContentExtensionRule;
  rl_filters : list regex;
  rl_locations : list N
}.

(** The extension of the identifier was compiled from the rule list. *)
Definition extension_of (e : WTFString * ContentExtension) (s : RuleList) : Prop :=
  compiled_from (rl_rules s) (rl_filters s) (rl_locations s) e.2 /\ String_isNull (x_identifier e.2) = false.

(** A rule of one of the lists applies to the load. *)
Definition some_applies (lists : list RuleList) (url : list N) (loadFlags : N) (type : ActionType) : Prop :=
  exists s i rule, s ∈ lists /\ applies (rl_rules s) (rl_filters s) url loadFlags i rule /\ m_type (m_action rule) = type.

Section Loads.
Context `{HashOrder} `{ICU} `{Encodings} (cocoa : bool) (hasOneRef : Buffer -> bool) (stack : N).

Lemma mapM_fuel {A B} (f : nat -> A -> option B) (P : A -> B -> Prop) l :
  Forall (fun a => exists b fuel0, (forall fuel, (fuel0 <= fuel)%nat -> f fuel a = Some b) /\ P a b) l ->
  exists bs fuel0, (forall fuel, (fuel0 <= fuel)%nat -> mapM (f fuel) l = Some bs) /\ Forall2 P l bs.
Proof.
  induction 1 as [|a l (b & f1 & Hb & HP) _ (bs & f2 & Hbs & HPs)]; [exists [], 0%nat; by split; [|constructor]|].
  exists (b :: bs), (f1 + f2)%nat. split; [|by constructor]. intros fuel Hfuel. cbn. rewrite Hb by lia. cbn [mbind option_bind]. by rewrite Hbs by lia.
Qed.

Lemma deserialize_type actions len location a : deserialize actions len location = Some a -> m_type a <> CSSDisplayNoneStyleSheet /\ m_type a <> InvalidAction.
Proof.
  unfold deserialize. destruct (actions !!N location) as [byte|]; [|done]. cbn [mbind option_bind]. destruct (byte_action byte) as [type|]; [|done]. cbn [mbind option_bind].
  destruct type; try done; [by intros [= <-]|by intros [= <-]| |by intros [= <-]].
  unfold deserialize_selector. intros Hd. repeat (apply bind_Some in Hd as (? & _ & Hd)). by injection Hd as <-.
Qed.

(** The decision of one extension. *)
Definition decides (url : list N) (loadFlags : N) (s : RuleList) (result : list Action) : Prop :=
  forall type, type = BlockLoad \/ type = BlockCookies -> (exists a, a ∈ result /\ m_type a = type) <->
    exists i rule, applies (rl_rules s) (rl_filters s) url loadFlags i rule /\ m_type (m_action rule) = type.

Lemma extension_decides e s url loadFlags : extension_of e s -> Forall input_char url -> N.of_nat (length url) + 2 < 2 ^ 32 ->
  exists result fuel0, (forall fuel, (fuel0 <= fuel)%nat -> extension_actions fuel url loadFlags e.2 = Some result) /\
    Forall action_fine result /\ decides url loadFlags s result.
Proof.
  intros [Hx Hid] Hurl Hlength. destruct (extension_actions_applies e.2 _ _ _ Hx url loadFlags Hurl Hlength) as (result & fuel0 & Hrun & Hsound & Hcomplete).
  exists result, fuel0. split; [done|]. split.
  - apply Forall_forall. intros a Ha. destruct (Hsound a Ha) as [Hext [->|(i & rule & [[Hi _] _] & Ht & Hni & Hl)]]; (split; [by rewrite Hext|]); [done|].
    destruct (location_action _ _ _ _ Hx i rule _ Hi Hl) as (action & Hd & Ht' & _). apply deserialize_type in Hd as [Hnot1 Hnot2]. rewrite Ht' in Hnot1, Hnot2.
    unfold is_ignore in Hni. apply bool_decide_eq_false in Hni. rewrite Ht.
    by destruct (m_type (m_action rule)).
  - intros type Htype. split.
    + intros (a & Ha & <-). destruct (Hsound a Ha) as [_ [->|(i & rule & Happ & Ht & _)]]; [by destruct Htype|]. by exists i, rule.
    + intros (i & rule & Happ & Ht). pose proof Happ as [[Hi _] _]. destruct (rule_location _ _ _ _ Hx i rule Hi) as [location Hl].
      assert (is_ignore rule = false) as Hni by (unfold is_ignore; apply bool_decide_eq_false; destruct Htype; congruence).
      destruct (Hcomplete i rule location Happ Hni Hl) as [(a & Ha & Hta & _)|(Hcss & _)]; [|destruct Htype; congruence]. exists a. split; [done|congruence].
Qed.

(** The actions of a load, of all extensions. *)
Lemma load_actions w info loadFlags (b : ContentExtensionsBackend) lists : Forall2 extension_of b lists ->
  protocolIsData (resourceURL info) = false -> getResourceFlags cocoa hasOneRef stack w info = Some loadFlags ->
  let url := String_chars (m_string (resourceURL info)) in
  Forall input_char url -> N.of_nat (length url) + 2 < 2 ^ 32 ->
  exists actions fuel0, (forall fuel, (fuel0 <= fuel)%nat -> actionsForResourceLoad cocoa hasOneRef stack fuel w info b = Some actions) /\
    Forall action_fine actions /\
    forall type, type = BlockLoad \/ type = BlockCookies -> (exists a, a ∈ actions /\ m_type a = type) <-> some_applies lists url loadFlags type.
Proof.
  intros Hb Hdata Hflags url Hurl Hlength.
  destruct (mapM_fuel (fun fuel x => extension_actions fuel url loadFlags x)
    (fun x result => Forall action_fine result /\ forall e s, e.2 = x -> extension_of e s -> decides url loadFlags s result) (hash_order b.*2))
    as (results & fuel0 & Hrun & Hall).
  { apply Forall_forall. intros x Hx. rewrite elem_of_hash_order in Hx. apply list_elem_of_fmap in Hx as (e & -> & He).
    apply list_elem_of_lookup in He as [k Hk]. destruct (Forall2_lookup_l _ _ _ _ _ Hb Hk) as (s & _ & Hs).
    destruct (extension_decides e s url loadFlags Hs Hurl Hlength) as (result & f & Hr & Hfine & _). exists result, f. split; [done|]. split; [done|].
    intros e' s' He' Hs'. destruct (extension_decides e' s' url loadFlags Hs' Hurl Hlength) as (result' & f' & Hr' & _ & Hd).
    rewrite He' in Hr'. specialize (Hr (f + f')%nat ltac:(lia)). rewrite Hr' in Hr by lia. by injection Hr as <-. }
  exists (concat results), fuel0. split; [|split].
  - intros fuel Hfuel. unfold actionsForResourceLoad. rewrite Hdata, Hflags. cbn [mbind option_bind]. rewrite utf8_encode_ascii by (eapply Forall_impl; [exact Hurl|by intros c' []]).
    by rewrite Hrun.
  - apply Forall_concat. clear Hrun. induction Hall as [|? ? ? ? [? _] _ IH]; by constructor.
  - intros type Htype. unfold some_applies. split.
    + intros (a & Ha & Ht). apply list_elem_of_In, in_concat in Ha as (result & Hres%list_elem_of_In & Ha%list_elem_of_In).
      apply list_elem_of_lookup in Hres as [k Hk]. destruct (Forall2_lookup_r _ _ _ _ _ Hall Hk) as (x & Hx & _ & Hd).
      apply list_elem_of_lookup_2 in Hx. rewrite elem_of_hash_order in Hx. apply list_elem_of_fmap in Hx as (e & -> & He). apply list_elem_of_lookup in He as [k' Hk'].
      destruct (Forall2_lookup_l _ _ _ _ _ Hb Hk') as (s & Hs & Hes). destruct (proj1 (Hd e s eq_refl Hes type Htype)) as (i & rule & ? & ?); [by exists a|].
      exists s, i, rule. split_and!; [by eapply list_elem_of_lookup_2|done|done].
    + intros (s & i & rule & Hs & Happ & Ht). apply list_elem_of_lookup in Hs as [k Hk]. destruct (Forall2_lookup_r _ _ _ _ _ Hb Hk) as (e & He & Hes).
      assert (e.2 ∈ hash_order b.*2) as Hx by (rewrite elem_of_hash_order; apply list_elem_of_fmap; exists e; split; [done|by eapply list_elem_of_lookup_2]).
      apply list_elem_of_lookup in Hx as [k' Hk']. destruct (Forall2_lookup_l _ _ _ _ _ Hall Hk') as (result & Hres & _ & Hd).
      destruct (proj2 (Hd e s eq_refl Hes type Htype)) as (a & Ha & Hta); [by exists i, rule|]. exists a. split; [|done].
      apply list_elem_of_In, in_concat. exists result. split; apply list_elem_of_In; [by eapply list_elem_of_lookup_2|done].
Qed.
End Loads.
