(* ===== verification/BackendDecisions.v ===== *)
(** * The decisions of content extensions: the theorems

    From the text of a rule list to the request of a load, the style sheet of the
    universal selectors, and what goes wrong. *)

From S2P Require Import Prelude HashTable ASCII WTFString StringOps StringBuilder StringBuilderCorrect Rules SerializeActions SerializeCorrect RuleParser RuleParserCorrect DFABytecodeInterpreter NFA Term TermGraph URLFilterParser PatternSemantics RegexParser CombinedURLFilters CompileRuleList FiltersCorrect CompileCorrect.
From S2P Require Import URLCharacters URL URLLayout URLParse URLEncode URLInit URLReferences SchemeRegistry OriginRules DecodeEscapeSequences SecurityOrigin OriginCreation ResourceTypes SecurityPolicy ContentExtensionsBackend BackendCorrect.

(** ** The style sheet *)

(** The rules of selectors. *)
Definition css_text (selectors : list WTFString) : list N := concat ((fun s => String_chars s ++ lit "{display:none !important;}") <$> selectors).

Section Sheets.
Context `{HashOrder} (hasOneRef : Buffer -> bool).

Lemma selectors_css_repr selectors css text : repr css text -> Forall string_ok selectors -> size (text ++ css_text selectors) <= builder_limit ->
  exists css', foldM (fun css selector =>
    css ← append_String hasOneRef selector css;
    css ← append8 hasOneRef (lit "{") css;
    css ← append_String hasOneRef displayNoneCSSRule css;
    append8 hasOneRef (lit "}") css) css selectors = Some css' /\ repr css' (text ++ css_text selectors).
Proof.
  intros Hr Hs. revert css text Hr. induction Hs as [|selector selectors Hok _ IH]; intros css text Hr; cbn [foldM].
  - intros _. exists css. unfold css_text. cbn. by rewrite app_nil_r.
  - unfold css_text. cbn [fmap list_fmap concat]. fold (css_text selectors). rewrite app_assoc. intros Hsize.
    assert (size ((text ++ String_chars selector) ++ lit "{display:none !important;}") <= builder_limit) as Hsize1.
    { rewrite <- app_assoc. rewrite size_app in Hsize. lia. }
    rewrite size_app in Hsize1. change (size (lit "{display:none !important;}")) with 26 in Hsize1. rewrite size_app in Hsize1.
    destruct (append_String_repr hasOneRef css text selector Hr Hok) as (s1 & -> & R1); [rewrite String_length_chars; unfold size in *; lia|]. cbn [mbind option_bind].
    destruct (append8_repr hasOneRef s1 _ (lit "{") R1) as (s2 & -> & R2); [repeat constructor|rewrite length_app; change (length (lit "{")) with 1%nat; unfold size in *; lia|]. cbn [mbind option_bind].
    destruct (append_String_repr hasOneRef s2 _ displayNoneCSSRule R2) as (s3 & -> & R3).
    { repeat constructor. }
    { change (String_length displayNoneCSSRule) with 24. rewrite !length_app. change (length (lit "{")) with 1%nat. unfold size in *. lia. }
    cbn [mbind option_bind].
    destruct (append8_repr hasOneRef s3 _ (lit "}") R3) as (s4 & -> & R4).
    { repeat constructor. }
    { rewrite !length_app. change (length (lit "{")) with 1%nat. change (length (lit "}")) with 1%nat. change (length (String_chars displayNoneCSSRule)) with 24%nat. unfold size in *. lia. }
    cbn [mbind option_bind]. rewrite <- !app_assoc in R4. change (lit "{" ++ String_chars displayNoneCSSRule ++ lit "}") with (lit "{display:none !important;}") in R4. rewrite app_assoc in R4.
    rewrite <- app_assoc in R4. rewrite <- app_assoc in Hsize. destruct (IH s4 _ R4) as (s5 & E & R5); [by rewrite <- app_assoc, <- app_assoc in *|].
    exists s5. split; [exact E|]. by rewrite <- !app_assoc in *.
Qed.

Lemma sheet_result fuel x selectors : m_parsedGlobalDisplayNoneStyleSheet x = false -> m_globalDisplayNoneStyleSheet x = None ->
  globalDisplayNoneSelectors fuel (x_compiledExtension x) = Some selectors -> Forall string_ok selectors -> size (css_text selectors) <= builder_limit ->
  exists x' sheet, extension_globalDisplayNoneStyleSheet hasOneRef fuel x = Some (x', sheet) /\
    match selectors with
    | [] => sheet = None
    | _ => exists text, sheet = Some (mkSheet true text) /\ String_chars text = css_text selectors
    end /\ x_identifier x' = x_identifier x /\ x_compiledExtension x' = x_compiledExtension x /\
    forall fuel', extension_globalDisplayNoneStyleSheet hasOneRef fuel' x' = Some (x', sheet).
Proof.
  intros Hnew Hnone Hsel Hok Hsize. unfold extension_globalDisplayNoneStyleSheet. rewrite Hnew, Hsel. cbn [mbind option_bind]. case_bool_decide as Hnil.
  - subst selectors. rewrite Hnone. by eexists _, _.
  - destruct (selectors_css_repr selectors StringBuilder_empty [] repr_empty Hok Hsize) as (css & E & Hr). unfold selectors_css. rewrite E. cbn [mbind option_bind].
    destruct (toString_repr hasOneRef css _ Hr) as (css' & impl & -> & _ & Hc & _). cbn [mbind option_bind]. eexists _, _. split; [done|].
    split; [|done]. destruct selectors; [done|]. eexists. split; [done|]. exact Hc.
Qed.

(** The selectors of a compiled extension can be read. *)
Lemma selectors_returned x rules filters locations : compiled_from rules filters locations x ->
  exists selectors fuel0, forall fuel, (fuel0 <= fuel)%nat -> globalDisplayNoneSelectors fuel (x_compiledExtension x) = Some selectors.
Proof.
  intros Hx. destruct (cf_bytecode _ _ _ _ Hx [] 0) as (acts & roots & fuel0 & Hrun & _ & _ & Hroots); [constructor|cbn; lia|].
  assert (Forall (fun location => is_Some (deserialize_at (x_compiledExtension x) location)) (hash_order roots)) as Hall.
  { apply Forall_forall. intros location Hl. rewrite elem_of_hash_order in Hl. destruct (Hroots location Hl) as (k & rule & r & Hk & _ & Hloc & _).
    destruct (location_action x rules filters locations Hx k rule location Hk Hloc) as (action & -> & _). done. }
  apply mapM_is_Some in Hall as [actions E]. eexists _, fuel0. intros fuel Hfuel. destruct (Hrun fuel Hfuel) as [_ Hr]. specialize (Hr (cf_code _ _ _ _ Hx)).
  unfold globalDisplayNoneSelectors, interpreter_of. rewrite Hr. cbn [mbind option_bind]. rewrite E. done.
Qed.

(** The strings of the selectors are in range, and their style sheet is not too large. *)
Definition selectors_fit (x : ContentExtension) : Prop := forall fuel0 selectors,
  (forall fuel, (fuel0 <= fuel)%nat -> globalDisplayNoneSelectors fuel (x_compiledExtension x) = Some selectors) ->
  Forall string_ok selectors /\ size (css_text selectors) <= builder_limit.

Lemma no_selectors_fit x rules filters locations : compiled_from rules filters locations x ->
  Forall (fun rule => m_type (m_action rule) <> CSSDisplayNoneSelector) rules -> selectors_fit x.
Proof.
  intros Hx Hrules fuel1 selectors Hs. destruct (cf_bytecode _ _ _ _ Hx [] 0) as (acts & roots & fuel2 & Hrun & _ & _ & Hroots); [constructor|cbn; lia|].
  specialize (Hs (fuel1 + fuel2)%nat ltac:(lia)). destruct (Hrun (fuel1 + fuel2)%nat ltac:(lia)) as [_ Hr]. specialize (Hr (cf_code _ _ _ _ Hx)).
  unfold globalDisplayNoneSelectors, interpreter_of in Hs. rewrite Hr in Hs. cbn [mbind option_bind] in Hs. apply bind_Some in Hs as (actions & E & Hs). injection Hs as <-.
  assert (filter (fun action => m_type action = CSSDisplayNoneSelector) actions = []) as ->; [|by split; [constructor|vm_compute]].
  apply mapM_Some in E. assert (Forall (fun action => m_type action <> CSSDisplayNoneSelector) actions) as Hno.
  { apply Forall_lookup. intros k action Hk. destruct (Forall2_lookup_r _ _ _ _ _ E Hk) as (location & Hl & Hd). apply list_elem_of_lookup_2 in Hl. rewrite elem_of_hash_order in Hl.
    destruct (Hroots location Hl) as (i & rule & r & Hi & _ & Hloc & _). destruct (location_action x rules filters locations Hx i rule location Hi Hloc) as (action' & Hd' & Ht & _).
    rewrite Hd in Hd'. injection Hd' as <-. rewrite Ht. by eapply Forall_lookup_1 in Hrules. }
  clear -Hno. induction Hno as [|a actions Ha _ IH]; [done|]. by rewrite filter_cons_False.
Qed.

Lemma new_sheet_ok identifier c rules filters locations : compiled_from rules filters locations (ContentExtension_create identifier c) ->
  selectors_fit (ContentExtension_create identifier c) ->
  exists fuel0, forall fuel, (fuel0 <= fuel)%nat -> is_Some (extension_globalDisplayNoneStyleSheet hasOneRef fuel (ContentExtension_create identifier c)).
Proof.
  intros Hx Hfit. destruct (selectors_returned _ _ _ _ Hx) as (selectors & fuel0 & Hs). exists fuel0. intros fuel Hfuel.
  destruct (Hfit fuel0 selectors Hs) as [Hok Hsize]. specialize (Hs fuel Hfuel). destruct (sheet_result fuel (ContentExtension_create identifier c) selectors eq_refl eq_refl Hs Hok Hsize) as (x' & sheet & -> & _). by eexists.
Qed.
End Sheets.

(** ** The request *)

Section Requests.
Context `{HashOrder} `{ICU} `{Encodings} (cocoa : bool) (hasOneRef : Buffer -> bool) (stack : N).

(** The load of a request for a loader. *)
Definition load_info (request : ResourceRequest) (resourceType : ResourceType) (loader : DocumentLoader) : ResourceLoadInfo :=
  mkResourceLoadInfo (r_url request) (default emptyURL (frame ← m_frame loader; f_mainDocumentURL frame)) resourceType.

(** What is left of a request, by the rules that apply. *)
Definition request_decided (blocks cookies : Prop) (request request' : ResourceRequest) : Prop :=
  (blocks -> request' = ResourceRequest_new) /\
  (~ blocks -> r_url request' = r_url request /\ (m_allowCookies request' = false <-> m_allowCookies request = false \/ cookies)).

Lemma existsb_type type actions : existsb (fun a => bool_decide (m_type a = type)) actions = true <-> exists a, a ∈ actions /\ m_type a = type.
Proof. rewrite existsb_exists. split; intros (a & Hin & Ht); exists a; (rewrite <- list_elem_of_In in * || rewrite list_elem_of_In in * ); rewrite ?bool_decide_eq_true in *; auto. Qed.

Lemma request_result w request resourceType loader b lists loadFlags : Forall2 extension_of b lists ->
  (exists fuel0, forall fuel, (fuel0 <= fuel)%nat -> sheets_ok hasOneRef fuel b) ->
  protocolIsData (r_url request) = false -> getResourceFlags cocoa hasOneRef stack w (load_info request resourceType loader) = Some loadFlags ->
  let url := String_chars (m_string (r_url request)) in
  Forall input_char url -> N.of_nat (length url) + 2 < 2 ^ 32 ->
  exists fuel0, forall fuel, (fuel0 <= fuel)%nat ->
  exists b' request' loader', processContentExtensionRulesForLoad cocoa hasOneRef stack fuel w request resourceType loader b = Some (b', request', loader') /\
    request_decided (some_applies lists url loadFlags BlockLoad) (some_applies lists url loadFlags BlockCookies) request request'.
Proof.
  intros Hb [f1 Hsheets] Hdata Hflags url Hurl Hlength.
  destruct (load_actions cocoa hasOneRef stack w (load_info request resourceType loader) loadFlags b lists Hb Hdata Hflags Hurl Hlength) as (actions & f2 & Hrun & Hfine & Hspec).
  exists (f1 + f2)%nat. intros fuel Hfuel. unfold processContentExtensionRulesForLoad. fold (load_info request resourceType loader). rewrite Hrun by lia. cbn [mbind option_bind].
  destruct (process_actions_fine hasOneRef fuel resourceType actions (mkProcess b request loader false) Hfine) as (p & -> & Hblock & Hu & Hcookies); [apply Hsheets; lia|].
  cbn [mbind option_bind p_willBlockLoad p_request orb] in *. eexists _, _, _. split; [done|].
  pose proof (Hspec BlockLoad (or_introl eq_refl)) as Hl. pose proof (Hspec BlockCookies (or_intror eq_refl)) as Hc.
  change (String_chars (m_string (resourceURL (load_info request resourceType loader)))) with url in *. rewrite <- existsb_type in Hl, Hc. unfold request_decided. rewrite <- Hl, <- Hc, Hblock.
  destruct (existsb (fun a => bool_decide (m_type a = BlockLoad)) actions); [split; [done|by intros []]|]. split; [done|]. intros _. split; [done|].
  by rewrite Hcookies, andb_false_iff, negb_false_iff.
Qed.
End Requests.


#[local] Existing Instances ascii_icu low_byte_encodings.

Lemma two_rules_satisfiable : satisfiable two_rules [start_a; everything].
Proof.
  exists 0%nat, (mkRule (mkTrigger (String8 [94; 97]) true 0) (Action_plain BlockLoad max32)), start_a, [97]. split_and!; [done|done|by repeat constructor|done|].
  exists [97], [0]. split; [done|]. exists [], [97]. split; [done|]. split; [done|]. exists [97], []. split; [done|]. split; [|done].
  exists [97], []. split; [done|]. split; [by exists 97|done].
Qed.

(** What [compileRuleList] writes for the two rules. *)
Definition two_rules_code : list N * list N :=
  match compileRuleList (H := insertion_order) (H0 := two_filters_yarr) (H1 := two_rules_jsc) (fun _ => true) 100 (String8 [91]) with
  | Some (Returned None [writeActions actions; writeBytecode bytecode]) => (actions, bytecode)
  | _ => ([], [])
  end.

Lemma two_rules_compiled : compileRuleList (H := insertion_order) (H0 := two_filters_yarr) (H1 := two_rules_jsc) (fun _ => true) 100 (String8 [91])
  = Some (Returned None [writeActions two_rules_code.1; writeBytecode two_rules_code.2]).
Proof. by vm_compute. Qed.

Lemma two_rules_no_ignore : no_ignored_everything two_rules [start_a; everything].
Proof. intros i rule r Hi _ Hig. destruct i as [|[|i]]; [by injection Hi as <-|by injection Hi as <-|done]. Qed.

Lemma two_rules_within locations actions s : serializeActions (fun _ => true) two_rules = Some (locations, actions) ->
  compile_rules (H0 := two_filters_yarr) locations 0 two_rules (mkCompileState [] newCombinedURLFilters false) = Some (inr s) -> within_limits (H := insertion_order) 100 s.
Proof. intros E1 E2. apply two_rules_limits. vm_compute in E1. injection E1 as <- _. exact E2. Qed.

Lemma two_rules_fit : selectors_fit (H := insertion_order) (ContentExtension_create (String8 (lit "blocker")) (mkCompiled two_rules_code.2 two_rules_code.1)).
Proof.
  destruct (compileRuleList_extension (H := insertion_order) (H0 := two_filters_yarr) (H1 := two_rules_jsc) (fun _ => true) 100 (String8 [91]) two_rules [start_a; everything]
    (String8 (lit "blocker")) two_rules_code.1 two_rules_code.2) as [locations Hx].
  - apply checked_jsc_ok.
  - reflexivity.
  - vm_compute. discriminate.
  - apply two_rules_filters.
  - apply two_rules_within.
  - apply two_rules_satisfiable.
  - apply two_rules_no_ignore.
  - apply two_rules_compiled.
  - apply (no_selectors_fit (H := insertion_order) _ two_rules [start_a; everything] locations Hx). repeat constructor; discriminate.
Qed.


(** ** The style sheet of an extension *)

(** The style sheet of the selectors of the universal rules: the first time it
    is asked for, the text that is parsed is a rule that hides for each selector,
    in their order, and there is no sheet without selectors; the answer is kept,
    and every later call gives the same, whatever its fuel. *)
Theorem global_sheet_spec (O : HashOrder) (hasOneRef : Buffer -> bool) (fuel : nat) (x : ContentExtension) (selectors : list WTFString)
  (Hnew : m_parsedGlobalDisplayNoneStyleSheet x = false /\ m_globalDisplayNoneStyleSheet x = None)
  (Hselectors : globalDisplayNoneSelectors fuel (x_compiledExtension x) = Some selectors)
  (Hok : Forall string_ok selectors) (Hsize : size (css_text selectors) <= builder_limit) :
  exists x' sheet, extension_globalDisplayNoneStyleSheet hasOneRef fuel x = Some (x', sheet) /\
    match selectors with
    | [] => sheet = None
    | _ => exists text, sheet = Some (mkSheet true text) /\ String_chars text = css_text selectors
    end /\ x_identifier x' = x_identifier x /\ x_compiledExtension x' = x_compiledExtension x /\
    forall fuel', extension_globalDisplayNoneStyleSheet hasOneRef fuel' x' = Some (x', sheet).
Proof. destruct Hnew. by apply sheet_result. Qed.

(** ** Divergences *)

(** The backend with one extension, of the rules. *)
Definition backend_of_rules (rules : list ContentExtensionRule) : option ContentExtensionsBackend :=
  match compileRuleList (H := insertion_order) (H0 := two_filters_yarr) (H1 := checked_jsc (fun _ => Some (json_rules rules))) (fun _ => true) 100 (String8 [91]) with
  | Some (Returned None [writeActions actions; writeBytecode bytecode]) => addContentExtension (String8 (lit "x")) (Some (mkCompiled bytecode actions)) []
  | _ => None
  end.

Definition a_trigger : Trigger := mkTrigger (String8 [94; 97]) true 0.
Definition everything_trigger : Trigger := mkTrigger (String8 [46; 42]) true 0.

Definition page_url : URL := default emptyURL (parse (lit "http://h/") None).
Definition a_url : URL := default emptyURL (parse (lit "a://h/") None).
Definition page_loader : DocumentLoader := mkLoader (Some (mkFrame (Some (mkCollection [] [] [])) (Some page_url))) [] [].

Definition load_of (rules : list ContentExtensionRule) (type : ResourceType) : option (ContentExtensionsBackend * ResourceRequest * DocumentLoader) :=
  b ← backend_of_rules rules;
  processContentExtensionRulesForLoad (H := insertion_order) true (fun _ => true) 0 100 World_new (mkRequest a_url true) type page_loader b.

Definition ignore_everything : list ContentExtensionRule := [mkRule everything_trigger (Action_plain IgnorePreviousRules max32)].

(** A selector, something else, and another selector. *)
Definition two_selectors : list ContentExtensionRule :=
  [mkRule a_trigger (Action_string CSSDisplayNoneSelector (String8 (lit "#a")) max32); mkRule a_trigger (Action_plain BlockCookies max32);
   mkRule a_trigger (Action_string CSSDisplayNoneSelector (String8 (lit "#b")) max32)].

(** The selectors that were added to the document. *)
Definition selectors_in (loader : DocumentLoader) : option (list (list (list N))) :=
  frame ← m_frame loader; document ← f_document frame;
  Some ((fun e => String_chars <$> m_addedRules e.2) <$> m_contentExtensionSelectorSheets document).

Definition types_of (rules : list ContentExtensionRule) : option (list ActionType) :=
  b ← backend_of_rules rules;
  actions ← actionsForResourceLoad (H := insertion_order) true (fun _ => true) 0 100 World_new (mkResourceLoadInfo a_url page_url Resource_Image) b;
  Some (map m_type actions).

Definition selectors_after (rules : list ContentExtensionRule) (type : ResourceType) : option (list (list (list N))) :=
  r ← load_of rules type;
  if bool_decide (type = Resource_Document) then loader ← commitContentExtensions (H := insertion_order) r.2; selectors_in loader else selectors_in r.2.

(** Two rule lists that [compileRuleList] accepts and the backend does not do
    right by: a first rule that matches everything and ignores the previous rules
    is among the actions of every load, which then reaches
    [RELEASE_ASSERT_NOT_REACHED]; and the loader of a document keeps one selector
    for each extension, so that of two selectors for the document the last one
    that was added is left, where the document of another load gets both. *)
Theorem backend_divergences :
  types_of ignore_everything = Some [IgnorePreviousRules; CSSDisplayNoneStyleSheet] /\ load_of ignore_everything Resource_Image = None /\
  selectors_after two_selectors Resource_Image = Some [[lit "#b"; lit "#a"]] /\
  selectors_after two_selectors Resource_Document = Some [[lit "#a"]].
Proof. by vm_compute. Qed.
